(* ===== verification/_CoqProject ===== *)
-Q . S2P
Prelude.v
Bytes.v
Identity.v
Bencode.v
Fields.v
Merkle.v
V2Hashes.v
PeerWire.v
Piece.v
UdpTracker.v
UtpSequence.v
UtpPacket.v
UtpReceive.v
UtpSend.v
UtpConnection.v
UtpStream.v
UtpMtu.v
UtpCongestion.v
HeapOrder.v
Ordered.v
Extension.v
Metadata.v
TorrentMetadata.v
PiecePriority.v
PiecePicker.v
PieceAvailability.v
PeerBudget.v
UploadScheduler.v
Bandwidth.v
Checkpoint.v
PeerRegistry.v
Pex.v
SeedPolicy.v
AutoManager.v
HashScheduler.v
V2Layout.v
StorageLayout.v
ContentLayout.v
