(* ===== verification/Prelude.v ===== *)
(** * A verification of JSTorrent's protocol and engine core

    JSTorrent is a BitTorrent client in Rust.  This library models its
    protocol logic, the crate [crates/rstorrent-protocol/src/] (called [src/]
    below), the deterministic parts of its engine, the crate
    [crates/rstorrent-engine/src/] (called [engine/]), and the policies of
    its session, the crate [crates/rstorrent-session/src/] (called
    [session/]), as executable Rocq definitions, one file per module, and
    proves that they do what they promise.

    ** The parts, and how they depend on each other

    - [Prelude]: outcomes of Rust calls, methods on [&mut self], machine
      integers, slices, weakest preconditions, and the shared tactics.
    - [Bytes]: big-endian integers, fields of a datagram, decimal numerals,
      UTF-8.
    - [Identity] ([src/identity.rs]): v1 and v2 info hashes, swarm keys, the
      identities of a torrent.
    - [Bencode] ([src/bencode.rs]): the bounded parser of the format all
      metadata comes in.  [Fields] reads the fields of its dictionaries.
    - [Merkle] ([src/merkle.rs]): BEP 52 trees, the bounded-memory
      accumulator, proofs.
    - [V2Hashes] ([src/v2_hashes.rs]): requests, responses and the catalog of
      authenticated hashes of a v2 torrent; calls [Merkle].
    - [PeerWire] ([src/peer_wire.rs]): handshakes, messages and the
      incremental frame decoder; uses [Identity] and the hash messages of
      [V2Hashes].
    - [Extension] ([src/extension.rs]): extension handshakes and peer exchange
      messages, over [Bencode] and [Fields].
    - [Metadata], [TorrentMetadata] ([src/metadata.rs]): the messages that
      carry a torrent's metadata, its download from one peer and its upload,
      and its download from several peers; the handshakes are those of
      [Extension].
    - [Piece] ([src/piece.rs]): the state machine that downloads one piece;
      driven by the messages of [PeerWire].
    - [UdpTracker] ([src/udp_tracker.rs]): the BEP 15 codecs.
    - [UtpSequence], [UtpPacket], [UtpReceive], [UtpSend]
      ([src/utp/sequence.rs], [packet.rs], [receive.rs], [send.rs]): the
      sequence order, the packet codec, the receive window and the ledger of
      sent packets of the uTP transport.
    - [UtpConnection] ([src/utp/connection.rs]): handshake, phases and closing
      of a connection; owns a ledger of [UtpSend] and a window of
      [UtpReceive] and passes every decoded packet to both.
    - [UtpStream]: the composition of a ledger and a window at the two ends of
      an unreliable network; it has no file of its own in the source.
    - [UtpMtu], [UtpCongestion] ([src/utp/mtu.rs], [congestion.rs]): the
      search for the largest datagram a path carries, and the delay-based
      congestion window with its history of delays and its pacer.
    - [V2Layout] ([src/v2_layout.rs]), [StorageLayout] and [ContentLayout]
      ([src/storage_layout.rs], its v1 part and the layout common to v1, v2
      and hybrid torrents): which bytes of which files a piece has, what to
      request of a piece, what a selection of files needs.  [PiecePriority]
      holds the priorities of that file.
    - [HeapOrder], [Ordered]: heaps as functions of positions, and finite
      maps visited in the order of their keys; used by the engine's files.
    - [PiecePicker] ([engine/piece_picker.rs]): the heap of pieces by
      rarity and priority; uses [PiecePriority].
    - [PieceAvailability] ([engine/piece_availability.rs]): the verified
      pieces, and what each connection is told of them.
    - [PeerBudget] ([engine/peer_budget.rs]): admission of connections.
    - [UploadScheduler] ([engine/upload_scheduler.rs]): who may download.
    - [Bandwidth] ([engine/bandwidth.rs]): token buckets of the session and
      of the torrents, and the allocator that serves them in turn.
    - [Checkpoint] ([engine/checkpoint.rs], and its task in
      [engine/driver/storage_pipeline.rs]): which verified pieces are
      synchronised together before they are told durable.
    - [PeerRegistry] ([engine/peer.rs], with the addresses and families of
      [engine/network.rs]): the known peers of a torrent, which of them is
      dialed next, and what becomes of each connection.
    - [Pex] ([engine/pex.rs], with the network policy of
      [engine/network.rs]): what a torrent learns from the exchange messages
      of its connections and what it tells them; over the messages of
      [Extension] and the registry of [PeerRegistry].
    - [HashScheduler] ([engine/v2_hash_scheduler.rs]): which peers are asked
      for which hashes; passes their answers to the catalog of [V2Hashes].
    - [SeedPolicy] ([session/seed_policy.rs]): the goals and ranks of seeds,
      and when a torrent counts as inactive.
    - [AutoManager] ([session/auto_manager.rs]): which torrents run, from
      these ranks and the order of the queue.

    ** Conventions

    A definition keeps the name of the Rust item; a method has its type's
    name as a prefix where two types share a name.  Integers are [Z] in the
    range of their type and every operation that wraps, saturates or checks
    is written as such; [usize] has 64 bits.  A byte is a [Z] in [0, 256); a
    [Vec] or slice is a list; a map is a [gmap].  A fallible function returns
    an [outcome]: [Ok], [Err], [Panic] (an [expect], an index or a slice out
    of range, an overflow or underflow that a checked build traps) or
    [NoFuel] (the model's own bound on a loop).  A method on [&mut self] is a
    function from a state to a state and an outcome ([M]); the state is kept
    on errors too, since later calls see it.

    Fuel is given where the recursion is not structural, and it is always
    enough: each bound is stated next to its definition (the bencode parser
    takes one unit per input byte, the frame decoder two per byte of input,
    the extension chain one more than the number of extensions allowed, the
    tree recursions the width of the layer) and the theorems on totality show
    that [NoFuel], like [Panic], is never the outcome.

    SHA-1 and SHA-256 come from other crates.  They are parameters of
    [Merkle], [V2Hashes] and [Metadata], arbitrary functions: the security theorems do not assume
    that it has no collisions, they exhibit the collision an attacker would
    have had to find, as a pair of inputs computed from the proof.

    ** What the theorems show

    - Merkle trees and hash exchange: the accumulator computes the root of
      the padded perfect tree; the roots of the pieces give the root of the
      file; a proof verifies when it comes from the tree, and one that
      verifies authenticates its subject or yields a collision.  A catalog
      of authenticated hashes stays authentic under any peer's responses, is
      not changed by a refused one, and answers requests with responses that
      another catalog accepts.
    - Bencode: the parser accepts exactly the canonical encodings within its
      limits, gives every node the span it was read from, always returns,
      and in permissive mode sorts.
    - Peer wire: whatever way a stream is cut into chunks, the decoder yields
      the messages that were encoded; no input makes it panic or keep more
      than one frame; a decoded frame is the encoding of its message.
    - Extensions: a handshake and an exchange message are read back as they
      were sent, and no message of a peer brings more contacts than allowed, an
      address twice, or one both added and dropped.
    - Metadata: the messages are read back as written; a download completes
      only with bytes of the expected hash, made of blocks it asked for, and
      against an honest upload it completes in whatever order the answers
      come; among several peers the assignments stay consistent, a wrong
      result blames exactly its contributors, and a missing block is not
      withheld by everyone.
    - Piece download: an invariant of the block states and the payload
      budget over every sequence of events; a piece is verified only after
      each block was received and stored; requests stay within the budget;
      an unchoked peer is asked for a missing block.
    - Trackers: responses are accepted exactly in their layouts; requests
      have theirs.
    - uTP: the circular sequence order; the decoder accepts exactly the
      well-formed packets and the encoder's output among them; over a
      network that loses, repeats and reorders packets the receiver delivers
      a prefix of the sender's stream, its window stays bounded and its
      selective acknowledgements are exact; the sender's ledger is bounded,
      and an acknowledgement removes exactly the packets it covers.  The two
      ends together, when nothing arrives later than half the sequence space:
      a packet that is no longer in the ledger has arrived, so an empty ledger
      means that the whole stream was delivered.  A connection
      moves forward through its phases only, keeps both halves consistent
      under every call, connects by its handshake, and closes only when both
      directions are finished and acknowledged.
    - uTP control: the search for the path's datagram size keeps the size
      between its bounds and ends within twelve probes; the queueing delay is
      the difference of the least recent and least recorded delay although
      the clock wraps; the congestion window grows below the target delay,
      shrinks above it, and stays within its bounds.
    - Layouts: the pieces of a v2 torrent partition its files and start at
      aligned offsets; the segments of an interval read exactly that interval
      of the torrent; requests cover the bytes of a piece that are not
      padding, once; the fast count of the payload a selection needs equals
      the sum over its pieces; priorities of files reach exactly the pieces
      they share.
    - Piece picker: the heap and the index of positions agree after every
      operation, and the piece reserved is the best one a peer can serve.
      The theorems are about torrents of at most [POSITION_DETACHED] pieces,
      the code's own reservation of the largest positions.
    - Availability: following the change log, a connection is told each
      verified piece once, and of no other.
    - Connections and uploads: the budget counts the live permits, and a
      smaller limit asks the fewest and newest connections to stop; upload
      slots are filled, go to the best peers, and no interested peer waits
      for an optimistic slot forever.
    - Transfer quota: over every window of time a bucket lets through at most
      its burst and what its rate earns, however requests, grants, returns
      and changes of other limits interleave; queues, flags and counters
      agree; an allocation returns and is exact; turns are fair.  Two
      theorems show errors: [second_request_panics] and
      [request_after_stop_stays].
    - Checkpoints: a piece is told durable after all its targets were
      synchronised, once, in order, and all pieces are by the time the task
      ends; the task's own consistency checks never fail; the timer is set to
      the moment the oldest piece is due.
    - Peer registry: identities, endpoints and live attempts are unique and
      the bounds hold after every sequence of calls; the peer selected is the
      best one and can be dialed; an attempt is answered at most once; a
      banned peer is never dialed again, and a peer condemned for a corrupt
      piece is banned when its last use ends; a full registry evicts the
      worst idle peer; failures back off.
    - Peer exchange: the two records of who named which contact agree and stay
      bounded; a message is applied at most once a minute, and only admissible
      contacts are taken; a connection that is sent to in time knows exactly
      the live peers.  One theorem shows an error: [moved_peer_refused].
    - Hash requests: the needs are served in their order within the limits of
      the range, the peer and the torrent, and nothing is left without a
      reason; each answer is settled against its attempt; pieces are released
      once.
    - Seeding and admission: ranks order seeds by unmet goals, missing
      seeds, recent start and demand, in this order; activity changes only
      after a minute of the opposite observation; the admission decisions
      are greedy by priority within the limits; no running download is left
      out for a queued one, and a running seed only for one of higher rank.

    ** What is not modelled

    The [Display] and [Error] implementations (texts of errors), accessors
    that return a field, derived traits, and the failure of an allocation
    (the [try_reserve] of [insert_response] always succeeds) or sizes no
    memory holds (the product [expected_length * 8] of [on_bitfield], the
    length of a bitfield in bits, is not checked for overflow).  Of the protocol crate: metainfo
    and magnet parsing, the DHT messages, stream encryption,
    and uTP's socket transport.  Of the engine: its
    asynchronous runtime, sockets and files; cancellation tokens and the
    operating system's limit on open files are parameters of [PeerBudget], the
    clock and the receivers of requests of [Bandwidth], the disk and the store
    of [Checkpoint].
    Of the session: its database and application, apart from the two policies.
    Of the repository: the gateway, the platform hosts and the clients. *)
From Stdlib Require Export ZArith Lia.
From stdpp Require Export prelude gmap.

#[global] Open Scope Z_scope.

(** ** Outcomes

    A Rust call returns normally, returns an error value, or panics (an
    [expect] on [None], an index out of range, an arithmetic overflow in a
    checked build).  [NoFuel] is the model's own outcome: a loop that used
    up its iteration bound.  Each component proves that the last two never
    happen on the inputs it promises to handle. *)
Inductive outcome (E A : Type) : Type :=
| Ok (a : A)
| Err (e : E)
| Panic
| NoFuel.
Arguments Ok {E A} a.
Arguments Err {E A} e.
Arguments Panic {E A}.
Arguments NoFuel {E A}.

#[export] Instance outcome_ret E : MRet (outcome E) := fun A a => Ok a.
#[export] Instance outcome_bind E : MBind (outcome E) := fun A B f m =>
  match m with
  | Ok a => f a
  | Err e => Err e
  | Panic => Panic
  | NoFuel => NoFuel
  end.

(** [Option::ok_or], [Option::expect] and [Result::map_err]. *)
Definition ok_or {E A} (o : option A) (e : E) : outcome E A :=
  match o with Some a => Ok a | None => Err e end.
Definition expect {E A} (o : option A) : outcome E A :=
  match o with Some a => Ok a | None => Panic end.
Definition map_err {E F A} (f : E -> F) (m : outcome E A) : outcome F A :=
  match m with
  | Ok a => Ok a
  | Err e => Err (f e)
  | Panic => Panic
  | NoFuel => NoFuel
  end.

(** A call that returned, one way or the other. *)
Definition returns {E A} (m : outcome E A) : Prop :=
  match m with Ok _ | Err _ => True | Panic | NoFuel => False end.

(** ** Methods taking [&mut self]

    The state reached is kept on every outcome, also on an error: a later
    call sees the fields an earlier failing call had already changed. *)
Definition M (S E A : Type) : Type := S -> S * outcome E A.

#[export] Instance M_ret S E : MRet (M S E) := fun A a s => (s, Ok a).
#[export] Instance M_bind S E : MBind (M S E) := fun A B f m s =>
  match m s with
  | (s', Ok a) => f a s'
  | (s', Err e) => (s', Err e)
  | (s', Panic) => (s', Panic)
  | (s', NoFuel) => (s', NoFuel)
  end.

Definition get {S E} : M S E S := fun s => (s, Ok s).
Definition put {S E} (s : S) : M S E unit := fun _ => (s, Ok tt).
Definition modify {S E} (f : S -> S) : M S E unit := fun s => (f s, Ok tt).
Definition gets {S E A} (f : S -> A) : M S E A := fun s => (s, Ok (f s)).
Definition lift {S E A} (m : outcome E A) : M S E A := fun s => (s, m).
Definition fail {S E A} (e : E) : M S E A := fun s => (s, Err e).

(** ** Machine integers

    Every integer is a [Z]; a value of an unsigned type of width [w] lies
    in [0 <= x < 2^w].  The operations are those of the Rust integer types. *)
Definition umax (w : Z) : Z := 2 ^ w - 1.
Definition is_u (w x : Z) : Prop := 0 <= x < 2 ^ w.
Definition USIZE : Z := 64.

Definition checked_add (w a b : Z) : option Z :=
  if a + b <? 2 ^ w then Some (a + b) else None.
Definition checked_mul (w a b : Z) : option Z :=
  if a * b <? 2 ^ w then Some (a * b) else None.
Definition checked_sub (a b : Z) : option Z :=
  if b <=? a then Some (a - b) else None.
Definition saturating_add (w a b : Z) : Z := Z.min (a + b) (umax w).
Definition saturating_mul (w a b : Z) : Z := Z.min (a * b) (umax w).
Definition saturating_sub (a b : Z) : Z := Z.max 0 (a - b).
(** [u32::try_from] and [usize::try_from] of an unsigned integer. *)
Definition try_u (w x : Z) : option Z := if x <? 2 ^ w then Some x else None.
Definition wrapping_add (w a b : Z) : Z := (a + b) mod 2 ^ w.
Definition wrapping_sub (w a b : Z) : Z := (a - b) mod 2 ^ w.
Definition div_ceil (a b : Z) : Z := (a + b - 1) / b.
Definition is_multiple_of (a b : Z) : bool := a mod b =? 0.
Definition is_power_of_two (n : Z) : bool := (0 <? n) && (Z.land n (n - 1) =? 0).

Fixpoint pos_trailing_zeros (p : positive) : Z :=
  match p with xO q => 1 + pos_trailing_zeros q | _ => 0 end.
(** [trailing_zeros] of a [w]-bit value; the width when it is zero. *)
Definition trailing_zeros (w n : Z) : Z :=
  match n with Zpos p => pos_trailing_zeros p | _ => w end.
(** The smallest power of two that is at least [n]. *)
Definition next_power_of_two (n : Z) : Z := 2 ^ Z.log2_up n.
Definition checked_next_power_of_two (w n : Z) : option Z :=
  if next_power_of_two n <? 2 ^ w then Some (next_power_of_two n) else None.
(** [1 << s] and friends: [checked_shl] fails only when the shift reaches
    the width; bits shifted out are lost. *)
Definition checked_shl (w a s : Z) : option Z :=
  if s <? w then Some (Z.shiftl a s mod 2 ^ w) else None.
Definition checked_shr (w a s : Z) : option Z :=
  if s <? w then Some (Z.shiftr a s) else None.

(** ** Slices and vectors *)
Definition len {A} (l : list A) : Z := Z.of_nat (length l).
Definition nth_get {A} (l : list A) (i : Z) : option A :=
  if 0 <=? i then l !! Z.to_nat i else None.
Definition sub_list {A} (l : list A) (a b : Z) : list A :=
  take (Z.to_nat (b - a)) (drop (Z.to_nat a) l).
(** [&l[a..b]], which panics unless [a <= b <= l.len()]. *)
Definition slice {E A} (l : list A) (a b : Z) : outcome E (list A) :=
  if (0 <=? a) && (a <=? b) && (b <=? len l) then Ok (sub_list l a b) else Panic.
Definition index {E A} (l : list A) (i : Z) : outcome E A := expect (nth_get l i).
Definition skip {A} (l : list A) (a : Z) : list A := drop (Z.to_nat a) l.

(** * Lemmas *)

Create HintDb jst.
Create Rewrite HintDb jst_len.

(** ** Weakest preconditions for methods

    [wp m s Q R]: called in state [s], [m] returns, with a value satisfying
    [Q] or an error satisfying [R] together with the state reached.  So
    [wp] also says that the call neither panics nor runs out of iterations. *)
Definition wp {S E A} (m : M S E A) (s : S)
    (Q : A -> S -> Prop) (R : E -> S -> Prop) : Prop :=
  match m s with
  | (s', Ok a) => Q a s'
  | (s', Err e) => R e s'
  | (_, Panic) => False
  | (_, NoFuel) => False
  end.

Section wp.
Context {S E : Type}.
Implicit Types (s : S) (R : E -> S -> Prop).

Lemma wp_bind {A B} (m : M S E A) (f : A -> M S E B) s (Q : B -> S -> Prop) R :
  wp m s (fun a s' => wp (f a) s' Q R) R -> wp (m ≫= f) s Q R.
Proof.
  unfold wp, mbind, M_bind. destruct (m s) as [s' [a|e| |]]; done.
Qed.
Lemma wp_mono {A} (m : M S E A) s (Q Q' : A -> S -> Prop) R R' :
  wp m s Q' R' -> (forall a s', Q' a s' -> Q a s') -> (forall e s', R' e s' -> R e s') ->
  wp m s Q R.
Proof. unfold wp. destruct (m s) as [s' [a|e| |]]; eauto. Qed.
(** Also what is known of the call itself may be used. *)
Lemma wp_with {A} (m : M S E A) s (Q Q' : A -> S -> Prop) R R' :
  wp m s Q' R' -> (forall a s', m s = (s', Ok a) -> Q' a s' -> Q a s') ->
  (forall e s', m s = (s', Err e) -> R' e s' -> R e s') -> wp m s Q R.
Proof. unfold wp. destruct (m s) as [s' [a|e| |]]; eauto. Qed.
Lemma wp_conj {A} (m : M S E A) s (Q Q' : A -> S -> Prop) R R' :
  wp m s Q R -> wp m s Q' R' -> wp m s (fun a s' => Q a s' /\ Q' a s') (fun e s' => R e s' /\ R' e s').
Proof. unfold wp. destruct (m s) as [s' [a|e| |]]; done. Qed.
Lemma bind_panic {A B} (m : M S E A) (f : A -> M S E B) s s' : m s = (s', Panic) -> (m ≫= f) s = (s', Panic).
Proof. unfold mbind, M_bind. by intros ->. Qed.
Lemma wp_ret {A} (a : A) s (Q : A -> S -> Prop) R : Q a s -> wp (mret a) s Q R.
Proof. done. Qed.
Lemma wp_fail {A} (e : E) s (Q : A -> S -> Prop) R : R e s -> wp (fail e) s Q R.
Proof. done. Qed.
Lemma wp_get s (Q : S -> S -> Prop) R : Q s s -> wp get s Q R.
Proof. done. Qed.
Lemma wp_gets {A} (f : S -> A) s (Q : A -> S -> Prop) R : Q (f s) s -> wp (gets f) s Q R.
Proof. done. Qed.
Lemma wp_put s' s (Q : unit -> S -> Prop) R : Q tt s' -> wp (put s') s Q R.
Proof. done. Qed.
Lemma wp_modify (f : S -> S) s (Q : unit -> S -> Prop) R : Q tt (f s) -> wp (modify f) s Q R.
Proof. done. Qed.
Lemma wp_lift_ok {A} (a : A) s (Q : A -> S -> Prop) R : Q a s -> wp (lift (Ok a)) s Q R.
Proof. done. Qed.
Lemma wp_lift_err {A} (e : E) s (Q : A -> S -> Prop) R : R e s -> wp (lift (Err e)) s Q R.
Proof. done. Qed.
Lemma wp_lift_ok_or {A} (o : option A) (e : E) s (Q : A -> S -> Prop) R :
  (forall a, o = Some a -> Q a s) -> (o = None -> R e s) -> wp (lift (ok_or o e)) s Q R.
Proof. unfold wp, lift, ok_or. destruct o; auto. Qed.
(** The same steps as equations. *)
Lemma get_bind {A} (f : S -> M S E A) s : (get ≫= f) s = f s s.
Proof. done. Qed.
Lemma lift_ok_bind {A B} (a : A) (f : A -> M S E B) s : (lift (Ok a) ≫= f) s = f a s.
Proof. done. Qed.
Lemma modify_bind {A} (g : S -> S) (f : unit -> M S E A) s : (modify g ≫= f) s = f tt (g s).
Proof. done. Qed.
Lemma lift_err_bind {A B} (e : E) (f : A -> M S E B) s : (lift (Err e) ≫= f) s = (s, Err e).
Proof. done. Qed.
End wp.

(** One step of symbolic execution. *)
Ltac wp_step :=
  lazymatch goal with
  | |- wp (mbind _ _) _ _ _ => apply wp_bind
  | |- wp (mret _) _ _ _ => apply wp_ret
  | |- wp (fail _) _ _ _ => apply wp_fail
  | |- wp get _ _ _ => apply wp_get
  | |- wp (gets _) _ _ _ => apply wp_gets
  | |- wp (put _) _ _ _ => apply wp_put
  | |- wp (modify _) _ _ _ => apply wp_modify
  | |- wp (lift (Ok _)) _ _ _ => apply wp_lift_ok
  | |- wp (lift (Err _)) _ _ _ => apply wp_lift_err
  | |- wp (if ?b then _ else _) _ _ _ => destruct b eqn:?
  end; cbv beta.
(** Use a proved specification of a call. *)
Ltac wp_call H := eapply wp_mono; [eapply H|cbv beta|cbv beta].

(** ** Calls that return *)
Lemma ok_bind {E A B} (a : A) (f : A -> outcome E B) : (Ok a ≫= f) = f a.
Proof. done. Qed.
Lemma err_bind {E A B} (e : E) (f : A -> outcome E B) : (Err e ≫= f) = Err e.
Proof. done. Qed.
(** Continue after a call whose outcome is known. *)
Ltac obind := cbn [ok_or expect map_err]; rewrite ?ok_bind, ?err_bind.
Lemma returns_bind {E A B} (m : outcome E A) (f : A -> outcome E B) :
  returns m -> (forall a, m = Ok a -> returns (f a)) -> returns (m ≫= f).
Proof. unfold mbind, outcome_bind. destruct m; cbn; auto. Qed.
Lemma returns_ok_or {E A} (o : option A) (e : E) : returns (ok_or o e).
Proof. by destruct o. Qed.
Lemma returns_map_err {E F A} (f : E -> F) (m : outcome E A) : returns m -> returns (map_err f m).
Proof. by destruct m. Qed.
(** Walk through the branches of a call, keeping the equations. *)
Ltac returns_step :=
  lazymatch goal with
  | |- returns (Ok _) => exact I
  | |- returns (Err _) => exact I
  | |- returns (mret _) => exact I
  | |- returns (mbind _ _) => apply returns_bind; [|intros ? ?]
  | |- returns (ok_or _ _) => apply returns_ok_or
  | |- returns (map_err _ _) => apply returns_map_err
  | |- returns (if ?b then _ else _) => destruct b eqn:?
  | |- returns (match ?x with _ => _ end) => destruct x eqn:?
  end.

(** ** Lengths and slices *)
Section lists.
Context {A : Type}.
Implicit Types (l k : list A).

Lemma len_nonneg l : 0 <= len l.
Proof. unfold len. lia. Qed.
Lemma len_nil : len (@nil A) = 0.
Proof. done. Qed.
Lemma len_cons (a : A) l : len (a :: l) = 1 + len l.
Proof. unfold len. simpl. lia. Qed.
Lemma len_app l k : len (l ++ k) = len l + len k.
Proof. unfold len. rewrite length_app. lia. Qed.
Lemma len_snoc l (a : A) : len (l ++ [a]) = len l + 1.
Proof. rewrite len_app. done. Qed.
Lemma len_0_nil l : len l = 0 -> l = [].
Proof. destruct l; [done|]. rewrite len_cons. pose proof (len_nonneg l). lia. Qed.
Lemma len_drop n l : len (drop n l) = Z.max 0 (len l - Z.of_nat n).
Proof. unfold len. rewrite length_drop. lia. Qed.
Lemma len_skip l a : 0 <= a -> len (skip l a) = Z.max 0 (len l - a).
Proof. intros. unfold skip. rewrite len_drop. lia. Qed.
Lemma len_take n l : len (take n l) = Z.min (Z.of_nat n) (len l).
Proof. unfold len. rewrite length_take. lia. Qed.
Lemma len_sub_list l a b :
  0 <= a <= b -> b <= len l -> len (sub_list l a b) = b - a.
Proof. intros. unfold sub_list. rewrite len_take, len_drop. lia. Qed.
Lemma len_replicate n (a : A) : len (replicate n a) = Z.of_nat n.
Proof. unfold len. by rewrite length_replicate. Qed.
Lemma len_insert l i (a : A) : len (<[i:=a]> l) = len l.
Proof. unfold len. by rewrite length_insert. Qed.

Lemma nth_get_lookup l i : 0 <= i -> nth_get l i = l !! Z.to_nat i.
Proof. intros. unfold nth_get. rewrite (proj2 (Z.leb_le _ _)); done. Qed.
Lemma nth_get_Some l i : is_Some (nth_get l i) <-> 0 <= i < len l.
Proof.
  unfold nth_get, len. destruct (Z.leb_spec 0 i).
  - rewrite lookup_lt_is_Some. lia.
  - split; [by intros []|lia].
Qed.
Lemma nth_get_lt l i a : nth_get l i = Some a -> 0 <= i < len l.
Proof. intros H. apply nth_get_Some. eauto. Qed.
Lemma nth_get_ge l i : len l <= i -> nth_get l i = None.
Proof.
  intros H. destruct (nth_get l i) eqn:E; [|done].
  apply nth_get_lt in E. lia.
Qed.
Lemma nth_get_app_l l k i : i < len l -> nth_get (l ++ k) i = nth_get l i.
Proof.
  intros H. unfold nth_get. destruct (Z.leb_spec 0 i); [|done].
  rewrite lookup_app_l; [done|]. unfold len in H. lia.
Qed.
Lemma nth_get_app_len l (a : A) k : nth_get (l ++ a :: k) (len l) = Some a.
Proof.
  unfold nth_get. destruct (Z.leb_spec 0 (len l)).
  - unfold len. rewrite Nat2Z.id. by apply list_lookup_middle.
  - pose proof (len_nonneg l). lia.
Qed.

Lemma sub_list_all l : sub_list l 0 (len l) = l.
Proof.
  unfold sub_list. simpl. rewrite drop_0, take_ge; [done|]. unfold len. lia.
Qed.
Lemma sub_list_empty l a : sub_list l a a = [].
Proof. unfold sub_list. by rewrite Z.sub_diag. Qed.
(** Consecutive slices join. *)
Lemma sub_list_join l a b c :
  0 <= a <= b -> b <= c -> sub_list l a c = sub_list l a b ++ sub_list l b c.
Proof.
  intros Hab Hbc. unfold sub_list.
  replace (Z.to_nat b) with (Z.to_nat a + Z.to_nat (b - a))%nat by lia.
  rewrite <- drop_drop.
  replace (Z.to_nat (c - a)) with (Z.to_nat (b - a) + Z.to_nat (c - b))%nat by lia.
  by rewrite take_take_drop.
Qed.
Lemma sub_list_one l i a : nth_get l i = Some a -> sub_list l i (i + 1) = [a].
Proof.
  unfold nth_get, sub_list. destruct (Z.leb_spec 0 i); [|done]. intros Hl.
  replace (i + 1 - i) with 1 by lia. change (Z.to_nat 1) with 1%nat.
  by rewrite (drop_S _ _ _ Hl).
Qed.
(** The slice of a concatenation that is its middle part. *)
Lemma sub_list_middle l m k a b :
  a = len l -> b = len l + len m -> sub_list (l ++ m ++ k) a b = m.
Proof.
  intros -> ->. unfold sub_list, len.
  rewrite Nat2Z.id, drop_app_length, take_app_le by lia.
  apply take_ge. lia.
Qed.
Lemma skip_app l k a : a = len l -> skip (l ++ k) a = k.
Proof. intros ->. unfold skip, len. rewrite Nat2Z.id. apply drop_app_length. Qed.
Lemma skip_sub_list l a : 0 <= a <= len l -> skip l a = sub_list l a (len l).
Proof.
  intros H. unfold skip, sub_list. rewrite take_ge; [done|].
  rewrite length_drop. unfold len in *. lia.
Qed.
Lemma sub_list_skip l a :
  0 <= a <= len l -> l = sub_list l 0 a ++ skip l a.
Proof.
  intros H. unfold sub_list, skip. simpl. rewrite drop_0, Z.sub_0_r.
  symmetry. apply take_drop.
Qed.

Lemma slice_ok {E} l a b :
  0 <= a <= b -> b <= len l -> @slice E A l a b = Ok (sub_list l a b).
Proof.
  intros. unfold slice.
  rewrite (proj2 (Z.leb_le 0 a)), (proj2 (Z.leb_le a b)), (proj2 (Z.leb_le b (len l))) by lia.
  done.
Qed.
Lemma slice_inv {E} l a b m :
  @slice E A l a b = Ok m -> 0 <= a <= b /\ b <= len l /\ m = sub_list l a b.
Proof. unfold slice. intros H. case_match; simplify_eq. split_and!; [lia..|done]. Qed.
End lists.

#[export] Hint Resolve len_nonneg : jst.
#[export] Hint Rewrite @len_nil @len_cons @len_app @len_replicate @len_insert : jst_len.

(** ** Integer facts *)
Lemma pow2_pos w : 0 <= w -> 0 < 2 ^ w.
Proof. intros. apply Z.pow_pos_nonneg; lia. Qed.
Lemma saturating_sub_le a b : 0 <= b -> 0 <= a -> 0 <= saturating_sub a b <= a.
Proof. unfold saturating_sub. lia. Qed.
Lemma checked_add_fits w a b : a + b < 2 ^ w -> checked_add w a b = Some (a + b).
Proof. intros H. unfold checked_add. by rewrite (proj2 (Z.ltb_lt _ _) H). Qed.
Lemma checked_add_over w a b : 2 ^ w <= a + b -> checked_add w a b = None.
Proof. intros H. unfold checked_add. by rewrite (proj2 (Z.ltb_ge _ _) H). Qed.
Lemma checked_mul_fits w a b : a * b < 2 ^ w -> checked_mul w a b = Some (a * b).
Proof. intros H. unfold checked_mul. by rewrite (proj2 (Z.ltb_lt _ _) H). Qed.
Lemma checked_sub_fits a b : b <= a -> checked_sub a b = Some (a - b).
Proof. intros H. unfold checked_sub. by rewrite (proj2 (Z.leb_le _ _) H). Qed.
Lemma checked_sub_under a b : a < b -> checked_sub a b = None.
Proof. intros H. unfold checked_sub. by rewrite (proj2 (Z.leb_gt _ _) H). Qed.
Lemma try_u_fits w x : x < 2 ^ w -> try_u w x = Some x.
Proof. intros H. unfold try_u. by rewrite (proj2 (Z.ltb_lt _ _) H). Qed.
Lemma checked_add_Some w a b c :
  checked_add w a b = Some c <-> c = a + b /\ a + b < 2 ^ w.
Proof. unfold checked_add. destruct (Z.ltb_spec (a + b) (2 ^ w)); split; intros; simplify_eq; try done; intuition (try congruence; lia). Qed.
Lemma checked_sub_Some a b c :
  checked_sub a b = Some c <-> c = a - b /\ b <= a.
Proof. unfold checked_sub. destruct (Z.leb_spec b a); split; intros; simplify_eq; try done; intuition (try congruence; lia). Qed.
Lemma div_ceil_spec a b : 0 < b -> (div_ceil a b - 1) * b < a <= div_ceil a b * b.
Proof.
  intros. unfold div_ceil.
  pose proof (Z.div_mod (a + b - 1) b ltac:(lia)). pose proof (Z.mod_pos_bound (a + b - 1) b ltac:(lia)). nia.
Qed.

(** ** Bits and updated slots *)
Lemma land_bit w k : 0 <= k -> (Z.land w (Z.shiftl 1 k) =? 0) = negb (Z.testbit w k).
Proof.
  intros Hk. assert (Z.land w (Z.shiftl 1 k) = if Z.testbit w k then 2 ^ k else 0) as ->.
  { apply Z.bits_inj'. intros n Hn. rewrite Z.land_spec, Z.shiftl_1_l, Z.pow2_bits_eqb by done.
    destruct (Z.eqb_spec k n) as [->|Hne].
    - rewrite andb_true_r. destruct (Z.testbit w n) eqn:E; [by rewrite Z.pow2_bits_true|by rewrite Z.bits_0].
    - rewrite andb_false_r. destruct (Z.testbit w k); [by rewrite Z.pow2_bits_false|by rewrite Z.bits_0]. }
  pose proof (pow2_pos k Hk). destruct (Z.testbit w k); [|done]. apply Z.eqb_neq. lia.
Qed.
Lemma div_lt_ceil i n d : 0 < d -> 0 <= i < n -> 0 <= i / d < div_ceil n d.
Proof.
  intros Hd Hi. split; [apply Z.div_pos; lia|].
  pose proof (div_ceil_spec n d Hd). pose proof (Z.div_mod i d ltac:(lia)).
  pose proof (Z.mod_pos_bound i d Hd). nia.
Qed.
Lemma nth_get_is_Some {A} (l : list A) i : 0 <= i < len l -> exists x, nth_get l i = Some x.
Proof. intros H. by apply nth_get_Some in H as [x Hx]; eauto. Qed.
Lemma nth_get_insert {A} (l : list A) i j x : 0 <= i < len l -> 0 <= j ->
  nth_get (<[Z.to_nat i:=x]> l) j = if bool_decide (j = i) then Some x else nth_get l j.
Proof.
  intros Hi Hj. rewrite !nth_get_lookup by done. case_bool_decide as E.
  - subst j. apply list_lookup_insert_eq. unfold len in Hi. lia.
  - apply list_lookup_insert_ne. lia.
Qed.

Lemma nth_get_replicate {A} n (a b : A) i : nth_get (replicate n a) i = Some b -> b = a.
Proof. unfold nth_get. case_match; [|done]. intros [-> _]%lookup_replicate. done. Qed.
Lemma nth_get_replicate_lt {A} n (a : A) i : 0 <= i < Z.of_nat n -> nth_get (replicate n a) i = Some a.
Proof. intros Hi. rewrite nth_get_lookup by lia. apply lookup_replicate_2. lia. Qed.
Lemma nth_get_ext {A} (l k : list A) : len l = len k -> (forall i, 0 <= i < len l -> nth_get l i = nth_get k i) -> l = k.
Proof.
  intros Hl Hi. apply list_eq. intros i. destruct (decide (i < length l)%nat) as [H|H].
  - specialize (Hi (Z.of_nat i)). rewrite !nth_get_lookup, Nat2Z.id in Hi by lia. apply Hi. unfold len. lia.
  - unfold len in Hl. rewrite !lookup_ge_None_2 by lia. done.
Qed.
Lemma nth_get_sub_list {A} (l : list A) a b j : 0 <= a -> 0 <= j < b - a -> nth_get (sub_list l a b) j = nth_get l (a + j).
Proof.
  intros Ha Hj. unfold sub_list. rewrite !nth_get_lookup, lookup_take_lt, lookup_drop by lia. f_equal. lia.
Qed.
Lemma nth_get_app {A} (l k : list A) i : 0 <= i -> nth_get (l ++ k) i = if i <? len l then nth_get l i else nth_get k (i - len l).
Proof.
  intros Hi. destruct (Z.ltb_spec i (len l)); [by apply nth_get_app_l|]. unfold len in *. rewrite !nth_get_lookup by lia.
  rewrite lookup_app_r by lia. f_equal. lia.
Qed.

(** ** Tactics *)

(** Case analysis on the innermost [if] or [match] of a hypothesis. *)
Ltac case_in H :=
  match type of H with
  | context [if ?b then _ else _] => destruct b eqn:?
  | context [match ?x with _ => _ end] => destruct x eqn:?
  end.
(** Linear arithmetic with division and remainder by constants. *)
Ltac divlia := Z.to_euclidean_division_equations; lia.
(** Normalise lengths, then solve the arithmetic. *)
Ltac len_lia :=
  autorewrite with jst_len in *;
  repeat match goal with
  | |- context [len ?l] => lazymatch goal with _ : 0 <= len l |- _ => fail | _ => pose proof (len_nonneg l) end
  | _ : context [len ?l] |- _ => lazymatch goal with _ : 0 <= len l |- _ => fail | _ => pose proof (len_nonneg l) end
  end; lia.

(** ** Indexing *)
Lemma nth_get_cons {A} (a : A) l i : nth_get (a :: l) i = if i =? 0 then Some a else nth_get l (i - 1).
Proof.
  destruct (Z.eqb_spec i 0) as [->|]; [done|]. unfold nth_get. destruct (Z.leb_spec 0 i).
  - rewrite (proj2 (Z.leb_le _ _)) by lia. by replace (Z.to_nat i) with (S (Z.to_nat (i - 1))) by lia.
  - by rewrite (proj2 (Z.leb_gt _ _)) by lia.
Qed.
