(* ===== verification/Bytes.v ===== *)
(** * Bytes: big-endian integers, ASCII digits and UTF-8

    A byte is a [Z] in [0, 256).  The conversions are the standard
    library's [to_be_bytes] and [from_be_bytes] at the widths the wire
    formats use, and the validity test of [std::str::from_utf8]. *)
From S2P Require Import Prelude.

Definition is_byte (b : Z) : Prop := 0 <= b < 256.
Definition is_bytes (bs : list Z) : Prop := Forall is_byte bs.

(** The [n] bytes of [x], most significant first. *)
Fixpoint to_be (n : nat) (x : Z) : list Z :=
  match n with
  | O => []
  | S m => (x / 256 ^ Z.of_nat m) mod 256 :: to_be m x
  end.
(** The number whose big-endian bytes are [bs]. *)
Definition of_be (bs : list Z) : Z := fold_left (fun acc b => acc * 256 + b) bs 0.

(** [uN::from_be_bytes(bytes[offset..offset + width].try_into()..)], which
    panics when the slice is out of range. *)
Definition read_be {E} (bytes : list Z) (offset width : Z) : outcome E Z :=
  field ← slice bytes offset (offset + width); Ok (of_be field).

Definition is_ascii_digit (b : Z) : bool := (48 <=? b) && (b <=? 57).

Definition in_range (lo hi b : Z) : bool := (lo <=? b) && (b <=? hi).
Definition utf8_cont (b : Z) : bool := in_range 128 191 b.

(** [from_utf8] accepts exactly the well-formed byte sequences: no
    overlong form, no surrogate, nothing above U+10FFFF. *)
Fixpoint utf8_valid (bs : list Z) : bool :=
  match bs with
  | [] => true
  | b0 :: r0 =>
    if b0 <=? 127 then utf8_valid r0
    else if in_range 194 223 b0 then
      match r0 with
      | b1 :: r1 => utf8_cont b1 && utf8_valid r1
      | _ => false
      end
    else if in_range 224 239 b0 then
      match r0 with
      | b1 :: b2 :: r2 =>
        in_range (if b0 =? 224 then 160 else 128) (if b0 =? 237 then 159 else 191) b1
        && utf8_cont b2 && utf8_valid r2
      | _ => false
      end
    else if in_range 240 244 b0 then
      match r0 with
      | b1 :: b2 :: b3 :: r3 =>
        in_range (if b0 =? 240 then 144 else 128) (if b0 =? 244 then 143 else 191) b1
        && utf8_cont b2 && utf8_cont b3 && utf8_valid r3
      | _ => false
      end
    else false
  end.

(** ** Decimal numerals *)

(** The value of a string of ASCII digits. *)
Definition dec_value (ds : list Z) : Z := fold_left (fun acc b => acc * 10 + (b - 48)) ds 0.

Fixpoint dec_digits (fuel : nat) (n : Z) : list Z :=
  match fuel with
  | O => []
  | S f => if n <? 10 then [48 + n] else dec_digits f (n / 10) ++ [48 + n mod 10]
  end.
(** The decimal numeral of [n]: no leading zero. *)
Definition decimal (n : Z) : list Z := dec_digits (S (Z.to_nat (Z.log2 n))) n.

(** A numeral without leading zeros, and not empty. *)
Definition canonical_digits (ds : list Z) : Prop :=
  Forall (fun b => is_ascii_digit b = true) ds /\ ds <> [] /\
  (1 < len ds -> nth_get ds 0 <> Some 48).

(** * Lemmas *)
Lemma is_bytes_app l k : is_bytes (l ++ k) <-> is_bytes l /\ is_bytes k.
Proof. apply Forall_app. Qed.
Lemma is_bytes_sub_list l a b : is_bytes l -> is_bytes (sub_list l a b).
Proof. intros. by apply Forall_take, Forall_drop. Qed.
Lemma is_bytes_skip l a : is_bytes l -> is_bytes (skip l a).
Proof. intros. by apply Forall_drop. Qed.
Lemma is_bytes_nth l i b : is_bytes l -> nth_get l i = Some b -> is_byte b.
Proof.
  intros Hl. unfold nth_get. destruct (0 <=? i); [|done].
  intros Hi. by apply (Forall_lookup_1 _ _ _ _ Hl Hi).
Qed.

Lemma length_to_be n x : length (to_be n x) = n.
Proof. induction n; simpl; auto. Qed.
Lemma len_to_be n x : len (to_be n x) = Z.of_nat n.
Proof. unfold len. by rewrite length_to_be. Qed.
Lemma is_bytes_to_be n x : is_bytes (to_be n x).
Proof.
  induction n; simpl; constructor; [|done].
  unfold is_byte. apply Z.mod_pos_bound. lia.
Qed.

Lemma of_be_acc bs acc :
  fold_left (fun a b => a * 256 + b) bs acc = acc * 256 ^ len bs + of_be bs.
Proof.
  unfold of_be. revert acc. induction bs as [|b bs IH]; intros acc; simpl.
  - cbn [len length Z.of_nat]. change (len []) with 0. rewrite Z.pow_0_r. lia.
  - pose proof (len_nonneg bs). rewrite IH, (IH (0 * 256 + b)), len_cons.
    rewrite Z.pow_add_r by lia. lia.
Qed.
Lemma of_be_cons b bs : of_be (b :: bs) = b * 256 ^ len bs + of_be bs.
Proof. unfold of_be at 1. simpl. rewrite of_be_acc. lia. Qed.

Lemma of_be_range bs : is_bytes bs -> 0 <= of_be bs < 256 ^ len bs.
Proof.
  induction 1 as [|b bs Hb _ IH].
  - change (0 <= 0 < 1). lia.
  - pose proof (len_nonneg bs). rewrite of_be_cons, len_cons, Z.pow_add_r by lia.
    unfold is_byte in Hb. nia.
Qed.

Lemma of_be_to_be_mod n x : of_be (to_be n x) = x mod 256 ^ Z.of_nat n.
Proof.
  induction n as [|n IH]; simpl to_be.
  - cbn. by rewrite Z.mod_1_r.
  - rewrite of_be_cons, IH, len_to_be.
    rewrite Nat2Z.inj_succ, Z.pow_succ_r by lia.
    set (p := 256 ^ Z.of_nat n). assert (0 < p) by (apply Z.pow_pos_nonneg; lia).
    rewrite (Z.mul_comm 256 p), Z.rem_mul_r by lia. lia.
Qed.
(** Reading back the bytes of an integer of that width. *)
Lemma of_be_to_be n x : is_u (8 * Z.of_nat n) x -> of_be (to_be n x) = x.
Proof.
  intros H. rewrite of_be_to_be_mod. apply Z.mod_small.
  unfold is_u in H. rewrite Z.pow_mul_r in H by lia. done.
Qed.

Lemma to_be_add_high n x y : to_be n (y * 256 ^ Z.of_nat n + x) = to_be n x.
Proof.
  enough (forall m, (n <= m)%nat -> to_be n (y * 256 ^ Z.of_nat m + x) = to_be n x) by auto.
  induction n as [|n IH]; intros m Hm; simpl; [done|]. f_equal; [|apply IH; lia].
  replace (Z.of_nat m) with (Z.of_nat (m - S n) + 1 + Z.of_nat n) by lia.
  rewrite !Z.pow_add_r by lia. rewrite Z.mul_assoc, Z.add_comm, Z.div_add by lia.
  rewrite Z.add_comm, Z.mul_assoc.
  change (256 ^ 1) with 256. rewrite Z.add_comm. apply Z.mod_add. lia.
Qed.
(** Writing an integer read from bytes gives the bytes. *)
Lemma to_be_of_be bs : is_bytes bs -> to_be (length bs) (of_be bs) = bs.
Proof.
  induction 1 as [|b bs Hb Hbs IH]; simpl; [done|].
  rewrite of_be_cons. fold (len bs). pose proof (of_be_range bs Hbs).
  f_equal.
  - unfold len at 1. fold (len bs).
    rewrite Z.add_comm, Z.div_add by lia. rewrite Z.div_small by done.
    rewrite Z.add_0_l. apply Z.mod_small, Hb.
  - unfold len. rewrite to_be_add_high. done.
Qed.

#[export] Hint Resolve is_bytes_to_be : jst.
#[export] Hint Rewrite len_to_be : jst_len.

(** ** Decimal numerals *)
Lemma dec_value_snoc ds d : dec_value (ds ++ [d]) = dec_value ds * 10 + (d - 48).
Proof. unfold dec_value. by rewrite fold_left_app. Qed.

Lemma is_ascii_digit_spec b : is_ascii_digit b = true <-> 48 <= b <= 57.
Proof. unfold is_ascii_digit. lia. Qed.

Lemma dec_value_nonneg ds :
  Forall (fun b => is_ascii_digit b = true) ds -> 0 <= dec_value ds.
Proof.
  induction ds as [|d ds IH] using rev_ind; [done|].
  rewrite Forall_app, Forall_singleton, dec_value_snoc, is_ascii_digit_spec.
  intros [H ?]. specialize (IH H). lia.
Qed.

Lemma dec_digits_value f n : 0 <= n < 10 ^ Z.of_nat f -> dec_value (dec_digits f n) = n.
Proof.
  revert n. induction f as [|f IH]; intros n Hn; simpl; [change (10 ^ 0) with 1 in Hn; unfold dec_value; simpl; lia|].
  rewrite Nat2Z.inj_succ, Z.pow_succ_r in Hn by lia.
  destruct (Z.ltb_spec n 10); [unfold dec_value; simpl fold_left; lia|].
  rewrite dec_value_snoc, IH; [divlia|]. split; [apply Z.div_pos; lia|].
  apply Z.div_lt_upper_bound; lia.
Qed.

Lemma dec_digits_digits f n :
  0 <= n -> Forall (fun b => is_ascii_digit b = true) (dec_digits f n).
Proof.
  revert n. induction f as [|f IH]; intros n Hn; simpl; [done|].
  destruct (Z.ltb_spec n 10).
  - apply Forall_singleton, is_ascii_digit_spec. lia.
  - apply Forall_app. split; [apply IH, Z.div_pos; lia|].
    apply Forall_singleton, is_ascii_digit_spec. divlia.
Qed.

Lemma dec_digits_nonempty f n : dec_digits (S f) n <> [].
Proof. simpl. case_match; [done|]. intros E%(f_equal length). rewrite length_app in E. simpl in E. lia. Qed.

(** The first digit is zero only for the number zero. *)
Lemma dec_digits_head f n :
  0 < n < 10 ^ Z.of_nat f -> nth_get (dec_digits f n) 0 <> Some 48.
Proof.
  revert n. induction f as [|f IH]; intros n Hn; [change (10 ^ Z.of_nat 0) with 1 in Hn; lia|].
  rewrite Nat2Z.inj_succ, Z.pow_succ_r in Hn by lia.
  simpl. destruct (Z.ltb_spec n 10); [intros [=]; lia|].
  destruct f as [|f]; [change (10 ^ Z.of_nat 0) with 1 in Hn; lia|].
  rewrite nth_get_app_l.
  - apply IH. split; [apply Z.div_str_pos; lia|]. apply Z.div_lt_upper_bound; lia.
  - pose proof (dec_digits_nonempty f (n / 10)).
    destruct (dec_digits (S f) (n / 10)); [done|]. rewrite len_cons.
    pose proof (len_nonneg l). lia.
Qed.

Lemma log2_fuel n : 0 <= n -> n < 10 ^ Z.of_nat (S (Z.to_nat (Z.log2 n))).
Proof.
  intros Hn. destruct (decide (n = 0)) as [->|]; [cbn; lia|].
  pose proof (Z.log2_spec n ltac:(lia)) as [_ H]. pose proof (Z.log2_nonneg n).
  replace (Z.of_nat (S (Z.to_nat (Z.log2 n)))) with (Z.succ (Z.log2 n)) by lia.
  eapply Z.lt_le_trans; [exact H|]. apply Z.pow_le_mono_l. lia.
Qed.

Lemma dec_value_decimal n : 0 <= n -> dec_value (decimal n) = n.
Proof. intros. apply dec_digits_value. auto using log2_fuel. Qed.
Lemma decimal_canonical n : 0 <= n -> canonical_digits (decimal n).
Proof.
  intros Hn. split_and!.
  - by apply dec_digits_digits.
  - apply dec_digits_nonempty.
  - intros Hl. destruct (decide (n = 0)) as [->|]; [done|].
    apply dec_digits_head. split; [lia|]. by apply log2_fuel.
Qed.

Lemma dec_digits_fuel f g n :
  0 <= n < 10 ^ Z.of_nat f -> n < 10 ^ Z.of_nat g -> (0 < f)%nat -> (0 < g)%nat ->
  dec_digits f n = dec_digits g n.
Proof.
  revert g n. induction f as [|f IH]; intros [|g] n Hf Hg ??; try lia. simpl.
  destruct (Z.ltb_spec n 10); [done|]. f_equal.
  rewrite Nat2Z.inj_succ, Z.pow_succ_r in Hf, Hg by lia.
  assert (0 <= n / 10) by (apply Z.div_pos; lia).
  assert (n / 10 < 10 ^ Z.of_nat f) by (apply Z.div_lt_upper_bound; lia).
  assert (n / 10 < 10 ^ Z.of_nat g) by (apply Z.div_lt_upper_bound; lia).
  assert (1 <= n / 10) by (apply Z.div_le_lower_bound; lia).
  destruct f; [change (10 ^ Z.of_nat 0) with 1 in *; lia|].
  destruct g; [change (10 ^ Z.of_nat 0) with 1 in *; lia|].
  apply IH; lia.
Qed.

Lemma decimal_step n : 10 <= n -> decimal n = decimal (n / 10) ++ [48 + n mod 10].
Proof.
  intros Hn. unfold decimal at 1. cbn [dec_digits].
  destruct (Z.ltb_spec n 10); [lia|]. f_equal.
  assert (1 <= n / 10) by (apply Z.div_le_lower_bound; lia).
  pose proof (Z.log2_spec n ltac:(lia)) as [_ Hlog].
  assert (2 <= Z.log2 n) by (apply Z.log2_le_pow2; lia).
  apply dec_digits_fuel; [split; [lia|]|by apply log2_fuel; lia|lia|lia].
  apply Z.div_lt_upper_bound; [lia|].
  rewrite <- Z.pow_succ_r by lia. eapply Z.lt_le_trans; [exact Hlog|].
  rewrite Z2Nat.id by lia. apply Z.pow_le_mono_l. lia.
Qed.

(** A canonical numeral is the numeral of its value. *)
Lemma decimal_dec_value ds : canonical_digits ds -> decimal (dec_value ds) = ds.
Proof.
  induction ds as [|d ds IH] using rev_ind; [by intros (_&?&_)|].
  intros (Hall & _ & Hhd). apply Forall_app in Hall as [Hds Hd].
  apply Forall_singleton, is_ascii_digit_spec in Hd.
  rewrite dec_value_snoc. destruct ds as [|e ds]; [cbn|].
  - unfold dec_value, decimal. cbn [fold_left dec_digits].
    destruct (Z.ltb_spec (0 * 10 + (d - 48)) 10); [|lia]. f_equal. lia.
  - assert (Hh : nth_get (e :: ds) 0 <> Some 48).
    { specialize (Hhd ltac:(rewrite len_app, !len_cons; change (len []) with 0; pose proof (len_nonneg ds); lia)).
      by rewrite nth_get_app_l in Hhd by (rewrite len_cons; pose proof (len_nonneg ds); lia). }
    assert (Hc : canonical_digits (e :: ds)) by (split_and!; done).
    specialize (IH Hc).
    assert (1 <= dec_value (e :: ds)).
    { pose proof (dec_value_nonneg _ Hds). destruct (decide (dec_value (e :: ds) = 0)) as [E|]; [|lia].
      rewrite E in IH. change (decimal 0) with [48] in IH. simplify_eq. }
    rewrite decimal_step by lia.
    rewrite Z.div_add_l, (Z.div_small (d - 48)), Z.add_0_r, IH by lia.
    f_equal. f_equal. divlia.
Qed.

Lemma digits_utf8 ds : Forall (fun b => is_ascii_digit b = true) ds -> utf8_valid ds = true.
Proof.
  induction 1 as [|d ds Hd _ IH]; [done|]. apply is_ascii_digit_spec in Hd. simpl.
  rewrite (proj2 (Z.leb_le d 127) ltac:(lia)). exact IH.
Qed.

(** ** Reading fields *)
Lemma read_be_at {Er} pre x post offset width n :
  len pre = offset -> width = Z.of_nat n -> is_u (8 * Z.of_nat n) x ->
  @read_be Er (pre ++ to_be n x ++ post) offset width = Ok x.
Proof.
  intros <- -> Hx. unfold read_be. pose proof (len_nonneg pre). pose proof (len_nonneg post).
  rewrite slice_ok by (rewrite ?len_app, ?len_to_be; lia).
  unfold mbind, outcome_bind. rewrite (sub_list_middle pre (to_be n x) post) by (rewrite ?len_to_be; lia).
  by rewrite of_be_to_be.
Qed.
Lemma read_be_inv {Er} bytes offset width x : is_bytes bytes ->
  @read_be Er bytes offset width = Ok x ->
  0 <= offset /\ 0 <= width /\ offset + width <= len bytes /\ is_u (8 * width) x
  /\ to_be (Z.to_nat width) x = sub_list bytes offset (offset + width).
Proof.
  intros Hb. unfold read_be, mbind, outcome_bind.
  destruct (slice bytes offset (offset + width)) as [f|?| |] eqn:Es; try done.
  apply slice_inv in Es as (H1 & H2 & ->). intros. simplify_eq.
  assert (len (sub_list bytes offset (offset + width)) = width) as Hl by (rewrite len_sub_list; lia).
  pose proof (is_bytes_sub_list bytes offset (offset + width) Hb) as Hb'.
  pose proof (of_be_range _ Hb') as Hr. rewrite Hl in Hr. split_and!; [lia|lia|lia|..].
  - unfold is_u. rewrite Z.pow_mul_r by lia. exact Hr.
  - replace (Z.to_nat width) with (length (sub_list bytes offset (offset + width))) by (unfold len in Hl; lia).
    by apply to_be_of_be.
Qed.

Lemma read_be_returns {Er} bytes offset width :
  0 <= offset -> 0 <= width -> offset + width <= len bytes -> exists x, @read_be Er bytes offset width = Ok x.
Proof. intros. unfold read_be. rewrite slice_ok by lia. unfold mbind, outcome_bind. eauto. Qed.
