(* ===== verification/Bencode.v ===== *)
(** * Bencode: the bounded parser of [bencode.rs]

    The parser is a method on a mutable cursor ([Parser]) and is modelled in
    the state-and-outcome monad, loop by loop.  Loops take an iteration
    bound of one more than the input length: every iteration consumes a
    byte, and [parse_never_stuck] proves that the bound is never reached. *)
From stdpp Require Import sorting.
From S2P Require Import Prelude Bytes.
Set Warnings "-register-all".

Definition MAX_BENCODE_INPUT_LENGTH : Z := 1024 * 1024.
Definition MAX_BENCODE_DECODED_ITEMS : Z := 1000000.

Record Limits := mkLimits {
  max_input_length : Z;
  max_string_length : Z;
  max_decoded_items : Z;
  max_depth : Z;
  max_collection_entries : Z;
}.

Definition Limits_default : Limits :=
  {| max_input_length := MAX_BENCODE_INPUT_LENGTH;
     max_string_length := 512 * 1024;
     max_decoded_items := MAX_BENCODE_DECODED_ITEMS;
     max_depth := 32;
     max_collection_entries := 4096 |}.

(** [span] is the half-open range of the input a node was read from. *)
Inductive Value :=
| Integer (i : Z)
| Bytes (b : list Z)
| List (values : list Node)
| Dictionary (entries : list DictionaryEntry)
with Node :=
| mkNode (value : Value) (span_start span_end : Z)
with DictionaryEntry :=
| mkEntry (key : list Z) (value : Node).

Definition node_value (n : Node) : Value := match n with mkNode v _ _ => v end.
Definition node_start (n : Node) : Z := match n with mkNode _ a _ => a end.
Definition node_end (n : Node) : Z := match n with mkNode _ _ b => b end.
Definition entry_key (e : DictionaryEntry) : list Z := match e with mkEntry k _ => k end.
Definition entry_value (e : DictionaryEntry) : Node := match e with mkEntry _ v => v end.

Inductive ParseError :=
| InputTooLarge (length maximum : Z)
| UnexpectedEnd (position : Z)
| InvalidToken (position : Z)
| InvalidInteger (position : Z)
| IntegerOverflow (position : Z)
| InvalidStringLength (position : Z)
| StringTooLarge (position length maximum : Z)
| NestingTooDeep (position maximum : Z)
| CollectionTooLarge (position maximum : Z)
| TooManyDecodedItems (position maximum : Z)
| DictionaryKeysNotStrictlySorted (position : Z)
| TrailingData (position : Z).

Record Parser := mkParser {
  input : list Z;
  position : Z;
  decoded_items : Z;
  limits : Limits;
  allow_unsorted_dictionaries : bool;
}.

Definition set_position (p : Z) (s : Parser) : Parser :=
  mkParser (input s) p (decoded_items s) (limits s) (allow_unsorted_dictionaries s).
Definition advance (s : Parser) : Parser := set_position (position s + 1) s.
Definition set_decoded_items (n : Z) (s : Parser) : Parser :=
  mkParser (input s) (position s) n (limits s) (allow_unsorted_dictionaries s).

(** The parser methods: [&mut self] with a [Result]. *)
#[local] Abbreviation P := (M Parser ParseError).
Definition out_of_fuel {A} : P A := fun s => (s, NoFuel).
Definition fuel_for (s : Parser) : nat := S (length (input s)).

Definition peek : P Z := fun s =>
  (s, ok_or (nth_get (input s) (position s)) (UnexpectedEnd (position s))).

Definition consume_decoded_item : P unit := fun s =>
  if decoded_items s =? max_decoded_items (limits s)
  then (s, Err (TooManyDecodedItems (position s) (max_decoded_items (limits s))))
  else (set_decoded_items (decoded_items s + 1) s, Ok tt).

(** [self.input[a..b]] *)
Definition input_slice (a b : Z) : P (list Z) := fun s => (s, slice (input s) a b).

(** ** Integers *)

(** [while self.peek()? != b'e' { self.position += 1 }] *)
Fixpoint scan_to_e (fuel : nat) : P unit :=
  match fuel with
  | O => out_of_fuel
  | S f =>
    b ← peek;
    if b =? 101 then mret tt else modify advance;; scan_to_e f
  end.

(** [digits.strip_prefix(b"-").unwrap_or(digits)] *)
Definition strip_minus (digits : list Z) : list Z :=
  match digits with
  | b :: r => if b =? 45 then r else digits
  | [] => digits
  end.

(** [str::parse::<i64>]: an optional sign, at least one digit, in range. *)
Definition parse_i64 (text : list Z) : option Z :=
  let '(negative, ds) :=
    match text with
    | b :: r => if b =? 45 then (true, r) else if b =? 43 then (false, r) else (false, text)
    | [] => (false, text)
    end in
  if bool_decide (ds = []) || negb (forallb is_ascii_digit ds) then None
  else
    let v := if negative : bool then - dec_value ds else dec_value ds in
    if (- 2 ^ 63 <=? v) && (v <? 2 ^ 63) then Some v else None.

(** The checks and conversion after the digits have been delimited. *)
Definition integer_of_digits (start : Z) (digits : list Z) : outcome ParseError Value :=
  let unsigned := strip_minus digits in
  let negative := negb (len unsigned =? len digits) in
  if bool_decide (unsigned = [])
     || existsb (fun b => negb (is_ascii_digit b)) unsigned
     || ((1 <? len unsigned) && bool_decide (nth_get unsigned 0 = Some 48))
     || (negative && bool_decide (unsigned = [48]))
  then Err (InvalidInteger start)
  else if negb (utf8_valid digits) then Err (InvalidInteger start)
  else
    match parse_i64 digits with
    | Some i => Ok (Integer i)
    | None => Err (IntegerOverflow start)
    end.

Definition parse_integer : P Value :=
  s ← get;
  let start := position s in
  modify advance;;
  scan_to_e (fuel_for s);;
  s' ← get;
  digits ← input_slice (start + 1) (position s');
  modify advance;;
  lift (integer_of_digits start digits).

(** ** Byte strings *)
Fixpoint scan_length (fuel : nat) (start : Z) : P unit :=
  match fuel with
  | O => out_of_fuel
  | S f =>
    b ← peek;
    if b =? 58 then mret tt
    else
      s ← get;
      d ← lift (index (input s) (position s));
      if negb (is_ascii_digit d) then fail (InvalidStringLength start)
      else modify advance;; scan_length f start
  end.

(** [try_fold(0, |v, b| v.checked_mul(10)?.checked_add(b - b'0'))] *)
Definition checked_dec_value (ds : list Z) : option Z :=
  fold_left (fun acc b =>
    v ← acc; w ← checked_mul USIZE v 10; checked_add USIZE w (b - 48)) ds (Some 0).

Definition parse_bytes : P (list Z) :=
  s ← get;
  let start := position s in
  scan_length (fuel_for s) start;;
  s' ← get;
  length_digits ← input_slice start (position s');
  modify advance;;
  if bool_decide (length_digits = [])
     || ((1 <? len length_digits) && bool_decide (nth_get length_digits 0 = Some 48))
  then fail (InvalidStringLength start)
  else
    length ← lift (ok_or (checked_dec_value length_digits) (InvalidStringLength start));
    if max_string_length (limits s) <? length
    then fail (StringTooLarge start length (max_string_length (limits s)))
    else
      e ← lift (ok_or (checked_add USIZE (position s' + 1) length) (InvalidStringLength start));
      if len (input s) <? e then fail (UnexpectedEnd (len (input s)))
      else
        bytes ← input_slice (position s' + 1) e;
        modify (set_position e);;
        mret bytes.

(** ** Key order: the lexicographic order of byte slices *)
Fixpoint bytes_ltb (a b : list Z) : bool :=
  match a, b with
  | [], [] => false
  | [], _ :: _ => true
  | _ :: _, [] => false
  | x :: a', y :: b' => (x <? y) || ((x =? y) && bytes_ltb a' b')
  end.
Definition entry_le (a b : DictionaryEntry) : Prop :=
  bytes_ltb (entry_key b) (entry_key a) = false.
#[export] Instance entry_le_dec : RelDecision entry_le.
Proof. intros a b. unfold entry_le. apply _. Defined.

(** [previous.key >= key] for the last entry; any equal key when the
    permissive mode is on. *)
Definition key_rejected (allow : bool) (entries : list DictionaryEntry) (key : list Z) : bool :=
  if allow then existsb (fun previous => bool_decide (entry_key previous = key)) entries
  else
    match last entries with
    | Some previous => negb (bytes_ltb (entry_key previous) key)
    | None => false
    end.

(** ** Lists and dictionaries, over the parser of one nested value *)
Section collections.
Variable parse_value : Z -> P Node.

Fixpoint parse_list_loop (fuel : nat) (start depth : Z) (values : list Node) : P (list Node) :=
  match fuel with
  | O => out_of_fuel
  | S f =>
    b ← peek;
    if b =? 101 then mret values
    else
      s ← get;
      if len values =? max_collection_entries (limits s)
      then fail (CollectionTooLarge start (max_collection_entries (limits s)))
      else
        v ← parse_value (depth + 1);
        parse_list_loop f start depth (values ++ [v])
  end.

Definition parse_list (depth : Z) : P Value :=
  s ← get;
  modify advance;;
  values ← parse_list_loop (fuel_for s) (position s) depth [];
  modify advance;;
  mret (List values).

Fixpoint parse_dictionary_loop (fuel : nat) (start depth : Z)
    (entries : list DictionaryEntry) : P (list DictionaryEntry) :=
  match fuel with
  | O => out_of_fuel
  | S f =>
    b ← peek;
    if b =? 101 then mret entries
    else
      s ← get;
      if len entries =? max_collection_entries (limits s)
      then fail (CollectionTooLarge start (max_collection_entries (limits s)))
      else
        let key_position := position s in
        b ← peek;
        if negb (is_ascii_digit b) then fail (InvalidToken key_position)
        else
          consume_decoded_item;;
          key ← parse_bytes;
          if key_rejected (allow_unsorted_dictionaries s) entries key
          then fail (DictionaryKeysNotStrictlySorted key_position)
          else
            v ← parse_value (depth + 1);
            parse_dictionary_loop f start depth (entries ++ [mkEntry key v])
  end.

Definition parse_dictionary (depth : Z) : P Value :=
  s ← get;
  modify advance;;
  entries ← parse_dictionary_loop (fuel_for s) (position s) depth [];
  modify advance;;
  mret (Dictionary
    (if allow_unsorted_dictionaries s then merge_sort entry_le entries else entries)).
End collections.

Definition is_token (b : Z) : bool :=
  (b =? 105) || (b =? 108) || (b =? 100) || is_ascii_digit b.

Fixpoint parse_value (fuel : nat) (depth : Z) : P Node :=
  match fuel with
  | O => out_of_fuel
  | S f =>
    s ← get;
    if max_depth (limits s) <? depth
    then fail (NestingTooDeep (position s) (max_depth (limits s)))
    else
      let start := position s in
      token ← peek;
      if negb (is_token token) then fail (InvalidToken start)
      else
        consume_decoded_item;;
        value ←
          (if token =? 105 then parse_integer
           else if token =? 108 then parse_list (parse_value f) depth
           else if token =? 100 then parse_dictionary (parse_value f) depth
           else b ← parse_bytes; mret (Bytes b));
        s' ← get;
        mret (mkNode value start (position s'))
  end.

Definition parse_prefix_with_dictionary_order (inp : list Z) (lim : Limits) (allow : bool)
    : outcome ParseError (Node * Z) :=
  if max_input_length lim <? len inp
  then Err (InputTooLarge (len inp) (max_input_length lim))
  else
    let parser := mkParser inp 0 0 lim allow in
    let '(s, r) := parse_value (fuel_for parser) 0 parser in
    node ← r;
    mret (node, position s).

Definition parse_prefix_with_limits (inp : list Z) (lim : Limits) : outcome ParseError (Node * Z) :=
  parse_prefix_with_dictionary_order inp lim false.
Definition parse_prefix (inp : list Z) : outcome ParseError (Node * Z) :=
  parse_prefix_with_limits inp Limits_default.

Definition parse_with_limits (inp : list Z) (lim : Limits) : outcome ParseError Node :=
  '(node, consumed) ← parse_prefix_with_limits inp lim;
  if negb (consumed =? len inp) then Err (TrailingData consumed) else Ok node.
Definition parse (inp : list Z) : outcome ParseError Node :=
  parse_with_limits inp Limits_default.

Definition parse_with_limits_permissive_dictionaries (inp : list Z) (lim : Limits)
    : outcome ParseError Node :=
  '(node, consumed) ← parse_prefix_with_dictionary_order inp lim true;
  if negb (consumed =? len inp) then Err (TrailingData consumed) else Ok node.

(** ** The format

    [bencode] is the canonical encoding of an abstract value, [valid] the
    values one set of limits admits at a nesting depth, and [place] the node
    tree the parser should return for a value encoded at offset [p]. *)
Inductive bvalue :=
| BInt (i : Z)
| BBytes (b : list Z)
| BList (l : list bvalue)
| BDict (l : list (list Z * bvalue)).

Definition bencode_bytes (b : list Z) : list Z := decimal (len b) ++ 58 :: b.
Definition int_text (i : Z) : list Z := if i <? 0 then 45 :: decimal (- i) else decimal i.

Fixpoint bencode (v : bvalue) : list Z :=
  match v with
  | BInt i => 105 :: int_text i ++ [101]
  | BBytes b => bencode_bytes b
  | BList l => 108 :: concat (map bencode l) ++ [101]
  | BDict l =>
    100 :: concat (map (fun '(k, x) => bencode_bytes k ++ bencode x) l) ++ [101]
  end.

(** Values and dictionary keys, the unit [max_decoded_items] counts. *)
Fixpoint item_count (v : bvalue) : Z :=
  match v with
  | BInt _ | BBytes _ => 1
  | BList l => 1 + fold_right (fun x n => item_count x + n) 0 l
  | BDict l => 1 + fold_right (fun '(_, x) n => 1 + item_count x + n) 0 l
  end.

Definition key_lt (a b : list Z) : Prop := bytes_ltb a b = true.
(** Strict mode wants increasing keys; permissive mode distinct ones. *)
Definition keys_ok (al : bool) (ks : list (list Z)) : Prop :=
  if al then NoDup ks else StronglySorted key_lt ks.

Inductive valid (al : bool) (lim : Limits) : Z -> bvalue -> Prop :=
| valid_int d i : d <= max_depth lim -> - 2 ^ 63 <= i < 2 ^ 63 -> valid al lim d (BInt i)
| valid_bytes d b : d <= max_depth lim -> len b <= max_string_length lim -> valid al lim d (BBytes b)
| valid_list d l : d <= max_depth lim -> len l <= max_collection_entries lim ->
    Forall (valid al lim (d + 1)) l -> valid al lim d (BList l)
| valid_dict d l : d <= max_depth lim -> len l <= max_collection_entries lim ->
    keys_ok al (map fst l) -> Forall (fun kx => len kx.1 <= max_string_length lim) l ->
    Forall (fun kx => valid al lim (d + 1) kx.2) l -> valid al lim d (BDict l).

Definition sort_entries (al : bool) (es : list DictionaryEntry) : list DictionaryEntry :=
  if al then merge_sort entry_le es else es.

Fixpoint place (al : bool) (p : Z) (v : bvalue) : Node :=
  mkNode
    match v with
    | BInt i => Integer i
    | BBytes b => Bytes b
    | BList l =>
      List ((fix go q l :=
        match l with
        | [] => []
        | x :: r => place al q x :: go (q + len (bencode x)) r
        end) (p + 1) l)
    | BDict l =>
      Dictionary (sort_entries al ((fix go q l :=
        match l with
        | [] => []
        | (k, x) :: r =>
          mkEntry k (place al (q + len (bencode_bytes k)) x)
          :: go (q + len (bencode_bytes k ++ bencode x)) r
        end) (p + 1) l))
    end p (p + len (bencode v)).

Fixpoint place_list (al : bool) (q : Z) (l : list bvalue) : list Node :=
  match l with
  | [] => []
  | x :: r => place al q x :: place_list al (q + len (bencode x)) r
  end.
Fixpoint place_entries (al : bool) (q : Z) (l : list (list Z * bvalue)) : list DictionaryEntry :=
  match l with
  | [] => []
  | (k, x) :: r =>
    mkEntry k (place al (q + len (bencode_bytes k)) x)
    :: place_entries al (q + len (bencode_bytes k ++ bencode x)) r
  end.

(** Limits are [usize] fields. *)
Definition wf_limits (lim : Limits) : Prop :=
  is_u USIZE (max_input_length lim) /\ is_u USIZE (max_string_length lim) /\
  is_u USIZE (max_decoded_items lim) /\ is_u USIZE (max_depth lim) /\
  is_u USIZE (max_collection_entries lim).

Definition parse_mode (al : bool) : list Z -> Limits -> outcome ParseError Node :=
  if al then parse_with_limits_permissive_dictionaries else parse_with_limits.

(** The value a node stands for, its dictionaries in the order returned. *)
Fixpoint erase (n : Node) : bvalue :=
  match node_value n with
  | Integer i => BInt i
  | Bytes b => BBytes b
  | List l => BList (map erase l)
  | Dictionary es => BDict (map (fun e => (entry_key e, erase (entry_value e))) es)
  end.

Definition children (v : Value) : list Node :=
  match v with
  | Integer _ | Bytes _ => []
  | List l => l
  | Dictionary es => map entry_value es
  end.

(** Every node of the tree spans exactly its own encoding in [inp]. *)
Inductive spanned (inp : list Z) : Node -> Prop :=
| spanned_intro v a b :
    0 <= a <= b -> b <= len inp ->
    sub_list inp a b = bencode (erase (mkNode v a b)) ->
    Forall (spanned inp) (children v) -> spanned inp (mkNode v a b).

(** Every dictionary of the tree has strictly increasing keys. *)
Inductive sorted_dictionaries : Node -> Prop :=
| sorted_dictionaries_intro v a b :
    match v with
    | Dictionary es => StronglySorted key_lt (map entry_key es)
    | _ => True
    end ->
    Forall sorted_dictionaries (children v) -> sorted_dictionaries (mkNode v a b).

(** * Lemmas *)

(** ** Key order *)
Lemma bytes_ltb_irrefl a : bytes_ltb a a = false.
Proof. induction a as [|x a IH]; simpl; [done|]. rewrite IH. lia. Qed.
Lemma bytes_ltb_trans a b c :
  bytes_ltb a b = true -> bytes_ltb b c = true -> bytes_ltb a c = true.
Proof.
  revert b c. induction a as [|x a IH]; intros [|y b] [|z c]; simpl; try done.
  specialize (IH b c). destruct (bytes_ltb a b), (bytes_ltb b c), (bytes_ltb a c); lia.
Qed.
Lemma bytes_ltb_total a b : bytes_ltb a b = false -> bytes_ltb b a = false -> a = b.
Proof.
  revert b. induction a as [|x a IH]; intros [|y b]; simpl; try done.
  specialize (IH b). destruct (bytes_ltb a b), (bytes_ltb b a); intros; try lia.
  f_equal; [lia|auto].
Qed.
Lemma bytes_ltb_asym a b : bytes_ltb a b = true -> bytes_ltb b a = false.
Proof.
  intros H. destruct (bytes_ltb b a) eqn:E; [|done].
  pose proof (bytes_ltb_trans _ _ _ H E). by rewrite bytes_ltb_irrefl in *.
Qed.

Lemma sorted_snoc ks k :
  StronglySorted key_lt ks -> Forall (fun x => key_lt x k) ks -> StronglySorted key_lt (ks ++ [k]).
Proof.
  induction 1 as [|x ks Hs IH Hx]; intros Hk; simpl; [by repeat constructor|].
  inversion_clear Hk. constructor; [auto|]. apply Forall_app; auto.
Qed.
Lemma sorted_snoc_inv ks k :
  StronglySorted key_lt (ks ++ [k]) -> StronglySorted key_lt ks /\ Forall (fun x => key_lt x k) ks.
Proof.
  induction ks as [|x ks IH]; simpl; intros Hs; [by split; constructor|].
  apply StronglySorted_inv in Hs as [Hs [Hx [Hxk _]%Forall_cons_1]%Forall_app].
  destruct (IH Hs). split; constructor; done.
Qed.
Lemma sorted_nodup ks : StronglySorted key_lt ks -> NoDup ks.
Proof.
  induction 1 as [|x ks Hs IH Hx]; constructor; [|done].
  rewrite Forall_forall in Hx. intros Hin%Hx. unfold key_lt in Hin.
  by rewrite bytes_ltb_irrefl in Hin.
Qed.

(** Accepting one more key keeps the keys acceptable. *)
Lemma key_rejected_snoc al es key :
  keys_ok al (map entry_key es) -> key_rejected al es key = false ->
  keys_ok al (map entry_key es ++ [key]).
Proof.
  unfold keys_ok, key_rejected. destruct al; intros Hok Hr.
  - apply NoDup_app. split_and!; [done| |apply NoDup_singleton].
    intros k Hin ->%list_elem_of_singleton.
    apply list_elem_of_fmap in Hin as (e&->&He).
    apply list_elem_of_In in He.
    assert (existsb (fun previous => bool_decide (entry_key previous = entry_key e)) es = true) as Ht.
    { apply existsb_exists. exists e. split; [done|]. by apply bool_decide_true. }
    congruence.
  - destruct es as [|e es _] using rev_ind; [by repeat constructor|].
    rewrite last_snoc in Hr. apply negb_false_iff in Hr.
    rewrite map_app in *. simpl in *. apply sorted_snoc; [done|].
    apply sorted_snoc_inv in Hok as [_ Hlt]. apply Forall_app. split.
    + eapply Forall_impl; [exact Hlt|]. intros k Hk. exact (bytes_ltb_trans _ _ _ Hk Hr).
    + by apply Forall_singleton.
Qed.
Lemma key_rejected_complete al es key :
  keys_ok al (map entry_key es ++ [key]) -> key_rejected al es key = false.
Proof.
  unfold keys_ok, key_rejected. destruct al; intros Hok.
  - apply not_true_is_false. intros (e&He&Hk%bool_decide_eq_true)%existsb_exists.
    apply NoDup_app in Hok as (_&Hd&_). apply (Hd key); [|by apply list_elem_of_singleton].
    apply list_elem_of_fmap. exists e. split; [done|]. by apply list_elem_of_In.
  - destruct es as [|e es _] using rev_ind; [done|]. rewrite last_snoc.
    apply sorted_snoc_inv in Hok as [_ Hlt]. rewrite map_app in Hlt.
    apply Forall_app in Hlt as [_ [? _]%Forall_cons_1]. by apply negb_false_iff.
Qed.

(** ** Slices of the cursor's input *)
Lemma len_bencode_bytes b : 2 <= len (bencode_bytes b) /\ len b < len (bencode_bytes b).
Proof.
  unfold bencode_bytes. rewrite len_app, len_cons.
  destruct (decimal_canonical (len b) (len_nonneg b)) as (_&H&_).
  destruct (decimal (len b)); [done|]. rewrite len_cons.
  pose proof (len_nonneg l). pose proof (len_nonneg b). lia.
Qed.
Lemma len_bencode_pos v : 2 <= len (bencode v).
Proof.
  destruct v; cbn [bencode]; rewrite ?len_cons, ?len_app; change (len [101]) with 1;
    try (pose proof (len_nonneg (int_text i))); try apply len_bencode_bytes.
  - lia.
  - pose proof (len_nonneg (concat (map bencode l))). lia.
  - pose proof (len_nonneg (concat (map (fun '(k, x) => bencode_bytes k ++ bencode x) l))). lia.
Qed.
Lemma item_count_pos v : 1 <= item_count v.
Proof.
  enough (forall n v, (length (bencode v) < n)%nat -> 1 <= item_count v) by eauto.
  clear v. induction n as [|n IH]; intros v Hn; [lia|].
  destruct v as [| |l|l]; simpl; try lia.
  - enough (0 <= fold_right (fun x n => item_count x + n) 0 l) by lia.
    cbn [bencode] in Hn. simpl in Hn. rewrite length_app in Hn.
    induction l as [|x l IHl]; simpl in *; [lia|]. rewrite length_app in Hn.
    specialize (IHl ltac:(lia)). specialize (IH x ltac:(lia)). lia.
  - enough (0 <= fold_right (fun '(_, x) n => 1 + item_count x + n) 0 l) by lia.
    cbn [bencode] in Hn. simpl in Hn. rewrite length_app in Hn.
    induction l as [|[k x] l IHl]; simpl in *; [lia|]. rewrite !length_app in Hn.
    specialize (IHl ltac:(lia)). specialize (IH x ltac:(lia)). lia.
Qed.

Lemma place_unfold_list al p l : place al p (BList l) =
  mkNode (List (place_list al (p + 1) l)) p (p + len (bencode (BList l))).
Proof.
  cbn [place]. f_equal. f_equal. generalize (p + 1).
  induction l as [|x l IH]; intros q; [done|]. cbn [place_list]. f_equal. apply IH.
Qed.
Lemma place_unfold_dict al p l : place al p (BDict l) =
  mkNode (Dictionary (sort_entries al (place_entries al (p + 1) l))) p (p + len (bencode (BDict l))).
Proof.
  cbn [place]. f_equal. do 2 f_equal. generalize (p + 1).
  induction l as [|[k x] l IH]; intros q; [done|]. cbn [place_entries]. f_equal. apply IH.
Qed.

Lemma place_list_snoc al q l x :
  place_list al q (l ++ [x]) = place_list al q l ++ [place al (q + len (concat (map bencode l))) x].
Proof.
  revert q. induction l as [|y l IH]; intros q; simpl.
  - change (len []) with 0. by rewrite Z.add_0_r.
  - rewrite IH, len_app. do 4 f_equal. lia.
Qed.
Lemma place_entries_snoc al q l k x :
  place_entries al q (l ++ [(k, x)]) =
  place_entries al q l ++
    [mkEntry k (place al (q + len (concat (map (fun '(k, x) => bencode_bytes k ++ bencode x) l))
                            + len (bencode_bytes k)) x)].
Proof.
  revert q. induction l as [|[k' y] l IH]; intros q; simpl.
  - change (len []) with 0. by rewrite Z.add_0_r.
  - rewrite IH, !len_app. do 5 f_equal. lia.
Qed.
Lemma len_place_list al q l : len (place_list al q l) = len l.
Proof. revert q. induction l; intros q; simpl; rewrite ?len_cons; auto. by rewrite IHl. Qed.
Lemma len_place_entries al q l : len (place_entries al q l) = len l.
Proof. revert q. induction l as [|[]]; intros q; simpl; rewrite ?len_cons; auto. by rewrite IHl. Qed.
Lemma place_entries_keys al q l : map entry_key (place_entries al q l) = map fst l.
Proof. revert q. induction l as [|[]]; intros q; simpl; [done|]. by rewrite IHl. Qed.

(** ** What the parser accepts

    The cursor moves only through [position] and [decoded_items]; [St p n] is
    the parser at offset [p] with [n] items counted. *)
Section accepts.
Context (inp : list Z) (lim : Limits) (al : bool).
Hypothesis Hwf : wf_limits lim.
#[local] Abbreviation St p n := (mkParser inp p n lim al).
#[local] Abbreviation any := (fun _ _ => True).

Lemma wp_peek p n Q :
  (forall b, nth_get inp p = Some b -> Q b (St p n)) -> wp peek (St p n) Q any.
Proof. intros H. unfold wp, peek. simpl. destruct (nth_get inp p) eqn:E; simpl; auto. Qed.

Lemma wp_consume p n (Q : unit -> Parser -> Prop) : n <= max_decoded_items lim ->
  (n + 1 <= max_decoded_items lim -> Q tt (St p (n + 1))) -> wp consume_decoded_item (St p n) Q any.
Proof.
  intros Hn H. unfold wp, consume_decoded_item. simpl.
  destruct (Z.eqb_spec n (max_decoded_items lim)); [done|]. apply H. lia.
Qed.

Lemma wp_input_slice p n a b (Q : list Z -> Parser -> Prop) :
  0 <= a <= b -> b <= len inp -> Q (sub_list inp a b) (St p n) -> wp (input_slice a b) (St p n) Q any.
Proof. intros. unfold wp, input_slice. simpl. by rewrite slice_ok. Qed.

(** The byte under the cursor extends the slice read so far. *)
Lemma sub_list_snoc a p b : 0 <= a <= p -> nth_get inp p = Some b ->
  sub_list inp a (p + 1) = sub_list inp a p ++ [b].
Proof. intros. rewrite (sub_list_join _ a p) by lia. by rewrite (sub_list_one _ _ b). Qed.

Lemma scan_to_e_spec f p n : 0 <= p <= len inp -> len inp - p < Z.of_nat f ->
  wp (scan_to_e f) (St p n)
    (fun _ s => exists q, s = St q n /\ p <= q /\ nth_get inp q = Some 101) any.
Proof.
  revert p. induction f as [|f IH]; intros p Hp Hf; [lia|]. simpl.
  apply wp_bind, wp_peek. intros b Hb. pose proof (nth_get_lt _ _ _ Hb).
  wp_step.
  - wp_step. exists p. split_and!; [done|lia|]. rewrite Hb. f_equal. lia.
  - do 2 wp_step. wp_call (IH (p + 1)); [lia|lia| |done].
    intros _ s (q&->&?&?). exists q. split_and!; [done|lia|done].
Qed.

Lemma scan_length_spec f st p n : 0 <= st <= p -> p <= len inp -> len inp - p < Z.of_nat f ->
  Forall (fun b => is_ascii_digit b = true) (sub_list inp st p) ->
  wp (scan_length f st) (St p n)
    (fun _ s => exists q, s = St q n /\ p <= q /\ nth_get inp q = Some 58 /\
       Forall (fun b => is_ascii_digit b = true) (sub_list inp st q)) any.
Proof.
  revert p. induction f as [|f IH]; intros p Hst Hp Hf Hd; [lia|]. simpl.
  apply wp_bind, wp_peek. intros b Hb. pose proof (nth_get_lt _ _ _ Hb).
  wp_step.
  - wp_step. exists p. split_and!; [done|lia| |done]. rewrite Hb. f_equal. lia.
  - do 3 wp_step. unfold index. simpl. rewrite Hb. apply wp_lift_ok.
    wp_step; [by wp_step|].
    do 2 wp_step. wp_call (IH (p + 1)); [lia|lia|lia| | |done].
    + rewrite (sub_list_snoc _ _ b) by (done || lia). apply Forall_app. split; [done|].
      apply Forall_singleton. by apply negb_false_iff.
    + intros _ s (q&->&?&?&?). exists q. split_and!; [done|lia|done|done].
Qed.

Lemma checked_dec_value_spec ds : Forall (fun b => is_ascii_digit b = true) ds ->
  checked_dec_value ds = if dec_value ds <? 2 ^ USIZE then Some (dec_value ds) else None.
Proof.
  induction ds as [|d ds IH] using rev_ind; [done|].
  rewrite Forall_app, Forall_singleton. intros [Hds Hd%is_ascii_digit_spec].
  pose proof (dec_value_nonneg ds Hds) as Hn.
  unfold checked_dec_value in *. rewrite fold_left_app, dec_value_snoc, IH by done. simpl.
  unfold checked_mul, checked_add.
  destruct (Z.ltb_spec (dec_value ds) (2 ^ USIZE)); simpl.
  - destruct (Z.ltb_spec (dec_value ds * 10) (2 ^ USIZE)); simpl.
    + done.
    + destruct (Z.ltb_spec (dec_value ds * 10 + (d - 48)) (2 ^ USIZE)); [lia|done].
  - destruct (Z.ltb_spec (dec_value ds * 10 + (d - 48)) (2 ^ USIZE)); [lia|done].
Qed.

(** The digit tests of the code, as [canonical_digits]. *)
Lemma digits_canonical ds : Forall (fun b => is_ascii_digit b = true) ds ->
  bool_decide (ds = []) || ((1 <? len ds) && bool_decide (nth_get ds 0 = Some 48)) = false <->
  canonical_digits ds.
Proof.
  intros Hd. unfold canonical_digits. split.
  - intros [H1 H2]%orb_false_iff. apply bool_decide_eq_false in H1. split_and!; [done..|].
    intros Hl. apply andb_false_iff in H2 as [H2|H2]; [lia|by apply bool_decide_eq_false in H2].
  - intros (_&H1&H2). apply orb_false_iff. split; [by apply bool_decide_eq_false|].
    destruct (Z.ltb_spec 1 (len ds)); [|done]. apply bool_decide_eq_false. auto.
Qed.

Lemma parse_bytes_spec p n : 0 <= p <= len inp -> len inp < 2 ^ USIZE ->
  wp parse_bytes (St p n)
    (fun b s => s = St (p + len (bencode_bytes b)) n /\ p + len (bencode_bytes b) <= len inp /\
       sub_list inp p (p + len (bencode_bytes b)) = bencode_bytes b /\
       len b <= max_string_length lim) any.
Proof.
  intros Hp Hi. unfold parse_bytes, fuel_for. do 3 wp_step. cbn [position input].
  wp_call (scan_length_spec (S (length inp)) p p n); [lia|lia|unfold len in *; lia| | |done].
  { by rewrite sub_list_empty. }
  intros _ s (q&->&Hq&Hc&Hds). pose proof (nth_get_lt _ _ _ Hc).
  do 2 wp_step. cbn [position input]. apply wp_bind, wp_input_slice; [lia|lia|].
  set (ds := sub_list inp p q) in *. do 2 wp_step. wp_step; [by wp_step|].
  rename Heqb into Hcan. apply (digits_canonical ds Hds) in Hcan.
  wp_step. rewrite checked_dec_value_spec by done.
  destruct (Z.ltb_spec (dec_value ds) (2 ^ USIZE)); simpl ok_or; [wp_step|by wp_step].
  cbn [limits]. wp_step; [by wp_step|]. wp_step. apply wp_lift_ok_or; [|done].
  intros e [-> He]%checked_add_Some. wp_step; [by wp_step|]. cbn [input] in *.
  pose proof (dec_value_nonneg _ Hds).
  apply wp_bind, wp_input_slice; [lia|lia|]. do 3 wp_step.
  set (b := sub_list inp (q + 1) (q + 1 + dec_value ds)).
  assert (Hb : len b = dec_value ds) by (unfold b; rewrite len_sub_list; lia).
  assert (Hdl : len ds = q - p) by (unfold ds; rewrite len_sub_list; lia).
  assert (Hbb : bencode_bytes b = ds ++ 58 :: b).
  { unfold bencode_bytes. by rewrite Hb, decimal_dec_value. }
  assert (Hl : p + len (bencode_bytes b) = q + 1 + dec_value ds).
  { rewrite Hbb, len_app, len_cons. lia. }
  rewrite Hl. split_and!; [done|lia| |lia].
  rewrite Hbb, (sub_list_join _ p q), (sub_list_join _ q (q + 1)) by lia.
  by rewrite (sub_list_one _ _ 58).
Qed.

(** *** Integers *)
Lemma existsb_digits ds :
  existsb (fun b => negb (is_ascii_digit b)) ds = false <->
  Forall (fun b => is_ascii_digit b = true) ds.
Proof.
  induction ds as [|d ds IH]; simpl; [by split|]. rewrite Forall_cons, <- IH.
  destruct (is_ascii_digit d); simpl; intuition congruence.
Qed.
Lemma forallb_digits ds :
  Forall (fun b => is_ascii_digit b = true) ds -> forallb is_ascii_digit ds = true.
Proof. induction 1 as [|d ds Hd _ IH]; simpl; [done|]. by rewrite Hd. Qed.

Lemma parse_i64_positive ds : canonical_digits ds ->
  parse_i64 ds = if dec_value ds <? 2 ^ 63 then Some (dec_value ds) else None.
Proof.
  intros (Hd&Hne&_). pose proof (dec_value_nonneg _ Hd).
  unfold parse_i64. destruct ds as [|d ds]; [done|].
  pose proof (Forall_inv Hd) as H0%is_ascii_digit_spec.
  destruct (Z.eqb_spec d 45); [lia|]. destruct (Z.eqb_spec d 43); [lia|].
  rewrite forallb_digits by done. cbn [negb orb].
  rewrite bool_decide_false by done. cbn [negb orb].
  destruct (Z.leb_spec (- 2 ^ 63) (dec_value (d :: ds))); [|lia]. done.
Qed.
Lemma parse_i64_negative ds : canonical_digits ds ->
  parse_i64 (45 :: ds) = if - 2 ^ 63 <=? - dec_value ds then Some (- dec_value ds) else None.
Proof.
  intros (Hd&Hne&_). pose proof (dec_value_nonneg _ Hd).
  unfold parse_i64. cbn [Z.eqb Pos.eqb].
  rewrite forallb_digits by done. rewrite bool_decide_false by done. cbn [negb orb].
  destruct (Z.ltb_spec (- dec_value ds) (2 ^ 63)); [|lia]. by rewrite andb_true_r.
Qed.

Lemma dec_value_zero ds : canonical_digits ds -> dec_value ds = 0 -> ds = [48].
Proof. intros Hc H0. apply decimal_dec_value in Hc. rewrite H0 in Hc. by rewrite <- Hc. Qed.

Lemma int_text_positive ds : canonical_digits ds -> int_text (dec_value ds) = ds.
Proof.
  intros Hc. unfold int_text. pose proof (dec_value_nonneg _ (proj1 Hc)).
  destruct (Z.ltb_spec (dec_value ds) 0); [lia|]. by apply decimal_dec_value.
Qed.
Lemma int_text_negative ds : canonical_digits ds -> ds <> [48] ->
  int_text (- dec_value ds) = 45 :: ds.
Proof.
  intros Hc Hz. unfold int_text. pose proof (dec_value_nonneg _ (proj1 Hc)).
  destruct (Z.ltb_spec (- dec_value ds) 0).
  - by rewrite Z.opp_involutive, decimal_dec_value.
  - destruct Hz. apply dec_value_zero; [done|lia].
Qed.

Lemma strip_minus_len digits :
  len (strip_minus digits) = len digits /\ strip_minus digits = digits \/
  exists ds, digits = 45 :: ds /\ strip_minus digits = ds /\ len ds <> len digits.
Proof.
  destruct digits as [|b r]; simpl; [by left|].
  destruct (Z.eqb_spec b 45) as [->|]; [right|by left].
  exists r. rewrite len_cons. split_and!; [done..|lia].
Qed.

(** The guards of [integer_of_digits]. *)
Lemma integer_of_digits_guard st digits :
  match integer_of_digits st digits with
  | Ok v => exists i, v = Integer i /\ - 2 ^ 63 <= i < 2 ^ 63 /\ digits = int_text i
  | Err _ => True
  | _ => False
  end.
Proof.
  unfold integer_of_digits.
  destruct (_ || _ || _ || _) eqn:G; [done|].
  apply orb_false_iff in G as [G Gneg]. apply orb_false_iff in G as [G Ghd].
  apply orb_false_iff in G as [Gne Gd%existsb_digits].
  assert (Hc : canonical_digits (strip_minus digits)).
  { apply digits_canonical; [done|]. by rewrite Gne, Ghd. }
  destruct (negb (utf8_valid digits)); [done|].
  destruct (strip_minus_len digits) as [[Hl Hs]|(ds&->&Hs&Hl)]; rewrite Hs in *.
  - pose proof (dec_value_nonneg _ (proj1 Hc)).
    rewrite parse_i64_positive by done.
    destruct (Z.ltb_spec (dec_value digits) (2 ^ 63)); [|done]. eexists. split_and!; [done|lia|lia|]. by rewrite int_text_positive.
  - pose proof (dec_value_nonneg _ (proj1 Hc)).
    rewrite parse_i64_negative by done.
    destruct (Z.leb_spec (- 2 ^ 63) (- dec_value ds)); [|done]. eexists. split_and!; [done|lia|lia|].
    rewrite int_text_negative; [done..|]. intros ->.
    apply andb_false_iff in Gneg as [Gneg|Gneg].
    + apply negb_false_iff in Gneg. lia.
    + by apply bool_decide_eq_false in Gneg.
Qed.

Lemma integer_of_digits_ok st i : - 2 ^ 63 <= i < 2 ^ 63 ->
  integer_of_digits st (int_text i) = Ok (Integer i).
Proof.
  intros Hi.
  assert (exists ds, canonical_digits ds /\
    ((int_text i = ds /\ i = dec_value ds) \/
     (int_text i = 45 :: ds /\ i = - dec_value ds /\ ds <> [48]))) as (ds&Hc&Hds).
  { unfold int_text. destruct (Z.ltb_spec i 0).
    - exists (decimal (- i)). split; [apply decimal_canonical; lia|]. right.
      rewrite dec_value_decimal by lia. split_and!; [done|lia|].
      intros E%(f_equal dec_value). rewrite dec_value_decimal in E by lia. cbn in E. lia.
    - exists (decimal i). split; [apply decimal_canonical; lia|]. left.
      by rewrite dec_value_decimal by lia. }
  pose proof Hc as (Hd&Hne&_). pose proof (proj2 (digits_canonical ds Hd) Hc) as Hg.
  apply orb_false_iff in Hg as [Hg1 Hg2].
  unfold integer_of_digits. destruct Hds as [(->&->)|(->&->&Hz)].
  - assert (strip_minus ds = ds) as ->.
    { destruct ds as [|d ds]; [done|]. inversion_clear Hd as [|?? Hd0].
      apply is_ascii_digit_spec in Hd0. simpl. destruct (Z.eqb_spec d 45); [lia|done]. }
    rewrite Hg1, Hg2, (proj2 (existsb_digits _) Hd), Z.eqb_refl.
    rewrite digits_utf8, parse_i64_positive by done. cbn [negb andb orb].
    destruct (Z.ltb_spec (dec_value ds) (2 ^ 63)); [done|lia].
  - cbn [strip_minus Z.eqb Pos.eqb].
    rewrite Hg1, Hg2, (proj2 (existsb_digits _) Hd), len_cons.
    rewrite (bool_decide_false (ds = [48])), andb_false_r by done. cbn [negb andb orb utf8_valid].
    change (45 <=? 127) with true. cbv iota.
    rewrite digits_utf8, parse_i64_negative by done. cbn [negb].
    destruct (Z.leb_spec (- 2 ^ 63) (- dec_value ds)); [done|lia].
Qed.

Lemma parse_integer_spec p n : 0 <= p <= len inp -> nth_get inp p = Some 105 ->
  wp parse_integer (St p n)
    (fun v s => exists i, v = Integer i /\ - 2 ^ 63 <= i < 2 ^ 63 /\
       s = St (p + len (bencode (BInt i))) n /\ p + len (bencode (BInt i)) <= len inp /\
       sub_list inp p (p + len (bencode (BInt i))) = bencode (BInt i)) any.
Proof.
  intros Hp Ht. pose proof (nth_get_lt _ _ _ Ht). unfold parse_integer, fuel_for.
  do 4 wp_step. change (advance (St p n)) with (St (p + 1) n). cbn [position input].
  wp_step. wp_call (scan_to_e_spec (S (length inp)) (p + 1) n); [lia|unfold len in *; lia| |done].
  intros _ s (q&->&Hq&He). pose proof (nth_get_lt _ _ _ He).
  do 2 wp_step. cbn [position input]. apply wp_bind, wp_input_slice; [lia|lia|].
  do 2 wp_step. change (advance (St q n)) with (St (q + 1) n).
  set (ds := sub_list inp (p + 1) q).
  pose proof (integer_of_digits_guard p ds) as Hg.
  unfold wp, lift. destruct (integer_of_digits p ds) as [v|e| |]; try done.
  destruct Hg as (i&->&Hi&Hds).
  assert (Hl : len (bencode (BInt i)) = q + 1 - p).
  { cbn [bencode]. rewrite len_cons, len_app, <- Hds. unfold ds.
    rewrite len_sub_list by lia. change (len [101]) with 1. lia. }
  exists i. rewrite Hl. replace (p + (q + 1 - p)) with (q + 1) by lia. split_and!; [done|lia|lia|done|lia|].
  cbn [bencode]. rewrite <- Hds. unfold ds.
  rewrite (sub_list_join _ p (p + 1)), (sub_list_join _ (p + 1) q) by lia.
  by rewrite (sub_list_one _ _ 105), (sub_list_one _ _ 101).
Qed.

(** *** Collections *)

(** What a successful parse of one value establishes. *)
Definition accepted (d p n : Z) (node : Node) (s : Parser) : Prop :=
  exists v, node = place al p v /\ valid al lim d v /\
    s = St (p + len (bencode v)) (n + item_count v) /\
    p + len (bencode v) <= len inp /\ n + item_count v <= max_decoded_items lim /\
    sub_list inp p (p + len (bencode v)) = bencode v.

Section loops.
Context (pv : Z -> P Node) (d : Z) (bound : Z).
Hypothesis Hpv : forall p n, bound < p <= len inp -> n <= max_decoded_items lim ->
  wp (pv (d + 1)) (St p n) (accepted (d + 1) p n) any.

Abbreviation enc l := (concat (map bencode l)).
Abbreviation items l := (fold_right (fun x n => item_count x + n) 0 l).

Lemma parse_list_loop_spec f st p0 n0 l :
  let p := p0 + len (enc l) in let n := n0 + items l in
  bound < p0 -> 0 <= p0 -> p <= len inp -> n <= max_decoded_items lim ->
  len inp - p < Z.of_nat f -> len l <= max_collection_entries lim ->
  Forall (valid al lim (d + 1)) l -> sub_list inp p0 p = enc l ->
  wp (parse_list_loop pv f st d (place_list al p0 l)) (St p n)
    (fun values s => exists l', values = place_list al p0 l' /\
       Forall (valid al lim (d + 1)) l' /\ len l' <= max_collection_entries lim /\
       s = St (p0 + len (enc l')) (n0 + items l') /\ n0 + items l' <= max_decoded_items lim /\
       nth_get inp (p0 + len (enc l')) = Some 101 /\
       sub_list inp p0 (p0 + len (enc l')) = enc l') any.
Proof.
  revert l. induction f as [|f IH]; intros l p n Hb0 H0 Hp Hn Hf Hl Hv Hs.
  { lia. }
  cbn [parse_list_loop]. apply wp_bind, wp_peek. intros b Hb. wp_step.
  { wp_step. exists l. split_and!; try done. transitivity (Some b); [exact Hb|f_equal; lia]. }
  do 2 wp_step. cbn [limits]. rewrite len_place_list. wp_step; [by wp_step|].
  pose proof (len_nonneg (enc l)).
  wp_step. wp_call (Hpv p n); [unfold p; lia|done| |done].
  intros node s (v&->&Hval&->&Hle&Hni&Hsub).
  pose proof (len_bencode_pos v).
  replace (place_list al p0 l ++ [place al p v]) with (place_list al p0 (l ++ [v]))
    by apply place_list_snoc.
  assert (He : enc (l ++ [v]) = enc l ++ bencode v).
  { rewrite map_app, concat_app. simpl. by rewrite app_nil_r. }
  assert (Hit : items (l ++ [v]) = items l + item_count v).
  { clear. induction l as [|x l IH]; simpl; [lia|]. rewrite IH. lia. }
  assert (Hpl : p0 + len (enc (l ++ [v])) = p + len (bencode v)).
  { rewrite He, len_app. unfold p. lia. }
  specialize (IH (l ++ [v])). cbv zeta in IH. rewrite Hpl, Hit in IH.
  replace (n0 + (items l + item_count v)) with (n + item_count v) in IH by (unfold n; lia).
  apply IH; try done; try lia.
  - rewrite len_snoc. assert (len l <> max_collection_entries lim) by lia. lia.
  - apply Forall_app. split; [done|]. by apply Forall_singleton.
  - rewrite He, (sub_list_join _ p0 p) by (unfold p; lia). by rewrite Hs, Hsub.
Qed.

Abbreviation denc l := (concat (map (fun '(k, x) => bencode_bytes k ++ bencode x) l)).
Abbreviation ditems l := (fold_right (fun '(_, x) n => 1 + item_count x + n) 0 l).

Lemma denc_snoc l k (x : bvalue) :
  denc (l ++ [(k, x)]) = denc l ++ bencode_bytes k ++ bencode x.
Proof. rewrite map_app, concat_app. simpl. by rewrite app_nil_r. Qed.
Lemma ditems_snoc l k (x : bvalue) :
  ditems (l ++ [(k : list Z, x)]) = ditems l + 1 + item_count x.
Proof. induction l as [|[] l IH]; simpl; lia. Qed.

(** The entries read so far are acceptable. *)
Definition entries_ok (l : list (list Z * bvalue)) : Prop :=
  len l <= max_collection_entries lim /\ keys_ok al (map fst l) /\
  Forall (fun kx => len kx.1 <= max_string_length lim) l /\
  Forall (fun kx => valid al lim (d + 1) kx.2) l.

Lemma parse_dictionary_loop_spec f st p0 n0 l :
  let p := p0 + len (denc l) in let n := n0 + ditems l in
  bound < p0 -> 0 <= p0 -> p <= len inp -> len inp < 2 ^ USIZE -> n <= max_decoded_items lim ->
  len inp - p < Z.of_nat f -> entries_ok l -> sub_list inp p0 p = denc l ->
  wp (parse_dictionary_loop pv f st d (place_entries al p0 l)) (St p n)
    (fun es s => exists l', es = place_entries al p0 l' /\ entries_ok l' /\
       s = St (p0 + len (denc l')) (n0 + ditems l') /\ n0 + ditems l' <= max_decoded_items lim /\
       nth_get inp (p0 + len (denc l')) = Some 101 /\
       sub_list inp p0 (p0 + len (denc l')) = denc l') any.
Proof.
  revert l. induction f as [|f IH]; intros l p n Hb0 H0 Hp Hi Hn Hf Hok Hs.
  { lia. }
  cbn [parse_dictionary_loop]. apply wp_bind, wp_peek. intros b Hb. wp_step.
  { wp_step. exists l. split_and!; try done; try apply Hok.
    transitivity (Some b); [exact Hb|f_equal; lia]. }
  do 2 wp_step. cbn [limits]. rewrite len_place_entries. wp_step; [by wp_step|].
  pose proof (len_nonneg (denc l)).
  apply wp_bind, wp_peek. intros b' _. wp_step; [by wp_step|].
  apply wp_bind, wp_consume; [done|]. intros Hn1.
  wp_step. wp_call (parse_bytes_spec p (n + 1)); [lia|done| |done].
  intros key s (->&Hle&Hsub&Hkl). pose proof (len_bencode_bytes key).
  cbn [allow_unsorted_dictionaries]. wp_step; [by wp_step|]. rename Heqb2 into Hkey.
  wp_step. wp_call (Hpv (p + len (bencode_bytes key)) (n + 1)); [unfold p in *; lia|done| |done].
  intros node s (v&->&Hval&->&Hle'&Hni&Hsub'). pose proof (len_bencode_pos v).
  replace (place_entries al p0 l ++ [_]) with (place_entries al p0 (l ++ [(key, v)]))
    by apply place_entries_snoc.
  assert (Hpl : p0 + len (denc (l ++ [(key, v)])) = p + len (bencode_bytes key) + len (bencode v)).
  { rewrite denc_snoc, !len_app. unfold p. lia. }
  specialize (IH (l ++ [(key, v)])). cbv zeta in IH. rewrite Hpl, ditems_snoc in IH.
  replace (n0 + (ditems l + 1 + item_count v)) with (n + 1 + item_count v) in IH by (unfold n; lia).
  destruct Hok as (Hlen&Hkeys&Hks&Hvs).
  apply IH; try done; try lia.
  - split_and!.
    + rewrite len_snoc. assert (len l <> max_collection_entries lim) by lia. lia.
    + rewrite map_app. simpl. rewrite <- (place_entries_keys al p0) in Hkeys |- *.
      by apply key_rejected_snoc.
    + apply Forall_app. split; [done|]. by apply Forall_singleton.
    + apply Forall_app. split; [done|]. by apply Forall_singleton.
  - rewrite denc_snoc, (sub_list_join _ p0 p) by (unfold p; lia).
    rewrite (sub_list_join _ p (p + len (bencode_bytes key))) by lia.
    by rewrite Hs, Hsub, Hsub'.
Qed.

(** The loops from their empty accumulators. *)
Lemma parse_list_loop_start f st p0 n0 :
  bound < p0 -> 0 <= p0 <= len inp -> n0 <= max_decoded_items lim -> len inp - p0 < Z.of_nat f ->
  0 <= max_collection_entries lim ->
  wp (parse_list_loop pv f st d []) (St p0 n0)
    (fun values s => exists l', values = place_list al p0 l' /\
       Forall (valid al lim (d + 1)) l' /\ len l' <= max_collection_entries lim /\
       s = St (p0 + len (enc l')) (n0 + items l') /\ n0 + items l' <= max_decoded_items lim /\
       nth_get inp (p0 + len (enc l')) = Some 101 /\
       sub_list inp p0 (p0 + len (enc l')) = enc l') any.
Proof.
  intros. pose proof (parse_list_loop_spec f st p0 n0 []) as H'.
  cbn [map concat fold_right place_list] in H'. change (len (@nil Z)) with 0 in H'; cbv zeta in H'; rewrite !Z.add_0_r in H'.
  apply H'; auto; try lia. by rewrite sub_list_empty.
Qed.

Lemma parse_dictionary_loop_start f st p0 n0 :
  bound < p0 -> 0 <= p0 <= len inp -> len inp < 2 ^ USIZE -> n0 <= max_decoded_items lim ->
  len inp - p0 < Z.of_nat f -> 0 <= max_collection_entries lim ->
  wp (parse_dictionary_loop pv f st d []) (St p0 n0)
    (fun es s => exists l', es = place_entries al p0 l' /\ entries_ok l' /\
       s = St (p0 + len (denc l')) (n0 + ditems l') /\ n0 + ditems l' <= max_decoded_items lim /\
       nth_get inp (p0 + len (denc l')) = Some 101 /\
       sub_list inp p0 (p0 + len (denc l')) = denc l') any.
Proof.
  intros. pose proof (parse_dictionary_loop_spec f st p0 n0 []) as H'.
  cbn [map concat fold_right place_entries] in H'. change (len (@nil Z)) with 0 in H'; cbv zeta in H'; rewrite !Z.add_0_r in H'.
  apply H'; auto; try lia; [|by rewrite sub_list_empty].
  split_and!; [done| |constructor|constructor]. unfold keys_ok. destruct al; constructor.
Qed.
End loops.

Lemma len_bencode_list l : len (bencode (BList l)) = 2 + len (concat (map bencode l)).
Proof. cbn [bencode]. rewrite len_cons, len_app. change (len [101]) with 1. lia. Qed.
Lemma len_bencode_dict l : len (bencode (BDict l)) =
  2 + len (concat (map (fun '(k, x) => bencode_bytes k ++ bencode x) l)).
Proof. cbn [bencode]. rewrite len_cons, len_app. change (len [101]) with 1. lia. Qed.

(** Opening byte, contents, closing [e]. *)
Lemma bracketed_slice p b body : 0 <= p -> nth_get inp p = Some b ->
  sub_list inp (p + 1) (p + 1 + len body) = body ->
  nth_get inp (p + 1 + len body) = Some 101 ->
  sub_list inp p (p + (2 + len body)) = b :: body ++ [101].
Proof.
  intros Hp Hb Hs He. pose proof (len_nonneg body).
  replace (p + (2 + len body)) with (p + 1 + len body + 1) by lia.
  rewrite (sub_list_join _ p (p + 1)), (sub_list_join _ (p + 1) (p + 1 + len body)) by lia.
  by rewrite (sub_list_one _ _ b), Hs, (sub_list_one _ _ 101).
Qed.


Lemma parse_value_spec f d p n :
  0 <= p <= len inp -> len inp < 2 ^ USIZE -> n <= max_decoded_items lim ->
  len inp - p < Z.of_nat f -> wp (parse_value f d) (St p n) (accepted d p n) any.
Proof.
  revert d p n. induction f as [|f IH]; intros d p n Hp Hi Hn Hf; [lia|].
  pose proof Hwf as (_&_&_&_&[Hc _]).
  cbn [parse_value]. do 2 wp_step. cbn [limits position]. wp_step; [by wp_step|].
  apply wp_bind, wp_peek. intros t Ht. pose proof (nth_get_lt _ _ _ Ht).
  wp_step; [by wp_step|]. apply wp_bind, wp_consume; [done|]. intros Hn1.
  assert (Hrec : forall p' n', p < p' <= len inp -> n' <= max_decoded_items lim ->
    wp (parse_value f (d + 1)) (St p' n') (accepted (d + 1) p' n') any).
  { intros. apply IH; lia. }
  wp_step. wp_step.
  { (* integer *) assert (t = 105) as -> by lia.
    wp_call (parse_integer_spec p (n + 1)); [lia|done| |done].
    intros v s (i&->&Hr&->&Hle&Hsub). do 3 wp_step.
    exists (BInt i). split_and!; [done|apply valid_int; lia|done|lia|cbn; lia|done]. }
  wp_step.
  { (* list *) assert (t = 108) as -> by lia. unfold parse_list, fuel_for.
    do 4 wp_step. change (advance (St p (n + 1))) with (St (p + 1) (n + 1)). cbn [input position].
    wp_step. wp_call (parse_list_loop_start (parse_value f) d p Hrec (S (length inp)) p (p + 1) (n + 1));
      [lia|lia|done|unfold len in *; lia|done| |done].
    intros vs s (l&->&Hv&Hl&->&Hni&He&Hsub). pose proof (nth_get_lt _ _ _ He).
    do 6 wp_step. change (advance (St ?q ?m)) with (St (q + 1) m). cbn [position].
    exists (BList l). rewrite place_unfold_list, len_bencode_list. cbn [item_count].
    split_and!; [|apply valid_list; [lia|done|done]| |lia|lia|apply (bracketed_slice p 108); [lia|done..]].
    + f_equal. cbn. lia.
    + unfold advance, set_position. cbn. f_equal; lia. }
  wp_step.
  { (* dictionary *) assert (t = 100) as -> by lia. unfold parse_dictionary, fuel_for.
    do 4 wp_step. change (advance (St p (n + 1))) with (St (p + 1) (n + 1)). cbn [input position].
    wp_step. wp_call (parse_dictionary_loop_start (parse_value f) d p Hrec (S (length inp)) p (p + 1) (n + 1));
      [lia|lia|done|done|unfold len in *; lia|done| |done].
    intros es s (l&->&(Hl&Hk&Hks&Hv)&->&Hni&He&Hsub). pose proof (nth_get_lt _ _ _ He).
    do 6 wp_step. cbn [position allow_unsorted_dictionaries].
    exists (BDict l). rewrite place_unfold_dict, len_bencode_dict. cbn [item_count].
    split_and!; [|apply valid_dict; [lia|done|done|done|done]| |lia|lia|apply (bracketed_slice p 100); [lia|done..]].
    + f_equal. cbn. lia.
    + unfold advance, set_position. cbn. f_equal; lia. }
  (* byte string *)
  wp_step. wp_call (parse_bytes_spec p (n + 1)); [lia|done| |done].
  intros b s (->&Hle&Hsub&Hbl). do 3 wp_step.
  exists (BBytes b). split_and!; [done|apply valid_bytes; lia|done|done|cbn; lia|done].
Qed.

(** *** Completeness: an encoding is read back

    [reads p bs]: the input holds [bs] from offset [p]. *)
Definition reads (p : Z) (bs : list Z) : Prop :=
  0 <= p /\ p + len bs <= len inp /\ sub_list inp p (p + len bs) = bs.

Lemma reads_app p a b : reads p (a ++ b) <-> reads p a /\ reads (p + len a) b.
Proof.
  unfold reads. rewrite len_app. pose proof (len_nonneg a). pose proof (len_nonneg b).
  replace (p + (len a + len b)) with (p + len a + len b) by lia. split.
  - intros (Hp0&Hle&Hs). rewrite (sub_list_join _ p (p + len a)) in Hs by lia.
    apply app_inj_1 in Hs as [Ha Hb]; [split_and!; done || lia|].
    enough (len (sub_list inp p (p + len a)) = len a) by (unfold len in *; lia).
    rewrite len_sub_list; lia.
  - intros ((?&?&Ha)&(?&?&Hb)). split_and!; [lia..|].
    rewrite (sub_list_join _ p (p + len a)) by lia. by rewrite Ha, Hb.
Qed.
Lemma reads_cons p b r : reads p (b :: r) <-> 0 <= p /\ nth_get inp p = Some b /\ reads (p + 1) r.
Proof.
  change (b :: r) with ([b] ++ r). rewrite reads_app. change (len [b]) with 1.
  enough (reads p [b] <-> 0 <= p /\ nth_get inp p = Some b) by tauto.
  unfold reads. change (len [b]) with 1. split.
  - intros (Hp0&Hle&Hs). split; [done|].
    destruct (nth_get inp p) as [c|] eqn:E.
    + rewrite (sub_list_one _ _ _ E) in Hs. congruence.
    + assert (is_Some (nth_get inp p)) as [? ?] by (apply nth_get_Some; lia). congruence.
  - intros [Hp0 Hb]. pose proof (nth_get_lt _ _ _ Hb). split_and!; [lia..|].
    by apply sub_list_one.
Qed.

Lemma bind_ok {A B} (m : P A) (g : A -> P B) s s' a : m s = (s', Ok a) -> (m ≫= g) s = g a s'.
Proof. intros H. unfold mbind, M_bind. by rewrite H. Qed.
Lemma peek_ok p n b : nth_get inp p = Some b -> peek (St p n) = (St p n, Ok b).
Proof. intros H. unfold peek. simpl. by rewrite H. Qed.
Lemma input_slice_ok p n a bs : reads a bs -> input_slice a (a + len bs) (St p n) = (St p n, Ok bs).
Proof.
  intros (?&?&Hs). unfold input_slice. cbn [input]. pose proof (len_nonneg bs).
  rewrite slice_ok by lia. by rewrite Hs.
Qed.

Lemma scan_to_e_ok f ds p n : reads p (ds ++ [101]) -> (~ 101 ∈ ds) -> len ds < Z.of_nat f ->
  scan_to_e f (St p n) = (St (p + len ds) n, Ok tt).
Proof.
  revert p f. induction ds as [|d ds IH]; intros p f Hr Hn Hf;
    (destruct f as [|f]; [match type of Hf with len ?l < _ => pose proof (len_nonneg l) end; lia|]).
  - apply reads_cons in Hr as (?&Hb&_). cbn [scan_to_e]. erewrite bind_ok by (by apply peek_ok).
    cbn. change (len []) with 0. by rewrite Z.add_0_r.
  - apply reads_cons in Hr as (?&Hb&Hr). cbn [scan_to_e]. erewrite bind_ok by (by apply peek_ok).
    apply not_elem_of_cons in Hn as [Hd Hn]. rewrite len_cons in *.
    destruct (Z.eqb_spec d 101); [congruence|].
    erewrite bind_ok by done. change (advance (St p n)) with (St (p + 1) n).
    rewrite (IH (p + 1) f) by (done || lia). do 2 f_equal. lia.
Qed.

Lemma scan_length_ok f st ds p n : reads p (ds ++ [58]) ->
  Forall (fun b => is_ascii_digit b = true) ds -> len ds < Z.of_nat f ->
  scan_length f st (St p n) = (St (p + len ds) n, Ok tt).
Proof.
  revert p f. induction ds as [|d ds IH]; intros p f Hr Hd Hf;
    (destruct f as [|f]; [match type of Hf with len ?l < _ => pose proof (len_nonneg l) end; lia|]).
  - apply reads_cons in Hr as (?&Hb&_). cbn [scan_length]. erewrite bind_ok by (by apply peek_ok).
    cbn. change (len []) with 0. by rewrite Z.add_0_r.
  - apply reads_cons in Hr as (?&Hb&Hr). cbn [scan_length]. erewrite bind_ok by (by apply peek_ok).
    inversion_clear Hd as [|?? Hd0 Hd1]. rewrite len_cons in *.
    pose proof (proj1 (is_ascii_digit_spec _) Hd0).
    destruct (Z.eqb_spec d 58); [lia|].
    erewrite bind_ok by done.
    erewrite bind_ok by (unfold lift, index; cbn [input position]; by rewrite Hb).
    rewrite Hd0. cbn [negb]. erewrite bind_ok by done.
    change (advance (St p n)) with (St (p + 1) n).
    rewrite (IH (p + 1) f) by (done || lia). do 2 f_equal. lia.
Qed.

Lemma parse_bytes_ok p n b : reads p (bencode_bytes b) -> len b <= max_string_length lim ->
  len inp < 2 ^ USIZE -> parse_bytes (St p n) = (St (p + len (bencode_bytes b)) n, Ok b).
Proof.
  intros Hr Hb Hi. pose proof (len_nonneg b). pose proof Hr as (Hp&Hle&_).
  pose proof (decimal_canonical (len b) ltac:(lia)) as Hc. pose proof Hc as (Hd&_).
  unfold bencode_bytes in Hr, Hle |- *. set (ds := decimal (len b)) in *.
  rewrite len_app, len_cons in *. pose proof (len_nonneg ds).
  change (58 :: b) with ([58] ++ b) in Hr. rewrite app_assoc in Hr.
  apply reads_app in Hr as [Hds Hrb]. rewrite len_app in Hrb. change (len [58]) with 1 in Hrb.
  unfold parse_bytes, fuel_for. erewrite bind_ok by done. cbn [input position].
  erewrite bind_ok by (apply (scan_length_ok _ _ ds); [done|done|unfold len in *; lia]).
  erewrite bind_ok by done. cbn [input position].
  apply reads_app in Hds as [Hds _].
  erewrite bind_ok by (by apply input_slice_ok). erewrite bind_ok by done.
  change (advance (St (p + len ds) n)) with (St (p + len ds + 1) n).
  rewrite (proj2 (digits_canonical ds Hd) Hc).
  erewrite bind_ok; [|rewrite checked_dec_value_spec by done; unfold ds;
    rewrite dec_value_decimal, (proj2 (Z.ltb_lt _ _)) by lia; done].
  cbn [limits]. destruct (Z.ltb_spec (max_string_length lim) (len b)); [lia|].
  erewrite bind_ok; [|unfold checked_add; rewrite (proj2 (Z.ltb_lt _ _)) by lia; done].
  destruct (Z.ltb_spec (len inp) (p + len ds + 1 + len b)); [lia|].
  erewrite bind_ok by (apply input_slice_ok; by replace (p + len ds + 1) with (p + (len ds + 1)) by lia).
  erewrite bind_ok by done. unfold mret, M_ret, set_position. cbn. do 2 f_equal. lia.
Qed.

Lemma int_text_no_e i : ~ 101 ∈ int_text i.
Proof.
  assert (forall n, 0 <= n -> ~ 101 ∈ decimal n) as Hd.
  { intros n Hn Hin. destruct (decimal_canonical n Hn) as [Hall _].
    rewrite Forall_forall in Hall. by specialize (Hall _ Hin). }
  unfold int_text. destruct (Z.ltb_spec i 0); [|by apply Hd].
  apply not_elem_of_cons. split; [done|]. apply Hd. lia.
Qed.

Lemma parse_integer_ok p n i : reads p (bencode (BInt i)) -> - 2 ^ 63 <= i < 2 ^ 63 ->
  parse_integer (St p n) = (St (p + len (bencode (BInt i))) n, Ok (Integer i)).
Proof.
  intros Hr Hi. cbn [bencode] in *. rewrite len_cons, len_app. change (len [101]) with 1.
  pose proof Hr as (Hp&Hle&_). rewrite len_cons, len_app in Hle. change (len [101]) with 1 in Hle.
  apply reads_cons in Hr as (_&_&Hr). set (ds := int_text i) in *.
  pose proof (len_nonneg ds).
  unfold parse_integer, fuel_for. erewrite bind_ok by done. cbn [input position].
  erewrite bind_ok by done. change (advance (St p n)) with (St (p + 1) n).
  erewrite bind_ok by (apply (scan_to_e_ok _ ds); [done|apply int_text_no_e|unfold len in *; lia]).
  erewrite bind_ok by done. cbn [input position].
  apply reads_app in Hr as [Hr _].
  erewrite bind_ok by (by apply input_slice_ok). erewrite bind_ok by done.
  unfold lift. unfold ds. rewrite integer_of_digits_ok by done.
  unfold advance, set_position. cbn. do 2 f_equal. fold ds. lia.
Qed.

Section complete_loops.
Context (pv : Z -> P Node) (d : Z) (bound : Z).
Hypothesis Hpv : forall v p n, bound < p -> valid al lim (d + 1) v -> reads p (bencode v) ->
  n + item_count v <= max_decoded_items lim ->
  pv (d + 1) (St p n) = (St (p + len (bencode v)) (n + item_count v), Ok (place al p v)).

Lemma encoding_head v : exists b r, bencode v = b :: r /\ b <> 101.
Proof.
  destruct v as [i|b|l|l]; cbn [bencode]; try by eexists _, _.
  destruct (decimal_canonical (len b) (len_nonneg b)) as (Hd&Hne&_).
  unfold bencode_bytes. destruct (decimal (len b)) as [|c r]; [done|].
  exists c, (r ++ 58 :: b). split; [done|].
  inversion_clear Hd as [|?? H0]. apply is_ascii_digit_spec in H0. lia.
Qed.

Lemma parse_list_loop_ok f st acc l q m :
  bound < q -> reads q (concat (map bencode l) ++ [101]) -> Forall (valid al lim (d + 1)) l ->
  len acc + len l <= max_collection_entries lim -> len inp - q < Z.of_nat f ->
  m + fold_right (fun x n => item_count x + n) 0 l <= max_decoded_items lim ->
  parse_list_loop pv f st d acc (St q m) =
    (St (q + len (concat (map bencode l))) (m + fold_right (fun x n => item_count x + n) 0 l),
     Ok (acc ++ place_list al q l)).
Proof.
  revert f acc q m. induction l as [|v l IH]; intros f acc q m Hb Hr Hv Hl Hf Hm;
    pose proof Hr as (?&?&_); (destruct f as [|f];
      [match type of Hr with reads _ ?x => pose proof (len_nonneg x) end; lia|]).
  - cbn [parse_list_loop map concat app fold_right place_list] in *.
    apply reads_cons in Hr as (_&He&_). erewrite bind_ok by (by apply peek_ok).
    change (len []) with 0. rewrite !Z.add_0_r, app_nil_r. done.
  - cbn [parse_list_loop map concat fold_right place_list] in *.
    rewrite <- app_assoc in Hr. apply reads_app in Hr as [Hrv Hr].
    apply Forall_cons_1 in Hv as [Hv Hvl].
    destruct (encoding_head v) as (b&r&Hbv&Hne).
    assert (Hpk : nth_get inp q = Some b).
    { rewrite Hbv in Hrv. by apply reads_cons in Hrv as (_&?&_). }
    erewrite bind_ok by (by apply peek_ok). destruct (Z.eqb_spec b 101); [done|].
    erewrite bind_ok by done. cbn [limits].
    rewrite len_cons in Hl. pose proof (len_nonneg l).
    destruct (Z.eqb_spec (len acc) (max_collection_entries lim)); [lia|].
    assert (0 <= fold_right (fun x n => item_count x + n) 0 l).
    { clear. induction l as [|x l IH]; simpl; [lia|]. pose proof (item_count_pos x). lia. }
    pose proof (len_bencode_pos v).
    erewrite bind_ok by (apply Hpv; [lia|done|done|lia]).
    rewrite IH; [|lia|done|done|rewrite len_snoc; lia|lia|lia].
    rewrite <- app_assoc, len_app. cbn [app]. f_equal. f_equal; lia.
Qed.

Lemma parse_dictionary_loop_ok f st acc l q m :
  bound < q -> len inp < 2 ^ USIZE ->
  reads q (concat (map (fun '(k, x) => bencode_bytes k ++ bencode x) l) ++ [101]) ->
  Forall (fun kx => len kx.1 <= max_string_length lim) l ->
  Forall (fun kx => valid al lim (d + 1) kx.2) l ->
  keys_ok al (map entry_key acc ++ map fst l) ->
  len acc + len l <= max_collection_entries lim -> len inp - q < Z.of_nat f ->
  m + fold_right (fun '(_, x) n => 1 + item_count x + n) 0 l <= max_decoded_items lim ->
  parse_dictionary_loop pv f st d acc (St q m) =
    (St (q + len (concat (map (fun '(k, x) => bencode_bytes k ++ bencode x) l)))
        (m + fold_right (fun '(_, x) n => 1 + item_count x + n) 0 l),
     Ok (acc ++ place_entries al q l)).
Proof.
  intros Hb Hi. revert f acc q m Hb.
  induction l as [|[k v] l IH]; intros f acc q m Hb Hr Hks Hv Hk Hl Hf Hm;
    pose proof Hr as (?&?&_); (destruct f as [|f];
      [match type of Hr with reads _ ?x => pose proof (len_nonneg x) end; lia|]).
  - cbn [parse_dictionary_loop map concat app fold_right place_entries] in *.
    apply reads_cons in Hr as (_&He&_). erewrite bind_ok by (by apply peek_ok).
    change (len []) with 0. rewrite !Z.add_0_r, app_nil_r. done.
  - cbn [parse_dictionary_loop map concat fold_right place_entries fst] in *.
    rewrite <- !app_assoc in Hr. apply reads_app in Hr as [Hrk Hr]. apply reads_app in Hr as [Hrv Hr].
    apply Forall_cons_1 in Hv as [Hv Hvl]. apply Forall_cons_1 in Hks as [Hk0 Hks]. cbn [fst snd] in *.
    destruct (decimal_canonical (len k) (len_nonneg k)) as (Hd&Hne&_).
    assert (exists c r, bencode_bytes k = c :: r /\ is_ascii_digit c = true) as (c&r&Hbk&Hc).
    { unfold bencode_bytes. destruct (decimal (len k)) as [|c r]; [done|].
      exists c, (r ++ 58 :: k). split; [done|]. by inversion_clear Hd. }
    assert (Hpk : nth_get inp q = Some c).
    { rewrite Hbk in Hrk. by apply reads_cons in Hrk as (_&?&_). }
    pose proof (proj1 (is_ascii_digit_spec _) Hc).
    erewrite bind_ok by (by apply peek_ok). destruct (Z.eqb_spec c 101); [lia|].
    erewrite bind_ok by done. cbn [limits].
    rewrite len_cons in Hl. pose proof (len_nonneg l).
    destruct (Z.eqb_spec (len acc) (max_collection_entries lim)); [lia|].
    erewrite bind_ok by (by apply peek_ok). rewrite Hc. cbn [negb].
    assert (0 <= fold_right (fun '(_, x) n => 1 + item_count x + n) 0 l).
    { clear. induction l as [|[? x] l IH]; simpl; [lia|]. pose proof (item_count_pos x). lia. }
    pose proof (len_bencode_pos v). pose proof (item_count_pos v). pose proof (len_bencode_bytes k).
    erewrite bind_ok; [|unfold consume_decoded_item; cbn [decoded_items limits];
      destruct (Z.eqb_spec m (max_decoded_items lim)); [lia|done]].
    unfold set_decoded_items. cbn [input position limits allow_unsorted_dictionaries].
    erewrite bind_ok by (by apply parse_bytes_ok).
    rewrite key_rejected_complete; [|change (k :: map fst l) with ([k] ++ map fst l) in Hk;
      rewrite app_assoc in Hk; revert Hk; unfold keys_ok; destruct al;
      [intros (?&_&_)%NoDup_app; done|by intros ?%StronglySorted_app_1_l]].
    erewrite bind_ok by (apply Hpv; [lia|done|done|lia]).
    rewrite IH; [|lia| |done|done| |rewrite len_snoc; lia|lia|lia].
    + rewrite <- app_assoc, !len_app. cbn [app]. f_equal; [f_equal; lia|].
      do 4 f_equal. lia.
    + by replace (q + len (bencode_bytes k) + len (bencode v)) with (q + len (bencode_bytes k) + len (bencode v)) by lia.
    + rewrite map_app, <- app_assoc. done.
Qed.
End complete_loops.

Lemma parse_value_ok f d v p n : len inp < 2 ^ USIZE -> valid al lim d v ->
  reads p (bencode v) -> n + item_count v <= max_decoded_items lim -> len inp - p < Z.of_nat f ->
  parse_value f d (St p n) = (St (p + len (bencode v)) (n + item_count v), Ok (place al p v)).
Proof.
  intros Hi. revert d v p n. induction f as [|f IH]; intros d v p n Hv Hr Hn Hf.
  { pose proof Hr as (?&?&_). pose proof (len_bencode_pos v). lia. }
  assert (Hd : d <= max_depth lim) by (by destruct Hv).
  pose proof (item_count_pos v). pose proof (len_bencode_pos v). pose proof Hr as (Hp&Hle&_).
  assert (Hpv : forall v p' n, p < p' -> valid al lim (d + 1) v -> reads p' (bencode v) ->
    n + item_count v <= max_decoded_items lim ->
    parse_value f (d + 1) (St p' n) = (St (p' + len (bencode v)) (n + item_count v), Ok (place al p' v))).
  { intros. apply IH; [done|done|done|lia]. }
  cbn [parse_value]. erewrite bind_ok by done. cbn [limits position].
  destruct (Z.ltb_spec (max_depth lim) d); [lia|].
  assert (Hc : consume_decoded_item (St p n) = (St p (n + 1), Ok tt)).
  { unfold consume_decoded_item. cbn [decoded_items limits].
    destruct (Z.eqb_spec n (max_decoded_items lim)); [lia|done]. }
  destruct v as [i|b|l|l].
  - assert (Ht : nth_get inp p = Some 105) by (by apply reads_cons in Hr as (_&?&_)).
    erewrite bind_ok by (by apply peek_ok). cbn [is_token negb Z.eqb Pos.eqb orb].
    erewrite bind_ok by exact Hc. inversion_clear Hv.
    erewrite bind_ok by (by apply parse_integer_ok). by erewrite bind_ok by done.
  - assert (Hk : exists c r, bencode (BBytes b) = c :: r /\ is_ascii_digit c = true).
    { destruct (decimal_canonical (len b) (len_nonneg b)) as (Hd'&Hne&_).
      cbn [bencode]. unfold bencode_bytes. destruct (decimal (len b)) as [|c r]; [done|].
      exists c, (r ++ 58 :: b). split; [done|]. by inversion_clear Hd'. }
    destruct Hk as (c&r&Hbk&Hcd). pose proof (proj1 (is_ascii_digit_spec _) Hcd).
    assert (Ht : nth_get inp p = Some c).
    { rewrite Hbk in Hr. by apply reads_cons in Hr as (_&?&_). }
    erewrite bind_ok by (by apply peek_ok).
    unfold is_token. rewrite Hcd, orb_true_r. cbn [negb].
    erewrite bind_ok by exact Hc. inversion_clear Hv.
    destruct (Z.eqb_spec c 105); [lia|]. destruct (Z.eqb_spec c 108); [lia|].
    destruct (Z.eqb_spec c 100); [lia|].
    erewrite bind_ok by (erewrite bind_ok by (by apply parse_bytes_ok); done). by erewrite bind_ok by done.
  - assert (Ht : nth_get inp p = Some 108) by (by apply reads_cons in Hr as (_&?&_)).
    erewrite bind_ok by (by apply peek_ok). cbn [is_token negb Z.eqb Pos.eqb orb].
    erewrite bind_ok by exact Hc. inversion_clear Hv.
    apply reads_cons in Hr as (_&_&Hr). rewrite len_bencode_list in *. cbn [item_count] in *.
    unfold parse_list, fuel_for.
    erewrite bind_ok; [|erewrite bind_ok by done; cbn [input position];
      erewrite bind_ok by done; change (advance (St p (n + 1))) with (St (p + 1) (n + 1));
      erewrite bind_ok by (apply (parse_list_loop_ok _ _ p Hpv _ _ [] l);
        [lia|done|done|done|unfold len in *; lia|lia]);
      erewrite bind_ok by done; done].
    erewrite bind_ok by done. rewrite place_unfold_list, len_bencode_list.
    unfold advance, set_position, mret, M_ret. cbn [input position decoded_items limits allow_unsorted_dictionaries app].
    f_equal; [f_equal; lia|]. do 2 f_equal. lia.
  - assert (Ht : nth_get inp p = Some 100) by (by apply reads_cons in Hr as (_&?&_)).
    erewrite bind_ok by (by apply peek_ok). cbn [is_token negb Z.eqb Pos.eqb orb].
    erewrite bind_ok by exact Hc. inversion_clear Hv.
    apply reads_cons in Hr as (_&_&Hr). rewrite len_bencode_dict in *. cbn [item_count] in *.
    unfold parse_dictionary, fuel_for.
    erewrite bind_ok; [|erewrite bind_ok by done; cbn [input position];
      erewrite bind_ok by done; change (advance (St p (n + 1))) with (St (p + 1) (n + 1));
      erewrite bind_ok by (apply (parse_dictionary_loop_ok _ _ p Hpv _ _ [] l);
        [lia|done|done|done|done|done|done|unfold len in *; lia|lia]);
      erewrite bind_ok by done; done].
    erewrite bind_ok by done. rewrite place_unfold_dict, len_bencode_dict.
    unfold advance, set_position, mret, M_ret. cbn [input position decoded_items limits allow_unsorted_dictionaries app].
    f_equal; [f_equal; lia|]. do 2 f_equal. lia.
Qed.
End accepts.

(** ** Sorting dictionary entries *)
#[export] Instance entry_le_total : Total entry_le.
Proof.
  intros a b. unfold entry_le. destruct (bytes_ltb (entry_key b) (entry_key a)) eqn:E; [|by left].
  right. by apply bytes_ltb_asym.
Qed.
#[export] Instance entry_le_trans : Transitive entry_le.
Proof.
  intros a b c. unfold entry_le. intros Hab Hbc.
  destruct (bytes_ltb (entry_key c) (entry_key a)) eqn:E; [|done].
  destruct (bytes_ltb (entry_key a) (entry_key b)) eqn:E2.
  - pose proof (bytes_ltb_trans _ _ _ E E2). congruence.
  - by rewrite (bytes_ltb_total _ _ E2 Hab), Hbc in E.
Qed.

Lemma key_inj (es : list DictionaryEntry) e e' :
  NoDup (map entry_key es) -> e ∈ es -> e' ∈ es -> entry_key e = entry_key e' -> e = e'.
Proof.
  intros Hnd (i&Hi)%list_elem_of_lookup (j&Hj)%list_elem_of_lookup Hk.
  assert (i = j) as ->; [|congruence].
  change (map entry_key es) with (entry_key <$> es) in Hnd.
  apply (NoDup_lookup (entry_key <$> es) i j (entry_key e)); [done| |];
    rewrite list_lookup_fmap; [by rewrite Hi|by rewrite Hj, Hk].
Qed.

Lemma strictly_sorted_le (es : list DictionaryEntry) :
  StronglySorted key_lt (map entry_key es) -> StronglySorted entry_le es.
Proof.
  induction es as [|e es IH]; simpl; intros Hs; [constructor|].
  apply StronglySorted_inv in Hs as [Hs Hall]. constructor; [auto|].
  rewrite List.Forall_map in Hall. eapply Forall_impl; [exact Hall|].
  intros e' He'. by apply bytes_ltb_asym.
Qed.
Lemma le_strictly_sorted (es : list DictionaryEntry) :
  StronglySorted entry_le es -> NoDup (map entry_key es) -> StronglySorted key_lt (map entry_key es).
Proof.
  induction 1 as [|e es Hs IH Hall]; simpl; [constructor|].
  intros [Hn Hnd]%NoDup_cons. constructor; [auto|]. rewrite List.Forall_map.
  rewrite Forall_forall in Hall |- *. intros e' He'. simpl.
  destruct (bytes_ltb (entry_key e) (entry_key e')) eqn:E; [done|].
  destruct Hn. rewrite (bytes_ltb_total _ _ E (Hall _ He')).
  by apply list_elem_of_fmap_2.
Qed.

(** Sorting strictly sorted entries changes nothing; sorting entries with
    distinct keys makes them strictly sorted. *)
Lemma merge_sort_sorted es :
  StronglySorted key_lt (map entry_key es) -> merge_sort entry_le es = es.
Proof.
  intros Hs. pose proof (merge_sort_Permutation entry_le es) as Hp.
  apply (StronglySorted_unique_strong entry_le); [| |by apply strictly_sorted_le|done].
  - intros x y Hx Hy Hxy Hyx. rewrite Hp in Hx.
    apply (key_inj es); [by apply sorted_nodup|done..|]. by apply bytes_ltb_total.
  - apply StronglySorted_merge_sort; apply _.
Qed.
Lemma merge_sort_strict es :
  NoDup (map entry_key es) -> StronglySorted key_lt (map entry_key (merge_sort entry_le es)).
Proof.
  intros Hnd. apply le_strictly_sorted; [apply StronglySorted_merge_sort; apply _|].
  by rewrite (merge_sort_Permutation entry_le es).
Qed.

(** ** The nested induction principle of abstract values *)
Lemma bvalue_ind' (Pr : bvalue -> Prop) :
  (forall i, Pr (BInt i)) -> (forall b, Pr (BBytes b)) ->
  (forall l, Forall Pr l -> Pr (BList l)) ->
  (forall l, Forall (fun kx => Pr kx.2) l -> Pr (BDict l)) -> forall v, Pr v.
Proof.
  intros Hi Hb Hl Hd. fix IH 1. intros [i|b|l|l]; [apply Hi|apply Hb|apply Hl|apply Hd].
  - induction l as [|x l IHl]; constructor; [apply IH|exact IHl].
  - induction l as [|[k x] l IHl]; constructor; [apply IH|exact IHl].
Qed.

Lemma place_span inp v p : reads inp p (bencode v) ->
  erase (place false p v) = v /\ spanned inp (place false p v).
Proof.
  revert p. induction v as [i|b|l IH|l IH] using bvalue_ind'; intros p Hr;
    pose proof Hr as (?&?&Hs);
    match type of Hr with reads _ _ ?x => pose proof (len_nonneg x) end.
  - split; [done|]. constructor; [lia|done|done|constructor].
  - split; [done|]. constructor; [lia|done|done|constructor].
  - rewrite place_unfold_list.
    assert (Hl : forall q, reads inp q (concat (map bencode l)) ->
      map erase (place_list false q l) = l /\ Forall (spanned inp) (place_list false q l)).
    { clear -IH. induction IH as [|x l Hx _ IHl]; intros q Hq; [by split|].
      cbn [map concat] in Hq. apply reads_app in Hq as [Hqx Hq].
      destruct (Hx q Hqx) as [He Hsp]. destruct (IHl _ Hq) as [He' Hsp'].
      cbn [place_list map]. rewrite He, He'. split; [done|by constructor]. }
    pose proof Hr as Hr'. cbn [bencode] in Hr'. apply reads_cons in Hr' as (_&_&Hr').
    apply reads_app in Hr' as [Hr' _]. destruct (Hl _ Hr') as [He Hsp].
    split; [cbn [erase node_value]; by rewrite He|].
    constructor; [lia|done| |done]. cbn [erase node_value]. by rewrite He.
  - rewrite place_unfold_dict. cbn [sort_entries].
    assert (Hl : forall q, reads inp q (concat (map (fun '(k, x) => bencode_bytes k ++ bencode x) l)) ->
      map (fun e => (entry_key e, erase (entry_value e))) (place_entries false q l) = l /\
      Forall (spanned inp) (map entry_value (place_entries false q l))).
    { clear -IH. induction IH as [|[k x] l Hx _ IHl]; intros q Hq; [by split|].
      cbn [map concat snd] in Hq, Hx. apply reads_app in Hq as [Hqx Hq].
      apply reads_app in Hqx as [_ Hqx].
      destruct (Hx _ Hqx) as [He Hsp]. destruct (IHl _ Hq) as [He' Hsp'].
      cbn [place_entries map entry_key entry_value]. rewrite He, He'. split; [done|by constructor]. }
    pose proof Hr as Hr'. cbn [bencode] in Hr'. apply reads_cons in Hr' as (_&_&Hr').
    apply reads_app in Hr' as [Hr' _]. destruct (Hl _ Hr') as [He Hsp].
    split; [cbn [erase node_value]; by rewrite He|].
    constructor; [lia|done| |done]. cbn [erase node_value]. by rewrite He.
Qed.

(** On strictly sorted values the two modes place the same tree. *)
Lemma place_modes lim v d p : valid false lim d v ->
  valid true lim d v /\ place true p v = place false p v.
Proof.
  revert d p. induction v as [i|b|l IH|l IH] using bvalue_ind'; intros d p Hv; inversion_clear Hv.
  - split; [by constructor|done].
  - split; [by constructor|done].
  - rewrite !place_unfold_list. split.
    + apply valid_list; [done..|]. rewrite Forall_forall in IH, H1 |- *.
      intros x Hx. by apply (IH x Hx (d + 1) 0), H1.
    + do 2 f_equal. generalize (p + 1). clear -IH H1. revert H1.
      induction IH as [|x l Hx _ IHl]; intros [Hv Hvl]%Forall_cons_1 || intros _; [done|]; intros q.
      cbn [place_list]. f_equal; [by apply (Hx (d + 1))|by apply IHl].
  - rewrite !place_unfold_dict. cbn [keys_ok sort_entries] in *. split.
    + apply valid_dict; [done..|by apply sorted_nodup|done|]. rewrite Forall_forall in IH, H3 |- *.
      intros x Hx. by apply (IH x Hx (d + 1) 0), H3.
    + do 2 f_equal.
      assert (He : place_entries true (p + 1) l = place_entries false (p + 1) l).
      { generalize (p + 1). clear -IH H3. revert H3.
        induction IH as [|[k x] l Hx _ IHl]; intros [Hv Hvl]%Forall_cons_1 || intros _; [done|]; intros q.
        cbn [place_entries]. f_equal; [f_equal; by apply (Hx (d + 1))|by apply IHl]. }
      rewrite He. apply merge_sort_sorted. by rewrite place_entries_keys.
Qed.

(** Permissive parsing sorts every dictionary. *)
Lemma place_sorted lim v d p : valid true lim d v -> sorted_dictionaries (place true p v).
Proof.
  revert d p. induction v as [i|b|l IH|l IH] using bvalue_ind'; intros d p Hv; inversion_clear Hv.
  - by constructor.
  - by constructor.
  - rewrite place_unfold_list. constructor; [done|]. cbn [children].
    generalize (p + 1). clear -IH H1. revert H1.
    induction IH as [|x l Hx _ IHl]; intros [Hv Hvl]%Forall_cons_1 || intros _; intros q; [constructor|].
    cbn [place_list]. constructor; [by apply (Hx (d + 1))|by apply IHl].
  - rewrite place_unfold_dict. cbn [keys_ok sort_entries] in *. constructor.
    + apply merge_sort_strict. by rewrite place_entries_keys.
    + cbn [children]. rewrite (merge_sort_Permutation entry_le (place_entries true (p + 1) l)).
      generalize (p + 1). clear -IH H3. revert H3.
      induction IH as [|[k x] l Hx _ IHl]; intros [Hv Hvl]%Forall_cons_1 || intros _; intros q; [constructor|].
      cbn [place_entries map entry_value]. constructor; [by apply (Hx (d + 1))|by apply IHl].
Qed.

(** ** The entry points *)
Lemma parse_mode_eq al inp lim : parse_mode al inp lim =
  ('(node, consumed) ← parse_prefix_with_dictionary_order inp lim al;
   if negb (consumed =? len inp) then Err (TrailingData consumed) else Ok node).
Proof. by destruct al. Qed.

Lemma parse_prefix_cases inp lim al : wf_limits lim ->
  match parse_prefix_with_dictionary_order inp lim al with
  | Ok (node, c) => exists v, node = place al 0 v /\ valid al lim 0 v /\ c = len (bencode v) /\
      c <= len inp /\ item_count v <= max_decoded_items lim /\ sub_list inp 0 c = bencode v /\
      len inp <= max_input_length lim
  | Err _ => True
  | Panic | NoFuel => False
  end.
Proof.
  intros Hwf. pose proof Hwf as ([Hin0 Hin]&_&[Hi _]&_). unfold parse_prefix_with_dictionary_order.
  destruct (Z.ltb_spec (max_input_length lim) (len inp)); [done|].
  pose proof (len_nonneg inp).
  pose proof (parse_value_spec inp lim al Hwf (S (length inp)) 0 0 0) as Hspec.
  unfold fuel_for. cbn [input]. unfold wp in Hspec.
  specialize (Hspec ltac:(lia) ltac:(lia) ltac:(lia) ltac:(unfold len; lia)).
  destruct (parse_value _ _ _) as [s [node|e| |]]; [|done..].
  destruct Hspec as (v&->&Hv&->&Hle&Hit&Hs). cbn. exists v.
  rewrite Z.add_0_l in *. done.
Qed.

Lemma parse_prefix_complete inp lim al v : wf_limits lim -> valid al lim 0 v ->
  reads inp 0 (bencode v) -> item_count v <= max_decoded_items lim ->
  len inp <= max_input_length lim ->
  parse_prefix_with_dictionary_order inp lim al = Ok (place al 0 v, len (bencode v)).
Proof.
  intros Hwf Hv Hr Hn Hl. pose proof Hwf as ([Hin0 Hin]&_). unfold parse_prefix_with_dictionary_order.
  destruct (Z.ltb_spec (max_input_length lim) (len inp)); [lia|].
  rewrite (parse_value_ok inp lim al _ _ v) by (done || (unfold fuel_for, len in *; cbn; lia)).
  done.
Qed.

Lemma reads_prefix a b : reads (a ++ b) 0 a.
Proof.
  unfold reads. pose proof (len_nonneg a). pose proof (len_nonneg b). rewrite len_app.
  split_and!; [lia..|]. apply (sub_list_middle [] a b); done.
Qed.

(** * Properties *)

(** on every input and in both modes the parser returns: a node or a
    parse error, never a panic (no slice, index or overflow fails), and no
    loop outlives its input. *)
Theorem parse_never_stuck al inp lim : wf_limits lim -> returns (parse_mode al inp lim).
Proof.
  intros Hwf. rewrite parse_mode_eq. pose proof (parse_prefix_cases inp lim al Hwf) as H.
  destruct (parse_prefix_with_dictionary_order inp lim al) as [[node c]|e| |]; [|done..].
  cbn. by destruct (negb _).
Qed.

(** the accepted language.  A prefix parse succeeds exactly when the
    input starts with the canonical encoding of a value within the limits,
    reports the length of that encoding, and returns the value's node tree
    with its byte spans; the strict mode wants sorted keys, the permissive
    mode distinct ones. *)
Theorem parse_prefix_exact al inp lim node c : wf_limits lim ->
  parse_prefix_with_dictionary_order inp lim al = Ok (node, c) <->
  exists v rest, inp = bencode v ++ rest /\ c = len (bencode v) /\ node = place al 0 v /\
    valid al lim 0 v /\ item_count v <= max_decoded_items lim /\ len inp <= max_input_length lim.
Proof.
  intros Hwf. split.
  - intros H. pose proof (parse_prefix_cases inp lim al Hwf) as Hc. rewrite H in Hc.
    destruct Hc as (v&->&Hv&->&Hle&Hn&Hs&Hl). exists v, (skip inp (len (bencode v))).
    split_and!; try done. rewrite <- Hs at 1. apply sub_list_skip.
    pose proof (len_nonneg (bencode v)). lia.
  - intros (v&rest&->&->&->&Hv&Hn&Hl). apply parse_prefix_complete; auto using reads_prefix.
Qed.

(** C37: the strict parser accepts an input exactly when it is the whole
    canonical encoding of a value within the limits.  In particular every
    accepted value has one accepted encoding. *)
Theorem parse_accepts_exactly inp lim node : wf_limits lim ->
  parse_with_limits inp lim = Ok node <->
  exists v, inp = bencode v /\ node = place false 0 v /\ valid false lim 0 v /\
    item_count v <= max_decoded_items lim /\ len inp <= max_input_length lim.
Proof.
  intros Hwf. change (parse_with_limits inp lim) with (parse_mode false inp lim).
  rewrite parse_mode_eq. split.
  - intros H. pose proof (parse_prefix_cases inp lim false Hwf) as Hc.
    destruct (parse_prefix_with_dictionary_order inp lim false) as [[n c]|e| |]; [|done..].
    cbn in H. destruct (Z.eqb_spec c (len inp)); [|done]. simplify_eq/=.
    destruct Hc as (v&->&Hv&Hlen&Hle&Hn&Hs&Hl). exists v. split_and!; try done.
    by rewrite sub_list_all in Hs.
  - intros (v&->&->&Hv&Hn&Hl).
    assert (reads (bencode v) 0 (bencode v)).
    { rewrite <- (app_nil_r (bencode v)) at 1. apply reads_prefix. }
    rewrite (parse_prefix_complete _ _ _ v) by done. cbn. by rewrite Z.eqb_refl.
Qed.

(** every node of a strictly parsed tree spans exactly the encoding of
    the value it holds; hashing the span of the [info] dictionary hashes
    that dictionary's own bytes. *)
Theorem parse_spans inp lim node : wf_limits lim ->
  parse_with_limits inp lim = Ok node -> spanned inp node.
Proof.
  intros Hwf H. change (parse_with_limits inp lim) with (parse_mode false inp lim) in H.
  rewrite parse_mode_eq in H. pose proof (parse_prefix_cases inp lim false Hwf) as Hc.
  destruct (parse_prefix_with_dictionary_order inp lim false) as [[n c]|e| |]; [|done..].
  cbn in H. destruct (negb _); simplify_eq/=.
  destruct Hc as (v&->&_&->&Hle&_&Hs&_). apply (place_span inp v 0).
  split_and!; [lia|lia|]. by rewrite Z.add_0_l.
Qed.

(** whatever the strict parser accepts, the permissive one accepts with
    the same tree. *)
Theorem strict_implies_permissive inp lim node : wf_limits lim ->
  parse_with_limits inp lim = Ok node ->
  parse_with_limits_permissive_dictionaries inp lim = Ok node.
Proof.
  intros Hwf H. change (parse_with_limits inp lim) with (parse_mode false inp lim) in H.
  change (parse_with_limits_permissive_dictionaries inp lim) with (parse_mode true inp lim).
  rewrite parse_mode_eq in *. pose proof (parse_prefix_cases inp lim false Hwf) as Hc.
  destruct (parse_prefix_with_dictionary_order inp lim false) as [[n c]|e| |]; [|done..].
  cbn in H. destruct (negb (c =? len inp)) eqn:Ec; simplify_eq/=.
  destruct Hc as (v&->&Hv&->&Hle&Hn&Hs&Hl).
  destruct (place_modes lim v 0 0 Hv) as [Hv' Hp].
  assert (reads inp 0 (bencode v)) by (split_and!; [lia|lia|]; by rewrite Z.add_0_l).
  rewrite (parse_prefix_complete inp lim true v) by done. cbn. by rewrite Ec, Hp.
Qed.

(** the permissive parser returns every dictionary with strictly
    increasing keys, so a field lookup has one answer. *)
Theorem permissive_sorts inp lim node : wf_limits lim ->
  parse_with_limits_permissive_dictionaries inp lim = Ok node -> sorted_dictionaries node.
Proof.
  intros Hwf H. change (parse_with_limits_permissive_dictionaries inp lim) with (parse_mode true inp lim) in H.
  rewrite parse_mode_eq in H. pose proof (parse_prefix_cases inp lim true Hwf) as Hc.
  destruct (parse_prefix_with_dictionary_order inp lim true) as [[n c]|e| |]; [|done..].
  cbn in H. destruct (negb _); simplify_eq/=.
  destruct Hc as (v&->&Hv&_). by apply (place_sorted lim v 0).
Qed.

(** ** Witnesses *)

(** [d1:ali1e3:twoe1:bi-2ee] *)
Definition sample : list Z :=
  [100; 49; 58; 97; 108; 105; 49; 101; 51; 58; 116; 119; 111; 101; 49; 58; 98; 105; 45; 50; 101; 101].
Definition sample_value : bvalue :=
  BDict [([97], BList [BInt 1; BBytes [116; 119; 111]]); ([98], BInt (-2))].
(** [d1:bi1e1:ai2ee] *)
Definition unsorted_sample : list Z :=
  [100; 49; 58; 98; 105; 49; 101; 49; 58; 97; 105; 50; 101; 101].

Lemma wf_limits_default : wf_limits Limits_default.
Proof. unfold wf_limits, is_u. vm_compute. intuition congruence. Qed.

Lemma parse_never_stuck_witness : returns (parse_mode true unsorted_sample Limits_default).
Proof. apply parse_never_stuck, wf_limits_default. Defined.

Lemma parse_prefix_exact_witness : exists v rest,
  sample ++ [68; 65] = bencode v ++ rest /\ 22 = len (bencode v).
Proof.
  destruct (proj1 (parse_prefix_exact false (sample ++ [68; 65]) Limits_default
    (place false 0 sample_value) 22 wf_limits_default)) as (v&rest&H1&H2&_).
  - vm_compute. reflexivity.
  - exists v, rest. split; assumption.
Defined.

Lemma parse_accepts_exactly_witness : exists v, sample = bencode v /\ item_count v <= 1000000.
Proof.
  destruct (proj1 (parse_accepts_exactly sample Limits_default (place false 0 sample_value)
    wf_limits_default)) as (v&H1&_&_&H2&_).
  - vm_compute. reflexivity.
  - exists v. split; assumption.
Defined.

Lemma parse_spans_witness : spanned sample (place false 0 sample_value).
Proof. apply (parse_spans sample Limits_default _ wf_limits_default). vm_compute. reflexivity. Defined.

Lemma strict_implies_permissive_witness :
  parse_with_limits_permissive_dictionaries sample Limits_default = Ok (place false 0 sample_value).
Proof.
  apply (strict_implies_permissive sample Limits_default _ wf_limits_default). vm_compute. reflexivity.
Defined.

Lemma permissive_sorts_witness : exists node,
  parse_with_limits_permissive_dictionaries unsorted_sample Limits_default = Ok node /\
  sorted_dictionaries node.
Proof.
  eexists. split; [vm_compute; reflexivity|].
  apply (permissive_sorts unsorted_sample Limits_default _ wf_limits_default). vm_compute. reflexivity.
Defined.
