(* ===== verification/Fields.v ===== *)
(** * Fields of parsed dictionaries

    What the decoders over [Bencode] share: byte strings written as text, the
    access to a dictionary's fields, and what these find in the tree of a
    known value.  A field is looked up by [binary_search_by_key]; on the
    strictly sorted entries the parser returns, that is the entry with the
    key. *)
From stdpp Require Import sorting strings.
From S2P Require Import Prelude Bytes Bencode.
#[local] Open Scope Z_scope.

(** The bytes of [b"..."]. *)
Definition bytes_of (s : string) : list Z := map (fun a => Z.of_N (Ascii.N_of_ascii a)) (String.list_ascii_of_string s).

Definition dictionary (n : Node) : option (list DictionaryEntry) :=
  match node_value n with Dictionary entries => Some entries | _ => None end.
Definition field (entries : list DictionaryEntry) (key : list Z) : option Node :=
  entry_value <$> find (fun e => bool_decide (entry_key e = key)) entries.
Definition integer {E} (n : Node) (e : E) : outcome E Z :=
  match node_value n with Integer i => Ok i | _ => Err e end.

(** * Lemmas *)

(** The value of a field, in the value that was parsed. *)
Definition lookup_key (l : list (list Z * bvalue)) (key : list Z) : option bvalue :=
  snd <$> find (fun kx => bool_decide (kx.1 = key)) l.

Lemma field_Some es key n : NoDup (map entry_key es) -> field es key = Some n <-> mkEntry key n ∈ es.
Proof.
  intros Hnd. unfold field. rewrite fmap_Some. split.
  - intros ([k n'] & [Hin Hk%bool_decide_eq_true]%find_some & ->). cbn in Hk. subst k. by apply list_elem_of_In.
  - intros Hin. induction es as [|[k n'] es IH]; [by apply elem_of_nil in Hin|]. cbn in Hnd |- *. apply NoDup_cons in Hnd as [Hk Hnd].
    case_bool_decide as E; cbn in E.
    + exists (mkEntry k n'). subst k. split; [done|]. apply elem_of_cons in Hin as [Hin|Hin]; [by injection Hin as ->|].
      exfalso. apply Hk. apply (list_elem_of_fmap_2 entry_key _ _ Hin).
    + apply elem_of_cons in Hin as [Hin|Hin]; [congruence|by apply IH].
Qed.
Lemma field_None es key : field es key = None <-> forall n, mkEntry key n ∉ es.
Proof.
  unfold field. rewrite fmap_None. split.
  - intros Hf n Hin%list_elem_of_In. pose proof (find_none _ _ Hf _ Hin) as E. cbn in E. by rewrite bool_decide_eq_true_2 in E.
  - intros Hn. destruct (find _ es) as [[k n]|] eqn:E; [|done]. apply find_some in E as [Hin%list_elem_of_In Hk%bool_decide_eq_true].
    cbn in Hk. subst k. by apply Hn in Hin.
Qed.
Lemma field_perm es es' key : NoDup (map entry_key es) -> es ≡ₚ es' -> field es key = field es' key.
Proof.
  intros Hnd Hp. assert (NoDup (map entry_key es')) as Hnd' by (by rewrite <- Hp).
  destruct (field es' key) as [n|] eqn:E.
  - apply field_Some; [done|]. rewrite Hp. by apply field_Some in E.
  - apply field_None. intros n. rewrite Hp. by apply field_None.
Qed.
(** [n] is the tree of [v], read somewhere. *)
Definition node_of (al : bool) (v : bvalue) (n : Node) : Prop := exists p, n = place al p v.
Lemma field_place_entries al p l key :
  match lookup_key l key with Some v => exists n, field (place_entries al p l) key = Some n /\ node_of al v n | None => field (place_entries al p l) key = None end.
Proof.
  unfold lookup_key, field. revert p. induction l as [|[k v] l IH]; intros p; [done|]. cbn [place_entries find entry_key fst].
  case_bool_decide; [|apply IH]. cbn. eexists. split; [done|]. by eexists.
Qed.
(** A field of a dictionary. *)
Lemma field_node al lim d l n : valid al lim d (BDict l) -> node_of al (BDict l) n ->
  exists es, dictionary n = Some es /\ forall key, match lookup_key l key with Some v => exists m, field es key = Some m /\ node_of al v m | None => field es key = None end.
Proof.
  intros Hv [p ->]. rewrite place_unfold_dict. eexists. split; [reflexivity|]. intros key. inversion_clear Hv as [| | |? ? _ _ Hk _ _].
  pose proof (field_place_entries al (p + 1) l key) as H. rewrite (field_perm (sort_entries al (place_entries al (p + 1) l)) (place_entries al (p + 1) l)).
  - exact H.
  - destruct al; cbn [sort_entries keys_ok] in *.
    + assert (NoDup (map entry_key (place_entries true (p + 1) l))) as Hnd by (by rewrite place_entries_keys).
      by rewrite (merge_sort_Permutation entry_le).
    + rewrite place_entries_keys. by apply sorted_nodup.
  - destruct al; cbn [sort_entries]; [apply merge_sort_Permutation|done].
Qed.
Lemma integer_node {E} al v n (e : E) : node_of al v n -> integer n e = match v with BInt i => Ok i | _ => Err e end.
Proof. intros [p ->]. by destruct v. Qed.
Lemma lookup_key_Some l key v : NoDup l.*1 -> lookup_key l key = Some v <-> (key, v) ∈ l.
Proof.
  intros Hnd. unfold lookup_key. rewrite fmap_Some. split.
  - intros ([k x] & [Hin Hk%bool_decide_eq_true]%find_some & ->). cbn in Hk. subst k. by apply list_elem_of_In.
  - intros Hin. induction l as [|[k x] l IH]; [by apply elem_of_nil in Hin|]. cbn in Hnd |- *. apply NoDup_cons in Hnd as [Hk Hnd].
    case_bool_decide as E; cbn in E.
    + exists (k, x). subst k. split; [done|]. apply elem_of_cons in Hin as [Hin|Hin]; [by injection Hin as ->|].
      exfalso. apply Hk, list_elem_of_fmap. by exists (key, v).
    + apply elem_of_cons in Hin as [Hin|Hin]; [congruence|by apply IH].
Qed.
Lemma valid_child al lim d l key v : valid al lim d (BDict l) -> lookup_key l key = Some v -> valid al lim (d + 1) v.
Proof.
  intros Hv Ha. inversion_clear Hv as [| | |? ? _ _ _ _ Hf]. unfold lookup_key in Ha. apply fmap_Some in Ha as ([k x] & [Hin _]%find_some & ->).
  rewrite Forall_forall in Hf. apply (Hf (k, x)). by apply list_elem_of_In.
Qed.

(** ** Whole inputs *)
Lemma parse_mode_complete al lim v : wf_limits lim -> valid al lim 0 v -> item_count v <= max_decoded_items lim -> len (bencode v) <= max_input_length lim ->
  exists n, parse_mode al (bencode v) lim = Ok n /\ node_of al v n.
Proof.
  intros Hwf Hv Hi Hl. exists (place al 0 v). split; [|by eexists]. rewrite parse_mode_eq.
  rewrite (parse_prefix_complete _ _ al v); [|done|done| |done|done].
  - obind. by rewrite Z.eqb_refl.
  - pose proof (reads_prefix (bencode v) []) as H. by rewrite app_nil_r in H.
Qed.
Lemma parse_mode_sound al inp lim n : wf_limits lim -> parse_mode al inp lim = Ok n ->
  exists v, inp = bencode v /\ node_of al v n /\ valid al lim 0 v /\ item_count v <= max_decoded_items lim /\ len inp <= max_input_length lim.
Proof.
  intros Hwf. rewrite parse_mode_eq. pose proof (parse_prefix_cases inp lim al Hwf) as Hc.
  destruct (parse_prefix_with_dictionary_order inp lim al) as [[m c]|e| |]; [|done..]. obind.
  destruct (Z.eqb_spec c (len inp)) as [->|]; [|done]. cbn [negb]. intros [= <-]. destruct Hc as (v & -> & Hv & El & _ & Hi & Es & Hl).
  exists v. rewrite sub_list_all in Es. split; [done|]. split; [by eexists|]. done.
Qed.
Lemma parse_mode_returns al inp lim : wf_limits lim -> returns (parse_mode al inp lim).
Proof.
  intros Hwf. rewrite parse_mode_eq. pose proof (parse_prefix_cases inp lim al Hwf) as Hc.
  destruct (parse_prefix_with_dictionary_order inp lim al) as [[m c]|e| |]; [|done..]. obind. by destruct (negb _).
Qed.
Lemma parse_prefix_app lim v rest : wf_limits lim -> valid false lim 0 v -> item_count v <= max_decoded_items lim -> len (bencode v ++ rest) <= max_input_length lim ->
  exists n, parse_prefix_with_limits (bencode v ++ rest) lim = Ok (n, len (bencode v)) /\ node_of false v n.
Proof.
  intros Hwf Hv Hi Hl. exists (place false 0 v). split; [|by eexists]. apply parse_prefix_complete; try done. apply reads_prefix.
Qed.
(** Numerals of bounded numbers are short. *)
Lemma decimal_small n : 0 <= n < 10 -> decimal n = [48 + n].
Proof. intros Hn. unfold decimal. cbn [dec_digits]. destruct (Z.ltb_spec n 10); [done|lia]. Qed.
Lemma len_decimal_le w n : 0 <= n < 10 ^ Z.of_nat (S w) -> 1 <= len (decimal n) <= Z.of_nat (S w).
Proof.
  revert n. induction w as [|w IH]; intros n Hn; destruct (Z.ltb_spec n 10) as [Hs|Hs].
  - rewrite decimal_small by lia. len_lia.
  - change (10 ^ Z.of_nat 1) with 10 in Hn. lia.
  - rewrite decimal_small by lia. change (len [48 + n]) with 1. lia.
  - rewrite decimal_step, len_snoc by lia. rewrite (Nat2Z.inj_succ (S w)), Z.pow_succ_r in Hn by lia.
    specialize (IH (n / 10)). assert (0 <= n / 10 < 10 ^ Z.of_nat (S w)) by (split; [apply Z.div_pos; lia|apply Z.div_lt_upper_bound; lia]). lia.
Qed.
