(* ===== verification/Merkle.v ===== *)
(** * Merkle: the BEP 52 hash trees of [merkle.rs]

    SHA-256 comes from the [sha2] crate and is the parameter [sha256] of
    the section; the code hashes two children by feeding them to one hasher,
    which digests their concatenation.  A hash is a list of 32 bytes. *)
From S2P Require Import Prelude Bytes.

Definition Sha256Hash : Type := list Z.

Definition MERKLE_BLOCK_SIZE : Z := 16 * 1024.
Definition MIN_BEP52_PIECE_LENGTH : Z := MERKLE_BLOCK_SIZE.
Definition MAX_BEP52_PIECE_LENGTH : Z := 256 * 1024 * 1024.
Definition MAX_MERKLE_LEAVES : Z := Z.shiftl 1 35.
Definition MAX_MERKLE_HEIGHT : Z := 35.
Definition MAX_MERKLE_SCRATCH_HASHES : Z := MAX_MERKLE_HEIGHT + 1.

Inductive MerkleError :=
| EmptyTree
| TooManyLeaves (actual maximum : Z)
| InvalidBlockLength (length maximum : Z)
| InvalidPieceLength (length : Z)
| PieceTooLarge (length piece_length : Z)
| LayerOutOfRange (layer maximum : Z)
| SubjectOutOfRange (index layer leaf_count : Z)
| InvalidProofLength (expected actual : Z)
| InvalidPaddingHash (layer index : Z)
| RootMismatch
| ArithmeticOverflow.

Record MerkleTreeShape := mkShape {
  leaf_count : Z;
  padded_leaf_count : Z;
  height : Z;
}.

(** [u8::try_from] *)
Definition u8_try_from (x : Z) : option Z := if x <? 256 then Some x else None.

Definition MerkleTreeShape_new (leaves : Z) : outcome MerkleError MerkleTreeShape :=
  if leaves =? 0 then Err EmptyTree
  else if MAX_MERKLE_LEAVES <? leaves then Err (TooManyLeaves leaves MAX_MERKLE_LEAVES)
  else
    padded ← ok_or (checked_next_power_of_two 64 leaves) ArithmeticOverflow;
    h ← ok_or (u8_try_from (trailing_zeros 64 padded)) ArithmeticOverflow;
    mret (mkShape leaves padded h).

Definition node_count (s : MerkleTreeShape) : outcome MerkleError Z :=
  ok_or (v ← checked_mul 64 (padded_leaf_count s) 2; checked_sub v 1) ArithmeticOverflow.

(** [data.chunks(size)] for a positive size. *)
Fixpoint chunks_fuel {A} (fuel : nat) (size : Z) (l : list A) : list (list A) :=
  match fuel, l with
  | S f, _ :: _ => take (Z.to_nat size) l :: chunks_fuel f size (drop (Z.to_nat size) l)
  | _, _ => []
  end.
Definition chunks {A} (size : Z) (l : list A) : list (list A) := chunks_fuel (length l) size l.

(** Bounded memory: one slot per tree level. *)
Record MerkleAccumulator := mkAccumulator {
  base_layer : Z;
  count : Z;
  slots : list (option Sha256Hash);
  high_water : Z;
}.

Definition MerkleAccumulator_new (base : Z) : outcome MerkleError MerkleAccumulator :=
  if MAX_MERKLE_HEIGHT <? base then Err (LayerOutOfRange base MAX_MERKLE_HEIGHT)
  else Ok (mkAccumulator base 0 (replicate (Z.to_nat MAX_MERKLE_SCRATCH_HASHES) None) 0).

Definition set_slots (l : list (option Sha256Hash)) (a : MerkleAccumulator) : MerkleAccumulator :=
  mkAccumulator (base_layer a) (count a) l (high_water a).

Definition retained (l : list (option Sha256Hash)) : Z :=
  len (filter (fun s => is_Some s) l).

Definition piece_layer (piece_length : Z) : outcome MerkleError Z :=
  if (piece_length <? MIN_BEP52_PIECE_LENGTH) || negb (is_power_of_two piece_length)
     || (MAX_BEP52_PIECE_LENGTH <? piece_length)
  then Err (InvalidPieceLength piece_length)
  else ok_or (u8_try_from (trailing_zeros 32 (piece_length / MERKLE_BLOCK_SIZE))) ArithmeticOverflow.

Section sha256.
Variable sha256 : list Z -> Sha256Hash.

Definition hash_block (block : list Z) : outcome MerkleError Sha256Hash :=
  if bool_decide (block = []) || (MERKLE_BLOCK_SIZE <? len block)
  then Err (InvalidBlockLength (len block) MERKLE_BLOCK_SIZE)
  else Ok (sha256 block).

Definition hash_pair (left right : Sha256Hash) : Sha256Hash := sha256 (left ++ right).

(** [for _ in 0..layer { hash = hash_pair(&hash, &hash) }] *)
Definition zero_hash (layer : Z) : outcome MerkleError Sha256Hash :=
  if MAX_MERKLE_HEIGHT <? layer then Err (LayerOutOfRange layer MAX_MERKLE_HEIGHT)
  else Ok (Nat.iter (Z.to_nat layer) (fun h => hash_pair h h) (replicate 32 0)).

(** The carry loop of [push]: the slots as changed so far, and whether the
    loop stored the hash or ran off the array. *)
Fixpoint push_loop (fuel : nat) (l : list (option Sha256Hash)) (slot : nat) (hash : Sha256Hash)
    : list (option Sha256Hash) * outcome MerkleError unit :=
  match fuel with
  | O => (l, NoFuel)
  | S f =>
    match l !! slot with
    | None => (l, Err ArithmeticOverflow)
    | Some (Some left_hash) => push_loop f (<[slot:=None]> l) (S slot) (hash_pair left_hash hash)
    | Some None => (<[slot:=Some hash]> l, Ok tt)
    end
  end.

Definition push (hash : Sha256Hash) : M MerkleAccumulator MerkleError unit :=
  a ← get;
  maximum ← lift (ok_or (checked_shr 64 MAX_MERKLE_LEAVES (base_layer a)) ArithmeticOverflow);
  if count a =? maximum
  then fail (TooManyLeaves (saturating_add 64 (count a) 1) maximum)
  else
    let '(l, r) := push_loop (S (length (slots a))) (slots a) 0 hash in
    put (set_slots l a);;
    lift r;;
    c ← lift (ok_or (checked_add 64 (count a) 1) ArithmeticOverflow);
    put (mkAccumulator (base_layer a) c l (Z.max (high_water a) (retained l))).

(** [while root_height < target { right = hash_pair(&right, &zero_hash(..)?) }] *)
Fixpoint pad_loop (fuel : nat) (base root_height target : Z) (right : Sha256Hash)
    : outcome MerkleError Sha256Hash :=
  if root_height <? target then
    match fuel with
    | O => NoFuel
    | S f =>
      padding_layer ← ok_or (checked_add 8 base root_height) ArithmeticOverflow;
      z ← zero_hash padding_layer;
      pad_loop f base (root_height + 1) target (hash_pair right z)
    end
  else Ok right.
Definition pad_to (base root_height target : Z) (right : Sha256Hash)
    : outcome MerkleError Sha256Hash :=
  pad_loop (Z.to_nat (target - root_height)) base root_height target right.

(** [for (slot_index, slot) in self.slots.iter().copied().enumerate()] *)
Fixpoint fold_slots (base : Z) (slot_index : Z) (l : list (option Sha256Hash))
    (root : option Sha256Hash) (root_height : Z) : outcome MerkleError (option Sha256Hash * Z) :=
  match l with
  | [] => Ok (root, root_height)
  | None :: l => fold_slots base (slot_index + 1) l root root_height
  | Some left_hash :: l =>
    slot_height ← ok_or (u8_try_from slot_index) ArithmeticOverflow;
    match root with
    | None => fold_slots base (slot_index + 1) l (Some left_hash) slot_height
    | Some right_hash =>
      right_hash ← pad_to base root_height slot_height right_hash;
      next_height ← ok_or (checked_add 8 slot_height 1) ArithmeticOverflow;
      fold_slots base (slot_index + 1) l (Some (hash_pair left_hash right_hash)) next_height
    end
  end.

Definition finish_at_height (a : MerkleAccumulator) (target : option Z)
    : outcome MerkleError Sha256Hash :=
  if count a =? 0 then Err EmptyTree
  else
    '(root, root_height) ← fold_slots (base_layer a) 0 (slots a) None 0;
    root ← expect root;
    minimum_height ← ok_or (u8_try_from (trailing_zeros 64 (next_power_of_two (count a))))
                           ArithmeticOverflow;
    (* debug_assert_eq! *)
    if negb (root_height =? minimum_height) then Panic
    else
      let target_height := default minimum_height target in
      if (target_height <? minimum_height)
         || match checked_add 8 (base_layer a) target_height with
            | Some layer => MAX_MERKLE_HEIGHT <? layer
            | None => true
            end
      then Err (LayerOutOfRange (saturating_add 8 (base_layer a) target_height) MAX_MERKLE_HEIGHT)
      else pad_to (base_layer a) root_height target_height root.

Definition finish (a : MerkleAccumulator) : outcome MerkleError Sha256Hash :=
  finish_at_height a None.
Definition finish_padded_to (a : MerkleAccumulator) (target : Z) : outcome MerkleError Sha256Hash :=
  finish_at_height a (Some target).

(** [for hash in hashes { accumulator.push(hash)?; }] *)
Fixpoint push_all (hashes : list Sha256Hash) : M MerkleAccumulator MerkleError unit :=
  match hashes with
  | [] => mret tt
  | h :: r => push h;; push_all r
  end.
(** [for block in data.chunks(..) { accumulator.push(hash_block(block)?)?; }] *)
Fixpoint push_blocks (blocks : list (list Z)) : M MerkleAccumulator MerkleError unit :=
  match blocks with
  | [] => mret tt
  | b :: r => h ← lift (hash_block b); push h;; push_blocks r
  end.
(** Run a filling loop on a new accumulator. *)
Definition accumulate (base : Z) (fill : M MerkleAccumulator MerkleError unit)
    : outcome MerkleError MerkleAccumulator :=
  a ← MerkleAccumulator_new base;
  let '(a, r) := fill a in
  r ≫= fun _ => Ok a.

Definition root_from_hashes (hashes : list Sha256Hash) (base : Z) : outcome MerkleError Sha256Hash :=
  a ← accumulate base (push_all hashes); finish a.

Definition file_root_from_data (data : list Z) : outcome MerkleError Sha256Hash :=
  if bool_decide (data = []) then Err EmptyTree
  else a ← accumulate 0 (push_blocks (chunks MERKLE_BLOCK_SIZE data)); finish a.

Definition piece_root_from_data (data : list Z) (piece_length : Z) : outcome MerkleError Sha256Hash :=
  layer ← piece_layer piece_length;
  if piece_length <? len data then Err (PieceTooLarge (len data) piece_length)
  else if bool_decide (data = []) then Err EmptyTree
  else a ← accumulate 0 (push_blocks (chunks MERKLE_BLOCK_SIZE data)); finish_padded_to a layer.

Definition file_root_from_piece_hashes (piece_hashes : list Sha256Hash) (piece_length : Z)
    : outcome MerkleError Sha256Hash :=
  layer ← piece_layer piece_length;
  root_from_hashes piece_hashes layer.

(** [for (layer, sibling) in (subject_layer..).zip(siblings)] *)
Fixpoint proof_loop (leaves layer index : Z) (hash : Sha256Hash) (siblings : list Sha256Hash)
    : outcome MerkleError Sha256Hash :=
  match siblings with
  | [] => Ok hash
  | sibling :: r =>
    let sibling_index := Z.lxor index 1 in
    sibling_start ← ok_or (checked_shl 64 sibling_index layer) ArithmeticOverflow;
    bad ← (if leaves <=? sibling_start
           then z ← zero_hash layer; mret (negb (bool_decide (sibling = z)))
           else mret false);
    if bad : bool then Err (InvalidPaddingHash layer sibling_index)
    else
      proof_loop leaves (layer + 1) (Z.shiftr index 1)
        (if Z.land index 1 =? 0 then hash_pair hash sibling else hash_pair sibling hash) r
  end.

Definition verify_proof (subject : Sha256Hash) (subject_layer subject_index leaves : Z)
    (siblings : list Sha256Hash) (expected_root : Sha256Hash) : outcome MerkleError unit :=
  shape ← MerkleTreeShape_new leaves;
  if height shape <? subject_layer then Err (LayerOutOfRange subject_layer (height shape))
  else
    subject_width ← ok_or (checked_shl 64 1 subject_layer) ArithmeticOverflow;
    subject_start ← ok_or (checked_mul 64 subject_index subject_width) ArithmeticOverflow;
    if leaves <=? subject_start
    then Err (SubjectOutOfRange subject_index subject_layer leaves)
    else
      let expected_siblings := height shape - subject_layer in
      if negb (len siblings =? expected_siblings)
      then Err (InvalidProofLength expected_siblings (len siblings))
      else
        hash ← proof_loop leaves subject_layer subject_index subject siblings;
        if negb (bool_decide (hash = expected_root)) then Err RootMismatch else Ok tt.
End sha256.

(** ** The specification: a perfect tree over the hashes, padded on the
    right with the zero hashes of each layer *)
Section tree.
Variable sha256 : list Z -> Sha256Hash.

(** The root of a padding-only subtree [n] layers above the leaves. *)
Definition zeros (n : nat) : Sha256Hash :=
  Nat.iter n (fun h => hash_pair sha256 h h) (replicate 32 0).

(** The root, [h] layers above nodes [hs] that lie at layer [b].  Only the
    first [2^h] of them matter. *)
Fixpoint tree (b h : nat) (hs : list Sha256Hash) : Sha256Hash :=
  match h with
  | O => match hs with x :: _ => x | [] => zeros b end
  | S h' => hash_pair sha256 (tree b h' hs) (tree b h' (drop (2 ^ h') hs))
  end.

(** The hashes of the blocks of the data. *)
Definition block_hashes (data : list Z) : list Sha256Hash :=
  map sha256 (chunks MERKLE_BLOCK_SIZE data).

(** The node at [layer] and [index] of the tree over the leaves [hs]. *)
Definition tree_node (layer index : Z) (hs : list Sha256Hash) : Sha256Hash :=
  tree 0 (Z.to_nat layer) (drop (Z.to_nat index * 2 ^ Z.to_nat layer) hs).

Definition tree_height (leaves : Z) : nat := Z.to_nat (Z.log2_up leaves).

(** The siblings on the way from a node to the root. *)
Fixpoint tree_proof (n : nat) (layer index : Z) (hs : list Sha256Hash) : list Sha256Hash :=
  match n with
  | O => []
  | S m => tree_node layer (Z.lxor index 1) hs :: tree_proof m (layer + 1) (Z.shiftr index 1) hs
  end.

(** The pair hashed at a step of a proof, and the pair the tree has there. *)
Definition proof_pair (index : Z) (hash sibling : Sha256Hash) : Sha256Hash * Sha256Hash :=
  if Z.land index 1 =? 0 then (hash, sibling) else (sibling, hash).

(** Follow a proof next to the tree; of the steps where the hashed pair is
    not the tree's pair of children, keep the last. *)
Fixpoint last_divergence (layer index : Z) (hash : Sha256Hash) (siblings hs : list Sha256Hash)
    : option ((Sha256Hash * Sha256Hash) * (Sha256Hash * Sha256Hash)) :=
  match siblings with
  | [] => None
  | sibling :: r =>
    let claimed := proof_pair index hash sibling in
    let actual := proof_pair index (tree_node layer index hs) (tree_node layer (Z.lxor index 1) hs) in
    match last_divergence (layer + 1) (Z.shiftr index 1)
            (hash_pair sha256 claimed.1 claimed.2) r hs with
    | Some d => Some d
    | None => if bool_decide (claimed = actual) then None else Some (claimed, actual)
    end
  end.

(** Two different inputs of [hash_pair] with one digest. *)
Definition is_collision (d : (Sha256Hash * Sha256Hash) * (Sha256Hash * Sha256Hash)) : Prop :=
  d.1 <> d.2 /\ hash_pair sha256 d.1.1 d.1.2 = hash_pair sha256 d.2.1 d.2.2.

(** What the slots from level [k] up hold: the hashes pushed so far cut
    into full subtrees, the low levels last. *)
Fixpoint repr (b k : nat) (l : list (option Sha256Hash)) (hs : list Sha256Hash) : Prop :=
  match l with
  | [] => hs = []
  | None :: r => repr b (S k) r hs
  | Some x :: r =>
    exists hi lo, hs = hi ++ lo /\ length lo = (2 ^ k)%nat /\ x = tree b k lo /\ repr b (S k) r hi
  end.

(** The carry loop on the slots from the current level up. *)
Fixpoint push_tail (l : list (option Sha256Hash)) (hash : Sha256Hash) : option (list (option Sha256Hash)) :=
  match l with
  | [] => None
  | None :: r => Some (Some hash :: r)
  | Some x :: r => r' ← push_tail r (hash_pair sha256 x hash); Some (None :: r')
  end.

(** The accumulator's invariant: [hs] are the hashes pushed so far. *)
Record acc_ok (a : MerkleAccumulator) (hs : list Sha256Hash) : Prop := {
  ok_base : 0 <= base_layer a <= 35;
  ok_count : count a = len hs;
  ok_slots : length (slots a) = 36%nat;
  ok_repr : repr (Z.to_nat (base_layer a)) 0 (slots a) hs;
  ok_bound : len hs <= 2 ^ (35 - base_layer a);
}.

(** The root so far covers the hashes of the slots already folded. *)
Definition fold_inv (base slot : Z) (root : option Sha256Hash) (rh : Z) (lo : list Sha256Hash) : Prop :=
  (root = None /\ rh = 0 /\ lo = [])
  \/ (root = Some (tree (Z.to_nat base) (Z.to_nat rh) lo) /\ 0 <= rh <= slot
      /\ len lo <= 2 ^ rh /\ 2 ^ rh < 2 * len lo).

(** What the proof loop relies on: the nodes of the path are inside the tree. *)
Definition path_ok (hs : list Sha256Hash) (layer index n : Z) : Prop :=
  0 <= layer /\ 0 <= n /\ layer + n <= 35 /\ 0 <= index < 2 ^ n /\ len hs <= 2 ^ 35.
End tree.

(** A readable stand-in for SHA-256 in the witnesses: a checksum. *)
Definition toy_sha256 (data : list Z) : Sha256Hash :=
  [fold_left (fun h b => (h * 31 + b + 7) mod 65521) data 1].

(** * Lemmas *)

(** ** Powers of two *)
Lemma pos_trailing_zeros_pow2 k : pos_trailing_zeros (Pos.iter xO 1%positive k) = Z.pos k.
Proof.
  induction k as [|k IH] using Pos.peano_ind; [done|].
  rewrite Pos.iter_succ. cbn [pos_trailing_zeros]. rewrite IH. lia.
Qed.
Lemma trailing_zeros_pow2 w k : 0 <= k -> trailing_zeros w (2 ^ k) = k.
Proof.
  intros Hk. destruct k as [|k|k]; [done| |lia].
  assert (2 ^ Z.pos k = Z.pos (Pos.iter xO 1%positive k)) as ->.
  { clear. induction k as [|k IH] using Pos.peano_ind; [done|].
    rewrite Pos2Z.inj_succ, Z.pow_succ_r, IH, Pos.iter_succ by lia. done. }
  apply pos_trailing_zeros_pow2.
Qed.
Lemma pow2_nat_Z (k : nat) : Z.of_nat (2 ^ k) = 2 ^ Z.of_nat k.
Proof. by rewrite Nat2Z.inj_pow. Qed.
Lemma pow2_to_nat k : 0 <= k -> Z.of_nat (2 ^ Z.to_nat k) = 2 ^ k.
Proof. intros. rewrite pow2_nat_Z. f_equal. lia. Qed.

(** The height of the smallest tree over [n] leaves. *)
Lemma log2_up_unique n k : 0 <= k -> n <= 2 ^ k -> 2 ^ k < 2 * n -> Z.log2_up n = k.
Proof.
  intros Hk H1 H2. destruct (decide (k = 0)) as [->|].
  - apply Z.log2_up_eqn0. lia.
  - apply Z.log2_up_unique; [lia|]. split; [|done].
    replace k with (Z.succ (Z.pred k)) in H2 by lia. rewrite Z.pow_succ_r in H2 by lia. lia.
Qed.
Lemma log2_up_bound n k : 0 < n -> 0 <= k -> n <= 2 ^ k -> 0 <= Z.log2_up n <= k.
Proof.
  intros Hn Hk H. split; [apply Z.log2_up_nonneg|].
  rewrite <- (Z.log2_up_pow2 k) by done. by apply Z.log2_up_le_mono.
Qed.
Lemma log2_up_spec' n : 0 < n -> n <= 2 ^ Z.log2_up n /\ 2 ^ Z.log2_up n < 2 * n.
Proof.
  intros Hn. destruct (decide (n = 1)) as [->|]; [cbn; lia|].
  destruct (Z.log2_up_spec n ltac:(lia)) as [H1 H2]. split; [done|].
  pose proof (Z.log2_up_pos n ltac:(lia)).
  replace (Z.log2_up n) with (Z.succ (Z.pred (Z.log2_up n))) at 1 by lia.
  rewrite Z.pow_succ_r by lia. lia.
Qed.

(** ** The tree *)
Section tree_lemmas.
Variable sha256 : list Z -> Sha256Hash.
Abbreviation tree := (tree sha256).
Abbreviation zeros := (zeros sha256).
Abbreviation hash_pair := (hash_pair sha256).
Abbreviation repr := (repr sha256).
Abbreviation push_tail := (push_tail sha256).
Abbreviation acc_ok := (acc_ok sha256).
Abbreviation fold_inv := (fold_inv sha256).

Lemma zeros_S n : zeros (S n) = hash_pair (zeros n) (zeros n).
Proof. done. Qed.
Lemma zero_hash_ok k : k <= 35 -> zero_hash sha256 k = Ok (zeros (Z.to_nat k)).
Proof. intros. unfold zero_hash, MAX_MERKLE_HEIGHT. by rewrite (proj2 (Z.ltb_ge 35 k)). Qed.

Lemma tree_nil b h : tree b h [] = zeros (b + h).
Proof.
  induction h as [|h IH]; cbn [Merkle.tree]; [by rewrite Nat.add_0_r|].
  by rewrite drop_nil, IH, Nat.add_succ_r.
Qed.
(** Nodes beyond the width of the tree do not matter. *)
Lemma tree_app b h x y : (2 ^ h <= length x)%nat -> tree b h (x ++ y) = tree b h x.
Proof.
  revert x. induction h as [|h IH]; intros x Hx.
  - destruct x; simpl in *; [lia|done].
  - assert (2 ^ S h = 2 ^ h + 2 ^ h)%nat as Hp by (simpl; lia).
    cbn [Merkle.tree]. rewrite IH by lia. f_equal.
    rewrite drop_app_le by lia. apply IH. rewrite length_drop. lia.
Qed.
Lemma tree_S_app b h x y : length x = (2 ^ h)%nat ->
  tree b (S h) (x ++ y) = hash_pair (tree b h x) (tree b h y).
Proof. intros Hx. cbn [Merkle.tree]. rewrite tree_app by lia. by rewrite <- Hx, drop_app_length. Qed.
Lemma tree_pad b h x : (length x <= 2 ^ h)%nat ->
  tree b (S h) x = hash_pair (tree b h x) (zeros (b + h)).
Proof. intros Hx. cbn [Merkle.tree]. by rewrite drop_ge, tree_nil. Qed.

(** ** Pushing: binary addition over the slots *)

Lemma push_loop_tail fuel front l hash :
  (length l < fuel)%nat ->
  match push_tail l hash with
  | Some l' => push_loop sha256 fuel (front ++ l) (length front) hash = (front ++ l', Ok tt)
  | None => exists l', push_loop sha256 fuel (front ++ l) (length front) hash
                       = (l', Err ArithmeticOverflow)
  end.
Proof.
  revert front l hash. induction fuel as [|f IH]; intros front l hash Hf; [lia|].
  cbn [push_loop]. destruct l as [|[x|] r].
  - rewrite app_nil_r, lookup_ge_None_2 by lia. cbn. eauto.
  - rewrite list_lookup_middle by done. cbn [Merkle.push_tail].
    rewrite insert_app_r_alt, Nat.sub_diag by lia. cbn [insert list_insert].
    specialize (IH (front ++ [None]) r (hash_pair x hash) ltac:(simpl in Hf; lia)).
    rewrite length_app, <- app_assoc in IH. cbn in IH. rewrite Nat.add_1_r in IH.
    unfold mbind, option_bind. destruct (push_tail r (hash_pair x hash)) as [r'|]; [|done].
    rewrite IH, <- app_assoc. done.
  - rewrite list_lookup_middle by done. cbn [Merkle.push_tail].
    rewrite insert_app_r_alt, Nat.sub_diag by lia. done.
Qed.

Lemma push_tail_ok b k l hi seg :
  repr b k l hi -> length seg = (2 ^ k)%nat ->
  (length hi + 2 ^ k < 2 ^ (k + length l))%nat ->
  exists l', push_tail l (tree b k seg) = Some l' /\ length l' = length l /\ repr b k l' (hi ++ seg).
Proof.
  revert k hi seg. induction l as [|[x|] r IH]; intros k hi seg Hr Hs Hb; cbn [Merkle.push_tail].
  - simpl in Hb. rewrite Nat.add_0_r in Hb. lia.
  - destruct Hr as (hi' & lo & -> & Hlo & -> & Hr).
    assert (2 ^ S k = 2 ^ k + 2 ^ k)%nat as Hp by (simpl; lia).
    rewrite <- tree_S_app by done.
    destruct (IH (S k) hi' (lo ++ seg) Hr) as (l' & -> & Hl & Hr').
    + rewrite length_app. lia.
    + rewrite length_app in Hb. simpl length in Hb.
      rewrite Nat.add_succ_r in Hb. rewrite Nat.add_succ_l. lia.
    + exists (None :: l'). split_and!; [done|simpl; lia|].
      cbn [Merkle.repr]. by rewrite <- app_assoc.
  - exists (Some (tree b k seg) :: r). split_and!; [done|done|].
    cbn [Merkle.repr]. exists hi, seg. done.
Qed.

(** ** The accumulator *)
Lemma new_acc base : 0 <= base <= 35 ->
  exists a, MerkleAccumulator_new base = Ok a /\ acc_ok a [] /\ base_layer a = base.
Proof.
  intros Hb. unfold MerkleAccumulator_new, MAX_MERKLE_HEIGHT.
  rewrite (proj2 (Z.ltb_ge 35 base)) by lia. eexists. split_and!; [done| |done].
  assert (forall n k, repr (Z.to_nat base) k (replicate n None) []) as Hrep.
  { induction n; intros k; simpl; auto. }
  split; cbn [base_layer count slots]; [lia|done|done|apply Hrep|].
  change (len []) with 0. pose proof (pow2_pos (35 - base)). lia.
Qed.

Lemma leaf_limit base : 0 <= base <= 35 -> Z.shiftr MAX_MERKLE_LEAVES base = 2 ^ (35 - base).
Proof.
  intros. unfold MAX_MERKLE_LEAVES.
  rewrite Z.shiftr_div_pow2, Z.shiftl_1_l by lia.
  rewrite Z.pow_sub_r by lia. done.
Qed.
Lemma pow35 base : 0 <= base -> 2 ^ (35 - base) <= 2 ^ 35.
Proof. intros. destruct (decide (base <= 35)); [apply Z.pow_le_mono_r; lia|]. rewrite Z.pow_neg_r by lia. done. Qed.

Lemma push_ok a hs hash :
  acc_ok a hs -> len hs < 2 ^ (35 - base_layer a) ->
  exists a', push sha256 hash a = (a', Ok tt) /\ acc_ok a' (hs ++ [hash])
             /\ base_layer a' = base_layer a.
Proof.
  intros Ha Hlt. destruct Ha as [Hb Hc Hs Hr Hbd]. unfold push.
  unfold mbind, M_bind, get, lift at 1, checked_shr.
  rewrite (proj2 (Z.ltb_lt (base_layer a) 64)), leaf_limit by lia. cbn [ok_or].
  rewrite (proj2 (Z.eqb_neq (count a) _)) by lia.
  pose proof (pow35 (base_layer a) ltac:(lia)) as H35.
  destruct (push_tail_ok _ 0 (slots a) hs [hash] Hr) as (l' & Hp & Hl & Hr'); [done| |].
  { apply Nat2Z.inj_lt. rewrite Nat2Z.inj_add, !pow2_nat_Z, Hs.
    change (2 ^ Z.of_nat 0) with 1. change (2 ^ Z.of_nat (0 + 36)) with (2 * 2 ^ 35).
    unfold len in Hlt. lia. }
  change (Merkle.tree sha256 (Z.to_nat (base_layer a)) 0 [hash]) with hash in Hp.
  pose proof (push_loop_tail (S (length (slots a))) [] (slots a) hash ltac:(lia)) as Hpl.
  rewrite Hp in Hpl. cbn [app length] in Hpl. rewrite Hpl.
  unfold lift, put, set_slots, checked_add. cbn [ok_or].
  rewrite (proj2 (Z.ltb_lt (count a + 1) (2 ^ 64))) by (assert (2 ^ 35 < 2 ^ 64 - 1) by done; lia).
  cbn [ok_or]. eexists. split_and!; [done| |done].
  split; cbn [base_layer count slots]; [done|rewrite len_snoc; lia|lia|done|].
  rewrite len_snoc. lia.
Qed.

Lemma push_full a hs hash :
  acc_ok a hs -> len hs = 2 ^ (35 - base_layer a) ->
  push sha256 hash a = (a, Err (TooManyLeaves (2 ^ (35 - base_layer a) + 1) (2 ^ (35 - base_layer a)))).
Proof.
  intros [Hb Hc Hs Hr Hbd] He. unfold push.
  unfold mbind, M_bind, get, lift at 1, checked_shr.
  rewrite (proj2 (Z.ltb_lt (base_layer a) 64)), leaf_limit by lia. cbn [ok_or].
  rewrite (proj2 (Z.eqb_eq (count a) _)) by lia. unfold fail.
  pose proof (pow35 (base_layer a) ltac:(lia)). assert (2 ^ 35 < 2 ^ 64 - 1) by done.
  unfold saturating_add, umax. rewrite Z.min_l by lia. by rewrite Hc, He.
Qed.

Lemma bind_ok' {S E A B} (m : M S E A) (f : A -> M S E B) s s' a :
  m s = (s', Ok a) -> (m ≫= f) s = f a s'.
Proof. unfold mbind, M_bind. by intros ->. Qed.

Lemma push_all_ok hashes a hs :
  acc_ok a hs -> len hs + len hashes <= 2 ^ (35 - base_layer a) ->
  exists a', push_all sha256 hashes a = (a', Ok tt) /\ acc_ok a' (hs ++ hashes)
             /\ base_layer a' = base_layer a.
Proof.
  revert a hs. induction hashes as [|h r IH]; intros a hs Ha Hb; cbn [push_all].
  - exists a. rewrite app_nil_r. done.
  - rewrite len_cons in Hb. pose proof (len_nonneg r).
    destruct (push_ok a hs h Ha ltac:(lia)) as (a1 & Hp & Ha1 & Hb1).
    rewrite (bind_ok' _ _ _ _ _ Hp).
    destruct (IH a1 (hs ++ [h]) Ha1) as (a2 & -> & Ha2 & Hb2).
    { rewrite len_snoc, Hb1. lia. }
    exists a2. rewrite <- app_assoc in Ha2. split_and!; [done|done|congruence].
Qed.

Lemma push_all_full hashes a hs :
  acc_ok a hs -> 2 ^ (35 - base_layer a) < len hs + len hashes ->
  exists a', push_all sha256 hashes a
    = (a', Err (TooManyLeaves (2 ^ (35 - base_layer a) + 1) (2 ^ (35 - base_layer a)))).
Proof.
  revert a hs. induction hashes as [|h r IH]; intros a hs Ha Hb; cbn [push_all].
  - change (len []) with 0 in Hb. pose proof (ok_bound _ _ _ Ha). lia.
  - rewrite len_cons in Hb.
    destruct (decide (len hs = 2 ^ (35 - base_layer a))) as [He|Hne].
    + unfold mbind, M_bind. rewrite (push_full a hs h Ha He). eauto.
    + pose proof (ok_bound _ _ _ Ha).
      destruct (push_ok a hs h Ha ltac:(lia)) as (a1 & Hp & Ha1 & Hb1).
      rewrite (bind_ok' _ _ _ _ _ Hp). rewrite <- Hb1.
      apply (IH a1 (hs ++ [h]) Ha1). rewrite len_snoc, Hb1. lia.
Qed.

(** ** Finishing: folding the slots and padding on the right *)
Lemma pad_to_ok base rh t lo :
  0 <= base -> 0 <= rh <= t -> base + t <= 36 -> len lo <= 2 ^ rh ->
  pad_to sha256 base rh t (tree (Z.to_nat base) (Z.to_nat rh) lo)
  = Ok (tree (Z.to_nat base) (Z.to_nat t) lo).
Proof.
  intros Hb. unfold pad_to. remember (Z.to_nat (t - rh)) as n eqn:Hn.
  revert rh Hn. induction n as [|n IH]; intros rh Hn Hrt Hbt Hl; cbn [pad_loop].
  - assert (rh = t) as -> by lia. by rewrite Z.ltb_irrefl.
  - rewrite (proj2 (Z.ltb_lt rh t)) by lia. unfold checked_add.
    rewrite (proj2 (Z.ltb_lt (base + rh) (2 ^ 8))) by lia. cbn [ok_or].
    unfold mbind, outcome_bind. rewrite zero_hash_ok by lia.
    rewrite Z2Nat.inj_add, <- tree_pad by first [lia | unfold len in Hl;
      apply Nat2Z.inj_le; rewrite pow2_to_nat by lia; lia].
    rewrite <- (IH (rh + 1)); [|lia|lia|done|].
    + f_equal. rewrite Z2Nat.inj_add by lia. f_equal. lia.
    + assert (2 ^ rh <= 2 ^ (rh + 1)) by (apply Z.pow_le_mono_r; lia). lia.
Qed.

Lemma fold_slots_ok base l : forall k hi lo root rh,
  0 <= base -> 0 <= k -> k + len l <= 36 ->
  repr (Z.to_nat base) (Z.to_nat k) l hi -> len (hi ++ lo) <= 2 ^ (35 - base) ->
  fold_inv base k root rh lo ->
  exists root' rh', fold_slots sha256 base k l root rh = Ok (root', rh')
    /\ fold_inv base (k + len l) root' rh' (hi ++ lo).
Proof.
  induction l as [|[x|] r IH]; intros k hi lo root rh Hb Hk Hkl Hr Hbd Hinv; cbn [fold_slots].
  - cbn [Merkle.repr] in Hr. subst hi. change (len (@nil (option Sha256Hash))) with 0. rewrite Z.add_0_r. eauto.
  - destruct Hr as (hi' & seg & -> & Hseg & -> & Hr).
    rewrite len_cons in *. pose proof (len_nonneg r).
    rewrite <- app_assoc in *.
    assert (len seg = 2 ^ k) as Hls by (unfold len; rewrite Hseg, pow2_to_nat; lia).
    assert (2 ^ (k + 1) = 2 * 2 ^ k) as Hp2 by (rewrite Z.pow_add_r by lia; lia).
    assert (k <= 35 - base) as Hkb.
    { apply (Z.pow_le_mono_r_iff 2); [lia|..].
      - destruct (decide (0 <= 35 - base)); [done|]. rewrite (Z.pow_neg_r 2 (35 - base)) in Hbd by lia.
        pose proof (pow2_pos k Hk). len_lia.
      - len_lia. }
    replace (Z.to_nat k + 1)%nat with (Z.to_nat (k + 1)) in * by lia.
    replace (S (Z.to_nat k)) with (Z.to_nat (k + 1)) in Hr by lia.
    unfold u8_try_from. rewrite (proj2 (Z.ltb_lt k 256)) by lia. cbn [ok_or].
    unfold mbind, outcome_bind.
    destruct Hinv as [(-> & -> & ->)|(-> & Hrh & Hlo & Hlo')].
    + destruct (IH (k + 1) hi' (seg ++ []) (Some (tree (Z.to_nat base) (Z.to_nat k) seg)) k)
        as (root' & rh' & -> & Hi); [done|lia|lia|done|done| |].
      { right. rewrite app_nil_r. split_and!; [done|lia..]. }
      exists root', rh'. split; [done|]. by replace (k + (1 + len r)) with (k + 1 + len r) by lia.
    + rewrite pad_to_ok by lia. unfold checked_add.
      rewrite (proj2 (Z.ltb_lt (k + 1) (2 ^ 8))) by lia. cbn [ok_or].
      assert (2 ^ rh <= 2 ^ k) by (apply Z.pow_le_mono_r; lia).
      rewrite <- tree_S_app by done.
      replace (S (Z.to_nat k)) with (Z.to_nat (k + 1)) by lia.
      destruct (IH (k + 1) hi' (seg ++ lo)
                  (Some (tree (Z.to_nat base) (Z.to_nat (k + 1)) (seg ++ lo))) (k + 1))
        as (root' & rh' & -> & Hi); [done|lia|lia|done|done| |].
      { right. split_and!; [done|lia|lia|len_lia|len_lia]. }
      exists root', rh'. split; [done|]. by replace (k + (1 + len r)) with (k + 1 + len r) by lia.
  - rewrite len_cons in *. pose proof (len_nonneg r).
    cbn [Merkle.repr] in Hr. replace (S (Z.to_nat k)) with (Z.to_nat (k + 1)) in Hr by lia.
    destruct (IH (k + 1) hi lo root rh) as (root' & rh' & -> & Hi); [done|lia|lia|done|done| |].
    { destruct Hinv as [?|(? & ? & ?)]; [by left|right; split_and!; [done|lia..|tauto|tauto]]. }
    exists root', rh'. split; [done|]. by replace (k + (1 + len r)) with (k + 1 + len r) by lia.
Qed.

(** The height of the padded tree over [n] leaves. *)
Lemma padded_height n : 1 <= n <= 2 ^ 35 ->
  u8_try_from (trailing_zeros 64 (next_power_of_two n)) = Some (Z.log2_up n)
  /\ 0 <= Z.log2_up n <= 35.
Proof.
  intros H. pose proof (log2_up_bound n 35 ltac:(lia) ltac:(lia) ltac:(lia)).
  unfold next_power_of_two, u8_try_from. rewrite trailing_zeros_pow2 by lia.
  by rewrite (proj2 (Z.ltb_lt _ _)) by lia.
Qed.

Lemma finish_ok a hs target :
  acc_ok a hs -> hs <> [] -> (forall t, target = Some t -> 0 <= t < 256) ->
  finish_at_height sha256 a target
  = let t := default (Z.log2_up (len hs)) target in
    if (t <? Z.log2_up (len hs)) || (35 <? base_layer a + t)
    then Err (LayerOutOfRange (saturating_add 8 (base_layer a) t) 35)
    else Ok (tree (Z.to_nat (base_layer a)) (Z.to_nat t) hs).
Proof.
  intros [Hb Hc Hs Hr Hbd] Hne Ht. unfold finish_at_height.
  assert (0 < len hs) as Hpos by (destruct hs; [done|len_lia]).
  pose proof (pow35 (base_layer a) ltac:(lia)) as H35.
  rewrite (proj2 (Z.eqb_neq (count a) 0)) by lia.
  destruct (fold_slots_ok (base_layer a) (slots a) 0 hs [] None 0)
    as (root & rh & Hf & Hinv); [lia|lia|unfold len; lia|done|by rewrite app_nil_r|by left|].
  rewrite app_nil_r in Hinv. unfold mbind, outcome_bind. rewrite Hf.
  destruct Hinv as [(_ & _ & ->)|(-> & Hrh & Hle & Hgt)]; [done|]. cbn [expect].
  rewrite Hc. destruct (padded_height (len hs) ltac:(lia)) as [-> Hh]. cbn [ok_or].
  pose proof (log2_up_unique (len hs) rh ltac:(lia) Hle Hgt) as Hlog.
  rewrite Hlog, Z.eqb_refl. cbn [negb]. cbv zeta.
  set (t := default rh target).
  assert (0 <= t < 256) as Ht' by (subst t; destruct target as [t|]; cbn; [by apply Ht|lia]).
  unfold MAX_MERKLE_HEIGHT, checked_add.
  destruct (Z.ltb_spec t rh); cbn [orb]; [done|].
  destruct (Z.ltb_spec (base_layer a + t) (2 ^ 8)).
  - destruct (Z.ltb_spec 35 (base_layer a + t)); [done|].
    apply pad_to_ok; lia.
  - by rewrite (proj2 (Z.ltb_lt 35 _)) by lia.
Qed.

Lemma log2_up_pow_bound (hs : list Sha256Hash) base : 0 <= base <= 35 -> hs <> [] -> len hs <= 2 ^ (35 - base) ->
  0 <= Z.log2_up (len hs) <= 35 - base.
Proof.
  intros Hb Hne H. assert (0 < len hs) by (destruct hs; [done|len_lia]).
  apply log2_up_bound; lia.
Qed.

Lemma accumulate_ok base hashes :
  0 <= base <= 35 -> len hashes <= 2 ^ (35 - base) ->
  exists a, accumulate base (push_all sha256 hashes) = Ok a /\ acc_ok a hashes /\ base_layer a = base.
Proof.
  intros Hb Hl. unfold accumulate, mbind, outcome_bind.
  destruct (new_acc base Hb) as (a & -> & Ha & Hab).
  destruct (push_all_ok hashes a [] Ha) as (a' & -> & Ha' & Hab'); [rewrite Hab; len_lia|].
  exists a'. split_and!; [done|done|congruence].
Qed.
Lemma accumulate_full base hashes :
  0 <= base <= 35 -> 2 ^ (35 - base) < len hashes ->
  accumulate base (push_all sha256 hashes)
  = Err (TooManyLeaves (2 ^ (35 - base) + 1) (2 ^ (35 - base))).
Proof.
  intros Hb Hl. unfold accumulate, mbind, outcome_bind.
  destruct (new_acc base Hb) as (a & -> & Ha & <-).
  destruct (push_all_full hashes a [] Ha) as (a' & ->); [len_lia|]. done.
Qed.

(** Finishing without a target gives the root of the padded tree. *)
Lemma finish_min a hs : acc_ok a hs -> hs <> [] ->
  finish sha256 a = Ok (tree (Z.to_nat (base_layer a)) (tree_height (len hs)) hs).
Proof.
  intros Ha Hne. unfold finish. rewrite (finish_ok a hs None Ha Hne) by done. cbn [default].
  pose proof (log2_up_pow_bound hs (base_layer a) (ok_base _ _ _ Ha) Hne (ok_bound _ _ _ Ha)).
  rewrite Z.ltb_irrefl, (proj2 (Z.ltb_ge 35 _)) by lia. done.
Qed.
Lemma finish_empty a target : acc_ok a [] -> finish_at_height sha256 a target = Err EmptyTree.
Proof. intros Ha. unfold finish_at_height. by rewrite (ok_count _ _ _ Ha). Qed.

Lemma root_from_hashes_eq base hashes :
  0 <= base <= 35 -> hashes <> [] -> len hashes <= 2 ^ (35 - base) ->
  root_from_hashes sha256 hashes base
  = Ok (tree (Z.to_nat base) (tree_height (len hashes)) hashes).
Proof.
  intros Hb Hne Hl. unfold root_from_hashes, mbind, outcome_bind.
  destruct (accumulate_ok base hashes Hb Hl) as (a & -> & Ha & <-). by apply finish_min.
Qed.

(** ** Chunks *)
Lemma chunks_nil {A} size : chunks size (@nil A) = [].
Proof. done. Qed.
Lemma chunks_fuel_enough {A} fuel size (l : list A) :
  0 < size -> (length l <= fuel)%nat -> chunks_fuel fuel size l = chunks size l.
Proof.
  intros Hs. unfold chunks. revert l.
  assert (forall n (l : list A), (length l <= n)%nat -> forall f, (length l <= f)%nat ->
            chunks_fuel f size l = chunks_fuel n size l) as H.
  { induction n as [|n IH]; intros l Hl f Hf.
    - destruct l; [|simpl in Hl; lia]. by destruct f.
    - destruct l as [|x l]; [by destruct f|]. destruct f as [|f]; [simpl in Hf; lia|].
      cbn [chunks_fuel]. f_equal.
      simpl in Hl, Hf. apply IH; rewrite length_drop; simpl; lia. }
  intros l Hl. symmetry. by apply H.
Qed.
Lemma chunks_cons {A} size (l : list A) : 0 < size -> l <> [] ->
  chunks size l = take (Z.to_nat size) l :: chunks size (drop (Z.to_nat size) l).
Proof.
  intros Hs Hne. destruct l as [|x l]; [done|]. unfold chunks at 1. cbn [length chunks_fuel].
  rewrite chunks_fuel_enough; [done..|]. rewrite length_drop. simpl. lia.
Qed.

(** Induction along the chunks of a list. *)
Lemma chunks_ind {A} size (Hs : 0 < size) (P : list A -> Prop) :
  P [] -> (forall l, l <> [] -> P (drop (Z.to_nat size) l) -> P l) -> forall l, P l.
Proof.
  intros Hnil Hstep l. remember (length l) as n eqn:Hn. revert l Hn.
  induction (lt_wf n) as [n _ IH]. intros l ->. destruct l as [|x l]; [done|].
  apply Hstep; [done|]. eapply IH; [|done]. rewrite length_drop. simpl. lia.
Qed.

Lemma len_chunks {A} size (l : list A) : 0 < size -> len (chunks size l) = div_ceil (len l) size.
Proof.
  intros Hs. induction l as [|l Hne IH] using (chunks_ind size Hs).
  - rewrite chunks_nil. change (len (@nil (list A))) with 0. change (len (@nil A)) with 0.
    unfold div_ceil. rewrite Z.div_small; lia.
  - rewrite chunks_cons, len_cons, IH by done. rewrite len_drop.
    assert (0 < len l) by (destruct l; [done|len_lia]). unfold div_ceil.
    rewrite Z2Nat.id by lia. destruct (decide (size <= len l)).
    + rewrite Z.max_r by lia. replace (len l + size - 1) with (len l - size + size - 1 + 1 * size) by lia.
      rewrite Z.div_add by lia. lia.
    + rewrite Z.max_l by lia. rewrite (Z.div_small (0 + size - 1)) by lia.
      replace (len l + size - 1) with (len l - 1 + 1 * size) by lia.
      rewrite Z.div_add, Z.div_small by lia. lia.
Qed.
Lemma chunks_nonempty {A} size (l : list A) : 0 < size -> l <> [] -> chunks size l <> [].
Proof. intros. by rewrite chunks_cons. Qed.

Lemma drop_chunks {A} size (l : list A) n : 0 < size ->
  drop n (chunks size l) = chunks size (drop (n * Z.to_nat size) l).
Proof.
  intros Hs. revert l. induction n as [|n IH]; intros l; [done|].
  destruct (decide (l = [])) as [->|Hne]; [by rewrite drop_nil|].
  rewrite chunks_cons by done. cbn [drop]. rewrite IH, drop_drop. done.
Qed.
Lemma take_chunks {A} size (l : list A) n : 0 < size ->
  take n (chunks size l) = chunks size (take (n * Z.to_nat size) l).
Proof.
  intros Hs. revert l. induction n as [|n IH]; intros l; [by rewrite !take_0|].
  destruct (decide (l = [])) as [->|Hne]; [by rewrite take_nil|].
  rewrite chunks_cons by done. cbn [take].
  rewrite (chunks_cons size (take _ _)) by (first [done | destruct l; [done|];
    replace (S n * Z.to_nat size)%nat with (S (Z.to_nat size - 1 + n * Z.to_nat size)) by lia; done]).
  rewrite IH, take_take. f_equal; [f_equal; lia|].
  rewrite skipn_firstn_comm. f_equal. f_equal. lia.
Qed.
(** Small chunks grouped are the chunks of the large chunks. *)
Lemma chunks_chunks {A} size group (l : list A) : 0 < size -> 0 < group ->
  chunks group (chunks size l) = map (chunks size) (chunks (group * size) l).
Proof.
  intros Hs Hg. assert (0 < group * size) as Hgs by nia.
  induction l as [|l Hne IH] using (chunks_ind (group * size) Hgs); [done|].
  rewrite (chunks_cons group) by (try apply chunks_nonempty; done).
  rewrite (chunks_cons (group * size)) by (try nia; done). cbn [map].
  rewrite take_chunks, drop_chunks by done.
  replace (Z.to_nat group * Z.to_nat size)%nat with (Z.to_nat (group * size)) by lia.
  by rewrite IH.
Qed.
Lemma Forall_chunks {A} size (l : list A) : 0 < size ->
  Forall (fun c => c <> [] /\ len c <= size) (chunks size l).
Proof.
  intros Hs. induction l as [|l Hne IH] using (chunks_ind size Hs); [constructor|].
  rewrite chunks_cons by done. constructor; [|done]. split.
  - destruct l; [done|]. by replace (Z.to_nat size) with (S (Z.to_nat size - 1)) by lia.
  - rewrite len_take. lia.
Qed.

(** ** Layers: the tree over the roots of groups of nodes *)
Lemma tree_take b h hs : tree b h (take (2 ^ h) hs) = tree b h hs.
Proof.
  destruct (decide (2 ^ h <= length hs)%nat).
  - rewrite <- (take_drop (2 ^ h) hs) at 2. rewrite tree_app; [done|]. rewrite length_take. lia.
  - by rewrite take_ge by lia.
Qed.
Lemma tree_layers b L h hs :
  tree (b + L) h (map (tree b L) (chunks (2 ^ Z.of_nat L) hs)) = tree b (h + L) hs.
Proof.
  assert (0 < 2 ^ Z.of_nat L) as Hp by (apply pow2_pos; lia).
  assert (Z.to_nat (2 ^ Z.of_nat L) = 2 ^ L)%nat as Hn by (rewrite <- pow2_nat_Z; lia).
  revert hs. induction h as [|h IH]; intros hs; cbn [Nat.add].
  - destruct (decide (hs = [])) as [->|Hne]; [cbn [Merkle.tree map chunks]; by rewrite tree_nil|].
    rewrite chunks_cons by done. cbn [map Merkle.tree]. by rewrite Hn, tree_take.
  - cbn [Merkle.tree]. rewrite <- !IH. f_equal.
    rewrite skipn_map, drop_chunks, Hn by done. do 4 f_equal.
    rewrite Nat.pow_add_r. lia.
Qed.

(** ** Roots of data *)
Lemma push_blocks_eq blocks :
  Forall (fun c => c <> [] /\ len c <= MERKLE_BLOCK_SIZE) blocks ->
  forall a, push_blocks sha256 blocks a = push_all sha256 (map sha256 blocks) a.
Proof.
  induction 1 as [|c r [Hne Hl] _ IH]; intros a; [done|]. cbn [push_blocks map push_all].
  unfold hash_block. rewrite bool_decide_false, (proj2 (Z.ltb_ge _ _)) by done. cbn [orb].
  unfold lift. unfold mbind at 1, M_bind at 1. cbv beta iota.
  unfold mbind, M_bind. destruct (push sha256 (sha256 c) a) as [a' [[]|?| |]]; [apply IH|done..].
Qed.
Lemma accumulate_ext base f g :
  (forall a, f a = g a) -> accumulate base f = accumulate base g.
Proof.
  intros H. unfold accumulate, mbind, outcome_bind.
  destruct (MerkleAccumulator_new base); [|done..]. by rewrite H.
Qed.
(** The hashes of the 16 KiB blocks of the data. *)
Lemma accumulate_blocks data :
  accumulate 0 (push_blocks sha256 (chunks MERKLE_BLOCK_SIZE data))
  = accumulate 0 (push_all sha256 (block_hashes sha256 data)).
Proof. apply accumulate_ext, push_blocks_eq, Forall_chunks. done. Qed.

Lemma len_block_hashes data :
  len (block_hashes sha256 data) = div_ceil (len data) MERKLE_BLOCK_SIZE.
Proof. unfold block_hashes, len at 1. rewrite length_map. apply (len_chunks _ data). done. Qed.
Lemma block_hashes_nonempty data : data <> [] -> block_hashes sha256 data <> [].
Proof.
  intros H. unfold block_hashes. rewrite chunks_cons by done. done.
Qed.

Lemma file_root_eq data :
  data <> [] -> len (block_hashes sha256 data) <= 2 ^ 35 ->
  file_root_from_data sha256 data
  = Ok (tree 0 (tree_height (len (block_hashes sha256 data))) (block_hashes sha256 data)).
Proof.
  intros Hne Hl. unfold file_root_from_data. rewrite bool_decide_false by done.
  rewrite accumulate_blocks.
  apply (root_from_hashes_eq 0); [lia|by apply block_hashes_nonempty|done].
Qed.

Lemma piece_layer_ok L : 0 <= L <= 14 -> piece_layer (MERKLE_BLOCK_SIZE * 2 ^ L) = Ok L.
Proof.
  intros HL. assert (Forall (fun n => piece_layer (MERKLE_BLOCK_SIZE * 2 ^ Z.of_nat n) = Ok (Z.of_nat n)) (seq 0 15)) as H
    by (repeat constructor).
  rewrite List.Forall_forall in H. specialize (H (Z.to_nat L)). rewrite Z2Nat.id in H by lia.
  apply H, in_seq. lia.
Qed.
Lemma is_power_of_two_true n : is_power_of_two n = true -> exists k, 0 <= k /\ n = 2 ^ k.
Proof.
  unfold is_power_of_two. intros [Hn%Z.ltb_lt Hl%Z.eqb_eq]%andb_prop.
  exists (Z.log2 n). split; [apply Z.log2_nonneg|].
  destruct (Z.log2_spec n Hn) as [H1 H2]. rewrite Z.pow_succ_r in H2 by apply Z.log2_nonneg.
  destruct (decide (n = 2 ^ Z.log2 n)) as [?|Hne]; [done|].
  (* otherwise [n] and [n - 1] share the top bit *)
  assert (Z.log2 (n - 1) = Z.log2 n) as Hlog.
  { apply Z.log2_unique; [apply Z.log2_nonneg|]. rewrite Z.pow_succ_r by apply Z.log2_nonneg. lia. }
  assert (Z.testbit (Z.land n (n - 1)) (Z.log2 n) = true) as Ht.
  { rewrite Z.land_spec, Z.bit_log2 by done. rewrite <- Hlog, Z.bit_log2; [done|].
    pose proof (pow2_pos (Z.log2 n) (Z.log2_nonneg n)). lia. }
  by rewrite Hl, Z.bits_0 in Ht.
Qed.
Lemma piece_layer_inv p L : piece_layer p = Ok L -> 0 <= L <= 14 /\ p = MERKLE_BLOCK_SIZE * 2 ^ L.
Proof.
  unfold piece_layer, MIN_BEP52_PIECE_LENGTH, MERKLE_BLOCK_SIZE, MAX_BEP52_PIECE_LENGTH.
  destruct (Z.ltb_spec p (16 * 1024)); [done|]. cbn [orb].
  destruct (is_power_of_two p) eqn:Hp; [|done]. cbn [negb orb].
  destruct (Z.ltb_spec (256 * 1024 * 1024) p); [done|].
  apply is_power_of_two_true in Hp as (k & Hk & ->). intros HL.
  assert (14 <= k) as Hk1.
  { destruct (Z.le_gt_cases 14 k); [done|].
    pose proof (Z.pow_le_mono_r 2 k 13 ltac:(lia) ltac:(lia)) as Hm. change (2 ^ 13) with 8192 in Hm. lia. }
  assert (k <= 28) as Hk2.
  { destruct (Z.le_gt_cases k 28); [done|].
    pose proof (Z.pow_le_mono_r 2 29 k ltac:(lia) ltac:(lia)) as Hm. change (2 ^ 29) with 536870912 in Hm. lia. }
  replace (2 ^ k) with (2 ^ (k - 14) * (16 * 1024)) in HL.
  2:{ replace k with (k - 14 + 14) at 2 by lia. rewrite Z.pow_add_r by lia. done. }
  rewrite Z.div_mul, trailing_zeros_pow2 in HL by lia.
  unfold u8_try_from in HL. rewrite (proj2 (Z.ltb_lt (k - 14) 256)) in HL by lia.
  cbn [ok_or] in HL. simplify_eq. split; [lia|].
  replace k with (k - 14 + 14) at 1 by lia. rewrite Z.pow_add_r by lia. lia.
Qed.

Lemma piece_root_eq data L :
  0 <= L <= 14 -> data <> [] -> len data <= MERKLE_BLOCK_SIZE * 2 ^ L ->
  piece_root_from_data sha256 data (MERKLE_BLOCK_SIZE * 2 ^ L)
  = Ok (tree 0 (Z.to_nat L) (block_hashes sha256 data)).
Proof.
  intros HL Hne Hl. unfold piece_root_from_data. rewrite piece_layer_ok by done.
  unfold mbind, outcome_bind. rewrite (proj2 (Z.ltb_ge _ _)), bool_decide_false by done.
  rewrite accumulate_blocks.
  assert (len (block_hashes sha256 data) <= 2 ^ L) as Hb.
  { rewrite len_block_hashes. unfold div_ceil, MERKLE_BLOCK_SIZE in *.
    apply Z.lt_succ_r, Z.div_lt_upper_bound; lia. }
  assert (2 ^ L <= 2 ^ 14) by (apply Z.pow_le_mono_r; lia).
  destruct (accumulate_ok 0 (block_hashes sha256 data)) as (a & -> & Ha & Hab); [lia|lia|].
  unfold finish_padded_to.
  rewrite (finish_ok a _ (Some L) Ha (block_hashes_nonempty data Hne)) by (intros; simplify_eq; lia).
  change (from_option id ?[d] (Some L)) with L. rewrite Hab. cbv zeta.
  assert (0 < len (block_hashes sha256 data)).
  { rewrite len_block_hashes. destruct data; [done|]. rewrite len_cons. pose proof (len_nonneg data).
    pose proof (div_ceil_spec (1 + len data) MERKLE_BLOCK_SIZE ltac:(done)). unfold MERKLE_BLOCK_SIZE in *. lia. }
  pose proof (log2_up_bound (len (block_hashes sha256 data)) L ltac:(lia) ltac:(lia) Hb).
  rewrite (proj2 (Z.ltb_ge L _)), (proj2 (Z.ltb_ge 35 _)) by lia. done.
Qed.

(** Splitting a tree at a layer splits its height. *)
Lemma log2_up_split n L : 0 <= L -> 2 ^ L < n ->
  Z.log2_up n = L + Z.log2_up (div_ceil n (2 ^ L)).
Proof.
  intros HL Hn. pose proof (pow2_pos L HL).
  pose proof (div_ceil_spec n (2 ^ L) ltac:(lia)) as [H1 H2].
  assert (1 < div_ceil n (2 ^ L)) as H3 by nia.
  destruct (Z.log2_up_spec _ H3) as [H4 H5].
  assert (0 < Z.log2_up (div_ceil n (2 ^ L))) by (by apply Z.log2_up_pos).
  apply Z.log2_up_unique; [lia|].
  replace (Z.pred (L + Z.log2_up (div_ceil n (2 ^ L))))
    with (L + Z.pred (Z.log2_up (div_ceil n (2 ^ L)))) by lia.
  rewrite !Z.pow_add_r by lia. nia.
Qed.

(** The blocks of the pieces are the blocks of the file, grouped. *)
Lemma piece_block_hashes data L : 0 <= L ->
  map (block_hashes sha256) (chunks (MERKLE_BLOCK_SIZE * 2 ^ L) data)
  = chunks (2 ^ L) (block_hashes sha256 data).
Proof.
  intros HL. pose proof (pow2_pos L HL). unfold block_hashes.
  rewrite <- (map_map (chunks MERKLE_BLOCK_SIZE) (map sha256)).
  rewrite Z.mul_comm, <- chunks_chunks by (done || lia).
  generalize (chunks MERKLE_BLOCK_SIZE data). intros l.
  assert (0 < 2 ^ L) as Hp by done.
  induction l as [|l Hne IH] using (chunks_ind (2 ^ L) Hp); [done|].
  rewrite (chunks_cons _ l), (chunks_cons _ (map sha256 l)) by (first [done | by destruct l]).
  cbn [map].
  by rewrite firstn_map, skipn_map, IH.
Qed.

(** ** Proofs *)
Lemma shape_ok n : 0 < n <= 2 ^ 35 ->
  MerkleTreeShape_new n = Ok (mkShape n (2 ^ Z.log2_up n) (Z.log2_up n)).
Proof.
  intros Hn. unfold MerkleTreeShape_new. change MAX_MERKLE_LEAVES with (2 ^ 35).
  rewrite (proj2 (Z.eqb_neq n 0)), (proj2 (Z.ltb_ge (2 ^ 35) n)) by lia.
  destruct (padded_height n ltac:(lia)) as [Hh Hr].
  unfold checked_next_power_of_two. unfold next_power_of_two in *.
  assert (2 ^ Z.log2_up n < 2 ^ 64) as Hlt by (apply Z.pow_lt_mono_r; lia).
  rewrite (proj2 (Z.ltb_lt _ _) Hlt). unfold mbind, outcome_bind. cbn [ok_or]. by rewrite Hh.
Qed.

Lemma lxor_1 i : 0 <= i -> Z.lxor i 1 = if Z.land i 1 =? 0 then i + 1 else i - 1.
Proof.
  intros Hi. replace 1 with (Z.ones 1) at 2 by done. rewrite Z.land_ones by lia.
  change (2 ^ 1) with 2. pose proof (Z.mod_pos_bound i 2 ltac:(lia)).
  pose proof (Z.div_mod i 2 ltac:(lia)) as Hdm.
  destruct (Z.eqb_spec (i mod 2) 0) as [He|He].
  - rewrite Hdm, He, Z.add_0_r, <- Z.add_nocarry_lxor; [done|].
    apply Z.bits_inj'. intros n Hn. rewrite Z.land_spec, Z.bits_0.
    destruct (decide (n = 0)) as [->|]; [by rewrite Z.testbit_even_0|].
    replace (Z.testbit 1 n) with false; [by rewrite andb_false_r|].
    symmetry. apply (Z.bits_above_log2 1); simpl; lia.
  - assert (i = 2 * (i / 2) + 1) as -> by lia. generalize (i / 2). intros q.
    replace (2 * q + 1 - 1) with (2 * q) by lia.
    assert (2 * q + 1 = Z.lxor (2 * q) 1) as ->.
    { rewrite <- Z.add_nocarry_lxor; [done|].
      apply Z.bits_inj'. intros n Hn. rewrite Z.land_spec, Z.bits_0.
      destruct (decide (n = 0)) as [->|]; [by rewrite Z.testbit_even_0|].
      replace (Z.testbit 1 n) with false; [by rewrite andb_false_r|].
      symmetry. apply (Z.bits_above_log2 1); simpl; lia. }
    by rewrite Z.lxor_assoc, Z.lxor_nilpotent, Z.lxor_0_r.
Qed.
Lemma land_1 i : Z.land i 1 = i mod 2.
Proof. replace 1 with (Z.ones 1) by done. by rewrite Z.land_ones. Qed.

(** A parent's two children, in the order the proof hashes them. *)
Lemma tree_node_parent layer index hs : 0 <= layer -> 0 <= index ->
  tree_node sha256 (layer + 1) (Z.shiftr index 1) hs
  = let p := proof_pair index (tree_node sha256 layer index hs)
               (tree_node sha256 layer (Z.lxor index 1) hs) in
    hash_pair p.1 p.2.
Proof.
  intros Hl Hi. rewrite lxor_1, Z.shiftr_div_pow2 by lia. change (2 ^ 1) with 2.
  unfold proof_pair. rewrite land_1. unfold tree_node.
  replace (Z.to_nat (layer + 1)) with (S (Z.to_nat layer)) by lia.
  cbn [Merkle.tree]. rewrite drop_drop, Nat.pow_succ_r'.
  pose proof (Z.div_mod index 2 ltac:(lia)). pose proof (Z.mod_pos_bound index 2 ltac:(lia)).
  destruct (Z.eqb_spec (index mod 2) 0) as [He|He]; cbn [fst snd].
  - replace (Z.to_nat (index / 2) * (2 * 2 ^ Z.to_nat layer))%nat
      with (Z.to_nat index * 2 ^ Z.to_nat layer)%nat.
    2:{ replace (Z.to_nat index) with (2 * Z.to_nat (index / 2))%nat by lia. lia. }
    do 2 f_equal. f_equal. replace (Z.to_nat (index + 1)) with (S (Z.to_nat index)) by lia. lia.
  - replace (Z.to_nat (index - 1)) with (2 * Z.to_nat (index / 2))%nat by lia.
    replace (Z.to_nat index) with (2 * Z.to_nat (index / 2) + 1)%nat by lia.
    f_equal; f_equal; f_equal; lia.
Qed.

Lemma tree_node_padding layer index hs : 0 <= layer -> 0 <= index ->
  len hs <= Z.shiftl index layer -> tree_node sha256 layer index hs = zeros (Z.to_nat layer).
Proof.
  intros Hl Hi H. unfold tree_node. rewrite Z.shiftl_mul_pow2 in H by lia.
  rewrite drop_ge; [by rewrite tree_nil|].
  apply Nat2Z.inj_le. rewrite Nat2Z.inj_mul, pow2_to_nat, Z2Nat.id by lia. done.
Qed.

Lemma path_ok_step hs layer index n :
  path_ok hs layer index (1 + n) -> 0 <= n -> path_ok hs (layer + 1) (Z.shiftr index 1) n.
Proof.
  intros (H1 & H2 & H3 & H4 & H5) Hn. rewrite Z.pow_add_r in H4 by lia.
  unfold path_ok. rewrite Z.shiftr_div_pow2 by lia. change (2 ^ 1) with 2 in *.
  split_and!; [lia..|apply Z.div_pos; lia|apply Z.div_lt_upper_bound; lia|done].
Qed.
Lemma path_sibling hs layer index n :
  path_ok hs layer index (1 + n) -> 0 <= n ->
  0 <= Z.lxor index 1 < 2 ^ 36 /\
  checked_shl 64 (Z.lxor index 1) layer = Some (Z.shiftl (Z.lxor index 1) layer).
Proof.
  intros (H1 & H2 & H3 & H4 & H5) Hn.
  assert (0 <= Z.lxor index 1 < 2 ^ (1 + n)) as Hx.
  { rewrite lxor_1 by lia. rewrite land_1. rewrite Z.pow_add_r in * by lia. change (2 ^ 1) with 2 in *.
    pose proof (Z.div_mod index 2 ltac:(lia)). pose proof (Z.mod_pos_bound index 2 ltac:(lia)).
    destruct (Z.eqb_spec (index mod 2) 0); lia. }
  assert (2 ^ (1 + n) <= 2 ^ 36) by (apply Z.pow_le_mono_r; lia).
  split; [lia|]. unfold checked_shl. rewrite (proj2 (Z.ltb_lt layer 64)) by lia.
  f_equal. apply Z.mod_small. rewrite Z.shiftl_mul_pow2 by lia.
  assert (2 ^ layer <= 2 ^ 35) by (apply Z.pow_le_mono_r; lia).
  assert (2 ^ (1 + n) * 2 ^ layer <= 2 ^ 36).
  { rewrite <- Z.pow_add_r by lia. apply Z.pow_le_mono_r; lia. }
  pose proof (pow2_pos layer H1). assert (2 ^ 36 < 2 ^ 64) by done. nia.
Qed.

Lemma len_tree_proof n layer index hs : len (tree_proof sha256 n layer index hs) = Z.of_nat n.
Proof.
  revert layer index. induction n as [|n IH]; intros; [done|].
  cbn [tree_proof]. rewrite len_cons, IH. lia.
Qed.

(** A proof taken from the tree leads to its root. *)
Lemma proof_loop_complete hs n : forall layer index,
  path_ok hs layer index (Z.of_nat n) ->
  proof_loop sha256 (len hs) layer index (tree_node sha256 layer index hs)
    (tree_proof sha256 n layer index hs)
  = Ok (tree_node sha256 (layer + Z.of_nat n) 0 hs).
Proof.
  induction n as [|n IH]; intros layer index Hp; cbn [tree_proof proof_loop].
  - destruct Hp as (_ & _ & _ & Hi & _). change (2 ^ Z.of_nat 0) with 1 in Hi.
    assert (index = 0) as -> by lia. by rewrite Z.add_0_r.
  - rewrite Nat2Z.inj_succ, <- Z.add_1_l in *.
    destruct (path_sibling hs layer index (Z.of_nat n) Hp ltac:(lia)) as [Hr ->].
    pose proof (path_ok_step _ _ _ _ Hp ltac:(lia)) as Hp'.
    destruct Hp as (H1 & H2 & H3 & H4 & H5). unfold mbind, outcome_bind. cbn [ok_or].
    assert (zero_hash sha256 layer = Ok (zeros (Z.to_nat layer))) as Hz by (apply zero_hash_ok; lia).
    replace (layer + (1 + Z.of_nat n)) with (layer + 1 + Z.of_nat n) by lia.
    rewrite <- (IH (layer + 1) (Z.shiftr index 1) Hp').
    rewrite tree_node_parent by lia. unfold proof_pair. cbv zeta.
    destruct (Z.leb_spec (len hs) (Z.shiftl (Z.lxor index 1) layer)).
    + rewrite Hz. unfold mret, outcome_ret.
      rewrite (tree_node_padding layer (Z.lxor index 1)), bool_decide_true by (done || lia).
      cbn [negb]. by destruct (Z.land index 1 =? 0).
    + by destruct (Z.land index 1 =? 0).
Qed.

(** A proof that leads to the root of the tree follows the tree, or meets
    a collision on the way. *)
Lemma proof_loop_sound hs siblings : forall layer index hash root,
  path_ok hs layer index (len siblings) ->
  proof_loop sha256 (len hs) layer index hash siblings = Ok root ->
  root = tree_node sha256 (layer + len siblings) 0 hs ->
  match last_divergence sha256 layer index hash siblings hs with
  | Some d => is_collision sha256 d
  | None => hash = tree_node sha256 layer index hs
            /\ siblings = tree_proof sha256 (length siblings) layer index hs
  end.
Proof.
  induction siblings as [|s r IH]; intros layer index hash root Hp Hrun Hroot;
    cbn [proof_loop last_divergence] in *.
  - destruct Hp as (_ & _ & _ & Hi & _). change (len (@nil Sha256Hash)) with 0 in *.
    change (2 ^ 0) with 1 in Hi. assert (index = 0) as -> by lia.
    simplify_eq. by rewrite Z.add_0_r.
  - rewrite len_cons in *. pose proof (len_nonneg r) as Hn.
    destruct (path_sibling _ _ _ _ Hp Hn) as [_ Hs]. rewrite Hs in Hrun.
    pose proof (path_ok_step _ _ _ _ Hp Hn) as Hp'.
    destruct Hp as (H1 & H2 & H3 & H4 & H5). unfold mbind, outcome_bind in Hrun. cbn [ok_or] in Hrun.
    assert (proof_loop sha256 (len hs) (layer + 1) (Z.shiftr index 1)
      (hash_pair (proof_pair index hash s).1 (proof_pair index hash s).2) r = Ok root) as Hrest.
    { rewrite zero_hash_ok in Hrun by lia. unfold mret, outcome_ret in Hrun.
      unfold proof_pair. repeat (case_match; try done). }
    replace (layer + (1 + len r)) with (layer + 1 + len r) in Hroot by lia.
    specialize (IH _ _ _ _ Hp' Hrest Hroot).
    destruct (last_divergence sha256 (layer + 1) _ _ r hs) as [d|]; [done|].
    rewrite tree_node_parent in IH by lia. cbv zeta in IH.
    destruct (bool_decide_reflect (proof_pair index hash s = proof_pair index
      (tree_node sha256 layer index hs) (tree_node sha256 layer (Z.lxor index 1) hs))) as [He|Hne].
    + destruct IH as [_ IH]. cbn [length tree_proof]. rewrite <- IH.
      unfold proof_pair in He. by destruct (Z.land index 1 =? 0); simplify_eq.
    + split; [done|]. exact (proj1 IH).
Qed.

(** The root of the leaves is the node at the top. *)
Lemma tree_node_top n hs : tree_node sha256 n 0 hs = tree 0 (Z.to_nat n) hs.
Proof. done. Qed.
End tree_lemmas.

(** The checks of [verify_proof] before it hashes anything. *)
Lemma verify_proof_eq sha256 subject layer index (hs : list Sha256Hash) siblings root :
  0 < len hs <= 2 ^ 35 -> 0 <= layer -> 0 <= index ->
  verify_proof sha256 subject layer index (len hs) siblings root
  = let h := Z.log2_up (len hs) in
    if h <? layer then Err (LayerOutOfRange layer h)
    else if 2 ^ 64 <=? index * 2 ^ layer then Err ArithmeticOverflow
    else if len hs <=? index * 2 ^ layer then Err (SubjectOutOfRange index layer (len hs))
    else if negb (len siblings =? h - layer) then Err (InvalidProofLength (h - layer) (len siblings))
    else
      hash ← proof_loop sha256 (len hs) layer index subject siblings;
      if negb (bool_decide (hash = root)) then Err RootMismatch else Ok tt.
Proof.
  intros Hn Hl Hi. unfold verify_proof. rewrite shape_ok by done.
  destruct (padded_height (len hs) ltac:(lia)) as [_ Hh].
  unfold mbind at 1, outcome_bind at 1. cbn [height]. cbv zeta.
  destruct (Z.ltb_spec (Z.log2_up (len hs)) layer); [done|].
  unfold checked_shl. rewrite (proj2 (Z.ltb_lt layer 64)) by lia.
  rewrite Z.shiftl_1_l, Z.mod_small
    by (split; [apply Z.pow_nonneg; lia|apply Z.pow_lt_mono_r; lia]).
  cbn [ok_or]. unfold mbind at 1, outcome_bind at 1. unfold checked_mul.
  destruct (Z.ltb_spec (index * 2 ^ layer) (2 ^ 64)), (Z.leb_spec (2 ^ 64) (index * 2 ^ layer));
    by (done || lia).
Qed.

Lemma path_ok_subject (hs : list Sha256Hash) layer index :
  0 < len hs <= 2 ^ 35 -> 0 <= layer <= Z.log2_up (len hs) -> 0 <= index ->
  index * 2 ^ layer < len hs -> path_ok hs layer index (Z.log2_up (len hs) - layer).
Proof.
  intros Hn Hl Hi Hlt. destruct (padded_height (len hs) ltac:(lia)) as [_ Hh].
  destruct (log2_up_spec' (len hs) ltac:(lia)) as [H1 _].
  unfold path_ok. split_and!; [lia..| |lia].
  pose proof (pow2_pos layer ltac:(lia)). apply (Z.mul_lt_mono_pos_r (2 ^ layer)); [done|].
  rewrite <- Z.pow_add_r by lia. replace (Z.log2_up (len hs) - layer + layer) with (Z.log2_up (len hs)) by lia.
  lia.
Qed.

(** The tree's own proofs are accepted. *)
Lemma verify_proof_accepts sha256 (hs : list Sha256Hash) layer index :
  0 < len hs <= MAX_MERKLE_LEAVES -> 0 <= layer <= Z.log2_up (len hs) ->
  0 <= index -> index * 2 ^ layer < len hs ->
  verify_proof sha256 (tree_node sha256 layer index hs) layer index (len hs)
    (tree_proof sha256 (tree_height (len hs) - Z.to_nat layer) layer index hs)
    (tree sha256 0 (tree_height (len hs)) hs) = Ok tt.
Proof.
  change MAX_MERKLE_LEAVES with (2 ^ 35).
  intros Hn Hl Hi Hlt. rewrite verify_proof_eq by lia. cbv zeta.
  pose proof (path_ok_subject hs layer index Hn Hl Hi Hlt) as Hp.
  assert (2 ^ 35 < 2 ^ 64) by done.
  rewrite (proj2 (Z.ltb_ge _ _)), (proj2 (Z.leb_gt (2 ^ 64) _)), (proj2 (Z.leb_gt (len hs) _)) by lia.
  unfold tree_height. set (n := (Z.to_nat (Z.log2_up (len hs)) - Z.to_nat layer)%nat).
  assert (Z.of_nat n = Z.log2_up (len hs) - layer) as Hn' by (subst n; lia).
  rewrite len_tree_proof, Hn', Z.eqb_refl. cbn [negb].
  rewrite <- Hn' in Hp. unfold mbind, outcome_bind. rewrite proof_loop_complete by done.
  rewrite tree_node_top, Hn'. replace (layer + (Z.log2_up (len hs) - layer)) with (Z.log2_up (len hs)) by lia.
  by rewrite bool_decide_true.
Qed.

(** What an accepted proof shows. *)
Lemma verify_proof_inv sha256 (hs : list Sha256Hash) subject layer index siblings :
  0 < len hs <= MAX_MERKLE_LEAVES -> 0 <= layer -> 0 <= index ->
  verify_proof sha256 subject layer index (len hs) siblings
    (tree sha256 0 (tree_height (len hs)) hs) = Ok tt ->
  index * 2 ^ layer < len hs /\ layer + len siblings = Z.log2_up (len hs) /\
  match last_divergence sha256 layer index subject siblings hs with
  | None => subject = tree_node sha256 layer index hs
            /\ siblings = tree_proof sha256 (length siblings) layer index hs
  | Some d => is_collision sha256 d
  end.
Proof.
  change MAX_MERKLE_LEAVES with (2 ^ 35). intros Hn Hl Hi. rewrite verify_proof_eq by lia. cbv zeta.
  destruct (Z.ltb_spec (Z.log2_up (len hs)) layer); [done|].
  destruct (Z.leb_spec (2 ^ 64) (index * 2 ^ layer)); [done|].
  destruct (Z.leb_spec (len hs) (index * 2 ^ layer)); [done|].
  destruct (Z.eqb_spec (len siblings) (Z.log2_up (len hs) - layer)) as [Hs|]; [|done]. cbn [negb].
  unfold mbind, outcome_bind.
  destruct (proof_loop sha256 (len hs) layer index subject siblings) as [root|?| |] eqn:Hrun; try done.
  destruct (bool_decide_reflect (root = tree sha256 0 (tree_height (len hs)) hs)) as [Hr|]; [|done].
  intros _. split_and!; [done|lia|].
  apply (proof_loop_sound sha256 hs siblings layer index subject root); [|done|].
  - rewrite Hs. apply path_ok_subject; lia.
  - rewrite Hr, tree_node_top. do 2 f_equal. unfold tree_height. f_equal. lia.
Qed.

(** The verifier returns on every input. *)
Lemma proof_loop_returns sha256 leaves siblings : forall layer index hash,
  returns (proof_loop sha256 leaves layer index hash siblings).
Proof.
  induction siblings as [|s r IH]; intros; [done|]. cbn [proof_loop].
  unfold mbind, outcome_bind, ok_or. destruct (checked_shl 64 _ layer); [|done].
  unfold zero_hash. repeat case_match; try done.
Qed.
Lemma verify_proof_returns sha256 subject layer index leaves siblings root :
  returns (verify_proof sha256 subject layer index leaves siblings root).
Proof.
  unfold verify_proof, MerkleTreeShape_new, mbind, outcome_bind, ok_or.
  pose proof (proof_loop_returns sha256 leaves siblings layer index subject).
  repeat case_match; simplify_eq; done.
Qed.

(** * Properties *)

(** The bounded-memory accumulator computes the specified tree.  For
    every list of hashes and every base layer, [root_from_hashes] returns the
    root of the smallest perfect tree over the hashes, padded on the right
    with the padding hashes of the base layer; it returns the documented
    error for no hashes, for more leaves than the layer admits and for a
    layer above 35, and never panics. *)
Theorem root_from_hashes_is_padded_tree sha256 (hashes : list Sha256Hash) base :
  0 <= base ->
  root_from_hashes sha256 hashes base =
    if 35 <? base then Err (LayerOutOfRange base MAX_MERKLE_HEIGHT)
    else if bool_decide (hashes = []) then Err EmptyTree
    else if 2 ^ (35 - base) <? len hashes
    then Err (TooManyLeaves (2 ^ (35 - base) + 1) (2 ^ (35 - base)))
    else Ok (tree sha256 (Z.to_nat base) (tree_height (len hashes)) hashes).
Proof.
  intros Hb. destruct (Z.ltb_spec 35 base).
  { unfold root_from_hashes, accumulate, MerkleAccumulator_new, MAX_MERKLE_HEIGHT.
    by rewrite (proj2 (Z.ltb_lt 35 base)). }
  destruct (bool_decide_reflect (hashes = [])) as [->|Hne].
  { unfold root_from_hashes, mbind, outcome_bind.
    destruct (accumulate_ok sha256 base []) as (a & -> & Ha & _); [lia| |].
    - change (len []) with 0. pose proof (pow2_pos (35 - base)). lia.
    - by apply (finish_empty sha256). }
  destruct (Z.ltb_spec (2 ^ (35 - base)) (len hashes)).
  - unfold root_from_hashes, mbind, outcome_bind. by rewrite accumulate_full by lia.
  - by apply root_from_hashes_eq.
Qed.

Lemma root_from_hashes_is_padded_tree_witness :
  0 <= 1 /\
  root_from_hashes toy_sha256 [[1]; [2]; [3]] 1 = Ok (tree toy_sha256 1 2 [[1]; [2]; [3]]).
Proof.
  split; [lia|]. rewrite (root_from_hashes_is_padded_tree toy_sha256 [[1]; [2]; [3]] 1) by lia.
  vm_compute. reflexivity.
Defined.

(** The two ways to a v2 file's pieces root agree.  For a valid piece
    length and a file of more than one piece, of at most [2^35] blocks,
    every piece has a root, and the root over those piece roots, padded at
    the piece layer, is the root over the file's blocks. *)
Theorem file_root_from_piece_roots sha256 data piece_length L :
  piece_layer piece_length = Ok L ->
  piece_length < len data <= 2 ^ 35 * MERKLE_BLOCK_SIZE ->
  exists roots,
    map (fun p => piece_root_from_data sha256 p piece_length) (chunks piece_length data) = map Ok roots
    /\ file_root_from_piece_hashes sha256 roots piece_length = file_root_from_data sha256 data
    /\ returns (file_root_from_data sha256 data).
Proof.
  intros HL Hlen. destruct (piece_layer_inv _ _ HL) as [HLr ->].
  assert (data <> []) as Hne.
  { intros ->. change (len []) with 0 in Hlen. pose proof (pow2_pos L). unfold MERKLE_BLOCK_SIZE in *. lia. }
  pose proof (pow2_pos L ltac:(lia)) as HLp.
  assert (0 < MERKLE_BLOCK_SIZE * 2 ^ L) as Hpp by (unfold MERKLE_BLOCK_SIZE; lia).
  pose proof (len_block_hashes sha256 data) as Hbl.
  pose proof (div_ceil_spec (len data) MERKLE_BLOCK_SIZE ltac:(done)) as Hdc.
  assert (len (block_hashes sha256 data) <= 2 ^ 35) as Hbd by (unfold MERKLE_BLOCK_SIZE in *; nia).
  assert (2 ^ L < len (block_hashes sha256 data)) as Hmulti by (unfold MERKLE_BLOCK_SIZE in *; nia).
  exists (map (tree sha256 0 (Z.to_nat L)) (chunks (2 ^ L) (block_hashes sha256 data))).
  split_and!.
  - rewrite <- piece_block_hashes by lia. rewrite !map_map.
    apply map_ext_in. intros p Hp.
    pose proof (Forall_chunks (MERKLE_BLOCK_SIZE * 2 ^ L) data Hpp) as Hf.
    rewrite List.Forall_forall in Hf. destruct (Hf p Hp). by apply piece_root_eq.
  - rewrite file_root_eq by done. unfold file_root_from_piece_hashes. rewrite HL.
    unfold mbind, outcome_bind.
    set (hs := block_hashes sha256 data) in *.
    assert (len (map (tree sha256 0 (Z.to_nat L)) (chunks (2 ^ L) hs)) = div_ceil (len hs) (2 ^ L)) as Hlc.
    { unfold len at 1. rewrite length_map. by apply (len_chunks _ hs). }
    pose proof (div_ceil_spec (len hs) (2 ^ L) HLp).
    rewrite root_from_hashes_eq; [|lia| |].
    + f_equal. rewrite Hlc. unfold tree_height. rewrite (log2_up_split (len hs) L) by lia.
      rewrite Z2Nat.inj_add by (lia || apply Z.log2_up_nonneg).
      rewrite Nat.add_comm, <- tree_layers, Z2Nat.id by lia. done.
    + rewrite chunks_cons by (done || by apply block_hashes_nonempty). done.
    + rewrite Hlc. pose proof (pow2_pos (35 - L) ltac:(lia)).
      assert (2 ^ 35 = 2 ^ L * 2 ^ (35 - L)) as Hp35 by (rewrite <- Z.pow_add_r by lia; f_equal; lia).
      rewrite Hp35 in Hbd. clear - Hbd H HLp. nia.
  - by rewrite file_root_eq.
Qed.

Lemma file_root_from_piece_roots_witness :
  let data := replicate (Z.to_nat 40000) 5 in
  piece_layer 16384 = Ok 0 /\ 16384 < len data <= 2 ^ 35 * MERKLE_BLOCK_SIZE /\
  exists roots,
    map (fun p => piece_root_from_data toy_sha256 p 16384) (chunks 16384 data) = map Ok roots
    /\ file_root_from_piece_hashes toy_sha256 roots 16384 = file_root_from_data toy_sha256 data
    /\ returns (file_root_from_data toy_sha256 data).
Proof.
  cbv zeta. split; [done|].
  assert (16384 < len (replicate (Z.to_nat 40000) 5) <= 2 ^ 35 * MERKLE_BLOCK_SIZE) as H.
  { rewrite len_replicate, Z2Nat.id by lia. unfold MERKLE_BLOCK_SIZE. lia. }
  split; [exact H|].
  apply (file_root_from_piece_roots toy_sha256 _ 16384 0); [reflexivity|exact H].
Defined.

(** Proofs are complete.  The siblings the tree has on the way from a
    node that lies inside the leaves to the root pass [verify_proof]: no
    honest proof is rejected, for any layer, index and number of leaves. *)
Theorem verify_proof_complete sha256 (hs : list Sha256Hash) layer index :
  0 < len hs <= MAX_MERKLE_LEAVES -> 0 <= layer <= Z.log2_up (len hs) ->
  0 <= index -> index * 2 ^ layer < len hs ->
  verify_proof sha256 (tree_node sha256 layer index hs) layer index (len hs)
    (tree_proof sha256 (tree_height (len hs) - Z.to_nat layer) layer index hs)
    (tree sha256 0 (tree_height (len hs)) hs) = Ok tt.
Proof. apply verify_proof_accepts. Qed.

Lemma verify_proof_complete_witness :
  let hs := [[1]; [2]; [3]; [4]; [5]] in
  0 < len hs <= MAX_MERKLE_LEAVES /\
  verify_proof toy_sha256 (tree_node toy_sha256 1 2 hs) 1 2 (len hs)
    (tree_proof toy_sha256 2 1 2 hs) (tree toy_sha256 0 3 hs) = Ok tt.
Proof.
  cbv zeta. split; [vm_compute; split; congruence|].
  apply (verify_proof_complete toy_sha256 [[1]; [2]; [3]; [4]; [5]] 1 2);
    vm_compute; repeat split; congruence.
Defined.

(** C1: Proofs are sound, up to collisions of SHA-256.  When [verify_proof]
    accepts a subject against the root of the leaves [hs], the subject is the
    tree's node at that layer and index and the siblings are the tree's;
    otherwise following the proof next
    to the tree yields, explicitly, two different inputs of the pair hash with
    the same digest. *)
Theorem verify_proof_sound sha256 (hs : list Sha256Hash) subject layer index siblings :
  0 < len hs <= MAX_MERKLE_LEAVES -> 0 <= layer -> 0 <= index ->
  verify_proof sha256 subject layer index (len hs) siblings
    (tree sha256 0 (tree_height (len hs)) hs) = Ok tt ->
  index * 2 ^ layer < len hs /\ layer + len siblings = Z.log2_up (len hs) /\
  match last_divergence sha256 layer index subject siblings hs with
  | None => subject = tree_node sha256 layer index hs
            /\ siblings = tree_proof sha256 (length siblings) layer index hs
  | Some d => is_collision sha256 d
  end.
Proof. apply verify_proof_inv. Qed.

Lemma verify_proof_sound_witness :
  let hs := [[1]; [2]; [3]; [4]; [5]] in
  0 < len hs <= MAX_MERKLE_LEAVES /\
  4 * 2 ^ 0 < len hs /\ 0 + 3 = Z.log2_up (len hs) /\
  match last_divergence toy_sha256 0 4 [5] (tree_proof toy_sha256 3 0 4 hs) hs with
  | None => [5] = tree_node toy_sha256 0 4 hs
            /\ tree_proof toy_sha256 3 0 4 hs = tree_proof toy_sha256 3 0 4 hs
  | Some d => is_collision toy_sha256 d
  end.
Proof.
  cbv zeta. split; [vm_compute; split; congruence|].
  apply (verify_proof_sound toy_sha256 [[1]; [2]; [3]; [4]; [5]] [5] 0 4
           (tree_proof toy_sha256 3 0 4 [[1]; [2]; [3]; [4]; [5]]));
    try (vm_compute; repeat split; congruence).
Defined.
