(* ===== verification/V2Hashes.v ===== *)
(** * V2Hashes: the hash exchange values and the authenticated catalog of
    [v2_hashes.rs]

    Hash requests and responses, the geometry of a file's hash tree, the
    validation of a request, and the catalog of authenticated piece roots
    and proof nodes.  SHA-256 is the parameter [sha256]; a [Vec]'s capacity
    is the field [proof_capacity], kept as [try_reserve_exact] leaves it. *)
From S2P Require Import Prelude Bytes Merkle.

Definition MAX_HASH_REQUEST_COUNT : Z := 512.
Definition MAX_HASH_PROOF_LAYERS : Z := MAX_MERKLE_HEIGHT.
Definition MAX_HASHES_PER_RESPONSE : Z := MAX_HASH_REQUEST_COUNT + MAX_HASH_PROOF_LAYERS.
Definition MAX_HASH_RESPONSE_BYTES : Z := MAX_HASHES_PER_RESPONSE * 32.
Definition HASH_REQUEST_PAYLOAD_LENGTH : Z := 32 + 4 * 4.
Definition MAX_HASH_MESSAGE_LENGTH : Z :=
  1 + HASH_REQUEST_PAYLOAD_LENGTH + MAX_HASH_RESPONSE_BYTES.

Definition MAX_AUTHENTICATED_PIECE_ROOTS : Z := 2097152.
Definition MAX_RETAINED_PROOF_NODES : Z := 131072.
Definition MAX_HASH_CATALOG_BYTES : Z := 80 * 1024 * 1024.
Definition PIECE_ROOT_CHUNK : Z := 1024.
(** [size_of::<HashNode>()] and [size_of::<Option<Box<_>>>()]. *)
Definition SIZE_OF_HASH_NODE : Z := 80.
Definition SIZE_OF_OPTION_BOX : Z := 8.

Inductive HashExchangeError :=
| HE_EmptyFile
| HE_InvalidFileGeometry
| HE_UnknownRoot
| HE_UnsupportedBaseLayer
| HE_InvalidCount (count : Z)
| HE_MisalignedIndex
| HE_InvalidProofLayers
| HE_RangeOutOfBounds
| HE_InvalidHashCount (expected actual : Z)
| HE_TooManyResponseHashes (actual maximum : Z)
| HE_InvalidPaddingHash
| HE_BadProof
| HE_ConflictingHash
| HE_HashesUnavailable
| HE_PieceIndexOutOfRange
| HE_TooManyPieceRoots (actual maximum : Z)
| HE_TooManyProofNodes (maximum : Z)
| HE_CatalogResourceLimit (maximum : Z)
| HE_ArithmeticOverflow
| HE_Merkle (error : MerkleError).

Record HashRequest := mkHashRequest {
  hr_pieces_root : Sha256Hash;
  hr_base_layer : Z;
  hr_index : Z;
  hr_count : Z;
  hr_proof_layers : Z;
}.
#[export] Instance HashRequest_eq_dec : EqDecision HashRequest.
Proof. unfold EqDecision, Sha256Hash. solve_decision. Defined.
Record HashResponse := mkHashResponse {
  hs_request : HashRequest;
  hs_hashes : list Sha256Hash;
}.

Definition omitted_proof_layers (r : HashRequest) : Z :=
  saturating_sub (trailing_zeros 32 (hr_count r)) 1.
(** The proof hashes that are not omitted. *)
Definition proof_hash_count (r : HashRequest) : Z :=
  saturating_sub (hr_proof_layers r) (omitted_proof_layers r).
Definition response_hash_count (r : HashRequest) : outcome HashExchangeError Z :=
  ok_or (checked_add USIZE (hr_count r) (proof_hash_count r)) HE_ArithmeticOverflow.

Record V2FileHashGeometry := mkGeometry {
  g_pieces_root : Sha256Hash;
  g_file_length : Z;
  g_piece_length : Z;
  g_first_piece : Z;
  g_piece_count : Z;
}.

Definition V2FileHashGeometry_new (pieces_root : Sha256Hash)
    (file_length piece_length first_piece piece_count : Z)
    : outcome HashExchangeError V2FileHashGeometry :=
  if (file_length =? 0) || (piece_count =? 0) then Err HE_EmptyFile
  else
    map_err HE_Merkle (piece_layer piece_length) ≫= fun _ =>
    if negb (div_ceil file_length piece_length =? piece_count) then Err HE_InvalidFileGeometry
    else
      last ← ok_or (checked_add USIZE first_piece piece_count) HE_ArithmeticOverflow;
      if MAX_AUTHENTICATED_PIECE_ROOTS <? last
      then Err (HE_TooManyPieceRoots last MAX_AUTHENTICATED_PIECE_ROOTS)
      else mret (mkGeometry pieces_root file_length piece_length first_piece piece_count).

Definition g_leaf_count (g : V2FileHashGeometry) : Z := div_ceil (g_file_length g) MERKLE_BLOCK_SIZE.
Definition g_piece_layer (g : V2FileHashGeometry) : outcome HashExchangeError Z :=
  map_err HE_Merkle (piece_layer (g_piece_length g)).

Record ValidatedRange := mkValidated {
  v_base_layer : Z;
  v_subject_layer : Z;
  v_subject_index : Z;
  v_real_base_nodes : Z;
}.

Definition validate_request_range (g : V2FileHashGeometry) (r : HashRequest)
    (allow_count_one : bool) : outcome HashExchangeError ValidatedRange :=
  if negb (bool_decide (hr_pieces_root r = g_pieces_root g)) then Err HE_UnknownRoot
  else if (hr_count r =? 0) || (MAX_HASH_REQUEST_COUNT <? hr_count r)
          || negb (is_power_of_two (hr_count r)) || ((hr_count r =? 1) && negb allow_count_one)
  then Err (HE_InvalidCount (hr_count r))
  else if negb (is_multiple_of (hr_index r) (hr_count r)) then Err HE_MisalignedIndex
  else if MAX_HASH_PROOF_LAYERS <? hr_proof_layers r then Err HE_InvalidProofLayers
  else
    base ← ok_or (u8_try_from (hr_base_layer r)) HE_UnsupportedBaseLayer;
    layer ← g_piece_layer g;
    if negb (base =? 0) && negb (base =? layer) then Err HE_UnsupportedBaseLayer
    else
      shape ← map_err HE_Merkle (MerkleTreeShape_new (g_leaf_count g));
      if height shape <? base then Err HE_UnsupportedBaseLayer
      else
        range_height ← ok_or (u8_try_from (trailing_zeros 32 (hr_count r))) HE_ArithmeticOverflow;
        subject_layer ← ok_or (checked_add 8 base range_height) HE_ArithmeticOverflow;
        if height shape <? subject_layer then Err HE_InvalidProofLayers
        else
          let required_proof_layers :=
            saturating_sub (height shape - base) (Z.b2z (1 <? hr_count r)) in
          if negb (required_proof_layers =? hr_proof_layers r) then Err HE_InvalidProofLayers
          else
            let padded_base_nodes := Z.shiftr (padded_leaf_count shape) base in
            last ← ok_or (checked_add 64 (hr_index r) (hr_count r)) HE_ArithmeticOverflow;
            base_width ← ok_or (checked_shl 64 1 base) HE_ArithmeticOverflow;
            let real_base_nodes := div_ceil (g_leaf_count g) base_width in
            if (padded_base_nodes <? last) || (real_base_nodes <=? hr_index r)
            then Err HE_RangeOutOfBounds
            else mret (mkValidated base subject_layer (hr_index r / hr_count r) real_base_nodes).

Definition validate_request (g : V2FileHashGeometry) (r : HashRequest) (allow_count_one : bool)
    : outcome HashExchangeError unit :=
  validate_request_range g r allow_count_one ≫= fun _ => Ok tt.

(** ** Piece roots: lazily allocated chunks and a presence bitmap *)
Record PieceRoots := mkPieceRoots {
  total : Z;
  root_chunks : list (option (list Sha256Hash));
  known : list Z;
  known_count : Z;
}.

Definition PieceRoots_new (n : Z) : outcome HashExchangeError PieceRoots :=
  if MAX_AUTHENTICATED_PIECE_ROOTS <? n
  then Err (HE_TooManyPieceRoots n MAX_AUTHENTICATED_PIECE_ROOTS)
  else Ok (mkPieceRoots n (replicate (Z.to_nat (div_ceil n PIECE_ROOT_CHUNK)) None)
                        (replicate (Z.to_nat (div_ceil n 64)) 0) 0).

Definition PieceRoots_get (p : PieceRoots) (i : Z) : outcome HashExchangeError (option Sha256Hash) :=
  if total p <=? i then Ok None
  else
    word ← index (known p) (i / 64);
    if Z.land word (Z.shiftl 1 (i mod 64)) =? 0 then Ok None
    else
      chunk ← index (root_chunks p) (i / PIECE_ROOT_CHUNK);
      match chunk with
      | None => Ok None
      | Some chunk => hash ← index chunk (i mod PIECE_ROOT_CHUNK); Ok (Some hash)
      end.

Definition PieceRoots_check (p : PieceRoots) (i : Z) (hash : Sha256Hash)
    : outcome HashExchangeError bool :=
  if total p <=? i then Err HE_PieceIndexOutOfRange
  else
    found ← PieceRoots_get p i;
    match found with
    | Some existing => if negb (bool_decide (existing = hash)) then Err HE_ConflictingHash else Ok false
    | None => Ok true
    end.

(** [Box::new([[0; 32]; PIECE_ROOT_CHUNK])] *)
Definition empty_chunk : list Sha256Hash := replicate (Z.to_nat PIECE_ROOT_CHUNK) (replicate 32 0).
Definition set_new (i : Z) (hash : Sha256Hash) (p : PieceRoots) : outcome HashExchangeError PieceRoots :=
  slot ← index (root_chunks p) (i / PIECE_ROOT_CHUNK);
  let chunk : list Sha256Hash := default empty_chunk slot in
  index chunk (i mod PIECE_ROOT_CHUNK) ≫= fun _ =>
  word ← index (known p) (i / 64);
  mret (mkPieceRoots (total p)
    (<[Z.to_nat (i / PIECE_ROOT_CHUNK) := Some (<[Z.to_nat (i mod PIECE_ROOT_CHUNK) := hash]> chunk)]>
       (root_chunks p))
    (<[Z.to_nat (i / 64) := Z.lor word (Z.shiftl 1 (i mod 64))]> (known p))
    (known_count p + 1)).

Definition allocated_chunk_count (p : PieceRoots) : Z :=
  len (filter (fun c => is_Some c) (root_chunks p)).

Definition PieceRoots_clear (p : PieceRoots) : PieceRoots :=
  mkPieceRoots (total p) (map (fun _ => None) (root_chunks p)) (map (fun _ => 0) (known p)) 0.

(** ** The catalog *)
Record HashNodeKey := mkKey {
  k_pieces_root : Sha256Hash;
  k_layer : Z;
  k_index : Z;
}.
Record HashNode := mkNode { key : HashNodeKey; node : Sha256Hash }.

(** The derived orders: arrays lexicographically, fields in order. *)
Fixpoint list_ltb (a b : list Z) : bool :=
  match a, b with
  | _, [] => false
  | [], _ => true
  | x :: a, y :: b => (x <? y) || ((x =? y) && list_ltb a b)
  end.
Definition key_ltb (a b : HashNodeKey) : bool :=
  list_ltb (k_pieces_root a) (k_pieces_root b)
  || (bool_decide (k_pieces_root a = k_pieces_root b)
      && ((k_layer a <? k_layer b) || ((k_layer a =? k_layer b) && (k_index a <? k_index b)))).

#[export] Instance HashNodeKey_eq_dec : EqDecision HashNodeKey.
Proof. unfold EqDecision. unfold Sha256Hash. solve_decision. Defined.

Record V2HashCatalog := mkCatalog {
  piece_roots : PieceRoots;
  proof_nodes : list HashNode;
  proof_capacity : Z;
}.
Record HashCatalogAccounting := mkAccounting {
  known_piece_roots : Z;
  retained_proof_nodes : Z;
  retained_raw_hash_bytes : Z;
  allocated_bytes : Z;
}.

Definition maximum_catalog_allocation (total_pieces : Z) : outcome HashExchangeError Z :=
  if MAX_AUTHENTICATED_PIECE_ROOTS <? total_pieces
  then Err (HE_TooManyPieceRoots total_pieces MAX_AUTHENTICATED_PIECE_ROOTS)
  else
    ok_or (b ← checked_mul USIZE total_pieces 32;
           b ← checked_add USIZE b (div_ceil total_pieces 64 * 8);
           b ← checked_add USIZE b (div_ceil total_pieces PIECE_ROOT_CHUNK * SIZE_OF_OPTION_BOX);
           checked_add USIZE b (MAX_RETAINED_PROOF_NODES * SIZE_OF_HASH_NODE))
          HE_ArithmeticOverflow.

Definition V2HashCatalog_new (total_pieces : Z) : outcome HashExchangeError V2HashCatalog :=
  p ← PieceRoots_new total_pieces;
  m ← maximum_catalog_allocation total_pieces;
  if MAX_HASH_CATALOG_BYTES <? m then Err (HE_CatalogResourceLimit MAX_HASH_CATALOG_BYTES)
  else mret (mkCatalog p [] 0).

Definition accounting (c : V2HashCatalog) : HashCatalogAccounting :=
  let raw_hashes := saturating_add USIZE (known_count (piece_roots c)) (len (proof_nodes c)) in
  mkAccounting (known_count (piece_roots c)) (len (proof_nodes c))
    (saturating_mul USIZE raw_hashes 32)
    (saturating_add USIZE
       (saturating_add USIZE
          (saturating_add USIZE
             (saturating_mul USIZE (allocated_chunk_count (piece_roots c)) (PIECE_ROOT_CHUNK * 32))
             (len (known (piece_roots c)) * 8))
          (len (root_chunks (piece_roots c)) * SIZE_OF_OPTION_BOX))
       (proof_capacity c * SIZE_OF_HASH_NODE)).

Definition release (c : V2HashCatalog) : V2HashCatalog :=
  mkCatalog (PieceRoots_clear (piece_roots c)) [] 0.

(** [binary_search_by_key] on the sorted nodes: the position of the key, or
    the position where it belongs. *)
Fixpoint search (k : HashNodeKey) (l : list HashNode) (i : Z) : Z + Z :=
  match l with
  | [] => inr i
  | n :: r => if key_ltb (key n) k then search k r (i + 1)
              else if bool_decide (key n = k) then inl i else inr i
  end.
Definition find_node (c : V2HashCatalog) (k : HashNodeKey) : outcome HashExchangeError (option Sha256Hash) :=
  match search k (proof_nodes c) 0 with
  | inl i => n ← index (proof_nodes c) i; Ok (Some (node n))
  | inr _ => Ok None
  end.
Definition check_node (c : V2HashCatalog) (k : HashNodeKey) (hash : Sha256Hash)
    : outcome HashExchangeError bool :=
  found ← find_node c k;
  match found with
  | Some existing => if negb (bool_decide (existing = hash)) then Err HE_ConflictingHash else Ok false
  | None => Ok true
  end.
(** [Vec::insert]. *)
Definition vec_insert {A} (i : Z) (x : A) (l : list A) : list A :=
  take (Z.to_nat i) l ++ x :: drop (Z.to_nat i) l.
Definition insert_node (c : V2HashCatalog) (k : HashNodeKey) (hash : Sha256Hash)
    : outcome HashExchangeError V2HashCatalog :=
  match search k (proof_nodes c) 0 with
  | inl _ => Panic
  | inr i => Ok (mkCatalog (piece_roots c) (vec_insert i (mkNode k hash) (proof_nodes c))
                           (Z.max (proof_capacity c) (len (proof_nodes c) + 1)))
  end.

Definition piece_root (c : V2HashCatalog) (piece : Z) : outcome HashExchangeError (option Sha256Hash) :=
  PieceRoots_get (piece_roots c) piece.
Definition leaf_hash (c : V2HashCatalog) (root : Sha256Hash) (i : Z)
    : outcome HashExchangeError (option Sha256Hash) :=
  find_node c (mkKey root 0 i).

Definition with_roots (f : PieceRoots -> outcome HashExchangeError PieceRoots)
    : M V2HashCatalog HashExchangeError unit := fun c =>
  match f (piece_roots c) with
  | Ok p => (mkCatalog p (proof_nodes c) (proof_capacity c), Ok tt)
  | Err e => (c, Err e)
  | Panic => (c, Panic)
  | NoFuel => (c, NoFuel)
  end.
Definition with_catalog (f : V2HashCatalog -> outcome HashExchangeError V2HashCatalog)
    : M V2HashCatalog HashExchangeError unit := fun c =>
  match f c with
  | Ok c' => (c', Ok tt)
  | Err e => (c, Err e)
  | Panic => (c, Panic)
  | NoFuel => (c, NoFuel)
  end.

(** [for (offset, hash) in hashes.iter().enumerate()], checking. *)
Fixpoint check_roots (p : PieceRoots) (first : Z) (hashes : list Sha256Hash)
    : outcome HashExchangeError unit :=
  match hashes with
  | [] => Ok tt
  | h :: r => PieceRoots_check p first h ≫= fun _ => check_roots p (first + 1) r
  end.
(** The same loop, storing what is not known yet. *)
Fixpoint store_roots (first : Z) (hashes : list Sha256Hash) : M V2HashCatalog HashExchangeError unit :=
  match hashes with
  | [] => mret tt
  | h :: r =>
    c ← get;
    found ← lift (PieceRoots_get (piece_roots c) first);
    (if bool_decide (found = None) then with_roots (set_new first h) else mret tt);;
    store_roots (first + 1) r
  end.

Section sha256.
Variable sha256 : list Z -> Sha256Hash.

Definition seed_complete_piece_layer (g : V2FileHashGeometry) (hashes : list Sha256Hash)
    : M V2HashCatalog HashExchangeError unit :=
  if negb (len hashes =? g_piece_count g)
  then fail (HE_InvalidHashCount (g_piece_count g) (len hashes))
  else
    root ← lift (map_err HE_Merkle (file_root_from_piece_hashes sha256 hashes (g_piece_length g)));
    if negb (bool_decide (root = g_pieces_root g)) then fail HE_BadProof
    else
      c ← get;
      lift (check_roots (piece_roots c) (g_first_piece g) hashes);;
      store_roots (g_first_piece g) hashes.

(** The hashes of a range that lie beyond the real nodes are padding. *)
Fixpoint check_padding (v : ValidatedRange) (i : Z) (hashes : list Sha256Hash)
    : outcome HashExchangeError unit :=
  match hashes with
  | [] => Ok tt
  | h :: r =>
    (if v_real_base_nodes v <=? i
     then z ← map_err HE_Merkle (zero_hash sha256 (v_base_layer v));
          if negb (bool_decide (h = z)) then Err HE_InvalidPaddingHash else Ok tt
     else Ok tt) ≫= fun _ =>
    check_padding v (i + 1) r
  end.

(** Which base hashes are new: piece roots and nodes. *)
Fixpoint base_inserts_of (c : V2HashCatalog) (g : V2FileHashGeometry) (v : ValidatedRange)
    (i : Z) (hashes : list Sha256Hash)
    : outcome HashExchangeError (list (Z * Sha256Hash) * list (HashNodeKey * Sha256Hash)) :=
  match hashes with
  | [] => Ok ([], [])
  | h :: r =>
    if v_real_base_nodes v <=? i then base_inserts_of c g v (i + 1) r
    else
      layer ← g_piece_layer g;
      if v_base_layer v =? layer then
        fresh ← PieceRoots_check (piece_roots c) (g_first_piece g + i) h;
        '(roots, nodes) ← base_inserts_of c g v (i + 1) r;
        Ok (if fresh : bool then (g_first_piece g + i, h) :: roots else roots, nodes)
      else
        let k := mkKey (g_pieces_root g) (v_base_layer v) i in
        fresh ← check_node c k h;
        '(roots, nodes) ← base_inserts_of c g v (i + 1) r;
        Ok (roots, if fresh : bool then (k, h) :: nodes else nodes)
  end.

(** [for (layer, hash) in (validated.subject_layer..).zip(proof)] *)
Fixpoint proof_inserts_of (c : V2HashCatalog) (root : Sha256Hash) (layer proof_index : Z)
    (proof : list Sha256Hash) : outcome HashExchangeError (list (HashNodeKey * Sha256Hash)) :=
  match proof with
  | [] => Ok []
  | h :: r =>
    let k := mkKey root layer (Z.lxor proof_index 1) in
    fresh ← check_node c k h;
    nodes ← proof_inserts_of c root (layer + 1) (Z.shiftr proof_index 1) r;
    Ok (if fresh : bool then (k, h) :: nodes else nodes)
  end.

Fixpoint apply_roots (l : list (Z * Sha256Hash)) : M V2HashCatalog HashExchangeError unit :=
  match l with
  | [] => mret tt
  | (i, h) :: r => with_roots (set_new i h);; apply_roots r
  end.
Fixpoint apply_nodes (l : list (HashNodeKey * Sha256Hash)) : M V2HashCatalog HashExchangeError unit :=
  match l with
  | [] => mret tt
  | (k, h) :: r => with_catalog (fun c => insert_node c k h);; apply_nodes r
  end.

(** What [insert_response] checks before it changes anything. *)
Definition authenticate_response (g : V2FileHashGeometry) (response : HashResponse)
    : outcome HashExchangeError (ValidatedRange * list Sha256Hash * list Sha256Hash) :=
  let request := hs_request response in
  v ← validate_request_range g request false;
  expected ← response_hash_count request;
  if negb (len (hs_hashes response) =? expected)
  then Err (HE_InvalidHashCount expected (len (hs_hashes response)))
  else if MAX_HASHES_PER_RESPONSE <? len (hs_hashes response)
  then Err (HE_TooManyResponseHashes (len (hs_hashes response)) MAX_HASHES_PER_RESPONSE)
  else
    base_hashes ← slice (hs_hashes response) 0 (hr_count request);
    check_padding v (hr_index request) base_hashes ≫= fun _ =>
    accumulator ← map_err HE_Merkle (accumulate (v_base_layer v) (push_all sha256 base_hashes));
    subject ← map_err HE_Merkle (finish sha256 accumulator);
    let proof := skip (hs_hashes response) (hr_count request) in
    map_err (fun _ => HE_BadProof)
      (verify_proof sha256 subject (v_subject_layer v) (v_subject_index v) (g_leaf_count g) proof
                    (g_pieces_root g)) ≫= fun _ =>
    mret (v, base_hashes, proof).

Definition insert_response (g : V2FileHashGeometry) (response : HashResponse)
    : M V2HashCatalog HashExchangeError Z :=
  '(v, base_hashes, proof) ← lift (authenticate_response g response);
  c ← get;
  '(base_inserts, base_node_inserts) ←
    lift (base_inserts_of c g v (hr_index (hs_request response)) base_hashes);
  proof_inserts ← lift (proof_inserts_of c (g_pieces_root g) (v_subject_layer v) (v_subject_index v) proof);
  let new_node_count := saturating_add USIZE (len base_node_inserts) (len proof_inserts) in
  if MAX_RETAINED_PROOF_NODES <? saturating_add USIZE (len (proof_nodes c)) new_node_count
  then fail (HE_TooManyProofNodes MAX_RETAINED_PROOF_NODES)
  else
    put (mkCatalog (piece_roots c) (proof_nodes c)
                   (Z.max (proof_capacity c) (len (proof_nodes c) + new_node_count)));;
    apply_roots base_inserts;;
    apply_nodes base_node_inserts;;
    apply_nodes proof_inserts;;
    c ← get;
    if MAX_HASH_CATALOG_BYTES <? allocated_bytes (accounting c)
    then fail (HE_CatalogResourceLimit MAX_HASH_CATALOG_BYTES)
    else mret (len base_inserts).

(** The recursion goes down from [layer] to the piece layer. *)
Fixpoint node_hash (fuel : nat) (c : V2HashCatalog) (g : V2FileHashGeometry) (layer i : Z)
    : outcome HashExchangeError Sha256Hash :=
  match fuel with
  | O => NoFuel
  | S f =>
    width ← ok_or (checked_shl 64 1 layer) HE_ArithmeticOverflow;
    start ← ok_or (checked_mul 64 i width) HE_ArithmeticOverflow;
    if g_leaf_count g <=? start then map_err HE_Merkle (zero_hash sha256 layer)
    else
      bottom ← g_piece_layer g;
      if layer =? bottom then
        found ← PieceRoots_get (piece_roots c) (g_first_piece g + i);
        ok_or found HE_HashesUnavailable
      else if bottom <? layer then
        left_child ← ok_or (checked_mul 64 i 2) HE_ArithmeticOverflow;
        right_child ← ok_or (checked_add 64 left_child 1) HE_ArithmeticOverflow;
        l ← node_hash f c g (layer - 1) left_child;
        r ← node_hash f c g (layer - 1) right_child;
        mret (hash_pair sha256 l r)
      else
        found ← find_node c (mkKey (g_pieces_root g) layer i);
        ok_or found HE_HashesUnavailable
  end.
Definition NODE_FUEL : nat := 256.

(** [for offset in 0..request.count] *)
Fixpoint base_hashes_of (n : nat) (f : Z -> outcome HashExchangeError Sha256Hash) (i : Z)
    : outcome HashExchangeError (list Sha256Hash) :=
  match n with
  | O => Ok []
  | S m => h ← f i; r ← base_hashes_of m f (i + 1); Ok (h :: r)
  end.
(** [for layer in validated.subject_layer..validated.subject_layer + n] *)
Fixpoint proof_hashes_of (n : nat) (f : Z -> Z -> outcome HashExchangeError Sha256Hash)
    (layer proof_index : Z) : outcome HashExchangeError (list Sha256Hash) :=
  match n with
  | O => Ok []
  | S m =>
    h ← f layer (Z.lxor proof_index 1);
    r ← proof_hashes_of m f (layer + 1) (Z.shiftr proof_index 1);
    Ok (h :: r)
  end.

Definition response_for (c : V2HashCatalog) (g : V2FileHashGeometry) (r : HashRequest)
    (allow_count_one : bool) : outcome HashExchangeError HashResponse :=
  v ← validate_request_range g r allow_count_one;
  response_hash_count r ≫= fun _ =>
  base ← base_hashes_of (Z.to_nat (hr_count r)) (node_hash NODE_FUEL c g (v_base_layer v)) (hr_index r);
  proof ← proof_hashes_of (Z.to_nat (proof_hash_count r))
    (fun layer sibling =>
       sibling_start ← ok_or (checked_shl 64 sibling layer) HE_ArithmeticOverflow;
       if g_leaf_count g <=? sibling_start then map_err HE_Merkle (zero_hash sha256 layer)
       else node_hash NODE_FUEL c g layer sibling)
    (v_subject_layer v) (v_subject_index v);
  mret (mkHashResponse r (base ++ proof)).

(** A node above leaves supplied from local data. *)
Fixpoint supplied_node_hash (fuel : nat) (g : V2FileHashGeometry) (supplied_leaf_start : Z)
    (supplied_leaves : list Sha256Hash) (layer i : Z) : outcome HashExchangeError Sha256Hash :=
  match fuel with
  | O => NoFuel
  | S f =>
    width ← ok_or (checked_shl 64 1 layer) HE_ArithmeticOverflow;
    start ← ok_or (checked_mul 64 i width) HE_ArithmeticOverflow;
    if g_leaf_count g <=? start then map_err HE_Merkle (zero_hash sha256 layer)
    else
      supplied_end ← ok_or (checked_add 64 supplied_leaf_start (len supplied_leaves)) HE_ArithmeticOverflow;
      node_end ← ok_or (checked_add 64 start width) HE_ArithmeticOverflow;
      let node_end := Z.min node_end (g_leaf_count g) in
      if (start <? supplied_leaf_start) || (supplied_end <? node_end) then Err HE_HashesUnavailable
      else if layer =? 0 then
        ok_or (nth_get supplied_leaves (start - supplied_leaf_start)) HE_HashesUnavailable
      else
        left_child ← ok_or (checked_mul 64 i 2) HE_ArithmeticOverflow;
        l ← supplied_node_hash f g supplied_leaf_start supplied_leaves (layer - 1) left_child;
        r ← supplied_node_hash f g supplied_leaf_start supplied_leaves (layer - 1) (left_child + 1);
        mret (hash_pair sha256 l r)
  end.

(** [for local_piece in first_piece..last_piece]: every supplied piece must
    have the authenticated root. *)
Fixpoint check_supplied_pieces (n : nat) (c : V2HashCatalog) (g : V2FileHashGeometry)
    (layer leaves_per_piece supplied_leaf_start supplied_end : Z) (supplied_leaves : list Sha256Hash)
    (local_piece : Z) : outcome HashExchangeError unit :=
  match n with
  | O => Ok tt
  | S m =>
    piece_start ← ok_or (checked_mul 64 local_piece leaves_per_piece) HE_ArithmeticOverflow;
    if g_leaf_count g <=? piece_start then Ok tt
    else
      piece_end ← ok_or (checked_add 64 piece_start leaves_per_piece) HE_ArithmeticOverflow;
      let real_end := Z.min piece_end (g_leaf_count g) in
      if (piece_start <? supplied_leaf_start) || (supplied_end <? real_end)
      then Err HE_HashesUnavailable
      else
        leaves ← slice supplied_leaves (piece_start - supplied_leaf_start) (real_end - supplied_leaf_start);
        accumulator ← map_err HE_Merkle (accumulate 0 (push_all sha256 leaves));
        actual ← map_err HE_Merkle (finish_padded_to sha256 accumulator layer);
        global_piece ← ok_or (checked_add 64 (g_first_piece g) local_piece) HE_ArithmeticOverflow;
        found ← PieceRoots_get (piece_roots c) global_piece;
        if negb (bool_decide (found = Some actual)) then Err HE_BadProof
        else check_supplied_pieces m c g layer leaves_per_piece supplied_leaf_start supplied_end
               supplied_leaves (local_piece + 1)
  end.

Definition response_from_authenticated_leaves (c : V2HashCatalog) (g : V2FileHashGeometry)
    (r : HashRequest) (supplied_leaf_start : Z) (supplied_leaves : list Sha256Hash)
    (allow_count_one : bool) : outcome HashExchangeError HashResponse :=
  v ← validate_request_range g r allow_count_one;
  if negb (v_base_layer v =? 0) then Err HE_UnsupportedBaseLayer
  else
    layer ← g_piece_layer g;
    leaves_per_piece ← ok_or (checked_shl 64 1 layer) HE_ArithmeticOverflow;
    if negb (is_multiple_of supplied_leaf_start leaves_per_piece) then Err HE_MisalignedIndex
    else
      supplied_end ← ok_or (checked_add 64 supplied_leaf_start (len supplied_leaves)) HE_ArithmeticOverflow;
      request_end ← ok_or (checked_add 64 (hr_index r) (hr_count r)) HE_ArithmeticOverflow;
      if (hr_index r <? supplied_leaf_start) || (supplied_end <? request_end)
      then Err HE_HashesUnavailable
      else
        let first_piece := supplied_leaf_start / leaves_per_piece in
        let last_piece := div_ceil supplied_end leaves_per_piece in
        check_supplied_pieces (Z.to_nat (last_piece - first_piece)) c g layer leaves_per_piece
          supplied_leaf_start supplied_end supplied_leaves first_piece ≫= fun _ =>
        let supplied_node := supplied_node_hash NODE_FUEL g supplied_leaf_start supplied_leaves in
        response_hash_count r ≫= fun _ =>
        base ← base_hashes_of (Z.to_nat (hr_count r)) (supplied_node 0) (hr_index r);
        proof ← proof_hashes_of (Z.to_nat (proof_hash_count r))
          (fun l sibling => if l <? layer then supplied_node l sibling
                            else node_hash NODE_FUEL c g l sibling)
          (v_subject_layer v) (v_subject_index v);
        mret (mkHashResponse r (base ++ proof)).
End sha256.

(** ** Specification *)

(** The nodes are strictly sorted by key. *)
Fixpoint sorted_nodes (l : list HashNode) : Prop :=
  match l with
  | [] => True
  | n :: r => Forall (fun m => key_ltb (key n) (key m) = true) r /\ sorted_nodes r
  end.
(** The node a key has. *)
Definition node_at (l : list HashNode) (k : HashNodeKey) : option Sha256Hash :=
  match List.find (fun n => bool_decide (key n = k)) l with Some n => Some (node n) | None => None end.

(** The bit of a piece in the presence bitmap. *)
Definition known_bit (p : PieceRoots) (i : Z) : bool :=
  match nth_get (known p) (i / 64) with Some w => Z.testbit w (i mod 64) | None => false end.
Definition root_at (p : PieceRoots) (i : Z) : option Sha256Hash :=
  match PieceRoots_get p i with Ok o => o | _ => None end.

Record roots_ok (p : PieceRoots) : Prop := {
  ro_total : 0 <= total p <= MAX_AUTHENTICATED_PIECE_ROOTS;
  ro_chunks : len (root_chunks p) = div_ceil (total p) PIECE_ROOT_CHUNK;
  ro_known : len (known p) = div_ceil (total p) 64;
  ro_full : Forall (fun c => forall l, c = Some l -> len l = PIECE_ROOT_CHUNK) (root_chunks p);
  ro_alloc : forall i, 0 <= i < total p -> known_bit p i = true ->
             exists l, nth_get (root_chunks p) (i / PIECE_ROOT_CHUNK) = Some (Some l);
}.
Record catalog_ok (c : V2HashCatalog) : Prop := {
  co_roots : roots_ok (piece_roots c);
  co_sorted : sorted_nodes (proof_nodes c);
  co_len : len (proof_nodes c) <= proof_capacity c;
  co_capacity : proof_capacity c <= MAX_RETAINED_PROOF_NODES;
}.

(** An entry chosen for the piece roots, or for the nodes, when the hashes
    start at base index [i]. *)
Definition root_insert (c : V2HashCatalog) (g : V2FileHashGeometry) (v : ValidatedRange) (i : Z)
    (hashes : list Sha256Hash) (e : Z * Sha256Hash) : Prop :=
  0 <= e.1 < total (piece_roots c) /\ g_piece_layer g = Ok (v_base_layer v) /\
  exists j, e.1 = g_first_piece g + i + j /\ nth_get hashes j = Some e.2 /\ i + j < v_real_base_nodes v.
Definition node_insert (c : V2HashCatalog) (g : V2FileHashGeometry) (v : ValidatedRange) (i : Z)
    (hashes : list Sha256Hash) (e : HashNodeKey * Sha256Hash) : Prop :=
  node_at (proof_nodes c) e.1 = None /\
  exists j, e.1 = mkKey (g_pieces_root g) (v_base_layer v) (i + j)
            /\ nth_get hashes j = Some e.2 /\ i + j < v_real_base_nodes v.
Definition base_inserts_spec (c : V2HashCatalog) (g : V2FileHashGeometry) (v : ValidatedRange) (i : Z)
    (hashes : list Sha256Hash) (out : list (Z * Sha256Hash) * list (HashNodeKey * Sha256Hash)) : Prop :=
  Forall (root_insert c g v i hashes) out.1 /\ Forall (node_insert c g v i hashes) out.2
  /\ NoDup out.2.*1.

(** The fields of a value of the Rust types. *)
Record request_typed (r : HashRequest) : Prop := {
  rt_base : is_u 32 (hr_base_layer r);
  rt_index : is_u 32 (hr_index r);
  rt_count : is_u 32 (hr_count r);
  rt_proof : is_u 32 (hr_proof_layers r);
}.
Record geometry_typed (g : V2FileHashGeometry) : Prop := {
  gt_length : is_u 64 (g_file_length g);
  gt_piece_length : is_u 32 (g_piece_length g);
  gt_first : is_u 32 (g_first_piece g);
  gt_count : is_u 32 (g_piece_count g);
}.

(** ** Authenticity: the specification of the catalog *)
Section authentic.
Variable sha256 : list Z -> Sha256Hash.

(** The nodes of a layer of the tree over the leaves [hs]. *)
Fixpoint node_row (layer i : Z) (n : nat) (hs : list Sha256Hash) : list Sha256Hash :=
  match n with
  | O => []
  | S m => tree_node sha256 layer i hs :: node_row layer (i + 1) m hs
  end.

(** Everything the catalog knows about the file is in the tree of its
    leaves [hs]. *)
Definition authentic (c : V2HashCatalog) (g : V2FileHashGeometry) (hs : list Sha256Hash) : Prop :=
  (forall L i hash, g_piece_layer g = Ok L -> 0 <= i -> i * 2 ^ L < g_leaf_count g ->
     root_at (piece_roots c) (g_first_piece g + i) = Some hash -> hash = tree_node sha256 L i hs)
  /\ (forall layer i hash, 0 <= layer -> 0 <= i ->
     node_at (proof_nodes c) (mkKey (g_pieces_root g) layer i) = Some hash ->
     hash = tree_node sha256 layer i hs).

(** The leaves belong to the file. *)
Definition file_leaves (g : V2FileHashGeometry) (hs : list Sha256Hash) : Prop :=
  len hs = g_leaf_count g /\ g_pieces_root g = tree sha256 0 (tree_height (len hs)) hs.

(** Two trees of one root: the first pairs of children, from the top, that
    differ. *)
Fixpoint tree_divergence (b h : nat) (xs ys : list Sha256Hash)
    : option ((Sha256Hash * Sha256Hash) * (Sha256Hash * Sha256Hash)) :=
  match h with
  | O => None
  | S h' =>
    let cx := (tree sha256 b h' xs, tree sha256 b h' (drop (2 ^ h') xs)) in
    let cy := (tree sha256 b h' ys, tree sha256 b h' (drop (2 ^ h') ys)) in
    if bool_decide (cx = cy) then
      match tree_divergence b h' xs ys with
      | Some d => Some d
      | None => tree_divergence b h' (drop (2 ^ h') xs) (drop (2 ^ h') ys)
      end
    else Some (cx, cy)
  end.

(** Where a response leaves the tree of the leaves. *)
Definition response_divergence (g : V2FileHashGeometry) (resp : HashResponse) (hs : list Sha256Hash)
    : option ((Sha256Hash * Sha256Hash) * (Sha256Hash * Sha256Hash)) :=
  match authenticate_response sha256 g resp with
  | Ok (v, base, proof) =>
    let k := Z.log2_up (hr_count (hs_request resp)) in
    match last_divergence sha256 (v_subject_layer v) (v_subject_index v)
            (tree sha256 (Z.to_nat (v_base_layer v)) (Z.to_nat k) base) proof hs with
    | Some d => Some d
    | None => tree_divergence (Z.to_nat (v_base_layer v)) (Z.to_nat k) base
                (node_row (v_base_layer v) (hr_index (hs_request resp)) (2 ^ Z.to_nat k) hs)
    end
  | _ => None
  end.
End authentic.

(** * Lemmas *)

(** ** The order of the keys *)
Lemma list_ltb_irrefl a : list_ltb a a = false.
Proof. induction a as [|x a IH]; [done|]. cbn. rewrite Z.ltb_irrefl, Z.eqb_refl. done. Qed.
Lemma list_ltb_trans a b c : list_ltb a b = true -> list_ltb b c = true -> list_ltb a c = true.
Proof.
  revert a c. induction b as [|y b IH]; intros a c Hab Hbc; [by destruct a|].
  destruct c as [|z c]; [done|]. destruct a as [|x a]; [done|]. cbn in *.
  specialize (IH a c).
  destruct (Z.ltb_spec x y), (Z.ltb_spec y z), (Z.ltb_spec x z); cbn in *; try done; try lia;
    destruct (Z.eqb_spec x y), (Z.eqb_spec y z), (Z.eqb_spec x z); cbn in *; try done; try lia; auto.
Qed.
Lemma list_ltb_total a b : list_ltb a b = true \/ a = b \/ list_ltb b a = true.
Proof.
  revert b. induction a as [|x a IH]; intros [|y b]; cbn; auto.
  destruct (Z.ltb_spec x y), (Z.ltb_spec y x); cbn; auto.
  assert (x = y) as -> by lia. rewrite Z.eqb_refl. cbn. destruct (IH b) as [?|[->|?]]; auto.
Qed.
Lemma key_ltb_irrefl k : key_ltb k k = false.
Proof. unfold key_ltb. rewrite list_ltb_irrefl, !Z.ltb_irrefl, Z.eqb_refl. cbn. by rewrite andb_false_r. Qed.
Lemma key_ltb_trans a b c : key_ltb a b = true -> key_ltb b c = true -> key_ltb a c = true.
Proof.
  unfold key_ltb. rewrite !orb_true_iff, !andb_true_iff, !bool_decide_eq_true.
  intros [H1|[E1 H1]] [H2|[E2 H2]].
  - left. by eapply list_ltb_trans.
  - left. by rewrite <- E2.
  - left. by rewrite E1.
  - right. split; [congruence|]. lia.
Qed.
Lemma key_ltb_total a b : key_ltb a b = true \/ a = b \/ key_ltb b a = true.
Proof.
  destruct a as [r1 l1 i1], b as [r2 l2 i2]. unfold key_ltb. cbn.
  destruct (list_ltb_total r1 r2) as [H|[->|H]]; rewrite ?H; auto.
  - rewrite !list_ltb_irrefl, !bool_decide_true by done. cbn.
    destruct (Z.lt_trichotomy l1 l2) as [?|[->|?]]; [left; lia| |right; right; lia].
    destruct (Z.lt_trichotomy i1 i2) as [?|[->|?]]; [left; lia|auto|right; right; lia].
Qed.

(** ** Searching and inserting nodes *)
Lemma node_at_None_iff l k : node_at l k = None <-> Forall (fun n => key n <> k) l.
Proof.
  unfold node_at. induction l as [|n r IH]; cbn; [by split|].
  case_bool_decide as E.
  - split; [done|]. by intros [H _]%Forall_cons_1.
  - rewrite IH. split; [intros; by constructor|by intros [_ H]%Forall_cons_1].
Qed.
Lemma sorted_above n r : sorted_nodes (n :: r) -> Forall (fun m => key m <> key n) r.
Proof.
  intros [H _]. eapply Forall_impl; [exact H|]. cbn. intros m Hm Heq. rewrite Heq, key_ltb_irrefl in Hm. done.
Qed.

(** The search finds the key, or the place that keeps the order. *)
Lemma search_ok k l : forall i, sorted_nodes l ->
  match search k l i with
  | inl j => exists n, nth_get l (j - i) = Some n /\ node_at l k = Some (node n) /\ i <= j
  | inr j => node_at l k = None /\ i <= j <= i + len l
             /\ Forall (fun n => key_ltb (key n) k = true) (take (Z.to_nat (j - i)) l)
             /\ Forall (fun n => key_ltb k (key n) = true) (drop (Z.to_nat (j - i)) l)
  end.
Proof.
  induction l as [|n r IH]; intros i Hs; cbn [search].
  - rewrite take_nil, drop_nil. change (len (@nil HashNode)) with 0. split_and!; [done|lia|lia|done|done].
  - destruct Hs as [Hn Hs].
    destruct (key_ltb (key n) k) eqn:Hlt.
    + specialize (IH (i + 1) Hs).
      assert (key n <> k) as Hne by (intros <-; by rewrite key_ltb_irrefl in Hlt).
      assert (node_at (n :: r) k = node_at r k) as Hna.
      { unfold node_at. cbn. by rewrite bool_decide_false. }
      destruct (search k r (i + 1)) as [j|j]; rewrite Hna.
      * destruct IH as (m & Hm & Ha & Hj). exists m. split_and!; [|done|lia].
        rewrite nth_get_lookup in * by lia.
        replace (Z.to_nat (j - i)) with (S (Z.to_nat (j - (i + 1)))) by lia. done.
      * destruct IH as (Ha & Hj & Ht & Hd). rewrite len_cons.
        replace (Z.to_nat (j - i)) with (S (Z.to_nat (j - (i + 1)))) by lia.
        split_and!; [done|lia|lia|by constructor|done].
    + case_bool_decide as E.
      * exists n. rewrite Z.sub_diag. split_and!; [done| |lia]. unfold node_at. cbn. by rewrite bool_decide_true.
      * assert (key_ltb k (key n) = true) as Hgt.
        { destruct (key_ltb_total (key n) k) as [H|[H|H]]; congruence. }
        assert (Forall (fun m => key_ltb k (key m) = true) (n :: r)) as Hall.
        { constructor; [done|]. eapply Forall_impl; [exact Hn|]. cbn. intros m. by apply key_ltb_trans. }
        rewrite Z.sub_diag. change (Z.to_nat 0) with 0%nat. cbn [take drop].
        rewrite len_cons. pose proof (len_nonneg r).
        split_and!; [|lia|lia|done|done].
        apply node_at_None_iff. eapply Forall_impl; [exact Hall|]. cbn.
        intros m Hm Heq. rewrite Heq, key_ltb_irrefl in Hm. done.
Qed.

Lemma sorted_insert l1 l2 n :
  sorted_nodes (l1 ++ l2) -> Forall (fun m => key_ltb (key m) (key n) = true) l1 ->
  Forall (fun m => key_ltb (key n) (key m) = true) l2 -> sorted_nodes (l1 ++ n :: l2).
Proof.
  induction l1 as [|m l1 IH]; cbn [app sorted_nodes]; intros Hs H1 H2.
  - by split.
  - apply Forall_cons_1 in H1 as [Hm H1]. destruct Hs as [Ha Hs]. split; [|by apply IH].
    apply Forall_app in Ha as [Ha1 Ha2]. apply Forall_app. split; [done|].
    constructor; [done|done].
Qed.
Lemma node_at_app l1 l2 k :
  node_at (l1 ++ l2) k = match node_at l1 k with Some h => Some h | None => node_at l2 k end.
Proof. unfold node_at. induction l1 as [|n l1 IH]; cbn; [done|]. by case_bool_decide. Qed.

Lemma find_node_ok c k : sorted_nodes (proof_nodes c) -> find_node c k = Ok (node_at (proof_nodes c) k).
Proof.
  intros Hs. unfold find_node. pose proof (search_ok k (proof_nodes c) 0 Hs) as H.
  destruct (search k (proof_nodes c) 0) as [j|j].
  - destruct H as (n & Hn & -> & _). rewrite Z.sub_0_r in Hn.
    unfold Prelude.index. rewrite Hn. done.
  - by destruct H as (-> & _).
Qed.
Lemma check_node_ok c k h : sorted_nodes (proof_nodes c) ->
  check_node c k h = match node_at (proof_nodes c) k with
                     | Some e => if bool_decide (e = h) then Ok false else Err HE_ConflictingHash
                     | None => Ok true
                     end.
Proof.
  intros Hs. unfold check_node. rewrite find_node_ok by done. unfold mbind, outcome_bind.
  destruct (node_at (proof_nodes c) k); [|done]. by case_bool_decide.
Qed.

Lemma insert_node_ok c k h : sorted_nodes (proof_nodes c) -> node_at (proof_nodes c) k = None ->
  exists l, insert_node c k h
            = Ok (mkCatalog (piece_roots c) l (Z.max (proof_capacity c) (len (proof_nodes c) + 1)))
    /\ sorted_nodes l /\ len l = len (proof_nodes c) + 1
    /\ forall k', node_at l k' = if bool_decide (k' = k) then Some h else node_at (proof_nodes c) k'.
Proof.
  intros Hs Hn. unfold insert_node. pose proof (search_ok k (proof_nodes c) 0 Hs) as H.
  destruct (search k (proof_nodes c) 0) as [j|j].
  { destruct H as (n & _ & Ha & _). congruence. }
  destruct H as (_ & Hj & Ht & Hd). rewrite Z.sub_0_r in *.
  eexists. split; [done|].
  unfold vec_insert. set (l1 := take (Z.to_nat j) (proof_nodes c)) in *.
  set (l2 := drop (Z.to_nat j) (proof_nodes c)) in *.
  assert (proof_nodes c = l1 ++ l2) as Hsplit by (symmetry; apply take_drop).
  split_and!.
  - apply sorted_insert; [by rewrite <- Hsplit|done|done].
  - rewrite Hsplit. len_lia.
  - intros k'. rewrite Hsplit, !node_at_app. unfold node_at at 2. cbn [List.find key].
    rewrite Hsplit, node_at_app in Hn.
    case_bool_decide as E; case_bool_decide as E'; subst; try congruence;
      by destruct (node_at l1 k').
Qed.

(** ** Piece roots *)

Lemma Forall_nth_get {A} (P : A -> Prop) l i x : Forall P l -> nth_get l i = Some x -> P x.
Proof. unfold nth_get. destruct (0 <=? i); [|done]. intros H E. by eapply Forall_lookup_1. Qed.

(** What a lookup returns. *)
Lemma get_ok p i : roots_ok p -> 0 <= i ->
  PieceRoots_get p i = Ok (root_at p i)
  /\ (root_at p i <> None <-> i < total p /\ known_bit p i = true).
Proof.
  intros [Ht Hc Hk Hf Ha] Hi. unfold root_at, PieceRoots_get.
  destruct (Z.leb_spec (total p) i). { split; [done|]. split; [done|lia]. }
  destruct (nth_get_is_Some (known p) (i / 64)) as [w Hw].
  { rewrite Hk. apply div_lt_ceil; lia. }
  destruct (nth_get_is_Some (root_chunks p) (i / PIECE_ROOT_CHUNK)) as [ch Hch].
  { rewrite Hc. apply div_lt_ceil; unfold PIECE_ROOT_CHUNK; lia. }
  unfold known_bit. unfold Prelude.index, mbind, outcome_bind. rewrite Hw. cbn [expect].
  pose proof (Z.mod_pos_bound i 64 ltac:(lia)).
  rewrite land_bit by lia. destruct (Z.testbit w (i mod 64)) eqn:Hb; cbn [negb].
  - rewrite Hch. cbn [expect].
    destruct (Ha i ltac:(lia)) as [l Hl]; [unfold known_bit; by rewrite Hw|].
    rewrite Hl in Hch. simplify_eq.
    destruct (nth_get_is_Some l (i mod PIECE_ROOT_CHUNK)) as [h Hh].
    { rewrite (Forall_nth_get _ _ _ _ Hf Hl l eq_refl).
      apply Z.mod_pos_bound. unfold PIECE_ROOT_CHUNK. lia. }
    rewrite Hh. cbn [expect]. split; [done|]. split; [done|done].
  - split; [done|]. split; [done|by intros [_ ?]].
Qed.

Lemma set_new_ok p i h : roots_ok p -> 0 <= i < total p ->
  exists p', set_new i h p = Ok p' /\ roots_ok p' /\ total p' = total p
    /\ known_count p' = known_count p + 1
    /\ forall j, 0 <= j -> root_at p' j = if bool_decide (j = i) then Some h else root_at p j.
Proof.
  intros Hp Hi. pose proof Hp as [Ht Hc Hk Hf Ha]. unfold set_new.
  assert (0 <= i / 64 < len (known p)) as Hw64 by (rewrite Hk; apply div_lt_ceil; lia).
  assert (0 <= i / PIECE_ROOT_CHUNK < len (root_chunks p)) as Hch
    by (rewrite Hc; apply div_lt_ceil; unfold PIECE_ROOT_CHUNK; lia).
  assert (0 <= i mod PIECE_ROOT_CHUNK < PIECE_ROOT_CHUNK) as Hmod
    by (apply Z.mod_pos_bound; unfold PIECE_ROOT_CHUNK; lia).
  destruct (nth_get_is_Some _ _ Hw64) as [w Hw]. destruct (nth_get_is_Some _ _ Hch) as [slot Hslot].
  unfold Prelude.index, mbind, outcome_bind. rewrite Hslot, Hw. cbn [expect].
  set (chunk := default empty_chunk slot). cbv zeta.
  assert (len chunk = PIECE_ROOT_CHUNK) as Hlen.
  { subst chunk. destruct slot as [l|]; cbn; [by apply (Forall_nth_get _ _ _ _ Hf Hslot)|].
    unfold empty_chunk. rewrite len_replicate. unfold PIECE_ROOT_CHUNK. lia. }
  destruct (nth_get_is_Some chunk (i mod PIECE_ROOT_CHUNK)) as [old Hold]; [lia|].
  rewrite Hold. cbn [expect]. eexists. split; [done|].
  set (p' := mkPieceRoots _ _ _ _).
  assert (forall j, 0 <= j -> known_bit p' j = known_bit p j || bool_decide (j = i)) as Hbit.
  { intros j Hj. unfold known_bit, p'. cbn [known].
    rewrite nth_get_insert by (done || apply Z.div_pos; lia).
    pose proof (Z.mod_pos_bound j 64 ltac:(lia)). pose proof (Z.mod_pos_bound i 64 ltac:(lia)).
    pose proof (Z.div_mod j 64 ltac:(lia)). pose proof (Z.div_mod i 64 ltac:(lia)).
    case_bool_decide as E1; case_bool_decide as E2; subst; try congruence.
    - rewrite Hw, Z.lor_spec, Z.shiftl_1_l, Z.pow2_bits_true by lia. done.
    - rewrite E1, Hw, Z.lor_spec, Z.shiftl_1_l, Z.pow2_bits_false by lia. done.
    - by rewrite orb_false_r. }
  assert (roots_ok p') as Hp'.
  { split; cbn [total root_chunks known p']; [done|by rewrite len_insert|by rewrite len_insert| |].
    - apply Forall_insert; [done|]. intros l El. simplify_eq. by rewrite len_insert.
    - intros j Hj Hb. rewrite Hbit in Hb by lia.
      rewrite nth_get_insert by (done || apply Z.div_pos; unfold PIECE_ROOT_CHUNK; lia).
      destruct (bool_decide_reflect (j / PIECE_ROOT_CHUNK = i / PIECE_ROOT_CHUNK)) as [E1|E1]; [eauto|].
      apply orb_true_iff in Hb as [Hb|Hb]; [by apply Ha|].
      apply bool_decide_eq_true in Hb. congruence. }
  split_and!; [done|done|done|].
  intros j Hj. destruct (get_ok p' j Hp' Hj) as [Hg' _]. destruct (get_ok p j Hp Hj) as [Hg _].
  cut (PieceRoots_get p' j = if bool_decide (j = i) then Ok (Some h) else PieceRoots_get p j).
  { rewrite Hg', Hg. by case_bool_decide; intros; simplify_eq. }
  clear Hg Hg'. specialize (Hbit j Hj). unfold known_bit in Hbit.
  unfold PieceRoots_get, Prelude.index, mbind, outcome_bind.
  change (total p') with (total p). destruct (Z.leb_spec (total p) j).
  { rewrite bool_decide_false by lia. done. }
  pose proof (Z.mod_pos_bound j 64 ltac:(lia)).
  destruct (nth_get_is_Some (known p) (j / 64)) as [wj Hwj]; [rewrite Hk; apply div_lt_ceil; lia|].
  destruct (nth_get_is_Some (known p') (j / 64)) as [wj' Hwj'].
  { rewrite (ro_known _ Hp'). change (total p') with (total p). apply div_lt_ceil; lia. }
  rewrite Hwj, Hwj' in *. cbn [expect]. rewrite !land_bit by lia. rewrite Hbit.
  unfold p'. cbn [root_chunks].
  rewrite nth_get_insert by (done || apply Z.div_pos; unfold PIECE_ROOT_CHUNK; lia).
  pose proof (Z.div_mod j PIECE_ROOT_CHUNK ltac:(done)). pose proof (Z.div_mod i PIECE_ROOT_CHUNK ltac:(done)).
  case_bool_decide as E1.
  - subst j. rewrite orb_true_r, bool_decide_true by done. cbn [negb expect].
    rewrite nth_get_insert, bool_decide_true by (done || lia). done.
  - rewrite orb_false_r. destruct (Z.testbit wj (j mod 64)) eqn:Hb; [|done]. cbn [negb].
    case_bool_decide as E2; [|done]. cbn [expect].
    pose proof (Z.mod_pos_bound j PIECE_ROOT_CHUNK ltac:(done)).
    rewrite nth_get_insert, bool_decide_false by (lia || congruence).
    destruct (Ha j ltac:(lia)) as [l Hl]; [unfold known_bit; by rewrite Hwj|].
    rewrite E2 in Hl |- *. rewrite Hl in Hslot |- *. simplify_eq. done.
Qed.

Lemma check_roots_ok p i h : roots_ok p -> 0 <= i ->
  PieceRoots_check p i h = if total p <=? i then Err HE_PieceIndexOutOfRange
    else match root_at p i with
         | Some e => if bool_decide (e = h) then Ok false else Err HE_ConflictingHash
         | None => Ok true
         end.
Proof.
  intros Hp Hi. unfold PieceRoots_check. destruct (Z.leb_spec (total p) i); [done|].
  destruct (get_ok p i Hp Hi) as [-> _]. unfold mbind, outcome_bind.
  destruct (root_at p i); [|done]. by case_bool_decide.
Qed.

(** ** Validated requests *)
Record valid_range (g : V2FileHashGeometry) (r : HashRequest) (v : ValidatedRange) (h k : Z) : Prop := {
  vr_root : hr_pieces_root r = g_pieces_root g;
  vr_leaves : 0 < g_leaf_count g <= 2 ^ 35;
  vr_height : h = Z.log2_up (g_leaf_count g);
  vr_piece_layer : exists L, g_piece_layer g = Ok L /\ 0 <= L /\ (v_base_layer v = 0 \/ v_base_layer v = L);
  vr_base : v_base_layer v = hr_base_layer r;
  vr_count : hr_count r = 2 ^ k;
  vr_k : 0 <= k <= 9;
  vr_subject : v_subject_layer v = v_base_layer v + k;
  vr_range : 0 <= v_base_layer v /\ v_subject_layer v <= h <= 35;
  vr_index : hr_index r = v_subject_index v * 2 ^ k;
  vr_index_pos : 0 <= v_subject_index v;
  vr_real : v_real_base_nodes v = div_ceil (g_leaf_count g) (2 ^ v_base_layer v);
  vr_start : hr_index r < v_real_base_nodes v;
  vr_end : hr_index r + hr_count r <= 2 ^ (h - v_base_layer v);
  vr_proof : proof_hash_count r = h - v_subject_layer v;
}.

Lemma g_piece_layer_inv g L : g_piece_layer g = Ok L ->
  0 <= L <= 14 /\ g_piece_length g = MERKLE_BLOCK_SIZE * 2 ^ L.
Proof.
  unfold g_piece_layer, map_err. destruct (piece_layer (g_piece_length g)) eqn:E; intros; simplify_eq.
  by apply piece_layer_inv.
Qed.

Lemma validate_inv g r allow v :
  geometry_typed g -> request_typed r -> validate_request_range g r allow = Ok v ->
  exists h k, valid_range g r v h k /\ (allow = false -> 1 <= k).
Proof.
  intros [Gl Gp Gf Gc] [Rb Ri Rc Rp]. unfold is_u in *. unfold validate_request_range.
  case_bool_decide as Hroot; [|done]. cbn [negb].
  destruct (Z.eqb_spec (hr_count r) 0); [done|]. cbn [orb].
  destruct (Z.ltb_spec MAX_HASH_REQUEST_COUNT (hr_count r)) as [|Hmax]; [done|]. cbn [orb].
  destruct (is_power_of_two (hr_count r)) eqn:Hp2; [|done]. cbn [negb orb].
  destruct ((hr_count r =? 1) && negb allow) eqn:Hone; [done|].
  unfold is_multiple_of. destruct (Z.eqb_spec (hr_index r mod hr_count r) 0) as [Hmod|]; [|done]. cbn [negb].
  destruct (Z.ltb_spec MAX_HASH_PROOF_LAYERS (hr_proof_layers r)); [done|].
  unfold mbind, outcome_bind, u8_try_from.
  destruct (Z.ltb_spec (hr_base_layer r) 256); [|done]. cbn [ok_or].
  destruct (g_piece_layer g) as [L|?| |] eqn:HL; [|done..].
  destruct (negb (hr_base_layer r =? 0) && negb (hr_base_layer r =? L)) eqn:Hbl; [done|].
  destruct (decide (0 < g_leaf_count g <= 2 ^ 35)) as [Hn|Hn].
  2:{ unfold MerkleTreeShape_new. destruct (Z.eqb_spec (g_leaf_count g) 0); [done|].
      change MAX_MERKLE_LEAVES with (2 ^ 35).
      destruct (Z.ltb_spec (2 ^ 35) (g_leaf_count g)); [done|].
      assert (0 <= g_leaf_count g); [|lia]. unfold g_leaf_count, div_ceil, MERKLE_BLOCK_SIZE. apply Z.div_pos; lia. }
  rewrite shape_ok by done. cbn [map_err height padded_leaf_count].
  destruct (padded_height (g_leaf_count g) ltac:(lia)) as [_ Hh].
  set (h := Z.log2_up (g_leaf_count g)) in *.
  destruct (Z.ltb_spec h (hr_base_layer r)); [done|].
  apply is_power_of_two_true in Hp2 as (k & Hk & Hck). rewrite Hck in *.
  assert (k <= 9) as Hk9.
  { destruct (Z.le_gt_cases k 9); [done|]. pose proof (Z.pow_le_mono_r 2 10 k ltac:(lia) ltac:(lia)) as Hm.
    change (2 ^ 10) with 1024 in Hm. unfold MAX_HASH_REQUEST_COUNT in Hmax. lia. }
  rewrite trailing_zeros_pow2 by done. rewrite (proj2 (Z.ltb_lt k 256)) by lia. cbn [ok_or].
  unfold checked_add at 1. rewrite (proj2 (Z.ltb_lt (hr_base_layer r + k) (2 ^ 8))) by lia. cbn [ok_or].
  destruct (Z.ltb_spec h (hr_base_layer r + k)); [done|].
  destruct (Z.eqb_spec (saturating_sub (h - hr_base_layer r) (Z.b2z (1 <? 2 ^ k))) (hr_proof_layers r))
    as [Hpl|]; [|done]. cbn [negb].
  pose proof (Z.pow_le_mono_r 2 k 9 ltac:(lia) ltac:(lia)) as Hk512. change (2 ^ 9) with 512 in Hk512.
  unfold checked_add. rewrite (proj2 (Z.ltb_lt (hr_index r + 2 ^ k) (2 ^ 64))) by lia. cbn [ok_or].
  unfold checked_shl. rewrite (proj2 (Z.ltb_lt (hr_base_layer r) 64)) by lia.
  rewrite Z.shiftl_1_l, Z.mod_small
    by (split; [apply Z.pow_nonneg; lia|apply Z.pow_lt_mono_r; lia]).
  cbn [ok_or]. rewrite Z.shiftr_div_pow2 by lia. rewrite <- Z.pow_sub_r by lia.
  destruct (Z.ltb_spec (2 ^ (h - hr_base_layer r)) (hr_index r + 2 ^ k)); [done|]. cbn [orb].
  destruct (Z.leb_spec (div_ceil (g_leaf_count g) (2 ^ hr_base_layer r)) (hr_index r)); [done|].
  unfold mret, outcome_ret. intros Hv. simplify_eq. exists h, k.
  pose proof (pow2_pos k Hk). pose proof (Z.div_mod (hr_index r) (2 ^ k) ltac:(lia)).
  assert (k = 0 \/ 1 <= k) as Hk01 by lia.
  assert (1 <= k -> 1 < 2 ^ k) as Hgt1 by (intros; apply Z.pow_gt_1; lia).
  split; [split; cbn [v_base_layer v_subject_layer v_subject_index v_real_base_nodes]|].
  all: try done; try lia.
  - exists L. destruct (g_piece_layer_inv g L HL). split_and!; [done|lia|].
    destruct (Z.eqb_spec (hr_base_layer r) 0), (Z.eqb_spec (hr_base_layer r) L); cbn in Hbl; auto; done.
  - unfold proof_hash_count, omitted_proof_layers. rewrite Hck, trailing_zeros_pow2, <- Hpl by done.
    unfold saturating_sub. destruct Hk01 as [->|Hk1]; [change (1 <? 2 ^ 0) with false; cbn [Z.b2z]; lia|].
    rewrite (proj2 (Z.ltb_lt 1 _)) by auto. cbn [Z.b2z]. lia.
  - intros ->. destruct Hk01 as [->|]; [done|lia].
Qed.

Lemma g_leaf_count_nonneg g : geometry_typed g -> 0 <= g_leaf_count g.
Proof.
  intros [Gl _ _ _]. unfold is_u in Gl. unfold g_leaf_count, div_ceil, MERKLE_BLOCK_SIZE. apply Z.div_pos; lia.
Qed.
Lemma validate_returns g r allow : returns (validate_request_range g r allow).
Proof.
  unfold validate_request_range, g_piece_layer, piece_layer, MerkleTreeShape_new.
  repeat (returns_step || cbv zeta).
Qed.

(** The request's range starts inside the leaves. *)
Lemma valid_start g r v h k : valid_range g r v h k ->
  v_subject_index v * 2 ^ v_subject_layer v < g_leaf_count g.
Proof.
  intros V. pose proof (vr_range _ _ _ _ _ V). pose proof (vr_k _ _ _ _ _ V).
  rewrite (vr_subject _ _ _ _ _ V), Z.pow_add_r by lia.
  pose proof (vr_start _ _ _ _ _ V) as Hs. rewrite (vr_index _ _ _ _ _ V), (vr_real _ _ _ _ _ V) in Hs.
  pose proof (pow2_pos (v_base_layer v) ltac:(lia)) as Hp.
  pose proof (div_ceil_spec (g_leaf_count g) (2 ^ v_base_layer v) Hp) as [Hd _]. nia.
Qed.

Lemma response_count_ok g r v h k : valid_range g r v h k ->
  response_hash_count r = Ok (2 ^ k + (h - v_subject_layer v)).
Proof.
  intros V. pose proof (vr_range _ _ _ _ _ V). pose proof (vr_k _ _ _ _ _ V).
  pose proof (Z.pow_le_mono_r 2 k 9 ltac:(lia) ltac:(lia)) as H9. change (2 ^ 9) with 512 in H9.
  unfold response_hash_count, checked_add, USIZE. rewrite (vr_count _ _ _ _ _ V), (vr_proof _ _ _ _ _ V).
  rewrite (vr_subject _ _ _ _ _ V) in *. by rewrite (proj2 (Z.ltb_lt _ _)) by lia.
Qed.

(** ** Applying the inserts *)
Lemma apply_roots_ok l : forall c,
  catalog_ok c -> Forall (fun e => 0 <= e.1 < total (piece_roots c)) l ->
  exists c', apply_roots l c = (c', Ok tt) /\ catalog_ok c'
    /\ proof_nodes c' = proof_nodes c /\ proof_capacity c' = proof_capacity c
    /\ total (piece_roots c') = total (piece_roots c)
    /\ known_count (piece_roots c') = known_count (piece_roots c) + len l
    /\ forall j hash, 0 <= j -> root_at (piece_roots c') j = Some hash ->
         root_at (piece_roots c) j = Some hash \/ (j, hash) ∈ l.
Proof.
  induction l as [|[i h] r IH]; intros c Hc Hl; cbn [apply_roots].
  - exists c. change (len (@nil (Z * Sha256Hash))) with 0. split_and!; try done; [lia|auto].
  - apply Forall_cons_1 in Hl as [Hi Hl]. cbn [fst] in Hi. destruct Hc as [Hr Hs Hn Hcap].
    destruct (set_new_ok (piece_roots c) i h Hr Hi) as (p' & Hset & Hp' & Ht & Hk & Hat).
    unfold mbind, M_bind, with_roots at 1. rewrite Hset.
    set (c1 := mkCatalog p' (proof_nodes c) (proof_capacity c)).
    destruct (IH c1) as (c' & -> & Hc' & H1 & H2 & H3 & H4 & H5).
    { by split. }
    { cbn [c1 piece_roots]. by rewrite Ht. }
    exists c'. rewrite len_cons. cbn [c1 piece_roots proof_nodes proof_capacity] in *.
    split_and!; [done|done|done|done|congruence|lia|].
    intros j hash Hj E. destruct (H5 j hash Hj E) as [E1|E1]; [|by right; apply list_elem_of_further].
    rewrite Hat in E1 by done. destruct (bool_decide_reflect (j = i)) as [->|]; [|by left].
    simplify_eq. right. by apply list_elem_of_here.
Qed.

Lemma apply_nodes_ok l : forall c,
  catalog_ok c -> NoDup l.*1 -> Forall (fun e => node_at (proof_nodes c) e.1 = None) l ->
  len (proof_nodes c) + len l <= MAX_RETAINED_PROOF_NODES ->
  exists c', apply_nodes l c = (c', Ok tt) /\ catalog_ok c'
    /\ piece_roots c' = piece_roots c /\ len (proof_nodes c') = len (proof_nodes c) + len l
    /\ proof_capacity c' = Z.max (proof_capacity c) (len (proof_nodes c) + len l)
    /\ forall k hash, node_at (proof_nodes c') k = Some hash ->
         node_at (proof_nodes c) k = Some hash \/ (k, hash) ∈ l.
Proof.
  induction l as [|[k h] r IH]; intros c Hc Hnd Hl Hb; cbn [apply_nodes].
  - exists c. destruct Hc. change (len (@nil (HashNodeKey * Sha256Hash))) with 0 in *.
    split_and!; try done; [lia|lia|auto].
  - apply Forall_cons_1 in Hl as [Hk Hl]. cbn [fst] in Hk. destruct Hc as [Hr Hs Hn Hcap].
    cbn [fmap list_fmap fst] in Hnd. apply NoDup_cons in Hnd as [Hnk Hnd].
    destruct (insert_node_ok c k h Hs Hk) as (l' & Hins & Hs' & Hlen & Hat).
    unfold mbind, M_bind, with_catalog at 1. rewrite Hins.
    rewrite len_cons in Hb. pose proof (len_nonneg r).
    set (c1 := mkCatalog _ l' _).
    destruct (IH c1) as (c' & -> & Hc' & H1 & H2 & H3 & H4).
    { split; cbn [c1 piece_roots proof_nodes proof_capacity]; [done|done|lia|lia]. }
    { done. }
    { apply Forall_forall. intros [k' h'] Hin. cbn [fst c1 proof_nodes]. rewrite Hat.
      rewrite Forall_forall in Hl. specialize (Hl _ Hin). cbn in Hl.
      rewrite bool_decide_false; [done|]. intros ->. apply Hnk. by apply (list_elem_of_fmap_2 fst _ (k, h')). }
    { cbn [c1 proof_nodes]. lia. }
    exists c'. cbn [c1 piece_roots proof_nodes proof_capacity] in *. rewrite len_cons.
    split_and!; [done|done|done|lia|lia|].
    intros k' hash E. destruct (H4 k' hash E) as [E1|E1]; [|by right; apply list_elem_of_further].
    rewrite Hat in E1. destruct (bool_decide_reflect (k' = k)) as [->|]; [|by left].
    simplify_eq. right. by apply list_elem_of_here.
Qed.

(** ** What is chosen for insertion *)
Lemma nth_get_S {A} (x : A) l j : 0 <= j -> nth_get (x :: l) (j + 1) = nth_get l j.
Proof.
  intros. rewrite !nth_get_lookup by lia. by replace (Z.to_nat (j + 1)) with (S (Z.to_nat j)) by lia.
Qed.
Lemma root_insert_shift c g v i h r e : root_insert c g v (i + 1) r e -> root_insert c g v i (h :: r) e.
Proof.
  intros (Hr & Hl & j & E1 & E2 & E3). split_and!; [lia..|done|].
  exists (j + 1). apply nth_get_lt in E2 as Hj. rewrite nth_get_S by lia. split_and!; [lia|done|lia].
Qed.
Lemma node_insert_shift c g v i h r e : node_insert c g v (i + 1) r e -> node_insert c g v i (h :: r) e.
Proof.
  intros (Hr & j & E1 & E2 & E3). split; [done|].
  exists (j + 1). apply nth_get_lt in E2 as Hj. rewrite nth_get_S by lia.
  split_and!; [rewrite E1; f_equal; lia|done|lia].
Qed.
Lemma inserts_shift c g v i h r out : base_inserts_spec c g v (i + 1) r out -> base_inserts_spec c g v i (h :: r) out.
Proof.
  unfold base_inserts_spec. intros (H1 & H2 & H3). split_and!; [| |done].
  - eapply Forall_impl; [exact H1|]. intros. by apply root_insert_shift.
  - eapply Forall_impl; [exact H2|]. intros. by apply node_insert_shift.
Qed.

Lemma base_inserts_ok c g v hashes : forall i,
  catalog_ok c -> 0 <= i -> 0 <= g_first_piece g -> returns (g_piece_layer g) ->
  match base_inserts_of c g v i hashes with
  | Ok out => base_inserts_spec c g v i hashes out
  | Err _ => True
  | Panic | NoFuel => False
  end.
Proof.
  induction hashes as [|h r IH]; intros i Hc Hi Hf Hl; cbn [base_inserts_of].
  { split_and!; by constructor. }
  specialize (IH (i + 1) Hc ltac:(lia) Hf Hl).
  destruct (Z.leb_spec (v_real_base_nodes v) i).
  { destruct (base_inserts_of c g v (i + 1) r); [by apply inserts_shift|done..]. }
  destruct (g_piece_layer g) as [L|?| |] eqn:HL; try done. unfold mbind, outcome_bind.
  destruct (Z.eqb_spec (v_base_layer v) L) as [Heq|].
  - rewrite check_roots_ok by (apply Hc || lia).
    destruct (Z.leb_spec (total (piece_roots c)) (g_first_piece g + i)); [done|].
    destruct (base_inserts_of c g v (i + 1) r) as [[roots nodes]|?| |];
      [|repeat case_match; done..].
    apply (inserts_shift _ _ _ _ h) in IH as (H1 & H2 & H3).
    destruct (root_at (piece_roots c) (g_first_piece g + i)); [case_bool_decide; done|].
    split_and!; [|done|done]. constructor; [|done].
    split_and!; cbn [fst snd]; [lia|lia|by rewrite HL, Heq|].
    exists 0. split_and!; [lia|done|lia].
  - rewrite check_node_ok by apply Hc.
    set (k := mkKey (g_pieces_root g) (v_base_layer v) i).
    destruct (base_inserts_of c g v (i + 1) r) as [[roots nodes]|?| |];
      [|repeat case_match; done..].
    assert (k ∉ nodes.*1) as Hk.
    { destruct IH as (_ & H2 & _). rewrite list_elem_of_fmap. intros ([k' h'] & E & Hin).
      rewrite Forall_forall in H2. destruct (H2 _ Hin) as (_ & j & Ej & Hj & _). apply nth_get_lt in Hj.
      cbn in E, Ej. subst k'. unfold k in Ej. simplify_eq. lia. }
    apply (inserts_shift _ _ _ _ h) in IH as (H1 & H2 & H3).
    destruct (node_at (proof_nodes c) k) eqn:Hat; [case_bool_decide; done|].
    split_and!; [done| |].
    + constructor; [|done]. split; [done|]. exists 0. split_and!; [|done|lia]. cbn. unfold k. f_equal. lia.
    + cbn [fmap list_fmap fst]. by constructor.
Qed.

Lemma proof_inserts_ok c root proof : forall layer pi,
  catalog_ok c ->
  match proof_inserts_of c root layer pi proof with
  | Ok nodes => NoDup nodes.*1 /\ Forall (fun e => node_at (proof_nodes c) e.1 = None
      /\ layer <= k_layer e.1
      /\ exists j, e.1 = mkKey root (layer + j) (Z.lxor (Z.shiftr pi j) 1) /\ nth_get proof j = Some e.2) nodes
  | Err _ => True
  | Panic | NoFuel => False
  end.
Proof.
  induction proof as [|h r IH]; intros layer pi Hc; cbn [proof_inserts_of].
  { split; constructor. }
  specialize (IH (layer + 1) (Z.shiftr pi 1) Hc). rewrite check_node_ok by apply Hc.
  set (k := mkKey root layer (Z.lxor pi 1)). unfold mbind, outcome_bind.
  destruct (proof_inserts_of c root (layer + 1) (Z.shiftr pi 1) r) as [nodes|?| |];
    [|repeat case_match; done..].
  destruct IH as (Hnd & Hall).
  assert (k ∉ nodes.*1) as Hk.
  { rewrite list_elem_of_fmap. intros ([k' h'] & E & Hin).
    rewrite Forall_forall in Hall. destruct (Hall _ Hin) as (_ & Hl & _). cbn in E, Hl. subst k'.
    unfold k in Hl. cbn in Hl. lia. }
  assert (Forall (fun e => node_at (proof_nodes c) e.1 = None /\ layer <= k_layer e.1
      /\ exists j, e.1 = mkKey root (layer + j) (Z.lxor (Z.shiftr pi j) 1)
                   /\ nth_get (h :: r) j = Some e.2) nodes) as Hall'.
  { eapply Forall_impl; [exact Hall|]. intros e (H1 & H2 & j & E1 & E2). split_and!; [done|lia|].
    exists (j + 1). apply nth_get_lt in E2 as Hj. rewrite nth_get_S by lia. split; [|done].
    rewrite E1, Z.shiftr_shiftr by lia. f_equal; [lia|]. do 2 f_equal. lia. }
  destruct (node_at (proof_nodes c) k) eqn:Hat; [case_bool_decide; done|].
  split; [cbn [fmap list_fmap fst]; by constructor|].
  constructor; [|done]. split_and!; [done|cbn; lia|].
  exists 0. split; [|done]. by rewrite Z.add_0_r, Z.shiftr_0_r.
Qed.

(** ** Accounting *)
Lemma accounting_bound c : catalog_ok c -> allocated_bytes (accounting c) <= MAX_HASH_CATALOG_BYTES.
Proof.
  intros [[Ht Hc Hk _ _] _ Hn Hcap]. unfold accounting. cbn [allocated_bytes].
  assert (0 <= allocated_chunk_count (piece_roots c) <= len (root_chunks (piece_roots c))) as Ha.
  { unfold allocated_chunk_count, len. pose proof (length_filter (fun c => is_Some c) (root_chunks (piece_roots c))). lia. }
  unfold MAX_AUTHENTICATED_PIECE_ROOTS, MAX_RETAINED_PROOF_NODES, MAX_HASH_CATALOG_BYTES in *.
  assert (len (root_chunks (piece_roots c)) <= 2048) as H1.
  { rewrite Hc. unfold div_ceil, PIECE_ROOT_CHUNK. apply Z.lt_succ_r, Z.div_lt_upper_bound; lia. }
  assert (len (known (piece_roots c)) <= 32768) as H2.
  { rewrite Hk. unfold div_ceil. apply Z.lt_succ_r, Z.div_lt_upper_bound; lia. }
  pose proof (len_nonneg (proof_nodes c)).
  unfold saturating_add, saturating_mul, umax, USIZE, PIECE_ROOT_CHUNK, SIZE_OF_OPTION_BOX, SIZE_OF_HASH_NODE.
  lia.
Qed.

(** ** Authenticating a response *)
Section authenticate.
Variable sha256 : list Z -> Sha256Hash.

Lemma check_padding_returns v hashes : forall i, returns (check_padding sha256 v i hashes).
Proof.
  induction hashes as [|h r IH]; intros i; [done|]. cbn [check_padding].
  unfold zero_hash. repeat returns_step; auto.
Qed.

(** The subject of a response is the tree over its base hashes. *)
Lemma subject_ok (v : ValidatedRange) k (base : list Sha256Hash) :
  0 <= v_base_layer v -> 0 <= k -> v_base_layer v + k <= 35 -> len base = 2 ^ k ->
  exists a, map_err HE_Merkle (accumulate (v_base_layer v) (push_all sha256 base)) = Ok a
    /\ map_err HE_Merkle (finish sha256 a)
       = Ok (tree sha256 (Z.to_nat (v_base_layer v)) (Z.to_nat k) base).
Proof.
  intros Hb Hk Hbk Hl.
  assert (2 ^ k <= 2 ^ (35 - v_base_layer v)) by (apply Z.pow_le_mono_r; lia).
  destruct (accumulate_ok sha256 (v_base_layer v) base ltac:(lia) ltac:(lia)) as (a & Ha & Hok & Hab).
  exists a. rewrite Ha. split; [done|].
  rewrite (finish_min sha256 a base Hok).
  - unfold tree_height. by rewrite Hab, Hl, Z.log2_up_pow2.
  - intros ->. pose proof (pow2_pos k Hk). change (len []) with 0 in Hl. lia.
Qed.

Lemma authenticate_inv g resp :
  geometry_typed g -> request_typed (hs_request resp) ->
  match authenticate_response sha256 g resp with
  | Ok (v, base, proof) => exists h k,
      valid_range g (hs_request resp) v h k /\ 1 <= k /\ hs_hashes resp = base ++ proof
      /\ len base = 2 ^ k /\ len proof = h - v_subject_layer v
      /\ verify_proof sha256 (tree sha256 (Z.to_nat (v_base_layer v)) (Z.to_nat k) base)
           (v_subject_layer v) (v_subject_index v) (g_leaf_count g) proof (g_pieces_root g) = Ok tt
  | Err _ => True
  | Panic | NoFuel => False
  end.
Proof.
  intros Hg Hr. unfold authenticate_response.
  pose proof (validate_returns g (hs_request resp) false) as Hret.
  unfold mbind, outcome_bind.
  destruct (validate_request_range g (hs_request resp) false) as [v|?| |] eqn:Hv; try done.
  destruct (validate_inv _ _ _ _ Hg Hr Hv) as (h & k & V & Hk1). specialize (Hk1 eq_refl).
  rewrite (response_count_ok _ _ _ _ _ V).
  pose proof (vr_range _ _ _ _ _ V) as Hrg. pose proof (vr_k _ _ _ _ _ V) as Hk.
  destruct (Z.eqb_spec (len (hs_hashes resp)) (2 ^ k + (h - v_subject_layer v))) as [Hlen|]; [|done].
  cbn [negb]. destruct (Z.ltb_spec MAX_HASHES_PER_RESPONSE (len (hs_hashes resp))); [done|].
  rewrite (vr_count _ _ _ _ _ V). pose proof (pow2_pos k ltac:(lia)) as Hkp.
  rewrite slice_ok by lia. set (base := sub_list (hs_hashes resp) 0 (2 ^ k)).
  assert (len base = 2 ^ k) as Hbase by (subst base; rewrite len_sub_list; lia).
  pose proof (check_padding_returns v base (hr_index (hs_request resp))) as Hpad.
  destruct (check_padding sha256 v (hr_index (hs_request resp)) base) as [[]|?| |]; try done.
  destruct (subject_ok v k base) as (a & -> & ->); [lia|lia| |done|].
  { pose proof (vr_subject _ _ _ _ _ V). lia. }
  set (proof := skip (hs_hashes resp) (2 ^ k)).
  pose proof (verify_proof_returns sha256 (tree sha256 (Z.to_nat (v_base_layer v)) (Z.to_nat k) base)
    (v_subject_layer v) (v_subject_index v) (g_leaf_count g) proof (g_pieces_root g)) as Hvr.
  destruct (verify_proof sha256 _ _ _ _ proof _) as [[]|?| |] eqn:Hvp; try done.
  unfold map_err, mret, outcome_ret. exists h, k.
  split_and!; [done|done|apply sub_list_skip; lia|done| |done].
  subst proof. rewrite len_skip by lia. lia.
Qed.

Lemma proof_layers_above_base g r v h k : valid_range g r v h k -> 1 <= k ->
  v_base_layer v < v_subject_layer v.
Proof. intros V Hk. rewrite (vr_subject _ _ _ _ _ V). lia. Qed.

(** The whole of [insert_response], with what each inserted entry is. *)
Lemma insert_response_inv g resp c :
  catalog_ok c -> geometry_typed g -> request_typed (hs_request resp) ->
  match insert_response sha256 g resp c with
  | (c', Ok n) => exists v base proof,
      authenticate_response sha256 g resp = Ok (v, base, proof) /\ catalog_ok c'
      /\ total (piece_roots c') = total (piece_roots c)
      /\ known_count (piece_roots c') = known_count (piece_roots c) + n
      /\ (forall j hash, 0 <= j -> root_at (piece_roots c') j = Some hash ->
           root_at (piece_roots c) j = Some hash
           \/ root_insert c g v (hr_index (hs_request resp)) base (j, hash))
      /\ (forall key hash, node_at (proof_nodes c') key = Some hash ->
           node_at (proof_nodes c) key = Some hash
           \/ node_insert c g v (hr_index (hs_request resp)) base (key, hash)
           \/ exists j, key = mkKey (g_pieces_root g) (v_subject_layer v + j)
                                (Z.lxor (Z.shiftr (v_subject_index v) j) 1)
                       /\ nth_get proof j = Some hash)
  | (c', Err _) => c' = c
  | (_, Panic) | (_, NoFuel) => False
  end.
Proof.
  intros Hc Hg Hr. unfold insert_response, mbind, M_bind, lift.
  pose proof (authenticate_inv g resp Hg Hr) as Hauth.
  destruct (authenticate_response sha256 g resp) as [[[v base] proof]|?| |] eqn:Ha; try done.
  destruct Hauth as (h & k & V & Hk1 & Hsplit & Hbase & Hproof & _).
  unfold get. cbv beta iota.
  destruct (vr_piece_layer _ _ _ _ _ V) as (L & HL & _).
  assert (0 <= hr_index (hs_request resp)) as Hidx by (destruct (rt_index _ Hr); done).
  pose proof (base_inserts_ok c g v base (hr_index (hs_request resp)) Hc Hidx
    (proj1 (gt_first _ Hg)) ltac:(by rewrite HL)) as Hbi.
  destruct (base_inserts_of c g v (hr_index (hs_request resp)) base) as [[roots nodes]|?| |]; try done.
  destruct Hbi as (Hroots & Hnodes & Hnd). cbn [fst snd] in *.
  pose proof (proof_inserts_ok c (g_pieces_root g) proof (v_subject_layer v) (v_subject_index v) Hc) as Hpi.
  destruct (proof_inserts_of c _ _ _ proof) as [pnodes|?| |]; try done. destruct Hpi as (Hpnd & Hpn).
  pose proof (len_nonneg nodes). pose proof (len_nonneg pnodes). pose proof (len_nonneg (proof_nodes c)).
  destruct (Z.ltb_spec MAX_RETAINED_PROOF_NODES
    (saturating_add USIZE (len (proof_nodes c)) (saturating_add USIZE (len nodes) (len pnodes))))
    as [|Hcap]; [done|].
  assert (saturating_add USIZE (len nodes) (len pnodes) = len nodes + len pnodes) as Hsat.
  { unfold saturating_add, umax, USIZE, MAX_RETAINED_PROOF_NODES in *. lia. }
  rewrite Hsat in *.
  assert (len (proof_nodes c) + (len nodes + len pnodes) <= MAX_RETAINED_PROOF_NODES) as Hfit.
  { unfold saturating_add, umax, USIZE, MAX_RETAINED_PROOF_NODES in *. lia. }
  unfold put. set (c0 := mkCatalog (piece_roots c) (proof_nodes c) _).
  assert (catalog_ok c0) as Hc0.
  { destruct Hc. split; cbn [c0 piece_roots proof_nodes proof_capacity]; [done|done|lia|lia]. }
  destruct (apply_roots_ok roots c0 Hc0) as (c1 & -> & Hc1 & Hn1 & Hp1 & Ht1 & Hk1' & Hat1).
  { eapply Forall_impl; [exact Hroots|]. intros e He. apply He. }
  assert (proof_nodes c1 = proof_nodes c) as Hn1' by done.
  destruct (apply_nodes_ok nodes c1 Hc1 Hnd) as (c2 & -> & Hc2 & Hr2 & Hl2 & Hp2 & Hat2).
  { rewrite Hn1'. eapply Forall_impl; [exact Hnodes|]. intros e He. apply He. }
  { rewrite Hn1'. lia. }
  destruct (apply_nodes_ok pnodes c2 Hc2 Hpnd) as (c3 & -> & Hc3 & Hr3 & Hl3 & Hp3 & Hat3).
  { apply Forall_forall. intros [key hash] Hin. cbn [fst].
    rewrite Forall_forall in Hpn. destruct (Hpn _ Hin) as (Hna & Hlay & _). cbn [fst] in *.
    destruct (node_at (proof_nodes c2) key) as [hash'|] eqn:E; [|done].
    destruct (Hat2 key hash' E) as [E'|Hin']; [rewrite Hn1' in E'; congruence|].
    rewrite Forall_forall in Hnodes. destruct (Hnodes _ Hin') as (_ & j & Ej & _).
    cbn [fst] in Ej. rewrite Ej in Hlay. cbn [k_layer] in Hlay.
    pose proof (proof_layers_above_base _ _ _ _ _ V Hk1). lia. }
  { rewrite Hl2, Hn1'. lia. }
  pose proof (accounting_bound c3 Hc3). rewrite (proj2 (Z.ltb_ge _ _)) by done.
  unfold mret, M_ret. exists v, base, proof. rewrite Hr3, Hr2.
  split_and!; [done|done|exact Ht1|exact Hk1'| |].
  - intros j hash Hj E. destruct (Hat1 j hash Hj E) as [?|Hin]; [by left|right].
    rewrite Forall_forall in Hroots. by apply Hroots.
  - intros key hash E. destruct (Hat3 key hash E) as [E2|Hin].
    + destruct (Hat2 key hash E2) as [E1|Hin]; [left; by rewrite <- Hn1'|right; left].
      rewrite Forall_forall in Hnodes. by apply Hnodes.
    + right. right. rewrite Forall_forall in Hpn. destruct (Hpn _ Hin) as (_ & _ & j & Ej & Hj). eauto.
Qed.
End authenticate.

(** ** Rows of nodes *)
Section rows.
Variable sha256 : list Z -> Sha256Hash.
Variable hs : list Sha256Hash.
Abbreviation node := (fun layer i => tree_node sha256 layer i hs).

Lemma node_children layer q : 0 <= layer -> 0 <= q ->
  node (layer + 1) q = hash_pair sha256 (node layer (2 * q)) (node layer (2 * q + 1)).
Proof.
  intros Hl Hq. pose proof (tree_node_parent sha256 layer (2 * q) hs Hl ltac:(lia)) as Hp.
  rewrite Z.shiftr_div_pow2 in Hp by lia. change (2 ^ 1) with 2 in Hp.
  rewrite Z.mul_comm, Z.div_mul in Hp by lia. rewrite Z.mul_comm in Hp.
  unfold proof_pair in Hp. rewrite lxor_1, land_1 in Hp by lia.
  rewrite Z.mul_comm, Z.mod_mul in Hp by lia. cbn [Z.eqb] in Hp. rewrite Z.mul_comm in Hp. exact Hp.
Qed.

Lemma length_node_row layer n : forall i, length (node_row sha256 layer i n hs) = n.
Proof. induction n; intros; cbn; auto. Qed.
Lemma node_row_app layer n m : forall i,
  node_row sha256 layer i (n + m) hs
  = node_row sha256 layer i n hs ++ node_row sha256 layer (i + Z.of_nat n) m hs.
Proof.
  induction n as [|n IH]; intros i; cbn [Nat.add node_row app].
  - by rewrite Z.add_0_r.
  - rewrite IH. do 3 f_equal. lia.
Qed.
Lemma nth_node_row layer n : forall i j, 0 <= j < Z.of_nat n ->
  nth_get (node_row sha256 layer i n hs) j = Some (node layer (i + j)).
Proof.
  induction n as [|n IH]; intros i j Hj; [lia|]. cbn [node_row].
  destruct (decide (j = 0)) as [->|]; [by rewrite Z.add_0_r|].
  replace j with (j - 1 + 1) at 1 by lia. rewrite nth_get_S by lia. rewrite IH by lia.
  do 2 f_equal. lia.
Qed.

(** The tree over an aligned row is the node above it. *)
Lemma tree_row b k : forall q, 0 <= q ->
  tree sha256 b k (node_row sha256 (Z.of_nat b) (q * 2 ^ Z.of_nat k) (2 ^ k) hs)
  = node (Z.of_nat b + Z.of_nat k) q.
Proof.
  induction k as [|k IH]; intros q Hq.
  - cbn [Nat.pow node_row Merkle.tree]. change (2 ^ Z.of_nat 0) with 1. by rewrite Z.mul_1_r, Z.add_0_r.
  - replace (2 ^ S k)%nat with (2 ^ k + 2 ^ k)%nat by (simpl; lia). rewrite node_row_app.
    rewrite tree_S_app by apply length_node_row. rewrite pow2_nat_Z.
    rewrite Nat2Z.inj_succ, Z.pow_succ_r by lia.
    replace (q * (2 * 2 ^ Z.of_nat k)) with (2 * q * 2 ^ Z.of_nat k) by lia.
    replace (2 * q * 2 ^ Z.of_nat k + 2 ^ Z.of_nat k) with ((2 * q + 1) * 2 ^ Z.of_nat k) by lia.
    rewrite !IH by lia. replace (Z.of_nat b + Z.succ (Z.of_nat k)) with (Z.of_nat b + Z.of_nat k + 1) by lia.
    symmetry. apply node_children; lia.
Qed.

(** Two perfect trees of one root have the same nodes, or collide. *)
Lemma tree_divergence_ok b h : forall xs ys,
  (2 ^ h <= length xs)%nat -> (2 ^ h <= length ys)%nat ->
  tree sha256 b h xs = tree sha256 b h ys ->
  match tree_divergence sha256 b h xs ys with
  | Some d => is_collision sha256 d
  | None => take (2 ^ h) xs = take (2 ^ h) ys
  end.
Proof.
  induction h as [|h IH]; intros xs ys Hx Hy Ht; cbn [tree_divergence Merkle.tree] in *.
  - cbn in Hx, Hy. destruct xs as [|x xs], ys as [|y ys]; cbn in *; try lia. by rewrite Ht, !take_0.
  - assert (2 ^ S h = 2 ^ h + 2 ^ h)%nat as Hp by (simpl; lia). rewrite Hp in *.
    case_bool_decide as E; [|by split].
    injection E as E1 E2.
    specialize (IH xs ys ltac:(lia) ltac:(lia) E1) as IH1.
    destruct (tree_divergence sha256 b h xs ys); [done|].
    specialize (IH (drop (2 ^ h) xs) (drop (2 ^ h) ys)). rewrite !length_drop in IH.
    specialize (IH ltac:(lia) ltac:(lia) E2).
    destruct (tree_divergence sha256 b h (drop (2 ^ h) xs) (drop (2 ^ h) ys)); [done|].
    rewrite <- !take_take_drop. congruence.
Qed.
End rows.

(** ** Serving *)
Section serving.
Variable sha256 : list Z -> Sha256Hash.

Lemma node_hash_returns c g fuel : catalog_ok c -> 0 <= g_first_piece g -> forall layer i,
  0 <= layer < Z.of_nat fuel -> 0 <= i -> returns (node_hash sha256 fuel c g layer i).
Proof.
  intros Hc Hf. induction fuel as [|f IH]; intros layer i Hl Hi; [lia|]. cbn [node_hash].
  repeat (lazymatch goal with
    | |- returns (zero_hash _ _) => unfold zero_hash
    | |- returns (g_piece_layer _) => unfold g_piece_layer, piece_layer
    | |- returns (PieceRoots_get _ _) => destruct (get_ok (piece_roots c) (g_first_piece g + i)) as [-> _]; [apply Hc|lia|]
    | |- returns (find_node _ _) => rewrite find_node_ok by apply Hc
    | |- returns (node_hash _ _ _ _ _ _) => fail
    | _ => returns_step end).
  all: assert (0 <= a1) by (destruct (g_piece_layer_inv g a1 ltac:(done)); lia).
  all: unfold ok_or in *; repeat case_match; simplify_eq.
  all: repeat match goal with H : checked_mul _ _ _ = Some _ |- _ => unfold checked_mul in H; case_match; simplify_eq
       | H : checked_add _ _ _ = Some _ |- _ => apply checked_add_Some in H as [-> _] end.
  all: apply IH; lia.
Qed.

(** What the catalog computes for a node is the node. *)
Lemma node_hash_authentic c g hs fuel :
  catalog_ok c -> 0 <= g_first_piece g -> authentic sha256 c g hs -> len hs = g_leaf_count g ->
  forall layer i h, 0 <= layer -> 0 <= i -> node_hash sha256 fuel c g layer i = Ok h ->
  h = tree_node sha256 layer i hs.
Proof.
  intros Hc Hf [Hauth1 Hauth2] Hlen. induction fuel as [|f IH]; intros layer i h Hl Hi; [done|].
  cbn [node_hash]. unfold mbind, outcome_bind, checked_shl.
  destruct (Z.ltb_spec layer 64); [|done]. cbn [ok_or].
  rewrite Z.shiftl_1_l, Z.mod_small
    by (split; [apply Z.pow_nonneg; lia|apply Z.pow_lt_mono_r; lia]).
  unfold checked_mul at 1. destruct (Z.ltb_spec (i * 2 ^ layer) (2 ^ 64)); [|done]. cbn [ok_or].
  destruct (Z.leb_spec (g_leaf_count g) (i * 2 ^ layer)).
  { unfold zero_hash, MAX_MERKLE_HEIGHT. destruct (Z.ltb_spec 35 layer); [done|]. cbn [map_err].
    intros. simplify_eq. symmetry. apply tree_node_padding; [done|done|]. rewrite Z.shiftl_mul_pow2 by done. lia. }
  destruct (g_piece_layer g) as [L|?| |] eqn:HL; try done.
  destruct (Z.eqb_spec layer L) as [->|].
  { destruct (get_ok (piece_roots c) (g_first_piece g + i)) as [-> _]; [apply Hc|lia|].
    unfold ok_or. destruct (root_at _ _) eqn:E; [|done]. intros. simplify_eq. eauto. }
  destruct (Z.ltb_spec L layer).
  - destruct (g_piece_layer_inv g L HL).
    unfold checked_mul. destruct (Z.ltb_spec (i * 2) (2 ^ 64)); [|done]. cbn [ok_or].
    unfold checked_add. destruct (Z.ltb_spec (i * 2 + 1) (2 ^ 64)); [|done]. cbn [ok_or].
    destruct (node_hash sha256 f c g (layer - 1) (i * 2)) as [l|?| |] eqn:E1; try done.
    destruct (node_hash sha256 f c g (layer - 1) (i * 2 + 1)) as [r|?| |] eqn:E2; try done.
    unfold mret, outcome_ret. intros. simplify_eq.
    apply IH in E1; [|lia..]. apply IH in E2; [|lia..]. subst.
    replace layer with (layer - 1 + 1) at 3 by lia. rewrite node_children by lia.
    by rewrite (Z.mul_comm i 2).
  - rewrite find_node_ok by apply Hc. unfold ok_or. destruct (node_at _ _) eqn:E; [|done].
    intros. simplify_eq. by apply Hauth2.
Qed.

Lemma base_hashes_row f layer hs n : forall i l, 0 <= i ->
  (forall j h, 0 <= j -> f j = Ok h -> h = tree_node sha256 layer j hs) ->
  base_hashes_of n f i = Ok l -> l = node_row sha256 layer i n hs.
Proof.
  induction n as [|n IH]; intros i l Hi Hf; cbn [base_hashes_of]; [by intros; simplify_eq|].
  unfold mbind, outcome_bind. destruct (f i) eqn:E; try done.
  destruct (base_hashes_of n f (i + 1)) eqn:E2; try done. intros. simplify_eq.
  cbn [node_row]. f_equal; [by apply Hf|]. apply (IH (i + 1)); [lia|done|done].
Qed.
Lemma proof_hashes_row f hs n : forall layer i l, 0 <= layer -> 0 <= i ->
  (forall y j h, 0 <= y -> 0 <= j -> f y j = Ok h -> h = tree_node sha256 y j hs) ->
  proof_hashes_of n f layer i = Ok l -> l = tree_proof sha256 n layer i hs.
Proof.
  induction n as [|n IH]; intros layer i l Hl Hi Hf; cbn [proof_hashes_of]; [by intros; simplify_eq|].
  assert (0 <= Z.lxor i 1) as Hx by (apply Z.lxor_nonneg; lia).
  unfold mbind, outcome_bind. destruct (f layer (Z.lxor i 1)) eqn:E; try done.
  destruct (proof_hashes_of n f (layer + 1) (Z.shiftr i 1)) eqn:E2; try done. intros. simplify_eq.
  cbn [tree_proof]. f_equal; [by apply Hf|]. apply (IH (layer + 1)); [lia| |done|done].
  apply Z.shiftr_nonneg. lia.
Qed.
Lemma base_hashes_returns f n : forall i, 0 <= i -> (forall j, 0 <= j -> returns (f j)) ->
  returns (base_hashes_of n f i).
Proof.
  induction n as [|n IH]; intros i Hi Hf; [done|]. cbn [base_hashes_of].
  repeat (returns_step || apply Hf || apply IH || lia); done.
Qed.
Lemma proof_hashes_returns f n : forall layer i, 0 <= layer -> 0 <= i ->
  (forall y j, 0 <= y < layer + Z.of_nat n -> 0 <= j -> returns (f y j)) ->
  returns (proof_hashes_of n f layer i).
Proof.
  induction n as [|n IH]; intros layer i Hl Hi Hf; [done|]. cbn [proof_hashes_of].
  assert (0 <= Z.lxor i 1) as Hx by (apply Z.lxor_nonneg; lia).
  repeat returns_step; [apply Hf; lia|].
  apply IH; [lia|by apply Z.shiftr_nonneg|]. intros. apply Hf; lia.
Qed.
End serving.

(** ** Authentic responses *)
Section authenticity.
Variable sha256 : list Z -> Sha256Hash.

Lemma valid_count_log g r v h k : valid_range g r v h k -> Z.log2_up (hr_count r) = k.
Proof. intros V. rewrite (vr_count _ _ _ _ _ V). apply Z.log2_up_pow2. apply (vr_k _ _ _ _ _ V). Qed.

(** The node above a validated range. *)
Lemma valid_row g r v h k hs : valid_range g r v h k ->
  tree sha256 (Z.to_nat (v_base_layer v)) (Z.to_nat k)
    (node_row sha256 (v_base_layer v) (hr_index r) (2 ^ Z.to_nat k) hs)
  = tree_node sha256 (v_subject_layer v) (v_subject_index v) hs.
Proof.
  intros V. pose proof (vr_range _ _ _ _ _ V). pose proof (vr_k _ _ _ _ _ V).
  pose proof (tree_row sha256 hs (Z.to_nat (v_base_layer v)) (Z.to_nat k) (v_subject_index v)
    (vr_index_pos _ _ _ _ _ V)) as Hrow.
  rewrite !Z2Nat.id in Hrow by lia. rewrite (vr_index _ _ _ _ _ V), (vr_subject _ _ _ _ _ V). exact Hrow.
Qed.

(** An authenticated response holds nodes of the tree, or a collision. *)
Lemma authenticated_nodes g resp hs v base proof :
  geometry_typed g -> request_typed (hs_request resp) -> file_leaves sha256 g hs ->
  authenticate_response sha256 g resp = Ok (v, base, proof) ->
  match response_divergence sha256 g resp hs with
  | Some d => is_collision sha256 d
  | None => exists n, base = node_row sha256 (v_base_layer v) (hr_index (hs_request resp)) n hs
      /\ proof = tree_proof sha256 (length proof) (v_subject_layer v) (v_subject_index v) hs
  end.
Proof.
  intros Hg Hr [Hlen Hroot] Hauth. unfold response_divergence.
  pose proof (authenticate_inv sha256 g resp Hg Hr) as Hinv. rewrite Hauth in *.
  destruct Hinv as (h & k & V & Hk1 & Hsplit & Hbase & Hproof & Hvp).
  rewrite (valid_count_log _ _ _ _ _ V). cbv zeta.
  pose proof (vr_range _ _ _ _ _ V). pose proof (vr_k _ _ _ _ _ V). pose proof (vr_leaves _ _ _ _ _ V).
  rewrite <- Hlen, Hroot in Hvp.
  apply verify_proof_inv in Hvp; [|change MAX_MERKLE_LEAVES with (2 ^ 35); lia|
    rewrite (vr_subject _ _ _ _ _ V); lia|apply (vr_index_pos _ _ _ _ _ V)].
  destruct Hvp as (_ & _ & Hd).
  destruct (last_divergence sha256 (v_subject_layer v) (v_subject_index v) _ proof hs); [done|].
  destruct Hd as [Hsub Hpf]. rewrite <- (valid_row g _ v h k hs V) in Hsub.
  assert (length base = 2 ^ Z.to_nat k)%nat as Hbl.
  { apply Nat2Z.inj. change (Z.of_nat (length base)) with (len base).
    rewrite Hbase, pow2_to_nat; [done|lia]. }
  pose proof (tree_divergence_ok sha256 _ _ _ _ ltac:(by rewrite Hbl) ltac:(by rewrite length_node_row) Hsub) as Htd.
  destruct (tree_divergence sha256 _ _ base _); [done|].
  rewrite !take_ge in Htd by (rewrite ?length_node_row; lia). eauto.
Qed.

Lemma tree_proof_nth n hs : forall layer i j h,
  0 <= j -> nth_get (tree_proof sha256 n layer i hs) j = Some h ->
  h = tree_node sha256 (layer + j) (Z.lxor (Z.shiftr i j) 1) hs.
Proof.
  induction n as [|n IH]; intros layer i j h Hj Hn; cbn [tree_proof] in Hn.
  - apply nth_get_lt in Hn. change (len (@nil Sha256Hash)) with 0 in Hn. lia.
  - destruct (decide (j = 0)) as [->|].
    + injection Hn as <-. by rewrite Z.add_0_r, Z.shiftr_0_r.
    + replace j with (j - 1 + 1) in Hn by lia. rewrite nth_get_S in Hn by lia.
      apply IH in Hn; [|lia]. rewrite Hn, Z.shiftr_shiftr by lia.
      replace (layer + 1 + (j - 1)) with (layer + j) by lia. by replace (1 + (j - 1)) with j by lia.
Qed.
Lemma node_row_nth layer n hs i j h :
  nth_get (node_row sha256 layer i n hs) j = Some h -> 0 <= j /\ h = tree_node sha256 layer (i + j) hs.
Proof.
  intros Hn. pose proof (nth_get_lt _ _ _ Hn) as Hj. unfold len in Hj. rewrite length_node_row in Hj.
  rewrite nth_node_row in Hn by lia. injection Hn as <-. split; [lia|done].
Qed.

(** Validation does not depend on whether one hash may be asked for, unless
    one hash is asked for. *)
Lemma validate_count_gt1 g r a b : hr_count r <> 1 ->
  validate_request_range g r a = validate_request_range g r b.
Proof. intros Hc. unfold validate_request_range. by rewrite (proj2 (Z.eqb_neq (hr_count r) 1) Hc). Qed.

Lemma check_padding_row v hs n : forall i,
  0 <= v_base_layer v <= 35 -> 0 <= i -> v_real_base_nodes v = div_ceil (len hs) (2 ^ v_base_layer v) ->
  check_padding sha256 v i (node_row sha256 (v_base_layer v) i n hs) = Ok tt.
Proof.
  induction n as [|n IH]; intros i Hb Hi Hv; [done|]. cbn [node_row check_padding].
  assert ((if v_real_base_nodes v <=? i
     then z ← map_err HE_Merkle (zero_hash sha256 (v_base_layer v));
          if negb (bool_decide (tree_node sha256 (v_base_layer v) i hs = z)) then Err HE_InvalidPaddingHash else Ok tt
     else Ok tt) = Ok tt) as ->.
  { destruct (Z.leb_spec (v_real_base_nodes v) i); [|done].
    rewrite zero_hash_ok by lia. unfold mbind, outcome_bind. cbn [map_err].
    rewrite tree_node_padding, bool_decide_true; [done|done|lia|done|].
    rewrite Z.shiftl_mul_pow2 by lia. pose proof (pow2_pos (v_base_layer v) ltac:(lia)).
    pose proof (div_ceil_spec (len hs) (2 ^ v_base_layer v) ltac:(lia)). nia. }
  unfold mbind, outcome_bind. apply IH; [done|lia|done].
Qed.

(** A response made of the tree's nodes is accepted. *)
Lemma authenticate_nodes g r v h k hs :
  validate_request_range g r false = Ok v -> valid_range g r v h k -> 1 <= k ->
  file_leaves sha256 g hs ->
  exists base proof, authenticate_response sha256 g
    (mkHashResponse r (node_row sha256 (v_base_layer v) (hr_index r) (Z.to_nat (hr_count r)) hs
       ++ tree_proof sha256 (Z.to_nat (proof_hash_count r)) (v_subject_layer v) (v_subject_index v) hs))
  = Ok (v, base, proof).
Proof.
  intros Hv V Hk1 [Hlen Hroot]. pose proof (vr_range _ _ _ _ _ V) as Hrg. pose proof (vr_k _ _ _ _ _ V) as Hk.
  pose proof (vr_leaves _ _ _ _ _ V) as Hn. pose proof (vr_subject _ _ _ _ _ V) as Hsub.
  pose proof (vr_index_pos _ _ _ _ _ V) as Hip. pose proof (pow2_pos k ltac:(lia)) as Hkp.
  pose proof (vr_height _ _ _ _ _ V) as Hh.
  unfold authenticate_response. cbn [hs_request hs_hashes]. unfold mbind, outcome_bind.
  rewrite Hv, (response_count_ok _ _ _ _ _ V), (vr_count _ _ _ _ _ V), (vr_proof _ _ _ _ _ V).
  set (row := node_row sha256 (v_base_layer v) (hr_index r) (Z.to_nat (2 ^ k)) hs).
  set (pf := tree_proof sha256 (Z.to_nat (h - v_subject_layer v)) (v_subject_layer v) (v_subject_index v) hs).
  assert (len row = 2 ^ k) as Hrow by (subst row; unfold len; rewrite length_node_row; lia).
  assert (len pf = h - v_subject_layer v) as Hpf by (subst pf; rewrite len_tree_proof; lia).
  rewrite len_app, Hrow, Hpf, Z.eqb_refl. cbn [negb].
  pose proof (Z.pow_le_mono_r 2 k 9 ltac:(lia) ltac:(lia)) as H9. change (2 ^ 9) with 512 in H9.
  rewrite (proj2 (Z.ltb_ge _ _)) by (unfold MAX_HASHES_PER_RESPONSE, MAX_HASH_REQUEST_COUNT, MAX_HASH_PROOF_LAYERS, MAX_MERKLE_HEIGHT; lia).
  rewrite slice_ok by len_lia. rewrite skip_app by done.
  replace (sub_list (row ++ pf) 0 (2 ^ k)) with row
    by (symmetry; apply (sub_list_middle [] row pf); [done|change (len (@nil Sha256Hash)) with 0; lia]).
  unfold row at 1. rewrite check_padding_row; [|lia| |by rewrite (vr_real _ _ _ _ _ V), Hlen].
  2:{ rewrite (vr_index _ _ _ _ _ V). lia. }
  destruct (subject_ok sha256 v k row) as (a & -> & ->); [lia|lia|lia|done|].
  unfold row. replace (Z.to_nat (2 ^ k)) with (2 ^ Z.to_nat k)%nat by (rewrite <- pow2_to_nat by lia; lia).
  rewrite (valid_row _ _ _ _ _ hs V). rewrite <- Hlen, Hroot.
  replace pf with (tree_proof sha256 (tree_height (len hs) - Z.to_nat (v_subject_layer v))
    (v_subject_layer v) (v_subject_index v) hs)
    by (unfold pf, tree_height; f_equal; rewrite Hlen, <- Hh; lia).
  rewrite verify_proof_accepts; [unfold mret, outcome_ret; cbn [map_err]; eauto|..].
  - change MAX_MERKLE_LEAVES with (2 ^ 35). lia.
  - rewrite Hlen, <- Hh. lia.
  - done.
  - rewrite Hlen. apply (valid_start _ _ _ _ _ V).
Qed.
End authenticity.

(** ** A new catalog *)
Lemma new_catalog_ok n : 0 <= n <= MAX_AUTHENTICATED_PIECE_ROOTS ->
  exists c, V2HashCatalog_new n = Ok c /\ catalog_ok c
    /\ (forall i, 0 <= i -> root_at (piece_roots c) i = None)
    /\ (forall k, node_at (proof_nodes c) k = None).
Proof.
  intros Hn. unfold V2HashCatalog_new, PieceRoots_new, maximum_catalog_allocation.
  rewrite (proj2 (Z.ltb_ge MAX_AUTHENTICATED_PIECE_ROOTS n)) by lia.
  unfold MAX_AUTHENTICATED_PIECE_ROOTS in *.
  assert (0 <= div_ceil n 64 <= 32768) as H1.
  { unfold div_ceil. split; [apply Z.div_pos; lia|apply Z.lt_succ_r, Z.div_lt_upper_bound; lia]. }
  assert (0 <= div_ceil n PIECE_ROOT_CHUNK <= 2048) as H2.
  { unfold div_ceil, PIECE_ROOT_CHUNK. split; [apply Z.div_pos; lia|apply Z.lt_succ_r, Z.div_lt_upper_bound; lia]. }
  unfold mbind, outcome_bind, option_bind, checked_mul, USIZE.
  rewrite (proj2 (Z.ltb_lt (n * 32) (2 ^ 64))) by lia. unfold checked_add.
  rewrite (proj2 (Z.ltb_lt (n * 32 + _) (2 ^ 64))) by lia.
  unfold SIZE_OF_OPTION_BOX, SIZE_OF_HASH_NODE, MAX_RETAINED_PROOF_NODES, MAX_HASH_CATALOG_BYTES.
  rewrite (proj2 (Z.ltb_lt (n * 32 + _ + _) (2 ^ 64))) by lia.
  rewrite (proj2 (Z.ltb_lt (n * 32 + _ + _ + _) (2 ^ 64))) by lia. cbn [ok_or].
  rewrite (proj2 (Z.ltb_ge _ _)) by lia. eexists. split; [done|].
  set (p := mkPieceRoots _ _ _ _).
  assert (forall i, known_bit p i = false) as Hbit.
  { intros i. unfold known_bit. destruct (nth_get (known p) (i / 64)) as [w|] eqn:E; [|done].
    apply (Forall_nth_get (fun w => w = 0)) in E; [|by apply Forall_replicate].
    rewrite E. apply Z.bits_0. }
  assert (roots_ok p) as Hp.
  { split; cbn [total root_chunks known p]; unfold MAX_AUTHENTICATED_PIECE_ROOTS; [lia| | | |].
    - rewrite len_replicate. lia.
    - rewrite len_replicate. lia.
    - by apply Forall_replicate.
    - intros i _. by rewrite Hbit. }
  split; [|split].
  - by split.
  - intros i Hi. destruct (get_ok p i Hp Hi) as [_ Hg]. cbn [piece_roots].
    destruct (root_at p i); [|done]. destruct Hg as [Hg _]. destruct Hg as [_ Hb]; [done|].
    by rewrite Hbit in Hb.
  - done.
Qed.

(** * Properties *)

(** Inserting a hash response is atomic.  On a well-formed catalog,
    [insert_response] returns; if it reports an error, whatever the error,
    the catalog is exactly as before, and if it succeeds the number returned
    is the number of newly known piece roots and the catalog is well-formed
    again: the nodes sorted, the presence bitmap matching the chunks, the
    limits on nodes and bytes kept. *)
Theorem insert_response_atomic sha256 g resp c c' r :
  catalog_ok c -> geometry_typed g -> request_typed (hs_request resp) ->
  insert_response sha256 g resp c = (c', r) ->
  returns r /\ catalog_ok c' /\ allocated_bytes (accounting c') <= MAX_HASH_CATALOG_BYTES
  /\ match r with
     | Ok n => known_count (piece_roots c') = known_count (piece_roots c) + n
     | _ => c' = c
     end.
Proof.
  intros Hc Hg Hr E. pose proof (insert_response_inv sha256 g resp c Hc Hg Hr) as H. rewrite E in H.
  destruct r as [n|e| |]; [|subst c'|done|done].
  - destruct H as (v & base & proof & _ & Hc' & _ & Hn & _). split_and!; [done|done|by apply accounting_bound|done].
  - split_and!; [done|done|by apply accounting_bound|done].
Qed.

(** C2: The catalog never learns a hash that is not in the file's tree, up
    to collisions of SHA-256.  If everything the catalog knows about a file is
    in the tree over the file's leaves, the same holds after any response is
    inserted, accepted or not: piece roots, range nodes and proof nodes
    alike.  The only exception is a response that exhibits, explicitly, two
    different pairs of hashes with one digest. *)
Theorem insert_response_authentic sha256 g resp hs c c' r :
  catalog_ok c -> geometry_typed g -> request_typed (hs_request resp) ->
  file_leaves sha256 g hs -> authentic sha256 c g hs ->
  insert_response sha256 g resp c = (c', r) ->
  match response_divergence sha256 g resp hs with
  | Some d => is_collision sha256 d
  | None => authentic sha256 c' g hs
  end.
Proof.
  intros Hc Hg Hr Hf Hauth E.
  pose proof (insert_response_inv sha256 g resp c Hc Hg Hr) as H. rewrite E in H.
  destruct (authenticate_response sha256 g resp) as [[[v base] proof]|?| |] eqn:Ha.
  2-4: unfold response_divergence; rewrite Ha; destruct r; [by destruct H as (? & ? & ? & ? & _)|by subst|done..].
  pose proof (authenticated_nodes sha256 g resp hs v base proof Hg Hr Hf Ha) as Hn.
  destruct (response_divergence sha256 g resp hs); [done|]. destruct Hn as (n & Hbase & Hproof).
  destruct r as [m|e| |]; [|by subst|done|done].
  destruct H as (v' & base' & proof' & E' & _ & _ & _ & Hroots & Hnodes).
  injection E' as <- <- <-.
  destruct Hauth as [Ha1 Ha2]. destruct (rt_index _ Hr) as [Hidx _]. destruct (gt_first _ Hg) as [Hfirst _].
  split.
  - intros L i hash HL Hi Hin Hat.
    destruct (Hroots (g_first_piece g + i) hash ltac:(lia) Hat) as [?|(_ & HL' & j & Ej & Hj & _)]; [eauto|].
    cbn [fst snd] in *. rewrite HL in HL'. injection HL' as ->. rewrite Hbase in Hj.
    apply node_row_nth in Hj as [_ ->]. f_equal. lia.
  - intros layer i hash Hl Hi Hat.
    destruct (Hnodes _ _ Hat) as [?|[(_ & j & Ej & Hj & _)|(j & Ej & Hj)]]; [eauto|..].
    + cbn [fst snd] in *. injection Ej as -> ->. rewrite Hbase in Hj.
      by apply node_row_nth in Hj as [_ ->].
    + injection Ej as -> ->. pose proof (nth_get_lt _ _ _ Hj). rewrite Hproof in Hj.
      apply tree_proof_nth in Hj; [done|lia].
Qed.

(** What the catalog serves, a peer accepts.  [response_for] returns on
    every request; if it builds a response from an authentic catalog for a
    request of more than one hash, the response passes every check a
    downloading peer makes in [insert_response] before it stores anything. *)
Theorem response_for_accepted sha256 g request allow hs c :
  catalog_ok c -> geometry_typed g -> request_typed request ->
  file_leaves sha256 g hs -> authentic sha256 c g hs ->
  returns (response_for sha256 c g request allow) /\
  forall resp, response_for sha256 c g request allow = Ok resp -> hr_count request <> 1 ->
    hs_request resp = request /\ exists out, authenticate_response sha256 g resp = Ok out.
Proof.
  intros Hc Hg Hr Hf Hauth. unfold response_for.
  pose proof (validate_returns g request allow) as Hret.
  destruct (validate_request_range g request allow) as [v|?| |] eqn:Hv; try done.
  destruct (validate_inv _ _ _ _ Hg Hr Hv) as (h & k & V & _).
  unfold mbind at 1, outcome_bind at 1. rewrite (response_count_ok _ _ _ _ _ V).
  pose proof (vr_range _ _ _ _ _ V) as Hrg. pose proof (vr_k _ _ _ _ _ V) as Hk.
  destruct (rt_index _ Hr) as [Hidx _]. destruct (gt_first _ Hg) as [Hfirst _].
  pose proof (vr_index_pos _ _ _ _ _ V) as Hip. pose proof (vr_subject _ _ _ _ _ V) as Hsub.
  set (f := fun layer sibling => sibling_start ← ok_or (checked_shl 64 sibling layer) HE_ArithmeticOverflow;
       if g_leaf_count g <=? sibling_start then map_err HE_Merkle (zero_hash sha256 layer)
       else node_hash sha256 NODE_FUEL c g layer sibling).
  assert (forall layer i, 0 <= layer < 256 -> 0 <= i -> returns (node_hash sha256 NODE_FUEL c g layer i)) as Hnr.
  { intros. apply node_hash_returns; done. }
  split.
  - repeat returns_step; try done.
    + apply base_hashes_returns; [done|]. intros. apply Hnr; lia.
    + apply proof_hashes_returns; [lia|done|]. intros y j Hy Hj.
      rewrite (vr_proof _ _ _ _ _ V) in Hy. subst f. cbv beta.
      repeat returns_step; [unfold zero_hash; by case_match|apply Hnr; lia].
  - intros resp E Hc1. unfold mbind, outcome_bind in E.
    destruct (base_hashes_of _ _ (hr_index request)) as [base|?| |] eqn:E1; try done.
    destruct (proof_hashes_of _ f _ _) as [proof|?| |] eqn:E2; try done.
    unfold mret, outcome_ret in E. simplify_eq. split; [done|].
    destruct Hf as [Hlen Hroot].
    assert (forall y j x, 0 <= y -> 0 <= j -> node_hash sha256 NODE_FUEL c g y j = Ok x -> x = tree_node sha256 y j hs) as Hna.
    { intros y j x Hy Hj. by apply (node_hash_authentic sha256 c g hs NODE_FUEL). }
    apply (base_hashes_row sha256 _ (v_base_layer v) hs) in E1; [|done|intros; apply Hna; [lia|done..]].
    apply (proof_hashes_row sha256 _ hs) in E2; [|lia|done|].
    2:{ intros y j x Hy Hj. unfold f, mbind, outcome_bind, checked_shl.
        destruct (Z.ltb_spec y 64); [|done]. cbn [ok_or].
        destruct (Z.leb_spec (g_leaf_count g) (Z.shiftl j y mod 2 ^ 64)); [|by apply Hna].
        unfold zero_hash, MAX_MERKLE_HEIGHT. destruct (Z.ltb_spec 35 y); [done|]. cbn [map_err].
        intros. simplify_eq. symmetry. apply tree_node_padding; [done|done|].
        rewrite Hlen. etransitivity; [done|]. apply Z.mod_le; [apply Z.shiftl_nonneg; done|done]. }
    subst base proof. rewrite (validate_count_gt1 _ _ allow false Hc1) in Hv.
    destruct (validate_inv _ _ _ _ Hg Hr Hv) as (h' & k' & V' & Hk1).
    destruct (authenticate_nodes sha256 g request v h' k' hs Hv V' (Hk1 eq_refl) ltac:(done)) as (b & p & ->). eauto.
Qed.

(** ** Witnesses: a file of three blocks, each block a piece *)
Definition sample_leaves : list Sha256Hash := [[1]; [2]; [3]].
Definition sample_geometry : V2FileHashGeometry :=
  mkGeometry (tree toy_sha256 0 2 sample_leaves) 40000 16384 0 3.
Definition sample_request : HashRequest :=
  mkHashRequest (tree toy_sha256 0 2 sample_leaves) 0 0 2 1.
Definition sample_response : HashResponse :=
  mkHashResponse sample_request
    (node_row toy_sha256 0 0 2 sample_leaves ++ tree_proof toy_sha256 1 1 0 sample_leaves).

Lemma sample_typed : geometry_typed sample_geometry /\ request_typed sample_request.
Proof. split; split; vm_compute; repeat split; congruence. Qed.
Lemma sample_file : file_leaves toy_sha256 sample_geometry sample_leaves.
Proof. split; vm_compute; reflexivity. Qed.
Lemma fresh_authentic c :
  (forall i, 0 <= i -> root_at (piece_roots c) i = None) -> (forall k, node_at (proof_nodes c) k = None) ->
  authentic toy_sha256 c sample_geometry sample_leaves.
Proof.
  intros Hr Hn. split.
  - intros L i h _ Hi _ E. rewrite Hr in E by (cbn; lia). done.
  - intros layer i h _ _ E. by rewrite Hn in E.
Qed.

(** Inserting the sample response makes two piece roots known. *)
Example sample_insert :
  match V2HashCatalog_new 3 with
  | Ok c => (insert_response toy_sha256 sample_geometry sample_response c).2
  | _ => NoFuel
  end = Ok 2.
Proof. vm_compute. reflexivity. Qed.

Lemma insert_response_atomic_witness :
  exists c, catalog_ok c /\
  let out := insert_response toy_sha256 sample_geometry sample_response c in
  returns out.2 /\ catalog_ok out.1 /\ allocated_bytes (accounting out.1) <= MAX_HASH_CATALOG_BYTES
  /\ match out.2 with
     | Ok n => known_count (piece_roots out.1) = known_count (piece_roots c) + n
     | _ => out.1 = c
     end.
Proof.
  destruct (new_catalog_ok 3) as (c & _ & Hc & _); [vm_compute; split; congruence|].
  exists c. split; [exact Hc|]. cbv zeta.
  apply (insert_response_atomic toy_sha256 sample_geometry sample_response c); [exact Hc|apply sample_typed|apply sample_typed|].
  apply surjective_pairing.
Defined.

Lemma insert_response_authentic_witness :
  exists c, authentic toy_sha256 c sample_geometry sample_leaves /\
  match response_divergence toy_sha256 sample_geometry sample_response sample_leaves with
  | Some d => is_collision toy_sha256 d
  | None => authentic toy_sha256 (insert_response toy_sha256 sample_geometry sample_response c).1
              sample_geometry sample_leaves
  end.
Proof.
  destruct (new_catalog_ok 3) as (c & _ & Hc & Hr & Hn); [vm_compute; split; congruence|].
  exists c. pose proof (fresh_authentic c Hr Hn) as Ha. split; [exact Ha|].
  apply (insert_response_authentic toy_sha256 sample_geometry sample_response sample_leaves c _
           (insert_response toy_sha256 sample_geometry sample_response c).2);
    [exact Hc|apply sample_typed|apply sample_typed|exact sample_file|exact Ha|apply surjective_pairing].
Defined.

Lemma response_for_accepted_witness :
  exists c, catalog_ok c /\
  returns (response_for toy_sha256 c sample_geometry sample_request true) /\
  forall resp, response_for toy_sha256 c sample_geometry sample_request true = Ok resp -> 2 <> 1 ->
    hs_request resp = sample_request /\
    exists out, authenticate_response toy_sha256 sample_geometry resp = Ok out.
Proof.
  destruct (new_catalog_ok 3) as (c & _ & Hc & Hr & Hn); [vm_compute; split; congruence|].
  exists c. split; [exact Hc|].
  exact (response_for_accepted toy_sha256 sample_geometry sample_request true sample_leaves c
    Hc (proj1 sample_typed) (proj2 sample_typed) sample_file (fresh_authentic c Hr Hn)).
Defined.
