(* ===== verification/PeerWire.v ===== *)
(** * PeerWire: the peer wire protocol of [peer_wire.rs]

    The handshake and its hybrid v1/v2 upgrade, the messages with their
    encoder, and the frame decoder, a state machine that is fed arbitrary
    pieces of the peer's byte stream. *)
From S2P Require Import Prelude Bytes Identity Merkle V2Hashes.

(** From [metainfo.rs]. *)
Definition MAX_METAINFO_PIECES : Z := 2097152.

Definition HANDSHAKE_LENGTH : Z := 68.
Definition MAX_REQUEST_BLOCK_LENGTH : Z := 16 * 1024.
Definition MAX_CORE_FRAME_LENGTH : Z := 9 + MAX_REQUEST_BLOCK_LENGTH.
Definition MAX_EXTENSION_PAYLOAD_LENGTH : Z := 17 * 1024.
Definition MAX_BITFIELD_PAYLOAD_LENGTH : Z := div_ceil MAX_METAINFO_PIECES 8.
Definition MAX_FRAME_LENGTH : Z := 1 + MAX_BITFIELD_PAYLOAD_LENGTH.
Definition MAX_DECODER_INPUT_LENGTH : Z := 64 * 1024.
Definition EXTENSION_PROTOCOL_RESERVED_INDEX : Z := 5.
Definition EXTENSION_PROTOCOL_RESERVED_BIT : Z := 16.
Definition FAST_EXTENSION_RESERVED_INDEX : Z := 7.
Definition FAST_EXTENSION_RESERVED_BIT : Z := 4.
Definition HYBRID_V2_RESERVED_INDEX : Z := 7.
Definition HYBRID_V2_RESERVED_BIT : Z := 16.
Definition MAX_MESSAGES_PER_PUSH : Z := 1024.
(** "BitTorrent protocol" *)
Definition PROTOCOL_NAME : list Z :=
  [66; 105; 116; 84; 111; 114; 114; 101; 110; 116; 32; 112; 114; 111; 116; 111; 99; 111; 108].

Inductive PeerProtocol := PP_V1 | PP_V2.
#[export] Instance PeerProtocol_eq_dec : EqDecision PeerProtocol.
Proof. solve_decision. Defined.

(** ** Handshake *)
Record Handshake := mkHandshake { peer_id : list Z; reserved : list Z }.

Definition reserved_bit (bytes : list Z) (i bit : Z) : bool :=
  match nth_get bytes i with Some b => negb (Z.land b bit =? 0) | None => false end.
Definition supports_extensions (h : Handshake) : bool :=
  reserved_bit (reserved h) EXTENSION_PROTOCOL_RESERVED_INDEX EXTENSION_PROTOCOL_RESERVED_BIT.
Definition supports_fast_extension (h : Handshake) : bool :=
  reserved_bit (reserved h) FAST_EXTENSION_RESERVED_INDEX FAST_EXTENSION_RESERVED_BIT.
Definition supports_hybrid_v2 (h : Handshake) : bool :=
  reserved_bit (reserved h) HYBRID_V2_RESERVED_INDEX HYBRID_V2_RESERVED_BIT.

Record HybridHandshakeSelection := mkSelection {
  sel_handshake : Handshake;
  sel_protocol : PeerProtocol;
  sel_swarm_key : SwarmKey;
}.
Record NegotiatedPeerCapabilities := mkCapabilities { fast_extension : bool }.
Definition negotiate (local_reserved : list Z) (remote : Handshake) : NegotiatedPeerCapabilities :=
  mkCapabilities (reserved_bit local_reserved FAST_EXTENSION_RESERVED_INDEX FAST_EXTENSION_RESERVED_BIT
                  && supports_fast_extension remote).

Inductive HandshakeError :=
| InvalidLength (actual : Z)
| InvalidProtocol
| InfoHashMismatch.

Definition encode_handshake_with_reserved (info_hash peer_id reserved : list Z) : list Z :=
  [len PROTOCOL_NAME] ++ PROTOCOL_NAME ++ reserved ++ info_hash ++ peer_id.
Definition encode_handshake (info_hash peer_id : list Z) : list Z :=
  encode_handshake_with_reserved info_hash peer_id (replicate 8 0).

(** The checks the two decoders share. *)
Definition check_protocol (bytes : list Z) : outcome HandshakeError unit :=
  if negb (len bytes =? HANDSHAKE_LENGTH) then Err (InvalidLength (len bytes))
  else
    b0 ← index bytes 0;
    name ← slice bytes 1 20;
    if negb (b0 =? len PROTOCOL_NAME) || negb (bool_decide (name = PROTOCOL_NAME))
    then Err InvalidProtocol else Ok tt.

Definition decode_handshake (bytes expected_info_hash : list Z) : outcome HandshakeError Handshake :=
  check_protocol bytes ≫= fun _ =>
  hash ← slice bytes 28 48;
  if negb (bool_decide (hash = expected_info_hash)) then Err InfoHashMismatch
  else
    id ← slice bytes 48 68;
    res ← slice bytes 20 28;
    mret (mkHandshake id res).

Definition decode_handshake_fields (bytes : list Z) : outcome HandshakeError (Handshake * list Z) :=
  check_protocol bytes ≫= fun _ =>
  wire_hash ← slice bytes 28 48;
  id ← slice bytes 48 68;
  res ← slice bytes 20 28;
  mret (mkHandshake id res, wire_hash).

Definition decode_hybrid_response (bytes : list Z) (v1_key v2_key : SwarmKey) (upgrade_offered : bool)
    : outcome HandshakeError HybridHandshakeSelection :=
  '(handshake, wire_hash) ← decode_handshake_fields bytes;
  if bool_decide (wire_hash = SwarmKey_into_bytes v1_key)
  then Ok (mkSelection handshake PP_V1 v1_key)
  else if upgrade_offered && bool_decide (wire_hash = SwarmKey_into_bytes v2_key)
  then Ok (mkSelection handshake PP_V2 v2_key)
  else Err InfoHashMismatch.

Definition is_v1_key (k : SwarmKey) : bool := match k with SK_V1 _ => true | V2Truncated _ => false end.
Definition hybrid_response_key (request_key : SwarmKey) (request : Handshake) (hashes : InfoHashes)
    : outcome HandshakeError SwarmKey :=
  match is_v1_key request_key && supports_hybrid_v2 request, v2 hashes with
  | true, Some h => Ok (V2InfoHash_swarm_key h)
  | _, _ =>
    let known := for_each hashes
      (fun known i => known || bool_decide (FullInfoHash_swarm_key i = request_key)) false in
    if known then Ok request_key else Err InfoHashMismatch
  end.

(** ** Messages *)
Record BlockRequest := mkBlockRequest { br_index : Z; br_begin : Z; br_length : Z }.

Inductive PeerMessage :=
| KeepAlive
| Choke
| Unchoke
| Interested
| NotInterested
| Have (piece : Z)
| Bitfield (bits : list Z)
| Request (request : BlockRequest)
| Cancel (request : BlockRequest)
| Piece (piece begin : Z) (block : list Z)
| SuggestPiece (piece : Z)
| HaveAll
| HaveNone
| RejectRequest (request : BlockRequest)
| AllowedFast (piece : Z)
| Extended (id : Z) (payload : list Z)
| PM_HashRequest (request : HashRequest)
| Hashes (response : HashResponse)
| HashReject (request : HashRequest).

#[export] Instance BlockRequest_eq_dec : EqDecision BlockRequest.
Proof. solve_decision. Defined.
#[export] Instance HashResponse_eq_dec : EqDecision HashResponse.
Proof. unfold EqDecision, Sha256Hash. solve_decision. Defined.
#[export] Instance PeerMessage_eq_dec : EqDecision PeerMessage.
Proof. solve_decision. Defined.

Inductive FrameError :=
| InputChunkTooLarge (length maximum : Z)
| FrameLengthTooLarge (length maximum : Z)
| InvalidMessageLength (id length : Z)
| RequestBlockTooLarge (length maximum : Z)
| InvalidHashRequest
| InvalidHashCount (expected actual : Z)
| UnsupportedMessage (id : Z)
| TooManyMessages (maximum : Z).

Definition validate_request_length (length : Z) : outcome FrameError unit :=
  if (length =? 0) || (MAX_REQUEST_BLOCK_LENGTH <? length)
  then Err (RequestBlockTooLarge length MAX_REQUEST_BLOCK_LENGTH) else Ok tt.

Definition validate_hash_wire_request (r : HashRequest) (allow_count_one : bool)
    : outcome FrameError unit :=
  if (hr_count r =? 0) || (MAX_HASH_REQUEST_COUNT <? hr_count r)
     || negb (is_power_of_two (hr_count r)) || ((hr_count r =? 1) && negb allow_count_one)
     || negb (is_multiple_of (hr_index r) (hr_count r))
     || (MAX_HASH_PROOF_LAYERS <? hr_proof_layers r)
  then Err InvalidHashRequest else Ok tt.

Definition encode_hash_request_payload (r : HashRequest) : list Z :=
  hr_pieces_root r ++ to_be 4 (hr_base_layer r) ++ to_be 4 (hr_index r) ++ to_be 4 (hr_count r)
  ++ to_be 4 (hr_proof_layers r).

(** [u32::try_from] *)
Definition u32_try_from (x : Z) : option Z := if x <? 2 ^ 32 then Some x else None.

Definition encode_request (id : Z) (r : BlockRequest) : outcome FrameError (list Z) :=
  validate_request_length (br_length r) ≫= fun _ =>
  mret (id :: to_be 4 (br_index r) ++ to_be 4 (br_begin r) ++ to_be 4 (br_length r)).

(** The message ID and payload, without the length prefix. *)
Definition encode_payload (message : PeerMessage) : outcome FrameError (list Z) :=
  match message with
  | KeepAlive => Ok []
  | Choke => Ok [0]
  | Unchoke => Ok [1]
  | Interested => Ok [2]
  | NotInterested => Ok [3]
  | Have i => Ok (4 :: to_be 4 i)
  | Bitfield bits => Ok (5 :: bits)
  | Request r => encode_request 6 r
  | Cancel r => encode_request 8 r
  | RejectRequest r => encode_request 16 r
  | Piece i begin block =>
    block_length ← ok_or (u32_try_from (len block)) (RequestBlockTooLarge (umax 32) MAX_REQUEST_BLOCK_LENGTH);
    validate_request_length block_length ≫= fun _ =>
    mret (7 :: to_be 4 i ++ to_be 4 begin ++ block)
  | SuggestPiece i => Ok (13 :: to_be 4 i)
  | HaveAll => Ok [14]
  | HaveNone => Ok [15]
  | AllowedFast i => Ok (17 :: to_be 4 i)
  | Extended id payload =>
    if MAX_EXTENSION_PAYLOAD_LENGTH <? len payload
    then Err (FrameLengthTooLarge (len payload) MAX_EXTENSION_PAYLOAD_LENGTH)
    else Ok (20 :: id :: payload)
  | PM_HashRequest r =>
    validate_hash_wire_request r false ≫= fun _ => mret (21 :: encode_hash_request_payload r)
  | Hashes response =>
    validate_hash_wire_request (hs_request response) true ≫= fun _ =>
    expected ← map_err (fun _ => InvalidHashRequest) (response_hash_count (hs_request response));
    if negb (len (hs_hashes response) =? expected)
    then Err (InvalidHashCount expected (len (hs_hashes response)))
    else Ok (22 :: encode_hash_request_payload (hs_request response) ++ concat (hs_hashes response))
  | HashReject r =>
    validate_hash_wire_request r true ≫= fun _ => mret (23 :: encode_hash_request_payload r)
  end.

Definition payload_maximum (message : PeerMessage) : Z :=
  match message with
  | Extended _ _ => 2 + MAX_EXTENSION_PAYLOAD_LENGTH
  | Bitfield _ => 1 + MAX_BITFIELD_PAYLOAD_LENGTH
  | PM_HashRequest _ | HashReject _ => 1 + HASH_REQUEST_PAYLOAD_LENGTH
  | Hashes _ => MAX_HASH_MESSAGE_LENGTH
  | _ => MAX_CORE_FRAME_LENGTH
  end.

Definition encode_message (message : PeerMessage) : outcome FrameError (list Z) :=
  match message with
  | KeepAlive => Ok [0; 0; 0; 0]
  | _ =>
    payload ← encode_payload message;
    if payload_maximum message <? len payload
    then Err (FrameLengthTooLarge (len payload) (payload_maximum message))
    else Ok (to_be 4 (len payload) ++ payload)
  end.

(** ** Decoding one frame *)
Definition exact_length (id actual expected : Z) : outcome FrameError unit :=
  if negb (actual =? expected) then Err (InvalidMessageLength id actual) else Ok tt.

Definition read_u32 (payload : list Z) (start : Z) : outcome FrameError Z :=
  bytes ← slice payload start (start + 4); Ok (of_be bytes).

Definition frame_maximum (id : Z) (protocol : PeerProtocol) : outcome FrameError Z :=
  if id =? 5 then Ok (1 + MAX_BITFIELD_PAYLOAD_LENGTH)
  else if id =? 20 then Ok (2 + MAX_EXTENSION_PAYLOAD_LENGTH)
  else if (21 <=? id) && (id <=? 23) && bool_decide (protocol = PP_V1) then Err (UnsupportedMessage id)
  else if (id =? 21) || (id =? 23) then Ok (1 + HASH_REQUEST_PAYLOAD_LENGTH)
  else if id =? 22 then Ok MAX_HASH_MESSAGE_LENGTH
  else Ok MAX_CORE_FRAME_LENGTH.

Definition decode_hash_request_payload (frame : list Z) : outcome FrameError HashRequest :=
  if len frame <? 5 + HASH_REQUEST_PAYLOAD_LENGTH
  then Err (InvalidMessageLength (default 0 (nth_get frame 4)) (saturating_sub (len frame) 4))
  else
    root ← slice frame 5 37;
    base ← read_u32 frame 37;
    i ← read_u32 frame 41;
    count ← read_u32 frame 45;
    layers ← read_u32 frame 49;
    mret (mkHashRequest root base i count layers).

(** [Vec::drain(..n)], which panics when the vector is shorter. *)
Definition drain {E A} (l : list A) (n : Z) : outcome E (list A) :=
  if len l <? n then Panic else Ok (skip l n).

Definition decode_request (frame : list Z) : outcome FrameError BlockRequest :=
  i ← read_u32 frame 5;
  begin ← read_u32 frame 9;
  length ← read_u32 frame 13;
  validate_request_length length ≫= fun _ => mret (mkBlockRequest i begin length).

Definition decode_hashes (frame : list Z) (id length : Z) : outcome FrameError PeerMessage :=
  if length <? 1 + HASH_REQUEST_PAYLOAD_LENGTH then Err (InvalidMessageLength id length)
  else
    request ← decode_hash_request_payload frame;
    validate_hash_wire_request request true ≫= fun _ =>
    expected ← map_err (fun _ => InvalidHashRequest) (response_hash_count request);
    let hash_bytes := length - 1 - HASH_REQUEST_PAYLOAD_LENGTH in
    if negb (is_multiple_of hash_bytes 32) then Err (InvalidMessageLength id length)
    else
      let actual := hash_bytes / 32 in
      if negb (actual =? expected) || (MAX_HASHES_PER_RESPONSE <? actual)
      then Err (InvalidHashCount expected actual)
      else
        rest ← drain frame (5 + HASH_REQUEST_PAYLOAD_LENGTH);
        mret (Hashes (mkHashResponse request (chunks 32 rest))).

(** The match on the message ID. *)
Definition decode_by_id (id length : Z) (frame : list Z) : outcome FrameError PeerMessage :=
  if id =? 0 then exact_length id length 1 ≫= fun _ => Ok Choke
  else if id =? 1 then exact_length id length 1 ≫= fun _ => Ok Unchoke
  else if id =? 2 then exact_length id length 1 ≫= fun _ => Ok Interested
  else if id =? 3 then exact_length id length 1 ≫= fun _ => Ok NotInterested
  else if id =? 4 then
    exact_length id length 5 ≫= fun _ => i ← read_u32 frame 5; Ok (Have i)
  else if id =? 5 then
    if length <? 2 then Err (InvalidMessageLength id length)
    else bits ← drain frame 5; Ok (Bitfield bits)
  else if (id =? 6) || (id =? 8) || (id =? 16) then
    exact_length id length 13 ≫= fun _ =>
    request ← decode_request frame;
    mret (if id =? 6 then Request request else if id =? 8 then Cancel request else RejectRequest request)
  else if id =? 7 then
    if (length <? 10) || (MAX_CORE_FRAME_LENGTH <? length) then Err (InvalidMessageLength id length)
    else
      i ← read_u32 frame 5;
      begin ← read_u32 frame 9;
      block ← drain frame 13;
      mret (Piece i begin block)
  else if (id =? 13) || (id =? 17) then
    exact_length id length 5 ≫= fun _ =>
    i ← read_u32 frame 5;
    mret (if id =? 13 then SuggestPiece i else AllowedFast i)
  else if id =? 14 then exact_length id length 1 ≫= fun _ => Ok HaveAll
  else if id =? 15 then exact_length id length 1 ≫= fun _ => Ok HaveNone
  else if id =? 20 then
    if length <? 2 then Err (InvalidMessageLength id length)
    else extension_id ← index frame 5; payload ← drain frame 6; mret (Extended extension_id payload)
  else if (id =? 21) || (id =? 23) then
    exact_length id length (1 + HASH_REQUEST_PAYLOAD_LENGTH) ≫= fun _ =>
    request ← decode_hash_request_payload frame;
    validate_hash_wire_request request (id =? 23) ≫= fun _ =>
    mret (if id =? 21 then PM_HashRequest request else HashReject request)
  else if id =? 22 then decode_hashes frame id length
  else Err (UnsupportedMessage id).

Definition decode_frame (frame : list Z) (protocol : PeerProtocol) : outcome FrameError PeerMessage :=
  id ← index frame 4;
  let length := len frame - 4 in
  maximum ← frame_maximum id protocol;
  if maximum <? length then Err (FrameLengthTooLarge length maximum)
  else decode_by_id id length frame.

(** ** The frame decoder *)
Record FrameDecoder := mkDecoder { buffer : list Z; protocol : PeerProtocol }.

Definition FrameDecoder_new : FrameDecoder := mkDecoder [] PP_V1.
Definition FrameDecoder_for_v2 : FrameDecoder := mkDecoder [] PP_V2.
Definition set_protocol (p : PeerProtocol) (d : FrameDecoder) : FrameDecoder := mkDecoder (buffer d) p.
Definition set_buffer (b : list Z) (d : FrameDecoder) : FrameDecoder := mkDecoder b (protocol d).

Definition required_buffer_length (d : FrameDecoder) : outcome FrameError Z :=
  if len (buffer d) <? 4 then Ok 4
  else
    prefix ← slice (buffer d) 0 4;
    let frame_length := of_be prefix in
    if MAX_FRAME_LENGTH <? frame_length then Err (FrameLengthTooLarge frame_length MAX_FRAME_LENGTH)
    else if negb (frame_length =? 0) && (len (buffer d) =? 4) then Ok 5
    else if negb (frame_length =? 0) then
      id ← index (buffer d) 4;
      maximum ← frame_maximum id (protocol d);
      if maximum <? frame_length then Err (FrameLengthTooLarge frame_length maximum)
      else Ok (4 + frame_length)
    else Ok (4 + frame_length).

(** [self.buffer.extend_from_slice(&input[consumed..consumed + copy_length])]
    for as much as is wanted and there is; the new [consumed]. *)
Definition copy_input (input : list Z) (consumed wanted : Z) : M FrameDecoder FrameError Z :=
  let copy_length := Z.min wanted (len input - consumed) in
  bytes ← lift (slice input consumed (consumed + copy_length));
  modify (fun d => set_buffer (buffer d ++ bytes) d);;
  mret (consumed + copy_length).

(** The body of the loop: [None] when it breaks, else the new [consumed] and
    the message pushed, if any. *)
Definition push_iteration (input : list Z) (consumed message_count : Z)
    : M FrameDecoder FrameError (option (Z * option PeerMessage)) :=
  d ← get;
  consumed ← (if len (buffer d) <? 4 then copy_input input consumed (4 - len (buffer d))
              else mret consumed);
  d ← get;
  if len (buffer d) <? 4 then mret (Some (consumed, None))
  else
    required ← lift (required_buffer_length d);
    if (len (buffer d) <? required) && (consumed =? len input) then mret None
    else
      consumed ← (if len (buffer d) <? required
                  then copy_input input consumed (required - len (buffer d)) else mret consumed);
      d ← get;
      required ← lift (required_buffer_length d);
      if len (buffer d) <? required then mret (Some (consumed, None))
      else if message_count =? MAX_MESSAGES_PER_PUSH then fail (TooManyMessages MAX_MESSAGES_PER_PUSH)
      else
        put (set_buffer [] d);;
        message ← (if required =? 4 then mret KeepAlive
                   else lift (decode_frame (buffer d) (protocol d)));
        mret (Some (consumed, Some message)).

Fixpoint push_loop (fuel : nat) (input : list Z) (consumed : Z) (messages : list PeerMessage)
    : M FrameDecoder FrameError (list PeerMessage) :=
  d ← get;
  if negb ((consumed <? len input) || (4 <=? len (buffer d))) then mret messages
  else
    match fuel with
    | O => lift NoFuel
    | S f =>
      next ← push_iteration input consumed (len messages);
      match next with
      | None => mret messages
      | Some (consumed, None) => push_loop f input consumed messages
      | Some (consumed, Some message) => push_loop f input consumed (messages ++ [message])
      end
    end.

(** Each iteration consumes input or empties the buffer. *)
Definition push_fuel (input : list Z) (d : FrameDecoder) : nat :=
  S (2 * length input + length (buffer d)).
Definition FrameDecoder_push (input : list Z) : M FrameDecoder FrameError (list PeerMessage) :=
  if MAX_DECODER_INPUT_LENGTH <? len input
  then fail (InputChunkTooLarge (len input) MAX_DECODER_INPUT_LENGTH)
  else d ← get; push_loop (push_fuel input d) input 0 [].

(** ** Specification *)

(** The values of the Rust types. *)
Definition block_request_ok (r : BlockRequest) : Prop :=
  is_u 32 (br_index r) /\ is_u 32 (br_begin r) /\ is_u 32 (br_length r).
Definition hash_request_ok (r : HashRequest) : Prop :=
  len (hr_pieces_root r) = 32 /\ is_bytes (hr_pieces_root r) /\ request_typed r.
Definition message_ok (m : PeerMessage) : Prop :=
  match m with
  | Have i | SuggestPiece i | AllowedFast i => is_u 32 i
  | Bitfield bits => is_bytes bits
  | Request r | Cancel r | RejectRequest r => block_request_ok r
  | Piece i begin block => is_u 32 i /\ is_u 32 begin /\ is_bytes block
  | Extended id payload => is_byte id /\ is_bytes payload
  | PM_HashRequest r | HashReject r => hash_request_ok r
  | Hashes resp => hash_request_ok (hs_request resp)
                   /\ Forall (fun h => len h = 32 /\ is_bytes h) (hs_hashes resp)
  | _ => True
  end.

(** What a decoder in this mode accepts of what the encoder produces: the
    hash messages only in v2 mode, and never an empty bitfield. *)
Definition decodable (p : PeerProtocol) (m : PeerMessage) : Prop :=
  match m with
  | Bitfield bits => bits <> []
  | PM_HashRequest _ | Hashes _ | HashReject _ => p = PP_V2
  | _ => True
  end.

(** Feed a stream to the decoder, one chunk per call. *)
Fixpoint feed (chunks : list (list Z)) : M FrameDecoder FrameError (list PeerMessage) :=
  match chunks with
  | [] => mret []
  | c :: r => ms ← FrameDecoder_push c; rest ← feed r; mret (ms ++ rest)
  end.

(** A complete frame and the message a decoder in mode [p] makes of it. *)
Definition wire_frame (p : PeerProtocol) (f : list Z) (m : PeerMessage) : Prop :=
  (f = [0; 0; 0; 0] /\ m = KeepAlive)
  \/ exists id body maximum, f = to_be 4 (1 + len body) ++ id :: body
       /\ 1 + len body <= MAX_FRAME_LENGTH /\ frame_maximum id p = Ok maximum /\ 1 + len body <= maximum
       /\ decode_frame f p = Ok m.

(** The frames still to come when the decoder holds a strict prefix of the
    first. *)
Definition pending (p : PeerProtocol) (buf : list Z) (fs : list (list Z)) (ms : list PeerMessage) : Prop :=
  Forall2 (wire_frame p) fs ms /\
  (buf = [] \/ exists f fs' t, fs = f :: fs' /\ f = buf ++ t /\ t <> []).

(** * Lemmas *)

(** ** Reading fields *)
Lemma read_u32_at pre x post start :
  len pre = start -> is_u 32 x -> read_u32 (pre ++ to_be 4 x ++ post) start = Ok x.
Proof.
  intros <- Hx. unfold read_u32. pose proof (len_nonneg pre). pose proof (len_nonneg post).
  rewrite slice_ok by (rewrite ?len_app, ?len_to_be; lia).
  unfold mbind, outcome_bind. rewrite (sub_list_middle pre (to_be 4 x) post) by (rewrite ?len_to_be; lia).
  by rewrite of_be_to_be.
Qed.
Lemma drain_at {E} (pre post : list Z) n : len pre = n -> @drain E Z (pre ++ post) n = Ok post.
Proof.
  intros <-. unfold drain. rewrite len_app. pose proof (len_nonneg post).
  rewrite (proj2 (Z.ltb_ge _ _)) by lia. by rewrite skip_app.
Qed.
Lemma index_at {E} (pre post : list Z) x n : len pre = n -> @index E Z (pre ++ x :: post) n = Ok x.
Proof. intros <-. unfold index. by rewrite nth_get_app_len. Qed.

Lemma request_length_ok n : 0 < n <= MAX_REQUEST_BLOCK_LENGTH -> validate_request_length n = Ok tt.
Proof.
  intros. unfold validate_request_length.
  by rewrite (proj2 (Z.eqb_neq _ _)), (proj2 (Z.ltb_ge _ _)) by lia.
Qed.
Lemma request_length_inv n : validate_request_length n = Ok tt -> n <> 0 /\ n <= MAX_REQUEST_BLOCK_LENGTH.
Proof.
  unfold validate_request_length.
  destruct (Z.eqb_spec n 0), (Z.ltb_spec MAX_REQUEST_BLOCK_LENGTH n); done.
Qed.

(** ** Encoding and decoding one message *)
Lemma decode_frame_eq pfx id body p :
  len pfx = 4 ->
  decode_frame (pfx ++ id :: body) p =
    maximum ← frame_maximum id p;
    if maximum <? 1 + len body then Err (FrameLengthTooLarge (1 + len body) maximum)
    else decode_by_id id (1 + len body) (pfx ++ id :: body).
Proof.
  intros Hp. unfold decode_frame. rewrite index_at by done. rewrite len_app, len_cons, Hp.
  by replace (4 + (1 + len body) - 4) with (1 + len body) by lia.
Qed.

Lemma read_u32_after pfx id x post : len pfx = 4 -> is_u 32 x ->
  read_u32 (pfx ++ id :: to_be 4 x ++ post) 5 = Ok x.
Proof.
  intros Hp Hx. change (id :: to_be 4 x ++ post) with ([id] ++ to_be 4 x ++ post). rewrite app_assoc.
  apply read_u32_at; [|done]. rewrite len_app, Hp. done.
Qed.

Lemma encode_request_inv id r payload : encode_request id r = Ok payload ->
  br_length r <> 0 /\ br_length r <= MAX_REQUEST_BLOCK_LENGTH
  /\ payload = id :: to_be 4 (br_index r) ++ to_be 4 (br_begin r) ++ to_be 4 (br_length r).
Proof.
  unfold encode_request, mbind, outcome_bind, mret, outcome_ret.
  destruct (validate_request_length (br_length r)) as [[]|?| |] eqn:E; try done.
  apply request_length_inv in E as []. intros. by simplify_eq.
Qed.
Lemma decode_request_ok pfx id r : len pfx = 4 -> block_request_ok r ->
  br_length r <> 0 -> br_length r <= MAX_REQUEST_BLOCK_LENGTH ->
  decode_request (pfx ++ id :: to_be 4 (br_index r) ++ to_be 4 (br_begin r) ++ to_be 4 (br_length r)) = Ok r.
Proof.
  intros Hp (H1 & H2 & H3) Hn Hm. unfold decode_request. rewrite read_u32_after by done.
  unfold mbind, outcome_bind. destruct r as [i b l]. cbn [br_index br_begin br_length] in *.
  replace (pfx ++ id :: to_be 4 i ++ to_be 4 b ++ to_be 4 l)
    with ((pfx ++ id :: to_be 4 i) ++ to_be 4 b ++ to_be 4 l) by (by rewrite <- app_assoc).
  rewrite read_u32_at by (done || (rewrite len_app, len_cons, len_to_be; lia)).
  replace ((pfx ++ id :: to_be 4 i) ++ to_be 4 b ++ to_be 4 l)
    with ((pfx ++ id :: to_be 4 i ++ to_be 4 b) ++ to_be 4 l ++ [])
    by (rewrite app_nil_r, <- !app_assoc; cbn [app]; by rewrite <- app_assoc).
  rewrite read_u32_at by (done || (rewrite len_app, len_cons, len_app, !len_to_be; lia)).
  rewrite request_length_ok by (unfold is_u in H3; lia). done.
Qed.

Lemma len_hash_payload r : hash_request_ok r ->
  len (encode_hash_request_payload r) = HASH_REQUEST_PAYLOAD_LENGTH.
Proof. intros (H & _ & _). unfold encode_hash_request_payload. rewrite !len_app, !len_to_be, H. done. Qed.

Lemma decode_hash_payload_ok pfx id r rest : len pfx = 4 -> hash_request_ok r ->
  decode_hash_request_payload (pfx ++ id :: encode_hash_request_payload r ++ rest) = Ok r.
Proof.
  intros Hp Hr. pose proof (len_hash_payload r Hr) as Hl. pose proof (len_nonneg rest).
  destruct Hr as (Hroot & _ & [Hb Hi Hc Hq]). unfold decode_hash_request_payload.
  rewrite len_app, len_cons, len_app, Hl, Hp. rewrite (proj2 (Z.ltb_ge _ _)) by lia.
  unfold encode_hash_request_payload. destruct r as [root b i c q].
  cbn [hr_pieces_root hr_base_layer hr_index hr_count hr_proof_layers] in *.
  set (f := pfx ++ id :: _).
  assert (f = (pfx ++ [id]) ++ root ++ to_be 4 b ++ to_be 4 i ++ to_be 4 c ++ to_be 4 q ++ rest) as E0
    by (subst f; rewrite <- !app_assoc; done).
  assert (f = (pfx ++ id :: root) ++ to_be 4 b ++ to_be 4 i ++ to_be 4 c ++ to_be 4 q ++ rest) as E1
    by (subst f; rewrite <- !app_assoc; done).
  assert (f = (pfx ++ id :: root ++ to_be 4 b) ++ to_be 4 i ++ to_be 4 c ++ to_be 4 q ++ rest) as E2
    by (subst f; rewrite <- !app_assoc; cbn [app]; by rewrite <- !app_assoc).
  assert (f = (pfx ++ id :: root ++ to_be 4 b ++ to_be 4 i) ++ to_be 4 c ++ to_be 4 q ++ rest) as E3
    by (subst f; rewrite <- !app_assoc; cbn [app]; by rewrite <- !app_assoc).
  assert (f = (pfx ++ id :: root ++ to_be 4 b ++ to_be 4 i ++ to_be 4 c) ++ to_be 4 q ++ rest) as E4
    by (subst f; rewrite <- !app_assoc; cbn [app]; by rewrite <- !app_assoc).
  unfold mbind, outcome_bind.
  rewrite slice_ok by (rewrite ?E0, ?len_app, ?len_cons, ?len_to_be; len_lia).
  assert (sub_list f 5 37 = root) as ->
    by (rewrite E0; apply sub_list_middle; rewrite ?len_app, ?Hp, ?Hroot; done).
  assert (read_u32 f 37 = Ok b) as ->
    by (rewrite E1; apply read_u32_at; [rewrite ?len_app, ?len_cons, ?len_to_be; lia|done]).
  assert (read_u32 f 41 = Ok i) as ->
    by (rewrite E2; apply read_u32_at; [rewrite ?len_app, ?len_cons, ?len_app, ?len_to_be; lia|done]).
  assert (read_u32 f 45 = Ok c) as ->
    by (rewrite E3; apply read_u32_at; [rewrite ?len_app, ?len_cons, ?len_app, ?len_to_be; lia|done]).
  assert (read_u32 f 49 = Ok q) as ->
    by (rewrite E4; apply read_u32_at; [rewrite ?len_app, ?len_cons, ?len_app, ?len_to_be; lia|done]).
  done.
Qed.

(** Hashes of 32 bytes are the chunks of their concatenation. *)
Lemma chunks_concat (hashes : list Sha256Hash) : Forall (fun h => len h = 32 /\ is_bytes h) hashes ->
  chunks 32 (concat hashes) = hashes /\ len (concat hashes) = 32 * len hashes.
Proof.
  induction 1 as [|h r [Hl _] _ [IH1 IH2]]; [done|]. cbn [concat]. split.
  - rewrite chunks_cons by (try done; intros E; apply (f_equal len) in E; len_lia).
    assert (Z.to_nat 32 = length h) as -> by (unfold len in Hl; lia).
    by rewrite take_app_length, drop_app_length, IH1.
  - rewrite len_app, len_cons. lia.
Qed.

(** What the encoder produces, the decoder in a matching mode returns. *)
Definition payload_decodes (p : PeerProtocol) (m : PeerMessage) (payload : list Z) : Prop :=
  exists id body, payload = id :: body /\ frame_maximum id p = Ok (payload_maximum m)
    /\ forall pfx, len pfx = 4 -> decode_by_id id (1 + len body) (pfx ++ id :: body) = Ok m.

Lemma decode_tag p m id : payload_maximum m = MAX_CORE_FRAME_LENGTH ->
  frame_maximum id p = Ok MAX_CORE_FRAME_LENGTH ->
  (forall frame, decode_by_id id 1 frame = Ok m) -> payload_decodes p m [id].
Proof. intros E1 E2 E3. exists id, []. rewrite E1, E2. split_and!; [done|done|]. intros. apply E3. Qed.

Lemma decode_index_message p m id i : is_u 32 i -> payload_maximum m = MAX_CORE_FRAME_LENGTH ->
  frame_maximum id p = Ok MAX_CORE_FRAME_LENGTH ->
  (forall frame, read_u32 frame 5 = Ok i -> decode_by_id id 5 frame = Ok m) ->
  payload_decodes p m (id :: to_be 4 i).
Proof.
  intros Hi E1 E2 E3. exists id, (to_be 4 i). rewrite E1, E2. split_and!; [done|done|].
  intros pfx Hp. rewrite len_to_be. apply E3.
  rewrite <- (app_nil_r (to_be 4 i)). by apply read_u32_after.
Qed.

Lemma decode_request_message p m id r payload : block_request_ok r ->
  payload_maximum m = MAX_CORE_FRAME_LENGTH -> frame_maximum id p = Ok MAX_CORE_FRAME_LENGTH ->
  encode_request id r = Ok payload ->
  (forall frame, decode_request frame = Ok r -> decode_by_id id 13 frame = Ok m) ->
  payload_decodes p m payload.
Proof.
  intros Hr E1 E2 (H1 & H2 & ->)%encode_request_inv E3.
  exists id, (to_be 4 (br_index r) ++ to_be 4 (br_begin r) ++ to_be 4 (br_length r)).
  rewrite E1, E2. split_and!; [done|done|]. intros pfx Hp. rewrite !len_app, !len_to_be.
  apply E3. by apply decode_request_ok.
Qed.

Lemma decode_piece p i begin block payload :
  message_ok (Piece i begin block) -> encode_payload (Piece i begin block) = Ok payload ->
  payload_decodes p (Piece i begin block) payload.
Proof.
  intros (H1 & H2 & H3) E. cbn [encode_payload] in E. unfold u32_try_from, mbind, outcome_bind, mret, outcome_ret in E.
  destruct (len block <? 2 ^ 32); [|done]. cbn [ok_or] in E.
  destruct (validate_request_length (len block)) as [[]|?| |] eqn:El; try done.
  apply request_length_inv in El as [Hne Hmax]. injection E as <-.
  exists 7, (to_be 4 i ++ to_be 4 begin ++ block). split_and!; [done|done|].
  intros pfx Hp. rewrite !len_app, !len_to_be. pose proof (len_nonneg block). unfold decode_by_id. cbn [Z.eqb Pos.eqb orb].
  rewrite (proj2 (Z.ltb_ge (1 + (Z.of_nat 4 + (Z.of_nat 4 + len block))) 10)) by lia.
  rewrite (proj2 (Z.ltb_ge MAX_CORE_FRAME_LENGTH _)) by (unfold MAX_CORE_FRAME_LENGTH, MAX_REQUEST_BLOCK_LENGTH in *; lia).
  cbn [orb]. unfold mbind, outcome_bind. rewrite read_u32_after by done.
  assert (pfx ++ 7 :: to_be 4 i ++ to_be 4 begin ++ block
    = (pfx ++ 7 :: to_be 4 i) ++ to_be 4 begin ++ block) as -> by (by rewrite <- app_assoc).
  rewrite read_u32_at by (done || (rewrite len_app, len_cons, len_to_be; lia)).
  rewrite app_assoc, drain_at by (rewrite !len_app, len_cons, !len_to_be; lia). done.
Qed.

Lemma hash_request_valid r b : hash_request_ok r -> validate_hash_wire_request r b = Ok tt ->
  exists n, response_hash_count r = Ok n.
Proof.
  intros (_ & _ & [_ _ Hc Hq]) E. unfold validate_hash_wire_request in E.
  destruct (Z.ltb_spec MAX_HASH_REQUEST_COUNT (hr_count r)); [by rewrite !orb_true_r in E|].
  destruct (Z.ltb_spec MAX_HASH_PROOF_LAYERS (hr_proof_layers r)); [by rewrite !orb_true_r in E|].
  unfold response_hash_count, checked_add, proof_hash_count, saturating_sub, is_u in *.
  assert (0 <= omitted_proof_layers r) by (unfold omitted_proof_layers, saturating_sub; lia).
  unfold MAX_HASH_REQUEST_COUNT, MAX_HASH_PROOF_LAYERS, MAX_MERKLE_HEIGHT, USIZE in *.
  rewrite (proj2 (Z.ltb_lt _ (2 ^ 64))) by lia. cbn [ok_or]. eauto.
Qed.

Lemma decode_hash_request_message m id r b payload :
  hash_request_ok r -> payload_maximum m = 1 + HASH_REQUEST_PAYLOAD_LENGTH ->
  frame_maximum id PP_V2 = Ok (1 + HASH_REQUEST_PAYLOAD_LENGTH) ->
  (validate_hash_wire_request r b ≫= fun _ => mret (id :: encode_hash_request_payload r)) = Ok payload ->
  (forall frame, decode_hash_request_payload frame = Ok r -> validate_hash_wire_request r b = Ok tt ->
     decode_by_id id (1 + HASH_REQUEST_PAYLOAD_LENGTH) frame = Ok m) ->
  payload_decodes PP_V2 m payload.
Proof.
  intros Hr E1 E2 E E3. unfold mbind, outcome_bind, mret, outcome_ret in E.
  destruct (validate_hash_wire_request r b) as [[]|?| |] eqn:Hv; try done. injection E as <-.
  exists id, (encode_hash_request_payload r). rewrite E1, E2. split_and!; [done|done|].
  intros pfx Hp. rewrite len_hash_payload by done. apply E3; [|done].
  rewrite <- (app_nil_r (encode_hash_request_payload r)). by apply decode_hash_payload_ok.
Qed.

Lemma decode_hashes_message resp payload :
  message_ok (Hashes resp) -> encode_payload (Hashes resp) = Ok payload ->
  len payload <= MAX_HASH_MESSAGE_LENGTH -> payload_decodes PP_V2 (Hashes resp) payload.
Proof.
  intros [Hr Hh] E Hmax. cbn [encode_payload] in E. unfold mbind, outcome_bind in E.
  destruct (validate_hash_wire_request (hs_request resp) true) as [[]|?| |] eqn:Hv; try done.
  destruct (hash_request_valid _ _ Hr Hv) as [n Hn]. rewrite Hn in E. cbn [map_err] in E.
  destruct (Z.eqb_spec (len (hs_hashes resp)) n) as [Hlen|]; [|done]. cbn [negb] in E. injection E as <-.
  destruct (chunks_concat _ Hh) as [Hchunks Hcl]. pose proof (len_hash_payload _ Hr) as Hlp.
  exists 22, (encode_hash_request_payload (hs_request resp) ++ concat (hs_hashes resp)).
  rewrite len_cons, len_app, Hlp, Hcl in Hmax.
  split_and!; [done|done|]. intros pfx Hp. rewrite len_app, Hlp, Hcl. pose proof (len_nonneg (hs_hashes resp)).
  change (decode_by_id 22 ?l ?f) with (decode_hashes f 22 l). unfold decode_hashes.
  rewrite (proj2 (Z.ltb_ge _ _)) by lia. rewrite decode_hash_payload_ok by done.
  unfold mbind, outcome_bind. rewrite Hv, Hn. cbn [map_err].
  replace (1 + (HASH_REQUEST_PAYLOAD_LENGTH + 32 * len (hs_hashes resp)) - 1 - HASH_REQUEST_PAYLOAD_LENGTH)
    with (len (hs_hashes resp) * 32) by lia.
  unfold is_multiple_of. rewrite Z.mod_mul, Z.div_mul, Hlen, !Z.eqb_refl by lia. cbn [negb orb].
  rewrite (proj2 (Z.ltb_ge MAX_HASHES_PER_RESPONSE n))
    by (unfold MAX_HASH_MESSAGE_LENGTH, MAX_HASH_RESPONSE_BYTES in Hmax; lia).
  assert (pfx ++ 22 :: encode_hash_request_payload (hs_request resp) ++ concat (hs_hashes resp)
    = (pfx ++ 22 :: encode_hash_request_payload (hs_request resp)) ++ concat (hs_hashes resp)) as ->
    by (by rewrite <- app_assoc).
  rewrite drain_at by (rewrite len_app, len_cons, Hlp; lia). rewrite Hchunks. by destruct resp.
Qed.

Lemma decode_payload p m payload :
  message_ok m -> decodable p m -> m <> KeepAlive -> encode_payload m = Ok payload ->
  len payload <= payload_maximum m -> payload_decodes p m payload.
Proof.
  intros Hm Hd Hka E Hmax. destruct m as [ | | | | |i|bits|r|r|i begin block|i| | |r|i|id pl|r|resp|r]; try done;
    cbn [message_ok decodable payload_maximum] in *; subst; cbn [encode_payload] in E;
    try (injection E as <-; apply decode_tag; done);
    try (injection E as <-; apply decode_index_message; [done..|];
         intros frame Hf; unfold decode_by_id; cbn; unfold mbind, outcome_bind; by rewrite Hf);
    try (eapply decode_request_message; [exact Hm|done| |exact E|]; [done|];
         intros frame Hf; unfold decode_by_id; cbn; unfold mbind, outcome_bind; by rewrite Hf).
  - injection E as <-. exists 5, bits. split_and!; [done|done|]. intros pfx Hp.
    change (decode_by_id 5 ?l ?f) with
      (if l <? 2 then @Err FrameError PeerMessage (InvalidMessageLength 5 l) else bits ← drain f 5; Ok (Bitfield bits)).
    assert (0 < len bits) by (destruct bits; [done|len_lia]).
    rewrite (proj2 (Z.ltb_ge _ _)) by lia.
    change (pfx ++ 5 :: bits) with (pfx ++ [5] ++ bits). rewrite app_assoc, drain_at by (rewrite len_app, Hp; done).
    done.
  - by apply decode_piece.
  - destruct (Z.ltb_spec MAX_EXTENSION_PAYLOAD_LENGTH (len pl)); [done|]. injection E as <-.
    exists 20, (id :: pl). split_and!; [done|done|]. intros pfx Hp. rewrite len_cons. pose proof (len_nonneg pl).
    change (decode_by_id 20 ?l ?f) with
      (if l <? 2 then @Err FrameError PeerMessage (InvalidMessageLength 20 l)
       else extension_id ← index f 5; payload ← drain f 6; mret (Extended extension_id payload)).
    rewrite (proj2 (Z.ltb_ge _ _)) by lia.
    change (pfx ++ 20 :: id :: pl) with (pfx ++ [20] ++ id :: pl). rewrite app_assoc.
    rewrite index_at by (rewrite len_app, Hp; done).
    change ((pfx ++ [20]) ++ id :: pl) with ((pfx ++ [20]) ++ [id] ++ pl). rewrite app_assoc, drain_at; [done|].
    rewrite !len_app, Hp. done.
  - eapply decode_hash_request_message; [exact Hm|done| |exact E|]; [done|].
    intros frame Hf Hv. unfold decode_by_id. cbn. unfold mbind, outcome_bind. rewrite Hf. cbn. by rewrite Hv.
  - by apply decode_hashes_message.
  - eapply decode_hash_request_message; [exact Hm|done| |exact E|]; [done|].
    intros frame Hf Hv. unfold decode_by_id. cbn. unfold mbind, outcome_bind. rewrite Hf. cbn. by rewrite Hv.
Qed.

Lemma payload_maximum_bound m : payload_maximum m <= MAX_FRAME_LENGTH.
Proof. destruct m; vm_compute; congruence. Qed.

Lemma encode_message_inv m f : encode_message m = Ok f ->
  (m = KeepAlive /\ f = [0; 0; 0; 0])
  \/ (m <> KeepAlive /\ exists payload, encode_payload m = Ok payload
      /\ len payload <= payload_maximum m /\ f = to_be 4 (len payload) ++ payload).
Proof.
  intros E. destruct (decide (m = KeepAlive)) as [->|Hne]; [left; split; [done|]; cbn in E; by simplify_eq|].
  right. split; [done|].
  assert (encode_message m = payload ← encode_payload m;
    if payload_maximum m <? len payload
    then Err (FrameLengthTooLarge (len payload) (payload_maximum m))
    else Ok (to_be 4 (len payload) ++ payload)) as H by (by destruct m).
  rewrite H in E. unfold mbind, outcome_bind in E.
  destruct (encode_payload m) as [payload|?| |]; try done.
  destruct (Z.ltb_spec (payload_maximum m) (len payload)); [done|]. simplify_eq. eauto.
Qed.

Lemma encode_wire_frame p m f : message_ok m -> decodable p m -> encode_message m = Ok f -> wire_frame p f m.
Proof.
  intros Hm Hd [[-> ->]|(Hne & payload & E & Hmax & ->)]%encode_message_inv; [by left|right].
  destruct (decode_payload p m payload Hm Hd Hne E Hmax) as (id & body & -> & Hfm & Hdec).
  rewrite len_cons in *. pose proof (payload_maximum_bound m).
  exists id, body, (payload_maximum m). split_and!; [done|lia|done|done|].
  rewrite decode_frame_eq by apply len_to_be. rewrite Hfm. unfold mbind, outcome_bind.
  rewrite (proj2 (Z.ltb_ge _ _)) by done. apply Hdec. apply len_to_be.
Qed.

(** ** The decoder *)
Lemma max_frame_u32 n : 0 <= n <= MAX_FRAME_LENGTH -> is_u 32 n.
Proof. intros H. unfold is_u. change MAX_FRAME_LENGTH with 262145 in H. lia. Qed.

Lemma wire_frame_len p f m : wire_frame p f m -> 4 <= len f <= 4 + MAX_FRAME_LENGTH.
Proof.
  intros [[-> _]|(id & body & mx & -> & Hb & _)]; [vm_compute; split; congruence|].
  rewrite len_app, len_to_be, len_cons. pose proof (len_nonneg body). lia.
Qed.

(** The decoder never asks for more than the frame it is in, and asks for
    more until the frame is complete. *)
Lemma required_ok p f m buf rest :
  wire_frame p f m -> f = buf ++ rest -> 4 <= len buf ->
  exists r, required_buffer_length (mkDecoder buf p) = Ok r /\ r <= len f
    /\ (rest <> [] -> len buf < r) /\ (rest = [] -> r = len buf).
Proof.
  intros Hw Hf Hb. unfold required_buffer_length. cbn [buffer protocol].
  rewrite (proj2 (Z.ltb_ge (len buf) 4)) by lia. rewrite slice_ok by lia.
  pose proof (wire_frame_len _ _ _ Hw) as Hlen. pose proof (len_nonneg rest) as Hrest.
  assert (sub_list buf 0 4 = sub_list f 0 4) as ->.
  { rewrite Hf. unfold sub_list. change (Z.to_nat 0) with 0%nat.
    rewrite !drop_0, take_app_le; [done|]. unfold len in Hb. lia. }
  assert (rest <> [] -> len buf < len f) as Hlt.
  { intros. rewrite Hf, len_app. destruct rest; [done|]. len_lia. }
  assert (rest = [] -> len f = len buf) as Heq by (intros ->; by rewrite Hf, app_nil_r).
  unfold mbind, outcome_bind.
  destruct Hw as [[E _]|(id & body & mx & E & Hbd & Hfm & Hmx & _)].
  - assert (len f = 4) as Hf4 by (by rewrite E).
    assert (of_be (sub_list f 0 4) = 0) as -> by (by rewrite E). cbv beta iota zeta.
    change (MAX_FRAME_LENGTH <? 0) with false. cbn [Z.eqb negb andb].
    exists 4. split_and!; [done|lia|intros Hr; apply Hlt in Hr; lia|intros Hr; apply Heq in Hr; lia].
  - assert (sub_list f 0 4 = to_be 4 (1 + len body)) as ->.
    { rewrite E. apply (sub_list_middle [] (to_be 4 (1 + len body)) (id :: body)); [done|].
      by rewrite len_to_be. }
    pose proof (len_nonneg body).
    rewrite of_be_to_be by (apply max_frame_u32; lia).
    rewrite (proj2 (Z.ltb_ge MAX_FRAME_LENGTH _)), (proj2 (Z.eqb_neq (1 + len body) 0)) by lia.
    cbn [negb andb]. assert (len f = 5 + len body) as Hlf by (rewrite E, len_app, len_to_be, len_cons; lia).
    destruct (Z.eqb_spec (len buf) 4) as [Hb4|Hb4].
    + exists 5. split_and!; [done|lia|lia|]. intros Hr. specialize (Heq Hr). lia.
    + assert (nth_get buf 4 = Some id) as Hid.
      { rewrite <- (nth_get_app_l buf rest) by lia. rewrite <- Hf, E.
        apply (nth_get_app_len (to_be 4 (1 + len body))). }
      unfold index. rewrite Hid. cbn [expect]. rewrite Hfm.
      rewrite (proj2 (Z.ltb_ge _ _)) by done. exists (4 + (1 + len body)).
      split_and!; [done|lia|intros Hr; specialize (Hlt Hr); lia|intros Hr; specialize (Heq Hr); lia].
Qed.

Lemma copy_input_eq input consumed wanted d :
  0 <= wanted -> 0 <= consumed <= len input ->
  copy_input input consumed wanted d =
    let n := Z.min wanted (len input - consumed) in
    (mkDecoder (buffer d ++ take (Z.to_nat wanted) (skip input consumed)) (protocol d), Ok (consumed + n)).
Proof.
  intros Hw Hc. unfold copy_input, mbind, M_bind, lift, modify, mret, M_ret. rewrite slice_ok by lia.
  unfold set_buffer. do 3 f_equal. unfold sub_list, skip.
  replace (consumed + Z.min wanted (len input - consumed) - consumed) with (Z.min wanted (len input - consumed)) by lia.
  destruct (Z.le_gt_cases wanted (len input - consumed)); [by rewrite Z.min_l by lia|].
  rewrite Z.min_r by lia. rewrite !take_ge; [done|..]; rewrite length_drop; unfold len in *; lia.
Qed.

(** Copying towards the end of a frame [buf ++ t] stays inside it. *)
Lemma copy_within input consumed wanted buf t rest tail p :
  0 <= wanted <= len t -> 0 <= consumed <= len input ->
  skip input consumed ++ rest = t ++ tail ->
  exists x t', t = x ++ t' /\ len x = Z.min wanted (len input - consumed)
    /\ skip input consumed = x ++ skip input (consumed + len x)
    /\ skip input (consumed + len x) ++ rest = t' ++ tail
    /\ copy_input input consumed wanted (mkDecoder buf p)
       = (mkDecoder (buf ++ x) p, Ok (consumed + len x)).
Proof.
  intros Hw Hc Hs. rewrite copy_input_eq by lia. cbn [buffer protocol]. cbv zeta.
  set (x := take (Z.to_nat wanted) (skip input consumed)).
  assert (len x = Z.min wanted (len input - consumed)) as Hx.
  { subst x. rewrite len_take, len_skip by lia. lia. }
  assert (skip input (consumed + len x) = drop (Z.to_nat (len x)) (skip input consumed)) as Hsk.
  { unfold skip. rewrite drop_drop. f_equal. lia. }
  assert (skip input consumed = x ++ skip input (consumed + len x)) as Hsplit.
  { rewrite Hsk. unfold x at 1. rewrite <- (take_drop (Z.to_nat (len x)) (skip input consumed)) at 1. f_equal.
    destruct (Z.le_gt_cases wanted (len input - consumed)).
    - f_equal. lia.
    - rewrite !take_ge; [done|..]; unfold skip; rewrite length_drop; unfold len in *; lia. }
  exists x, (drop (Z.to_nat (len x)) t). split_and!; [|done|done| |by rewrite Hx].
  - assert (take (Z.to_nat (len x)) t = x) as Ht; [|by rewrite <- Ht at 1; rewrite take_drop].
    transitivity (take (Z.to_nat (len x)) (t ++ tail)).
    { rewrite take_app_le; [done|]. unfold len in *. lia. }
    rewrite <- Hs, Hsplit, <- app_assoc. unfold len. by rewrite Nat2Z.id, take_app_length.
  - assert (drop (Z.to_nat (len x)) (skip input consumed ++ rest) = drop (Z.to_nat (len x)) (t ++ tail)) as Hd by (by rewrite Hs).
    rewrite !drop_app_le in Hd; [by rewrite Hsk|unfold len in *; lia|].
    unfold skip. rewrite length_drop. unfold len in *. lia.
Qed.

(** One iteration of the loop inside the frame [f = buf ++ t]. *)
Lemma iteration_ok input consumed count buf t f m rest tail p :
  wire_frame p f m -> f = buf ++ t -> t <> [] -> 0 <= consumed <= len input ->
  skip input consumed ++ rest = t ++ tail -> consumed < len input \/ 4 <= len buf ->
  exists x t', t = x ++ t' /\ skip input consumed = x ++ skip input (consumed + len x)
    /\ skip input (consumed + len x) ++ rest = t' ++ tail /\ consumed + len x <= len input /\
  match push_iteration input consumed count (mkDecoder buf p) with
  | (d', Ok None) => d' = mkDecoder (buf ++ x) p /\ t' <> [] /\ consumed + len x = len input
  | (d', Ok (Some (c', None))) =>
      d' = mkDecoder (buf ++ x) p /\ t' <> [] /\ c' = consumed + len x /\ x <> []
  | (d', Ok (Some (c', Some m'))) =>
      d' = mkDecoder [] p /\ t' = [] /\ c' = consumed + len x /\ m' = m /\ count <> MAX_MESSAGES_PER_PUSH
  | (_, Err e) => e = TooManyMessages MAX_MESSAGES_PER_PUSH /\ t' = [] /\ count = MAX_MESSAGES_PER_PUSH
  | (_, Panic) | (_, NoFuel) => False
  end.
Proof.
  intros Hw Hf Ht Hc Hs Hloop. pose proof (wire_frame_len _ _ _ Hw) as Hlf.
  assert (len f = len buf + len t) as Hlft by (by rewrite Hf, len_app).
  pose proof (len_nonneg buf). pose proof (len_nonneg t).
  (* the first copy completes the length prefix *)
  assert (exists x t1, t = x ++ t1 /\ skip input consumed = x ++ skip input (consumed + len x)
    /\ skip input (consumed + len x) ++ rest = t1 ++ tail /\ consumed + len x <= len input
    /\ (len (buf ++ x) < 4 -> consumed + len x = len input /\ x <> [])
    /\ (if len buf <? 4 then copy_input input consumed (4 - len buf) else mret consumed) (mkDecoder buf p)
       = (mkDecoder (buf ++ x) p, Ok (consumed + len x))) as (x & t1 & E1 & E2 & E3 & E4 & E5 & E6).
  { destruct (Z.ltb_spec (len buf) 4).
    - destruct (copy_within input consumed (4 - len buf) buf t rest tail p) as (x & t1 & C1 & C2 & C3 & C4 & C5);
        [lia|lia|done|]. exists x, t1. split_and!; [done|done|done|lia| |done].
      rewrite len_app. intros. split; [lia|]. intros ->. change (len (@nil Z)) with 0 in *. lia.
    - exists [], t. change (len (@nil Z)) with 0. rewrite Z.add_0_r, app_nil_r.
      split_and!; [done|done|done|lia|lia|done]. }
  unfold push_iteration, mbind, M_bind, get. cbn [buffer protocol]. rewrite E6. unfold mret, M_ret, fail. cbn [buffer protocol].
  destruct (Z.ltb_spec (len (buf ++ x)) 4) as [Hlt|Hge].
  { exists x, t1. specialize (E5 Hlt) as [E5 Hx]. split_and!; try done.
    intros ->. rewrite app_nil_r in E1. rewrite <- E1, <- Hf in Hlt. lia. }
  assert (f = (buf ++ x) ++ t1) as Hf1 by (by rewrite <- app_assoc, <- E1).
  destruct (required_ok p f m (buf ++ x) t1 Hw Hf1 Hge) as (r & Hr & Hrf & Hr1 & Hr2).
  unfold lift. rewrite Hr.
  assert (len f = len (buf ++ x) + len t1) as Hlf1 by (by rewrite Hf1 at 1; rewrite len_app).
  destruct (Z.ltb_spec (len (buf ++ x)) r) as [Hmore|Hless]; cbn [andb].
  - assert (t1 <> []) as Ht1 by (intros E; specialize (Hr2 E); lia).
    destruct (Z.eqb_spec (consumed + len x) (len input)) as [Heq|Hneq].
    { exists x, t1. split_and!; done. }
    pose proof (len_nonneg x).
    destruct (copy_within input (consumed + len x) (r - len (buf ++ x)) (buf ++ x) t1 rest tail p)
      as (y & t2 & C1 & C2 & C3 & C4 & C5); [lia|lia|done|]. rewrite C5. cbn [buffer protocol].
    assert (y <> []) as Hy by (intros ->; change (len (@nil Z)) with 0 in C2; lia).
    rewrite <- (app_assoc buf x y) in *.
    assert (f = (buf ++ x ++ y) ++ t2) as Hf2 by (by rewrite Hf1, C1, <- !app_assoc).
    assert (4 <= len (buf ++ x ++ y)) as Hge2 by (rewrite app_assoc, len_app; pose proof (len_nonneg y); lia).
    destruct (required_ok p f m _ t2 Hw Hf2 Hge2) as (r2 & Hr' & Hrf2 & Hr21 & Hr22). rewrite Hr'.
    exists (x ++ y), t2. rewrite len_app.
    replace (consumed + (len x + len y)) with (consumed + len x + len y) by lia.
    assert (skip input consumed = (x ++ y) ++ skip input (consumed + len x + len y)) as Hsk
      by (rewrite <- app_assoc, <- C3; done).
    destruct (Z.ltb_spec (len (buf ++ x ++ y)) r2) as [Hmore2|Hless2].
    { split_and!; [by rewrite <- app_assoc, <- C1|done|done|lia|done| |done|by destruct x].
      intros E. specialize (Hr22 E). lia. }
    assert (t2 = []) as -> by (destruct t2; [done|]; specialize (Hr21 ltac:(done)); lia).
    rewrite app_nil_r in C1, Hf2. rewrite (Hr22 eq_refl). rewrite <- Hf2.
    destruct (Z.eqb_spec count MAX_MESSAGES_PER_PUSH).
    { split_and!; [by rewrite app_nil_r, <- C1|done|done|lia|done|done|done]. }
    unfold put, set_buffer. cbn [buffer protocol].
    destruct Hw as [[E ->]|(id & body & mx & E & _ & _ & _ & Hdec)].
    + assert ((len f =? 4) = true) as -> by (by rewrite E).
      split_and!; [by rewrite app_nil_r, <- C1|done|done|lia|done..].
    + rewrite (proj2 (Z.eqb_neq (len f) 4))
        by (rewrite E, len_app, len_to_be, len_cons; pose proof (len_nonneg body); lia).
      rewrite Hdec. split_and!; [by rewrite app_nil_r, <- C1|done|done|lia|done..].
  - assert (t1 = []) as -> by (destruct t1; [done|]; specialize (Hr1 ltac:(done)); lia).
    rewrite app_nil_r in E1, Hf1. rewrite Hr. cbn [buffer protocol].
    rewrite (proj2 (Z.ltb_ge (len (buf ++ x)) r)) by lia.
    rewrite (Hr2 eq_refl). rewrite <- Hf1. exists x, []. rewrite app_nil_r.
    destruct (Z.eqb_spec count MAX_MESSAGES_PER_PUSH); [split_and!; done|].
    unfold put, set_buffer. cbn [buffer protocol].
    destruct Hw as [[E ->]|(id & body & mx & E & _ & _ & _ & Hdec)].
    + assert ((len f =? 4) = true) as -> by (by rewrite E). split_and!; done.
    + rewrite (proj2 (Z.eqb_neq (len f) 4))
        by (rewrite E, len_app, len_to_be, len_cons; pose proof (len_nonneg body); lia).
      rewrite Hdec. split_and!; done.
Qed.

Lemma skip_all {A} (l : list A) : skip l (len l) = [].
Proof. unfold skip. apply drop_ge. unfold len. lia. Qed.

(** Bytes to come mean a frame to come. *)
Lemma pending_frame p buf fs ms more rest :
  pending p buf fs ms -> buf ++ more ++ rest = concat fs -> more <> [] \/ buf <> [] ->
  exists f fs' m ms' t, fs = f :: fs' /\ ms = m :: ms' /\ wire_frame p f m /\ Forall2 (wire_frame p) fs' ms'
    /\ f = buf ++ t /\ t <> [] /\ more ++ rest = t ++ concat fs'.
Proof.
  intros [Hall Hbuf] Hs Hne.
  destruct Hall as [|f m fs' ms' Hw Hall].
  { exfalso. cbn in Hs. apply app_nil in Hs as [-> Hs]. apply app_nil in Hs as [-> _]. by destruct Hne. }
  assert (exists t, f = buf ++ t /\ t <> []) as (t & Hf & Ht).
  { destruct Hbuf as [->|(f' & fs'' & t & E & Hf & Ht)]; [|simplify_eq; eauto].
    exists f. split; [done|]. intros ->. apply wire_frame_len in Hw. change (len (@nil Z)) with 0 in Hw. lia. }
  exists f, fs', m, ms', t. split_and!; try done.
  cbn [concat] in Hs. rewrite Hf, <- app_assoc in Hs. by apply app_inv_head in Hs.
Qed.

Lemma push_loop_stream p input rest fuel : forall consumed acc buf fs ms,
  0 <= consumed <= len input -> pending p buf fs ms ->
  buf ++ skip input consumed ++ rest = concat fs ->
  acc = [] \/ 4 * len acc + len buf <= consumed + 3 ->
  2 * (len input - consumed) + len buf < Z.of_nat fuel ->
  match push_loop fuel input consumed acc (mkDecoder buf p) with
  | (d', Ok out) => exists buf' fs2 ms1 ms2, d' = mkDecoder buf' p /\ out = acc ++ ms1 /\ ms = ms1 ++ ms2
      /\ pending p buf' fs2 ms2 /\ buf' ++ rest = concat fs2
  | (_, Err e) => e = TooManyMessages MAX_MESSAGES_PER_PUSH /\ 4 * MAX_MESSAGES_PER_PUSH < len input
  | (_, Panic) | (_, NoFuel) => False
  end.
Proof.
  induction fuel as [|n IH]; intros consumed acc buf fs ms Hc Hp Hs Hcount Hfuel.
  { pose proof (len_nonneg buf). lia. }
  cbn [push_loop]. unfold mbind, M_bind, get, mret, M_ret. cbn [buffer].
  destruct ((consumed <? len input) || (4 <=? len buf)) eqn:Hloop; cbn [negb].
  2:{ assert (consumed = len input) as -> by lia. rewrite skip_all in Hs.
      exists buf, fs, [], ms. by rewrite app_nil_r. }
  assert (consumed < len input \/ 4 <= len buf) as Hloop' by lia.
  destruct (pending_frame p buf fs ms (skip input consumed) rest Hp Hs)
    as (f & fs' & m & ms' & t & -> & -> & Hw & Hall & Hf & Ht & Hs').
  { destruct Hloop' as [H|H]; [left|right].
    - intros E. apply (f_equal len) in E. rewrite len_skip in E by lia. change (len (@nil Z)) with 0 in E. lia.
    - intros ->. change (len (@nil Z)) with 0 in H. lia. }
  destruct (iteration_ok input consumed (len acc) buf t f m rest (concat fs') p Hw Hf Ht Hc Hs' Hloop')
    as (x & t' & E1 & E2 & E3 & E4 & Hit).
  pose proof (wire_frame_len _ _ _ Hw) as Hlf. pose proof (len_nonneg x) as Hx.
  assert (len f = len buf + len t) as Hft by (by rewrite Hf, len_app).
  assert (forall d', d' = mkDecoder (buf ++ x) p -> t' <> [] ->
    pending p (buf ++ x) (f :: fs') (m :: ms') /\ (buf ++ x) ++ skip input (consumed + len x) ++ rest = concat (f :: fs'))
    as Hpend.
  { intros d' _ Ht'. split; [split; [by constructor|]|].
    - right. exists f, fs', t'. split_and!; [done| |done]. by rewrite Hf, E1, app_assoc.
    - cbn [concat]. rewrite Hf, E1, E3, <- !app_assoc. done. }
  destruct (push_iteration input consumed (len acc) (mkDecoder buf p)) as [d' [[[c' [m'|]]|]|e| |]]; [..|done|done].
  - destruct Hit as (-> & -> & -> & -> & Hne). rewrite app_nil_r in E1. subst t.
    specialize (IH (consumed + len x) (acc ++ [m]) [] fs' ms').
    assert (0 < len x) by (destruct x; [done|len_lia]).
    destruct (push_loop n input (consumed + len x) (acc ++ [m]) (mkDecoder [] p)) as [d' r] eqn:Er.
    assert (match r with
      | Ok out => exists buf' fs2 ms1 ms2, d' = mkDecoder buf' p /\ out = (acc ++ [m]) ++ ms1 /\ ms' = ms1 ++ ms2
          /\ pending p buf' fs2 ms2 /\ buf' ++ rest = concat fs2
      | Err e => e = TooManyMessages MAX_MESSAGES_PER_PUSH /\ 4 * MAX_MESSAGES_PER_PUSH < len input
      | Panic | NoFuel => False end) as IH'.
    { apply IH.
      - lia.
      - split; [done|by left].
      - exact E3.
      - right. rewrite len_snoc. change (len (@nil Z)) with 0.
        destruct Hcount as [->|]; [change (len (@nil PeerMessage)) with 0|]; lia.
      - change (len (@nil Z)) with 0. pose proof (len_nonneg buf). lia. }
    destruct r as [out|?| |]; [|done..].
    destruct IH' as (buf' & fs2 & ms1 & ms2 & -> & -> & -> & Hp2 & Hs2).
    exists buf', fs2, (m :: ms1), ms2. split_and!; [done|by rewrite <- app_assoc|done|done|done].
  - destruct Hit as (-> & Ht' & -> & Hxne). destruct (Hpend _ eq_refl Ht') as [Hp' Hs2].
    assert (0 < len x) by (destruct x; [done|len_lia]).
    apply (IH (consumed + len x) acc (buf ++ x) (f :: fs') (m :: ms')); [lia|done|done| |].
    + rewrite len_app. destruct Hcount as [->|]; [by left|right; lia].
    + rewrite len_app. lia.
  - destruct Hit as (-> & Ht' & Hall'). destruct (Hpend _ eq_refl Ht') as [Hp' Hs2].
    exists (buf ++ x), (f :: fs'), [], (m :: ms'). rewrite app_nil_r. split_and!; [done..|].
    rewrite Hall', skip_all in Hs2. done.
  - destruct Hit as (-> & -> & Hcnt). split; [done|]. rewrite app_nil_r in E1. subst t.
    destruct Hcount as [->|Hcount].
    { change (len (@nil PeerMessage)) with 0 in Hcnt. done. }
    rewrite Hcnt in Hcount. unfold MAX_MESSAGES_PER_PUSH in *. lia.
Qed.

Lemma push_stream p buf fs ms input rest :
  pending p buf fs ms -> buf ++ input ++ rest = concat fs -> len input <= MAX_DECODER_INPUT_LENGTH ->
  match FrameDecoder_push input (mkDecoder buf p) with
  | (d', Ok out) => exists buf' fs2 ms2, d' = mkDecoder buf' p /\ ms = out ++ ms2
      /\ pending p buf' fs2 ms2 /\ buf' ++ rest = concat fs2
  | (_, Err e) => e = TooManyMessages MAX_MESSAGES_PER_PUSH /\ 4 * MAX_MESSAGES_PER_PUSH < len input
  | (_, Panic) | (_, NoFuel) => False
  end.
Proof.
  intros Hp Hs Hl. unfold FrameDecoder_push. rewrite (proj2 (Z.ltb_ge _ _)) by done.
  unfold mbind at 1, M_bind at 1, get at 1. pose proof (len_nonneg input).
  assert (pending p buf fs ms) as Hp' by done.
  pose proof (push_loop_stream p input rest (push_fuel input (mkDecoder buf p)) 0 [] buf fs ms
    ltac:(lia) Hp ltac:(exact Hs) ltac:(by left)) as H'.
  specialize (H' ltac:(unfold push_fuel, len; cbn [buffer]; lia)).
  destruct (push_loop _ input 0 [] (mkDecoder buf p)) as [d' [out|?| |]]; try done.
  destruct H' as (buf' & fs2 & ms1 & ms2 & -> & -> & -> & Hp2 & Hs2). exists buf', fs2, ms2. done.
Qed.

Lemma feed_stream p chunks : forall buf fs ms,
  pending p buf fs ms -> buf ++ concat chunks = concat fs ->
  Forall (fun c => len c <= MAX_DECODER_INPUT_LENGTH) chunks ->
  match feed chunks (mkDecoder buf p) with
  | (d', Ok out) => d' = mkDecoder [] p /\ out = ms
  | (_, Err e) => e = TooManyMessages MAX_MESSAGES_PER_PUSH
                  /\ Exists (fun c => 4 * MAX_MESSAGES_PER_PUSH < len c) chunks
  | (_, Panic) | (_, NoFuel) => False
  end.
Proof.
  induction chunks as [|c r IH]; intros buf fs ms Hp Hs Hall; cbn [feed concat] in *.
  - rewrite app_nil_r in Hs. destruct Hp as [H2 Hb].
    destruct H2 as [|f m fs' ms' Hw H2].
    + cbn in Hs. by subst.
    + exfalso. destruct Hb as [->|(f' & fs'' & t & E & Hf & Ht)].
      * cbn in Hs. symmetry in Hs. apply app_nil in Hs as [-> _]. apply wire_frame_len in Hw.
        change (len (@nil Z)) with 0 in Hw. lia.
      * injection E as <- <-. cbn [concat] in Hs. rewrite Hf in Hs. apply (f_equal len) in Hs.
        rewrite !len_app in Hs. apply Ht, len_0_nil. len_lia.
  - apply Forall_cons_1 in Hall as [Hc Hall].
    pose proof (push_stream p buf fs ms c (concat r) Hp Hs Hc) as Hpush. unfold mbind, M_bind.
    destruct (FrameDecoder_push c (mkDecoder buf p)) as [d' [out|e| |]]; try done.
    2:{ destruct Hpush as [-> ?]. split; [done|]. by constructor. }
    destruct Hpush as (buf' & fs2 & ms2 & -> & -> & Hp2 & Hs2). specialize (IH buf' fs2 ms2 Hp2 Hs2 Hall).
    destruct (feed r (mkDecoder buf' p)) as [d' [out'|e| |]]; try done.
    + destruct IH as [-> ->]. done.
    + destruct IH as [-> ?]. split; [done|]. by apply Exists_cons_tl.
Qed.

(** ** The decoder on arbitrary input *)
Lemma read_u32_returns frame start : 0 <= start -> start + 4 <= len frame -> returns (read_u32 frame start).
Proof. intros. unfold read_u32. by rewrite slice_ok by lia. Qed.
Lemma drain_returns {E} (l : list Z) n : n <= len l -> returns (@drain E Z l n).
Proof. intros. unfold drain. by rewrite (proj2 (Z.ltb_ge _ _)). Qed.
Lemma index_returns {E} (l : list Z) n : 0 <= n < len l -> returns (@index E Z l n).
Proof. intros. unfold index. destruct (nth_get_is_Some l n) as [x ->]; done. Qed.
Lemma exact_length_inv id a b : exact_length id a b = Ok tt -> a = b.
Proof. unfold exact_length. by destruct (Z.eqb_spec a b). Qed.

(** Every access of the decoder is inside the frame. *)
Ltac decode_step :=
  lazymatch goal with
  | |- returns (exact_length _ _ _) => unfold exact_length; by case_match
  | H : exact_length _ _ _ = Ok ?u |- _ => destruct u; apply exact_length_inv in H
  | |- returns (validate_request_length _) => unfold validate_request_length; by case_match
  | |- returns (validate_hash_wire_request _ _) => unfold validate_hash_wire_request; by case_match
  | |- returns (response_hash_count _) => apply returns_ok_or
  | |- returns (frame_maximum _ _) => unfold frame_maximum
  | |- returns (decode_request _) => unfold decode_request
  | |- returns (decode_hash_request_payload _) => unfold decode_hash_request_payload
  | |- returns (read_u32 _ _) => apply read_u32_returns; unfold HASH_REQUEST_PAYLOAD_LENGTH in *; lia
  | |- returns (drain _ _) => apply drain_returns; unfold HASH_REQUEST_PAYLOAD_LENGTH in *; lia
  | |- returns (index _ _) => apply index_returns; lia
  | |- returns (slice _ _ _) => rewrite slice_ok by (unfold HASH_REQUEST_PAYLOAD_LENGTH in *; lia)
  | |- _ => returns_step
  end.

Lemma decode_frame_returns frame p : 5 <= len frame -> returns (decode_frame frame p).
Proof.
  intros Hl. unfold decode_frame, decode_by_id, decode_hashes. repeat (decode_step || cbv zeta).
Qed.

Lemma required_returns d : returns (required_buffer_length d).
Proof.
  unfold required_buffer_length. pose proof (len_nonneg (buffer d)). repeat (decode_step || cbv zeta).
Qed.
Lemma required_bound d r : is_bytes (buffer d) -> 4 <= len (buffer d) -> required_buffer_length d = Ok r ->
  4 <= r <= 4 + MAX_FRAME_LENGTH /\ (len (buffer d) = 4 -> r = 4 \/ r = 5).
Proof.
  intros Hb Hl. unfold required_buffer_length. rewrite (proj2 (Z.ltb_ge _ _)) by done.
  rewrite slice_ok by lia. unfold mbind, outcome_bind.
  pose proof (of_be_range (sub_list (buffer d) 0 4) ltac:(by apply is_bytes_sub_list)) as Hr. cbv zeta.
  set (n := of_be (sub_list (buffer d) 0 4)) in *.
  destruct (Z.ltb_spec MAX_FRAME_LENGTH n) as [|Hmax]; [done|]. change MAX_FRAME_LENGTH with 262145 in *.
  destruct (Z.eqb_spec n 0); cbn [negb andb].
  - intros. simplify_eq. lia.
  - destruct (Z.eqb_spec (len (buffer d)) 4); [intros; simplify_eq; lia|].
    destruct (index (buffer d) 4); try done. destruct (frame_maximum _ _); try done.
    case_match; [done|]. intros. simplify_eq. lia.
Qed.

(** Whatever the peer sent, the buffer holds bytes and is bounded. *)
Definition decoder_ok (d : FrameDecoder) : Prop :=
  is_bytes (buffer d) /\ len (buffer d) <= 4 + MAX_FRAME_LENGTH.

Lemma copy_input_wp input consumed wanted d (bound : Z) :
  decoder_ok d -> is_bytes input -> 0 <= wanted -> 0 <= consumed <= len input ->
  len (buffer d) + wanted <= 4 + MAX_FRAME_LENGTH ->
  exists d', copy_input input consumed wanted d
      = (d', Ok (consumed + Z.min wanted (len input - consumed)))
    /\ decoder_ok d' /\ protocol d' = protocol d
    /\ len (buffer d') = len (buffer d) + Z.min wanted (len input - consumed).
Proof.
  intros [Hb Hl] Hi Hw Hc Hbd. rewrite copy_input_eq by done. cbv zeta. eexists. split; [done|].
  assert (len (take (Z.to_nat wanted) (skip input consumed)) = Z.min wanted (len input - consumed)) as Ht.
  { rewrite len_take, len_skip by lia. lia. }
  split_and!; cbn [buffer protocol]; [|done|by rewrite len_app, Ht].
  split; cbn [buffer]; [|rewrite len_app, Ht; lia].
  apply is_bytes_app. split; [done|]. by apply Forall_take, is_bytes_skip.
Qed.

Lemma iteration_total input consumed count d :
  decoder_ok d -> is_bytes input -> 0 <= consumed <= len input -> consumed < len input \/ 4 <= len (buffer d) ->
  match push_iteration input consumed count d with
  | (d', r) => decoder_ok d' /\ protocol d' = protocol d /\
    match r with
    | Ok (Some (c', _)) => consumed <= c' <= len input
        /\ 2 * (len input - c') + len (buffer d') < 2 * (len input - consumed) + len (buffer d)
    | Ok None | Err _ => True
    | Panic | NoFuel => False
    end
  end.
Proof.
  intros Hd Hi Hc Hloop. unfold push_iteration, mbind, M_bind, get, lift, mret, M_ret, fail.
  assert (exists d1 c1, (if len (buffer d) <? 4 then copy_input input consumed (4 - len (buffer d))
      else fun s => (s, Ok consumed)) d = (d1, Ok c1)
    /\ decoder_ok d1 /\ protocol d1 = protocol d /\ consumed <= c1 <= len input
    /\ len (buffer d1) = len (buffer d) + (c1 - consumed)
    /\ (len (buffer d1) < 4 -> consumed < c1)) as (d1 & c1 & E & Hd1 & Hp1 & Hc1 & Hl1 & Hlt1).
  { pose proof (len_nonneg (buffer d)). destruct (Z.ltb_spec (len (buffer d)) 4).
    - destruct (copy_input_wp input consumed (4 - len (buffer d)) d 0 Hd Hi) as (d1 & E & Hd1 & Hp & Hl);
        [lia|lia|change MAX_FRAME_LENGTH with 262145; lia|].
      exists d1, (consumed + Z.min (4 - len (buffer d)) (len input - consumed)). split_and!; [done..|lia|lia|lia|lia].
    - exists d, consumed. split_and!; [done..|lia|lia|lia|lia]. }
  rewrite E. clear E. destruct (Z.ltb_spec (len (buffer d1)) 4) as [Hlt|Hge].
  { specialize (Hlt1 Hlt). split_and!; [done|done|lia|lia|lia]. }
  pose proof (required_returns d1) as Hret.
  destruct (required_buffer_length d1) as [r|e| |] eqn:Er; [|by split_and!|done|done].
  destruct (required_bound d1 r (proj1 Hd1) Hge Er) as [Hr Hr45].
  destruct ((len (buffer d1) <? r) && (c1 =? len input)) eqn:Hbr; [by split_and!|].
  assert (exists d2 c2, (if len (buffer d1) <? r then copy_input input c1 (r - len (buffer d1))
      else fun s => (s, Ok c1)) d1 = (d2, Ok c2)
    /\ decoder_ok d2 /\ protocol d2 = protocol d1 /\ c1 <= c2 <= len input
    /\ len (buffer d2) = len (buffer d1) + (c2 - c1)
    /\ (len (buffer d1) < r -> c1 < c2) /\ (r <= len (buffer d1) -> d2 = d1))
    as (d2 & c2 & E & Hd2 & Hp2 & Hc2 & Hl2 & Hlt2 & Heq2).
  { destruct (Z.ltb_spec (len (buffer d1)) r).
    - destruct (copy_input_wp input c1 (r - len (buffer d1)) d1 0 Hd1 Hi) as (d2 & E & Hd2 & Hp & Hl); [lia..|].
      exists d2, (c1 + Z.min (r - len (buffer d1)) (len input - c1)). split_and!; [done..|lia|lia|lia|lia|lia].
    - exists d1, c1. split_and!; [done..|lia|lia|lia|lia|done]. }
  rewrite E. clear E. pose proof (required_returns d2) as Hret2.
  destruct (required_buffer_length d2) as [r2|e| |] eqn:Er2; [|split_and!; [done|congruence|done]|done|done].
  destruct (required_bound d2 r2 (proj1 Hd2) ltac:(lia) Er2) as [Hr2 Hr245].
  destruct (Z.ltb_spec (len (buffer d2)) r2).
  { split_and!; [done|congruence|lia|lia|].
    destruct (Z.le_gt_cases r (len (buffer d1))) as [Hle|]; [|lia].
    specialize (Heq2 Hle) as ->. rewrite Er in Er2. simplify_eq. lia. }
  destruct (count =? MAX_MESSAGES_PER_PUSH); [split_and!; [done|congruence|done]|].
  unfold put, set_buffer.
  assert (decoder_ok (mkDecoder [] (protocol d2))) as Hd3.
  { split; cbn; [by constructor|]. vm_compute. congruence. }
  assert (2 * (len input - c2) + 0 < 2 * (len input - consumed) + len (buffer d)) as Hm by lia.
  destruct (Z.eqb_spec r2 4).
  { split_and!; [done|cbn; congruence|lia|lia|done]. }
  assert (5 <= len (buffer d2)) as H5.
  { destruct (Z.eqb_spec (len (buffer d2)) 4) as [E4|]; [destruct (Hr245 E4)|]; lia. }
  pose proof (decode_frame_returns (buffer d2) (protocol d2) H5) as Hdf.
  destruct (decode_frame (buffer d2) (protocol d2)); [|split_and!; [done|cbn; congruence|done]|done|done].
  split_and!; [done|cbn; congruence|lia|lia|done].
Qed.

Lemma push_loop_total input fuel : forall consumed acc d,
  decoder_ok d -> is_bytes input -> 0 <= consumed <= len input ->
  2 * (len input - consumed) + len (buffer d) < Z.of_nat fuel ->
  match push_loop fuel input consumed acc d with
  | (d', r) => decoder_ok d' /\ protocol d' = protocol d /\ returns r
  end.
Proof.
  induction fuel as [|n IH]; intros consumed acc d Hd Hi Hc Hf.
  { pose proof (len_nonneg (buffer d)). lia. }
  cbn [push_loop]. unfold mbind, M_bind, get, mret, M_ret.
  destruct ((consumed <? len input) || (4 <=? len (buffer d))) eqn:Hloop; cbn [negb]; [|done].
  pose proof (iteration_total input consumed (len acc) d Hd Hi Hc ltac:(lia)) as Hit.
  destruct (push_iteration input consumed (len acc) d) as [d' [[[c' [m'|]]|]|e| |]];
    destruct Hit as (Hd' & Hp' & Hr'); try done.
  - destruct Hr' as [Hc' Hm]. specialize (IH c' (acc ++ [m']) d' Hd' Hi ltac:(lia) ltac:(lia)).
    destruct (push_loop n input c' (acc ++ [m']) d') as [d'' r]. rewrite <- Hp'. exact IH.
  - destruct Hr' as [Hc' Hm]. specialize (IH c' acc d' Hd' Hi ltac:(lia) ltac:(lia)).
    destruct (push_loop n input c' acc d') as [d'' r]. rewrite <- Hp'. exact IH.
Qed.

(** ** Decoded messages are canonical *)
Lemma read_field pfx id body k x : len pfx = 4 -> is_bytes body -> 0 <= k ->
  read_u32 (pfx ++ id :: body) (5 + k) = Ok x ->
  k + 4 <= len body /\ is_u 32 x /\ to_be 4 x = sub_list body k (k + 4).
Proof.
  intros Hp Hb Hk. unfold read_u32, mbind, outcome_bind.
  destruct (slice (pfx ++ id :: body) (5 + k) (5 + k + 4)) as [bs|e| |] eqn:E; try done.
  apply slice_inv in E as (H1 & H2 & ->). rewrite len_app, len_cons, Hp in H2. intros Hx. simplify_eq.
  assert (sub_list (pfx ++ id :: body) (5 + k) (5 + k + 4) = sub_list body k (k + 4)) as ->.
  { unfold sub_list. replace (5 + k + 4 - (5 + k)) with (k + 4 - k) by lia. f_equal.
    change (id :: body) with ([id] ++ body). rewrite app_assoc, drop_app_ge by (rewrite length_app; unfold len in Hp; simpl; lia).
    f_equal. rewrite length_app. unfold len in Hp. simpl. lia. }
  assert (len (sub_list body k (k + 4)) = 4) as Hl by (rewrite len_sub_list; lia).
  pose proof (is_bytes_sub_list body k (k + 4) Hb) as Hb'.
  pose proof (of_be_range _ Hb') as Hr. rewrite Hl in Hr. split_and!; [lia|exact Hr|].
  replace 4%nat with (length (sub_list body k (k + 4))) by (unfold len in Hl; lia). by apply to_be_of_be.
Qed.

Lemma drain_field {E} pfx id body k l : len pfx = 4 -> 0 <= k ->
  @drain E Z (pfx ++ id :: body) (5 + k) = Ok l -> l = skip body k /\ k <= len body.
Proof.
  intros Hp Hk. unfold drain. rewrite len_app, len_cons, Hp.
  destruct (Z.ltb_spec (4 + (1 + len body)) (5 + k)); [done|]. intros. simplify_eq. split; [|lia].
  unfold skip. change (id :: body) with ([id] ++ body).
  rewrite app_assoc, drop_app_ge by (rewrite length_app; unfold len in Hp; simpl; lia).
  f_equal. rewrite length_app. unfold len in Hp. simpl. lia.
Qed.

(** What the message of a frame was encoded from. *)
Definition reencodes (m : PeerMessage) (payload : list Z) : Prop :=
  m <> KeepAlive /\ m <> Bitfield [] /\ message_ok m /\ encode_payload m = Ok payload.

Lemma decode_request_inv pfx id body r : len pfx = 4 -> is_bytes body -> len body = 12 ->
  decode_request (pfx ++ id :: body) = Ok r -> block_request_ok r /\ encode_request id r = Ok (id :: body).
Proof.
  intros Hp Hb Hl. unfold decode_request, mbind, outcome_bind.
  destruct (read_u32 _ 5) as [i|?| |] eqn:E1; try done. destruct (read_u32 _ 9) as [b|?| |] eqn:E2; try done.
  destruct (read_u32 _ 13) as [l|?| |] eqn:E3; try done.
  destruct (validate_request_length l) as [[]|?| |] eqn:Ev; try done.
  unfold mret, outcome_ret. intros. simplify_eq.
  apply (read_field _ _ _ 0) in E1 as (_ & U1 & F1); [|done..].
  apply (read_field _ _ _ 4) in E2 as (_ & U2 & F2); [|done..].
  apply (read_field _ _ _ 8) in E3 as (_ & U3 & F3); [|done..].
  split; [done|]. unfold encode_request. cbn [br_index br_begin br_length]. rewrite Ev.
  unfold mbind, outcome_bind, mret, outcome_ret. rewrite F1, F2, F3.
  change (0 + 4) with 4. change (4 + 4) with 8. change (8 + 4) with 12.
  rewrite <- !sub_list_join by lia. by rewrite <- Hl, sub_list_all.
Qed.

Lemma decode_hash_payload_inv pfx id body r : len pfx = 4 -> is_bytes body ->
  decode_hash_request_payload (pfx ++ id :: body) = Ok r ->
  hash_request_ok r /\ body = encode_hash_request_payload r ++ skip body HASH_REQUEST_PAYLOAD_LENGTH
  /\ HASH_REQUEST_PAYLOAD_LENGTH <= len body.
Proof.
  intros Hp Hb. unfold decode_hash_request_payload. rewrite len_app, len_cons, Hp.
  change HASH_REQUEST_PAYLOAD_LENGTH with 48 in *.
  destruct (Z.ltb_spec (4 + (1 + len body)) (5 + 48)); [done|]. unfold mbind, outcome_bind.
  rewrite slice_ok by (rewrite ?len_app, ?len_cons; lia).
  destruct (read_u32 _ 37) as [b|?| |] eqn:E1; try done. destruct (read_u32 _ 41) as [i|?| |] eqn:E2; try done.
  destruct (read_u32 _ 45) as [c|?| |] eqn:E3; try done. destruct (read_u32 _ 49) as [q|?| |] eqn:E4; try done.
  unfold mret, outcome_ret. intros. simplify_eq.
  apply (read_field _ _ _ 32) in E1 as (_ & U1 & F1); [|done..].
  apply (read_field _ _ _ 36) in E2 as (_ & U2 & F2); [|done..].
  apply (read_field _ _ _ 40) in E3 as (_ & U3 & F3); [|done..].
  apply (read_field _ _ _ 44) in E4 as (_ & U4 & F4); [|done..].
  assert (sub_list (pfx ++ id :: body) 5 37 = sub_list body 0 32) as ->.
  { unfold sub_list. change (37 - 5) with (32 - 0). f_equal. change (id :: body) with ([id] ++ body).
    rewrite app_assoc, drop_app_ge by (rewrite length_app; unfold len in Hp; simpl; lia).
    f_equal. rewrite length_app. unfold len in Hp. simpl. lia. }
  split_and!; [| |lia].
  - split_and!; [cbn; rewrite len_sub_list; lia|by apply is_bytes_sub_list|by split].
  - unfold encode_hash_request_payload. cbn [hr_pieces_root hr_base_layer hr_index hr_count hr_proof_layers]. rewrite F1, F2, F3, F4.
    change (32 + 4) with 36. change (36 + 4) with 40. change (40 + 4) with 44. change (44 + 4) with 48.
    rewrite <- !sub_list_join by lia. apply sub_list_skip. lia.
Qed.

Lemma concat_chunks l : is_bytes l -> len l mod 32 = 0 ->
  concat (chunks 32 l) = l /\ Forall (fun h => len h = 32 /\ is_bytes h) (chunks 32 l).
Proof.
  assert (0 < 32) as H32 by lia. induction l as [|l Hne IH] using (chunks_ind 32 H32); [intros; split; [done|constructor]|].
  intros Hb Hm. assert (32 <= len l) as Hl.
  { assert (0 < len l) by (destruct l; [done|len_lia]). pose proof (Z.div_mod (len l) 32 ltac:(lia)). lia. }
  rewrite chunks_cons by done. cbn [concat].
  destruct IH as [IH1 IH2]; [by apply Forall_drop| |].
  { rewrite len_drop, Z.max_r by lia. rewrite Z2Nat.id by lia.
    replace (len l - 32) with (len l + (-1) * 32) by lia. by rewrite Z.mod_add. }
  split; [by rewrite IH1, take_drop|]. constructor; [|done].
  split; [rewrite len_take; lia|by apply Forall_take].
Qed.

Lemma decode_hashes_inv pfx body m : len pfx = 4 -> is_bytes body ->
  decode_hashes (pfx ++ 22 :: body) 22 (1 + len body) = Ok m -> reencodes m (22 :: body).
Proof.
  intros Hp Hb. unfold decode_hashes.
  destruct (Z.ltb_spec (1 + len body) (1 + HASH_REQUEST_PAYLOAD_LENGTH)); [done|]. unfold mbind, outcome_bind.
  destruct (decode_hash_request_payload _) as [r|?| |] eqn:Er; try done.
  apply decode_hash_payload_inv in Er as (Hr & Hbody & Hlen); [|done..].
  destruct (validate_hash_wire_request r true) as [[]|?| |] eqn:Hv; try done.
  destruct (response_hash_count r) as [n|?| |] eqn:Hn; try done. cbn [map_err].
  change HASH_REQUEST_PAYLOAD_LENGTH with 48 in *. unfold is_multiple_of.
  replace (1 + len body - 1 - 48) with (len body - 48) by lia.
  destruct (Z.eqb_spec ((len body - 48) mod 32) 0) as [Hmod|]; [|done]. cbn [negb].
  destruct (Z.eqb_spec ((len body - 48) / 32) n) as [Hcnt|]; [|done]. cbn [negb orb].
  destruct (MAX_HASHES_PER_RESPONSE <? (len body - 48) / 32); [done|].
  destruct (drain _ (5 + 48)) as [rest|?| |] eqn:Ed; try done.
  apply drain_field in Ed as [-> _]; [|done|lia]. unfold mret, outcome_ret. intros. simplify_eq.
  assert (len (skip body 48) = len body - 48) as Hls by (rewrite len_skip; lia).
  destruct (concat_chunks (skip body 48)) as [Hcc Hall]; [by apply is_bytes_skip|by rewrite Hls|].
  split_and!; [done|done|by split|]. cbn [encode_payload hs_request hs_hashes]. rewrite Hv.
  unfold mbind, outcome_bind. rewrite Hn. cbn [map_err].
  assert (@len Sha256Hash (chunks 32 (skip body 48)) = (len body - 48) / 32) as ->.
  { pose proof (len_chunks 32 (skip body 48) ltac:(lia)) as H1. rewrite Hls in H1.
    transitivity (div_ceil (len body - 48) 32); [exact H1|]. unfold div_ceil.
    pose proof (Z.div_mod (len body - 48) 32 ltac:(lia)). symmetry.
    apply Z.div_unique with (r := 31); lia. }
  rewrite Z.eqb_refl. cbn [negb]. do 2 f_equal. rewrite Hcc. by rewrite <- Hbody.
Qed.

Lemma body_field pfx id body x : len pfx = 4 -> is_bytes body -> len body = 4 ->
  read_u32 (pfx ++ id :: body) 5 = Ok x -> is_u 32 x /\ to_be 4 x = body.
Proof.
  intros Hp Hb Hl E. apply (read_field _ _ _ 0) in E as (_ & U & F); [|done..]. split; [done|].
  rewrite F, Z.add_0_l, <- Hl. apply sub_list_all.
Qed.

Lemma decode_by_id_inv pfx id body m : len pfx = 4 -> is_byte id -> is_bytes body ->
  (id = 20 -> 1 + len body <= 2 + MAX_EXTENSION_PAYLOAD_LENGTH) ->
  decode_by_id id (1 + len body) (pfx ++ id :: body) = Ok m -> reencodes m (id :: body).
Proof.
  intros Hp Hid Hb Hext. pose proof (len_nonneg body) as Hlb. unfold decode_by_id.
  assert (forall k (m' : PeerMessage), (exact_length k (1 + len body) 1 ≫= fun _ => Ok m') = Ok m -> body = [] /\ m' = m) as Htag.
  { intros k m' E. unfold mbind, outcome_bind in E.
    destruct (exact_length k (1 + len body) 1) as [[]|?| |] eqn:El; try done.
    apply exact_length_inv in El. injection E as ->. split; [apply len_0_nil; lia|done]. }
  destruct (Z.eqb_spec id 0) as [->|]; [by intros [-> <-]%Htag|].
  destruct (Z.eqb_spec id 1) as [->|]; [by intros [-> <-]%Htag|].
  destruct (Z.eqb_spec id 2) as [->|]; [by intros [-> <-]%Htag|].
  destruct (Z.eqb_spec id 3) as [->|]; [by intros [-> <-]%Htag|].
  destruct (Z.eqb_spec id 4) as [->|].
  { unfold mbind, outcome_bind. destruct (exact_length 4 _ 5) as [[]|?| |] eqn:El; try done.
    apply exact_length_inv in El. destruct (read_u32 _ 5) as [i|?| |] eqn:E; try done. intros. simplify_eq.
    destruct (body_field pfx 4 body i Hp Hb ltac:(lia) E) as [U <-]. done. }
  destruct (Z.eqb_spec id 5) as [->|].
  { destruct (Z.ltb_spec (1 + len body) 2); [done|]. unfold mbind, outcome_bind.
    destruct (drain _ 5) as [bits|?| |] eqn:E; try done. apply (drain_field _ _ _ 0) in E as [-> _]; [|done|lia].
    change (skip body 0) with body. intros. simplify_eq. split_and!; [done| |done|done].
    intros E. injection E as ->. change (len (@nil Z)) with 0 in *. lia. }
  destruct ((id =? 6) || (id =? 8) || (id =? 16)) eqn:Hreq.
  { unfold mbind, outcome_bind. destruct (exact_length id _ 13) as [[]|?| |] eqn:El; try done.
    apply exact_length_inv in El. destruct (decode_request _) as [r|?| |] eqn:E; try done.
    apply decode_request_inv in E as [Hr He]; [|done|done|lia]. unfold mret, outcome_ret. intros. simplify_eq.
    destruct (Z.eqb_spec id 6) as [->|]; [done|]. destruct (Z.eqb_spec id 8) as [->|]; [done|].
    destruct (Z.eqb_spec id 16) as [->|]; [done|done]. }
  destruct (Z.eqb_spec id 7) as [->|].
  { destruct ((1 + len body <? 10) || (MAX_CORE_FRAME_LENGTH <? 1 + len body)) eqn:Hr; [done|].
    apply orb_false_iff in Hr as [Hr1%Z.ltb_ge Hr2%Z.ltb_ge]. unfold mbind, outcome_bind.
    destruct (read_u32 _ 5) as [i|?| |] eqn:E1; try done. destruct (read_u32 _ 9) as [b|?| |] eqn:E2; try done.
    destruct (drain _ 13) as [block|?| |] eqn:E3; try done. unfold mret, outcome_ret. intros. simplify_eq.
    apply (read_field _ _ _ 0) in E1 as (_ & U1 & F1); [|done..].
    apply (read_field _ _ _ 4) in E2 as (_ & U2 & F2); [|done..].
    apply (drain_field _ _ _ 8) in E3 as [-> _]; [|done|lia].
    assert (len (skip body 8) = len body - 8) as Hls by (rewrite len_skip; lia).
    split_and!; [done|done|split_and!; [done|done|by apply is_bytes_skip]|]. cbn [encode_payload].
    unfold u32_try_from. unfold MAX_CORE_FRAME_LENGTH, MAX_REQUEST_BLOCK_LENGTH in *.
    rewrite Hls, (proj2 (Z.ltb_lt _ _)) by lia. cbn [ok_or]. unfold mbind, outcome_bind.
    rewrite request_length_ok by (unfold MAX_REQUEST_BLOCK_LENGTH; lia). unfold mret, outcome_ret.
    rewrite F1, F2. change (0 + 4) with 4. change (4 + 4) with 8. rewrite app_assoc, <- sub_list_join by lia.
    rewrite <- sub_list_skip by lia. done. }
  destruct ((id =? 13) || (id =? 17)) eqn:Hidx.
  { unfold mbind, outcome_bind. destruct (exact_length id _ 5) as [[]|?| |] eqn:El; try done.
    apply exact_length_inv in El. destruct (read_u32 _ 5) as [i|?| |] eqn:E; try done.
    destruct (body_field pfx id body i Hp Hb ltac:(lia) E) as [U <-].
    unfold mret, outcome_ret. intros. simplify_eq.
    destruct (Z.eqb_spec id 13) as [->|]; [done|]. destruct (Z.eqb_spec id 17) as [->|]; [done|done]. }
  destruct (Z.eqb_spec id 14) as [->|]; [by intros [-> <-]%Htag|].
  destruct (Z.eqb_spec id 15) as [->|]; [by intros [-> <-]%Htag|].
  destruct (Z.eqb_spec id 20) as [->|].
  { destruct (Z.ltb_spec (1 + len body) 2); [done|]. unfold mbind, outcome_bind.
    destruct body as [|x payload]; [change (len (@nil Z)) with 0 in *; lia|].
    change (pfx ++ 20 :: x :: payload) with (pfx ++ [20] ++ x :: payload).
    rewrite app_assoc, index_at by (rewrite len_app, Hp; done).
    rewrite <- app_assoc. change ([20] ++ x :: payload) with (20 :: x :: payload).
    destruct (drain _ 6) as [pl|?| |] eqn:E; try done. apply (drain_field _ _ _ 1) in E as [-> _]; [|done|lia].
    unfold mret, outcome_ret. intros. simplify_eq. apply Forall_cons_1 in Hb as [Hx Hb].
    change (skip (x :: payload) 1) with payload. split_and!; [done|done|done|]. cbn [encode_payload].
    specialize (Hext eq_refl). rewrite len_cons in Hext. by rewrite (proj2 (Z.ltb_ge _ _)) by lia. }
  destruct ((id =? 21) || (id =? 23)) eqn:Hhr.
  { unfold mbind, outcome_bind. destruct (exact_length id _ _) as [[]|?| |] eqn:El; try done.
    apply exact_length_inv in El. destruct (decode_hash_request_payload _) as [r|?| |] eqn:Er; try done.
    apply decode_hash_payload_inv in Er as (Hr & Hbody & _); [|done..].
    assert (skip body HASH_REQUEST_PAYLOAD_LENGTH = []) as E0.
    { apply len_0_nil. rewrite len_skip by done. lia. }
    rewrite E0, app_nil_r in Hbody.
    destruct (validate_hash_wire_request r (id =? 23)) as [[]|?| |] eqn:Hv; try done.
    unfold mret, outcome_ret. intros. simplify_eq.
    destruct (Z.eqb_spec id 21) as [->|].
    - split_and!; [done|done|done|]. cbn [encode_payload].
      by rewrite (Hv : validate_hash_wire_request r false = Ok tt).
    - destruct (Z.eqb_spec id 23) as [->|]; [|done].
      split_and!; [done|done|done|]. cbn [encode_payload].
      by rewrite (Hv : validate_hash_wire_request r true = Ok tt). }
  destruct (Z.eqb_spec id 22) as [->|]; [|done]. by apply decode_hashes_inv.
Qed.

Lemma encode_payload_maximum p m id body mx :
  encode_payload m = Ok (id :: body) -> frame_maximum id p = Ok mx -> m <> Bitfield [] ->
  payload_maximum m = mx /\ decodable p m.
Proof.
  intros E Hf Hb.
  assert (forall k r, encode_request k r = Ok (id :: body) -> id = k) as Hk.
  { intros k r H. apply encode_request_inv in H as (_ & _ & H). by simplify_eq. }
  destruct m as [ | | | | |i|bits|r|r|i begin block|i| | |r|i|eid pl|r|resp|r]; cbn [encode_payload] in E;
    try (apply Hk in E; subst id);
    try unfold mbind, outcome_bind, mret, outcome_ret in E; repeat case_match; simplify_eq;
    cbn in Hf; repeat (case_bool_decide || case_match); simplify_eq; split; try done; try congruence;
    destruct p; cbn; congruence.
Qed.

(** The decoder accepts exactly the encoder's frames. *)
Lemma decode_frame_inv p frame m :
  is_bytes frame -> 4 <= len frame -> of_be (sub_list frame 0 4) = len frame - 4 ->
  decode_frame frame p = Ok m -> message_ok m /\ decodable p m /\ encode_message m = Ok frame.
Proof.
  intros Hb Hl4 Hlen E.
  assert (exists pfx id body, frame = pfx ++ id :: body /\ len pfx = 4) as (pfx & id & body & -> & Hp).
  { unfold decode_frame, mbind, outcome_bind, index in E.
    destruct (nth_get frame 4) as [id|] eqn:Hid; [|done].
    exists (sub_list frame 0 4), id, (skip frame 5). split; [|rewrite len_sub_list; lia].
    rewrite (sub_list_skip frame 4) at 1 by lia. f_equal. unfold skip.
    rewrite nth_get_lookup in Hid by lia. apply (drop_S _ _ _ Hid). }
  apply is_bytes_app in Hb as [Hbp Hbb]. apply Forall_cons_1 in Hbb as [Hid Hbb].
  rewrite len_app, len_cons, Hp in *.
  replace (sub_list (pfx ++ id :: body) 0 4) with pfx in Hlen
    by (symmetry; apply (sub_list_middle [] pfx); [done|by rewrite Hp]).
  rewrite decode_frame_eq in E by done. unfold mbind, outcome_bind in E.
  destruct (frame_maximum id p) as [mx|?| |] eqn:Hf; try done.
  destruct (Z.ltb_spec mx (1 + len body)) as [|Hmx]; [done|].
  apply decode_by_id_inv in E as (H1 & H2 & H3 & H4); [|done..|].
  2:{ intros ->. cbn in Hf. by simplify_eq. }
  destruct (encode_payload_maximum p m id body mx H4 Hf H2) as [Hpm Hd]. split_and!; [done|done|].
  assert (encode_message m = payload ← encode_payload m;
    if payload_maximum m <? len payload
    then Err (FrameLengthTooLarge (len payload) (payload_maximum m))
    else Ok (to_be 4 (len payload) ++ payload)) as -> by (by destruct m).
  rewrite H4. unfold mbind, outcome_bind. rewrite len_cons, Hpm, (proj2 (Z.ltb_ge _ _)) by lia.
  do 2 f_equal. replace (1 + len body) with (of_be pfx) by lia.
  replace 4%nat with (length pfx) by (unfold len in Hp; lia). by apply to_be_of_be.
Qed.

(** ** Handshakes *)
Lemma encode_handshake_fields info id res :
  len info = 20 -> len id = 20 -> len res = 8 ->
  let bytes := encode_handshake_with_reserved info id res in
  len bytes = HANDSHAKE_LENGTH /\ check_protocol bytes = Ok tt
  /\ (forall E, @slice E Z bytes 28 48 = Ok info) /\ (forall E, @slice E Z bytes 48 68 = Ok id)
  /\ (forall E, @slice E Z bytes 20 28 = Ok res).
Proof.
  intros H1 H2 H3. cbv zeta. unfold encode_handshake_with_reserved.
  set (bytes := [len PROTOCOL_NAME] ++ PROTOCOL_NAME ++ res ++ info ++ id).
  assert (len bytes = 68) as Hl by (subst bytes; rewrite !len_app, H1, H2, H3; done).
  assert (sub_list bytes 28 48 = info) as E1.
  { subst bytes. rewrite !app_assoc, <- (app_assoc _ info id). apply sub_list_middle; rewrite !len_app, H3, ?H1; done. }
  assert (sub_list bytes 20 28 = res) as E2.
  { subst bytes. rewrite !app_assoc, <- (app_assoc _ info id), <- (app_assoc _ res (info ++ id)).
    apply sub_list_middle; rewrite !len_app, ?H3; done. }
  assert (sub_list bytes 48 68 = id) as E3.
  { pose proof (sub_list_middle ([len PROTOCOL_NAME] ++ PROTOCOL_NAME ++ res ++ info) id [] 48 68) as Hm.
    rewrite app_nil_r, <- !app_assoc in Hm. apply Hm; rewrite !len_app, H3, H1, ?H2; done. }
  split_and!; [done| |intros; rewrite slice_ok by lia; congruence..].
  unfold check_protocol, HANDSHAKE_LENGTH. rewrite Hl, Z.eqb_refl. cbn [negb].
  change (index bytes 0) with (@Ok HandshakeError Z (len PROTOCOL_NAME)). unfold mbind, outcome_bind.
  rewrite slice_ok by lia.
  replace (sub_list bytes 1 20) with PROTOCOL_NAME; [by rewrite Z.eqb_refl, bool_decide_true|].
  symmetry. apply (sub_list_middle [len PROTOCOL_NAME] PROTOCOL_NAME); done.
Qed.

Lemma decode_handshake_inv bytes info h : decode_handshake bytes info = Ok h ->
  bytes = encode_handshake_with_reserved info (peer_id h) (reserved h)
  /\ len info = 20 /\ len (peer_id h) = 20 /\ len (reserved h) = 8.
Proof.
  unfold decode_handshake, check_protocol, mbind, outcome_bind, HANDSHAKE_LENGTH.
  destruct (Z.eqb_spec (len bytes) 68) as [Hl|]; [|done]. cbn [negb].
  destruct (index bytes 0) as [b0|?| |] eqn:E0; try done.
  rewrite !slice_ok by lia.
  destruct (Z.eqb_spec b0 (len PROTOCOL_NAME)) as [->|]; [|done]. cbn [negb orb].
  case_bool_decide as En; [|done]. cbn [negb]. case_bool_decide as Ei; [|done]. cbn [negb].
  unfold mret, outcome_ret. intros. simplify_eq. cbn [peer_id reserved].
  split_and!; [|rewrite len_sub_list; lia..].
  unfold encode_handshake_with_reserved. rewrite <- En.
  assert (nth_get bytes 0 = Some (len PROTOCOL_NAME)) as H0.
  { unfold index in E0. destruct (nth_get bytes 0); [|done]. cbn in E0. by simplify_eq. }
  rewrite En at 1. rewrite <- (sub_list_one _ _ _ H0). change (0 + 1) with 1.
  rewrite <- !sub_list_join by lia. by rewrite <- Hl, sub_list_all.
Qed.

(** * Properties *)

(** C35: The decoder recovers the message stream, however it is cut.  Take
    any messages the encoder accepts and a decoder in a mode that knows
    them; cut the concatenated frames into chunks anywhere, also inside
    length prefixes, of at most the input limit, and push them one by one:
    the decoder returns exactly the messages, in order, and ends with an
    empty buffer.  The only other outcome is the documented limit of 1024
    messages per call, which a chunk of at most 4096 bytes never meets. *)
Theorem decoder_stream p ms fs chunks :
  Forall (fun m => message_ok m /\ decodable p m) ms ->
  Forall2 (fun m f => encode_message m = Ok f) ms fs ->
  concat chunks = concat fs ->
  Forall (fun c => len c <= MAX_DECODER_INPUT_LENGTH) chunks ->
  feed chunks (mkDecoder [] p) = (mkDecoder [] p, Ok ms)
  \/ ((feed chunks (mkDecoder [] p)).2 = Err (TooManyMessages MAX_MESSAGES_PER_PUSH)
      /\ Exists (fun c => 4096 < len c) chunks).
Proof.
  intros Hok Henc Hcat Hall.
  assert (Forall2 (wire_frame p) fs ms) as Hw.
  { clear Hcat Hall. induction Henc as [|m f ms fs He _ IH]; [constructor|].
    apply Forall_cons_1 in Hok as [[Hm Hd] Hok]. constructor; [by apply encode_wire_frame|auto]. }
  pose proof (feed_stream p chunks [] fs ms ltac:(by split; [|left]) Hcat Hall) as H.
  destruct (feed chunks (mkDecoder [] p)) as [d' [out|e| |]]; try done.
  - left. destruct H as [-> ->]. done.
  - right. destruct H as [-> H]. done.
Qed.

(** The decoder is total and bounded.  For any decoder state with a
    bounded buffer and any input bytes, [push] returns messages or an error;
    it never indexes out of range and never loops, and the buffer never
    holds more than one maximal frame. *)
Theorem decoder_total d input :
  decoder_ok d -> is_bytes input ->
  let '(d', r) := FrameDecoder_push input d in
  decoder_ok d' /\ protocol d' = protocol d /\ returns r.
Proof.
  intros Hd Hi. unfold FrameDecoder_push. destruct (MAX_DECODER_INPUT_LENGTH <? len input); [done|].
  unfold mbind, M_bind, get. pose proof (len_nonneg input).
  apply push_loop_total; [done|done|lia|unfold push_fuel, len; lia].
Qed.

(** The decoder accepts only canonical frames.  If a frame with a true
    length prefix decodes to a message, the message is well-typed, allowed in
    the decoder's mode, and encodes to exactly that frame: no second byte
    string decodes to the same message. *)
Theorem decode_frame_canonical p frame m :
  is_bytes frame -> 4 <= len frame -> of_be (sub_list frame 0 4) = len frame - 4 ->
  decode_frame frame p = Ok m ->
  message_ok m /\ decodable p m /\ encode_message m = Ok frame.
Proof. apply decode_frame_inv. Qed.

(** A handshake is accepted exactly when it is the encoding, for the
    expected info hash, of the peer id and reserved bytes returned. *)
Theorem decode_handshake_exact bytes info h :
  decode_handshake bytes info = Ok h <->
  bytes = encode_handshake_with_reserved info (peer_id h) (reserved h)
  /\ len info = 20 /\ len (peer_id h) = 20 /\ len (reserved h) = 8.
Proof.
  split; [apply decode_handshake_inv|]. intros (-> & H1 & H2 & H3).
  destruct (encode_handshake_fields info (peer_id h) (reserved h) H1 H2 H3) as (Hl & Hc & E1 & E2 & E3).
  unfold decode_handshake. rewrite Hc. unfold mbind, outcome_bind. rewrite E1, E2, E3.
  rewrite bool_decide_true by done. cbn. by destruct h.
Qed.

(** The hybrid upgrade: the initiator takes the v1 swarm when the
    responder answers with the v1 key, the v2 swarm only when it offered the
    upgrade and the answer is the v2 key, and refuses everything else; the
    peer id and reserved bytes are the responder's. *)
Theorem decode_hybrid_response_selects wire id res v1_key v2_key offered :
  len wire = 20 -> len id = 20 -> len res = 8 ->
  decode_hybrid_response (encode_handshake_with_reserved wire id res) v1_key v2_key offered =
    if bool_decide (wire = SwarmKey_into_bytes v1_key)
    then Ok (mkSelection (mkHandshake id res) PP_V1 v1_key)
    else if offered && bool_decide (wire = SwarmKey_into_bytes v2_key)
    then Ok (mkSelection (mkHandshake id res) PP_V2 v2_key)
    else Err InfoHashMismatch.
Proof.
  intros H1 H2 H3. destruct (encode_handshake_fields wire id res H1 H2 H3) as (Hl & Hc & E1 & E2 & E3).
  unfold decode_hybrid_response, decode_handshake_fields. rewrite Hc.
  unfold mbind, outcome_bind. rewrite E1, E2, E3. done.
Qed.

(** ** Witnesses *)
Definition sample_messages : list PeerMessage :=
  [KeepAlive; Have 7; Request (mkBlockRequest 1 16384 16384); Piece 2 0 [9; 8; 7]; Extended 3 [1; 2]].

Lemma decoder_stream_witness :
  exists fs, Forall2 (fun m f => encode_message m = Ok f) sample_messages fs /\
  let cs := chunks 3 (concat fs) in
  (feed cs (mkDecoder [] PP_V1) = (mkDecoder [] PP_V1, Ok sample_messages)
   \/ ((feed cs (mkDecoder [] PP_V1)).2 = Err (TooManyMessages MAX_MESSAGES_PER_PUSH)
       /\ Exists (fun c => 4096 < len c) cs)).
Proof.
  eexists. split.
  - unfold sample_messages. repeat (constructor; [vm_compute; reflexivity|]). constructor.
  - cbv zeta. eapply (decoder_stream PP_V1 sample_messages).
    + unfold sample_messages. repeat constructor; vm_compute; try congruence; repeat constructor; congruence.
    + unfold sample_messages. repeat (constructor; [vm_compute; reflexivity|]). constructor.
    + vm_compute. reflexivity.
    + apply (bool_decide_unpack _). vm_compute. exact I.
Defined.

Lemma decoder_total_witness :
  decoder_ok FrameDecoder_new /\ is_bytes [0; 0; 0; 1; 99; 0; 0] /\
  let '(d', r) := FrameDecoder_push [0; 0; 0; 1; 99; 0; 0] FrameDecoder_new in
  decoder_ok d' /\ protocol d' = protocol FrameDecoder_new /\ returns r.
Proof.
  assert (decoder_ok FrameDecoder_new) as H1 by (split; [constructor|vm_compute; congruence]).
  assert (is_bytes [0; 0; 0; 1; 99; 0; 0]) as H2 by (repeat constructor; lia).
  split; [exact H1|]. split; [exact H2|].
  exact (decoder_total FrameDecoder_new [0; 0; 0; 1; 99; 0; 0] H1 H2).
Defined.

Lemma decode_frame_canonical_witness :
  decode_frame [0; 0; 0; 5; 4; 0; 0; 1; 2] PP_V1 = Ok (Have 258) /\
  message_ok (Have 258) /\ decodable PP_V1 (Have 258) /\
  encode_message (Have 258) = Ok [0; 0; 0; 5; 4; 0; 0; 1; 2].
Proof.
  split; [reflexivity|].
  apply (decode_frame_canonical PP_V1 [0; 0; 0; 5; 4; 0; 0; 1; 2]); [repeat constructor; lia|vm_compute; congruence|reflexivity|reflexivity].
Defined.

Lemma decode_hybrid_response_selects_witness :
  decode_hybrid_response (encode_handshake_with_reserved (replicate 20 7) (replicate 20 1) (replicate 8 0))
    (SK_V1 (replicate 20 5)) (V2Truncated (replicate 20 7)) true
  = Ok (mkSelection (mkHandshake (replicate 20 1) (replicate 8 0)) PP_V2 (V2Truncated (replicate 20 7))).
Proof.
  rewrite (decode_hybrid_response_selects (replicate 20 7) (replicate 20 1) (replicate 8 0)
             (SK_V1 (replicate 20 5)) (V2Truncated (replicate 20 7)) true eq_refl eq_refl eq_refl).
  vm_compute. reflexivity.
Defined.
