(* ===== verification/Piece.v ===== *)
(** * Piece: the one-piece download of [piece.rs]

    A state machine: peer messages and storage results come in, actions go
    out.  The blocks of the piece move from missing to requested to writing
    to stored under a payload budget; verification starts when all blocks are
    stored. *)
From S2P Require Import Prelude Bytes V2Hashes PeerWire.

Definition MIN_PAYLOAD_ALLOWANCE : Z := MAX_REQUEST_BLOCK_LENGTH.
(** From [metainfo.rs]. *)
Definition MAX_PIECE_LENGTH : Z := 536854528.

(** [RequestRange] of [storage_layout.rs]. *)
Record RequestRange := mkRange { rr_begin : Z; rr_length : Z }.

Record UnverifiedBlock := mkUnverified { ub_index : Z; ub_begin : Z; ub_bytes : list Z }.
Record VerifiedPiece := mkVerified { vp_index : Z; vp_hash : list Z; vp_length : Z }.
Inductive DownloadAction :=
| SendInterested
| DA_Request (request : BlockRequest)
| StoreBlock (block : UnverifiedBlock)
| VerifyPiece (piece length : Z)
| Verified (piece : VerifiedPiece).

Record PayloadBudgetSnapshot := mkBudget { limit : Z; reserved : Z; high_water : Z }.

Inductive BlockStatus := Missing | Requested | Writing | Stored.
#[export] Instance BlockStatus_eq_dec : EqDecision BlockStatus.
Proof. solve_decision. Defined.

(** The message kinds named by [UnexpectedMessage]. *)
Inductive MessageKind := MK_request | MK_extended | MK_fast_extension | MK_v2_hash_exchange.

Inductive PieceError :=
| InvalidPieceLength (length maximum : Z)
| InvalidPayloadAllowance (configured minimum : Z)
| InvalidPieceCount (count : Z)
| PieceIndexOutOfRange (piece piece_count : Z)
| InvalidRequestRange (begin length : Z)
| OverlappingRequestRange (previous_end begin : Z)
| EmptyRequestPlan
| InvalidBitfieldLength (actual expected : Z)
| InvalidBitfieldPadding
| UnexpectedPieceIndex (expected actual : Z)
| BlockOutOfRange (begin : Z)
| OverlappingBlock (begin : Z)
| InvalidBlockLength (begin expected actual : Z)
| UnexpectedBlock (begin : Z)
| DuplicateBlock (begin : Z)
| InvalidBlockTransition (begin : Z) (expected actual : BlockStatus)
| VerificationNotReady
| UnexpectedMessage (kind : MessageKind)
| HashMismatch (expected actual : list Z).

Record Block := mkBlock { begin : Z; length : Z; status : BlockStatus }.
Definition set_status (s : BlockStatus) (b : Block) : Block := mkBlock (begin b) (length b) s.

Record OnePieceDownload := mkDownload {
  piece_index : Z;
  piece_length : Z;
  piece_count : Z;
  expected_hash : list Z;
  blocks : list Block;
  payload_budget : PayloadBudgetSnapshot;
  peer_has_piece : bool;
  peer_choking : bool;
  interested : bool;
  verification_started : bool;
  verified : bool;
}.

Definition set_blocks (l : list Block) (d : OnePieceDownload) : OnePieceDownload :=
  mkDownload (piece_index d) (piece_length d) (piece_count d) (expected_hash d) l (payload_budget d)
    (peer_has_piece d) (peer_choking d) (interested d) (verification_started d) (verified d).
Definition set_budget (b : PayloadBudgetSnapshot) (d : OnePieceDownload) : OnePieceDownload :=
  mkDownload (piece_index d) (piece_length d) (piece_count d) (expected_hash d) (blocks d) b
    (peer_has_piece d) (peer_choking d) (interested d) (verification_started d) (verified d).
Definition set_has_piece (v : bool) (d : OnePieceDownload) : OnePieceDownload :=
  mkDownload (piece_index d) (piece_length d) (piece_count d) (expected_hash d) (blocks d) (payload_budget d)
    v (peer_choking d) (interested d) (verification_started d) (verified d).
Definition set_choking (v : bool) (d : OnePieceDownload) : OnePieceDownload :=
  mkDownload (piece_index d) (piece_length d) (piece_count d) (expected_hash d) (blocks d) (payload_budget d)
    (peer_has_piece d) v (interested d) (verification_started d) (verified d).
Definition set_interested (v : bool) (d : OnePieceDownload) : OnePieceDownload :=
  mkDownload (piece_index d) (piece_length d) (piece_count d) (expected_hash d) (blocks d) (payload_budget d)
    (peer_has_piece d) (peer_choking d) v (verification_started d) (verified d).
Definition set_started (v : bool) (d : OnePieceDownload) : OnePieceDownload :=
  mkDownload (piece_index d) (piece_length d) (piece_count d) (expected_hash d) (blocks d) (payload_budget d)
    (peer_has_piece d) (peer_choking d) (interested d) v (verified d).
Definition set_verified (v : bool) (d : OnePieceDownload) : OnePieceDownload :=
  mkDownload (piece_index d) (piece_length d) (piece_count d) (expected_hash d) (blocks d) (payload_budget d)
    (peer_has_piece d) (peer_choking d) (interested d) (verification_started d) v.

(** ** Construction *)

(** The loop over the request ranges, after the parameter checks. *)
Fixpoint plan_blocks (piece_length previous_end : Z) (ranges : list RequestRange)
    : outcome PieceError (list Block) :=
  match ranges with
  | [] => Ok []
  | r :: rest =>
    let last := checked_add 32 (rr_begin r) (rr_length r) in
    if (rr_length r =? 0) || (MAX_REQUEST_BLOCK_LENGTH <? rr_length r)
       || match last with None => true | Some e => piece_length <? e end
    then Err (InvalidRequestRange (rr_begin r) (rr_length r))
    else if rr_begin r <? previous_end
    then Err (OverlappingRequestRange previous_end (rr_begin r))
    else
      e ← expect last;
      bs ← plan_blocks piece_length e rest;
      mret (mkBlock (rr_begin r) (rr_length r) Missing :: bs)
  end.

Definition new_for_torrent (index plength : Z) (hash : list Z) (payload_allowance count : Z)
    (ranges : list RequestRange) : outcome PieceError OnePieceDownload :=
  if (plength =? 0) || (MAX_PIECE_LENGTH <? plength)
  then Err (InvalidPieceLength plength MAX_PIECE_LENGTH)
  else if payload_allowance <? MIN_PAYLOAD_ALLOWANCE
  then Err (InvalidPayloadAllowance payload_allowance MIN_PAYLOAD_ALLOWANCE)
  else if count =? 0 then Err (InvalidPieceCount count)
  else if count <=? index then Err (PieceIndexOutOfRange index count)
  else if bool_decide (ranges = []) then Err EmptyRequestPlan
  else
    bs ← plan_blocks plength 0 ranges;
    mret (mkDownload index plength count hash bs (mkBudget payload_allowance 0 0)
            false true false false false).

(** [while begin < piece_length { .. begin += length; }] *)
Fixpoint default_ranges (fuel : nat) (plength start : Z) : outcome PieceError (list RequestRange) :=
  if start <? plength then
    match fuel with
    | O => NoFuel
    | S f =>
      let length := Z.min MAX_REQUEST_BLOCK_LENGTH (plength - start) in
      rest ← default_ranges f plength (start + length);
      mret (mkRange start length :: rest)
    end
  else Ok [].
(** Every range but the last has the full block length. *)
Definition ranges_fuel (plength : Z) : nat := Z.to_nat (div_ceil plength MAX_REQUEST_BLOCK_LENGTH).

Definition OnePieceDownload_new (index plength : Z) (hash : list Z) (payload_allowance : Z)
    : outcome PieceError OnePieceDownload :=
  if (plength =? 0) || (MAX_PIECE_LENGTH <? plength)
  then Err (InvalidPieceLength plength MAX_PIECE_LENGTH)
  else if payload_allowance <? MIN_PAYLOAD_ALLOWANCE
  then Err (InvalidPayloadAllowance payload_allowance MIN_PAYLOAD_ALLOWANCE)
  else if negb (index =? 0) then Err (PieceIndexOutOfRange index 1)
  else
    ranges ← default_ranges (ranges_fuel plength) plength 0;
    new_for_torrent index plength hash payload_allowance 1 ranges.

(** ** Operations *)
Abbreviation method := (M OnePieceDownload PieceError).

(** [checked_sub(..).expect(..)] *)
Definition release (n : Z) : method unit :=
  d ← get;
  r ← lift (expect (checked_sub (reserved (payload_budget d)) n));
  put (set_budget (mkBudget (limit (payload_budget d)) r (high_water (payload_budget d))) d).

Definition validate_piece_index (i : Z) : method unit :=
  d ← get;
  if negb (i =? piece_index d) then fail (UnexpectedPieceIndex (piece_index d) i) else mret tt.

(** [blocks.iter_mut().find(|block| block.begin == begin)]: the position of
    the block, and the block. *)
Fixpoint find_block (b : Z) (l : list Block) (i : nat) : option (nat * Block) :=
  match l with
  | [] => None
  | x :: r => if begin x =? b then Some (i, x) else find_block b r (S i)
  end.
Definition block_mut (b : Z) : method (nat * Block) :=
  d ← get;
  if piece_length d <=? b then fail (BlockOutOfRange b)
  else lift (ok_or (find_block b (blocks d) 0) (OverlappingBlock b)).
Definition write_status (i : nat) (s : BlockStatus) : method unit :=
  modify (fun d => set_blocks (alter (set_status s) i (blocks d)) d).

(** Reset the blocks of the given statuses to missing, adding up their
    lengths in a [u32]. *)
Fixpoint reset_blocks (which : BlockStatus -> bool) (l : list Block) (released : Z)
    : outcome PieceError (list Block * Z) :=
  match l with
  | [] => Ok ([], released)
  | x :: r =>
    if which (status x) then
      total ← expect (checked_add 32 released (length x));
      '(r', total) ← reset_blocks which r total;
      Ok (set_status Missing x :: r', total)
    else
      '(r', total) ← reset_blocks which r released;
      Ok (x :: r', total)
  end.
Definition cancel_where (which : BlockStatus -> bool) : method unit :=
  d ← get;
  '(l, released) ← lift (reset_blocks which (blocks d) 0);
  put (set_blocks l d);;
  release released.
Definition cancel_requested : method unit := cancel_where (fun s => bool_decide (s = Requested)).
Definition cancel_pending : method unit :=
  cancel_where (fun s => bool_decide (s = Requested) || bool_decide (s = Writing)).

(** The loop of [fill_request_window] over the blocks. *)
Fixpoint fill_blocks (index : Z) (l : list Block) (b : PayloadBudgetSnapshot)
    : outcome PieceError (list Block * PayloadBudgetSnapshot * list DownloadAction) :=
  match l with
  | [] => Ok ([], b, [])
  | x :: r =>
    if negb (bool_decide (status x = Missing)) then
      '(r', b, actions) ← fill_blocks index r b;
      Ok (x :: r', b, actions)
    else
      wanted ← expect (checked_add USIZE (reserved b) (length x));
      if limit b <? wanted then Ok (x :: r, b, [])
      else
        let b := mkBudget (limit b) wanted (Z.max (high_water b) wanted) in
        '(r', b, actions) ← fill_blocks index r b;
        Ok (set_status Requested x :: r', b,
            DA_Request (mkBlockRequest index (begin x) (length x)) :: actions)
  end.
Definition fill_request_window : method (list DownloadAction) :=
  d ← get;
  if peer_choking d || negb (peer_has_piece d) || verified d || verification_started d then mret []
  else
    '(l, b, actions) ← lift (fill_blocks (piece_index d) (blocks d) (payload_budget d));
    put (set_budget b (set_blocks l d));;
    mret actions.

(** [if !self.interested { self.interested = true; .. }] *)
Definition announce_interest : method (list DownloadAction) :=
  d ← get;
  if interested d then mret []
  else modify (set_interested true);; mret [SendInterested].

Definition availability_actions : method (list DownloadAction) :=
  d ← get;
  if negb (peer_has_piece d) || verified d || verification_started d then mret []
  else
    first ← announce_interest;
    d ← get;
    rest ← (if peer_choking d then mret [] else fill_request_window);
    mret (first ++ rest).

Definition receive_block (i b : Z) (bytes : list Z) : method (list DownloadAction) :=
  validate_piece_index i;;
  d ← get;
  if piece_length d <=? b then fail (BlockOutOfRange b)
  else
    '(pos, block) ← block_mut b;
    if negb (len bytes =? length block) then fail (InvalidBlockLength b (length block) (len bytes))
    else
      match status block with
      | Missing => fail (UnexpectedBlock b)
      | Writing | Stored => fail (DuplicateBlock b)
      | Requested =>
        write_status pos Writing;;
        mret [StoreBlock (mkUnverified i b bytes)]
      end.

(** The bit of a piece in a bitfield, most significant bit first. *)
Definition on_bitfield (bitfield : list Z) : method (list DownloadAction) :=
  d ← get;
  let expected_length := div_ceil (piece_count d) 8 in
  if negb (len bitfield =? expected_length)
  then fail (InvalidBitfieldLength (len bitfield) expected_length)
  else
    let padding_bits := expected_length * 8 - piece_count d in
    last ← lift (if 0 <? padding_bits then index bitfield (expected_length - 1) else Ok 0);
    if (0 <? padding_bits) && negb (Z.land last (Z.shiftl 1 padding_bits - 1) =? 0)
    then fail InvalidBitfieldPadding
    else
      byte ← lift (index bitfield (piece_index d / 8));
      modify (set_has_piece (negb (Z.land byte (Z.shiftl 1 (7 - piece_index d mod 8)) =? 0)));;
      availability_actions.

Definition on_message (message : PeerMessage) : method (list DownloadAction) :=
  match message with
  | KeepAlive => mret []
  | Choke => modify (set_choking true);; cancel_requested;; mret []
  | Unchoke => modify (set_choking false);; availability_actions
  | Have i =>
    d ← get;
    if piece_count d <=? i then fail (PieceIndexOutOfRange i (piece_count d))
    else
      (if i =? piece_index d then modify (set_has_piece true) else mret tt);;
      availability_actions
  | Bitfield bits => on_bitfield bits
  | Piece i b block => receive_block i b block
  | Interested | NotInterested | Cancel _ => mret []
  | Request _ => fail (UnexpectedMessage MK_request)
  | Extended _ _ => fail (UnexpectedMessage MK_extended)
  | SuggestPiece _ | HaveAll | HaveNone | RejectRequest _ | AllowedFast _ =>
    fail (UnexpectedMessage MK_fast_extension)
  | PM_HashRequest _ | Hashes _ | HashReject _ => fail (UnexpectedMessage MK_v2_hash_exchange)
  end.

Definition all_stored (l : list Block) : bool := forallb (fun b => bool_decide (status b = Stored)) l.

Definition on_block_stored (i b : Z) : method (list DownloadAction) :=
  validate_piece_index i;;
  '(pos, block) ← block_mut b;
  if negb (bool_decide (status block = Writing))
  then fail (InvalidBlockTransition b Writing (status block))
  else
    write_status pos Stored;;
    release (length block);;
    d ← get;
    if all_stored (blocks d) then
      put (set_started true d);;
      mret [VerifyPiece (piece_index d) (piece_length d)]
    else fill_request_window.

Definition on_block_write_failed (i b : Z) : method unit :=
  validate_piece_index i;;
  '(pos, block) ← block_mut b;
  if negb (bool_decide (status block = Writing))
  then fail (InvalidBlockTransition b Writing (status block))
  else
    write_status pos Missing;;
    release (length block).

Definition finish_verification (i : Z) (actual_hash : list Z) : method DownloadAction :=
  validate_piece_index i;;
  d ← get;
  if negb (verification_started d) || negb (all_stored (blocks d)) then fail VerificationNotReady
  else if negb (bool_decide (actual_hash = expected_hash d))
  then fail (HashMismatch (expected_hash d) actual_hash)
  else
    put (set_verified true d);;
    mret (Verified (mkVerified (piece_index d) actual_hash (piece_length d))).

Definition block_count (d : OnePieceDownload) : Z := len (blocks d).

(** ** Events and reachable states *)
Inductive Event :=
| OnMessage (message : PeerMessage)
| OnBlockStored (piece begin : Z)
| OnBlockWriteFailed (piece begin : Z)
| CancelPending
| FinishVerification (piece : Z) (hash : list Z).

Definition handle (e : Event) : method (list DownloadAction) :=
  match e with
  | OnMessage m => on_message m
  | OnBlockStored i b => on_block_stored i b
  | OnBlockWriteFailed i b => on_block_write_failed i b;; mret []
  | CancelPending => cancel_pending;; mret []
  | FinishVerification i h => a ← finish_verification i h; mret [a]
  end.

(** The actions a call produced: none when it failed. *)
Definition actions_of (r : outcome PieceError (list DownloadAction)) : list DownloadAction :=
  match r with Ok l => l | _ => [] end.
Definition succeeded (r : outcome PieceError (list DownloadAction)) : bool :=
  match r with Ok _ => true | _ => false end.

(** A download's history: its state and the events it handled, with whether
    each succeeded and the actions it produced, the last one first. *)
Inductive history (d0 : OnePieceDownload) : OnePieceDownload -> list (Event * bool * list DownloadAction) -> Prop :=
| history_start : history d0 d0 []
| history_step d log e d' r :
    history d0 d log -> handle e d = (d', r) ->
    history d0 d' ((e, succeeded r, actions_of r) :: log).

(** ** The invariant *)
Fixpoint blocks_wf (plength previous_end : Z) (l : list Block) : Prop :=
  match l with
  | [] => True
  | x :: r => previous_end <= begin x /\ 0 < length x <= MAX_REQUEST_BLOCK_LENGTH
              /\ begin x + length x <= plength /\ blocks_wf plength (begin x + length x) r
  end.
Definition in_flight (s : BlockStatus) : bool :=
  match s with Requested | Writing => true | Missing | Stored => false end.
(** The payload bytes reserved for blocks requested or being written. *)
Fixpoint reserved_bytes (l : list Block) : Z :=
  match l with
  | [] => 0
  | x :: r => (if in_flight (status x) then length x else 0) + reserved_bytes r
  end.

Record download_ok (d : OnePieceDownload) : Prop := {
  do_length : 0 < piece_length d <= MAX_PIECE_LENGTH;
  do_index : 0 <= piece_index d < piece_count d;
  do_blocks : blocks_wf (piece_length d) 0 (blocks d);
  do_nonempty : blocks d <> [];
  do_reserved : reserved (payload_budget d) = reserved_bytes (blocks d);
  do_limit : MIN_PAYLOAD_ALLOWANCE <= limit (payload_budget d) < 2 ^ USIZE;
  do_budget : reserved (payload_budget d) <= high_water (payload_budget d) <= limit (payload_budget d);
  do_started : verification_started d = all_stored (blocks d);
  do_verified : verified d = true -> verification_started d = true;
}.

(** What stays the same. *)
Definition same_download (d d' : OnePieceDownload) : Prop :=
  piece_index d' = piece_index d /\ piece_length d' = piece_length d /\ piece_count d' = piece_count d
  /\ expected_hash d' = expected_hash d /\ limit (payload_budget d') = limit (payload_budget d)
  /\ map begin (blocks d') = map begin (blocks d) /\ map length (blocks d') = map length (blocks d).

(** How one block may change in one event. *)
Definition block_moves (idx : Z) (e : Event) (acts : list DownloadAction) (x x' : Block) : Prop :=
  begin x' = begin x /\ length x' = length x /\
  match status x, status x' with
  | Missing, Requested => DA_Request (mkBlockRequest idx (begin x) (length x)) ∈ acts
  | Requested, Writing => exists bytes,
      e = OnMessage (Piece idx (begin x) bytes) /\ len bytes = length x
      /\ StoreBlock (mkUnverified idx (begin x) bytes) ∈ acts
  | Writing, Stored => e = OnBlockStored idx (begin x)
  | Requested, Missing | Writing, Missing => True
  | s, s' => s = s'
  end.
Definition moves (e : Event) (acts : list DownloadAction) (d d' : OnePieceDownload) : Prop :=
  forall i x', blocks d' !! i = Some x' ->
  exists x, blocks d !! i = Some x /\ block_moves (piece_index d) e acts x x'.

(** Every request names a block that was missing. *)
Definition requests_missing (acts : list DownloadAction) (d d' : OnePieceDownload) : Prop :=
  forall r, DA_Request r ∈ acts ->
  exists i x, blocks d !! i = Some x /\ status x = Missing
    /\ r = mkBlockRequest (piece_index d) (begin x) (length x)
    /\ blocks d' !! i = Some (set_status Requested x).

(** What one event preserves and produces. *)
Definition event_ok (e : Event) (d d' : OnePieceDownload) (acts : list DownloadAction) : Prop :=
  download_ok d' /\ same_download d d' /\ moves e acts d d' /\ requests_missing acts d d'
  /\ (forall v, Verified v ∈ acts ->
        e = FinishVerification (piece_index d) (expected_hash d)
        /\ verified d' = true /\ all_stored (blocks d') = true
        /\ v = mkVerified (piece_index d) (expected_hash d) (piece_length d)).

(** A new download: nothing requested yet. *)
Definition fresh_download (d : OnePieceDownload) : Prop :=
  download_ok d /\ Forall (fun x => status x = Missing) (blocks d) /\ verified d = false.

(** Consecutive blocks that cover the piece from [p] to its end. *)
Fixpoint tiles (plength p : Z) (l : list Block) : Prop :=
  match l with
  | [] => p = plength
  | x :: r => begin x = p /\ tiles plength (p + length x) r
  end.

(** What the log says about a block in its status: a block being written or
    stored was received, and a stored one was reported stored. *)
Definition block_logged (idx : Z) (log : list (Event * bool * list DownloadAction)) (x : Block) : Prop :=
  (status x = Stored -> exists acts, (OnBlockStored idx (begin x), true, acts) ∈ log)
  /\ (status x = Writing \/ status x = Stored -> exists bytes acts,
        (OnMessage (Piece idx (begin x) bytes), true, acts) ∈ log /\ len bytes = length x
        /\ StoreBlock (mkUnverified idx (begin x) bytes) ∈ acts).

(** * Lemmas *)
Lemma blocks_wf_weaken pl l : forall p q, q <= p -> blocks_wf pl p l -> blocks_wf pl q l.
Proof. destruct l as [|x r]; [done|]. cbn. intuition lia. Qed.
Lemma reserved_bounds pl l : forall p, 0 <= p <= pl -> blocks_wf pl p l -> 0 <= reserved_bytes l <= pl - p.
Proof.
  induction l as [|x r IH]; intros p Hp; cbn [blocks_wf reserved_bytes]; [lia|].
  intros (H1 & H2 & H3 & H4). specialize (IH (begin x + length x) ltac:(lia) H4).
  destruct (in_flight (status x)); lia.
Qed.

(** Changing statuses only. *)
Lemma blocks_wf_ext pl l l' : forall p,
  map begin l' = map begin l -> map length l' = map length l -> blocks_wf pl p l -> blocks_wf pl p l'.
Proof.
  revert l'. induction l as [|x r IH]; intros [|x' r'] p; cbn; try done.
  intros E1 E2 (H1 & H2 & H3 & H4). injection E1 as E1 E1'. injection E2 as E2 E2'.
  rewrite E1, E2. split_and!; [lia..|]. by apply IH.
Qed.

Lemma find_block_Some b l : forall i pos x,
  find_block b l i = Some (pos, x) -> exists k, pos = (i + k)%nat /\ l !! k = Some x /\ begin x = b.
Proof.
  induction l as [|y r IH]; intros i pos x; cbn [find_block]; [done|].
  destruct (Z.eqb_spec (begin y) b) as [E|].
  - intros. simplify_eq. exists 0%nat. split_and!; [lia|done|done].
  - intros H. destruct (IH _ _ _ H) as (k & -> & Hk & Hb). exists (S k). split_and!; [lia|done|done].
Qed.

Lemma alter_fields {A} (f : Block -> A) s i l : (forall x, f (set_status s x) = f x) ->
  map f (alter (set_status s) i l) = map f l.
Proof.
  intros Hf. revert i. induction l as [|x r IH]; intros [|i]; cbn; try done.
  - by rewrite Hf.
  - f_equal. apply IH.
Qed.
Lemma alter_reserved s i l x : l !! i = Some x ->
  reserved_bytes (alter (set_status s) i l)
  = reserved_bytes l + (if in_flight s then length x else 0) - (if in_flight (status x) then length x else 0).
Proof.
  revert i. induction l as [|y r IH]; intros [|i] E; cbn in E; simplify_eq; cbn [alter list_alter reserved_bytes].
  - cbn. lia.
  - change (list_alter (set_status s) i r) with (alter (set_status s) i r). rewrite (IH _ E). lia.
Qed.
Lemma all_stored_alter_false s i l x : l !! i = Some x -> s <> Stored -> all_stored (alter (set_status s) i l) = false.
Proof.
  revert i. induction l as [|y r IH]; intros [|i] E Hs; cbn in E; simplify_eq; cbn.
  - by rewrite bool_decide_false.
  - change (list_alter (set_status s) i r) with (alter (set_status s) i r). unfold all_stored in IH.
    rewrite (IH _ E Hs). by rewrite andb_false_r.
Qed.
Lemma all_stored_lookup l i x : all_stored l = true -> l !! i = Some x -> status x = Stored.
Proof.
  revert i. induction l as [|y r IH]; intros [|i] H E; cbn in *; simplify_eq;
    apply andb_true_iff in H as [H1 H2]; [by apply bool_decide_eq_true in H1|by eapply IH].
Qed.
Lemma all_stored_reserved l : all_stored l = true -> reserved_bytes l = 0.
Proof.
  induction l as [|x r IH]; cbn; [done|]. intros [H1%bool_decide_eq_true H2]%andb_true_iff.
  rewrite H1. cbn. by apply IH.
Qed.

(** ** Resetting blocks *)
Lemma reset_ok which pl l : forall p rel,
  0 <= p <= pl -> pl < 2 ^ 32 -> 0 <= rel <= p -> blocks_wf pl p l ->
  (forall s, which s = true -> in_flight s = true) ->
  exists l', reset_blocks which l rel = Ok (l', rel + (reserved_bytes l - reserved_bytes l'))
    /\ map begin l' = map begin l /\ map length l' = map length l
    /\ 0 <= reserved_bytes l' <= reserved_bytes l
    /\ (forall i x', l' !! i = Some x' -> exists x, l !! i = Some x /\ begin x' = begin x /\ length x' = length x
          /\ (status x' = status x /\ which (status x) = false \/ which (status x) = true /\ status x' = Missing))
    /\ (all_stored l' = all_stored l).
Proof.
  induction l as [|x r IH]; intros p rel Hp Hpl Hrel Hwf Hw; cbn [reset_blocks].
  - exists []. split_and!; try done. cbn. do 2 f_equal. lia.
  - destruct Hwf as (H1 & H2 & H3 & H4).
    destruct (which (status x)) eqn:Hwx.
    + unfold checked_add. rewrite (proj2 (Z.ltb_lt (rel + length x) (2 ^ 32))) by lia. cbn [expect].
      destruct (IH (begin x + length x) (rel + length x)) as (l' & E & B & L & R & S & A); [lia|lia|lia|done|done|].
      unfold mbind, outcome_bind. rewrite E. exists (set_status Missing x :: l').
      pose proof (Hw _ Hwx) as Hif. cbn [reserved_bytes set_status status in_flight length]. rewrite Hif.
      split_and!; [f_equal; f_equal; lia|cbn; by rewrite B|cbn; by rewrite L|lia|lia| |].
      * intros [|i] x' E'; cbn in E'; simplify_eq.
        -- exists x. split_and!; [done..|]. right. done.
        -- destruct (S _ _ E') as (y & ? & ?). exists y. done.
      * cbn. rewrite (bool_decide_false (status x = Stored)); [done|]. intros E'. by rewrite E' in Hif.
    + destruct (IH (begin x + length x) rel) as (l' & E & B & L & R & S & A); [lia|lia|lia|done|done|].
      unfold mbind, outcome_bind. rewrite E. exists (x :: l'). cbn [reserved_bytes].
      split_and!; [f_equal; f_equal; lia|cbn; by rewrite B|cbn; by rewrite L|destruct (in_flight (status x)); lia
        |destruct (in_flight (status x)); lia| |].
      * intros [|i] x' E'; cbn in E'; simplify_eq.
        -- exists x'. split_and!; [done..|]. left. done.
        -- destruct (S _ _ E') as (y & ? & ?). exists y. done.
      * cbn. unfold all_stored in A. by rewrite A.
Qed.

(** ** Filling the request window *)
Lemma fill_ok idx pl l : forall p b,
  0 <= p <= pl -> pl < 2 ^ 32 -> blocks_wf pl p l ->
  0 <= reserved b <= high_water b -> high_water b <= limit b -> limit b < 2 ^ USIZE ->
  reserved b <= 2 ^ 32 + p ->
  exists l' b' actions, fill_blocks idx l b = Ok (l', b', actions)
    /\ map begin l' = map begin l /\ map length l' = map length l
    /\ limit b' = limit b /\ reserved b' - reserved b = reserved_bytes l' - reserved_bytes l
    /\ reserved b <= reserved b' <= high_water b' /\ high_water b' <= limit b'
    /\ Forall (fun a => exists i x, a = DA_Request (mkBlockRequest idx (begin x) (length x))
          /\ l !! i = Some x /\ status x = Missing /\ l' !! i = Some (set_status Requested x)) actions
    /\ (forall i x', l' !! i = Some x' -> exists x, l !! i = Some x /\
          (x' = x \/ status x = Missing /\ x' = set_status Requested x
             /\ DA_Request (mkBlockRequest idx (begin x) (length x)) ∈ actions))
    /\ all_stored l' = all_stored l
    /\ ((exists i x, l !! i = Some x /\ status x = Missing /\ reserved b + MAX_REQUEST_BLOCK_LENGTH <= limit b)
        -> actions <> []).
Proof.
  induction l as [|x r IH]; intros p b Hp Hpl Hwf Hb1 Hb2 Hb3 Hb4; cbn [fill_blocks].
  - exists [], b, []. split_and!; try done; try lia. by intros (i & x & E & _).
  - destruct Hwf as (H1 & H2 & H3 & H4). unfold mbind, outcome_bind.
    case_bool_decide as Hst; cbn [negb].
    + unfold checked_add. change (2 ^ USIZE) with (2 ^ 64) in *.
      rewrite (proj2 (Z.ltb_lt (reserved b + length x) (2 ^ 64))) by lia. cbn [expect].
      destruct (Z.ltb_spec (limit b) (reserved b + length x)) as [Hfull|Hroom].
      { exists (x :: r), b, []. split_and!; try done; try lia.
        - intros i x' E. exists x'. eauto.
        - intros (i & y & _ & _ & Hr). lia. }
      destruct (IH (begin x + length x) (mkBudget (limit b) (reserved b + length x)
          (Z.max (high_water b) (reserved b + length x))))
        as (l' & b' & acts & E & B & L & Hlim & Hres & Hr & Hh & Hact & Hst' & Hall & Hprog);
        cbn [reserved high_water limit]; [lia|lia|done|lia|lia|change (2 ^ USIZE) with (2 ^ 64); lia|lia|].
      rewrite E. cbn [reserved high_water limit] in *.
      eexists (set_status Requested x :: l'), b', _. split; [done|].
      cbn [reserved_bytes set_status status in_flight length begin map]. rewrite Hst. cbn [in_flight].
      split_and!; [by rewrite B|by rewrite L|done|lia|lia|lia|lia| | | |done].
      * constructor.
        -- exists 0%nat, x. done.
        -- eapply Forall_impl; [exact Hact|]. intros a (i & y & ? & ? & ? & ?). by exists (S i), y.
      * intros [|i] x' E'; cbn in E'; simplify_eq.
        -- exists x. split; [done|]. right. split_and!; [done|done|]. apply list_elem_of_here.
        -- destruct (Hst' _ _ E') as (y & Hy & [->|(? & -> & ?)]); exists y; (split; [done|]); [by left|right].
           split_and!; [done|done|]. by apply list_elem_of_further.
      * cbn. rewrite (bool_decide_false (status x = Stored)) by congruence. done.
    + destruct (IH (begin x + length x) b)
        as (l' & b' & acts & E & B & L & Hlim & Hres & Hr & Hh & Hact & Hst' & Hall & Hprog);
        [lia|lia|done|lia|lia|done|lia|].
      rewrite E. exists (x :: l'), b', acts. cbn [reserved_bytes map].
      split_and!; [done|by rewrite B|by rewrite L|done|lia|lia|lia|lia| | | |].
      * eapply Forall_impl; [exact Hact|]. intros a (i & y & ? & ? & ? & ?). by exists (S i), y.
      * intros [|i] x' E'; cbn in E'; simplify_eq; [exists x'; eauto|].
        destruct (Hst' _ _ E') as (y & ? & ?). by exists y.
      * cbn. unfold all_stored in Hall. by rewrite Hall.
      * intros ([|i] & y & Hy & Hm & Hroom); cbn in Hy; simplify_eq. apply Hprog. eauto.
Qed.

(** ** Events *)
Lemma same_refl d : same_download d d.
Proof. by repeat split. Qed.
Lemma same_trans d1 d2 d3 : same_download d1 d2 -> same_download d2 d3 -> same_download d1 d3.
Proof. unfold same_download. intuition congruence. Qed.
Lemma block_moves_refl idx e acts x : block_moves idx e acts x x.
Proof. split_and!; [done|done|]. by destruct (status x). Qed.
Lemma moves_refl e acts d : moves e acts d d.
Proof. intros i x Hx. exists x. split; [done|apply block_moves_refl]. Qed.

(** A call that changes nothing about the blocks and requests nothing. *)
Lemma event_same e d d' acts :
  download_ok d' -> same_download d d' -> blocks d' = blocks d ->
  (forall r, DA_Request r ∉ acts) -> (forall v, Verified v ∉ acts) -> event_ok e d d' acts.
Proof.
  intros Hok Hs Hb Hr Hv. split_and!; [done|done| | |].
  - intros i x. rewrite Hb. intros. exists x. split; [done|apply block_moves_refl].
  - intros r Hin. by destruct (Hr r).
  - intros v Hin. by destruct (Hv v).
Qed.
Ltac no_action := let H := fresh in intros ? H; repeat (apply elem_of_cons in H as [H|H]; [done|]); by apply elem_of_nil in H.

Lemma download_u32 d : download_ok d -> piece_length d < 2 ^ 32.
Proof. intros H. pose proof (do_length _ H). unfold MAX_PIECE_LENGTH in *. lia. Qed.

(** Any filling of the window. *)
Lemma fill_window_ok e d : download_ok d ->
  exists d' acts, fill_request_window d = (d', Ok acts) /\ event_ok e d d' acts
    /\ (peer_choking d = false -> peer_has_piece d = true -> verification_started d = false ->
        reserved (payload_budget d) = 0 -> (exists i x, blocks d !! i = Some x /\ status x = Missing) ->
        exists r, DA_Request r ∈ acts).
Proof.
  intros H. pose proof (download_u32 d H) as H32. pose proof H as [H1 H2 H3 H4 H5 H6 H7 H8 H9].
  unfold fill_request_window, mbind, M_bind, get, mret, M_ret, lift, put.
  destruct (peer_choking d || negb (peer_has_piece d) || verified d || verification_started d) eqn:Hg.
  { exists d, []. split_and!; [done|apply event_same; [done|apply same_refl|done|no_action|no_action]|].
    intros E1 E2 E3. rewrite E1, E2, E3 in Hg. cbn in Hg. rewrite orb_false_r in Hg.
    specialize (H9 Hg). congruence. }
  pose proof (reserved_bounds (piece_length d) (blocks d) 0 ltac:(lia) H3) as Hrb.
  destruct (fill_ok (piece_index d) (piece_length d) (blocks d) 0 (payload_budget d))
    as (l' & b' & acts & E & B & L & Hlim & Hres & Hr & Hh & Hact & Hst & Hall & Hprog);
    [lia|lia|done|lia|lia|lia|lia|].
  rewrite E. eexists _, acts. split_and!; [done| |].
  2:{ intros _ _ _ E0 (i & x & Hx & Hm). destruct acts as [|a acts'].
      - exfalso. apply Hprog; [|done]. exists i, x. split_and!; [done|done|].
        unfold MIN_PAYLOAD_ALLOWANCE in H6. lia.
      - apply Forall_cons_1 in Hact as [(? & ? & -> & _) _]. eexists. apply list_elem_of_here. }
  apply orb_false_iff in Hg as [Hg Hvs]. apply orb_false_iff in Hg as [Hg Hv].
  assert (Forall (fun a => exists r, a = DA_Request r) acts) as Hreq.
  { eapply Forall_impl; [exact Hact|]. intros a (i & x & -> & _). eauto. }
  split_and!; cbn.
  - split; cbn; [done|done|by eapply blocks_wf_ext| |lia|by rewrite Hlim|lia|exact (eq_trans H8 (eq_sym Hall))|done].
    intros ->. by destruct (blocks d).
  - split_and!; done.
  - intros i x' Hx'. destruct (Hst i x' Hx') as (x & Hx & [->|(Hm & -> & Hin)]); exists x; (split; [done|]).
    + apply block_moves_refl.
    + split_and!; [done|done|]. cbn. by rewrite Hm.
  - intros r Hin. rewrite Forall_forall in Hact. destruct (Hact _ Hin) as (i & x & Heq & Hx & Hm & Hx').
    injection Heq as ->. exists i, x. done.
  - intros v Hin. rewrite Forall_forall in Hreq. by destruct (Hreq _ Hin).
Qed.

Lemma availability_ok e d : download_ok d ->
  exists d' acts, availability_actions d = (d', Ok acts) /\ event_ok e d d' acts
    /\ (peer_choking d = false -> peer_has_piece d = true -> verification_started d = false ->
        reserved (payload_budget d) = 0 -> (exists i x, blocks d !! i = Some x /\ status x = Missing) ->
        exists r, DA_Request r ∈ acts).
Proof.
  intros H. unfold availability_actions, mbind, M_bind, get, mret, M_ret, modify.
  destruct (negb (peer_has_piece d) || verified d || verification_started d) eqn:Hg.
  { exists d, []. split_and!; [done|apply event_same; [done|apply same_refl|done|no_action|no_action]|].
    intros _ E2 E3. rewrite E2, E3 in Hg. cbn in Hg. rewrite orb_false_r in Hg.
    pose proof (do_verified _ H Hg). congruence. }
  set (d1 := if interested d then d else set_interested true d).
  set (first := if interested d then [] else [SendInterested]).
  assert (announce_interest d = (d1, Ok first)) as ->
    by (subst d1 first; unfold announce_interest, mbind, M_bind, get, mret, M_ret; by destruct (interested d)).
  assert (download_ok d1) as Hd1 by (subst d1; destruct (interested d); [done|]; by destruct H).
  assert (same_download d d1 /\ blocks d1 = blocks d /\ peer_choking d1 = peer_choking d
    /\ peer_has_piece d1 = peer_has_piece d /\ verification_started d1 = verification_started d
    /\ payload_budget d1 = payload_budget d) as (Hs & Hb & Ec & Eh & Ev & Eb)
    by (subst d1; destruct (interested d); by repeat split).
  assert (forall r, DA_Request r ∉ first) as Hf1 by (subst first; destruct (interested d); no_action).
  assert (forall v, Verified v ∉ first) as Hf2 by (subst first; destruct (interested d); no_action).
  destruct (peer_choking d1) eqn:Hch.
  { exists d1, (first ++ []). split_and!; [done| |congruence]. rewrite app_nil_r. by apply event_same. }
  destruct (fill_window_ok e d1 Hd1) as (d2 & acts & -> & (Ho & Hs2 & Hm & Hr & Hv) & Hprog).
  exists d2, (first ++ acts). split_and!; [done| |].
  - destruct Hs as (Hpi & Hs). split_and!; [done|eapply same_trans; [split; [exact Hpi|exact Hs]|done]| | |].
    + intros i x' Hx'. destruct (Hm i x' Hx') as (x & Hx & (E1 & E2 & E3)). exists x. rewrite <- Hb.
      split; [done|]. split_and!; [done|done|]. rewrite <- Hpi.
      destruct (status x), (status x'); try done; [apply elem_of_app; by right|].
      destruct E3 as (bytes & ? & ? & ?). exists bytes. split_and!; [done|done|]. apply elem_of_app. by right.
    + intros r [Hin|Hin]%elem_of_app; [by destruct (Hf1 r)|]. rewrite <- Hpi, <- Hb. by apply Hr.
    + intros v [Hin|Hin]%elem_of_app; [by destruct (Hf2 v)|].
      destruct Hs as (Hpl & _ & Heh & _). rewrite <- Hpi, <- Hpl, <- Heh. by apply Hv.
  - intros _ E2 E3 E4 E5. destruct Hprog as [r Hr']; [done|congruence|congruence|by rewrite Eb|by rewrite Hb|].
    exists r. apply elem_of_app. by right.
Qed.

(** Cancelling blocks in flight. *)
Lemma cancel_ok e which d : download_ok d -> (forall s, which s = true -> in_flight s = true) ->
  exists d', cancel_where which d = (d', Ok tt) /\ event_ok e d d' []
    /\ peer_choking d' = peer_choking d.
Proof.
  intros H Hw. pose proof (download_u32 d H) as H32. pose proof H as [H1 H2 H3 H4 H5 H6 H7 H8 H9].
  unfold cancel_where, release, mbind, M_bind, get, lift, put.
  destruct (reset_ok which (piece_length d) (blocks d) 0 0) as (l' & E & B & L & R & S & A);
    [lia|lia|lia|done|done|].
  rewrite E. cbn [payload_budget set_blocks reserved].
  replace (checked_sub _ _) with (Some (reserved_bytes l'))
    by (symmetry; apply checked_sub_Some; cbn [payload_budget set_blocks]; lia).
  cbn [expect]. eexists. split_and!; [done| |done].
  split_and!; cbn; [|by split_and!| |by intros r Hin%elem_of_nil|by intros v Hin%elem_of_nil].
  - split; cbn; [done|done|by eapply blocks_wf_ext| |lia|done|lia|exact (eq_trans H8 (eq_sym A))|done].
    intros ->. by destruct (blocks d).
  - intros i x' Hx'. destruct (S i x' Hx') as (x & Hx & Eb & El & [[Es Hws]|[Hws Es]]); exists x; (split; [done|]).
    + split_and!; [done|done|]. rewrite Es. by destruct (status x).
    + split_and!; [done|done|]. rewrite Es. apply Hw in Hws. by destruct (status x).
Qed.

Lemma block_mut_ok b d : match block_mut b d with
  | (d', Ok (pos, x)) => d' = d /\ blocks d !! pos = Some x /\ begin x = b
  | (d', Err _) => d' = d
  | (_, Panic) | (_, NoFuel) => False
  end.
Proof.
  unfold block_mut, mbind, M_bind, get, fail, lift.
  destruct (piece_length d <=? b); [done|].
  destruct (find_block b (blocks d) 0) as [[pos x]|] eqn:E; cbn [ok_or]; [|done].
  apply find_block_Some in E as (k & -> & Hk & Hb). done.
Qed.
Lemma block_bounds pl l : forall p i x, blocks_wf pl p l -> l !! i = Some x -> 0 < length x <= MAX_REQUEST_BLOCK_LENGTH.
Proof.
  induction l as [|y r IH]; intros p i x Hw E; [done|]. destruct Hw as (H1 & H2 & H3 & H4).
  destruct i as [|i]; cbn in E; [by simplify_eq|eauto].
Qed.

(** Moving one block: the state after it and what it reserves. *)
Lemma written_status_ok e d pos x s acts budget :
  download_ok d -> blocks d !! pos = Some x ->
  block_moves (piece_index d) e acts x (set_status s x) -> s <> Stored -> status x <> Stored ->
  reserved budget = reserved_bytes (alter (set_status s) pos (blocks d)) ->
  limit budget = limit (payload_budget d) -> reserved budget <= high_water budget <= limit budget ->
  (forall r, DA_Request r ∉ acts) -> (forall v, Verified v ∉ acts) ->
  event_ok e d (set_budget budget (set_blocks (alter (set_status s) pos (blocks d)) d)) acts.
Proof.
  intros H Hx Hm Hs Hxs Hres Hlim Hbud Hreq Hver. pose proof H as [H1 H2 H3 H4 H5 H6 H7 H8 H9].
  assert (map begin (alter (set_status s) pos (blocks d)) = map begin (blocks d)) as B by (by apply alter_fields).
  assert (map length (alter (set_status s) pos (blocks d)) = map length (blocks d)) as L by (by apply alter_fields).
  assert (all_stored (blocks d) = false) as Hns.
  { destruct (all_stored (blocks d)) eqn:Ea; [|done]. destruct Hxs. by eapply all_stored_lookup. }
  split_and!; cbn; [|by split_and!| |by intros r Hin; destruct (Hreq r)|by intros v Hin; destruct (Hver v)].
  - split; cbn; [done|done|by eapply blocks_wf_ext| |done|by rewrite Hlim|done| |done].
    + intros E. rewrite E in B. by destruct (blocks d).
    + rewrite H8, Hns. symmetry. by eapply all_stored_alter_false.
  - intros i x' Hx'. cbn [blocks set_budget set_blocks] in Hx'. destruct (decide (i = pos)) as [->|Hne].
    + rewrite list_lookup_alter_eq, Hx in Hx'. cbn in Hx'. simplify_eq. by exists x.
    + rewrite list_lookup_alter_ne in Hx' by done. exists x'. split; [done|apply block_moves_refl].
Qed.

Lemma receive_ok i b bytes d : download_ok d ->
  match receive_block i b bytes d with
  | (d', r) => returns r /\ event_ok (OnMessage (Piece i b bytes)) d d' (actions_of r)
               /\ (succeeded r = false -> d' = d)
  end.
Proof.
  intros H. pose proof (event_same (OnMessage (Piece i b bytes)) d d [] H (same_refl d) eq_refl
    ltac:(no_action) ltac:(no_action)) as Hsame.
  unfold receive_block, validate_piece_index, mbind, M_bind, get, fail, mret, M_ret.
  destruct (Z.eqb_spec i (piece_index d)) as [->|]; cbn [negb]; [|done].
  destruct (piece_length d <=? b); [done|]. pose proof (block_mut_ok b d) as Hbm.
  destruct (block_mut b d) as [d' [[pos x]|?| |]]; [|by subst|done|done]. destruct Hbm as (-> & Hx & Hb).
  destruct (Z.eqb_spec (len bytes) (length x)) as [Hl|]; cbn [negb]; [|done].
  destruct (status x) eqn:Hst; try done. cbn [actions_of succeeded returns].
  split_and!; [done| |done].
  pose proof (written_status_ok (OnMessage (Piece (piece_index d) b bytes)) d pos x Writing
    [StoreBlock (mkUnverified (piece_index d) b bytes)] (payload_budget d) H Hx) as Hw.
  assert (set_budget (payload_budget d) (set_blocks (alter (set_status Writing) pos (blocks d)) d)
    = set_blocks (alter (set_status Writing) pos (blocks d)) d) as E by (by destruct d).
  rewrite E in Hw. apply Hw; try done.
  - split_and!; [done|done|]. rewrite Hst. cbn. exists bytes. subst b. split_and!; [done|done|apply list_elem_of_here].
  - by rewrite Hst.
  - rewrite (alter_reserved _ _ _ x Hx), Hst. cbn [in_flight]. pose proof (do_reserved _ H). lia.
  - apply (do_budget _ H).
  - no_action.
  - no_action.
Qed.

Lemma write_failed_ok i b d : download_ok d ->
  match on_block_write_failed i b d with
  | (d', r) => returns r /\ event_ok (OnBlockWriteFailed i b) d d' []
               /\ (match r with Ok _ => True | _ => d' = d end)
  end.
Proof.
  intros H. pose proof (event_same (OnBlockWriteFailed i b) d d [] H (same_refl d) eq_refl
    ltac:(no_action) ltac:(no_action)) as Hsame.
  unfold on_block_write_failed, validate_piece_index, release, write_status, mbind, M_bind, get, fail, mret,
    M_ret, modify, lift, put.
  destruct (Z.eqb_spec i (piece_index d)) as [->|]; cbn [negb]; [|done].
  pose proof (block_mut_ok b d) as Hbm.
  destruct (block_mut b d) as [d' [[pos x]|?| |]]; [|by subst|done|done]. destruct Hbm as (-> & Hx & Hb).
  case_bool_decide as Hst; cbn [negb]; [|done]. cbn [payload_budget set_blocks].
  pose proof (alter_reserved Missing pos (blocks d) x Hx) as Har. rewrite Hst in Har. cbn [in_flight] in Har.
  pose proof (do_reserved _ H) as Hr.
  pose proof (block_bounds _ _ _ _ _ (do_blocks _ H) Hx) as Hbl.
  assert (0 <= reserved_bytes (alter (set_status Missing) pos (blocks d))) as Hpos.
  { eapply (reserved_bounds (piece_length d) _ 0); [pose proof (do_length _ H); lia|].
    eapply blocks_wf_ext; [by apply alter_fields|by apply alter_fields|apply (do_blocks _ H)]. }
  replace (checked_sub _ _) with (Some (reserved_bytes (alter (set_status Missing) pos (blocks d))))
    by (symmetry; apply checked_sub_Some; lia).
  cbn [expect]. split_and!; [done| |done].
  apply written_status_ok with (x := x); try done; [|by rewrite Hst|cbn; pose proof (do_budget _ H); lia|no_action|no_action].
  split_and!; [done|done|]. by rewrite Hst.
Qed.

Lemma stored_ok i b d : download_ok d ->
  match on_block_stored i b d with
  | (d', r) => returns r /\ event_ok (OnBlockStored i b) d d' (actions_of r)
               /\ (succeeded r = false -> d' = d)
  end.
Proof.
  intros H. pose proof (event_same (OnBlockStored i b) d d [] H (same_refl d) eq_refl
    ltac:(no_action) ltac:(no_action)) as Hsame.
  unfold on_block_stored, validate_piece_index, release, write_status, mbind, M_bind, get, fail, mret,
    M_ret, modify, lift, put.
  destruct (Z.eqb_spec i (piece_index d)) as [->|]; cbn [negb]; [|done].
  pose proof (block_mut_ok b d) as Hbm.
  destruct (block_mut b d) as [d' [[pos x]|?| |]]; [|by subst|done|done]. destruct Hbm as (-> & Hx & Hb).
  case_bool_decide as Hst; cbn [negb]; [|done]. cbn [payload_budget set_blocks].
  pose proof H as [H1 H2 H3 H4 H5 H6 H7 H8 H9].
  set (l := alter (set_status Stored) pos (blocks d)).
  pose proof (alter_reserved Stored pos (blocks d) x Hx) as Har. rewrite Hst in Har. cbn [in_flight] in Har.
  fold l in Har. pose proof (block_bounds _ _ _ _ _ H3 Hx) as Hbl.
  assert (map begin l = map begin (blocks d)) as B by (by apply alter_fields).
  assert (map length l = map length (blocks d)) as L by (by apply alter_fields).
  assert (blocks_wf (piece_length d) 0 l) as Hwf by (by eapply blocks_wf_ext).
  assert (0 <= reserved_bytes l) as Hpos by (eapply (reserved_bounds (piece_length d) _ 0); [lia|done]).
  assert (all_stored (blocks d) = false) as Hns.
  { destruct (all_stored (blocks d)) eqn:Ea; [|done]. pose proof (all_stored_lookup _ _ _ Ea Hx). congruence. }
  replace (checked_sub _ _) with (Some (reserved_bytes l)) by (symmetry; apply checked_sub_Some; lia).
  cbn [expect]. set (d1 := set_budget _ (set_blocks l d)).
  assert (forall j x', l !! j = Some x' -> exists x0, blocks d !! j = Some x0 /\
    (x' = x0 \/ status x0 = Writing /\ x' = set_status Stored x0 /\ begin x0 = b)) as Hmoves.
  { intros j x' Hx'. unfold l in Hx'. destruct (decide (j = pos)) as [->|Hne].
    - rewrite list_lookup_alter_eq, Hx in Hx'. cbn in Hx'. simplify_eq. exists x. auto.
    - rewrite list_lookup_alter_ne in Hx' by done. eauto. }
  assert (l <> []) as Hne by (intros E; rewrite E in B; by destruct (blocks d)).
  assert (same_download d d1) as Hs1 by (by split_and!).
  change (blocks d1) with l. destruct (all_stored l) eqn:Hall.
  - cbn [actions_of succeeded returns]. split_and!; [done| |done].
    split_and!; [| | |no_action|no_action].
    + split; cbn; [done|done|done|done|done|done|lia|by rewrite <- Hall|done].
    + by split_and!.
    + intros j x' Hx'. destruct (Hmoves j x' Hx') as (x0 & Hx0 & [->|(Hs & -> & <-)]); exists x0; (split; [done|]).
      * apply block_moves_refl.
      * split_and!; [done|done|]. by rewrite Hs.
  - assert (download_ok d1) as Hd1.
    { split; cbn; [done|done|done|done|done|done|lia|exact (eq_trans H8 (eq_trans Hns (eq_sym Hall)))|done]. }
    destruct (fill_window_ok (OnBlockStored (piece_index d) b) d1 Hd1) as (d2 & acts & -> & (Ho & Hs2 & Hm & Hr & Hv) & _).
    cbn [actions_of succeeded returns]. split_and!; [done| |done].
    split_and!; [done|by eapply same_trans| | |].
    + intros j x2 Hx2. destruct (Hm j x2 Hx2) as (x1 & Hx1 & (E1 & E2 & E3)).
      destruct (Hmoves j x1 Hx1) as (x0 & Hx0 & [->|(Hw & -> & Hb0)]); exists x0; (split; [done|]).
      * by split_and!.
      * cbn [status set_status begin length] in *. split_and!; [done|done|].
        rewrite Hw. destruct (status x2); try done. by rewrite Hb0.
    + intros r Hin. destruct (Hr r Hin) as (j & y & Hy & Hym & -> & Hy2).
      cbn [blocks d1 set_budget set_blocks] in Hy. unfold l in Hy.
      exists j, y. split_and!; [|done|done|done].
      destruct (decide (j = pos)) as [->|Hnj].
      * rewrite list_lookup_alter_eq, Hx in Hy. cbn in Hy. simplify_eq.
      * by rewrite list_lookup_alter_ne in Hy.
    + exact Hv.
Qed.

Lemma finish_verification_ok i h d : download_ok d ->
  match finish_verification i h d with
  | (d', r) => returns r /\ event_ok (FinishVerification i h) d d' (match r with Ok a => [a] | _ => [] end)
               /\ (match r with
                   | Ok a => i = piece_index d /\ h = expected_hash d
                             /\ a = Verified (mkVerified (piece_index d) h (piece_length d))
                   | _ => d' = d end)
  end.
Proof.
  intros H. pose proof (event_same (FinishVerification i h) d d [] H (same_refl d) eq_refl
    ltac:(no_action) ltac:(no_action)) as Hsame.
  unfold finish_verification, validate_piece_index, mbind, M_bind, get, fail, mret, M_ret, put.
  destruct (Z.eqb_spec i (piece_index d)) as [->|]; cbn [negb]; [|done].
  destruct (verification_started d) eqn:Hvs; cbn [negb orb]; [|done].
  destruct (all_stored (blocks d)) eqn:Hall; cbn [negb]; [|done].
  case_bool_decide as Hh; cbn [negb]; [|done]. subst h. split_and!; try done.
  split_and!; [by destruct H|by split_and!| |no_action|].
  { intros j x Hx. exists x. split; [done|apply block_moves_refl]. }
  intros v Hin. apply elem_of_cons in Hin as [Hin|Hin]; [|by apply elem_of_nil in Hin].
  simplify_eq. done.
Qed.

Lemma event_choking e d v acts d' :
  event_ok e (set_choking v d) d' acts -> event_ok e d d' acts.
Proof. done. Qed.
Lemma event_has_piece e d v acts d' :
  event_ok e (set_has_piece v d) d' acts -> event_ok e d d' acts.
Proof. done. Qed.

Lemma bitfield_ok bits d : download_ok d ->
  match on_bitfield bits d with
  | (d', r) => returns r /\ event_ok (OnMessage (Bitfield bits)) d d' (actions_of r)
               /\ (succeeded r = false -> d' = d)
  end.
Proof.
  intros H. pose proof (event_same (OnMessage (Bitfield bits)) d d [] H (same_refl d) eq_refl
    ltac:(no_action) ltac:(no_action)) as Hsame.
  unfold on_bitfield, mbind, M_bind, get, fail, lift, modify.
  destruct (Z.eqb_spec (len bits) (div_ceil (piece_count d) 8)) as [Hl|]; cbn [negb]; [|done].
  pose proof (do_index _ H) as Hi. pose proof (div_ceil_spec (piece_count d) 8 ltac:(lia)) as Hdc.
  assert (exists x, (if 0 <? div_ceil (piece_count d) 8 * 8 - piece_count d
     then index bits (div_ceil (piece_count d) 8 - 1) else Ok 0) = @Ok PieceError Z x) as [x ->].
  { destruct (0 <? _); [|eauto]. unfold index.
    destruct (nth_get_is_Some bits (div_ceil (piece_count d) 8 - 1)) as [y ->]; [lia|]. cbn. eauto. }
  destruct ((0 <? div_ceil (piece_count d) 8 * 8 - piece_count d)
    && negb (Z.land x (Z.shiftl 1 (div_ceil (piece_count d) 8 * 8 - piece_count d) - 1) =? 0)); [done|].
  unfold index. destruct (nth_get_is_Some bits (piece_index d / 8)) as [y ->].
  { rewrite Hl. apply div_lt_ceil; lia. }
  cbn [expect]. set (d1 := set_has_piece _ d).
  destruct (availability_ok (OnMessage (Bitfield bits)) d1) as (d2 & acts & -> & He & _).
  { by destruct H. }
  cbn [actions_of succeeded returns]. split_and!; [done| |done]. by apply event_has_piece in He.
Qed.

(** Every event, from every well-formed state. *)
Lemma handle_ok e d : download_ok d ->
  match handle e d with
  | (d', r) => returns r /\ event_ok e d d' (actions_of r) /\ (succeeded r = false -> d' = d)
  end.
Proof.
  intros H. pose proof (event_same e d d [] H (same_refl d) eq_refl ltac:(no_action) ltac:(no_action)) as Hsame.
  destruct e as [m|i b|i b| |i h]; cbn [handle].
  - destruct m; cbn [on_message]; unfold mbind, M_bind, modify, get, mret, M_ret, fail; try done.
    + (* choke *)
      destruct (cancel_ok (OnMessage Choke) (fun s => bool_decide (s = Requested)) (set_choking true d))
        as (d' & E & He & _); [by destruct H|by intros []|].
      unfold cancel_requested. rewrite E. cbn. split_and!; [done| |done]. by apply event_choking in He.
    + (* unchoke *)
      destruct (availability_ok (OnMessage Unchoke) (set_choking false d)) as (d' & acts & -> & He & _);
        [by destruct H|]. cbn. split_and!; [done| |done]. by apply event_choking in He.
    + (* have *)
      destruct (piece_count d <=? piece); [done|].
      destruct (piece =? piece_index d).
      * destruct (availability_ok (OnMessage (Have piece)) (set_has_piece true d)) as (d' & acts & -> & He & _);
          [by destruct H|]. cbn. split_and!; [done| |done]. by apply event_has_piece in He.
      * destruct (availability_ok (OnMessage (Have piece)) d H) as (d' & acts & -> & He & _). by split_and!.
    + by apply bitfield_ok.
    + by apply receive_ok.
  - by apply stored_ok.
  - pose proof (write_failed_ok i b d H) as Hw. unfold mbind, M_bind, mret, M_ret.
    destruct (on_block_write_failed i b d) as [d' [[]|?| |]]; destruct Hw as (H1 & H2 & H3); by split_and!.
  - destruct (cancel_ok CancelPending (fun s => bool_decide (s = Requested) || bool_decide (s = Writing)) d H)
      as (d' & E & He & _); [by intros []|].
    unfold cancel_pending, mbind, M_bind, mret, M_ret. rewrite E. by split_and!.
  - pose proof (finish_verification_ok i h d H) as Hf. unfold mbind, M_bind, mret, M_ret.
    destruct (finish_verification i h d) as [d' [a|?| |]]; destruct Hf as (H1 & H2 & H3); by split_and!.
Qed.

(** ** Construction *)
Lemma plan_ok pl ranges : forall p, 0 <= p -> Forall (fun r => 0 <= rr_begin r /\ 0 <= rr_length r) ranges ->
  match plan_blocks pl p ranges with
  | Ok l => blocks_wf pl p l /\ Forall (fun x => status x = Missing) l
            /\ l = map (fun r => mkBlock (rr_begin r) (rr_length r) Missing) ranges
  | Err _ => True
  | Panic | NoFuel => False
  end.
Proof.
  induction ranges as [|r rest IH]; intros p Hp Hr; cbn [plan_blocks]; [done|].
  apply Forall_cons_1 in Hr as [[Hb Hl] Hr].
  destruct (Z.eqb_spec (rr_length r) 0); [done|]. cbn [orb].
  destruct (Z.ltb_spec MAX_REQUEST_BLOCK_LENGTH (rr_length r)); [done|]. cbn [orb].
  unfold checked_add. destruct (Z.ltb_spec (rr_begin r + rr_length r) (2 ^ 32)); [|done].
  destruct (Z.ltb_spec pl (rr_begin r + rr_length r)); [done|].
  destruct (Z.ltb_spec (rr_begin r) p); [done|]. cbn [expect]. unfold mbind, outcome_bind.
  specialize (IH (rr_begin r + rr_length r) ltac:(lia) Hr).
  destruct (plan_blocks pl (rr_begin r + rr_length r) rest) as [l|?| |]; try done.
  destruct IH as (W1 & W2 & ->). unfold mret, outcome_ret. cbn. split_and!; try lia; try done. by constructor.
Qed.

Lemma fresh_not_stored l : l <> [] -> Forall (fun x => status x = Missing) l -> all_stored l = false.
Proof. destruct l as [|x r]; [done|]. intros _ [H _]%Forall_cons_1. cbn. by rewrite H. Qed.
Lemma fresh_reserved l : Forall (fun x => status x = Missing) l -> reserved_bytes l = 0.
Proof. induction 1 as [|x r H _ IH]; [done|]. cbn. by rewrite H, IH. Qed.

Lemma new_for_torrent_ok idx pl hash allow count ranges :
  is_u 32 idx -> is_u 32 pl -> is_u USIZE allow -> 0 <= count ->
  Forall (fun r => 0 <= rr_begin r /\ 0 <= rr_length r) ranges ->
  match new_for_torrent idx pl hash allow count ranges with
  | Ok d => fresh_download d /\ piece_length d = pl /\ piece_index d = idx /\ expected_hash d = hash
            /\ blocks d = map (fun r => mkBlock (rr_begin r) (rr_length r) Missing) ranges
  | Err _ => True
  | Panic | NoFuel => False
  end.
Proof.
  unfold is_u. intros Hi Hp Ha Hc Hr. unfold new_for_torrent.
  destruct ((pl =? 0) || (MAX_PIECE_LENGTH <? pl)) eqn:Hg; [done|].
  apply orb_false_iff in Hg as [Hg%Z.eqb_neq Hg'%Z.ltb_ge].
  destruct (Z.ltb_spec allow MIN_PAYLOAD_ALLOWANCE); [done|].
  destruct (Z.eqb_spec count 0); [done|]. destruct (Z.leb_spec count idx); [done|].
  case_bool_decide as Hne; [done|]. pose proof (plan_ok pl ranges 0 ltac:(lia) Hr) as Hplan.
  unfold mbind, outcome_bind. destruct (plan_blocks pl 0 ranges) as [l|?| |]; try done.
  destruct Hplan as (Hwf & Hm & Hl). unfold mret, outcome_ret.
  assert (l <> []) as Hln by (rewrite Hl; by destruct ranges).
  split_and!; try done. cbn. split_and!; [|done|done].
  unfold MIN_PAYLOAD_ALLOWANCE, MAX_REQUEST_BLOCK_LENGTH in *.
  split; cbn [piece_length piece_index piece_count blocks payload_budget reserved limit high_water verification_started verified];
    [lia|lia|done|done|by rewrite fresh_reserved|unfold MIN_PAYLOAD_ALLOWANCE, MAX_REQUEST_BLOCK_LENGTH; lia|lia
    |by rewrite fresh_not_stored|done].
Qed.

Lemma default_ranges_ok pl fuel : forall p,
  0 <= p <= pl -> div_ceil (pl - p) MAX_REQUEST_BLOCK_LENGTH <= Z.of_nat fuel ->
  exists l, default_ranges fuel pl p = Ok l
    /\ Forall (fun r => 0 <= rr_begin r /\ 0 < rr_length r <= MAX_REQUEST_BLOCK_LENGTH /\ rr_begin r + rr_length r <= pl) l
    /\ tiles pl p (map (fun r => mkBlock (rr_begin r) (rr_length r) Missing) l)
    /\ (p < pl -> l <> []).
Proof.
  induction fuel as [|f IH]; intros p Hp Hf; cbn [default_ranges]; destruct (Z.ltb_spec p pl).
  - pose proof (div_ceil_spec (pl - p) MAX_REQUEST_BLOCK_LENGTH ltac:(done)). nia.
  - exists []. split_and!; [done|constructor|cbn; lia|lia].
  - set (n := Z.min MAX_REQUEST_BLOCK_LENGTH (pl - p)). unfold MAX_REQUEST_BLOCK_LENGTH in *.
    destruct (IH (p + n)) as (l & E & Hall & Ht & _); [lia| |].
    { pose proof (div_ceil_spec (pl - p) (16 * 1024) ltac:(lia)).
      pose proof (div_ceil_spec (pl - (p + n)) (16 * 1024) ltac:(lia)). nia. }
    unfold mbind, outcome_bind. rewrite E. eexists. split; [done|].
    split; [constructor; [cbn; lia|done]|]. split; [|done]. split; [done|exact Ht].
  - exists []. split_and!; [done|constructor|cbn; lia|lia].
Qed.

Lemma plan_succeeds pl l : forall p, 0 <= p -> pl < 2 ^ 32 ->
  Forall (fun r => 0 <= rr_begin r /\ 0 < rr_length r <= MAX_REQUEST_BLOCK_LENGTH /\ rr_begin r + rr_length r <= pl) l ->
  tiles pl p (map (fun r => mkBlock (rr_begin r) (rr_length r) Missing) l) ->
  plan_blocks pl p l = Ok (map (fun r => mkBlock (rr_begin r) (rr_length r) Missing) l).
Proof.
  induction l as [|r rest IH]; intros p Hp Hpl Hall Ht; [done|]. cbn [plan_blocks map].
  apply Forall_cons_1 in Hall as [(H1 & H2 & H3) Hall]. destruct Ht as [Hb Ht]. cbn in Hb, Ht.
  rewrite (proj2 (Z.eqb_neq (rr_length r) 0)), (proj2 (Z.ltb_ge MAX_REQUEST_BLOCK_LENGTH _)) by lia. cbn [orb].
  unfold checked_add. rewrite (proj2 (Z.ltb_lt (rr_begin r + rr_length r) (2 ^ 32))) by lia.
  rewrite (proj2 (Z.ltb_ge pl _)), (proj2 (Z.ltb_ge (rr_begin r) p)) by lia. cbn [expect].
  unfold mbind, outcome_bind. rewrite IH; [done|lia|done|done|]. by rewrite Hb.
Qed.

Lemma new_ok pl hash allow :
  0 < pl <= MAX_PIECE_LENGTH -> MIN_PAYLOAD_ALLOWANCE <= allow < 2 ^ USIZE ->
  exists d, OnePieceDownload_new 0 pl hash allow = Ok d /\ fresh_download d /\ tiles pl 0 (blocks d)
    /\ piece_index d = 0 /\ piece_length d = pl /\ expected_hash d = hash.
Proof.
  intros Hpl Ha. unfold OnePieceDownload_new.
  rewrite (proj2 (Z.eqb_neq pl 0)), (proj2 (Z.ltb_ge MAX_PIECE_LENGTH pl)), (proj2 (Z.ltb_ge allow _)) by lia.
  cbn [orb negb Z.eqb]. destruct (default_ranges_ok pl (ranges_fuel pl) 0) as (l & E & Hall & Ht & Hne); [lia| |].
  { unfold ranges_fuel. rewrite Z.sub_0_r, Z2Nat.id; [done|]. unfold div_ceil. apply Z.div_pos; [|done].
    unfold MAX_REQUEST_BLOCK_LENGTH. lia. }
  unfold mbind, outcome_bind. rewrite E.
  assert (is_u 32 pl) as Hu by (unfold is_u, MAX_PIECE_LENGTH in *; lia).
  pose proof (new_for_torrent_ok 0 pl hash allow 1 l ltac:(done) Hu ltac:(unfold is_u, MIN_PAYLOAD_ALLOWANCE, MAX_REQUEST_BLOCK_LENGTH in *; lia) ltac:(lia)) as Hn.
  assert (exists d, new_for_torrent 0 pl hash allow 1 l = Ok d) as [d Hd].
  { unfold new_for_torrent.
    rewrite (proj2 (Z.eqb_neq pl 0)), (proj2 (Z.ltb_ge MAX_PIECE_LENGTH pl)), (proj2 (Z.ltb_ge allow _)) by lia.
    cbn [orb Z.eqb Z.leb Z.compare]. rewrite bool_decide_false by (apply Hne; lia).
    unfold mbind, outcome_bind. rewrite plan_succeeds; [unfold mret, outcome_ret; eauto|lia|apply Hu|done|done]. }
  rewrite Hd in *. exists d. split; [done|].
  destruct Hn as (Hf & H1 & H2 & H3 & H4).
  { eapply Forall_impl; [exact Hall|]. cbn. intros r Hr. lia. }
  rewrite H4. done.
Qed.

(** ** Histories *)
Lemma history_ok d0 d log : download_ok d0 -> history d0 d log -> download_ok d /\ same_download d0 d.
Proof.
  intros H0. induction 1 as [|d log e d' r _ [Hd Hs] E]; [split; [done|apply same_refl]|].
  pose proof (handle_ok e d Hd) as H. rewrite E in H. destruct H as (_ & (Ho & Hs' & _) & _).
  split; [done|by eapply same_trans].
Qed.

Lemma block_logged_weaken idx log entry x : block_logged idx log x -> block_logged idx (entry :: log) x.
Proof.
  intros [H1 H2]. split.
  - intros Hs. destruct (H1 Hs) as [acts Hin]. exists acts. by apply list_elem_of_further.
  - intros Hs. destruct (H2 Hs) as (bytes & acts & Hin & ?). exists bytes, acts.
    split; [by apply list_elem_of_further|done].
Qed.

Lemma history_logged d0 d log : fresh_download d0 -> history d0 d log ->
  Forall (block_logged (piece_index d0) log) (blocks d).
Proof.
  intros (H0 & Hm & _). induction 1 as [|d log e d' r Hh IH E].
  - eapply Forall_impl; [exact Hm|]. cbn. intros x Hx. split; rewrite Hx; [done|intros [|]; done].
  - destruct (history_ok d0 d log H0 Hh) as [Hd (Hpi & _)].
    pose proof (handle_ok e d Hd) as H. rewrite E in H. destruct H as (_ & (_ & _ & Hmv & _) & Hfail).
    apply Forall_lookup. intros i x' Hx'. destruct (Hmv i x' Hx') as (x & Hx & Eb & El & Hmove).
    rewrite Forall_lookup in IH. pose proof (IH i x Hx) as Hlog.
    destruct (succeeded r) eqn:Hok.
    2:{ rewrite (Hfail eq_refl) in Hx'. apply block_logged_weaken. congruence. }
    apply (block_logged_weaken _ _ (e, true, actions_of r)) in Hlog. rewrite Hpi in Hmove.
    assert (status x' = status x -> block_logged (piece_index d0) ((e, true, actions_of r) :: log) x') as Hsame.
    { intros Es. unfold block_logged. rewrite Eb, El, Es. exact Hlog. }
    destruct (status x) eqn:S1, (status x') eqn:S2; try done; try by apply Hsame.
    + split; rewrite S2; [done|intros [|]; done].
    + split; rewrite S2; [done|intros [|]; done].
    + destruct Hmove as (bytes & -> & Hl & Hin). split; rewrite S2; [done|]. intros _.
      exists bytes, (actions_of r). rewrite Eb, El. split_and!; [apply list_elem_of_here|done|done].
    + split; rewrite S2; [done|intros [|]; done].
    + cbn in Hmove. rewrite Hmove in *. destruct Hlog as [_ Hlog]. split.
      * intros _. exists (actions_of r). rewrite Eb. apply list_elem_of_here.
      * intros _. rewrite Eb, El. apply Hlog. by left.
Qed.

Lemma some_missing l : all_stored l = false -> Forall (fun x => 0 < length x) l -> reserved_bytes l = 0 ->
  exists i x, l !! i = Some x /\ status x = Missing.
Proof.
  induction l as [|x r IH]; [done|]. cbn [reserved_bytes]. intros Ha Hl Hr.
  apply Forall_cons_1 in Hl as [Hx Hl].
  assert (0 <= reserved_bytes r) as Hpos.
  { clear -Hl. induction Hl as [|y l Hy _ IHl]; cbn; [lia|]. destruct (in_flight (status y)); lia. }
  destruct (status x) eqn:Hs; cbn [in_flight] in Hr; try lia.
  - exists 0%nat, x. done.
  - unfold all_stored in *. cbn in Ha. rewrite Hs in Ha. cbn in Ha.
    destruct (IH Ha Hl ltac:(lia)) as (i & y & ? & ?). by exists (S i), y.
Qed.

(** * Properties *)

(** C3: The download never panics and never loses count.  After any events
    on a new download, in any order, also events that fail: the blocks are
    ordered and disjoint inside the piece, the payload reserved is exactly the
    bytes of the blocks requested or being written and within the limit,
    verification has started exactly when all blocks are stored.  Every
    further event returns, and one that fails changes nothing. *)
Theorem download_invariant d0 d log :
  fresh_download d0 -> history d0 d log ->
  download_ok d /\ same_download d0 d /\
  forall e, let '(d', r) := handle e d in
    returns r /\ download_ok d' /\ (succeeded r = false -> d' = d).
Proof.
  intros (H0 & _) Hh. destruct (history_ok d0 d log H0 Hh) as [Hd Hs]. split_and!; [done|done|].
  intros e. pose proof (handle_ok e d Hd) as H. destruct (handle e d) as [d' r].
  destruct H as (H1 & (H2 & _) & H3). done.
Qed.

(** C4: A piece is reported verified only when it was downloaded.  When an
    event reports a verified piece, the piece and hash are the ones the
    download was created for, and the earlier history holds, for every block
    of the piece, a received piece message with exactly that block's bytes,
    passed on to storage, and storage's report that the block is stored. *)
Theorem verified_means_downloaded d0 d log e v d' r :
  fresh_download d0 -> history d0 d log ->
  handle e d = (d', r) -> Verified v ∈ actions_of r ->
  v = mkVerified (piece_index d0) (expected_hash d0) (piece_length d0) /\
  forall i x, blocks d0 !! i = Some x ->
    (exists acts, (OnBlockStored (piece_index d0) (begin x), true, acts) ∈ log) /\
    exists bytes acts,
      (OnMessage (Piece (piece_index d0) (begin x) bytes), true, acts) ∈ log
      /\ len bytes = length x /\ StoreBlock (mkUnverified (piece_index d0) (begin x) bytes) ∈ acts.
Proof.
  intros Hf Hh E Hv. pose proof Hf as (H0 & _).
  destruct (history_ok d0 d log H0 Hh) as [Hd Hs].
  pose proof (handle_ok e d Hd) as H. rewrite E in H.
  destruct H as (_ & (_ & _ & _ & _ & Hver) & _). destruct (Hver v Hv) as (-> & _ & _ & ->).
  destruct Hs as (Hpi & Hpl & _ & Heh & _ & Hb & Hl). rewrite Hpi, Hpl, Heh in *. split; [done|].
  assert (all_stored (blocks d) = true) as Hall.
  { cbn [handle] in E. unfold finish_verification, validate_piece_index, mbind, M_bind, get, fail, mret, M_ret in E.
    rewrite Hpi, Z.eqb_refl in E. cbn [negb] in E. destruct (all_stored (blocks d)); [done|].
    rewrite orb_true_r in E. simplify_eq. by apply not_elem_of_nil in Hv. }
  intros i x Hx. pose proof (history_logged d0 d log Hf Hh) as Hlog. rewrite Forall_lookup in Hlog.
  assert (exists x', blocks d !! i = Some x' /\ begin x' = begin x /\ length x' = length x) as (x' & Hx' & Eb & El).
  { apply (f_equal (fun l => l !! i)) in Hb, Hl. rewrite !list_lookup_fmap, Hx in Hb, Hl.
    destruct (blocks d !! i) as [x'|]; [|done]. cbn in Hb, Hl. simplify_eq. eauto. }
  pose proof (all_stored_lookup _ _ _ Hall Hx') as Hst. destruct (Hlog i x' Hx') as [H1 H2].
  rewrite Eb, El in *. split; [by apply H1|apply H2; by right].
Qed.

(** Requests are for missing blocks only, and stay in the budget.
    Whatever event a well-formed download handles, each request it emits is
    exactly one of its blocks, which was missing and is now requested, and
    afterwards the reserved bytes are still within the payload allowance. *)
Theorem requests_within_budget e d d' r request :
  download_ok d -> handle e d = (d', r) -> DA_Request request ∈ actions_of r ->
  reserved_bytes (blocks d') <= limit (payload_budget d) /\
  exists i x, blocks d !! i = Some x /\ status x = Missing
    /\ request = mkBlockRequest (piece_index d) (begin x) (length x)
    /\ blocks d' !! i = Some (set_status Requested x).
Proof.
  intros Hd E Hin. pose proof (handle_ok e d Hd) as H. rewrite E in H.
  destruct H as (_ & (Ho & (_ & _ & _ & _ & Hlim & _) & _ & Hreq & _) & _). split; [|by apply Hreq].
  rewrite <- (do_reserved _ Ho), <- Hlim. pose proof (do_budget _ Ho). lia.
Qed.

(** A new download covers its piece.  For every piece length and
    allowance in the documented ranges, [new] returns a download whose blocks
    lie end to end from 0 to the end of the piece, none of them longer than a
    request may be, all missing, and nothing reserved. *)
Theorem new_covers_piece plength hash allowance :
  0 < plength <= MAX_PIECE_LENGTH -> MIN_PAYLOAD_ALLOWANCE <= allowance < 2 ^ USIZE ->
  exists d, OnePieceDownload_new 0 plength hash allowance = Ok d
    /\ fresh_download d /\ tiles plength 0 (blocks d).
Proof.
  intros H1 H2. destruct (new_ok plength hash allowance H1 H2) as (d & H). exists d. intuition.
Qed.

(** The download does not stall.  When the peer has the piece, nothing
    is in flight and the piece is not complete, an unchoke makes the download
    request a block: the smallest allowance fits every block. *)
Theorem unchoke_makes_progress d :
  download_ok d -> peer_has_piece d = true -> reserved (payload_budget d) = 0 ->
  verification_started d = false ->
  exists d' acts request, handle (OnMessage Unchoke) d = (d', Ok acts) /\ DA_Request request ∈ acts.
Proof.
  intros Hd Hp Hr Hs. cbn [handle on_message]. unfold mbind, M_bind, modify.
  destruct (availability_ok (OnMessage Unchoke) (set_choking false d)) as (d' & acts & -> & _ & Hprog);
    [by destruct Hd|].
  destruct Hprog as [q Hq]; [done|done|done|done| |].
  - cbn [blocks set_choking]. apply some_missing.
    + by rewrite <- (do_started _ Hd).
    + apply Forall_lookup. intros i x Hx. pose proof (block_bounds _ _ _ _ _ (do_blocks _ Hd) Hx). lia.
    + by rewrite <- (do_reserved _ Hd).
  - exists d', acts, q. done.
Qed.

(** ** Witnesses: a piece of two blocks *)
Definition sample_hash : list Z := replicate 20 9.
Lemma sample_new : exists d, OnePieceDownload_new 0 20000 sample_hash 32768 = Ok d
  /\ fresh_download d /\ tiles 20000 0 (blocks d) /\ piece_index d = 0 /\ piece_length d = 20000
  /\ expected_hash d = sample_hash.
Proof. apply new_ok; vm_compute; split; congruence. Qed.

(** The piece is downloaded, block by block, and verified. *)
Definition sample_events : list Event :=
  [OnMessage (Have 0); OnMessage Unchoke; OnMessage (Piece 0 16384 (replicate 3616 1));
   OnMessage (Piece 0 0 (replicate 16384 2)); OnBlockStored 0 16384; OnBlockStored 0 0;
   FinishVerification 0 sample_hash].
Fixpoint run (es : list Event) (d : OnePieceDownload) : OnePieceDownload * list (list DownloadAction) :=
  match es with
  | [] => (d, [])
  | e :: r => let '(d', o) := handle e d in let '(d'', l) := run r d' in (d'', actions_of o :: l)
  end.
Example sample_run :
  match OnePieceDownload_new 0 20000 sample_hash 32768 with
  | Ok d => let '(d', l) := run sample_events d in (verified d', List.last l [])
  | _ => (false, [])
  end = (true, [Verified (mkVerified 0 sample_hash 20000)]).
Proof. vm_compute. reflexivity. Qed.

Lemma download_invariant_witness :
  exists d, fresh_download d /\
  let out := handle (OnMessage (Have 0)) d in
  download_ok out.1 /\ same_download d out.1 /\
  forall e, let '(d', r) := handle e out.1 in
    returns r /\ download_ok d' /\ (succeeded r = false -> d' = out.1).
Proof.
  destruct sample_new as (d & _ & Hf & _). exists d. split; [exact Hf|]. cbv zeta.
  apply (download_invariant d _ [(OnMessage (Have 0), succeeded (handle (OnMessage (Have 0)) d).2,
           actions_of (handle (OnMessage (Have 0)) d).2)]); [exact Hf|].
  eapply history_step; [apply history_start|apply surjective_pairing].
Defined.

(** The state before verification, its log, and the verification. *)
Fixpoint run_log (es : list Event) (d : OnePieceDownload) (log : list (Event * bool * list DownloadAction))
    : OnePieceDownload * list (Event * bool * list DownloadAction) :=
  match es with
  | [] => (d, log)
  | e :: r => run_log r (handle e d).1 ((e, succeeded (handle e d).2, actions_of (handle e d).2) :: log)
  end.
Lemma run_log_history d0 es : forall d log, history d0 d log -> history d0 (run_log es d log).1 (run_log es d log).2.
Proof.
  induction es as [|e r IH]; intros d log H; [exact H|]. cbn [run_log]. apply IH.
  eapply history_step; [exact H|apply surjective_pairing].
Qed.
Definition sample_download : OnePieceDownload :=
  mkDownload 0 20000 1 sample_hash [mkBlock 0 16384 Missing; mkBlock 16384 3616 Missing]
    (mkBudget 32768 0 0) false true false false false.
Lemma sample_fresh : fresh_download sample_download.
Proof.
  split; [|split; [repeat constructor|done]].
  split; cbn; try done; vm_compute; intuition congruence.
Qed.

Lemma verified_means_downloaded_witness :
  let '(d, log) := run_log (take 6 sample_events) sample_download [] in
  exists v, v = mkVerified 0 sample_hash 20000 /\
  forall i x, blocks sample_download !! i = Some x ->
    (exists acts, (OnBlockStored 0 (begin x), true, acts) ∈ log) /\
    exists bytes acts, (OnMessage (Piece 0 (begin x) bytes), true, acts) ∈ log
      /\ len bytes = length x /\ StoreBlock (mkUnverified 0 (begin x) bytes) ∈ acts.
Proof.
  pose proof (run_log_history sample_download (take 6 sample_events) sample_download [] (history_start _)) as Hh.
  destruct (run_log (take 6 sample_events) sample_download []) as [d log] eqn:E.
  exists (mkVerified 0 sample_hash 20000).
  apply (verified_means_downloaded sample_download d log (FinishVerification 0 sample_hash) _
           (handle (FinishVerification 0 sample_hash) d).1 (handle (FinishVerification 0 sample_hash) d).2);
    [exact sample_fresh|exact Hh|apply surjective_pairing|].
  assert (d = (run_log (take 6 sample_events) sample_download []).1) as -> by (rewrite E; reflexivity).
  assert (actions_of (handle (FinishVerification 0 sample_hash)
    (run_log (take 6 sample_events) sample_download []).1).2 = [Verified (mkVerified 0 sample_hash 20000)]) as ->
    by (vm_compute; reflexivity).
  apply list_elem_of_here.
Defined.

Lemma requests_within_budget_witness :
  let d := (handle (OnMessage (Have 0)) sample_download).1 in
  download_ok d /\
  reserved_bytes (blocks (handle (OnMessage Unchoke) d).1) <= 32768 /\
  exists i x, blocks d !! i = Some x /\ status x = Missing
    /\ mkBlockRequest 0 0 16384 = mkBlockRequest (piece_index d) (begin x) (length x)
    /\ blocks (handle (OnMessage Unchoke) d).1 !! i = Some (set_status Requested x).
Proof.
  cbv zeta.
  assert (download_ok (handle (OnMessage (Have 0)) sample_download).1) as Hd
    by (split; vm_compute; try done; intuition congruence).
  split; [exact Hd|].
  apply (requests_within_budget (OnMessage Unchoke) (handle (OnMessage (Have 0)) sample_download).1
           (handle (OnMessage Unchoke) (handle (OnMessage (Have 0)) sample_download).1).1
           (handle (OnMessage Unchoke) (handle (OnMessage (Have 0)) sample_download).1).2
           (mkBlockRequest 0 0 16384));
    [exact Hd|apply surjective_pairing|vm_compute; apply list_elem_of_here].
Defined.

Lemma new_covers_piece_witness :
  0 < 20000 <= MAX_PIECE_LENGTH /\
  exists d, OnePieceDownload_new 0 20000 sample_hash 32768 = Ok d
    /\ fresh_download d /\ tiles 20000 0 (blocks d).
Proof.
  split; [vm_compute; split; congruence|].
  apply (new_covers_piece 20000 sample_hash 32768); vm_compute; split; congruence.
Defined.

Lemma unchoke_makes_progress_witness :
  let d := (handle (OnMessage (Have 0)) sample_download).1 in
  download_ok d /\
  exists d' acts request, handle (OnMessage Unchoke) d = (d', Ok acts) /\ DA_Request request ∈ acts.
Proof.
  cbv zeta.
  assert (download_ok (handle (OnMessage (Have 0)) sample_download).1) as Hd
    by (split; vm_compute; try done; intuition congruence).
  split; [exact Hd|]. apply (unchoke_makes_progress _ Hd); vm_compute; reflexivity.
Defined.
