(* ===== verification/UdpTracker.v ===== *)
(** * UdpTracker: the BEP 15 UDP tracker codecs of [udp_tracker.rs]

    Requests are encoded into fixed layouts; responses are parsed from
    untrusted datagrams.  A tracker's failure message is kept as its bytes,
    which are valid UTF-8. *)
From S2P Require Import Prelude Bytes Merkle.

Definition UDP_TRACKER_PROTOCOL_ID : Z := 4497486125440.
Definition CONNECT_ACTION : Z := 0.
Definition ANNOUNCE_ACTION : Z := 1.
Definition ERROR_ACTION : Z := 3.
Definition CONNECT_REQUEST_LENGTH : Z := 16.
Definition CONNECT_RESPONSE_LENGTH : Z := 16.
Definition ANNOUNCE_REQUEST_LENGTH : Z := 98.
Definition ANNOUNCE_RESPONSE_HEADER_LENGTH : Z := 20.
Definition MAX_COMPACT_PEERS : Z := 200.
Definition MAX_TRACKER_ERROR_LENGTH : Z := 512.
Definition MAX_ANNOUNCE_RESPONSE_LENGTH : Z :=
  ANNOUNCE_RESPONSE_HEADER_LENGTH + 18 * MAX_COMPACT_PEERS.

Definition TransactionId : Type := Z.

Inductive AnnounceEvent := AE_None | AE_Completed | AE_Started | AE_Stopped.
(** [event as u32] *)
Definition event_code (e : AnnounceEvent) : Z :=
  match e with AE_None => 0 | AE_Completed => 1 | AE_Started => 2 | AE_Stopped => 3 end.

Record AnnounceRequest := mkAnnounce {
  connection_id : Z;
  transaction_id : TransactionId;
  info_hash : list Z;
  peer_id : list Z;
  downloaded : Z;
  left_bytes : Z;
  uploaded : Z;
  event : AnnounceEvent;
  ip_address : Z;
  key : Z;
  num_want : Z;
  port : Z;
}.

Inductive TrackerAddressFamily := Ipv4 | Ipv6.
Inductive CompactPeer :=
| Peer4 (address : list Z) (port : Z)
| Peer6 (address : list Z) (port : Z).
Record AnnounceResponse := mkResponse {
  interval : Z;
  leechers : Z;
  seeders : Z;
  peers : list CompactPeer;
}.

Inductive UdpTrackerError :=
| PacketTooShort (length minimum : Z)
| UnexpectedTransaction (expected actual : TransactionId)
| UnexpectedAction (expected actual : Z)
| InvalidPeerStride (length stride : Z)
| TooManyPeers (count maximum : Z)
| ErrorMessageTooLong (length maximum : Z)
| InvalidErrorMessage
| TrackerFailure (message : list Z).

(** ** Requests *)
Definition encode_connect_request (t : TransactionId) : list Z :=
  to_be 8 UDP_TRACKER_PROTOCOL_ID ++ to_be 4 CONNECT_ACTION ++ to_be 4 t.

(** [num_want] is an [i32]; its bytes are those of its two's complement. *)
Definition encode_announce_request (r : AnnounceRequest) : list Z :=
  to_be 8 (connection_id r) ++ to_be 4 ANNOUNCE_ACTION ++ to_be 4 (transaction_id r)
  ++ info_hash r ++ peer_id r ++ to_be 8 (downloaded r) ++ to_be 8 (left_bytes r) ++ to_be 8 (uploaded r)
  ++ to_be 4 (event_code (event r)) ++ to_be 4 (ip_address r) ++ to_be 4 (key r)
  ++ to_be 4 (num_want r mod 2 ^ 32) ++ to_be 2 (port r).

(** ** Responses *)
Definition require_length (bytes : list Z) (minimum : Z) : outcome UdpTrackerError unit :=
  if len bytes <? minimum then Err (PacketTooShort (len bytes) minimum) else Ok tt.

Definition read_u32 (bytes : list Z) (offset : Z) : outcome UdpTrackerError Z := read_be bytes offset 4.

Definition parse_response_header (bytes : list Z) (expected : TransactionId) : outcome UdpTrackerError Z :=
  require_length bytes 8 ≫= fun _ =>
  action ← read_u32 bytes 0;
  transaction ← read_u32 bytes 4;
  if negb (transaction =? expected) then Err (UnexpectedTransaction expected transaction)
  else if action =? ERROR_ACTION then
    let message := skip bytes 8 in
    if MAX_TRACKER_ERROR_LENGTH <? len message
    then Err (ErrorMessageTooLong (len message) MAX_TRACKER_ERROR_LENGTH)
    else if negb (utf8_valid message) then Err InvalidErrorMessage
    else Err (TrackerFailure message)
  else Ok action.

Definition parse_connect_response (bytes : list Z) (expected : TransactionId) : outcome UdpTrackerError Z :=
  action ← parse_response_header bytes expected;
  if negb (action =? CONNECT_ACTION) then Err (UnexpectedAction CONNECT_ACTION action)
  else
    require_length bytes CONNECT_RESPONSE_LENGTH ≫= fun _ =>
    read_be bytes 8 8.

Definition stride_of (family : TrackerAddressFamily) : Z := match family with Ipv4 => 6 | Ipv6 => 18 end.
Definition parse_peer (family : TrackerAddressFamily) (peer : list Z) : outcome UdpTrackerError CompactPeer :=
  let n := stride_of family - 2 in
  address ← slice peer 0 n;
  p ← read_be peer n 2;
  mret (match family with Ipv4 => Peer4 address p | Ipv6 => Peer6 address p end).
Fixpoint parse_peers (family : TrackerAddressFamily) (l : list (list Z)) : outcome UdpTrackerError (list CompactPeer) :=
  match l with
  | [] => Ok []
  | peer :: r => p ← parse_peer family peer; ps ← parse_peers family r; Ok (p :: ps)
  end.

Definition parse_announce_response (bytes : list Z) (expected : TransactionId)
    (family : TrackerAddressFamily) : outcome UdpTrackerError AnnounceResponse :=
  action ← parse_response_header bytes expected;
  if negb (action =? ANNOUNCE_ACTION) then Err (UnexpectedAction ANNOUNCE_ACTION action)
  else
    require_length bytes ANNOUNCE_RESPONSE_HEADER_LENGTH ≫= fun _ =>
    let peer_bytes := skip bytes ANNOUNCE_RESPONSE_HEADER_LENGTH in
    let stride := stride_of family in
    if negb (is_multiple_of (len peer_bytes) stride)
    then Err (InvalidPeerStride (len peer_bytes) stride)
    else
      let peer_count := len peer_bytes / stride in
      if MAX_COMPACT_PEERS <? peer_count then Err (TooManyPeers peer_count MAX_COMPACT_PEERS)
      else
        ps ← parse_peers family (chunks stride peer_bytes);
        i ← read_u32 bytes 8;
        l ← read_u32 bytes 12;
        s ← read_u32 bytes 16;
        mret (mkResponse i l s ps).

(** ** Specification: the layouts of BEP 15 *)
Definition encode_peer (p : CompactPeer) : list Z :=
  match p with Peer4 a port | Peer6 a port => a ++ to_be 2 port end.
Definition peer_ok (family : TrackerAddressFamily) (p : CompactPeer) : Prop :=
  match family, p with
  | Ipv4, Peer4 a port => len a = 4 /\ is_u 16 port
  | Ipv6, Peer6 a port => len a = 16 /\ is_u 16 port
  | _, _ => False
  end.
Definition response_ok (family : TrackerAddressFamily) (r : AnnounceResponse) : Prop :=
  is_u 32 (interval r) /\ is_u 32 (leechers r) /\ is_u 32 (seeders r)
  /\ Forall (peer_ok family) (peers r) /\ len (peers r) <= MAX_COMPACT_PEERS.
(** What a tracker sends. *)
Definition encode_announce_response (t : TransactionId) (r : AnnounceResponse) : list Z :=
  to_be 4 ANNOUNCE_ACTION ++ to_be 4 t ++ to_be 4 (interval r) ++ to_be 4 (leechers r)
  ++ to_be 4 (seeders r) ++ concat (map encode_peer (peers r)).

(** * Lemmas *)
Lemma require_length_ok bytes minimum : minimum <= len bytes -> require_length bytes minimum = Ok tt.
Proof. intros. unfold require_length. by rewrite (proj2 (Z.ltb_ge _ _)). Qed.
(** The action and the transaction, the first two words of a datagram. *)
Lemma header_words a t rest : is_u 32 a -> is_u 32 t ->
  read_u32 (to_be 4 a ++ to_be 4 t ++ rest) 0 = Ok a /\ read_u32 (to_be 4 a ++ to_be 4 t ++ rest) 4 = Ok t.
Proof.
  intros Ha Ht. split.
  - by apply (read_be_at [] a (to_be 4 t ++ rest) 0 4 4).
  - apply (read_be_at (to_be 4 a) t rest 4 4 4); [by rewrite len_to_be|done|done].
Qed.
Lemma header_at a t rest : is_u 32 a -> is_u 32 t -> a <> ERROR_ACTION ->
  parse_response_header (to_be 4 a ++ to_be 4 t ++ rest) t = Ok a.
Proof.
  intros Ha Ht Hne. unfold parse_response_header. pose proof (len_nonneg rest).
  rewrite require_length_ok by (rewrite !len_app, !len_to_be; lia). unfold mbind, outcome_bind.
  destruct (header_words a t rest Ha Ht) as [-> ->].
  rewrite Z.eqb_refl, (proj2 (Z.eqb_neq a ERROR_ACTION)) by done. done.
Qed.
Lemma header_inv bytes t a : is_bytes bytes -> parse_response_header bytes t = Ok a ->
  8 <= len bytes /\ is_u 32 a /\ is_u 32 t /\ a <> ERROR_ACTION
  /\ to_be 4 a ++ to_be 4 t = sub_list bytes 0 8.
Proof.
  intros Hb. unfold parse_response_header, require_length.
  destruct (Z.ltb_spec (len bytes) 8); [done|]. unfold mbind, outcome_bind, read_u32.
  destruct (read_be bytes 0 4) as [x|?| |] eqn:E1; try done.
  destruct (read_be bytes 4 4) as [y|?| |] eqn:E2; try done.
  destruct (Z.eqb_spec y t) as [->|]; [|done]. cbn [negb].
  destruct (Z.eqb_spec x ERROR_ACTION); [by repeat case_match|]. intros. simplify_eq.
  apply read_be_inv in E1 as (_ & _ & _ & U1 & F1); [|done]. apply read_be_inv in E2 as (_ & _ & _ & U2 & F2); [|done].
  split_and!; [done..|]. change (Z.to_nat 4) with 4%nat in *. rewrite F1, F2.
  change (0 + 4) with 4. change (4 + 4) with 8. by rewrite <- sub_list_join by lia.
Qed.

(** ** Peers *)
Lemma len_encode_peer f p : peer_ok f p -> len (encode_peer p) = stride_of f.
Proof. destruct f, p; try done; intros [H _]; cbn [encode_peer]; rewrite len_app, len_to_be, H; done. Qed.
Lemma parse_encode_peer f p : peer_ok f p -> parse_peer f (encode_peer p) = Ok p.
Proof.
  intros Hp. pose proof (len_encode_peer f p Hp) as Hl. unfold parse_peer.
  rewrite slice_ok by (rewrite ?Hl; destruct f; cbn; lia). unfold mbind, outcome_bind.
  destruct f, p as [a q|a q]; try done; destruct Hp as [Ha Hq]; cbn [encode_peer stride_of].
  all: match goal with |- context [sub_list ?l 0 ?n] =>
         assert (sub_list l 0 n = a) as -> by (apply (sub_list_middle [] a (to_be 2 q)); [done|by rewrite Ha]);
         assert (read_be l n 2 = Ok q) as ->
           by (rewrite <- (app_nil_r (to_be 2 q)); by apply (read_be_at a q [] _ _ 2)) end.
  all: done.
Qed.
Lemma parse_encode_peers f l : Forall (peer_ok f) l ->
  parse_peers f (map encode_peer l) = Ok l.
Proof.
  induction 1 as [|p r Hp _ IH]; [done|]. cbn [map parse_peers]. rewrite parse_encode_peer by done.
  unfold mbind, outcome_bind. by rewrite IH.
Qed.
Lemma stride_pos f : 0 < stride_of f.
Proof. destruct f; cbn; lia. Qed.
Lemma chunks_encode f l : Forall (peer_ok f) l ->
  chunks (stride_of f) (concat (map encode_peer l)) = map encode_peer l
  /\ len (concat (map encode_peer l)) = stride_of f * len l.
Proof.
  induction 1 as [|p r Hp _ [IH1 IH2]]; [by destruct f|]. cbn [map concat].
  pose proof (len_encode_peer f p Hp) as Hl. pose proof (stride_pos f). split.
  - rewrite chunks_cons by (try done; intros E; apply (f_equal len) in E; change (len (@nil Z)) with 0 in E; len_lia).
    replace (Z.to_nat (stride_of f)) with (length (encode_peer p)) by (unfold len in Hl; lia).
    by rewrite take_app_length, drop_app_length, IH1.
  - rewrite len_app, len_cons. lia.
Qed.

Lemma parse_peer_inv f bs p : is_bytes bs -> len bs = stride_of f -> parse_peer f bs = Ok p ->
  peer_ok f p /\ bs = encode_peer p.
Proof.
  intros Hb Hl. unfold parse_peer. pose proof (stride_pos f).
  assert (2 <= stride_of f) by (destruct f; cbn; lia).
  rewrite slice_ok by lia. unfold mbind, outcome_bind.
  destruct (read_be bs (stride_of f - 2) 2) as [q|?| |] eqn:E; try done.
  apply read_be_inv in E as (_ & _ & _ & U & F); [|done]. change (Z.to_nat 2) with 2%nat in F.
  unfold mret, outcome_ret. intros. simplify_eq.
  assert (bs = sub_list bs 0 (stride_of f - 2) ++ to_be 2 q) as Hbs.
  { rewrite F, <- sub_list_join by lia. replace (stride_of f - 2 + 2) with (len bs) by lia. by rewrite sub_list_all. }
  assert (len (sub_list bs 0 (stride_of f - 2)) = stride_of f - 2) as Hla by (rewrite len_sub_list; lia).
  destruct f; cbn [peer_ok encode_peer stride_of] in *; done.
Qed.
Lemma parse_peers_inv f l : forall ps, is_bytes l -> len l mod stride_of f = 0 ->
  parse_peers f (chunks (stride_of f) l) = Ok ps ->
  Forall (peer_ok f) ps /\ l = concat (map encode_peer ps).
Proof.
  pose proof (stride_pos f) as Hs. induction l as [|l Hne IH] using (chunks_ind (stride_of f) Hs).
  { intros ps _ _ E. cbn in E. by simplify_eq. }
  intros ps Hb Hm. rewrite chunks_cons by done. cbn [parse_peers]. unfold mbind, outcome_bind.
  assert (stride_of f <= len l) as Hl.
  { assert (0 < len l) by (destruct l; [done|len_lia]). pose proof (Z.div_mod (len l) (stride_of f) ltac:(lia)).
    assert (1 <= len l / stride_of f) by (apply Z.nlt_ge; intros ?; assert (len l / stride_of f <= 0) by lia; nia). nia. }
  destruct (parse_peer f (take (Z.to_nat (stride_of f)) l)) as [p|?| |] eqn:Ep; try done.
  apply parse_peer_inv in Ep as [Hp Hbs]; [|by apply Forall_take|rewrite len_take; lia].
  destruct (parse_peers f _) as [qs|?| |] eqn:Eq; try done. intros. simplify_eq.
  destruct (IH qs) as [Hq Hl2]; [by apply Forall_drop| |done|].
  { rewrite len_drop, Z.max_r, Z2Nat.id by lia.
    replace (len l - stride_of f) with (len l + (-1) * stride_of f) by lia. rewrite Z.mod_add; lia. }
  split; [by constructor|]. cbn [map concat]. rewrite <- Hbs, <- Hl2. by rewrite take_drop.
Qed.

(** * Properties *)

(** The announce parser accepts exactly BEP 15's announce responses.
    For any datagram and the transaction asked for, [parse_announce_response]
    returns a response exactly when the datagram is the tracker's encoding of
    that response: fields of their widths, peers of the address family, at
    most 200 of them. *)
Theorem announce_response_exact bytes t family r :
  is_bytes bytes -> is_u 32 t ->
  parse_announce_response bytes t family = Ok r <->
  bytes = encode_announce_response t r /\ response_ok family r.
Proof.
  intros Hb Ht. pose proof (stride_pos family) as Hs. split.
  - unfold parse_announce_response, mbind, outcome_bind.
    destruct (parse_response_header bytes t) as [a|?| |] eqn:Eh; try done.
    apply header_inv in Eh as (H8 & _ & _ & _ & Hhead); [|done].
    destruct (Z.eqb_spec a ANNOUNCE_ACTION) as [->|]; [|done]. cbn [negb].
    unfold require_length, ANNOUNCE_RESPONSE_HEADER_LENGTH.
    destruct (Z.ltb_spec (len bytes) 20) as [|H20]; [done|].
    unfold is_multiple_of. destruct (Z.eqb_spec (len (skip bytes 20) mod stride_of family) 0) as [Hm|]; [|done].
    cbn [negb]. destruct (Z.ltb_spec MAX_COMPACT_PEERS (len (skip bytes 20) / stride_of family)) as [|Hcount]; [done|].
    destruct (parse_peers family _) as [ps|?| |] eqn:Ep; try done.
    apply parse_peers_inv in Ep as [Hps Hcat]; [|by apply is_bytes_skip|done].
    unfold read_u32. destruct (read_be bytes 8 4) as [i|?| |] eqn:E1; try done.
    destruct (read_be bytes 12 4) as [l|?| |] eqn:E2; try done.
    destruct (read_be bytes 16 4) as [s|?| |] eqn:E3; try done.
    apply read_be_inv in E1 as (_ & _ & _ & U1 & F1); [|done].
    apply read_be_inv in E2 as (_ & _ & _ & U2 & F2); [|done].
    apply read_be_inv in E3 as (_ & _ & _ & U3 & F3); [|done].
    unfold mret, outcome_ret. intros. simplify_eq. change (Z.to_nat 4) with 4%nat in *. split.
    + unfold encode_announce_response. cbn [interval leechers seeders peers].
      rewrite F1, F2, F3, <- Hcat, app_assoc, Hhead.
      change (8 + 4) with 12. change (12 + 4) with 16. change (16 + 4) with 20.
      rewrite app_assoc, <- sub_list_join by lia. rewrite app_assoc, <- sub_list_join by lia.
      rewrite app_assoc, <- sub_list_join by lia. apply sub_list_skip. lia.
    + split_and!; cbn [interval leechers seeders peers]; [exact U1|exact U2|exact U3|done|].
      destruct (chunks_encode family ps Hps) as [_ Hl]. rewrite Hcat, Hl, Z.mul_comm, Z.div_mul in Hcount by lia. done.
  - intros [-> (U1 & U2 & U3 & Hps & Hcount)]. unfold parse_announce_response, encode_announce_response.
    rewrite header_at by done. unfold mbind, outcome_bind. cbn [negb Z.eqb].
    rewrite Z.eqb_refl. cbn [negb]. unfold ANNOUNCE_RESPONSE_HEADER_LENGTH.
    destruct (chunks_encode family (peers r) Hps) as [Hchunks Hl].
    pose proof (len_nonneg (concat (map encode_peer (peers r)))).
    rewrite require_length_ok by (rewrite !len_app, !len_to_be; lia).
    set (tail := concat (map encode_peer (peers r))) in *.
    set (bytes := to_be 4 ANNOUNCE_ACTION ++ _).
    assert (skip bytes 20 = tail) as ->.
    { subst bytes. rewrite !app_assoc. apply skip_app. rewrite !len_app, !len_to_be. done. }
    unfold is_multiple_of. rewrite Hl, Z.mul_comm, Z.mod_mul, Z.div_mul by lia. cbn [negb Z.eqb].
    rewrite (proj2 (Z.ltb_ge _ _)) by done. rewrite Hchunks, parse_encode_peers by done.
    unfold read_u32, bytes.
    rewrite (app_assoc (to_be 4 ANNOUNCE_ACTION)), (read_be_at _ (interval r) _ 8 4 4) by (rewrite ?len_app, ?len_to_be; done).
    rewrite (app_assoc _ (to_be 4 (interval r))), (read_be_at _ (leechers r) _ 12 4 4) by (rewrite ?len_app, ?len_to_be; done).
    rewrite (app_assoc _ (to_be 4 (leechers r))), (read_be_at _ (seeders r) _ 16 4 4) by (rewrite ?len_app, ?len_to_be; done).
    by destruct r.
Qed.

(** The connect parser accepts exactly the responses of at least 16
    bytes with the connect action and the transaction asked for, and returns
    the connection id; longer datagrams are accepted and their tail
    ignored. *)
Theorem connect_response_exact bytes t id :
  is_bytes bytes -> is_u 32 t ->
  parse_connect_response bytes t = Ok id <->
  is_u 64 id /\ exists rest, bytes = to_be 4 CONNECT_ACTION ++ to_be 4 t ++ to_be 8 id ++ rest.
Proof.
  intros Hb Ht. split.
  - unfold parse_connect_response, mbind, outcome_bind.
    destruct (parse_response_header bytes t) as [a|?| |] eqn:Eh; try done.
    apply header_inv in Eh as (H8 & _ & _ & _ & Hhead); [|done].
    destruct (Z.eqb_spec a CONNECT_ACTION) as [->|]; [|done]. cbn [negb].
    unfold require_length. destruct (Z.ltb_spec (len bytes) CONNECT_RESPONSE_LENGTH); [done|].
    intros E. apply read_be_inv in E as (_ & _ & _ & U & F); [|done]. split; [done|].
    exists (skip bytes 16). change (Z.to_nat 8) with 8%nat in F.
    rewrite F, app_assoc, Hhead. change (8 + 8) with 16. unfold CONNECT_RESPONSE_LENGTH in *.
    rewrite app_assoc, <- sub_list_join by lia. apply sub_list_skip. lia.
  - intros [Hid [rest ->]]. unfold parse_connect_response. rewrite header_at by done.
    unfold mbind, outcome_bind. cbn [negb Z.eqb]. rewrite Z.eqb_refl. cbn [negb].
    pose proof (len_nonneg rest).
    rewrite require_length_ok by (rewrite !len_app, !len_to_be; unfold CONNECT_RESPONSE_LENGTH; lia).
    rewrite app_assoc. apply (read_be_at _ id _ 8 8 8); [by rewrite len_app, !len_to_be|done|done].
Qed.

(** A tracker's error is reported whatever was asked.  With the right
    transaction, an error datagram gives the tracker's message when it is
    valid UTF-8 of at most 512 bytes, and a documented error otherwise; an
    answer to another transaction is refused before anything else is looked
    at. *)
Theorem tracker_error_reported t u message family :
  is_u 32 t -> is_u 32 u ->
  parse_announce_response (to_be 4 ERROR_ACTION ++ to_be 4 u ++ message) t family =
    if negb (u =? t) then Err (UnexpectedTransaction t u)
    else if MAX_TRACKER_ERROR_LENGTH <? len message
    then Err (ErrorMessageTooLong (len message) MAX_TRACKER_ERROR_LENGTH)
    else if utf8_valid message then Err (TrackerFailure message) else Err InvalidErrorMessage.
Proof.
  intros Ht Hu. unfold parse_announce_response, parse_response_header.
  pose proof (len_nonneg message).
  rewrite (require_length_ok _ 8) by (rewrite !len_app, !len_to_be; lia). unfold mbind, outcome_bind.
  destruct (header_words ERROR_ACTION u message ltac:(done) Hu) as [-> ->].
  destruct (Z.eqb_spec u t) as [->|]; [|done]. cbn [negb]. rewrite Z.eqb_refl.
  rewrite (app_assoc _ (to_be 4 t)), skip_app by (rewrite len_app, !len_to_be; done).
  destruct (MAX_TRACKER_ERROR_LENGTH <? len message); [done|]. by destruct (utf8_valid message).
Qed.

(** A field of a datagram, at its offset and width. *)
#[local] Abbreviation read := (read_be (E:=UdpTrackerError)).
(** The announce request has BEP 15's layout: 98 bytes, every field
    readable, big-endian, at its offset, and a negative [num_want] as its
    two's complement. *)
Theorem announce_request_layout r :
  is_u 64 (connection_id r) -> is_u 32 (transaction_id r) -> len (info_hash r) = 20 -> len (peer_id r) = 20 ->
  is_u 64 (downloaded r) -> is_u 64 (left_bytes r) -> is_u 64 (uploaded r) -> is_u 32 (ip_address r) ->
  is_u 32 (key r) -> is_u 16 (port r) ->
  let bytes := encode_announce_request r in
  len bytes = ANNOUNCE_REQUEST_LENGTH /\ read bytes 0 8 = Ok (connection_id r)
  /\ read bytes 8 4 = Ok ANNOUNCE_ACTION /\ read bytes 12 4 = Ok (transaction_id r)
  /\ sub_list bytes 16 36 = info_hash r /\ sub_list bytes 36 56 = peer_id r
  /\ read bytes 56 8 = Ok (downloaded r) /\ read bytes 64 8 = Ok (left_bytes r)
  /\ read bytes 72 8 = Ok (uploaded r) /\ read bytes 80 4 = Ok (event_code (event r))
  /\ read bytes 84 4 = Ok (ip_address r) /\ read bytes 88 4 = Ok (key r)
  /\ read bytes 92 4 = Ok (num_want r mod 2 ^ 32) /\ read bytes 96 2 = Ok (port r).
Proof.
  intros H1 H2 H3 H4 H5 H6 H7 H8 H9 H10. cbv zeta. unfold encode_announce_request.
  assert (is_u 32 (event_code (event r))) as He by (by destruct (event r)).
  assert (is_u 32 (num_want r mod 2 ^ 32)) as Hw by (apply Z.mod_pos_bound; lia).
  split_and!.
  - rewrite !len_app, !len_to_be, H3, H4. done.
  - by apply (read_be_at [] _ _ 0 8 8).
  - by apply (read_be_at _ ANNOUNCE_ACTION _ 8 4 4); [rewrite len_to_be| |].
  - rewrite (app_assoc _ (to_be 4 ANNOUNCE_ACTION)). apply (read_be_at _ _ _ 12 4 4); [by rewrite len_app, !len_to_be|done|done].
  - rewrite (app_assoc _ (to_be 4 ANNOUNCE_ACTION)), (app_assoc _ (to_be 4 (transaction_id r))).
    apply sub_list_middle; rewrite !len_app, !len_to_be, ?H3; done.
  - rewrite (app_assoc _ (to_be 4 ANNOUNCE_ACTION)), (app_assoc _ (to_be 4 (transaction_id r))), (app_assoc _ (info_hash r)).
    apply sub_list_middle; rewrite !len_app, !len_to_be, ?H3, ?H4; done.
  - rewrite 4!app_assoc. apply (read_be_at _ _ _ 56 8 8); [by rewrite !len_app, !len_to_be, H3, H4|done|done].
  - rewrite 5!app_assoc. apply (read_be_at _ _ _ 64 8 8); [by rewrite !len_app, !len_to_be, H3, H4|done|done].
  - rewrite 6!app_assoc. apply (read_be_at _ _ _ 72 8 8); [by rewrite !len_app, !len_to_be, H3, H4|done|done].
  - rewrite 7!app_assoc. apply (read_be_at _ _ _ 80 4 4); [by rewrite !len_app, !len_to_be, H3, H4|done|done].
  - rewrite 8!app_assoc. apply (read_be_at _ _ _ 84 4 4); [by rewrite !len_app, !len_to_be, H3, H4|done|done].
  - rewrite 9!app_assoc. apply (read_be_at _ _ _ 88 4 4); [by rewrite !len_app, !len_to_be, H3, H4|done|done].
  - rewrite 10!app_assoc. apply (read_be_at _ _ _ 92 4 4); [by rewrite !len_app, !len_to_be, H3, H4|done|done].
  - rewrite <- (app_nil_r (to_be 2 (port r))), 11!app_assoc.
    apply (read_be_at _ _ _ 96 2 2); [by rewrite !len_app, !len_to_be, H3, H4|done|done].
Qed.

(** ** Witnesses *)
Definition sample_response : AnnounceResponse :=
  mkResponse 1800 3 9 [Peer4 [10; 0; 0; 7] 6881; Peer4 [192; 168; 1; 2] 51413].
Definition sample_request : AnnounceRequest :=
  mkAnnounce (2 ^ 40 + 9) 77 (replicate 20 171) (replicate 20 45) 0 (2 ^ 33) 12 AE_Started 0 5 (-1) 6881.

Lemma announce_response_exact_witness :
  parse_announce_response (encode_announce_response 77 sample_response) 77 Ipv4 = Ok sample_response.
Proof.
  apply announce_response_exact; [apply (bool_decide_unpack _); vm_compute; exact I|done|].
  split; [done|]. unfold response_ok, sample_response. cbn [interval leechers seeders peers].
  split_and!; [done|done|done| |done]. repeat constructor; done.
Defined.
Lemma connect_response_exact_witness :
  parse_connect_response (to_be 4 CONNECT_ACTION ++ to_be 4 77 ++ to_be 8 123456789 ++ [1; 2]) 77 = Ok 123456789.
Proof.
  apply connect_response_exact; [apply (bool_decide_unpack _); vm_compute; exact I|done|].
  split; [done|]. by exists [1; 2].
Defined.
Lemma tracker_error_reported_witness :
  parse_announce_response (to_be 4 ERROR_ACTION ++ to_be 4 77 ++ [110; 111]) 77 Ipv6 = Err (TrackerFailure [110; 111]).
Proof. apply (tracker_error_reported 77 77 [110; 111] Ipv6); done. Defined.
Lemma announce_request_layout_witness :
  len (encode_announce_request sample_request) = 98
  /\ read (encode_announce_request sample_request) 92 4 = Ok 4294967295.
Proof.
  destruct (announce_request_layout sample_request) as (H1 & _ & _ & _ & _ & _ & _ & _ & _ & _ & _ & _ & H2 & _); try done.
Defined.
