(* ===== verification/UtpSequence.v ===== *)
(** * UtpSequence: wrapping sequence numbers and timestamps of [utp/sequence.rs]

    uTP numbers packets with 16 bits and stamps them with 32-bit
    microseconds; both wrap.  Two numbers exactly half the space apart have
    no order, and the code says so instead of inventing one. *)
From S2P Require Import Prelude.

Definition SequenceNumber : Type := Z.
Definition TimestampMicros : Type := Z.

Definition seq_wrapping_add (s : SequenceNumber) (amount : Z) : SequenceNumber := wrapping_add 16 s amount.
Definition seq_wrapping_sub (s : SequenceNumber) (amount : Z) : SequenceNumber := wrapping_sub 16 s amount.

Inductive SequenceRelation :=
| Before (distance : Z)
| Equal
| After (distance : Z)
| Ambiguous.
#[export] Instance SequenceRelation_eq_dec : EqDecision SequenceRelation.
Proof. solve_decision. Defined.

Definition relation_to (s other : SequenceNumber) : SequenceRelation :=
  let distance := wrapping_sub 16 s other in
  if distance =? 0 then Equal
  else if distance =? 32768 then Ambiguous
  else if (1 <=? distance) && (distance <=? 32767) then After distance
  else Before (wrapping_sub 16 other s).

Definition elapsed_since (t earlier : TimestampMicros) : Z := wrapping_sub 32 t earlier.

(** ** Specification *)

(** The relation seen from the other side. *)
Definition flip_relation (r : SequenceRelation) : SequenceRelation :=
  match r with Before d => After d | After d => Before d | r => r end.
(** What a relation says about the two numbers. *)
Definition relation_means (r : SequenceRelation) (a b : SequenceNumber) : Prop :=
  match r with
  | Equal => a = b
  | After d => 1 <= d <= 32767 /\ a = seq_wrapping_add b d
  | Before d => 1 <= d <= 32767 /\ b = seq_wrapping_add a d
  | Ambiguous => a = seq_wrapping_add b 32768 /\ b = seq_wrapping_add a 32768
  end.

(** * Lemmas *)
Ltac wrap := unfold seq_wrapping_add, seq_wrapping_sub, relation_to, wrapping_add, wrapping_sub, is_u in *;
  change (2 ^ 16) with 65536 in *; change (2 ^ 32) with 4294967296 in *.

Lemma relation_to_means a b : is_u 16 a -> is_u 16 b -> relation_means (relation_to a b) a b.
Proof.
  intros Ha Hb. unfold relation_to. wrap.
  destruct (Z.eqb_spec ((a - b) mod 65536) 0); [cbn; divlia|].
  destruct (Z.eqb_spec ((a - b) mod 65536) 32768); [cbn; wrap; divlia|].
  destruct (Z.leb_spec 1 ((a - b) mod 65536)), (Z.leb_spec ((a - b) mod 65536) 32767); cbn; wrap; divlia.
Qed.
(** Only one relation can hold of two numbers. *)
Lemma relation_means_unique r1 r2 a b : is_u 16 a -> is_u 16 b ->
  relation_means r1 a b -> relation_means r2 a b -> r1 = r2.
Proof.
  intros Ha Hb. destruct r1, r2; cbn; wrap; intros; try f_equal; divlia.
Qed.
Lemma relation_flip r a b : relation_means r a b -> relation_means (flip_relation r) b a.
Proof. destruct r; cbn; intuition. Qed.
Lemma relation_shift r a b k : is_u 16 a -> is_u 16 b -> relation_means r a b ->
  relation_means r (seq_wrapping_add a k) (seq_wrapping_add b k).
Proof.
  intros Ha Hb. destruct r as [d| |d|]; cbn; wrap.
  - intros [Hd E]. split; [done|]. rewrite E, !Zplus_mod_idemp_l. f_equal. lia.
  - by intros ->.
  - intros [Hd E]. split; [done|]. rewrite E, !Zplus_mod_idemp_l. f_equal. lia.
  - intros [E1 E2]. split; [rewrite E1|rewrite E2]; rewrite !Zplus_mod_idemp_l; f_equal; lia.
Qed.
Lemma is_u_wrapping w a k : 0 <= w -> is_u w (wrapping_add w a k).
Proof. intros. apply Z.mod_pos_bound. by apply pow2_pos. Qed.
Lemma relation_to_unique r a b : is_u 16 a -> is_u 16 b -> relation_means r a b -> relation_to a b = r.
Proof. intros Ha Hb H. by eapply relation_means_unique; [..|apply relation_to_means|]. Qed.

(** The relation of two positions counted from the same number. *)
Lemma relation_of_offsets c a b : 0 <= a <= 32767 -> 0 <= b <= 32767 ->
  relation_to (seq_wrapping_add c a) (seq_wrapping_add c b)
  = if a <? b then Before (b - a) else if b <? a then After (a - b) else Equal.
Proof.
  intros Ha Hb. apply relation_to_unique; [by apply is_u_wrapping..|].
  destruct (Z.ltb_spec a b); [|destruct (Z.ltb_spec b a)]; cbn; wrap.
  - split; [lia|]. rewrite Zplus_mod_idemp_l. f_equal. lia.
  - split; [lia|]. rewrite Zplus_mod_idemp_l. f_equal. lia.
  - f_equal. lia.
Qed.
Lemma offset_of_add c a : is_u 16 c -> 0 <= a <= 65535 -> wrapping_sub 16 (seq_wrapping_add c a) c = a.
Proof. intros Hc Ha. wrap. divlia. Qed.

(** * Properties *)

(** The order of sequence numbers is the circular one.
    [relation_to a b] is [r] exactly when [r] is true of the two numbers:
    equal, ahead or behind by less than half the space with that distance,
    or exactly half the space apart.  Seen from the other side it is the
    mirror image, and moving both numbers, across the wrap too, changes
    nothing. *)
Theorem relation_exact a b k r :
  is_u 16 a -> is_u 16 b ->
  (relation_to a b = r <-> relation_means r a b)
  /\ relation_to b a = flip_relation (relation_to a b)
  /\ relation_to (seq_wrapping_add a k) (seq_wrapping_add b k) = relation_to a b.
Proof.
  intros Ha Hb. pose proof (relation_to_means a b Ha Hb) as H. split_and!.
  - split; [by intros <-|by apply relation_to_unique].
  - apply relation_to_unique; [done..|]. by apply relation_flip.
  - apply relation_to_unique; [by apply is_u_wrapping..|]. by apply relation_shift.
Qed.

(** ** Witnesses *)
Lemma relation_exact_witness :
  relation_to 3 65534 = After 5 /\ relation_to 65534 3 = Before 5 /\ relation_to 65535 65530 = After 5.
Proof.
  destruct (relation_exact 3 65534 65532 (After 5)) as (H1 & H2 & H3); [done|done|].
  assert (relation_to 3 65534 = After 5) as E by (apply H1; cbn; done).
  split_and!; [done|by rewrite H2, E|]. rewrite <- E, <- H3. done.
Defined.
