(* ===== verification/UtpPacket.v ===== *)
(** * UtpPacket: the uTP v1 packet and extension codec of [utp/packet.rs]

    A packet is a 20-byte header, a chain of at most eight extensions (each
    names the kind of the next one) and a payload.  Datagrams are untrusted:
    [decode_packet] checks the whole chain once, and the iterator over the
    extensions then walks bytes it need not check again. *)
From S2P Require Import Prelude Bytes UtpSequence.

Definition UTP_VERSION : Z := 1.
Definition UTP_HEADER_SIZE : Z := 20.
Definition MAX_UTP_PACKET_SIZE : Z := umax 16.
Definition MAX_UTP_PAYLOAD_SIZE : Z := MAX_UTP_PACKET_SIZE - UTP_HEADER_SIZE.
Definition MAX_UTP_EXTENSION_COUNT : Z := 8.
Definition SACK_EXTENSION : Z := 1.
Definition MAX_SACK_BYTES : Z := 252.

Inductive PacketType := PT_Data | PT_Fin | PT_State | PT_Reset | PT_Syn.
#[export] Instance PacketType_eq_dec : EqDecision PacketType.
Proof. solve_decision. Defined.
(** [packet_type as u8] *)
Definition packet_type_code (t : PacketType) : Z :=
  match t with PT_Data => 0 | PT_Fin => 1 | PT_State => 2 | PT_Reset => 3 | PT_Syn => 4 end.
Definition from_wire (value : Z) : option PacketType :=
  if value =? 0 then Some PT_Data
  else if value =? 1 then Some PT_Fin
  else if value =? 2 then Some PT_State
  else if value =? 3 then Some PT_Reset
  else if value =? 4 then Some PT_Syn
  else None.

Record UtpHeader := mkHeader {
  packet_type : PacketType;
  connection_id : Z;
  timestamp : TimestampMicros;
  timestamp_difference_micros : Z;
  window_size : Z;
  sequence_number : SequenceNumber;
  acknowledgement_number : SequenceNumber;
}.
Record Extension := mkExtension { kind : Z; ext_bytes : list Z }.
Record PacketToEncode := mkPacket {
  p_header : UtpHeader;
  p_extensions : list Extension;
  p_payload : list Z;
}.
Record DecodedPacket := mkDecoded {
  header : UtpHeader;
  first_extension : Z;
  extension_bytes : list Z;
  extension_count : Z;
  selective_ack : option (list Z);
  payload : list Z;
}.

Inductive UtpCodecError :=
| PacketTooShort (length minimum : Z)
| PacketTooLarge (length maximum : Z)
| UnsupportedVersion (version : Z)
| UnsupportedPacketType (packet_type : Z)
| InvalidExtensionKind
| TooManyExtensions (count maximum : Z)
| TruncatedExtensionHeader (index : Z)
| TruncatedExtensionPayload (kind declared available : Z)
| InvalidSackLength (length : Z)
| DuplicateSack
| ExtensionPayloadTooLong (kind length maximum : Z)
| InvalidPayloadLength (packet_type : PacketType) (length : Z).

(** ** The extension iterator *)
Record Extensions := mkExtensions { next_kind : Z; remaining : list Z; remaining_count : Z }.
Definition extensions (d : DecodedPacket) : Extensions :=
  mkExtensions (first_extension d) (extension_bytes d) (extension_count d).
Definition Extensions_next : M Extensions UtpCodecError (option Extension) :=
  it ← get;
  if remaining_count it =? 0 then mret None
  else
    next ← lift (index (remaining it) 0);
    length ← lift (index (remaining it) 1);
    bytes ← lift (slice (remaining it) 2 (2 + length));
    rest ← lift (slice (remaining it) (2 + length) (len (remaining it)));
    put (mkExtensions next rest (remaining_count it - 1));;
    mret (Some (mkExtension (next_kind it) bytes)).
(** Drain the iterator, as [for extension in packet.extensions()] does. *)
Fixpoint collect_extensions (fuel : nat) : M Extensions UtpCodecError (list Extension) :=
  match fuel with
  | O => lift NoFuel
  | S f =>
    e ← Extensions_next;
    match e with
    | None => mret []
    | Some e => rest ← collect_extensions f; mret (e :: rest)
    end
  end.
Definition extension_list (d : DecodedPacket) : outcome UtpCodecError (list Extension) :=
  snd (collect_extensions (S (Z.to_nat (extension_count d))) (extensions d)).

(** Bit [offset - 2] of the mask, least significant bit of each byte first. *)
Definition acknowledges_offset (mask : list Z) (offset : Z) : bool :=
  match checked_sub offset 2 with
  | None => false
  | Some bit_index =>
    match nth_get mask (bit_index / 8) with
    | Some byte => negb (Z.land byte (Z.shiftl 1 (bit_index mod 8)) =? 0)
    | None => false
    end
  end.

(** ** Checks *)
Definition validate_sack (length : Z) : outcome UtpCodecError unit :=
  if negb ((4 <=? length) && (length <=? MAX_SACK_BYTES)) || negb (is_multiple_of length 4)
  then Err (InvalidSackLength length) else Ok tt.
Definition validate_received_sack (length : Z) : outcome UtpCodecError unit :=
  if negb ((1 <=? length) && (length <=? MAX_SACK_BYTES)) then Err (InvalidSackLength length) else Ok tt.
Definition payload_valid (t : PacketType) (length : Z) : bool :=
  match t with
  | PT_Data => 0 <? length
  | PT_Fin => true
  | PT_State | PT_Reset | PT_Syn => length =? 0
  end.
Definition validate_payload (t : PacketType) (length : Z) : outcome UtpCodecError unit :=
  if negb (payload_valid t length) then Err (InvalidPayloadLength t length) else Ok tt.

(** ** Decoding *)
Definition read_u16 (bytes : list Z) (offset : Z) : outcome UtpCodecError Z := read_be bytes offset 2.
Definition read_u32 (bytes : list Z) (offset : Z) : outcome UtpCodecError Z := read_be bytes offset 4.

Definition read_header (t : PacketType) (bytes : list Z) : outcome UtpCodecError UtpHeader :=
  connection ← read_u16 bytes 2;
  stamp ← read_u32 bytes 4;
  difference ← read_u32 bytes 8;
  window ← read_u32 bytes 12;
  sequence ← read_u16 bytes 16;
  acknowledgement ← read_u16 bytes 18;
  mret (mkHeader t connection stamp difference window sequence acknowledgement).

(** [selective_ack.replace(..)] for a SACK; other kinds are skipped. *)
Definition note_extension (k length : Z) (bytes : list Z) (sack : option (list Z))
    : outcome UtpCodecError (option (list Z)) :=
  if k =? SACK_EXTENSION then
    validate_received_sack length ≫= fun _ =>
    match sack with Some _ => Err DuplicateSack | None => Ok (Some bytes) end
  else Ok sack.

(** [while next_extension != 0]: the offset after the chain, the number of
    extensions and the SACK. *)
Fixpoint extension_loop (fuel : nat) (bytes : list Z) (next_extension offset count : Z)
    (sack : option (list Z)) : outcome UtpCodecError (Z * Z * option (list Z)) :=
  if next_extension =? 0 then Ok (offset, count, sack)
  else
    match fuel with
    | O => NoFuel
    | S f =>
      let count := count + 1 in
      if MAX_UTP_EXTENSION_COUNT <? count
      then Err (TooManyExtensions count MAX_UTP_EXTENSION_COUNT)
      else if saturating_sub (len bytes) offset <? 2 then Err (TruncatedExtensionHeader (count - 1))
      else
        next ← index bytes offset;
        length ← index bytes (offset + 1);
        let offset := offset + 2 in
        let available := saturating_sub (len bytes) offset in
        if available <? length then Err (TruncatedExtensionPayload next_extension length available)
        else
          extension_payload ← slice bytes offset (offset + length);
          sack ← note_extension next_extension length extension_payload sack;
          extension_loop f bytes next (offset + length) count sack
    end.

(** One more iteration than there may be extensions. *)
Definition extension_fuel : nat := 9.

Definition decode_packet (bytes : list Z) : outcome UtpCodecError DecodedPacket :=
  if MAX_UTP_PACKET_SIZE <? len bytes then Err (PacketTooLarge (len bytes) MAX_UTP_PACKET_SIZE)
  else if len bytes <? UTP_HEADER_SIZE then Err (PacketTooShort (len bytes) UTP_HEADER_SIZE)
  else
    type_version ← index bytes 0;
    let version := Z.land type_version 15 in
    if negb (version =? UTP_VERSION) then Err (UnsupportedVersion version)
    else
      let packet_type_wire := Z.shiftr type_version 4 in
      t ← ok_or (from_wire packet_type_wire) (UnsupportedPacketType packet_type_wire);
      first ← index bytes 1;
      h ← read_header t bytes;
      '(offset, count, sack) ← extension_loop extension_fuel bytes first UTP_HEADER_SIZE 0 None;
      rest ← slice bytes offset (len bytes);
      validate_payload t (len rest) ≫= fun _ =>
      chain ← slice bytes UTP_HEADER_SIZE offset;
      mret (mkDecoded h first chain (count mod 2 ^ 8) sack rest).

(** ** Encoding *)
Definition first_kind (l : list Extension) : Z := match l with [] => 0 | e :: _ => kind e end.

Fixpoint validate_each (l : list Extension) (saw_sack : bool) : outcome UtpCodecError unit :=
  match l with
  | [] => Ok tt
  | e :: r =>
    if kind e =? 0 then Err InvalidExtensionKind
    else if umax 8 <? len (ext_bytes e) then Err (ExtensionPayloadTooLong (kind e) (len (ext_bytes e)) (umax 8))
    else if kind e =? SACK_EXTENSION then
      validate_sack (len (ext_bytes e)) ≫= fun _ =>
      if saw_sack then Err DuplicateSack else validate_each r true
    else validate_each r saw_sack
  end.
Definition validate_extensions_for_encode (l : list Extension) : outcome UtpCodecError unit :=
  if MAX_UTP_EXTENSION_COUNT <? len l then Err (TooManyExtensions (len l) MAX_UTP_EXTENSION_COUNT)
  else validate_each l false.

(** [.map(|extension| 2 + extension.bytes.len()).sum()] *)
Fixpoint extension_size (l : list Extension) (sum : Z) : outcome UtpCodecError Z :=
  match l with
  | [] => Ok sum
  | e :: r =>
    sum ← expect (checked_add USIZE sum (2 + len (ext_bytes e)));
    extension_size r sum
  end.

Fixpoint encode_extensions (l : list Extension) : list Z :=
  match l with
  | [] => []
  | e :: r => first_kind r :: len (ext_bytes e) mod 2 ^ 8 :: ext_bytes e ++ encode_extensions r
  end.

Definition encode_header (h : UtpHeader) (first : Z) : list Z :=
  [Z.lor (Z.shiftl (packet_type_code (packet_type h)) 4) UTP_VERSION; first]
  ++ to_be 2 (connection_id h) ++ to_be 4 (timestamp h) ++ to_be 4 (timestamp_difference_micros h)
  ++ to_be 4 (window_size h) ++ to_be 2 (sequence_number h) ++ to_be 2 (acknowledgement_number h).

Definition encode_packet (p : PacketToEncode) : outcome UtpCodecError (list Z) :=
  validate_extensions_for_encode (p_extensions p) ≫= fun _ =>
  validate_payload (packet_type (p_header p)) (len (p_payload p)) ≫= fun _ =>
  extension_size ← extension_size (p_extensions p) 0;
  length ← ok_or (size ← checked_add USIZE UTP_HEADER_SIZE extension_size;
                  checked_add USIZE size (len (p_payload p)))
                 (PacketTooLarge (umax USIZE) MAX_UTP_PACKET_SIZE);
  if MAX_UTP_PACKET_SIZE <? length then Err (PacketTooLarge length MAX_UTP_PACKET_SIZE)
  else
    mret (encode_header (p_header p) (first_kind (p_extensions p))
          ++ encode_extensions (p_extensions p) ++ p_payload p).

(** ** Specification *)
Definition header_ok (h : UtpHeader) : Prop :=
  is_u 16 (connection_id h) /\ is_u 32 (timestamp h) /\ is_u 32 (timestamp_difference_micros h)
  /\ is_u 32 (window_size h) /\ is_u 16 (sequence_number h) /\ is_u 16 (acknowledgement_number h).

(** A chain the decoder admits: no kind is the terminator, payloads fit
    their length byte, and at most one SACK, of 1 to 252 bytes. *)
Fixpoint chain_ok (sack_seen : bool) (l : list Extension) : Prop :=
  match l with
  | [] => True
  | e :: r =>
    (0 < kind e < 256) /\ len (ext_bytes e) <= 255
    /\ (if kind e =? SACK_EXTENSION
        then sack_seen = false /\ (1 <= len (ext_bytes e) <= MAX_SACK_BYTES) /\ chain_ok true r
        else chain_ok sack_seen r)
  end.
Fixpoint sack_of (l : list Extension) : option (list Z) :=
  match l with
  | [] => None
  | e :: r => if kind e =? SACK_EXTENSION then Some (ext_bytes e) else sack_of r
  end.

(** The wire form of a packet. *)
Definition wire (h : UtpHeader) (exts : list Extension) (rest : list Z) : list Z :=
  encode_header h (first_kind exts) ++ encode_extensions exts ++ rest.
Definition packet_ok (h : UtpHeader) (exts : list Extension) (rest : list Z) : Prop :=
  header_ok h /\ chain_ok false exts /\ len exts <= MAX_UTP_EXTENSION_COUNT
  /\ payload_valid (packet_type h) (len rest) = true /\ len (wire h exts rest) <= MAX_UTP_PACKET_SIZE.
(** What the decoder reports for it. *)
Definition decoded (h : UtpHeader) (exts : list Extension) (rest : list Z) : DecodedPacket :=
  mkDecoded h (first_kind exts) (encode_extensions exts) (len exts) (sack_of exts) rest.

(** * Lemmas *)
Lemma packet_type_code_range t : 0 <= packet_type_code t <= 4.
Proof. destruct t; cbn; lia. Qed.
Lemma from_wire_code t : from_wire (packet_type_code t) = Some t.
Proof. by destruct t. Qed.
Lemma from_wire_inv v t : from_wire v = Some t -> v = packet_type_code t.
Proof.
  unfold from_wire. intros H.
  repeat match type of H with context [v =? ?k] => destruct (Z.eqb_spec v k); [by simplify_eq|] end. done.
Qed.
(** The first byte: the type in the high nibble, the version in the low. *)
Lemma type_version_split b t : is_byte b ->
  Z.land b 15 = UTP_VERSION -> Z.shiftr b 4 = packet_type_code t ->
  b = Z.lor (Z.shiftl (packet_type_code t) 4) UTP_VERSION.
Proof.
  intros Hb Hl Hr. apply Z.bits_inj'. intros n Hn. rewrite Z.lor_spec, Z.shiftl_spec by done.
  destruct (Z.ltb_spec n 4).
  - rewrite Z.testbit_neg_r with (n := n - 4), orb_false_l by lia. rewrite <- Hl, Z.land_spec.
    change 15 with (Z.ones 4). by rewrite Z.ones_spec_low, andb_true_r by lia.
  - rewrite <- Hr, Z.shiftr_spec by lia. replace (n - 4 + 4) with n by lia.
    change UTP_VERSION with (Z.ones 1). by rewrite Z.ones_spec_high, orb_false_r by lia.
Qed.
Lemma type_version_fields t :
  let b := Z.lor (Z.shiftl (packet_type_code t) 4) UTP_VERSION in
  Z.land b 15 = UTP_VERSION /\ Z.shiftr b 4 = packet_type_code t.
Proof. by destruct t. Qed.

Lemma encode_extensions_len l : len (encode_extensions l) = foldr (fun e n => 2 + len (ext_bytes e) + n) 0 l.
Proof. induction l as [|e r IH]; [done|]. cbn [encode_extensions foldr]. len_lia. Qed.
Lemma encode_extensions_cons e r : len (ext_bytes e) <= 255 ->
  encode_extensions (e :: r) = first_kind r :: len (ext_bytes e) :: ext_bytes e ++ encode_extensions r.
Proof. intros. pose proof (len_nonneg (ext_bytes e)). cbn [encode_extensions]. by rewrite Z.mod_small by lia. Qed.
Lemma note_sack e r sack : (if kind e =? SACK_EXTENSION
    then bool_decide (sack <> None) = false /\ (1 <= len (ext_bytes e) <= MAX_SACK_BYTES) /\ chain_ok true r
    else chain_ok (bool_decide (sack <> None)) r) ->
  exists sack', note_extension (kind e) (len (ext_bytes e)) (ext_bytes e) sack = Ok sack'
    /\ chain_ok (bool_decide (sack' <> None)) r
    /\ (match sack with Some x => Some x | None => sack_of (e :: r) end)
       = match sack' with Some x => Some x | None => sack_of r end.
Proof.
  unfold note_extension. cbn [sack_of]. destruct (Z.eqb_spec (kind e) SACK_EXTENSION) as [Hk|Hk].
  - intros (Hs & Hl & Hr). destruct sack; [done|]. unfold validate_received_sack.
    destruct (Z.leb_spec 1 (len (ext_bytes e))), (Z.leb_spec (len (ext_bytes e)) MAX_SACK_BYTES); try lia.
    exists (Some (ext_bytes e)). done.
  - intros Hr. exists sack. done.
Qed.

(** The decoder's loop over a chain in wire form. *)
Lemma extension_loop_ok l : forall pre rest count sack fuel,
  chain_ok (bool_decide (sack <> None)) l -> 0 <= count -> count + len l <= MAX_UTP_EXTENSION_COUNT ->
  (length l <= fuel)%nat ->
  extension_loop fuel (pre ++ encode_extensions l ++ rest) (first_kind l) (len pre) count sack
  = Ok (len pre + len (encode_extensions l), count + len l,
        match sack with Some x => Some x | None => sack_of l end).
Proof.
  induction l as [|e r IH]; intros pre rest count sack fuel Hc H0 Hcount Hf.
  { destruct fuel; cbn [extension_loop first_kind Z.eqb encode_extensions sack_of];
      change (len (@nil Z)) with 0; change (len (@nil Extension)) with 0; rewrite !Z.add_0_r; by destruct sack. }
  destruct Hc as (Hk & Hl & Hr). destruct fuel as [|f]; [cbn in Hf; lia|].
  rewrite len_cons in Hcount. pose proof (len_nonneg r). pose proof (len_nonneg pre). pose proof (len_nonneg rest).
  pose proof (len_nonneg (ext_bytes e)). pose proof (len_nonneg (encode_extensions r)).
  cbn [extension_loop first_kind]. rewrite encode_extensions_cons by done.
  set (bytes := pre ++ _).
  assert (len bytes = len pre + 2 + len (ext_bytes e) + len (encode_extensions r) + len rest) as Hlen
    by (subst bytes; len_lia).
  destruct (Z.eqb_spec (kind e) 0); [lia|]. rewrite (proj2 (Z.ltb_ge _ _)) by lia.
  unfold saturating_sub. rewrite (proj2 (Z.ltb_ge _ _)) by lia.
  assert (index (E:=UtpCodecError) bytes (len pre) = Ok (first_kind r)) as ->.
  { subst bytes. unfold index. cbn [app]. by rewrite nth_get_app_len. }
  assert (index (E:=UtpCodecError) bytes (len pre + 1) = Ok (len (ext_bytes e))) as ->.
  { subst bytes. unfold index. cbn [app]. rewrite <- (len_snoc pre (first_kind r)).
    rewrite (cons_middle (first_kind r) pre). by rewrite app_assoc, nth_get_app_len. }
  unfold mbind, outcome_bind. rewrite (proj2 (Z.ltb_ge _ _)) by lia.
  rewrite slice_ok by lia.
  assert (bytes = (pre ++ [first_kind r; len (ext_bytes e)]) ++ ext_bytes e ++ encode_extensions r ++ rest) as Hb.
  { subst bytes. cbn [app]. by rewrite <- !app_assoc. }
  assert (sub_list bytes (len pre + 2) (len pre + 2 + len (ext_bytes e)) = ext_bytes e) as ->.
  { rewrite Hb. apply sub_list_middle; rewrite len_app, !len_cons; change (len (@nil Z)) with 0; lia. }
  destruct (note_sack e r sack Hr) as (sack' & -> & Hr' & ->).
  assert (bytes = (pre ++ [first_kind r; len (ext_bytes e)] ++ ext_bytes e) ++ encode_extensions r ++ rest) as Hb2.
  { rewrite Hb. by rewrite <- !app_assoc. }
  replace (len pre + 2 + len (ext_bytes e)) with (len (pre ++ [first_kind r; len (ext_bytes e)] ++ ext_bytes e)) by len_lia.
  rewrite Hb2, (IH _ rest (count + 1) sack') by (try done; cbn in Hf; lia).
  apply (f_equal Ok), (f_equal2 pair); [apply (f_equal2 pair); len_lia|done].
Qed.

Lemma slice_returns {A} (l : list A) a b : 0 <= a <= b -> b <= len l ->
  @slice UtpCodecError A l a b = Ok (sub_list l a b).
Proof. apply slice_ok. Qed.
Lemma index_byte bytes i : is_bytes bytes -> 0 <= i < len bytes ->
  exists b, index (E:=UtpCodecError) bytes i = Ok b /\ is_byte b /\ sub_list bytes i (i + 1) = [b].
Proof.
  intros Hb Hi. destruct (proj2 (nth_get_Some bytes i) Hi) as [b E]. exists b. unfold index. rewrite E.
  split_and!; [done|by eapply is_bytes_nth|by apply sub_list_one].
Qed.
(** What a step of the loop that went on has read. *)
Lemma note_inv k length bytes sack sack' : length = len bytes ->
  note_extension k length bytes sack = Ok sack' ->
  (if k =? SACK_EXTENSION then bool_decide (sack <> None) = false /\ (1 <= len bytes <= MAX_SACK_BYTES) /\ sack' = Some bytes
   else sack' = sack).
Proof.
  intros ->. unfold note_extension, validate_received_sack. destruct (Z.eqb_spec k SACK_EXTENSION); [|by intros; simplify_eq].
  destruct (Z.leb_spec 1 (len bytes)), (Z.leb_spec (len bytes) MAX_SACK_BYTES); try done.
  destruct sack; [done|]. cbn. intros. simplify_eq. done.
Qed.
Lemma note_returns k length bytes sack : returns (note_extension k length bytes sack).
Proof. unfold note_extension, validate_received_sack. repeat returns_step. Qed.

Lemma extension_loop_inv fuel : forall bytes next offset count sack offset' count' sack',
  is_bytes bytes -> is_byte next -> 0 <= offset <= len bytes ->
  extension_loop fuel bytes next offset count sack = Ok (offset', count', sack') ->
  exists l, first_kind l = next /\ chain_ok (bool_decide (sack <> None)) l
    /\ offset <= offset' <= len bytes /\ sub_list bytes offset offset' = encode_extensions l
    /\ count' = count + len l /\ (l = [] \/ count' <= MAX_UTP_EXTENSION_COUNT)
    /\ sack' = match sack with Some x => Some x | None => sack_of l end.
Proof.
  induction fuel as [|f IH]; intros bytes next offset count sack offset' count' sack' Hb Hn Ho; cbn [extension_loop];
    (destruct (Z.eqb_spec next 0) as [->|Hne];
      [intros E; injection E as <- <- <-; exists []; change (len (@nil Extension)) with 0; rewrite sub_list_empty;
       split_and!; try done; try lia; [by left|by destruct sack]|]);
    [done|].
  destruct (Z.ltb_spec MAX_UTP_EXTENSION_COUNT (count + 1)) as [|Hc]; [done|]. unfold saturating_sub.
  destruct (Z.ltb_spec (Z.max 0 (len bytes - offset)) 2) as [|H2]; [done|].
  destruct (index_byte bytes offset Hb ltac:(lia)) as (next' & -> & Hn' & S1).
  destruct (index_byte bytes (offset + 1) Hb ltac:(lia)) as (length & -> & Hl & S2).
  unfold mbind, outcome_bind. destruct (Z.ltb_spec (Z.max 0 (len bytes - (offset + 2))) length) as [|Ha]; [done|].
  unfold is_byte in Hl. rewrite slice_returns by lia.
  destruct (note_extension next length _ sack) as [sack1|?| |] eqn:En; try done.
  assert (len (sub_list bytes (offset + 2) (offset + 2 + length)) = length) as Hlen by (rewrite len_sub_list; lia).
  apply note_inv in En; [|done]. set (body := sub_list bytes (offset + 2) (offset + 2 + length)) in *.
  intros E. apply IH in E as (l & F & C & O & W & Hcount & Hmax & Hs); [|done..|lia].
  exists (mkExtension next body :: l). split_and!; [done|..].
  - cbn [chain_ok kind ext_bytes]. unfold is_byte in Hn. split; [lia|split; [lia|]].
    destruct (next =? SACK_EXTENSION); [|by subst sack1]. destruct En as (H1 & H3 & ->). done.
  - lia.
  - lia.
  - rewrite (encode_extensions_cons (mkExtension next body) l) by (cbn [ext_bytes]; lia). cbn [ext_bytes]. rewrite Hlen, F, <- W.
    rewrite (sub_list_join bytes offset (offset + 1)) by lia. rewrite S1. cbn [app]. f_equal.
    rewrite (sub_list_join bytes (offset + 1) (offset + 1 + 1)) by lia. rewrite S2. cbn [app]. f_equal.
    rewrite (sub_list_join bytes (offset + 1 + 1) (offset + 2 + length)) by lia.
    unfold body. by replace (offset + 1 + 1) with (offset + 2) by lia.
  - rewrite Hcount, len_cons. lia.
  - right. destruct Hmax as [->|]; [|done]. rewrite Hcount. change (len (@nil Extension)) with 0. lia.
  - rewrite Hs. cbn [sack_of kind ext_bytes]. destruct (next =? SACK_EXTENSION); [|by subst sack1].
    destruct En as (H1 & H3 & ->). destruct sack; [|done]. done.
Qed.
Lemma extension_loop_returns fuel : forall bytes next offset count sack,
  is_bytes bytes -> 0 <= offset <= len bytes ->
  0 <= count <= MAX_UTP_EXTENSION_COUNT -> MAX_UTP_EXTENSION_COUNT < Z.of_nat fuel + count ->
  returns (extension_loop fuel bytes next offset count sack).
Proof.
  induction fuel as [|f IH]; intros bytes next offset count sack Hb Ho H0 Hf; cbn [extension_loop];
    (destruct (Z.eqb_spec next 0) as [->|Hne]; [done|]); [lia|].
  destruct (Z.ltb_spec MAX_UTP_EXTENSION_COUNT (count + 1)) as [|Hc]; [done|]. unfold saturating_sub.
  destruct (Z.ltb_spec (Z.max 0 (len bytes - offset)) 2) as [|H2]; [done|].
  destruct (index_byte bytes offset Hb ltac:(lia)) as (next' & -> & Hn' & _).
  destruct (index_byte bytes (offset + 1) Hb ltac:(lia)) as (length & -> & Hl & _).
  unfold mbind, outcome_bind. destruct (Z.ltb_spec (Z.max 0 (len bytes - (offset + 2))) length) as [|Ha]; [done|].
  unfold is_byte in Hl. rewrite slice_returns by lia.
  pose proof (note_returns next length (sub_list bytes (offset + 2) (offset + 2 + length)) sack) as Hr.
  destruct (note_extension next length _ sack); try done. apply IH; [done|lia..].
Qed.

(** ** The header *)
Lemma len_encode_header h f : len (encode_header h f) = UTP_HEADER_SIZE.
Proof. unfold encode_header. by rewrite !len_app, !len_to_be. Qed.
Lemma read_header_ok h f tail : header_ok h -> read_header (packet_type h) (encode_header h f ++ tail) = Ok h.
Proof.
  intros (H1 & H2 & H3 & H4 & H5 & H6). unfold read_header, read_u16, read_u32, encode_header.
  rewrite <- !app_assoc. set (b := [_; f]).
  assert (len b = 2) as Hb by done. unfold mbind, outcome_bind.
  rewrite (read_be_at b _ _ 2 2 2) by done.
  rewrite (app_assoc b), (read_be_at (b ++ _) _ _ 4 4 4) by (rewrite ?len_app, ?len_to_be, ?Hb; done).
  rewrite (app_assoc (b ++ _)), (read_be_at ((b ++ _) ++ _) _ _ 8 4 4) by (rewrite ?len_app, ?len_to_be, ?Hb; done).
  rewrite (app_assoc ((b ++ _) ++ _)), (read_be_at (((b ++ _) ++ _) ++ _) _ _ 12 4 4) by (rewrite ?len_app, ?len_to_be, ?Hb; done).
  rewrite (app_assoc (((b ++ _) ++ _) ++ _)), (read_be_at ((((b ++ _) ++ _) ++ _) ++ _) _ _ 16 2 2) by (rewrite ?len_app, ?len_to_be, ?Hb; done).
  rewrite (app_assoc ((((b ++ _) ++ _) ++ _) ++ _)), (read_be_at (((((b ++ _) ++ _) ++ _) ++ _) ++ _) _ _ 18 2 2) by (rewrite ?len_app, ?len_to_be, ?Hb; done).
  by destruct h.
Qed.
Lemma read_header_inv t bytes h : is_bytes bytes -> read_header t bytes = Ok h ->
  packet_type h = t /\ header_ok h /\
  sub_list bytes 2 20 = to_be 2 (connection_id h) ++ to_be 4 (timestamp h) ++ to_be 4 (timestamp_difference_micros h)
    ++ to_be 4 (window_size h) ++ to_be 2 (sequence_number h) ++ to_be 2 (acknowledgement_number h).
Proof.
  intros Hb. unfold read_header, read_u16, read_u32, mbind, outcome_bind.
  destruct (read_be bytes 2 2) as [x1|?| |] eqn:E1; try done. destruct (read_be bytes 4 4) as [x2|?| |] eqn:E2; try done.
  destruct (read_be bytes 8 4) as [x3|?| |] eqn:E3; try done. destruct (read_be bytes 12 4) as [x4|?| |] eqn:E4; try done.
  destruct (read_be bytes 16 2) as [x5|?| |] eqn:E5; try done. destruct (read_be bytes 18 2) as [x6|?| |] eqn:E6; try done.
  unfold mret, outcome_ret. intros E. injection E as <-. cbn [packet_type connection_id timestamp timestamp_difference_micros window_size sequence_number acknowledgement_number].
  apply read_be_inv in E1 as (_ & _ & _ & U1 & F1); [|done]. apply read_be_inv in E2 as (_ & _ & _ & U2 & F2); [|done].
  apply read_be_inv in E3 as (_ & _ & _ & U3 & F3); [|done]. apply read_be_inv in E4 as (_ & _ & _ & U4 & F4); [|done].
  apply read_be_inv in E5 as (_ & _ & _ & U5 & F5); [|done]. apply read_be_inv in E6 as (_ & _ & _ & U6 & F6); [|done].
  change (Z.to_nat 2) with 2%nat in *. change (Z.to_nat 4) with 4%nat in *. split; [done|split; [done|]].
  rewrite F1, F2, F3, F4, F5, F6. cbn [Z.add Pos.add Pos.succ]. by rewrite <- !sub_list_join by lia.
Qed.
Lemma read_header_returns t bytes : 20 <= len bytes -> returns (read_header t bytes).
Proof.
  intros. unfold read_header, read_u16, read_u32.
  repeat match goal with |- context [read_be bytes ?o ?w] =>
    let x := fresh in destruct (read_be_returns (Er:=UtpCodecError) bytes o w) as [x ->]; [lia..|] end. done.
Qed.

(** ** Whole packets *)
Lemma decode_wire h exts rest : packet_ok h exts rest ->
  decode_packet (wire h exts rest) = Ok (decoded h exts rest).
Proof.
  intros (Hh & Hc & Hcount & Hp & Hmax). unfold decode_packet.
  pose proof (len_nonneg exts). pose proof (len_nonneg rest). pose proof (len_nonneg (encode_extensions exts)).
  assert (len (wire h exts rest) = 20 + len (encode_extensions exts) + len rest) as Hlen
    by (unfold wire; rewrite !len_app, len_encode_header; unfold UTP_HEADER_SIZE; lia).
  rewrite (proj2 (Z.ltb_ge _ _)) by done. rewrite (proj2 (Z.ltb_ge _ UTP_HEADER_SIZE)) by (unfold UTP_HEADER_SIZE; lia).
  assert (index (E:=UtpCodecError) (wire h exts rest) 0
          = Ok (Z.lor (Z.shiftl (packet_type_code (packet_type h)) 4) UTP_VERSION)) as -> by done.
  assert (index (E:=UtpCodecError) (wire h exts rest) 1 = Ok (first_kind exts)) as -> by done.
  destruct (type_version_fields (packet_type h)) as [Hv Ht]. unfold mbind, outcome_bind.
  rewrite Hv, Ht, from_wire_code. cbn [negb Z.eqb ok_or]. rewrite Z.eqb_refl. cbn [negb].
  assert (read_header (packet_type h) (wire h exts rest) = Ok h) as -> by (by apply read_header_ok).
  assert (extension_loop extension_fuel (wire h exts rest) (first_kind exts) UTP_HEADER_SIZE 0 None
          = Ok (20 + len (encode_extensions exts), len exts, sack_of exts)) as ->.
  { unfold wire. rewrite <- (len_encode_header h (first_kind exts)).
    rewrite (extension_loop_ok exts _ rest 0 None) by
      (try done; unfold MAX_UTP_EXTENSION_COUNT, extension_fuel, len in *; lia).
    by rewrite len_encode_header. }
  rewrite !slice_returns by (unfold UTP_HEADER_SIZE; lia).
  assert (sub_list (wire h exts rest) (20 + len (encode_extensions exts)) (len (wire h exts rest)) = rest) as ->.
  { unfold wire. rewrite app_assoc, <- (app_nil_r rest) at 1.
    apply sub_list_middle; rewrite ?app_nil_r, !len_app, len_encode_header; unfold UTP_HEADER_SIZE; lia. }
  assert (sub_list (wire h exts rest) UTP_HEADER_SIZE (20 + len (encode_extensions exts)) = encode_extensions exts) as ->.
  { unfold wire. apply sub_list_middle; rewrite len_encode_header; unfold UTP_HEADER_SIZE; lia. }
  unfold validate_payload. rewrite Hp. cbn [negb]. unfold decoded, mret, outcome_ret.
  by rewrite Z.mod_small by (unfold MAX_UTP_EXTENSION_COUNT in *; lia).
Qed.

Lemma decode_inv bytes d : is_bytes bytes -> decode_packet bytes = Ok d ->
  exists exts, bytes = wire (header d) exts (payload d) /\ packet_ok (header d) exts (payload d)
    /\ d = decoded (header d) exts (payload d).
Proof.
  intros Hb. unfold decode_packet, UTP_HEADER_SIZE.
  destruct (Z.ltb_spec MAX_UTP_PACKET_SIZE (len bytes)) as [|Hmax]; [done|].
  destruct (Z.ltb_spec (len bytes) 20) as [|H20]; [done|].
  destruct (index_byte bytes 0 Hb ltac:(lia)) as (b0 & -> & B0 & S0).
  destruct (index_byte bytes 1 Hb ltac:(lia)) as (b1 & -> & B1 & S1). unfold mbind, outcome_bind.
  destruct (Z.eqb_spec (Z.land b0 15) UTP_VERSION) as [Hv|]; [|done]. cbn [negb].
  destruct (from_wire (Z.shiftr b0 4)) as [t|] eqn:Ht; [|done]. cbn [ok_or]. apply from_wire_inv in Ht.
  destruct (read_header t bytes) as [h|?| |] eqn:Eh; try done. apply read_header_inv in Eh as (T & Hh & Sh); [|done].
  destruct (extension_loop _ _ _ _ _ _) as [[[o c] s]|?| |] eqn:El; try done.
  apply extension_loop_inv in El as (exts & F & C & O & W & Hc & Hm & Hs); [|done|done|lia].
  rewrite slice_returns by lia. unfold validate_payload.
  destruct (payload_valid t _) eqn:Hp; [|done]. cbn [negb]. rewrite slice_returns by lia.
  unfold mret, outcome_ret. intros E. injection E as <-. cbn [header payload]. exists exts.
  assert (bytes = wire h exts (sub_list bytes o (len bytes))) as Hw.
  { unfold wire, encode_header. rewrite F, <- W, <- Sh, T, <- (type_version_split b0 t) by done.
    change [b0; b1] with ([b0] ++ [b1]). rewrite <- S0, <- S1. change (0 + 1) with 1. change (1 + 1) with 2.
    rewrite <- (sub_list_join bytes 0 1 2), <- (sub_list_join bytes 0 2 20) by lia.
    rewrite <- (sub_list_join bytes 20 o), <- (sub_list_join bytes 0 20) by lia. by rewrite sub_list_all. }
  assert (len exts <= MAX_UTP_EXTENSION_COUNT) as Hn.
  { destruct Hm as [->|]; [done|lia]. }
  split_and!; [done| |].
  - split_and!; [done|done|done|by rewrite T|by rewrite <- Hw].
  - unfold decoded. rewrite F, <- W, Hc. pose proof (len_nonneg exts).
    rewrite Z.mod_small by (unfold MAX_UTP_EXTENSION_COUNT in *; lia). by subst s.
Qed.

Lemma next_ok k next bytes rest n : n <> 0 ->
  Extensions_next (mkExtensions k (next :: len bytes :: bytes ++ rest) n)
  = (mkExtensions next rest (n - 1), Ok (Some (mkExtension k bytes))).
Proof.
  intros Hn. set (l := next :: len bytes :: bytes ++ rest). pose proof (len_nonneg bytes). pose proof (len_nonneg rest).
  assert (slice (E:=UtpCodecError) l 2 (2 + len bytes) = Ok bytes) as S1.
  { rewrite slice_returns by (subst l; len_lia). f_equal.
    apply (sub_list_middle [next; len bytes] bytes rest); done. }
  assert (slice (E:=UtpCodecError) l (2 + len bytes) (len l) = Ok rest) as S2.
  { rewrite slice_returns by (subst l; len_lia). f_equal. rewrite <- skip_sub_list by (subst l; len_lia).
    apply (skip_app (next :: len bytes :: bytes)). rewrite !len_cons. lia. }
  unfold Extensions_next, mbind, M_bind, get, lift. cbn [remaining_count remaining next_kind].
  destruct (Z.eqb_spec n 0); [done|].
  change (index (E:=UtpCodecError) l 0) with (@Ok UtpCodecError _ next).
  change (index (E:=UtpCodecError) l 1) with (@Ok UtpCodecError _ (len bytes)).
  cbv beta iota. rewrite S1. cbv beta iota. by rewrite S2.
Qed.
Lemma collect_ok l : forall fuel seen, chain_ok seen l -> (length l < fuel)%nat ->
  snd (collect_extensions fuel (mkExtensions (first_kind l) (encode_extensions l) (len l))) = Ok l.
Proof.
  induction l as [|e r IH]; intros fuel seen Hc Hf; (destruct fuel as [|f]; [cbn in Hf; lia|]); [done|].
  assert (len (ext_bytes e) <= 255 /\ exists seen', chain_ok seen' r) as (Hl & seen' & Hr).
  { destruct Hc as (H1 & H2 & H3). split; [done|]. destruct (kind e =? SACK_EXTENSION); [|by exists seen].
    exists true. apply H3. }
  rewrite encode_extensions_cons, len_cons by done. cbn [collect_extensions first_kind]. unfold mbind, M_bind.
  pose proof (len_nonneg r). rewrite next_ok by lia. cbv beta iota.
  replace (1 + len r - 1) with (len r) by lia.
  specialize (IH f seen' Hr ltac:(cbn in Hf; lia)).
  destruct (collect_extensions f _) as [s [x|?| |]]; cbn in IH; try done. injection IH as ->. cbn. by destruct e.
Qed.
Lemma extension_list_ok h exts rest : chain_ok false exts -> extension_list (decoded h exts rest) = Ok exts.
Proof.
  intros Hc. unfold extension_list, extensions, decoded. cbn [first_extension extension_bytes extension_count].
  apply (collect_ok exts _ false); [done|]. unfold len. lia.
Qed.

Lemma decode_returns bytes : is_bytes bytes -> returns (decode_packet bytes).
Proof.
  intros Hb. unfold decode_packet, UTP_HEADER_SIZE.
  destruct (Z.ltb_spec MAX_UTP_PACKET_SIZE (len bytes)) as [|Hmax]; [done|].
  destruct (Z.ltb_spec (len bytes) 20) as [|H20]; [done|].
  destruct (index_byte bytes 0 Hb ltac:(lia)) as (b0 & -> & B0 & _).
  destruct (index_byte bytes 1 Hb ltac:(lia)) as (b1 & -> & B1 & _). unfold mbind, outcome_bind.
  destruct (negb _); [done|]. destruct (from_wire _) as [t|]; [|done]. cbn [ok_or].
  pose proof (read_header_returns t bytes H20). destruct (read_header t bytes) as [h|?| |]; try done.
  pose proof (extension_loop_returns extension_fuel bytes b1 20 0 None Hb ltac:(lia) ltac:(done) ltac:(done)).
  destruct (extension_loop _ _ _ _ _ _) as [[[o c] s]|?| |] eqn:El; try done.
  apply extension_loop_inv in El as (exts & F & C & O & W & Hc & Hm & Hs); [|done|done|lia].
  rewrite slice_returns by lia. unfold validate_payload. destruct (negb _); [done|]. by rewrite slice_returns by lia.
Qed.

(** ** Encoding *)
Definition packet_typed (p : PacketToEncode) : Prop :=
  header_ok (p_header p) /\ Forall (fun e => is_byte (kind e)) (p_extensions p).
Lemma validate_each_ok l : forall seen, Forall (fun e => is_byte (kind e)) l ->
  validate_each l seen = Ok tt -> chain_ok seen l.
Proof.
  induction l as [|e r IH]; intros seen Hl; [done|]. apply Forall_cons_1 in Hl as [He Hr].
  unfold is_byte in He. cbn [validate_each chain_ok].
  destruct (Z.eqb_spec (kind e) 0); [done|]. change (umax 8) with 255.
  destruct (Z.ltb_spec 255 (len (ext_bytes e))); [done|].
  destruct (kind e =? SACK_EXTENSION); [|split; [lia|split; [lia|by apply IH]]].
  unfold validate_sack. destruct (Z.leb_spec 4 (len (ext_bytes e))), (Z.leb_spec (len (ext_bytes e)) MAX_SACK_BYTES); try done.
  destruct (is_multiple_of _ 4); [|done]. unfold mbind, outcome_bind. cbn. destruct seen; [done|]. intros E.
  split; [lia|split; [lia|]]. split; [done|split; [lia|by apply IH]].
Qed.
Lemma extension_size_ok l : forall seen sum n, chain_ok seen l -> extension_size l sum = Ok n ->
  n = sum + len (encode_extensions l).
Proof.
  induction l as [|e r IH]; intros seen sum n Hc; cbn [extension_size].
  { intros E. injection E as <-. change (len (encode_extensions [])) with 0. lia. }
  destruct Hc as (H1 & H2 & H3). rewrite encode_extensions_cons by done. unfold mbind, outcome_bind.
  destruct (checked_add USIZE sum _) as [s|] eqn:Ea; [|done]. cbn [expect]. apply checked_add_Some in Ea as [-> _].
  assert (exists seen', chain_ok seen' r) as [seen' Hr] by (destruct (kind e =? SACK_EXTENSION); [exists true; apply H3|by exists seen]).
  intros E. apply (IH seen') in E as ->; [|done]. len_lia.
Qed.
Lemma encode_inv p bytes : packet_typed p -> encode_packet p = Ok bytes ->
  bytes = wire (p_header p) (p_extensions p) (p_payload p) /\ packet_ok (p_header p) (p_extensions p) (p_payload p).
Proof.
  intros [Hh Hk]. unfold encode_packet, validate_extensions_for_encode, validate_payload.
  destruct (Z.ltb_spec MAX_UTP_EXTENSION_COUNT (len (p_extensions p))) as [|Hn]; [done|].
  unfold mbind, outcome_bind. destruct (validate_each _ _) as [[]|?| |] eqn:Ev; try done.
  apply validate_each_ok in Ev as Hc; [|done].
  destruct (payload_valid _ _) eqn:Hp; [|done]. cbn [negb].
  destruct (extension_size _ _) as [n|?| |] eqn:Es; try done. apply (extension_size_ok _ false) in Es as ->; [|done].
  unfold option_bind. destruct (checked_add USIZE UTP_HEADER_SIZE _) as [s|] eqn:E1; [|done].
  apply checked_add_Some in E1 as [-> _]. destruct (checked_add USIZE _ (len (p_payload p))) as [n|] eqn:E2; [|done].
  apply checked_add_Some in E2 as [-> _]. cbn [ok_or].
  destruct (Z.ltb_spec MAX_UTP_PACKET_SIZE (UTP_HEADER_SIZE + (0 + len (encode_extensions (p_extensions p))) + len (p_payload p))) as [|Hmax]; [done|].
  unfold mret, outcome_ret. intros E. injection E as <-. split; [done|].
  split_and!; [done..|]. unfold wire. rewrite !len_app, len_encode_header. lia.
Qed.

(** ** Bits of a selective acknowledgement *)
(** Bit [i] of a mask of bytes. *)
Definition mask_bit (mask : list Z) (i : Z) : bool :=
  match nth_get mask (i / 8) with Some b => Z.testbit b (i mod 8) | None => false end.
Lemma acknowledges_mask mask o : 2 <= o -> acknowledges_offset mask o = mask_bit mask (o - 2).
Proof.
  intros Ho. unfold acknowledges_offset, mask_bit, checked_sub. rewrite (proj2 (Z.leb_le _ _)) by done.
  destruct (nth_get mask _) as [b|]; [|done].
  pose proof (Z.mod_pos_bound (o - 2) 8 ltac:(lia)). rewrite land_bit by lia. by rewrite negb_involutive.
Qed.
Lemma acknowledges_small mask o : o < 2 -> acknowledges_offset mask o = false.
Proof. intros Ho. unfold acknowledges_offset, checked_sub. by rewrite (proj2 (Z.leb_gt _ _)) by done. Qed.

(** * Properties *)

(** The packet decoder accepts exactly the well-formed packets.
    [decode_packet] returns [d] for a datagram exactly when the datagram is
    the wire form of [d]'s header, of the extensions that iterating over
    [d] gives and of [d]'s payload, these satisfy the protocol's bounds
    (chain ended, at most eight extensions, at most one SACK of 1 to 252
    bytes, payload admitted by the packet type), and [d] reports them. *)
Theorem decode_packet_exact bytes d : is_bytes bytes ->
  decode_packet bytes = Ok d <->
  exists exts, extension_list d = Ok exts /\ bytes = wire (header d) exts (payload d)
    /\ packet_ok (header d) exts (payload d) /\ d = decoded (header d) exts (payload d).
Proof.
  intros Hb. split.
  - intros E. destruct (decode_inv bytes d Hb E) as (exts & -> & Hok & ->). exists exts.
    split_and!; [|done..]. apply extension_list_ok. apply Hok.
  - intros (exts & _ & -> & Hok & ->). by apply decode_wire.
Qed.

(** No datagram makes the uTP decoder panic or run on: whatever bytes
    arrive, it returns a packet or a documented error, and the iteration
    over a decoded packet's extensions, which indexes without checks,
    completes. *)
Theorem decode_packet_total bytes : is_bytes bytes ->
  returns (decode_packet bytes)
  /\ forall d, decode_packet bytes = Ok d -> exists exts, extension_list d = Ok exts.
Proof.
  intros Hb. split; [by apply decode_returns|]. intros d E.
  destruct (decode_inv bytes d Hb E) as (exts & _ & Hok & ->). exists exts. apply extension_list_ok, Hok.
Qed.

(** What the uTP encoder sends, the decoder reads back: the header, the
    extensions in order, the selective acknowledgement among them and the
    payload. *)
Theorem encode_packet_decodes p bytes : packet_typed p -> encode_packet p = Ok bytes ->
  exists d, decode_packet bytes = Ok d /\ header d = p_header p /\ extension_list d = Ok (p_extensions p)
    /\ payload d = p_payload p /\ selective_ack d = sack_of (p_extensions p).
Proof.
  intros Ht E. apply encode_inv in E as [-> Hok]; [|done].
  exists (decoded (p_header p) (p_extensions p) (p_payload p)). split_and!; [by apply decode_wire|done| |done|done].
  apply extension_list_ok, Hok.
Qed.

(** ** Witnesses *)
Definition sample_packet : PacketToEncode :=
  mkPacket (mkHeader PT_Data 4660 305419896 7 65536 65535 12)
    [mkExtension 2 [9; 9]; mkExtension SACK_EXTENSION [5; 0; 0; 128]] [104; 105].
Definition sample_wire : list Z :=
  [1; 2; 18; 52; 18; 52; 86; 120; 0; 0; 0; 7; 0; 1; 0; 0; 255; 255; 0; 12; 1; 2; 9; 9; 0; 4; 5; 0; 0; 128; 104; 105].
Lemma sample_packet_typed : packet_typed sample_packet.
Proof. split; [by split_and!|]. apply (bool_decide_unpack _). vm_compute. exact I. Qed.
Lemma sample_bytes : is_bytes sample_wire.
Proof. apply (bool_decide_unpack _). vm_compute. exact I. Qed.
Lemma decode_packet_exact_witness :
  exists exts d, decode_packet sample_wire = Ok d /\ extension_list d = Ok exts /\ len exts = 2.
Proof.
  destruct (decode_packet sample_wire) as [d|?| |] eqn:E; [|by vm_compute in E..].
  destruct (proj1 (decode_packet_exact sample_wire d sample_bytes) E) as (exts & H & _).
  exists exts, d. split; [done|split; [done|]]. vm_compute in E. injection E as <-. vm_compute in H. injection H as <-. done.
Defined.
Lemma decode_packet_total_witness : returns (decode_packet sample_wire).
Proof. exact (proj1 (decode_packet_total sample_wire sample_bytes)). Defined.
Lemma encode_packet_decodes_witness :
  encode_packet sample_packet = Ok sample_wire
  /\ exists d, decode_packet sample_wire = Ok d /\ selective_ack d = Some [5; 0; 0; 128].
Proof.
  assert (encode_packet sample_packet = Ok sample_wire) as E by (vm_compute; done). split; [done|].
  destruct (encode_packet_decodes sample_packet sample_wire sample_packet_typed E) as (d & H1 & _ & _ & _ & H2). by exists d.
Defined.
