(* ===== verification/UtpReceive.v ===== *)
(** * UtpReceive: the receive window of [utp/receive.rs]

    Packets arrive in any order.  The next expected one is delivered,
    together with the buffered packets it makes contiguous; a packet ahead
    of it is buffered within a window of bytes and of sequence distance;
    everything else is answered and dropped.  [ReceiveState] is threaded
    through a state monad; the [BTreeMap] of buffered packets is a finite
    map, whose iteration order does not matter to the code. *)
From S2P Require Import Prelude Bytes UtpSequence UtpPacket.

Definition MAX_RECEIVE_BYTES : Z := 1024 * 1024.
Definition REORDER_POSITION_BYTES : Z := 1100.
Definition MAX_REORDER_PACKETS : Z := MAX_RECEIVE_BYTES / REORDER_POSITION_BYTES.
Definition MAX_REORDER_BYTES : Z := MAX_RECEIVE_BYTES.
Definition MAX_REORDER_DISTANCE : Z := MAX_REORDER_PACKETS + 1.
Definition GENERATED_SACK_BYTES : Z := div_ceil MAX_REORDER_PACKETS 8.

Record ReceivedPayload := mkReceived {
  rp_sequence_number : SequenceNumber;
  rp_bytes : list Z;
  rp_carried_by_fin : bool;
}.

Inductive ReceiveDisposition :=
| RD_Delivered
| RD_Buffered
| RD_Duplicate
| RD_ConflictingDuplicate
| RD_ReceiveWindowExceeded
| RD_TooFarAhead (distance : Z)
| RD_AmbiguousSequence
| RD_AfterFin
| RD_ConflictingFin.

Record SelectiveAckBits := mkSack { sack_bytes : list Z; sack_length : Z }.

Record ReceiveOutcome := mkOutcome {
  disposition : ReceiveDisposition;
  delivered : list ReceivedPayload;
  o_acknowledgement_number : SequenceNumber;
  o_selective_ack : option SelectiveAckBits;
  o_eof_reached : bool;
  fin_payload_compatibility : bool;
  o_advertised_window_bytes : Z;
}.

Inductive ReceiveError :=
| RE_Terminal
| RE_InvalidPacketType (t : PacketType)
| RE_InvalidPayloadLength (t : PacketType) (length : Z)
| RE_PayloadTooLarge (length maximum : Z)
| RE_ReorderPacketLimit (count maximum : Z)
| RE_ReceiveWindowLimit (bytes maximum : Z)
| RE_ConsumeBeyondDelivered (bytes available : Z).

Inductive StoredPacketType := SP_Data | SP_Fin.
#[export] Instance StoredPacketType_eq_dec : EqDecision StoredPacketType.
Proof. solve_decision. Defined.
Definition from_packet_type (t : PacketType) : option StoredPacketType :=
  match t with
  | PT_Data => Some SP_Data
  | PT_Fin => Some SP_Fin
  | PT_State | PT_Reset | PT_Syn => None
  end.
Definition carried_by_fin (t : StoredPacketType) : bool := bool_decide (t = SP_Fin).

Record StoredPacket := mkStored { stored_type : StoredPacketType; stored_payload : list Z }.
#[export] Instance StoredPacket_eq_dec : EqDecision StoredPacket.
Proof. solve_decision. Defined.

Record ReceiveState := mkReceive {
  acknowledgement_number : SequenceNumber;
  reorder : gmap Z StoredPacket;
  reorder_bytes : Z;
  delivered_unconsumed_bytes : Z;
  packet_high_water : Z;
  byte_high_water : Z;
  receive_window_drops : Z;
  fin_sequence : option SequenceNumber;
  eof_reached : bool;
  fin_payload_packets : Z;
  terminal : bool;
}.

Definition ReceiveState_new (ack : SequenceNumber) : ReceiveState :=
  mkReceive ack ∅ 0 0 0 0 0 None false 0 false.

(** Field updates. *)
Definition set_ack a s := mkReceive a (reorder s) (reorder_bytes s) (delivered_unconsumed_bytes s)
  (packet_high_water s) (byte_high_water s) (receive_window_drops s) (fin_sequence s) (eof_reached s)
  (fin_payload_packets s) (terminal s).
Definition set_reorder m b s := mkReceive (acknowledgement_number s) m b (delivered_unconsumed_bytes s)
  (packet_high_water s) (byte_high_water s) (receive_window_drops s) (fin_sequence s) (eof_reached s)
  (fin_payload_packets s) (terminal s).
Definition set_delivered d s := mkReceive (acknowledgement_number s) (reorder s) (reorder_bytes s) d
  (packet_high_water s) (byte_high_water s) (receive_window_drops s) (fin_sequence s) (eof_reached s)
  (fin_payload_packets s) (terminal s).
Definition set_high_water p b s := mkReceive (acknowledgement_number s) (reorder s) (reorder_bytes s)
  (delivered_unconsumed_bytes s) p b (receive_window_drops s) (fin_sequence s) (eof_reached s)
  (fin_payload_packets s) (terminal s).
Definition set_drops n s := mkReceive (acknowledgement_number s) (reorder s) (reorder_bytes s)
  (delivered_unconsumed_bytes s) (packet_high_water s) (byte_high_water s) n (fin_sequence s) (eof_reached s)
  (fin_payload_packets s) (terminal s).
Definition set_fin f s := mkReceive (acknowledgement_number s) (reorder s) (reorder_bytes s)
  (delivered_unconsumed_bytes s) (packet_high_water s) (byte_high_water s) (receive_window_drops s) f (eof_reached s)
  (fin_payload_packets s) (terminal s).
Definition set_eof e n s := mkReceive (acknowledgement_number s) (reorder s) (reorder_bytes s)
  (delivered_unconsumed_bytes s) (packet_high_water s) (byte_high_water s) (receive_window_drops s) (fin_sequence s) e
  n (terminal s).

Abbreviation method := (M ReceiveState ReceiveError).

(** ** Queries *)
Definition total_buffered_bytes (s : ReceiveState) : outcome ReceiveError Z :=
  expect (checked_add USIZE (reorder_bytes s) (delivered_unconsumed_bytes s)).
Definition advertised_window_bytes (s : ReceiveState) : outcome ReceiveError Z :=
  total ← total_buffered_bytes s; expect (checked_sub MAX_RECEIVE_BYTES total).

(** [usize::next_multiple_of] *)
Definition next_multiple_of (n m : Z) : Z := div_ceil n m * m.

(** The body of the loop of [sack]: the mask and the highest bit so far. *)
Definition sack_key (ack : SequenceNumber) (acc : list Z * Z) (key : SequenceNumber)
    : outcome ReceiveError (list Z * Z) :=
  match relation_to key ack with
  | After distance =>
    match checked_sub distance 2 with
    | None => Ok acc
    | Some bit =>
      if MAX_REORDER_PACKETS <=? bit then Ok acc
      else
        byte ← index (fst acc) (bit / 8);
        Ok (<[Z.to_nat (bit / 8) := Z.lor byte (Z.shiftl 1 (bit mod 8))]> (fst acc), Z.max (snd acc) bit)
    end
  | _ => Ok acc
  end.
Fixpoint sack_loop (ack : SequenceNumber) (keys : list SequenceNumber) (acc : list Z * Z)
    : outcome ReceiveError (list Z * Z) :=
  match keys with
  | [] => Ok acc
  | k :: r => acc ← sack_key ack acc k; sack_loop ack r acc
  end.
Definition sack (s : ReceiveState) : outcome ReceiveError (option SelectiveAckBits) :=
  if bool_decide (reorder s = ∅) then Ok None
  else
    '(bytes, highest_bit) ← sack_loop (acknowledgement_number s) (map fst (map_to_list (reorder s)))
                              (replicate (Z.to_nat GENERATED_SACK_BYTES) 0, 0);
    let needed_bytes := div_ceil (highest_bit + 1) 8 in
    mret (Some (mkSack bytes (next_multiple_of (Z.max needed_bytes 4) 4 mod 2 ^ 8))).
(** [&self.bytes[..usize::from(self.length)]] *)
Definition as_bytes (k : SelectiveAckBits) : outcome ReceiveError (list Z) :=
  slice (sack_bytes k) 0 (sack_length k).
(** The test is the one of the packet codec's [SelectiveAck]. *)
Definition sack_acknowledges_offset (k : SelectiveAckBits) (offset : Z) : outcome ReceiveError bool :=
  match checked_sub offset 2 with
  | None => Ok false
  | Some _ => mask ← as_bytes k; Ok (acknowledges_offset mask offset)
  end.

Definition outcome_of (s : ReceiveState) (d : ReceiveDisposition) (l : list ReceivedPayload) (compat : bool)
    : outcome ReceiveError ReceiveOutcome :=
  bits ← sack s;
  window ← advertised_window_bytes s;
  mret (mkOutcome d l (acknowledgement_number s) bits (eof_reached s) compat window).
Definition answer (d : ReceiveDisposition) (l : list ReceivedPayload) (compat : bool) : method ReceiveOutcome :=
  s ← get; lift (outcome_of s d l compat).
Definition empty_outcome (d : ReceiveDisposition) : method ReceiveOutcome := answer d [] false.

(** ** Operations *)
Definition consume_delivered (bytes : Z) : method Z :=
  s ← get;
  if terminal s then fail RE_Terminal
  else if delivered_unconsumed_bytes s <? bytes
  then fail (RE_ConsumeBeyondDelivered bytes (delivered_unconsumed_bytes s))
  else
    put (set_delivered (delivered_unconsumed_bytes s - bytes) s);;
    s ← get;
    lift (advertised_window_bytes s).

Definition duplicate_or_conflict (s : ReceiveState) (seq : SequenceNumber) (p : StoredPacket) : ReceiveDisposition :=
  match reorder s !! seq with
  | None => RD_Duplicate
  | Some existing => if bool_decide (existing = p) then RD_Duplicate else RD_ConflictingDuplicate
  end.

Definition is_after (r : SequenceRelation) : bool := match r with After _ => true | _ => false end.
Definition has_buffered_after (s : ReceiveState) (seq : SequenceNumber) : bool :=
  existsb (fun buffered => is_after (relation_to buffered seq)) (map fst (map_to_list (reorder s))).

(** What was delivered is appended to [out]. *)
Definition deliver (seq : SequenceNumber) (p : StoredPacket) (out : list ReceivedPayload)
    : method (list ReceivedPayload) :=
  modify (set_ack seq);;
  (if carried_by_fin (stored_type p) then
     modify (fun s => set_eof true (if bool_decide (stored_payload p = []) then fin_payload_packets s
                                    else saturating_add 64 (fin_payload_packets s) 1) s)
   else mret tt);;
  if bool_decide (stored_payload p = []) then mret out
  else
    modify (fun s => set_delivered (saturating_add USIZE (delivered_unconsumed_bytes s) (len (stored_payload p))) s);;
    mret (out ++ [mkReceived seq (stored_payload p) (carried_by_fin (stored_type p))]).

(** [loop { .. reorder.remove(&next) .. }] *)
Fixpoint flush_contiguous (fuel : nat) (out : list ReceivedPayload) : method (list ReceivedPayload) :=
  s ← get;
  let next := seq_wrapping_add (acknowledgement_number s) 1 in
  match reorder s !! next with
  | None => mret out
  | Some packet =>
    match fuel with
    | O => lift NoFuel
    | S f =>
      remaining ← lift (expect (checked_sub (reorder_bytes s) (len (stored_payload packet))));
      put (set_reorder (delete next (reorder s)) remaining s);;
      out ← deliver next packet out;
      flush_contiguous f out
    end
  end.

(** The checks against a FIN already seen: the answer when one applies. *)
Definition fin_check (s : ReceiveState) (seq : SequenceNumber) (p : StoredPacket) : option ReceiveDisposition :=
  match fin_sequence s with
  | None => None
  | Some f =>
    let conflicting := if bool_decide (stored_type p = SP_Fin) && negb (seq =? f)
                       then Some RD_ConflictingFin else None in
    match relation_to seq f with
    | After _ => Some RD_AfterFin
    | Equal => if bool_decide (stored_type p = SP_Fin) then Some (duplicate_or_conflict s seq p) else conflicting
    | Before _ | Ambiguous => conflicting
    end
  end.

Definition note_fin (seq : SequenceNumber) (p : StoredPacket) : method unit :=
  if bool_decide (stored_type p = SP_Fin) then modify (set_fin (Some seq)) else mret tt.

(** The packet after the cumulative acknowledgement: [distance == 1]. *)
Definition deliver_next (seq : SequenceNumber) (p : StoredPacket) (next_total_bytes : Z) : method ReceiveOutcome :=
  note_fin seq p;;
  out ← deliver seq p [];
  s ← get;
  out ← flush_contiguous (size (reorder s)) out;
  modify (fun s => set_high_water (packet_high_water s) (Z.max (byte_high_water s) next_total_bytes) s);;
  answer RD_Delivered out (existsb rp_carried_by_fin out).

(** A packet further ahead. *)
Definition buffer_packet (seq : SequenceNumber) (p : StoredPacket) (next_total_bytes : Z) : method ReceiveOutcome :=
  s ← get;
  let next_count := Z.of_nat (size (reorder s)) + 1 in
  if MAX_REORDER_PACKETS <? next_count then fail (RE_ReorderPacketLimit next_count MAX_REORDER_PACKETS)
  else
    next_bytes ← lift (expect (checked_add USIZE (reorder_bytes s) (len (stored_payload p))));
    note_fin seq p;;
    modify (fun s => set_reorder (<[seq := p]> (reorder s)) next_bytes s);;
    modify (fun s => set_high_water (Z.max (packet_high_water s) next_count)
                                    (Z.max (byte_high_water s) next_total_bytes) s);;
    answer RD_Buffered [] false.

(** A packet at a known distance ahead of the acknowledgement. *)
Definition receive_ahead (distance : Z) (seq : SequenceNumber) (p : StoredPacket) : method ReceiveOutcome :=
  s ← get;
  if MAX_REORDER_DISTANCE <? distance then empty_outcome (RD_TooFarAhead distance)
  else
    match reorder s !! seq with
    | Some existing => empty_outcome (if bool_decide (existing = p) then RD_Duplicate else RD_ConflictingDuplicate)
    | None =>
      if bool_decide (stored_type p = SP_Fin) && has_buffered_after s seq then empty_outcome RD_ConflictingFin
      else
        total ← lift (total_buffered_bytes s);
        next_total_bytes ← lift (ok_or (checked_add USIZE total (len (stored_payload p)))
                                       (RE_ReceiveWindowLimit (umax USIZE) MAX_RECEIVE_BYTES));
        if MAX_RECEIVE_BYTES <? next_total_bytes then
          modify (fun s => set_drops (saturating_add 64 (receive_window_drops s) 1) s);;
          empty_outcome RD_ReceiveWindowExceeded
        else if distance =? 1 then deliver_next seq p next_total_bytes
        else buffer_packet seq p next_total_bytes
    end.

Definition receive (t : PacketType) (seq : SequenceNumber) (bytes : list Z) : method ReceiveOutcome :=
  s ← get;
  if terminal s then fail RE_Terminal
  else
    kind ← lift (ok_or (from_packet_type t) (RE_InvalidPacketType t));
    if bool_decide (t = PT_Data) && bool_decide (bytes = []) then fail (RE_InvalidPayloadLength t 0)
    else if MAX_UTP_PAYLOAD_SIZE <? len bytes then fail (RE_PayloadTooLarge (len bytes) MAX_UTP_PAYLOAD_SIZE)
    else
      let p := mkStored kind bytes in
      match fin_check s seq p with
      | Some d => empty_outcome d
      | None =>
        match relation_to seq (acknowledgement_number s) with
        | Equal | Before _ => empty_outcome RD_Duplicate
        | Ambiguous => empty_outcome RD_AmbiguousSequence
        | After distance => receive_ahead distance seq p
        end
      end.

Definition reset : method unit :=
  modify (fun s => mkReceive (acknowledgement_number s) ∅ 0 0 (packet_high_water s) (byte_high_water s)
                     (receive_window_drops s) None false (fin_payload_packets s) true).

(** ** Specification: the window *)
Definition stored_bytes (m : gmap Z StoredPacket) : Z :=
  map_fold (fun _ p n => len (stored_payload p) + n) 0 m.
(** [k] is [d] positions after [ack], for some [d] from [lo] up to the
    largest distance the code buffers. *)
Definition position_ok (lo : Z) (ack k : SequenceNumber) : Prop :=
  exists d, lo <= d <= MAX_REORDER_DISTANCE /\ k = seq_wrapping_add ack d.

(** What holds between calls, with [lo = 2]: the position right after the
    acknowledgement is never buffered.  Inside the flushing loop [lo = 1]. *)
Record window_ok (lo : Z) (s : ReceiveState) : Prop := {
  wo_ack : is_u 16 (acknowledgement_number s);
  wo_keys k p : reorder s !! k = Some p ->
    position_ok lo (acknowledgement_number s) k /\ len (stored_payload p) <= MAX_UTP_PAYLOAD_SIZE;
  wo_bytes : reorder_bytes s = stored_bytes (reorder s);
  wo_delivered : 0 <= delivered_unconsumed_bytes s;
  wo_total : reorder_bytes s + delivered_unconsumed_bytes s <= MAX_RECEIVE_BYTES;
  wo_fin f : fin_sequence s = Some f -> is_u 16 f;
}.

(** What the SACK says: bit by bit, which of the following packets are
    buffered; its length is one the packet encoder accepts. *)
Definition sack_means (s : ReceiveState) (bits : option SelectiveAckBits) : Prop :=
  match bits with
  | None => reorder s = ∅
  | Some k =>
    reorder s <> ∅ /\ (exists mask, as_bytes k = Ok mask /\ validate_sack (len mask) = Ok tt)
    /\ forall o, is_u 16 o ->
       sack_acknowledges_offset k o = Ok (bool_decide (is_Some (reorder s !! seq_wrapping_add (acknowledgement_number s) o)))
  end.

(** The state after one packet is delivered, and what the caller gets. *)
Definition received (seq : SequenceNumber) (p : StoredPacket) : list ReceivedPayload :=
  if bool_decide (stored_payload p = []) then []
  else [mkReceived seq (stored_payload p) (carried_by_fin (stored_type p))].
Definition delivered1 (seq : SequenceNumber) (p : StoredPacket) (s : ReceiveState) : ReceiveState :=
  let empty := bool_decide (stored_payload p = []) in
  let s := set_ack seq s in
  let s := if carried_by_fin (stored_type p)
           then set_eof true (if empty then fin_payload_packets s else saturating_add 64 (fin_payload_packets s) 1) s
           else s in
  if empty then s
  else set_delivered (saturating_add USIZE (delivered_unconsumed_bytes s) (len (stored_payload p))) s.
Definition taken (next : SequenceNumber) (p : StoredPacket) (s : ReceiveState) : ReceiveState :=
  set_reorder (delete next (reorder s)) (reorder_bytes s - len (stored_payload p)) s.
Definition fin_noted (seq : SequenceNumber) (p : StoredPacket) (s : ReceiveState) : ReceiveState :=
  if bool_decide (stored_type p = SP_Fin) then set_fin (Some seq) s else s.

(** The contiguous packets leave the buffer in order. *)
Inductive flushed : ReceiveState -> list ReceivedPayload -> ReceiveState -> Prop :=
| flushed_stop s : reorder s !! seq_wrapping_add (acknowledgement_number s) 1 = None -> flushed s [] s
| flushed_step s p ds s' :
    let next := seq_wrapping_add (acknowledgement_number s) 1 in
    reorder s !! next = Some p ->
    flushed (delivered1 next p (taken next p s)) ds s' ->
    flushed s (received next p ++ ds) s'.

(** The payload fits in the receive window. *)
Definition fits (s : ReceiveState) (p : StoredPacket) : Prop :=
  reorder_bytes s + delivered_unconsumed_bytes s + len (stored_payload p) <= MAX_RECEIVE_BYTES.

(** The ways a call to [receive] can change the state. *)
Inductive moved (s : ReceiveState) (seq : SequenceNumber) (p : StoredPacket)
    : list ReceivedPayload -> ReceiveState -> Prop :=
| moved_kept : moved s seq p [] s
| moved_dropped n : moved s seq p [] (set_drops n s)
| moved_next ds s1 b :
    seq = seq_wrapping_add (acknowledgement_number s) 1 -> reorder s !! seq = None ->
    fits s p ->
    flushed (delivered1 seq p (fin_noted seq p s)) ds s1 ->
    moved s seq p (received seq p ++ ds) (set_high_water (packet_high_water s1) b s1)
| moved_buffered d c b :
    2 <= d <= MAX_REORDER_DISTANCE -> seq = seq_wrapping_add (acknowledgement_number s) d ->
    reorder s !! seq = None -> fits s p ->
    moved s seq p [] (set_high_water c b
      (set_reorder (<[seq := p]> (reorder s)) (reorder_bytes s + len (stored_payload p)) (fin_noted seq p s))).

(** When [receive] refuses a call; the state is then unchanged. *)
Definition receive_refusal (t : PacketType) (bytes : list Z) (s : ReceiveState) : option ReceiveError :=
  if terminal s then Some RE_Terminal
  else match from_packet_type t with
  | None => Some (RE_InvalidPacketType t)
  | Some _ =>
    if bool_decide (t = PT_Data) && bool_decide (bytes = []) then Some (RE_InvalidPayloadLength t 0)
    else if MAX_UTP_PAYLOAD_SIZE <? len bytes then Some (RE_PayloadTooLarge (len bytes) MAX_UTP_PAYLOAD_SIZE)
    else None
  end.
(** What the caller is told about the state reached. *)
Definition outcome_means (s : ReceiveState) (o : ReceiveOutcome) : Prop :=
  o_acknowledgement_number o = acknowledgement_number s /\ sack_means s (o_selective_ack o)
  /\ o_eof_reached o = eof_reached s
  /\ o_advertised_window_bytes o = MAX_RECEIVE_BYTES - (reorder_bytes s + delivered_unconsumed_bytes s).

(** * Lemmas *)
Lemma max_distance : MAX_REORDER_PACKETS = 953 /\ MAX_REORDER_DISTANCE = 954 /\ GENERATED_SACK_BYTES = 120
  /\ MAX_RECEIVE_BYTES = 1048576 /\ MAX_UTP_PAYLOAD_SIZE = 65515.
Proof. done. Qed.
Lemma wrap_inj a d d' : 0 <= d < 65536 -> 0 <= d' < 65536 ->
  seq_wrapping_add a d = seq_wrapping_add a d' -> d = d'.
Proof. wrap. intros. divlia. Qed.
Lemma wrap_assoc a d e : seq_wrapping_add (seq_wrapping_add a d) e = seq_wrapping_add a (d + e).
Proof. wrap. rewrite Zplus_mod_idemp_l. f_equal. lia. Qed.
Lemma is_u_add a d : is_u 16 (seq_wrapping_add a d).
Proof. by apply is_u_wrapping. Qed.

Lemma stored_bytes_insert m (k : SequenceNumber) p : m !! k = None ->
  stored_bytes (<[k := p]> m) = len (stored_payload p) + stored_bytes m.
Proof.
  intros Hk. unfold stored_bytes. rewrite map_fold_insert_L; [done| |done].
  intros. lia.
Qed.
Lemma stored_bytes_delete m (k : SequenceNumber) p : m !! k = Some p ->
  stored_bytes m = len (stored_payload p) + stored_bytes (delete k m).
Proof.
  intros Hk. rewrite <- (stored_bytes_insert _ k) by apply lookup_delete_eq. by rewrite insert_delete_eq, insert_id.
Qed.
Lemma stored_bytes_nonneg m : 0 <= stored_bytes m.
Proof.
  induction m as [|k p m Hk IH] using map_ind; [done|]. rewrite stored_bytes_insert by done. len_lia.
Qed.

(** ** Delivering *)
Lemma deliver_eq seq p out s : deliver seq p out s = (delivered1 seq p s, Ok (out ++ received seq p)).
Proof.
  unfold deliver, delivered1, received, mbind, M_bind, modify, mret, M_ret.
  destruct (carried_by_fin _); case_bool_decide; cbn; by rewrite ?app_nil_r.
Qed.
Lemma delivered1_fields seq p s :
  acknowledgement_number (delivered1 seq p s) = seq /\ reorder (delivered1 seq p s) = reorder s
  /\ reorder_bytes (delivered1 seq p s) = reorder_bytes s /\ fin_sequence (delivered1 seq p s) = fin_sequence s
  /\ eof_reached (delivered1 seq p s) = carried_by_fin (stored_type p) || eof_reached s
  /\ terminal (delivered1 seq p s) = terminal s
  /\ delivered_unconsumed_bytes (delivered1 seq p s)
     = if bool_decide (stored_payload p = []) then delivered_unconsumed_bytes s
       else saturating_add USIZE (delivered_unconsumed_bytes s) (len (stored_payload p)).
Proof. unfold delivered1. destruct (carried_by_fin _); case_bool_decide; done. Qed.
(** Delivering a packet that was counted adds its length. *)
Lemma delivered1_bytes seq p s : 0 <= delivered_unconsumed_bytes s ->
  delivered_unconsumed_bytes s + len (stored_payload p) <= MAX_RECEIVE_BYTES ->
  delivered_unconsumed_bytes (delivered1 seq p s) = delivered_unconsumed_bytes s + len (stored_payload p).
Proof.
  intros H0 H. destruct (delivered1_fields seq p s) as (_ & _ & _ & _ & _ & _ & ->).
  case_bool_decide as E; [rewrite E; change (len (@nil Z)) with 0; lia|].
  unfold saturating_add, umax, USIZE, MAX_RECEIVE_BYTES in *. lia.
Qed.
(** The next packet is delivered: the others are one position closer. *)
Lemma delivered1_window lo p s : 1 <= lo -> window_ok lo s ->
  reorder s !! seq_wrapping_add (acknowledgement_number s) 1 = None ->
  reorder_bytes s + delivered_unconsumed_bytes s + len (stored_payload p) <= MAX_RECEIVE_BYTES ->
  window_ok 1 (delivered1 (seq_wrapping_add (acknowledgement_number s) 1) p s).
Proof.
  intros Hlo [Ha Hk Hb Hd Ht Hf] Hn Hmax. set (next := seq_wrapping_add (acknowledgement_number s) 1) in *.
  pose proof (stored_bytes_nonneg (reorder s)). pose proof (len_nonneg (stored_payload p)).
  destruct (delivered1_fields next p s) as (E1 & E2 & E3 & E4 & _ & _ & _).
  pose proof (delivered1_bytes next p s Hd ltac:(lia)) as E5.
  split; rewrite ?E1, ?E2, ?E3, ?E4, ?E5; [apply is_u_add| |done|lia|lia|done].
  intros k q Hq. destruct (Hk k q Hq) as [(d & Hd1 & ->) Hl]. split; [|done].
  exists (d - 1). assert (d <> 1) by (intros ->; fold next in Hq; congruence).
  split; [lia|]. unfold next. rewrite wrap_assoc. f_equal. lia.
Qed.
Lemma taken_window p s : window_ok 1 s ->
  let next := seq_wrapping_add (acknowledgement_number s) 1 in
  reorder s !! next = Some p -> window_ok 1 (delivered1 next p (taken next p s)).
Proof.
  intros [Ha Hk Hb Hd Ht Hf] next Hn. pose proof (stored_bytes_delete _ _ _ Hn) as Hs.
  apply (delivered1_window 1 p (taken next p s)); [lia| |by apply lookup_delete_eq|].
  - split; cbn [taken set_reorder acknowledgement_number reorder reorder_bytes delivered_unconsumed_bytes fin_sequence];
      [done| |by rewrite Hb, Hs, Z.add_simpl_l|done|pose proof (len_nonneg (stored_payload p)); lia|done].
    intros k q Hq. apply lookup_delete_Some in Hq as [_ Hq]. by apply Hk.
  - cbn [taken set_reorder reorder_bytes delivered_unconsumed_bytes]. lia.
Qed.

Lemma flush_ok fuel : forall s out, window_ok 1 s -> (size (reorder s) <= fuel)%nat ->
  exists ds s', flushed s ds s' /\ flush_contiguous fuel out s = (s', Ok (out ++ ds)).
Proof.
  induction fuel as [|f IH]; intros s out Hw Hf; cbn [flush_contiguous]; unfold mbind at 1, M_bind at 1; unfold get at 1; cbv beta iota;
    set (next := seq_wrapping_add (acknowledgement_number s) 1).
  - assert (reorder s = ∅) as Hm by (apply map_size_empty_iff; lia).
    assert (reorder s !! next = None) as Hn by (by rewrite Hm).
    rewrite Hn. exists [], s. split; [by apply flushed_stop|]. by rewrite app_nil_r.
  - destruct (reorder s !! next) as [p|] eqn:Hn.
    + destruct (IH (delivered1 next p (taken next p s)) (out ++ received next p)) as (ds & s' & Hfl & E).
      { by apply taken_window. }
      { destruct (delivered1_fields next p (taken next p s)) as (_ & -> & _). cbn [taken set_reorder reorder].
        rewrite map_size_delete_Some by eauto.
        destruct (size (reorder s)) eqn:Es; [apply map_size_empty_iff in Es; by rewrite Es in Hn|]. lia. }
      exists (received next p ++ ds), s'. split; [by eapply flushed_step|].
      destruct Hw as [_ _ Hb Hd Ht _]. pose proof (stored_bytes_delete _ _ _ Hn). pose proof (stored_bytes_nonneg (delete next (reorder s))).
      unfold mbind, M_bind, lift, checked_sub, put. rewrite (proj2 (Z.leb_le _ _)) by lia. cbn [expect].
      change (set_reorder (delete next (reorder s)) (reorder_bytes s - len (stored_payload p)) s) with (taken next p s).
      rewrite deliver_eq. rewrite E. by rewrite app_assoc.
    + exists [], s. split; [by apply flushed_stop|]. by rewrite app_nil_r.
Qed.
Lemma flushed_window s ds s' : flushed s ds s' -> window_ok 1 s -> window_ok 2 s'.
Proof.
  induction 1 as [s Hn|s p ds s' next Hn Hfl IH]; intros Hw; [|by apply IH, taken_window].
  destruct Hw as [Ha Hk Hb Hd Ht Hf]. split; [done| |done..].
  intros k q Hq. destruct (Hk k q Hq) as [(d & Hd1 & ->) Hl]. split; [|done]. exists d. split; [|done].
  assert (d <> 1) by (intros ->; congruence). lia.
Qed.

(** ** The window bounds the number of buffered packets *)
Definition positions (ack : SequenceNumber) : gset Z := list_to_set (map (seq_wrapping_add ack) (seqZ 2 953)).
Lemma size_positions ack : size (positions ack) = 953%nat.
Proof.
  unfold positions. rewrite size_list_to_set; [by rewrite length_map, length_seqZ|].
  apply NoDup_fmap_2_strong; [|apply NoDup_seqZ].
  intros x y Hx Hy E. apply elem_of_seqZ in Hx, Hy. apply wrap_inj in E; lia.
Qed.
Lemma in_positions ack k : position_ok 2 ack k -> k ∈ positions ack.
Proof.
  intros (d & Hd & ->). apply elem_of_list_to_set, list_elem_of_fmap. exists d. split; [done|].
  apply elem_of_seqZ. destruct max_distance as (_ & E & _). lia.
Qed.
Lemma buffer_count s seq (p : StoredPacket) : window_ok 2 s -> position_ok 2 (acknowledgement_number s) seq ->
  reorder s !! seq = None -> Z.of_nat (size (reorder s)) + 1 <= MAX_REORDER_PACKETS.
Proof.
  intros Hw Hp Hn. assert (dom (<[(seq : Z) := p]> (reorder s)) ⊆ positions (acknowledgement_number s)) as Hsub.
  { intros k Hk. apply elem_of_dom in Hk as [q Hq]. apply in_positions.
    apply lookup_insert_Some in Hq as [[<- _]|[_ Hq]]; [done|]. by apply (wo_keys _ _ Hw _ _ Hq). }
  apply subseteq_size in Hsub. rewrite size_positions, size_dom, map_size_insert_None in Hsub by done.
  destruct max_distance as (E & _). lia.
Qed.

(** ** The selective acknowledgement *)

Lemma mask_bit_set mask bit byte i : 0 <= bit -> 0 <= i -> nth_get mask (bit / 8) = Some byte ->
  mask_bit (<[Z.to_nat (bit / 8) := Z.lor byte (Z.shiftl 1 (bit mod 8))]> mask) i
  = mask_bit mask i || (i =? bit).
Proof.
  intros Hb Hi Hg. pose proof (nth_get_lt _ _ _ Hg). unfold mask_bit.
  pose proof (Z.mod_pos_bound bit 8 ltac:(lia)). pose proof (Z.mod_pos_bound i 8 ltac:(lia)).
  rewrite nth_get_insert by (lia || apply Z.div_pos; lia). destruct (bool_decide_reflect (i / 8 = bit / 8)) as [E|E].
  - rewrite E, Hg, Z.lor_spec, Z.shiftl_1_l, Z.pow2_bits_eqb by lia.
    f_equal. destruct (Z.eqb_spec (bit mod 8) (i mod 8)), (Z.eqb_spec i bit); try done; divlia.
  - destruct (Z.eqb_spec i bit) as [->|]; [done|]. by rewrite orb_false_r.
Qed.

(** The loop over the buffered keys sets exactly their bits. *)
Lemma sack_key_ok ack d mask highest : is_u 16 ack -> 2 <= d <= MAX_REORDER_DISTANCE ->
  len mask = GENERATED_SACK_BYTES -> exists mask',
  sack_key ack (mask, highest) (seq_wrapping_add ack d) = Ok (mask', Z.max highest (d - 2))
  /\ len mask' = GENERATED_SACK_BYTES
  /\ forall i, 0 <= i -> mask_bit mask' i = mask_bit mask i || (i =? d - 2).
Proof.
  intros Ha Hd Hl. destruct max_distance as (E1 & E2 & E3 & _). unfold sack_key.
  rewrite (relation_to_unique (After d)); [|apply is_u_add|done|cbn; split; [lia|done]].
  unfold checked_sub. rewrite (proj2 (Z.leb_le _ _)), (proj2 (Z.leb_gt _ _)) by lia. cbn [fst snd].
  destruct (nth_get_is_Some mask ((d - 2) / 8)) as [byte Hbyte].
  { rewrite Hl, E3. split; [apply Z.div_pos; lia|]. apply Z.div_lt_upper_bound; lia. }
  unfold index. rewrite Hbyte. cbn [expect]. unfold mbind, outcome_bind. eexists. split; [done|].
  split; [by rewrite len_insert|]. intros i Hi. by apply mask_bit_set; [lia|..].
Qed.
Lemma sack_loop_ok ack keys : forall mask highest, is_u 16 ack ->
  Forall (position_ok 2 ack) keys -> len mask = GENERATED_SACK_BYTES -> 0 <= highest <= 952 ->
  exists mask' highest', sack_loop ack keys (mask, highest) = Ok (mask', highest')
    /\ len mask' = GENERATED_SACK_BYTES /\ highest <= highest' <= 952
    /\ (forall i, 0 <= i < 65534 -> mask_bit mask' i = true <->
                  mask_bit mask i = true \/ (seq_wrapping_add ack (i + 2) : Z) ∈ keys)
    /\ (forall i, 0 <= i < 65534 -> (seq_wrapping_add ack (i + 2) : Z) ∈ keys -> i <= highest').
Proof.
  induction keys as [|k keys IH]; intros mask highest Ha Hk Hl Hh; cbn [sack_loop].
  { exists mask, highest. split_and!; try done; try lia; intros i Hi; rewrite elem_of_nil; intuition. }
  apply Forall_cons_1 in Hk as [(d & Hd & ->) Hk]. destruct max_distance as (E1 & E2 & E3 & _).
  destruct (sack_key_ok ack d mask highest Ha Hd Hl) as (mask1 & -> & Hl1 & Hb1). unfold mbind, outcome_bind.
  destruct (IH mask1 (Z.max highest (d - 2)) Ha Hk Hl1 ltac:(lia)) as (mask' & highest' & -> & Hl' & Hh' & Hb & Hmax).
  exists mask', highest'. split_and!; [done|done|lia|lia|..].
  - intros i Hi. rewrite Hb, Hb1, orb_true_iff, Z.eqb_eq, elem_of_cons by lia.
    assert (i = d - 2 <-> seq_wrapping_add ack (i + 2) = seq_wrapping_add ack d) as Hiff.
    { split; [intros ->; f_equal; lia|]. intros E. apply wrap_inj in E; lia. }
    rewrite Hiff. intuition.
  - intros i Hi [E|Hin]%elem_of_cons; [apply wrap_inj in E; lia|by apply Hmax].
Qed.

Lemma mask_bit_zero n i : mask_bit (replicate n 0) i = false.
Proof.
  unfold mask_bit, nth_get. destruct (0 <=? i / 8); [|done]. destruct (replicate n 0 !! _) as [b|] eqn:E; [|done].
  apply lookup_replicate in E as [-> _]. apply Z.bits_0.
Qed.
Lemma mask_bit_take mask n i : 0 <= i -> 0 <= n <= len mask ->
  mask_bit (sub_list mask 0 n) i = (i <? 8 * n) && mask_bit mask i.
Proof.
  intros Hi Hn. unfold mask_bit. pose proof (Z.div_pos i 8 Hi ltac:(lia)). rewrite !nth_get_lookup by done.
  unfold sub_list. rewrite drop_0, Z.sub_0_r. destruct (Z.ltb_spec i (8 * n)) as [Hlt|Hge]; cbn [andb].
  - rewrite lookup_take_lt; [done|]. assert (i / 8 < n) by (apply Z.div_lt_upper_bound; lia). lia.
  - rewrite lookup_take_ge; [done|]. assert (n <= i / 8) by (apply Z.div_le_lower_bound; lia). lia.
Qed.

Lemma reorder_keys lo s : window_ok lo s -> Forall (position_ok lo (acknowledgement_number s)) (map fst (map_to_list (reorder s))).
Proof.
  intros Hw. apply Forall_forall. intros k Hk. apply list_elem_of_fmap in Hk as ([k' p] & -> & Hin).
  apply elem_of_map_to_list in Hin. by apply (wo_keys _ _ Hw _ _ Hin).
Qed.
Lemma elem_of_keys s (k : Z) : k ∈ map fst (map_to_list (reorder s)) <-> is_Some (reorder s !! k).
Proof.
  rewrite list_elem_of_fmap. split.
  - intros ([k' p] & -> & Hin). apply elem_of_map_to_list in Hin. by exists p.
  - intros [p Hp]. exists (k, p). split; [done|]. by apply elem_of_map_to_list.
Qed.

Lemma sack_ok s : window_ok 2 s -> exists bits, sack s = Ok bits /\ sack_means s bits.
Proof.
  intros Hw. unfold sack. destruct (bool_decide_reflect (reorder s = ∅)) as [|Hne]; [by exists None|].
  destruct max_distance as (E1 & E2 & E3 & _).
  destruct (sack_loop_ok (acknowledgement_number s) (map fst (map_to_list (reorder s)))
    (replicate (Z.to_nat GENERATED_SACK_BYTES) 0) 0 (wo_ack _ _ Hw) (reorder_keys _ _ Hw))
    as (mask & highest & -> & Hl & Hh & Hb & Hmax); [done|lia|]. unfold mbind, outcome_bind.
  set (length := next_multiple_of (Z.max (div_ceil (highest + 1) 8) 4) 4).
  assert (4 <= length <= 120 /\ length mod 4 = 0 /\ highest + 1 <= 8 * length) as (L1 & L2 & L3).
  { unfold length, next_multiple_of, div_ceil. divlia. }
  rewrite (Z.mod_small length) by lia. eexists. split; [done|]. cbn [sack_means].
  assert (as_bytes (mkSack mask length) = Ok (sub_list mask 0 length)) as Hbytes.
  { unfold as_bytes. cbn [sack_bytes sack_length]. rewrite slice_ok by lia. done. }
  split; [done|]. split.
  - exists (sub_list mask 0 length). split; [done|]. rewrite len_sub_list, Z.sub_0_r by lia.
    unfold validate_sack, is_multiple_of. rewrite L2, (proj2 (Z.leb_le 4 _)), (proj2 (Z.leb_le length _)) by (unfold MAX_SACK_BYTES; lia).
    done.
  - intros o Ho. unfold sack_acknowledges_offset, checked_sub. unfold is_u in Ho. change (2 ^ 16) with 65536 in Ho.
    destruct (Z.leb_spec 2 o) as [H2|H2].
    + rewrite Hbytes. unfold mbind, outcome_bind. rewrite acknowledges_mask, mask_bit_take by lia. f_equal.
      specialize (Hb (o - 2) ltac:(lia)). specialize (Hmax (o - 2) ltac:(lia)).
      replace (o - 2 + 2) with o in * by lia. rewrite mask_bit_zero, elem_of_keys in Hb. rewrite elem_of_keys in Hmax.
      case (bool_decide_reflect (is_Some (reorder s !! seq_wrapping_add (acknowledgement_number s) o))); intros Hs.
      * apply andb_true_iff. split; [apply Z.ltb_lt; specialize (Hmax Hs); lia|apply Hb; by right].
      * apply andb_false_iff. right. apply not_true_is_false. intros E. apply Hb in E as [|]; done.
    + rewrite bool_decide_false; [done|]. intros [p Hp]. destruct (wo_keys _ _ Hw _ _ Hp) as [(d & Hd & E) _].
      apply wrap_inj in E; lia.
Qed.

(** ** Answers *)
Lemma window_returned s : window_ok 2 s ->
  advertised_window_bytes s = Ok (MAX_RECEIVE_BYTES - (reorder_bytes s + delivered_unconsumed_bytes s)).
Proof.
  intros [_ _ Hb Hd Ht _]. pose proof (stored_bytes_nonneg (reorder s)). unfold advertised_window_bytes, total_buffered_bytes.
  rewrite (proj2 (checked_add_Some _ _ _ _)) by (split; [done|]; unfold USIZE, MAX_RECEIVE_BYTES in *; lia). cbn [expect].
  unfold mbind, outcome_bind. by rewrite (proj2 (checked_sub_Some _ _ _)) by (split; [done|lia]).
Qed.
Lemma answer_ok s d l compat : window_ok 2 s ->
  exists o, answer d l compat s = (s, Ok o) /\ disposition o = d /\ delivered o = l /\ outcome_means s o.
Proof.
  intros Hw. unfold answer, outcome_of, mbind, M_bind, get, lift.
  destruct (sack_ok s Hw) as (bits & -> & Hs). unfold outcome_bind. rewrite window_returned by done.
  eexists. split; [done|]. by split_and!.
Qed.

Lemma fin_noted_fields seq p s :
  acknowledgement_number (fin_noted seq p s) = acknowledgement_number s /\ reorder (fin_noted seq p s) = reorder s
  /\ reorder_bytes (fin_noted seq p s) = reorder_bytes s /\ terminal (fin_noted seq p s) = terminal s
  /\ delivered_unconsumed_bytes (fin_noted seq p s) = delivered_unconsumed_bytes s
  /\ eof_reached (fin_noted seq p s) = eof_reached s
  /\ fin_sequence (fin_noted seq p s) = if bool_decide (stored_type p = SP_Fin) then Some seq else fin_sequence s.
Proof. unfold fin_noted. by case_bool_decide. Qed.
Lemma fin_noted_window lo seq p s : is_u 16 seq -> window_ok lo s -> window_ok lo (fin_noted seq p s).
Proof.
  intros Hq [Ha Hk Hb Hd Ht Hf]. unfold fin_noted. case_bool_decide; [|done]. split; try done.
  intros f E. cbn in E. by simplify_eq.
Qed.
Lemma note_fin_eq seq p s : note_fin seq p s = (fin_noted seq p s, Ok tt).
Proof. unfold note_fin, fin_noted. by case_bool_decide. Qed.

Lemma moved_window s seq p out s' : moved s seq p out s' -> window_ok 2 s -> is_u 16 seq ->
  len (stored_payload p) <= MAX_UTP_PAYLOAD_SIZE -> window_ok 2 s'.
Proof.
  intros Hm Hw Hq Hl. destruct (fin_noted_fields seq p s) as (E1 & E2 & E3 & _ & E4 & _ & _).
  destruct Hm as [|n|ds s1 b -> Hn Hfit Hfl|d c b Hd -> Hn Hfit]; [done|by destruct Hw| |].
  - apply flushed_window in Hfl; [by destruct Hfl|].
    pose proof (delivered1_window 2 p _ ltac:(lia) (fin_noted_window 2 _ p s Hq Hw)) as H.
    rewrite E1, E2, E3, E4 in H. by apply H.
  - destruct (fin_noted_window 2 _ p s Hq Hw) as [Ha Hk Hb Hdel Ht Hf].
    split; cbn [set_high_water set_reorder acknowledgement_number reorder reorder_bytes delivered_unconsumed_bytes fin_sequence];
      [done| | |done| |done].
    + intros k q [[<- <-]|[_ Hkq]]%lookup_insert_Some; [|by rewrite <- E2 in Hkq; apply Hk].
      split; [|done]. rewrite E1. by exists d.
    + rewrite stored_bytes_insert by done. rewrite E3, E2 in Hb. lia.
    + unfold fits in Hfit. rewrite E4. lia.
Qed.
Lemma flushed_terminal s ds s' : flushed s ds s' -> terminal s' = terminal s.
Proof.
  induction 1 as [|s p ds s' next Hn _ IH]; [done|].
  destruct (delivered1_fields next p (taken next p s)) as (_ & _ & _ & _ & _ & E & _). by rewrite IH, E.
Qed.
Lemma moved_terminal s seq p out s' : moved s seq p out s' -> terminal s' = terminal s.
Proof.
  destruct (fin_noted_fields seq p s) as (_ & _ & _ & E & _).
  intros [|n|ds s1 b _ _ _ Hfl|d c b _ _ _ _]; [done|done| |by apply E].
  cbn. apply flushed_terminal in Hfl as ->. destruct (delivered1_fields seq p (fin_noted seq p s)) as (_ & _ & _ & _ & _ & -> & _). done.
Qed.

(** ** The branches of [receive] *)

(** A call that returned an answer, with the move it made. *)
Definition answered (s : ReceiveState) (seq : SequenceNumber) (p : StoredPacket)
    (r : ReceiveState * outcome ReceiveError ReceiveOutcome) : Prop :=
  exists s' o, r = (s', Ok o) /\ moved s seq p (delivered o) s' /\ outcome_means s' o.

Lemma empty_answered s seq p d : window_ok 2 s -> answered s seq p (empty_outcome d s).
Proof.
  intros Hw. destruct (answer_ok s d [] false Hw) as (o & E & _ & Hd & Ho). exists s, o.
  split; [done|]. rewrite Hd. split; [apply moved_kept|done].
Qed.
Lemma deliver_next_ok s p total : window_ok 2 s -> fits s p ->
  let seq := seq_wrapping_add (acknowledgement_number s) 1 in
  reorder s !! seq = None ->
  exists ds s1 b o, flushed (delivered1 seq p (fin_noted seq p s)) ds s1
    /\ deliver_next seq p total s = (set_high_water (packet_high_water s1) b s1, Ok o)
    /\ delivered o = received seq p ++ ds /\ outcome_means (set_high_water (packet_high_water s1) b s1) o.
Proof.
  intros Hw Hfit seq Hn. destruct (fin_noted_fields seq p s) as (E1 & E2 & E3 & _ & E4 & _ & _).
  assert (is_u 16 seq) as Hq by apply is_u_add.
  pose proof (delivered1_window 2 p _ ltac:(lia) (fin_noted_window 2 _ p s Hq Hw)) as H1.
  rewrite E1, E2, E3, E4 in H1. specialize (H1 Hn Hfit). fold seq in H1.
  destruct (flush_ok _ _ (received seq p) H1 (reflexivity _)) as (ds & s1 & Hfl & E).
  pose proof (flushed_window _ _ _ Hfl H1) as Hw1.
  set (s2 := set_high_water (packet_high_water s1) (Z.max (byte_high_water s1) total) s1).
  assert (window_ok 2 s2) as Hw2 by (by destruct Hw1).
  destruct (answer_ok s2 RD_Delivered (received seq p ++ ds) (existsb rp_carried_by_fin (received seq p ++ ds)) Hw2)
    as (o & Eo & _ & Hd & Ho).
  exists ds, s1, (Z.max (byte_high_water s1) total), o. split; [done|split; [|split; [done|done]]].
  unfold deliver_next. unfold mbind, M_bind. rewrite note_fin_eq, deliver_eq. cbn [app]. unfold get, modify. cbv beta iota.
  rewrite E. exact Eo.
Qed.
Lemma deliver_next_answered s p total : window_ok 2 s -> fits s p ->
  let seq := seq_wrapping_add (acknowledgement_number s) 1 in
  reorder s !! seq = None -> answered s seq p (deliver_next seq p total s).
Proof.
  intros Hw Hfit seq Hn. destruct (deliver_next_ok s p total Hw Hfit Hn) as (ds & s1 & b & o & Hfl & E & Hd & Ho).
  eexists _, o. split; [exact E|split; [|done]]. rewrite Hd. by eapply moved_next.
Qed.
Lemma flushed_end s ds s' : flushed s ds s' -> reorder s' !! seq_wrapping_add (acknowledgement_number s') 1 = None.
Proof. by induction 1. Qed.
Lemma buffer_answered s p total d : window_ok 2 s -> fits s p ->
  len (stored_payload p) <= MAX_UTP_PAYLOAD_SIZE -> 2 <= d <= MAX_REORDER_DISTANCE ->
  let seq := seq_wrapping_add (acknowledgement_number s) d in
  reorder s !! seq = None -> answered s seq p (buffer_packet seq p total s).
Proof.
  intros Hw Hfit Hl Hdist seq Hn.
  pose proof (buffer_count s seq p Hw (ex_intro _ d (conj Hdist eq_refl)) Hn) as Hcount.
  set (c := Z.max (packet_high_water s) (Z.of_nat (size (reorder s)) + 1)).
  set (b := Z.max (byte_high_water s) total).
  pose proof (moved_buffered s seq p d c b Hdist eq_refl Hn Hfit) as Hm.
  match type of Hm with moved _ _ _ _ ?x => set (s2 := x) in * end.
  pose proof (moved_window _ _ _ _ _ Hm Hw (is_u_add _ _) Hl) as Hw2.
  destruct (answer_ok s2 RD_Buffered [] false Hw2) as (o & Eo & _ & Hd & Ho).
  exists s2, o. split; [|split; [by rewrite Hd|done]].
  unfold buffer_packet, mbind, M_bind. unfold get at 1. cbv beta iota.
  rewrite (proj2 (Z.ltb_ge _ _)) by lia. unfold lift.
  assert (0 <= delivered_unconsumed_bytes s) by apply Hw. unfold fits, MAX_RECEIVE_BYTES in Hfit.
  assert (checked_add USIZE (reorder_bytes s) (len (stored_payload p)) = Some (reorder_bytes s + len (stored_payload p))) as ->
    by (apply checked_add_Some; split; [done|unfold USIZE; lia]).
  cbn [expect]. rewrite note_fin_eq. unfold modify. cbv beta iota. rewrite <- Eo. f_equal.
  subst s2. unfold fin_noted. by case_bool_decide.
Qed.
Lemma receive_ahead_answered s seq p d : window_ok 2 s -> 1 <= d <= 32767 ->
  seq = seq_wrapping_add (acknowledgement_number s) d -> len (stored_payload p) <= MAX_UTP_PAYLOAD_SIZE ->
  answered s seq p (receive_ahead d seq p s).
Proof.
  intros Hw Hd -> Hl. set (seq := seq_wrapping_add (acknowledgement_number s) d).
  unfold receive_ahead. unfold mbind at 1, M_bind at 1. unfold get at 1. cbv beta iota.
  destruct (Z.ltb_spec MAX_REORDER_DISTANCE d); [by apply empty_answered|].
  destruct (reorder s !! seq) as [q|] eqn:Hn; [by apply empty_answered|].
  destruct (bool_decide _ && _); [by apply empty_answered|].
  pose proof (wo_total _ _ Hw). pose proof (wo_bytes _ _ Hw). pose proof (stored_bytes_nonneg (reorder s)).
  pose proof (wo_delivered _ _ Hw). pose proof (len_nonneg (stored_payload p)).
  destruct max_distance as (_ & _ & _ & E4 & E5).
  unfold mbind, M_bind, lift, total_buffered_bytes.
  rewrite (proj2 (checked_add_Some _ _ _ _)) by (split; [done|unfold USIZE; lia]). cbn [expect].
  rewrite (proj2 (checked_add_Some _ _ _ _)) by (split; [done|unfold USIZE; lia]). cbn [ok_or].
  destruct (Z.ltb_spec MAX_RECEIVE_BYTES (reorder_bytes s + delivered_unconsumed_bytes s + len (stored_payload p))) as [|Hfit].
  - unfold modify. cbv beta iota. set (s2 := set_drops _ s).
    assert (window_ok 2 s2) as Hw2 by (by destruct Hw).
    destruct (answer_ok s2 RD_ReceiveWindowExceeded [] false Hw2) as (o & E & _ & Hdel & Ho).
    exists s2, o. split; [done|]. rewrite Hdel. split; [apply moved_dropped|done].
  - destruct (Z.eqb_spec d 1) as [->|]; [by apply deliver_next_answered|].
    apply buffer_answered; [done..|lia|done].
Qed.

(** What [receive] does with a packet it does not refuse. *)
Definition accept (seq : SequenceNumber) (p : StoredPacket) (s : ReceiveState) : ReceiveState * outcome ReceiveError ReceiveOutcome :=
  match fin_check s seq p with
  | Some d => empty_outcome d s
  | None =>
    match relation_to seq (acknowledgement_number s) with
    | Equal | Before _ => empty_outcome RD_Duplicate s
    | Ambiguous => empty_outcome RD_AmbiguousSequence s
    | After distance => receive_ahead distance seq p s
    end
  end.
Lemma receive_eq t seq bytes s :
  match receive_refusal t bytes s with
  | Some e => receive t seq bytes s = (s, Err e)
  | None => exists k, from_packet_type t = Some k /\ len bytes <= MAX_UTP_PAYLOAD_SIZE
            /\ receive t seq bytes s = accept seq (mkStored k bytes) s
  end.
Proof.
  assert (receive t seq bytes s =
    if terminal s then (s, Err RE_Terminal)
    else match from_packet_type t with
    | None => (s, Err (RE_InvalidPacketType t))
    | Some k =>
      if bool_decide (t = PT_Data) && bool_decide (bytes = []) then (s, Err (RE_InvalidPayloadLength t 0))
      else if MAX_UTP_PAYLOAD_SIZE <? len bytes then (s, Err (RE_PayloadTooLarge (len bytes) MAX_UTP_PAYLOAD_SIZE))
      else accept seq (mkStored k bytes) s
    end) as ->.
  { unfold receive, accept, mbind, M_bind, get, lift, ok_or. destruct (terminal s); [done|].
    destruct (from_packet_type t) as [k|]; [|done]. destruct (bool_decide _ && _); [done|].
    destruct (MAX_UTP_PAYLOAD_SIZE <? len bytes); [done|]. destruct (fin_check _ _ _); [done|]. by destruct (relation_to _ _). }
  unfold receive_refusal. destruct (terminal s); [done|]. destruct (from_packet_type t) as [k|]; [|done].
  destruct (bool_decide _ && _); [done|]. destruct (Z.ltb_spec MAX_UTP_PAYLOAD_SIZE (len bytes)) as [|Hl]; [done|].
  exists k. done.
Qed.
Lemma accept_answered s seq p : window_ok 2 s -> is_u 16 seq -> len (stored_payload p) <= MAX_UTP_PAYLOAD_SIZE ->
  answered s seq p (accept seq p s).
Proof.
  intros Hw Hq Hl. unfold accept. destruct (fin_check s seq p) as [d|]; [by apply empty_answered|].
  pose proof (relation_to_means seq (acknowledgement_number s) Hq (wo_ack _ _ Hw)) as Hm.
  destruct (relation_to seq (acknowledgement_number s)) as [d| |d|]; try by apply empty_answered.
  destruct Hm as [Hd E]. by apply receive_ahead_answered.
Qed.
Lemma receive_answer t seq bytes s : window_ok 2 s -> is_u 16 seq ->
  match receive_refusal t bytes s with
  | Some e => receive t seq bytes s = (s, Err e)
  | None => exists k s' o, from_packet_type t = Some k /\ receive t seq bytes s = (s', Ok o)
            /\ moved s seq (mkStored k bytes) (delivered o) s' /\ outcome_means s' o /\ window_ok 2 s'
  end.
Proof.
  intros Hw Hq. pose proof (receive_eq t seq bytes s) as H. destruct (receive_refusal t bytes s); [done|].
  destruct H as (k & Hk & Hl & ->).
  destruct (accept_answered s seq (mkStored k bytes) Hw Hq Hl) as (s' & o & E & Hm & Ho).
  exists k, s', o. split_and!; [done|done|done|apply Ho..|]. by eapply moved_window.
Qed.

(** ** Histories *)
Inductive ReceiveOp :=
| OpReceive (t : PacketType) (seq : SequenceNumber) (bytes : list Z)
| OpConsume (n : Z)
| OpReset.
(** The state an operation leaves, and its outcome without the value. *)
Definition run_op (op : ReceiveOp) : method unit :=
  match op with
  | OpReceive t seq bytes => receive t seq bytes ≫= fun _ => mret tt
  | OpConsume n => consume_delivered n ≫= fun _ => mret tt
  | OpReset => reset
  end.
(** The arguments have their Rust types. *)
Definition op_typed (op : ReceiveOp) : Prop :=
  match op with OpReceive _ seq _ => is_u 16 seq | OpConsume n => is_u USIZE n | OpReset => True end.
Inductive reachable (ack : SequenceNumber) : ReceiveState -> Prop :=
| reachable_new : reachable ack (ReceiveState_new ack)
| reachable_op s op : reachable ack s -> op_typed op -> reachable ack (fst (run_op op s)).

Lemma new_window ack : is_u 16 ack -> window_ok 2 (ReceiveState_new ack).
Proof. intros Ha. by split. Qed.
Lemma consume_ok n s : window_ok 2 s -> is_u USIZE n ->
  if terminal s then consume_delivered n s = (s, Err RE_Terminal)
  else if delivered_unconsumed_bytes s <? n
  then consume_delivered n s = (s, Err (RE_ConsumeBeyondDelivered n (delivered_unconsumed_bytes s)))
  else let s' := set_delivered (delivered_unconsumed_bytes s - n) s in
       window_ok 2 s' /\ consume_delivered n s
       = (s', Ok (MAX_RECEIVE_BYTES - (reorder_bytes s + delivered_unconsumed_bytes s - n))).
Proof.
  intros Hw Hn. unfold consume_delivered, mbind, M_bind, get, fail, put, lift. destruct (terminal s); [done|].
  destruct (Z.ltb_spec (delivered_unconsumed_bytes s) n); [done|]. cbv zeta. unfold is_u in Hn.
  set (s' := set_delivered _ s).
  assert (window_ok 2 s') as Hw'.
  { destruct Hw as [Ha Hk Hb Hd Ht Hf]. split; cbn [s' set_delivered reorder_bytes delivered_unconsumed_bytes]; try done; lia. }
  split; [done|]. rewrite window_returned by done. cbn [s' set_delivered reorder_bytes delivered_unconsumed_bytes].
  do 2 f_equal. lia.
Qed.
Lemma op_ok op s : window_ok 2 s -> op_typed op ->
  window_ok 2 (fst (run_op op s)) /\ returns (snd (run_op op s)).
Proof.
  intros Hw Ht. destruct op as [t seq bytes|n|]; cbn [run_op op_typed] in *.
  - pose proof (receive_answer t seq bytes s Hw Ht) as H. unfold mbind, M_bind.
    destruct (receive_refusal t bytes s); [by rewrite H|].
    destruct H as (k & s' & o & _ & -> & _ & _ & Hw'). done.
  - pose proof (consume_ok n s Hw Ht) as H. unfold mbind, M_bind. destruct (terminal s); [by rewrite H|].
    destruct (delivered_unconsumed_bytes s <? n); [by rewrite H|]. by destruct H as [Hw' ->].
  - split; [|done]. destruct Hw as [Ha Hk Hb Hd Hm Hf].
    by split.
Qed.
Lemma reachable_window ack s : is_u 16 ack -> reachable ack s -> window_ok 2 s.
Proof. intros Ha. induction 1; [by apply new_window|]. by apply op_ok. Qed.
Lemma window_count s : window_ok 2 s -> Z.of_nat (size (reorder s)) <= MAX_REORDER_PACKETS.
Proof.
  intros Hw. assert (dom (reorder s) ⊆ positions (acknowledgement_number s)) as Hsub.
  { intros k Hk. apply elem_of_dom in Hk as [q Hq]. apply in_positions. by apply (wo_keys _ _ Hw _ _ Hq). }
  apply subseteq_size in Hsub. rewrite size_positions, size_dom in Hsub. destruct max_distance as (E & _). lia.
Qed.

(** ** A sender's stream *)
Section stream.
(** The packets of a sender, numbered from 0; [last] is the one that
    carries FIN, if the stream ends. *)
Context (pk : Z -> StoredPacket) (last : option Z) (init : SequenceNumber).
Hypothesis fin_is_last : forall i, stored_type (pk i) = SP_Fin <-> last = Some i.
Hypothesis last_nonneg : forall l, last = Some l -> 0 <= l.
Hypothesis init_u16 : is_u 16 init.

Definition sent (i : Z) : Prop := 0 <= i /\ forall l, last = Some l -> i <= l.
Definition stream_bytes (n : Z) (k : nat) : list Z :=
  concat (map (fun i => stored_payload (pk i)) (seqZ n (Z.of_nat k))).

(** [n] packets have been delivered; the buffered ones are packets of the
    stream at their places. *)
Record tracks (lo n : Z) (s : ReceiveState) : Prop := {
  tr_ack : acknowledgement_number s = seq_wrapping_add init n;
  tr_keys (k : SequenceNumber) p : reorder s !! k = Some p -> exists d, lo <= d <= MAX_REORDER_DISTANCE
    /\ k = seq_wrapping_add init (n + d) /\ p = pk (n + d - 1) /\ sent (n + d - 1);
  tr_eof : eof_reached s = true <-> last = Some (n - 1);
  tr_nonneg : 0 <= n;
}.

(** A session with a network that loses, repeats and reorders packets, but
    delays none by half the sequence space or more. *)
Inductive session : Z -> list Z -> ReceiveState -> Prop :=
| session_new : session 0 [] (ReceiveState_new init)
| session_packet n bytes s i t s' o :
    session n bytes s -> sent i -> -32768 <= i + 1 - n <= 32768 ->
    from_packet_type t = Some (stored_type (pk i)) ->
    receive t (seq_wrapping_add init (i + 1)) (stored_payload (pk i)) s = (s', Ok o) ->
    session (n + wrapping_sub 16 (acknowledgement_number s') (acknowledgement_number s))
            (bytes ++ concat (map rp_bytes (delivered o))) s'
| session_consume n bytes s k s' r :
    session n bytes s -> is_u USIZE k -> consume_delivered k s = (s', r) -> session n bytes s'.

Lemma received_bytes seq p : concat (map rp_bytes (received seq p)) = stored_payload p.
Proof. unfold received. case_bool_decide as E; cbn; by rewrite ?app_nil_r. Qed.
Lemma stream_bytes_cons n k : stored_payload (pk n) ++ stream_bytes (n + 1) k = stream_bytes n (S k).
Proof. unfold stream_bytes. rewrite (seqZ_cons n) by lia. cbn. by replace (Z.pred (Z.of_nat (S k))) with (Z.of_nat k) by lia. Qed.
Lemma stream_bytes_app k k' : stream_bytes 0 k ++ stream_bytes (Z.of_nat k) k' = stream_bytes 0 (k + k').
Proof. unfold stream_bytes. rewrite Nat2Z.inj_add, seqZ_app by lia. by rewrite map_app, concat_app, Z.add_0_l. Qed.

(** Packet [j] of the stream is buffered. *)
Definition holds (s : ReceiveState) (j : Z) : Prop := is_Some (reorder s !! seq_wrapping_add init (j + 1)).
Lemma position_inj i j : -65536 < i - j < 65536 -> seq_wrapping_add init (i + 1) = seq_wrapping_add init (j + 1) -> i = j.
Proof. unfold seq_wrapping_add, wrapping_add. change (2 ^ 16) with 65536. intros H E. divlia. Qed.

(** Delivering packet [n] of the stream. *)
Lemma delivered1_tracks lo n s : 1 <= lo -> tracks lo n s -> sent n ->
  let next := seq_wrapping_add (acknowledgement_number s) 1 in
  reorder s !! next = None -> tracks 1 (n + 1) (delivered1 next (pk n) s).
Proof.
  intros Hlo [Ta Tk Te Tn] [_ Hsent] next Hn.
  destruct (delivered1_fields next (pk n) s) as (E1 & E2 & _ & _ & E5 & _ & _).
  assert (next = seq_wrapping_add init (n + 1)) as Hnext by (unfold next; by rewrite Ta, wrap_assoc).
  split; [by rewrite E1| | |lia].
  - rewrite E2. intros k p Hp. destruct (Tk k p Hp) as (d & Hd & -> & -> & Hs). exists (d - 1).
    assert (d <> 1) by (intros ->; rewrite <- Hnext in Hp; congruence).
    split; [lia|]. replace (n + 1 + (d - 1)) with (n + d) by lia. replace (n + d - 1) with (n + d - 1) by lia. done.
  - rewrite E5. unfold carried_by_fin. rewrite orb_true_iff, bool_decide_eq_true, fin_is_last, Te.
    replace (n + 1 - 1) with n by lia. split; [|by left]. intros [|E]; [done|]. specialize (Hsent _ E). lia.
Qed.
Lemma flushed_tracks s ds s' : flushed s ds s' -> forall n, tracks 1 n s ->
  exists k, tracks 2 (n + Z.of_nat k) s' /\ concat (map rp_bytes ds) = stream_bytes n k
    /\ (k + size (reorder s') = size (reorder s))%nat
    /\ forall j, n <= j < n + 32768 -> j < n + Z.of_nat k \/ holds s' j <-> holds s j.
Proof.
  induction 1 as [s Hn|s p ds s' next Hn Hfl IH]; intros n Ht.
  - exists 0%nat. rewrite Z.add_0_r. split; [|split_and!; [done|done|intros j Hj; intuition lia]]. destruct Ht as [Ta Tk Te Tn]. split; [done| |done|done].
    intros k p Hp. destruct (Tk k p Hp) as (d & Hd & -> & Hrest). exists d. split; [|done].
    assert (d <> 1) by (intros ->; rewrite Ta, wrap_assoc in Hn; congruence). lia.
  - destruct (tr_keys _ _ _ Ht _ _ Hn) as (d & Hd & E & -> & Hs).
    assert (d = 1) as ->.
    { unfold next in E. rewrite (tr_ack _ _ _ Ht), <- !wrap_assoc in E. destruct max_distance as (_ & Em & _).
      apply wrap_inj in E; lia. }
    replace (n + 1 - 1) with n in * by lia.
    destruct (IH (n + 1)) as (k & Hk & Hb & Hsize & Hhold).
    { apply (delivered1_tracks 1 n (taken next (pk n) s)); [lia| |done|by apply lookup_delete_eq].
      destruct Ht as [Ta Tk Te Tn]. split; try done.
      intros k q Hq. cbn in Hq. apply lookup_delete_Some in Hq as [_ Hq]. by apply Tk. }
    assert (next = seq_wrapping_add init (n + 1)) as Hnext by (unfold next; by rewrite (tr_ack _ _ _ Ht), wrap_assoc).
    exists (S k). split; [by replace (n + Z.of_nat (S k)) with (n + 1 + Z.of_nat k) by lia|split_and!].
    + by rewrite map_app, concat_app, received_bytes, Hb, stream_bytes_cons.
    + destruct (delivered1_fields next (pk n) (taken next (pk n) s)) as (_ & Er & _). rewrite Er in Hsize.
      cbn [taken set_reorder reorder] in Hsize. rewrite map_size_delete_Some in Hsize by eauto.
      destruct (size (reorder s)) eqn:Es; [apply map_size_empty_iff in Es; by rewrite Es in Hn|]. lia.
    + intros j Hj. destruct (decide (j = n)) as [->|Hne].
      { split; [intros _; unfold holds; rewrite <- Hnext; by rewrite Hn|lia]. }
      replace (n + Z.of_nat (S k)) with (n + 1 + Z.of_nat k) by lia. rewrite Hhold by lia. unfold holds.
      destruct (delivered1_fields next (pk n) (taken next (pk n) s)) as (_ & Er & _). rewrite Er. cbn [taken set_reorder reorder].
      rewrite lookup_delete_ne; [done|]. rewrite Hnext. intros E'. apply Hne. symmetry. apply position_inj; [lia|done].
Qed.
Lemma moved_tracks n s i out s' : tracks 2 n s -> sent i -> -32768 <= i + 1 - n <= 32768 ->
  moved s (seq_wrapping_add init (i + 1)) (pk i) out s' -> Z.of_nat (size (reorder s)) <= MAX_REORDER_PACKETS ->
  exists k, tracks 2 (n + Z.of_nat k) s' /\ concat (map rp_bytes out) = stream_bytes n k /\ (k <= 954)%nat
    /\ forall j, n <= j < n + 30000 ->
         (j < n + Z.of_nat k \/ holds s' j -> holds s j \/ j = i) /\ (holds s j -> j < n + Z.of_nat k \/ holds s' j).
Proof.
  intros Ht Hs Hi Hm Hsize. destruct max_distance as (E1 & E2 & _).
  set (seq := seq_wrapping_add init (i + 1)) in *.
  destruct (fin_noted_fields seq (pk i) s) as (F1 & F2 & _ & _ & _ & F5 & _).
  assert (tracks 2 n (fin_noted seq (pk i) s)) as Htf.
  { destruct Ht as [Ta Tk Te Tn]. split; rewrite ?F1, ?F2, ?F5; done. }
  assert (forall d, 1 <= d <= MAX_REORDER_DISTANCE -> seq = seq_wrapping_add (acknowledgement_number s) d -> i = n + d - 1) as Hpos.
  { intros d Hd E. rewrite (tr_ack _ _ _ Ht), wrap_assoc in E. unfold seq in E. unfold seq_wrapping_add, wrapping_add in E.
    change (2 ^ 16) with 65536 in E. divlia. }
  destruct Hm as [|m|ds s1 b E Hn Hfit Hfl|d c b Hd E Hn Hfit].
  - exists 0%nat. rewrite Z.add_0_r. split_and!; [done|done|lia|]. intros j Hj. intuition lia.
  - exists 0%nat. rewrite Z.add_0_r. split_and!; [by destruct Ht|done|lia|]. intros j Hj. unfold holds. cbn [set_drops reorder]. intuition lia.
  - assert (i = n) as Hin by (specialize (Hpos 1 ltac:(lia) E); lia). rewrite Hin in *.
    pose proof (delivered1_tracks 2 n _ ltac:(lia) Htf Hs) as H1. rewrite F1, F2, <- E in H1. specialize (H1 Hn).
    destruct (flushed_tracks _ _ _ Hfl _ H1) as (k & Hk & Hb & Hsz & Hhold).
    destruct (delivered1_fields seq (pk n) (fin_noted seq (pk n) s)) as (_ & Er & _). rewrite Er, F2 in Hsz.
    exists (S k). split_and!; [| |lia|].
    + replace (n + Z.of_nat (S k)) with (n + 1 + Z.of_nat k) by lia. by destruct Hk.
    + by rewrite map_app, concat_app, received_bytes, Hb, stream_bytes_cons.
    + intros j Hj. unfold holds. cbn [set_high_water reorder]. destruct (decide (j = n)) as [->|Hne]; [split; [by right|lia]|].
      replace (n + Z.of_nat (S k)) with (n + 1 + Z.of_nat k) by lia. specialize (Hhold j ltac:(lia)).
      unfold holds in Hhold. rewrite Er, F2 in Hhold. tauto.
  - exists 0%nat. rewrite Z.add_0_r. pose proof (Hpos d ltac:(lia) E) as Hij. split_and!; [|done|lia|].
    2:{ intros j Hj. unfold holds. cbn [set_high_water set_reorder reorder]. destruct (decide (j = i)) as [->|Hne].
        - split; [by right|]. fold seq. rewrite Hn. by intros [].
        - rewrite lookup_insert_ne; [|intros E'; apply Hne; symmetry; apply position_inj; [lia|exact E']]. split; [intros [?|?]; [lia|by left]|by right]. }
    pose proof (Hpos d ltac:(lia) E) as Hi'.
    destruct Htf as [Ta Tk Te Tn]. split; [done| |done|done].
    cbn [set_high_water set_reorder reorder]. intros k q [[<- <-]|[_ Hq]]%lookup_insert_Some; [|by apply (tr_keys _ _ _ Ht)].
    exists d. split; [lia|]. rewrite <- Hi'. split; [|done]. unfold seq. f_equal. lia.
Qed.
Lemma session_tracks n bytes s : session n bytes s ->
  tracks 2 n s /\ window_ok 2 s /\ bytes = stream_bytes 0 (Z.to_nat n).
Proof.
  induction 1 as [|n bytes s i t s' o _ (Ht & Hw & Hb) Hs Hi Htype E|n bytes s k s' r _ (Ht & Hw & Hb) Hk E].
  - split; [|split; [by apply new_window|done]]. split; cbn; [|done| |lia].
    + unfold seq_wrapping_add, wrapping_add. by rewrite Z.add_0_r, Z.mod_small.
    + split; [done|]. intros El%last_nonneg. lia.
  - pose proof (receive_answer t _ (stored_payload (pk i)) s Hw (is_u_add init (i + 1))) as H.
    destruct (receive_refusal _ _ _); [by rewrite H in E|]. destruct H as (k & s2 & o2 & Hk & E2 & Hm & _ & Hw2).
    rewrite E2 in E. injection E as -> ->. rewrite Htype in Hk. injection Hk as <-.
    assert (mkStored (stored_type (pk i)) (stored_payload (pk i)) = pk i) as Hpk by (by destruct (pk i)). rewrite Hpk in Hm.
    destruct (moved_tracks n s i (delivered o) s' Ht Hs Hi Hm (window_count _ Hw)) as (j & Htj & Hbj & Hj & _).
    assert (wrapping_sub 16 (acknowledgement_number s') (acknowledgement_number s) = Z.of_nat j) as ->.
    { rewrite (tr_ack _ _ _ Ht), (tr_ack _ _ _ Htj). wrap. rewrite Zminus_mod_idemp_l, Zminus_mod_idemp_r.
      replace (init + (n + Z.of_nat j) - (init + n)) with (Z.of_nat j) by lia. apply Z.mod_small. lia. }
    split; [done|split; [done|]]. rewrite Hb, Hbj. pose proof (tr_nonneg _ _ _ Ht).
    replace (stream_bytes n j) with (stream_bytes (Z.of_nat (Z.to_nat n)) j) by (f_equal; lia).
    rewrite stream_bytes_app. f_equal. lia.
  - pose proof (consume_ok k s Hw Hk) as H. destruct (terminal s); [rewrite E in H; by simplify_eq|].
    destruct (delivered_unconsumed_bytes s <? k); [rewrite E in H; by simplify_eq|].
    destruct H as [Hw' E']. rewrite E in E'. injection E' as -> _. split; [by destruct Ht|split; [done|done]].
Qed.
End stream.

(** * Properties *)

(** The receive window holds whatever a peer sends.  In every state
    reachable by receiving arbitrary packets, consuming and resetting, the
    buffered packets lie 2 to 954 positions ahead of the acknowledgement,
    the byte counter is their size, bytes buffered and delivered but not
    consumed never exceed the receive window, and at most 953 packets are
    buffered; and no operation panics, the unchecked counter subtractions
    included. *)
Theorem receive_window_invariant ack s op : is_u 16 ack -> reachable ack s -> op_typed op ->
  window_ok 2 s /\ Z.of_nat (size (reorder s)) <= MAX_REORDER_PACKETS
  /\ returns (snd (run_op op s)) /\ window_ok 2 (fst (run_op op s)).
Proof.
  intros Ha Hr Ht. pose proof (reachable_window ack s Ha Hr) as Hw.
  destruct (op_ok op s Hw Ht) as [Hw' Hret]. split; [done|split; [by apply window_count|done]].
Qed.

(** [receive] refuses exactly what it documents and otherwise answers
    truthfully.  A terminal state, a packet type that carries no sequence, an
    empty DATA packet and an oversized payload are refused without a change
    (the packet-count limit of the code is never the reason); every other
    packet is answered with the acknowledgement number, the receive window
    and a selective acknowledgement whose every bit, of all 65536 offsets,
    says whether that packet is buffered, and whose length the packet encoder
    accepts. *)
Theorem receive_answers_truthfully ack s t seq bytes : is_u 16 ack -> reachable ack s -> is_u 16 seq ->
  match receive_refusal t bytes s with
  | Some e => receive t seq bytes s = (s, Err e)
  | None => exists s' o, receive t seq bytes s = (s', Ok o) /\ outcome_means s' o
  end.
Proof.
  intros Ha Hr Hq. pose proof (receive_answer t seq bytes s (reachable_window _ _ Ha Hr) Hq) as H.
  destruct (receive_refusal t bytes s); [done|]. destruct H as (k & s' & o & _ & E & _ & Ho & _). by exists s', o.
Qed.

(** uTP delivers the sender's stream in order, without loss, repetition
    or corruption.  Whatever packets of the stream arrive, in any order and
    any number of times (none delayed by half the sequence space), the
    payload bytes delivered so far are exactly those of the packets 0 to
    [n - 1], the acknowledgement number is that of packet [n - 1], across
    the wrap of the sequence space, and the end of the stream is reported
    exactly when the packet with FIN has been delivered. *)
Theorem stream_delivered_in_order pk last init n bytes s :
  (forall i, stored_type (pk i) = SP_Fin <-> last = Some i) -> (forall l, last = Some l -> 0 <= l) ->
  is_u 16 init -> session pk last init n bytes s ->
  bytes = stream_bytes pk 0 (Z.to_nat n) /\ acknowledgement_number s = seq_wrapping_add init n
  /\ (eof_reached s = true <-> last = Some (n - 1)).
Proof.
  intros Hf Hl Hi Hs. destruct (session_tracks pk last init Hf Hl Hi n bytes s Hs) as (Ht & _ & Hb).
  split_and!; [done|apply Ht|apply Ht..].
Qed.

(** The next packet is never held back.  When the packet right after the
    acknowledgement arrives on a stream with no FIN seen and its payload fits
    in the receive window, it is delivered at once, first, and afterwards no
    buffered packet is left that could be delivered. *)
Theorem next_packet_delivered ack s bytes : is_u 16 ack -> reachable ack s ->
  terminal s = false -> fin_sequence s = None -> bytes <> [] -> len bytes <= MAX_UTP_PAYLOAD_SIZE ->
  fits s (mkStored SP_Data bytes) ->
  let seq := seq_wrapping_add (acknowledgement_number s) 1 in
  exists s' o rest, receive PT_Data seq bytes s = (s', Ok o)
    /\ delivered o = mkReceived seq bytes false :: rest
    /\ reorder s' !! seq_wrapping_add (acknowledgement_number s') 1 = None.
Proof.
  intros Ha Hr Hterm Hfin Hne Hl Hfit seq. pose proof (reachable_window ack s Ha Hr) as Hw.
  assert (reorder s !! seq = None) as Hn.
  { destruct (reorder s !! seq) as [q|] eqn:E; [|done]. destruct (wo_keys _ _ Hw _ _ E) as [(d & Hd & Ed) _].
    destruct max_distance as (_ & Em & _). apply wrap_inj in Ed; lia. }
  pose proof (receive_eq PT_Data seq bytes s) as H. unfold receive_refusal in H. rewrite Hterm in H. cbn [from_packet_type] in H.
  rewrite (bool_decide_false (bytes = [])), andb_false_r, (proj2 (Z.ltb_ge _ _)) in H by done.
  destruct H as (k & [= <-] & _ & E). unfold accept, fin_check in E. rewrite Hfin in E.
  rewrite (relation_to_unique (After 1)) in E; [|apply is_u_add|apply Hw|by split].
  set (p := mkStored SP_Data bytes) in *.
  assert (receive_ahead 1 seq p s = deliver_next seq p (reorder_bytes s + delivered_unconsumed_bytes s + len bytes) s) as Ea.
  { unfold receive_ahead, mbind, M_bind. unfold get at 1. cbv beta iota. rewrite Hn.
    pose proof (wo_bytes _ _ Hw). pose proof (stored_bytes_nonneg (reorder s)). pose proof (wo_delivered _ _ Hw).
    pose proof (len_nonneg bytes). destruct max_distance as (_ & _ & _ & E4 & _).
    unfold fits in Hfit. cbn [p stored_payload] in Hfit. unfold lift, total_buffered_bytes.
    change (MAX_REORDER_DISTANCE <? 1) with false. change (bool_decide (stored_type p = SP_Fin)) with false. cbn [andb].
    rewrite (proj2 (checked_add_Some _ _ _ _)) by (split; [done|unfold USIZE; lia]). cbn [expect].
    rewrite (proj2 (checked_add_Some _ _ _ _)) by (split; [done|unfold USIZE; cbn [p stored_payload]; lia]). cbn [ok_or].
    cbn [p stored_payload]. by rewrite (proj2 (Z.ltb_ge _ _)) by lia. }
  destruct (deliver_next_ok s p (reorder_bytes s + delivered_unconsumed_bytes s + len bytes) Hw Hfit Hn)
    as (ds & s1 & b & o & Hfl & Ed & Hdel & _).
  fold seq in Ed. rewrite E, Ea, Ed. eexists _, o, ds. split; [done|]. split; [|by apply flushed_end in Hfl].
  rewrite Hdel. unfold received. by rewrite bool_decide_false by done.
Qed.

(** ** Witnesses *)

(** A stream of three packets over the wrap, the last with FIN. *)
Definition sample_stream (i : Z) : StoredPacket :=
  mkStored (if i =? 2 then SP_Fin else SP_Data) [65 + i].
(** Packet 1 arrives first, then packet 0. *)
Definition sample_state : ReceiveState :=
  fst (run_op (OpReceive PT_Data 0 [66]) (ReceiveState_new 65534)).
Lemma sample_reachable : reachable 65534 sample_state.
Proof. apply reachable_op; [apply reachable_new|by vm_compute]. Qed.

Lemma receive_window_invariant_witness :
  window_ok 2 sample_state /\ returns (snd (run_op (OpReceive PT_Data 65535 [65]) sample_state)).
Proof.
  destruct (receive_window_invariant 65534 sample_state (OpReceive PT_Data 65535 [65])) as (H1 & _ & H2 & _);
    [done|apply sample_reachable|done|]. exact (conj H1 H2).
Defined.
Lemma receive_answers_truthfully_witness :
  exists s' o, receive PT_Data 5 [1] sample_state = (s', Ok o) /\ outcome_means s' o.
Proof. exact (receive_answers_truthfully 65534 sample_state PT_Data 5 [1] ltac:(done) sample_reachable ltac:(done)). Defined.
Lemma next_packet_delivered_witness :
  exists s' o rest, receive PT_Data 65535 [65] sample_state = (s', Ok o)
    /\ delivered o = mkReceived 65535 [65] false :: rest
    /\ reorder s' !! seq_wrapping_add (acknowledgement_number s') 1 = None.
Proof. apply (next_packet_delivered 65534 sample_state [65]); try done. apply sample_reachable. Defined.

Lemma sample_fin i : stored_type (sample_stream i) = SP_Fin <-> Some 2 = Some i.
Proof. unfold sample_stream. cbn. destruct (Z.eqb_spec i 2) as [->|]; split; congruence. Qed.
(** One call of the session, as a function of the state. *)
Lemma session_step pk last init n n' bytes bytes' s i t r :
  session pk last init n bytes s -> sent last i -> -32768 <= i + 1 - n <= 32768 ->
  from_packet_type t = Some (stored_type (pk i)) ->
  receive t (seq_wrapping_add init (i + 1)) (stored_payload (pk i)) s = r ->
  match snd r with
  | Ok o => n' = n + wrapping_sub 16 (acknowledgement_number (fst r)) (acknowledgement_number s)
            /\ bytes' = bytes ++ concat (map rp_bytes (delivered o))
  | _ => False
  end -> session pk last init n' bytes' (fst r).
Proof.
  intros Hs Hi Hd Ht E H. destruct r as [s' [o|?| |]]; try done. destruct H as [-> ->]. by eapply session_packet.
Qed.
Definition sample_middle : ReceiveState := fst (receive PT_Data 65535 [65] sample_state).
Definition sample_end : ReceiveState := fst (receive PT_Fin 1 [67] sample_middle).
Lemma sample_sent i : 0 <= i <= 2 -> sent (Some 2) i.
Proof. intros Hi. split; [lia|]. intros l E. injection E as <-. lia. Qed.
Lemma sample_session : session sample_stream (Some 2) 65534 3 [65; 66; 67] sample_end.
Proof.
  assert (session sample_stream (Some 2) 65534 0 [] sample_state) as H1.
  { eapply (session_step sample_stream (Some 2) 65534 0 0 [] [] _ 1 PT_Data (receive PT_Data 0 [66] (ReceiveState_new 65534)));
      [apply session_new|apply sample_sent; lia|lia|done|done|]. vm_compute. done. }
  assert (session sample_stream (Some 2) 65534 2 [65; 66] sample_middle) as H2.
  { eapply (session_step sample_stream (Some 2) 65534 0 2 [] [65; 66] _ 0 PT_Data (receive PT_Data 65535 [65] sample_state));
      [done|apply sample_sent; lia|lia|done|done|]. vm_compute. done. }
  eapply (session_step sample_stream (Some 2) 65534 2 3 [65; 66] [65; 66; 67] _ 2 PT_Fin (receive PT_Fin 1 [67] sample_middle));
    [done|apply sample_sent; lia|lia|done|done|]. vm_compute. done.
Qed.
Lemma stream_delivered_in_order_witness :
  [65; 66; 67] = stream_bytes sample_stream 0 3 /\ eof_reached sample_end = true.
Proof.
  destruct (stream_delivered_in_order sample_stream (Some 2) 65534 3 [65; 66; 67] sample_end sample_fin) as (H1 & _ & H2);
    [intros l E; injection E as <-; lia|done|apply sample_session|]. split; [done|]. by apply H2.
Defined.
