(* ===== verification/UtpSend.v ===== *)
(** * UtpSend: the ledger of sent packets of [utp/send.rs]

    Every packet sent is kept until an acknowledgement covers it,
    cumulatively or selectively.  The ledger bounds packets and bytes in
    flight, measures round trips, signals losses and keeps the
    retransmission deadline. *)
From S2P Require Import Prelude Bytes UtpSequence UtpPacket.

Definition MAX_SENT_PACKETS : Z := 1024.
Definition MAX_SENT_BYTES : Z := 1024 * 1024.
Definition MAX_TRANSMISSIONS : Z := 8.
Definition INITIAL_RTO_MICROS : Z := 1000000.
Definition MIN_RTO_MICROS : Z := 500000.
Definition MAX_RTO_MICROS : Z := 60000000.
Definition LOSS_ACK_THRESHOLD : Z := 3.

Inductive AckDisposition :=
| AD_Duplicate
| AD_Cumulative
| AD_Selective
| AD_CumulativeAndSelective
| AD_Stale (distance : Z)
| AD_Future
| AD_Ambiguous.

Record AckOutcome := mkAck {
  a_disposition : AckDisposition;
  acknowledged_packets : Z;
  acknowledged_bytes : Z;
  acknowledged_sequences : list SequenceNumber;
  loss_signals : list SequenceNumber;
  rtt_sample_micros : option Z;
  a_timeout_deadline_micros : option Z;
}.
Record TimeoutOutcome := mkTimeout {
  t_loss_signals : list SequenceNumber;
  t_consecutive_timeouts : Z;
  t_effective_rto_micros : Z;
  next_deadline_micros : Z;
}.

Inductive SendError :=
| SE_Terminal
| SE_InvalidPacketType (t : PacketType)
| SE_InvalidPayloadLength (t : PacketType) (length : Z)
| SE_PayloadTooLarge (length maximum : Z)
| SE_SentPacketLimit (count maximum : Z)
| SE_SentByteLimit (bytes maximum : Z)
| SE_SequenceWindowLimit (distance maximum : Z)
| SE_SynAlreadySent
| SE_FinAlreadySent
| SE_DataAfterFin
| SE_InvalidSackLength (length : Z)
| SE_UnknownPacket (seq : SequenceNumber)
| SE_TransmissionLimit (seq : SequenceNumber) (transmissions maximum : Z).

Record SentPacket := mkSent {
  sp_sequence_number : SequenceNumber;
  sp_packet_type : PacketType;
  sp_payload : list Z;
  transmissions : Z;
  first_sent_at_micros : Z;
  last_sent_at_micros : Z;
  loss_signaled : bool;
}.
Record SentPacketSnapshot := mkSentSnapshot {
  ss_sequence_number : SequenceNumber;
  ss_packet_type : PacketType;
  payload_bytes : Z;
  ss_transmissions : Z;
  ss_first_sent_at_micros : Z;
  ss_last_sent_at_micros : Z;
  ss_loss_signaled : bool;
}.
Definition sent_snapshot (p : SentPacket) : SentPacketSnapshot :=
  mkSentSnapshot (sp_sequence_number p) (sp_packet_type p) (len (sp_payload p)) (transmissions p)
    (first_sent_at_micros p) (last_sent_at_micros p) (loss_signaled p).
Definition set_loss (b : bool) (p : SentPacket) : SentPacket :=
  mkSent (sp_sequence_number p) (sp_packet_type p) (sp_payload p) (transmissions p)
    (first_sent_at_micros p) (last_sent_at_micros p) b.

(** ** Round-trip estimation *)
Record RttEstimator := mkRtt {
  smoothed_micros : option Z;
  variance_micros : option Z;
  base_rto_micros : Z;
}.
Definition RttEstimator_new : RttEstimator := mkRtt None None INITIAL_RTO_MICROS.

(** [u64::clamp] *)
Definition clamp_rto (x : Z) : Z := Z.min (Z.max x MIN_RTO_MICROS) MAX_RTO_MICROS.
Definition RttEstimator_record (sample : Z) (r : RttEstimator) : RttEstimator :=
  match smoothed_micros r, variance_micros r with
  | Some smoothed, Some variance =>
    let difference := Z.abs (smoothed - sample) in
    let next_variance := saturating_add 64 (saturating_mul 64 variance 3) difference / 4 in
    let next_smoothed := saturating_add 64 (saturating_mul 64 smoothed 7) sample / 8 in
    mkRtt (Some next_smoothed) (Some next_variance)
      (clamp_rto (saturating_add 64 next_smoothed (saturating_mul 64 next_variance 4)))
  | _, _ =>
    let variance := sample / 2 in
    mkRtt (Some sample) (Some variance)
      (clamp_rto (saturating_add 64 sample (saturating_mul 64 variance 4)))
  end.

(** ** The ledger *)
Record SendState := mkSend {
  next_sequence_number : SequenceNumber;
  cumulative_acknowledgement : SequenceNumber;
  highest_sequence_sent : option SequenceNumber;
  outstanding : list SentPacket;
  outstanding_bytes : Z;
  packet_high_water : Z;
  byte_high_water : Z;
  duplicate_ack_count : Z;
  consecutive_timeouts : Z;
  timeout_deadline_micros : option Z;
  rtt : RttEstimator;
  syn_sent : bool;
  fin_sent : bool;
  terminal : bool;
}.
Definition SendState_new (initial : SequenceNumber) : SendState :=
  mkSend initial (seq_wrapping_sub initial 1) None [] 0 0 0 0 0 None RttEstimator_new false false false.

(** Field updates. *)
Definition set_outstanding l b s := mkSend (next_sequence_number s) (cumulative_acknowledgement s)
  (highest_sequence_sent s) l b (packet_high_water s) (byte_high_water s) (duplicate_ack_count s)
  (consecutive_timeouts s) (timeout_deadline_micros s) (rtt s) (syn_sent s) (fin_sent s) (terminal s).
Definition set_packets l s := set_outstanding l (outstanding_bytes s) s.
Definition set_cumulative a s := mkSend (next_sequence_number s) a
  (highest_sequence_sent s) (outstanding s) (outstanding_bytes s) (packet_high_water s) (byte_high_water s)
  (duplicate_ack_count s) (consecutive_timeouts s) (timeout_deadline_micros s) (rtt s) (syn_sent s) (fin_sent s) (terminal s).
Definition set_sent_marks n h p b syn fin s := mkSend n (cumulative_acknowledgement s)
  h (outstanding s) (outstanding_bytes s) p b
  (duplicate_ack_count s) (consecutive_timeouts s) (timeout_deadline_micros s) (rtt s) syn fin (terminal s).
Definition set_counts d c s := mkSend (next_sequence_number s) (cumulative_acknowledgement s)
  (highest_sequence_sent s) (outstanding s) (outstanding_bytes s) (packet_high_water s) (byte_high_water s)
  d c (timeout_deadline_micros s) (rtt s) (syn_sent s) (fin_sent s) (terminal s).
Definition set_deadline t s := mkSend (next_sequence_number s) (cumulative_acknowledgement s)
  (highest_sequence_sent s) (outstanding s) (outstanding_bytes s) (packet_high_water s) (byte_high_water s)
  (duplicate_ack_count s) (consecutive_timeouts s) t (rtt s) (syn_sent s) (fin_sent s) (terminal s).
Definition set_rtt r s := mkSend (next_sequence_number s) (cumulative_acknowledgement s)
  (highest_sequence_sent s) (outstanding s) (outstanding_bytes s) (packet_high_water s) (byte_high_water s)
  (duplicate_ack_count s) (consecutive_timeouts s) (timeout_deadline_micros s) r (syn_sent s) (fin_sent s) (terminal s).

Abbreviation method := (M SendState SendError).

(** [base_rto.checked_shl(timeouts.min(63)).unwrap_or(u64::MAX).min(MAX)]:
    the shift only fails at 64 bits, and drops the bits it pushes out. *)
Definition effective_rto_micros (s : SendState) : Z :=
  Z.min (default (umax 64) (checked_shl 64 (base_rto_micros (rtt s)) (Z.min (consecutive_timeouts s) 63)))
        MAX_RTO_MICROS.
(** [.min()] of an iterator. *)
Fixpoint min_of (l : list Z) : option Z :=
  match l with
  | [] => None
  | x :: r => Some (match min_of r with Some m => Z.min x m | None => x end)
  end.
Definition recompute_timeout (s : SendState) : SendState :=
  set_deadline (match min_of (map last_sent_at_micros (outstanding s)) with
                | Some sent_at => Some (saturating_add 64 sent_at (effective_rto_micros s))
                | None => None
                end) s.

(** ** Sending *)

(** The match on the packet type. *)
Definition sent_type_check (t : PacketType) (payload : list Z) (s : SendState) : option SendError :=
  match t with
  | PT_Syn =>
    if syn_sent s then Some SE_SynAlreadySent
    else if negb (bool_decide (payload = [])) then Some (SE_InvalidPayloadLength t (len payload)) else None
  | PT_Data =>
    if fin_sent s then Some SE_DataAfterFin
    else if bool_decide (payload = []) then Some (SE_InvalidPayloadLength t 0) else None
  | PT_Fin => if fin_sent s then Some SE_FinAlreadySent else None
  | PT_State | PT_Reset => Some (SE_InvalidPacketType t)
  end.

(** The changes after every check passed. *)
Definition push_sent (t : PacketType) (payload : list Z) (now next_count next_bytes : Z) (s : SendState) : SendState :=
  let seq := next_sequence_number s in
  let s := set_outstanding (outstanding s ++ [mkSent seq t payload 1 now now false]) next_bytes s in
  recompute_timeout (set_sent_marks
    (match t with PT_Syn | PT_Data => seq_wrapping_add seq 1 | _ => seq end) (Some seq)
    (Z.max (packet_high_water s) next_count) (Z.max (byte_high_water s) next_bytes)
    (syn_sent s || bool_decide (t = PT_Syn)) (fin_sent s || bool_decide (t = PT_Fin)) s).

Definition record_sent (t : PacketType) (payload : list Z) (now : Z) : method SequenceNumber :=
  s ← get;
  if terminal s then fail SE_Terminal
  else match sent_type_check t payload s with
  | Some e => fail e
  | None =>
    if MAX_UTP_PAYLOAD_SIZE <? len payload then fail (SE_PayloadTooLarge (len payload) MAX_UTP_PAYLOAD_SIZE)
    else
      let next_count := len (outstanding s) + 1 in
      if MAX_SENT_PACKETS <? next_count then fail (SE_SentPacketLimit next_count MAX_SENT_PACKETS)
      else
        next_bytes ← lift (ok_or (checked_add USIZE (outstanding_bytes s) (len payload))
                                 (SE_SentByteLimit (umax USIZE) MAX_SENT_BYTES));
        if MAX_SENT_BYTES <? next_bytes then fail (SE_SentByteLimit next_bytes MAX_SENT_BYTES)
        else
          match relation_to (next_sequence_number s) (cumulative_acknowledgement s) with
          | After distance =>
            if MAX_SENT_PACKETS <? distance then fail (SE_SequenceWindowLimit distance MAX_SENT_PACKETS)
            else
              put (push_sent t payload now next_count next_bytes s);;
              mret (next_sequence_number s)
          | Equal | Before _ | Ambiguous => fail (SE_SequenceWindowLimit (umax 16) MAX_SENT_PACKETS)
          end
  end.

(** ** Acknowledgements *)
Definition after_distance (r : SequenceRelation) : option Z := match r with After d => Some d | _ => None end.
Definition validate_sack (bytes : list Z) : outcome SendError unit :=
  if negb ((1 <=? len bytes) && (len bytes <=? MAX_SACK_BYTES)) then Err (SE_InvalidSackLength (len bytes)) else Ok tt.

(** The offsets of the bits set in one byte, from a bit of it on. *)
Fixpoint byte_offsets (n : nat) (bit byte_index byte : Z) : outcome SendError (list Z) :=
  match n with
  | O => Ok []
  | S m =>
    if negb (Z.land byte (Z.shiftl 1 bit) =? 0) then
      offset ← expect (let x := byte_index * 8 + bit + 2 in if x <? 2 ^ 16 then Some x else None);
      rest ← byte_offsets m (bit + 1) byte_index byte;
      Ok (offset :: rest)
    else byte_offsets m (bit + 1) byte_index byte
  end.
Fixpoint set_sack_offsets (bytes : list Z) (byte_index : Z) : outcome SendError (list Z) :=
  match bytes with
  | [] => Ok []
  | b :: r =>
    here ← byte_offsets 8 0 byte_index b;
    rest ← set_sack_offsets r (byte_index + 1);
    Ok (here ++ rest)
  end.

(** How far the cumulative acknowledgement advances, or why it is ignored. *)
Definition ack_advance (s : SendState) (ack : SequenceNumber) : AckDisposition + Z :=
  match relation_to ack (cumulative_acknowledgement s) with
  | Equal => inr 0
  | Before distance => inl (AD_Stale distance)
  | Ambiguous => inl AD_Ambiguous
  | After distance =>
    match highest_sequence_sent s with
    | None => inl AD_Future
    | Some highest =>
      match relation_to ack highest with
      | Equal | Before _ => inr distance
      | After _ | Ambiguous => inl AD_Future
      end
    end
  end.
Definition empty_ack (d : AckDisposition) (s : SendState) : AckOutcome :=
  mkAck d 0 0 [] [] None (timeout_deadline_micros s).

(** [cumulative || selective]; [binary_search] on the sorted offsets. *)
Definition covered (cumulative ack : SequenceNumber) (advance : Z) (offsets : list Z) (p : SentPacket) : bool :=
  ((0 <? advance) && match relation_to (sp_sequence_number p) cumulative with
                     | After distance => distance <=? advance
                     | _ => false
                     end)
  || match after_distance (relation_to (sp_sequence_number p) ack) with
     | Some offset => bool_decide (offset ∈ offsets)
     | None => false
     end.
(** [while let Some(packet) = self.outstanding.pop_front()]: retained and
    acknowledged packets, and the bytes left. *)
Fixpoint split_outstanding (test : SentPacket -> bool) (l : list SentPacket) (bytes : Z)
    : outcome SendError (list SentPacket * list SentPacket * Z) :=
  match l with
  | [] => Ok ([], [], bytes)
  | p :: r =>
    if test p then
      bytes ← expect (checked_sub bytes (len (sp_payload p)));
      '(retained, acknowledged, bytes) ← split_outstanding test r bytes;
      Ok (retained, p :: acknowledged, bytes)
    else
      '(retained, acknowledged, bytes) ← split_outstanding test r bytes;
      Ok (p :: retained, acknowledged, bytes)
  end.

(** [filter(transmissions == 1).max_by_key(first_sent)]: only the key is
    used. *)
Fixpoint latest_first_sent (l : list SentPacket) : option Z :=
  match l with
  | [] => None
  | p :: r =>
    if transmissions p =? 1
    then Some (match latest_first_sent r with Some m => Z.max (first_sent_at_micros p) m | None => first_sent_at_micros p end)
    else latest_first_sent r
  end.
Fixpoint payload_sum (l : list SentPacket) : Z :=
  match l with [] => 0 | p :: r => len (sp_payload p) + payload_sum r end.

Definition old_enough (now guard : Z) (p : SentPacket) : bool :=
  (transmissions p =? 1) || (saturating_add 64 (last_sent_at_micros p) guard <=? now).
(** [partition_point(|reported| *reported <= offset)] *)
Fixpoint partition_point (offsets : list Z) (offset : Z) : Z :=
  match offsets with
  | [] => 0
  | x :: r => if x <=? offset then 1 + partition_point r offset else 0
  end.
(** The loop of [loss_signals_from_sack] over the packets. *)
Fixpoint signal_losses (ack : SequenceNumber) (offsets : list Z) (now guard : Z) (l : list SentPacket)
    : list SentPacket * list SequenceNumber :=
  match l with
  | [] => ([], [])
  | p :: r =>
    let '(r', signals) := signal_losses ack offsets now guard r in
    match relation_to (sp_sequence_number p) ack with
    | After offset =>
      if (LOSS_ACK_THRESHOLD <=? len offsets - partition_point offsets offset)
         && negb (loss_signaled p) && old_enough now guard p
      then (set_loss true p :: r', sp_sequence_number p :: signals)
      else (p :: r', signals)
    | _ => (p :: r', signals)
    end
  end.
(** [iter_mut().find(..)], marking the packet found. *)
Fixpoint signal_missing (missing : SequenceNumber) (now guard : Z) (l : list SentPacket)
    : option (list SentPacket) :=
  match l with
  | [] => None
  | p :: r =>
    if (sp_sequence_number p =? missing) && negb (loss_signaled p) && old_enough now guard p
    then Some (set_loss true p :: r)
    else match signal_missing missing now guard r with Some r' => Some (p :: r') | None => None end
  end.

Definition ack_disposition (advance : Z) (offsets : list Z) : AckDisposition :=
  match 0 <? advance, negb (bool_decide (offsets = [])) with
  | true, true => AD_CumulativeAndSelective
  | true, false => AD_Cumulative
  | false, true => AD_Selective
  | false, false => AD_Duplicate
  end.

(** After the packets are sorted out: estimator, counters, loss signals and
    deadline. *)
Definition conclude_ack (ack : SequenceNumber) (advance : Z) (offsets : list Z) (source : PacketType)
    (now : Z) (acknowledged : list SentPacket) (s : SendState) : SendState * AckOutcome :=
  let sample := match latest_first_sent acknowledged with
                | Some first => Some (saturating_sub now first) | None => None end in
  let s := match sample with Some x => set_rtt (RttEstimator_record x (rtt s)) s | None => s end in
  let s := if (0 <? advance) || (0 <? len acknowledged) then set_counts 0 0 s
           else if bool_decide (source = PT_State) && bool_decide (offsets = [])
           then set_counts (saturating_add 8 (duplicate_ack_count s) 1) (consecutive_timeouts s) s
           else s in
  let guard := default MIN_RTO_MICROS (smoothed_micros (rtt s)) in
  let '(l, signals) := signal_losses ack offsets now guard (outstanding s) in
  let s := set_packets l s in
  let missing := seq_wrapping_add ack 1 in
  let '(s, signals) :=
    if LOSS_ACK_THRESHOLD <=? duplicate_ack_count s then
      match signal_missing missing now guard (outstanding s) with
      | Some l => (set_packets l s, signals ++ [missing])
      | None => (s, signals)
      end
    else (s, signals) in
  let s := recompute_timeout s in
  (s, mkAck (ack_disposition advance offsets) (len acknowledged) (payload_sum acknowledged)
        (map sp_sequence_number acknowledged) signals sample (timeout_deadline_micros s)).

Definition within (maximum : option Z) (offset : Z) : bool :=
  match maximum with Some m => offset <=? m | None => false end.
(** The offsets of a selective acknowledgement that were sent. *)
Definition sack_offsets_of (s : SendState) (ack : SequenceNumber) (selective : option (list Z))
    : outcome SendError (list Z) :=
  let maximum := highest_sequence_sent s ≫= fun h => after_distance (relation_to h ack) in
  match selective with
  | None => Ok []
  | Some bytes =>
    offsets ← set_sack_offsets bytes 0;
    Ok (filter (fun o => within maximum o = true) offsets)
  end.

Definition acknowledge (ack : SequenceNumber) (selective : option (list Z)) (source : PacketType) (now : Z)
    : method AckOutcome :=
  s ← get;
  if terminal s then fail SE_Terminal
  else
    lift (match selective with Some bytes => validate_sack bytes | None => Ok tt end);;
    match ack_advance s ack with
    | inl d => mret (empty_ack d s)
    | inr advance =>
      offsets ← lift (sack_offsets_of s ack selective);
      '(retained, acknowledged, bytes) ←
        lift (split_outstanding (covered (cumulative_acknowledgement s) ack advance offsets) (outstanding s) (outstanding_bytes s));
      let s := set_outstanding retained bytes s in
      let s := if 0 <? advance then set_cumulative ack s else s in
      let '(s, o) := conclude_ack ack advance offsets source now acknowledged s in
      put s;; mret o
    end.

(** ** Retransmission and timeouts *)
Fixpoint mark_first (seq : SequenceNumber) (now : Z) (l : list SentPacket)
    : outcome SendError (list SentPacket * SentPacket) :=
  match l with
  | [] => Err (SE_UnknownPacket seq)
  | p :: r =>
    if sp_sequence_number p =? seq then
      if MAX_TRANSMISSIONS <=? transmissions p then Err (SE_TransmissionLimit seq (transmissions p) MAX_TRANSMISSIONS)
      else
        n ← expect (checked_add 8 (transmissions p) 1);
        let p := mkSent (sp_sequence_number p) (sp_packet_type p) (sp_payload p) n (first_sent_at_micros p) now false in
        Ok (p :: r, p)
    else '(r', q) ← mark_first seq now r; Ok (p :: r', q)
  end.
Definition mark_retransmitted (seq : SequenceNumber) (now : Z) : method SentPacketSnapshot :=
  s ← get;
  if terminal s then fail SE_Terminal
  else
    '(l, p) ← lift (mark_first seq now (outstanding s));
    put (recompute_timeout (set_counts 0 (consecutive_timeouts s) (set_packets l s)));;
    mret (sent_snapshot p).

Definition on_timeout_classified (now : Z) (apply_backoff : bool) : method (option TimeoutOutcome) :=
  s ← get;
  if terminal s then fail SE_Terminal
  else
    match timeout_deadline_micros s with
    | None => mret None
    | Some deadline =>
      if now <? deadline then mret None
      else
        let s := set_counts 0 (if apply_backoff then saturating_add 8 (consecutive_timeouts s) 1
                               else consecutive_timeouts s) s in
        let s := set_packets (map (set_loss true) (outstanding s)) s in
        let next := saturating_add 64 now (effective_rto_micros s) in
        put (set_deadline (Some next) s);;
        mret (Some (mkTimeout (map sp_sequence_number (outstanding s)) (consecutive_timeouts s)
                      (effective_rto_micros s) next))
    end.
Definition on_timeout (now : Z) : method (option TimeoutOutcome) := on_timeout_classified now true.

Definition on_valid_incoming (now : Z) : method unit :=
  modify (fun s =>
    let s := set_counts (duplicate_ack_count s) 0 s in
    set_deadline (if bool_decide (outstanding s = []) then None
                  else Some (saturating_add 64 now (effective_rto_micros s))) s).

Definition reset : method unit :=
  modify (fun s => mkSend (next_sequence_number s) (cumulative_acknowledgement s) (highest_sequence_sent s)
                     [] 0 (packet_high_water s) (byte_high_water s) 0 0 None (rtt s) (syn_sent s) (fin_sent s) true).
Definition payload_for_retransmission (s : SendState) (seq : SequenceNumber) : option (list Z) :=
  match list_find (fun p => sp_sequence_number p = seq) (outstanding s) with
  | Some (_, p) => Some (sp_payload p)
  | None => None
  end.

(** ** Specification *)
(** The packet occupies a place 1 to [reach] after the acknowledgement. *)
Definition place_ok (reach : Z) (cumulative : SequenceNumber) (p : SentPacket) : Prop :=
  exists d, 1 <= d <= reach /\ sp_sequence_number p = seq_wrapping_add cumulative d.
Record packet_ok (p : SentPacket) : Prop := {
  po_transmissions : 1 <= transmissions p <= MAX_TRANSMISSIONS;
  po_payload : len (sp_payload p) <= MAX_UTP_PAYLOAD_SIZE;
}.
(** The highest packet sent lies [reach] places after the acknowledgement,
    at most 1024; every packet in flight lies no further, and the next
    sequence number is the one after it, or, once FIN was sent, its own. *)
Definition places_at (s : SendState) (reach next : Z) : Prop :=
  0 <= reach <= MAX_SENT_PACKETS /\ reach <= next <= reach + 1
  /\ next_sequence_number s = seq_wrapping_add (cumulative_acknowledgement s) next
  /\ match highest_sequence_sent s with
     | None => reach = 0
     | Some h => h = seq_wrapping_add (cumulative_acknowledgement s) reach
     end
  /\ Forall (place_ok reach (cumulative_acknowledgement s)) (outstanding s).
Record ledger_core (s : SendState) : Prop := {
  lo_cumulative : is_u 16 (cumulative_acknowledgement s);
  lo_count : len (outstanding s) <= MAX_SENT_PACKETS;
  lo_bytes : outstanding_bytes s = payload_sum (outstanding s);
  lo_bound : outstanding_bytes s <= MAX_SENT_BYTES;
  lo_places : exists reach next, places_at s reach next;
  lo_packets : Forall packet_ok (outstanding s);
  lo_rto : MIN_RTO_MICROS <= base_rto_micros (rtt s) <= MAX_RTO_MICROS;
  lo_timeouts : is_u 8 (consecutive_timeouts s);
}.
(** Moreover the timer is armed exactly while packets are in flight. *)
Definition ledger_ok (s : SendState) : Prop :=
  ledger_core s /\ (timeout_deadline_micros s = None <-> outstanding s = []).

(** A packet at distance [d] after the acknowledgement is covered by an
    acknowledgement that advances by [advance] when [d] is no further, or
    when its bit in the selective mask is set. *)
Definition acknowledged_by (s : SendState) (advance : Z) (selective : option (list Z)) (p : SentPacket) : bool :=
  let d := wrapping_sub 16 (sp_sequence_number p) (cumulative_acknowledgement s) in
  (d <=? advance) || match selective with Some mask => acknowledges_offset mask (d - advance) | None => false end.
(** A packet without its loss flag. *)
Definition unmarked (p : SentPacket) : SentPacket := set_loss false p.

(** * Lemmas *)
Lemma payload_sum_app l k : payload_sum (l ++ k) = payload_sum l + payload_sum k.
Proof. induction l as [|p r IH]; cbn [app payload_sum]; lia. Qed.
Lemma payload_sum_nonneg l : 0 <= payload_sum l.
Proof. induction l as [|p r IH]; cbn [payload_sum]; [lia|]. pose proof (len_nonneg (sp_payload p)). lia. Qed.
Lemma unmarked_fields l k : map unmarked l = map unmarked k ->
  payload_sum l = payload_sum k /\ len l = len k /\ map sp_sequence_number l = map sp_sequence_number k
  /\ map last_sent_at_micros l = map last_sent_at_micros k.
Proof.
  revert k. induction l as [|p r IH]; intros [|q k]; try done. cbn [map payload_sum]. intros [= E1 E2 E3 E4 E5 E6 Er].
  destruct (IH k Er) as (H1 & H2 & H3 & H4). rewrite !len_cons, E1, E3, E6, H1, H2, H3, H4. done.
Qed.
Lemma unmarked_Forall (Q : SentPacket -> Prop) l k : (forall b p, Q p -> Q (set_loss b p)) ->
  map unmarked l = map unmarked k -> Forall Q l -> Forall Q k.
Proof.
  intros HQ E Hl. revert k E. induction Hl as [|p r Hp _ IH]; intros [|q k]; try done. cbn [map]. intros [= E1 E2 E3 E4 E5 E6 Er].
  constructor; [|by apply IH]. replace q with (set_loss (loss_signaled q) p); [by apply HQ|].
  destruct p, q. cbn in *. by subst.
Qed.

Lemma split_ok test l : forall bytes, payload_sum l <= bytes ->
  split_outstanding test l bytes
  = Ok (filter (fun p => test p = false) l, filter (fun p => test p = true) l,
        bytes - payload_sum (filter (fun p => test p = true) l)).
Proof.
  induction l as [|p r IH]; intros bytes Hb; cbn [split_outstanding]; [by rewrite Z.sub_0_r|].
  cbn [payload_sum] in Hb. pose proof (payload_sum_nonneg r). pose proof (len_nonneg (sp_payload p)).
  unfold mbind, outcome_bind. rewrite !filter_cons. destruct (test p) eqn:E.
  - unfold checked_sub. rewrite (proj2 (Z.leb_le _ _)) by lia. cbn [expect]. rewrite IH by lia.
    rewrite decide_False, decide_True by done. cbn [payload_sum]. do 2 f_equal. lia.
  - rewrite IH by lia. by rewrite decide_True, decide_False by done.
Qed.
Lemma payload_sum_filter test l :
  payload_sum l = payload_sum (filter (fun p => test p = false) l) + payload_sum (filter (fun p => test p = true) l).
Proof.
  induction l as [|p r IH]; [done|]. rewrite !filter_cons. destruct (test p); cbn [payload_sum]; rewrite IH.
  - rewrite decide_False, decide_True by done. cbn [payload_sum]. lia.
  - rewrite decide_True, decide_False by done. cbn [payload_sum]. lia.
Qed.

(** ** Selective acknowledgements *)
Lemma byte_offsets_ok n : forall bit i byte, 0 <= bit -> 0 <= i -> bit + Z.of_nat n <= 8 -> i < 252 ->
  exists l, byte_offsets n bit i byte = Ok l
    /\ forall o, o ∈ l <-> exists b, bit <= b < bit + Z.of_nat n /\ o = i * 8 + b + 2 /\ Z.testbit byte b = true.
Proof.
  induction n as [|n IH]; intros bit i byte Hb Hi Hn Hi2; cbn [byte_offsets].
  { exists []. split; [done|]. intros o. rewrite elem_of_nil. split; [done|]. intros (b & ? & _). lia. }
  destruct (IH (bit + 1) i byte ltac:(lia) Hi ltac:(lia) Hi2) as (l & -> & Hl).
  rewrite land_bit, negb_involutive by done. unfold mbind, outcome_bind. destruct (Z.testbit byte bit) eqn:E.
  - rewrite (proj2 (Z.ltb_lt _ _)) by (change (2 ^ 16) with 65536; lia). cbn [expect]. eexists. split; [done|].
    intros o. rewrite elem_of_cons, Hl. split.
    + intros [->|(b & H1 & H2 & H3)]; [exists bit|exists b]; (split; [lia|done]).
    + intros (b & H1 & H2 & H3). destruct (decide (b = bit)) as [->|]; [by left|]. right. exists b. split; [lia|done].
  - exists l. split; [done|]. intros o. rewrite Hl. split; intros (b & H1 & H2 & H3); exists b; (split; [|done]); [lia|].
    assert (b <> bit) by congruence. lia.
Qed.
Lemma set_sack_offsets_ok bytes : forall i, 0 <= i -> i + len bytes <= 252 ->
  exists l, set_sack_offsets bytes i = Ok l
    /\ forall o, o ∈ l <-> 0 <= o - 2 - 8 * i /\ mask_bit bytes (o - 2 - 8 * i) = true.
Proof.
  induction bytes as [|byte r IH]; intros i Hi Hl; cbn [set_sack_offsets].
  { exists []. split; [done|]. intros o. rewrite elem_of_nil. split; [done|]. intros [H1 H2].
    unfold mask_bit, nth_get in H2. by destruct (0 <=? _). }
  rewrite len_cons in Hl. pose proof (len_nonneg r).
  destruct (byte_offsets_ok 8 0 i byte ltac:(lia) Hi ltac:(lia) ltac:(lia)) as (l1 & -> & H1).
  destruct (IH (i + 1) ltac:(lia) ltac:(lia)) as (l2 & -> & H2). unfold mbind, outcome_bind.
  exists (l1 ++ l2). split; [done|]. intros o. rewrite elem_of_app, H1, H2.
  set (k := o - 2 - 8 * i). replace (o - 2 - 8 * (i + 1)) with (k - 8) by lia.
  assert (8 <= k -> mask_bit (byte :: r) k = mask_bit r (k - 8)) as Hlater.
  { intros Hk. unfold mask_bit. replace (k mod 8) with ((k - 8) mod 8) by divlia.
    rewrite !nth_get_lookup by divlia. by replace (Z.to_nat (k / 8)) with (S (Z.to_nat ((k - 8) / 8))) by divlia. }
  assert (0 <= k < 8 -> mask_bit (byte :: r) k = Z.testbit byte k) as Hhere.
  { intros Hk. unfold mask_bit. rewrite Z.div_small, Z.mod_small by done. done. }
  split.
  - intros [(b & Hb & Ho & Hbit)|[Hk Hm]].
    + assert (k = b) as -> by lia. split; [lia|]. rewrite Hhere by lia. done.
    + split; [lia|]. rewrite Hlater by lia. done.
  - intros [Hk Hm]. destruct (Z.ltb_spec k 8).
    + left. exists k. split; [lia|split; [lia|]]. by rewrite <- Hhere by lia.
    + right. split; [lia|]. by rewrite <- Hlater by lia.
Qed.

Lemma seq_add_0 c : is_u 16 c -> c = seq_wrapping_add c 0.
Proof. intros Hc. wrap. divlia. Qed.
Lemma add_add c a b : seq_wrapping_add (seq_wrapping_add c a) b = seq_wrapping_add c (a + b).
Proof. wrap. rewrite Zplus_mod_idemp_l. f_equal. lia. Qed.

(** What an acknowledgement that is not ignored says about the places. *)
Lemma ack_advance_inv s ack advance reach next : ledger_core s -> places_at s reach next -> is_u 16 ack ->
  ack_advance s ack = inr advance ->
  ack = seq_wrapping_add (cumulative_acknowledgement s) advance /\ 0 <= advance <= reach.
Proof.
  intros Hl (H1 & H2 & H3 & H4 & H5) Ha. unfold ack_advance. set (c := cumulative_acknowledgement s) in *.
  pose proof (lo_cumulative _ Hl) as Hc. fold c in Hc.
  pose proof (relation_to_means ack c Ha Hc) as Hm. destruct (relation_to ack c) as [d| |d|]; try done.
  - intros [= <-]. cbn in Hm. rewrite Hm. split; [by apply seq_add_0|lia].
  - destruct Hm as [Hd E]. destruct (highest_sequence_sent s) as [h|]; [|done].
    unfold MAX_SENT_PACKETS in *. rewrite E, H4, relation_of_offsets by lia.
    destruct (Z.ltb_spec d reach); [|destruct (Z.ltb_spec reach d); [done|]]; intros [= <-]; (split; [done|lia]).
Qed.

Lemma sack_offsets_ok s ack selective : (forall mask, selective = Some mask -> len mask <= 252) ->
  exists offsets, sack_offsets_of s ack selective = Ok offsets
  /\ forall o, o ∈ offsets <-> exists mask, selective = Some mask /\ 2 <= o /\ mask_bit mask (o - 2) = true
       /\ within (highest_sequence_sent s ≫= fun h => after_distance (relation_to h ack)) o = true.
Proof.
  intros Hlen. unfold sack_offsets_of. destruct selective as [mask|].
  - destruct (set_sack_offsets_ok mask 0 ltac:(lia) ltac:(rewrite Z.add_0_l; by apply Hlen)) as (l & -> & Hl).
    unfold mbind at 1, outcome_bind. eexists. split; [done|]. intros o. rewrite list_elem_of_filter, Hl.
    replace (o - 2 - 8 * 0) with (o - 2) by lia. split.
    + intros (H1 & H2 & H3). exists mask. split_and!; [done|lia|done|done].
    + intros (m & [= <-] & H2 & H3 & H4). split_and!; [done|lia|done].
  - exists []. split; [done|]. intros o. rewrite elem_of_nil. split; [done|]. by intros (m & ? & _).
Qed.

Lemma covered_eq s ack advance selective offsets p : ledger_core s -> is_u 16 ack ->
  ack_advance s ack = inr advance -> p ∈ outstanding s ->
  (forall o, o ∈ offsets <-> exists mask, selective = Some mask /\ 2 <= o /\ mask_bit mask (o - 2) = true
       /\ within (highest_sequence_sent s ≫= fun h => after_distance (relation_to h ack)) o = true) ->
  covered (cumulative_acknowledgement s) ack advance offsets p = acknowledged_by s advance selective p.
Proof.
  intros Hl Ha Hadv Hp Hoff. destruct (lo_places _ Hl) as (reach & next & Hpl).
  destruct (ack_advance_inv s ack advance reach next Hl Hpl Ha Hadv) as (Eack & H0).
  destruct Hpl as (Hr & _ & _ & Hh & Hpla). rewrite Forall_forall in Hpla. destruct (Hpla p Hp) as (d & Hd & Ep).
  pose proof (lo_cumulative _ Hl) as Hc. set (c := cumulative_acknowledgement s) in *.
  unfold MAX_SENT_PACKETS in *. unfold covered, acknowledged_by. fold c. rewrite Ep.
  rewrite offset_of_add by (done || lia).
  assert (relation_to (seq_wrapping_add c d) c = After d) as ->.
  { rewrite (seq_add_0 c) at 2 by done. rewrite relation_of_offsets by lia.
    rewrite (proj2 (Z.ltb_ge _ _)), (proj2 (Z.ltb_lt 0 d)) by lia. by rewrite Z.sub_0_r. }
  rewrite Eack, relation_of_offsets by lia.
  destruct (Z.leb_spec d advance) as [Hle|Hgt].
  - rewrite (proj2 (Z.ltb_lt 0 advance)) by lia. done.
  - rewrite andb_false_r, (proj2 (Z.ltb_ge d advance)), (proj2 (Z.ltb_lt advance d)) by lia. cbn [orb after_distance].
    destruct (highest_sequence_sent s) as [h|]; [|lia].
    assert (within (after_distance (relation_to h (seq_wrapping_add c advance))) (d - advance) = true) as Hin.
    { rewrite Hh, relation_of_offsets by lia. rewrite (proj2 (Z.ltb_ge reach advance)), (proj2 (Z.ltb_lt advance reach)) by lia.
      cbn. apply Z.leb_le. lia. }
    rewrite Eack in Hoff. specialize (Hoff (d - advance)). unfold mbind, option_bind in Hoff. rewrite Hin in Hoff.
    destruct (bool_decide_reflect (d - advance ∈ offsets)) as [Hi|Hi].
    + apply Hoff in Hi as (mask & -> & H2 & H3 & _). by rewrite acknowledges_mask.
    + destruct selective as [mask|]; [|done]. symmetry. apply not_true_is_false. intros E. apply Hi, Hoff. exists mask.
      destruct (Z.ltb_spec (d - advance) 2) as [Hlt|Hge]; [by rewrite acknowledges_small in E|].
      rewrite acknowledges_mask in E by done. done.
Qed.

(** ** The parts of the state an operation may touch *)
Lemma recompute_ok s : ledger_core s -> ledger_ok (recompute_timeout s).
Proof.
  intros [H1 H2 H3 H4 H5 H6 H7 H8]. split; [by split|]. unfold recompute_timeout, set_deadline. cbn.
  by destruct (outstanding s).
Qed.
Lemma clamp_rto_bounds x : MIN_RTO_MICROS <= clamp_rto x <= MAX_RTO_MICROS.
Proof. unfold clamp_rto, MIN_RTO_MICROS, MAX_RTO_MICROS. lia. Qed.
Lemma rtt_record_bounds x r : MIN_RTO_MICROS <= base_rto_micros (RttEstimator_record x r) <= MAX_RTO_MICROS.
Proof. unfold RttEstimator_record. destruct (smoothed_micros r), (variance_micros r); apply clamp_rto_bounds. Qed.
(** Marking losses and restarting counters keeps the ledger. *)
Lemma core_marked s s' : ledger_core s -> map unmarked (outstanding s') = map unmarked (outstanding s) ->
  next_sequence_number s' = next_sequence_number s -> cumulative_acknowledgement s' = cumulative_acknowledgement s ->
  highest_sequence_sent s' = highest_sequence_sent s -> outstanding_bytes s' = outstanding_bytes s ->
  MIN_RTO_MICROS <= base_rto_micros (rtt s') <= MAX_RTO_MICROS -> is_u 8 (consecutive_timeouts s') -> ledger_core s'.
Proof.
  intros [H1 H2 H3 H4 (reach & next & P1 & P2 & P3 & P4 & P5) H6 H7 H8] E En Ec Eh Eb Hr Ht.
  destruct (unmarked_fields _ _ E) as (F1 & F2 & _). split; rewrite ?En, ?Ec, ?Eh, ?Eb, ?F1, ?F2; try done.
  - exists reach, next. unfold places_at. rewrite En, Ec, Eh. split_and!; try done; try lia.
    eapply unmarked_Forall; [|symmetry; exact E|done]. intros b p (d & Hd & Hp). by exists d.
  - eapply unmarked_Forall; [|symmetry; exact E|done]. intros b p [Q1 Q2]. by split.
Qed.

Lemma signal_losses_unmarked ack offsets now guard l :
  map unmarked (fst (signal_losses ack offsets now guard l)) = map unmarked l.
Proof.
  induction l as [|p r IH]; [done|]. cbn [signal_losses]. destruct (signal_losses ack offsets now guard r) as [r' signals].
  cbn in IH. destruct (relation_to _ _); cbn; try by rewrite IH. destruct (_ && _ && _); cbn; by rewrite IH.
Qed.
Lemma signal_missing_unmarked missing now guard l l' : signal_missing missing now guard l = Some l' ->
  map unmarked l' = map unmarked l.
Proof.
  revert l'. induction l as [|p r IH]; intros l'; [done|]. cbn [signal_missing].
  destruct (_ && _ && _); [intros [= <-]; done|]. destruct (signal_missing missing now guard r) as [r'|]; [|done].
  intros [= <-]. cbn. by rewrite (IH r').
Qed.

(** [conclude_ack] signals losses and restarts counters; it keeps the
    packets. *)
Lemma conclude_ok ack advance offsets source now acknowledged s s' o :
  ledger_core s -> conclude_ack ack advance offsets source now acknowledged s = (s', o) ->
  ledger_ok s' /\ map unmarked (outstanding s') = map unmarked (outstanding s)
  /\ outstanding_bytes s' = outstanding_bytes s /\ cumulative_acknowledgement s' = cumulative_acknowledgement s
  /\ acknowledged_sequences o = map sp_sequence_number acknowledged
  /\ acknowledged_bytes o = payload_sum acknowledged /\ acknowledged_packets o = len acknowledged.
Proof.
  intros Hl. unfold conclude_ack. cbv zeta.
  set (sample := match latest_first_sent acknowledged with Some first => _ | None => None end).
  set (s1 := match sample with Some x => set_rtt _ s | None => s end).
  set (s2 := if (0 <? advance) || _ then _ else _).
  set (guard := default MIN_RTO_MICROS _).
  destruct (signal_losses ack offsets now guard (outstanding s2)) as [l signals] eqn:Esig.
  set (missing := seq_wrapping_add ack 1).
  assert (map unmarked l = map unmarked (outstanding s)) as El.
  { pose proof (signal_losses_unmarked ack offsets now guard (outstanding s2)) as H. rewrite Esig in H. cbn in H. rewrite H.
    unfold s2, s1. destruct (_ || _); [|destruct (_ && _)]; by destruct sample. }
  match goal with |- context [if LOSS_ACK_THRESHOLD <=? ?x then ?y else ?z] =>
    set (r := if LOSS_ACK_THRESHOLD <=? x then y else z) end.
  assert (exists l3 signals3, r = (set_packets l3 s2, signals3) /\ map unmarked l3 = map unmarked (outstanding s))
    as (l3 & signals3 & -> & El3).
  { unfold r. destruct (_ <=? _); [|by exists l, signals].
    cbn [set_packets set_outstanding outstanding]. destruct (signal_missing missing now guard l) as [l3|] eqn:Em; [|by exists l, signals].
    exists l3, (signals ++ [missing]). split; [done|]. rewrite <- El. by eapply signal_missing_unmarked. }
  intros [= <- <-]. cbn [acknowledged_sequences acknowledged_bytes acknowledged_packets].
  assert (ledger_core (set_packets l3 s2)) as Hc.
  { apply (core_marked s); [done|done|..]; unfold s2, s1;
      (destruct (_ || _); [|destruct (_ && _)]); destruct sample; try done; cbn; try apply rtt_record_bounds; apply Hl. }
  split; [by apply recompute_ok|]. split; [done|]. unfold s2, s1.
  destruct (_ || _); [|destruct (_ && _)]; by destruct sample.
Qed.

(** ** The operations *)
Lemma new_ledger initial : is_u 16 initial -> ledger_ok (SendState_new initial).
Proof.
  intros Hi. split; [|done]. split; cbn; try done; [by apply Z.mod_pos_bound|].
  exists 0, 1. unfold places_at. cbn. split_and!; try done. wrap. divlia.
Qed.

Lemma place_mono r r' c p : r <= r' -> place_ok r c p -> place_ok r' c p.
Proof. intros Hr (d & Hd & E). exists d. split; [lia|done]. Qed.

Lemma push_ledger t payload now s reach next : ledger_core s -> places_at s reach next ->
  len payload <= MAX_UTP_PAYLOAD_SIZE -> len (outstanding s) + 1 <= MAX_SENT_PACKETS ->
  outstanding_bytes s + len payload <= MAX_SENT_BYTES -> 1 <= next <= MAX_SENT_PACKETS ->
  ledger_ok (push_sent t payload now (len (outstanding s) + 1) (outstanding_bytes s + len payload) s).
Proof.
  intros [H1 H2 H3 H4 _ H6 H7 H8] (P1 & P2 & P3 & P4 & P5) Hp Hc Hb Hn. apply recompute_ok.
  split; cbn [set_sent_marks set_outstanding outstanding outstanding_bytes cumulative_acknowledgement rtt consecutive_timeouts]; try done.
  - rewrite len_app, len_cons, len_nil. lia.
  - rewrite payload_sum_app. cbn [payload_sum sp_payload]. lia.
  - set (fresh := bool_decide (t = PT_Syn) || bool_decide (t = PT_Data)).
    exists next, (next + if fresh then 1 else 0). unfold places_at.
    cbn [set_sent_marks set_outstanding outstanding cumulative_acknowledgement next_sequence_number highest_sequence_sent].
    split_and!; try done; try lia; try (destruct fresh; lia).
    + rewrite P3. by destruct t; cbn [fresh bool_decide]; rewrite ?add_add, ?Z.add_0_r.
    + apply Forall_app. split; [|constructor; [|constructor]].
      * eapply Forall_impl; [exact P5|]. intros p. apply place_mono. lia.
      * exists next. split; [lia|done].
  - apply Forall_app. split; [done|]. constructor; [|constructor]. split; cbn; [unfold MAX_TRANSMISSIONS; lia|done].
Qed.

Lemma record_sent_ok t payload now s : ledger_ok s ->
  wp (record_sent t payload now) s
     (fun seq s' => ledger_ok s' /\ seq = next_sequence_number s /\ outstanding s' = outstanding s ++ [mkSent seq t payload 1 now now false])
     (fun _ s' => s' = s).
Proof.
  intros [Hl Ht]. unfold record_sent. repeat wp_step; [done|].
  destruct (sent_type_check t payload s) as [e|]; [done|]. repeat wp_step; [done..|].
  apply wp_lift_ok_or; [|done]. intros b Eb. apply checked_add_Some in Eb as [-> _]. wp_step; [done|].
  destruct (lo_places _ Hl) as (reach & next & Hpl). pose proof Hpl as (P1 & P2 & P3 & _).
  pose proof (lo_cumulative _ Hl) as Hc. set (c := cumulative_acknowledgement s) in *. unfold MAX_SENT_PACKETS in *.
  rewrite P3. rewrite (seq_add_0 c) at 2 by done. rewrite relation_of_offsets by lia.
  destruct (Z.ltb_spec next 0); [done|]. destruct (Z.ltb_spec 0 next); [|done].
  repeat wp_step; [done|]. rewrite Z.sub_0_r in *. rewrite <- P3. split; [|done].
  repeat match goal with H : (_ <? _) = false |- _ => apply Z.ltb_ge in H end.
  eapply push_ledger; try done; unfold MAX_SENT_PACKETS; lia.
Qed.

(** What is left after the covered packets are removed lies past the
    acknowledgement. *)
Lemma ack_core s ack advance selective : ledger_core s -> is_u 16 ack -> ack_advance s ack = inr advance ->
  let kept := filter (fun p => acknowledged_by s advance selective p = false) (outstanding s) in
  let s1 := set_outstanding kept (payload_sum kept) s in
  ledger_core (if 0 <? advance then set_cumulative ack s1 else s1)
  /\ cumulative_acknowledgement (if 0 <? advance then set_cumulative ack s1 else s1) = ack.
Proof.
  intros Hl Ha Hadv kept s1. destruct (lo_places _ Hl) as (reach & next & Hpl).
  destruct (ack_advance_inv s ack advance reach next Hl Hpl Ha Hadv) as (Eack & H0).
  destruct Hpl as (P1 & P2 & P3 & P4 & P5). pose proof Hl as [H1 H2 H3 H4 _ H6 H7 H8].
  assert (cumulative_acknowledgement s1 = cumulative_acknowledgement s) as Ec by done.
  assert ((if 0 <? advance then set_cumulative ack s1 else s1) = set_cumulative ack s1) as ->.
  { destruct (Z.ltb_spec 0 advance); [done|]. assert (advance = 0) as -> by lia. rewrite <- seq_add_0 in Eack by done.
    rewrite Eack. done. }
  split; [|done]. pose proof (payload_sum_filter (acknowledged_by s advance selective) (outstanding s)) as Hsum. fold kept in Hsum.
  assert (len kept <= len (outstanding s)) as Hcount.
  { pose proof (length_filter (fun p => acknowledged_by s advance selective p = false) (outstanding s)). unfold len, kept. lia. }
  pose proof (payload_sum_nonneg (filter (fun p => acknowledged_by s advance selective p = true) (outstanding s))).
  split; cbn [set_cumulative s1 set_outstanding cumulative_acknowledgement outstanding outstanding_bytes rtt consecutive_timeouts]; try done; try lia.
  - exists (reach - advance), (next - advance). unfold places_at.
    cbn [set_cumulative s1 set_outstanding cumulative_acknowledgement outstanding next_sequence_number highest_sequence_sent].
    rewrite P3, Eack, add_add. split_and!; try lia; [do 2 f_equal; lia| |].
    + destruct (highest_sequence_sent s) as [h|]; [|lia]. rewrite P4, add_add. do 2 f_equal. lia.
    + apply Forall_forall. intros p Hp. apply list_elem_of_filter in Hp as [Hp Hin].
      rewrite Forall_forall in P5. destruct (P5 p Hin) as (d & Hd & Ep). unfold acknowledged_by in Hp. rewrite Ep in Hp.
      unfold MAX_SENT_PACKETS in *. rewrite offset_of_add in Hp by (done || lia). apply orb_false_iff in Hp as [Hp _].
      apply Z.leb_gt in Hp. exists (d - advance). split; [lia|]. rewrite Ep, add_add. do 2 f_equal. lia.
  - apply Forall_forall. intros p Hp. apply list_elem_of_filter in Hp as [_ Hp]. by eapply Forall_forall in H6.
Qed.

(** Everything a call that is neither refused nor ignored does. *)
Definition acknowledged_as (s : SendState) (advance : Z) (selective : option (list Z)) (s' : SendState) (o : AckOutcome) : Prop :=
  let kept := filter (fun p => acknowledged_by s advance selective p = false) (outstanding s) in
  let gone := filter (fun p => acknowledged_by s advance selective p = true) (outstanding s) in
  cumulative_acknowledgement s' = seq_wrapping_add (cumulative_acknowledgement s) advance
  /\ map unmarked (outstanding s') = map unmarked kept
  /\ acknowledged_sequences o = map sp_sequence_number gone
  /\ acknowledged_packets o = len gone
  /\ acknowledged_bytes o = payload_sum gone
  /\ outstanding_bytes s' = outstanding_bytes s - acknowledged_bytes o.

(** The length a selective acknowledgement is refused for. *)
Definition sack_refusal (selective : option (list Z)) : option Z :=
  selective ≫= fun mask => if (1 <=? len mask) && (len mask <=? MAX_SACK_BYTES) then None else Some (len mask).
Lemma validate_sack_ok selective :
  match selective with Some bytes => validate_sack bytes | None => Ok tt end
  = match sack_refusal selective with Some n => Err (SE_InvalidSackLength n) | None => Ok tt end.
Proof. destruct selective as [mask|]; [|done]. unfold validate_sack. cbn. by destruct (_ && _). Qed.
Lemma sack_accepted selective mask : sack_refusal selective = None -> selective = Some mask -> len mask <= 252.
Proof.
  intros H ->. cbn in H. destruct (Z.leb_spec 1 (len mask)), (Z.leb_spec (len mask) MAX_SACK_BYTES); try done.
Qed.
Lemma filter_test (f g : SentPacket -> bool) b (l : list SentPacket) : (forall p, p ∈ l -> f p = g p) ->
  filter (fun p => f p = b) l = filter (fun p => g p = b) l.
Proof.
  induction l as [|p r IH]; intros E; [done|]. rewrite !filter_cons, E by apply list_elem_of_here.
  rewrite IH; [done|]. intros q Hq. apply E. by apply list_elem_of_further.
Qed.

Lemma acknowledge_ok ack selective source now s : ledger_ok s -> is_u 16 ack ->
  if terminal s then acknowledge ack selective source now s = (s, Err SE_Terminal)
  else match sack_refusal selective with
  | Some n => acknowledge ack selective source now s = (s, Err (SE_InvalidSackLength n))
  | None =>
    match ack_advance s ack with
    | inl d => acknowledge ack selective source now s = (s, Ok (empty_ack d s))
    | inr advance => exists s' o, acknowledge ack selective source now s = (s', Ok o)
        /\ ledger_ok s' /\ acknowledged_as s advance selective s' o /\ 0 <= advance <= MAX_SENT_PACKETS
    end
  end.
Proof.
  intros [Hl Ht] Ha. unfold acknowledge. rewrite get_bind. destruct (terminal s); [done|].
  rewrite validate_sack_ok. destruct (sack_refusal selective) as [n|] eqn:Er; [done|]. rewrite lift_ok_bind.
  destruct (ack_advance s ack) as [d|advance] eqn:Eadv; [done|].
  destruct (sack_offsets_ok s ack selective) as (offsets & -> & Hoff); [intros m; by apply sack_accepted|].
  rewrite lift_ok_bind, split_ok by (rewrite (lo_bytes _ Hl); lia). rewrite lift_ok_bind.
  assert (forall p, p ∈ outstanding s -> covered (cumulative_acknowledgement s) ack advance offsets p
                                         = acknowledged_by s advance selective p) as Etest
    by (intros p Hp; exact (covered_eq s ack advance selective offsets p Hl Ha Eadv Hp Hoff)).
  rewrite (filter_test _ _ true _ Etest), (filter_test _ _ false _ Etest).
  destruct (ack_core s ack advance selective Hl Ha Eadv) as [Hc Eack]. cbv zeta in Hc, Eack |- *.
  pose proof (payload_sum_filter (acknowledged_by s advance selective) (outstanding s)) as Hsum.
  set (kept := filter (fun p => _ = false) _) in *. set (gone := filter (fun p => _ = true) _) in *.
  rewrite (lo_bytes _ Hl). replace (payload_sum (outstanding s) - payload_sum gone) with (payload_sum kept) by lia.
  set (s1 := if 0 <? advance then _ else _) in *.
  destruct (conclude_ack ack advance offsets source now gone s1) as [s' o] eqn:Econ.
  destruct (conclude_ok _ _ _ _ _ _ _ _ _ Hc Econ) as (H1 & H2 & H3 & H4 & H5 & H6 & H7).
  destruct (lo_places _ Hl) as (reach & next & Hpl).
  destruct (ack_advance_inv s ack advance reach next Hl Hpl Ha Eadv) as (Eack' & H0).
  exists s', o. split; [done|]. split; [done|]. split; [|destruct Hpl as (? & _); lia].
  unfold acknowledged_as. cbv zeta. fold kept gone. rewrite H4, Eack, H3, (lo_bytes _ Hl), H6. split_and!; try done.
  - rewrite H2. unfold s1. by destruct (0 <? advance).
  - unfold s1. destruct (0 <? advance); cbn; lia.
Qed.

(** [mark_first] changes one packet, and never its place or payload. *)
Lemma mark_first_ok seq now l : Forall packet_ok l ->
  match mark_first seq now l with
  | Ok (l', p) => Forall packet_ok l' /\ map sp_sequence_number l' = map sp_sequence_number l
      /\ map sp_payload l' = map sp_payload l /\ p ∈ l' /\ sp_sequence_number p = seq
      /\ last_sent_at_micros p = now /\ loss_signaled p = false
  | Err _ => True
  | _ => False
  end.
Proof.
  induction 1 as [|p r [Hp Hl] Hr IH]; [done|]. cbn [mark_first]. destruct (Z.eqb_spec (sp_sequence_number p) seq) as [E|E].
  - destruct (Z.leb_spec MAX_TRANSMISSIONS (transmissions p)); [done|]. unfold MAX_TRANSMISSIONS in *.
    rewrite (proj2 (checked_add_Some _ _ _ _)) by (split; [done|change (2 ^ 8) with 256; lia]). cbn [expect].
    unfold mbind, outcome_bind. split_and!; try done; [|apply list_elem_of_here].
    constructor; [|done]. split; cbn; [unfold MAX_TRANSMISSIONS; lia|done].
  - unfold mbind, outcome_bind. destruct (mark_first seq now r) as [[r' q]|e| |]; try done.
    destruct IH as (H1 & H2 & H3 & H4 & H5). cbn [map]. rewrite H2, H3. split_and!; try done; try apply H5.
    + constructor; [by split|done].
    + by apply list_elem_of_further.
Qed.
Lemma payload_sum_map l l' : map sp_payload l' = map sp_payload l -> payload_sum l' = payload_sum l /\ len l' = len l.
Proof.
  revert l. induction l' as [|p r IH]; intros [|q k]; try done. cbn [map]. intros [= E1 E2].
  destruct (IH k E2) as [H1 H2]. cbn [payload_sum]. rewrite !len_cons, E1, H1, H2. done.
Qed.
Lemma places_map (P : SequenceNumber -> Prop) l l' : map sp_sequence_number l' = map sp_sequence_number l ->
  Forall (fun p => P (sp_sequence_number p)) l -> Forall (fun p => P (sp_sequence_number p)) l'.
Proof. intros E. rewrite <- !(Forall_map sp_sequence_number). by rewrite E. Qed.

(** Replacing the packets by others with the same places and payloads. *)
Lemma core_set_packets l d n s : ledger_core s -> is_u 8 n -> Forall packet_ok l ->
  map sp_sequence_number l = map sp_sequence_number (outstanding s) ->
  map sp_payload l = map sp_payload (outstanding s) ->
  ledger_core (set_counts d n (set_packets l s)).
Proof.
  intros [H1 H2 H3 H4 (reach & next & P1 & P2 & P3 & P4 & P5) H6 H7 H8] Hn Hl E1 E2.
  destruct (payload_sum_map _ _ E2) as [F1 F2].
  split; cbn [set_counts set_packets set_outstanding outstanding outstanding_bytes cumulative_acknowledgement rtt consecutive_timeouts];
    try done; try lia.
  exists reach, next. unfold places_at.
  cbn [set_counts set_packets set_outstanding outstanding cumulative_acknowledgement next_sequence_number highest_sequence_sent].
  split_and!; try done; try lia. revert P5.
  by apply (places_map (fun k => exists d, 1 <= d <= reach /\ k = seq_wrapping_add (cumulative_acknowledgement s) d)).
Qed.

Lemma mark_retransmitted_ok seq now s : ledger_ok s ->
  wp (mark_retransmitted seq now) s
     (fun v s' => ledger_ok s' /\ ss_sequence_number v = seq /\ ss_last_sent_at_micros v = now
                  /\ ss_loss_signaled v = false)
     (fun _ s' => s' = s).
Proof.
  intros [Hl Ht]. unfold mark_retransmitted. repeat wp_step; [done|].
  pose proof (mark_first_ok seq now (outstanding s) (lo_packets _ Hl)) as H.
  destruct (mark_first seq now (outstanding s)) as [[l p]|e| |]; try done; repeat wp_step.
  destruct H as (H1 & H2 & H3 & H4 & H5 & H6 & H7). split; [|done].
  apply recompute_ok. apply core_set_packets; try done. apply Hl.
Qed.

Lemma deadline_ok t s : ledger_core s -> (t = None <-> outstanding s = []) -> ledger_ok (set_deadline t s).
Proof. intros [H1 H2 H3 H4 H5 H6 H7 H8] Ht. split; [by split|done]. Qed.
Lemma on_timeout_ok now backoff s : ledger_ok s ->
  wp (on_timeout_classified now backoff) s
     (fun v s' => ledger_ok s' /\ match v with
        | None => s' = s
        | Some v => t_loss_signals v = map sp_sequence_number (outstanding s)
            /\ timeout_deadline_micros s' = Some (next_deadline_micros v)
            /\ Forall (fun p => loss_signaled p = true) (outstanding s')
        end)
     (fun _ s' => s' = s).
Proof.
  intros [Hl Ht]. unfold on_timeout_classified. repeat wp_step; [done|].
  destruct (timeout_deadline_micros s) as [deadline|] eqn:Ed; repeat wp_step; [..|by split; [split; [|rewrite Ed]|]].
  { split; [|done]. split; [done|by rewrite Ed]. }
  assert (is_u 8 (if backoff then saturating_add 8 (consecutive_timeouts s) 1 else consecutive_timeouts s)) as Hn.
  { destruct (lo_timeouts _ Hl). destruct backoff; [|done]. unfold saturating_add, umax, is_u in *. lia. }
  set (n := if backoff then _ else _) in *.
  split.
  - apply deadline_ok.
    + change (ledger_core (set_counts 0 n (set_packets (map (set_loss true) (outstanding s)) s))).
      apply core_set_packets; [done|done| |by rewrite map_map|by rewrite map_map].
      apply Forall_map. eapply Forall_impl; [apply (lo_packets _ Hl)|]. intros p [Q1 Q2]. by split.
    + split; [done|]. cbn. intros E. destruct Ht as [_ Ht]. destruct (outstanding s); [|done]. specialize (Ht eq_refl); congruence.
  - split_and!; [cbn; by rewrite map_map|done|]. cbn. apply Forall_map. by apply Forall_true.
Qed.
Lemma on_valid_incoming_ok now s : ledger_ok s ->
  wp (on_valid_incoming now) s (fun _ s' => ledger_ok s' /\ outstanding s' = outstanding s) (fun _ _ => False).
Proof.
  intros [Hl Ht]. unfold on_valid_incoming. wp_step. split; [|done]. apply deadline_ok.
  - destruct Hl as [H1 H2 H3 H4 H5 H6 H7 H8]. by split.
  - cbn. by case_bool_decide.
Qed.
Lemma reset_ledger s : ledger_ok s -> wp reset s (fun _ s' => ledger_ok s') (fun _ _ => False).
Proof.
  intros [[H1 H2 H3 H4 (reach & next & P1 & P2 & P3 & P4 & P5) H6 H7 H8] Ht]. unfold reset. wp_step.
  split; [|done]. split; try done. exists reach, next. unfold places_at. cbn. split_and!; try done; try lia.
Qed.

(** ** Histories *)
Inductive SendOp :=
| OpRecordSent (t : PacketType) (payload : list Z) (now : Z)
| OpAcknowledge (ack : SequenceNumber) (selective : option (list Z)) (source : PacketType) (now : Z)
| OpMarkRetransmitted (seq : SequenceNumber) (now : Z)
| OpTimeout (now : Z) (backoff : bool)
| OpValidIncoming (now : Z)
| OpResetSend.
Definition run_send (op : SendOp) : method unit :=
  match op with
  | OpRecordSent t payload now => record_sent t payload now ≫= fun _ => mret tt
  | OpAcknowledge ack selective source now => acknowledge ack selective source now ≫= fun _ => mret tt
  | OpMarkRetransmitted seq now => mark_retransmitted seq now ≫= fun _ => mret tt
  | OpTimeout now backoff => on_timeout_classified now backoff ≫= fun _ => mret tt
  | OpValidIncoming now => on_valid_incoming now
  | OpResetSend => reset
  end.
Definition send_op_typed (op : SendOp) : Prop :=
  match op with OpAcknowledge ack _ _ _ => is_u 16 ack | _ => True end.
Inductive sendable (initial : SequenceNumber) : SendState -> Prop :=
| sendable_new : sendable initial (SendState_new initial)
| sendable_op s op : sendable initial s -> send_op_typed op -> sendable initial (fst (run_send op s)).

Lemma acknowledge_wp ack selective source now s : ledger_ok s -> is_u 16 ack ->
  wp (acknowledge ack selective source now) s (fun _ s' => ledger_ok s') (fun _ s' => s' = s).
Proof.
  intros Hl Ha. pose proof (acknowledge_ok ack selective source now s Hl Ha) as H. unfold wp.
  destruct (terminal s); [by rewrite H|]. destruct (sack_refusal selective); [by rewrite H|].
  destruct (ack_advance s ack); [by rewrite H|]. by destruct H as (s' & o & -> & H & _).
Qed.
Lemma send_op_ok op s : ledger_ok s -> send_op_typed op ->
  wp (run_send op) s (fun _ s' => ledger_ok s') (fun _ s' => s' = s).
Proof.
  intros Hl Ht. destruct op; cbn [run_send send_op_typed] in *; try apply wp_bind.
  - eapply wp_mono; [by apply record_sent_ok|intros ? ? H; apply H|done].
  - by apply acknowledge_wp.
  - eapply wp_mono; [by apply mark_retransmitted_ok|intros ? ? H; apply H|done].
  - eapply wp_mono; [by apply on_timeout_ok|intros ? ? H; apply H|done].
  - eapply wp_mono; [by apply on_valid_incoming_ok|intros ? ? H; apply H|done].
  - eapply wp_mono; [by apply reset_ledger|done..].
Qed.
Lemma send_op_ledger op s : ledger_ok s -> send_op_typed op ->
  ledger_ok (fst (run_send op s)) /\ returns (snd (run_send op s))
  /\ forall e, snd (run_send op s) = Err e -> fst (run_send op s) = s.
Proof.
  intros Hl Ht. pose proof (send_op_ok op s Hl Ht) as H. unfold wp in H.
  destruct (run_send op s) as [s' [[]|e| |]]; try done. cbn. subst. done.
Qed.
Lemma sendable_ledger initial s : is_u 16 initial -> sendable initial s -> ledger_ok s.
Proof. intros Hi. induction 1; [by apply new_ledger|]. by apply send_op_ledger. Qed.

(** Up to 38 doublings no bit is lost. *)
Lemma rto_shift_fits base n : MIN_RTO_MICROS <= base <= MAX_RTO_MICROS -> 0 <= n <= 38 ->
  base * 2 ^ n mod 2 ^ 64 = base * 2 ^ n /\ base <= base * 2 ^ n.
Proof.
  intros Hb Hn. pose proof (Z.pow_le_mono_r 2 n 38 ltac:(lia) ltac:(lia)). change (2 ^ 38) with 274877906944 in *.
  pose proof (Z.pow_pos_nonneg 2 n ltac:(lia) ltac:(lia)). unfold MIN_RTO_MICROS, MAX_RTO_MICROS in *.
  assert (base * 2 ^ n <= 60000000 * 274877906944) by (apply Z.mul_le_mono_nonneg; lia).
  split; [|nia]. apply Z.mod_small. change (2 ^ 64) with 18446744073709551616. nia.
Qed.
(** The shift, with the bits it drops. *)
Lemma rto_shift base n : MIN_RTO_MICROS <= base <= MAX_RTO_MICROS -> 0 <= n <= 63 ->
  Z.min (default (umax 64) (checked_shl 64 base n)) MAX_RTO_MICROS
  = if base * 2 ^ n mod 2 ^ 64 =? 0 then 0 else Z.min (base * 2 ^ n) MAX_RTO_MICROS.
Proof.
  intros Hb Hn. unfold checked_shl. rewrite (proj2 (Z.ltb_lt _ _)), Z.shiftl_mul_pow2 by lia. cbn [default from_option id].
  pose proof (Z.pow_pos_nonneg 2 n ltac:(lia) ltac:(lia)) as Hpos.
  destruct (Z.leb_spec n 38).
  - destruct (rto_shift_fits base n Hb ltac:(lia)) as [-> Hle]. unfold MIN_RTO_MICROS in Hb.
    destruct (Z.eqb_spec (base * 2 ^ n) 0); [lia|done].
  - pose proof (Z.pow_le_mono_r 2 38 n ltac:(lia) ltac:(lia)). change (2 ^ 38) with 274877906944 in *.
    assert (2 ^ 64 = 2 ^ (64 - n) * 2 ^ n) as -> by (rewrite <- Z.pow_add_r by lia; f_equal; lia).
    pose proof (Z.pow_pos_nonneg 2 (64 - n) ltac:(lia) ltac:(lia)).
    unfold MIN_RTO_MICROS, MAX_RTO_MICROS in *. rewrite Zmult_mod_distr_r. pose proof (Z.mod_pos_bound base (2 ^ (64 - n)) ltac:(lia)).
    set (r := base mod 2 ^ (64 - n)) in *. clearbody r. set (q := 2 ^ n) in *. clearbody q.
    destruct (Z.eqb_spec (r * q) 0) as [E|E]; [by rewrite E|]. assert (1 <= r) by (destruct (Z.eq_dec r 0); subst; lia).
    rewrite !Z.min_r by nia. done.
Qed.
(** One packet is sent and every deadline passes unanswered. *)
Definition unanswered (timeouts : nat) : SendState :=
  Nat.iter timeouts (fun s => fst (run_send (OpTimeout (umax 64) true) s))
    (fst (run_send (OpRecordSent PT_Data [7] 0) (SendState_new 1))).
Lemma unanswered_sendable n : sendable 1 (unanswered n).
Proof.
  induction n as [|n IH]; cbn [unanswered Nat.iter nat_rect].
  - apply sendable_op; [apply sendable_new|done].
  - apply sendable_op; [exact IH|done].
Qed.
(** After ten such timeouts the retransmission timeout is the maximum.
    After 58 every bit of the initial second has been shifted out: the
    backoff, meant to saturate, is zero. *)
Lemma backoff_reaches_zero :
  sendable 1 (unanswered 58) /\ effective_rto_micros (unanswered 10) = MAX_RTO_MICROS
  /\ effective_rto_micros (unanswered 58) = 0.
Proof. split; [apply unanswered_sendable|]. split; vm_compute; exact eq_refl. Qed.

(** * Properties *)

(** The ledger holds for every history.  In every state reachable by
    sending, acknowledging (whatever number and mask the peer chooses),
    retransmitting, timing out and resetting: at most 1024 packets and 1 MiB
    are in flight, the byte counter is their size, each lies 1 to 1024
    places after the cumulative acknowledgement and within the highest
    number sent, none was transmitted more than 8 times, the timeout base is
    in bounds, and the timer is armed exactly while packets are in flight.
    No operation panics, the unchecked subtractions and additions included,
    and a refused one changes nothing. *)
Theorem send_ledger_invariant initial s op : is_u 16 initial -> sendable initial s -> send_op_typed op ->
  ledger_ok s /\ returns (snd (run_send op s)) /\ ledger_ok (fst (run_send op s))
  /\ forall e, snd (run_send op s) = Err e -> fst (run_send op s) = s.
Proof.
  intros Hi Hs Ht. pose proof (sendable_ledger initial s Hi Hs) as Hl.
  destruct (send_op_ledger op s Hl Ht) as (H1 & H2 & H3). by split_and!.
Qed.

(** An acknowledgement removes exactly the packets it covers.  A number
    that is behind, unordered or never sent is ignored without a change.
    Otherwise the cumulative acknowledgement becomes the number, the packets
    at a distance up to it and those whose bit is set in the selective mask
    leave the ledger and are reported, with their bytes, and the others stay
    in order, with at most their loss flag changed.  The number ahead of
    everything sent is never accepted. *)
Theorem acknowledge_exact initial s ack selective source now :
  is_u 16 initial -> sendable initial s -> is_u 16 ack -> terminal s = false -> sack_refusal selective = None ->
  match ack_advance s ack with
  | inl d => acknowledge ack selective source now s = (s, Ok (empty_ack d s))
  | inr advance => exists s' o, acknowledge ack selective source now s = (s', Ok o)
      /\ ack = seq_wrapping_add (cumulative_acknowledgement s) advance
      /\ acknowledged_as s advance selective s' o
  end.
Proof.
  intros Hi Hs Ha Ht Hr. pose proof (sendable_ledger initial s Hi Hs) as Hl.
  pose proof (acknowledge_ok ack selective source now s Hl Ha) as H. rewrite Ht, Hr in H.
  destruct (ack_advance s ack) as [d|advance] eqn:E; [done|]. destruct H as (s' & o & H1 & _ & H2 & _).
  exists s', o. split; [done|]. split; [|done]. destruct Hl as [Hl _]. destruct (lo_places _ Hl) as (reach & next & Hpl).
  by destruct (ack_advance_inv s ack advance reach next Hl Hpl Ha E).
Qed.

(** C40: The retransmission timeout doubles and is bounded.  After [n]
    timeouts in a row it is the base timeout times [2^n], at most 60 seconds,
    unless the shift by [min n 63] pushes every bit of the base out of the 64
    bits, and then it is zero.  Up to 38 timeouts no bit is lost, and it lies
    between 0.5 and 60 seconds.  Recording a round trip keeps the base in
    these bounds. *)
Theorem rto_bounds initial s sample : is_u 16 initial -> sendable initial s ->
  let base := base_rto_micros (rtt s) in let n := consecutive_timeouts s in
  effective_rto_micros s
  = (if base * 2 ^ Z.min n 63 mod 2 ^ 64 =? 0 then 0 else Z.min (base * 2 ^ Z.min n 63) MAX_RTO_MICROS)
  /\ (n <= 38 -> effective_rto_micros s = Z.min (base * 2 ^ n) MAX_RTO_MICROS
                  /\ MIN_RTO_MICROS <= effective_rto_micros s <= MAX_RTO_MICROS)
  /\ MIN_RTO_MICROS <= base_rto_micros (RttEstimator_record sample (rtt s)) <= MAX_RTO_MICROS.
Proof.
  intros Hi Hs base n. destruct (sendable_ledger initial s Hi Hs) as [Hl _]. pose proof (lo_rto _ Hl) as Hb. fold base in Hb.
  pose proof (proj1 (lo_timeouts _ Hl)) as H0. fold n in H0.
  assert (effective_rto_micros s = if base * 2 ^ Z.min n 63 mod 2 ^ 64 =? 0 then 0
          else Z.min (base * 2 ^ Z.min n 63) MAX_RTO_MICROS) as E by (apply rto_shift; lia).
  split; [done|]. split; [|apply rtt_record_bounds]. intros Hn. rewrite E, Z.min_l by lia.
  destruct (rto_shift_fits base n Hb ltac:(lia)) as [-> Hle]. unfold MIN_RTO_MICROS, MAX_RTO_MICROS in *.
  destruct (Z.eqb_spec (base * 2 ^ n) 0); [lia|]. split; [done|lia].
Qed.

(** ** Witnesses *)

(** Three packets over the wrap; the first lost, the others in the mask. *)
Definition sample_sent_one (s : SendState) : SendState := fst (run_send (OpRecordSent PT_Data [7] 10) s).
Definition sample_flight : SendState := sample_sent_one (sample_sent_one (sample_sent_one (SendState_new 65535))).
Lemma sample_flight_sendable : sendable 65535 sample_flight.
Proof. apply sendable_op; [|done]. apply sendable_op; [|done]. apply sendable_op; [apply sendable_new|done]. Qed.

Lemma sample_u16_initial : is_u 16 65535.
Proof. done. Qed.
Lemma sample_u16 : is_u 16 65534.
Proof. done. Qed.
Lemma send_ledger_invariant_witness :
  ledger_ok sample_flight /\ returns (snd (run_send (OpAcknowledge 65534 (Some [3]) PT_State 20) sample_flight)).
Proof.
  destruct (send_ledger_invariant 65535 sample_flight (OpAcknowledge 65534 (Some [3]) PT_State 20)) as (H1 & H2 & _);
    [done|apply sample_flight_sendable|done|]. exact (conj H1 H2).
Defined.
Lemma acknowledge_exact_witness :
  exists s' o, acknowledge 65534 (Some [3; 0; 0; 0]) PT_State 20 sample_flight = (s', Ok o)
    /\ acknowledged_sequences o = [0; 1] /\ len (outstanding s') = 1 /\ outstanding_bytes s' = 1.
Proof.
  assert (ack_advance sample_flight 65534 = inr 0) as E by (vm_compute; exact eq_refl).
  assert (terminal sample_flight = false) as Et by (vm_compute; exact eq_refl).
  pose proof (acknowledge_exact 65535 sample_flight 65534 (Some [3; 0; 0; 0]) PT_State 20
                sample_u16_initial sample_flight_sendable sample_u16 Et eq_refl) as H.
  rewrite E in H. destruct H as (s' & o & H1 & _ & H2).
  destruct H2 as (_ & H3 & H4 & _ & H5 & H6). exists s', o. split; [done|].
  split; [rewrite H4; by vm_compute|]. split; [|rewrite H6, H5; by vm_compute].
  apply unmarked_fields in H3 as (_ & -> & _). by vm_compute.
Defined.
Lemma rto_bounds_witness : effective_rto_micros sample_flight = 1000000 /\ effective_rto_micros (unanswered 58) = 0.
Proof.
  destruct (rto_bounds 65535 sample_flight 5 sample_u16_initial sample_flight_sendable) as (_ & H & _).
  assert (is_u 16 1) as H1 by done.
  destruct (rto_bounds 1 (unanswered 58) 5 H1 (unanswered_sendable 58)) as (H' & _).
  split; [|rewrite H'; vm_compute; exact eq_refl].
  destruct H as [H _]; [by vm_compute|]. rewrite H. vm_compute. exact eq_refl.
Defined.
