(* ===== verification/UtpConnection.v ===== *)
(** * UtpConnection: handshake and lifecycle of [utp/connection.rs]

    A connection owns a ledger of sent packets ([UtpSend]) and, from the
    handshake on, a receive window ([UtpReceive]).  It routes every packet to
    them, acknowledges what it received, and derives its phase from the two
    directions of the stream.  The three expectations of the code (a SYN in
    flight until the handshake, a receive window after it, an
    acknowledgement that the ledger accepts) are panics here. *)
From S2P Require Import Prelude Bytes UtpSequence UtpPacket UtpReceive UtpSend.

Record ConnectionIds := mkIds { id_send : Z; id_receive : Z }.
Definition for_initiator (receive : Z) : ConnectionIds := mkIds (wrapping_add 16 receive 1) receive.
Definition for_acceptor (connection_id : Z) : ConnectionIds := mkIds connection_id (wrapping_add 16 connection_id 1).

Inductive ConnectionPhase :=
| SynSent
| Connected
| LocalFinSent
| RemoteFinReceived
| Closing
| Reset
| Closed.
#[export] Instance ConnectionPhase_eq_dec : EqDecision ConnectionPhase.
Proof. solve_decision. Defined.

Record OutboundPacketIntent := mkIntent {
  i_packet_type : PacketType;
  i_connection_id : Z;
  i_sequence_number : SequenceNumber;
  i_acknowledgement_number : SequenceNumber;
  i_selective_ack : option SelectiveAckBits;
  i_window_size : Z;
  i_payload_bytes : Z;
}.
Inductive IncomingDisposition :=
| Accepted
| WrongConnectionId (expected actual : Z)
| UnexpectedPacketType (t : PacketType)
| HandshakeAckMismatch (expected actual : SequenceNumber)
| Terminal.
Record IncomingOutcome := mkIncoming {
  in_disposition : IncomingDisposition;
  in_acknowledgement : option AckOutcome;
  in_receive : option ReceiveOutcome;
  in_reply : option OutboundPacketIntent;
  in_phase : ConnectionPhase;
}.
(** The operation named by an [InvalidPhase] error. *)
Inductive Operation := OpState | OpSendData | OpSendFin | OpRetransmitSyn | OpConsumeReceived | OpSequenced.
Inductive ConnectionError :=
| ExpectedSyn (t : PacketType)
| SynHasSelectiveAck
| InvalidPhase (phase : ConnectionPhase) (operation : Operation)
| NotReadyToClose
| SendFailed (e : SendError)
| ReceiveFailed (e : ReceiveError).

Record ConnectionState := mkConnection {
  ids : ConnectionIds;
  phase : ConnectionPhase;
  c_send : SendState;
  c_receive : option ReceiveState;
}.
Definition set_phase p c := mkConnection (ids c) p (c_send c) (c_receive c).
Definition set_send s c := mkConnection (ids c) (phase c) s (c_receive c).
Definition set_receive r c := mkConnection (ids c) (phase c) (c_send c) r.

Abbreviation method := (M ConnectionState ConnectionError).
(** A call on the ledger, and on the receive window given; their errors are
    wrapped by [From]. *)
Definition on_send {A} (m : UtpSend.method A) : method A :=
  fun c => let '(s, r) := m (c_send c) in (set_send s c, map_err SendFailed r).
Definition on_receive {A} (rs : ReceiveState) (m : UtpReceive.method A) : method A :=
  fun c => let '(s, r) := m rs in (set_receive (Some s) c, map_err ReceiveFailed r).

Definition is_terminal (c : ConnectionState) : bool :=
  match phase c with Reset | Closed => true | _ => false end.
Definition remote_fin (c : ConnectionState) : bool :=
  match c_receive c with Some r => eof_reached r | None => false end.
(** [send.outstanding_packets().find(..)] *)
Definition find_sent (test : SentPacket -> bool) (c : ConnectionState) : option SentPacketSnapshot :=
  match List.find test (outstanding (c_send c)) with Some p => Some (sent_snapshot p) | None => None end.
Definition is_syn (p : SentPacket) : bool := bool_decide (sp_packet_type p = PT_Syn).

(** ** Construction *)
Definition initiate (receive_connection_id : Z) (initial : SequenceNumber) (now : Z) : outcome ConnectionError ConnectionState :=
  match record_sent PT_Syn [] now (SendState_new initial) with
  | (s, r) => _ ← map_err SendFailed r; Ok (mkConnection (for_initiator receive_connection_id) SynSent s None)
  end.
Definition accept_syn (syn : DecodedPacket) (initial : SequenceNumber) : outcome ConnectionError ConnectionState :=
  let h := header syn in
  if negb (bool_decide (packet_type h = PT_Syn)) then Err (ExpectedSyn (packet_type h))
  else if bool_decide (is_Some (selective_ack syn)) then Err SynHasSelectiveAck
  else Ok (mkConnection (for_acceptor (connection_id h)) Connected (SendState_new initial)
             (Some (ReceiveState_new (sequence_number h)))).

(** ** Packets to send *)
Definition syn_intent (c : ConnectionState) : option OutboundPacketIntent :=
  if negb (bool_decide (phase c = SynSent)) then None
  else
    match find_sent is_syn c with
    | Some p => Some (mkIntent PT_Syn (id_receive (ids c)) (ss_sequence_number p) 0 None (MAX_RECEIVE_BYTES mod 2 ^ 32) 0)
    | None => None
    end.
(** What a packet says of the receive window. *)
Definition intent_of (c : ConnectionState) (r : ReceiveState) (t : PacketType) (seq : SequenceNumber) (bytes : Z)
    : outcome ConnectionError OutboundPacketIntent :=
  window ← map_err ReceiveFailed (advertised_window_bytes r);
  bits ← map_err ReceiveFailed (sack r);
  Ok (mkIntent t (id_send (ids c)) seq (UtpReceive.acknowledgement_number r) bits (window mod 2 ^ 32) bytes).
Definition state_intent (c : ConnectionState) : outcome ConnectionError OutboundPacketIntent :=
  r ← ok_or (c_receive c) (InvalidPhase (phase c) OpState);
  if is_terminal c then Err (InvalidPhase (phase c) OpState)
  else intent_of c r PT_State (next_sequence_number (c_send c)) 0.
Definition outbound_sequence_intent (c : ConnectionState) (t : PacketType) (seq : SequenceNumber) (bytes : Z)
    : outcome ConnectionError OutboundPacketIntent :=
  r ← ok_or (c_receive c) (InvalidPhase (phase c) OpSequenced);
  intent_of c r t seq bytes.

(** ** Lifecycle *)
Definition phase_of (local_fin remote_fin : bool) : ConnectionPhase :=
  match local_fin, remote_fin with
  | false, false => Connected
  | true, false => LocalFinSent
  | false, true => RemoteFinReceived
  | true, true => Closing
  end.
Definition refresh_phase : method unit :=
  c ← get;
  if is_terminal c || bool_decide (phase c = SynSent) then mret tt
  else put (set_phase (phase_of (fin_sent (c_send c)) (remote_fin c)) c).
Definition reset_to (p : ConnectionPhase) : method unit :=
  on_send UtpSend.reset;;
  c ← get;
  match c_receive c with
  | Some r => on_receive r UtpReceive.reset
  | None => mret tt
  end;;
  modify (set_phase p).
Definition ready_to_close (c : ConnectionState) : bool :=
  if is_terminal c then false
  else fin_sent (c_send c) && (len (outstanding (c_send c)) =? 0) && remote_fin c.
Definition finish : method unit :=
  c ← get;
  if negb (ready_to_close c) then fail NotReadyToClose else reset_to Closed.
Definition abort : method unit := reset_to Closed.

(** ** Sending *)
Definition may_send (p : ConnectionPhase) : bool :=
  match p with Connected | RemoteFinReceived => true | _ => false end.
Definition record_data (payload : list Z) (now : Z) : method OutboundPacketIntent :=
  c ← get;
  if negb (may_send (phase c)) then fail (InvalidPhase (phase c) OpSendData)
  else
    seq ← on_send (record_sent PT_Data payload now);
    c ← get;
    lift (outbound_sequence_intent c PT_Data seq (len payload)).
Definition record_fin (payload : list Z) (now : Z) : method OutboundPacketIntent :=
  c ← get;
  if negb (may_send (phase c)) then fail (InvalidPhase (phase c) OpSendFin)
  else
    seq ← on_send (record_sent PT_Fin payload now);
    refresh_phase;;
    c ← get;
    lift (outbound_sequence_intent c PT_Fin seq (len payload)).
Definition has_sequence (seq : SequenceNumber) (p : SentPacket) : bool := sp_sequence_number p =? seq.
Definition retransmission_intent (c : ConnectionState) (seq : SequenceNumber) : outcome ConnectionError OutboundPacketIntent :=
  p ← ok_or (find_sent (has_sequence seq) c) (SendFailed (SE_UnknownPacket seq));
  match ss_packet_type p with
  | PT_Syn => ok_or (syn_intent c) (InvalidPhase (phase c) OpRetransmitSyn)
  | PT_Data | PT_Fin => outbound_sequence_intent c (ss_packet_type p) (ss_sequence_number p) (payload_bytes p)
  | PT_State | PT_Reset => Panic
  end.
Definition connection_mark_retransmitted (seq : SequenceNumber) (now : Z) : method SentPacketSnapshot :=
  on_send (mark_retransmitted seq now).
Definition connection_on_timeout (now : Z) (apply_backoff : bool) : method (option TimeoutOutcome) :=
  on_send (on_timeout_classified now apply_backoff).
Definition consume_received (bytes : Z) : method Z :=
  c ← get;
  r ← lift (ok_or (c_receive c) (InvalidPhase (phase c) OpConsumeReceived));
  on_receive r (consume_delivered bytes).

(** ** Incoming packets *)
Definition empty_incoming (d : IncomingDisposition) : method IncomingOutcome :=
  c ← get; mret (mkIncoming d None None None (phase c)).
Definition carries_sequence (t : PacketType) : bool := match t with PT_Data | PT_Fin => true | _ => false end.
(** [.then(|| self.state_intent()).transpose()?], and the outcome. *)
Definition accepted (t : PacketType) (ack : AckOutcome) (received : option ReceiveOutcome) : method IncomingOutcome :=
  c ← get;
  reply ← lift (if carries_sequence t then (i ← state_intent c; Ok (Some i)) else Ok None);
  c ← get;
  mret (mkIncoming Accepted (Some ack) received reply (phase c)).
Definition incoming_handshake_ack (packet : DecodedPacket) (now : Z) : method IncomingOutcome :=
  let h := header packet in
  c ← get;
  syn ← lift (expect (find_sent is_syn c));
  let expected_ack := ss_sequence_number syn in
  if negb (UtpPacket.acknowledgement_number h =? expected_ack)
  then empty_incoming (HandshakeAckMismatch expected_ack (UtpPacket.acknowledgement_number h))
  else
    let fresh := ReceiveState_new (seq_wrapping_sub (sequence_number h) 1) in
    '(receive, received) ←
      lift (match packet_type h with
            | PT_Data | PT_Fin =>
              let '(r, o) := receive (packet_type h) (sequence_number h) (payload packet) fresh in
              o ← map_err ReceiveFailed o; Ok (r, Some o)
            | PT_State => Ok (fresh, None)
            | PT_Reset | PT_Syn => Panic
            end);
    ack ← on_send (acknowledge (UtpPacket.acknowledgement_number h) (selective_ack packet) (packet_type h) now);
    modify (set_receive (Some receive));;
    modify (set_phase Connected);;
    refresh_phase;;
    accepted (packet_type h) ack received.
(** [.expect(..)] of a call's result. *)
Definition expect_ok {A} (m : method A) : method A :=
  fun c => match m c with (c', Err _) => (c', Panic) | r => r end.
Definition incoming_established (packet : DecodedPacket) (now : Z) : method IncomingOutcome :=
  let h := header packet in
  received ←
    (match packet_type h with
     | PT_Data | PT_Fin =>
       c ← get;
       r ← lift (expect (c_receive c));
       o ← on_receive r (receive (packet_type h) (sequence_number h) (payload packet));
       mret (Some o)
     | PT_State => mret None
     | PT_Reset | PT_Syn => lift Panic
     end);
  ack ← expect_ok (on_send (acknowledge (UtpPacket.acknowledgement_number h) (selective_ack packet) (packet_type h) now));
  on_send (on_valid_incoming now);;
  refresh_phase;;
  accepted (packet_type h) ack received.
Definition incoming (packet : DecodedPacket) (now : Z) : method IncomingOutcome :=
  let h := header packet in
  c ← get;
  if is_terminal c then empty_incoming Terminal
  else if negb (connection_id h =? id_receive (ids c))
  then empty_incoming (WrongConnectionId (id_receive (ids c)) (connection_id h))
  else if bool_decide (packet_type h = PT_Reset) then
    reset_to Reset;; empty_incoming Accepted
  else if bool_decide (packet_type h = PT_Syn) then empty_incoming (UnexpectedPacketType PT_Syn)
  else if bool_decide (phase c = SynSent) then incoming_handshake_ack packet now
  else incoming_established packet now.

(** * Specification *)

(** A packet the codec can have decoded. *)
Record packet_typed (d : DecodedPacket) : Prop := {
  pt_header : header_ok (header d);
  pt_sack : sack_refusal (selective_ack d) = None;
  pt_payload : payload_valid (packet_type (header d)) (len (payload d)) = true;
  pt_length : len (payload d) <= MAX_UTP_PAYLOAD_SIZE;
}.

(** Only these are kept until they are acknowledged. *)
Definition kept_type (t : PacketType) : Prop := t = PT_Syn \/ t = PT_Data \/ t = PT_Fin.
Definition types_in_flight (s : SendState) : list PacketType := map sp_packet_type (outstanding s).
Record connection_ok (c : ConnectionState) : Prop := {
  co_ledger : ledger_ok (c_send c);
  co_types : Forall kept_type (types_in_flight (c_send c));
  co_terminal : terminal (c_send c) = is_terminal c;
  co_window r : c_receive c = Some r -> window_ok 2 r /\ UtpReceive.terminal r = is_terminal c;
  co_ids : is_u 16 (id_send (ids c)) /\ is_u 16 (id_receive (ids c));
  co_phase : match phase c with
             | SynSent => c_receive c = None /\ types_in_flight (c_send c) = [PT_Syn] /\ fin_sent (c_send c) = false
             | Reset | Closed => True
             | p => is_Some (c_receive c) /\ p = phase_of (fin_sent (c_send c)) (remote_fin c)
             end;
}.

(** The phases in the order a connection goes through them. *)
Definition follows (p p' : ConnectionPhase) : bool :=
  bool_decide (p = p') ||
  match p, p' with
  | SynSent, (Connected | RemoteFinReceived) => true
  | Connected, (LocalFinSent | RemoteFinReceived) => true
  | (LocalFinSent | RemoteFinReceived), Closing => true
  | (SynSent | Connected | LocalFinSent | RemoteFinReceived | Closing), Reset => true
  | _, Closed => true
  | _, _ => false
  end.

(** * Lemmas *)

(** ** What a decoded packet is *)
Lemma sack_of_length exts mask : forall seen, chain_ok seen exts -> sack_of exts = Some mask -> 1 <= len mask <= MAX_SACK_BYTES.
Proof.
  induction exts as [|e r IH]; intros seen Hc; [done|]. cbn [sack_of chain_ok] in *. destruct Hc as (_ & _ & Hc).
  destruct (kind e =? SACK_EXTENSION); [intros [= <-]; apply Hc|by eapply IH].
Qed.
Lemma decoded_typed bytes d : is_bytes bytes -> decode_packet bytes = Ok d -> packet_typed d.
Proof.
  intros Hb E. destruct (decode_inv bytes d Hb E) as (exts & Hw & (Hh & Hc & Hn & Hp & Hm) & Hd). split; [done| |done|].
  - assert (selective_ack d = sack_of exts) as -> by (by rewrite Hd).
    unfold sack_refusal. destruct (sack_of exts) as [mask|] eqn:Hs; [|done]. cbn.
    apply (sack_of_length exts mask false Hc) in Hs as [H1 H2]. by rewrite (proj2 (Z.leb_le _ _) H1), (proj2 (Z.leb_le _ _) H2).
  - unfold wire in Hm. rewrite !len_app, len_encode_header in Hm. pose proof (len_nonneg (encode_extensions exts)).
    unfold MAX_UTP_PAYLOAD_SIZE. lia.
Qed.

(** ** Marks of the ledger *)
Definition same_marks (s s' : SendState) : Prop :=
  syn_sent s' = syn_sent s /\ fin_sent s' = fin_sent s /\ terminal s' = terminal s.
Lemma types_unmarked l k : map unmarked l = map unmarked k -> map sp_packet_type l = map sp_packet_type k.
Proof.
  revert k. induction l as [|p l IH]; intros [|q k]; try done. cbn [map]. intros [= _ E _ _ _ _ Er]. by rewrite E, (IH k Er).
Qed.
(** What was sent last and what comes next. *)
Definition same_numbers (s s' : SendState) : Prop :=
  highest_sequence_sent s' = highest_sequence_sent s /\ next_sequence_number s' = next_sequence_number s.
Lemma record_sent_pushed t bytes now s s' seq : record_sent t bytes now s = (s', Ok seq) ->
  terminal s = false /\ sent_type_check t bytes s = None /\ seq = next_sequence_number s
  /\ exists count size d, s' = push_sent t bytes now count size s
      /\ relation_to (next_sequence_number s) (cumulative_acknowledgement s) = After d /\ d <= MAX_SENT_PACKETS.
Proof.
  unfold record_sent. rewrite get_bind. destruct (terminal s) eqn:Ht; [done|].
  destruct (sent_type_check t bytes s) as [e|] eqn:Ec; [done|].
  repeat match goal with |- context [if ?b then _ else _] => destruct b; [done|] end.
  unfold ok_or. destruct (checked_add _ _ _) as [n|]; [|done]. rewrite lift_ok_bind.
  destruct (MAX_SENT_BYTES <? n); [done|].
  destruct (relation_to _ _) as [d| |d|] eqn:Er; try done. destruct (Z.ltb_spec MAX_SENT_PACKETS d) as [|Hd]; [done|].
  intros [= <- <-]. split_and!; try done. eexists _, _, d. by split_and!.
Qed.
Lemma checked_kept t bytes s : sent_type_check t bytes s = None -> kept_type t.
Proof. unfold kept_type. destruct t; try done; auto. Qed.
Lemma record_sent_marks t bytes now s s' seq : record_sent t bytes now s = (s', Ok seq) ->
  terminal s = false /\ terminal s' = false /\ kept_type t
  /\ syn_sent s' = syn_sent s || bool_decide (t = PT_Syn) /\ fin_sent s' = fin_sent s || bool_decide (t = PT_Fin).
Proof.
  intros E. apply record_sent_pushed in E as (Ht & Hc & _ & count & size & d & -> & _). apply checked_kept in Hc. by split_and!.
Qed.
Lemma conclude_marks ack advance offsets source now acknowledged s s' o :
  conclude_ack ack advance offsets source now acknowledged s = (s', o) -> same_marks s s' /\ same_numbers s s'.
Proof.
  unfold conclude_ack. cbv zeta.
  set (sample := match latest_first_sent acknowledged with Some first => _ | None => None end).
  set (s1 := match sample with Some x => set_rtt _ s | None => s end).
  set (s2 := if (0 <? advance) || _ then _ else _).
  assert (same_marks s s2 /\ same_numbers s s2) as H2 by (unfold s2, s1; destruct (_ || _); [|destruct (_ && _)]; by destruct sample).
  destruct (signal_losses _ _ _ _ _) as [l signals].
  destruct (LOSS_ACK_THRESHOLD <=? _); [|by intros [= <- _]]. destruct (signal_missing _ _ _ _); by intros [= <- _].
Qed.
Lemma acknowledge_marks ack selective source now s s' o : acknowledge ack selective source now s = (s', Ok o) ->
  same_marks s s' /\ same_numbers s s'.
Proof.
  unfold acknowledge. rewrite get_bind. destruct (terminal s); [done|].
  destruct (match selective with Some bytes => _ | None => _ end) as [[]| e| |]; [rewrite lift_ok_bind|done..].
  destruct (ack_advance s ack) as [d|advance]; [by intros [= <- _]|].
  destruct (sack_offsets_of s ack selective) as [offsets| | |]; [rewrite lift_ok_bind|done..].
  destruct (split_outstanding _ _ _) as [[[kept gone] bytes]| | |]; [rewrite lift_ok_bind|done..].
  destruct (conclude_ack _ _ _ _ _ _ _) as [s1 o1] eqn:E. apply conclude_marks in E. intros [= <- _].
  revert E. by destruct (0 <? advance).
Qed.
Lemma mark_first_types seq now l : forall l' p, mark_first seq now l = Ok (l', p) -> map sp_packet_type l' = map sp_packet_type l.
Proof.
  induction l as [|q l IH]; intros l' p; [done|]. cbn [mark_first]. destruct (sp_sequence_number q =? seq).
  - destruct (MAX_TRANSMISSIONS <=? transmissions q); [done|]. destruct (checked_add _ _ _); [|done]. by intros [= <- _].
  - destruct (mark_first seq now l) as [[l1 p1]| | |]; try done. intros [= <- _]. cbn [map]. by rewrite (IH _ _ eq_refl).
Qed.

(** ** Calls on the two halves *)
Lemma wp_on_send {A} (m : UtpSend.method A) c (Q : A -> ConnectionState -> Prop) R :
  wp m (c_send c) (fun a s => Q a (set_send s c)) (fun e s => R (SendFailed e) (set_send s c)) -> wp (on_send m) c Q R.
Proof. unfold wp, on_send. by destruct (m (c_send c)) as [s [a|e| |]]. Qed.
Lemma wp_on_receive {A} rs (m : UtpReceive.method A) c (Q : A -> ConnectionState -> Prop) R :
  wp m rs (fun a s => Q a (set_receive (Some s) c)) (fun e s => R (ReceiveFailed e) (set_receive (Some s) c)) ->
  wp (on_receive rs m) c Q R.
Proof. unfold wp, on_receive. by destruct (m rs) as [s [a|e| |]]. Qed.
Lemma set_send_same c : set_send (c_send c) c = c.
Proof. by destruct c. Qed.
Lemma set_receive_same r c : c_receive c = Some r -> set_receive (Some r) c = c.
Proof. destruct c. cbn. by intros ->. Qed.

Lemma record_sent_kept t bytes now s : ledger_ok s ->
  wp (record_sent t bytes now) s
     (fun seq s' => ledger_ok s' /\ types_in_flight s' = types_in_flight s ++ [t] /\ kept_type t
        /\ terminal s' = terminal s /\ fin_sent s' = fin_sent s || bool_decide (t = PT_Fin)
        /\ seq = next_sequence_number s /\ exists p, outstanding s' = outstanding s ++ [p] /\ sp_sequence_number p = seq)
     (fun _ s' => s' = s).
Proof.
  intros Hl. eapply wp_with; [by apply record_sent_ok| |done]. intros seq s' E (Hl' & Hseq & Hout).
  destruct (record_sent_marks _ _ _ _ _ _ E) as (Ht & Ht' & Hk & _ & Hf). unfold types_in_flight. rewrite Hout, map_app.
  split_and!; try done; [by rewrite Ht, Ht'|]. eexists. split; [done|]. by rewrite Hseq.
Qed.
Lemma acknowledge_kept ack selective source now s : ledger_ok s -> is_u 16 ack -> terminal s = false -> sack_refusal selective = None ->
  Forall kept_type (types_in_flight s) ->
  exists s' o, acknowledge ack selective source now s = (s', Ok o) /\ ledger_ok s' /\ Forall kept_type (types_in_flight s') /\ same_marks s s'.
Proof.
  intros Hl Ha Ht Hs Hk. pose proof (acknowledge_ok ack selective source now s Hl Ha) as H. rewrite Ht, Hs in H.
  destruct (ack_advance s ack) as [d|advance].
  - exists s, (empty_ack d s). by split_and!.
  - destruct H as (s' & o & E & Hl' & (_ & Hout & _) & _). exists s', o. split; [done|]. split; [done|].
    split; [|by apply (acknowledge_marks _ _ _ _ _ _ _ E)]. unfold types_in_flight in *. rewrite (types_unmarked _ _ Hout).
    rewrite Forall_map in Hk |- *. rewrite Forall_forall in *. intros p [_ Hp]%list_elem_of_filter. by apply Hk.
Qed.
Definition kept_as (s s' : SendState) : Prop := ledger_ok s' /\ types_in_flight s' = types_in_flight s /\ same_marks s s'.
Lemma mark_retransmitted_kept seq now s : ledger_ok s -> wp (mark_retransmitted seq now) s (fun _ s' => kept_as s s') (fun _ s' => s' = s).
Proof.
  intros Hl. eapply wp_with; [by apply mark_retransmitted_ok| |done]. intros v s' E (Hl' & _). split; [done|].
  unfold mark_retransmitted in E. rewrite get_bind in E. destruct (terminal s); [done|].
  destruct (mark_first seq now (outstanding s)) as [[l p]| | |] eqn:Em; [rewrite lift_ok_bind in E|done..]. injection E as <- <-.
  split; [by apply (mark_first_types _ _ _ _ _ Em)|done].
Qed.
Lemma on_timeout_kept now backoff s : ledger_ok s -> wp (on_timeout_classified now backoff) s (fun _ s' => kept_as s s') (fun _ s' => s' = s).
Proof.
  intros Hl. eapply wp_with; [by apply on_timeout_ok| |done]. intros v s' E (Hl' & _). split; [done|].
  unfold on_timeout_classified in E. rewrite get_bind in E. destruct (terminal s); [done|].
  destruct (timeout_deadline_micros s) as [d|]; [|by injection E as <-]. destruct (now <? d); [by injection E as <-|].
  injection E as <- _. split; [|done]. unfold types_in_flight. cbn. by rewrite map_map.
Qed.
Lemma on_valid_incoming_kept now s : ledger_ok s -> wp (on_valid_incoming now) s (fun _ s' => kept_as s s') (fun _ _ => False).
Proof.
  intros Hl. eapply wp_with; [by apply on_valid_incoming_ok| |done]. intros v s' E (Hl' & Hout). split; [done|].
  unfold types_in_flight. rewrite Hout. split; [done|]. by injection E as <- _.
Qed.

Lemma flushed_eof s ds s' : flushed s ds s' -> eof_reached s = true -> eof_reached s' = true.
Proof.
  induction 1 as [|s p ds s' next Hn _ IH]; [done|]. intros He. apply IH.
  destruct (delivered1_fields next p (taken next p s)) as (_ & _ & _ & _ & -> & _). change (eof_reached (taken next p s)) with (eof_reached s). by rewrite He, orb_true_r.
Qed.
Lemma moved_eof s seq p out s' : moved s seq p out s' -> eof_reached s = true -> eof_reached s' = true.
Proof.
  destruct (fin_noted_fields seq p s) as (_ & _ & _ & _ & _ & E & _).
  intros [|n|ds s1 b _ _ _ Hfl|d c b _ _ _ _] He; [done|done| |by rewrite <- E in He].
  cbn. apply (flushed_eof _ _ _ Hfl). destruct (delivered1_fields seq p (fin_noted seq p s)) as (_ & _ & _ & _ & -> & _).
  by rewrite E, He, orb_true_r.
Qed.
Lemma receive_kept t seq bytes r : window_ok 2 r -> is_u 16 seq -> UtpReceive.terminal r = false -> carries_sequence t = true ->
  payload_valid t (len bytes) = true -> len bytes <= MAX_UTP_PAYLOAD_SIZE ->
  exists r' o, receive t seq bytes r = (r', Ok o) /\ window_ok 2 r' /\ UtpReceive.terminal r' = false
    /\ (eof_reached r = true -> eof_reached r' = true) /\ outcome_means r' o.
Proof.
  intros Hw Hq Ht Hc Hp Hlen. pose proof (receive_answer t seq bytes r Hw Hq) as H.
  assert (receive_refusal t bytes r = None) as Hr.
  { unfold receive_refusal. rewrite Ht. destruct t; try done; cbn in *.
    - destruct (decide (bytes = [])) as [->|Hb]; [done|]. rewrite (bool_decide_false (bytes = [])) by done.
      by rewrite andb_false_r, (proj2 (Z.ltb_ge _ _) Hlen).
    - by rewrite (proj2 (Z.ltb_ge _ _) Hlen). }
  rewrite Hr in H. destruct H as (k & r' & o & Hk & E & Hm & Ho & Hw'). exists r', o. split_and!; try done; try apply Ho.
  - by rewrite (moved_terminal _ _ _ _ _ Hm).
  - by eapply moved_eof.
Qed.

(** ** Phases *)
Lemma terminal_phase c : is_terminal c = true <-> phase c = Reset \/ phase c = Closed.
Proof. unfold is_terminal. destruct (phase c); split; intuition congruence. Qed.
Definition established (c : ConnectionState) (r : ReceiveState) : Prop :=
  is_terminal c = false /\ phase c <> SynSent /\ c_receive c = Some r /\ phase c = phase_of (fin_sent (c_send c)) (eof_reached r).
Lemma established_of c : connection_ok c -> is_terminal c = false -> phase c <> SynSent -> exists r, established c r.
Proof.
  intros H Ht Hs. pose proof (co_phase _ H) as Hp. unfold established, remote_fin in *.
  assert (is_Some (c_receive c) /\ phase c = phase_of (fin_sent (c_send c)) match c_receive c with Some r => eof_reached r | None => false end) as [[r Hr] E]
    by (unfold is_terminal in Ht; by destruct (phase c)).
  exists r. rewrite Hr in E. by split_and!.
Qed.
Lemma follows_refl p : follows p p = true.
Proof. by destruct p. Qed.
(** The phase the two marks determine only moves forward. *)
Lemma phase_of_follows l r l' r' : (l = true -> l' = true) -> (r = true -> r' = true) -> l = l' \/ r = r' ->
  follows (phase_of l r) (phase_of l' r') = true.
Proof. destruct l, r, l', r'; intuition. Qed.
Lemma phase_of_open l r : phase_of l r <> SynSent /\ phase_of l r <> Reset /\ phase_of l r <> Closed.
Proof. by destruct l, r. Qed.
Lemma open_phase p l r : p = phase_of l r -> (match p with Reset | Closed => true | _ => false end) = false.
Proof. intros ->. by destruct l, r. Qed.

(** A connection in the middle of its life. *)
Record live_ok (c : ConnectionState) (r : ReceiveState) : Prop := {
  lv_ledger : ledger_ok (c_send c);
  lv_types : Forall kept_type (types_in_flight (c_send c));
  lv_terminal : terminal (c_send c) = false;
  lv_receive : c_receive c = Some r;
  lv_window : window_ok 2 r;
  lv_open : UtpReceive.terminal r = false;
  lv_ids : is_u 16 (id_send (ids c)) /\ is_u 16 (id_receive (ids c));
}.
Lemma live_of c r : connection_ok c -> established c r -> live_ok c r.
Proof.
  intros H (Ht & _ & Hr & _). destruct (co_window _ H r Hr) as [Hw Hrt]. pose proof (co_terminal _ H). split; try apply H; congruence || done.
Qed.
Lemma refresh_live c r : live_ok c r ->
  is_terminal c = false -> phase c <> SynSent ->
  refresh_phase c = (set_phase (phase_of (fin_sent (c_send c)) (eof_reached r)) c, Ok tt).
Proof.
  intros H Ht Hs. unfold refresh_phase. rewrite get_bind, Ht, bool_decide_false by done. cbn [orb].
  unfold remote_fin. by rewrite (lv_receive _ _ H).
Qed.
Lemma refreshed_ok c r : live_ok c r -> connection_ok (set_phase (phase_of (fin_sent (c_send c)) (eof_reached r)) c).
Proof.
  intros H. pose proof (phase_of_open (fin_sent (c_send c)) (eof_reached r)) as (H1 & H2 & H3).
  assert (is_terminal (set_phase (phase_of (fin_sent (c_send c)) (eof_reached r)) c) = false) as Hnt by (unfold is_terminal; cbn; by destruct (fin_sent _), (eof_reached r)).
  split; try apply H.
  - rewrite Hnt. apply H.
  - cbn. intros r' Hr'. rewrite (lv_receive _ _ H) in Hr'. injection Hr' as <-. rewrite Hnt. split; apply H.
  - cbn [phase set_phase]. unfold remote_fin. cbn [c_receive c_send set_phase]. rewrite (lv_receive _ _ H).
    destruct (fin_sent (c_send c)), (eof_reached r); cbn; split; done.
Qed.
Lemma intent_of_ok c r t seq n : window_ok 2 r -> exists i, intent_of c r t seq n = Ok i
  /\ i_packet_type i = t /\ i_connection_id i = id_send (ids c) /\ i_sequence_number i = seq /\ i_payload_bytes i = n
  /\ i_acknowledgement_number i = UtpReceive.acknowledgement_number r /\ sack_means r (i_selective_ack i).
Proof.
  intros Hw. unfold intent_of. rewrite (window_returned r Hw). cbn [map_err]. rewrite ok_bind.
  destruct (sack_ok r Hw) as (bits & -> & Hs). cbn [map_err]. rewrite ok_bind. eexists. split; [done|]. by split_and!.
Qed.
Lemma accepted_ok t ack received c r : c_receive c = Some r -> is_terminal c = false -> window_ok 2 r ->
  exists o, accepted t ack received c = (c, Ok o) /\ in_disposition o = Accepted /\ in_acknowledgement o = Some ack
    /\ in_receive o = received /\ in_phase o = phase c
    /\ match in_reply o with
       | None => carries_sequence t = false
       | Some i => carries_sequence t = true /\ i_packet_type i = PT_State /\ i_connection_id i = id_send (ids c)
           /\ i_acknowledgement_number i = UtpReceive.acknowledgement_number r /\ sack_means r (i_selective_ack i)
       end.
Proof.
  intros Hr Ht Hw. unfold accepted. rewrite get_bind. destruct (carries_sequence t).
  - unfold state_intent. rewrite Hr, Ht. cbn [ok_or]. rewrite ok_bind.
    destruct (intent_of_ok c r PT_State (next_sequence_number (c_send c)) 0 Hw) as (i & -> & H1 & H2 & _ & _ & H3 & H4). rewrite ok_bind, lift_ok_bind, get_bind.
    eexists. split; [done|]. by split_and!.
  - rewrite lift_ok_bind, get_bind. eexists. split; [done|]. by split_and!.
Qed.

(** ** Operations *)
Definition steps_well {A} (m : method A) (c : ConnectionState) : Prop :=
  wp m c (fun _ c' => connection_ok c' /\ follows (phase c) (phase c') = true) (fun _ c' => c' = c).

Lemma reset_to_ok p c : p = Reset \/ p = Closed -> connection_ok c ->
  exists c', reset_to p c = (c', Ok tt) /\ connection_ok c' /\ phase c' = p /\ ids c' = ids c /\ outstanding (c_send c') = [].
Proof.
  intros Hp H. unfold reset_to. pose proof (reset_ledger _ (co_ledger _ H)) as Hl.
  set (s' := fst (UtpSend.reset (c_send c))). assert (ledger_ok s') as Hs by exact Hl.
  assert (is_terminal (set_phase p c) = true) as Ht by (by destruct Hp as [-> | ->]).
  destruct (c_receive c) as [r|] eqn:Hr.
  - set (r' := fst (UtpReceive.reset r)). assert (window_ok 2 r') as Hw.
    { destruct (co_window _ H r Hr) as [Hw _]. exact (proj1 (op_ok OpReset r Hw I)). }
    exists (mkConnection (ids c) p s' (Some r')). split; [unfold on_send, on_receive, mbind, M_bind, get; cbn; by rewrite Hr|].
    split; [|by split_and!]. split; cbn [c_send c_receive ids phase]; try done; try apply H.
    + intros r1 [= <-]. split; [done|]. by destruct Hp as [-> | ->].
    + by destruct Hp as [-> | ->].
  - exists (mkConnection (ids c) p s' None). split. { unfold on_send, on_receive, mbind, M_bind, get; cbn. rewrite Hr. unfold set_phase, set_send. cbn. rewrite Hr. done. }
    split; [|by split_and!]. split; cbn [c_send c_receive ids phase]; try done; try apply H; by destruct Hp as [-> | ->].
Qed.
Lemma live_set_send c r s' : live_ok c r -> ledger_ok s' -> Forall kept_type (types_in_flight s') -> terminal s' = false -> live_ok (set_send s' c) r.
Proof. intros [H1 H2 H3 H4 H5 H6 H7]. by split. Qed.
Lemma may_send_established c : connection_ok c -> may_send (phase c) = true -> is_terminal c = false /\ phase c <> SynSent.
Proof. intros _. unfold is_terminal. by destruct (phase c). Qed.
(** Without a change of the marks the phase stays as it is. *)
Lemma connection_established_ok c r c' r' : established c r -> live_ok c' r' -> phase c' = phase c ->
  fin_sent (c_send c') = fin_sent (c_send c) -> eof_reached r' = eof_reached r -> connection_ok c'.
Proof.
  intros (Ht & Hs & Hr & Hp) H E Ef Er. pose proof (refreshed_ok c' r' H) as Hok. rewrite Ef, Er, <- Hp, <- E in Hok. by destruct c'.
Qed.

Lemma record_data_ok payload now c : connection_ok c -> steps_well (record_data payload now) c.
Proof.
  intros H. unfold steps_well, record_data. wp_step. wp_step. destruct (may_send (phase c)) eqn:Hm; cbn [negb]; [|by wp_step].
  destruct (may_send_established c H Hm) as [Ht Hs]. destruct (established_of c H Ht Hs) as (r & He). pose proof (live_of c r H He) as Hv.
  wp_step. apply wp_on_send. eapply wp_mono; [apply record_sent_kept, H| |intros e s' ->; apply set_send_same].
  cbv beta. intros seq s' (Hl & Hty & Hk & Hterm & Hf & _). wp_step. wp_step.
  assert (live_ok (set_send s' c) r) as Hv'.
  { apply live_set_send; try done; [rewrite Hty; apply Forall_app; split; [apply H|by constructor]|]. rewrite Hterm. apply Hv. }
  unfold outbound_sequence_intent. cbn [c_receive set_send]. rewrite (lv_receive _ _ Hv). cbn [ok_or]. rewrite ok_bind.
  destruct (intent_of_ok (set_send s' c) r PT_Data seq (len payload) (lv_window _ _ Hv)) as (i & -> & _). wp_step.
  split; [|apply follows_refl]. apply (connection_established_ok c r _ r He Hv'); try done. cbn. by rewrite Hf, orb_false_r.
Qed.
Lemma record_fin_ok payload now c : connection_ok c -> steps_well (record_fin payload now) c.
Proof.
  intros H. unfold steps_well, record_fin. wp_step. wp_step. destruct (may_send (phase c)) eqn:Hm; cbn [negb]; [|by wp_step].
  destruct (may_send_established c H Hm) as [Ht Hs]. destruct (established_of c H Ht Hs) as (r & He). pose proof (live_of c r H He) as Hv.
  wp_step. apply wp_on_send. eapply wp_mono; [apply record_sent_kept, H| |intros e s' ->; apply set_send_same].
  cbv beta. intros seq s' (Hl & Hty & Hk & Hterm & Hf & _).
  assert (live_ok (set_send s' c) r) as Hv'.
  { apply live_set_send; try done; [rewrite Hty; apply Forall_app; split; [apply H|by constructor]|]. rewrite Hterm. apply Hv. }
  wp_step. unfold wp at 1. rewrite (refresh_live _ r Hv') by done. wp_step. wp_step.
  unfold outbound_sequence_intent. cbn [c_receive set_send set_phase]. rewrite (lv_receive _ _ Hv). cbn [ok_or]. rewrite ok_bind.
  match goal with |- context [intent_of ?c2 _ _ _ _] => destruct (intent_of_ok c2 r PT_Fin seq (len payload) (lv_window _ _ Hv)) as (i & -> & _) end.
  wp_step. split; [by apply refreshed_ok|]. destruct He as (_ & _ & _ & ->). cbn [phase set_phase c_send set_send]. rewrite Hf.
  by destruct (fin_sent (c_send c)), (eof_reached r).
Qed.
Lemma kept_ok c s' : connection_ok c -> kept_as (c_send c) s' -> connection_ok (set_send s' c).
Proof.
  intros H (Hl & Hty & Hsyn & Hf & Ht). split; try done; try apply H.
  - cbn. rewrite Hty. apply H.
  - cbn. rewrite Ht. apply H.
  - pose proof (co_phase _ H) as Hp. cbn [phase set_send c_receive c_send]. unfold remote_fin in *. cbn [c_receive set_send].
    by destruct (phase c); try done; rewrite ?Hf, ?Hty.
Qed.
Lemma mark_retransmitted_steps seq now c : connection_ok c -> steps_well (connection_mark_retransmitted seq now) c.
Proof.
  intros H. apply wp_on_send. eapply wp_mono; [apply mark_retransmitted_kept, H| |intros e s' ->; apply set_send_same].
  cbv beta. intros v s' Hs. split; [by apply kept_ok|apply follows_refl].
Qed.
Lemma on_timeout_steps now backoff c : connection_ok c -> steps_well (connection_on_timeout now backoff) c.
Proof.
  intros H. apply wp_on_send. eapply wp_mono; [apply on_timeout_kept, H| |intros e s' ->; apply set_send_same].
  cbv beta. intros v s' Hs. split; [by apply kept_ok|apply follows_refl].
Qed.
Lemma consume_steps n c : connection_ok c -> is_u USIZE n -> steps_well (consume_received n) c.
Proof.
  intros H Hn. unfold steps_well, consume_received. wp_step. wp_step. wp_step. apply wp_lift_ok_or; [|done]. intros r Hr.
  apply wp_on_receive. destruct (co_window _ H r Hr) as [Hw Ht]. pose proof (consume_ok n r Hw Hn) as Hc. unfold wp.
  destruct (UtpReceive.terminal r) eqn:Htr; [rewrite Hc; by apply set_receive_same|].
  destruct (delivered_unconsumed_bytes r <? n); [rewrite Hc; by apply set_receive_same|]. destruct Hc as [Hw' ->].
  split; [|apply follows_refl]. pose proof (co_phase _ H) as Hp. split; try apply H.
  - cbn. intros r' [= <-]. split; [done|]. cbn. by rewrite Htr.
  - cbn [phase set_receive c_receive c_send]. unfold remote_fin in *. rewrite Hr in Hp. cbn [c_receive set_receive].
    destruct (phase c); try done; destruct Hp as [? Hp]; try done; by split.
Qed.
Lemma finish_steps c : connection_ok c -> steps_well finish c.
Proof.
  intros H. unfold steps_well, finish. wp_step. wp_step. destruct (ready_to_close c); cbn [negb]; [|by wp_step].
  destruct (reset_to_ok Closed c (or_intror eq_refl) H) as (c' & E & Hok & Hp & _). unfold wp. rewrite E. split; [done|].
  rewrite Hp. by destruct (phase c).
Qed.
Lemma abort_steps c : connection_ok c -> steps_well abort c.
Proof.
  intros H. destruct (reset_to_ok Closed c (or_intror eq_refl) H) as (c' & E & Hok & Hp & _). unfold steps_well, wp, abort. rewrite E.
  split; [done|]. rewrite Hp. by destruct (phase c).
Qed.

(** ** Incoming packets *)
Definition sent_type (t : PacketType) : Prop := t = PT_Data \/ t = PT_Fin \/ t = PT_State.
Lemma sent_type_of t : t <> PT_Reset -> t <> PT_Syn -> sent_type t.
Proof. unfold sent_type. destruct t; auto; done. Qed.

(** What an accepted packet does to the two halves. *)
Definition accepts (c : ConnectionState) (packet : DecodedPacket) (now : Z) (c' : ConnectionState) (o : IncomingOutcome) : Prop :=
  exists r' s1 ack, c_receive c' = Some r' /\ in_disposition o = Accepted /\ in_acknowledgement o = Some ack
    /\ acknowledge (UtpPacket.acknowledgement_number (header packet)) (selective_ack packet) (packet_type (header packet)) now (c_send c) = (s1, Ok ack)
    /\ outstanding (c_send c') = outstanding s1
    /\ in_phase o = phase c'
    /\ match in_receive o with
       | None => packet_type (header packet) = PT_State
       | Some ro => carries_sequence (packet_type (header packet)) = true /\ outcome_means r' ro
       end
    /\ match in_reply o with
       | None => packet_type (header packet) = PT_State
       | Some i => i_packet_type i = PT_State /\ i_connection_id i = id_send (ids c)
           /\ i_acknowledgement_number i = UtpReceive.acknowledgement_number r' /\ sack_means r' (i_selective_ack i)
       end.

Lemma established_receive c r packet : live_ok c r -> packet_typed packet -> sent_type (packet_type (header packet)) ->
  exists r' received,
    (match packet_type (header packet) with
     | PT_Data | PT_Fin =>
       c ← get;
       r ← lift (expect (c_receive c));
       o ← on_receive r (receive (packet_type (header packet)) (UtpPacket.sequence_number (header packet)) (payload packet));
       mret (Some o)
     | PT_State => mret None
     | PT_Reset | PT_Syn => lift Panic
     end : method (option ReceiveOutcome)) c = (set_receive (Some r') c, Ok received)
    /\ live_ok (set_receive (Some r') c) r' /\ (eof_reached r = true -> eof_reached r' = true)
    /\ match received with
       | None => packet_type (header packet) = PT_State /\ r' = r
       | Some ro => carries_sequence (packet_type (header packet)) = true /\ outcome_means r' ro
       end.
Proof.
  intros H Hp Ht. pose proof (pt_header _ Hp) as (_ & _ & _ & _ & Hq & _). pose proof (pt_payload _ Hp) as Hv. pose proof (pt_length _ Hp) as Hl.
  assert (carries_sequence (packet_type (header packet)) = true -> exists r' o,
    (c ← get; r ← lift (expect (c_receive c));
     o ← on_receive r (receive (packet_type (header packet)) (UtpPacket.sequence_number (header packet)) (payload packet)); mret (Some o)) c
    = (set_receive (Some r') c, Ok (Some o)) /\ live_ok (set_receive (Some r') c) r' /\ (eof_reached r = true -> eof_reached r' = true) /\ outcome_means r' o) as Hdata.
  { intros Hc. destruct (receive_kept _ _ (payload packet) r (lv_window _ _ H) Hq (lv_open _ _ H) Hc Hv Hl) as (r' & o & E & Hw & Ht' & He & Ho).
    exists r', o. split; [|split; [|done]].
    - rewrite get_bind, (lv_receive _ _ H). cbn [expect]. rewrite lift_ok_bind. unfold mbind, M_bind, on_receive. by rewrite E.
    - destruct H as [L1 L2 L3 L4 L5 L6 L7]. by split. }
  destruct Ht as [E|[E|E]]; rewrite E in *.
  - destruct (Hdata eq_refl) as (r' & o & Hd & Hrest). exists r', (Some o). split; [exact Hd|]. naive_solver.
  - destruct (Hdata eq_refl) as (r' & o & Hd & Hrest). exists r', (Some o). split; [exact Hd|]. naive_solver.
  - exists r, None. rewrite (set_receive_same r c) by apply H. by split_and!.
Qed.
Lemma incoming_established_ok packet now c r : connection_ok c -> established c r -> packet_typed packet ->
  sent_type (packet_type (header packet)) ->
  exists c' o, incoming_established packet now c = (c', Ok o) /\ connection_ok c' /\ follows (phase c) (phase c') = true
    /\ ids c' = ids c /\ accepts c packet now c' o.
Proof.
  intros H He Hp Ht. pose proof (live_of c r H He) as Hv. pose proof (pt_header _ Hp) as (_ & _ & _ & _ & _ & Ha).
  unfold incoming_established. cbv zeta.
  destruct (established_receive c r packet Hv Hp Ht) as (r' & received & E1 & Hv1 & Heof & Hrec). unfold mbind at 1, M_bind at 1. rewrite E1. clear E1.
  set (c1 := set_receive (Some r') c) in *.
  destruct (acknowledge_kept _ (selective_ack packet) (packet_type (header packet)) now _ (lv_ledger _ _ Hv1) Ha (lv_terminal _ _ Hv1) (pt_sack _ Hp) (lv_types _ _ Hv1))
    as (s2 & ack & E2 & Hl2 & Hty2 & _ & Hf2 & Ht2).
  unfold mbind at 1, M_bind at 1, expect_ok, on_send at 1. rewrite E2. cbn [map_err].
  pose proof (live_set_send c1 r' s2 Hv1 Hl2 Hty2 ltac:(rewrite Ht2; apply Hv1)) as Hv2.
  pose proof (on_valid_incoming_kept now s2 Hl2) as H3. unfold wp in H3. unfold mbind at 1, M_bind at 1, on_send. cbn [c_send set_send].
  destruct (on_valid_incoming now s2) as [s3 [[]|?| |]] eqn:E3; try done. destruct H3 as (Hl3 & Hty3 & _ & Hf3 & Ht3). cbn [map_err].
  pose proof (live_set_send (set_send s2 c1) r' s3 Hv2 Hl3 ltac:(rewrite Hty3; apply Hty2) ltac:(rewrite Ht3, Ht2; apply Hv1)) as Hv3.
  destruct He as (Hnt & Hns & Hr & Hph). set (c3 := set_send s3 (set_send s2 c1)) in *.
  unfold mbind at 1, M_bind at 1. rewrite (refresh_live c3 r' Hv3) by done.
  set (c4 := set_phase _ c3). assert (connection_ok c4) as Hok by (by apply refreshed_ok).
  assert (is_terminal c4 = false) as Hnt4 by (unfold is_terminal, c4; cbn; by destruct (fin_sent s3), (eof_reached r')).
  destruct (accepted_ok (packet_type (header packet)) ack received c4 r' eq_refl Hnt4 (lv_window _ _ Hv3)) as (o & E4 & O1 & O2 & O3 & O4 & O5).
  exists c4, o. split; [exact E4|]. split; [done|]. split; [|split; [done|]].
  - rewrite Hph. apply phase_of_follows; [|done|left]; cbn; rewrite Hf3, Hf2; done.
  - exists r', s2, ack. split_and!; try done.
    + cbn. unfold on_valid_incoming in E3. by injection E3 as <-.
    + rewrite O3. destruct received; [done|]. by destruct Hrec.
    + destruct (in_reply o) as [i|]; [by destruct O5|]. unfold sent_type, carries_sequence in *. destruct Ht as [E|[E|E]]; by rewrite E in *.
Qed.

(** The SYN in flight. *)
Lemma syn_in_flight c : types_in_flight (c_send c) = [PT_Syn] -> exists p, outstanding (c_send c) = [p]
  /\ sp_packet_type p = PT_Syn /\ find_sent is_syn c = Some (sent_snapshot p).
Proof.
  unfold types_in_flight, find_sent. destruct (outstanding (c_send c)) as [|p [|q l]]; try done. intros [= Hp]. exists p.
  split_and!; try done. cbn [List.find]. unfold is_syn. by rewrite Hp.
Qed.
Lemma handshake_receive packet : packet_typed packet -> sent_type (packet_type (header packet)) ->
  exists r' received,
    match packet_type (header packet) with
    | PT_Data | PT_Fin =>
      let '(r, o) := receive (packet_type (header packet)) (UtpPacket.sequence_number (header packet)) (payload packet)
                       (ReceiveState_new (seq_wrapping_sub (UtpPacket.sequence_number (header packet)) 1)) in
      o ← map_err ReceiveFailed o; Ok (r, Some o)
    | PT_State => Ok (ReceiveState_new (seq_wrapping_sub (UtpPacket.sequence_number (header packet)) 1), None)
    | PT_Reset | PT_Syn => Panic
    end = Ok (r', received) /\ window_ok 2 r' /\ UtpReceive.terminal r' = false
    /\ match received with
       | None => packet_type (header packet) = PT_State
           /\ r' = ReceiveState_new (seq_wrapping_sub (UtpPacket.sequence_number (header packet)) 1)
       | Some ro => carries_sequence (packet_type (header packet)) = true /\ outcome_means r' ro
       end.
Proof.
  intros Hp Ht. pose proof (pt_header _ Hp) as (_ & _ & _ & _ & Hq & _). set (seq := UtpPacket.sequence_number (header packet)) in *.
  assert (window_ok 2 (ReceiveState_new (seq_wrapping_sub seq 1))) as Hw by (apply new_window, Z.mod_pos_bound; done).
  assert (carries_sequence (packet_type (header packet)) = true -> exists r' o,
    receive (packet_type (header packet)) seq (payload packet) (ReceiveState_new (seq_wrapping_sub seq 1)) = (r', Ok o)
    /\ window_ok 2 r' /\ UtpReceive.terminal r' = false /\ outcome_means r' o) as Hdata.
  { intros Hc. destruct (receive_kept _ seq (payload packet) _ Hw Hq eq_refl Hc (pt_payload _ Hp) (pt_length _ Hp)) as (r' & o & E & H1 & H2 & _ & H3).
    by exists r', o. }
  destruct Ht as [E|[E|E]]; rewrite E in *.
  - destruct (Hdata eq_refl) as (r' & o & -> & Hrest). exists r', (Some o). cbn [map_err]. rewrite ok_bind. naive_solver.
  - destruct (Hdata eq_refl) as (r' & o & -> & Hrest). exists r', (Some o). cbn [map_err]. rewrite ok_bind. naive_solver.
  - eexists _, None. by split_and!.
Qed.
Lemma incoming_handshake_ok packet now c : connection_ok c -> phase c = SynSent -> packet_typed packet ->
  sent_type (packet_type (header packet)) ->
  exists c' o, incoming_handshake_ack packet now c = (c', Ok o) /\ connection_ok c' /\ follows SynSent (phase c') = true /\ ids c' = ids c
    /\ ((exists p, outstanding (c_send c) = [p] /\ sp_packet_type p = PT_Syn
           /\ UtpPacket.acknowledgement_number (header packet) <> sp_sequence_number p
           /\ in_disposition o = HandshakeAckMismatch (sp_sequence_number p) (UtpPacket.acknowledgement_number (header packet)) /\ c' = c)
        \/ accepts c packet now c' o /\ phase c' = phase_of false (remote_fin c')
           /\ (packet_type (header packet) = PT_State ->
               c_receive c' = Some (ReceiveState_new (seq_wrapping_sub (UtpPacket.sequence_number (header packet)) 1)))).
Proof.
  intros H Hs Hp Ht. pose proof (co_phase _ H) as Hph. rewrite Hs in Hph. destruct Hph as (Hr & Hty & Hf).
  destruct (syn_in_flight c Hty) as (p & Hout & Hpt & Hfind). pose proof (pt_header _ Hp) as (_ & _ & _ & _ & _ & Ha).
  unfold incoming_handshake_ack. cbv zeta. rewrite get_bind, Hfind. cbn [expect]. rewrite lift_ok_bind. cbn [ss_sequence_number sent_snapshot].
  destruct (Z.eqb_spec (UtpPacket.acknowledgement_number (header packet)) (sp_sequence_number p)) as [Eack|Nack]; cbn [negb].
  2:{ exists c. eexists. split; [reflexivity|]. rewrite Hs. split_and!; try done. left. exists p. by split_and!. }
  destruct (handshake_receive packet Hp Ht) as (r' & received & -> & Hw & Hrt & Hrec). rewrite lift_ok_bind.
  assert (terminal (c_send c) = false) as Hterm by (rewrite (co_terminal _ H); unfold is_terminal; by rewrite Hs).
  destruct (acknowledge_kept _ (selective_ack packet) (packet_type (header packet)) now _ (co_ledger _ H) Ha Hterm (pt_sack _ Hp) (co_types _ H))
    as (s1 & ack & E1 & Hl1 & Hty1 & _ & Hf1 & Ht1).
  unfold mbind at 1, M_bind at 1, on_send. rewrite E1. cbn [map_err].
  set (c1 := set_phase Connected (set_receive (Some r') (set_send s1 c))).
  assert (live_ok c1 r') as Hv by (split; try done; [cbn; by rewrite Ht1|apply H]).
  change (exists c' o, (refresh_phase ≫= fun _ => accepted (packet_type (header packet)) ack received) c1 = (c', Ok o) /\ connection_ok c' /\ follows SynSent (phase c') = true /\ ids c' = ids c
    /\ ((exists p, outstanding (c_send c) = [p] /\ sp_packet_type p = PT_Syn
           /\ UtpPacket.acknowledgement_number (header packet) <> sp_sequence_number p
           /\ in_disposition o = HandshakeAckMismatch (sp_sequence_number p) (UtpPacket.acknowledgement_number (header packet)) /\ c' = c)
        \/ accepts c packet now c' o /\ phase c' = phase_of false (remote_fin c')
           /\ (packet_type (header packet) = PT_State ->
               c_receive c' = Some (ReceiveState_new (seq_wrapping_sub (UtpPacket.sequence_number (header packet)) 1))))).
  unfold mbind at 1, M_bind at 1. rewrite (refresh_live c1 r' Hv) by done. set (c2 := set_phase _ c1).
  assert (connection_ok c2) as Hok by (by apply refreshed_ok).
  assert (phase c2 = phase_of false (eof_reached r')) as Hp2 by (cbn; by rewrite Hf1, Hf).
  assert (is_terminal c2 = false) as Hnt by (unfold is_terminal; rewrite Hp2; by destruct (eof_reached r')).
  destruct (accepted_ok (packet_type (header packet)) ack received c2 r' eq_refl Hnt Hw) as (o & E4 & O1 & O2 & O3 & O4 & O5).
  exists c2, o. split; [exact E4|]. split; [done|]. rewrite Hp2. split; [by destruct (eof_reached r')|]. split; [done|]. right.
  split; [|split; [done|]].
  - exists r', s1, ack. rewrite Hp2 in O4. split_and!; try done; [by rewrite Hp2|rewrite O3; destruct received; [done|by destruct Hrec]|].
    destruct (in_reply o) as [i|]; [by destruct O5|]. unfold sent_type, carries_sequence in *. destruct Ht as [E|[E|E]]; by rewrite E in *.
  - intros E. cbn. destruct received; [rewrite E in Hrec; by destruct Hrec|]. by destruct Hrec as [_ ->].
Qed.
Lemma incoming_steps packet now c : connection_ok c -> packet_typed packet -> steps_well (incoming packet now) c.
Proof.
  intros H Hp. unfold steps_well, incoming. cbv zeta. wp_step. wp_step.
  assert (forall d, wp (empty_incoming d) c (fun _ c' => connection_ok c' /\ follows (phase c) (phase c') = true) (fun _ c' => c' = c)) as Hempty
    by (intros d; unfold empty_incoming; wp_step; wp_step; wp_step; split; [done|apply follows_refl]).
  destruct (is_terminal c) eqn:Ht; [apply Hempty|]. destruct (negb _); [apply Hempty|].
  case_bool_decide as Hreset.
  { destruct (reset_to_ok Reset c (or_introl eq_refl) H) as (c' & E & Hok & Hp' & _). wp_step. unfold wp at 1. rewrite E.
    unfold empty_incoming. wp_step. wp_step. wp_step. split; [done|]. rewrite Hp'. unfold is_terminal in Ht. by destruct (phase c). }
  case_bool_decide as Hsyn; [apply Hempty|]. pose proof (sent_type_of _ Hreset Hsyn) as Hty. case_bool_decide as Hs.
  - destruct (incoming_handshake_ok packet now c H Hs Hp Hty) as (c' & o & E & Hok & Hf & _). unfold wp. rewrite E, Hs. done.
  - destruct (established_of c H Ht Hs) as (r & He).
    destruct (incoming_established_ok packet now c r H He Hp Hty) as (c' & o & E & Hok & Hf & _). unfold wp. by rewrite E.
Qed.

(** ** Histories *)
Inductive ConnectionOp :=
| DoRecordData (payload : list Z) (now : Z)
| DoRecordFin (payload : list Z) (now : Z)
| DoMarkRetransmitted (seq : SequenceNumber) (now : Z)
| DoTimeout (now : Z) (apply_backoff : bool)
| DoConsume (bytes : Z)
| DoIncoming (packet : DecodedPacket) (now : Z)
| DoFinish
| DoAbort.
Definition run_connection (op : ConnectionOp) : method unit :=
  match op with
  | DoRecordData payload now => record_data payload now ≫= fun _ => mret tt
  | DoRecordFin payload now => record_fin payload now ≫= fun _ => mret tt
  | DoMarkRetransmitted seq now => connection_mark_retransmitted seq now ≫= fun _ => mret tt
  | DoTimeout now apply_backoff => connection_on_timeout now apply_backoff ≫= fun _ => mret tt
  | DoConsume bytes => consume_received bytes ≫= fun _ => mret tt
  | DoIncoming packet now => incoming packet now ≫= fun _ => mret tt
  | DoFinish => finish
  | DoAbort => abort
  end.
Definition connection_op_typed (op : ConnectionOp) : Prop :=
  match op with DoConsume n => is_u USIZE n | DoIncoming packet _ => packet_typed packet | _ => True end.
Inductive connection_reachable : ConnectionState -> Prop :=
| reach_initiate id seq now c : is_u 16 id -> is_u 16 seq -> initiate id seq now = Ok c -> connection_reachable c
| reach_accept syn seq c : packet_typed syn -> is_u 16 seq -> accept_syn syn seq = Ok c -> connection_reachable c
| reach_op c op : connection_reachable c -> connection_op_typed op -> connection_reachable (fst (run_connection op c)).

Lemma before_number i : is_u 16 i -> relation_to i (seq_wrapping_sub i 1) = After 1.
Proof.
  intros Hi. apply relation_to_unique; [done|by apply Z.mod_pos_bound|]. cbn. split; [lia|]. wrap. divlia.
Qed.
Definition syn_packet (i : SequenceNumber) (now : Z) : SentPacket := mkSent i PT_Syn [] 1 now now false.
Lemma initiate_ok id seq now : is_u 16 id -> is_u 16 seq -> exists c, initiate id seq now = Ok c /\ connection_ok c
  /\ phase c = SynSent /\ c_receive c = None /\ ids c = for_initiator id
  /\ c_send c = push_sent PT_Syn [] now 1 0 (SendState_new seq).
Proof.
  intros Hid Hseq. unfold initiate.
  assert (record_sent PT_Syn [] now (SendState_new seq) = (push_sent PT_Syn [] now 1 0 (SendState_new seq), Ok seq)) as E.
  { unfold record_sent. rewrite get_bind. cbn [terminal SendState_new sent_type_check syn_sent next_sequence_number cumulative_acknowledgement].
    rewrite before_number by done. exact eq_refl. }
  pose proof (record_sent_kept PT_Syn [] now _ (new_ledger seq Hseq)) as Hk. unfold wp in Hk. rewrite E in *. cbn [map_err]. rewrite ok_bind.
  eexists. split; [done|]. destruct Hk as (Hl & Hty & Hk & Ht & Hf & _). split; [|by split_and!]. cbn [app types_in_flight map outstanding SendState_new] in Hty.
  split; cbn [c_send c_receive ids phase]; try done.
  - rewrite Hty. by constructor.
  - split; [by apply Z.mod_pos_bound|done].
Qed.
Lemma accept_ok syn seq : packet_typed syn -> is_u 16 seq -> packet_type (header syn) = PT_Syn -> selective_ack syn = None ->
  exists c, accept_syn syn seq = Ok c /\ connection_ok c /\ phase c = Connected /\ ids c = for_acceptor (connection_id (header syn))
    /\ c_receive c = Some (ReceiveState_new (UtpPacket.sequence_number (header syn))) /\ c_send c = SendState_new seq.
Proof.
  intros Hp Hseq Ht Hs. unfold accept_syn. cbv zeta. rewrite bool_decide_true by done. cbn [negb]. rewrite Hs.
  rewrite bool_decide_false by (by intros []). eexists. split; [done|]. split; [|by split_and!].
  pose proof (pt_header _ Hp) as (Hc & _ & _ & _ & Hq & _).
  split; cbn [c_send c_receive ids phase]; try done; [by apply new_ledger| |split; [done|by apply Z.mod_pos_bound]].
  intros r [= <-]. split; [by apply new_window|done].
Qed.
Lemma accept_inv syn seq c : accept_syn syn seq = Ok c -> packet_type (header syn) = PT_Syn /\ selective_ack syn = None.
Proof.
  unfold accept_syn. cbv zeta. case_bool_decide as Ht; [|done]. cbn [negb]. case_bool_decide as Hs; [done|]. intros _. split; [done|].
  destruct (selective_ack syn); [|done]. by destruct Hs.
Qed.
Lemma run_steps op c : connection_ok c -> connection_op_typed op -> steps_well (run_connection op) c.
Proof.
  intros H Ht. unfold steps_well.
  assert (forall A (m : method A), steps_well m c -> wp (m ≫= fun _ => mret tt) c
    (fun _ c' => connection_ok c' /\ follows (phase c) (phase c') = true) (fun _ c' => c' = c)) as Hunit.
  { intros A m Hm. wp_step. eapply wp_mono; [exact Hm| |done]. cbv beta. intros a s' Ha. by wp_step. }
  destruct op; cbn [run_connection connection_op_typed] in *; try apply Hunit.
  - by apply record_data_ok.
  - by apply record_fin_ok.
  - by apply mark_retransmitted_steps.
  - by apply on_timeout_steps.
  - by apply consume_steps.
  - by apply incoming_steps.
  - by apply finish_steps.
  - by apply abort_steps.
Qed.
Lemma reachable_connection c : connection_reachable c -> connection_ok c.
Proof.
  induction 1 as [id seq now c Hid Hs E|syn seq c Hp Hs E|c op _ IH Ht].
  - destruct (initiate_ok id seq now Hid Hs) as (c' & E' & H & _). congruence.
  - destruct (accept_inv _ _ _ E) as [Ht Hn]. destruct (accept_ok syn seq Hp Hs Ht Hn) as (c' & E' & H & _). congruence.
  - pose proof (run_steps op c IH Ht) as H. unfold steps_well, wp in H. destruct (run_connection op c) as [c' [[]|e| |]]; try done; [by destruct H|].
    cbn. by subst.
Qed.
Lemma find_kept test c p : connection_ok c -> List.find test (outstanding (c_send c)) = Some p -> kept_type (sp_packet_type p).
Proof.
  intros H E. apply find_some in E as [Hin _]. pose proof (co_types _ H) as Ht. unfold types_in_flight in Ht. rewrite Forall_map, Forall_forall in Ht.
  apply Ht. by apply list_elem_of_In.
Qed.
Lemma state_intent_returns c : connection_ok c -> returns (state_intent c).
Proof.
  intros H. unfold state_intent. destruct (c_receive c) as [r|] eqn:Hr; [|done]. cbn [ok_or]. rewrite ok_bind. destruct (is_terminal c); [done|].
  destruct (co_window _ H r Hr) as [Hw _]. by destruct (intent_of_ok c r PT_State (next_sequence_number (c_send c)) 0 Hw) as (i & -> & _).
Qed.
Lemma retransmission_returns c seq : connection_ok c -> returns (retransmission_intent c seq).
Proof.
  intros H. unfold retransmission_intent, find_sent. destruct (List.find _ _) as [p|] eqn:E; [|done]. apply find_kept in E; [|done].
  cbn [ok_or]. rewrite ok_bind. cbn [ss_packet_type sent_snapshot].
  assert (forall t seq n, returns (outbound_sequence_intent c t seq n)) as Hout.
  { intros t q n. unfold outbound_sequence_intent. destruct (c_receive c) as [r|] eqn:Hr; [|done]. cbn [ok_or]. rewrite ok_bind.
    destruct (co_window _ H r Hr) as [Hw _]. by destruct (intent_of_ok c r t q n Hw) as (i & -> & _). }
  destruct E as [E|[E|E]]; rewrite E; [by destruct (syn_intent c)|apply Hout..].
Qed.

(** * Properties *)

(** C19: A connection never breaks.  Whatever packets a peer sends and whatever
    its owner asks, a uTP connection keeps its invariant: the ledger and the
    receive window are sound, one SYN is in flight until the handshake, after
    it there is a receive window, the phase is the one that the two FINs
    determine, and a closed connection has dropped both halves.  No call
    panics, so the expectations in the code hold; a refused call changes
    nothing; and the phase only moves forward through the lifecycle. *)
Theorem connection_invariant c op : connection_reachable c -> connection_op_typed op ->
  let c' := fst (run_connection op c) in
  connection_ok c' /\ returns (snd (run_connection op c)) /\ follows (phase c) (phase c') = true
  /\ (forall e, snd (run_connection op c) = Err e -> c' = c)
  /\ returns (state_intent c') /\ (forall seq, returns (retransmission_intent c' seq)).
Proof.
  intros Hr Ht c'. pose proof (reachable_connection c Hr) as H. pose proof (run_steps op c H Ht) as Hs. unfold steps_well, wp in Hs. unfold c'.
  destruct (run_connection op c) as [c1 [[]|e| |]]; try done; cbn [fst snd].
  - destruct Hs as [Hok Hf]. split_and!; try done; [by apply state_intent_returns|intros seq; by apply retransmission_returns].
  - subst. split_and!; try done; [apply follows_refl|by apply state_intent_returns|intros seq; by apply retransmission_returns].
Qed.

(** A packet on the wire carries what the connection intended. *)
Record carries (i : OutboundPacketIntent) (d : DecodedPacket) : Prop := {
  ca_type : packet_type (header d) = i_packet_type i;
  ca_id : connection_id (header d) = i_connection_id i;
  ca_sequence : UtpPacket.sequence_number (header d) = i_sequence_number i;
  ca_acknowledgement : UtpPacket.acknowledgement_number (header d) = i_acknowledgement_number i;
  ca_sack : match i_selective_ack i with
            | None => selective_ack d = None
            | Some bits => exists mask, as_bytes bits = Ok mask /\ selective_ack d = Some mask
            end;
}.
Lemma record_syn seq now : is_u 16 seq ->
  record_sent PT_Syn [] now (SendState_new seq) = (push_sent PT_Syn [] now 1 0 (SendState_new seq), Ok seq).
Proof.
  intros Hs. unfold record_sent. rewrite get_bind. cbn [terminal SendState_new sent_type_check syn_sent next_sequence_number cumulative_acknowledgement].
  rewrite before_number by done. exact eq_refl.
Qed.
Lemma syn_acknowledged seq now source sack now' s' o : is_u 16 seq -> sack_refusal sack = None ->
  acknowledge seq sack source now' (push_sent PT_Syn [] now 1 0 (SendState_new seq)) = (s', Ok o) -> outstanding s' = [].
Proof.
  intros Hq Hs E. pose proof (record_sent_kept PT_Syn [] now _ (new_ledger seq Hq)) as Hk. unfold wp in Hk. rewrite record_syn in Hk by done.
  set (s := push_sent PT_Syn [] now 1 0 (SendState_new seq)) in *. destruct Hk as (Hl & _).
  pose proof (acknowledge_ok seq sack source now' s Hl Hq) as H. rewrite Hs, E in H.
  assert (ack_advance s seq = inr 1) as Hadv.
  { unfold ack_advance. change (cumulative_acknowledgement s) with (seq_wrapping_sub seq 1). change (highest_sequence_sent s) with (Some seq).
    rewrite before_number by done. by rewrite (relation_to_unique Equal seq seq). }
  rewrite Hadv in H. destruct H as (s1 & o1 & [= <- <-] & _ & (_ & Hout & _) & _).
  change (outstanding s) with [syn_packet seq now] in Hout. rewrite filter_cons in Hout.
  assert (acknowledged_by s 1 sack (syn_packet seq now) = true) as Hb.
  { unfold acknowledged_by. change (cumulative_acknowledgement s) with (seq_wrapping_sub seq 1). cbn [sp_sequence_number syn_packet].
    assert (wrapping_sub 16 seq (seq_wrapping_sub seq 1) = 1) as ->; [|done]. wrap. divlia. }
  rewrite decide_False in Hout by (by rewrite Hb). by destruct (outstanding s').
Qed.

(** The handshake connects two ends.  The SYN of [initiate], accepted on
    the other side, and the STATE the other side answers with leave both ends
    connected: each sends with the ID the other expects, each expects the
    sequence number the other will send next, and the SYN is no longer in
    flight.  This holds for all initial numbers, across the wrap, and whatever
    the timestamps and windows in the packets. *)
Theorem handshake_connects id i0 j0 now1 now2 c syn syn_d a st st_d :
  is_u 16 id -> is_u 16 i0 -> is_u 16 j0 ->
  initiate id i0 now1 = Ok c -> syn_intent c = Some syn ->
  carries syn syn_d -> packet_typed syn_d -> accept_syn syn_d j0 = Ok a ->
  state_intent a = Ok st -> carries st st_d -> packet_typed st_d ->
  exists c' o, incoming st_d now2 c = (c', Ok o) /\ in_disposition o = Accepted
    /\ phase c' = Connected /\ phase a = Connected
    /\ id_send (ids c') = id_receive (ids a) /\ id_send (ids a) = id_receive (ids c')
    /\ outstanding (c_send c') = []
    /\ (exists r, c_receive c' = Some r /\ seq_wrapping_add (UtpReceive.acknowledgement_number r) 1 = next_sequence_number (c_send a))
    /\ (exists r, c_receive a = Some r /\ UtpReceive.acknowledgement_number r = i0).
Proof.
  intros Hid Hi Hj Ec Es Csyn Tsyn Ea Est Cst Tst.
  destruct (initiate_ok id i0 now1 Hid Hi) as (c1 & E1 & Hok & Hph & Hr & Hids & Hsend). rewrite Ec in E1. injection E1 as <-.
  unfold syn_intent in Es. rewrite Hph in Es. cbn in Es. unfold find_sent in Es. rewrite Hsend in Es. injection Es as <-.
  destruct Csyn as [S1 S2 S3 _ S5]. cbn in S1, S2, S3, S5.
  destruct (accept_ok syn_d j0 Tsyn Hj S1 S5) as (a1 & E2 & Hoka & Hpa & Hidsa & Hra & Hsa). rewrite Ea in E2. injection E2 as <-.
  unfold state_intent in Est. rewrite Hra in Est. cbn [ok_or] in Est. rewrite ok_bind in Est.
  assert (is_terminal a = false) as Hta by (unfold is_terminal; by rewrite Hpa). rewrite Hta in Est.
  destruct (intent_of_ok a (ReceiveState_new (UtpPacket.sequence_number (header syn_d))) PT_State (next_sequence_number (c_send a)) 0)
    as (st1 & E3 & I1 & I2 & I3 & _ & I5 & _); [apply (proj1 (co_window _ Hoka _ Hra))|]. rewrite Est in E3. injection E3 as <-.
  destruct Cst as [T1 T2 T3 T4 _]. rewrite I1 in T1. rewrite I2, Hidsa in T2. rewrite I3, Hsa in T3. rewrite I5 in T4. cbn in T2, T3, T4.
  unfold incoming. cbv zeta. rewrite get_bind. assert (is_terminal c = false) as -> by (unfold is_terminal; by rewrite Hph).
  rewrite T2, S2, Hids. cbn [id_receive for_initiator]. rewrite Z.eqb_refl. cbn [negb]. rewrite T1, (bool_decide_false (PT_State = PT_Reset)), (bool_decide_false (PT_State = PT_Syn)), (bool_decide_true (phase c = SynSent)) by done.
  destruct (incoming_handshake_ok st_d now2 c Hok Hph Tst) as (c' & o & E & Hok' & _ & Hids' & Hcase); [rewrite T1; right; by right|].
  exists c', o. split; [exact E|]. destruct Hcase as [(p & Hout & _ & Hne & _)|(Hacc & Hp' & Hrst)].
  { rewrite Hsend in Hout. injection Hout as <-. cbn in Hne. congruence. }
  specialize (Hrst T1). destruct Hacc as (r' & s1 & ack & Hr' & Hd & _ & Eack & Hout & _). rewrite T1 in Eack. rewrite Hsend, T4, S3 in Eack.
  rewrite Hrst in Hr'. injection Hr' as <-. unfold remote_fin in Hp'. rewrite Hrst in Hp'. cbn in Hp'.
  split_and!; try done.
  - rewrite Hids', Hids, Hidsa. cbn. by rewrite S2, Hids.
  - rewrite Hids', Hids, Hidsa. cbn. by rewrite S2, Hids.
  - rewrite Hout. eapply syn_acknowledged; [..|exact Eack]; [done|apply (pt_sack _ Tst)].
  - eexists. split; [exact Hrst|]. rewrite Hsa. cbn. rewrite T3. wrap. divlia.
  - eexists. split; [exact Hra|]. cbn. by rewrite S3.
Qed.

(** Closing needs both directions.  [finish] succeeds exactly when the
    connection is closing, that is, its own FIN was sent and the peer's stream
    was delivered to its end, and everything sent is acknowledged; it then
    drops both halves.  Otherwise it is refused and changes nothing. *)
Theorem finish_exact c : connection_reachable c ->
  if bool_decide (phase c = Closing) && bool_decide (outstanding (c_send c) = [])
  then exists c', finish c = (c', Ok tt) /\ phase c' = Closed /\ connection_ok c' /\ outstanding (c_send c') = []
  else finish c = (c, Err NotReadyToClose).
Proof.
  intros Hr. pose proof (reachable_connection c Hr) as H.
  assert (ready_to_close c = bool_decide (phase c = Closing) && bool_decide (outstanding (c_send c) = [])) as Hready.
  { unfold ready_to_close. pose proof (co_phase _ H) as Hp.
    assert ((len (outstanding (c_send c)) =? 0) = bool_decide (outstanding (c_send c) = [])) as Hlen.
    { case_bool_decide as Ho; [by rewrite Ho|]. apply Z.eqb_neq. unfold len. destruct (outstanding (c_send c)); [done|]. cbn. lia. }
    rewrite Hlen. unfold is_terminal. destruct (phase c); try done; try (destruct Hp as [_ Hp]; revert Hp).
    all: destruct (fin_sent (c_send c)), (remote_fin c); try done; intros; cbn; rewrite ?andb_true_r, ?andb_false_r; try done; naive_solver. }
  unfold finish. rewrite get_bind, Hready. destruct (bool_decide _ && _); cbn [negb]; [|done].
  destruct (reset_to_ok Closed c (or_intror eq_refl) H) as (c' & E & Hok & Hp & _ & Hout). exists c'. by split_and!.
Qed.

(** ** Witnesses *)
Definition sample_connection_packet (t : PacketType) (seq ack : Z) (bytes : list Z) (id : Z) : DecodedPacket :=
  mkDecoded (mkHeader t id 5 0 1000 seq ack) 0 [] 0 None bytes.
Definition sample_syn : DecodedPacket := sample_connection_packet PT_Syn 65535 0 [] 7.
Definition sample_initiator : ConnectionState :=
  match initiate 7 65535 10 with Ok c => c | _ => mkConnection (mkIds 0 0) Closed (SendState_new 0) None end.
Definition sample_acceptor : ConnectionState :=
  match accept_syn sample_syn 40 with Ok c => c | _ => mkConnection (mkIds 0 0) Closed (SendState_new 0) None end.
Definition sample_fin : DecodedPacket := sample_connection_packet PT_Fin 0 40 [9] 8.
Definition sample_closing : ConnectionState :=
  fst (run_connection (DoIncoming sample_fin 30) (fst (run_connection (DoRecordFin [1; 2] 20) sample_acceptor))).
Lemma sample_connection_typed t seq ack bytes id : is_u 16 seq -> is_u 16 ack -> is_u 16 id -> payload_valid t (len bytes) = true ->
  len bytes <= MAX_UTP_PAYLOAD_SIZE -> packet_typed (sample_connection_packet t seq ack bytes id).
Proof. intros. by split. Qed.
Lemma sample_syn_typed : packet_typed sample_syn.
Proof. by apply sample_connection_typed. Qed.
Lemma sample_fin_typed : packet_typed sample_fin.
Proof. by apply sample_connection_typed. Qed.
Lemma sample_acceptor_reachable : connection_reachable sample_acceptor.
Proof. apply (reach_accept sample_syn 40); [apply sample_syn_typed|done|]. vm_compute. exact eq_refl. Qed.
Lemma sample_closing_reachable : connection_reachable sample_closing.
Proof.
  apply reach_op; [|apply sample_fin_typed]. apply reach_op; [|exact I]. apply sample_acceptor_reachable.
Qed.
Lemma connection_invariant_witness :
  phase (fst (run_connection (DoRecordFin [1; 2] 20) sample_acceptor)) = LocalFinSent
  /\ follows Connected LocalFinSent = true.
Proof.
  assert (phase (fst (run_connection (DoRecordFin [1; 2] 20) sample_acceptor)) = LocalFinSent) as E by (vm_compute; exact eq_refl).
  split; [exact E|].
  destruct (connection_invariant sample_acceptor (DoRecordFin [1; 2] 20) sample_acceptor_reachable I) as (_ & _ & H & _).
  rewrite E in H. exact H.
Defined.
Lemma handshake_connects_witness : exists c' o,
  incoming (sample_connection_packet PT_State 40 65535 [] 7) 12 sample_initiator = (c', Ok o) /\ phase c' = Connected.
Proof.
  destruct (handshake_connects 7 65535 40 10 12 sample_initiator
    (mkIntent PT_Syn 7 65535 0 None 1048576 0) sample_syn sample_acceptor (mkIntent PT_State 7 40 65535 None 1048576 0)
    (sample_connection_packet PT_State 40 65535 [] 7)) as (c' & o & E & _ & Hp & _);
    [done|done|done|vm_compute; exact eq_refl|vm_compute; exact eq_refl|by split|exact sample_syn_typed|vm_compute; exact eq_refl
    |vm_compute; exact eq_refl|by split|by apply sample_connection_typed|].
  exists c', o. split; [exact E|exact Hp].
Defined.
Lemma finish_exact_witness : exists c', finish sample_closing = (c', Ok tt) /\ phase c' = Closed.
Proof.
  pose proof (finish_exact sample_closing sample_closing_reachable) as H.
  assert (bool_decide (phase sample_closing = Closing) && bool_decide (outstanding (c_send sample_closing) = []) = true) as E by (vm_compute; exact eq_refl).
  rewrite E in H. destruct H as (c' & H1 & H2 & _). exists c'. split; [exact H1|exact H2].
Defined.
