(* ===== verification/UtpStream.v ===== *)
(** * UtpStream: the sender's ledger and the receiver's window together

    One direction of a uTP connection ([utp/connection.rs]): the packets that
    the ledger ([UtpSend]) records travel to the receive window
    ([UtpReceive]), whose acknowledgement numbers and selective
    acknowledgements travel back and remove packets from the ledger.  The
    network between the two loses, repeats and reorders both; it is the set
    of everything ever sent, from which any element may arrive at any time.
    The one assumption on delay is what 16-bit sequence numbers need: a packet
    or an acknowledgement that arrives is not older than half the sequence
    space ([step_arrive] and [step_acknowledged] state the two bounds). *)
From S2P Require Import Prelude Bytes UtpSequence UtpPacket UtpReceive UtpSend UtpConnection.

Section stream.
(** The stream to be sent: packets numbered from 0, the last one with FIN if
    it ends, in sequence numbers from [init + 1] on. *)
Context (pk : Z -> StoredPacket) (last : option Z) (init : SequenceNumber).
Hypothesis fin_is_last : forall i, stored_type (pk i) = SP_Fin <-> last = Some i.
Hypothesis last_nonneg : forall l, last = Some l -> 0 <= l.
Hypothesis init_u16 : is_u 16 init.

Definition number (i : Z) : SequenceNumber := seq_wrapping_add init (i + 1).

(** Both ends, and what the network holds: every packet below [l_sent], and
    the acknowledgements [l_acks], each with the count of packets it says
    were delivered and the selective mask.  [l_acked], [l_arrived] and
    [l_bytes] count packets acknowledged and delivered, and collect what was
    delivered; the code does not have them. *)
Record link := mkLink {
  l_send : SendState;
  l_receive : ReceiveState;
  l_sent : Z;
  l_acked : Z;
  l_arrived : Z;
  l_bytes : list Z;
  l_acks : list (Z * option (list Z));
}.
Definition link_new : link := mkLink (SendState_new (number 0)) (ReceiveState_new init) 0 0 0 [] [].
(** The mask that [state_intent] puts in a packet. *)
Definition mask_of (bits : option SelectiveAckBits) : outcome ReceiveError (option (list Z)) :=
  match bits with None => Ok None | Some k => mask ← as_bytes k; Ok (Some mask) end.

Inductive link_step : link -> link -> Prop :=
| step_send L t now s' seq :
    from_packet_type t = Some (stored_type (pk (l_sent L))) ->
    record_sent t (stored_payload (pk (l_sent L))) now (l_send L) = (s', Ok seq) ->
    link_step L (mkLink s' (l_receive L) (l_sent L + 1) (l_acked L) (l_arrived L) (l_bytes L) (l_acks L))
| step_retransmit L seq now s' r :
    mark_retransmitted seq now (l_send L) = (s', r) ->
    link_step L (mkLink s' (l_receive L) (l_sent L) (l_acked L) (l_arrived L) (l_bytes L) (l_acks L))
| step_timeout L now backoff s' r :
    on_timeout_classified now backoff (l_send L) = (s', r) ->
    link_step L (mkLink s' (l_receive L) (l_sent L) (l_acked L) (l_arrived L) (l_bytes L) (l_acks L))
| step_incoming L now s' r :
    on_valid_incoming now (l_send L) = (s', r) ->
    link_step L (mkLink s' (l_receive L) (l_sent L) (l_acked L) (l_arrived L) (l_bytes L) (l_acks L))
| step_arrive L i t r' o :
    0 <= i < l_sent L -> l_arrived L - (i + 1) <= 32768 -> from_packet_type t = Some (stored_type (pk i)) ->
    receive t (number i) (stored_payload (pk i)) (l_receive L) = (r', Ok o) ->
    link_step L (mkLink (l_send L) r' (l_sent L) (l_acked L)
      (l_arrived L + wrapping_sub 16 (acknowledgement_number r') (acknowledgement_number (l_receive L)))
      (l_bytes L ++ concat (map rp_bytes (delivered o))) (l_acks L))
| step_consume L n r' v :
    is_u USIZE n -> consume_delivered n (l_receive L) = (r', v) ->
    link_step L (mkLink (l_send L) r' (l_sent L) (l_acked L) (l_arrived L) (l_bytes L) (l_acks L))
| step_acknowledge L bits mask :
    sack (l_receive L) = Ok bits -> mask_of bits = Ok mask ->
    link_step L (mkLink (l_send L) (l_receive L) (l_sent L) (l_acked L) (l_arrived L) (l_bytes L) ((l_arrived L, mask) :: l_acks L))
| step_acknowledged L a mask source now s' o :
    (a, mask) ∈ l_acks L -> l_acked L - a <= 32767 ->
    acknowledge (seq_wrapping_add init a) mask source now (l_send L) = (s', Ok o) ->
    link_step L (mkLink s' (l_receive L) (l_sent L) (Z.max (l_acked L) a) (l_arrived L) (l_bytes L) (l_acks L)).
Inductive link_reachable : link -> Prop :=
| link_start : link_reachable link_new
| link_next L L' : link_reachable L -> link_step L L' -> link_reachable L'.

(** ** The invariant *)
Definition packet_of (low high : Z) (p : SentPacket) : Prop :=
  exists i, low <= i < high /\ sp_sequence_number p = number i.
Definition in_ledger (s : SendState) (i : Z) : Prop := exists p, p ∈ outstanding s /\ sp_sequence_number p = number i.
Record sends (c k : Z) (s : SendState) : Prop := {
  sd_ledger : ledger_ok s;
  sd_bounds : 0 <= c <= k;
  sd_reach : k - c <= MAX_SENT_PACKETS;
  sd_cumulative : cumulative_acknowledgement s = seq_wrapping_add init c;
  sd_highest : highest_sequence_sent s = if k =? 0 then None else Some (seq_wrapping_add init k);
  sd_next : fin_sent s = false -> next_sequence_number s = seq_wrapping_add init (k + 1);
  sd_packets : Forall (packet_of c k) (outstanding s);
}.
(** Packet [i] is on the receiver's side. *)
Definition arrived (r : ReceiveState) (n i : Z) : Prop := i < n \/ holds init r i.
(** The acknowledgement says the truth. *)
Definition truthful (r : ReceiveState) (n : Z) (ack : Z * option (list Z)) : Prop :=
  0 <= ack.1 <= n /\ forall mask, ack.2 = Some mask -> sack_refusal (Some mask) = None
    /\ forall o, 2 <= o <= MAX_SENT_PACKETS -> acknowledges_offset mask o = true -> arrived r n (ack.1 + o - 1).
Record link_ok (L : link) : Prop := {
  lk_sends : sends (l_acked L) (l_sent L) (l_send L);
  lk_window : window_ok 2 (l_receive L);
  lk_tracks : tracks pk last init 2 (l_arrived L) (l_receive L);
  lk_bytes : l_bytes L = stream_bytes pk 0 (Z.to_nat (l_arrived L));
  lk_order : l_acked L <= l_arrived L <= l_sent L;
  lk_held j : l_arrived L <= j < l_arrived L + 30000 -> holds init (l_receive L) j -> j < l_sent L;
  lk_acks : Forall (truthful (l_receive L) (l_arrived L)) (l_acks L);
  lk_fin l : last = Some l -> l_sent L <= if fin_sent (l_send L) then l + 1 else l;
  lk_kept i : 0 <= i < l_sent L -> in_ledger (l_send L) i \/ arrived (l_receive L) (l_arrived L) i;
}.

(** ** Positions *)
Lemma number_from c i : number i = seq_wrapping_add (seq_wrapping_add init c) (i + 1 - c).
Proof. unfold number. rewrite add_add. f_equal. lia. Qed.
Lemma place_from a c : seq_wrapping_add init a = seq_wrapping_add (seq_wrapping_add init c) (a - c).
Proof. rewrite add_add. f_equal. lia. Qed.
Lemma place_u16 a : is_u 16 (seq_wrapping_add init a).
Proof. by apply is_u_wrapping. Qed.
(** The relation of two places not half the space apart. *)
Lemma place_relation a c : -32768 < a - c < 32768 ->
  relation_to (seq_wrapping_add init a) (seq_wrapping_add init c) = if a <? c then Before (c - a) else if c <? a then After (a - c) else Equal.
Proof.
  intros H. apply relation_to_unique; [apply place_u16..|]. destruct (Z.ltb_spec a c); [|destruct (Z.ltb_spec c a)]; cbn.
  - split; [lia|]. by rewrite (place_from c a).
  - split; [lia|]. by rewrite (place_from a c).
  - f_equal. lia.
Qed.

(** ** The sender *)
Lemma sends_new : sends 0 0 (SendState_new (number 0)).
Proof.
  assert (is_u 16 (number 0)) as Hn by apply place_u16.
  split; cbn; try done; [by apply new_ledger|]. unfold number. wrap. divlia.
Qed.
Lemma sends_send c k t now s s' seq :
  sends c k s -> from_packet_type t = Some (stored_type (pk k)) -> record_sent t (stored_payload (pk k)) now s = (s', Ok seq) ->
  sends c (k + 1) s' /\ (forall i, in_ledger s i -> in_ledger s' i) /\ in_ledger s' k.
Proof.
  intros [Hl Hb Hr Hc Hh Hn Hp] Ht E. pose proof (record_sent_ok t (stored_payload (pk k)) now s Hl) as Hok. unfold wp in Hok. rewrite E in Hok.
  destruct Hok as (Hl' & -> & Hout). destruct (record_sent_pushed _ _ _ _ _ _ E) as (_ & Hcheck & _ & count & size & d & -> & Hrel & Hd).
  assert (fin_sent s = false) as Hf by (destruct t; try done; cbn in Hcheck; by destruct (fin_sent s)). specialize (Hn Hf).
  unfold MAX_SENT_PACKETS in *. rewrite Hn, Hc, place_relation in Hrel by lia.
  rewrite (proj2 (Z.ltb_ge _ _)), (proj2 (Z.ltb_lt c (k + 1))) in Hrel by lia. injection Hrel as <-.
  assert (forall i, in_ledger s i -> in_ledger (push_sent t (stored_payload (pk k)) now count size s) i) as Hmono.
  { intros i (p & Hin & Hs). exists p. split; [|done]. rewrite Hout. apply elem_of_app. by left. }
  split; [|split; [done|]].
  - split; try done; try lia.
    + rewrite (proj2 (Z.eqb_neq (k + 1) 0)) by lia. cbn. by rewrite Hn.
    + cbn. rewrite Hf. destruct t; try done. cbn. intros _. rewrite Hn. unfold seq_wrapping_add at 1. change (wrapping_add 16) with seq_wrapping_add. rewrite add_add. f_equal; lia.
    + rewrite Hout. apply Forall_app. split.
      * eapply Forall_impl; [exact Hp|]. intros p (i & Hi & Hs). exists i. split; [lia|done].
      * apply Forall_singleton. exists k. split; [lia|exact Hn].
  - eexists. rewrite Hout. split; [apply elem_of_app; right; by apply list_elem_of_singleton|exact Hn].
Qed.
(** Operations that neither send nor acknowledge. *)
Definition quiet (s s' : SendState) : Prop :=
  ledger_ok s' /\ cumulative_acknowledgement s' = cumulative_acknowledgement s /\ fin_sent s' = fin_sent s /\ same_numbers s s'
  /\ map sp_sequence_number (outstanding s') = map sp_sequence_number (outstanding s).
Lemma in_ledger_map s i : in_ledger s i <-> number i ∈ map sp_sequence_number (outstanding s).
Proof.
  unfold in_ledger. rewrite list_elem_of_fmap. split; intros (p & H1 & H2); exists p; auto.
Qed.
Lemma quiet_sends c k s s' : sends c k s -> quiet s s' -> sends c k s' /\ forall i, in_ledger s i -> in_ledger s' i.
Proof.
  intros [Hl Hb Hr Hc Hh Hn Hp] (Hl' & E1 & E2 & (E3 & E4) & E5). split.
  - split; try done; [by rewrite E1|by rewrite E3|by rewrite E2, E4|].
    revert E5 Hp. generalize (outstanding s). induction (outstanding s') as [|p l IH]; intros [|q m]; try done. cbn. intros [= Eq Em] Hall.
    apply Forall_cons in Hall as [(i & Hi & Hq) Hall]. constructor; [exists i; split; [done|by rewrite Eq]|by eapply IH].
  - intros i. by rewrite !in_ledger_map, E5.
Qed.
Lemma retransmit_quiet seq now s s' r : ledger_ok s -> mark_retransmitted seq now s = (s', r) -> quiet s s'.
Proof.
  intros Hl E. pose proof (mark_retransmitted_ok seq now s Hl) as H. unfold wp in H. rewrite E in H.
  unfold mark_retransmitted in E. rewrite get_bind in E. destruct (terminal s); [by injection E as <- <-|].
  pose proof (mark_first_ok seq now (outstanding s) (lo_packets _ (proj1 Hl))) as Hm.
  destruct (mark_first seq now (outstanding s)) as [[l p]|e| |]; [rewrite lift_ok_bind in E|by injection E as <- <-|done..].
  injection E as <- <-. destruct H as (Hl' & _), Hm as (_ & Hs & _). by split_and!.
Qed.
Lemma timeout_quiet now backoff s s' r : ledger_ok s -> on_timeout_classified now backoff s = (s', r) -> quiet s s'.
Proof.
  intros Hl E. pose proof (on_timeout_ok now backoff s Hl) as H. unfold wp in H. rewrite E in H.
  unfold on_timeout_classified in E. rewrite get_bind in E. destruct (terminal s); [by injection E as <- <-|].
  destruct (timeout_deadline_micros s) as [d|]; [|by injection E as <- <-]. destruct (now <? d); [by injection E as <- <-|].
  injection E as <- <-. destruct H as (Hl' & _). split; [done|]. split_and!; try done. cbn. by rewrite map_map.
Qed.
Lemma incoming_quiet now s s' r : ledger_ok s -> on_valid_incoming now s = (s', r) -> quiet s s'.
Proof.
  intros Hl E. pose proof (on_valid_incoming_ok now s Hl) as H. unfold wp in H. rewrite E in H. injection E as <- <-.
  destruct H as (Hl' & _). by split_and!.
Qed.

(** What an acknowledgement does to the ledger. *)
Lemma sends_acknowledged c k a mask source now s s' o :
  sends c k s -> 0 <= a <= k -> c - a <= 32767 -> sack_refusal mask = None ->
  acknowledge (seq_wrapping_add init a) mask source now s = (s', Ok o) ->
  sends (Z.max c a) k s' /\ forall i, c <= i < k -> in_ledger s i ->
    in_ledger s' i \/ i < a \/ exists m, mask = Some m /\ 2 <= i + 1 - a <= MAX_SENT_PACKETS /\ acknowledges_offset m (i + 1 - a) = true.
Proof.
  intros Hs Ha Hd Hm E. pose proof Hs as [Hl Hb Hr Hc Hh Hn Hp]. unfold MAX_SENT_PACKETS in *.
  pose proof (acknowledge_ok _ mask source now s Hl (place_u16 a)) as H. rewrite Hm, E in H.
  destruct (terminal s); [done|].
  destruct (Z.lt_ge_cases a c) as [Hlt|Hge].
  { assert (ack_advance s (seq_wrapping_add init a) = inl (AD_Stale (c - a))) as Hadv.
    { unfold ack_advance. rewrite Hc, place_relation by lia. by rewrite (proj2 (Z.ltb_lt a c)). }
    rewrite Hadv in H. injection H as -> _. rewrite Z.max_l by lia. split; [done|]. intros i Hi Hin. by left. }
  assert (ack_advance s (seq_wrapping_add init a) = inr (a - c)) as Hadv.
  { unfold ack_advance. rewrite Hc, place_relation by lia. rewrite (proj2 (Z.ltb_ge a c)) by done.
    destruct (Z.ltb_spec c a); [|f_equal; lia]. rewrite Hh, (proj2 (Z.eqb_neq k 0)), place_relation by lia.
    destruct (Z.ltb_spec a k); [done|]. by rewrite (proj2 (Z.ltb_ge k a)) by lia. }
  rewrite Hadv in H. destruct H as (s1 & o1 & [= <- <-] & Hl' & (Hcum & Hout & _) & _).
  destruct (acknowledge_marks _ _ _ _ _ _ _ E) as [(_ & Hf & _) [Hhi Hne]].
  apply unmarked_fields in Hout as (_ & _ & Hout & _).
  assert (forall p i, c <= i < k -> sp_sequence_number p = number i -> acknowledged_by s (a - c) mask p =
    (i + 1 <=? a) || match mask with Some m => acknowledges_offset m (i + 1 - a) | None => false end) as Hby.
  { intros p i Hi Hpi. unfold acknowledged_by. rewrite Hpi, Hc, (number_from c), offset_of_add by (apply place_u16 || lia).
    replace (i + 1 - c <=? a - c) with (i + 1 <=? a) by (destruct (Z.leb_spec (i + 1) a), (Z.leb_spec (i + 1 - c) (a - c)); lia).
    by replace (i + 1 - c - (a - c)) with (i + 1 - a) by lia. }
  assert (forall q, q ∈ outstanding s' -> exists p, p ∈ outstanding s /\ acknowledged_by s (a - c) mask p = false /\ sp_sequence_number q = sp_sequence_number p) as Hback.
  { intros q Hq. apply (list_elem_of_fmap_2 sp_sequence_number) in Hq. change (fmap sp_sequence_number) with (map sp_sequence_number) in Hq.
    rewrite Hout in Hq. apply list_elem_of_fmap in Hq as (p & Hqp & [Hk Hp']%list_elem_of_filter). by exists p. }
  rewrite Z.max_r by lia. split.
  - split; try done; try lia.
    + unfold MAX_SENT_PACKETS. lia.
    + rewrite Hcum, Hc, add_add. f_equal. lia.
    + by rewrite Hhi.
    + by rewrite Hf, Hne.
    + apply Forall_forall. intros q Hq. destruct (Hback q Hq) as (p & Hpin & Hk & Hqp). rewrite Forall_forall in Hp.
      destruct (Hp p Hpin) as (i & Hi & Hpi). rewrite (Hby p i Hi Hpi) in Hk. apply orb_false_iff in Hk as [Hk _]. apply Z.leb_gt in Hk.
      exists i. split; [lia|congruence].
  - intros i Hi (p & Hpin & Hpi). destruct (acknowledged_by s (a - c) mask p) eqn:Hk.
    + right. rewrite (Hby p i Hi Hpi) in Hk. apply orb_true_iff in Hk as [Hk%Z.leb_le|Hk]; [left; lia|right].
      destruct mask as [m|]; [|done]. exists m. split; [done|]. split; [|done]. split; [|lia].
      destruct (Z.le_gt_cases 2 (i + 1 - a)); [done|]. by rewrite acknowledges_small in Hk by lia.
    + left. apply in_ledger_map. rewrite Hout. apply list_elem_of_fmap. exists p. split; [done|]. by apply list_elem_of_filter.
Qed.

(** ** The receiver *)
Abbreviation tracked := (tracks pk last init 2).
(** Packets are buffered at most 953 places ahead. *)
Lemma holds_near n r j : tracked n r -> n <= j < n + 60000 -> holds init r j -> n + 1 <= j <= n + 953.
Proof.
  intros Ht Hj (p & Hp). destruct (tr_keys _ _ _ _ _ _ Ht _ _ Hp) as (d & Hd & E & _). destruct max_distance as (_ & Em & _).
  assert (j = n + d - 1); [|lia]. apply (position_inj init); [lia|]. rewrite E. f_equal. lia.
Qed.
Lemma receives n r t i r' o : tracked n r -> window_ok 2 r -> sent last i -> n - (i + 1) <= 32768 -> i < n + 30000 ->
  from_packet_type t = Some (stored_type (pk i)) -> receive t (number i) (stored_payload (pk i)) r = (r', Ok o) ->
  let n' := n + wrapping_sub 16 (acknowledgement_number r') (acknowledgement_number r) in
  tracked n' r' /\ window_ok 2 r' /\ concat (map rp_bytes (delivered o)) = stream_bytes pk n (Z.to_nat (n' - n)) /\ n <= n' <= n + 954
  /\ (forall j, j < n + 30000 -> arrived r n j -> arrived r' n' j)
  /\ (forall j, n <= j < n + 30000 -> arrived r' n' j -> holds init r j \/ j = i).
Proof.
  intros Ht Hw Hsent H1 H2 Htype E n'.
  pose proof (receive_answer t (number i) (stored_payload (pk i)) r Hw (place_u16 (i + 1))) as H.
  destruct (receive_refusal _ _ _); [by rewrite H in E|]. destruct H as (ty & r1 & o1 & Hty & E1 & Hm & _ & Hw').
  rewrite E in E1. injection E1 as <- <-. rewrite Htype in Hty. injection Hty as <-.
  assert (mkStored (stored_type (pk i)) (stored_payload (pk i)) = pk i) as Hpk by (by destruct (pk i)). rewrite Hpk in Hm.
  destruct (moved_tracks pk last init fin_is_last n r i (delivered o) r' Ht Hsent ltac:(lia) Hm (window_count _ Hw)) as (x & Htx & Hbx & Hx & Hheld).
  assert (n' = n + Z.of_nat x) as Hn'.
  { unfold n'. rewrite (tr_ack _ _ _ _ _ _ Ht), (tr_ack _ _ _ _ _ _ Htx), (place_from (n + Z.of_nat x) n).
    rewrite offset_of_add by (apply place_u16 || lia). lia. }
  rewrite Hn' in *. split_and!; try done; try lia.
  - rewrite Hbx. f_equal. lia.
  - intros j Hj [Hlt|Hh]; [left; lia|]. destruct (Z.lt_ge_cases j n); [left; lia|]. by apply Hheld.
  - intros j Hj Har. by apply Hheld.
Qed.
Lemma consumes m n r r' v : tracked n r -> window_ok 2 r -> is_u USIZE m -> consume_delivered m r = (r', v) ->
  tracked n r' /\ window_ok 2 r' /\ reorder r' = reorder r.
Proof.
  intros Ht Hw Hm E. pose proof (consume_ok m r Hw Hm) as H. rewrite E in H. destruct (UtpReceive.terminal r); [by injection H as -> _|].
  destruct (delivered_unconsumed_bytes r <? m); [by injection H as -> _|]. destruct H as [Hw' [= -> _]]. split; [by destruct Ht|by split].
Qed.
(** An acknowledgement is the truth when it is written. *)
Lemma acknowledges_truth n r bits mask : tracked n r -> window_ok 2 r -> sack r = Ok bits -> mask_of bits = Ok mask -> truthful r n (n, mask).
Proof.
  intros Ht Hw Es Em. split; [cbn; pose proof (tr_nonneg _ _ _ _ _ _ Ht); lia|]. cbn. intros m ->.
  destruct (sack_ok r Hw) as (bits' & Eb & Hmeans). rewrite Es in Eb. injection Eb as <-. destruct bits as [k|]; [|done].
  unfold mask_of in Em. destruct Hmeans as (_ & (m' & Hk & Hv) & Hbits). rewrite Hk in Em. injection Em as ->. split.
  - unfold UtpPacket.validate_sack in Hv. cbn. destruct (Z.leb_spec 4 (len m)), (Z.leb_spec (len m) MAX_SACK_BYTES); try done. by rewrite (proj2 (Z.leb_le 1 _)) by lia.
  - unfold MAX_SENT_PACKETS. intros o Ho Hbit. right. specialize (Hbits o ltac:(unfold is_u; lia)). unfold sack_acknowledges_offset in Hbits.
    rewrite checked_sub_fits in Hbits by lia. rewrite Hk, ok_bind, Hbit in Hbits. injection Hbits as Hbits. symmetry in Hbits.
    apply bool_decide_eq_true in Hbits. unfold holds. rewrite (tr_ack _ _ _ _ _ _ Ht) in Hbits. rewrite add_add in Hbits.
    by replace (n + o - 1 + 1) with (n + o) by lia.
Qed.
Lemma truthful_mono r n r' n' ack : n <= n' -> (forall j, j < n + 30000 -> arrived r n j -> arrived r' n' j) -> truthful r n ack -> truthful r' n' ack.
Proof.
  intros Hn Hmono [Ha Hm]. split; [lia|]. intros m E. destruct (Hm m E) as [Hr Ho]. split; [done|]. intros o Hb Hbit.
  apply Hmono; [unfold MAX_SENT_PACKETS in *; lia|by apply Ho].
Qed.

(** ** Every step keeps the invariant *)
Lemma link_new_ok : link_ok link_new.
Proof.
  split; cbn; try done; try lia.
  - apply sends_new.
  - split; cbn; [|done| |done]; [unfold seq_wrapping_add, wrapping_add; by rewrite Z.add_0_r, Z.mod_small|].
    split; [done|]. intros E%last_nonneg. lia.
  - intros j Hj [p Hp]. done.
Qed.
Lemma sent_before L i : link_ok L -> 0 <= i < l_sent L -> sent last i.
Proof. intros H Hi. split; [lia|]. intros l Hl. pose proof (lk_fin _ H l Hl). destruct (fin_sent _); lia. Qed.
(** A step of the sender that forgets nothing. *)
Lemma quiet_step L s' : link_ok L -> quiet (l_send L) s' ->
  link_ok (mkLink s' (l_receive L) (l_sent L) (l_acked L) (l_arrived L) (l_bytes L) (l_acks L)).
Proof.
  intros [Hs Hw Ht Hb Ho Hh Ha Hf Hk] Hq. destruct (quiet_sends _ _ _ _ Hs Hq) as [Hs' Hin]. split; cbn; try done.
  - destruct Hq as (_ & _ & Ef & _). by rewrite Ef.
  - intros i Hi. destruct (Hk i Hi); auto.
Qed.
Lemma link_step_ok L L' : link_ok L -> link_step L L' -> link_ok L'.
Proof.
  intros H Hstep. pose proof H as [Hs Hw Ht Hb Ho Hh Ha Hf Hk]. pose proof (sd_bounds _ _ _ Hs) as Hck. pose proof (sd_reach _ _ _ Hs) as Hreach.
  unfold MAX_SENT_PACKETS in *. pose proof (sd_ledger _ _ _ Hs) as Hl.
  destruct Hstep as [L t now s' seq Hty E|L seq now s' r E|L now backoff s' r E|L now s' r E|L i t r' o Hi Hd Hty E|L m r' v Hm E|L bits mask Es Em|L a mask source now s' o Hin Hd E].
  - destruct (sends_send _ _ _ _ _ _ _ Hs Hty E) as (Hs' & Hmono & Hnew). destruct (record_sent_marks _ _ _ _ _ _ E) as (_ & _ & _ & _ & Ef).
    destruct (record_sent_pushed _ _ _ _ _ _ E) as (_ & Hcheck & _).
    assert (fin_sent (l_send L) = false) as Hf0 by (destruct t; try done; cbn in Hcheck; by destruct (fin_sent (l_send L))).
    split; cbn; try done; try lia.
    + intros j Hj Hhj. specialize (Hh j Hj Hhj). lia.
    + intros l El. pose proof (Hf l El) as Hfl. rewrite Hf0 in Hfl. rewrite Ef, Hf0. cbn [orb].
      case_bool_decide as Efin; [lia|]. assert (l <> l_sent L); [|lia]. intros ->. apply Efin.
      assert (stored_type (pk (l_sent L)) = SP_Fin) as Est by (by apply fin_is_last). rewrite Est in Hty. by destruct t.
    + intros j Hj. destruct (decide (j = l_sent L)) as [->|Hne]; [by left|]. destruct (Hk j ltac:(lia)); auto.
  - by eapply quiet_step, retransmit_quiet.
  - by eapply quiet_step, timeout_quiet.
  - by eapply quiet_step, incoming_quiet.
  - destruct (receives _ _ t i r' o Ht Hw (sent_before L i H Hi) ltac:(lia) ltac:(lia) Hty E) as (Ht' & Hw' & Hb' & Hn' & Hmono & Hback).
    set (n' := l_arrived L + wrapping_sub 16 _ _) in *.
    assert (forall j, l_arrived L <= j < l_arrived L + 30000 -> arrived r' n' j -> j < l_sent L) as Hnew.
    { intros j Hj Har. destruct (Hback j Hj Har) as [Hhj|Ej]; [by apply Hh|rewrite Ej; lia]. }
    split; cbn; try done; fold n'.
    + rewrite Hb, Hb'. pose proof (tr_nonneg _ _ _ _ _ _ Ht).
      replace (stream_bytes pk (l_arrived L) _) with (stream_bytes pk (Z.of_nat (Z.to_nat (l_arrived L))) (Z.to_nat (n' - l_arrived L))) by (f_equal; lia).
      rewrite stream_bytes_app. f_equal. lia.
    + split; [lia|]. destruct (Z.le_gt_cases n' (l_arrived L)); [lia|]. assert (n' - 1 < l_sent L); [|lia]. apply Hnew; [lia|]. left. lia.
    + intros j Hj Hhj. pose proof (holds_near n' r' j Ht' ltac:(lia) Hhj). apply Hnew; [lia|by right].
    + eapply Forall_impl; [exact Ha|]. intros ack Hack. apply (truthful_mono (l_receive L) (l_arrived L)); [lia|exact Hmono|exact Hack].
    + intros j Hj. destruct (Hk j Hj) as [?|Har]; [by left|right]. apply Hmono; [lia|done].
  - destruct (consumes m _ _ _ _ Ht Hw Hm E) as (Ht' & Hw' & Er).
    assert (forall j, holds init r' j <-> holds init (l_receive L) j) as Hholds by (intros j; unfold holds; by rewrite Er).
    split; cbn; try done.
    + intros j Hj Hhj. apply Hh; [done|by apply Hholds].
    + eapply Forall_impl; [exact Ha|]. intros ack Hack. apply (truthful_mono (l_receive L) (l_arrived L)); [lia| |exact Hack].
      intros j _ [?|?]; [by left|right; by apply Hholds].
    + intros j Hj. destruct (Hk j Hj) as [?|[?|?]]; [by left|right; by left|right; right; by apply Hholds].
  - split; cbn; try done. constructor; [|done]. by eapply acknowledges_truth.
  - rewrite Forall_forall in Ha. destruct (Ha _ Hin) as [Hrange Htrue]. cbn in Hrange, Htrue.
    assert (sack_refusal mask = None) as Hm by (destruct mask as [m|]; [by apply Htrue|done]).
    destruct (sends_acknowledged _ _ a mask source now _ s' o Hs ltac:(lia) ltac:(lia) Hm E) as [Hs' Hgone].
    destruct (acknowledge_marks _ _ _ _ _ _ _ E) as [(_ & Ef & _) _].
    split; cbn; try done; try lia; [by apply Forall_forall|by rewrite Ef|].
    intros i Hi. destruct (Hk i Hi) as [Hin'|Har]; [|by right].
    destruct (Z.lt_ge_cases i (l_acked L)) as [Hlt|Hge]; [right; left; lia|].
    destruct (Hgone i ltac:(lia) Hin') as [?|[?|(m & -> & Hoff & Hbit)]]; [by left|right; left; lia|right].
    destruct (Htrue m eq_refl) as [_ Hbits]. specialize (Hbits (i + 1 - a) Hoff Hbit). by replace (a + (i + 1 - a) - 1) with i in Hbits by lia.
Qed.
Lemma reachable_link L : link_reachable L -> link_ok L.
Proof. induction 1; [apply link_new_ok|by eapply link_step_ok]. Qed.
End stream.

(** * Property *)

(** C5: What is acknowledged has arrived.  A ledger sends a stream to a
    receive window over a network that loses, repeats and reorders packets
    and acknowledgements in both directions, but delivers nothing that is
    older than half the space of the 16-bit sequence numbers: a packet comes
    at most 32768 places behind what was delivered, and an acknowledgement
    at most 32767 places behind the furthest one taken.  Then at every moment
    every packet sent is still in the ledger, ready to be sent again, or has
    been delivered or buffered with its contents at the receiver: within
    that bound no cumulative or selective acknowledgement removes a packet
    that did not arrive.  So once the ledger is empty the receiver has
    delivered the whole stream, in order and exactly once, buffers nothing,
    and knows its end if it was sent. *)
Theorem acknowledged_means_delivered pk last init L :
  (forall i, stored_type (pk i) = SP_Fin <-> last = Some i) -> (forall l, last = Some l -> 0 <= l) -> is_u 16 init ->
  link_reachable pk init L ->
  (forall i, 0 <= i < l_sent L ->
     in_ledger init (l_send L) i \/ i < l_arrived L \/ reorder (l_receive L) !! number init i = Some (pk i))
  /\ l_arrived L <= l_sent L /\ l_bytes L = stream_bytes pk 0 (Z.to_nat (l_arrived L))
  /\ (outstanding (l_send L) = [] -> l_arrived L = l_sent L /\ reorder (l_receive L) = ∅
      /\ (last = Some (l_sent L - 1) -> eof_reached (l_receive L) = true)).
Proof.
  intros Hfin Hlast Hinit Hr. destruct (reachable_link pk last init Hfin Hlast Hinit L Hr) as [Hs Hw Ht Hb Ho Hh Ha Hf Hk].
  pose proof (sd_reach _ _ _ _ Hs) as Hreach. pose proof (sd_bounds _ _ _ _ Hs) as Hb0. unfold MAX_SENT_PACKETS in *.
  split; [|split; [lia|split; [done|]]].
  - intros i Hi. destruct (Hk i Hi) as [?|[?|Hheld]]; [by left|right; by left|]. right. destruct (Z.lt_ge_cases i (l_arrived L)); [by left|right].
    pose proof (holds_near pk last init _ _ i Ht ltac:(lia) Hheld) as Hnear. destruct Hheld as [p Hp].
    destruct (tr_keys _ _ _ _ _ _ Ht _ _ Hp) as (d & Hd & E & Epk & _). destruct max_distance as (_ & Em & _).
    assert (i = l_arrived L + d - 1) as Hi'.
    { apply (position_inj init); [lia|]. rewrite E. f_equal. lia. }
    unfold number. rewrite Hp, Epk. do 2 f_equal. lia.
  - intros Hempty. assert (forall i, 0 <= i < l_sent L -> arrived init (l_receive L) (l_arrived L) i) as Hall.
    { intros i Hi. destruct (Hk i Hi) as [(p & Hp & _)|?]; [|done]. rewrite Hempty in Hp. by apply elem_of_nil in Hp. }
    pose proof (tr_nonneg _ _ _ _ _ _ Ht) as Hn. assert (l_arrived L = l_sent L) as Eall.
    { destruct (Z.lt_ge_cases (l_arrived L) (l_sent L)) as [Hlt|]; [|lia]. destruct (Hall (l_arrived L) ltac:(lia)) as [?|Hheld]; [lia|].
      pose proof (holds_near pk last init _ _ (l_arrived L) Ht ltac:(lia) Hheld). lia. }
    split; [done|]. split.
    + apply map_eq. intros key. rewrite lookup_empty. destruct (reorder (l_receive L) !! key) as [p|] eqn:E; [|done].
      destruct (tr_keys _ _ _ _ _ _ Ht _ _ E) as (d & Hd & Ekey & _). destruct max_distance as (_ & Em & _).
      assert (l_arrived L + d - 1 < l_sent L); [|lia]. apply Hh; [lia|]. exists p. rewrite <- E, Ekey. do 2 f_equal. lia.
    + intros El. apply (tr_eof _ _ _ _ _ _ Ht). by rewrite Eall.
Qed.

(** ** Witness

    Two packets; the second arrives first and is acknowledged selectively,
    then the first arrives and the rest is acknowledged. *)
Definition sample_link0 : link := link_new 65534.
Definition link_sends (t : PacketType) (bytes : list Z) (L : link) : link :=
  mkLink (fst (record_sent t bytes 10 (l_send L))) (l_receive L) (l_sent L + 1) (l_acked L) (l_arrived L) (l_bytes L) (l_acks L).
Definition link_arrives (t : PacketType) (i : Z) (out : list Z) (L : link) : link :=
  let r' := fst (receive t (number 65534 i) (stored_payload (sample_stream i)) (l_receive L)) in
  mkLink (l_send L) r' (l_sent L) (l_acked L) (l_arrived L + wrapping_sub 16 (acknowledgement_number r') (acknowledgement_number (l_receive L)))
    (l_bytes L ++ out) (l_acks L).
Definition link_writes (mask : option (list Z)) (L : link) : link :=
  mkLink (l_send L) (l_receive L) (l_sent L) (l_acked L) (l_arrived L) (l_bytes L) ((l_arrived L, mask) :: l_acks L).
Definition link_acknowledges (a : Z) (mask : option (list Z)) (L : link) : link :=
  mkLink (fst (acknowledge (seq_wrapping_add 65534 a) mask PT_State 20 (l_send L))) (l_receive L) (l_sent L) (Z.max (l_acked L) a)
    (l_arrived L) (l_bytes L) (l_acks L).
Definition sample_link2 : link := link_sends PT_Data [66] (link_sends PT_Data [65] sample_link0).
Lemma link_sends_step t bytes L seq : from_packet_type t = Some (stored_type (sample_stream (l_sent L))) ->
  stored_payload (sample_stream (l_sent L)) = bytes -> snd (record_sent t bytes 10 (l_send L)) = Ok seq -> link_step sample_stream 65534 L (link_sends t bytes L).
Proof. intros Ht Hb E. eapply step_send; [done|]. rewrite Hb. rewrite <- E. apply surjective_pairing. Qed.
Lemma link_arrives_step t i out L : 0 <= i < l_sent L -> l_arrived L - (i + 1) <= 32768 -> from_packet_type t = Some (stored_type (sample_stream i)) ->
  match snd (receive t (number 65534 i) (stored_payload (sample_stream i)) (l_receive L)) with
  | Ok o => concat (map rp_bytes (delivered o)) = out
  | _ => False
  end -> link_step sample_stream 65534 L (link_arrives t i out L).
Proof.
  intros Hi Hd Ht E. unfold link_arrives. destruct (receive t _ _ _) as [r' [o|?| |]] eqn:Er; try done. cbn [snd fst] in *. rewrite <- E.
  by eapply step_arrive.
Qed.
Lemma link_writes_step mask L : (bits ← sack (l_receive L); mask_of bits) = Ok mask -> link_step sample_stream 65534 L (link_writes mask L).
Proof. destruct (sack (l_receive L)) as [bits|?| |] eqn:E; try done. rewrite ok_bind. intros Em. by eapply step_acknowledge. Qed.
Lemma link_acknowledges_step a mask L : (a, mask) ∈ l_acks L -> l_acked L - a <= 32767 ->
  match snd (acknowledge (seq_wrapping_add 65534 a) mask PT_State 20 (l_send L)) with Ok _ => True | _ => False end ->
  link_step sample_stream 65534 L (link_acknowledges a mask L).
Proof.
  intros Hin Hd E. unfold link_acknowledges. destruct (acknowledge _ _ _ _ _) as [s' [o|?| |]] eqn:Er; try done. by eapply step_acknowledged.
Qed.
Definition sample_link3 : link := link_arrives PT_Data 1 [] sample_link2.
Definition sample_link3' : link := link_writes (Some [1; 0; 0; 0]) sample_link3.
Definition sample_link4 : link := link_acknowledges 0 (Some [1; 0; 0; 0]) sample_link3'.
Definition sample_link5 : link := link_arrives PT_Data 0 [65; 66] sample_link4.
Definition sample_link6 : link := link_writes None sample_link5.
Definition sample_link7 : link := link_acknowledges 2 None sample_link6.
Lemma sample_sends : link_reachable sample_stream 65534 sample_link2.
Proof.
  apply (link_next sample_stream 65534 (link_sends PT_Data [65] sample_link0)).
  - apply (link_next sample_stream 65534 sample_link0); [apply link_start|].
    apply (link_sends_step PT_Data [65] sample_link0 65535); vm_compute; exact eq_refl.
  - apply (link_sends_step PT_Data [66] (link_sends PT_Data [65] sample_link0) 0); vm_compute; exact eq_refl.
Qed.
Lemma sample_selective : link_reachable sample_stream 65534 sample_link4.
Proof.
  apply (link_next sample_stream 65534 sample_link3'); [apply (link_next sample_stream 65534 sample_link3); [apply (link_next sample_stream 65534 sample_link2); [exact sample_sends|]|]|].
  - apply (link_arrives_step PT_Data 1 [] sample_link2).
    + vm_compute. split; congruence.
    + vm_compute. congruence.
    + vm_compute. exact eq_refl.
    + vm_compute. exact eq_refl.
  - apply (link_writes_step (Some [1; 0; 0; 0]) sample_link3). vm_compute. exact eq_refl.
  - apply (link_acknowledges_step 0 (Some [1; 0; 0; 0]) sample_link3').
    + change (l_acks sample_link3') with [(l_arrived sample_link3, Some [1; 0; 0; 0])].
      assert (l_arrived sample_link3 = 0) as -> by (vm_compute; exact eq_refl). apply list_elem_of_here.
    + vm_compute. congruence.
    + vm_compute. exact I.
Qed.
Lemma sample_link_reachable : link_reachable sample_stream 65534 sample_link7.
Proof.
  apply (link_next sample_stream 65534 sample_link6); [apply (link_next sample_stream 65534 sample_link5); [apply (link_next sample_stream 65534 sample_link4); [exact sample_selective|]|]|].
  - apply (link_arrives_step PT_Data 0 [65; 66] sample_link4).
    + vm_compute. split; congruence.
    + vm_compute. congruence.
    + vm_compute. exact eq_refl.
    + vm_compute. exact eq_refl.
  - apply (link_writes_step None sample_link5). vm_compute. exact eq_refl.
  - apply (link_acknowledges_step 2 None sample_link6).
    + change (l_acks sample_link6) with ((l_arrived sample_link5, @None (list Z)) :: l_acks sample_link5).
      assert (l_arrived sample_link5 = 2) as -> by (vm_compute; exact eq_refl). apply list_elem_of_here.
    + vm_compute. congruence.
    + vm_compute. exact I.
Qed.
Lemma acknowledged_means_delivered_witness :
  outstanding (l_send sample_link7) = [] /\ l_arrived sample_link7 = 2 /\ stream_bytes sample_stream 0 2 = [65; 66].
Proof.
  destruct (acknowledged_means_delivered sample_stream (Some 2) 65534 sample_link7 UtpReceive.sample_fin) as (_ & _ & Hb & Hdone);
    [intros l E; injection E as <-; lia|done|apply sample_link_reachable|].
  assert (outstanding (l_send sample_link7) = []) as E by (vm_compute; exact eq_refl). split; [exact E|].
  destruct (Hdone E) as [-> _]. split; [vm_compute; exact eq_refl|]. vm_compute. exact eq_refl.
Defined.
