(* ===== verification/UtpMtu.v ===== *)
(** * Path MTU discovery (src/utp/mtu.rs)

    The search for the largest datagram a path carries: a floor that is known
    to pass, a ceiling that is not known to fail, probes halfway between, and
    a periodic check of the floor once the search is complete.

    The properties: the bounds stay ordered and nothing underflows; on a path
    whose MTU does not change the search brackets the MTU, ends within twelve
    probes, and is within [MTU_SEARCH_THRESHOLD_BYTES] of it. *)
From S2P Require Import Prelude UtpSequence.
#[local] Open Scope Z_scope.

Definition MIN_UTP_DATAGRAM_BYTES : Z := 150.
Definition IPV4_UDP_PAYLOAD_FLOOR : Z := 548.
Definition IPV4_UDP_PAYLOAD_CEILING : Z := 1472.
Definition MTU_SEARCH_THRESHOLD_BYTES : Z := 16.
Definition PATH_MTU_REVALIDATION_INTERVAL_MICROS : Z := 15 * 60 * 1000000.
Definition ORDINARY_PACKETS_BEFORE_PROBE : Z := 3.
Definition UNKNOWN_RTT_PROBE_GUARD_MICROS : Z := 1000000.

Inductive PathMtuPhase := Base | Search | SearchComplete.
#[export] Instance PathMtuPhase_eq_dec : EqDecision PathMtuPhase.
Proof. solve_decision. Defined.
Inductive MtuProbeKind := ProbeSearch | ProbeRevalidation.
#[export] Instance MtuProbeKind_eq_dec : EqDecision MtuProbeKind.
Proof. solve_decision. Defined.
Record MtuProbe := mkProbe {
  probe_sequence_number : SequenceNumber;
  probe_datagram_bytes : Z;
  probe_kind : MtuProbeKind;
}.
Inductive MtuProbeFailure := ThreeLaterAcknowledgements | SolePacketTimeout | CongestionOrUnknown.
Inductive MtuProbeOutcome :=
| NotProbe
| RaisedFloor (previous_floor floor : Z) (search_complete : bool)
| RevalidationAcknowledged (floor next_revalidation_micros : Z)
| LoweredCeiling (previous_floor floor previous_ceiling ceiling : Z)
    (retransmit_without_fragmentation_protection : MtuProbe) (isolated_from_congestion search_complete : bool)
| RetryAcknowledged.
Inductive MtuError :=
| InvalidBounds (floor ceiling : Z)
| ProbeNotReady
| ProbeAlreadyActive (probe : MtuProbe)
| DatagramSizeMismatch (expected actual : Z)
| MinimumMtuFailure (datagram_bytes floor : Z)
| SequencedPacketTooLarge (sequence_number : SequenceNumber) (datagram_bytes floor : Z).

Record PathMtuState := mkMtu {
  mtu_phase : PathMtuPhase;
  base_datagram_bytes : Z;
  maximum_datagram_bytes : Z;
  floor_datagram_bytes : Z;
  ceiling_datagram_bytes : Z;
  ordinary_packets_since_probe : Z;
  active_probe : option MtuProbe;
  fragmentable_retry : option MtuProbe;
  next_probe_not_before_micros : Z;
  revalidation_deadline_micros : option Z;
  probes_started : Z;
  probes_acknowledged : Z;
  probes_failed : Z;
  revalidations_started : Z;
  revalidations_acknowledged : Z;
  revalidations_failed : Z;
  downward_recoveries : Z;
}.
(** Field updates, grouped as the methods make them. *)
Definition set_mtu_phase p s := mkMtu p (base_datagram_bytes s) (maximum_datagram_bytes s) (floor_datagram_bytes s)
  (ceiling_datagram_bytes s) (ordinary_packets_since_probe s) (active_probe s) (fragmentable_retry s)
  (next_probe_not_before_micros s) (revalidation_deadline_micros s) (probes_started s) (probes_acknowledged s)
  (probes_failed s) (revalidations_started s) (revalidations_acknowledged s) (revalidations_failed s) (downward_recoveries s).
Definition set_range floor ceiling s := mkMtu (mtu_phase s) (base_datagram_bytes s) (maximum_datagram_bytes s) floor
  ceiling (ordinary_packets_since_probe s) (active_probe s) (fragmentable_retry s)
  (next_probe_not_before_micros s) (revalidation_deadline_micros s) (probes_started s) (probes_acknowledged s)
  (probes_failed s) (revalidations_started s) (revalidations_acknowledged s) (revalidations_failed s) (downward_recoveries s).
Definition set_ordinary n s := mkMtu (mtu_phase s) (base_datagram_bytes s) (maximum_datagram_bytes s) (floor_datagram_bytes s)
  (ceiling_datagram_bytes s) n (active_probe s) (fragmentable_retry s)
  (next_probe_not_before_micros s) (revalidation_deadline_micros s) (probes_started s) (probes_acknowledged s)
  (probes_failed s) (revalidations_started s) (revalidations_acknowledged s) (revalidations_failed s) (downward_recoveries s).
Definition set_probes active retry s := mkMtu (mtu_phase s) (base_datagram_bytes s) (maximum_datagram_bytes s) (floor_datagram_bytes s)
  (ceiling_datagram_bytes s) (ordinary_packets_since_probe s) active retry
  (next_probe_not_before_micros s) (revalidation_deadline_micros s) (probes_started s) (probes_acknowledged s)
  (probes_failed s) (revalidations_started s) (revalidations_acknowledged s) (revalidations_failed s) (downward_recoveries s).
Definition set_times guard deadline s := mkMtu (mtu_phase s) (base_datagram_bytes s) (maximum_datagram_bytes s) (floor_datagram_bytes s)
  (ceiling_datagram_bytes s) (ordinary_packets_since_probe s) (active_probe s) (fragmentable_retry s)
  guard deadline (probes_started s) (probes_acknowledged s)
  (probes_failed s) (revalidations_started s) (revalidations_acknowledged s) (revalidations_failed s) (downward_recoveries s).
Definition set_counts started acked failed rstarted racked rfailed downward s := mkMtu (mtu_phase s) (base_datagram_bytes s)
  (maximum_datagram_bytes s) (floor_datagram_bytes s)
  (ceiling_datagram_bytes s) (ordinary_packets_since_probe s) (active_probe s) (fragmentable_retry s)
  (next_probe_not_before_micros s) (revalidation_deadline_micros s) started acked failed rstarted racked rfailed downward.
(** [self.<counter>.saturating_add(1)]. *)
Definition bump (n : Z) : Z := saturating_add 64 n 1.
Definition count_started (kind : MtuProbeKind) s := set_counts (bump (probes_started s)) (probes_acknowledged s) (probes_failed s)
  (if bool_decide (kind = ProbeRevalidation) then bump (revalidations_started s) else revalidations_started s)
  (revalidations_acknowledged s) (revalidations_failed s) (downward_recoveries s) s.
Definition count_acknowledged (kind : MtuProbeKind) s := set_counts (probes_started s) (bump (probes_acknowledged s)) (probes_failed s)
  (revalidations_started s)
  (if bool_decide (kind = ProbeRevalidation) then bump (revalidations_acknowledged s) else revalidations_acknowledged s)
  (revalidations_failed s) (downward_recoveries s) s.
Definition count_failed (kind : MtuProbeKind) (downward : bool) s := set_counts (probes_started s) (probes_acknowledged s)
  (bump (probes_failed s)) (revalidations_started s) (revalidations_acknowledged s)
  (if bool_decide (kind = ProbeRevalidation) then bump (revalidations_failed s) else revalidations_failed s)
  (if downward then bump (downward_recoveries s) else downward_recoveries s) s.

Definition method := M PathMtuState MtuError.

Definition PathMtuState_new (floor ceiling : Z) : outcome MtuError PathMtuState :=
  if (floor <? MIN_UTP_DATAGRAM_BYTES) || (ceiling <? floor) || (65535 <? ceiling)
  then Err (InvalidBounds floor ceiling)
  else
    let phase := if ceiling - floor <=? MTU_SEARCH_THRESHOLD_BYTES then SearchComplete else Base in
    Ok (mkMtu phase floor ceiling floor ceiling 0 None None 0 None 0 0 0 0 0 0 0).

Definition search_complete (s : PathMtuState) : bool := bool_decide (mtu_phase s = SearchComplete).
(** [usize] subtraction, which a checked build traps. *)
Definition range_width (s : PathMtuState) : outcome MtuError Z :=
  expect (checked_sub (ceiling_datagram_bytes s) (floor_datagram_bytes s)).
Definition candidate_datagram_bytes (s : PathMtuState) : outcome MtuError Z :=
  if search_complete s then Ok (floor_datagram_bytes s)
  else width ← range_width s; expect (checked_add USIZE (floor_datagram_bytes s) (width / 2)).

Definition schedule_revalidation (now : Z) (s : PathMtuState) : PathMtuState :=
  set_times (next_probe_not_before_micros s) (Some (saturating_add 64 now PATH_MTU_REVALIDATION_INTERVAL_MICROS)) s.
Definition guard_next_probe (now : Z) (rtt : option Z) (s : PathMtuState) : PathMtuState :=
  set_times (saturating_add 64 now (default UNKNOWN_RTT_PROBE_GUARD_MICROS rtt)) (revalidation_deadline_micros s) s.
Definition update_phase_after_search (now : Z) : method unit :=
  s ← get;
  width ← lift (range_width s);
  if width <=? MTU_SEARCH_THRESHOLD_BYTES
  then modify (fun s => schedule_revalidation now (set_mtu_phase SearchComplete s))
  else modify (fun s => set_times (next_probe_not_before_micros s) None (set_mtu_phase Search s)).

Definition record_ordinary_sent (datagram_bytes now : Z) (s : PathMtuState) : PathMtuState :=
  let s := if floor_datagram_bytes s <=? datagram_bytes
           then set_ordinary (Z.min (saturating_add 8 (ordinary_packets_since_probe s) 1) ORDINARY_PACKETS_BEFORE_PROBE) s
           else s in
  if search_complete s && (base_datagram_bytes s <? maximum_datagram_bytes s) && negb (bool_decide (is_Some (active_probe s)))
     && negb (bool_decide (is_Some (fragmentable_retry s))) && negb (bool_decide (is_Some (revalidation_deadline_micros s)))
  then schedule_revalidation now s else s.

Definition phase_ready (now : Z) (s : PathMtuState) : bool :=
  match mtu_phase s with
  | Base | Search => true
  | SearchComplete =>
    (base_datagram_bytes s <? maximum_datagram_bytes s)
    && match revalidation_deadline_micros s with Some deadline => deadline <=? now | None => false end
  end.
Definition probe_ready (now congestion_window_bytes : Z) (s : PathMtuState) : bool :=
  phase_ready now s && negb (bool_decide (is_Some (active_probe s))) && negb (bool_decide (is_Some (fragmentable_retry s)))
  && (next_probe_not_before_micros s <=? now) && (ORDINARY_PACKETS_BEFORE_PROBE <=? ordinary_packets_since_probe s)
  && (saturating_mul USIZE (floor_datagram_bytes s) 3 <? congestion_window_bytes).

Definition begin_probe (seq : SequenceNumber) (datagram_bytes now congestion_window_bytes : Z) : method MtuProbe :=
  s ← get;
  match active_probe s with
  | Some active => fail (ProbeAlreadyActive active)
  | None =>
    if negb (probe_ready now congestion_window_bytes s) then fail ProbeNotReady
    else
      expected ← lift (candidate_datagram_bytes s);
      if negb (datagram_bytes =? expected) then fail (DatagramSizeMismatch expected datagram_bytes)
      else
        let kind := if search_complete s then ProbeRevalidation else ProbeSearch in
        let probe := mkProbe seq datagram_bytes kind in
        modify (fun s => set_probes (Some probe) (fragmentable_retry s) s);;
        modify (fun s => match kind with
                         | ProbeSearch => set_mtu_phase Search s
                         | ProbeRevalidation => set_times (next_probe_not_before_micros s) None s
                         end);;
        modify (set_ordinary 0);;
        modify (count_started kind);;
        mret probe
  end.

Definition is_probe (seq : SequenceNumber) (p : option MtuProbe) : bool :=
  match p with Some probe => probe_sequence_number probe =? seq | None => false end.
Definition on_acknowledged (seq : SequenceNumber) (now : Z) (rtt : option Z) : method MtuProbeOutcome :=
  s ← get;
  if is_probe seq (fragmentable_retry s) then
    modify (fun s => set_probes (active_probe s) None s);;
    modify (guard_next_probe now rtt);;
    modify (fun s => if search_complete s then schedule_revalidation now s else s);;
    mret RetryAcknowledged
  else
    match active_probe s with
    | None => mret NotProbe
    | Some probe =>
      if negb (probe_sequence_number probe =? seq) then mret NotProbe
      else
        modify (fun s => set_probes None (fragmentable_retry s) s);;
        modify (count_acknowledged (probe_kind probe));;
        modify (guard_next_probe now rtt);;
        match probe_kind probe with
        | ProbeRevalidation =>
          modify (schedule_revalidation now);;
          s ← get;
          next ← lift (expect (revalidation_deadline_micros s));
          mret (RevalidationAcknowledged (floor_datagram_bytes s) next)
        | ProbeSearch =>
          s ← get;
          let previous_floor := floor_datagram_bytes s in
          modify (fun s => set_range (Z.max (floor_datagram_bytes s) (probe_datagram_bytes probe)) (ceiling_datagram_bytes s) s);;
          update_phase_after_search now;;
          s ← get;
          mret (RaisedFloor previous_floor (floor_datagram_bytes s) (search_complete s))
        end
    end.

Definition isolated (failure : MtuProbeFailure) : bool :=
  match failure with ThreeLaterAcknowledgements | SolePacketTimeout => true | CongestionOrUnknown => false end.
(** What an isolated failure says of the path. *)
Definition lower_range (probe : MtuProbe) (s : PathMtuState) : PathMtuState :=
  match probe_kind probe with
  | ProbeRevalidation =>
    let s' := set_range (base_datagram_bytes s) (Z.max (saturating_sub (probe_datagram_bytes probe) 1) (base_datagram_bytes s)) s in
    count_failed ProbeRevalidation (negb (base_datagram_bytes s =? floor_datagram_bytes s)) s'
  | ProbeSearch =>
    let ceiling := Z.max (Z.min (ceiling_datagram_bytes s) (saturating_sub (probe_datagram_bytes probe) 1)) (floor_datagram_bytes s) in
    count_failed ProbeSearch false (set_range (floor_datagram_bytes s) ceiling s)
  end.
Definition on_probe_loss (seq : SequenceNumber) (failure : MtuProbeFailure) (now : Z) (rtt : option Z) : method MtuProbeOutcome :=
  s ← get;
  match active_probe s with
  | None => mret NotProbe
  | Some probe =>
    if negb (probe_sequence_number probe =? seq) then mret NotProbe
    else
      let previous_floor := floor_datagram_bytes s in
      let previous_ceiling := ceiling_datagram_bytes s in
      modify (fun s => if isolated failure then lower_range probe s else s);;
      modify (set_probes None (Some probe));;
      modify (set_ordinary 0);;
      modify (guard_next_probe now rtt);;
      (if bool_decide (probe_kind probe = ProbeRevalidation) && negb (isolated failure)
       then modify (schedule_revalidation now)
       else if isolated failure then update_phase_after_search now else mret tt);;
      s ← get;
      mret (LoweredCeiling previous_floor (floor_datagram_bytes s) previous_ceiling (ceiling_datagram_bytes s) probe
              (isolated failure) (search_complete s))
  end.
Definition on_message_too_large (seq : SequenceNumber) (datagram_bytes now : Z) (rtt : option Z) : method MtuProbeOutcome :=
  s ← get;
  match active_probe s with
  | Some probe =>
    if (probe_sequence_number probe =? seq) && (probe_datagram_bytes probe =? datagram_bytes)
    then on_probe_loss seq ThreeLaterAcknowledgements now rtt
    else if datagram_bytes <=? floor_datagram_bytes s
    then fail (MinimumMtuFailure datagram_bytes (floor_datagram_bytes s))
    else fail (SequencedPacketTooLarge seq datagram_bytes (floor_datagram_bytes s))
  | None =>
    if datagram_bytes <=? floor_datagram_bytes s
    then fail (MinimumMtuFailure datagram_bytes (floor_datagram_bytes s))
    else fail (SequencedPacketTooLarge seq datagram_bytes (floor_datagram_bytes s))
  end.
Definition retransmit_without_fragmentation_protection (seq : SequenceNumber) (s : PathMtuState) : bool :=
  is_probe seq (fragmentable_retry s).
Definition mtu_reset (s : PathMtuState) : PathMtuState := set_ordinary 0 (set_probes None None s).

(** * Specification *)

(** The size the next probe has. *)
Definition probe_size (s : PathMtuState) : Z :=
  if search_complete s then floor_datagram_bytes s
  else floor_datagram_bytes s + (ceiling_datagram_bytes s - floor_datagram_bytes s) / 2.
Record mtu_ok (s : PathMtuState) : Prop := {
  mo_base : MIN_UTP_DATAGRAM_BYTES <= base_datagram_bytes s <= floor_datagram_bytes s;
  mo_range : floor_datagram_bytes s <= ceiling_datagram_bytes s;
  mo_maximum : ceiling_datagram_bytes s <= maximum_datagram_bytes s <= 65535;
  mo_complete : search_complete s = (ceiling_datagram_bytes s - floor_datagram_bytes s <=? MTU_SEARCH_THRESHOLD_BYTES);
  mo_active p : active_probe s = Some p ->
    fragmentable_retry s = None /\ probe_datagram_bytes p = probe_size s
    /\ probe_kind p = if search_complete s then ProbeRevalidation else ProbeSearch;
  mo_ordinary : 0 <= ordinary_packets_since_probe s <= ORDINARY_PACKETS_BEFORE_PROBE;
  mo_deadline : is_Some (revalidation_deadline_micros s) -> search_complete s = true;
}.

(** The calls a connection makes. *)
Inductive MtuOp :=
| OpOrdinarySent (datagram_bytes now : Z)
| OpBeginProbe (seq : SequenceNumber) (datagram_bytes now congestion_window_bytes : Z)
| OpAcknowledged (seq : SequenceNumber) (now : Z) (rtt : option Z)
| OpProbeLoss (seq : SequenceNumber) (failure : MtuProbeFailure) (now : Z) (rtt : option Z)
| OpTooLarge (seq : SequenceNumber) (datagram_bytes now : Z) (rtt : option Z)
| OpMtuReset.
Definition run_mtu (op : MtuOp) : method MtuProbeOutcome :=
  match op with
  | OpOrdinarySent bytes now => modify (record_ordinary_sent bytes now);; mret NotProbe
  | OpBeginProbe seq bytes now window => begin_probe seq bytes now window;; mret NotProbe
  | OpAcknowledged seq now rtt => on_acknowledged seq now rtt
  | OpProbeLoss seq failure now rtt => on_probe_loss seq failure now rtt
  | OpTooLarge seq bytes now rtt => on_message_too_large seq bytes now rtt
  | OpMtuReset => modify mtu_reset;; mret NotProbe
  end.

(** A path that carries datagrams of up to [m] bytes and no larger ones: the
    probe acknowledged is at most that size, one lost for no other reason is
    larger. *)
Definition path_allows (m : Z) (s : PathMtuState) (op : MtuOp) : Prop :=
  forall p, active_probe s = Some p ->
  match op with
  | OpAcknowledged seq _ _ => probe_sequence_number p = seq -> probe_datagram_bytes p <= m
  | OpProbeLoss seq failure _ _ => probe_sequence_number p = seq -> isolated failure = true -> m < probe_datagram_bytes p
  | OpTooLarge seq bytes _ _ => probe_sequence_number p = seq -> probe_datagram_bytes p = bytes -> m < bytes
  | _ => True
  end.
Definition concludes (r : outcome MtuError MtuProbeOutcome) : nat :=
  match r with
  | Ok (RaisedFloor _ _ _) | Ok (LoweredCeiling _ _ _ _ _ true _) => 1
  | _ => 0
  end.
(** [mtu_run m s n s']: from [s], on such a path, the calls lead to [s'] and
    conclude [n] probes. *)
Inductive mtu_run (m : Z) (s : PathMtuState) : nat -> PathMtuState -> Prop :=
| run_start : mtu_run m s 0 s
| run_op n s' op : mtu_run m s n s' -> path_allows m s' op ->
    mtu_run m s (n + concludes (snd (run_mtu op s'))) (fst (run_mtu op s')).

(** * Lemmas *)
Lemma mtu_new_ok floor ceiling s : PathMtuState_new floor ceiling = Ok s ->
  mtu_ok s /\ base_datagram_bytes s = floor /\ floor_datagram_bytes s = floor /\ ceiling_datagram_bytes s = ceiling
  /\ maximum_datagram_bytes s = ceiling /\ active_probe s = None.
Proof.
  unfold PathMtuState_new. destruct (_ || _) eqn:E; [done|]. apply orb_false_elim in E as [[E1 E2]%orb_false_elim E3].
  apply Z.ltb_ge in E1, E2, E3. intros [= <-]. split; [|done].
  split; cbn; unfold ORDINARY_PACKETS_BEFORE_PROBE; try lia; try done.
  unfold search_complete. cbn. by destruct (_ <=? _).
Qed.
Lemma range_width_ok s : mtu_ok s -> range_width s = Ok (ceiling_datagram_bytes s - floor_datagram_bytes s).
Proof. intros H. unfold range_width. rewrite checked_sub_fits by apply H. done. Qed.
Lemma candidate_ok s : mtu_ok s -> candidate_datagram_bytes s = Ok (probe_size s).
Proof.
  intros H. unfold candidate_datagram_bytes, probe_size. destruct (search_complete s); [done|]. rewrite range_width_ok by done. rewrite ok_bind.
  destruct H as [Hb Hr Hm _ _ _ _]. rewrite checked_add_fits; [done|]. unfold USIZE, MIN_UTP_DATAGRAM_BYTES in *.
  assert ((ceiling_datagram_bytes s - floor_datagram_bytes s) / 2 <= 65535) by divlia.
  change (2 ^ 64) with 18446744073709551616. lia.
Qed.
(** Below the threshold the search is over, so a probe is larger than the
    floor and, after it, at most half of the range is left. *)
Lemma probe_size_between s : mtu_ok s -> search_complete s = false ->
  floor_datagram_bytes s < probe_size s <= ceiling_datagram_bytes s - 8
  /\ 2 * (ceiling_datagram_bytes s - probe_size s) <= ceiling_datagram_bytes s - floor_datagram_bytes s + 1
  /\ 2 * (probe_size s - 1 - floor_datagram_bytes s) <= ceiling_datagram_bytes s - floor_datagram_bytes s.
Proof.
  intros H Hc. pose proof (mo_complete s H) as E. rewrite Hc in E. symmetry in E. apply Z.leb_gt in E. unfold MTU_SEARCH_THRESHOLD_BYTES in E.
  unfold probe_size. rewrite Hc. divlia.
Qed.

(** What the calls leave alone. *)
Definition same_range (s s' : PathMtuState) : Prop :=
  floor_datagram_bytes s' = floor_datagram_bytes s /\ ceiling_datagram_bytes s' = ceiling_datagram_bytes s.
Definition same_path (s s' : PathMtuState) : Prop :=
  base_datagram_bytes s' = base_datagram_bytes s /\ maximum_datagram_bytes s' = maximum_datagram_bytes s.

Definition range_ok (s : PathMtuState) : Prop :=
  MIN_UTP_DATAGRAM_BYTES <= base_datagram_bytes s <= floor_datagram_bytes s /\ floor_datagram_bytes s <= ceiling_datagram_bytes s
  /\ ceiling_datagram_bytes s <= maximum_datagram_bytes s <= 65535 /\ 0 <= ordinary_packets_since_probe s <= ORDINARY_PACKETS_BEFORE_PROBE.
Lemma mtu_range_ok s : mtu_ok s -> range_ok s.
Proof. intros [? ? ? ? ? ? ?]. unfold range_ok. auto. Qed.
Lemma update_phase_ok now s : range_ok s -> active_probe s = None ->
  wp (update_phase_after_search now) s (fun _ s' => mtu_ok s' /\ same_range s s' /\ same_path s s' /\ active_probe s' = None /\ fragmentable_retry s' = fragmentable_retry s)
    (fun _ _ => False).
Proof.
  intros (Hb & Hr & Hm & Ho) Ha.
  unfold update_phase_after_search. do 2 wp_step. unfold range_width. rewrite checked_sub_fits by done. cbn [expect]. do 3 wp_step.
  - wp_step. split; [|done]. split; cbn; try done; try lia. by rewrite Ha.
  - wp_step. split; [|done]. split; cbn; try done; try lia; try by rewrite Ha.
Qed.
Lemma record_ordinary_ok bytes now s : mtu_ok s ->
  mtu_ok (record_ordinary_sent bytes now s) /\ same_range s (record_ordinary_sent bytes now s) /\ same_path s (record_ordinary_sent bytes now s).
Proof.
  intros [Hb Hr Hm Hc Ha Ho Hd]. unfold record_ordinary_sent, saturating_add, ORDINARY_PACKETS_BEFORE_PROBE in *. change (umax 8) with 255.
  destruct (floor_datagram_bytes s <=? bytes);
    match goal with |- context [if ?b then schedule_revalidation _ _ else _] => destruct b eqn:E end;
    (split; [|done]); split; cbn; try done; unfold ORDINARY_PACKETS_BEFORE_PROBE; try lia; intros _;
    repeat apply andb_true_iff in E as [E _]; exact E.
Qed.
Lemma probe_ready_iff now window s : probe_ready now window s = true <->
  phase_ready now s = true /\ active_probe s = None /\ fragmentable_retry s = None /\ next_probe_not_before_micros s <= now
  /\ ORDINARY_PACKETS_BEFORE_PROBE <= ordinary_packets_since_probe s /\ saturating_mul USIZE (floor_datagram_bytes s) 3 < window.
Proof.
  unfold probe_ready. rewrite !andb_true_iff, !negb_true_iff, !bool_decide_eq_false, !eq_None_not_Some, !Z.leb_le, Z.ltb_lt. tauto.
Qed.
Lemma begin_probe_ok seq bytes now window s : mtu_ok s ->
  wp (begin_probe seq bytes now window) s
     (fun p s' => mtu_ok s' /\ same_range s s' /\ same_path s s' /\ active_probe s' = Some p) (fun _ s' => s' = s).
Proof.
  intros H. unfold begin_probe. do 2 wp_step. destruct (active_probe s) as [p|] eqn:Ea; [done|]. wp_step; [done|].
  rewrite candidate_ok by done. wp_step. wp_step. wp_step; [done|].
  apply negb_false_iff in Heqb0. apply Z.eqb_eq in Heqb0. subst bytes. apply negb_false_iff, probe_ready_iff in Heqb as (_ & _ & Hret & _).
  pose proof (mo_complete s H) as Ec. pose proof (mo_deadline s H) as Hd.
  destruct H as [Hb Hr Hm Hc _ Ho _].
  assert (0 <= 0 <= ORDINARY_PACKETS_BEFORE_PROBE) as Hz by (unfold ORDINARY_PACKETS_BEFORE_PROBE; lia).
  destruct (search_complete s) eqn:Es; repeat wp_step; (split; [|done]); (split; [exact Hb|exact Hr|exact Hm| | |exact Hz|]).
  - exact (eq_trans Es Ec).
  - intros p [= <-]. split; [exact Hret|split; [reflexivity|]]. unfold search_complete in *. cbn. by rewrite Es.
  - by intros [? [=]].
  - exact Ec.
  - intros p [= <-]. split; [exact Hret|split; [|reflexivity]]. unfold probe_size. rewrite Es. reflexivity.
  - intros Hd'. apply Hd in Hd'. congruence.
Qed.
Lemma guard_ok now rtt s : mtu_ok s -> mtu_ok (guard_next_probe now rtt s).
Proof. by intros [? ? ? ? ? ? ?]. Qed.
Lemma schedule_ok now s : mtu_ok s -> search_complete s = true -> mtu_ok (schedule_revalidation now s).
Proof. by intros [? ? ? ? ? ? ?]. Qed.
Lemma probes_ok retry s : mtu_ok s -> mtu_ok (set_probes None retry s).
Proof. by intros [? ? ? ? ? ? ?]. Qed.
Lemma ordinary_reset_ok s : mtu_ok s -> mtu_ok (set_ordinary 0 s).
Proof. intros [? ? ? ? ? ? ?]. split; try assumption. cbn. unfold ORDINARY_PACKETS_BEFORE_PROBE. lia. Qed.
Lemma counts_ok a b c d e f g s : mtu_ok s -> mtu_ok (set_counts a b c d e f g s).
Proof. by intros [? ? ? ? ? ? ?]. Qed.

(** What a conclusion says. *)
Definition ack_effect (seq : SequenceNumber) (s : PathMtuState) (o : MtuProbeOutcome) (s' : PathMtuState) : Prop :=
  match o with
  | RaisedFloor previous floor complete => exists p, active_probe s = Some p /\ probe_sequence_number p = seq /\ search_complete s = false
      /\ previous = floor_datagram_bytes s /\ floor = floor_datagram_bytes s' /\ complete = search_complete s'
      /\ floor_datagram_bytes s' = probe_size s /\ ceiling_datagram_bytes s' = ceiling_datagram_bytes s
  | LoweredCeiling _ _ _ _ _ _ _ => False
  | _ => same_range s s'
  end.
Definition loss_effect (seq : SequenceNumber) (failure : MtuProbeFailure) (s : PathMtuState) (o : MtuProbeOutcome) (s' : PathMtuState) : Prop :=
  match o with
  | LoweredCeiling previous floor previous_ceiling ceiling p iso complete =>
      active_probe s = Some p /\ probe_sequence_number p = seq /\ iso = isolated failure
      /\ previous = floor_datagram_bytes s /\ floor = floor_datagram_bytes s' /\ complete = search_complete s'
      /\ previous_ceiling = ceiling_datagram_bytes s /\ ceiling = ceiling_datagram_bytes s'
      /\ active_probe s' = None /\ fragmentable_retry s' = Some p
      /\ (if negb iso then same_range s s'
          else if search_complete s
          then floor_datagram_bytes s' = base_datagram_bytes s
               /\ ceiling_datagram_bytes s' = Z.max (probe_size s - 1) (base_datagram_bytes s)
          else floor_datagram_bytes s' = floor_datagram_bytes s /\ ceiling_datagram_bytes s' = probe_size s - 1)
  | NotProbe => s' = s
  | _ => False
  end.

Lemma on_acknowledged_ok seq now rtt s : mtu_ok s ->
  wp (on_acknowledged seq now rtt) s (fun o s' => mtu_ok s' /\ same_path s s' /\ ack_effect seq s o s') (fun _ _ => False).
Proof.
  intros H. unfold on_acknowledged. do 2 wp_step. wp_step.
  - do 2 wp_step. assert (active_probe s = None) as Ea.
    { destruct (active_probe s) as [p|] eqn:Ea; [|done]. destruct (mo_active s H p Ea) as [E _]. by rewrite E in Heqb. }
    rewrite Ea. repeat wp_step. pose proof (guard_ok now rtt _ (probes_ok None s H)) as H'.
    destruct (search_complete _) eqn:Es; split; try done. by apply schedule_ok.
  - destruct (active_probe s) as [p|] eqn:Ea; [|by split]. wp_step; [by split|].
    apply negb_false_iff in Heqb0. apply Z.eqb_eq in Heqb0. destruct (mo_active s H p Ea) as (Eret & Eb & Ek). do 6 wp_step.
    set (s1 := guard_next_probe now rtt _).
    assert (mtu_ok s1) as H1 by (apply guard_ok, counts_ok, probes_ok, H).
    destruct (search_complete s) eqn:Es; rewrite Ek.
    + repeat wp_step. cbn [revalidation_deadline_micros schedule_revalidation set_times expect]. repeat wp_step.
      split; [by apply schedule_ok|done].
    + pose proof (probe_size_between s H Es) as (Hp & _). repeat wp_step.
      wp_call update_phase_ok.
      * destruct (mtu_range_ok _ H1) as (? & ? & ? & ?). unfold range_ok. rewrite Eb. cbn in *. lia.
      * done.
      * intros [] s2 (H2 & [Ef Ec] & [Eb2 Em] & Ha2 & Hr2). repeat wp_step. split; [done|]. split; [by split|]. exists p. split_and!; try done.
        rewrite Ef, Eb. cbn. lia.
      * done.
Qed.
Lemma on_probe_loss_ok seq failure now rtt s : mtu_ok s ->
  wp (on_probe_loss seq failure now rtt) s (fun o s' => mtu_ok s' /\ same_path s s' /\ loss_effect seq failure s o s') (fun _ _ => False).
Proof.
  intros H. unfold on_probe_loss. do 2 wp_step. destruct (active_probe s) as [p|] eqn:Ea; [|by split]. wp_step; [by split|].
  apply negb_false_iff in Heqb. apply Z.eqb_eq in Heqb. destruct (mo_active s H p Ea) as (Eret & Eb & Ek).
  pose proof (mtu_range_ok s H) as (Hb & Hr & Hm & Ho). do 9 wp_step.
  set (s1 := guard_next_probe now rtt _).
  destruct (isolated failure) eqn:Ei; cbn [negb andb]; rewrite ?andb_false_r.
  - assert (range_ok s1 /\ active_probe s1 = None /\ fragmentable_retry s1 = Some p /\ same_path s s1
            /\ if search_complete s
               then floor_datagram_bytes s1 = base_datagram_bytes s
                    /\ ceiling_datagram_bytes s1 = Z.max (probe_size s - 1) (base_datagram_bytes s)
               else floor_datagram_bytes s1 = floor_datagram_bytes s /\ ceiling_datagram_bytes s1 = probe_size s - 1) as (H1 & Ha1 & Hr1 & Hp1 & Hs1).
    { unfold s1, range_ok, lower_range, saturating_sub, ORDINARY_PACKETS_BEFORE_PROBE, MIN_UTP_DATAGRAM_BYTES in *. rewrite Eb.
      destruct (search_complete s) eqn:Es; rewrite Ek; cbn in *.
      - unfold probe_size. rewrite Es. split_and!; try done; lia.
      - pose proof (probe_size_between s H Es) as (Hp & _). split_and!; try done; lia. }
    wp_call update_phase_ok; [done..| |done].
    intros [] s2 (H2 & [Ef Ec] & [Eb2 Em] & Ha2 & Hr2). repeat wp_step. destruct Hp1 as [? ?]. split; [done|]. split; [by split; congruence|].
    rewrite Hr1 in Hr2. cbn. split_and!; try done. destruct (search_complete s); by rewrite Ef, Ec.
  - assert (mtu_ok s1) as H1 by (apply guard_ok, ordinary_reset_ok, probes_ok, H).
    assert (forall s', mtu_ok s' -> same_range s s' -> same_path s s' -> active_probe s' = None -> fragmentable_retry s' = Some p ->
      mtu_ok s' /\ same_path s s' /\ loss_effect seq failure s (LoweredCeiling (floor_datagram_bytes s) (floor_datagram_bytes s')
        (ceiling_datagram_bytes s) (ceiling_datagram_bytes s') p false (search_complete s')) s') as Hend
      by (intros; cbn; by rewrite Ei).
    rewrite andb_true_r. case_bool_decide as Ek'; repeat wp_step; apply Hend; try done. apply schedule_ok; [done|].
    rewrite Ek in Ek'. change (search_complete s1) with (search_complete s). by destruct (search_complete s).
Qed.
Lemma on_message_too_large_ok seq bytes now rtt s : mtu_ok s ->
  wp (on_message_too_large seq bytes now rtt) s
     (fun o s' => mtu_ok s' /\ same_path s s' /\ loss_effect seq ThreeLaterAcknowledgements s o s'
        /\ exists p, active_probe s = Some p /\ probe_sequence_number p = seq /\ probe_datagram_bytes p = bytes) (fun _ s' => s' = s).
Proof.
  intros H. unfold on_message_too_large. do 2 wp_step. destruct (active_probe s) as [p|] eqn:Ea; [|by repeat wp_step].
  wp_step; [|by repeat wp_step]. apply andb_true_iff in Heqb as [E1 E2]. apply Z.eqb_eq in E1, E2.
  wp_call (on_probe_loss_ok seq ThreeLaterAcknowledgements now rtt s H); [|done]. intros o s' (H1 & H2 & H3). split_and!; [done..|]. by exists p.
Qed.
Lemma run_mtu_ok op s : mtu_ok s -> wp (run_mtu op) s (fun _ s' => mtu_ok s' /\ same_path s s') (fun _ s' => s' = s).
Proof.
  intros H. destruct op as [bytes now|seq bytes now window|seq now rtt|seq failure now rtt|seq bytes now rtt|]; cbn [run_mtu].
  - repeat wp_step. by destruct (record_ordinary_ok bytes now s H) as (? & _ & ?).
  - wp_step. wp_call (begin_probe_ok seq bytes now window s H); [|done]. intros p s' (? & _ & ? & _). by wp_step.
  - wp_call (on_acknowledged_ok seq now rtt s H); [|done]. by intros o s' (? & ? & _).
  - wp_call (on_probe_loss_ok seq failure now rtt s H); [|done]. by intros o s' (? & ? & _).
  - wp_call (on_message_too_large_ok seq bytes now rtt s H); [|done]. by intros o s' (? & ? & _).
  - repeat wp_step. split; [|done]. by apply ordinary_reset_ok, probes_ok.
Qed.

(** ** A path that does not change *)
Section path.
Context (m : Z).

Definition brackets (s : PathMtuState) : Prop := floor_datagram_bytes s <= m <= ceiling_datagram_bytes s.
(** [k] more halvings are enough. *)
Definition narrow (k : nat) (s : PathMtuState) : Prop :=
  ceiling_datagram_bytes s - floor_datagram_bytes s <= MTU_SEARCH_THRESHOLD_BYTES * 2 ^ Z.of_nat k.
Lemma narrow_complete k s : mtu_ok s -> narrow k s -> search_complete s = false -> (0 < k)%nat.
Proof.
  intros H Hn Es. pose proof (mo_complete s H) as E. rewrite Es in E. symmetry in E. apply Z.leb_gt in E. unfold narrow in Hn.
  destruct k; [|lia]. cbn in Hn. unfold MTU_SEARCH_THRESHOLD_BYTES in *. lia.
Qed.
Lemma narrow_half k s s' : mtu_ok s -> narrow (S k) s -> 2 * (ceiling_datagram_bytes s' - floor_datagram_bytes s')
  <= ceiling_datagram_bytes s - floor_datagram_bytes s + 1 -> narrow k s'.
Proof.
  unfold narrow, MTU_SEARCH_THRESHOLD_BYTES. intros _ Hn Hh. rewrite Nat2Z.inj_succ, Z.pow_succ_r in Hn by lia. lia.
Qed.
Lemma same_range_narrow k s s' : same_range s s' -> brackets s -> narrow k s -> brackets s' /\ narrow k s'.
Proof. unfold brackets, narrow. by intros [-> ->]. Qed.

(** What remains to be searched after [n] conclusions, of [k] at most. *)
Definition searched (k n : nat) (s : PathMtuState) : Prop :=
  mtu_ok s /\ brackets s /\ (n <= k)%nat /\ narrow (k - n) s.
Lemma searched_same k n s s' : mtu_ok s' -> same_range s s' -> searched k n s -> searched k (n + 0) s'.
Proof.
  intros H' Hr (H & Hb & Hn & Hw). rewrite Nat.add_0_r. destruct (same_range_narrow _ _ _ Hr Hb Hw) as [? ?]. by split_and!.
Qed.
Lemma searched_half k n s s' : mtu_ok s' -> search_complete s = false -> brackets s' ->
  2 * (ceiling_datagram_bytes s' - floor_datagram_bytes s') <= ceiling_datagram_bytes s - floor_datagram_bytes s + 1 ->
  searched k n s -> searched k (n + 1) s'.
Proof.
  intros H' Es Hb' Hh (H & Hb & Hn & Hw). pose proof (narrow_complete _ _ H Hw Es) as Hk. split_and!; [done..|lia|].
  apply (narrow_half _ s); [done| |done]. by replace (S (k - (n + 1))) with (k - n)%nat by lia.
Qed.
Lemma searched_loss k n seq failure s o s' : searched k n s -> mtu_ok s' -> loss_effect seq failure s o s' ->
  (forall p, active_probe s = Some p -> probe_sequence_number p = seq -> isolated failure = true -> m < probe_datagram_bytes p) ->
  searched k (n + concludes (Ok o)) s'.
Proof.
  intros Hs H' He Hp. destruct o as [|?|?|pf f pc c p iso complete|]; try done.
  - cbn [loss_effect] in He. subst s'. by apply (searched_same _ _ s).
  - destruct He as (Ea & Eseq & Ei & _ & _ & _ & _ & _ & _ & _ & Hr). destruct Hs as (H & Hb & Hn & Hw). destruct (mo_active s H p Ea) as (_ & Eb & _).
    destruct iso; cbn [concludes negb] in *; [|by apply (searched_same _ _ s)].
    specialize (Hp p Ea Eseq (eq_sym Ei)). rewrite Eb in Hp. unfold brackets in Hb.
    destruct (search_complete s) eqn:Es; [unfold probe_size in Hp; rewrite Es in Hp; lia|]. destruct Hr as [Ef Ec].
    pose proof (probe_size_between s H Es) as Hbetween.
    apply (searched_half _ _ s); [done|done|unfold brackets; lia|lia|by split_and!].
Qed.
Lemma run_searched k n s op : searched k n s -> path_allows m s op ->
  searched k (n + concludes (snd (run_mtu op s))) (fst (run_mtu op s)).
Proof.
  intros Hs Hp. pose proof Hs as (H & Hb & Hn & Hw).
  enough (wp (run_mtu op) s (fun o s' => searched k (n + concludes (Ok o)) s') (fun _ s' => s' = s)) as Hwp.
  { unfold wp in Hwp. destruct (run_mtu op s) as [s' [o|e| |]]; cbn [fst snd] in *; try done. subst s'. by apply (searched_same _ _ s). }
  destruct op as [bytes now|seq bytes now window|seq now rtt|seq failure now rtt|seq bytes now rtt|]; cbn [run_mtu].
  - repeat wp_step. destruct (record_ordinary_ok bytes now s H) as (? & ? & _). by apply (searched_same _ _ s).
  - wp_step. wp_call (begin_probe_ok seq bytes now window s H); [|done]. intros p s' (? & ? & _). wp_step. by apply (searched_same _ _ s).
  - wp_call (on_acknowledged_ok seq now rtt s H); [|done]. intros o s' (H' & _ & He).
    destruct o as [|pf f c| | |]; try (by apply (searched_same _ _ s)); [|done]. destruct He as (p & Ea & Eseq & Es & _ & _ & _ & Ef & Ec).
    specialize (Hp p Ea Eseq). destruct (mo_active s H p Ea) as (_ & Eb & _). rewrite Eb in Hp.
    pose proof (probe_size_between s H Es) as Hbetween. unfold brackets in Hb.
    apply (searched_half _ _ s); [done|done|unfold brackets; lia|lia|done].
  - wp_call (on_probe_loss_ok seq failure now rtt s H); [|done]. intros o s' (H' & _ & He). by apply (searched_loss _ _ seq failure s).
  - wp_call (on_message_too_large_ok seq bytes now rtt s H); [|done]. intros o s' (H' & _ & He & q & Eq & Hq1 & Hq2).
    apply (searched_loss _ _ seq ThreeLaterAcknowledgements s); try done. intros p Ep Eseq _. specialize (Hp p Ep Eseq). rewrite Eq in Ep. injection Ep as <-.
    rewrite <- Hq2 in Hp. by apply Hp.
  - repeat wp_step. apply (searched_same _ _ s); [by apply ordinary_reset_ok, probes_ok|done|done].
Qed.
Lemma mtu_run_searched k s n s' : searched k 0 s -> mtu_run m s n s' -> searched k n s'.
Proof. intros H. induction 1 as [|n s' op _ IH Hp]; [done|]. by apply run_searched. Qed.
End path.

(** * Properties *)
Inductive mtu_reachable (base maximum : Z) : PathMtuState -> Prop :=
| mtu_created s : PathMtuState_new base maximum = Ok s -> mtu_reachable base maximum s
| mtu_called s op : mtu_reachable base maximum s -> mtu_reachable base maximum (fst (run_mtu op s)).
Lemma reachable_mtu base maximum s : mtu_reachable base maximum s ->
  mtu_ok s /\ base_datagram_bytes s = base /\ maximum_datagram_bytes s = maximum.
Proof.
  induction 1 as [s E|s op _ (H & Hb & Hm)].
  - destruct (mtu_new_ok _ _ _ E) as (? & ? & _ & _ & ? & _). done.
  - pose proof (run_mtu_ok op s H) as Hw. unfold wp in Hw.
    destruct (run_mtu op s) as [s' [o|e| |]]; cbn; try done; [|by subst s']. destruct Hw as (H' & Eb & Em). split_and!; [done|congruence..].
Qed.

(** Whatever is acknowledged, lost or refused, in any order, the bounds of
    the search stay ordered between the base and the maximum the path was
    created with, so no subtraction underflows and every call returns; the
    search is complete exactly when the range is within the threshold; the
    next probe has a size in the range, above the floor while the search
    goes on; a probe in flight has that size and excludes a fragmentable
    retry; a refused call changes nothing. *)
Theorem mtu_invariant base maximum s op : mtu_reachable base maximum s ->
  MIN_UTP_DATAGRAM_BYTES <= base <= floor_datagram_bytes s
  /\ floor_datagram_bytes s <= ceiling_datagram_bytes s <= maximum /\ maximum <= 65535
  /\ (search_complete s = true <-> ceiling_datagram_bytes s - floor_datagram_bytes s <= MTU_SEARCH_THRESHOLD_BYTES)
  /\ (exists size, candidate_datagram_bytes s = Ok size /\ floor_datagram_bytes s <= size <= ceiling_datagram_bytes s
      /\ (search_complete s = false -> floor_datagram_bytes s < size)
      /\ forall p, active_probe s = Some p -> fragmentable_retry s = None /\ probe_datagram_bytes p = size)
  /\ returns (snd (run_mtu op s))
  /\ (forall e, snd (run_mtu op s) = Err e -> fst (run_mtu op s) = s).
Proof.
  intros Hr. destruct (reachable_mtu _ _ _ Hr) as (H & <- & <-). pose proof (mtu_range_ok s H) as (Hb & Hf & Hm & _).
  split; [done|]. split; [lia|]. split; [lia|]. split; [rewrite (mo_complete s H); apply Z.leb_le|]. split.
  - exists (probe_size s). split; [by apply candidate_ok|]. assert (floor_datagram_bytes s <= probe_size s <= ceiling_datagram_bytes s
      /\ (search_complete s = false -> floor_datagram_bytes s < probe_size s)) as (? & ?).
    { destruct (search_complete s) eqn:Es; [unfold probe_size; rewrite Es; split; [lia|done]|]. pose proof (probe_size_between s H Es). split; [lia|intros; lia]. }
    split; [done|]. split; [done|]. intros p Ea. by destruct (mo_active s H p Ea) as (? & ? & _).
  - pose proof (run_mtu_ok op s H) as Hw. unfold wp in Hw. by destruct (run_mtu op s) as [s' [o|e| |]].
Qed.

(** C20: On a path that carries datagrams of up to [m] bytes and no larger
    ones, the search brackets [m] at every moment, concludes at most [k]
    probes (twelve for any 16-bit bounds), and when it is complete the size
    used is at most [m] and within the threshold of it.  While it is not
    complete it can go on: when no probe is outstanding and no retry with
    fragmentation is pending, after the guard time and three packets of the
    floor size, and with a window of more than three times the floor size, a
    probe of the size asked for is accepted. *)
Theorem path_mtu_found m base maximum k s0 n s :
  PathMtuState_new base maximum = Ok s0 -> base <= m <= maximum -> mtu_run m s0 n s ->
  maximum - base <= MTU_SEARCH_THRESHOLD_BYTES * 2 ^ Z.of_nat k ->
  floor_datagram_bytes s <= m <= ceiling_datagram_bytes s
  /\ (n <= k)%nat /\ (n <= 12)%nat
  /\ (search_complete s = true -> m - MTU_SEARCH_THRESHOLD_BYTES <= floor_datagram_bytes s <= m)
  /\ (search_complete s = false ->
      (n < k)%nat
      /\ forall seq now window, active_probe s = None -> fragmentable_retry s = None -> next_probe_not_before_micros s <= now ->
         ordinary_packets_since_probe s = ORDINARY_PACKETS_BEFORE_PROBE -> 3 * floor_datagram_bytes s < window ->
         exists size s', candidate_datagram_bytes s = Ok size /\ floor_datagram_bytes s < size
           /\ begin_probe seq size now window s = (s', Ok (mkProbe seq size ProbeSearch)) /\ active_probe s' = Some (mkProbe seq size ProbeSearch)).
Proof.
  intros E0 Hm Hr Hk. destruct (mtu_new_ok _ _ _ E0) as (H0 & Eb & Ef & Ec & _).
  assert (forall k, maximum - base <= MTU_SEARCH_THRESHOLD_BYTES * 2 ^ Z.of_nat k -> searched m k n s) as Hs.
  { intros j Hj. apply (mtu_run_searched m j s0); [|done]. split_and!; [done|unfold brackets; lia|lia|]. unfold narrow. rewrite Nat.sub_0_r. lia. }
  destruct (Hs k Hk) as (H & Hb & Hn & Hw). destruct (Hs 12%nat) as (_ & _ & Hn12 & _).
  { pose proof (mo_base s0 H0). pose proof (mo_maximum s0 H0). change (2 ^ Z.of_nat 12) with 4096. unfold MIN_UTP_DATAGRAM_BYTES, MTU_SEARCH_THRESHOLD_BYTES in *. lia. }
  split; [done|]. split; [done|]. split; [done|]. unfold brackets in Hb. split.
  - intros Es. pose proof (mo_complete s H) as E. rewrite Es in E. symmetry in E. apply Z.leb_le in E. lia.
  - intros Es. pose proof (narrow_complete _ _ H Hw Es). split; [lia|]. intros seq now window Ea Er Hg Ho Hwin.
    pose proof (probe_size_between s H Es) as (Hp & _). exists (probe_size s). eexists. split; [by apply candidate_ok|]. split; [lia|].
    assert (probe_ready now window s = true) as Hready.
    { apply probe_ready_iff. split_and!; try done; [|lia|unfold saturating_mul; lia].
      unfold phase_ready. by destruct (mtu_phase s) eqn:Ep; unfold search_complete in Es; rewrite ?Ep in Es. }
    unfold begin_probe. rewrite get_bind, Ea, Hready. cbn [negb]. rewrite (candidate_ok s H), lift_ok_bind, Z.eqb_refl, Es. cbn [negb].
    split; [reflexivity|done].
Qed.

(** * Witnesses *)

(** A decision of [path_allows], and a run of a list of calls. *)
Definition allows (m : Z) (s : PathMtuState) (op : MtuOp) : bool :=
  match active_probe s, op with
  | Some p, OpAcknowledged seq _ _ => negb (probe_sequence_number p =? seq) || (probe_datagram_bytes p <=? m)
  | Some p, OpProbeLoss seq failure _ _ => negb (probe_sequence_number p =? seq) || negb (isolated failure) || (m <? probe_datagram_bytes p)
  | Some p, OpTooLarge seq bytes _ _ => negb (probe_sequence_number p =? seq) || negb (probe_datagram_bytes p =? bytes) || (m <? bytes)
  | _, _ => true
  end.
Lemma allows_sound m s op : allows m s op = true -> path_allows m s op.
Proof.
  unfold allows, path_allows. intros E p Ea. rewrite Ea in E. destruct op; try done; intros; subst;
    rewrite ?Z.eqb_refl in E; cbn [negb orb] in E; [by apply Z.leb_le|rewrite H0 in E; by apply Z.ltb_lt|by apply Z.ltb_lt].
Qed.
Fixpoint run_calls (m : Z) (ops : list MtuOp) (n : nat) (s : PathMtuState) : option (nat * PathMtuState) :=
  match ops with
  | [] => Some (n, s)
  | op :: r => if allows m s op then run_calls m r (n + concludes (snd (run_mtu op s))) (fst (run_mtu op s)) else None
  end.
Lemma run_calls_run m s0 ops : forall n s n' s', mtu_run m s0 n s -> run_calls m ops n s = Some (n', s') -> mtu_run m s0 n' s'.
Proof.
  induction ops as [|op r IH]; intros n s n' s' Hr; cbn [run_calls]; [by intros [= <- <-]|].
  destruct (allows m s op) eqn:E; [|done]. intros E'. eapply IH; [|exact E']. apply run_op; [done|by apply allows_sound].
Qed.
Definition sent_three (now : Z) : list MtuOp := replicate 3 (OpOrdinarySent 1472 now).
Definition too_large (seq size t : Z) : list MtuOp :=
  sent_three t ++ [OpBeginProbe seq size t 10000; OpTooLarge seq size t (Some 10); OpAcknowledged seq t (Some 10)].
Definition passes (seq size t : Z) : list MtuOp :=
  sent_three t ++ [OpBeginProbe seq size t 10000; OpAcknowledged seq t (Some 10)].
(** A path of 1100 bytes between 548 and 1472. *)
Definition sample_mtu0 : PathMtuState :=
  mkMtu Base 548 1472 548 1472 0 None None 0 None 0 0 0 0 0 0 0.
Definition sample_calls : list MtuOp :=
  passes 1 1010 0 ++ too_large 2 1241 100 ++ too_large 3 1125 200 ++ passes 4 1067 300 ++ passes 5 1095 400.
Definition sample_mtu : PathMtuState := match run_calls 1100 sample_calls 0 sample_mtu0 with Some (_, s) => s | None => sample_mtu0 end.
Lemma path_mtu_found_witness : floor_datagram_bytes sample_mtu = 1095 /\ search_complete sample_mtu = false
  /\ floor_datagram_bytes sample_mtu <= 1100 <= ceiling_datagram_bytes sample_mtu.
Proof.
  destruct (path_mtu_found 1100 548 1472 6 sample_mtu0 5 sample_mtu) as (H & _); [vm_compute; exact eq_refl|lia| |vm_compute; congruence|].
  - apply (run_calls_run 1100 sample_mtu0 sample_calls 0 sample_mtu0); [apply run_start|]. vm_compute. exact eq_refl.
  - split; [vm_compute; exact eq_refl|]. split; [vm_compute; exact eq_refl|exact H].
Defined.
Lemma mtu_invariant_witness : returns (snd (run_mtu (OpProbeLoss 1 SolePacketTimeout 5 None) sample_mtu0)) /\ 548 <= floor_datagram_bytes sample_mtu0.
Proof.
  destruct (mtu_invariant 548 1472 sample_mtu0 (OpProbeLoss 1 SolePacketTimeout 5 None)) as (H1 & _ & _ & _ & _ & H2 & _);
    [apply mtu_created; vm_compute; exact eq_refl|]. split; [exact H2|apply H1].
Defined.
