(* ===== verification/UtpCongestion.v ===== *)
(** * Congestion control (src/utp/congestion.rs)

    The LEDBAT controller of a uTP connection: the history of one-way delays,
    the congestion window in 48.16 fixed point, its slow start, losses and
    timeouts, and the pacer that spreads a window over a round trip.  The two
    startup modes that the source has for its tests only are left out.

    The properties: the delay above the base is measured exactly, whatever
    the offset between the two clocks and across the wrap of the timestamp;
    the window stays between its floor and its maximum under every call; it
    grows only below the target delay and by no more than the code's bounds,
    and shrinks above it. *)
From Stdlib Require Import Sorting.Sorted.
From S2P Require Import Prelude UtpPacket UtpSend.
#[local] Open Scope Z_scope.

Definition TARGET_DELAY_MICROS : Z := 100000.
Definition BASE_DELAY_BUCKETS : Z := 10.
Definition CURRENT_DELAY_SAMPLE_LIMIT : Z := 32.
Definition INITIAL_CONGESTION_PACKETS : Z := 2.
Definition MIN_CONGESTION_PACKETS : Z := 2.
Definition MAX_CONGESTION_WINDOW_BYTES : Z := 1024 * 1024.
Definition STARTUP_EXIT_DELAY_MICROS : Z := 10000.
Definition STARTUP_EXIT_WINDOW_PERCENT : Z := 30.
Definition MICROS_PER_MINUTE : Z := 60000000.
Definition FIXED_POINT_SHIFT : Z := 16.
Definition FIXED_POINT_ONE : Z := Z.shiftl 1 FIXED_POINT_SHIFT.

(** [i128] arithmetic that saturates; division truncates ([Z.quot]). *)
Definition saturate_i128 (x : Z) : Z := Z.max (- 2 ^ 127) (Z.min x (2 ^ 127 - 1)).
Definition i128_saturating_mul (a b : Z) : Z := saturate_i128 (a * b).
Definition i128_saturating_add (a b : Z) : Z := saturate_i128 (a + b).

Inductive CongestionError :=
| InvalidMaximumSegmentSize (bytes maximum : Z)
| TimeReversed (previous_micros actual_micros : Z).

(** ** Delay history *)
Record DelaySnapshot := mkDelaySnapshot {
  base_delay_micros : option Z;
  current_delay_micros : option Z;
  queue_delay_micros : option Z;
  populated_base_buckets : Z;
  current_sample_count : Z;
}.
Record DelaySample := mkSample { observed_at_micros : Z; delay_micros : Z }.
Record DelayHistory := mkHistory {
  base_buckets : list (option Z);
  current_bucket : Z;
  current_minute : option Z;
  current_samples : list DelaySample;
  last_now_micros : option Z;
}.
Definition DelayHistory_new : DelayHistory :=
  mkHistory (replicate (Z.to_nat BASE_DELAY_BUCKETS) None) 0 None [] None.
Definition set_buckets buckets bucket minute h :=
  mkHistory buckets bucket minute (current_samples h) (last_now_micros h).
Definition set_samples samples h :=
  mkHistory (base_buckets h) (current_bucket h) (current_minute h) samples (last_now_micros h).
Definition set_last_now now h :=
  mkHistory (base_buckets h) (current_bucket h) (current_minute h) (current_samples h) now.

Definition wrapping_delay_less (left right : Z) : bool :=
  wrapping_sub 32 right left <? wrapping_sub 32 left right.
Definition wrapping_min_step (minimum : option Z) (value : Z) : option Z :=
  Some (match minimum with
        | Some current => if negb (wrapping_delay_less value current) then current else value
        | None => value
        end).
Definition wrapping_min (values : list Z) : option Z := fold_left wrapping_min_step values None.
(** [iter().flatten().copied()] *)
Definition flatten (l : list (option Z)) : list Z := omap id l.
(** [Iterator::min] *)
Definition list_min (l : list Z) : option Z :=
  match l with [] => None | x :: r => Some (fold_left Z.min r x) end.

Definition snapshot (rtt_cap_micros : option Z) (h : DelayHistory) : DelaySnapshot :=
  let base := wrapping_min (flatten (base_buckets h)) in
  let current := match base with
                 | Some base => list_min (map (fun sample => wrapping_sub 32 (delay_micros sample) base) (current_samples h))
                 | None => None
                 end in
  let queue := match current with
               | Some delay => Some (match rtt_cap_micros with Some rtt => Z.min delay (Z.min rtt (umax 32)) | None => delay end)
               | None => None
               end in
  mkDelaySnapshot base current queue (len (flatten (base_buckets h))) (len (current_samples h)).

(** [array[i] = v], which panics out of range. *)
Definition write_slot {E A} (l : list A) (i : Z) (v : A) : outcome E (list A) :=
  if (0 <=? i) && (i <? len l) then Ok (<[Z.to_nat i := v]> l) else Panic.
(** The loop over the minutes that went by: [n] iterations. *)
Fixpoint rotate (n : nat) (buckets : list (option Z)) (bucket : Z) : outcome CongestionError (list (option Z) * Z) :=
  match n with
  | O => Ok (buckets, bucket)
  | S n =>
    let bucket := (bucket + 1) mod BASE_DELAY_BUCKETS in
    buckets ← write_slot buckets bucket None;
    rotate n buckets bucket
  end.
(** [while front().is_some_and(..) { pop_front() }] *)
Fixpoint drop_expired (now horizon : Z) (samples : list DelaySample) : list DelaySample :=
  match samples with
  | [] => []
  | sample :: r => if horizon <? saturating_sub now (observed_at_micros sample) then drop_expired now horizon r else samples
  end.
Definition dmethod := M DelayHistory CongestionError.
Definition delay_advance_time (now horizon : Z) : dmethod unit :=
  h ← get;
  match last_now_micros h with
  | Some previous => if now <? previous then fail (TimeReversed previous now) else mret tt
  | None => mret tt
  end;;
  let minute := now / MICROS_PER_MINUTE in
  match current_minute h with
  | None => modify (fun h => set_buckets (base_buckets h) (current_bucket h) (Some minute) h)
  | Some previous_minute =>
    if previous_minute <? minute then
      let elapsed := minute - previous_minute in
      if BASE_DELAY_BUCKETS <=? elapsed
      then modify (fun h => set_buckets (map (fun _ => None) (base_buckets h)) 0 (Some minute) h)
      else
        rotated ← lift (rotate (Z.to_nat elapsed) (base_buckets h) (current_bucket h));
        modify (set_buckets (fst rotated) (snd rotated) (Some minute))
    else mret tt
  end;;
  modify (fun h => set_samples (drop_expired now horizon (current_samples h)) h);;
  modify (set_last_now (Some now)).
Definition add_sample (now delay horizon : Z) : dmethod DelaySnapshot :=
  delay_advance_time now horizon;;
  h ← get;
  bucket ← lift (index (base_buckets h) (current_bucket h));
  (if match bucket with None => true | Some base => wrapping_delay_less delay base end
   then
     buckets ← lift (write_slot (base_buckets h) (current_bucket h) (Some delay));
     modify (set_buckets buckets (current_bucket h) (current_minute h))
   else mret tt);;
  modify (fun h => set_samples ((if len (current_samples h) =? CURRENT_DELAY_SAMPLE_LIMIT then tail (current_samples h)
                                 else current_samples h) ++ [mkSample now delay]) h);;
  gets (snapshot None).

(** ** Controller *)
Inductive CongestionStartup := BoundedSlowStart.
Record CongestionAckOutcome := mkAckOutcome {
  previous_window_bytes : Z;
  ack_congestion_window_bytes : Z;
  ack_queue_delay_micros : Z;
  window_delta_bytes : Z;
}.
Record CongestionController := mkController {
  maximum_segment_bytes : Z;
  congestion_window_fixed : Z;
  slow_start_exit_delay_micros : option Z;
  slow_start_exit_window_percent : option Z;
  slow_start_active : bool;
  slow_start_threshold_bytes : option Z;
  slow_start_acknowledgements : Z;
  slow_start_exits : Z;
  delay : DelayHistory;
  loss_reductions : Z;
  ignored_loss_events : Z;
  timeout_collapses : Z;
  timeout_collapsed : bool;
  next_loss_reduction_micros : Z;
}.
Definition set_segment mss c := mkController mss (congestion_window_fixed c) (slow_start_exit_delay_micros c)
  (slow_start_exit_window_percent c) (slow_start_active c) (slow_start_threshold_bytes c) (slow_start_acknowledgements c)
  (slow_start_exits c) (delay c) (loss_reductions c) (ignored_loss_events c) (timeout_collapses c) (timeout_collapsed c)
  (next_loss_reduction_micros c).
Definition set_window w c := mkController (maximum_segment_bytes c) w (slow_start_exit_delay_micros c)
  (slow_start_exit_window_percent c) (slow_start_active c) (slow_start_threshold_bytes c) (slow_start_acknowledgements c)
  (slow_start_exits c) (delay c) (loss_reductions c) (ignored_loss_events c) (timeout_collapses c) (timeout_collapsed c)
  (next_loss_reduction_micros c).
Definition set_slow_start active threshold acks exits c := mkController (maximum_segment_bytes c) (congestion_window_fixed c)
  (slow_start_exit_delay_micros c) (slow_start_exit_window_percent c) active threshold acks
  exits (delay c) (loss_reductions c) (ignored_loss_events c) (timeout_collapses c) (timeout_collapsed c)
  (next_loss_reduction_micros c).
Definition set_delay h c := mkController (maximum_segment_bytes c) (congestion_window_fixed c) (slow_start_exit_delay_micros c)
  (slow_start_exit_window_percent c) (slow_start_active c) (slow_start_threshold_bytes c) (slow_start_acknowledgements c)
  (slow_start_exits c) h (loss_reductions c) (ignored_loss_events c) (timeout_collapses c) (timeout_collapsed c)
  (next_loss_reduction_micros c).
Definition set_events reductions ignored collapses collapsed next c := mkController (maximum_segment_bytes c)
  (congestion_window_fixed c) (slow_start_exit_delay_micros c)
  (slow_start_exit_window_percent c) (slow_start_active c) (slow_start_threshold_bytes c) (slow_start_acknowledgements c)
  (slow_start_exits c) (delay c) reductions ignored collapses collapsed next.
Definition set_collapsed b c := set_events (loss_reductions c) (ignored_loss_events c) (timeout_collapses c) b (next_loss_reduction_micros c) c.

Definition bytes_to_fixed (bytes : Z) : Z := i128_saturating_mul bytes FIXED_POINT_ONE.
Definition fixed_to_bytes (fixed : Z) : Z := Z.min (Z.shiftr (Z.max fixed 0) FIXED_POINT_SHIFT) MAX_CONGESTION_WINDOW_BYTES.
Definition signed_delta (current previous : Z) : Z :=
  if previous <=? current then Z.min (saturating_sub current previous) (2 ^ 63 - 1)
  else - Z.min (saturating_sub previous current) (2 ^ 63 - 1).
Definition validate_mss (mss : Z) : outcome CongestionError unit :=
  if (mss =? 0) || (MAX_UTP_PAYLOAD_SIZE <? mss) then Err (InvalidMaximumSegmentSize mss MAX_UTP_PAYLOAD_SIZE) else Ok tt.
Definition with_startup (mss : Z) (startup : CongestionStartup) : outcome CongestionError CongestionController :=
  _ ← validate_mss mss;
  let '(exit_delay, exit_percent) :=
    match startup with BoundedSlowStart => (Some STARTUP_EXIT_DELAY_MICROS, Some STARTUP_EXIT_WINDOW_PERCENT) end in
  Ok (mkController mss (bytes_to_fixed (saturating_mul USIZE mss INITIAL_CONGESTION_PACKETS)) exit_delay exit_percent
        (bool_decide (is_Some exit_delay)) None 0 0 DelayHistory_new 0 0 0 false 0).
Definition CongestionController_new (mss : Z) : outcome CongestionError CongestionController := with_startup mss BoundedSlowStart.

Definition method := M CongestionController CongestionError.
Definition on_delay {A} (m : dmethod A) : method A :=
  fun c => match m (delay c) with (h, r) => (set_delay h c, r) end.
Definition congestion_window_bytes (c : CongestionController) : Z := fixed_to_bytes (congestion_window_fixed c).
Definition ordinary_floor (c : CongestionController) : Z :=
  bytes_to_fixed (saturating_mul USIZE (maximum_segment_bytes c) MIN_CONGESTION_PACKETS).
(** [smoothed_rtt_micros.unwrap_or(INITIAL_RTO_MICROS).max(1)] *)
Definition horizon_of (rtt : option Z) : Z := Z.max (default INITIAL_RTO_MICROS rtt) 1.
Definition exit_slow_start (threshold : option Z) (c : CongestionController) : CongestionController :=
  if negb (slow_start_active c) then c
  else set_slow_start false threshold (slow_start_acknowledgements c) (saturating_add 64 (slow_start_exits c) 1) c.

Definition update_maximum_segment_size (mss : Z) : method unit :=
  lift (validate_mss mss);;
  modify (set_segment mss);;
  c ← get;
  let floor_packets := if timeout_collapsed c then 1 else MIN_CONGESTION_PACKETS in
  let floor := bytes_to_fixed (saturating_mul USIZE mss floor_packets) in
  modify (set_window (Z.min (Z.max (congestion_window_fixed c) floor) (bytes_to_fixed MAX_CONGESTION_WINDOW_BYTES))).
Definition advance_time (now : Z) (rtt : option Z) : method unit := on_delay (delay_advance_time now (horizon_of rtt)).

(** The end of the bounded slow start: a delay of [STARTUP_EXIT_DELAY_MICROS]
    leaves a part of the window. *)
Definition startup_exit (queue_delay previous : Z) (c : CongestionController) : CongestionController :=
  if slow_start_active c && match slow_start_exit_delay_micros c with Some exit_delay => exit_delay <=? queue_delay | None => false end
  then
    let c := exit_slow_start (Some (previous / 2)) c in
    match slow_start_exit_window_percent c with
    | Some percent =>
      set_window (bytes_to_fixed (Z.max (saturating_mul USIZE previous percent / 100)
                                        (saturating_mul USIZE (maximum_segment_bytes c) MIN_CONGESTION_PACKETS))) c
    | None => c
    end
  else c.
Definition ledbat_gain (queue_delay acknowledged mss previous : Z) : Z :=
  Z.quot (Z.quot (i128_saturating_mul (i128_saturating_mul (i128_saturating_mul (TARGET_DELAY_MICROS - queue_delay) acknowledged) mss)
                    FIXED_POINT_ONE) TARGET_DELAY_MICROS) (Z.max previous 1).
(** The gain with slow start: the state, the gain, whether slow start was used. *)
Definition slow_start_gain (acknowledged previous gain : Z) (limited : bool) (c : CongestionController) : CongestionController * Z * bool :=
  if slow_start_active c && limited then
    if match slow_start_threshold_bytes c with Some threshold => threshold <? saturating_add USIZE previous acknowledged | None => false end
    then (exit_slow_start (slow_start_threshold_bytes c) c, gain, false)
    else (set_slow_start (slow_start_active c) (slow_start_threshold_bytes c) (saturating_add 64 (slow_start_acknowledgements c) 1)
            (slow_start_exits c) c, Z.max gain (bytes_to_fixed acknowledged), true)
  else (c, gain, false).
Definition on_ack (now acknowledged flight one_way_delay : Z) (rtt : option Z) (limited : bool) : method CongestionAckOutcome :=
  on_delay (add_sample now one_way_delay (horizon_of rtt));;
  c ← get;
  let queue_delay := default 0 (queue_delay_micros (snapshot rtt (delay c))) in
  let previous := congestion_window_bytes c in
  modify (startup_exit queue_delay previous);;
  c ← get;
  let gain := ledbat_gain queue_delay acknowledged (maximum_segment_bytes c) previous in
  let '(c, gain, used_slow_start) := slow_start_gain acknowledged previous gain limited c in
  put c;;
  let gain := if (0 <? gain) && negb limited then 0 else gain in
  let candidate := i128_saturating_add (congestion_window_fixed c) gain in
  let candidate :=
    if (0 <? gain) && negb used_slow_start
    then Z.min candidate (Z.max (bytes_to_fixed (saturating_add USIZE flight (maximum_segment_bytes c))) (congestion_window_fixed c))
    else candidate in
  modify (set_collapsed false);;
  modify (set_window (Z.min (Z.max candidate (ordinary_floor c)) (bytes_to_fixed MAX_CONGESTION_WINDOW_BYTES)));;
  c ← get;
  mret (mkAckOutcome previous (congestion_window_bytes c) queue_delay (signed_delta (congestion_window_bytes c) previous)).
Definition on_loss (now : Z) (rtt : option Z) (isolated_mtu_probe : bool) : method bool :=
  advance_time now rtt;;
  c ← get;
  if isolated_mtu_probe || (now <? next_loss_reduction_micros c) then
    modify (fun c => set_events (loss_reductions c) (saturating_add 64 (ignored_loss_events c) 1) (timeout_collapses c)
                       (timeout_collapsed c) (next_loss_reduction_micros c) c);;
    mret false
  else
    modify (set_window (Z.max (Z.quot (congestion_window_fixed c) 2) (ordinary_floor c)));;
    modify (fun c => set_events (saturating_add 64 (loss_reductions c) 1) (ignored_loss_events c) (timeout_collapses c)
                       false (saturating_add 64 now (horizon_of rtt)) c);;
    modify (fun c => if slow_start_active c then exit_slow_start (Some (congestion_window_bytes c)) c else c);;
    mret true.
Definition congestion_on_timeout (now : Z) (rtt : option Z) : method unit :=
  advance_time now rtt;;
  c ← get;
  modify (set_window (bytes_to_fixed (maximum_segment_bytes c)));;
  modify (fun c => set_events (loss_reductions c) (ignored_loss_events c) (saturating_add 64 (timeout_collapses c) 1)
                     true (saturating_add 64 now (horizon_of rtt)) c);;
  modify (fun c => if bool_decide (is_Some (slow_start_exit_delay_micros c))
                   then set_slow_start true (slow_start_threshold_bytes c) (slow_start_acknowledgements c) (slow_start_exits c) c
                   else c).

(** ** Pacer: its only field is [next_send_micros]. *)
Record Pacer := mkPacer { next_send_micros : Z }.
Definition Pacer_default : Pacer := mkPacer 0.
Definition is_ready (now : Z) (p : Pacer) : bool := next_send_micros p <=? now.
Definition on_payload_emitted (now payload_bytes window : Z) (rtt : option Z) (p : Pacer) : Pacer * Z :=
  let interval := match rtt with
                  | None => 0
                  | Some rtt => Z.min (div_ceil (saturating_mul 128 payload_bytes rtt) (Z.max window 1)) (umax 64)
                  end in
  let next := saturating_add 64 (Z.max (next_send_micros p) now) interval in
  (mkPacer next, next).
Definition pacer_reset (now : Z) (p : Pacer) : Pacer := mkPacer now.

(** * Specification of the delay history

    The one-way delay of a packet is known up to the offset [o] between the
    two clocks, modulo 2^32: a packet that queued for [q] microseconds more
    than the fastest path is seen with [enc o q].  A log has the times and
    queueing times of all samples. *)
Definition enc (o q : Z) : Z := wrapping_add 32 o q.
Definition minute_of (e : Z * Z) : Z := e.1 / MICROS_PER_MINUTE.
Definition minute_min (log : list (Z * Z)) (m : Z) : option Z :=
  list_min (map snd (filter (fun e => minute_of e = m) log)).
(** The least delay of the last ten minutes, the current one included. *)
Definition window_min (log : list (Z * Z)) (m : Z) : option Z :=
  list_min (map snd (filter (fun e => m - BASE_DELAY_BUCKETS < minute_of e) log)).
(** The samples that are still current, and the next ones. *)
Definition kept_at (now horizon : Z) (kept : list (Z * Z)) : list (Z * Z) := filter (fun e => now - e.1 <= horizon) kept.
Definition kept_sample (now horizon q : Z) (kept : list (Z * Z)) : list (Z * Z) :=
  let kept := kept_at now horizon kept in
  (if len kept =? CURRENT_DELAY_SAMPLE_LIMIT then tail kept else kept) ++ [(now, q)].
Definition half_range (q : Z) : Prop := 0 <= q < 2 ^ 31.
Definition MAX_EXACT_HORIZON : Z := 9 * MICROS_PER_MINUTE.
(** A run of the history with its log and its current samples. *)
Inductive delay_run (o : Z) : DelayHistory -> list (Z * Z) -> list (Z * Z) -> Prop :=
| delay_start : delay_run o DelayHistory_new [] []
| delay_advanced h log kept now horizon : delay_run o h log kept -> is_u 64 now -> 0 <= horizon <= MAX_EXACT_HORIZON ->
    (forall t, last_now_micros h = Some t -> t <= now) ->
    delay_run o (fst (delay_advance_time now horizon h)) log (kept_at now horizon kept)
| delay_sampled h log kept now q horizon : delay_run o h log kept -> is_u 64 now -> 0 <= horizon <= MAX_EXACT_HORIZON ->
    (forall t, last_now_micros h = Some t -> t <= now) -> half_range q ->
    delay_run o (fst (add_sample now (enc o q) horizon h)) (log ++ [(now, q)]) (kept_sample now horizon q kept).

(** ** Least elements *)
Lemma fold_min_spec l : forall a, (fold_left Z.min l a ∈ a :: l) /\ forall x, x ∈ a :: l -> fold_left Z.min l a <= x.
Proof.
  induction l as [|y l IH]; intros a; cbn [fold_left].
  - split; [apply list_elem_of_here|]. intros x [->|[]%not_elem_of_nil]%elem_of_cons. lia.
  - destruct (IH (Z.min a y)) as [Hin Hle]. split.
    + apply elem_of_cons in Hin as [E|Hin]; [|by do 2 apply list_elem_of_further]. rewrite E.
      destruct (Z.min_spec a y) as [[_ ->]|[_ ->]]; [apply list_elem_of_here|apply list_elem_of_further, list_elem_of_here].
    + assert (fold_left Z.min l (Z.min a y) <= Z.min a y) by (apply Hle, list_elem_of_here).
      intros x [->|[->|Hx]%elem_of_cons]%elem_of_cons; [lia|lia|]. by apply Hle, list_elem_of_further.
Qed.
Lemma list_min_Some l b : list_min l = Some b <-> b ∈ l /\ forall x, x ∈ l -> b <= x.
Proof.
  destruct l as [|a l]; cbn [list_min].
  - split; [done|]. by intros [[]%not_elem_of_nil _].
  - destruct (fold_min_spec l a) as [Hin Hle]. split; [by intros [= <-]|]. intros [Hb Hbl]. f_equal.
    apply Z.le_antisymm; [by apply Hle|by apply Hbl].
Qed.
Lemma list_min_None l : list_min l = None <-> l = [].
Proof. by destruct l. Qed.
Lemma minute_min_None log m : (forall e, e ∈ log -> minute_of e <> m) -> minute_min log m = None.
Proof.
  intros H. unfold minute_min. destruct (filter _ log) as [|e l] eqn:E; [done|].
  assert (e ∈ filter (fun e => minute_of e = m) log) as Hin by (rewrite E; apply list_elem_of_here).
  apply list_elem_of_filter in Hin as [Hm Hin]. by destruct (H e Hin).
Qed.
Lemma list_min_snoc l x : list_min (l ++ [x]) = Some (match list_min l with Some b => Z.min b x | None => x end).
Proof. destruct l as [|a l]; [done|]. cbn. by rewrite fold_left_app. Qed.
Lemma minute_min_snoc log e m : minute_min (log ++ [e]) m =
  if bool_decide (minute_of e = m) then Some (match minute_min log m with Some b => Z.min b e.2 | None => e.2 end) else minute_min log m.
Proof.
  unfold minute_min. rewrite filter_app, map_app. case_bool_decide as E.
  - rewrite filter_cons_True by done. cbn [map]. by rewrite list_min_snoc.
  - rewrite filter_cons_False by done. cbn [map]. by rewrite app_nil_r.
Qed.

(** ** The circular order of delays *)
Lemma enc_sub o a b : half_range a -> half_range b -> wrapping_sub 32 (enc o a) (enc o b) = (a - b) mod 2 ^ 32.
Proof.
  intros Ha Hb. unfold enc, wrapping_sub, wrapping_add. rewrite <- Zminus_mod. f_equal. lia.
Qed.
Lemma delay_less_enc o a b : half_range a -> half_range b -> wrapping_delay_less (enc o a) (enc o b) = (a <? b).
Proof.
  intros Ha Hb. unfold wrapping_delay_less. rewrite !enc_sub by done. unfold half_range in *.
  change (2 ^ 31) with 2147483648 in *. change (2 ^ 32) with 4294967296. destruct (Z.ltb_spec a b); [apply Z.ltb_lt|apply Z.ltb_ge]; divlia.
Qed.
Lemma wrapping_min_enc o l : Forall half_range l -> wrapping_min (map (enc o) l) = enc o <$> list_min l.
Proof.
  intros Hl. unfold wrapping_min. destruct l as [|a l]; [done|]. cbn [map fold_left list_min fmap option_fmap option_map].
  change (wrapping_min_step None (enc o a)) with (Some (enc o a)). apply Forall_cons in Hl as [Ha Hl]. revert a Ha.
  induction Hl as [|x l Hx Hl IH]; intros a Ha; [done|]. cbn [map fold_left].
  unfold wrapping_min_step at 2. rewrite delay_less_enc by done. destruct (Z.ltb_spec x a) as [H|H]; cbn [negb].
  - rewrite Z.min_r by lia. by apply IH.
  - rewrite Z.min_l by lia. by apply IH.
Qed.

(** ** Buckets *)
Definition bucket_minute (m cb i : Z) : Z := m - (cb - i) mod BASE_DELAY_BUCKETS.
Definition buckets_of (o : Z) (log : list (Z * Z)) (m cb : Z) : list (option Z) :=
  map (fun i => enc o <$> minute_min log (bucket_minute m cb i)) (seqZ 0 BASE_DELAY_BUCKETS).
Lemma lookup_map_seqZ {A} (f : Z -> A) n i : 0 <= i < n -> map f (seqZ 0 n) !! Z.to_nat i = Some (f i).
Proof.
  intros H. change (map f (seqZ 0 n)) with (f <$> seqZ 0 n). rewrite list_lookup_fmap, lookup_seqZ_lt by lia. cbn. do 2 f_equal. lia.
Qed.
Lemma len_map_seqZ {A} (f : Z -> A) n : 0 <= n -> len (map f (seqZ 0 n)) = n.
Proof. intros H. unfold len. rewrite length_map, length_seqZ. lia. Qed.
Lemma insert_map_seqZ {A} (f g : Z -> A) n i v : 0 <= i < n -> g i = v -> (forall k, 0 <= k < n -> k <> i -> g k = f k) ->
  <[Z.to_nat i := v]> (map f (seqZ 0 n)) = map g (seqZ 0 n).
Proof.
  intros Hi Hv Hg. apply list_eq_same_length with (n := Z.to_nat n).
  - by rewrite length_map, length_seqZ.
  - by rewrite length_insert, length_map, length_seqZ.
  - intros k x y Hk. replace k with (Z.to_nat (Z.of_nat k)) by lia. assert (0 <= Z.of_nat k < n) as Hkn by lia.
    rewrite lookup_map_seqZ by done. intros Hx Hy. injection Hy as <-.
    destruct (decide (Z.of_nat k = i)) as [<-|Hne].
    + rewrite list_lookup_insert_eq in Hx by (rewrite length_map, length_seqZ; lia). injection Hx as <-. done.
    + rewrite list_lookup_insert_ne in Hx by lia. rewrite lookup_map_seqZ in Hx by done. injection Hx as <-. symmetry. by apply Hg.
Qed.
Lemma write_slot_map {E A} (f g : Z -> A) n i v : 0 <= i < n -> g i = v -> (forall k, 0 <= k < n -> k <> i -> g k = f k) ->
  write_slot (E := E) (map f (seqZ 0 n)) i v = Ok (map g (seqZ 0 n)).
Proof.
  intros Hi Hv Hg. unfold write_slot. rewrite len_map_seqZ by lia.
  rewrite (proj2 (Z.leb_le _ _)), (proj2 (Z.ltb_lt _ _)) by lia. cbn [andb]. by rewrite (insert_map_seqZ f g).
Qed.
Lemma rotate_ok o log n : forall m cb, 0 <= cb < BASE_DELAY_BUCKETS -> (forall e, e ∈ log -> minute_of e <= m) ->
  rotate n (buckets_of o log m cb) cb
  = Ok (buckets_of o log (m + Z.of_nat n) ((cb + Z.of_nat n) mod BASE_DELAY_BUCKETS), (cb + Z.of_nat n) mod BASE_DELAY_BUCKETS).
Proof.
  induction n as [|n IH]; intros m cb Hcb Hlog; cbn [rotate].
  - rewrite !Z.add_0_r, Z.mod_small by done. done.
  - unfold buckets_of at 1. unfold BASE_DELAY_BUCKETS in *.
    rewrite (write_slot_map _ (fun i => enc o <$> minute_min log (bucket_minute (m + 1) ((cb + 1) mod 10) i))).
    + rewrite ok_bind. change 10 with BASE_DELAY_BUCKETS. fold (buckets_of o log (m + 1) ((cb + 1) mod BASE_DELAY_BUCKETS)).
      rewrite IH; [|unfold BASE_DELAY_BUCKETS; divlia|intros e He; specialize (Hlog e He); lia].
      rewrite Zplus_mod_idemp_l, Nat2Z.inj_succ. replace (m + 1 + Z.of_nat n) with (m + Z.succ (Z.of_nat n)) by lia.
      by replace (cb + 1 + Z.of_nat n) with (cb + Z.succ (Z.of_nat n)) by lia.
    + divlia.
    + unfold bucket_minute, BASE_DELAY_BUCKETS. rewrite Z.sub_diag, Z.mod_0_l, Z.sub_0_r by lia. rewrite minute_min_None; [done|]. intros e He. specialize (Hlog e He). lia.
    + intros k Hk Hne. do 2 f_equal. unfold bucket_minute, BASE_DELAY_BUCKETS. divlia.
Qed.
Lemma buckets_empty o log m cb : 0 <= cb < BASE_DELAY_BUCKETS -> (forall e, e ∈ log -> minute_of e <= m - BASE_DELAY_BUCKETS) ->
  buckets_of o log m cb = replicate (Z.to_nat BASE_DELAY_BUCKETS) None.
Proof.
  intros Hcb Hlog. unfold buckets_of. assert (forall l, map (fun i => enc o <$> minute_min log (bucket_minute m cb i)) l = replicate (length l) None) as H.
  { induction l as [|i l IH]; [done|]. cbn [map length replicate]. rewrite IH. f_equal. rewrite minute_min_None; [done|].
    intros e He. specialize (Hlog e He). unfold bucket_minute, BASE_DELAY_BUCKETS in *. divlia. }
  rewrite H, length_seqZ. done.
Qed.

(** ** The history and its log *)
Definition sample_of (o : Z) (e : Z * Z) : DelaySample := mkSample e.1 (enc o e.2).
Record tracks (o : Z) (h : DelayHistory) (log kept : list (Z * Z)) : Prop := {
  tk_log e : e ∈ log -> half_range e.2 /\ exists now, last_now_micros h = Some now /\ e.1 <= now;
  tk_minute : current_minute h = (fun t => t / MICROS_PER_MINUTE) <$> last_now_micros h;
  tk_bucket : 0 <= current_bucket h < BASE_DELAY_BUCKETS;
  tk_buckets : base_buckets h = buckets_of o log (default 0 (current_minute h)) (current_bucket h);
  tk_samples : current_samples h = map (sample_of o) kept;
  tk_kept e : e ∈ kept -> e ∈ log /\ default 0 (current_minute h) - BASE_DELAY_BUCKETS < minute_of e;
  tk_sorted : StronglySorted (fun a b => a.1 <= b.1) kept;
  tk_count : len kept <= CURRENT_DELAY_SAMPLE_LIMIT;
}.
Lemma new_tracks o : tracks o DelayHistory_new [] [].
Proof.
  split; cbn [DelayHistory_new last_now_micros current_minute current_bucket base_buckets current_samples default]; try done.
  - by intros e []%not_elem_of_nil.
  - by intros e []%not_elem_of_nil.
  - constructor.
Qed.
Lemma sorted_filter {A} (R : A -> A -> Prop) (P : A -> Prop) `{forall x, Decision (P x)} l :
  StronglySorted R l -> StronglySorted R (filter P l).
Proof.
  induction 1 as [|x l _ IH Hx]; [constructor|]. rewrite filter_cons. case_decide; [|done]. constructor; [done|].
  apply Forall_forall. intros y [_ Hy]%list_elem_of_filter. by eapply Forall_forall in Hx.
Qed.
Lemma filter_all {A} (P : A -> Prop) `{forall x, Decision (P x)} l : Forall P l -> filter P l = l.
Proof. induction 1 as [|x l Hx _ IH]; [done|]. by rewrite filter_cons_True, IH. Qed.
Lemma drop_expired_filter o now horizon kept : StronglySorted (fun a b => a.1 <= b.1) kept -> (forall e, e ∈ kept -> e.1 <= now) ->
  drop_expired now horizon (map (sample_of o) kept) = map (sample_of o) (kept_at now horizon kept).
Proof.
  induction 1 as [|e l Hl IH He]; intros Hnow; [done|]. cbn [map drop_expired]. unfold saturating_sub. cbn [observed_at_micros sample_of].
  pose proof (Hnow e ltac:(apply list_elem_of_here)). rewrite Z.max_r by lia. unfold kept_at. rewrite filter_cons.
  destruct (Z.ltb_spec horizon (now - e.1)) as [Hexp|Hin]; case_decide; try lia.
  - apply IH. intros x Hx. apply Hnow. by apply list_elem_of_further.
  - cbn [map]. f_equal. f_equal. symmetry. apply filter_all.
    eapply Forall_impl; [exact He|]. intros x Hx. cbn in Hx. lia.
Qed.
Lemma tracks_advance o h log kept now horizon : tracks o h log kept -> is_u 64 now -> 0 <= horizon <= MAX_EXACT_HORIZON ->
  (forall t, last_now_micros h = Some t -> t <= now) ->
  exists h', delay_advance_time now horizon h = (h', Ok tt) /\ tracks o h' log (kept_at now horizon kept) /\ last_now_micros h' = Some now.
Proof.
  intros [Hlog Hmin Hcb Hb Hs Hk Hsort Hcount] Hnow Hhz Hlast.
  assert (forall e, e ∈ kept -> e.1 <= now) as Hold.
  { intros e He. destruct (Hk e He) as [Hin _]. destruct (Hlog e Hin) as (_ & t & Et & Hle). specialize (Hlast t Et). lia. }
  assert (forall e, e ∈ log -> e.1 <= now) as Hlognow.
  { intros e He. destruct (Hlog e He) as (_ & t & Et & Hle). specialize (Hlast t Et). lia. }
  assert (exists buckets bucket, 0 <= bucket < BASE_DELAY_BUCKETS
     /\ buckets = buckets_of o log (now / MICROS_PER_MINUTE) bucket
     /\ delay_advance_time now horizon h
        = (mkHistory buckets bucket (Some (now / MICROS_PER_MINUTE)) (drop_expired now horizon (current_samples h)) (Some now), Ok tt))
    as (buckets & bucket & Hbucket & Hbuckets & E).
  { unfold delay_advance_time. rewrite get_bind.
    assert ((match last_now_micros h with Some previous => if now <? previous then fail (TimeReversed previous now) else mret tt | None => mret tt end)
            = lift (Ok tt)) as ->.
    { destruct (last_now_micros h) as [t|]; [|done]. specialize (Hlast t eq_refl). by rewrite (proj2 (Z.ltb_ge _ _) Hlast). }
    rewrite lift_ok_bind. rewrite Hmin in *. destruct (last_now_micros h) as [t|] eqn:Et; cbn [fmap option_fmap option_map default] in *; unfold id in *.
    - specialize (Hlast t eq_refl). assert (forall e, e ∈ log -> minute_of e <= t / MICROS_PER_MINUTE) as Hm.
      { intros e He. destruct (Hlog e He) as (_ & t' & [= <-] & Hle). unfold minute_of, MICROS_PER_MINUTE. divlia. }
      destruct (Z.ltb_spec (t / MICROS_PER_MINUTE) (now / MICROS_PER_MINUTE)) as [Hlt|Hge].
      + destruct (Z.leb_spec BASE_DELAY_BUCKETS (now / MICROS_PER_MINUTE - t / MICROS_PER_MINUTE)) as [Hlong|Hshort].
        * exists (replicate (Z.to_nat BASE_DELAY_BUCKETS) None), 0. split; [unfold BASE_DELAY_BUCKETS; lia|]. split.
          { symmetry. apply buckets_empty; [unfold BASE_DELAY_BUCKETS; lia|]. intros e He. specialize (Hm e He). lia. }
          transitivity (mkHistory (map (fun _ => None) (base_buckets h)) 0 (Some (now / MICROS_PER_MINUTE))
            (drop_expired now horizon (current_samples h)) (Some now), @Ok CongestionError unit tt); [reflexivity|].
          rewrite Hb. unfold buckets_of. by rewrite map_map.
        * exists (buckets_of o log (now / MICROS_PER_MINUTE) ((current_bucket h + (now / MICROS_PER_MINUTE - t / MICROS_PER_MINUTE)) mod BASE_DELAY_BUCKETS)),
            ((current_bucket h + (now / MICROS_PER_MINUTE - t / MICROS_PER_MINUTE)) mod BASE_DELAY_BUCKETS).
          split; [unfold BASE_DELAY_BUCKETS; divlia|]. split; [done|]. rewrite Hb, rotate_ok by done.
          rewrite Z2Nat.id by lia. replace (t / MICROS_PER_MINUTE + (now / MICROS_PER_MINUTE - t / MICROS_PER_MINUTE)) with (now / MICROS_PER_MINUTE) by lia.
          reflexivity.
      + assert (now / MICROS_PER_MINUTE = t / MICROS_PER_MINUTE) as Em by (unfold MICROS_PER_MINUTE in *; divlia).
        exists (base_buckets h), (current_bucket h). split; [done|]. split; [by rewrite Em|]. rewrite Em.
        unfold mbind, M_bind, modify, set_samples, set_last_now, mret, M_ret. cbn. by rewrite Hmin.
    - exists (base_buckets h), (current_bucket h). split; [done|]. split; [|reflexivity]. rewrite Hb.
      assert (log = []) as -> by (destruct log as [|e l]; [done|]; destruct (Hlog e ltac:(apply list_elem_of_here)) as (_ & ? & [=] & _)).
      rewrite !buckets_empty; try done; by intros e []%not_elem_of_nil. }
  rewrite E. eexists. split; [reflexivity|]. split; [|done]. split; cbn [last_now_micros current_minute current_bucket base_buckets current_samples default].
  - intros e He. split; [by apply Hlog|]. exists now. split; [done|by apply Hlognow].
  - done.
  - done.
  - done.
  - rewrite Hs. by apply drop_expired_filter.
  - intros e [He Hin]%list_elem_of_filter. split; [by apply Hk|]. cbv beta in He. unfold id, minute_of, MAX_EXACT_HORIZON, BASE_DELAY_BUCKETS, MICROS_PER_MINUTE in *. divlia.
  - by apply sorted_filter.
  - unfold kept_at, len in *. pose proof (length_filter (fun e : Z * Z => now - e.1 <= horizon) kept). lia.
Qed.
Lemma buckets_add o log m cb now q : 0 <= cb < BASE_DELAY_BUCKETS -> now / MICROS_PER_MINUTE = m -> half_range q ->
  (forall e, e ∈ log -> half_range e.2) ->
  exists bucket, nth_get (buckets_of o log m cb) cb = Some bucket
  /\ if match bucket with None => true | Some base => wrapping_delay_less (enc o q) base end
     then write_slot (E := CongestionError) (buckets_of o log m cb) cb (Some (enc o q)) = Ok (buckets_of o (log ++ [(now, q)]) m cb)
     else buckets_of o (log ++ [(now, q)]) m cb = buckets_of o log m cb.
Proof.
  intros Hcb Hm Hq Hlog. exists (enc o <$> minute_min log m).
  assert (bucket_minute m cb cb = m) as Ecb by (unfold bucket_minute; rewrite Z.sub_diag, Z.mod_0_l, Z.sub_0_r; [done|unfold BASE_DELAY_BUCKETS; lia]).
  assert (forall k, 0 <= k < BASE_DELAY_BUCKETS -> k <> cb -> minute_min (log ++ [(now, q)]) (bucket_minute m cb k) = minute_min log (bucket_minute m cb k)) as Hother.
  { intros k Hk Hne. rewrite minute_min_snoc, bool_decide_eq_false_2; [done|]. unfold minute_of, bucket_minute. cbn [fst]. rewrite Hm.
    unfold BASE_DELAY_BUCKETS in *. divlia. }
  assert (minute_min (log ++ [(now, q)]) m = Some (match minute_min log m with Some b => Z.min b q | None => q end)) as Hthis
    by (by rewrite minute_min_snoc, bool_decide_eq_true_2).
  split; [rewrite nth_get_lookup by lia; unfold buckets_of; rewrite lookup_map_seqZ by done; by rewrite Ecb|].
  assert (forall b, minute_min log m = Some b -> half_range b) as Hb.
  { unfold minute_min. intros b [Hin _]%list_min_Some. apply list_elem_of_fmap in Hin as (e & -> & [_ He]%list_elem_of_filter). by apply Hlog. }
  assert (forall v, v = enc o <$> minute_min (log ++ [(now, q)]) m ->
    write_slot (E := CongestionError) (buckets_of o log m cb) cb v = Ok (buckets_of o (log ++ [(now, q)]) m cb)) as Hwrite.
  { intros v ->. apply write_slot_map; [done|by rewrite Ecb|]. intros k Hk Hne. by rewrite Hother. }
  destruct (minute_min log m) as [b|] eqn:Emin; cbn [fmap option_fmap option_map].
  - specialize (Hb b eq_refl). rewrite delay_less_enc by done. destruct (Z.ltb_spec q b) as [Hlt|Hge].
    + apply Hwrite. rewrite Hthis. cbn. by rewrite Z.min_r by lia.
    + unfold buckets_of. apply map_ext_in. intros k Hk. apply list_elem_of_In, elem_of_seqZ in Hk.
      destruct (decide (k = cb)) as [->|Hne]; [|by rewrite Hother by (done || lia)]. rewrite Ecb, Hthis, Emin. cbn. by rewrite Z.min_l by lia.
  - apply Hwrite. by rewrite Hthis.
Qed.
Lemma sorted_snoc_times (l : list (Z * Z)) x : StronglySorted (fun a b => a.1 <= b.1) l -> (forall e, e ∈ l -> e.1 <= x.1) ->
  StronglySorted (fun a b => a.1 <= b.1) (l ++ [x]).
Proof.
  induction 1 as [|e l Hl IH He]; intros Hx; cbn [app]; [by repeat constructor|]. constructor.
  - apply IH. intros y Hy. apply Hx. by apply list_elem_of_further.
  - apply Forall_app. split; [done|]. apply Forall_singleton. apply Hx, list_elem_of_here.
Qed.
Lemma elem_of_tail {A} (l : list A) x : x ∈ tail l -> x ∈ l.
Proof. destruct l; [done|]. by apply list_elem_of_further. Qed.
Lemma tracks_sample o h log kept now q horizon : tracks o h log kept -> is_u 64 now -> 0 <= horizon <= MAX_EXACT_HORIZON ->
  (forall t, last_now_micros h = Some t -> t <= now) -> half_range q ->
  exists h', add_sample now (enc o q) horizon h = (h', Ok (snapshot None h'))
    /\ tracks o h' (log ++ [(now, q)]) (kept_sample now horizon q kept) /\ last_now_micros h' = Some now.
Proof.
  intros Ht Hnow Hhz Hlast Hq. destruct (tracks_advance o h log kept now horizon Ht Hnow Hhz Hlast) as (h1 & E1 & [Hlog Hmin Hcb Hb Hs Hk Hsort Hcount] & Enow).
  unfold add_sample. unfold mbind at 1, M_bind at 1. rewrite E1, get_bind. rewrite Enow in Hmin. cbn [fmap option_fmap option_map] in Hmin.
  rewrite Hmin in *. cbn [default] in *. unfold id in *.
  destruct (buckets_add o log (now / MICROS_PER_MINUTE) (current_bucket h1) now q Hcb eq_refl Hq ltac:(intros; by apply Hlog)) as (bucket & Eb & Hw).
  unfold index. rewrite Hb, Eb. cbn [expect]. rewrite lift_ok_bind.
  assert ((if len (current_samples h1) =? CURRENT_DELAY_SAMPLE_LIMIT then tail (current_samples h1) else current_samples h1)
          ++ [mkSample now (enc o q)] = map (sample_of o) (kept_sample now horizon q kept)) as Esamples.
  { unfold kept_sample. rewrite Hs, map_app. cbn [map]. unfold len. rewrite length_map. destruct (_ =? CURRENT_DELAY_SAMPLE_LIMIT); [|done].
    by destruct (kept_at now horizon kept). }
  assert (exists h', h' = mkHistory (buckets_of o (log ++ [(now, q)]) (now / MICROS_PER_MINUTE) (current_bucket h1)) (current_bucket h1)
    (Some (now / MICROS_PER_MINUTE)) (map (sample_of o) (kept_sample now horizon q kept)) (Some now)) as (h' & Eh') by eauto.
  exists h'. split; [|split; [|by rewrite Eh']].
  - destruct (match bucket with Some base => wrapping_delay_less (enc o q) base | None => true end).
    + rewrite Hw. unfold mbind, M_bind, lift, modify, gets, set_buckets, set_samples. cbn -[len]. rewrite Esamples, Enow. by subst h'.
    + unfold mbind, M_bind, mret, M_ret, modify, gets, set_samples. cbn -[len]. rewrite Esamples, Hmin, Enow, Hb, <- Hw. by subst h'.
  - subst h'. split; cbn [last_now_micros current_minute current_bucket base_buckets current_samples default]; try done.
    + intros e [He| ->%list_elem_of_singleton]%elem_of_app; [|split; [done|]; by exists now].
      destruct (Hlog e He) as (? & t & Et & ?). split; [done|]. exists t. by rewrite <- Enow.
    + intros e [He| ->%list_elem_of_singleton]%elem_of_app.
      * assert (e ∈ kept_at now horizon kept) as He' by (case_match; [by apply elem_of_tail|done]). destruct (Hk e He') as [? ?].
        split; [|done]. apply elem_of_app. by left.
      * split; [apply elem_of_app; right; apply list_elem_of_here|]. unfold minute_of, BASE_DELAY_BUCKETS, id. cbn. lia.
    + clear Esamples. unfold kept_sample. apply sorted_snoc_times; [destruct (_ =? CURRENT_DELAY_SAMPLE_LIMIT); [|exact Hsort]|].
      * destruct (kept_at now horizon kept); [constructor|]. by apply StronglySorted_inv in Hsort as [? _].
      * intros e He. assert (e ∈ kept_at now horizon kept) as He' by (case_match; [by apply elem_of_tail|done]).
        destruct (Hk e He') as [Hin _]. destruct (Hlog e Hin) as (_ & t & Et & ?). rewrite Enow in Et. by injection Et as <-.
    + unfold kept_sample. unfold CURRENT_DELAY_SAMPLE_LIMIT in *. destruct (Z.eqb_spec (len (kept_at now horizon kept)) 32) as [E|E].
      * destruct (kept_at now horizon kept); [done|]. cbn [tail]. len_lia.
      * len_lia.
Qed.

Lemma run_tracks o h log kept : delay_run o h log kept -> tracks o h log kept.
Proof.
  induction 1 as [|h log kept now horizon _ IH Hnow Hhz Hlast|h log kept now q horizon _ IH Hnow Hhz Hlast Hq]; [apply new_tracks|..].
  - by destruct (tracks_advance o h log kept now horizon IH Hnow Hhz Hlast) as (h' & -> & ? & _).
  - by destruct (tracks_sample o h log kept now q horizon IH Hnow Hhz Hlast Hq) as (h' & -> & ? & _).
Qed.
Lemma elem_of_flatten (l : list (option Z)) x : x ∈ flatten l <-> Some x ∈ l.
Proof. unfold flatten. rewrite list_elem_of_omap. split; [intros (y & Hy & E)|by exists (Some x)]. cbv [id] in E. by subst y. Qed.
Lemma flatten_enc o (f : Z -> option Z) l : flatten (map (fun i => enc o <$> f i) l) = map (enc o) (flatten (map f l)).
Proof. induction l as [|i l IH]; [done|]. cbn. unfold flatten in *. destruct (f i); cbn; by rewrite IH. Qed.
Lemma window_min_Some log m b : window_min log m = Some b <->
  (exists e, e ∈ log /\ m - BASE_DELAY_BUCKETS < minute_of e /\ e.2 = b)
  /\ forall e, e ∈ log -> m - BASE_DELAY_BUCKETS < minute_of e -> b <= e.2.
Proof.
  unfold window_min. rewrite list_min_Some. split; intros [H1 H2].
  - apply list_elem_of_fmap in H1 as (e & -> & [? ?]%list_elem_of_filter). split; [by exists e|].
    intros x Hx Hm. apply H2, list_elem_of_fmap. exists x. split; [done|]. by apply list_elem_of_filter.
  - destruct H1 as (e & He & Hm & <-). split; [apply list_elem_of_fmap; exists e; split; [done|by apply list_elem_of_filter]|].
    intros x (y & -> & [? ?]%list_elem_of_filter)%list_elem_of_fmap. by apply H2.
Qed.
Lemma minute_min_Some log m b : minute_min log m = Some b ->
  (exists e, e ∈ log /\ minute_of e = m /\ e.2 = b) /\ forall e, e ∈ log -> minute_of e = m -> b <= e.2.
Proof.
  unfold minute_min. rewrite list_min_Some. intros [H1 H2]. apply list_elem_of_fmap in H1 as (e & -> & [? ?]%list_elem_of_filter).
  split; [by exists e|]. intros x Hx Hm. apply H2, list_elem_of_fmap. exists x. split; [done|]. by apply list_elem_of_filter.
Qed.
(** The ten buckets hold the least delays of the ten minutes. *)
Lemma buckets_window log m cb b : 0 <= cb < BASE_DELAY_BUCKETS -> (forall e, e ∈ log -> minute_of e <= m) -> window_min log m = Some b ->
  list_min (flatten (map (fun i => minute_min log (bucket_minute m cb i)) (seqZ 0 BASE_DELAY_BUCKETS))) = Some b.
Proof.
  intros Hcb Hlog [(e & He & Hm & <-) Hle]%window_min_Some. apply list_min_Some.
  assert (forall x i, 0 <= i < BASE_DELAY_BUCKETS -> minute_min log (bucket_minute m cb i) = Some x -> e.2 <= x) as Hlow.
  { intros x i Hi [(y & Hy & Em & <-) _]%minute_min_Some. apply Hle; [done|]. rewrite Em. unfold bucket_minute, BASE_DELAY_BUCKETS. divlia. }
  split.
  - pose proof (Hlog e He). assert (0 <= (cb - (m - minute_of e)) mod BASE_DELAY_BUCKETS < BASE_DELAY_BUCKETS) as Hi by (unfold BASE_DELAY_BUCKETS; divlia).
    assert (bucket_minute m cb ((cb - (m - minute_of e)) mod BASE_DELAY_BUCKETS) = minute_of e) as Ei by (unfold bucket_minute, BASE_DELAY_BUCKETS in *; divlia).
    destruct (minute_min log (minute_of e)) as [x|] eqn:Ex.
    + assert (x = e.2) as <-; [|by apply elem_of_flatten, list_elem_of_fmap; eexists; split; [by rewrite Ei|apply elem_of_seqZ; lia]].
      pose proof (proj2 (minute_min_Some _ _ _ Ex) e He eq_refl). rewrite <- Ei in Ex. pose proof (Hlow x _ Hi Ex). lia.
    + unfold minute_min in Ex. apply list_min_None, map_eq_nil in Ex. by destruct (filter_nil_not_elem_of _ _ e Ex eq_refl).
  - intros x (i & Ex & Hi)%elem_of_flatten%list_elem_of_fmap. apply elem_of_seqZ in Hi. apply (Hlow x i); [lia|done].
Qed.
Lemma tracks_snapshot o h log kept now b c rtt : tracks o h log kept -> last_now_micros h = Some now ->
  window_min log (now / MICROS_PER_MINUTE) = Some b -> list_min (map snd kept) = Some c ->
  half_range b /\ b <= c /\ base_delay_micros (snapshot rtt h) = Some (enc o b)
  /\ queue_delay_micros (snapshot rtt h) = Some (match rtt with Some rtt => Z.min (c - b) (Z.min rtt (umax 32)) | None => c - b end).
Proof.
  intros [Hlog Hmin Hcb Hb Hs Hk _ _] Enow Hw Hc. rewrite Enow in Hmin. cbn in Hmin. rewrite Hmin in *. cbn [default] in *. unfold id in *.
  assert (forall e, e ∈ log -> half_range e.2) as Hr by (intros; by apply Hlog).
  assert (forall e, e ∈ log -> minute_of e <= now / MICROS_PER_MINUTE) as Hm.
  { intros e He. destruct (Hlog e He) as (_ & t & [= <-]%(eq_trans (eq_sym Enow)) & Hle). unfold minute_of, MICROS_PER_MINUTE. divlia. }
  pose proof (proj1 (window_min_Some _ _ _) Hw) as [(e & He & _ & <-) Hle]. pose proof (proj1 (list_min_Some _ _) Hc) as [Hcin Hcle].
  apply list_elem_of_fmap in Hcin as (k & -> & Hkin). destruct (Hk k Hkin) as [Hklog Hkm]. split; [by apply Hr|]. split; [by apply Hle|].
  assert (wrapping_min (flatten (base_buckets h)) = Some (enc o e.2)) as Ebase.
  { rewrite Hb. unfold buckets_of. rewrite flatten_enc, wrapping_min_enc.
    - by rewrite (buckets_window _ _ _ _ Hcb Hm Hw).
    - apply Forall_forall. intros x (i & Ex & _)%elem_of_flatten%list_elem_of_fmap. symmetry in Ex.
      apply minute_min_Some in Ex as [(y & Hy & _ & <-) _]. by apply Hr. }
  assert (map (fun sample => wrapping_sub 32 (delay_micros sample) (enc o e.2)) (current_samples h) = map (fun q => q - e.2) (map snd kept)) as Esub.
  { rewrite Hs, !map_map. apply map_ext_in. intros x Hx%list_elem_of_In. destruct (Hk x Hx) as [Hxlog Hxm]. cbn [delay_micros sample_of].
    rewrite enc_sub by auto. apply Z.mod_small. pose proof (Hle x Hxlog Hxm). pose proof (Hr x Hxlog). pose proof (Hr e He). unfold half_range in *. lia. }
  assert (list_min (map (fun q => q - e.2) (map snd kept)) = Some (k.2 - e.2)) as Emin.
  { apply list_min_Some. split; [apply list_elem_of_fmap; exists k.2; split; [done|apply list_elem_of_fmap; eauto]|].
    intros x (y & -> & Hy)%list_elem_of_fmap. specialize (Hcle y Hy). lia. }
  unfold snapshot. cbv zeta. rewrite Ebase, Esub, Emin. done.
Qed.

(** * The controller *)
Record history_ok (h : DelayHistory) : Prop := {
  hk_buckets : len (base_buckets h) = BASE_DELAY_BUCKETS;
  hk_bucket : 0 <= current_bucket h < BASE_DELAY_BUCKETS;
  hk_samples : len (current_samples h) <= CURRENT_DELAY_SAMPLE_LIMIT;
}.
(** The least window: one segment after a timeout, else two. *)
Definition floor_packets (c : CongestionController) : Z := if timeout_collapsed c then 1 else MIN_CONGESTION_PACKETS.
Record congestion_ok (c : CongestionController) : Prop := {
  ck_segment : 1 <= maximum_segment_bytes c <= MAX_UTP_PAYLOAD_SIZE;
  ck_window : FIXED_POINT_ONE * (maximum_segment_bytes c * floor_packets c) <= congestion_window_fixed c
              <= FIXED_POINT_ONE * MAX_CONGESTION_WINDOW_BYTES;
  ck_startup : slow_start_exit_delay_micros c = Some STARTUP_EXIT_DELAY_MICROS
               /\ slow_start_exit_window_percent c = Some STARTUP_EXIT_WINDOW_PERCENT;
  ck_threshold t : slow_start_threshold_bytes c = Some t -> 0 <= t <= MAX_CONGESTION_WINDOW_BYTES;
  ck_history : history_ok (delay c);
}.

Inductive CongestionOp :=
| OpSegment (mss : Z)
| OpAdvance (now : Z) (rtt : option Z)
| OpAck (now acknowledged flight one_way_delay : Z) (rtt : option Z) (limited : bool)
| OpLoss (now : Z) (rtt : option Z) (isolated_mtu_probe : bool)
| OpTimeout (now : Z) (rtt : option Z).
Definition run_congestion (op : CongestionOp) : method unit :=
  match op with
  | OpSegment mss => update_maximum_segment_size mss
  | OpAdvance now rtt => advance_time now rtt
  | OpAck now acknowledged flight delay rtt limited => on_ack now acknowledged flight delay rtt limited;; mret tt
  | OpLoss now rtt isolated => on_loss now rtt isolated;; mret tt
  | OpTimeout now rtt => congestion_on_timeout now rtt
  end.
Definition rtt_typed (rtt : option Z) : Prop := match rtt with Some x => is_u 64 x | None => True end.
Definition congestion_op_typed (op : CongestionOp) : Prop :=
  match op with
  | OpSegment mss => is_u 64 mss
  | OpAdvance now rtt | OpLoss now rtt _ | OpTimeout now rtt => is_u 64 now /\ rtt_typed rtt
  | OpAck now acknowledged flight delay rtt _ => is_u 64 now /\ is_u 64 acknowledged /\ is_u 64 flight /\ is_u 32 delay /\ rtt_typed rtt
  end.
Inductive congestion_reachable : CongestionController -> Prop :=
| congestion_new mss c : is_u 64 mss -> CongestionController_new mss = Ok c -> congestion_reachable c
| congestion_op c op : congestion_reachable c -> congestion_op_typed op -> congestion_reachable (fst (run_congestion op c)).

(** ** Fixed point *)
Lemma fixed_one : FIXED_POINT_ONE = 65536.
Proof. done. Qed.
Lemma max_window : MAX_CONGESTION_WINDOW_BYTES = 1048576.
Proof. done. Qed.
Lemma max_segment : MAX_UTP_PAYLOAD_SIZE = 65515.
Proof. done. Qed.
Lemma saturate_fits x : - 2 ^ 127 <= x <= 2 ^ 127 - 1 -> saturate_i128 x = x.
Proof. unfold saturate_i128. lia. Qed.
Lemma bytes_to_fixed_exact b : 0 <= b < 2 ^ 65 -> bytes_to_fixed b = b * 65536.
Proof.
  intros Hb. unfold bytes_to_fixed, i128_saturating_mul. rewrite fixed_one. apply saturate_fits.
  change (2 ^ 65) with 36893488147419103232 in Hb. change (2 ^ 127) with 170141183460469231731687303715884105728. lia.
Qed.
Lemma fixed_to_bytes_exact w : 0 <= w <= FIXED_POINT_ONE * MAX_CONGESTION_WINDOW_BYTES -> fixed_to_bytes w = w / 65536.
Proof.
  intros Hw. rewrite fixed_one, max_window in Hw. unfold fixed_to_bytes, FIXED_POINT_SHIFT. rewrite Z.max_l, Z.shiftr_div_pow2, max_window by lia.
  change (2 ^ 16) with 65536. rewrite Z.min_l; [done|]. divlia.
Qed.
Lemma saturate_between x : (0 <= x -> 0 <= saturate_i128 x <= x) /\ (x <= 0 -> x <= saturate_i128 x <= 0).
Proof. unfold saturate_i128. pose proof (pow2_pos 127 ltac:(lia)). lia. Qed.
Lemma quot_between a b : 0 < b -> (0 <= a -> 0 <= Z.quot a b <= a /\ Z.quot a b * b <= a) /\ (a <= 0 -> a <= Z.quot a b <= 0).
Proof.
  intros Hb. split; intros Ha.
  - rewrite Z.quot_div_nonneg by done. pose proof (Z.div_mod a b ltac:(lia)). pose proof (Z.mod_pos_bound a b Hb). nia.
  - assert (Z.quot a b = - ((- a) / b)) as ->.
    { rewrite <- (Z.opp_involutive a) at 1. rewrite Z.quot_opp_l, Z.quot_div_nonneg by lia. done. }
    pose proof (Z.div_mod (- a) b ltac:(lia)). pose proof (Z.mod_pos_bound (- a) b Hb). nia.
Qed.
(** The gain has the sign of the distance to the target, and below it is at
    most [acknowledged * mss / window] bytes. *)
Lemma ledbat_gain_bounds d acked mss W : 0 <= d -> 0 <= acked -> 0 <= mss -> 1 <= W ->
  (d <= TARGET_DELAY_MICROS -> 0 <= ledbat_gain d acked mss W /\ ledbat_gain d acked mss W * W <= acked * mss * 65536)
  /\ (TARGET_DELAY_MICROS <= d -> ledbat_gain d acked mss W <= 0).
Proof.
  intros Hd Ha Hm HW. unfold ledbat_gain, i128_saturating_mul. rewrite fixed_one, (Z.max_l W 1) by lia. set (T := TARGET_DELAY_MICROS).
  assert (0 < T) as HT by done.
  destruct (saturate_between ((T - d) * acked)) as [P1 N1]. destruct (saturate_between (saturate_i128 ((T - d) * acked) * mss)) as [P2 N2].
  destruct (saturate_between (saturate_i128 (saturate_i128 ((T - d) * acked) * mss) * 65536)) as [P3 N3].
  set (x1 := saturate_i128 ((T - d) * acked)) in *. set (x2 := saturate_i128 (x1 * mss)) in *. set (x3 := saturate_i128 (x2 * 65536)) in *.
  destruct (quot_between x3 T HT) as [P4 N4]. destruct (quot_between (Z.quot x3 T) W ltac:(lia)) as [P5 N5].
  split; intros H.
  - assert (0 <= x1 <= T * acked) as H1 by nia. assert (0 <= x2 <= T * acked * mss) as H2 by nia. assert (0 <= x3 <= T * (acked * mss * 65536)) as H3 by nia.
    destruct (P4 (proj1 H3)) as [H4 H4']. destruct (P5 (proj1 H4)) as [H5 H5']. split; [lia|]. nia.
  - assert (x1 <= 0) as H1 by nia. assert (x2 <= 0) as H2 by nia. assert (x3 <= 0) as H3 by lia. lia.
Qed.

(** ** The history under any samples *)
Lemma len_write_slot {A E} (l l' : list A) i v : write_slot (E := E) l i v = Ok l' -> len l' = len l.
Proof. unfold write_slot. destruct (_ && _); [|done]. intros [= <-]. apply len_insert. Qed.
Lemma rotate_returns n : forall buckets bucket, len buckets = BASE_DELAY_BUCKETS -> 0 <= bucket < BASE_DELAY_BUCKETS ->
  exists buckets' bucket', rotate n buckets bucket = Ok (buckets', bucket') /\ len buckets' = BASE_DELAY_BUCKETS /\ 0 <= bucket' < BASE_DELAY_BUCKETS.
Proof.
  induction n as [|n IH]; intros buckets bucket Hl Hb; cbn [rotate]; [by exists buckets, bucket|].
  assert (0 <= (bucket + 1) mod BASE_DELAY_BUCKETS < BASE_DELAY_BUCKETS) as Hb' by (unfold BASE_DELAY_BUCKETS; divlia).
  unfold write_slot at 1. rewrite Hl, (proj2 (Z.leb_le _ _)), (proj2 (Z.ltb_lt _ _)) by apply Hb'. cbn [andb]. rewrite ok_bind.
  apply IH; [by rewrite len_insert|done].
Qed.
Lemma drop_expired_len now horizon l : len (drop_expired now horizon l) <= len l.
Proof. induction l as [|s l IH]; [done|]. cbn [drop_expired]. case_match; [rewrite len_cons; lia|done]. Qed.
Lemma advance_returns now horizon h : history_ok h ->
  wp (delay_advance_time now horizon) h (fun _ h' => history_ok h' /\ last_now_micros h' = Some now)
     (fun _ h' => h' = h /\ exists t, last_now_micros h = Some t /\ now < t).
Proof.
  intros [Hl Hb Hs]. unfold delay_advance_time. do 2 wp_step. apply wp_bind.
  assert (forall (m : dmethod unit), wp m h (fun _ h' => len (base_buckets h') = BASE_DELAY_BUCKETS /\ 0 <= current_bucket h' < BASE_DELAY_BUCKETS
      /\ current_samples h' = current_samples h) (fun _ _ => False) ->
    wp (m;; modify (fun h => set_samples (drop_expired now horizon (current_samples h)) h);; modify (set_last_now (Some now))) h
       (fun _ h' => history_ok h' /\ last_now_micros h' = Some now) (fun _ h' => h' = h /\ exists t, last_now_micros h = Some t /\ now < t)) as Hrest.
  { intros m Hm. apply wp_bind. eapply wp_mono; [exact Hm| |done]. intros [] h' (Hl' & Hb' & Hs'). repeat wp_step. split; [|done].
    split; try assumption. cbn. rewrite Hs'. pose proof (drop_expired_len now horizon (current_samples h)). lia. }
  assert (wp (match current_minute h with
    | None => modify (fun h => set_buckets (base_buckets h) (current_bucket h) (Some (now / MICROS_PER_MINUTE)) h)
    | Some previous_minute =>
      if previous_minute <? now / MICROS_PER_MINUTE then
        if BASE_DELAY_BUCKETS <=? now / MICROS_PER_MINUTE - previous_minute
        then modify (fun h => set_buckets (map (fun _ => None) (base_buckets h)) 0 (Some (now / MICROS_PER_MINUTE)) h)
        else
          rotated ← lift (rotate (Z.to_nat (now / MICROS_PER_MINUTE - previous_minute)) (base_buckets h) (current_bucket h));
          modify (set_buckets (fst rotated) (snd rotated) (Some (now / MICROS_PER_MINUTE)))
      else mret tt
    end) h (fun _ h' => len (base_buckets h') = BASE_DELAY_BUCKETS /\ 0 <= current_bucket h' < BASE_DELAY_BUCKETS
      /\ current_samples h' = current_samples h) (fun _ _ => False)) as Hmid.
  { destruct (current_minute h) as [m|]; [|by wp_step]. wp_step; [|by wp_step]. wp_step.
    - wp_step. cbn. unfold len. rewrite length_map. split; [exact Hl|]. split; [unfold BASE_DELAY_BUCKETS; lia|done].
    - destruct (rotate_returns (Z.to_nat (now / MICROS_PER_MINUTE - m)) _ _ Hl Hb) as (bs & b & -> & ? & ?). by repeat wp_step. }
  destruct (last_now_micros h) as [t|] eqn:Et; [wp_step; [wp_step; split; [done|]; exists t; split; [done|]; by apply Z.ltb_lt|]|]; wp_step; exact (Hrest _ Hmid).
Qed.
Lemma sample_returns now delay horizon h : history_ok h ->
  wp (add_sample now delay horizon) h (fun _ h' => history_ok h' /\ last_now_micros h' = Some now)
     (fun _ h' => h' = h /\ exists t, last_now_micros h = Some t /\ now < t).
Proof.
  intros H. unfold add_sample. wp_step. wp_call (advance_returns now horizon h H); [|done]. intros [] h1 ([Hl Hb Hs] & Enow). do 2 wp_step.
  unfold index. destruct (nth_get_is_Some (base_buckets h1) (current_bucket h1) ltac:(rewrite Hl; exact Hb)) as [bucket ->]. cbn [expect]. wp_step. wp_step.
  assert (forall h2, len (base_buckets h2) = BASE_DELAY_BUCKETS -> current_bucket h2 = current_bucket h1 -> current_samples h2 = current_samples h1 ->
    last_now_micros h2 = Some now ->
    history_ok (set_samples ((if len (current_samples h2) =? CURRENT_DELAY_SAMPLE_LIMIT then tail (current_samples h2) else current_samples h2)
                  ++ [mkSample now delay]) h2)) as Hend.
  { intros h2 E1 E2 E3 E4. split; cbn; [done|by rewrite E2|]. rewrite E3. unfold CURRENT_DELAY_SAMPLE_LIMIT in *.
    destruct (Z.eqb_spec (len (current_samples h1)) 32) as [E|E]; [|len_lia]. destruct (current_samples h1); [done|]. cbn [tail]. len_lia. }
  destruct (match bucket with Some base => wrapping_delay_less delay base | None => true end).
  - wp_step. unfold write_slot. rewrite Hl, (proj2 (Z.leb_le _ _)), (proj2 (Z.ltb_lt _ _)) by apply Hb. cbn [andb]. repeat wp_step.
    split; [|done]. apply Hend; try done. cbn. by rewrite len_insert.
  - repeat wp_step. split; [|done]. by apply Hend.
Qed.

(** ** One acknowledgement, after its sample was recorded *)
Definition after_ack (d acked flight : Z) (limited : bool) (c : CongestionController) : CongestionController :=
  let previous := congestion_window_bytes c in
  let c := startup_exit d previous c in
  let gain := ledbat_gain d acked (maximum_segment_bytes c) previous in
  let '(c, gain, used) := slow_start_gain acked previous gain limited c in
  let gain := if (0 <? gain) && negb limited then 0 else gain in
  let candidate := i128_saturating_add (congestion_window_fixed c) gain in
  let candidate :=
    if (0 <? gain) && negb used
    then Z.min candidate (Z.max (bytes_to_fixed (saturating_add USIZE flight (maximum_segment_bytes c))) (congestion_window_fixed c))
    else candidate in
  let c := set_collapsed false c in
  set_window (Z.min (Z.max candidate (ordinary_floor c)) (bytes_to_fixed MAX_CONGESTION_WINDOW_BYTES)) c.
Lemma on_ack_eq now acked flight one_way rtt limited c :
  on_ack now acked flight one_way rtt limited c =
  match add_sample now one_way (horizon_of rtt) (delay c) with
  | (h, Ok _) =>
    let d := default 0 (queue_delay_micros (snapshot rtt h)) in
    let c' := after_ack d acked flight limited (set_delay h c) in
    (c', Ok (mkAckOutcome (congestion_window_bytes c) (congestion_window_bytes c') d
               (signed_delta (congestion_window_bytes c') (congestion_window_bytes c))))
  | (h, Err e) => (set_delay h c, Err e)
  | (h, Panic) => (set_delay h c, Panic)
  | (h, NoFuel) => (set_delay h c, NoFuel)
  end.
Proof.
  unfold on_ack. unfold mbind at 1, M_bind at 1. unfold on_delay. destruct (add_sample _ _ _ _) as [h [o|e| |]]; try done.
  rewrite get_bind. cbv zeta. set (d := default 0 _).
  unfold mbind, M_bind, modify, get, put, mret, M_ret, after_ack. cbv zeta.
  change (congestion_window_bytes (set_delay h c)) with (congestion_window_bytes c).
  destruct (slow_start_gain _ _ _ _ _) as [[c2 gain] used]. reflexivity.
Qed.
Lemma list_min_nonneg l m : Forall (fun x => 0 <= x) l -> list_min l = Some m -> 0 <= m.
Proof. intros Hl [Hin _]%list_min_Some. by eapply Forall_forall in Hl. Qed.
Lemma queue_delay_nonneg rtt h : rtt_typed rtt -> 0 <= default 0 (queue_delay_micros (snapshot rtt h)).
Proof.
  intros Hr. unfold snapshot. cbn [queue_delay_micros]. destruct (wrapping_min _) as [b|]; cbn [default]; [|lia].
  destruct (list_min _) as [m|] eqn:E; cbn [default]; [|lia].
  assert (0 <= m).
  { apply (list_min_nonneg _ _) in E; [done|]. apply Forall_forall. intros x (y & -> & _)%list_elem_of_fmap.
    unfold wrapping_sub. apply Z.mod_pos_bound. done. }
  unfold id. destruct rtt as [r|]; [|done]. unfold rtt_typed, is_u, umax in *. pose proof (pow2_pos 32 ltac:(lia)). lia.
Qed.
Lemma ordinary_floor_exact c : 1 <= maximum_segment_bytes c <= MAX_UTP_PAYLOAD_SIZE -> ordinary_floor c = 2 * maximum_segment_bytes c * 65536.
Proof.
  intros H. rewrite max_segment in H. unfold ordinary_floor, saturating_mul, MIN_CONGESTION_PACKETS, umax, USIZE.
  change (2 ^ 64) with 18446744073709551616. rewrite Z.min_l by lia. rewrite bytes_to_fixed_exact; [lia|]. change (2 ^ 65) with 36893488147419103232. lia.
Qed.
Lemma max_fixed : bytes_to_fixed MAX_CONGESTION_WINDOW_BYTES = 1048576 * 65536.
Proof. rewrite bytes_to_fixed_exact; [done|]. rewrite max_window. change (2 ^ 65) with 36893488147419103232. lia. Qed.
(** The range of the window, in plain numbers. *)
Lemma window_range c : congestion_ok c ->
  1 <= maximum_segment_bytes c <= 65515 /\ 65536 * (maximum_segment_bytes c * floor_packets c) <= congestion_window_fixed c <= 68719476736
  /\ 1 <= floor_packets c <= 2 /\ congestion_window_bytes c = congestion_window_fixed c / 65536
  /\ maximum_segment_bytes c * floor_packets c <= congestion_window_bytes c <= 1048576.
Proof.
  intros [Hs Hw _ _ _]. rewrite max_segment in Hs. rewrite fixed_one, max_window in Hw. change (65536 * 1048576) with 68719476736 in Hw.
  assert (1 <= floor_packets c <= 2) as Hf by (unfold floor_packets, MIN_CONGESTION_PACKETS; destruct (timeout_collapsed c); lia).
  split; [done|]. split; [done|]. split; [done|]. unfold congestion_window_bytes.
  assert (0 <= maximum_segment_bytes c * floor_packets c) by nia.
  rewrite fixed_to_bytes_exact by (rewrite fixed_one, max_window; lia). split; [done|]. set (F := maximum_segment_bytes c * floor_packets c) in *. divlia.
Qed.
Lemma startup_exit_ok d previous c : 1 <= maximum_segment_bytes c <= MAX_UTP_PAYLOAD_SIZE -> 0 <= previous <= MAX_CONGESTION_WINDOW_BYTES ->
  slow_start_exit_delay_micros c = Some STARTUP_EXIT_DELAY_MICROS -> slow_start_exit_window_percent c = Some STARTUP_EXIT_WINDOW_PERCENT ->
  startup_exit d previous c =
  if slow_start_active c && (STARTUP_EXIT_DELAY_MICROS <=? d)
  then set_window (Z.max (previous * 30 / 100) (2 * maximum_segment_bytes c) * 65536)
         (set_slow_start false (Some (previous / 2)) (slow_start_acknowledgements c) (saturating_add 64 (slow_start_exits c) 1) c)
  else c.
Proof.
  intros Hs Hp Ed Ep. unfold startup_exit. rewrite Ed. destruct (slow_start_active c && _) eqn:E; [|done].
  apply andb_true_iff in E as [Ea _]. unfold exit_slow_start. rewrite Ea. cbn [negb slow_start_exit_window_percent set_slow_start maximum_segment_bytes].
  rewrite Ep. f_equal. rewrite max_segment in Hs. rewrite max_window in Hp.
  unfold saturating_mul, MIN_CONGESTION_PACKETS, STARTUP_EXIT_WINDOW_PERCENT, umax, USIZE. change (2 ^ 64) with 18446744073709551616.
  rewrite !Z.min_l by lia. rewrite bytes_to_fixed_exact; [lia|]. change (2 ^ 65) with 36893488147419103232. split; [lia|].
  assert (previous * 30 / 100 <= 1048576) by divlia. lia.
Qed.

(** The last step of an acknowledgement: the candidate within the bounds. *)
Record settled (c : CongestionController) : Prop := {
  se_segment : 1 <= maximum_segment_bytes c <= MAX_UTP_PAYLOAD_SIZE;
  se_startup : slow_start_exit_delay_micros c = Some STARTUP_EXIT_DELAY_MICROS
               /\ slow_start_exit_window_percent c = Some STARTUP_EXIT_WINDOW_PERCENT;
  se_threshold t : slow_start_threshold_bytes c = Some t -> 0 <= t <= MAX_CONGESTION_WINDOW_BYTES;
  se_history : history_ok (delay c);
}.
Lemma congestion_settled c : congestion_ok c -> settled c.
Proof. intros [? ? ? ? ?]. by split. Qed.
Definition finish_ack (x : Z) (c : CongestionController) : CongestionController :=
  set_window (Z.min (Z.max x (ordinary_floor (set_collapsed false c))) (bytes_to_fixed MAX_CONGESTION_WINDOW_BYTES)) (set_collapsed false c).
Lemma finish_ack_ok x c : settled c -> congestion_ok (finish_ack x c)
  /\ congestion_window_bytes (finish_ack x c) = Z.min (Z.max (x / 65536) (2 * maximum_segment_bytes c)) 1048576.
Proof.
  intros [Hs Hst Ht Hh]. unfold finish_ack. rewrite ordinary_floor_exact by done. rewrite max_fixed. cbn [maximum_segment_bytes set_collapsed set_events].
  pose proof Hs as Hs'. rewrite max_segment in Hs'. split.
  - split; try assumption. cbn [congestion_window_fixed set_window maximum_segment_bytes set_collapsed set_events].
    unfold floor_packets. cbn [timeout_collapsed set_window set_collapsed set_events]. rewrite fixed_one, max_window. unfold MIN_CONGESTION_PACKETS. lia.
  - unfold congestion_window_bytes. cbn [congestion_window_fixed set_window]. rewrite fixed_to_bytes_exact by (rewrite fixed_one, max_window; lia).
    set (m := maximum_segment_bytes c) in *. divlia.
Qed.
(** The candidate when slow start is not used. *)
Definition linear_candidate (gain flight : Z) (limited : bool) (c : CongestionController) : Z :=
  let gain := if (0 <? gain) && negb limited then 0 else gain in
  let candidate := i128_saturating_add (congestion_window_fixed c) gain in
  if (0 <? gain) && true
  then Z.min candidate (Z.max (bytes_to_fixed (saturating_add USIZE flight (maximum_segment_bytes c))) (congestion_window_fixed c))
  else candidate.
Lemma linear_candidate_bounds gain flight limited c : 0 <= congestion_window_fixed c <= 2 ^ 80 -> is_u 64 flight ->
  1 <= maximum_segment_bytes c <= MAX_UTP_PAYLOAD_SIZE ->
  let w := congestion_window_fixed c in let x := linear_candidate gain flight limited c in
  (gain <= 0 \/ limited = false -> x <= w)
  /\ (0 <= gain -> limited = true -> w <= x <= Z.max w ((flight + maximum_segment_bytes c) * 65536) /\ x <= w + gain).
Proof.
  intros Hw Hf Hs w x. rewrite max_segment in Hs. subst x. unfold linear_candidate, i128_saturating_add. fold w. fold w in Hw.
  change (2 ^ 80) with 1208925819614629174706176 in Hw. unfold is_u in Hf. change (2 ^ 64) with 18446744073709551616 in Hf.
  assert (forall g, g <= 0 -> saturate_i128 (w + g) <= w) as Hneg.
  { intros g Hg. unfold saturate_i128. change (2 ^ 127) with 170141183460469231731687303715884105728. lia. }
  assert (forall g, 0 <= g -> w <= saturate_i128 (w + g) <= w + g) as Hpos.
  { intros g Hg. unfold saturate_i128. change (2 ^ 127) with 170141183460469231731687303715884105728. lia. }
  assert (bytes_to_fixed (saturating_add USIZE flight (maximum_segment_bytes c)) <= (flight + maximum_segment_bytes c) * 65536) as Hfl.
  { unfold saturating_add, umax, USIZE. change (2 ^ 64) with 18446744073709551616. rewrite bytes_to_fixed_exact; [lia|].
    change (2 ^ 65) with 36893488147419103232. lia. }
  split.
  - intros [Hg|Hl]; [rewrite (proj2 (Z.ltb_ge 0 gain) Hg); cbn [andb]; rewrite (proj2 (Z.ltb_ge 0 gain) Hg); by apply Hneg|].
    subst limited. rewrite andb_true_r. destruct (Z.ltb_spec 0 gain) as [Hg|Hg]; cbn [andb Z.ltb Z.compare]; [by apply Hneg|].
    rewrite (proj2 (Z.ltb_ge 0 gain) Hg). by apply Hneg.
  - intros Hg ->. cbn [negb]. rewrite andb_false_r. specialize (Hpos gain Hg). destruct (Z.ltb_spec 0 gain); cbn [andb]; lia.
Qed.

(** What an acknowledgement does to the window: [W] and [W'] are its bytes
    before and after, [m] the segment size. *)
Record ack_response (d acked flight : Z) (limited : bool) (c c' : CongestionController) : Prop := {
  ar_ok : congestion_ok c';
  ar_floor : timeout_collapsed c' = false;
  ar_segment : maximum_segment_bytes c' = maximum_segment_bytes c;
  ar_above : TARGET_DELAY_MICROS <= d \/ limited = false ->
    congestion_window_bytes c' <= Z.max (congestion_window_bytes c) (2 * maximum_segment_bytes c);
  ar_below : slow_start_active c = false -> d <= TARGET_DELAY_MICROS -> limited = true ->
    congestion_window_bytes c <= congestion_window_bytes c'
    /\ congestion_window_bytes c' <= Z.max (2 * maximum_segment_bytes c) (Z.max (congestion_window_bytes c) (flight + maximum_segment_bytes c))
    /\ (2 * maximum_segment_bytes c < congestion_window_bytes c' ->
        (congestion_window_bytes c' - congestion_window_bytes c - 1) * congestion_window_bytes c <= acked * maximum_segment_bytes c);
  ar_slow_start : slow_start_active c = true -> d < STARTUP_EXIT_DELAY_MICROS -> limited = true ->
    (forall t, slow_start_threshold_bytes c = Some t -> congestion_window_bytes c + acked <= t) ->
    slow_start_active c' = true
    /\ congestion_window_bytes c' = Z.min (Z.max (congestion_window_bytes c + acked) (2 * maximum_segment_bytes c)) MAX_CONGESTION_WINDOW_BYTES;
  ar_exit : slow_start_active c = true -> STARTUP_EXIT_DELAY_MICROS <= d ->
    slow_start_active c' = false /\ slow_start_threshold_bytes c' = Some (congestion_window_bytes c / 2)
    /\ congestion_window_bytes c' <= Z.max (congestion_window_bytes c * 30 / 100)
         (Z.max (2 * maximum_segment_bytes c) (if limited then flight + maximum_segment_bytes c else 0));
}.
Lemma after_ack_exit d acked flight limited c : congestion_ok c -> 0 <= d -> is_u 64 acked -> is_u 64 flight ->
  slow_start_active c = true -> STARTUP_EXIT_DELAY_MICROS <= d -> ack_response d acked flight limited c (after_ack d acked flight limited c).
Proof.
  intros H Hd Hacked Hflight Ha Hexit. destruct (window_range c H) as (Hm & Hw & Hp & EW & HW). pose proof H as [Hs _ [Ed Ep] Ht Hh].
  set (W := congestion_window_bytes c) in *.
  set (c1 := set_window (Z.max (W * 30 / 100) (2 * maximum_segment_bytes c) * 65536)
         (set_slow_start false (Some (W / 2)) (slow_start_acknowledgements c) (saturating_add 64 (slow_start_exits c) 1) c)).
  set (gain := ledbat_gain d acked (maximum_segment_bytes c) W).
  assert (after_ack d acked flight limited c = finish_ack (linear_candidate gain flight limited c1) c1) as E.
  { unfold after_ack. fold W. rewrite (startup_exit_ok d W c Hs) by (rewrite ?max_window; done || lia). rewrite Ha, (proj2 (Z.leb_le _ _) Hexit). reflexivity. }
  assert (0 <= W * 30 / 100 <= W) as H30 by divlia.
  assert (settled c1) as Hc1.
  { split; [exact Hs|by split| |exact Hh]. intros t [= <-]. rewrite max_window. divlia. }
  rewrite E. destruct (finish_ack_ok (linear_candidate gain flight limited c1) c1 Hc1) as [Hok HW'].
  change (maximum_segment_bytes c1) with (maximum_segment_bytes c) in HW'.
  assert (0 <= congestion_window_fixed c1 <= 2 ^ 80) as Hw1.
  { change (2 ^ 80) with 1208925819614629174706176. unfold c1. cbn [congestion_window_fixed set_window]. lia. }
  destruct (linear_candidate_bounds gain flight limited c1 Hw1 Hflight Hs) as [Hneg Hpos].
  change (maximum_segment_bytes c1) with (maximum_segment_bytes c) in Hpos. set (x := linear_candidate gain flight limited c1) in *.
  assert (congestion_window_fixed c1 = Z.max (W * 30 / 100) (2 * maximum_segment_bytes c) * 65536) as Ew1 by reflexivity.
  rewrite Ew1 in Hneg, Hpos. set (m := maximum_segment_bytes c) in *.
  assert (1 <= W) as HW1 by nia.
  destruct (ledbat_gain_bounds d acked m W Hd (proj1 Hacked) ltac:(lia) HW1) as [Gpos Gneg]. fold gain in Gpos, Gneg.
  split; try done; fold W; fold m.
  - intros Hab. rewrite HW'. assert (x <= Z.max (W * 30 / 100) (2 * m) * 65536) by (apply Hneg; destruct Hab as [Hab|Hab]; [left; by apply Gneg|by right]).
    assert (x / 65536 <= Z.max (W * 30 / 100) (2 * m)) by (apply Z.div_le_upper_bound; lia). lia.
  - congruence.
  - intros _ Hlt. lia.
  - intros _ _. split; [done|]. split; [done|]. rewrite HW'.
    destruct (Z.le_gt_cases d TARGET_DELAY_MICROS) as [Hlo|Hhi]; destruct limited; cbv iota.
    + destruct (Hpos (proj1 (Gpos Hlo)) eq_refl) as [[_ Hx] _]. assert (x / 65536 <= Z.max (Z.max (W * 30 / 100) (2 * m)) (flight + m)) by (apply Z.div_le_upper_bound; lia). lia.
    + assert (x <= Z.max (W * 30 / 100) (2 * m) * 65536) by (apply Hneg; by right). assert (x / 65536 <= Z.max (W * 30 / 100) (2 * m)) by (apply Z.div_le_upper_bound; lia). lia.
    + assert (x <= Z.max (W * 30 / 100) (2 * m) * 65536) by (apply Hneg; left; apply Gneg; lia). assert (x / 65536 <= Z.max (W * 30 / 100) (2 * m)) by (apply Z.div_le_upper_bound; lia). unfold is_u in Hflight. lia.
    + assert (x <= Z.max (W * 30 / 100) (2 * m) * 65536) by (apply Hneg; by right). assert (x / 65536 <= Z.max (W * 30 / 100) (2 * m)) by (apply Z.div_le_upper_bound; lia). lia.
Qed.
(** Without slow start the window follows the delay: [c2] is [c] up to its
    slow-start fields. *)
Lemma linear_response d acked flight limited c c2 : congestion_ok c -> settled c2 -> 0 <= d -> is_u 64 acked -> is_u 64 flight ->
  congestion_window_fixed c2 = congestion_window_fixed c -> maximum_segment_bytes c2 = maximum_segment_bytes c ->
  ~ (slow_start_active c = true /\ STARTUP_EXIT_DELAY_MICROS <= d) ->
  ~ (slow_start_active c = true /\ limited = true /\ forall t, slow_start_threshold_bytes c = Some t -> congestion_window_bytes c + acked <= t) ->
  ack_response d acked flight limited c
    (finish_ack (linear_candidate (ledbat_gain d acked (maximum_segment_bytes c) (congestion_window_bytes c)) flight limited c2) c2).
Proof.
  intros H Hc2 Hd Hacked Hflight Ew Em Hnoexit Hnoslow. destruct (window_range c H) as (Hm & Hw & Hp & EW & HW).
  set (W := congestion_window_bytes c) in *. set (m := maximum_segment_bytes c) in *. set (w := congestion_window_fixed c) in *.
  set (gain := ledbat_gain d acked m W).
  destruct (finish_ack_ok (linear_candidate gain flight limited c2) c2 Hc2) as [Hok HW']. rewrite Em in HW'.
  destruct (linear_candidate_bounds gain flight limited c2) as [Hneg Hpos];
    [rewrite Ew; change (2 ^ 80) with 1208925819614629174706176; nia|done|by apply Hc2|]. rewrite Ew in Hneg. rewrite Ew, Em in Hpos.
  set (x := linear_candidate gain flight limited c2) in *. assert (1 <= W) as HW1 by nia.
  destruct (ledbat_gain_bounds d acked m W Hd (proj1 Hacked) ltac:(lia) HW1) as [Gpos Gneg]. fold gain in Gpos, Gneg.
  split; try done; fold W; fold m; try rewrite HW'.
  - intros Hab. assert (x <= w) by (apply Hneg; destruct Hab as [Hab|Hab]; [left; by apply Gneg|by right]).
    assert (x / 65536 <= W) by (rewrite EW; apply Z.div_le_mono; lia). lia.
  - intros Ha Hlo ->. destruct (Gpos Hlo) as [G0 GW]. destruct (Hpos G0 eq_refl) as [[Hx1 Hx2] Hx3].
    assert (W <= x / 65536) by (rewrite EW; apply Z.div_le_mono; lia).
    assert (x / 65536 <= Z.max W (flight + m)).
    { assert (x / 65536 <= Z.max (w / 65536) (flight + m)); [|lia]. apply Z.lt_succ_r, Z.div_lt_upper_bound; [lia|].
      pose proof (Z.div_mod w 65536 ltac:(lia)). pose proof (Z.mod_pos_bound w 65536 ltac:(lia)). lia. }
    split; [lia|]. split; [lia|]. intros Hlarge.
    assert (65536 * (x / 65536 - W - 1) <= gain).
    { pose proof (Z.div_mod w 65536 ltac:(lia)). pose proof (Z.mod_pos_bound w 65536 ltac:(lia)).
      pose proof (Z.div_mod x 65536 ltac:(lia)). pose proof (Z.mod_pos_bound x 65536 ltac:(lia)). lia. }
    set (k := x / 65536) in *. assert (65536 * (k - W - 1) * W <= gain * W) as Hk by (apply Z.mul_le_mono_nonneg_r; lia).
    assert ((k - W - 1) * W <= acked * m) by lia. assert (Z.min (Z.max k (2 * m)) 1048576 <= k) by lia.
    etransitivity; [apply (Z.mul_le_mono_nonneg_r _ (k - W - 1)); lia|done].
  - intros Ha Hlt Hl Hthr. destruct Hnoslow. done.
  - intros Ha Hexit. by destruct Hnoexit.
Qed.
Lemma slow_start_response d acked flight c c2 : congestion_ok c -> settled c2 -> 0 <= d -> is_u 64 acked -> is_u 64 flight ->
  congestion_window_fixed c2 = congestion_window_fixed c -> maximum_segment_bytes c2 = maximum_segment_bytes c ->
  slow_start_active c = true -> slow_start_active c2 = true -> d < STARTUP_EXIT_DELAY_MICROS ->
  ack_response d acked flight true c
    (finish_ack (i128_saturating_add (congestion_window_fixed c2)
       (Z.max (ledbat_gain d acked (maximum_segment_bytes c) (congestion_window_bytes c)) (bytes_to_fixed acked))) c2).
Proof.
  intros H Hc2 Hd Hacked Hflight Ew Em Ha Ha2 Hlt. destruct (window_range c H) as (Hm & Hw & Hp & EW & HW). rewrite Ew.
  set (W := congestion_window_bytes c) in *. set (m := maximum_segment_bytes c) in *. set (w := congestion_window_fixed c) in *.
  assert (1 <= W) as HW1 by nia. destruct (ledbat_gain_bounds d acked m W Hd (proj1 Hacked) ltac:(lia) HW1) as [Gpos _].
  assert (d <= TARGET_DELAY_MICROS) as Hlo by (unfold TARGET_DELAY_MICROS, STARTUP_EXIT_DELAY_MICROS in *; lia).
  destruct (Gpos Hlo) as [G0 GW]. unfold is_u in Hacked. change (2 ^ 64) with 18446744073709551616 in Hacked.
  rewrite bytes_to_fixed_exact by (change (2 ^ 65) with 36893488147419103232; lia).
  assert (m <= W) as HmW by nia.
  assert (ledbat_gain d acked m W <= acked * 65536) as Gle.
  { assert (ledbat_gain d acked m W * W <= (acked * 65536) * W) as Hmul; [|by apply Z.mul_le_mono_pos_r in Hmul; lia].
    etransitivity; [exact GW|]. nia. }
  rewrite Z.max_r by lia. unfold i128_saturating_add.
  rewrite saturate_fits by (change (2 ^ 127) with 170141183460469231731687303715884105728; nia).
  destruct (finish_ack_ok (w + acked * 65536) c2 Hc2) as [Hok HW']. rewrite Em in HW'. rewrite Z.div_add in HW' by lia. rewrite <- EW in HW'.
  split; try done; fold W; fold m; try rewrite HW'.
  - intros [Hab|[=]]. unfold TARGET_DELAY_MICROS, STARTUP_EXIT_DELAY_MICROS in *. lia.
  - congruence.
  - intros _ Hge. lia.
Qed.
Lemma after_ack_response d acked flight limited c : congestion_ok c -> 0 <= d -> is_u 64 acked -> is_u 64 flight ->
  ack_response d acked flight limited c (after_ack d acked flight limited c).
Proof.
  intros H Hd Hacked Hflight. destruct (window_range c H) as (Hm & Hw & Hp & EW & HW). pose proof H as [Hs _ [Ed Ep] Ht Hh].
  destruct (slow_start_active c && (STARTUP_EXIT_DELAY_MICROS <=? d)) eqn:Eexit.
  { apply andb_true_iff in Eexit as [? ?%Z.leb_le]. by apply after_ack_exit. }
  assert (~ (slow_start_active c = true /\ STARTUP_EXIT_DELAY_MICROS <= d)) as Hnoexit.
  { intros [E1 E2%Z.leb_le]. by rewrite E1, E2 in Eexit. }
  unfold after_ack. rewrite (startup_exit_ok d _ c Hs) by (rewrite ?max_window; done || nia). rewrite Eexit. unfold slow_start_gain.
  destruct (slow_start_active c && limited) eqn:Eslow.
  - apply andb_true_iff in Eslow as [Ha ->].
    destruct (match slow_start_threshold_bytes c with Some threshold => threshold <? _ | None => false end) eqn:Ethr.
    + apply (linear_response d acked flight true c (exit_slow_start (slow_start_threshold_bytes c) c)); try done.
      * unfold exit_slow_start. rewrite Ha. by split.
      * unfold exit_slow_start. by rewrite Ha.
      * unfold exit_slow_start. by rewrite Ha.
      * intros (_ & _ & Hall). destruct (slow_start_threshold_bytes c) as [t|]; [|done]. apply Z.ltb_lt in Ethr. specialize (Hall t eq_refl).
        unfold saturating_add in Ethr. lia.
    + assert (d < STARTUP_EXIT_DELAY_MICROS) by (apply Z.nle_gt; intros E2; by apply Hnoexit).
      set (c2 := set_slow_start _ _ _ _ c). rewrite andb_false_r. rewrite andb_false_r. by apply (slow_start_response d acked flight c c2).
  - apply (linear_response d acked flight limited c c); try done.
    intros (E1 & -> & _). by rewrite E1 in Eslow.
Qed.

(** ** Every call *)
Lemma new_congestion_ok mss c : is_u 64 mss -> CongestionController_new mss = Ok c -> congestion_ok c.
Proof.
  intros Hm. unfold CongestionController_new, with_startup, validate_mss. destruct (_ || _) eqn:E; [done|]. rewrite ok_bind. intros [= <-].
  apply orb_false_elim in E as [E1%Z.eqb_neq E2%Z.ltb_ge]. unfold is_u in Hm. rewrite max_segment in E2.
  split; try done; cbn [maximum_segment_bytes congestion_window_fixed].
  - rewrite max_segment. lia.
  - unfold floor_packets. cbn [timeout_collapsed]. rewrite fixed_one, max_window. unfold saturating_mul, MIN_CONGESTION_PACKETS, INITIAL_CONGESTION_PACKETS, umax, USIZE.
    change (2 ^ 64) with 18446744073709551616. rewrite Z.min_l by lia.
    rewrite bytes_to_fixed_exact by (change (2 ^ 65) with 36893488147419103232; lia). lia.
Qed.
Lemma set_delay_ok h c : congestion_ok c -> history_ok h -> congestion_ok (set_delay h c).
Proof. intros [? ? ? ? ?] ?. by split. Qed.
Lemma set_delay_same c : set_delay (delay c) c = c.
Proof. by destruct c. Qed.
Lemma advance_time_ok now rtt c : congestion_ok c ->
  wp (advance_time now rtt) c (fun _ c' => exists h, c' = set_delay h c /\ history_ok h /\ last_now_micros h = Some now)
     (fun _ c' => c' = c /\ exists t, last_now_micros (delay c) = Some t /\ now < t).
Proof.
  intros H. pose proof (advance_returns now (horizon_of rtt) (delay c) (ck_history c H)) as Hw. unfold wp, advance_time, on_delay in *.
  destruct (delay_advance_time _ _ _) as [h [[]|e| |]]; [|destruct Hw as [-> ?]; by rewrite set_delay_same|done..].
  exists h. by destruct Hw.
Qed.
Lemma update_segment_ok mss c : congestion_ok c -> is_u 64 mss -> wp (update_maximum_segment_size mss) c (fun _ c' => congestion_ok c') (fun _ c' => c' = c).
Proof.
  intros [Hs Hw Hst Ht Hh] Hm. unfold update_maximum_segment_size, validate_mss. wp_step. destruct (_ || _) eqn:E; [done|]. repeat wp_step.
  apply orb_false_elim in E as [E1%Z.eqb_neq E2%Z.ltb_ge]. unfold is_u in Hm. rewrite max_segment in E2.
  split; try assumption; cbn [maximum_segment_bytes congestion_window_fixed set_window set_segment timeout_collapsed]; [rewrite max_segment; lia|].
  change (floor_packets (set_window _ _)) with (floor_packets c). change (if timeout_collapsed c then 1 else MIN_CONGESTION_PACKETS) with (floor_packets c).
  rewrite max_fixed, fixed_one, max_window. rewrite fixed_one, max_window in Hw. assert (1 <= floor_packets c <= 2) as Hf by (unfold floor_packets, MIN_CONGESTION_PACKETS; destruct (timeout_collapsed c); lia).
  unfold saturating_mul, umax, USIZE. change (2 ^ 64) with 18446744073709551616.
  set (F := mss * floor_packets c). assert (0 <= F <= 131030) by (unfold F; nia). rewrite (Z.min_l F) by lia.
  rewrite bytes_to_fixed_exact by (change (2 ^ 65) with 36893488147419103232; lia). lia.
Qed.
Lemma on_loss_ok now rtt isolated c : congestion_ok c ->
  wp (on_loss now rtt isolated) c
     (fun reduced c' => congestion_ok c' /\
        if reduced then congestion_window_bytes c' = Z.max (congestion_window_bytes c / 2) (2 * maximum_segment_bytes c)
        else congestion_window_bytes c' = congestion_window_bytes c)
     (fun _ c' => c' = c).
Proof.
  intros H. destruct (window_range c H) as (Hm & Hw & Hp & EW & HW). pose proof H as [Hs _ Hst Ht _].
  unfold on_loss. wp_step. wp_call (advance_time_ok now rtt c H); [|by intros e c' [-> _]].
  intros [] c1 (h & -> & Hh & _). repeat wp_step; [split; [by destruct (set_delay_ok h c H Hh)|done]|].
  rewrite (ordinary_floor_exact (set_delay h c)) by done. cbn [congestion_window_fixed maximum_segment_bytes set_delay].
  rewrite Z.quot_div_nonneg by nia.
  set (m := maximum_segment_bytes c) in *. set (w := congestion_window_fixed c) in *.
  set (c2 := set_events _ _ _ _ _ _).
  assert (congestion_ok c2) as H2.
  { split; try assumption. unfold c2, floor_packets. cbn [maximum_segment_bytes congestion_window_fixed set_window set_events timeout_collapsed set_delay].
    fold m. rewrite fixed_one, max_window. unfold MIN_CONGESTION_PACKETS. divlia. }
  assert (congestion_window_bytes c2 = Z.max (congestion_window_bytes c / 2) (2 * m)) as Hb.
  { destruct (window_range c2 H2) as (_ & _ & _ & -> & _). rewrite EW. unfold c2. cbn [congestion_window_fixed set_window set_events].
    rewrite (Z.div_div w) by lia. divlia. }
  rewrite <- Hb. split.
  - destruct (slow_start_active c2) eqn:Ea; [|done]. unfold exit_slow_start. rewrite Ea. cbn [negb]. destruct H2 as [? ? ? ? ?].
    split; try assumption. intros t [= <-]. rewrite Hb, max_window. divlia.
  - destruct (slow_start_active c2) eqn:Ea; [|done]. unfold exit_slow_start. by rewrite Ea.
Qed.
Lemma congestion_timeout_ok now rtt c : congestion_ok c ->
  wp (congestion_on_timeout now rtt) c
     (fun _ c' => congestion_ok c' /\ congestion_window_bytes c' = maximum_segment_bytes c /\ slow_start_active c' = true) (fun _ c' => c' = c).
Proof.
  intros H. pose proof H as [Hs Hw Hst Ht _]. unfold congestion_on_timeout. wp_step.
  wp_call (advance_time_ok now rtt c H); [|by intros e c' [-> _]]. intros [] c1 (h & -> & Hh & _). do 7 wp_step.
  set (c2 := set_events _ _ _ _ _ _). pose proof Hs as Hs'. rewrite max_segment in Hs'.
  assert (congestion_ok c2) as H2.
  { split; try assumption. unfold c2, floor_packets. cbn [maximum_segment_bytes congestion_window_fixed set_window set_events timeout_collapsed set_delay].
    rewrite fixed_one, max_window, bytes_to_fixed_exact by (change (2 ^ 65) with 36893488147419103232; lia). lia. }
  assert (slow_start_exit_delay_micros c2 = Some STARTUP_EXIT_DELAY_MICROS) as -> by apply Hst. cbn [bool_decide].
  rewrite bool_decide_eq_true_2 by done. destruct (window_range c2 H2) as (_ & _ & _ & Eb & _).
  destruct H2 as [? ? ? ? ?]. split; [by split|]. split; [|done].
  change (congestion_window_bytes (set_slow_start _ _ _ _ c2)) with (congestion_window_bytes c2). rewrite Eb. unfold c2.
  cbn [congestion_window_fixed set_window set_events maximum_segment_bytes set_delay].
  rewrite bytes_to_fixed_exact by (change (2 ^ 65) with 36893488147419103232; lia). by rewrite Z.div_mul.
Qed.
Lemma on_ack_ok now acked flight one_way rtt limited c : congestion_ok c -> is_u 64 acked -> is_u 64 flight -> rtt_typed rtt ->
  wp (on_ack now acked flight one_way rtt limited) c
     (fun o c' => ack_response (ack_queue_delay_micros o) acked flight limited c c'
        /\ 0 <= ack_queue_delay_micros o
        /\ o = mkAckOutcome (congestion_window_bytes c) (congestion_window_bytes c') (ack_queue_delay_micros o)
                 (congestion_window_bytes c' - congestion_window_bytes c))
     (fun e c' => c' = c /\ exists t, last_now_micros (delay c) = Some t /\ now < t).
Proof.
  intros H Ha Hf Hr. unfold wp. rewrite on_ack_eq. pose proof (sample_returns now one_way (horizon_of rtt) (delay c) (ck_history c H)) as Hw. unfold wp in Hw.
  destruct (add_sample _ _ _ _) as [h [o|e| |]]; [|destruct Hw as [-> ?]; by rewrite set_delay_same|done..]. destruct Hw as [Hh _].
  cbv zeta. cbn [ack_queue_delay_micros]. set (d := default 0 _). assert (0 <= d) as Hd by (by apply queue_delay_nonneg).
  pose proof (after_ack_response d acked flight limited (set_delay h c) (set_delay_ok h c H Hh) Hd Ha Hf) as Hresp.
  split; [by destruct Hresp|]. split; [done|]. f_equal.
  destruct (window_range _ (ar_ok _ _ _ _ _ _ Hresp)) as (Hm' & _ & Hp' & _ & HW'). destruct (window_range c H) as (Hm & _ & Hp & _ & HW).
  set (c' := after_ack d acked flight limited (set_delay h c)) in *.
  assert (0 <= congestion_window_bytes c' <= 1048576) by nia. assert (0 <= congestion_window_bytes c <= 1048576) by nia.
  unfold signed_delta, saturating_sub. change (2 ^ 63 - 1) with 9223372036854775807.
  destruct (Z.leb_spec (congestion_window_bytes c) (congestion_window_bytes c')); lia.
Qed.
Lemma run_congestion_ok op c : congestion_ok c -> congestion_op_typed op -> wp (run_congestion op) c (fun _ c' => congestion_ok c') (fun _ c' => c' = c).
Proof.
  intros H Hop. destruct op as [mss|now rtt|now acked flight one_way rtt limited|now rtt isolated|now rtt]; cbn [run_congestion].
  - by apply update_segment_ok.
  - wp_call (advance_time_ok now rtt c H); [|by intros e c' [-> _]]. intros [] c' (h & -> & ? & _). by apply set_delay_ok.
  - destruct Hop as (? & ? & ? & ? & ?). wp_step. wp_call (on_ack_ok now acked flight one_way rtt limited c H); try done; [|by intros e c' [-> _]].
    intros o c' (Hr & _). wp_step. by destruct Hr.
  - wp_step. wp_call (on_loss_ok now rtt isolated c H); [|done]. intros b c' [? _]. by wp_step.
  - wp_call (congestion_timeout_ok now rtt c H); [|done]. by intros [] c' [? _].
Qed.
Lemma reachable_congestion c : congestion_reachable c -> congestion_ok c.
Proof.
  induction 1 as [mss c Hm E|c op _ IH Hop]; [by eapply new_congestion_ok|].
  pose proof (run_congestion_ok op c IH Hop) as Hw. unfold wp in Hw. by destruct (run_congestion op c) as [c' [[]|e| |]]; cbn; try done; subst c'.
Qed.

(** ** Pacing

    [paced p0 W r sends p]: payloads sent, each when the pacer was ready, with
    the window [W] and the round trip [r]. *)
Inductive paced (W r : Z) : list (Z * Z) -> Pacer -> Prop :=
| paced_none p : 0 <= next_send_micros p -> paced W r [] p
| paced_send sends p now bytes : paced W r sends p -> is_ready now p = true -> 0 <= bytes -> 0 <= now ->
    Z.max (next_send_micros p) now + div_ceil (bytes * r) (Z.max W 1) <= umax 64 -> bytes * r <= umax 128 ->
    paced W r ((now, bytes) :: sends) (fst (on_payload_emitted now bytes W (Some r) p)).
Definition first_time (sends : list (Z * Z)) (d : Z) : Z := match last sends with Some s => s.1 | None => d end.
(** Between the first payload and the moment the next may be sent, no more
    than [W] bytes per round trip are sent. *)
Theorem paced_rate W r sends p : 1 <= W -> 0 <= r -> paced W r sends p -> sends <> [] ->
  foldr (fun s n => s.2 + n) 0 sends * r <= W * (next_send_micros p - first_time sends 0).
Proof.
  intros HW Hr. induction 1 as [|sends p now bytes Hp IH Hready Hb Hn Hfit Hfit']; [done|]. intros _.
  assert (next_send_micros (fst (on_payload_emitted now bytes W (Some r) p)) = now + div_ceil (bytes * r) W) as ->.
  { unfold is_ready in Hready. apply Z.leb_le in Hready. unfold on_payload_emitted, saturating_add, saturating_mul. cbn [fst next_send_micros].
    rewrite (Z.max_l W 1) in * by lia. rewrite (Z.max_r (next_send_micros p)) in * by lia. rewrite (Z.min_l (bytes * r)) by lia.
    rewrite (Z.min_l (div_ceil _ _)) by lia. lia. }
  pose proof (div_ceil_spec (bytes * r) W ltac:(lia)) as [_ Hceil]. unfold is_ready in Hready. apply Z.leb_le in Hready. cbn [foldr].
  destruct sends as [|s sends]; [cbn; nia|]. specialize (IH ltac:(done)).
  assert (first_time ((now, bytes) :: s :: sends) 0 = first_time (s :: sends) 0) as -> by (unfold first_time; by rewrite last_cons_cons).
  set (t := first_time (s :: sends) 0) in *. cbn [snd]. nia.
Qed.

(** * Properties *)

(** C21: A packet's queueing delay is measured exactly.  Whatever the offset
    [o] between the two clocks, over any run of samples and of time, the base
    delay is the least delay of the last ten minutes, as the wire shows it,
    and the queueing delay is how much the least current sample exceeds it,
    capped by the round trip; the wrap of the 32-bit timestamps does not
    matter.  The samples of the run queue for less than 2^31 microseconds, and
    the horizon is below the ten minutes the history covers. *)
Theorem queue_delay_exact o h log kept now q horizon rtt : delay_run o h log kept ->
  is_u 64 now -> 0 <= horizon <= MAX_EXACT_HORIZON -> (forall t, last_now_micros h = Some t -> t <= now) -> half_range q ->
  exists h' b c, add_sample now (enc o q) horizon h = (h', Ok (snapshot None h'))
    /\ window_min (log ++ [(now, q)]) (now / MICROS_PER_MINUTE) = Some b
    /\ list_min (map snd (kept_sample now horizon q kept)) = Some c
    /\ 0 <= b <= c
    /\ base_delay_micros (snapshot rtt h') = Some (enc o b)
    /\ queue_delay_micros (snapshot rtt h') = Some (match rtt with Some rtt => Z.min (c - b) (Z.min rtt (umax 32)) | None => c - b end).
Proof.
  intros Hrun Hnow Hhz Hlast Hq. destruct (tracks_sample o h log kept now q horizon (run_tracks _ _ _ _ Hrun) Hnow Hhz Hlast Hq) as (h' & E & Ht & Enow).
  destruct (window_min (log ++ [(now, q)]) (now / MICROS_PER_MINUTE)) as [b|] eqn:Eb.
  2:{ unfold window_min in Eb. apply list_min_None, map_eq_nil in Eb.
      exfalso. apply (filter_nil_not_elem_of _ _ (now, q)) in Eb; [apply Eb, elem_of_app; right; apply list_elem_of_here|].
      unfold minute_of, BASE_DELAY_BUCKETS. cbn. lia. }
  destruct (list_min (map snd (kept_sample now horizon q kept))) as [c|] eqn:Ec.
  2:{ apply list_min_None in Ec. unfold kept_sample in Ec. rewrite map_app in Ec. by apply app_eq_nil in Ec as [_ ?]. }
  destruct (tracks_snapshot o h' _ _ now b c rtt Ht Enow Eb Ec) as (Hb & Hbc & Hbase & Hqueue).
  exists h', b, c. unfold half_range in Hb. split_and!; try done; lia.
Qed.

(** Under any sequence of calls the window stays between its floor (one
    segment after a timeout, else two) and [MAX_CONGESTION_WINDOW_BYTES],
    every call returns, and one that fails (a segment size out of range,
    time running backwards) changes nothing.  A loss outside the guard time
    halves the window down to the floor, a timeout leaves one segment and
    restarts slow start. *)
Theorem congestion_invariant c op : congestion_reachable c -> congestion_op_typed op ->
  1 <= maximum_segment_bytes c <= MAX_UTP_PAYLOAD_SIZE
  /\ maximum_segment_bytes c * (if timeout_collapsed c then 1 else MIN_CONGESTION_PACKETS) <= congestion_window_bytes c <= MAX_CONGESTION_WINDOW_BYTES
  /\ returns (snd (run_congestion op c))
  /\ (forall e, snd (run_congestion op c) = Err e -> fst (run_congestion op c) = c)
  /\ (forall now rtt isolated c', op = OpLoss now rtt isolated -> on_loss now rtt isolated c = (c', Ok true) ->
      congestion_window_bytes c' = Z.max (congestion_window_bytes c / 2) (2 * maximum_segment_bytes c))
  /\ (forall now rtt c', op = OpTimeout now rtt -> congestion_on_timeout now rtt c = (c', Ok tt) ->
      congestion_window_bytes c' = maximum_segment_bytes c /\ slow_start_active c' = true).
Proof.
  intros Hr Hop. pose proof (reachable_congestion c Hr) as H. destruct (window_range c H) as (Hm & _ & _ & _ & HW).
  split; [rewrite max_segment; lia|]. split; [exact HW|]. pose proof (run_congestion_ok op c H Hop) as Hw. unfold wp in Hw.
  split; [by destruct (run_congestion op c) as [c' [[]|e| |]]|]. split; [by destruct (run_congestion op c) as [c' [[]|e| |]]|]. clear Hw. split.
  - intros now rtt isolated c' _ E. pose proof (on_loss_ok now rtt isolated c H) as Hw. unfold wp in Hw. rewrite E in Hw. apply Hw.
  - intros now rtt c' _ E. pose proof (congestion_timeout_ok now rtt c H) as Hw. unfold wp in Hw. rewrite E in Hw. split; apply Hw.
Qed.

(** The window follows the measured delay [d].  Above the target delay,
    or when the connection does not use its window, an acknowledgement never
    enlarges it; below, outside slow start, it never shrinks it, and enlarges
    it by at most a segment per window acknowledged and not past what was in
    flight plus a segment.  In slow start it grows by the bytes acknowledged,
    until the delay reaches [STARTUP_EXIT_DELAY_MICROS]: then slow start ends
    and at most 30% of the window, or what is in flight, is kept. *)
Theorem window_response c now acked flight one_way rtt limited : congestion_reachable c ->
  congestion_op_typed (OpAck now acked flight one_way rtt limited) ->
  match on_ack now acked flight one_way rtt limited c with
  | (c', Ok o) =>
    let W := congestion_window_bytes c in let W' := congestion_window_bytes c' in
    let m := maximum_segment_bytes c in let d := ack_queue_delay_micros o in
    previous_window_bytes o = W /\ ack_congestion_window_bytes o = W' /\ window_delta_bytes o = W' - W
    /\ 2 * m <= W' <= MAX_CONGESTION_WINDOW_BYTES
    /\ (TARGET_DELAY_MICROS <= d \/ limited = false -> W' <= Z.max W (2 * m))
    /\ (slow_start_active c = false -> d <= TARGET_DELAY_MICROS -> limited = true ->
        W <= W' /\ W' <= Z.max (2 * m) (Z.max W (flight + m)) /\ (2 * m < W' -> (W' - W - 1) * W <= acked * m))
    /\ (slow_start_active c = true -> d < STARTUP_EXIT_DELAY_MICROS -> limited = true ->
        (forall t, slow_start_threshold_bytes c = Some t -> W + acked <= t) ->
        slow_start_active c' = true /\ W' = Z.min (Z.max (W + acked) (2 * m)) MAX_CONGESTION_WINDOW_BYTES)
    /\ (slow_start_active c = true -> STARTUP_EXIT_DELAY_MICROS <= d ->
        slow_start_active c' = false /\ slow_start_threshold_bytes c' = Some (W / 2)
        /\ W' <= Z.max (W * 30 / 100) (Z.max (2 * m) (if limited then flight + m else 0)))
  | (c', Err _) => c' = c /\ exists t, last_now_micros (delay c) = Some t /\ now < t
  | _ => False
  end.
Proof.
  intros Hr (Hnow & Hacked & Hflight & _ & Hrtt). pose proof (reachable_congestion c Hr) as H.
  pose proof (on_ack_ok now acked flight one_way rtt limited c H Hacked Hflight Hrtt) as Hw. unfold wp in Hw.
  destruct (on_ack _ _ _ _ _ _ c) as [c' [o|e| |]]; try done. destruct Hw as ([Hok Hfloor Hseg H1 H2 H3 H4] & _ & Eo). cbv zeta.
  destruct (window_range c' Hok) as (_ & _ & _ & _ & HW'). unfold floor_packets, MIN_CONGESTION_PACKETS in HW'. rewrite Hfloor, Hseg in HW'.
  split; [by rewrite Eo|]. split; [by rewrite Eo|]. split; [by rewrite Eo|]. rewrite max_window in *. split; [lia|]. by split_and!.
Qed.

(** * Witnesses *)

(** The clocks differ by almost 2^32: the first sample has wrapped. *)
Definition sample_history : DelayHistory := fst (add_sample 0 (enc 4294967290 7) 1000000 DelayHistory_new).
Lemma sample_history_run : delay_run 4294967290 sample_history [(0, 7)] [(0, 7)].
Proof.
  apply (delay_sampled 4294967290 DelayHistory_new [] [] 0 7 1000000); [apply delay_start|by vm_compute|unfold MAX_EXACT_HORIZON, MICROS_PER_MINUTE; lia|done|by vm_compute].
Qed.
Lemma queue_delay_exact_witness : exists h', fst (add_sample 1000 (enc 4294967290 27) 10 sample_history) = h'
  /\ queue_delay_micros (snapshot (Some 50000) h') = Some 20.
Proof.
  destruct (queue_delay_exact 4294967290 sample_history [(0, 7)] [(0, 7)] 1000 27 10 (Some 50000)) as (h' & b & c & E & Eb & Ec & _ & _ & Eq);
    [exact sample_history_run|by vm_compute|unfold MAX_EXACT_HORIZON, MICROS_PER_MINUTE; lia|intros t [= <-]; lia|by vm_compute|].
  exists h'. rewrite E. split; [reflexivity|]. rewrite Eq.
  assert (b = 7) as -> by (vm_compute in Eb; congruence). assert (c = 27) as -> by (vm_compute in Ec; congruence). reflexivity.
Defined.
Definition sample_controller : CongestionController :=
  match CongestionController_new 1000 with Ok c => c | _ => mkController 0 0 None None false None 0 0 DelayHistory_new 0 0 0 false 0 end.
Lemma sample_controller_reachable : congestion_reachable sample_controller.
Proof. apply (congestion_new 1000); [by vm_compute|]. vm_compute. exact eq_refl. Qed.
Lemma congestion_invariant_witness : congestion_window_bytes (fst (congestion_on_timeout 5 None sample_controller)) = 1000.
Proof.
  destruct (congestion_invariant sample_controller (OpTimeout 5 None)) as (_ & _ & _ & _ & _ & H);
    [exact sample_controller_reachable|by vm_compute|].
  destruct (H 5 None (fst (congestion_on_timeout 5 None sample_controller)) eq_refl) as [Hw _]; [vm_compute; exact eq_refl|]. rewrite Hw. vm_compute. exact eq_refl.
Defined.
Lemma window_response_witness : congestion_window_bytes (fst (on_ack 0 1000 2000 10000 (Some 500000) true sample_controller)) = 3000.
Proof.
  pose proof (window_response sample_controller 0 1000 2000 10000 (Some 500000) true sample_controller_reachable) as H.
  assert (congestion_op_typed (OpAck 0 1000 2000 10000 (Some 500000) true)) as Ht by (vm_compute; split_and!; congruence). specialize (H Ht).
  destruct (on_ack 0 1000 2000 10000 (Some 500000) true sample_controller) as [c' r] eqn:E. cbn [fst].
  assert (r = Ok (mkAckOutcome 2000 3000 0 1000)) as -> by (change r with (snd (c', r)); rewrite <- E; vm_compute; exact eq_refl).
  destruct H as (_ & Hw & _). symmetry. exact Hw.
Defined.
