(* ===== verification/HeapOrder.v ===== *)
(** * HeapOrder: binary heaps in an array, up to one misplaced entry

    The heap is seen as a function from positions to entries; entry [i > 0]
    has its parent at [(i - 1) / 2].  The lemmas say what one exchange of a
    sifting loop does to the order, for any preorder of the entries. *)
From S2P Require Import Prelude.

Definition parent (i : Z) : Z := (i - 1) / 2.
(** The heap with the entries at [a] and [b] exchanged. *)
Definition exchanged (g : Z -> Z) (a b : Z) : Z -> Z :=
  fun i => if i =? a then g b else if i =? b then g a else g i.

Section order.
Context (le : Z -> Z -> Prop).
Context (le_trans : forall x y z, le x y -> le y z -> le x z).
Context (le_total : forall x y, ~ le x y -> le y x).
Implicit Types (g : Z -> Z) (n i j lo : Z).

Definition pair_ok g i : Prop := le (g (parent i)) (g i).
Definition heap_ordered n g : Prop := forall i, 0 < i < n -> pair_ok g i.
(** The children of [j] are no less than its parent. *)
Definition grands_ok lo n g j : Prop :=
  forall i, 0 < i < n -> parent i = j -> 0 < j -> lo <= parent j -> le (g (parent j)) (g i).
(** Ordered but for the pairs [j] belongs to. *)
Definition ordered_but n g j : Prop :=
  (forall i, 0 < i < n -> i <> j -> parent i <> j -> pair_ok g i) /\ grands_ok 0 n g j.
(** From position [lo] on, ordered but for the children of [j]. *)
Definition ordered_above lo n g j : Prop :=
  (forall i, 0 < i < n -> lo <= parent i -> parent i <> j -> pair_ok g i) /\ grands_ok lo n g j.
Definition children_ok n g j : Prop := forall i, 0 < i < n -> parent i = j -> pair_ok g i.
Definition ordered_from lo n g : Prop := forall i, 0 < i < n -> lo <= parent i -> pair_ok g i.

Lemma parent_bounds i : 0 < i -> 0 <= parent i < i.
Proof. unfold parent. divlia. Qed.
Lemma parent_nonneg i : 0 < i -> 0 <= parent i.
Proof. unfold parent. divlia. Qed.
Lemma children_of i j : 0 < i -> parent i = j <-> i = 2 * j + 1 \/ i = 2 * j + 2.
Proof. unfold parent. divlia. Qed.
Lemma exchanged_l g a b : exchanged g a b a = g b.
Proof. unfold exchanged. by rewrite Z.eqb_refl. Qed.
Lemma exchanged_r g a b : exchanged g a b b = g a.
Proof. unfold exchanged. rewrite Z.eqb_refl. by destruct (Z.eqb_spec b a) as [->|]. Qed.
Lemma exchanged_ne g a b i : i <> a -> i <> b -> exchanged g a b i = g i.
Proof. unfold exchanged. intros. by rewrite (proj2 (Z.eqb_neq _ _)), (proj2 (Z.eqb_neq _ _)). Qed.

Lemma ordered_but_of n g j : (forall x, le x x) -> heap_ordered n g -> 0 <= j < n -> ordered_but n g j.
Proof.
  intros Hr H Hj. split; [intros i Hi _ _; by apply H|]. intros i Hi E Hj0 _.
  eapply le_trans; [apply (H j); lia|]. unfold pair_ok in H. rewrite <- E at 1. apply H. lia.
Qed.
(** A changed entry. *)
Lemma ordered_but_changed n g g' j : heap_ordered n g -> 0 <= j < n ->
  (forall i, 0 <= i < n -> i <> j -> g' i = g i) -> ordered_but n g' j.
Proof.
  intros H Hj E. split.
  - intros i Hi H1 H2. pose proof (parent_bounds i ltac:(lia)). unfold pair_ok. rewrite !E by (done || lia). by apply H.
  - intros i Hi Ei Hj0 _. pose proof (parent_bounds j Hj0). pose proof (parent_bounds i ltac:(lia)).
    rewrite !E by lia. eapply le_trans; [apply (H j); lia|]. unfold pair_ok in H. rewrite <- Ei at 1. apply H. lia.
Qed.
Lemma ordered_but_shorter n m g j : ordered_but n g j -> m <= n -> ordered_but m g j.
Proof. intros [H1 H2] Hm. split; [intros i Hi; apply H1; lia|intros i Hi; apply H2; lia]. Qed.

(** One step up. *)
Lemma up_step n g j : ordered_but n g j -> 0 < j < n -> ~ le (g (parent j)) (g j) ->
  ordered_but n (exchanged g j (parent j)) (parent j).
Proof.
  intros [H1 H2] Hj Hlt. pose proof (parent_bounds j ltac:(lia)) as Hp. set (p := parent j) in *.
  split.
  - intros i Hi Ei Ep. unfold pair_ok. pose proof (parent_bounds i ltac:(lia)) as Hpi.
    destruct (Z.eq_dec i j) as [->|Hij]; [done|]. rewrite (exchanged_ne _ _ _ i) by done.
    destruct (Z.eq_dec (parent i) j) as [E|E].
    + rewrite E, exchanged_l. unfold grands_ok in H2. apply H2; lia.
    + rewrite exchanged_ne by done. by apply H1.
  - intros i Hi Ei Hp0 _. pose proof (parent_bounds p Hp0) as Hpp.
    rewrite (exchanged_ne _ _ _ (parent p)) by lia.
    assert (le (g (parent p)) (g p)) as Hgp by (apply H1; lia).
    destruct (Z.eq_dec i j) as [->|Hij]; [by rewrite exchanged_l|].
    pose proof (parent_bounds i ltac:(lia)) as Hpi. rewrite exchanged_ne by lia.
    eapply le_trans; [exact Hgp|]. rewrite <- Ei. apply H1; lia.
Qed.
Lemma up_children n g j : ordered_but n g j -> children_ok n g j -> 0 < j < n -> ~ le (g (parent j)) (g j) ->
  children_ok n (exchanged g j (parent j)) (parent j).
Proof.
  intros [H1 H2] Hc Hj Hlt i Hi Ei. pose proof (parent_bounds j ltac:(lia)) as Hp. set (p := parent j) in *.
  unfold pair_ok. rewrite Ei, exchanged_r. destruct (Z.eq_dec i j) as [->|Hij].
  - rewrite exchanged_l. by apply le_total.
  - pose proof (parent_bounds i ltac:(lia)). rewrite exchanged_ne by lia. eapply le_trans; [by apply le_total|].
    rewrite <- Ei. apply H1; lia.
Qed.
Lemma up_stop n g j : ordered_but n g j -> j = 0 \/ le (g (parent j)) (g j) -> ordered_above 0 n g j.
Proof.
  intros [H1 H2] Hs. split; [|done]. intros i Hi _ Ei. destruct (Z.eq_dec i j) as [->|]; [|by apply H1].
  destruct Hs; [lia|done].
Qed.
Lemma above_children n g j : ordered_above 0 n g j -> children_ok n g j -> heap_ordered n g.
Proof.
  intros [H1 _] H2 i Hi. pose proof (parent_nonneg i ltac:(lia)).
  destruct (Z.eq_dec (parent i) j); [by apply H2|by apply H1].
Qed.

(** One step down, to the lesser child [c]. *)
Lemma down_step lo n g j c : ordered_above lo n g j -> 0 <= lo <= j -> 0 < c < n -> parent c = j ->
  (forall i, 0 < i < n -> parent i = j -> le (g c) (g i)) -> ~ le (g j) (g c) ->
  ordered_above lo n (exchanged g j c) c.
Proof.
  intros [H1 H2] Hlo Hc Ec Hmin Hlt. pose proof (parent_bounds c ltac:(lia)) as Hcj. rewrite Ec in Hcj.
  assert (le (g c) (g j)) as Hcj' by by apply le_total.
  split.
  - intros i Hi Hlow Ei. unfold pair_ok. pose proof (parent_bounds i ltac:(lia)) as Hpi.
    destruct (Z.eq_dec (parent i) j) as [E|E].
    + rewrite E, exchanged_l. destruct (Z.eq_dec i c) as [->|]; [by rewrite exchanged_r|].
      rewrite exchanged_ne by lia. by apply Hmin.
    + rewrite (exchanged_ne _ _ _ (parent i)) by done. destruct (Z.eq_dec i j) as [->|].
      * rewrite exchanged_l. eapply H2; lia.
      * rewrite exchanged_ne by congruence. by apply H1.
  - intros i Hi Ei Hc0 _. rewrite Ec, exchanged_l. pose proof (parent_bounds i ltac:(lia)) as Hpi.
    rewrite exchanged_ne by lia. rewrite <- Ei at 1. apply H1; lia.
Qed.
Lemma down_stop lo n g j : ordered_above lo n g j -> (forall i, 0 < i < n -> parent i = j -> le (g j) (g i)) ->
  ordered_from lo n g.
Proof.
  intros [H1 _] Hs i Hi Hlo. destruct (Z.eq_dec (parent i) j) as [E|]; [|by apply H1].
  unfold pair_ok. rewrite E. by apply Hs.
Qed.
Lemma ordered_from_0 n g : ordered_from 0 n g <-> heap_ordered n g.
Proof.
  split; intros H i Hi; [|intros _; by apply H]. apply H; [done|]. apply parent_nonneg. lia.
Qed.
(** Building bottom-up. *)
Lemma above_of_from lo n g : ordered_from (lo + 1) n g -> ordered_above lo n g lo.
Proof.
  intros H. split; [intros i Hi Hl Hne; apply H; lia|]. intros i Hi E Hj Hl.
  pose proof (parent_bounds lo Hj). lia.
Qed.
(** The predicates depend on the entries only. *)
#[export] Instance pair_ok_proper : Proper (pointwise_relation Z eq ==> eq ==> iff) pair_ok.
Proof. intros g g' E i _ <-. unfold pair_ok. by rewrite !E. Qed.
#[export] Instance heap_ordered_proper n : Proper (pointwise_relation Z eq ==> iff) (heap_ordered n).
Proof. intros g g' E. unfold heap_ordered. by setoid_rewrite E. Qed.
#[export] Instance ordered_but_proper n : Proper (pointwise_relation Z eq ==> eq ==> iff) (ordered_but n).
Proof. intros g g' E j _ <-. unfold ordered_but, grands_ok. setoid_rewrite E. done. Qed.
#[export] Instance ordered_above_proper lo n : Proper (pointwise_relation Z eq ==> eq ==> iff) (ordered_above lo n).
Proof. intros g g' E j _ <-. unfold ordered_above, grands_ok. setoid_rewrite E. done. Qed.
#[export] Instance children_ok_proper n : Proper (pointwise_relation Z eq ==> eq ==> iff) (children_ok n).
Proof. intros g g' E j _ <-. unfold children_ok. by setoid_rewrite E. Qed.
#[export] Instance ordered_from_proper lo n : Proper (pointwise_relation Z eq ==> iff) (ordered_from lo n).
Proof. intros g g' E. unfold ordered_from. by setoid_rewrite E. Qed.
(** The root is least. *)
Lemma root_least n g : (forall x, le x x) -> heap_ordered n g -> forall i, 0 <= i < n -> le (g 0) (g i).
Proof.
  intros Hr H i Hi. generalize (conj Hi Hi); intros [Hi0 Hi1]. revert Hi1. apply (Z_lt_induction (fun i => 0 <= i < n -> le (g 0) (g i))); [|lia].
  intros k IH Hk. destruct (Z.eq_dec k 0) as [->|]; [done|]. pose proof (parent_bounds k ltac:(lia)).
  eapply le_trans; [apply (IH (parent k)); lia|]. apply H. lia.
Qed.
End order.
