(* ===== verification/Ordered.v ===== *)
(** * Orders, sorting and ordered maps

    What the engine's schedulers share: comparators in the style of
    [Ord::cmp] and [Ordering::then_with], [sort_by], the iteration order of a
    [BTreeMap], and the number of entries of a map with some property.

    A [BTreeMap] is a [gmap] whose iteration is [btree_items], the entries in
    ascending order of the keys.  [sort_by] is a merge sort; the comparators
    of the engine end with a unique identifier, so that the sorted list is the
    same whatever algorithm produces it ([sort_by_unique]). *)
From stdpp Require Export sorting.
From S2P Require Import Prelude.
#[global] Open Scope Z_scope.

(** [Ordering::then_with]. *)
Definition then_with (c d : comparison) : comparison := match c with Eq => d | _ => c end.

(** ** Lawful comparators *)
Class LawfulCmp {A} (cmp : A -> A -> comparison) : Prop := {
  cmp_opp a b : cmp b a = CompOpp (cmp a b);
  cmp_trans a b c : cmp a b <> Gt -> cmp b c <> Gt -> cmp a c <> Gt;
}.

Arguments cmp_opp {A} cmp {_} a b.
Arguments cmp_trans {A} cmp {_} a b c.

Lemma then_with_eq c d : then_with c d = Eq <-> c = Eq /\ d = Eq.
Proof. destruct c; naive_solver. Qed.
Lemma then_with_opp c d : CompOpp (then_with c d) = then_with (CompOpp c) (CompOpp d).
Proof. by destruct c. Qed.

Section lawful.
Context {A : Type} (cmp : A -> A -> comparison) `{!LawfulCmp cmp}.
Implicit Types a b c : A.

Lemma cmp_total a b : cmp a b <> Gt \/ cmp b a <> Gt.
Proof. rewrite (cmp_opp cmp a b). destruct (cmp a b); cbn; [left|left|right]; done. Qed.
Lemma cmp_eq_sym a b : cmp a b = Eq -> cmp b a = Eq.
Proof. intros E. by rewrite (cmp_opp cmp), E. Qed.
Lemma cmp_lt_gt a b : cmp a b = Lt <-> cmp b a = Gt.
Proof. rewrite (cmp_opp cmp a b). by destruct (cmp a b). Qed.
Lemma cmp_le_lt_trans a b c : cmp a b <> Gt -> cmp b c = Lt -> cmp a c = Lt.
Proof.
  intros Hab Hbc. destruct (cmp a c) eqn:E; [exfalso|done|exfalso].
  - apply cmp_lt_gt in Hbc. apply (cmp_trans cmp c a b); [|done|done]. rewrite (cmp_eq_sym _ _ E). done.
  - apply (cmp_trans cmp a b c); [done| |done]. by rewrite Hbc.
Qed.
Lemma cmp_lt_le_trans a b c : cmp a b = Lt -> cmp b c <> Gt -> cmp a c = Lt.
Proof.
  intros Hab Hbc. destruct (cmp a c) eqn:E; [exfalso|done|exfalso].
  - apply cmp_lt_gt in Hab. apply (cmp_trans cmp b c a); [done| |done]. rewrite (cmp_eq_sym _ _ E). done.
  - apply (cmp_trans cmp a b c); [|done|done]. by rewrite Hab.
Qed.
Lemma cmp_eq_trans a b c : cmp a b = Eq -> cmp b c = Eq -> cmp a c = Eq.
Proof.
  intros Hab Hbc. destruct (cmp a c) eqn:E; [done|exfalso|exfalso].
  - apply cmp_lt_gt in E. apply (cmp_trans cmp c b a); [| |done];
      rewrite cmp_eq_sym; done.
  - apply (cmp_trans cmp a b c); [| |done]; congruence.
Qed.
End lawful.

#[export] Instance lawful_Z : LawfulCmp Z.compare.
Proof.
  split; [intros; apply Z.compare_antisym|]. intros a b c Hab Hbc. rewrite Z.compare_le_iff in *. lia.
Qed.
#[export] Instance lawful_key {A B} (f : A -> B) (cmp : B -> B -> comparison) `{!LawfulCmp cmp} :
  LawfulCmp (fun a b => cmp (f a) (f b)).
Proof. split; intros; [apply (cmp_opp cmp)|by eapply (cmp_trans cmp _ (f b))]. Qed.
Lemma lawful_rev {A} (cmp : A -> A -> comparison) `{!LawfulCmp cmp} : LawfulCmp (fun a b => cmp b a).
Proof. split; intros; [apply (cmp_opp cmp)|by eapply (cmp_trans cmp _ b)]. Qed.
#[export] Instance lawful_then {A} (c d : A -> A -> comparison) `{!LawfulCmp c, !LawfulCmp d} :
  LawfulCmp (fun a b => then_with (c a b) (d a b)).
Proof.
  split; [intros; by rewrite then_with_opp, <- (cmp_opp c), <- (cmp_opp d)|].
  intros x y z Hxy Hyz. unfold then_with in *.
  destruct (c x y) eqn:E1; [| |done]; destruct (c y z) eqn:E2; try done.
  - rewrite (cmp_eq_trans c x y z) by done. by eapply (cmp_trans d _ y).
  - rewrite (cmp_le_lt_trans c x y z); [done|congruence|done].
  - rewrite (cmp_lt_le_trans c x y z); [done|done|congruence].
  - rewrite (cmp_le_lt_trans c x y z); [done|congruence|done].
Qed.

(** The lexicographic order of lists of integers, as a common target for
    comparators that are given by keys. *)
Fixpoint lex (l k : list Z) : comparison :=
  match l, k with
  | [], [] => Eq
  | [], _ => Lt
  | _, [] => Gt
  | x :: l, y :: k => then_with (Z.compare x y) (lex l k)
  end.
Lemma lex_opp l k : lex k l = CompOpp (lex l k).
Proof.
  revert k. induction l as [|x l IH]; intros [|y k]; cbn; [done..|].
  by rewrite then_with_opp, <- IH, <- Z.compare_antisym.
Qed.
Lemma lex_eq l k : lex l k = Eq <-> l = k.
Proof.
  revert k. induction l as [|x l IH]; intros [|y k]; cbn; [done..|].
  rewrite then_with_eq, IH, Z.compare_eq_iff. naive_solver.
Qed.
#[export] Instance lawful_lex : LawfulCmp lex.
Proof.
  split; [intros; apply lex_opp|]. intros l. induction l as [|x l IH]; intros [|y k] [|z m]; cbn; try done.
  unfold then_with. destruct (Z.compare_spec x y), (Z.compare_spec y z); subst; intros H1 H2; try done.
  - rewrite Z.compare_refl. eauto.
  - by rewrite (proj2 (Z.compare_lt_iff _ _)).
  - by rewrite (proj2 (Z.compare_lt_iff _ _)).
  - rewrite (proj2 (Z.compare_lt_iff _ _)); [done|lia].
Qed.

(** ** Sorting *)
Definition cmp_le {A} (cmp : A -> A -> comparison) (a b : A) : Prop := cmp a b <> Gt.
#[export] Instance cmp_le_dec {A} (cmp : A -> A -> comparison) : RelDecision (cmp_le cmp).
Proof. intros a b. unfold cmp_le. destruct (cmp a b); [left|left|right]; abstract naive_solver. Defined.
#[export] Instance cmp_le_total {A} (cmp : A -> A -> comparison) `{!LawfulCmp cmp} : Total (cmp_le cmp).
Proof. intros a b. by apply (cmp_total cmp). Qed.
#[export] Instance cmp_le_trans {A} (cmp : A -> A -> comparison) `{!LawfulCmp cmp} : Transitive (cmp_le cmp).
Proof. intros a b c. apply (cmp_trans cmp). Qed.

(** [slice::sort_by]. *)
Definition sort_by {A} (cmp : A -> A -> comparison) (l : list A) : list A := merge_sort (cmp_le cmp) l.

Section sort_by.
Context {A : Type} (cmp : A -> A -> comparison) `{!LawfulCmp cmp}.
Implicit Types l k : list A.

Lemma sort_by_perm l : sort_by cmp l ≡ₚ l.
Proof. apply merge_sort_Permutation. Qed.
Lemma sort_by_sorted l : StronglySorted (cmp_le cmp) (sort_by cmp l).
Proof. apply Sorted_StronglySorted; [apply _|]. apply Sorted_merge_sort, _. Qed.
Lemma elem_of_sort_by l a : a ∈ sort_by cmp l <-> a ∈ l.
Proof. by rewrite sort_by_perm. Qed.
Lemma NoDup_sort_by l : NoDup (sort_by cmp l) <-> NoDup l.
Proof. by rewrite sort_by_perm. Qed.
Lemma len_sort_by l : len (sort_by cmp l) = len l.
Proof. unfold len. by rewrite sort_by_perm. Qed.
(** When elements that compare equal are equal, every sorting algorithm
    gives this list. *)
Lemma sort_by_unique l k :
  (forall a b, a ∈ l -> b ∈ l -> cmp a b = Eq -> a = b) ->
  k ≡ₚ l -> StronglySorted (cmp_le cmp) k -> k = sort_by cmp l.
Proof.
  intros Hanti Hperm Hsorted. revert l Hanti Hperm.
  assert (forall k k' : list A, (forall a b, a ∈ k -> b ∈ k -> cmp a b = Eq -> a = b) ->
            k ≡ₚ k' -> StronglySorted (cmp_le cmp) k -> StronglySorted (cmp_le cmp) k' -> k = k') as Huniq.
  { clear k Hsorted. intros k. induction k as [|x k IH]; intros [|y k'] Hanti Hperm Hk Hk'.
    - done.
    - by apply Permutation_nil_cons in Hperm.
    - symmetry in Hperm. by apply Permutation_nil_cons in Hperm.
    - inversion Hk as [|? ? Hk1 Hx]; subst. inversion Hk' as [|? ? Hk1' Hy]; subst.
      rewrite Forall_forall in Hx, Hy.
      assert (x = y) as ->.
      { assert (x ∈ y :: k') as [->|Hxin]%elem_of_cons by (rewrite <- Hperm; left); [done|].
        assert (y ∈ x :: k) as [->|Hyin]%elem_of_cons by (rewrite Hperm; left); [done|].
        apply Hanti; [left|by right|]. pose proof (Hx _ Hyin) as H1. pose proof (Hy _ Hxin) as H2.
        unfold cmp_le in H1, H2. rewrite (cmp_opp cmp x y) in H2. by destruct (cmp x y). }
      f_equal. apply IH; [|by apply Permutation_cons_inv in Hperm|done|done].
      intros a b Ha Hb. apply Hanti; by right. }
  intros l Hanti Hperm. apply Huniq; [|by rewrite Hperm, sort_by_perm|done|apply sort_by_sorted].
  intros a b. rewrite Hperm. apply Hanti.
Qed.
(** What is taken from the front of a sorted list precedes what is left. *)
Lemma sorted_take_before l n a b : StronglySorted (cmp_le cmp) l ->
  a ∈ take n l -> b ∈ drop n l -> cmp_le cmp a b.
Proof.
  intros Hs. rewrite <- (take_drop n l) in Hs. intros Ha Hb. revert Hs Ha. generalize (take n l) as k.
  intros k. induction k as [|x k IH]; cbn; intros Hs Ha; [by apply elem_of_nil in Ha|].
  inversion Hs as [|? ? Hs' Hall]; subst. rewrite Forall_forall in Hall.
  apply elem_of_cons in Ha as [->|Ha]; [|by apply IH]. apply Hall. apply elem_of_app. by right.
Qed.
End sort_by.

(** ** The iteration order of a [BTreeMap] *)
Definition btree_items {V} (m : gmap Z V) : list (Z * V) :=
  sort_by (fun a b => Z.compare a.1 b.1) (map_to_list m).
Definition btree_keys {V} (m : gmap Z V) : list Z := (btree_items m).*1.

Lemma NoDup_filter_keys {V} (P : Z * V -> Prop) `{!forall x, Decision (P x)} (l : list (Z * V)) :
  NoDup l.*1 -> NoDup (filter P l).*1.
Proof.
  induction l as [|x l IH]; [done|]. rewrite fmap_cons, NoDup_cons. intros [Hx Hl]. rewrite filter_cons.
  case_decide; [|by apply IH]. rewrite fmap_cons. constructor; [|by apply IH].
  intros Hin. apply Hx. apply list_elem_of_fmap in Hin as (y & Hxy & [_ Hy]%list_elem_of_filter).
  apply list_elem_of_fmap. by exists y.
Qed.
Section btree.
Context {V : Type}.
Implicit Types m : gmap Z V.

Lemma btree_items_perm m : btree_items m ≡ₚ map_to_list m.
Proof. apply sort_by_perm. Qed.
Lemma elem_of_items m k v : (k, v) ∈ btree_items m <-> m !! k = Some v.
Proof. unfold btree_items. by rewrite elem_of_sort_by, elem_of_map_to_list. Qed.
Lemma NoDup_btree_keys m : NoDup (btree_keys m).
Proof. unfold btree_keys. rewrite btree_items_perm. apply NoDup_fst_map_to_list. Qed.
Lemma NoDup_btree_items m : NoDup (btree_items m).
Proof. apply (NoDup_fmap_1 fst), NoDup_btree_keys. Qed.
Lemma elem_of_btree_keys m k : k ∈ btree_keys m <-> is_Some (m !! k).
Proof.
  unfold btree_keys. rewrite list_elem_of_fmap. split.
  - intros ([k' v] & -> & H). apply elem_of_items in H. by exists v.
  - intros [v H]. exists (k, v). split; [done|]. by apply elem_of_items.
Qed.
End btree.

(** ** Counting the entries of a map *)
Section count.
Context {V : Type}.
Implicit Types (m : gmap Z V) (k : Z) (v : V).

Definition count_if (P : V -> Prop) `{!forall v, Decision (P v)} m : Z :=
  Z.of_nat (size (filter (fun kv => P kv.2) m)).
Context (P : V -> Prop) `{!forall v, Decision (P v)}.
Definition one_if v : Z := if decide (P v) then 1 else 0.

Lemma count_empty : count_if P ∅ = 0.
Proof. done. Qed.
Lemma count_nonneg m : 0 <= count_if P m.
Proof. unfold count_if. lia. Qed.
Lemma count_insert m k v : m !! k = None -> count_if P (<[k := v]> m) = count_if P m + one_if v.
Proof.
  intros Hk. unfold count_if, one_if. destruct (decide (P v)) as [Hv|Hv].
  - rewrite map_filter_insert_True by done. rewrite map_size_insert_None; [lia|].
    apply map_lookup_filter_None. by left.
  - rewrite map_filter_insert_False by done. rewrite delete_id by done. lia.
Qed.
Lemma count_delete m k v : m !! k = Some v -> count_if P (delete k m) = count_if P m - one_if v.
Proof.
  intros Hk. rewrite <- (insert_delete_id m k v) at 2 by done.
  rewrite count_insert; [lia|apply lookup_delete_eq].
Qed.
Lemma count_update m k v v' : m !! k = Some v ->
  count_if P (<[k := v']> m) = count_if P m - one_if v + one_if v'.
Proof.
  intros Hk. rewrite <- (insert_delete_eq m). rewrite count_insert by apply lookup_delete_eq.
  by rewrite (count_delete m k v).
Qed.
Lemma count_le_size m : count_if P m <= Z.of_nat (size m).
Proof. unfold count_if. apply inj_le, map_subseteq_size, map_filter_subseteq. Qed.
(** Filtering the entries in iteration order. *)
Lemma length_filter_items `{D : !forall kv : Z * V, Decision (P kv.2)} m :
  len (filter (fun kv => P kv.2) (btree_items m)) = count_if P m.
Proof.
  unfold len. rewrite btree_items_perm. induction m as [|k v m Hk IH] using map_ind; [done|].
  rewrite map_to_list_insert, count_insert by done. rewrite filter_cons. unfold one_if.
  cbn [snd]. rewrite <- IH. repeat case_decide; try done; cbn [length]; lia.
Qed.
End count.
Lemma count_ext {V} (P Q : V -> Prop) `{!forall v, Decision (P v)} `{!forall v, Decision (Q v)} (m : gmap Z V) :
  (forall k v, m !! k = Some v -> P v <-> Q v) -> count_if P m = count_if Q m.
Proof.
  intros Heq. unfold count_if. do 2 f_equal. apply map_filter_ext. intros k v Hk. by eapply Heq.
Qed.
Lemma count_partition {V} (P Q : V -> Prop) `{!forall v, Decision (P v)} `{!forall v, Decision (Q v)} (m : gmap Z V) :
  count_if P m = count_if (fun v => P v /\ Q v) m + count_if (fun v => P v /\ ~ Q v) m.
Proof.
  induction m as [|k v m Hk IH] using map_ind; [done|]. rewrite !count_insert by done. rewrite IH.
  unfold one_if. repeat case_decide; naive_solver lia.
Qed.

(** Counting by a set of keys. *)
Lemma count_keys {V} (P : V -> Prop) `{!forall v, Decision (P v)} (m : gmap Z V) (X : gset Z) :
  (forall k v, m !! k = Some v -> P v <-> k ∈ X) -> (forall k, k ∈ X -> is_Some (m !! k)) ->
  count_if P m = Z.of_nat (size X).
Proof.
  intros HP HX. unfold count_if. rewrite <- size_dom. do 2 f_equal. apply set_eq. intros k.
  rewrite elem_of_dom. split.
  - intros [v [Hk Hv]%map_lookup_filter_Some]. by apply (HP k v).
  - intros Hk. destruct (HX k Hk) as [v Hv]. exists v. apply map_lookup_filter_Some. split; [done|]. by apply (HP k v).
Qed.
Lemma then_with_assoc a b c : then_with (then_with a b) c = then_with a (then_with b c).
Proof. by destruct a. Qed.
Lemma head_sort_by {A} (cmp : A -> A -> comparison) `{!LawfulCmp cmp} (l : list A) (a : A) :
  head (sort_by cmp l) = Some a -> a ∈ l /\ forall b, b ∈ l -> cmp a b <> Gt.
Proof.
  intros Hh. pose proof (sort_by_sorted cmp l) as Hs. destruct (sort_by cmp l) as [|x k] eqn:E; [done|]. injection Hh as ->.
  assert (forall b, b ∈ l <-> b ∈ a :: k) as Hin by (intros b; rewrite <- E; symmetry; by apply elem_of_sort_by).
  split; [apply Hin; left|]. intros b [->|Hb]%Hin%elem_of_cons.
  - destruct (cmp_total cmp a a) as [H|H]; done.
  - inversion Hs as [|? ? _ Hall]; subst. rewrite Forall_forall in Hall. by apply Hall.
Qed.
Lemma btree_items_sorted {V} (m : gmap Z V) : StronglySorted (fun a b => a.1 < b.1) (btree_items m).
Proof.
  pose proof (NoDup_btree_keys m) as Hnd. unfold btree_keys in Hnd.
  assert (StronglySorted (cmp_le (fun a b : Z * V => Z.compare a.1 b.1)) (btree_items m)) as Hs by apply (sort_by_sorted _).
  induction Hs as [|x l Hs IH Hall]; [constructor|]. rewrite fmap_cons, NoDup_cons in Hnd. destruct Hnd as [Hx Hnd].
  constructor; [by apply IH|]. rewrite Forall_forall in *. intros y Hy. specialize (Hall y Hy). unfold cmp_le in Hall.
  rewrite Z.compare_le_iff in Hall. assert (x.1 <> y.1); [|lia]. intros E. apply Hx, list_elem_of_fmap. by exists y.
Qed.
Lemma omap_sorted {A B} (R : A -> A -> Prop) (Q : B -> B -> Prop) (f : A -> option B) (l : list A) :
  (forall a b x y, R a b -> f a = Some x -> f b = Some y -> Q x y) -> StronglySorted R l -> StronglySorted Q (omap f l).
Proof.
  intros HQ Hs. induction Hs as [|a l Hs IH Hall]; cbn; [constructor|]. destruct (f a) as [x|] eqn:E; [|done].
  constructor; [done|]. rewrite Forall_forall in Hall. rewrite Forall_forall. intros y (b & Hb & Eb)%list_elem_of_omap. eapply HQ; [by apply Hall|done..].
Qed.
(** What is greater comes later in a sorted list. *)
Lemma sorted_after {A} (cmp : A -> A -> comparison) `{!LawfulCmp cmp} l1 a l2 b :
  StronglySorted (cmp_le cmp) (l1 ++ a :: l2) -> b ∈ l1 ++ a :: l2 -> cmp a b = Lt -> b ∈ l2.
Proof.
  intros Hs Hb Hlt. apply elem_of_app in Hb as [Hb|[->|?]%elem_of_cons]; [exfalso| |done].
  - assert (cmp_le cmp b a) as Hle.
    { induction l1 as [|x l1 IH]; [by apply elem_of_nil in Hb|]. cbn in Hs. apply StronglySorted_inv in Hs as [Hs Hx].
      apply elem_of_cons in Hb as [->|Hb]; [|by apply IH]. rewrite Forall_forall in Hx. apply Hx, elem_of_app. right. apply list_elem_of_here. }
    apply (proj1 (cmp_lt_gt cmp a b)) in Hlt. done.
  - pose proof (cmp_opp cmp a a) as E. by rewrite Hlt in E.
Qed.
Lemma sorted_split {A} (cmp : A -> A -> comparison) `{!LawfulCmp cmp} l a b : StronglySorted (cmp_le cmp) l -> a ∈ l -> b ∈ l -> cmp a b = Lt ->
  exists l1 l2, l = l1 ++ a :: l2 /\ b ∈ l2.
Proof. intros Hs Ha Hb Hlt. apply list_elem_of_split in Ha as (l1 & l2 & ->). exists l1, l2. split; [done|]. by eapply sorted_after. Qed.

(** ** The orders of [bool] and [Option] *)
Definition bool_cmp (a b : bool) : comparison := Z.compare (Z.b2z a) (Z.b2z b).
(** The order of [Option]: [None] first. *)
Definition option_cmp (a b : option Z) : comparison :=
  match a, b with
  | None, None => Eq
  | None, Some _ => Lt
  | Some _, None => Gt
  | Some a, Some b => Z.compare a b
  end.
Definition option_key (o : option Z) : list Z := match o with None => [] | Some t => [t] end.
Lemma option_cmp_lex a b : option_cmp a b = lex (option_key a) (option_key b).
Proof. destruct a as [x|], b as [y|]; cbn; try done. by destruct (x ?= y). Qed.
#[export] Instance lawful_bool : LawfulCmp bool_cmp := lawful_key Z.b2z Z.compare.
#[export] Instance lawful_option : LawfulCmp option_cmp.
Proof.
  pose proof (lawful_key option_key lex) as [H1 H2]. split; intros; rewrite !option_cmp_lex in *; [apply H1|by eapply H2].
Qed.

(** ** Sums over the values of a map *)
Section sum_over.
Context {K V : Type} `{Countable K} (f : V -> Z).
Implicit Types (m : gmap K V) (k : K) (v : V).

Definition sum_over m : Z := map_fold (fun _ v acc => f v + acc) 0 m.
Lemma sum_over_empty : sum_over ∅ = 0.
Proof. done. Qed.
Lemma sum_over_insert m k v : m !! k = None -> sum_over (<[k := v]> m) = f v + sum_over m.
Proof. intros Hk. unfold sum_over. rewrite map_fold_insert_L; [done| |done]. intros. lia. Qed.
Lemma sum_over_delete m k v : m !! k = Some v -> sum_over (delete k m) = sum_over m - f v.
Proof.
  intros Hk. rewrite <- (insert_delete_id m k v) at 2 by done. rewrite sum_over_insert by apply lookup_delete_eq. lia.
Qed.
Lemma sum_over_update m k v v' : m !! k = Some v -> sum_over (<[k := v']> m) = sum_over m - f v + f v'.
Proof.
  intros Hk. rewrite <- (insert_delete_eq m), sum_over_insert by apply lookup_delete_eq. rewrite (sum_over_delete m k v) by done. lia.
Qed.
Lemma sum_over_nonneg m : (forall k v, m !! k = Some v -> 0 <= f v) -> 0 <= sum_over m.
Proof.
  induction m as [|k v m Hk IH] using map_ind; [done|]. intros Hf. rewrite sum_over_insert by done.
  pose proof (Hf k v (lookup_insert_eq _ _ _)). assert (0 <= sum_over m); [|lia]. apply IH. intros k' v' Hk'. apply (Hf k').
  rewrite lookup_insert_ne by congruence. done.
Qed.
(** One entry is at most the sum. *)
Lemma sum_over_lookup m k v : (forall k v, m !! k = Some v -> 0 <= f v) -> m !! k = Some v -> f v <= sum_over m.
Proof.
  intros Hf Hk. rewrite <- (insert_delete_id m k v), sum_over_insert by (done || apply lookup_delete_eq).
  assert (0 <= sum_over (delete k m)); [|lia]. apply sum_over_nonneg. intros k' v' [_ E]%lookup_delete_Some. by apply (Hf k').
Qed.
End sum_over.
Lemma sum_over_fmap {K V W} `{Countable K} (f : W -> Z) (f' : V -> Z) (g : V -> W) (m : gmap K V) : (forall v, f (g v) = f' v) -> sum_over f (g <$> m) = sum_over f' m.
Proof.
  intros Hg. induction m as [|k v m Hk IH] using map_ind; [done|]. rewrite fmap_insert, !sum_over_insert by (rewrite ?lookup_fmap, Hk; done). by rewrite IH, Hg.
Qed.
(** A smaller summand in every entry gives a smaller sum. *)
Lemma sum_over_mono {K V W} `{Countable K} (f : V -> Z) (g : W -> Z) (m : gmap K V) (n : gmap K W) :
  (forall k v, m !! k = Some v -> 0 <= f v) ->
  (forall k w, n !! k = Some w -> exists v, m !! k = Some v /\ g w <= f v) -> sum_over g n <= sum_over f m.
Proof.
  revert n. induction m as [|k v m Hk IH] using map_ind; intros n Hf Hle.
  - destruct (map_eq_dec_empty n) as [->|Hn]; [done|]. destruct (map_choose n Hn) as (k & w & Hw). by destruct (Hle k w Hw) as (? & ? & _).
  - assert (forall k' v', m !! k' = Some v' -> 0 <= f v') as Hf'.
    { intros k' v' E. apply (Hf k'). rewrite lookup_insert_ne by congruence. done. }
    rewrite sum_over_insert by done. pose proof (Hf k v (lookup_insert_eq _ _ _)).
    assert (forall k' w, delete k n !! k' = Some w -> exists v', m !! k' = Some v' /\ g w <= f v') as Hd.
    { intros k' w [Hne E]%lookup_delete_Some. destruct (Hle k' w E) as (v' & E' & ?). rewrite lookup_insert_ne in E' by done. eauto. }
    specialize (IH (delete k n) Hf' Hd). destruct (n !! k) as [w|] eqn:E.
    + rewrite (sum_over_delete g n k w E) in IH. destruct (Hle k w E) as (v' & E' & ?). rewrite lookup_insert_eq in E'. simplify_eq. lia.
    + rewrite delete_id in IH by done. lia.
Qed.
