(* ===== verification/Extension.v ===== *)
(** * Extension handshakes and peer exchange (src/extension.rs)

    The BEP 10 handshake that negotiates [ut_metadata] and [ut_pex], the map
    it is applied to, and the BEP 11 messages that exchange peer addresses,
    over the permissive parser of [Bencode].  A label of an error is the
    string of the code.

    The properties: what is encoded is parsed back; whatever is received,
    the parser returns, and a message it accepts is bounded, free of
    duplicates and consistent. *)
From stdpp Require Import strings.
From S2P Require Import Prelude Bytes Bencode Fields Ordered.
#[local] Open Scope Z_scope.

Definition UT_METADATA_LOCAL_ID : Z := 1.
Definition UT_PEX_LOCAL_ID : Z := 2.
Definition MAX_PEX_PAYLOAD_LENGTH : Z := 16 * 1024.
Definition MAX_PEX_ADDITIONS : Z := 50.
Definition MAX_PEX_DROPS : Z := 50.
Definition MAX_TRUSTED_METADATA_HANDSHAKE_LENGTH : Z := 4 * 1024 * 1024.

Inductive ExtensionUpdate := Unchanged | Disabled | Enabled (id : Z).
#[export] Instance ExtensionUpdate_eq_dec : EqDecision ExtensionUpdate.
Proof. solve_decision. Defined.
Record ExtensionHandshake := mkHandshake {
  h_metadata : ExtensionUpdate;
  h_pex : ExtensionUpdate;
  h_metadata_size : option Z;
  h_listen_port : option Z;
}.
Record ExtensionMap := mkMap { m_metadata_id : option Z; m_pex_id : option Z; m_listen_port : option Z }.
Definition ExtensionMap_default : ExtensionMap := mkMap None None None.
Definition apply_update (target : option Z) (update : ExtensionUpdate) : option Z :=
  match update with
  | Unchanged => target
  | Disabled => None
  | Enabled id => Some id
  end.
Definition ExtensionMap_apply (handshake : ExtensionHandshake) (m : ExtensionMap) : ExtensionMap :=
  mkMap (apply_update (m_metadata_id m) (h_metadata handshake)) (apply_update (m_pex_id m) (h_pex handshake))
        (match h_listen_port handshake with Some port => Some port | None => m_listen_port m end).
Record ExtensionAdvertisement := mkAdvertisement {
  ad_metadata_id : option Z;
  ad_pex_id : option Z;
  ad_metadata_size : option Z;
  ad_listen_port : option Z;
}.

Inductive PexIp := V4 (address : list Z) | V6 (address : list Z).
#[export] Instance PexIp_eq_dec : EqDecision PexIp.
Proof. solve_decision. Defined.
#[export] Instance PexIp_countable : Countable PexIp.
Proof.
  refine (inj_countable' (fun ip => match ip with V4 a => inl a | V6 a => inr a end) (fun s => match s with inl a => V4 a | inr a => V6 a end) _).
  abstract (by intros []).
Defined.
Record PexEndpoint := mkEndpoint { ip : PexIp; port : Z }.
Definition PexFlags := Z.
Definition contains (flags : PexFlags) (bit : Z) : bool := negb (Z.land flags bit =? 0).
Record PexContact := mkContact { endpoint : PexEndpoint; flags : PexFlags }.
Record PexMessage := mkPex {
  added : list PexContact;
  dropped : list PexEndpoint;
  additions_truncated : Z;
  drops_truncated : Z;
}.
(** A v6 address that stands for a v4 address becomes one. *)
Definition V4_MAPPED_PREFIX : list Z := [0; 0; 0; 0; 0; 0; 0; 0; 0; 0; 255; 255].
Definition PexEndpoint_new (address : PexIp) (port : Z) : PexEndpoint :=
  match address with
  | V6 bytes => if bool_decide (take 12 bytes = V4_MAPPED_PREFIX) then mkEndpoint (V4 (drop 12 bytes)) port else mkEndpoint address port
  | V4 _ => mkEndpoint address port
  end.
(** The derived order of [PexIp]. *)
Definition ip_key (address : PexIp) : list Z := match address with V4 a => 0 :: a | V6 a => 1 :: a end.
Definition ip_cmp (a b : PexIp) : comparison := lex (ip_key a) (ip_key b).

Inductive ExtensionError :=
| EE_Bencode (error : ParseError)
| EE_RootIsNotDictionary
| EE_InvalidField (field : string)
| EE_ConflictingIds
| EE_EmptyPex
| EE_InvalidCompactStride (field : string)
| EE_InvalidFlagsLength (field : string)
| EE_ConflictingContact (address : PexIp).
Abbreviation result := (outcome ExtensionError).

Definition extension_limits : Limits :=
  {| max_input_length := 16 * 1024; max_string_length := 8 * 1024; max_decoded_items := 128; max_depth := 4; max_collection_entries := 64 |}.
Definition pex_limits : Limits :=
  {| max_input_length := MAX_PEX_PAYLOAD_LENGTH; max_string_length := MAX_PEX_PAYLOAD_LENGTH; max_decoded_items := 32; max_depth := 2; max_collection_entries := 12 |}.

(** [Option::map(f).transpose()]. *)
Definition traverse {E A B} (o : option A) (f : A -> outcome E B) : outcome E (option B) :=
  match o with Some a => b ← f a; Ok (Some b) | None => Ok None end.
Definition extension_update (mapping : option (list DictionaryEntry)) (name : list Z) (label : string) : result ExtensionUpdate :=
  match entries ← mapping; field entries name with
  | None => Ok Unchanged
  | Some node =>
    id ← integer node (EE_InvalidField label);
    if id =? 0 then Ok Disabled else if (1 <=? id) && (id <=? 255) then Ok (Enabled id) else Err (EE_InvalidField label)
  end.
Definition same_id (a b : ExtensionUpdate) : bool :=
  match a, b with Enabled x, Enabled y => x =? y | _, _ => false end.
Definition parse_extension_handshake (payload : list Z) : result ExtensionHandshake :=
  root ← map_err EE_Bencode (parse_with_limits_permissive_dictionaries payload extension_limits);
  entries ← ok_or (dictionary root) EE_RootIsNotDictionary;
  mapping ← traverse (field entries (bytes_of "m")) (fun node => ok_or (dictionary node) (EE_InvalidField "m"));
  metadata ← extension_update mapping (bytes_of "ut_metadata") "m.ut_metadata";
  pex ← extension_update mapping (bytes_of "ut_pex") "m.ut_pex";
  if same_id metadata pex then Err EE_ConflictingIds
  else
    metadata_size ← traverse (field entries (bytes_of "metadata_size")) (fun node =>
      value ← integer node (EE_InvalidField "metadata_size");
      if 0 <? value then Ok (if value <=? MAX_TRUSTED_METADATA_HANDSHAKE_LENGTH then Some value else None)
      else Err (EE_InvalidField "metadata_size"));
    listen_port ← traverse (field entries (bytes_of "p")) (fun node =>
      value ← integer node (EE_InvalidField "p");
      if (0 <? value) && (value <=? umax 16) then Ok value else Err (EE_InvalidField "p"));
    Ok (mkHandshake metadata pex (mjoin metadata_size) listen_port).

(** [i<n>e] and the fields that carry it. *)
Definition push_number (n : Z) : list Z := bytes_of "i" ++ decimal n ++ bytes_of "e".
Definition encode_id (name : list Z) (update : ExtensionUpdate) : list Z :=
  match update with
  | Unchanged => []
  | Disabled => name ++ push_number 0
  | Enabled id => name ++ push_number id
  end.
Definition encode_optional (name : list Z) (value : option Z) : list Z :=
  match value with Some n => name ++ push_number n | None => [] end.
Definition is_unchanged (u : ExtensionUpdate) : bool := match u with Unchanged => true | _ => false end.
Definition encode_fields (metadata pex : ExtensionUpdate) (metadata_size listen_port : option Z) : list Z :=
  bytes_of "d"
  ++ (if negb (is_unchanged metadata) || negb (is_unchanged pex)
      then bytes_of "1:md" ++ encode_id (bytes_of "11:ut_metadata") metadata ++ encode_id (bytes_of "6:ut_pex") pex ++ bytes_of "e" else [])
  ++ encode_optional (bytes_of "13:metadata_size") metadata_size
  ++ encode_optional (bytes_of "1:p") listen_port
  ++ bytes_of "e".
Definition of_id (id : option Z) : ExtensionUpdate := match id with Some id => Enabled id | None => Unchanged end.
Definition encode_extension_handshake (a : ExtensionAdvertisement) : result (list Z) :=
  if bool_decide (ad_metadata_id a = Some 0) || bool_decide (ad_pex_id a = Some 0) then Err (EE_InvalidField "local extension ID")
  else if bool_decide (is_Some (ad_metadata_id a)) && bool_decide (ad_metadata_id a = ad_pex_id a) then Err EE_ConflictingIds
  else if bool_decide (ad_metadata_size a = Some 0) then Err (EE_InvalidField "metadata_size")
  else Ok (encode_fields (of_id (ad_metadata_id a)) (of_id (ad_pex_id a)) (ad_metadata_size a) (ad_listen_port a)).
Definition update_id (u : ExtensionUpdate) : result (option Z) :=
  match u with
  | Enabled id => if id =? 0 then Err (EE_InvalidField "local extension ID") else Ok (Some id)
  | Unchanged | Disabled => Ok None
  end.
Definition encode_extension_handshake_update (update : ExtensionHandshake) : result (list Z) :=
  metadata_id ← update_id (h_metadata update);
  pex_id ← update_id (h_pex update);
  if bool_decide (is_Some metadata_id) && bool_decide (metadata_id = pex_id) then Err EE_ConflictingIds
  else if bool_decide (h_metadata_size update = Some 0) then Err (EE_InvalidField "metadata_size")
  else Ok (encode_fields (h_metadata update) (h_pex update) (h_metadata_size update) (h_listen_port update)).

(** ** Peer exchange *)
Definition bytes_field (entries : list DictionaryEntry) (key : list Z) (label : string) : result (list Z) :=
  match field entries key with
  | None => Ok []
  | Some node => match node_value node with Bytes bytes => Ok bytes | _ => Err (EE_InvalidField label) end
  end.
Definition validate_stride (bytes : list Z) (stride : Z) (label : string) : result unit :=
  if negb (is_multiple_of (len bytes) stride) then Err (EE_InvalidCompactStride label) else Ok tt.
Definition validate_flags (flags : list Z) (contacts : Z) (label : string) : result unit :=
  if negb (bool_decide (flags = [])) && negb (len flags =? contacts) then Err (EE_InvalidFlagsLength label) else Ok tt.
(** [slice::chunks_exact]; the fuel is the length of the slice. *)
Fixpoint chunks_loop (fuel : nat) (size : nat) (bytes : list Z) : list (list Z) :=
  match fuel with
  | O => []
  | S fuel => if (length bytes <? size)%nat then [] else take size bytes :: chunks_loop fuel size (drop size bytes)
  end.
Definition chunks_exact (size : nat) (bytes : list Z) : list (list Z) := chunks_loop (length bytes) size bytes.
Definition endpoint4 (chunk : list Z) : PexEndpoint := PexEndpoint_new (V4 (take 4 chunk)) (of_be (drop 4 chunk)).
Definition endpoint6 (chunk : list Z) : PexEndpoint := PexEndpoint_new (V6 (take 16 chunk)) (of_be (drop 16 chunk)).
(** The loops of the decoders: an item whose address is new is pushed. *)
Definition push_new {T} (key : T -> PexIp) (acc : list T * gset PexIp) (item : T) : list T * gset PexIp :=
  if bool_decide (key item ∈ acc.2) then acc else (acc.1 ++ [item], {[key item]} ∪ acc.2).
Definition collect {T} (key : T -> PexIp) (items : list T) (acc : list T * gset PexIp) : list T * gset PexIp :=
  fold_left (push_new key) items acc.
Definition contact_at (decode : list Z -> PexEndpoint) (flags : list Z) (position : nat) (chunk : list Z) : PexContact :=
  mkContact (decode chunk) (default 0 (nth_get flags (Z.of_nat position))).
Definition decode_added4 (bytes flags : list Z) := collect (fun c => ip (endpoint c)) (imap (contact_at endpoint4 flags) (chunks_exact 6 bytes)).
Definition decode_added6 (bytes flags : list Z) := collect (fun c => ip (endpoint c)) (imap (contact_at endpoint6 flags) (chunks_exact 18 bytes)).
Definition decode_dropped4 (bytes : list Z) := collect ip (map endpoint4 (chunks_exact 6 bytes)).
Definition decode_dropped6 (bytes : list Z) := collect ip (map endpoint6 (chunks_exact 18 bytes)).
Definition truncate {A} (n : Z) (l : list A) : list A := take (Z.to_nat n) l.
(** The message that six compact strings make. *)
Definition pex_of_fields (added4 flags4 added6 flags6 dropped4 dropped6 : list Z) : result PexMessage :=
  validate_stride added4 6 "added" ≫= fun _ => validate_stride added6 18 "added6" ≫= fun _ =>
  validate_stride dropped4 6 "dropped" ≫= fun _ => validate_stride dropped6 18 "dropped6" ≫= fun _ =>
  validate_flags flags4 (len added4 / 6) "added.f" ≫= fun _ => validate_flags flags6 (len added6 / 18) "added6.f" ≫= fun _ =>
  let '(added, added_ips) := decode_added6 added6 flags6 (decode_added4 added4 flags4 ([], ∅)) in
  let '(dropped, dropped_ips) := decode_dropped6 dropped6 (decode_dropped4 dropped4 ([], ∅)) in
  match head (sort_by ip_cmp (elements (added_ips ∩ dropped_ips))) with
  | Some conflict => Err (EE_ConflictingContact conflict)
  | None =>
    if (len added =? 0) && (len dropped =? 0) then Err EE_EmptyPex
    else Ok (mkPex (truncate MAX_PEX_ADDITIONS added) (truncate MAX_PEX_DROPS dropped)
                   (saturating_sub (len added) MAX_PEX_ADDITIONS) (saturating_sub (len dropped) MAX_PEX_DROPS))
  end.
Definition parse_pex_message (payload : list Z) : result PexMessage :=
  root ← map_err EE_Bencode (parse_with_limits_permissive_dictionaries payload pex_limits);
  entries ← ok_or (dictionary root) EE_RootIsNotDictionary;
  added4 ← bytes_field entries (bytes_of "added") "added";
  flags4 ← bytes_field entries (bytes_of "added.f") "added.f";
  added6 ← bytes_field entries (bytes_of "added6") "added6";
  flags6 ← bytes_field entries (bytes_of "added6.f") "added6.f";
  dropped4 ← bytes_field entries (bytes_of "dropped") "dropped";
  dropped6 ← bytes_field entries (bytes_of "dropped6") "dropped6";
  pex_of_fields added4 flags4 added6 flags6 dropped4 dropped6.

Definition append_bytes_field (key value : list Z) : list Z :=
  if bool_decide (value = []) then [] else decimal (len key) ++ bytes_of ":" ++ key ++ decimal (len value) ++ bytes_of ":" ++ value.
Definition is_v4 (e : PexEndpoint) : bool := match ip e with V4 _ => true | V6 _ => false end.
Definition compact (e : PexEndpoint) : list Z := (match ip e with V4 address => address | V6 address => address end) ++ to_be 2 (port e).
Definition encode_pex_message (message : PexMessage) : result (list Z) :=
  if bool_decide (added message = []) && bool_decide (dropped message = []) then Err EE_EmptyPex
  else if (MAX_PEX_ADDITIONS <? len (added message)) || (MAX_PEX_DROPS <? len (dropped message)) then Err (EE_InvalidField "PEX contact count")
  else
    let a4 := filter (fun c => is_v4 (endpoint c) = true) (added message) in
    let a6 := filter (fun c => is_v4 (endpoint c) = false) (added message) in
    let encoded :=
      bytes_of "d"
      ++ append_bytes_field (bytes_of "added") (concat (map (fun c => compact (endpoint c)) a4))
      ++ append_bytes_field (bytes_of "added.f") (map flags a4)
      ++ append_bytes_field (bytes_of "added6") (concat (map (fun c => compact (endpoint c)) a6))
      ++ append_bytes_field (bytes_of "added6.f") (map flags a6)
      ++ append_bytes_field (bytes_of "dropped") (concat (map compact (filter (fun e => is_v4 e = true) (dropped message))))
      ++ append_bytes_field (bytes_of "dropped6") (concat (map compact (filter (fun e => is_v4 e = false) (dropped message))))
      ++ bytes_of "e" in
    if MAX_PEX_PAYLOAD_LENGTH <? len encoded then Err (EE_InvalidField "PEX payload length") else Ok encoded.

(** * Specification: what the messages mean as bencoded values *)

Definition as_integer {E} (v : bvalue) (e : E) : outcome E Z := match v with BInt i => Ok i | _ => Err e end.
Definition as_bytes (v : bvalue) (label : string) : result (list Z) := match v with BBytes b => Ok b | _ => Err (EE_InvalidField label) end.
Definition as_dictionary {E} (v : bvalue) (e : E) : outcome E (list (list Z * bvalue)) := match v with BDict l => Ok l | _ => Err e end.
Definition update_of (mapping : option (list (list Z * bvalue))) (name : list Z) (label : string) : result ExtensionUpdate :=
  match l ← mapping; lookup_key l name with
  | None => Ok Unchanged
  | Some v =>
    id ← as_integer v (EE_InvalidField label);
    if id =? 0 then Ok Disabled else if (1 <=? id) && (id <=? 255) then Ok (Enabled id) else Err (EE_InvalidField label)
  end.
(** What a handshake dictionary says. *)
Definition handshake_of (v : bvalue) : result ExtensionHandshake :=
  l ← as_dictionary v EE_RootIsNotDictionary;
  mapping ← traverse (lookup_key l (bytes_of "m")) (fun v => as_dictionary v (EE_InvalidField "m"));
  metadata ← update_of mapping (bytes_of "ut_metadata") "m.ut_metadata";
  pex ← update_of mapping (bytes_of "ut_pex") "m.ut_pex";
  if same_id metadata pex then Err EE_ConflictingIds
  else
    metadata_size ← traverse (lookup_key l (bytes_of "metadata_size")) (fun v =>
      value ← as_integer v (EE_InvalidField "metadata_size");
      if 0 <? value then Ok (if value <=? MAX_TRUSTED_METADATA_HANDSHAKE_LENGTH then Some value else None)
      else Err (EE_InvalidField "metadata_size"));
    listen_port ← traverse (lookup_key l (bytes_of "p")) (fun v =>
      value ← as_integer v (EE_InvalidField "p");
      if (0 <? value) && (value <=? umax 16) then Ok value else Err (EE_InvalidField "p"));
    Ok (mkHandshake metadata pex (mjoin metadata_size) listen_port).

(** The dictionary of a handshake. *)
Definition id_entry (name : list Z) (u : ExtensionUpdate) : list (list Z * bvalue) :=
  match u with Unchanged => [] | Disabled => [(name, BInt 0)] | Enabled id => [(name, BInt id)] end.
Definition optional_entry (name : list Z) (o : option Z) : list (list Z * bvalue) :=
  match o with Some n => [(name, BInt n)] | None => [] end.
Definition handshake_value (h : ExtensionHandshake) : bvalue :=
  BDict ((if negb (is_unchanged (h_metadata h)) || negb (is_unchanged (h_pex h))
          then [(bytes_of "m", BDict (id_entry (bytes_of "ut_metadata") (h_metadata h) ++ id_entry (bytes_of "ut_pex") (h_pex h)))] else [])
         ++ optional_entry (bytes_of "metadata_size") (h_metadata_size h) ++ optional_entry (bytes_of "p") (h_listen_port h)).
Definition update_typed (u : ExtensionUpdate) : Prop := match u with Enabled id => 0 <= id <= 255 | _ => True end.
Definition handshake_typed (h : ExtensionHandshake) : Prop :=
  update_typed (h_metadata h) /\ update_typed (h_pex h)
  /\ match h_metadata_size h with Some n => 0 <= n < 2 ^ 63 | None => True end
  /\ match h_listen_port h with Some n => is_u 16 n | None => True end.

(** * Lemmas *)

(** ** Parsed trees and values *)
Lemma wf_extension_limits : wf_limits extension_limits.
Proof. vm_compute. split_and!; congruence. Qed.
Lemma wf_pex_limits : wf_limits pex_limits.
Proof. vm_compute. split_and!; congruence. Qed.
Lemma as_integer_node {E} v n (e : E) : node_of true v n -> integer n e = as_integer v e.
Proof. apply integer_node. Qed.
Lemma update_node lim d mapping es name label : 
  (match mapping with Some l => valid true lim d (BDict l) /\ exists n, node_of true (BDict l) n /\ dictionary n = es | None => es = None end) ->
  extension_update es name label = update_of mapping name label.
Proof.
  destruct mapping as [l|]; [|by intros ->]. intros (Hv & n & Hn & <-). destruct (field_node true lim d l n Hv Hn) as (fs & Ef & Hf).
  unfold extension_update, update_of. rewrite Ef. cbn [mbind option_bind]. specialize (Hf name). destruct (lookup_key l name) as [v|].
  - destruct Hf as (m & -> & Hm). by rewrite (as_integer_node v m).
  - by rewrite Hf.
Qed.
Lemma handshake_node v n : node_of true v n -> valid true extension_limits 0 v ->
  (entries ← ok_or (dictionary n) EE_RootIsNotDictionary;
   mapping ← traverse (field entries (bytes_of "m")) (fun node => ok_or (dictionary node) (EE_InvalidField "m"));
   metadata ← extension_update mapping (bytes_of "ut_metadata") "m.ut_metadata";
   pex ← extension_update mapping (bytes_of "ut_pex") "m.ut_pex";
   if same_id metadata pex then Err EE_ConflictingIds
   else
    metadata_size ← traverse (field entries (bytes_of "metadata_size")) (fun node =>
      value ← integer node (EE_InvalidField "metadata_size");
      if 0 <? value then Ok (if value <=? MAX_TRUSTED_METADATA_HANDSHAKE_LENGTH then Some value else None)
      else Err (EE_InvalidField "metadata_size"));
    listen_port ← traverse (field entries (bytes_of "p")) (fun node =>
      value ← integer node (EE_InvalidField "p");
      if (0 <? value) && (value <=? umax 16) then Ok value else Err (EE_InvalidField "p"));
    Ok (mkHandshake metadata pex (mjoin metadata_size) listen_port)) = handshake_of v.
Proof.
  intros Hn Hv. destruct v as [i|b|l|l]; try (destruct Hn as [p ->]; reflexivity).
  destruct (field_node true extension_limits 0 l n Hv Hn) as (es & -> & Hf). unfold handshake_of. cbn [as_dictionary ok_or]. rewrite !ok_bind.
  assert (forall (B : Type) key (f : bvalue -> result B) g, (forall v m, lookup_key l key = Some v -> node_of true v m -> g m = f v) ->
            traverse (field es key) g = traverse (lookup_key l key) f) as Htr.
  { intros B key f g Hg. specialize (Hf key). destruct (lookup_key l key) as [v|] eqn:Ea; [|by rewrite Hf].
    destruct Hf as (m & -> & Hm). unfold traverse. by rewrite (Hg v m). }
  rewrite (Htr _ (bytes_of "metadata_size") (fun v => value ← as_integer v (EE_InvalidField "metadata_size");
      if 0 <? value then Ok (if value <=? MAX_TRUSTED_METADATA_HANDSHAKE_LENGTH then Some value else None)
      else Err (EE_InvalidField "metadata_size"))) by (intros v m _ Hm; by rewrite (as_integer_node v m)).
  rewrite (Htr _ (bytes_of "p") (fun v => value ← as_integer v (EE_InvalidField "p");
      if (0 <? value) && (value <=? umax 16) then Ok value else Err (EE_InvalidField "p"))) by (intros v m _ Hm; by rewrite (as_integer_node v m)).
  clear Htr. specialize (Hf (bytes_of "m")). destruct (lookup_key l (bytes_of "m")) as [v|] eqn:Em.
  - destruct Hf as (m & -> & Hm). cbn [traverse]. destruct v as [i|b|k|k]; try (destruct Hm as [p ->]; reflexivity).
    pose proof (valid_child _ _ _ _ _ _ Hv Em) as Hk. destruct (field_node true extension_limits 1 k m Hk Hm) as (fs & Efs & _). rewrite Efs. obind.
    cbn [as_dictionary]. obind.
    assert (forall name label, extension_update (Some fs) name label = update_of (Some k) name label) as Hu.
    { intros name label. apply (update_node extension_limits 1). split; [done|]. by exists m. }
    by rewrite !Hu.
  - rewrite Hf. reflexivity.
Qed.
Lemma parse_handshake_bencode v : valid true extension_limits 0 v -> item_count v <= 128 -> len (bencode v) <= 16 * 1024 ->
  parse_extension_handshake (bencode v) = handshake_of v.
Proof.
  intros Hv Hi Hl. destruct (parse_mode_complete true extension_limits v wf_extension_limits Hv Hi Hl) as (n & E & Hn).
  unfold parse_extension_handshake. change (parse_with_limits_permissive_dictionaries (bencode v) extension_limits) with (parse_mode true (bencode v) extension_limits).
  rewrite E. obind. by apply handshake_node.
Qed.

(** ** Encoded handshakes *)
Definition entry_bytes (kx : list Z * bvalue) : list Z := bencode_bytes kx.1 ++ bencode kx.2.
Lemma bencode_dict l : bencode (BDict l) = 100 :: concat (map entry_bytes l) ++ [101].
Proof. cbn [bencode]. do 2 f_equal. f_equal. apply map_ext. by intros []. Qed.
Lemma push_number_bencode n : 0 <= n -> push_number n = bencode (BInt n).
Proof. intros Hn. unfold push_number. cbn [bencode]. unfold int_text. by rewrite (proj2 (Z.ltb_ge n 0)). Qed.
Lemma encode_id_entries text name u : text = bencode_bytes name -> update_typed u -> encode_id text u = concat (map entry_bytes (id_entry name u)).
Proof.
  intros -> Hu. destruct u as [| |id]; [done|..]; cbn [encode_id id_entry map concat]; unfold entry_bytes; cbn [fst snd]; rewrite app_nil_r, push_number_bencode; try done.
  apply Hu.
Qed.
Lemma encode_optional_entries text name o : text = bencode_bytes name -> match o with Some n => 0 <= n | None => True end ->
  encode_optional text o = concat (map entry_bytes (optional_entry name o)).
Proof.
  intros -> Ho. destruct o as [n|]; [|done]. cbn [encode_optional optional_entry map concat]. unfold entry_bytes. cbn [fst snd]. by rewrite app_nil_r, push_number_bencode.
Qed.
Lemma encode_fields_bencode h : handshake_typed h ->
  encode_fields (h_metadata h) (h_pex h) (h_metadata_size h) (h_listen_port h) = bencode (handshake_value h).
Proof.
  intros (Hm & Hp & Hs & Hl). unfold encode_fields, handshake_value. rewrite bencode_dict, !map_app, !concat_app.
  rewrite (encode_id_entries _ (bytes_of "ut_metadata")), (encode_id_entries _ (bytes_of "ut_pex")) by (done || by vm_compute).
  rewrite (encode_optional_entries _ (bytes_of "metadata_size")), (encode_optional_entries _ (bytes_of "p")); [|by vm_compute| |by vm_compute|].
  2:{ destruct (h_listen_port h); [apply Hl|done]. } 2:{ destruct (h_metadata_size h); [apply Hs|done]. }
  change (bytes_of "d") with [100]. change (bytes_of "e") with [101]. cbn [app]. f_equal. rewrite <- !app_assoc. f_equal.
  destruct (negb (is_unchanged (h_metadata h)) || negb (is_unchanged (h_pex h))); [|done].
  cbn [map concat]. unfold entry_bytes at 3. cbn [fst snd]. rewrite bencode_dict, map_app, concat_app, app_nil_r.
  change (bencode_bytes (bytes_of "m")) with (bytes_of "1:m"). change (bytes_of "1:md") with (bytes_of "1:m" ++ [100]). rewrite <- !app_assoc. done.
Qed.
Lemma handshake_value_valid h : handshake_typed h -> valid true extension_limits 0 (handshake_value h) /\ item_count (handshake_value h) <= 128.
Proof.
  intros (Hm & Hp & Hs & Hl).
  assert (forall d n, 0 <= d <= 4 -> 0 <= n < 2 ^ 63 -> valid true extension_limits d (BInt n)) as Hint.
  { intros d n Hd Hn. apply valid_int; [cbn; lia|lia]. }
  assert (forall name u, update_typed u -> Forall (fun kx => valid true extension_limits 2 kx.2) (id_entry name u)) as Hid.
  { intros name [| |id] Hu; cbn; [constructor|..]; (apply Forall_singleton; apply Hint; [lia|]); [lia|]. cbn in Hu. lia. }
  assert (forall name o, match o with Some n => 0 <= n < 2 ^ 63 | None => True end -> Forall (fun kx => valid true extension_limits 1 kx.2) (optional_entry name o)) as Hop.
  { intros name [n|] Ho; cbn; [|constructor]. apply Forall_singleton, Hint; [lia|done]. }
  split.
  - apply valid_dict; [done| | | |].
    + destruct (_ || _), (h_metadata_size h), (h_listen_port h); vm_compute; congruence.
    + cbn [keys_ok]. destruct (_ || _), (h_metadata_size h), (h_listen_port h); apply (bool_decide_unpack _); vm_compute; exact I.
    + destruct (_ || _), (h_metadata_size h), (h_listen_port h); repeat constructor; vm_compute; congruence.
    + apply Forall_app. split; [|apply Forall_app; split; apply Hop].
      * destruct (_ || _); [|constructor]. apply Forall_singleton. apply valid_dict; [done| | | |].
        -- destruct (h_metadata h), (h_pex h); vm_compute; congruence.
        -- cbn [keys_ok]. destruct (h_metadata h), (h_pex h); apply (bool_decide_unpack _); vm_compute; exact I.
        -- destruct (h_metadata h), (h_pex h); repeat constructor; vm_compute; congruence.
        -- apply Forall_app. split; by apply Hid.
      * done.
      * destruct (h_listen_port h); [|done]. unfold is_u in Hl. lia.
  - unfold handshake_value. destruct (h_metadata h), (h_pex h), (h_metadata_size h), (h_listen_port h); vm_compute; congruence.
Qed.
Lemma len_push_number n : 0 <= n < 2 ^ 63 -> len (push_number n) <= 21.
Proof.
  intros Hn. unfold push_number. rewrite !len_app. change (len (bytes_of "i")) with 1. change (len (bytes_of "e")) with 1.
  pose proof (len_decimal_le 18 n). assert (2 ^ 63 < 10 ^ Z.of_nat 19) by done. lia.
Qed.
Lemma len_encode_fields h : handshake_typed h -> len (encode_fields (h_metadata h) (h_pex h) (h_metadata_size h) (h_listen_port h)) <= 16 * 1024.
Proof.
  intros (Hm & Hp & Hs & Hl). unfold encode_fields.
  assert (forall name u, update_typed u -> len (encode_id name u) <= len name + 21) as Hid.
  { intros name u Hu. pose proof (len_nonneg name). destruct u as [| |id]; cbn [encode_id]; rewrite ?len_app; [len_lia|..].
    - pose proof (len_push_number 0). lia.
    - cbn in Hu. pose proof (len_push_number id). lia. }
  assert (forall name o, match o with Some n => 0 <= n < 2 ^ 63 | None => True end -> len (encode_optional name o) <= len name + 21) as Hop.
  { intros name [n|] Ho; cbn [encode_optional]; pose proof (len_nonneg name); rewrite ?len_app; [|len_lia]. pose proof (len_push_number n Ho). lia. }
  pose proof (Hid (bytes_of "11:ut_metadata") _ Hm) as H1. pose proof (Hid (bytes_of "6:ut_pex") _ Hp) as H2.
  pose proof (Hop (bytes_of "13:metadata_size") _ Hs) as H3.
  assert (match h_listen_port h with Some n => 0 <= n < 2 ^ 63 | None => True end) as Hl' by (destruct (h_listen_port h); [unfold is_u in Hl; lia|done]).
  pose proof (Hop (bytes_of "1:p") _ Hl') as H4.
  change (len (bytes_of "11:ut_metadata")) with 14 in H1. change (len (bytes_of "6:ut_pex")) with 8 in H2. change (len (bytes_of "13:metadata_size")) with 16 in H3. change (len (bytes_of "1:p")) with 3 in H4.
  rewrite !len_app. destruct (_ || _); rewrite ?len_app; change (len (bytes_of "d")) with 1; change (len (bytes_of "e")) with 1; change (len (bytes_of "1:md")) with 4; change (len (@nil Z)) with 0; lia.
Qed.

(** A handshake that the encoder does not refuse. *)
Definition sendable (h : ExtensionHandshake) : Prop :=
  h_metadata h <> Enabled 0 /\ h_pex h <> Enabled 0 /\ same_id (h_metadata h) (h_pex h) = false /\ h_metadata_size h <> Some 0.
Definition received (h : ExtensionHandshake) : result ExtensionHandshake :=
  if bool_decide (h_listen_port h = Some 0) then Err (EE_InvalidField "p")
  else Ok (mkHandshake (h_metadata h) (h_pex h)
             (match h_metadata_size h with Some n => if n <=? MAX_TRUSTED_METADATA_HANDSHAKE_LENGTH then Some n else None | None => None end) (h_listen_port h)).
Lemma update_of_entry l name label u : update_typed u -> u <> Enabled 0 -> lookup_key l name = snd <$> head (id_entry name u) -> update_of (Some l) name label = Ok u.
Proof.
  intros Hu Hne E. unfold update_of. cbn [mbind option_bind]. rewrite E. destruct u as [| |id]; [done..|]. cbn [id_entry head fmap option_fmap option_map snd as_integer]. obind.
  cbn in Hu. destruct (Z.eqb_spec id 0) as [->|]; [done|]. by rewrite (proj2 (Z.leb_le 1 id)), (proj2 (Z.leb_le id 255)) by lia.
Qed.
Lemma handshake_of_value h : handshake_typed h -> sendable h -> handshake_of (handshake_value h) = received h.
Proof.
  intros (Hm & Hp & Hs & Hl) (Hm0 & Hp0 & Hsame & Hs0). unfold handshake_of, handshake_value. cbn [as_dictionary]. obind. set (l := _ ++ _).
  assert (lookup_key l (bytes_of "metadata_size") = BInt <$> h_metadata_size h) as Es.
  { unfold l. destruct (_ || _), (h_metadata_size h), (h_listen_port h); vm_compute; exact eq_refl. }
  assert (lookup_key l (bytes_of "p") = BInt <$> h_listen_port h) as El.
  { unfold l. destruct (_ || _), (h_metadata_size h), (h_listen_port h); vm_compute; exact eq_refl. }
  assert (exists k, traverse (lookup_key l (bytes_of "m")) (fun v => as_dictionary v (EE_InvalidField "m")) = Ok k
    /\ update_of k (bytes_of "ut_metadata") "m.ut_metadata" = Ok (h_metadata h) /\ update_of k (bytes_of "ut_pex") "m.ut_pex" = Ok (h_pex h)) as (k & -> & Em & Ep).
  { destruct (negb (is_unchanged (h_metadata h)) || negb (is_unchanged (h_pex h))) eqn:Eu.
    - exists (Some (id_entry (bytes_of "ut_metadata") (h_metadata h) ++ id_entry (bytes_of "ut_pex") (h_pex h))). split.
      + unfold l. cbn [app]. by vm_compute.
      + split; apply update_of_entry; try done; destruct (h_metadata h), (h_pex h); vm_compute; exact eq_refl.
    - exists None. apply orb_false_elim in Eu as [E1%negb_false_iff E2%negb_false_iff]. split.
      + unfold l. destruct (h_metadata_size h), (h_listen_port h); vm_compute; exact eq_refl.
      + by destruct (h_metadata h), (h_pex h). }
  obind. rewrite Em. obind. rewrite Ep. obind. rewrite Hsame, Es, El. unfold received.
  destruct (h_metadata_size h) as [n|]; cbn [fmap option_fmap option_map traverse as_integer]; obind.
  - rewrite (proj2 (Z.ltb_lt 0 n)) by (assert (n <> 0) by congruence; lia). obind.
    destruct (h_listen_port h) as [q|]; cbn [fmap option_fmap option_map traverse as_integer]; obind; [|done].
    unfold is_u in Hl. rewrite (proj2 (Z.leb_le q (umax 16))) by (unfold umax; lia). rewrite andb_true_r.
    destruct (Z.ltb_spec 0 q); [rewrite bool_decide_eq_false_2 by (intros [= ->]; lia); done|]. by rewrite bool_decide_eq_true_2 by (f_equal; lia).
  - destruct (h_listen_port h) as [q|]; cbn [fmap option_fmap option_map traverse as_integer]; obind; [|done].
    unfold is_u in Hl. rewrite (proj2 (Z.leb_le q (umax 16))) by (unfold umax; lia). rewrite andb_true_r.
    destruct (Z.ltb_spec 0 q); [rewrite bool_decide_eq_false_2 by (intros [= ->]; lia); done|]. by rewrite bool_decide_eq_true_2 by (f_equal; lia).
Qed.
Lemma encode_update_sendable h bytes : encode_extension_handshake_update h = Ok bytes ->
  sendable h /\ bytes = encode_fields (h_metadata h) (h_pex h) (h_metadata_size h) (h_listen_port h).
Proof.
  unfold encode_extension_handshake_update, sendable. destruct (update_id (h_metadata h)) as [a| | |] eqn:Ea; try done. obind.
  destruct (update_id (h_pex h)) as [b| | |] eqn:Eb; try done. obind. destruct (bool_decide (is_Some a) && bool_decide (a = b)) eqn:Ec; [done|].
  destruct (bool_decide (h_metadata_size h = Some 0)) eqn:Es; [done|]. apply bool_decide_eq_false in Es. intros [= <-]. split; [|done].
  assert (forall u o, update_id u = Ok o -> u <> Enabled 0 /\ match u with Enabled id => o = Some id | _ => o = None end) as Hu.
  { intros [| |id] o E; cbn in E; [injection E as <-; done..|]. destruct (Z.eqb_spec id 0); [done|]. injection E as <-. split; [congruence|done]. }
  destruct (Hu _ _ Ea) as [Ha1 Ha2], (Hu _ _ Eb) as [Hb1 Hb2]. split; [done|]. split; [done|]. split; [|done].
  destruct (h_metadata h) as [| |x], (h_pex h) as [| |y]; try done. subst a b. rewrite bool_decide_eq_true_2 in Ec by (by eexists).
  cbn [andb] in Ec. apply bool_decide_eq_false in Ec. cbn. apply Z.eqb_neq. congruence.
Qed.
Lemma encode_advertisement a : encode_extension_handshake a =
  encode_extension_handshake_update (mkHandshake (of_id (ad_metadata_id a)) (of_id (ad_pex_id a)) (ad_metadata_size a) (ad_listen_port a)).
Proof.
  unfold encode_extension_handshake, encode_extension_handshake_update. cbn [h_metadata h_pex h_metadata_size h_listen_port].
  assert (forall o, update_id (of_id o) = if bool_decide (o = Some 0) then Err (EE_InvalidField "local extension ID") else Ok o) as Hu.
  { intros [x|]; [|done]. cbn. destruct (Z.eqb_spec x 0) as [->|]; [done|]. by rewrite bool_decide_eq_false_2 by congruence. }
  rewrite !Hu. destruct (bool_decide (ad_metadata_id a = Some 0)); [done|]. obind. cbn [orb]. by destruct (bool_decide (ad_pex_id a = Some 0)).
Qed.

(** ** Peer exchange: the loops *)
Section collect.
Context {T : Type} (key : T -> PexIp).
Implicit Types (items target : list T).

Record collected (acc : list T * gset PexIp) : Prop := {
  cd_set x : x ∈ acc.2 <-> x ∈ map key acc.1;
  cd_nodup : NoDup (map key acc.1);
}.
Lemma collect_new_ok items : forall acc, collected acc -> collected (collect key items acc).
Proof.
  induction items as [|x items IH]; intros acc [H1 H2]; [done|]. apply (IH (push_new key acc x)). unfold push_new. case_bool_decide as E; [done|]. split; cbn [fst snd].
  - intros y. rewrite elem_of_union, elem_of_singleton, map_app, elem_of_app, H1. cbn [map]. rewrite list_elem_of_singleton. tauto.
  - rewrite map_app. apply NoDup_app. split; [done|]. split; [|apply NoDup_singleton]. intros y Hy ->%list_elem_of_singleton. apply E, H1, Hy.
Qed.
Lemma collect_Forall (P : T -> Prop) items : forall acc, Forall P items -> Forall P acc.1 -> Forall P (collect key items acc).1.
Proof.
  induction items as [|x items IH]; intros acc Hi Ha; [done|]. apply Forall_cons_1 in Hi as [Hx Hi]. apply (IH (push_new key acc x)); [done|].
  unfold push_new. case_bool_decide; [done|]. cbn. apply Forall_app. split; [done|by apply Forall_singleton].
Qed.
(** Distinct items are all kept. *)
Lemma collect_distinct items : forall acc, collected acc -> NoDup (map key (acc.1 ++ items)) -> (collect key items acc).1 = acc.1 ++ items.
Proof.
  induction items as [|x items IH]; intros acc Ha Hnd; [by rewrite app_nil_r|].
  pose proof Hnd as Hnd'. rewrite map_app in Hnd'. cbn [map] in Hnd'. pose proof Hnd' as (_ & Hdis & _)%NoDup_app.
  assert (push_new key acc x = (acc.1 ++ [x], {[key x]} ∪ acc.2)) as E.
  { unfold push_new. rewrite bool_decide_eq_false_2; [done|]. rewrite (cd_set _ Ha). intros Hin. apply (Hdis _ Hin), list_elem_of_here. }
  change (collect key (x :: items) acc) with (collect key items (push_new key acc x)). rewrite E, IH; cbn [fst snd].
  - by rewrite <- app_assoc.
  - rewrite <- E. apply (collect_new_ok [x] acc Ha).
  - by rewrite <- app_assoc.
Qed.
Lemma collect_keys items : forall acc a, a ∈ (collect key items acc).2 <-> a ∈ map key items \/ a ∈ acc.2.
Proof.
  induction items as [|x items IH]; intros acc a; cbn [map]; [pose proof (not_elem_of_nil a); cbn; tauto|].
  change (collect key (x :: items) acc) with (collect key items (push_new key acc x)). rewrite IH, elem_of_cons. unfold push_new.
  case_bool_decide as E; cbn [snd]; [|set_solver]. split; [tauto|]. intros [[->|?]|?]; tauto.
Qed.
End collect.
Lemma collected_nil {T} (key : T -> PexIp) : collected key ([], ∅).
Proof. split; cbn; [|apply NoDup_nil_2]. intros x. set_solver. Qed.

Lemma chunks_loop_concat size chunks : (0 < size)%nat -> Forall (fun c => length c = size) chunks -> forall fuel, (length chunks <= fuel)%nat ->
  chunks_loop fuel size (concat chunks) = chunks.
Proof.
  intros Hs. induction 1 as [|c chunks Hc _ IH]; intros fuel Hf.
  - destruct fuel; cbn; [done|]. by destruct size; [lia|].
  - destruct fuel as [|fuel]; cbn in Hf; [lia|]. cbn [chunks_loop concat]. rewrite (proj2 (Nat.ltb_ge _ _)) by (rewrite length_app; lia).
    rewrite take_app_length', drop_app_length' by done. f_equal. apply IH. lia.
Qed.
Lemma chunks_exact_concat size chunks : (0 < size)%nat -> Forall (fun c => length c = size) chunks -> chunks_exact size (concat chunks) = chunks.
Proof.
  intros Hs Hc. apply chunks_loop_concat; [done..|]. clear -Hs Hc. induction Hc as [|c chunks Hc _ IH]; cbn; [lia|]. rewrite length_app. lia.
Qed.
Lemma chunks_length fuel size bytes : Forall (fun c => length c = size) (chunks_loop fuel size bytes).
Proof.
  revert bytes. induction fuel as [|fuel IH]; intros bytes; cbn [chunks_loop]; [constructor|]. destruct (Nat.ltb_spec (length bytes) size); [constructor|].
  constructor; [rewrite length_take; lia|apply IH].
Qed.

(** ** Canonical addresses *)
Definition canonical_ip (a : PexIp) : Prop :=
  match a with V4 b => len b = 4 | V6 b => len b = 16 /\ take 12 b <> V4_MAPPED_PREFIX end.
Definition canonical (e : PexEndpoint) : Prop := canonical_ip (ip e) /\ is_u 16 (port e).
Lemma endpoint4_canonical chunk : length chunk = 6%nat -> canonical_ip (ip (endpoint4 chunk)).
Proof. intros Hc. unfold endpoint4. cbn. unfold len. rewrite length_take. lia. Qed.
Lemma endpoint6_canonical chunk : length chunk = 18%nat -> canonical_ip (ip (endpoint6 chunk)).
Proof.
  intros Hc. unfold endpoint6. cbn [PexEndpoint_new]. case_bool_decide as E; cbn; unfold len; rewrite ?length_drop, ?length_take; [lia|]. split; [lia|done].
Qed.
Lemma endpoint4_compact e : canonical e -> is_v4 e = true -> length (compact e) = 6%nat /\ endpoint4 (compact e) = e.
Proof.
  intros [Hip Hp] H4. unfold is_v4, compact, endpoint4 in *. destruct e as [[b|b] q]; cbn [ip port] in *; [|done]. unfold canonical_ip, len in Hip.
  rewrite length_app, length_to_be. split; [lia|]. rewrite take_app_length', drop_app_length', of_be_to_be by (lia || done). done.
Qed.
Lemma endpoint6_compact e : canonical e -> is_v4 e = false -> length (compact e) = 18%nat /\ endpoint6 (compact e) = e.
Proof.
  intros [Hip Hp] H4. unfold is_v4, compact, endpoint6 in *. destruct e as [[b|b] q]; cbn [ip port] in *; [done|]. destruct Hip as [Hl Hne]. unfold len in Hl.
  rewrite length_app, length_to_be. split; [lia|]. rewrite take_app_length', drop_app_length', of_be_to_be by (lia || done).
  cbn [PexEndpoint_new]. by rewrite bool_decide_eq_false_2.
Qed.
(** Encoded contacts are decoded. *)
Lemma contacts_back size decode (l : list PexContact) : (0 < size)%nat ->
  Forall (fun c => length (compact (endpoint c)) = size /\ decode (compact (endpoint c)) = endpoint c) l ->
  imap (contact_at decode (map flags l)) (chunks_exact size (concat (map (fun c => compact (endpoint c)) l))) = l.
Proof.
  intros Hs Hl. rewrite chunks_exact_concat; [|done|].
  2:{ rewrite Forall_map. eapply Forall_impl; [exact Hl|]. by intros c [? _]. }
  apply list_eq. intros i. change (map (fun c => compact (endpoint c)) l) with ((fun c => compact (endpoint c)) <$> l).
  rewrite list_lookup_imap, list_lookup_fmap. destruct (l !! i) as [c|] eqn:E; [|done]. cbn. rewrite Forall_forall in Hl.
  destruct (Hl c) as [_ Hd]; [by eapply list_elem_of_lookup_2|]. unfold contact_at. rewrite Hd, nth_get_lookup, Nat2Z.id by lia.
  change (map flags l) with (flags <$> l). rewrite list_lookup_fmap, E. by destruct c.
Qed.
Lemma endpoints_back size decode (l : list PexEndpoint) : (0 < size)%nat ->
  Forall (fun e => length (compact e) = size /\ decode (compact e) = e) l -> map decode (chunks_exact size (concat (map compact l))) = l.
Proof.
  intros Hs Hl. rewrite chunks_exact_concat; [|done|].
  2:{ rewrite Forall_map. eapply Forall_impl; [exact Hl|]. by intros c [? _]. }
  induction Hl as [|e l [_ He] _ IH]; cbn; [done|]. by rewrite He, IH.
Qed.

(** ** Peer exchange: messages *)
Lemma pex_of_fields_returns a4 f4 a6 f6 d4 d6 : returns (pex_of_fields a4 f4 a6 f6 d4 d6).
Proof.
  unfold pex_of_fields, validate_stride, validate_flags. repeat (apply returns_bind; [by case_match|intros [] _]).
  destruct (decode_added6 _ _ _), (decode_dropped6 _ _). destruct (head _); [done|]. by destruct (_ && _).
Qed.
Lemma no_conflict (X : gset PexIp) : head (sort_by ip_cmp (elements X)) = None <-> X = ∅.
Proof.
  split.
  - intros H. assert (elements X = []) as E.
    { destruct (sort_by ip_cmp (elements X)) as [|x l] eqn:Es; [|done]. apply Permutation_nil. by rewrite <- Es, (sort_by_perm ip_cmp). }
    apply set_eq. intros x. rewrite <- elem_of_elements, E. set_solver.
  - intros ->. by rewrite elements_empty.
Qed.
(** What the four loops keep. *)
Record pex_lists (contacts : list PexContact) (ends : list PexEndpoint) : Prop := {
  pl_contacts : NoDup (map (fun c => ip (endpoint c)) contacts);
  pl_ends : NoDup (map ip ends);
  pl_disjoint a : a ∈ map (fun c => ip (endpoint c)) contacts -> a ∉ map ip ends;
  pl_canonical : Forall (fun c => canonical_ip (ip (endpoint c))) contacts /\ Forall (fun e => canonical_ip (ip e)) ends;
}.
Lemma imap_Forall {A B} (f : nat -> A -> B) (P : A -> Prop) (Q : B -> Prop) l : (forall i a, P a -> Q (f i a)) -> Forall P l -> Forall Q (imap f l).
Proof.
  intros Hf Hl. revert f Hf. induction Hl as [|a l Ha _ IH]; intros f Hf; cbn; [constructor|]. constructor; [by apply Hf|]. apply IH. intros i x. apply Hf.
Qed.
Lemma pex_of_fields_ok a4 f4 a6 f6 d4 d6 m : pex_of_fields a4 f4 a6 f6 d4 d6 = Ok m ->
  exists contacts ends, pex_lists contacts ends /\ 0 < len contacts + len ends
    /\ m = mkPex (truncate MAX_PEX_ADDITIONS contacts) (truncate MAX_PEX_DROPS ends) (saturating_sub (len contacts) MAX_PEX_ADDITIONS) (saturating_sub (len ends) MAX_PEX_DROPS).
Proof.
  unfold pex_of_fields.
  do 6 (match goal with |- (?c ≫= _) = _ -> _ => destruct c as [[]| | |]; [|done..]; rewrite ok_bind end).
  set (k := fun c => ip (endpoint c)).
  assert (collected k (decode_added6 a6 f6 (decode_added4 a4 f4 ([], ∅))) /\ Forall (fun c => canonical_ip (k c)) (decode_added6 a6 f6 (decode_added4 a4 f4 ([], ∅))).1) as [HA HcA].
  { split; [apply collect_new_ok, collect_new_ok, collected_nil|]. apply collect_Forall; [|apply collect_Forall; [|constructor]].
    - eapply imap_Forall; [|apply (chunks_length (length a6) 18)]. intros i c Hc. by apply endpoint6_canonical.
    - eapply imap_Forall; [|apply (chunks_length (length a4) 6)]. intros i c Hc. by apply endpoint4_canonical. }
  assert (collected ip (decode_dropped6 d6 (decode_dropped4 d4 ([], ∅))) /\ Forall (fun e => canonical_ip (ip e)) (decode_dropped6 d6 (decode_dropped4 d4 ([], ∅))).1) as [HD HcD].
  { split; [apply collect_new_ok, collect_new_ok, collected_nil|]. apply collect_Forall; [|apply collect_Forall; [|constructor]]; rewrite Forall_map.
    - eapply Forall_impl; [apply (chunks_length (length d6) 18)|]. intros c Hc. by apply endpoint6_canonical.
    - eapply Forall_impl; [apply (chunks_length (length d4) 6)|]. intros c Hc. by apply endpoint4_canonical. }
  destruct (decode_added6 _ _ _) as [contacts A], (decode_dropped6 _ _) as [ends D]. cbn [fst snd] in *.
  destruct (head _) eqn:Eh; [done|]. apply no_conflict in Eh. destruct (_ && _) eqn:E0; [done|]. intros [= <-].
  exists contacts, ends. split; [|split; [|done]].
  - split; [apply HA|apply HD| |done]. intros a Ha Hd. assert (a ∈ A ∩ D) as Hin; [|rewrite Eh in Hin; set_solver].
    apply elem_of_intersection. split; [by apply (cd_set _ _ HA)|by apply (cd_set _ _ HD)].
  - pose proof (len_nonneg contacts). pose proof (len_nonneg ends). apply andb_false_iff in E0 as [E%Z.eqb_neq|E%Z.eqb_neq]; lia.
Qed.

(** The dictionary of a message. *)
Definition bytes_entry (name value : list Z) : list (list Z * bvalue) := if bool_decide (value = []) then [] else [(name, BBytes value)].
Definition pex_value (a4 f4 a6 f6 d4 d6 : list Z) : bvalue :=
  BDict (bytes_entry (bytes_of "added") a4 ++ bytes_entry (bytes_of "added.f") f4 ++ bytes_entry (bytes_of "added6") a6
         ++ bytes_entry (bytes_of "added6.f") f6 ++ bytes_entry (bytes_of "dropped") d4 ++ bytes_entry (bytes_of "dropped6") d6).
Lemma append_bytes_field_entry key value : append_bytes_field key value = concat (map entry_bytes (bytes_entry key value)).
Proof.
  unfold append_bytes_field, bytes_entry. case_bool_decide; [done|]. cbn [map concat]. unfold entry_bytes, bencode_bytes. cbn [fst snd bencode].
  unfold bencode_bytes. change (bytes_of ":") with [58]. rewrite app_nil_r, <- !app_assoc. done.
Qed.
Lemma lookup_bytes_entry name value l key : lookup_key (bytes_entry name value ++ l) key =
  if bool_decide (name = key) && negb (bool_decide (value = [])) then Some (BBytes value) else lookup_key l key.
Proof.
  unfold bytes_entry. destruct (bool_decide (value = [])); [by rewrite andb_false_r|]. rewrite andb_true_r. unfold lookup_key. cbn. by case_bool_decide.
Qed.
Lemma elem_of_bytes_entry name value kx : kx ∈ bytes_entry name value -> kx = (name, BBytes value).
Proof. unfold bytes_entry. case_bool_decide; [by intros []%not_elem_of_nil|by intros ->%list_elem_of_singleton]. Qed.
Definition PEX_NAMES : list (list Z) :=
  [bytes_of "added"] ++ [bytes_of "added.f"] ++ [bytes_of "added6"] ++ [bytes_of "added6.f"] ++ [bytes_of "dropped"] ++ [bytes_of "dropped6"].
Lemma item_count_bytes l : Forall (fun kx => exists value, kx.2 = BBytes value) l -> item_count (BDict l) = 1 + 2 * len l.
Proof.
  intros Hl. cbn [item_count]. f_equal. induction Hl as [|[k x] l [value Hx] _ IH]; [done|]. cbn [fold_right]. cbn in Hx. subst x. rewrite IH, len_cons. cbn [item_count]. lia.
Qed.
Lemma pex_value_valid a4 f4 a6 f6 d4 d6 : len (bencode (pex_value a4 f4 a6 f6 d4 d6)) <= MAX_PEX_PAYLOAD_LENGTH ->
  valid true pex_limits 0 (pex_value a4 f4 a6 f6 d4 d6) /\ item_count (pex_value a4 f4 a6 f6 d4 d6) <= 32.
Proof.
  unfold pex_value. set (l := bytes_entry (bytes_of "added") a4 ++ _). intros Hl. rewrite bencode_dict in Hl.
  assert (forall name value, len value < len (bencode_bytes value) /\ 0 <= len (bencode_bytes name)) as Hlen.
  { intros name value. split; [apply len_bencode_bytes|apply len_nonneg]. }
  assert (sublist l.*1 PEX_NAMES) as Hsub.
  { unfold l. rewrite !fmap_app. assert (forall name value, sublist (bytes_entry name value).*1 [name]) as Hb.
    { intros name value. unfold bytes_entry. case_bool_decide; [apply sublist_nil_l|done]. }
    repeat (apply sublist_app; [apply Hb|]). apply Hb. }
  assert (Forall (fun kx => exists value, kx.2 = BBytes value) l) as Hbytes.
  { apply Forall_forall. intros kx Hx. unfold l in Hx. rewrite !elem_of_app in Hx.
    destruct Hx as [H|[H|[H|[H|[H|H]]]]]; apply elem_of_bytes_entry in H as ->; by eexists. }
  assert (len l <= 6) as H6. { apply sublist_length in Hsub. rewrite length_fmap in Hsub. change (length PEX_NAMES) with 6%nat in Hsub. unfold len. lia. }
  split; [|rewrite item_count_bytes by done; lia].
  apply valid_dict; [done|cbn; lia| | |].
  - cbn [keys_ok]. eapply sublist_NoDup; [|exact Hsub]. apply (bool_decide_unpack _). vm_compute. exact I.
  - apply Forall_forall. intros kx Hx. assert (kx.1 ∈ PEX_NAMES) as Hin.
    { eapply elem_of_submseteq; [by apply (list_elem_of_fmap_2 fst)|by apply sublist_submseteq]. }
    assert (Forall (fun name => len name <= max_string_length pex_limits) PEX_NAMES) as Hall by (repeat constructor; vm_compute; congruence).
    rewrite Forall_forall in Hall. by apply Hall.
  - apply Forall_forall. intros [k x] Hx. rewrite Forall_forall in Hbytes. destruct (Hbytes _ Hx) as [value E]. cbn in E |- *. subst x.
    apply valid_bytes; [done|]. apply list_elem_of_split in Hx as (l1 & l2 & E). rewrite E, map_app, concat_app in Hl. cbn [map concat] in Hl. unfold entry_bytes in Hl at 2.
    cbn [fst snd bencode] in Hl. rewrite len_cons, !len_app in Hl. destruct (Hlen k value) as [H1 H2].
    pose proof (len_nonneg (concat (map entry_bytes l1))). pose proof (len_nonneg (concat (map entry_bytes l2))).
    change (max_string_length pex_limits) with MAX_PEX_PAYLOAD_LENGTH. change (len [101]) with 1 in Hl. lia.
Qed.
Lemma parse_pex_bencode a4 f4 a6 f6 d4 d6 : len (bencode (pex_value a4 f4 a6 f6 d4 d6)) <= MAX_PEX_PAYLOAD_LENGTH ->
  parse_pex_message (bencode (pex_value a4 f4 a6 f6 d4 d6)) = pex_of_fields a4 f4 a6 f6 d4 d6.
Proof.
  intros Hl. destruct (pex_value_valid _ _ _ _ _ _ Hl) as [Hv Hi].
  destruct (parse_mode_complete true pex_limits _ wf_pex_limits Hv Hi Hl) as (n & E & Hn). unfold parse_pex_message.
  change (parse_with_limits_permissive_dictionaries ?p pex_limits) with (parse_mode true p pex_limits). rewrite E. obind.
  unfold pex_value in Hv, Hn. destruct (field_node true pex_limits 0 _ n Hv Hn) as (es & -> & Hf). obind.
  assert (forall key value label, (forall w, lookup_key (bytes_entry (bytes_of "added") a4 ++ bytes_entry (bytes_of "added.f") f4 ++ bytes_entry (bytes_of "added6") a6
         ++ bytes_entry (bytes_of "added6.f") f6 ++ bytes_entry (bytes_of "dropped") d4 ++ bytes_entry (bytes_of "dropped6") d6 ++ w) key =
      if bool_decide (value = []) then lookup_key w key else Some (BBytes value)) -> bytes_field es key label = Ok value) as Hb.
  { intros key value label Hk. specialize (Hf key). specialize (Hk []). rewrite app_nil_r in Hk. unfold bytes_field. rewrite Hk in Hf. case_bool_decide as Ev.
    - cbn in Hf. by rewrite Hf, Ev.
    - destruct Hf as (m & -> & [p ->]). done. }
  rewrite (Hb (bytes_of "added") a4), (Hb (bytes_of "added.f") f4), (Hb (bytes_of "added6") a6), (Hb (bytes_of "added6.f") f6),
    (Hb (bytes_of "dropped") d4), (Hb (bytes_of "dropped6") d6); [by obind|intros w; rewrite !lookup_bytes_entry..].
  all: repeat match goal with |- context [bool_decide (bytes_of ?a = bytes_of ?b)] =>
    let c := eval vm_compute in (bool_decide (bytes_of a = bytes_of b)) in change (bool_decide (bytes_of a = bytes_of b)) with c end.
  all: cbn [andb]; by case_bool_decide.
Qed.
Lemma len_concat {A} (size : Z) (l : list (list A)) : Forall (fun c => len c = size) l -> len (concat l) = size * len l.
Proof. induction 1 as [|c l Hc _ IH]; cbn [concat]; [len_lia|]. rewrite len_app, len_cons, IH, Hc. lia. Qed.
Lemma len_append_bytes_field key value : len key < 100 -> len value < 10 ^ 4 -> len (append_bytes_field key value) <= len key + len value + 8.
Proof.
  intros Hk Hv. unfold append_bytes_field. pose proof (len_nonneg key). pose proof (len_nonneg value). case_bool_decide; [len_lia|]. rewrite !len_app. change (len (bytes_of ":")) with 1.
  pose proof (len_decimal_le 1 (len key)). pose proof (len_decimal_le 3 (len value)). change (10 ^ Z.of_nat 2) with 100 in *. change (10 ^ Z.of_nat 4) with 10000 in *. change (10 ^ 4) with 10000 in *. lia.
Qed.
Lemma filter_split {A} (f : A -> bool) l : filter (fun x => f x = true) l ++ filter (fun x => f x = false) l ≡ₚ l.
Proof.
  induction l as [|x l IH]; [done|]. rewrite !filter_cons. destruct (f x); repeat case_decide; try done; cbn [app].
  - by rewrite IH.
  - by rewrite <- Permutation_middle, IH.
Qed.
Lemma filter_Forall {A} (f : A -> bool) (b : bool) (P : A -> Prop) l : Forall P l -> Forall (fun x => P x /\ f x = b) (filter (fun x => f x = b) l).
Proof. intros Hl. apply Forall_forall. intros x [Hx Hin]%list_elem_of_filter. rewrite Forall_forall in Hl. split; [by apply Hl|done]. Qed.

(** A message in the form the decoder gives it: v4 before v6. *)
Definition v4_first {T} (key : T -> PexEndpoint) (l : list T) : list T :=
  filter (fun x => is_v4 (key x) = true) l ++ filter (fun x => is_v4 (key x) = false) l.
Record pex_ok (m : PexMessage) : Prop := {
  po_nonempty : 0 < len (added m) + len (dropped m);
  po_added : len (added m) <= MAX_PEX_ADDITIONS;
  po_dropped : len (dropped m) <= MAX_PEX_DROPS;
  po_canonical : Forall (fun c => canonical (endpoint c)) (added m) /\ Forall canonical (dropped m);
  po_contacts : NoDup (map (fun c => ip (endpoint c)) (added m));
  po_ends : NoDup (map ip (dropped m));
  po_disjoint a : a ∈ map (fun c => ip (endpoint c)) (added m) -> a ∉ map ip (dropped m);
}.
Lemma validate_flags_ok l n label : n = len l -> validate_flags l n label = Ok tt.
Proof. intros ->. unfold validate_flags. by rewrite Z.eqb_refl, andb_false_r. Qed.
Lemma validate_stride_ok l n size label : 0 < size -> len l = size * n -> validate_stride l size label = Ok tt.
Proof. intros Hs E. unfold validate_stride, is_multiple_of. by rewrite E, Z.mul_comm, Z.mod_mul by lia. Qed.
(** What the parser makes of the fields that the encoder writes. *)
Lemma pex_fields_back (a4 a6 : list PexContact) (d4 d6 : list PexEndpoint) :
  Forall (fun c => canonical (endpoint c) /\ is_v4 (endpoint c) = true) a4 -> Forall (fun c => canonical (endpoint c) /\ is_v4 (endpoint c) = false) a6 ->
  Forall (fun e => canonical e /\ is_v4 e = true) d4 -> Forall (fun e => canonical e /\ is_v4 e = false) d6 ->
  pex_of_fields (concat (map (fun c => compact (endpoint c)) a4)) (map flags a4) (concat (map (fun c => compact (endpoint c)) a6)) (map flags a6)
    (concat (map compact d4)) (concat (map compact d6)) =
  let '(added, A) := collect (fun c => ip (endpoint c)) a6 (collect (fun c => ip (endpoint c)) a4 ([], ∅)) in
  let '(dropped, D) := collect ip d6 (collect ip d4 ([], ∅)) in
  match head (sort_by ip_cmp (elements (A ∩ D))) with
  | Some conflict => Err (EE_ConflictingContact conflict)
  | None =>
    if (len added =? 0) && (len dropped =? 0) then Err EE_EmptyPex
    else Ok (mkPex (truncate MAX_PEX_ADDITIONS added) (truncate MAX_PEX_DROPS dropped)
                   (saturating_sub (len added) MAX_PEX_ADDITIONS) (saturating_sub (len dropped) MAX_PEX_DROPS))
  end.
Proof.
  intros Ha4 Ha6 Hd4 Hd6.
  assert (Forall (fun c => length (compact (endpoint c)) = 6%nat /\ endpoint4 (compact (endpoint c)) = endpoint c) a4) as Fa4.
  { eapply Forall_impl; [exact Ha4|]. intros c []. by apply endpoint4_compact. }
  assert (Forall (fun c => length (compact (endpoint c)) = 18%nat /\ endpoint6 (compact (endpoint c)) = endpoint c) a6) as Fa6.
  { eapply Forall_impl; [exact Ha6|]. intros c []. by apply endpoint6_compact. }
  assert (Forall (fun e => length (compact e) = 6%nat /\ endpoint4 (compact e) = e) d4) as Fd4.
  { eapply Forall_impl; [exact Hd4|]. intros c []. by apply endpoint4_compact. }
  assert (Forall (fun e => length (compact e) = 18%nat /\ endpoint6 (compact e) = e) d6) as Fd6.
  { eapply Forall_impl; [exact Hd6|]. intros c []. by apply endpoint6_compact. }
  assert (forall T (f : T -> list Z) size (l : list T), Forall (fun c => length (f c) = size) l -> len (concat (map f l)) = Z.of_nat size * len l) as Hlen.
  { intros T f size l Hl. rewrite (len_concat (Z.of_nat size)); [unfold len; by rewrite length_map|]. rewrite Forall_map. eapply Forall_impl; [exact Hl|]. intros c <-. done. }
  assert (len (concat (map (fun c => compact (endpoint c)) a4)) = 6 * len a4) as L1 by (apply (Hlen _ _ 6%nat); eapply Forall_impl; [exact Fa4|by intros ? []]).
  assert (len (concat (map (fun c => compact (endpoint c)) a6)) = 18 * len a6) as L2 by (apply (Hlen _ _ 18%nat); eapply Forall_impl; [exact Fa6|by intros ? []]).
  assert (len (concat (map compact d4)) = 6 * len d4) as L3 by (apply (Hlen _ _ 6%nat); eapply Forall_impl; [exact Fd4|by intros ? []]).
  assert (len (concat (map compact d6)) = 18 * len d6) as L4 by (apply (Hlen _ _ 18%nat); eapply Forall_impl; [exact Fd6|by intros ? []]).
  unfold pex_of_fields. rewrite (validate_stride_ok _ (len a4) 6 "added"), (validate_stride_ok _ (len a6) 18 "added6"),
    (validate_stride_ok _ (len d4) 6 "dropped"), (validate_stride_ok _ (len d6) 18 "dropped6"), L1, L2 by (lia || done). obind.
  assert (forall (l : list PexContact) size, 0 < size -> size * len l / size = len (map flags l)) as Hdiv.
  { intros l size Hs. rewrite Z.mul_comm, Z.div_mul by lia. unfold len. by rewrite length_map. }
  rewrite (validate_flags_ok (map flags a4)), (validate_flags_ok (map flags a6)) by (apply Hdiv; lia). obind.
  unfold decode_added6, decode_added4, decode_dropped6, decode_dropped4. rewrite !contacts_back, !endpoints_back by (lia || done). done.
Qed.
Lemma pex_back (a4 a6 : list PexContact) (d4 d6 : list PexEndpoint) :
  Forall (fun c => canonical (endpoint c) /\ is_v4 (endpoint c) = true) a4 -> Forall (fun c => canonical (endpoint c) /\ is_v4 (endpoint c) = false) a6 ->
  Forall (fun e => canonical e /\ is_v4 e = true) d4 -> Forall (fun e => canonical e /\ is_v4 e = false) d6 ->
  NoDup (map (fun c => ip (endpoint c)) (a4 ++ a6)) -> NoDup (map ip (d4 ++ d6)) -> (forall a, a ∈ map (fun c => ip (endpoint c)) (a4 ++ a6) -> a ∉ map ip (d4 ++ d6)) ->
  0 < len (a4 ++ a6) + len (d4 ++ d6) -> len (a4 ++ a6) <= MAX_PEX_ADDITIONS -> len (d4 ++ d6) <= MAX_PEX_DROPS ->
  pex_of_fields (concat (map (fun c => compact (endpoint c)) a4)) (map flags a4) (concat (map (fun c => compact (endpoint c)) a6)) (map flags a6)
    (concat (map compact d4)) (concat (map compact d6)) = Ok (mkPex (a4 ++ a6) (d4 ++ d6) 0 0).
Proof.
  intros Ha4 Ha6 Hd4 Hd6 Hna Hnd Hdis Hpos Hla Hld.
  rewrite pex_fields_back by done.
  set (k := fun c => ip (endpoint c)) in *.
  pose proof (collect_new_ok k a6 _ (collect_new_ok k a4 _ (collected_nil k))) as CA. pose proof (collect_new_ok ip d6 _ (collect_new_ok ip d4 _ (collected_nil ip))) as CD.
  assert ((collect k a4 ([], ∅)).1 = a4) as E4.
  { apply collect_distinct; [apply collected_nil|]. cbn [app fst]. rewrite map_app in Hna. by apply NoDup_app in Hna as [? _]. }
  assert ((collect ip d4 ([], ∅)).1 = d4) as E4'.
  { apply collect_distinct; [apply collected_nil|]. cbn [app fst]. rewrite map_app in Hnd. by apply NoDup_app in Hnd as [? _]. }
  assert ((collect k a6 (collect k a4 ([], ∅))).1 = a4 ++ a6) as EA.
  { rewrite collect_distinct, E4; [done|apply collect_new_ok, collected_nil|by rewrite E4]. }
  assert ((collect ip d6 (collect ip d4 ([], ∅))).1 = d4 ++ d6) as ED.
  { rewrite collect_distinct, E4'; [done|apply collect_new_ok, collected_nil|by rewrite E4']. }
  destruct (collect k a6 _) as [contacts A], (collect ip d6 _) as [ends D]. cbn [fst] in EA, ED. subst contacts ends.
  assert (A ∩ D = ∅) as Hempty.
  { apply set_eq. intros a. split; [|set_solver]. intros [Ha%(cd_set _ _ CA) Hd%(cd_set _ _ CD)]%elem_of_intersection. by destruct (Hdis a Ha). }
  rewrite (proj2 (no_conflict _) Hempty). pose proof (len_nonneg (a4 ++ a6)). pose proof (len_nonneg (d4 ++ d6)).
  destruct (Z.eqb_spec (len (a4 ++ a6)) 0), (Z.eqb_spec (len (d4 ++ d6)) 0); try lia; cbn [andb];
    unfold truncate, saturating_sub; rewrite !take_ge by (unfold len, MAX_PEX_ADDITIONS, MAX_PEX_DROPS in *; lia); do 2 f_equal; lia.
Qed.
Lemma pex_value_bytes a4 f4 a6 f6 d4 d6 : bencode (pex_value a4 f4 a6 f6 d4 d6) =
  bytes_of "d" ++ append_bytes_field (bytes_of "added") a4 ++ append_bytes_field (bytes_of "added.f") f4 ++ append_bytes_field (bytes_of "added6") a6
  ++ append_bytes_field (bytes_of "added6.f") f6 ++ append_bytes_field (bytes_of "dropped") d4 ++ append_bytes_field (bytes_of "dropped6") d6 ++ bytes_of "e".
Proof.
  unfold pex_value. rewrite bencode_dict, !map_app, !concat_app, <- !append_bytes_field_entry.
  change (bytes_of "d") with [100]. change (bytes_of "e") with [101]. cbn [app]. by rewrite <- !app_assoc.
Qed.
Lemma len_pex_value a4 f4 a6 f6 d4 d6 : Forall (fun value => len value <= 900) [a4; f4; a6; f6; d4; d6] ->
  len (bencode (pex_value a4 f4 a6 f6 d4 d6)) <= MAX_PEX_PAYLOAD_LENGTH.
Proof.
  rewrite !Forall_cons. intros (H1 & H2 & H3 & H4 & H5 & H6 & _). rewrite pex_value_bytes, !len_app.
  change (len (bytes_of "d")) with 1. change (len (bytes_of "e")) with 1.
  assert (forall key value, len key <= 8 -> len value <= 900 -> len (append_bytes_field key value) <= 916) as Hf.
  { intros key value Hk Hv. etransitivity; [apply len_append_bytes_field; [lia|change (10 ^ 4) with 10000; lia]|lia]. }
  pose proof (Hf (bytes_of "added") _ ltac:(done) H1). pose proof (Hf (bytes_of "added.f") _ ltac:(done) H2). pose proof (Hf (bytes_of "added6") _ ltac:(done) H3).
  pose proof (Hf (bytes_of "added6.f") _ ltac:(done) H4). pose proof (Hf (bytes_of "dropped") _ ltac:(done) H5). pose proof (Hf (bytes_of "dropped6") _ ltac:(done) H6).
  unfold MAX_PEX_PAYLOAD_LENGTH. lia.
Qed.
Lemma len_compacts {T} (f : T -> PexEndpoint) (P : T -> bool) b (l : list T) : Forall (fun x => canonical (f x)) l -> len l <= 50 ->
  len (concat (map (fun x => compact (f x)) (filter (fun x => P x = b) l))) <= 900 /\ len (filter (fun x => P x = b) l) <= 50.
Proof.
  intros Hl H50. assert (len (filter (fun x => P x = b) l) <= len l) as Hfl by (unfold len; apply inj_le, length_filter). split; [|lia].
  assert (forall k, Forall (fun x => canonical (f x)) k -> len (concat (map (fun x => compact (f x)) k)) <= 18 * len k) as H.
  { intros k. induction 1 as [|x k [Hx Hp] _ IH]; cbn [map concat]; [len_lia|]. rewrite len_app, len_cons. unfold compact at 1. rewrite len_app, len_to_be.
    unfold canonical_ip in Hx. destruct (ip (f x)); [lia|]. destruct Hx. lia. }
  etransitivity; [apply H|lia]. eapply Forall_impl; [by apply (filter_Forall P b)|]. by intros x [].
Qed.
Lemma encode_pex_bencode m : 0 < len (added m) + len (dropped m) -> len (added m) <= MAX_PEX_ADDITIONS -> len (dropped m) <= MAX_PEX_DROPS ->
  Forall (fun c => canonical (endpoint c)) (added m) -> Forall canonical (dropped m) ->
  let a4 := filter (fun c => is_v4 (endpoint c) = true) (added m) in
  let a6 := filter (fun c => is_v4 (endpoint c) = false) (added m) in
  let v := pex_value (concat (map (fun c => compact (endpoint c)) a4)) (map flags a4) (concat (map (fun c => compact (endpoint c)) a6)) (map flags a6)
             (concat (map compact (filter (fun e => is_v4 e = true) (dropped m)))) (concat (map compact (filter (fun e => is_v4 e = false) (dropped m)))) in
  encode_pex_message m = Ok (bencode v) /\ len (bencode v) <= MAX_PEX_PAYLOAD_LENGTH.
Proof.
  intros Hpos Ha Hd Hca Hcd a4 a6 v.
  destruct (len_compacts endpoint (fun c => is_v4 (endpoint c)) true _ Hca Ha) as [H1 H2]. destruct (len_compacts endpoint (fun c => is_v4 (endpoint c)) false _ Hca Ha) as [H3 H4].
  destruct (len_compacts (fun e => e) is_v4 true _ Hcd Hd) as [H5 _]. destruct (len_compacts (fun e => e) is_v4 false _ Hcd Hd) as [H6 _].
  assert (len (bencode v) <= MAX_PEX_PAYLOAD_LENGTH) as Hb.
  { apply len_pex_value. repeat (apply Forall_cons; split); try done; unfold len in *; rewrite ?length_map; fold a4 a6 in H2, H4; lia. }
  split; [|exact Hb]. unfold encode_pex_message. fold a4 a6. rewrite <- pex_value_bytes.
  rewrite (proj2 (Z.ltb_ge MAX_PEX_ADDITIONS _)), (proj2 (Z.ltb_ge MAX_PEX_DROPS _)), (proj2 (Z.ltb_ge MAX_PEX_PAYLOAD_LENGTH _)) by done. cbn [orb].
  destruct (bool_decide (added m = [])) eqn:E1, (bool_decide (dropped m = [])) eqn:E2; try done. apply bool_decide_eq_true in E1, E2. rewrite E1, E2 in Hpos. done.
Qed.

Lemma pex_message_back m : pex_ok m -> exists bytes, encode_pex_message m = Ok bytes
  /\ parse_pex_message bytes = Ok (mkPex (v4_first endpoint (added m)) (v4_first id (dropped m)) 0 0).
Proof.
  intros [Hpos Ha Hd [Hca Hcd] Hn1 Hn2 Hdis]. destruct (encode_pex_bencode m Hpos Ha Hd Hca Hcd) as [E Hl]. eexists. split; [exact E|]. rewrite parse_pex_bencode by done.
  assert (v4_first endpoint (added m) ≡ₚ added m) as Pa by apply (filter_split (fun c => is_v4 (endpoint c))).
  assert (v4_first id (dropped m) ≡ₚ dropped m) as Pd by apply (filter_split is_v4). unfold len in *.
  apply pex_back.
  - by apply (filter_Forall (fun c => is_v4 (endpoint c)) true).
  - by apply (filter_Forall (fun c => is_v4 (endpoint c)) false).
  - by apply (filter_Forall is_v4 true).
  - by apply (filter_Forall is_v4 false).
  - fold (v4_first endpoint (added m)). change (map ?f ?l) with (f <$> l) in *. by rewrite Pa.
  - fold (v4_first id (dropped m)). change (map ?f ?l) with (f <$> l) in *. by rewrite Pd.
  - fold (v4_first endpoint (added m)) (v4_first id (dropped m)). change (map ?f ?l) with (f <$> l) in *. intros x. rewrite Pa, Pd. apply Hdis.
  - fold (v4_first endpoint (added m)) (v4_first id (dropped m)). unfold len. by rewrite Pa, Pd.
  - fold (v4_first endpoint (added m)). unfold len. by rewrite Pa.
  - fold (v4_first id (dropped m)). unfold len. by rewrite Pd.
Qed.

(** A message that adds and drops one address is encoded, and then refused. *)
Lemma pex_conflict_back m x : len (added m) <= MAX_PEX_ADDITIONS -> len (dropped m) <= MAX_PEX_DROPS -> Forall (fun c => canonical (endpoint c)) (added m) -> Forall canonical (dropped m) ->
  x ∈ map (fun c => ip (endpoint c)) (added m) -> x ∈ map ip (dropped m) ->
  exists bytes conflict, encode_pex_message m = Ok bytes /\ parse_pex_message bytes = Err (EE_ConflictingContact conflict).
Proof.
  intros Ha Hd Hca Hcd Hxa Hxd. assert (0 < len (added m) + len (dropped m)) as Hpos.
  { pose proof (len_nonneg (dropped m)). destruct (added m) as [|c l]; [by apply not_elem_of_nil in Hxa|]. rewrite len_cons. pose proof (len_nonneg l). lia. }
  destruct (encode_pex_bencode m Hpos Ha Hd Hca Hcd) as [E Hl]. eexists. rewrite parse_pex_bencode by done.
  assert (x ∈ map (fun c => ip (endpoint c)) (v4_first endpoint (added m))) as Xa.
  { assert (v4_first endpoint (added m) ≡ₚ added m) as P by apply (filter_split (fun c => is_v4 (endpoint c))). change (map ?f ?l) with (f <$> l) in *. by rewrite P. }
  assert (x ∈ map ip (v4_first id (dropped m))) as Xd.
  { assert (v4_first id (dropped m) ≡ₚ dropped m) as P by apply (filter_split is_v4). change (map ?f ?l) with (f <$> l) in *. by rewrite P. }
  unfold v4_first in Xa, Xd. rewrite map_app, elem_of_app in Xa, Xd. rewrite pex_fields_back.
  - assert (x ∈ (collect (fun c => ip (endpoint c)) (filter (fun c => is_v4 (endpoint c) = false) (added m)) (collect (fun c => ip (endpoint c)) (filter (fun c => is_v4 (endpoint c) = true) (added m)) ([], ∅))).2) as KA.
    { apply collect_keys. destruct Xa as [Xa|Xa]; [right; apply collect_keys|]; by left. }
    assert (x ∈ (collect ip (filter (fun e => is_v4 e = false) (dropped m)) (collect ip (filter (fun e => is_v4 e = true) (dropped m)) ([], ∅))).2) as KD.
    { apply collect_keys. destruct Xd as [Xd|Xd]; [right; apply collect_keys|]; by left. }
    destruct (collect _ (filter (fun c => is_v4 (endpoint c) = false) _) _) as [contacts A], (collect ip (filter (fun e => is_v4 e = false) _) _) as [ends D]. cbn [snd] in KA, KD.
    destruct (head (sort_by ip_cmp (elements (A ∩ D)))) as [conflict|] eqn:Eh; [exists conflict; by split|]. apply no_conflict in Eh.
    assert (x ∈ A ∩ D) as Hin by (by apply elem_of_intersection).
    rewrite Eh in Hin. by apply not_elem_of_empty in Hin.
  - by apply (filter_Forall (fun c => is_v4 (endpoint c)) true).
  - by apply (filter_Forall (fun c => is_v4 (endpoint c)) false).
  - by apply (filter_Forall is_v4 true).
  - by apply (filter_Forall is_v4 false).
Qed.

Lemma parse_pex_returns payload : returns (parse_pex_message payload).
Proof.
  unfold parse_pex_message. apply returns_bind; [apply returns_map_err, (parse_mode_returns true), wf_pex_limits|]. intros root _.
  apply returns_bind; [apply returns_ok_or|]. intros es _. unfold bytes_field. repeat (apply returns_bind; [by repeat case_match|intros ? _]).
  apply pex_of_fields_returns.
Qed.

Lemma encode_pex_returns m : returns (encode_pex_message m).
Proof. unfold encode_pex_message. destruct (_ && _); [done|]. destruct (_ || _); [done|]. by destruct (_ <? _). Qed.

(** * Properties *)

(** C36: The extension handshake that is sent is the one received.  What the
    encoder of an advertisement, or of a repeated update, accepts is parsed
    to the same enabled, disabled and untouched extensions, port and size (a
    size above the trusted limit is ignored); the one exception is a
    listening port of zero, which is encoded but refused by the parser. *)
Theorem handshake_roundtrip h a bytes : handshake_typed h ->
  encode_extension_handshake_update h = Ok bytes
    \/ encode_extension_handshake a = Ok bytes /\ h = mkHandshake (of_id (ad_metadata_id a)) (of_id (ad_pex_id a)) (ad_metadata_size a) (ad_listen_port a) ->
  parse_extension_handshake bytes = received h.
Proof.
  intros Ht H. assert (encode_extension_handshake_update h = Ok bytes) as E by (destruct H as [E|[E ->]]; [done|by rewrite <- encode_advertisement]).
  apply encode_update_sendable in E as [Hs ->]. pose proof (len_encode_fields h Ht) as Hl. rewrite encode_fields_bencode in Hl |- * by done.
  destruct (handshake_value_valid h Ht) as [Hv Hi]. rewrite parse_handshake_bencode by done. by apply handshake_of_value.
Qed.

(** C25: A peer exchange message arrives as it was sent: every message of at
    most fifty additions and fifty drops, not empty, with canonical addresses
    that are not repeated and not both added and dropped, is encoded within
    the payload limit and parsed back with every contact, flag and port, the
    v4 contacts before the v6 ones. *)
Theorem pex_roundtrip m : pex_ok m -> exists bytes, encode_pex_message m = Ok bytes
  /\ parse_pex_message bytes = Ok (mkPex (v4_first endpoint (added m)) (v4_first id (dropped m)) 0 0).
Proof. apply pex_message_back. Qed.

(** Whatever a peer sends, the parser of exchange messages returns, and
    a message it accepts is safe to use: not empty, at most fifty additions
    and fifty drops (with the number that was cut off), every address in its
    canonical form, none added twice, none dropped twice, none both added
    and dropped. *)
Theorem pex_parse_safe payload : returns (parse_pex_message payload) /\ forall m, parse_pex_message payload = Ok m ->
  pex_lists (added m) (dropped m) /\ 0 < len (added m) + len (dropped m)
  /\ len (added m) <= MAX_PEX_ADDITIONS /\ len (dropped m) <= MAX_PEX_DROPS
  /\ (0 < additions_truncated m -> len (added m) = MAX_PEX_ADDITIONS) /\ (0 < drops_truncated m -> len (dropped m) = MAX_PEX_DROPS).
Proof.
  split.
  - apply parse_pex_returns.
  - intros m H. assert (exists a4 f4 a6 f6 d4 d6, pex_of_fields a4 f4 a6 f6 d4 d6 = Ok m) as (a4 & f4 & a6 & f6 & d4 & d6 & E).
    { revert H. unfold parse_pex_message. do 8 (match goal with |- (?c ≫= _) = _ -> _ => destruct c; [|done..]; rewrite ok_bind end). intros E. by repeat eexists. }
    apply pex_of_fields_ok in E as (contacts & ends & [H1 H2 H3 [H4 H5]] & Hpos & ->). cbn [added dropped additions_truncated drops_truncated].
    unfold truncate, saturating_sub. pose proof (len_nonneg contacts). pose proof (len_nonneg ends).
    split; [|unfold MAX_PEX_ADDITIONS, MAX_PEX_DROPS in *; rewrite !len_take, !Z2Nat.id by lia; lia]. split.
    + rewrite <- firstn_map. eapply sublist_NoDup; [exact H1|apply sublist_take].
    + rewrite <- firstn_map. eapply sublist_NoDup; [exact H2|apply sublist_take].
    + rewrite <- !firstn_map. intros a Ha Hd. by apply (H3 a); [apply (subseteq_take _ _ _ Ha)|apply (subseteq_take _ _ _ Hd)].
    + split; by apply Forall_take.
Qed.

(** * Witnesses *)
Definition sample_handshake : ExtensionHandshake := mkHandshake (Enabled 3) Disabled (Some 1000) (Some 6881).
Definition sample_handshake_bytes : list Z :=
  match encode_extension_handshake_update sample_handshake with Ok bytes => bytes | _ => [] end.
Lemma handshake_roundtrip_witness : parse_extension_handshake sample_handshake_bytes = Ok sample_handshake.
Proof.
  rewrite (handshake_roundtrip sample_handshake (mkAdvertisement None None None None) sample_handshake_bytes); [vm_compute; exact eq_refl|vm_compute; split_and!; (exact I || congruence)|].
  left. vm_compute. exact eq_refl.
Defined.
Definition sample_pex : PexMessage :=
  mkPex [mkContact (mkEndpoint (V6 (replicate 16 1)) 80) 4; mkContact (mkEndpoint (V4 [10; 0; 0; 1]) 6881) 2] [mkEndpoint (V4 [10; 0; 0; 2]) 1] 0 0.
Lemma pex_roundtrip_witness : exists bytes, encode_pex_message sample_pex = Ok bytes
  /\ parse_pex_message bytes = Ok (mkPex [mkContact (mkEndpoint (V4 [10; 0; 0; 1]) 6881) 2; mkContact (mkEndpoint (V6 (replicate 16 1)) 80) 4]
       [mkEndpoint (V4 [10; 0; 0; 2]) 1] 0 0).
Proof.
  apply (pex_roundtrip sample_pex). split; [done..| | | |].
  - split; repeat constructor; vm_compute; congruence.
  - apply (bool_decide_unpack _). vm_compute. exact I.
  - apply (bool_decide_unpack _). vm_compute. exact I.
  - intros a [->|[->|[]%not_elem_of_nil]%elem_of_cons]%elem_of_cons; apply (bool_decide_unpack _); vm_compute; exact I.
Defined.
(** The parser accepts the sample, and what it accepts is safe. *)
Definition sample_pex_bytes : list Z := match encode_pex_message sample_pex with Ok bytes => bytes | _ => [] end.
Definition sample_pex_parsed : PexMessage := match parse_pex_message sample_pex_bytes with Ok m => m | _ => mkPex [] [] 0 0 end.
Lemma pex_parse_safe_witness : parse_pex_message sample_pex_bytes = Ok sample_pex_parsed /\ 0 < len (added sample_pex_parsed) + len (dropped sample_pex_parsed).
Proof.
  destruct (pex_parse_safe sample_pex_bytes) as [_ H]. assert (parse_pex_message sample_pex_bytes = Ok sample_pex_parsed) as E by (vm_compute; exact eq_refl).
  split; [exact E|]. apply (H sample_pex_parsed E).
Defined.
