(* ===== verification/Metadata.v ===== *)
(** * Metadata exchange (src/metadata.rs)

    The BEP 9 messages over the strict parser of [Bencode], the download of a
    torrent's metadata from one peer ([MetadataDownload]) and its upload
    ([MetadataUpload]).  The download from several peers is in
    [TorrentMetadata].  SHA-1 and SHA-256 come from other crates; they are
    parameters.

    The properties: what is encoded is parsed back; whatever a peer sends,
    the download keeps its invariant and completes only with bytes of the
    expected hash; and against an upload of the same metadata it completes,
    in whatever order the answers arrive. *)
From stdpp Require Import strings.
From S2P Require Import Prelude Bytes Bencode Fields PeerWire Ordered Extension.
#[local] Open Scope Z_scope.

Definition METADATA_BLOCK_LENGTH : Z := 16 * 1024.
Definition MAX_METADATA_LENGTH : Z := 30 * 1024 * 1024.
Definition MAX_LOCAL_METADATA_LENGTH : Z := 64 * 1024 * 1024.
Definition MAX_METADATA_BLOCKS : Z := MAX_METADATA_LENGTH / METADATA_BLOCK_LENGTH.
Definition MAX_METADATA_REQUESTS_IN_FLIGHT : Z := 2.
Definition MAX_METADATA_MESSAGE_DECODED_ITEMS : Z := 1024.
Definition i64_MAX : Z := 2 ^ 63 - 1.

Inductive MetadataMessage :=
| Request (piece : Z)
| Data (piece total_size : Z) (block : list Z)
| Reject (piece : Z)
| Unknown (message_type : Z).
Inductive MetadataError :=
| ME_Bencode (error : ParseError)
| ME_Extension (error : ExtensionError)
| ME_RootIsNotDictionary
| ME_MissingField (field : string)
| ME_InvalidField (field : string)
| ME_InvalidSize (size maximum : Z)
| ME_SizeChanged (expected actual : Z)
| ME_InvalidPiece (piece : Z)
| ME_InvalidBlockLength (piece actual expected : Z)
| ME_UnsolicitedPiece (piece : Z)
| ME_ConflictingDuplicate (piece : Z)
| ME_Rejected (piece : Z)
| ME_HashMismatch
| ME_AlreadyStarted
| ME_AlreadyComplete
| ME_UploadRequestLimit (maximum : Z)
| ME_MetadataPeerLimit (maximum : Z)
| ME_UnknownMetadataPeer (peer : Z).
Abbreviation result := (outcome MetadataError).

(** ** Geometry and checks *)
Definition metadata_block_count (total_size : Z) : Z := div_ceil total_size METADATA_BLOCK_LENGTH.
Definition metadata_block_length (total_size piece : Z) : result Z :=
  let count := metadata_block_count total_size in
  if count <=? piece then Err (ME_InvalidPiece piece)
  else Ok (Z.min (total_size - piece * METADATA_BLOCK_LENGTH) METADATA_BLOCK_LENGTH).
Definition validate_size (size : Z) : result Z :=
  if (1 <=? size) && (size <=? MAX_METADATA_LENGTH) then Ok size else Err (ME_InvalidSize size MAX_METADATA_LENGTH).
Definition validate_local_size (size : Z) : result Z :=
  if (1 <=? size) && (size <=? MAX_LOCAL_METADATA_LENGTH) then Ok size else Err (ME_InvalidSize size MAX_LOCAL_METADATA_LENGTH).
(** [i64::try_from] of a [usize], with the error the callers give. *)
Definition size_to_i64 (size maximum : Z) : result Z :=
  if size <=? i64_MAX then Ok size else Err (ME_InvalidSize i64_MAX maximum).
Definition valid_piece_number (piece : Z) : result Z :=
  if (0 <=? piece) && (piece <=? umax 32) then Ok piece else Err (ME_InvalidPiece piece).
Definition metadata_limits : Limits :=
  {| max_input_length := MAX_EXTENSION_PAYLOAD_LENGTH; max_string_length := 4096; max_decoded_items := MAX_METADATA_MESSAGE_DECODED_ITEMS;
     max_depth := 8; max_collection_entries := 128 |}.
Definition reject_trailing (consumed length : Z) : result unit :=
  if negb (consumed =? length) then Err (ME_Bencode (TrailingData consumed)) else Ok tt.

(** ** Messages *)
Record MetadataHandshake := mkMetadataHandshake { metadata_extension : ExtensionUpdate; metadata_size : option Z }.
Definition parse_metadata_handshake (payload : list Z) : result MetadataHandshake :=
  handshake ← map_err ME_Extension (parse_extension_handshake payload);
  Ok (mkMetadataHandshake (h_metadata handshake) (h_metadata_size handshake)).
Definition encode_extension_handshake_with_id (local_metadata_id : Z) (size : option Z) : result (list Z) :=
  if local_metadata_id =? 0 then Err (ME_InvalidField "local ut_metadata extension ID")
  else
    _ ← traverse size (fun size => size_to_i64 size MAX_LOCAL_METADATA_LENGTH ≫= validate_local_size);
    map_err ME_Extension (encode_extension_handshake (mkAdvertisement (Some local_metadata_id) None size None)).
(** The public entry expects the encoder not to fail. *)
Definition encode_metadata_handshake (size : option Z) : result (list Z) :=
  match encode_extension_handshake_with_id UT_METADATA_LOCAL_ID size with Ok bytes => Ok bytes | Err _ => Panic | Panic => Panic | NoFuel => NoFuel end.

Definition required_integer (entries : list DictionaryEntry) (key : list Z) (label : string) : result Z :=
  node ← ok_or (field entries key) (ME_MissingField label);
  integer node (ME_InvalidField label).
Definition parse_metadata_message (payload : list Z) : result MetadataMessage :=
  '(root, consumed) ← map_err ME_Bencode (parse_prefix_with_limits payload metadata_limits);
  entries ← ok_or (dictionary root) ME_RootIsNotDictionary;
  message_type ← required_integer entries (bytes_of "msg_type") "msg_type";
  if negb ((0 <=? message_type) && (message_type <=? 2)) then Ok (Unknown message_type)
  else
    piece ← required_integer entries (bytes_of "piece") "piece";
    if message_type =? 0 then _ ← reject_trailing consumed (len payload); Ok (Request piece)
    else if message_type =? 1 then
      total_size ← required_integer entries (bytes_of "total_size") "total_size";
      total_size ← validate_size total_size;
      block ← slice payload consumed (len payload);
      Ok (Data piece total_size block)
    else _ ← reject_trailing consumed (len payload); Ok (Reject piece).

(** [i64::to_string], and the digits with the final [e]. *)
Definition i64_to_string (value : Z) : list Z := if value <? 0 then bytes_of "-" ++ decimal (- value) else decimal value.
Definition push_integer (value : Z) : list Z := i64_to_string value ++ bytes_of "e".
Definition encode_control_message (message_type piece : Z) : list Z :=
  bytes_of "d8:msg_typei" ++ push_integer message_type ++ bytes_of "5:piecei" ++ push_integer piece ++ bytes_of "e".
Definition encode_metadata_request (piece : Z) : list Z := encode_control_message 0 piece.
Definition encode_metadata_reject (piece : Z) : list Z := encode_control_message 2 piece.
Definition encode_metadata_data (piece total_size : Z) (block : list Z) : result (list Z) :=
  total_size ← size_to_i64 total_size MAX_LOCAL_METADATA_LENGTH ≫= validate_local_size;
  expected ← metadata_block_length total_size piece;
  if negb (len block =? expected) then Err (ME_InvalidBlockLength piece (len block) expected)
  else Ok (bytes_of "d8:msg_typei1e5:piecei" ++ push_integer piece ++ bytes_of "10:total_sizei" ++ push_integer total_size ++ bytes_of "e" ++ block).

(** ** Download from one peer *)
Inductive MetadataInfoHash := HashV1 (hash : list Z) | HashV2 (hash : list Z).
(** [bytes[begin..begin + block.len()].copy_from_slice(block)]. *)
Definition copy_into {E} (bytes : list Z) (begin : Z) (block : list Z) : outcome E (list Z) :=
  if (0 <=? begin) && (begin + len block <=? len bytes) then Ok (sub_list bytes 0 begin ++ block ++ skip bytes (begin + len block)) else Panic.

Inductive MetadataDownloadAction := RequestPiece (piece : Z) | Complete (bytes : list Z).
Record MetadataDownload := mkDownload {
  expected_info_hash : MetadataInfoHash;
  d_size : option Z;
  d_bytes : list Z;
  d_received : list bool;
  d_pending : gset Z;
  started : bool;
  complete : bool;
}.
Definition set_d_size (size : option Z) (bytes : list Z) (received : list bool) (d : MetadataDownload) : MetadataDownload :=
  mkDownload (expected_info_hash d) size bytes received (d_pending d) (started d) (complete d).
Definition set_d_bytes (bytes : list Z) (d : MetadataDownload) : MetadataDownload := set_d_size (d_size d) bytes (d_received d) d.
Definition set_d_received (received : list bool) (d : MetadataDownload) : MetadataDownload := set_d_size (d_size d) (d_bytes d) received d.
Definition set_d_pending (pending : gset Z) (d : MetadataDownload) : MetadataDownload :=
  mkDownload (expected_info_hash d) (d_size d) (d_bytes d) (d_received d) pending (started d) (complete d).
Definition set_started (d : MetadataDownload) : MetadataDownload :=
  mkDownload (expected_info_hash d) (d_size d) (d_bytes d) (d_received d) (d_pending d) true (complete d).
Definition set_d_complete (d : MetadataDownload) : MetadataDownload :=
  mkDownload (expected_info_hash d) (d_size d) (d_bytes d) (d_received d) (d_pending d) (started d) true.
Definition MetadataDownload_new (expected : MetadataInfoHash) : MetadataDownload := mkDownload expected None [] [] ∅ false false.
Abbreviation method := (M MetadataDownload MetadataError).

Definition accept_size (size : Z) : method unit :=
  size ← lift (size_to_i64 size MAX_METADATA_LENGTH ≫= validate_size);
  s ← get;
  match d_size s with
  | Some expected => if negb (expected =? size) then fail (ME_SizeChanged expected size) else mret tt
  | None => modify (set_d_size (Some size) (replicate (Z.to_nat size) 0) (replicate (Z.to_nat (metadata_block_count size)) false))
  end.
Definition accept_size_hint (size : Z) : method unit :=
  if MAX_TRUSTED_METADATA_HANDSHAKE_LENGTH <? size then mret tt else accept_size size.
(** [BTreeSet::len]. *)
Definition set_len (X : gset Z) : Z := Z.of_nat (size X).
Fixpoint request_missing (pieces : list Z) : method (list MetadataDownloadAction) :=
  match pieces with
  | [] => mret []
  | piece :: pieces =>
    s ← get;
    if set_len (d_pending s) =? MAX_METADATA_REQUESTS_IN_FLIGHT then mret []
    else
      piece ← lift (ok_or (try_u 32 piece) (ME_InvalidPiece i64_MAX));
      received ← lift (index (d_received s) piece);
      if negb received && negb (bool_decide (piece ∈ d_pending s)) then
        modify (fun s => set_d_pending ({[piece]} ∪ d_pending s) s);;
        actions ← request_missing pieces;
        mret (RequestPiece piece :: actions)
      else request_missing pieces
  end.
Definition schedule_requests : method (list MetadataDownloadAction) :=
  s ← get;
  match d_size s with
  | None =>
    if bool_decide (d_pending s = ∅) then modify (set_d_pending {[0]});; mret [RequestPiece 0] else mret []
  | Some _ => request_missing (seqZ 0 (len (d_received s)))
  end.
Definition start (advertised_size : option Z) : method (list MetadataDownloadAction) :=
  s ← get;
  if started s then fail ME_AlreadyStarted
  else
    modify set_started;;
    (match advertised_size with Some size => accept_size_hint size | None => mret tt end);;
    schedule_requests.
Definition accept_advertised_size (size : Z) : method (list MetadataDownloadAction) :=
  s ← get;
  if complete s then fail ME_AlreadyComplete
  else
    accept_size_hint size;;
    s ← get;
    if started s then schedule_requests else mret [].

Section download.
Context (sha1 sha256 : list Z -> list Z).

Definition matches (expected : MetadataInfoHash) (bytes : list Z) : bool :=
  match expected with
  | HashV1 expected => bool_decide (sha1 bytes = expected)
  | HashV2 expected => bool_decide (sha256 bytes = expected)
  end.
(** A block that was not received before. *)
Definition store_block (piece begin : Z) (block : list Z) : method (list MetadataDownloadAction) :=
  s ← get;
  bytes ← lift (copy_into (d_bytes s) begin block);
  modify (set_d_bytes bytes);;
  modify (fun s => set_d_received (<[Z.to_nat piece := true]> (d_received s)) s);;
  s ← get;
  if forallb (fun received => received) (d_received s) then
    if negb (matches (expected_info_hash s) (d_bytes s)) then fail ME_HashMismatch
    else
      modify set_d_complete;;
      modify (set_d_pending ∅);;
      modify (set_d_bytes []);;
      mret [Complete (d_bytes s)]
  else schedule_requests.
Definition on_data (piece total_size : Z) (block : list Z) : method (list MetadataDownloadAction) :=
  piece ← lift (valid_piece_number piece);
  s ← get;
  if bool_decide (d_size s = None) && negb (piece =? 0) then fail (ME_UnsolicitedPiece piece)
  else
    (match d_size s with
     | Some size => if negb (size =? total_size) then fail (ME_SizeChanged size total_size) else mret tt
     | None => mret tt
     end);;
    accept_size total_size;;
    expected ← lift (metadata_block_length total_size piece);
    if negb (len block =? expected) then fail (ME_InvalidBlockLength piece (len block) expected)
    else
      let begin := piece * METADATA_BLOCK_LENGTH in
      s ← get;
      received ← lift (index (d_received s) piece);
      if (received : bool) then
        stored ← lift (slice (d_bytes s) begin (begin + expected));
        if bool_decide (stored = block) then mret [] else fail (ME_ConflictingDuplicate piece)
      else if negb (bool_decide (piece ∈ d_pending s)) then fail (ME_UnsolicitedPiece piece)
      else
        modify (fun s => set_d_pending (d_pending s ∖ {[piece]}) s);;
        store_block piece begin block.
Definition on_message (message : MetadataMessage) : method (list MetadataDownloadAction) :=
  s ← get;
  if complete s then fail ME_AlreadyComplete
  else
    match message with
    | Data piece total_size block => on_data piece total_size block
    | Reject piece =>
      piece ← lift (valid_piece_number piece);
      if negb (bool_decide (piece ∈ d_pending s)) then fail (ME_UnsolicitedPiece piece)
      else
        modify (fun s => set_d_pending (d_pending s ∖ {[piece]}) s);;
        fail (ME_Rejected piece)
    | Unknown _ => mret []
    | Request _ => fail (ME_InvalidField "unexpected metadata request")
    end.
End download.
Definition pending_requests (d : MetadataDownload) : Z := set_len (d_pending d).
Definition received_blocks (d : MetadataDownload) : Z := len (filter (fun r => r = true) (d_received d)).

(** ** Upload *)
Inductive MetadataUploadAction := UploadData (piece total_size : Z) (block : list Z) | UploadReject (piece : Z).
Record MetadataUpload := mkUpload { u_bytes : list Z; served : list bool; request_count : Z }.
Definition MetadataUpload_new (bytes : list Z) : result MetadataUpload :=
  size ← size_to_i64 (len bytes) MAX_LOCAL_METADATA_LENGTH ≫= validate_local_size;
  Ok (mkUpload bytes (replicate (Z.to_nat (metadata_block_count size)) false) 0).
Definition on_request (piece : Z) (u : MetadataUpload) : MetadataUpload * result MetadataUploadAction :=
  let u := mkUpload (u_bytes u) (served u) (saturating_add USIZE (request_count u) 1) in
  if (piece <? 0) || (len (served u) <=? piece) then (u, Ok (UploadReject piece))
  else
    let begin := piece * METADATA_BLOCK_LENGTH in
    let until := Z.min (begin + METADATA_BLOCK_LENGTH) (len (u_bytes u)) in
    let u := mkUpload (u_bytes u) (<[Z.to_nat piece := true]> (served u)) (request_count u) in
    (u, slice (u_bytes u) begin until ≫= fun block => Ok (UploadData (piece mod 2 ^ 32) (len (u_bytes u)) block)).
Definition can_serve (piece : Z) (u : MetadataUpload) : bool := (0 <=? piece) && (piece <? len (served u)).
Definition upload_is_complete (u : MetadataUpload) : bool := forallb (fun served => served) (served u).

(** * Lemmas *)

(** ** Messages *)
Lemma wf_metadata_limits : wf_limits metadata_limits.
Proof. vm_compute. split_and!; congruence. Qed.
Definition required_value (l : list (list Z * bvalue)) (key : list Z) (label : string) : result Z :=
  v ← ok_or (lookup_key l key) (ME_MissingField label);
  match v with BInt i => Ok i | _ => Err (ME_InvalidField label) end.
(** What a dictionary followed by [rest] means as a message. *)
Definition message_of (l : list (list Z * bvalue)) (rest : list Z) : result MetadataMessage :=
  message_type ← required_value l (bytes_of "msg_type") "msg_type";
  if negb ((0 <=? message_type) && (message_type <=? 2)) then Ok (Unknown message_type)
  else
    piece ← required_value l (bytes_of "piece") "piece";
    let consumed := len (bencode (BDict l)) in
    if message_type =? 0 then _ ← reject_trailing consumed (consumed + len rest); Ok (Request piece)
    else if message_type =? 1 then
      total_size ← required_value l (bytes_of "total_size") "total_size";
      total_size ← validate_size total_size;
      Ok (Data piece total_size rest)
    else _ ← reject_trailing consumed (consumed + len rest); Ok (Reject piece).
Lemma parse_message_dict l rest : valid false metadata_limits 0 (BDict l) -> item_count (BDict l) <= MAX_METADATA_MESSAGE_DECODED_ITEMS ->
  len (bencode (BDict l) ++ rest) <= MAX_EXTENSION_PAYLOAD_LENGTH ->
  parse_metadata_message (bencode (BDict l) ++ rest) = message_of l rest.
Proof.
  intros Hv Hi Hl. destruct (parse_prefix_app metadata_limits _ rest wf_metadata_limits Hv Hi Hl) as (n & E & Hn).
  unfold parse_metadata_message, message_of. rewrite E. obind. destruct (field_node _ _ _ _ _ Hv Hn) as (es & -> & Hf). obind.
  assert (forall key label, required_integer es key label = required_value l key label) as Hr.
  { intros key label. unfold required_integer, required_value. specialize (Hf key). destruct (lookup_key l key) as [v|].
    - destruct Hf as (m & -> & Hm). obind. by apply integer_node with false.
    - rewrite Hf. done. }
  assert (slice (bencode (BDict l) ++ rest) (len (bencode (BDict l))) (len (bencode (BDict l) ++ rest)) =@{result (list Z)} Ok rest) as Hs.
  { rewrite slice_ok; [|rewrite len_app; pose proof (len_nonneg rest); pose proof (len_nonneg (bencode (BDict l))); lia|lia].
    f_equal. rewrite <- skip_sub_list; [by apply skip_app|]. rewrite len_app. pose proof (len_nonneg rest). pose proof (len_nonneg (bencode (BDict l))). lia. }
  rewrite !Hr, Hs, !len_app. done.
Qed.
Lemma int_entry_bytes name i : entry_bytes (name, BInt i) = bencode_bytes name ++ bytes_of "i" ++ push_integer i.
Proof. reflexivity. Qed.
Definition control_value (t piece : Z) : list (list Z * bvalue) := [(bytes_of "msg_type", BInt t); (bytes_of "piece", BInt piece)].
Definition data_value (piece total_size : Z) : list (list Z * bvalue) := control_value 1 piece ++ [(bytes_of "total_size", BInt total_size)].
Lemma encode_control_bencode t piece : encode_control_message t piece = bencode (BDict (control_value t piece)).
Proof.
  unfold encode_control_message. rewrite bencode_dict. unfold control_value. cbn [map concat]. rewrite !int_entry_bytes, app_nil_r, <- !app_assoc. reflexivity.
Qed.
Lemma encode_data_bencode piece total_size block :
  bytes_of "d8:msg_typei1e5:piecei" ++ push_integer piece ++ bytes_of "10:total_sizei" ++ push_integer total_size ++ bytes_of "e" ++ block
  = bencode (BDict (data_value piece total_size)) ++ block.
Proof.
  rewrite bencode_dict. unfold data_value, control_value. cbn [map concat app]. rewrite !int_entry_bytes, app_nil_r, <- !app_assoc. reflexivity.
Qed.
Definition is_i64 (x : Z) : Prop := - 2 ^ 63 <= x < 2 ^ 63.
Lemma int_value_valid d i : d <= 8 -> is_i64 i -> valid false metadata_limits d (BInt i).
Proof. intros Hd Hi. by apply valid_int. Qed.
Lemma control_value_valid t piece : is_i64 t -> is_i64 piece ->
  valid false metadata_limits 0 (BDict (control_value t piece)) /\ item_count (BDict (control_value t piece)) <= MAX_METADATA_MESSAGE_DECODED_ITEMS.
Proof.
  intros Ht Hp. split; [|done]. apply valid_dict; [done|done|..].
  - cbn [keys_ok]. by repeat constructor.
  - repeat constructor; done.
  - repeat apply Forall_cons_2; try apply Forall_nil_2; by apply int_value_valid.
Qed.
Lemma data_value_valid piece total_size : is_i64 piece -> is_i64 total_size ->
  valid false metadata_limits 0 (BDict (data_value piece total_size)) /\ item_count (BDict (data_value piece total_size)) <= MAX_METADATA_MESSAGE_DECODED_ITEMS.
Proof.
  intros Ht Hp. split; [|done]. apply valid_dict; [done|done|..].
  - cbn [keys_ok]. by repeat constructor.
  - repeat constructor; done.
  - repeat apply Forall_cons_2; try apply Forall_nil_2; by apply int_value_valid.
Qed.
Lemma len_push_integer i : is_i64 i -> len (push_integer i) <= 21.
Proof.
  intros Hi. unfold push_integer, i64_to_string, is_i64 in *. assert (2 ^ 63 < 10 ^ Z.of_nat 19) by done. assert (10 ^ Z.of_nat 19 = 10 ^ Z.of_nat (S 18)) by done.
  rewrite len_app. change (len (bytes_of "e")) with 1. destruct (Z.ltb_spec i 0).
  - rewrite len_app. change (len (bytes_of "-")) with 1. pose proof (len_decimal_le 18 (- i)). lia.
  - pose proof (len_decimal_le 18 i). lia.
Qed.
Lemma block_length_spec total_size piece n : 1 <= total_size -> 0 <= piece -> metadata_block_length total_size piece = Ok n <->
  piece < metadata_block_count total_size /\ n = Z.min (total_size - piece * METADATA_BLOCK_LENGTH) METADATA_BLOCK_LENGTH.
Proof. intros Ht Hp. unfold metadata_block_length. destruct (Z.leb_spec (metadata_block_count total_size) piece); naive_solver lia. Qed.
(** What the data encoder accepts. *)
Definition data_ok (piece total_size : Z) (block : list Z) : Prop :=
  1 <= total_size <= MAX_LOCAL_METADATA_LENGTH /\ 0 <= piece < metadata_block_count total_size
  /\ len block = Z.min (total_size - piece * METADATA_BLOCK_LENGTH) METADATA_BLOCK_LENGTH.
Lemma validate_local_spec size n : size_to_i64 size MAX_LOCAL_METADATA_LENGTH ≫= validate_local_size = Ok n <-> n = size /\ 1 <= size <= MAX_LOCAL_METADATA_LENGTH.
Proof.
  unfold size_to_i64, validate_local_size. assert (MAX_LOCAL_METADATA_LENGTH <= i64_MAX) by done.
  destruct (Z.leb_spec size i64_MAX); obind; [|naive_solver lia]. destruct (Z.leb_spec 1 size), (Z.leb_spec size MAX_LOCAL_METADATA_LENGTH); cbn; naive_solver lia.
Qed.
Lemma encode_data_spec piece total_size block bytes : 0 <= piece ->
  encode_metadata_data piece total_size block = Ok bytes <-> data_ok piece total_size block /\ bytes = bencode (BDict (data_value piece total_size)) ++ block.
Proof.
  intros Hp. unfold encode_metadata_data, data_ok. destruct (size_to_i64 _ _ ≫= _) as [n|e| |] eqn:E; cbv [mbind outcome_bind].
  2-4: split; [done|]; intros [[H _] _]; rewrite (proj2 (validate_local_spec _ _) (conj eq_refl H)) in E; done.
  apply validate_local_spec in E as [-> Hs]. destruct (metadata_block_length total_size piece) as [n|e| |] eqn:E.
  2-4: split; [done|]; intros [(_ & [_ H] & _) _]; rewrite (proj2 (block_length_spec _ _ _ (proj1 Hs) Hp) (conj H eq_refl)) in E; done.
  apply block_length_spec in E as [Hc ->]; [|lia..]. destruct (Z.eqb_spec (len block) (Z.min (total_size - piece * METADATA_BLOCK_LENGTH) METADATA_BLOCK_LENGTH)); cbn [negb]; [|naive_solver].
  rewrite encode_data_bencode. naive_solver.
Qed.
Lemma message_of_control piece t rest : t = 0 \/ t = 2 -> rest = [] -> message_of (control_value t piece) rest = Ok (if t =? 0 then Request piece else Reject piece).
Proof.
  intros Ht ->. assert (forall c, reject_trailing c (c + len (@nil Z)) = Ok tt) as Hr.
  { intros c. unfold reject_trailing. by rewrite Z.add_0_r, Z.eqb_refl. }
  unfold message_of. cbv zeta. rewrite Hr. by destruct Ht as [-> | ->].
Qed.
Lemma message_of_data piece total_size block : message_of (data_value piece total_size) block = (n ← validate_size total_size; Ok (Data piece n block)).
Proof. reflexivity. Qed.
(** Every payload is refused, or a dictionary with its message. *)
Lemma parse_message_cases payload : (exists e, parse_metadata_message payload = Err e)
  \/ exists l rest, payload = bencode (BDict l) ++ rest /\ parse_metadata_message payload = message_of l rest.
Proof.
  destruct (parse_prefix_with_limits payload metadata_limits) as [[root c]|e| |] eqn:E.
  2: left; exists (ME_Bencode e); unfold parse_metadata_message; by rewrite E.
  2,3: pose proof (parse_prefix_cases payload metadata_limits false wf_metadata_limits) as Hc; unfold parse_prefix_with_limits in E; by rewrite E in Hc.
  pose proof E as E'. unfold parse_prefix_with_limits in E'. apply parse_prefix_exact in E' as (v & rest & -> & -> & -> & Hv & Hi & Hl); [|apply wf_metadata_limits].
  destruct v as [i|b|l|l].
  1-3: left; exists ME_RootIsNotDictionary; unfold parse_metadata_message; by rewrite E.
  right. exists l, rest. split; [done|]. by apply parse_message_dict.
Qed.
Lemma message_of_returns l rest : returns (message_of l rest).
Proof.
  assert (forall key label, returns (required_value l key label)) as Hr.
  { intros key label. unfold required_value. apply returns_bind; [apply returns_ok_or|]. intros v _. by destruct v. }
  unfold message_of, validate_size, reject_trailing. cbv zeta. repeat first [apply Hr | returns_step].
Qed.
Lemma message_of_sound l rest m : message_of l rest = Ok m ->
  match m with
  | Data _ total_size block => 1 <= total_size <= MAX_METADATA_LENGTH /\ block = rest
  | Request _ | Reject _ => rest = []
  | Unknown message_type => ~ 0 <= message_type <= 2
  end.
Proof.
  assert (forall c b, reject_trailing c (c + len rest) = Ok b -> rest = []) as Hr.
  { intros c b. unfold reject_trailing. destruct (Z.eqb_spec c (c + len rest)) as [Hc|]; [|done]. intros _. apply len_0_nil. lia. }
  unfold message_of. cbv zeta. destruct (required_value l (bytes_of "msg_type") "msg_type") as [t|e| |]; obind; try done.
  destruct (negb _) eqn:Et; [intros [= <-]; lia|]. destruct (required_value l (bytes_of "piece") "piece") as [p|e| |]; obind; try done.
  destruct (t =? 0); [|destruct (t =? 1)].
  - destruct (reject_trailing _ _) eqn:E; obind; try done. intros [= <-]. by eapply Hr.
  - destruct (required_value l (bytes_of "total_size") "total_size") as [n|e| |]; obind; try done. unfold validate_size.
    destruct (Z.leb_spec 1 n), (Z.leb_spec n MAX_METADATA_LENGTH); cbn [andb]; obind; try done. intros [= <-]. done.
  - destruct (reject_trailing _ _) eqn:E; obind; try done. intros [= <-]. by eapply Hr.
Qed.

Lemma parse_control t piece : t = 0 \/ t = 2 -> is_i64 piece ->
  parse_metadata_message (encode_control_message t piece) = Ok (if t =? 0 then Request piece else Reject piece).
Proof.
  intros Ht Hp. assert (is_i64 t) as Ht' by (unfold is_i64; lia). destruct (control_value_valid t piece Ht' Hp) as [Hv Hi].
  pose proof (encode_control_bencode t piece) as E. rewrite <- (app_nil_r (bencode _)) in E. rewrite E, parse_message_dict; [by apply message_of_control|done..|].
  rewrite <- E. unfold encode_control_message. pose proof (len_push_integer t Ht'). pose proof (len_push_integer piece Hp). rewrite !len_app.
  change (len (bytes_of "d8:msg_typei")) with 12. change (len (bytes_of "5:piecei")) with 8. change (len (bytes_of "e")) with 1. change MAX_EXTENSION_PAYLOAD_LENGTH with 17408. lia.
Qed.
Lemma data_ok_fits piece total_size block : data_ok piece total_size block -> is_i64 piece /\ is_i64 total_size /\ len block <= METADATA_BLOCK_LENGTH.
Proof.
  unfold data_ok, is_i64, metadata_block_count, div_ceil. change METADATA_BLOCK_LENGTH with 16384. change MAX_LOCAL_METADATA_LENGTH with 67108864.
  intros (Ht & Hp & Hb). assert ((total_size + 16384 - 1) / 16384 <= total_size) by (Z.to_euclidean_division_equations; lia). lia.
Qed.
Lemma parse_data piece total_size block : data_ok piece total_size block ->
  parse_metadata_message (bencode (BDict (data_value piece total_size)) ++ block) = (n ← validate_size total_size; Ok (Data piece n block)).
Proof.
  intros H. destruct (data_ok_fits _ _ _ H) as (Hp & Ht & Hb). destruct (data_value_valid piece total_size Hp Ht) as [Hv Hi].
  rewrite parse_message_dict; [apply message_of_data|done..|]. rewrite <- encode_data_bencode.
  pose proof (len_push_integer piece Hp). pose proof (len_push_integer total_size Ht). rewrite !len_app.
  change (len (bytes_of "d8:msg_typei1e5:piecei")) with 22. change (len (bytes_of "10:total_sizei")) with 14. change (len (bytes_of "e")) with 1.
  change MAX_EXTENSION_PAYLOAD_LENGTH with 17408. change METADATA_BLOCK_LENGTH with 16384 in Hb. lia.
Qed.

(** ** Blocks *)
(** The bytes of block [i]. *)
Definition block_of (bytes : list Z) (i : Z) : list Z := sub_list bytes (i * METADATA_BLOCK_LENGTH) (Z.min ((i + 1) * METADATA_BLOCK_LENGTH) (len bytes)).
Lemma copy_into_ok {E} bytes begin block : 0 <= begin -> begin + len block <= len bytes -> exists out, @copy_into E bytes begin block = Ok out /\ len out = len bytes
  /\ forall j, 0 <= j -> nth_get out j = if (begin <=? j) && (j <? begin + len block) then nth_get block (j - begin) else nth_get bytes j.
Proof.
  intros Hb Hl. pose proof (len_nonneg block). unfold copy_into. rewrite (proj2 (Z.leb_le 0 begin)), (proj2 (Z.leb_le _ _)) by lia. eexists. split; [done|].
  assert (len (sub_list bytes 0 begin) = begin) as H0 by (rewrite len_sub_list by lia; lia). split.
  - rewrite !len_app, H0, len_skip by lia. lia.
  - intros j Hj. rewrite nth_get_app, H0 by done. destruct (Z.ltb_spec j begin), (Z.leb_spec begin j); try lia; cbn [andb].
    + rewrite nth_get_sub_list by lia. f_equal.
    + rewrite nth_get_app by lia. destruct (Z.ltb_spec (j - begin) (len block)), (Z.ltb_spec j (begin + len block)); try lia; [done|].
      rewrite skip_sub_list by lia. destruct (Z.ltb_spec j (len bytes)).
      * rewrite nth_get_sub_list by lia. f_equal. lia.
      * rewrite !nth_get_ge; [done| |]; rewrite ?len_sub_list by lia; lia.
Qed.
Lemma len_block_of bytes i : 0 <= i < metadata_block_count (len bytes) ->
  len (block_of bytes i) = Z.min (len bytes - i * METADATA_BLOCK_LENGTH) METADATA_BLOCK_LENGTH /\ 0 < len (block_of bytes i).
Proof.
  unfold block_of, metadata_block_count. change METADATA_BLOCK_LENGTH with 16384. intros Hi. pose proof (div_ceil_spec (len bytes) 16384). rewrite len_sub_list by lia. lia.
Qed.
Lemma nth_get_block_of bytes i j : 0 <= i -> i * METADATA_BLOCK_LENGTH <= j < Z.min ((i + 1) * METADATA_BLOCK_LENGTH) (len bytes) ->
  nth_get (block_of bytes i) (j - i * METADATA_BLOCK_LENGTH) = nth_get bytes j.
Proof. unfold block_of. change METADATA_BLOCK_LENGTH with 16384. intros Hi Hj. rewrite nth_get_sub_list by lia. f_equal. lia. Qed.
(** The blocks determine the bytes. *)
Lemma blocks_ext a b : len a = len b -> (forall i, 0 <= i < metadata_block_count (len a) -> block_of a i = block_of b i) -> a = b.
Proof.
  intros Hl Hb. apply nth_get_ext; [done|]. intros j Hj. pose proof (div_lt_ceil j (len a) METADATA_BLOCK_LENGTH eq_refl Hj) as Hi. specialize (Hb _ Hi).
  assert (j / METADATA_BLOCK_LENGTH * METADATA_BLOCK_LENGTH <= j < (j / METADATA_BLOCK_LENGTH + 1) * METADATA_BLOCK_LENGTH) as Hr by (change METADATA_BLOCK_LENGTH with 16384; divlia).
  rewrite <- (nth_get_block_of a (j / METADATA_BLOCK_LENGTH)), <- (nth_get_block_of b (j / METADATA_BLOCK_LENGTH)) by lia. by rewrite Hb.
Qed.
(** Storing a block changes that block only. *)
Lemma copy_block {E} bytes i block : 0 <= i < metadata_block_count (len bytes) -> len block = Z.min (len bytes - i * METADATA_BLOCK_LENGTH) METADATA_BLOCK_LENGTH ->
  exists out, @copy_into E bytes (i * METADATA_BLOCK_LENGTH) block = Ok out /\ len out = len bytes
  /\ forall j, 0 <= j < metadata_block_count (len bytes) -> block_of out j = if decide (j = i) then block else block_of bytes j.
Proof.
  intros Hi Hb. assert (METADATA_BLOCK_LENGTH = 16384) as HB by done. destruct (copy_into_ok (E := E) bytes (i * METADATA_BLOCK_LENGTH) block) as (out & -> & Hl & Ho); [lia..|].
  exists out. split; [done|]. split; [done|]. intros j Hj. pose proof (len_block_of out j) as Hlo. rewrite Hl in Hlo. destruct (Hlo Hj) as [Ho1 _]. clear Hlo.
  pose proof (len_block_of bytes j Hj) as [Hb1 _]. unfold metadata_block_count in *. pose proof (div_ceil_spec (len bytes) METADATA_BLOCK_LENGTH).
  destruct (decide (j = i)) as [->|Hne].
  - apply nth_get_ext; [lia|]. intros k Hk. replace k with (i * METADATA_BLOCK_LENGTH + k - i * METADATA_BLOCK_LENGTH) at 1 by lia.
    rewrite nth_get_block_of, Ho by lia. rewrite (proj2 (Z.leb_le _ _)), (proj2 (Z.ltb_lt _ _)) by lia. cbn [andb]. f_equal. lia.
  - apply nth_get_ext; [lia|]. intros k Hk. replace k with (j * METADATA_BLOCK_LENGTH + k - j * METADATA_BLOCK_LENGTH) by lia.
    rewrite !nth_get_block_of, Ho by lia. destruct (Z.leb_spec (i * METADATA_BLOCK_LENGTH) (j * METADATA_BLOCK_LENGTH + k)), (Z.ltb_spec (j * METADATA_BLOCK_LENGTH + k) (i * METADATA_BLOCK_LENGTH + len block)); cbn [andb]; try done. nia.
Qed.

(** ** The download's invariant *)
Definition is_complete_action (a : MetadataDownloadAction) : bool := match a with Complete _ => true | _ => false end.
(** What [log], the messages received, and [acts], the actions returned, say of a download. *)
#[export] Instance MetadataDownloadAction_eq_dec : EqDecision MetadataDownloadAction.
Proof. solve_decision. Defined.
Record download_ok (expected : MetadataInfoHash) (log : list MetadataMessage) (acts : list MetadataDownloadAction) (d : MetadataDownload) : Prop := {
  dk_hash : expected_info_hash d = expected;
  dk_none : d_size d = None -> d_bytes d = [] /\ d_received d = [] /\ d_pending d ⊆ {[0]} /\ complete d = false;
  dk_some n : d_size d = Some n -> 1 <= n <= MAX_METADATA_LENGTH /\ len (d_received d) = metadata_block_count n
    /\ (complete d = false -> len (d_bytes d) = n /\ forall i, nth_get (d_received d) i = Some true -> Data i n (block_of (d_bytes d) i) ∈ log);
  dk_pending p : p ∈ d_pending d -> RequestPiece p ∈ acts /\ (d_size d <> None -> nth_get (d_received d) p = Some false);
  dk_window : set_len (d_pending d) <= MAX_METADATA_REQUESTS_IN_FLIGHT;
  dk_received i : nth_get (d_received d) i = Some true -> RequestPiece i ∈ acts;
  dk_started : started d = false -> d_pending d = ∅ /\ complete d = false;
  dk_complete : complete d = existsb is_complete_action acts;
  dk_done : complete d = true -> d_pending d = ∅ /\ d_bytes d = [];
}.
Lemma block_count_bounds n : 1 <= n <= MAX_METADATA_LENGTH -> 1 <= metadata_block_count n <= MAX_METADATA_BLOCKS.
Proof.
  unfold metadata_block_count. change MAX_METADATA_LENGTH with 31457280. change MAX_METADATA_BLOCKS with 1920. change METADATA_BLOCK_LENGTH with 16384. intros Hn.
  pose proof (div_ceil_spec n 16384). lia.
Qed.
Lemma validate_size_spec size n : size_to_i64 size MAX_METADATA_LENGTH ≫= validate_size = Ok n <-> n = size /\ 1 <= size <= MAX_METADATA_LENGTH.
Proof.
  unfold size_to_i64, validate_size. assert (MAX_METADATA_LENGTH <= i64_MAX) by done.
  destruct (Z.leb_spec size i64_MAX); obind; [|naive_solver lia]. destruct (Z.leb_spec 1 size), (Z.leb_spec size MAX_METADATA_LENGTH); cbn; naive_solver lia.
Qed.
Lemma validate_size_cases size : (1 <= size <= MAX_METADATA_LENGTH /\ size_to_i64 size MAX_METADATA_LENGTH ≫= validate_size = Ok size)
  \/ exists e, size_to_i64 size MAX_METADATA_LENGTH ≫= validate_size = Err e /\ ~ 1 <= size <= MAX_METADATA_LENGTH.
Proof.
  unfold size_to_i64, validate_size. change i64_MAX with 9223372036854775807. change MAX_METADATA_LENGTH with 31457280.
  destruct (Z.leb_spec size 9223372036854775807); obind; [|right; eexists; split; [done|lia]].
  destruct (Z.leb_spec 1 size), (Z.leb_spec size 31457280); cbn [andb]; [left; done|right; eexists; split; [done|lia]..].
Qed.
Lemma set_len_union p (X : gset Z) : p ∉ X -> set_len ({[p]} ∪ X) = set_len X + 1.
Proof. intros Hp. unfold set_len. rewrite size_union by set_solver. rewrite size_singleton. lia. Qed.
Lemma set_len_difference (X Y : gset Z) : set_len (X ∖ Y) <= set_len X.
Proof. unfold set_len. apply inj_le, subseteq_size. set_solver. Qed.
Lemma set_len_nonneg (X : gset Z) : 0 <= set_len X.
Proof. unfold set_len. lia. Qed.
Lemma set_len_le (X Y : gset Z) : X ⊆ Y -> set_len X <= set_len Y.
Proof. intros H. unfold set_len. by apply inj_le, subseteq_size. Qed.

(** The fields a call leaves alone. *)
Definition keeps_download (d d' : MetadataDownload) : Prop :=
  d_size d' = d_size d /\ d_bytes d' = d_bytes d /\ d_received d' = d_received d /\ started d' = started d /\ complete d' = complete d.
Section invariant.
Context (expected : MetadataInfoHash) (log : list MetadataMessage).
Implicit Types (acts : list MetadataDownloadAction) (d : MetadataDownload).

Lemma accept_size_ok acts d size : download_ok expected log acts d ->
  wp (accept_size size) d
    (fun _ d' => download_ok expected log acts d' /\ d_size d' = Some size /\ started d' = started d /\ complete d' = complete d /\ d_pending d' = d_pending d
       /\ (d_size d <> None -> d' = d) /\ (d_size d = None -> forall i, nth_get (d_received d') i <> Some true))
    (fun _ d' => d' = d /\ ~ ((d_size d = None \/ d_size d = Some size) /\ 1 <= size <= MAX_METADATA_LENGTH)).
Proof.
  intros Hd. unfold accept_size. destruct (validate_size_cases size) as [[Hs ->]|(e & -> & Hne)]; [|split; [done|]; by intros [_ ?]]. wp_step. wp_step. wp_step. wp_step.
  destruct (d_size d) as [n|] eqn:En.
  - destruct (Z.eqb_spec n size) as [->|Hne]; cbn [negb]; wp_step; [|split; [done|]; intros [[?|?] _]; congruence]. split_and!; done.
  - wp_step. cbn. split_and!; [|done..|]; [|intros _ i E; by apply nth_get_replicate in E].
    destruct (dk_none _ _ _ _ Hd En) as (Hb & Hr & Hp & Hc). pose proof (block_count_bounds size Hs) as Hn.
    split; cbn; try apply Hd; try done.
    + intros n [= <-]. split_and!; [lia|lia|rewrite len_replicate; lia|]. intros _. split; [rewrite len_replicate; lia|]. intros i E. by apply nth_get_replicate in E.
    + intros p Hin. split; [by apply Hd|]. intros _. apply nth_get_replicate_lt. apply Hp, elem_of_singleton in Hin as ->. lia.
    + intros i E. by apply nth_get_replicate in E.
    + rewrite Hc. done.
Qed.
Lemma request_missing_ok n pieces : forall acts d, download_ok expected log acts d -> d_size d = Some n -> complete d = false -> started d = true ->
  Forall (fun p => 0 <= p < len (d_received d)) pieces ->
  wp (request_missing pieces) d
    (fun l d' => download_ok expected log (acts ++ l) d' /\ keeps_download d d' /\ d_pending d ⊆ d_pending d' /\ Forall (fun a => is_complete_action a = false) l
       /\ (set_len (d_pending d') = MAX_METADATA_REQUESTS_IN_FLIGHT \/ forall p, p ∈ pieces -> nth_get (d_received d) p = Some false -> p ∈ d_pending d'))
    (fun _ _ => False).
Proof.
  induction pieces as [|p pieces IH]; intros acts d Hd Hn Hc Hs Hall; cbn [request_missing].
  - wp_step. rewrite app_nil_r. split_and!; try done. right. by intros p Hp%elem_of_nil.
  - apply Forall_cons in Hall as [Hp Hall]. wp_step. wp_step. destruct (Z.eqb_spec (set_len (d_pending d)) MAX_METADATA_REQUESTS_IN_FLIGHT) as [E|Hne].
    { wp_step. rewrite app_nil_r. split_and!; try done. by left. }
    destruct (dk_some _ _ _ _ Hd n Hn) as (Hsz & Hlr & Hb). pose proof (block_count_bounds n Hsz) as Hcnt. change MAX_METADATA_BLOCKS with 1920 in Hcnt.
    rewrite try_u_fits by lia. cbn [ok_or]. wp_step. wp_step. destruct (nth_get_is_Some _ _ Hp) as [r Er]. unfold index. rewrite Er. cbn [expect]. wp_step. wp_step.
    destruct (decide (p ∈ d_pending d)) as [Hin|Hin].
    { rewrite bool_decide_true, andb_false_r by done. wp_call (IH acts d); try done.
      intros l d' (H1 & H2 & H3 & H4 & H5). split_and!; try done. destruct H5 as [H5|H5]; [by left|right]. intros q [->|Hq]%elem_of_cons; [intros _; set_solver|by apply H5]. }
    rewrite bool_decide_false by done. destruct r; cbn [negb andb].
    { wp_call (IH acts d); try done. intros l d' (H1 & H2 & H3 & H4 & H5). split_and!; try done. destruct H5 as [H5|H5]; [by left|right].
      intros q [->|Hq]%elem_of_cons; [congruence|by apply H5]. }
    wp_step. wp_step. wp_step. eapply wp_mono; [apply (IH (acts ++ [RequestPiece p]) (set_d_pending ({[p]} ∪ d_pending d) d)); try done|..].
    + split; cbn; try apply Hd; try done.
      * congruence.
      * intros q [->%elem_of_singleton|Hq]%elem_of_union; [split; [set_solver|done]|]. destruct (dk_pending _ _ _ _ Hd q Hq). split; [set_solver|done].
      * rewrite set_len_union by done. pose proof (dk_window _ _ _ _ Hd). change MAX_METADATA_REQUESTS_IN_FLIGHT with 2 in *. lia.
      * intros i Ei. apply (dk_received _ _ _ _ Hd) in Ei. set_solver.
      * congruence.
      * rewrite existsb_app, <- (dk_complete _ _ _ _ Hd). cbn. by rewrite orb_false_r.
      * congruence.
    + cbv beta. intros l d' (H1 & H2 & H3 & H4 & H5). wp_step. rewrite <- app_assoc in H1. split_and!; [done|done|set_solver|by constructor|].
      destruct H5 as [H5|H5]; [by left|right]. intros q [->|Hq]%elem_of_cons; [intros _; set_solver|by apply H5].
    + done.
Qed.
Lemma schedule_requests_ok acts d : download_ok expected log acts d -> complete d = false -> started d = true ->
  wp schedule_requests d
    (fun l d' => download_ok expected log (acts ++ l) d' /\ keeps_download d d' /\ d_pending d ⊆ d_pending d' /\ Forall (fun a => is_complete_action a = false) l
       /\ (set_len (d_pending d') = MAX_METADATA_REQUESTS_IN_FLIGHT \/ forall p, nth_get (d_received d) p = Some false -> p ∈ d_pending d')
       /\ (d_size d = None -> d_pending d' = {[0]}))
    (fun _ _ => False).
Proof.
  intros Hd Hc Hs. unfold schedule_requests. wp_step. wp_step. destruct (d_size d) as [n|] eqn:En.
  - wp_call (request_missing_ok n (seqZ 0 (len (d_received d))) acts d); try done.
    + apply Forall_forall. intros p Hp%elem_of_seqZ. lia.
    + intros l d' (H1 & H2 & H3 & H4 & H5). split_and!; try done. destruct H5 as [H5|H5]; [by left|right].
      intros p Hp. apply H5; [|done]. apply elem_of_seqZ. apply nth_get_lt in Hp. lia.
  - destruct (dk_none _ _ _ _ Hd En) as (Hb & Hr & Hp & _). case_bool_decide as E.
    + wp_step. wp_step. wp_step. split_and!; [|done|rewrite E; set_solver|by constructor|right; intros p Hin; rewrite Hr in Hin; by apply nth_get_lt in Hin as [? ?%Z.lt_nge]|done].
      split; cbn; try (by apply Hd); try done; try congruence.
      * intros p ->%elem_of_singleton. split; [set_solver|congruence].
      * intros i Ei. apply (dk_received _ _ _ _ Hd) in Ei. set_solver.
      * rewrite existsb_app, <- (dk_complete _ _ _ _ Hd). cbn. by rewrite orb_false_r.
    + wp_step. rewrite app_nil_r. split_and!; [done|done|done|by constructor|right; intros p Hin; rewrite Hr in Hin; by apply nth_get_lt in Hin as [? ?%Z.lt_nge]|].
      intros _. apply leibniz_equiv. intros p. split; [by intros ?%Hp|]. intros ->%elem_of_singleton.
      destruct (set_choose_L (d_pending d) E) as [q Hq]. specialize (Hp q Hq). apply elem_of_singleton in Hp as ->. done.
Qed.
(** Bytes that may be delivered: of the expected hash, every block requested and received. *)
Definition assembled acts (bytes : list Z) : Prop :=
  1 <= len bytes <= MAX_METADATA_LENGTH
  /\ forall i, 0 <= i < metadata_block_count (len bytes) -> Data i (len bytes) (block_of bytes i) ∈ log /\ RequestPiece i ∈ acts.
Context (sha1 sha256 : list Z -> list Z).
Lemma received_insert (l : list bool) p : nth_get l p = Some false ->
  len (filter (fun r => r = true) (<[Z.to_nat p := true]> l)) = len (filter (fun r => r = true) l) + 1.
Proof.
  intros Hp. pose proof (nth_get_lt _ _ _ Hp) as Hl. rewrite nth_get_lookup in Hp by lia. apply list_elem_of_split_length in Hp as (l1 & l2 & -> & ->).
  rewrite insert_app_r_alt, Nat.sub_diag by done. cbn. rewrite !filter_app, !len_app, !filter_cons, decide_True, decide_False by done. len_lia.
Qed.
Lemma store_block_ok acts d n p block : download_ok expected log acts d -> complete d = false -> started d = true -> d_size d = Some n ->
  nth_get (d_received d) p = Some false -> p ∉ d_pending d -> RequestPiece p ∈ acts -> Data p n block ∈ log ->
  len block = Z.min (n - p * METADATA_BLOCK_LENGTH) METADATA_BLOCK_LENGTH ->
  wp (store_block sha1 sha256 p (p * METADATA_BLOCK_LENGTH) block) d
    (fun l d' => download_ok expected log (acts ++ l) d' /\ d_size d' = Some n /\ received_blocks d' = received_blocks d + 1 /\ started d' = true
       /\ complete d' = forallb (fun received => received) (d_received d')
       /\ if complete d' then exists bytes, l = [Complete bytes] /\ len bytes = n /\ matches sha1 sha256 expected bytes = true /\ assembled acts bytes
          else Forall (fun a => is_complete_action a = false) l
               /\ (set_len (d_pending d') = MAX_METADATA_REQUESTS_IN_FLIGHT \/ forall q, nth_get (d_received d') q = Some false -> q ∈ d_pending d'))
    (fun e d' => e = ME_HashMismatch /\ download_ok expected log acts d' /\ exists bytes, len bytes = n /\ matches sha1 sha256 expected bytes = false /\ assembled acts bytes).
Proof.
  intros Hd Hc Hs Hn Hp Hnp Hreq Hin Hlen. destruct (dk_some _ _ _ _ Hd n Hn) as (Hsz & Hlr & Hb). destruct (Hb Hc) as [Hlb Hdata]. clear Hb.
  pose proof (nth_get_lt _ _ _ Hp) as Hpr0. pose proof Hpr0 as Hpr. rewrite Hlr, <- Hlb in Hpr. rewrite <- Hlb in Hlen.
  destruct (copy_block (E := MetadataError) (d_bytes d) p block Hpr Hlen) as (out & Eout & Hlo & Hblocks). rewrite Hlb in Hblocks.
  unfold store_block. do 3 wp_step. rewrite Eout. do 5 wp_step. wp_step. wp_step.
  set (d1 := set_d_received _ _).
  assert (forall i, nth_get (d_received d1) i = Some true -> 0 <= i < metadata_block_count n /\ RequestPiece i ∈ acts /\ Data i n (block_of (d_bytes d1) i) ∈ log) as Hall.
  { intros i Hi. pose proof (nth_get_lt _ _ _ Hi) as Hil. unfold d1 in Hi, Hil |- *. cbn in Hi, Hil |- *. rewrite len_insert, Hlr in Hil. split; [done|].
    rewrite nth_get_insert in Hi by lia. rewrite Hblocks by lia. case_bool_decide as E.
    - subst i. rewrite decide_True by done. done.
    - rewrite decide_False by done. split; [by apply (dk_received _ _ _ _ Hd)|by apply Hdata]. }
  assert (download_ok expected log acts d1) as Hd1.
  { split; unfold d1; cbn; try (by apply Hd); try done; try congruence.
    - intros m Em. rewrite Hn in Em. injection Em as <-. split_and!; [lia..|by rewrite len_insert|]. intros _. split; [lia|]. intros i Hi. by apply Hall.
    - intros q Hq. destruct (dk_pending _ _ _ _ Hd q Hq) as [Hq1 Hq2]. split; [done|]. intros Hne. specialize (Hq2 Hne). pose proof (nth_get_lt _ _ _ Hq2).
      rewrite nth_get_insert by lia. case_bool_decide; [by subst q|done].
    - intros i Hi. by apply Hall. }
  destruct (forallb _ (d_received d1)) eqn:Ef.
  - assert (assembled acts (d_bytes d1)) as Has.
    { split; [unfold d1; cbn; lia|]. unfold d1 at 1. cbn. rewrite Hlo, Hlb. intros i Hi.
      assert (nth_get (d_received d1) i = Some true) as Hri.
      { destruct (nth_get_is_Some (d_received d1) i) as [b Eb]; [unfold d1; cbn; rewrite len_insert; lia|]. rewrite Eb. f_equal.
        rewrite forallb_forall in Ef. apply Ef. unfold nth_get in Eb. case_match; [|done]. apply list_elem_of_In. by eapply list_elem_of_lookup_2. }
      destruct (Hall i Hri) as (_ & H2 & H3). split; [|done]. by replace (len (d_bytes d1)) with n by (unfold d1; cbn; lia). }
    rewrite (dk_hash _ _ _ _ Hd1). destruct (matches sha1 sha256 expected (d_bytes d1)) eqn:Em; cbn [negb].
    + do 7 wp_step. cbn [complete set_d_bytes set_d_size set_d_pending set_d_complete d_size d_received started].
      split_and!; [|by unfold d1|by unfold received_blocks; cbn; rewrite received_insert|by unfold d1|by rewrite Ef|exists (d_bytes d1); split_and!; [done|unfold d1; cbn; lia|done|done]].
      split; cbn; try (by apply Hd1); try done; try congruence.
      * intros m Em'. destruct (dk_some _ _ _ _ Hd1 m Em') as (? & ? & _). split_and!; [lia..|done|done].
      * intros i Hi. apply elem_of_app. left. by apply (dk_received _ _ _ _ Hd1).
      * by rewrite existsb_app, orb_true_r.
    + wp_step. split_and!; try done. exists (d_bytes d1). split_and!; try done. unfold d1; cbn; lia.
  - wp_call (schedule_requests_ok acts d1); try done. intros l d' (H1 & (E1 & E2 & E3 & E4 & E5) & H3 & H4 & H5 & _).
    rewrite E1, E3, E4, E5, Ef. unfold received_blocks. rewrite E3. replace (complete d1) with false by done. split_and!; try done.
    unfold d1. cbn. by apply received_insert.
Qed.
(** An answer the download asked for. *)
Definition answers (d : MetadataDownload) (p n : Z) (block : list Z) : Prop :=
  (d_size d = None \/ d_size d = Some n) /\ 1 <= n <= MAX_METADATA_LENGTH /\ p ∈ d_pending d
  /\ len block = Z.min (n - p * METADATA_BLOCK_LENGTH) METADATA_BLOCK_LENGTH.
Definition progressed acts d n (l : list MetadataDownloadAction) d' : Prop :=
  d_size d' = Some n /\ received_blocks d' = received_blocks d + 1 /\ started d' = true
  /\ complete d' = forallb (fun received => received) (d_received d')
  /\ if complete d' then exists bytes, l = [Complete bytes] /\ len bytes = n /\ matches sha1 sha256 expected bytes = true /\ assembled acts bytes
     else Forall (fun a => is_complete_action a = false) l
       /\ (set_len (d_pending d') = MAX_METADATA_REQUESTS_IN_FLIGHT \/ forall q, nth_get (d_received d') q = Some false -> q ∈ d_pending d').
Definition refused acts d n (block : list Z) (p : Z) (e : MetadataError) : Prop :=
  e = ME_HashMismatch /\ exists bytes, len bytes = n /\ matches sha1 sha256 expected bytes = false /\ assembled acts bytes.
Lemma pending_bounds acts d p : download_ok expected log acts d -> p ∈ d_pending d -> 0 <= p < MAX_METADATA_BLOCKS.
Proof.
  intros Hd Hp. change MAX_METADATA_BLOCKS with 1920. destruct (d_size d) as [n|] eqn:En.
  - destruct (dk_pending _ _ _ _ Hd p Hp) as [_ Hr]. destruct (dk_some _ _ _ _ Hd n En) as (Hn & Hl & _). pose proof (block_count_bounds n Hn) as Hc.
    change MAX_METADATA_BLOCKS with 1920 in Hc. rewrite En in Hr. specialize (Hr ltac:(done)). apply nth_get_lt in Hr. lia.
  - destruct (dk_none _ _ _ _ Hd En) as (_ & _ & Hsub & _). apply Hsub, elem_of_singleton in Hp. lia.
Qed.
Lemma on_data_ok acts d p n block : download_ok expected log acts d -> complete d = false -> Data p n block ∈ log ->
  wp (on_data sha1 sha256 p n block) d
    (fun l d' => download_ok expected log (acts ++ l) d' /\ (l = [] \/ progressed acts d n l d') /\ (answers d p n block -> progressed acts d n l d'))
    (fun e d' => download_ok expected log acts d' /\ (answers d p n block -> refused acts d n block p e)).
Proof.
  intros Hd Hc Hin. unfold on_data, valid_piece_number. wp_step.
  destruct (Z.leb_spec 0 p), (Z.leb_spec p (umax 32)); cbn [andb].
  2-4: split; [done|]; intros (_ & _ & Hp & _); pose proof (pending_bounds _ _ _ Hd Hp) as Hb; change MAX_METADATA_BLOCKS with 1920 in Hb; change (umax 32) with 4294967295 in *; lia.
  wp_step. wp_step. wp_step. destruct (bool_decide (d_size d = None) && negb (p =? 0)) eqn:E0.
  { split; [done|]. apply andb_prop in E0 as [E1%bool_decide_eq_true E2]. intros (_ & _ & Hp & _). destruct (dk_none _ _ _ _ Hd E1) as (_ & _ & Hsub & _).
    apply Hsub, elem_of_singleton in Hp. lia. }
  wp_step. assert (wp (match d_size d with Some size => if negb (size =? n) then fail (ME_SizeChanged size n) else mret tt | None => mret tt end) d
    (fun _ d' => d' = d) (fun _ d' => d' = d /\ (d_size d <> None /\ d_size d <> Some n))) as Hsz.
  { destruct (d_size d) as [m|]; [|done]. destruct (Z.eqb_spec m n); [by subst|]. cbn. split; [done|]. split; congruence. }
  wp_call Hsz; [|intros e d' [-> [? ?]]; split; [done|]; intros ([?|?] & _); done].
  intros [] d1 ->. wp_step. wp_call (accept_size_ok acts d n Hd).
  2:{ intros e d' [-> Hne]. split; [done|]. intros (Hs & Hn & _). exfalso. by apply Hne. }
  intros [] d1 (Hd1 & Hn1 & Hs1 & Hc1 & Hp1 & Hsame & Hnone). destruct (dk_some _ _ _ _ Hd1 n Hn1) as (Hsz1 & Hlr & Hb). rewrite Hc1, Hc in Hb. destruct (Hb eq_refl) as [Hlb Hdata]. clear Hb.
  assert (answers d p n block -> nth_get (d_received d1) p = Some false /\ started d = true) as Hans.
  { intros (_ & _ & Hp & _). split; [apply (dk_pending _ _ _ _ Hd1); [by rewrite Hp1|congruence]|]. destruct (started d) eqn:E; [done|].
    destruct (dk_started _ _ _ _ Hd E) as [Hem _]. set_solver. }
  assert (received_blocks d1 = received_blocks d) as Hrb.
  { destruct (d_size d) as [m|] eqn:Em.
    - by rewrite Hsame.
    - unfold received_blocks. destruct (dk_none _ _ _ _ Hd Em) as (_ & -> & _). cbn.
      destruct (filter (fun r => r = true) (d_received d1)) as [|b l] eqn:Ef; [done|]. exfalso. assert (b ∈ filter (fun r => r = true) (d_received d1)) as Hb by (rewrite Ef; set_solver).
      apply list_elem_of_filter in Hb as [-> Hb]. apply list_elem_of_lookup in Hb as [i Hi]. apply (Hnone eq_refl (Z.of_nat i)). rewrite nth_get_lookup, Nat2Z.id by lia. done. }
  wp_step. destruct (metadata_block_length n p) as [want|e| |] eqn:Ew; [|unfold metadata_block_length in Ew; case_in Ew; try done|unfold metadata_block_length in Ew; by case_in Ew..].
  2:{ injection Ew as <-. wp_step. split; [done|]. intros Ha. destruct (Hans Ha) as [Hr _]. apply nth_get_lt in Hr. lia. }
  apply block_length_spec in Ew as [Hpc ->]; [|lia..]. wp_step.
  destruct (Z.eqb_spec (len block) (Z.min (n - p * METADATA_BLOCK_LENGTH) METADATA_BLOCK_LENGTH)) as [Hlen|Hlen]; cbn [negb].
  2:{ wp_step. split; [done|]. by intros (_ & _ & _ & ?). }
  do 3 wp_step. destruct (nth_get_is_Some (d_received d1) p) as [r Er]; [lia|]. unfold index. rewrite Er. cbn [expect]. wp_step.
  destruct r.
  { rewrite slice_ok by (change METADATA_BLOCK_LENGTH with 16384 in *; len_lia). do 3 wp_step; wp_step.
    - split; [by rewrite app_nil_r|]. split; [by left|]. intros Ha. destruct (Hans Ha). congruence.
    - split; [done|]. intros Ha. destruct (Hans Ha). congruence. }
  destruct (decide (p ∈ d_pending d1)) as [Hpin|Hpin].
  2:{ rewrite bool_decide_false by done. cbn [negb]. wp_step. split; [done|]. intros (_ & _ & Hp & _). by rewrite Hp1 in Hpin. }
  rewrite bool_decide_true by done. cbn [negb]. wp_step. wp_step. destruct (dk_pending _ _ _ _ Hd1 p Hpin) as [Hreq _].
  assert (started d1 = true) as Hst. { destruct (started d1) eqn:E; [done|]. destruct (dk_started _ _ _ _ Hd1 E). set_solver. }
  set (d2 := set_d_pending _ d1). assert (download_ok expected log acts d2) as Hd2.
  { split; unfold d2; cbn; try (by apply Hd1); try done; try congruence.
    - intros q [Hq _]%elem_of_difference. by apply Hd1.
    - pose proof (dk_window _ _ _ _ Hd1). pose proof (set_len_difference (d_pending d1) {[p]}). lia. }
  eapply wp_mono; [apply (store_block_ok acts d2 n p block Hd2); unfold d2; cbn; try done|..].
  - congruence.
  - set_solver.
  - cbv beta. intros l d' (H1 & H2 & H3 & H4 & H5 & H6). assert (progressed acts d n l d') as Hpr; [|by split_and!; [|right|]].
    split_and!; try done. rewrite H3. unfold d2. change (received_blocks (set_d_pending (d_pending d1 ∖ {[p]}) d1)) with (received_blocks d1). lia.
  - cbv beta. intros e d' (-> & H1 & H2). split; [done|]. intros _. by split.
Qed.
(** What a call's result adds to the actions. *)
Definition actions_of (r : result (list MetadataDownloadAction)) : list MetadataDownloadAction := match r with Ok l => l | _ => [] end.
(** The bytes delivered by [l], if any, are assembled from what [acts] requested and [log] received. *)
Definition delivers acts (l : list MetadataDownloadAction) : Prop :=
  forall bytes, Complete bytes ∈ l -> l = [Complete bytes] /\ matches sha1 sha256 expected bytes = true /\ assembled acts bytes.
Lemma progressed_delivers acts d n l d' : progressed acts d n l d' -> delivers acts l.
Proof.
  intros (_ & _ & _ & _ & H) bytes Hin. destruct (complete d').
  - destruct H as (b & -> & _ & Hm & Ha). apply list_elem_of_singleton in Hin. by injection Hin as ->.
  - destruct H as [H _]. rewrite Forall_forall in H. by specialize (H _ Hin).
Qed.
Lemma requests_deliver acts l : Forall (fun a => is_complete_action a = false) l -> delivers acts l.
Proof. rewrite Forall_forall. intros H bytes Hin. by specialize (H _ Hin). Qed.
Lemma on_message_ok acts d m : download_ok expected log acts d -> m ∈ log ->
  wp (on_message sha1 sha256 m) d (fun l d' => download_ok expected log (acts ++ l) d' /\ delivers acts l) (fun _ d' => download_ok expected log acts d').
Proof.
  intros Hd Hin. unfold on_message. wp_step. wp_step. destruct (complete d) eqn:Hc; [done|]. destruct m as [p|p n block|p|t].
  - done.
  - wp_call (on_data_ok acts d p n block Hd Hc Hin); [|by intros e d' [? _]]. intros l d' (H1 & [-> |H2] & _).
    + split; [done|]. apply requests_deliver. constructor.
    + split; [done|by eapply progressed_delivers].
  - unfold valid_piece_number. wp_step. destruct (_ && _); [|done]. wp_step. destruct (decide (p ∈ d_pending d)) as [Hp|Hp]; [|by rewrite bool_decide_false].
    rewrite bool_decide_true by done. cbn [negb]. do 3 wp_step. split; cbn; try (by apply Hd); try done; try congruence.
    + intros E. destruct (dk_none _ _ _ _ Hd E) as (? & ? & ? & ?). split_and!; [done|done|set_solver|done].
    + intros q [Hq _]%elem_of_difference. by apply Hd.
    + pose proof (dk_window _ _ _ _ Hd). pose proof (set_len_difference (d_pending d) {[p]}). lia.
    + intros E. destruct (dk_started _ _ _ _ Hd E) as [? ?]. split; [set_solver|done].
  - wp_step. rewrite app_nil_r. split; [done|]. apply requests_deliver. constructor.
Qed.
Lemma size_hint_ok acts d size : download_ok expected log acts d ->
  wp (accept_size_hint size) d
    (fun _ d' => download_ok expected log acts d' /\ started d' = started d /\ complete d' = complete d /\ d_pending d' = d_pending d /\ (d_size d' = d_size d \/ d_size d' = Some size)
       /\ (d_size d = None -> received_blocks d' = 0))
    (fun _ d' => d' = d /\ ~ ((d_size d = None \/ d_size d = Some size) /\ 1 <= size <= MAX_METADATA_LENGTH)).
Proof.
  intros Hd. unfold accept_size_hint. destruct (_ <? _).
  - wp_step. split_and!; try done; [by left|]. intros E. unfold received_blocks. by destruct (dk_none _ _ _ _ Hd E) as (_ & -> & _).
  - wp_call (accept_size_ok acts d size Hd); [|done]. intros [] d' (H1 & H2 & H3 & H4 & H5 & H6 & H7). split_and!; try done; [by right|].
    intros E. unfold received_blocks. destruct (filter (fun r => r = true) (d_received d')) as [|b l] eqn:Ef; [done|]. exfalso.
    assert (b ∈ filter (fun r => r = true) (d_received d')) as Hb by (rewrite Ef; set_solver).
    apply list_elem_of_filter in Hb as [-> Hb]. apply list_elem_of_lookup in Hb as [i Hi]. apply (H7 E (Z.of_nat i)). rewrite nth_get_lookup, Nat2Z.id by lia. done.
Qed.
Lemma start_ok acts d advertised : download_ok expected log acts d ->
  wp (start advertised) d
    (fun l d' => download_ok expected log (acts ++ l) d' /\ delivers acts l /\ started d = false /\ started d' = true /\ complete d' = false /\ (forall size, advertised = Some size -> d_size d' = d_size d \/ d_size d' = Some size)
       /\ (advertised = None -> d_size d' = d_size d) /\ (d_size d = None -> received_blocks d' = 0)
       /\ (set_len (d_pending d') = MAX_METADATA_REQUESTS_IN_FLIGHT \/ forall q, nth_get (d_received d') q = Some false -> q ∈ d_pending d') /\ (d_size d' = None -> d_pending d' = {[0]}))
    (fun e d' => download_ok expected log acts d' /\ (started d = true \/ d_size d <> None \/ ~ (forall size, advertised = Some size -> 1 <= size <= MAX_METADATA_LENGTH))).
Proof.
  intros Hd. unfold start. wp_step. wp_step. destruct (started d) eqn:Hs; [split; [done|by left]|]. destruct (dk_started _ _ _ _ Hd Hs) as [Hp Hc]. wp_step. wp_step.
  assert (download_ok expected log acts (set_started d)) as Hd1 by (split; cbn; try (by apply Hd); done).
  wp_step. eapply wp_mono with (Q' := fun _ d' => download_ok expected log acts d' /\ started d' = true /\ complete d' = false
     /\ (forall size, advertised = Some size -> d_size d' = d_size d \/ d_size d' = Some size) /\ (advertised = None -> d_size d' = d_size d) /\ (d_size d = None -> received_blocks d' = 0))
    (R' := fun _ d' => download_ok expected log acts d' /\ (d_size d <> None \/ ~ (forall size, advertised = Some size -> 1 <= size <= MAX_METADATA_LENGTH))).
  - destruct advertised as [size|].
    + wp_call (size_hint_ok acts (set_started d) size Hd1).
      * intros [] d' (H1 & H2 & H3 & H4 & H5 & H6). split_and!; try done; [by rewrite H3|naive_solver].
      * intros e d' [-> Hne]. split; [done|]. cbn in Hne. destruct (d_size d); [by left|right]. intros H. apply Hne. split; [by left|by apply H].
    + wp_step. split_and!; try done. intros E. unfold received_blocks. cbn. by destruct (dk_none _ _ _ _ Hd E) as (_ & -> & _).
  - cbv beta. intros [] d1 (H1 & H2 & H3 & H4 & H5 & H6). wp_call (schedule_requests_ok acts d1 H1 H3 H2); [|done].
    intros l d' (G1 & (E1 & E2 & E3 & E4 & E5) & G3 & G4 & G5 & G6). unfold received_blocks. rewrite E1, E3, E4, E5. split_and!; try done. by apply requests_deliver.
  - cbv beta. naive_solver.
Qed.
Lemma accept_advertised_ok acts d size : download_ok expected log acts d ->
  wp (accept_advertised_size size) d (fun l d' => download_ok expected log (acts ++ l) d' /\ delivers acts l) (fun _ d' => download_ok expected log acts d').
Proof.
  intros Hd. unfold accept_advertised_size. wp_step. wp_step. destruct (complete d) eqn:Hc; [done|]. wp_step. wp_call (size_hint_ok acts d size Hd); [|by intros e d' [-> _]].
  intros [] d1 (H1 & H2 & H3 & _). wp_step. wp_step. destruct (started d1) eqn:Hs.
  - rewrite Hc in H3. wp_call (schedule_requests_ok acts d1 H1 H3 Hs); [|done]. intros l d' (G1 & _ & _ & G4 & _). split; [done|]. by apply requests_deliver.
  - wp_step. rewrite app_nil_r. split; [done|]. apply requests_deliver. constructor.
Qed.
End invariant.
Lemma download_ok_log expected log log' acts d : log ⊆ log' -> download_ok expected log acts d -> download_ok expected log' acts d.
Proof.
  intros Hl [H1 H2 H3 H4 H5 H6 H7 H8 H9]. split; try done. intros n Hn. destruct (H3 n Hn) as (? & ? & Hb). split_and!; [lia..|done|].
  intros Hc. destruct (Hb Hc) as [? Hd]. split; [done|]. intros i Hi. by apply Hl, Hd.
Qed.
Lemma new_download_ok expected : download_ok expected [] [] (MetadataDownload_new expected).
Proof. split; cbn; try done. intros i Hi. by apply nth_get_lt in Hi as [? ?%Z.lt_nge]. Qed.

(** Any sequence of calls, with the messages received and the actions returned. *)
Inductive download_run (sha1 sha256 : list Z -> list Z) (expected : MetadataInfoHash) : list MetadataMessage -> list MetadataDownloadAction -> MetadataDownload -> Prop :=
| run_new : download_run sha1 sha256 expected [] [] (MetadataDownload_new expected)
| run_start log acts d advertised : download_run sha1 sha256 expected log acts d ->
    download_run sha1 sha256 expected log (acts ++ actions_of (start advertised d).2) (start advertised d).1
| run_size log acts d size : download_run sha1 sha256 expected log acts d ->
    download_run sha1 sha256 expected log (acts ++ actions_of (accept_advertised_size size d).2) (accept_advertised_size size d).1
| run_message log acts d m : download_run sha1 sha256 expected log acts d ->
    download_run sha1 sha256 expected (log ++ [m]) (acts ++ actions_of (on_message sha1 sha256 m d).2) (on_message sha1 sha256 m d).1.

(** A specified call, seen from outside. *)
Lemma wp_outcome {S E A} (m : M S E A) s Q R : wp m s Q R -> returns (m s).2 /\ match (m s).2 with Ok a => Q a (m s).1 | Err e => R e (m s).1 | _ => False end.
Proof. unfold wp. destruct (m s) as [s' [a|e| |]]; cbn; done. Qed.
Definition completions (acts : list MetadataDownloadAction) : list MetadataDownloadAction := filter (fun a => is_complete_action a = true) acts.
Section run.
Context (sha1 sha256 : list Z -> list Z) (expected : MetadataInfoHash).
Definition run_ok (log : list MetadataMessage) (acts : list MetadataDownloadAction) (d : MetadataDownload) : Prop :=
  download_ok expected log acts d /\ len (completions acts) <= 1
  /\ forall bytes, Complete bytes ∈ acts -> matches sha1 sha256 expected bytes = true /\ assembled log acts bytes.
Lemma assembled_mono log log' acts acts' bytes : log ⊆ log' -> acts ⊆ acts' -> assembled log acts bytes -> assembled log' acts' bytes.
Proof. intros H1 H2 [? H]. split; [done|]. intros i Hi. destruct (H i Hi). split; [by apply H1|by apply H2]. Qed.
Lemma no_completions acts : existsb is_complete_action acts = false -> completions acts = [].
Proof.
  intros H. unfold completions. destruct (filter _ acts) as [|a l] eqn:E; [done|]. assert (a ∈ filter (fun a => is_complete_action a = true) acts) as Ha by (rewrite E; set_solver).
  apply list_elem_of_filter in Ha as [Ha1 Ha2]. assert (existsb is_complete_action acts = true); [|congruence]. apply existsb_exists. exists a. split; [by apply list_elem_of_In|done].
Qed.
(** A call in a state where it delivers what it should, or is refused when complete. *)
Lemma run_ok_step log log' acts d r d' : run_ok log acts d -> log ⊆ log' -> (complete d = true -> actions_of r = []) ->
  match r with Ok l => download_ok expected log' (acts ++ l) d' /\ delivers expected log' sha1 sha256 acts l | Err _ => download_ok expected log' acts d' | _ => False end ->
  run_ok log' (acts ++ actions_of r) d'.
Proof.
  intros (Hd & Hone & Hall) Hl Hdone Hr. assert (forall l, l = actions_of r -> (forall bytes, Complete bytes ∈ l -> l = [Complete bytes])
     /\ download_ok expected log' (acts ++ l) d' /\ delivers expected log' sha1 sha256 acts l) as H.
  { intros l ->. destruct r as [l|e| |]; cbn; try done.
    - destruct Hr as [H1 H2]. split_and!; [|done|done]. intros b Hb. by destruct (H2 b Hb).
    - rewrite app_nil_r. split_and!; [|done|]; intros b Hb; by apply elem_of_nil in Hb. }
  destruct (H _ eq_refl) as (H1 & H2 & H3). clear H Hr. split_and!; [done| |].
  - unfold completions in *. rewrite filter_app, len_app. destruct (complete d) eqn:Ec; [rewrite Hdone by done; cbn; len_lia|].
    rewrite (dk_complete _ _ _ _ Hd) in Ec. apply no_completions in Ec. unfold completions in Ec. rewrite Ec, len_nil.
    destruct (filter _ (actions_of r)) as [|a l] eqn:E; [len_lia|]. assert (a ∈ filter (fun a => is_complete_action a = true) (actions_of r)) as Ha by (rewrite E; set_solver).
    apply list_elem_of_filter in Ha as [Ha1 Ha2]. destruct a as [|b]; [done|]. rewrite (H1 b Ha2) in E. cbn in E. injection E as <-. len_lia.
  - intros bytes [Hin|Hin]%elem_of_app.
    + destruct (Hall bytes Hin) as [Hm Ha]. split; [done|]. apply (assembled_mono log log' acts); [done|set_solver|done].
    + destruct (H3 bytes Hin) as (_ & Hm & Ha). split; [done|]. apply (assembled_mono log' log' acts); [done|set_solver|done].
Qed.
Lemma run_ok_reach log acts d : download_run sha1 sha256 expected log acts d -> run_ok log acts d.
Proof.
  induction 1 as [|log acts d adv _ IH|log acts d size _ IH|log acts d m _ IH].
  - split_and!; [apply new_download_ok|done|]. intros b Hb. by apply elem_of_nil in Hb.
  - apply (run_ok_step log log acts d); [done|done| |].
    + intros Hc. unfold start. rewrite get_bind. destruct (started d) eqn:E; [done|]. destruct (dk_started _ _ _ _ (proj1 IH) E). congruence.
    + destruct (wp_outcome _ _ _ _ (start_ok expected log sha1 sha256 acts d adv (proj1 IH))) as [Hr H]. destruct ((start adv d).2); naive_solver.
  - apply (run_ok_step log log acts d); [done|done| |].
    + intros Hc. unfold accept_advertised_size. rewrite get_bind. by rewrite Hc.
    + destruct (wp_outcome _ _ _ _ (accept_advertised_ok expected log sha1 sha256 acts d size (proj1 IH))) as [Hr H]. by destruct ((accept_advertised_size size d).2).
  - assert (log ⊆ log ++ [m]) as Hl by set_solver. apply (run_ok_step log (log ++ [m]) acts d); [done|done| |].
    + intros Hc. unfold on_message. rewrite get_bind. by rewrite Hc.
    + destruct (wp_outcome _ _ _ _ (on_message_ok expected (log ++ [m]) sha1 sha256 acts d m (download_ok_log _ _ _ _ _ Hl (proj1 IH)) ltac:(set_solver))) as [Hr H].
      by destruct ((on_message sha1 sha256 m d).2).
Qed.
End run.

(** ** A download served by an upload *)
Definition answer (p : Z) (u : MetadataUpload) : MetadataUpload * result MetadataMessage :=
  let '(u, action) := on_request p u in
  (u, action ≫= fun action =>
      match action with
      | UploadData piece total_size block => encode_metadata_data piece total_size block ≫= parse_metadata_message
      | UploadReject piece => parse_metadata_message (encode_metadata_reject piece)
      end).
(** The download asks, the upload answers, in any order; [k] answers so far. *)
Inductive exchange (sha1 sha256 : list Z -> list Z) (expected : MetadataInfoHash) (bytes : list Z) :
    Z -> list MetadataDownloadAction -> MetadataDownload -> MetadataUpload -> Prop :=
| exchange_start advertised d acts u : advertised = None \/ advertised = Some (len bytes) ->
    start advertised (MetadataDownload_new expected) = (d, Ok acts) -> MetadataUpload_new bytes = Ok u ->
    exchange sha1 sha256 expected bytes 0 acts d u
| exchange_answer k acts d u p u' m d' l : exchange sha1 sha256 expected bytes k acts d u -> p ∈ d_pending d ->
    answer p u = (u', Ok m) -> on_message sha1 sha256 m d = (d', Ok l) ->
    exchange sha1 sha256 expected bytes (k + 1) (acts ++ l) d' u'.
Lemma all_received l : forallb (fun received => received) l = true <-> len (filter (fun r => r = true) l) = len l.
Proof.
  induction l as [|[] l IH]; [done|..]; cbn [forallb andb]; rewrite filter_cons.
  - rewrite decide_True, !len_cons, IH by done. lia.
  - rewrite decide_False, len_cons by done. pose proof (length_filter (fun r => r = true) l). unfold len. split; [done|lia].
Qed.
Lemma missing_block l : forallb (fun received => received) l = false -> exists i, nth_get l i = Some false.
Proof.
  intros H. assert (false ∈ l) as Hin.
  { induction l as [|[] l IH]; [done|..]; cbn in H; [|set_solver]. specialize (IH H). set_solver. }
  apply list_elem_of_lookup in Hin as [i Hi]. exists (Z.of_nat i). by rewrite nth_get_lookup, Nat2Z.id by lia.
Qed.
Lemma serve_answer_ok bytes u p : 1 <= len bytes <= MAX_METADATA_LENGTH -> u_bytes u = bytes -> len (served u) = metadata_block_count (len bytes) ->
  0 <= p < metadata_block_count (len bytes) -> exists u', answer p u = (u', Ok (Data p (len bytes) (block_of bytes p)))
  /\ u_bytes u' = bytes /\ served u' = <[Z.to_nat p := true]> (served u).
Proof.
  intros Hn Hu Hl Hp. pose proof (block_count_bounds _ Hn) as Hc. change MAX_METADATA_BLOCKS with 1920 in Hc. pose proof (len_block_of bytes p Hp) as [Hb _].
  unfold answer, on_request. rewrite (proj2 (Z.ltb_ge p 0)), (proj2 (Z.leb_gt _ _)) by (cbn; lia). cbn [orb].
  assert (p * METADATA_BLOCK_LENGTH <= len bytes) as Hle by (unfold metadata_block_count in Hp; pose proof (div_ceil_spec (len bytes) METADATA_BLOCK_LENGTH eq_refl); change METADATA_BLOCK_LENGTH with 16384 in *; lia).
  cbn [u_bytes served request_count]. rewrite Hu, slice_ok by (change METADATA_BLOCK_LENGTH with 16384 in *; lia). obind.
  rewrite Z.mod_small by (change (2 ^ 32) with 4294967296; lia).
  replace (sub_list bytes (p * METADATA_BLOCK_LENGTH) (Z.min (p * METADATA_BLOCK_LENGTH + METADATA_BLOCK_LENGTH) (len bytes))) with (block_of bytes p)
    by (unfold block_of; do 2 f_equal; lia).
  assert (data_ok p (len bytes) (block_of bytes p)) as Hok.
  { split_and!; try lia. change MAX_LOCAL_METADATA_LENGTH with 67108864. change MAX_METADATA_LENGTH with 31457280 in Hn. lia. }
  assert ((encode_metadata_data p (len bytes) (block_of bytes p) ≫= parse_metadata_message) = Ok (Data p (len bytes) (block_of bytes p))) as ->; [|eexists; split; [reflexivity|done]].
  destruct (encode_metadata_data p (len bytes) (block_of bytes p)) as [payload|e| |] eqn:E.
  2-4: rewrite (proj2 (encode_data_spec p _ _ _ (proj1 Hp)) (conj Hok eq_refl)) in E; done.
  apply encode_data_spec in E as [_ ->]; [|lia]. obind. rewrite parse_data by done. unfold validate_size.
  by rewrite (proj2 (Z.leb_le 1 _)), (proj2 (Z.leb_le _ MAX_METADATA_LENGTH)) by lia.
Qed.
Lemma assembled_truthful bytes log acts b : (forall m, m ∈ log -> exists i, m = Data i (len bytes) (block_of bytes i)) ->
  len b = len bytes -> assembled log acts b -> b = bytes.
Proof.
  intros Hlog Hl [_ H]. apply blocks_ext; [done|]. intros i Hi. destruct (H i Hi) as [Hin _]. destruct (Hlog _ Hin) as (j & E). by injection E as -> _ ->.
Qed.
Section exchange.
Context (sha1 sha256 : list Z -> list Z) (expected : MetadataInfoHash) (bytes : list Z).
Context (Hlen : 1 <= len bytes <= MAX_METADATA_LENGTH) (Hhash : matches sha1 sha256 expected bytes = true).
(** The messages received are the true blocks, one for each answer. *)
Record exchange_ok (k : Z) (acts : list MetadataDownloadAction) (d : MetadataDownload) (u : MetadataUpload) (log : list MetadataMessage) : Prop := {
  xk_download : download_ok expected log acts d;
  xk_log m : m ∈ log -> exists i, m = Data i (len bytes) (block_of bytes i) /\ nth_get (served u) i = Some true;
  xk_size : d_size d = None \/ d_size d = Some (len bytes);
  xk_upload : u_bytes u = bytes /\ len (served u) = metadata_block_count (len bytes);
  xk_count : received_blocks d = k;
  xk_complete : complete d = bool_decide (k = metadata_block_count (len bytes));
  xk_bounds : 0 <= k <= metadata_block_count (len bytes);
  xk_pending : complete d = false -> exists p, p ∈ d_pending d;
  xk_delivered : complete d = true -> Complete bytes ∈ acts /\ forall i, 0 <= i < metadata_block_count (len bytes) -> nth_get (served u) i = Some true;
}.
Lemma pending_of_progress d : (set_len (d_pending d) = MAX_METADATA_REQUESTS_IN_FLIGHT \/ forall q, nth_get (d_received d) q = Some false -> q ∈ d_pending d) ->
  (exists q, nth_get (d_received d) q = Some false) -> exists p, p ∈ d_pending d.
Proof.
  intros [H|H] [q Hq]; [|by exists q; apply H]. destruct (decide (d_pending d = ∅)) as [E|E]; [by rewrite E in H|]. destruct (set_choose_L _ E) as [p ?]. by exists p.
Qed.
Lemma exchange_starts advertised : advertised = None \/ advertised = Some (len bytes) -> exists d acts u,
  start advertised (MetadataDownload_new expected) = (d, Ok acts) /\ MetadataUpload_new bytes = Ok u /\ exchange_ok 0 acts d u [].
Proof.
  intros Hadv. assert (forall size, advertised = Some size -> 1 <= size <= MAX_METADATA_LENGTH) as Hok by (intros size; naive_solver).
  destruct (wp_outcome _ _ _ _ (start_ok expected [] sha1 sha256 [] _ advertised (new_download_ok expected))) as [_ H].
  destruct (start advertised (MetadataDownload_new expected)) as [d [acts|e| |]]; cbn [fst snd] in H; [|destruct H as (_ & [?|[?|?]]); done|done..].
  destruct H as (Hd & _ & _ & Hs & Hc & Hsz & Hnone & Hrb & Hprog & Hz).
  assert (MetadataUpload_new bytes = Ok (mkUpload bytes (replicate (Z.to_nat (metadata_block_count (len bytes))) false) 0)) as Hu.
  { unfold MetadataUpload_new. rewrite (proj2 (validate_local_spec (len bytes) (len bytes))); [done|]. split; [done|]. change MAX_LOCAL_METADATA_LENGTH with 67108864. change MAX_METADATA_LENGTH with 31457280 in Hlen. lia. }
  pose proof (block_count_bounds _ Hlen) as Hcnt. eexists d, acts, _. split; [done|]. split; [exact Hu|].
  assert (d_size d = None \/ d_size d = Some (len bytes)) as Hsize. { destruct Hadv as [->| ->]; [left; by apply Hnone|]. destruct (Hsz _ eq_refl); [left|right]; done. }
  split; cbn; try done.
  - intros m Hm. by apply elem_of_nil in Hm.
  - split; [done|]. rewrite len_replicate. lia.
  - by apply Hrb.
  - rewrite bool_decide_false by lia. done.
  - lia.
  - intros _. destruct Hsize as [E|E]; [exists 0; rewrite (Hz E); set_solver|]. apply pending_of_progress; [done|]. apply missing_block.
    destruct (forallb _ (d_received d)) eqn:Ef; [|done]. apply all_received in Ef. destruct (dk_some _ _ _ _ Hd _ E) as (_ & Hlr & _).
    pose proof (Hrb eq_refl) as Hrb0. unfold received_blocks in Hrb0. lia.
  - congruence.
Qed.
Lemma exchange_step k acts d u log p : exchange_ok k acts d u log -> p ∈ d_pending d -> exists u' d' l log',
  answer p u = (u', Ok (Data p (len bytes) (block_of bytes p))) /\ on_message sha1 sha256 (Data p (len bytes) (block_of bytes p)) d = (d', Ok l)
  /\ exchange_ok (k + 1) (acts ++ l) d' u' log'.
Proof.
  intros [Hd Hlog Hsize [Hub Hls] Hk Hcomp Hbounds Hpend Hdel] Hp. pose proof (block_count_bounds _ Hlen) as Hcnt.
  assert (complete d = false) as Hc. { destruct (complete d) eqn:E; [|done]. destruct (dk_done _ _ _ _ Hd E) as [Hem _]. rewrite Hem in Hp. by apply elem_of_empty in Hp. }
  assert (0 <= p < metadata_block_count (len bytes)) as Hpr.
  { destruct Hsize as [E|E]; [destruct (dk_none _ _ _ _ Hd E) as (_ & _ & Hsub & _); apply Hsub, elem_of_singleton in Hp; lia|].
    destruct (dk_pending _ _ _ _ Hd p Hp) as [_ Hr]. specialize (Hr ltac:(by rewrite E)). apply nth_get_lt in Hr. destruct (dk_some _ _ _ _ Hd _ E) as (_ & ? & _). lia. }
  destruct (serve_answer_ok bytes u p Hlen Hub Hls Hpr) as (u' & Ea & Hub' & Hsv). exists u'.
  set (m := Data p (len bytes) (block_of bytes p)) in *. set (log' := log ++ [m]).
  assert (log ⊆ log') as Hll by set_solver. pose proof (download_ok_log _ _ _ _ _ Hll Hd) as Hd'.
  assert (forall m, m ∈ log' -> exists i, m = Data i (len bytes) (block_of bytes i) /\ nth_get (served u') i = Some true) as Hlog'.
  { rewrite Hsv. intros m' [Hm|Hm%list_elem_of_singleton]%elem_of_app; [|subst m'].
    - destruct (Hlog m' Hm) as (i & -> & Hi). exists i. split; [done|]. pose proof (nth_get_lt _ _ _ Hi). rewrite nth_get_insert by lia. by destruct (bool_decide (i = p)).
    - exists p. split; [done|]. rewrite nth_get_insert by lia. by rewrite bool_decide_true. }
  assert (answers d p (len bytes) (block_of bytes p)) as Hans. { split; [done|]. split; [done|]. split; [done|]. by apply len_block_of. }
  assert (forall b, len b = len bytes -> assembled log' acts b -> b = bytes) as Htrue.
  { intros b Hb Hab. eapply assembled_truthful; [|done..]. intros m' Hm'. destruct (Hlog' _ Hm') as (i & ? & _). by exists i. }
  destruct (wp_outcome _ _ _ _ (on_data_ok expected log' sha1 sha256 acts d p (len bytes) (block_of bytes p) Hd' Hc ltac:(set_solver))) as [_ H].
  assert (on_message sha1 sha256 m d = on_data sha1 sha256 p (len bytes) (block_of bytes p) d) as Em by (unfold on_message; rewrite get_bind, Hc; done). rewrite Em.
  destruct (on_data sha1 sha256 p (len bytes) (block_of bytes p) d) as [d' [l|e| |]]; cbn [fst snd] in H; [| |done..].
  2:{ destruct H as [_ H]. destruct (H Hans) as (_ & b & Hb & Hm & Hab). rewrite (Htrue b Hb Hab) in Hm. congruence. }
  destruct H as (H1 & _ & H2). destruct (H2 Hans) as (G1 & G2 & G3 & G4 & G5). exists d', l, log'. split; [done|]. split; [done|].
  pose proof (dk_some _ _ _ _ H1 _ G1) as (_ & Hlr & _). pose proof (length_filter (fun r => r = true) (d_received d')) as Hle.
  assert (k + 1 <= metadata_block_count (len bytes)) as Hk1 by (rewrite <- Hlr, <- Hk; unfold received_blocks, len in *; lia).
  assert (complete d' = bool_decide (k + 1 = metadata_block_count (len bytes))) as Hc'.
  { rewrite G4. apply eq_bool_prop_intro. rewrite bool_decide_spec. rewrite Is_true_true, all_received, Hlr. unfold received_blocks in *. lia. }
  split; try done.
  - by right.
  - split; [done|]. rewrite Hsv, len_insert. done.
  - lia.
  - lia.
  - intros Ef. rewrite Ef in G5. destruct G5 as [_ G5]. apply pending_of_progress; [done|]. apply missing_block. congruence.
  - intros Et. rewrite Et in G5. destruct G5 as (b & -> & Hb & _ & Hab). pose proof (Htrue b Hb Hab) as ->. split; [set_solver|]. intros i Hi.
    destruct Hab as [_ Hab]. destruct (Hab i Hi) as [Hin _]. destruct (Hlog' _ Hin) as (j & E & Hj). by injection E as -> _.
Qed.
Lemma exchange_reach k acts d u : exchange sha1 sha256 expected bytes k acts d u -> exists log, exchange_ok k acts d u log.
Proof.
  induction 1 as [adv d acts u Hadv Es Eu|k acts d u p u' m d' l _ [log IH] Hp Ea Em].
  - destruct (exchange_starts adv Hadv) as (d2 & acts2 & u2 & E1 & E2 & H). rewrite E1 in Es. rewrite E2 in Eu. injection Es as <- <-. injection Eu as <-. by exists [].
  - destruct (exchange_step _ _ _ _ _ p IH Hp) as (u2 & d2 & l2 & log' & E1 & E2 & H). rewrite E1 in Ea. injection Ea as <- <-. rewrite E2 in Em. injection Em as <- <-. by exists log'.
Qed.
End exchange.

(** * Properties *)

(** The messages are read back as they were written.  Every request and
    every rejection parses to its piece; the encoder of data accepts exactly
    the blocks that have the length their position requires, and what it
    writes parses to the same piece, size and block, unless the size is above
    the limit for downloads, which is then the error reported. *)
Theorem metadata_messages_roundtrip piece :
  (is_u 32 piece -> parse_metadata_message (encode_metadata_request piece) = Ok (Request piece))
  /\ (is_i64 piece -> parse_metadata_message (encode_metadata_reject piece) = Ok (Reject piece))
  /\ forall total_size block, 0 <= piece ->
    (data_ok piece total_size block -> exists bytes, encode_metadata_data piece total_size block = Ok bytes
       /\ parse_metadata_message bytes = if total_size <=? MAX_METADATA_LENGTH then Ok (Data piece total_size block) else Err (ME_InvalidSize total_size MAX_METADATA_LENGTH))
    /\ (~ data_ok piece total_size block -> exists e, encode_metadata_data piece total_size block = Err e).
Proof.
  split_and!.
  - intros Hp. apply (parse_control 0); [by left|]. unfold is_u, is_i64 in *. lia.
  - intros Hp. apply (parse_control 2); [by right|done].
  - intros total_size block Hp. split.
    + intros H. eexists. split; [by apply encode_data_spec|]. rewrite parse_data by done. unfold validate_size. destruct H as ([Ht _] & _).
      rewrite (proj2 (Z.leb_le 1 total_size)) by lia. cbn [andb]. by destruct (_ <=? _).
    + intros H. assert (returns (encode_metadata_data piece total_size block)) as Hr.
      { unfold encode_metadata_data, size_to_i64, validate_local_size, metadata_block_length. repeat returns_step. }
      destruct (encode_metadata_data piece total_size block) as [bytes|e| |] eqn:E; [|by eexists|done..]. by apply encode_data_spec in E as [? _].
Qed.

(** Whatever a peer sends, the parser of metadata messages returns; a
    data message is a dictionary followed by its block, with a size within
    the limit; the other messages are the dictionary alone. *)
Theorem metadata_parse_safe payload : returns (parse_metadata_message payload) /\ forall m, parse_metadata_message payload = Ok m ->
  exists l rest, payload = bencode (BDict l) ++ rest
  /\ match m with
     | Data _ total_size block => 1 <= total_size <= MAX_METADATA_LENGTH /\ block = rest
     | Request _ | Reject _ => rest = []
     | Unknown message_type => ~ 0 <= message_type <= 2
     end.
Proof.
  destruct (parse_message_cases payload) as [[e E]|(l & rest & Hp & E)]; rewrite E; [by split|]. split; [apply message_of_returns|].
  intros m Hm. exists l, rest. split; [done|by apply (message_of_sound l)].
Qed.

(** A download accepts only what it asked for.  Under any sequence of
    starts, announced sizes and messages of a peer, no call panics, at most
    two requests are outstanding, and bytes are delivered at most once: they
    have the expected hash and an allowed length, and each of their blocks
    was requested and is the block of a message received.  Once it has
    delivered, the download refuses further messages. *)
Theorem metadata_download_safe sha1 sha256 expected log acts d : download_run sha1 sha256 expected log acts d ->
  (forall advertised size m, returns (start advertised d).2 /\ returns (accept_advertised_size size d).2 /\ returns (on_message sha1 sha256 m d).2)
  /\ pending_requests d <= MAX_METADATA_REQUESTS_IN_FLIGHT
  /\ len (completions acts) <= 1
  /\ (forall bytes, Complete bytes ∈ acts -> matches sha1 sha256 expected bytes = true /\ 1 <= len bytes <= MAX_METADATA_LENGTH
      /\ forall i, 0 <= i < metadata_block_count (len bytes) -> Data i (len bytes) (block_of bytes i) ∈ log /\ RequestPiece i ∈ acts)
  /\ ((exists bytes, Complete bytes ∈ acts) -> forall m, on_message sha1 sha256 m d = (d, Err ME_AlreadyComplete)).
Proof.
  intros Hrun. destruct (run_ok_reach _ _ _ _ _ _ Hrun) as (Hd & Hone & Hall). split_and!; try done.
  - intros advertised size m. split_and!.
    + apply (wp_outcome _ _ _ _ (start_ok expected log sha1 sha256 acts d advertised Hd)).
    + apply (wp_outcome _ _ _ _ (accept_advertised_ok expected log sha1 sha256 acts d size Hd)).
    + refine (proj1 (wp_outcome _ _ _ _ (on_message_ok expected (log ++ [m]) sha1 sha256 acts d m (download_ok_log _ _ _ _ _ _ Hd) _))); set_solver.
  - apply Hd.
  - intros [bytes Hin] m. unfold on_message. rewrite get_bind, (dk_complete _ _ _ _ Hd).
    rewrite (proj2 (existsb_exists _ _)); [done|]. exists (Complete bytes). split; [by apply list_elem_of_In|done].
Qed.

(** C8: Between an honest pair the metadata arrives.  A download that starts
    without a size, or with the right one, against an upload of bytes of the
    expected hash succeeds, in whatever order its requests are answered: as
    long as blocks are missing a request is outstanding, and whichever is
    answered next, the answer crosses the wire and is accepted; the answers
    are as many as the blocks, and after the last one exactly the bytes are
    delivered and the upload is complete. *)
Theorem metadata_exchange_completes sha1 sha256 expected bytes : 1 <= len bytes <= MAX_METADATA_LENGTH -> matches sha1 sha256 expected bytes = true ->
  (forall advertised, advertised = None \/ advertised = Some (len bytes) -> exists d acts u,
     start advertised (MetadataDownload_new expected) = (d, Ok acts) /\ MetadataUpload_new bytes = Ok u)
  /\ forall k acts d u, exchange sha1 sha256 expected bytes k acts d u -> let count := metadata_block_count (len bytes) in
     k <= count
     /\ (k < count -> (exists p, p ∈ d_pending d) /\ forall p, p ∈ d_pending d -> exists u' m d' l,
          answer p u = (u', Ok m) /\ on_message sha1 sha256 m d = (d', Ok l))
     /\ (k = count -> Complete bytes ∈ acts /\ upload_is_complete u = true).
Proof.
  intros Hlen Hhash. split.
  - intros adv Hadv. destruct (exchange_starts sha1 sha256 expected bytes Hlen adv Hadv) as (d & acts & u & ? & ? & _). by exists d, acts, u.
  - intros k acts d u Hex count. destruct (exchange_reach _ _ _ _ Hlen Hhash _ _ _ _ Hex) as [log H]. pose proof H as [Hd Hlog Hsize [Hub Hls] Hk Hc Hb Hp Hdel].
    fold count in Hc, Hb. split_and!; [lia|..].
    + intros Hlt. rewrite bool_decide_false in Hc by lia. split; [by apply Hp|]. intros p Hin.
      destruct (exchange_step _ _ _ _ Hlen Hhash _ _ _ _ _ p H Hin) as (u' & d' & l & log' & ? & ? & _). by exists u', (Data p (len bytes) (block_of bytes p)), d', l.
    + intros ->. rewrite bool_decide_true in Hc by done. split; [by apply Hdel|]. unfold upload_is_complete. apply forallb_forall. intros b Hin%list_elem_of_In.
      apply list_elem_of_lookup in Hin as [i Hi]. pose proof (lookup_lt_Some _ _ _ Hi) as Hil. destruct (Hdel Hc) as [_ Hs].
      specialize (Hs (Z.of_nat i) ltac:(rewrite <- Hls; unfold len; lia)). rewrite nth_get_lookup, Nat2Z.id in Hs by lia. congruence.
Qed.

(** The handshake encoder for the fixed local ID does not panic exactly when
    it is given no size, or one between one byte and the local limit. *)
Theorem encode_metadata_handshake_returns size :
  returns (encode_metadata_handshake size) <-> match size with Some n => 1 <= n <= MAX_LOCAL_METADATA_LENGTH | None => True end.
Proof.
  unfold encode_metadata_handshake, encode_extension_handshake_with_id. change (UT_METADATA_LOCAL_ID =? 0) with false. cbv beta iota. destruct size as [n|]; cbn [traverse]; [|done].
  destruct (size_to_i64 n MAX_LOCAL_METADATA_LENGTH ≫= validate_local_size) as [m|e| |] eqn:E.
  - apply validate_local_spec in E as [-> Hn]. obind. unfold encode_extension_handshake. cbn [ad_metadata_id ad_pex_id ad_metadata_size ad_listen_port].
    rewrite !(bool_decide_false (Some UT_METADATA_LOCAL_ID = _)), (bool_decide_false (None = Some 0)), (bool_decide_false (Some n = Some 0)) by (congruence || (intros [= ->]; lia)).
    rewrite andb_false_r. done.
  - split; [done|]. intros Hn. rewrite (proj2 (validate_local_spec n n) (conj eq_refl Hn)) in E. done.
  - split; [done|]. intros Hn. rewrite (proj2 (validate_local_spec n n) (conj eq_refl Hn)) in E. done.
  - split; [done|]. intros Hn. rewrite (proj2 (validate_local_spec n n) (conj eq_refl Hn)) in E. done.
Qed.

(** * Examples *)
Definition sample_metadata : list Z := bytes_of "d4:name3:one12:piece lengthi16384ee".
Definition sample_hash : MetadataInfoHash := HashV1 sample_metadata.
Definition sample_hasher : list Z -> list Z := fun bytes => bytes.
Definition sample_size : Z := len sample_metadata.
Definition sample_run : MetadataDownload * result (list MetadataDownloadAction) :=
  let '(d, _) := start None (MetadataDownload_new sample_hash) in on_message sample_hasher sample_hasher (Data 0 sample_size sample_metadata) d.
Lemma metadata_messages_roundtrip_witness : is_u 32 7 /\ is_i64 (- 3) /\ data_ok 1 16386 [1; 2]
  /\ parse_metadata_message (encode_metadata_request 7) = Ok (Request 7) /\ parse_metadata_message (encode_metadata_reject (- 3)) = Ok (Reject (- 3))
  /\ exists bytes, encode_metadata_data 1 16386 [1; 2] = Ok bytes /\ parse_metadata_message bytes = Ok (Data 1 16386 [1; 2]).
Proof.
  assert (is_u 32 7) as H1 by (unfold is_u; lia). assert (is_i64 (- 3)) as H2 by (unfold is_i64; lia).
  assert (data_ok 1 16386 [1; 2]) as H3 by (by vm_compute).
  split; [exact H1|]. split; [exact H2|]. split; [exact H3|]. split; [exact (proj1 (metadata_messages_roundtrip 7) H1)|].
  split; [exact (proj1 (proj2 (metadata_messages_roundtrip (- 3))) H2)|].
  exact (proj1 (proj2 (proj2 (metadata_messages_roundtrip 1)) 16386 [1; 2] ltac:(lia)) H3).
Defined.
Lemma metadata_download_safe_witness : (sample_run).2 = Ok [Complete sample_metadata]
  /\ matches sample_hasher sample_hasher sample_hash sample_metadata = true /\ forall m, on_message sample_hasher sample_hasher m (sample_run).1 = ((sample_run).1, Err ME_AlreadyComplete).
Proof.
  assert (download_run sample_hasher sample_hasher sample_hash ([] ++ [Data 0 sample_size sample_metadata]) (([] ++ actions_of (start None (MetadataDownload_new sample_hash)).2)
    ++ actions_of (on_message sample_hasher sample_hasher (Data 0 sample_size sample_metadata) (start None (MetadataDownload_new sample_hash)).1).2) (sample_run).1) as Hrun.
  { apply (run_message _ _ _ [] _ (start None (MetadataDownload_new sample_hash)).1 (Data 0 sample_size sample_metadata)). apply (run_start _ _ _ [] [] _ None). apply run_new. }
  destruct (metadata_download_safe _ _ _ _ _ _ Hrun) as (_ & _ & _ & H & Hdone).
  assert (Complete sample_metadata ∈ (([] ++ actions_of (start None (MetadataDownload_new sample_hash)).2)
    ++ actions_of (on_message sample_hasher sample_hasher (Data 0 sample_size sample_metadata) (start None (MetadataDownload_new sample_hash)).1).2)) as Hin.
  { apply (bool_decide_unpack _). vm_compute. exact I. }
  split; [vm_compute; reflexivity|]. split; [exact (proj1 (H _ Hin))|]. apply Hdone. by exists sample_metadata.
Defined.
Lemma metadata_exchange_completes_witness : exists d acts u, start None (MetadataDownload_new sample_hash) = (d, Ok acts) /\ MetadataUpload_new sample_metadata = Ok u
  /\ exists p, p ∈ d_pending d.
Proof.
  destruct (metadata_exchange_completes sample_hasher sample_hasher sample_hash sample_metadata) as [Hs He]; [vm_compute; by split|vm_compute; reflexivity|].
  destruct (Hs None (or_introl eq_refl)) as (d & acts & u & E1 & E2). exists d, acts, u. split; [exact E1|]. split; [exact E2|].
  destruct (He 0 acts d u) as (_ & H & _); [by apply (exchange_start _ _ _ _ None); [left|..]|]. destruct H as [Hp _]; [by vm_compute|exact Hp].
Defined.
