(* ===== verification/TorrentMetadata.v ===== *)
(** * Metadata from several peers (src/metadata.rs, TorrentMetadataDownload)

    The blocks of a torrent's metadata are requested from up to thirty-two
    peers, each block from one peer at a time; assignments expire, a peer that
    rejects or contributed to a wrong result is left alone for a while, and a
    result of the wrong hash is thrown away and started again.

    A [BTreeMap] is a [gmap], a [BTreeSet] a [gset]; times are milliseconds.

    The properties: an invariant that ties the peers' pending pieces to the
    blocks' assignments; what is delivered has the hash and was requested;
    the requests of a peer are within its window, ordered, and never withheld
    from all peers. *)
From stdpp Require Import strings.
From S2P Require Import Prelude Bytes Bencode Ordered Extension Metadata.
#[local] Open Scope Z_scope.

Definition MAX_TORRENT_METADATA_PEERS : Z := 32.
Definition METADATA_REQUEST_RAMP_MILLIS : Z := 1000.
Definition METADATA_ASSIGNMENT_TIMEOUT_MILLIS : Z := 3000.
Definition METADATA_REJECT_COOLDOWN_MILLIS : Z := 20000.
Definition METADATA_HASH_FAILURE_COOLDOWN_MILLIS : Z := 20000.
Definition METADATA_SINGLE_BLOCK_HASH_FAILURE_COOLDOWN_MILLIS : Z := 5 * 60 * 1000.

Inductive TorrentMetadataEvent :=
| BlockAccepted (piece : Z)
| Duplicate (piece : Z)
| HashMismatch (contributors : list Z)
| EventComplete (bytes : list Z).
Record TorrentMetadataBlock := mkBlock {
  received : bool;
  source : option Z;
  assignments : gmap Z Z;
  requested_by : gset Z;
  b_request_count : Z;
}.
Definition TorrentMetadataBlock_default : TorrentMetadataBlock := mkBlock false None ∅ ∅ 0.
Record TorrentMetadataPeer := mkPeer {
  pending : gset Z;
  cooldown_until : option Z;
  last_request : option Z;
}.
Definition TorrentMetadataPeer_default : TorrentMetadataPeer := mkPeer ∅ None None.
Record TorrentMetadataDownload := mkTorrent {
  t_hash : MetadataInfoHash;
  t_size : option Z;
  t_bytes : list Z;
  blocks : list TorrentMetadataBlock;
  peers : gmap Z TorrentMetadataPeer;
  t_complete : bool;
  hash_failures : Z;
}.
Definition TorrentMetadataDownload_new (expected : MetadataInfoHash) : TorrentMetadataDownload :=
  mkTorrent expected None [] [TorrentMetadataBlock_default] ∅ false 0.

Definition set_blocks (bs : list TorrentMetadataBlock) (t : TorrentMetadataDownload) : TorrentMetadataDownload :=
  mkTorrent (t_hash t) (t_size t) (t_bytes t) bs (peers t) (t_complete t) (hash_failures t).
Definition set_peers (ps : gmap Z TorrentMetadataPeer) (t : TorrentMetadataDownload) : TorrentMetadataDownload :=
  mkTorrent (t_hash t) (t_size t) (t_bytes t) (blocks t) ps (t_complete t) (hash_failures t).
Definition set_t_size (size : option Z) (t : TorrentMetadataDownload) : TorrentMetadataDownload :=
  mkTorrent (t_hash t) size (t_bytes t) (blocks t) (peers t) (t_complete t) (hash_failures t).
Definition set_t_bytes (bytes : list Z) (t : TorrentMetadataDownload) : TorrentMetadataDownload :=
  mkTorrent (t_hash t) (t_size t) bytes (blocks t) (peers t) (t_complete t) (hash_failures t).
Definition set_t_complete (t : TorrentMetadataDownload) : TorrentMetadataDownload :=
  mkTorrent (t_hash t) (t_size t) (t_bytes t) (blocks t) (peers t) true (hash_failures t).
Definition set_hash_failures (n : Z) (t : TorrentMetadataDownload) : TorrentMetadataDownload :=
  mkTorrent (t_hash t) (t_size t) (t_bytes t) (blocks t) (peers t) (t_complete t) n.
Definition set_pending (pending : gset Z) (p : TorrentMetadataPeer) : TorrentMetadataPeer := mkPeer pending (cooldown_until p) (last_request p).
Definition set_cooldown (until : Z) (p : TorrentMetadataPeer) : TorrentMetadataPeer := mkPeer (pending p) (Some until) (last_request p).
Definition set_assignments (a : gmap Z Z) (b : TorrentMetadataBlock) : TorrentMetadataBlock :=
  mkBlock (received b) (source b) a (requested_by b) (b_request_count b).
Definition drop_pending (piece : Z) (p : TorrentMetadataPeer) : TorrentMetadataPeer := set_pending (pending p ∖ {[piece]}) p.
Definition drop_assignment (peer : Z) (b : TorrentMetadataBlock) : TorrentMetadataBlock := set_assignments (delete peer (assignments b)) b.
Abbreviation method := (M TorrentMetadataDownload MetadataError).

(** [MetadataInstant::saturating_add]. *)
Definition later (now millis : Z) : Z := saturating_add 64 now millis.
Definition peer_of (peer : Z) : method TorrentMetadataPeer :=
  s ← get; lift (ok_or (peers s !! peer) (ME_UnknownMetadataPeer peer)).

Definition sized_blocks (first : TorrentMetadataBlock) (count : Z) : list TorrentMetadataBlock :=
  map (fun index => if index =? 0 then mkBlock false None (assignments first) (requested_by first) (b_request_count first) else TorrentMetadataBlock_default)
      (seqZ 0 count).
Definition torrent_accept_size (size : Z) : method unit :=
  size ← lift (size_to_i64 size MAX_METADATA_LENGTH ≫= validate_size);
  s ← get;
  match t_size s with
  | Some expected => if expected =? size then mret tt else fail (ME_SizeChanged expected size)
  | None =>
    first ← lift (index (blocks s) 0);
    modify (set_t_bytes (replicate (Z.to_nat size) 0));;
    modify (set_blocks (sized_blocks first (metadata_block_count size)));;
    modify (set_t_size (Some size))
  end.
Definition torrent_accept_size_hint (size : Z) : method unit :=
  if MAX_TRUSTED_METADATA_HANDSHAKE_LENGTH <? size then mret tt else torrent_accept_size size.
Definition register_peer (peer : Z) (advertised_size : option Z) : method unit :=
  s ← get;
  (if bool_decide (is_Some (peers s !! peer)) then mret tt
   else if Z.of_nat (size (peers s)) =? MAX_TORRENT_METADATA_PEERS then fail (ME_MetadataPeerLimit MAX_TORRENT_METADATA_PEERS)
   else modify (set_peers (<[peer := TorrentMetadataPeer_default]> (peers s))));;
  match advertised_size with Some size => torrent_accept_size_hint size | None => mret tt end.
Definition accept_peer_size (peer size : Z) : method unit :=
  peer_of peer;; torrent_accept_size_hint size.

(** ** Expiry *)
Definition expired (now issued : Z) : bool := later issued METADATA_ASSIGNMENT_TIMEOUT_MILLIS <=? now.
Definition expired_assignments (now : Z) (bs : list TorrentMetadataBlock) : list (Z * Z) :=
  concat (imap (fun index b => map (fun e => (Z.of_nat index, e.1)) (filter (fun e => expired now e.2 = true) (btree_items (assignments b)))) bs).
Definition expire_one (t : TorrentMetadataDownload) (e : Z * Z) : TorrentMetadataDownload :=
  set_peers (alter (drop_pending e.1) e.2 (peers t)) (set_blocks (alter (drop_assignment e.2) (Z.to_nat e.1) (blocks t)) t).
Definition expire_assignments (now : Z) (t : TorrentMetadataDownload) : TorrentMetadataDownload :=
  fold_left expire_one (expired_assignments now (blocks t)) t.

(** ** Requests *)
Definition window_open (peer : TorrentMetadataPeer) : bool := set_len (pending peer) <? MAX_METADATA_REQUESTS_IN_FLIGHT.
Definition cooled (now : Z) (peer : TorrentMetadataPeer) : bool := match cooldown_until peer with Some cooldown => cooldown <=? now | None => true end.
(** Another peer that could take the block for the first time. *)
Definition may_defer (peer now : Z) (t : TorrentMetadataDownload) (b : TorrentMetadataBlock) : bool :=
  existsb (fun e => negb (e.1 =? peer) && negb (bool_decide (e.1 ∈ requested_by b)) && window_open e.2 && cooled now e.2) (btree_items (peers t)).
Definition requestable (peer now : Z) (t : TorrentMetadataDownload) (b : TorrentMetadataBlock) : bool :=
  if received b || negb (bool_decide (assignments b = ∅)) then false
  else if negb (bool_decide (peer ∈ requested_by b)) then true
  else negb (may_defer peer now t b).
(** [min_by_key] returns the first of the least; the index is part of the key. *)
Definition least (a b : Z * TorrentMetadataBlock) : bool :=
  (b_request_count a.2 <? b_request_count b.2) || ((b_request_count a.2 =? b_request_count b.2) && (a.1 <=? b.1)).
Fixpoint min_by_key (l : list (Z * TorrentMetadataBlock)) : option (Z * TorrentMetadataBlock) :=
  match l with
  | [] => None
  | e :: l => match min_by_key l with Some m => if least e m then Some e else Some m | None => Some e end
  end.
Definition enumerate {A} (l : list A) : list (Z * A) := imap (fun i a => (Z.of_nat i, a)) l.
Definition candidate (peer now : Z) (t : TorrentMetadataDownload) : option Z :=
  fst <$> min_by_key (filter (fun e => requestable peer now t e.2 = true) (enumerate (blocks t))).
Definition assign (peer now : Z) (b : TorrentMetadataBlock) : TorrentMetadataBlock :=
  mkBlock (received b) (source b) (<[peer := now]> (assignments b)) ({[peer]} ∪ requested_by b) (saturating_add USIZE (b_request_count b) 1).
Definition take_piece (piece now : Z) (p : TorrentMetadataPeer) : TorrentMetadataPeer := mkPeer ({[piece]} ∪ pending p) (cooldown_until p) (Some now).
Definition ramping (now : Z) (p : TorrentMetadataPeer) : bool :=
  match last_request p with Some last => now <? later last METADATA_REQUEST_RAMP_MILLIS | None => false end.
(** Each round adds one pending piece, so three rounds are enough. *)
Fixpoint request_loop (fuel : nat) (peer now : Z) : method (list Z) :=
  match fuel with
  | O => lift NoFuel
  | S fuel =>
    state ← peer_of peer;
    if MAX_METADATA_REQUESTS_IN_FLIGHT <=? set_len (pending state) then mret []
    else if negb (set_len (pending state) =? 0) && ramping now state then mret []
    else
      s ← get;
      match candidate peer now s with
      | None => mret []
      | Some index =>
        piece ← lift (ok_or (try_u 32 index) (ME_InvalidPiece i64_MAX));
        block ← lift (expect (nth_get (blocks s) index));
        modify (set_blocks (<[Z.to_nat index := assign peer now block]> (blocks s)));;
        modify (set_peers (<[peer := take_piece piece now state]> (peers s)));;
        requests ← request_loop fuel peer now;
        mret (piece :: requests)
      end
  end.
Definition requests_for_peer (peer now : Z) : method (list Z) :=
  s ← get;
  if t_complete s then fail ME_AlreadyComplete
  else
    modify (expire_assignments now);;
    state ← peer_of peer;
    if negb (cooled now state) then mret []
    else request_loop 3 peer now.

(** ** Answers *)
Definition release_piece (piece : Z) (t : TorrentMetadataDownload) : TorrentMetadataDownload :=
  match nth_get (blocks t) piece with
  | None => t
  | Some b =>
    set_peers (fold_left (fun ps peer => alter (drop_pending piece) peer ps) (btree_keys (assignments b)) (peers t))
      (set_blocks (<[Z.to_nat piece := set_assignments ∅ b]> (blocks t)) t)
  end.
Definition release_peer_assignments (peer : Z) (t : TorrentMetadataDownload) : TorrentMetadataDownload :=
  set_blocks (map (drop_assignment peer) (blocks t)) (set_peers (alter (set_pending ∅) peer (peers t)) t).
Definition fill_block (peer : Z) (b : TorrentMetadataBlock) : TorrentMetadataBlock :=
  mkBlock true (Some peer) (assignments b) (requested_by b) (b_request_count b).
Definition contributors (bs : list TorrentMetadataBlock) : gset Z := list_to_set (omap source bs).
(** A complete candidate of the wrong hash is thrown away. *)
Definition start_again (now : Z) (t : TorrentMetadataDownload) : TorrentMetadataDownload * list Z :=
  let from := sort_by Z.compare (elements (contributors (blocks t))) in
  let cooldown := if len (blocks t) =? 1 then METADATA_SINGLE_BLOCK_HASH_FAILURE_COOLDOWN_MILLIS else METADATA_HASH_FAILURE_COOLDOWN_MILLIS in
  let ps := fold_left (fun ps peer => alter (set_cooldown (later now cooldown)) peer ps) from (peers t) in
  (set_hash_failures (saturating_add USIZE (hash_failures t) 1)
     (set_peers (set_pending ∅ <$> ps) (set_blocks (map (fun _ => TorrentMetadataBlock_default) (blocks t)) t)), from).

Section torrent.
Context (sha1 sha256 : list Z -> list Z).

Definition accept_block (peer piece begin : Z) (block : list Z) (now : Z) : method TorrentMetadataEvent :=
  modify (release_piece piece);;
  s ← get;
  state ← lift (expect (nth_get (blocks s) piece));
  bytes ← lift (copy_into (t_bytes s) begin block);
  modify (set_t_bytes bytes);;
  modify (set_blocks (<[Z.to_nat piece := fill_block peer state]> (blocks s)));;
  s ← get;
  if existsb (fun candidate => negb (received candidate)) (blocks s) then mret (BlockAccepted piece)
  else if matches sha1 sha256 (t_hash s) (t_bytes s) then
    modify set_t_complete;;
    modify (set_t_bytes []);;
    mret (EventComplete (t_bytes s))
  else
    modify (fun s => (start_again now s).1);;
    mret (HashMismatch (start_again now s).2).
Definition torrent_on_data (peer piece total_size : Z) (block : list Z) (now : Z) : method TorrentMetadataEvent :=
  s ← get;
  if t_complete s then fail ME_AlreadyComplete
  else
    peer_of peer;;
    piece ← lift (valid_piece_number piece);
    if bool_decide (t_size s = None) && negb (piece =? 0) then fail (ME_UnsolicitedPiece piece)
    else
      torrent_accept_size total_size;;
      s ← get;
      state ← lift (ok_or (nth_get (blocks s) piece) (ME_InvalidPiece piece));
      if negb (bool_decide (peer ∈ requested_by state)) then fail (ME_UnsolicitedPiece piece)
      else
        expected ← lift (metadata_block_length total_size piece);
        let begin := piece * METADATA_BLOCK_LENGTH in
        if received state then
          stored ← lift (slice (t_bytes s) begin (begin + expected));
          if bool_decide (stored = block) then mret (Duplicate piece) else fail (ME_ConflictingDuplicate piece)
        else if negb (len block =? expected) then fail (ME_InvalidBlockLength piece (len block) expected)
        else accept_block peer piece begin block now.
End torrent.
Definition on_reject (peer piece now : Z) : method unit :=
  piece ← lift (valid_piece_number piece);
  state ← peer_of peer;
  if negb (bool_decide (piece ∈ pending state)) then fail (ME_UnsolicitedPiece piece)
  else
    modify (release_peer_assignments peer);;
    modify (fun s => set_peers (alter (set_cooldown (later now METADATA_REJECT_COOLDOWN_MILLIS)) peer (peers s)) s).
Definition forget_peer (peer : Z) (b : TorrentMetadataBlock) : TorrentMetadataBlock :=
  mkBlock (received b) (source b) (delete peer (assignments b)) (requested_by b ∖ {[peer]}) (b_request_count b).
Definition remove_peer (peer : Z) (t : TorrentMetadataDownload) : TorrentMetadataDownload * bool :=
  match peers t !! peer with
  | None => (t, false)
  | Some _ => (set_blocks (map (forget_peer peer) (blocks t)) (set_peers (delete peer (peers t)) t), true)
  end.

(** ** Reading the state *)
Definition min_of (l : list Z) : option Z := match l with [] => None | x :: l => Some (fold_left Z.min l x) end.
Definition next_assignment_expiry (t : TorrentMetadataDownload) : option Z :=
  min_of (map (fun e => later e.2 METADATA_ASSIGNMENT_TIMEOUT_MILLIS) (concat (map (fun b => btree_items (assignments b)) (blocks t)))).
Definition allocated_blocks (t : TorrentMetadataDownload) : Z := match t_size t with Some _ => len (blocks t) | None => 0 end.
Definition torrent_received_blocks (t : TorrentMetadataDownload) : Z := len (filter (fun b => received b = true) (blocks t)).
Definition add_block_length (size : Z) (sum : result Z) (e : Z * TorrentMetadataBlock) : result Z :=
  sum ≫= fun sum =>
  if received e.2 then
    index ← expect (try_u 32 e.1);
    match metadata_block_length size index with Ok n => Ok (sum + n) | _ => Panic end
  else Ok sum.
Definition received_bytes (t : TorrentMetadataDownload) : result Z :=
  match t_size t with
  | None => Ok 0
  | Some size => fold_left (add_block_length size) (enumerate (blocks t)) (Ok 0)
  end.
(** Four states to a byte; the shifts stay inside it. *)
Definition block_state (b : TorrentMetadataBlock) : Z := if received b then 2 else if negb (bool_decide (assignments b = ∅)) then 1 else 0.
Definition pack_state (packed : list Z) (e : Z * TorrentMetadataBlock) : list Z :=
  alter (fun byte => Z.lor byte (Z.shiftl (block_state e.2) (e.1 mod 4 * 2))) (Z.to_nat (e.1 / 4)) packed.
Definition packed_block_states (t : TorrentMetadataDownload) : list Z :=
  match t_size t with
  | None => []
  | Some _ => fold_left pack_state (enumerate (blocks t)) (replicate (Z.to_nat (div_ceil (len (blocks t)) 4)) 0)
  end.
Definition received_blocks_for_peer (peer : Z) (t : TorrentMetadataDownload) : Z :=
  len (filter (fun b => received b = true /\ source b = Some peer) (blocks t)).
Definition torrent_pending_requests (t : TorrentMetadataDownload) : Z := sum_over (fun p => set_len (pending p)) (peers t).
Definition pending_requests_for_peer (peer : Z) (t : TorrentMetadataDownload) : option Z := (fun p => set_len (pending p)) <$> peers t !! peer.

(** * Lemmas *)

(** ** Indexing *)
Lemma nth_get_map {A B} (f : A -> B) l i : nth_get (map f l) i = f <$> nth_get l i.
Proof. unfold nth_get. destruct (0 <=? i); [|done]. apply list_lookup_fmap. Qed.
Lemma nth_get_alter {A} (f : A -> A) l (k : nat) i : nth_get (alter f k l) i = if bool_decide (i = Z.of_nat k) then f <$> nth_get l i else nth_get l i.
Proof.
  unfold nth_get. destruct (Z.leb_spec 0 i); [|rewrite bool_decide_false by lia; done]. case_bool_decide as E.
  - subst i. rewrite Nat2Z.id. apply list_lookup_alter_eq.
  - apply list_lookup_alter_ne. lia.
Qed.
Lemma nth_get_imap {A B} (f : nat -> A -> B) l i : nth_get (imap f l) i = f (Z.to_nat i) <$> nth_get l i.
Proof. unfold nth_get. destruct (0 <=? i); [|done]. apply list_lookup_imap. Qed.
Lemma elem_of_enumerate {A} (l : list A) i a : (i, a) ∈ enumerate l <-> nth_get l i = Some a.
Proof.
  unfold enumerate. rewrite elem_of_lookup_imap. split.
  - intros (n & b & [= -> ->] & Hl). by rewrite nth_get_lookup, Nat2Z.id by lia.
  - intros Hi. pose proof (nth_get_lt _ _ _ Hi). rewrite nth_get_lookup in Hi by lia. exists (Z.to_nat i), a. split; [f_equal; lia|done].
Qed.
Lemma size_alter {V} (f : V -> V) k (m : gmap Z V) : size (alter f k m) = size m.
Proof. by rewrite <- !(size_dom (D := gset Z)), dom_alter_L. Qed.
Lemma nth_get_sized first count i : 1 <= count -> 0 <= i < count -> nth_get (sized_blocks first count) i
  = Some (if decide (i = 0) then mkBlock false None (assignments first) (requested_by first) (b_request_count first) else TorrentMetadataBlock_default).
Proof.
  intros Hc Hi. unfold sized_blocks. rewrite nth_get_map. rewrite (nth_get_lookup (seqZ 0 count)), lookup_seqZ_lt by lia. cbn [fmap option_fmap option_map]. rewrite Z.add_0_l, Z2Nat.id by lia.
  destruct (Z.eqb_spec i 0), (decide (i = 0)); done.
Qed.
Lemma len_sized first count : 0 <= count -> len (sized_blocks first count) = count.
Proof. intros Hc. unfold sized_blocks, len. rewrite length_map, length_seqZ. lia. Qed.

(** ** The invariant *)
(** Piece [i] is assigned to peer [p]. *)
Definition assigned (bs : list TorrentMetadataBlock) (i p : Z) : Prop := exists b, nth_get bs i = Some b /\ is_Some (assignments b !! p).
(** An answer: peer, piece, announced size and bytes. *)
Definition Answer : Type := Z * Z * Z * list Z.
(** A block and what peers were asked for and sent: one assignment at most,
    none once it is received, and only to a registered peer that was asked. *)
Record block_ok (asked : list (Z * Z)) (ps : gmap Z TorrentMetadataPeer) (i : Z) (b : TorrentMetadataBlock) : Prop := {
  bk_assigned p : is_Some (assignments b !! p) -> p ∈ requested_by b;
  bk_requested p : p ∈ requested_by b -> is_Some (ps !! p) /\ (p, i) ∈ asked;
  bk_received : received b = true -> assignments b = ∅;
  bk_one : Z.of_nat (size (assignments b)) <= 1;
  bk_source : received b = bool_decide (is_Some (source b));
}.
Record torrent_ok (expected : MetadataInfoHash) (asked : list (Z * Z)) (got : list Answer) (t : TorrentMetadataDownload) : Prop := {
  tk_hash : t_hash t = expected;
  tk_none : t_size t = None -> len (blocks t) = 1 /\ t_complete t = false /\ forall b, nth_get (blocks t) 0 = Some b -> received b = false;
  tk_some n : t_size t = Some n -> 1 <= n <= MAX_METADATA_LENGTH /\ len (blocks t) = metadata_block_count n /\ (t_complete t = false -> len (t_bytes t) = n);
  tk_block i b : nth_get (blocks t) i = Some b -> block_ok asked (peers t) i b;
  tk_link p st i : peers t !! p = Some st -> i ∈ pending st <-> assigned (blocks t) i p;
  tk_window p st : peers t !! p = Some st -> set_len (pending st) <= MAX_METADATA_REQUESTS_IN_FLIGHT;
  tk_peers : Z.of_nat (size (peers t)) <= MAX_TORRENT_METADATA_PEERS;
  tk_stored n i b p : t_size t = Some n -> t_complete t = false -> nth_get (blocks t) i = Some b -> source b = Some p ->
    (p, i, n, block_of (t_bytes t) i) ∈ got /\ (p, i) ∈ asked;
}.
Lemma assigned_known expected asked got t i p : torrent_ok expected asked got t -> assigned (blocks t) i p -> is_Some (peers t !! p).
Proof. intros Ht (b & Hb & Ha). destruct (tk_block _ _ _ _ Ht _ _ Hb). by apply bk_requested0, bk_assigned0. Qed.
Lemma assigned_bounds bs i p : assigned bs i p -> 0 <= i < len bs.
Proof. intros (b & Hb & _). by apply nth_get_lt in Hb. Qed.
Lemma blocks_nonempty expected asked got t : torrent_ok expected asked got t -> 1 <= len (blocks t) <= MAX_METADATA_BLOCKS.
Proof.
  intros Ht. destruct (t_size t) as [n|] eqn:En.
  - destruct (tk_some _ _ _ _ Ht n En) as (Hn & Hl & _). pose proof (block_count_bounds n Hn). lia.
  - destruct (tk_none _ _ _ _ Ht En) as (-> & _). done.
Qed.
Lemma block_default_ok asked ps i : block_ok asked ps i TorrentMetadataBlock_default.
Proof. split; cbn; try done. intros p [? E]. by rewrite lookup_empty in E. Qed.
Lemma new_torrent_ok expected : torrent_ok expected [] [] (TorrentMetadataDownload_new expected).
Proof.
  split; cbn; try done.
  - intros _. split_and!; try done. intros b [= <-]. done.
  - intros i b Hi. assert (b = TorrentMetadataBlock_default) as ->; [|apply block_default_ok]. pose proof (nth_get_lt _ _ _ Hi) as Hl. change (0 <= i < 1) in Hl. replace i with 0 in Hi by lia. by injection Hi as <-.
Qed.
Lemma torrent_ok_mono expected asked asked' got got' t : asked ⊆ asked' -> got ⊆ got' -> torrent_ok expected asked got t -> torrent_ok expected asked' got' t.
Proof.
  intros Ha Hg [H1 H2 H3 H4 H5 H6 H7 H8]. split; try done.
  - intros i b Hb. destruct (H4 i b Hb) as [K1 K2 K3 K4 K5]. split; try done. intros p Hp. destruct (K2 p Hp). split; [done|by apply Ha].
  - intros n i b p Hn Hc Hb Hs. destruct (H8 n i b p Hn Hc Hb Hs). split; [by apply Hg|by apply Ha].
Qed.
Section preserved.
Context (expected : MetadataInfoHash) (asked : list (Z * Z)) (got : list Answer).
Implicit Types (t : TorrentMetadataDownload) (b : TorrentMetadataBlock).
Local Abbreviation ok t := (torrent_ok expected asked got t).

Lemma torrent_accept_size_ok t size : ok t ->
  wp (torrent_accept_size size) t
    (fun _ t' => ok t' /\ t_size t' = Some size /\ peers t' = peers t /\ t_complete t' = t_complete t /\ (t_size t <> None -> t' = t)) (fun _ t' => t' = t).
Proof.
  intros Ht. unfold torrent_accept_size. wp_step. destruct (validate_size_cases size) as [[Hs ->]|(e & -> & _)]; [|done]. do 3 wp_step.
  destruct (t_size t) as [n|] eqn:En.
  - destruct (Z.eqb_spec n size) as [->|]; [|done]. wp_step. done.
  - destruct (tk_none _ _ _ _ Ht En) as (Hl & Hc & Hr). destruct (nth_get_is_Some (blocks t) 0) as [first E0]; [lia|]. pose proof (block_count_bounds size Hs) as Hn.
    wp_step. unfold index. rewrite E0. cbn [expect]. do 6 wp_step. cbn. split_and!; try done.
    assert (forall i b, nth_get (sized_blocks first (metadata_block_count size)) i = Some b -> 0 <= i < metadata_block_count size
       /\ b = if decide (i = 0) then mkBlock false None (assignments first) (requested_by first) (b_request_count first) else TorrentMetadataBlock_default) as Hb.
    { intros i b Hi. pose proof (nth_get_lt _ _ _ Hi) as Hil. rewrite len_sized in Hil by lia. rewrite nth_get_sized in Hi by lia. split; [done|]. congruence. }
    destruct (tk_block _ _ _ _ Ht 0 first E0) as [K1 K2 K3 K4 K5]. split; cbn; try apply Ht; try done.
    + intros n [= <-]. split_and!; [lia|lia|apply len_sized; lia|]. intros _. rewrite len_replicate. lia.
    + intros i b Hi. destruct (Hb i b Hi) as [_ ->]. destruct (decide (i = 0)) as [->|]; [by split|apply block_default_ok].
    + intros p st i Hp. rewrite (tk_link _ _ _ _ Ht p st i Hp). split.
      * intros (b & Hi & Ha). pose proof (nth_get_lt _ _ _ Hi). replace i with 0 in * by lia. eexists. rewrite nth_get_sized by lia. split; [done|].
        rewrite decide_True by done. cbn. congruence.
      * intros (b & Hi & Ha). destruct (Hb i b Hi) as [Hil ->]. destruct (decide (i = 0)) as [->|]; [exists first; done|]. cbn in Ha. destruct Ha as [? E]. by rewrite lookup_empty in E.
    + intros n i b p _ _ Hi Hsrc. destruct (Hb i b Hi) as [_ ->]. by destruct (decide (i = 0)).
Qed.
Lemma torrent_hint_ok t size : ok t ->
  wp (torrent_accept_size_hint size) t (fun _ t' => ok t' /\ peers t' = peers t /\ t_complete t' = t_complete t) (fun _ t' => t' = t).
Proof.
  intros Ht. unfold torrent_accept_size_hint. destruct (_ <? _); [by wp_step|]. wp_call (torrent_accept_size_ok t size Ht); [|done]. naive_solver.
Qed.
Lemma register_ok t peer advertised : ok t -> wp (register_peer peer advertised) t (fun _ t' => ok t') (fun _ t' => ok t').
Proof.
  intros Ht. unfold register_peer. wp_step. wp_step. wp_step.
  eapply wp_mono with (Q' := fun _ t' => ok t') (R' := fun _ t' => ok t').
  - case_bool_decide as E; [by wp_step|]. destruct (Z.eqb_spec (Z.of_nat (size (peers t))) MAX_TORRENT_METADATA_PEERS); [by wp_step|]. wp_step. apply eq_None_not_Some in E.
    split; cbn; try apply Ht.
    + intros i b Hi. destruct (tk_block _ _ _ _ Ht i b Hi) as [K1 K2 K3 K4 K5]. split; try done. intros p Hp. destruct (K2 p Hp) as [? ?]. split; [|done]. by apply lookup_insert_is_Some'; right.
    + intros p st i [[<- <-]|[Hne Hp]]%lookup_insert_Some; [|by apply (tk_link _ _ _ _ Ht)]. cbn. split; [by intros ?%elem_of_empty|].
      intros Ha%(assigned_known _ _ _ _ _ _ Ht). rewrite E in Ha. by destruct Ha.
    + intros p st [[<- <-]|[Hne Hp]]%lookup_insert_Some; [done|by apply (tk_window _ _ _ _ Ht p)].
    + rewrite map_size_insert_None by done. pose proof (tk_peers _ _ _ _ Ht). lia.
  - cbv beta. intros _ t' Ht'. destruct advertised as [n|]; [|by wp_step]. wp_call (torrent_hint_ok t' n Ht'); [naive_solver|]. by intros e t'' ->.
  - done.
Qed.
Lemma peer_of_ok t peer : wp (peer_of peer) t (fun st t' => t' = t /\ peers t !! peer = Some st) (fun e t' => t' = t /\ e = ME_UnknownMetadataPeer peer /\ peers t !! peer = None).
Proof. unfold peer_of. do 2 wp_step. by apply wp_lift_ok_or. Qed.
Lemma accept_peer_size_ok t peer size : ok t -> wp (accept_peer_size peer size) t (fun _ t' => ok t') (fun _ t' => ok t').
Proof.
  intros Ht. unfold accept_peer_size. wp_step. wp_call (peer_of_ok t peer); [|by intros e t' [-> _]]. intros _ t' [-> _].
  wp_call (torrent_hint_ok t size Ht); [naive_solver|]. by intros e t'' ->.
Qed.

(** Changing the assignments of a block and the pending pieces of a peer together. *)
Lemma expire_one_ok t e : ok t -> 0 <= e.1 -> ok (expire_one t e).
Proof.
  intros Ht He. destruct e as [i p]. cbn in He. unfold expire_one. cbn [fst snd].
  assert (forall j b, nth_get (blocks (expire_one t (i, p))) j = Some b -> exists b0, nth_get (blocks t) j = Some b0 /\ b = if decide (j = i) then drop_assignment p b0 else b0) as Hb.
  { cbn. intros j b. rewrite nth_get_alter. rewrite Z2Nat.id by done. case_bool_decide as E.
    - intros (b0 & Hj & ->)%fmap_Some. exists b0. rewrite decide_True by done. done.
    - intros Hj. exists b. by rewrite decide_False. }
  assert (forall q st, peers (expire_one t (i, p)) !! q = Some st -> exists st0, peers t !! q = Some st0 /\ st = if decide (q = p) then drop_pending i st0 else st0) as Hp.
  { cbn. intros q st. destruct (decide (q = p)) as [->|Hne].
    - rewrite lookup_alter_eq. intros (st0 & Hq & ->)%fmap_Some. by exists st0.
    - rewrite lookup_alter_ne by done. by exists st. }
  assert (forall q, is_Some (peers (expire_one t (i, p)) !! q) <-> is_Some (peers t !! q)) as Hdom.
  { intros q. cbn. destruct (decide (q = p)) as [->|Hne]; [by rewrite lookup_alter_eq, fmap_is_Some|by rewrite lookup_alter_ne]. }
  fold (expire_one t (i, p)). split.
  - apply Ht.
  - intros Hn. destruct (tk_none _ _ _ _ Ht Hn) as (H1 & H2 & H3). split_and!; [cbn; unfold len in *; by rewrite length_alter|done|].
    intros b Hj. destruct (Hb 0 b Hj) as (b0 & Hj0 & ->). specialize (H3 _ Hj0). by destruct (decide _).
  - intros n Hn. destruct (tk_some _ _ _ _ Ht n Hn) as (H1 & H2 & H3). split_and!; [lia|lia|cbn; unfold len in *; by rewrite length_alter|done].
  - intros j b Hj. destruct (Hb j b Hj) as (b0 & Hj0 & ->). destruct (tk_block _ _ _ _ Ht j b0 Hj0) as [K1 K2 K3 K4 K5].
    destruct (decide (j = i)) as [->|]; split; cbn; try done; try (intros q Hq; rewrite Hdom; by apply K2).
    + intros q [x [_ Hq]%lookup_delete_Some]. by apply K1.
    + intros E. rewrite K3 by done. apply delete_empty.
    + pose proof (map_subseteq_size _ _ (delete_subseteq (assignments b0) p)). lia.
  - intros q st j Hq. destruct (Hp q st Hq) as (st0 & Hq0 & ->). pose proof (tk_link _ _ _ _ Ht q st0 j Hq0) as Hl.
    assert (assigned (blocks (expire_one t (i, p))) j q <-> assigned (blocks t) j q /\ ~ (j = i /\ q = p)) as ->.
    { split.
      - intros (b & Hj & Ha). destruct (Hb j b Hj) as (b0 & Hj0 & ->). destruct (decide (j = i)) as [->|]; [|split; [by exists b0|naive_solver]].
        cbn in Ha. destruct Ha as [x [Hne Ha]%lookup_delete_Some]. split; [by exists b0|naive_solver].
      - intros [(b0 & Hj0 & Ha) Hne]. cbn. exists (if decide (j = i) then drop_assignment p b0 else b0).
        rewrite nth_get_alter, Z2Nat.id, Hj0 by done. destruct (decide (j = i)) as [E|E]; [rewrite bool_decide_true by done|by rewrite bool_decide_false].
        split; [reflexivity|]. cbn. subst j. rewrite lookup_delete_ne by naive_solver. done. }
    destruct (decide (q = p)) as [->|Hne]; cbn; [rewrite elem_of_difference, elem_of_singleton, Hl; naive_solver|rewrite Hl; naive_solver].
  - intros q st Hq. destruct (Hp q st Hq) as (st0 & Hq0 & ->). pose proof (tk_window _ _ _ _ Ht q st0 Hq0). destruct (decide _); [|done].
    cbn. pose proof (set_len_difference (pending st0) {[i]}). lia.
  - cbn. rewrite size_alter. apply Ht.
  - intros n j b q Hn Hc Hj Hs. destruct (Hb j b Hj) as (b0 & Hj0 & ->). apply (tk_stored _ _ _ _ Ht n j b0 q); try done. by destruct (decide _).
Qed.
Lemma elem_of_expired now bs i p : (i, p) ∈ expired_assignments now bs <-> exists b x, nth_get bs i = Some b /\ assignments b !! p = Some x /\ expired now x = true.
Proof.
  unfold expired_assignments. rewrite list_elem_of_In, in_concat. setoid_rewrite <- list_elem_of_In. split.
  - intros (l & (j & b & -> & Hj)%elem_of_lookup_imap & ([q x] & [= -> ->] & [Hx Hq%elem_of_items]%list_elem_of_filter)%list_elem_of_fmap).
    exists b, x. split; [by rewrite nth_get_lookup, Nat2Z.id by lia|done].
  - intros (b & x & Hb & Hp & Hx). pose proof (nth_get_lt _ _ _ Hb). rewrite nth_get_lookup in Hb by lia. eexists. split.
    + apply elem_of_lookup_imap. by exists (Z.to_nat i), b.
    + apply list_elem_of_fmap. exists (p, x). split; [f_equal; lia|]. apply list_elem_of_filter. split; [done|by apply elem_of_items].
Qed.
(** What expiry leaves alone. *)
Record expires (t t' : TorrentMetadataDownload) : Prop := {
  ex_same : t_size t' = t_size t /\ t_bytes t' = t_bytes t /\ t_complete t' = t_complete t /\ t_hash t' = t_hash t /\ hash_failures t' = hash_failures t;
  ex_peer p st' : peers t' !! p = Some st' -> exists st, peers t !! p = Some st /\ cooldown_until st' = cooldown_until st /\ last_request st' = last_request st /\ pending st' ⊆ pending st;
  ex_dom p : is_Some (peers t !! p) -> is_Some (peers t' !! p);
}.
Lemma expire_fold_ok l : forall t, ok t -> Forall (fun e => 0 <= e.1) l -> let t' := fold_left expire_one l t in
  ok t' /\ expires t t' /\ forall i, match nth_get (blocks t) i with
    | Some b => exists a, nth_get (blocks t') i = Some (set_assignments a b) /\ forall p, a !! p = if decide ((i, p) ∈ l) then None else assignments b !! p
    | None => nth_get (blocks t') i = None
    end.
Proof.
  induction l as [|[j q] l IH]; intros t Ht Hl; cbn [fold_left].
  - split; [done|]. split; [by split; [done|intros p st Hp; by exists st|done]|]. intros i. destruct (nth_get (blocks t) i) as [b|]; [|done]. exists (assignments b). split; [by destruct b|].
    intros p. by rewrite decide_False by (by intros ?%elem_of_nil).
  - apply Forall_cons in Hl as [Hj Hl]. cbn in Hj. destruct (IH (expire_one t (j, q)) (expire_one_ok t (j, q) Ht Hj) Hl) as (H1 & [E1 E2 E3] & H3). split; [done|]. split.
    + split; [done| |].
      * intros p st' Hp. destruct (E2 p st' Hp) as (st1 & Hp1 & Hc1 & Hr1 & Hd1). cbn in Hp1. destruct (decide (p = q)) as [->|Hne].
        -- rewrite lookup_alter_eq in Hp1. apply fmap_Some in Hp1 as (st & Hp1 & ->). exists st. split_and!; [done..|]. cbn in Hd1. set_solver.
        -- rewrite lookup_alter_ne in Hp1 by done. by exists st1.
      * intros p Hp. apply E3. cbn. by apply lookup_alter_is_Some.
    + intros i. specialize (H3 i). cbn in H3. rewrite nth_get_alter, Z2Nat.id in H3 by done. destruct (nth_get (blocks t) i) as [b|] eqn:Ei.
      * destruct (decide (i = j)) as [->|Hne].
        -- rewrite bool_decide_true in H3 by done. cbn in H3. destruct H3 as (a & Ha & Hp). exists a. split; [done|]. intros p. rewrite Hp.
           destruct (decide (p = q)) as [->|Hpq]; [rewrite lookup_delete_eq|rewrite lookup_delete_ne by done]; repeat case_decide; set_solver.
        -- rewrite bool_decide_false in H3 by done. destruct H3 as (a & Ha & Hp). exists a. split; [done|]. intros p. rewrite Hp. repeat case_decide; set_solver.
      * by destruct (bool_decide _).
Qed.
Definition unexpired (now : Z) (b : TorrentMetadataBlock) : TorrentMetadataBlock := set_assignments (filter (fun e => expired now e.2 = false) (assignments b)) b.
Lemma expire_ok t now : ok t -> let t' := expire_assignments now t in
  ok t' /\ expires t t' /\ forall i, nth_get (blocks t') i = unexpired now <$> nth_get (blocks t) i.
Proof.
  intros Ht. destruct (expire_fold_ok (expired_assignments now (blocks t)) t Ht) as (H1 & H2 & H3).
  { apply Forall_forall. intros [i p] (b & x & Hb & _)%elem_of_expired. apply nth_get_lt in Hb. cbn. lia. }
  split; [done|]. split; [done|]. intros i. specialize (H3 i). unfold expire_assignments. destruct (nth_get (blocks t) i) as [b|] eqn:Ei; [|done]. destruct H3 as (a & -> & Ha).
  cbn [fmap option_fmap option_map]. unfold unexpired. do 2 f_equal. apply map_eq. intros p. rewrite Ha, map_lookup_filter. destruct (assignments b !! p) as [x|] eqn:Ex; cbn.
  - rewrite option_guard_bool_decide. destruct (expired now x) eqn:Exp.
    + rewrite decide_True by (apply elem_of_expired; by exists b, x). done.
    + rewrite decide_False; [done|]. intros (b' & x' & Hb' & Hx' & ?)%elem_of_expired. congruence.
  - by destruct (decide _).
Qed.
End preserved.

(** ** Requests *)
Lemma least_total a b : least a b = false -> least b a = true.
Proof. unfold least. intros H. apply orb_false_elim in H as [H1 H2]. lia. Qed.
Lemma least_trans a b c : least a b = true -> least b c = true -> least a c = true.
Proof. unfold least. lia. Qed.
Lemma min_by_key_spec l : match min_by_key l with
  | Some m => m ∈ l /\ forall e, e ∈ l -> least m e = true
  | None => l = []
  end.
Proof.
  assert (forall e, least e e = true) as Hrefl by (intros e; unfold least; lia).
  induction l as [|e l IH]; [done|]. cbn [min_by_key]. destruct (min_by_key l) as [m|].
  - destruct IH as [Hm Hle]. destruct (least e m) eqn:E.
    + split; [set_solver|]. intros x [->|Hx]%elem_of_cons; [apply Hrefl|]. eapply least_trans; [done|by apply Hle].
    + split; [set_solver|]. intros x [->|Hx]%elem_of_cons; [by apply least_total|by apply Hle].
  - subst l. split; [set_solver|]. intros x ->%list_elem_of_singleton. apply Hrefl.
Qed.
Lemma candidate_spec peer now t : match candidate peer now t with
  | Some i => exists b, nth_get (blocks t) i = Some b /\ requestable peer now t b = true
      /\ forall j b', nth_get (blocks t) j = Some b' -> requestable peer now t b' = true -> least (i, b) (j, b') = true
  | None => forall i b, nth_get (blocks t) i = Some b -> requestable peer now t b = false
  end.
Proof.
  unfold candidate. pose proof (min_by_key_spec (filter (fun e => requestable peer now t e.2 = true) (enumerate (blocks t)))) as H. destruct (min_by_key _) as [[i b]|]; cbn.
  - destruct H as [[Hr Hin%elem_of_enumerate]%list_elem_of_filter Hle]. exists b. split_and!; [done..|]. intros j b' Hj Hr'. apply Hle. apply list_elem_of_filter. split; [done|by apply elem_of_enumerate].
  - intros i b Hi. destruct (requestable peer now t b) eqn:E; [|done]. exfalso. assert ((i, b) ∈ filter (fun e => requestable peer now t e.2 = true) (enumerate (blocks t))) as Hin.
    { apply list_elem_of_filter. split; [done|by apply elem_of_enumerate]. }
    rewrite H in Hin. by apply elem_of_nil in Hin.
Qed.
Lemma requestable_free peer now t b : requestable peer now t b = true -> received b = false /\ assignments b = ∅.
Proof. unfold requestable. destruct (received b), (decide (assignments b = ∅)) as [E|E]; rewrite ?bool_decide_true, ?bool_decide_false by done; done. Qed.
Lemma may_defer_spec peer now t b : may_defer peer now t b = true <->
  exists q st, peers t !! q = Some st /\ q <> peer /\ (q ∉ requested_by b) /\ window_open st = true /\ cooled now st = true.
Proof.
  unfold may_defer. rewrite existsb_exists. split.
  - intros ([q st] & Hin%list_elem_of_In%elem_of_items & H). cbn in H. rewrite !andb_true_iff, !negb_true_iff, Z.eqb_neq, bool_decide_eq_false in H. exists q, st. naive_solver.
  - intros (q & st & Hq & Hne & Hr & Hw & Hc). exists (q, st). split; [by apply list_elem_of_In, elem_of_items|]. cbn. rewrite Hw, Hc, bool_decide_false, (proj2 (Z.eqb_neq q peer)) by done. done.
Qed.
(** Assigning a free piece to a peer with room. *)
Definition assign_piece (peer now i : Z) (b : TorrentMetadataBlock) (st : TorrentMetadataPeer) (t : TorrentMetadataDownload) : TorrentMetadataDownload :=
  set_peers (<[peer := take_piece i now st]> (peers t)) (set_blocks (<[Z.to_nat i := assign peer now b]> (blocks t)) t).
Lemma assign_piece_ok expected asked got t peer now i b st : torrent_ok expected asked got t -> t_complete t = false -> peers t !! peer = Some st ->
  set_len (pending st) < MAX_METADATA_REQUESTS_IN_FLIGHT -> nth_get (blocks t) i = Some b -> received b = false -> assignments b = ∅ ->
  torrent_ok expected (asked ++ [(peer, i)]) got (assign_piece peer now i b st t) /\ i ∉ pending st.
Proof.
  intros Ht0 Hc Hst Hw Hi Hr Ha. pose proof (torrent_ok_mono expected asked (asked ++ [(peer, i)]) got got t ltac:(set_solver) ltac:(done) Ht0) as Ht. clear Ht0.
  pose proof (nth_get_lt _ _ _ Hi) as Hil. set (asked' := asked ++ [(peer, i)]) in *.
  assert (i ∉ pending st) as Hni. { rewrite (tk_link _ _ _ _ Ht peer st i Hst). intros (b' & Hb' & Hs). rewrite Hi in Hb'. injection Hb' as <-. rewrite Ha, lookup_empty in Hs. by destruct Hs. }
  split; [|done].
  assert (forall j b', nth_get (blocks (assign_piece peer now i b st t)) j = Some b' -> (j = i /\ b' = assign peer now b) \/ (j <> i /\ nth_get (blocks t) j = Some b')) as Hb.
  { cbn. intros j b' Hj. pose proof (nth_get_lt _ _ _ Hj). rewrite nth_get_insert in Hj by lia. case_bool_decide; [left|right]; [split; [done|congruence]|done]. }
  assert (forall q, is_Some (peers t !! q) -> is_Some (peers (assign_piece peer now i b st t) !! q)) as Hdom by (intros q Hq; cbn; apply lookup_insert_is_Some'; by right).
  split.
  - apply Ht.
  - intros Hn. destruct (tk_none _ _ _ _ Ht Hn) as (H1 & H2 & H3). split_and!; [cbn; by rewrite len_insert|done|]. intros b' [[<- ->]|[_ Hj]]%Hb; [done|by apply H3].
  - intros n Hn. destruct (tk_some _ _ _ _ Ht n Hn) as (H1 & H2 & H3). split_and!; [lia|lia|cbn; by rewrite len_insert|done].
  - intros j b' [[-> ->]|[_ Hj]]%Hb.
    + destruct (tk_block _ _ _ _ Ht i b Hi) as [K1 K2 K3 K4 K5]. split; cbn.
      * intros p [<-|[Hne Hp]]%lookup_insert_is_Some; [set_solver|]. rewrite Ha, lookup_empty in Hp. by destruct Hp.
      * intros p [->%elem_of_singleton|Hp]%elem_of_union; [split; [apply lookup_insert_is_Some'; by left|set_solver]|]. destruct (K2 p Hp). split; [by apply Hdom|done].
      * congruence.
      * rewrite Ha, insert_empty, map_size_singleton. done.
      * done.
    + destruct (tk_block _ _ _ _ Ht j b' Hj) as [K1 K2 K3 K4 K5]. split; try done. intros p Hp. destruct (K2 p Hp). split; [by apply Hdom|done].
  - intros q sq j Hq. assert (assigned (blocks (assign_piece peer now i b st t)) j q <-> assigned (blocks t) j q \/ (j = i /\ q = peer)) as ->.
    { split.
      - intros (b' & [[-> ->]|[Hne Hj]]%Hb & Hs); [|left; by exists b']. cbn in Hs. apply lookup_insert_is_Some in Hs as [<-|[_ Hs]]; [by right|].
        rewrite Ha, lookup_empty in Hs. by destruct Hs.
      - intros [(b' & Hj & Hs)|[-> ->]].
        + assert (j <> i) as Hne. { intros ->. rewrite Hi in Hj. injection Hj as <-. rewrite Ha, lookup_empty in Hs. by destruct Hs. }
          exists b'. split; [|done]. cbn. pose proof (nth_get_lt _ _ _ Hj). rewrite nth_get_insert by lia. by rewrite bool_decide_false.
        + exists (assign peer now b). cbn. rewrite nth_get_insert by lia. rewrite bool_decide_true by done. split; [done|]. apply lookup_insert_is_Some'. by left. }
    cbn in Hq. apply lookup_insert_Some in Hq as [[<- <-]|[Hne Hq]].
    + cbn. rewrite elem_of_union, elem_of_singleton, (tk_link _ _ _ _ Ht peer st j Hst). naive_solver.
    + rewrite (tk_link _ _ _ _ Ht q sq j Hq). naive_solver.
  - intros q sq Hq. cbn in Hq. apply lookup_insert_Some in Hq as [[<- <-]|[Hne Hq]]; [|by apply (tk_window _ _ _ _ Ht q)]. cbn. rewrite set_len_union by done. lia.
  - cbn. rewrite map_size_insert_Some by done. apply Ht.
  - intros n j b' q Hn _ [[-> ->]|[Hne Hj]]%Hb Hs; [|by apply (tk_stored _ _ _ _ Ht n j b')]. by apply (tk_stored _ _ _ _ Ht n i b q).
Qed.
(** The requests one peer gets in state [t], and the state after them. *)
Record requested (t : TorrentMetadataDownload) (peer now : Z) (st : TorrentMetadataPeer) (l : list Z) (t' : TorrentMetadataDownload) : Prop := {
  rq_same : t_size t' = t_size t /\ t_bytes t' = t_bytes t /\ t_complete t' = t_complete t;
  rq_peer : exists st', peers t' !! peer = Some st' /\ pending st' = list_to_set l ∪ pending st /\ cooldown_until st' = cooldown_until st
    /\ set_len (pending st') = set_len (pending st) + len l;
  rq_other q : q <> peer -> peers t' !! q = peers t !! q;
  rq_pieces i : i ∈ l -> (exists b, nth_get (blocks t) i = Some b /\ received b = false /\ assignments b = ∅) /\ assigned (blocks t') i peer;
  rq_first : head l = if MAX_METADATA_REQUESTS_IN_FLIGHT <=? set_len (pending st) then None
                      else if negb (set_len (pending st) =? 0) && ramping now st then None else candidate peer now t;
}.
Lemma request_loop_ok expected got fuel : forall asked t peer now st, torrent_ok expected asked got t -> t_complete t = false -> peers t !! peer = Some st ->
  MAX_METADATA_REQUESTS_IN_FLIGHT < set_len (pending st) + Z.of_nat fuel ->
  wp (request_loop fuel peer now) t (fun l t' => torrent_ok expected (asked ++ map (pair peer) l) got t' /\ requested t peer now st l t') (fun _ _ => False).
Proof.
  induction fuel as [|fuel IH]; intros asked t peer now st Ht Hc Hst Hfuel.
  { pose proof (tk_window _ _ _ _ Ht peer st Hst). lia. }
  assert (forall l, l = [] -> head l = (if MAX_METADATA_REQUESTS_IN_FLIGHT <=? set_len (pending st) then None
       else if negb (set_len (pending st) =? 0) && ramping now st then None else candidate peer now t) ->
     torrent_ok expected (asked ++ map (pair peer) l) got t /\ requested t peer now st l t) as Hnil.
  { intros l -> Hf. cbn. rewrite app_nil_r. split; [done|]. split; [done| |done| |done].
    - exists st. split_and!; [done|set_solver|done|]. rewrite len_nil. lia.
    - intros i Hi. by apply elem_of_nil in Hi. }
  cbn [request_loop]. wp_step. wp_call (peer_of_ok t peer); [|by intros e t' (_ & _ & E); congruence]. intros st2 t2 [-> E]. rewrite Hst in E. injection E as <-.
  destruct (MAX_METADATA_REQUESTS_IN_FLIGHT <=? set_len (pending st)) eqn:Ew; [wp_step; by apply Hnil|].
  destruct (negb (set_len (pending st) =? 0) && ramping now st) eqn:Er; [wp_step; by apply Hnil|].
  do 2 wp_step. pose proof (candidate_spec peer now t) as Hcand. destruct (candidate peer now t) as [i|] eqn:Ecand; [|wp_step; by apply Hnil].
  destruct Hcand as (b & Hi & Hreq & _). destruct (requestable_free _ _ _ _ Hreq) as [Hrb Ha]. pose proof (nth_get_lt _ _ _ Hi) as Hil.
  pose proof (blocks_nonempty _ _ _ _ Ht) as Hbn. change MAX_METADATA_BLOCKS with 1920 in Hbn.
  rewrite try_u_fits by (change (2 ^ 32) with 4294967296; lia). cbn [ok_or]. do 2 wp_step. rewrite Hi. cbn [expect]. do 7 wp_step.
  change (set_peers (<[peer := take_piece i now st]> (peers t)) (set_blocks (<[Z.to_nat i := assign peer now b]> (blocks t)) t)) with (assign_piece peer now i b st t).
  destruct (assign_piece_ok expected asked got t peer now i b st Ht Hc Hst ltac:(lia) Hi Hrb Ha) as [Ht' Hni].
  assert (peers (assign_piece peer now i b st t) !! peer = Some (take_piece i now st)) as Hst' by (cbn; apply lookup_insert_eq).
  assert (set_len (pending (take_piece i now st)) = set_len (pending st) + 1) as Hlen' by (by apply set_len_union).
  wp_call (IH (asked ++ [(peer, i)]) (assign_piece peer now i b st t) peer now (take_piece i now st)); try done; [lia|].
  intros l t' (H1 & [[E1 [E2 E3]] (st' & Hp' & Hpd & Hcd & Hsl) Ho Hpc _]). wp_step. split; [cbn [map]; by rewrite <- app_assoc in H1|].
  assert (forall j, nth_get (<[Z.to_nat i := assign peer now b]> (blocks t)) j = if bool_decide (j = i) then Some (assign peer now b) else nth_get (blocks t) j) as Hblk.
  { intros j. destruct (Z.leb_spec 0 j); [by apply nth_get_insert|]. rewrite bool_decide_false by lia. unfold nth_get. by rewrite (proj2 (Z.leb_gt 0 j)). }
  split.
  - done.
  - exists st'. split_and!; [done| |done|rewrite len_cons; lia]. rewrite Hpd. cbn. set_solver.
  - intros q Hne. rewrite Ho by done. cbn. by apply lookup_insert_ne.
  - intros j [->|Hj]%elem_of_cons.
    + split; [by exists b|]. apply (tk_link _ _ _ _ H1 peer st' i Hp'). rewrite Hpd. cbn. set_solver.
    + destruct (Hpc j Hj) as [(b' & Hj' & Hr' & Ha') Has]. split; [|done]. cbn in Hj'. rewrite Hblk in Hj'. case_bool_decide; [|by exists b'].
      injection Hj' as <-. cbn in Ha'. exfalso. by apply (insert_non_empty (M := gmap Z) (assignments b) peer now).
  - by rewrite Ew, Er, Ecand.
Qed.
Lemma requests_ok expected asked got t peer now : torrent_ok expected asked got t ->
  wp (requests_for_peer peer now) t
    (fun l t' => torrent_ok expected (asked ++ map (pair peer) l) got t' /\ t_complete t = false
       /\ exists st, peers (expire_assignments now t) !! peer = Some st /\ if cooled now st then requested (expire_assignments now t) peer now st l t' else l = [] /\ t' = expire_assignments now t)
    (fun e t' => torrent_ok expected asked got t' /\ (t_complete t = true /\ t' = t /\ e = ME_AlreadyComplete \/ peers t !! peer = None /\ e = ME_UnknownMetadataPeer peer)).
Proof.
  intros Ht. unfold requests_for_peer. do 2 wp_step. destruct (t_complete t) eqn:Hc; [wp_step; split; [done|]; by left|]. do 3 wp_step.
  destruct (expire_ok expected asked got t now Ht) as (H1 & [E1 E2 E3] & _).
  wp_call (peer_of_ok (expire_assignments now t) peer).
  - intros st t' [-> Hst]. destruct (cooled now st) eqn:Ec; cbn [negb].
    + wp_call (request_loop_ok expected got 3 asked (expire_assignments now t) peer now st); try done.
      * destruct E1 as (_ & _ & -> & _). done.
      * pose proof (set_len_nonneg (pending st)). change MAX_METADATA_REQUESTS_IN_FLIGHT with 2. lia.
      * intros l t' [G1 G2]. split_and!; [done..|]. exists st. by rewrite Ec.
    + wp_step. cbn. rewrite app_nil_r. split_and!; [done..|]. exists st. by rewrite Ec.
  - intros e t' (-> & -> & En). split; [done|]. right. split; [|done]. destruct (peers t !! peer) eqn:E; [|done]. destruct (E3 peer); [by eexists|congruence].
Qed.

(** ** Answers *)
Lemma fold_alter {V} (f : V -> V) l : forall (m : gmap Z V) q, NoDup l ->
  fold_left (fun m k => alter f k m) l m !! q = if decide (q ∈ l) then f <$> m !! q else m !! q.
Proof.
  induction l as [|k l IH]; intros m q Hnd; cbn [fold_left]; [by rewrite decide_False by (by intros ?%elem_of_nil)|]. apply NoDup_cons in Hnd as [Hk Hnd]. rewrite IH by done.
  destruct (decide (q = k)) as [->|Hne].
  - rewrite decide_False by done. rewrite (decide_True (P := k ∈ k :: l)) by set_solver. apply lookup_alter_eq.
  - rewrite lookup_alter_ne by done. destruct (decide (q ∈ l)); [rewrite decide_True by set_solver|rewrite decide_False by set_solver]; done.
Qed.
Lemma size_fold_alter {V} (f : V -> V) l : forall (m : gmap Z V), size (fold_left (fun m k => alter f k m) l m) = size m.
Proof. induction l as [|k l IH]; intros m; cbn [fold_left]; [done|]. by rewrite IH, size_alter. Qed.
Section answers.
Context (expected : MetadataInfoHash) (asked : list (Z * Z)) (got : list Answer).
Local Abbreviation ok t := (torrent_ok expected asked got t).
Lemma release_piece_ok t i b : ok t -> nth_get (blocks t) i = Some b -> let t' := release_piece i t in
  ok t' /\ nth_get (blocks t') i = Some (set_assignments ∅ b) /\ (forall j, j <> i -> nth_get (blocks t') j = nth_get (blocks t) j)
  /\ t_size t' = t_size t /\ t_bytes t' = t_bytes t /\ t_complete t' = t_complete t.
Proof.
  intros Ht Hi. unfold release_piece. rewrite Hi. pose proof (nth_get_lt _ _ _ Hi) as Hil. set (t' := set_peers _ _). cbv zeta.
  assert (forall j, nth_get (blocks t') j = if bool_decide (j = i) then Some (set_assignments ∅ b) else nth_get (blocks t) j) as Hb.
  { intros j. cbn. destruct (Z.leb_spec 0 j); [by apply nth_get_insert|]. rewrite bool_decide_false by lia. unfold nth_get. by rewrite (proj2 (Z.leb_gt 0 j)). }
  assert (forall q, peers t' !! q = if decide (q ∈ btree_keys (assignments b)) then drop_pending i <$> peers t !! q else peers t !! q) as Hp.
  { intros q. unfold t'. cbn. apply fold_alter, NoDup_btree_keys. }
  assert (forall q, is_Some (peers t !! q) -> is_Some (peers t' !! q)) as Hdom. { intros q Hq. rewrite Hp. destruct (decide _); [by apply fmap_is_Some|done]. }
  split; [|split_and!; [rewrite Hb; by rewrite bool_decide_true|intros j Hne; rewrite Hb; by rewrite bool_decide_false|done..]].
  assert (forall j q, assigned (blocks t') j q <-> assigned (blocks t) j q /\ j <> i) as Has.
  { intros j q. unfold assigned. setoid_rewrite Hb. destruct (bool_decide_reflect (j = i)) as [->|Hne]; [|naive_solver]. split; [|naive_solver].
    intros (b' & [= <-] & [x E]). cbn in E. by rewrite lookup_empty in E. }
  split.
  - apply Ht.
  - intros Hn. destruct (tk_none _ _ _ _ Ht Hn) as (H1 & H2 & H3). split_and!; [cbn; by rewrite len_insert|done|]. intros b' Hj. rewrite Hb in Hj.
    case_bool_decide; [|by apply H3]. injection Hj as <-. cbn. subst i. by apply H3.
  - intros n Hn. destruct (tk_some _ _ _ _ Ht n Hn) as (H1 & H2 & H3). split_and!; [lia|lia|cbn; by rewrite len_insert|done].
  - intros j b' Hj. rewrite Hb in Hj. destruct (bool_decide_reflect (j = i)) as [->|Hne].
    + injection Hj as <-. destruct (tk_block _ _ _ _ Ht i b Hi) as [K1 K2 K3 K4 K5]. split; cbn; try done.
      * intros p [x E]. by rewrite lookup_empty in E.
      * intros p Hpr. destruct (K2 p Hpr). split; [by apply Hdom|done].
    + destruct (tk_block _ _ _ _ Ht j b' Hj) as [K1 K2 K3 K4 K5]. split; try done. intros p Hpr. destruct (K2 p Hpr). split; [by apply Hdom|done].
  - intros q st j Hq. rewrite Has. rewrite Hp in Hq. destruct (decide (q ∈ btree_keys (assignments b))) as [Hk|Hk].
    + apply fmap_Some in Hq as (st0 & Hq & ->). cbn. rewrite elem_of_difference, elem_of_singleton, (tk_link _ _ _ _ Ht q st0 j Hq). done.
    + rewrite (tk_link _ _ _ _ Ht q st j Hq). split; [|naive_solver]. intros Hass. split; [done|]. intros ->. apply Hk, elem_of_btree_keys. destruct Hass as (b' & Hb' & ?). congruence.
  - intros q st Hq. rewrite Hp in Hq. destruct (decide _); [|by apply (tk_window _ _ _ _ Ht q)]. apply fmap_Some in Hq as (st0 & Hq & ->). cbn.
    pose proof (tk_window _ _ _ _ Ht q st0 Hq). pose proof (set_len_difference (pending st0) {[i]}). lia.
  - unfold t'. cbn. rewrite size_fold_alter. apply Ht.
  - intros n j b' q Hn Hc Hj Hs. rewrite Hb in Hj. destruct (bool_decide_reflect (j = i)) as [->|Hne]; [|by apply (tk_stored _ _ _ _ Ht n j b' q)].
    injection Hj as <-. by apply (tk_stored _ _ _ _ Ht n i b q).
Qed.
(** Storing the bytes of a released piece. *)
Lemma fill_block_ok t n i b peer block out : ok t -> t_size t = Some n -> t_complete t = false -> nth_get (blocks t) i = Some b -> assignments b = ∅ -> peer ∈ requested_by b ->
  len out = n -> (forall j, 0 <= j < metadata_block_count n -> block_of out j = if decide (j = i) then block else block_of (t_bytes t) j) -> (peer, i, n, block) ∈ got ->
  ok (set_blocks (<[Z.to_nat i := fill_block peer b]> (blocks t)) (set_t_bytes out t)).
Proof.
  intros Ht Hn Hc Hi Ha Hpeer Hlo Hout Hgot. destruct (tk_some _ _ _ _ Ht n Hn) as (Hsz & Hlb & _). pose proof (nth_get_lt _ _ _ Hi) as Hil. set (t' := set_blocks _ _).
  assert (forall j, nth_get (blocks t') j = if bool_decide (j = i) then Some (fill_block peer b) else nth_get (blocks t) j) as Hb.
  { intros j. cbn. destruct (Z.leb_spec 0 j); [by apply nth_get_insert|]. rewrite bool_decide_false by lia. unfold nth_get. by rewrite (proj2 (Z.leb_gt 0 j)). }
  destruct (tk_block _ _ _ _ Ht i b Hi) as [K1 K2 K3 K4 K5]. split.
  - apply Ht.
  - cbn. congruence.
  - intros m Hm. cbn in Hm. assert (m = n) as -> by congruence. split_and!; [lia|lia|cbn; by rewrite len_insert|done].
  - intros j b' Hj. rewrite Hb in Hj. destruct (bool_decide_reflect (j = i)) as [->|Hne]; [|by apply (tk_block _ _ _ _ Ht)]. injection Hj as <-. by split.
  - intros q st j Hq. rewrite (tk_link _ _ _ _ Ht q st j Hq). unfold assigned. setoid_rewrite Hb. destruct (bool_decide_reflect (j = i)) as [->|Hne]; [|done]. rewrite Hi. naive_solver.
  - apply Ht.
  - apply Ht.
  - intros m j b' q Hm Hc' Hj Hs. cbn in Hm. assert (m = n) as -> by congruence. rewrite Hb in Hj. destruct (bool_decide_reflect (j = i)) as [->|Hne].
    + injection Hj as <-. cbn in Hs. injection Hs as <-. cbn. rewrite Hout, decide_True by lia. split; [done|by apply K2].
    + pose proof (nth_get_lt _ _ _ Hj). cbn. rewrite Hout, decide_False by lia. by apply (tk_stored _ _ _ _ Ht n j b' q).
Qed.
Lemma start_again_ok t now : ok t -> t_complete t = false -> ok (start_again now t).1.
Proof.
  intros Ht Hc. unfold start_again. set (from := sort_by _ _). cbn [fst]. set (t' := set_hash_failures _ _).
  assert (NoDup from) as Hnd by (apply NoDup_sort_by, NoDup_elements).
  assert (forall j b, nth_get (blocks t') j = Some b -> b = TorrentMetadataBlock_default /\ 0 <= j < len (blocks t)) as Hb.
  { cbn. intros j b. rewrite nth_get_map. intros (b0 & Hj & ->)%fmap_Some. split; [done|by apply nth_get_lt in Hj]. }
  assert (forall q st, peers t' !! q = Some st -> pending st = ∅) as Hp.
  { cbn. intros q st. rewrite lookup_fmap. by intros (st0 & _ & ->)%fmap_Some. }
  split.
  - apply Ht.
  - intros Hn. destruct (tk_none _ _ _ _ Ht Hn) as (H1 & H2 & H3). split_and!; [cbn; unfold len in *; by rewrite length_map|done|]. intros b Hj. by destruct (Hb 0 b Hj) as [-> _].
  - intros n Hn. destruct (tk_some _ _ _ _ Ht n Hn) as (H1 & H2 & H3). split_and!; [lia|lia|cbn; unfold len in *; by rewrite length_map|done].
  - intros j b Hj. destruct (Hb j b Hj) as [-> _]. apply block_default_ok.
  - intros q st j Hq. rewrite (Hp q st Hq). split; [by intros ?%elem_of_empty|]. intros (b & Hj & [x E]). destruct (Hb j b Hj) as [-> _]. cbn in E. by rewrite lookup_empty in E.
  - intros q st Hq. rewrite (Hp q st Hq). done.
  - unfold t'. cbn. rewrite map_size_fmap, size_fold_alter. apply Ht.
  - intros n j b q _ _ Hj Hs. destruct (Hb j b Hj) as [-> _]. done.
Qed.
(** The bytes are made of answers, block [i] by peer [src[i]], who was asked for it. *)
Definition provided (bytes : list Z) (src : list Z) : Prop :=
  1 <= len bytes <= MAX_METADATA_LENGTH /\ len src = metadata_block_count (len bytes)
  /\ forall i p, nth_get src i = Some p -> (p, i, len bytes, block_of bytes i) ∈ got /\ (p, i) ∈ asked.
Definition mismatch_cooldown (bytes : list Z) : Z :=
  if metadata_block_count (len bytes) =? 1 then METADATA_SINGLE_BLOCK_HASH_FAILURE_COOLDOWN_MILLIS else METADATA_HASH_FAILURE_COOLDOWN_MILLIS.
(** After a mismatch every block is missing and unassigned, and whoever contributed cools down. *)
Record restarted (now : Z) (bytes : list Z) (from : list Z) (t' : TorrentMetadataDownload) : Prop := {
  rs_blocks : Forall (fun b => b = TorrentMetadataBlock_default) (blocks t');
  rs_peers q st : peers t' !! q = Some st -> pending st = ∅ /\ (q ∈ from -> cooldown_until st = Some (later now (mismatch_cooldown bytes)));
  rs_open : t_complete t' = false;
}.
Section outcomes.
Context (sha1 sha256 : list Z -> list Z).
Definition event_ok (peer now : Z) (ev : TorrentMetadataEvent) (t' : TorrentMetadataDownload) : Prop :=
  match ev with
  | BlockAccepted i => exists b, nth_get (blocks t') i = Some b /\ received b = true /\ source b = Some peer
  | Duplicate i => exists b, nth_get (blocks t') i = Some b /\ received b = true
  | EventComplete bytes => t_complete t' = true /\ matches sha1 sha256 expected bytes = true /\ exists src, provided bytes src
  | HashMismatch from => exists bytes src, provided bytes src /\ matches sha1 sha256 expected bytes = false /\ (forall p, p ∈ from <-> p ∈ src) /\ restarted now bytes from t'
  end.
Lemma all_stored t n : ok t -> t_size t = Some n -> t_complete t = false -> existsb (fun candidate => negb (received candidate)) (blocks t) = false ->
  exists src, provided (t_bytes t) src /\ forall p, p ∈ contributors (blocks t) <-> p ∈ src.
Proof.
  intros Ht Hn Hc Hall. destruct (tk_some _ _ _ _ Ht n Hn) as (Hsz & Hlb & Hby). specialize (Hby Hc).
  assert (forall i b, nth_get (blocks t) i = Some b -> exists p, source b = Some p) as Hsrc.
  { intros i b Hi. pose proof (bk_source _ _ _ _ (tk_block _ _ _ _ Ht i b Hi)) as E. assert (received b = true) as Hr.
    { destruct (received b) eqn:Er; [done|]. assert (existsb (fun candidate => negb (received candidate)) (blocks t) = true) as Ex; [|congruence].
      apply existsb_exists. exists b. split; [|by rewrite Er]. apply list_elem_of_In. unfold nth_get in Hi. case_match; [|done]. by eapply list_elem_of_lookup_2. }
    rewrite Hr in E. symmetry in E. apply bool_decide_eq_true in E as [p ?]. by exists p. }
  exists (map (fun b => default 0 (source b)) (blocks t)). split; [split_and!|].
  - lia.
  - lia.
  - rewrite Hby, <- Hlb. unfold len. by rewrite length_map.
  - intros i p Hp. rewrite nth_get_map in Hp. apply fmap_Some in Hp as (b & Hi & ->). destruct (Hsrc i b Hi) as [q Hq]. rewrite Hq. cbn. rewrite Hby. by apply (tk_stored _ _ _ _ Ht n i b q).
  - intros p. unfold contributors. rewrite elem_of_list_to_set, list_elem_of_omap, list_elem_of_fmap. split.
    + intros (b & Hb & Hs). exists b. by rewrite Hs.
    + intros (b & -> & Hb). exists b. split; [done|]. apply list_elem_of_lookup in Hb as [i Hi]. destruct (Hsrc (Z.of_nat i) b) as [q Hq]; [by rewrite nth_get_lookup, Nat2Z.id by lia|]. by rewrite Hq.
Qed.
Lemma start_again_restarts t now n : ok t -> t_size t = Some n -> t_complete t = false -> len (t_bytes t) = n -> restarted now (t_bytes t) (start_again now t).2 (start_again now t).1.
Proof.
  intros Ht Hn Hc Hl. destruct (tk_some _ _ _ _ Ht n Hn) as (_ & Hlb & _). split.
  - apply Forall_forall. intros b. cbn. intros (? & -> & _)%list_elem_of_fmap. done.
  - intros q st. unfold start_again. cbn [fst snd]. set (from := sort_by _ _). cbn. rewrite lookup_fmap. intros (st0 & Hq & ->)%fmap_Some. split; [done|]. intros Hin.
    rewrite fold_alter in Hq by (apply NoDup_sort_by, NoDup_elements). rewrite decide_True in Hq by done. apply fmap_Some in Hq as (st1 & _ & ->). cbn.
    unfold mismatch_cooldown. by rewrite Hl, <- Hlb.
  - done.
Qed.
Lemma accept_block_ok t n i b peer block now : ok t -> t_size t = Some n -> t_complete t = false -> nth_get (blocks t) i = Some b -> received b = false -> peer ∈ requested_by b ->
  len block = Z.min (n - i * METADATA_BLOCK_LENGTH) METADATA_BLOCK_LENGTH -> (peer, i, n, block) ∈ got ->
  wp (accept_block sha1 sha256 peer i (i * METADATA_BLOCK_LENGTH) block now) t (fun ev t' => ok t' /\ event_ok peer now ev t') (fun _ _ => False).
Proof.
  intros Ht Hn Hc Hi Hr Hpeer Hlen Hgot. destruct (tk_some _ _ _ _ Ht n Hn) as (Hsz & Hlb & Hby). specialize (Hby Hc). pose proof (nth_get_lt _ _ _ Hi) as Hil.
  destruct (release_piece_ok t i b Ht Hi) as (Ht1 & Hi1 & Hoth & E1 & E2 & E3). unfold accept_block. do 4 wp_step. rewrite Hi1. cbn [expect]. do 2 wp_step. rewrite E2.
  destruct (copy_block (E := MetadataError) (t_bytes t) i block) as (out & Eout & Hlo & Hblk); [rewrite Hby; lia|by rewrite Hby|]. rewrite Hby in Hlo, Hblk. rewrite Eout. do 8 wp_step.
  pose proof (fill_block_ok (release_piece i t) n i (set_assignments ∅ b) peer block out Ht1 ltac:(congruence) ltac:(congruence) Hi1 eq_refl Hpeer Hlo ltac:(by rewrite E2) Hgot) as Ht2.
  set (t2 := set_blocks _ (set_t_bytes out (release_piece i t))) in *. change (set_blocks _ _) with t2.
  assert (t_size t2 = Some n) as Hn2 by (cbn; congruence). assert (t_complete t2 = false) as Hc2 by (cbn; congruence).
  assert (nth_get (blocks t2) i = Some (fill_block peer (set_assignments ∅ b))) as Hi2.
  { cbn. pose proof (nth_get_lt _ _ _ Hi1). rewrite nth_get_insert by lia. by rewrite bool_decide_true. }
  destruct (existsb _ (blocks t2)) eqn:Ex.
  { wp_step. split; [done|]. eexists. split; [exact Hi2|done]. }
  destruct (all_stored t2 n Ht2 Hn2 Hc2 Ex) as (src & Hprov & Hcon). rewrite (tk_hash _ _ _ _ Ht2).
  destruct (matches sha1 sha256 expected (t_bytes t2)) eqn:Em.
  - do 5 wp_step. split.
    + destruct Ht2 as [H1 H2 H3 H4 H5 H6 H7 H8]. split; try done; cbn in *; try congruence. intros m Hm. destruct (H3 m Hm) as (? & ? & _). done.
    + cbn. split_and!; [done|done|by exists src].
  - do 3 wp_step. split; [by apply start_again_ok|]. exists (t_bytes t2), src. split_and!; [done|done| |by apply (start_again_restarts t2 now n)].
    intros p. rewrite <- Hcon. unfold start_again. cbn [snd]. rewrite elem_of_sort_by, elem_of_elements. done.
Qed.
Lemma torrent_on_data_ok t peer piece n block now : ok t -> (peer, piece, n, block) ∈ got ->
  wp (torrent_on_data sha1 sha256 peer piece n block now) t (fun ev t' => ok t' /\ event_ok peer now ev t') (fun _ t' => ok t').
Proof.
  intros Ht Hgot. unfold torrent_on_data. do 2 wp_step. destruct (t_complete t) eqn:Hc; [by wp_step|]. wp_step.
  wp_call (peer_of_ok t peer); [|by intros e t' [-> _]]. intros st t' [-> Hst]. wp_step. unfold valid_piece_number. destruct (_ && _); [|done]. wp_step.
  destruct (bool_decide (t_size t = None) && negb (piece =? 0)); [done|]. wp_step. wp_call (torrent_accept_size_ok expected asked got t n Ht); [|by intros e t' ->].
  intros [] t1 (Ht1 & Hn1 & Hp1 & Hc1 & _). do 3 wp_step. apply wp_lift_ok_or; [|done]. intros b Hi. destruct (tk_some _ _ _ _ Ht1 n Hn1) as (Hsz & Hlb & Hby). rewrite Hc1, Hc in Hby. specialize (Hby eq_refl).
  destruct (decide (peer ∈ requested_by b)) as [Hreq|Hreq]; [rewrite bool_decide_true by done|by rewrite bool_decide_false]. cbn [negb]. wp_step. pose proof (nth_get_lt _ _ _ Hi) as Hil.
  destruct (metadata_block_length n piece) as [want|e| |] eqn:Ew.
  2: done. 2,3: unfold metadata_block_length in Ew; by case_in Ew.
  apply block_length_spec in Ew as [Hpc ->]; [|lia..]. wp_step. destruct (received b) eqn:Er.
  - assert (piece * METADATA_BLOCK_LENGTH < n) as Hlt by (unfold metadata_block_count in Hpc; pose proof (div_ceil_spec n METADATA_BLOCK_LENGTH eq_refl); change METADATA_BLOCK_LENGTH with 16384 in *; lia).
    rewrite slice_ok by (change METADATA_BLOCK_LENGTH with 16384 in *; lia). do 4 wp_step; [|done]. split; [done|]. by exists b.
  - destruct (Z.eqb_spec (len block) (Z.min (n - piece * METADATA_BLOCK_LENGTH) METADATA_BLOCK_LENGTH)) as [Hlen|]; cbn [negb]; [|done].
    wp_call (accept_block_ok t1 n piece b peer block now); try done. congruence.
Qed.
End outcomes.
End answers.

(** ** Rejections and departures *)
Section departures.
Context (expected : MetadataInfoHash) (asked : list (Z * Z)) (got : list Answer).
Local Abbreviation ok t := (torrent_ok expected asked got t).
Lemma release_assignments_ok t peer : ok t -> ok (release_peer_assignments peer t).
Proof.
  intros Ht. set (t' := release_peer_assignments peer t).
  assert (forall j b, nth_get (blocks t') j = Some b <-> exists b0, nth_get (blocks t) j = Some b0 /\ b = drop_assignment peer b0) as Hb.
  { intros j b. cbn. rewrite nth_get_map, fmap_Some. done. }
  assert (forall q st, peers t' !! q = Some st -> exists st0, peers t !! q = Some st0 /\ st = if decide (q = peer) then set_pending ∅ st0 else st0) as Hp.
  { cbn. intros q st. destruct (decide (q = peer)) as [->|Hne]; [rewrite lookup_alter_eq; intros (st0 & Hq & ->)%fmap_Some; by exists st0|rewrite lookup_alter_ne by done; by exists st]. }
  split.
  - apply Ht.
  - intros Hn. destruct (tk_none _ _ _ _ Ht Hn) as (H1 & H2 & H3). split_and!; [cbn; unfold len in *; by rewrite length_map|done|]. intros b (b0 & Hj & ->)%Hb. by apply (H3 b0).
  - intros n Hn. destruct (tk_some _ _ _ _ Ht n Hn) as (H1 & H2 & H3). split_and!; [lia|lia|cbn; unfold len in *; by rewrite length_map|done].
  - intros j b (b0 & Hj & ->)%Hb. destruct (tk_block _ _ _ _ Ht j b0 Hj) as [K1 K2 K3 K4 K5]. split; cbn; try done.
    + intros q [x [_ Hq]%lookup_delete_Some]. by apply K1.
    + intros q Hq. destruct (K2 q Hq). split; [by apply lookup_alter_is_Some|done].
    + intros E. rewrite K3 by done. apply delete_empty.
    + pose proof (map_subseteq_size _ _ (delete_subseteq (assignments b0) peer)). lia.
  - intros q st j Hq. destruct (Hp q st Hq) as (st0 & Hq0 & ->). assert (assigned (blocks t') j q <-> assigned (blocks t) j q /\ q <> peer) as ->.
    { split.
      - intros (b & (b0 & Hj & ->)%Hb & [x Ha]). cbn in Ha. apply lookup_delete_Some in Ha as [Hne Ha]. split; [by exists b0|done].
      - intros [(b0 & Hj & Ha) Hne]. exists (drop_assignment peer b0). split; [apply Hb; by exists b0|]. cbn. by rewrite lookup_delete_ne. }
    destruct (decide (q = peer)) as [->|Hne]; cbn; [split; [by intros ?%elem_of_empty|naive_solver]|]. rewrite (tk_link _ _ _ _ Ht q st0 j Hq0). naive_solver.
  - intros q st Hq. destruct (Hp q st Hq) as (st0 & Hq0 & ->). destruct (decide _); [done|by apply (tk_window _ _ _ _ Ht q)].
  - cbn. rewrite size_alter. apply Ht.
  - intros n j b q Hn Hc (b0 & Hj & ->)%Hb Hs. by apply (tk_stored _ _ _ _ Ht n j b0 q).
Qed.
Lemma cooldown_ok t peer until : ok t -> ok (set_peers (alter (set_cooldown until) peer (peers t)) t).
Proof.
  intros Ht. assert (forall q st, alter (set_cooldown until) peer (peers t) !! q = Some st -> exists st0, peers t !! q = Some st0 /\ pending st = pending st0) as Hp.
  { intros q st. destruct (decide (q = peer)) as [->|Hne]; [rewrite lookup_alter_eq; intros (st0 & Hq & ->)%fmap_Some; by exists st0|rewrite lookup_alter_ne by done; by exists st]. }
  destruct Ht as [H1 H2 H3 H4 H5 H6 H7 H8]. split; cbn; try done.
  - intros i b Hi. destruct (H4 i b Hi) as [K1 K2 K3 K4 K5]. split; try done. intros q Hq. destruct (K2 q Hq). split; [by apply lookup_alter_is_Some|done].
  - intros q st j Hq. destruct (Hp q st Hq) as (st0 & Hq0 & ->). by apply H5.
  - intros q st Hq. destruct (Hp q st Hq) as (st0 & Hq0 & ->). by apply (H6 q).
  - by rewrite size_alter.
Qed.
Lemma on_reject_ok t peer piece now : ok t -> wp (on_reject peer piece now) t (fun _ t' => ok t' /\ exists st, peers t' !! peer = Some st /\ pending st = ∅ /\ cooldown_until st = Some (later now METADATA_REJECT_COOLDOWN_MILLIS)) (fun _ t' => t' = t).
Proof.
  intros Ht. unfold on_reject, valid_piece_number. wp_step. destruct (_ && _); [|done]. do 2 wp_step. wp_call (peer_of_ok t peer); [|by intros e t' [-> _]]. intros st t' [-> Hst].
  destruct (negb _); [done|]. do 3 wp_step. split; [by apply cooldown_ok, release_assignments_ok|]. cbn. rewrite !lookup_alter_eq, Hst. by eexists.
Qed.
Lemma remove_peer_ok t peer : ok t -> ok (remove_peer peer t).1.
Proof.
  intros Ht. unfold remove_peer. destruct (peers t !! peer) as [st|] eqn:Hst; [|done]. cbn [fst]. set (t' := set_blocks _ _).
  assert (forall j b, nth_get (blocks t') j = Some b <-> exists b0, nth_get (blocks t) j = Some b0 /\ b = forget_peer peer b0) as Hb.
  { intros j b. cbn. rewrite nth_get_map, fmap_Some. done. }
  split.
  - apply Ht.
  - intros Hn. destruct (tk_none _ _ _ _ Ht Hn) as (H1 & H2 & H3). split_and!; [cbn; unfold len in *; by rewrite length_map|done|]. intros b (b0 & Hj & ->)%Hb. by apply (H3 b0).
  - intros n Hn. destruct (tk_some _ _ _ _ Ht n Hn) as (H1 & H2 & H3). split_and!; [lia|lia|cbn; unfold len in *; by rewrite length_map|done].
  - intros j b (b0 & Hj & ->)%Hb. destruct (tk_block _ _ _ _ Ht j b0 Hj) as [K1 K2 K3 K4 K5]. split; cbn; try done.
    + intros q [x [Hne Hq]%lookup_delete_Some]. apply elem_of_difference. split; [by apply K1|]. by intros ->%elem_of_singleton.
    + intros q [Hq Hne]%elem_of_difference. destruct (K2 q Hq). split; [|done]. rewrite lookup_delete_ne; [done|]. intros ->. by apply Hne, elem_of_singleton.
    + intros E. rewrite K3 by done. apply delete_empty.
    + pose proof (map_subseteq_size _ _ (delete_subseteq (assignments b0) peer)). lia.
  - intros q sq j Hq. cbn in Hq. apply lookup_delete_Some in Hq as [Hne Hq]. rewrite (tk_link _ _ _ _ Ht q sq j Hq). split.
    + intros (b0 & Hj & Ha). exists (forget_peer peer b0). split; [apply Hb; by exists b0|]. cbn. by rewrite lookup_delete_ne.
    + intros (b & (b0 & Hj & ->)%Hb & Ha). cbn in Ha. rewrite lookup_delete_ne in Ha by done. by exists b0.
  - intros q sq Hq. cbn in Hq. apply lookup_delete_Some in Hq as [Hne Hq]. by apply (tk_window _ _ _ _ Ht q).
  - cbn. pose proof (map_subseteq_size _ _ (delete_subseteq (peers t) peer)). pose proof (tk_peers _ _ _ _ Ht). lia.
  - intros n j b q Hn Hc (b0 & Hj & ->)%Hb Hs. by apply (tk_stored _ _ _ _ Ht n j b0 q).
Qed.
End departures.

(** ** Histories *)
Definition pieces_of (peer : Z) (r : result (list Z)) : list (Z * Z) := match r with Ok l => map (pair peer) l | _ => [] end.
(** Any sequence of calls, with the requests made and the answers received. *)
Inductive torrent_run (sha1 sha256 : list Z -> list Z) (expected : MetadataInfoHash) : list (Z * Z) -> list Answer -> TorrentMetadataDownload -> Prop :=
| torrent_new : torrent_run sha1 sha256 expected [] [] (TorrentMetadataDownload_new expected)
| torrent_register asked got t peer advertised : torrent_run sha1 sha256 expected asked got t -> torrent_run sha1 sha256 expected asked got (register_peer peer advertised t).1
| torrent_size asked got t peer size : torrent_run sha1 sha256 expected asked got t -> torrent_run sha1 sha256 expected asked got (accept_peer_size peer size t).1
| torrent_requests asked got t peer now : torrent_run sha1 sha256 expected asked got t ->
    torrent_run sha1 sha256 expected (asked ++ pieces_of peer (requests_for_peer peer now t).2) got (requests_for_peer peer now t).1
| torrent_data asked got t peer piece size block now : torrent_run sha1 sha256 expected asked got t ->
    torrent_run sha1 sha256 expected asked (got ++ [(peer, piece, size, block)]) (torrent_on_data sha1 sha256 peer piece size block now t).1
| torrent_reject asked got t peer piece now : torrent_run sha1 sha256 expected asked got t -> torrent_run sha1 sha256 expected asked got (on_reject peer piece now t).1
| torrent_remove asked got t peer : torrent_run sha1 sha256 expected asked got t -> torrent_run sha1 sha256 expected asked got (remove_peer peer t).1.
Lemma torrent_run_ok sha1 sha256 expected asked got t : torrent_run sha1 sha256 expected asked got t -> torrent_ok expected asked got t.
Proof.
  induction 1 as [|asked got t peer adv _ IH|asked got t peer n _ IH|asked got t peer now _ IH|asked got t peer piece n block now _ IH|asked got t peer piece now _ IH|asked got t peer _ IH].
  - apply new_torrent_ok.
  - destruct (wp_outcome _ _ _ _ (register_ok expected asked got t peer adv IH)) as [_ H]. by destruct ((register_peer peer adv t).2).
  - destruct (wp_outcome _ _ _ _ (accept_peer_size_ok expected asked got t peer n IH)) as [_ H]. by destruct ((accept_peer_size peer n t).2).
  - destruct (wp_outcome _ _ _ _ (requests_ok expected asked got t peer now IH)) as [_ H]. destruct ((requests_for_peer peer now t).2); cbn; rewrite ?app_nil_r; naive_solver.
  - pose proof (torrent_ok_mono expected asked asked got (got ++ [(peer, piece, n, block)]) t ltac:(done) ltac:(set_solver) IH) as Ht.
    destruct (wp_outcome _ _ _ _ (torrent_on_data_ok expected asked (got ++ [(peer, piece, n, block)]) sha1 sha256 t peer piece n block now Ht ltac:(set_solver))) as [_ H].
    destruct ((torrent_on_data sha1 sha256 peer piece n block now t).2); naive_solver.
  - destruct (wp_outcome _ _ _ _ (on_reject_ok expected asked got t peer piece now IH)) as [_ H]. destruct ((on_reject peer piece now t).2); [naive_solver|by rewrite H|done..].
  - by apply remove_peer_ok.
Qed.

(** * Properties *)

(** C7: The bookkeeping of a download from several peers is consistent in
    every state that any sequence of registrations, sizes, requests, answers,
    rejections and departures can reach: a peer's pending pieces are exactly
    the blocks assigned to it, at most two; a block is assigned to one peer at
    most, to none once it is received, and only to registered peers; there are
    at most thirty-two peers; and no call panics. *)
Theorem torrent_metadata_invariant sha1 sha256 expected asked got t : torrent_run sha1 sha256 expected asked got t ->
  (forall p st, peers t !! p = Some st -> (forall i, i ∈ pending st <-> assigned (blocks t) i p) /\ set_len (pending st) <= MAX_METADATA_REQUESTS_IN_FLIGHT)
  /\ (forall i b, nth_get (blocks t) i = Some b -> Z.of_nat (size (assignments b)) <= 1 /\ (received b = true -> assignments b = ∅))
  /\ (forall i p, assigned (blocks t) i p -> is_Some (peers t !! p))
  /\ Z.of_nat (size (peers t)) <= MAX_TORRENT_METADATA_PEERS
  /\ forall p n o i block now, returns (register_peer p o t).2 /\ returns (accept_peer_size p n t).2 /\ returns (requests_for_peer p now t).2
     /\ returns (torrent_on_data sha1 sha256 p i n block now t).2 /\ returns (on_reject p i now t).2.
Proof.
  intros Hrun. pose proof (torrent_run_ok _ _ _ _ _ _ Hrun) as Ht. split_and!.
  - intros p st Hp. split; [intros i; by apply (tk_link _ _ _ _ Ht)|by apply (tk_window _ _ _ _ Ht p)].
  - intros i b Hi. destruct (tk_block _ _ _ _ Ht i b Hi). done.
  - intros i p. by apply (assigned_known _ _ _ _ _ _ Ht).
  - apply Ht.
  - intros p n o i block now. split_and!.
    + apply (wp_outcome _ _ _ _ (register_ok expected asked got t p o Ht)).
    + apply (wp_outcome _ _ _ _ (accept_peer_size_ok expected asked got t p n Ht)).
    + apply (wp_outcome _ _ _ _ (requests_ok expected asked got t p now Ht)).
    + pose proof (torrent_ok_mono expected asked asked got (got ++ [(p, i, n, block)]) t ltac:(done) ltac:(set_solver) Ht) as Ht'.
      apply (wp_outcome _ _ _ _ (torrent_on_data_ok expected asked (got ++ [(p, i, n, block)]) sha1 sha256 t p i n block now Ht' ltac:(set_solver))).
    + apply (wp_outcome _ _ _ _ (on_reject_ok expected asked got t p i now Ht)).
Qed.

(** C6: What several peers deliver together is what was asked for.  When an
    answer completes the metadata, in any state the download can reach, the
    bytes have the expected hash and an allowed length, and each of their
    blocks is the answer of a peer who had been asked for that block.  When
    they have the wrong hash, exactly the peers whose blocks they are made of
    are blamed: these cool down, for longer if there was a single block, and
    the download starts again with every block missing and nothing pending. *)
Theorem torrent_metadata_delivered sha1 sha256 expected asked got t peer piece n block now : torrent_run sha1 sha256 expected asked got t ->
  let got' := got ++ [(peer, piece, n, block)] in
  let '(t', r) := torrent_on_data sha1 sha256 peer piece n block now t in
  match r with
  | Ok (EventComplete bytes) => t_complete t' = true /\ matches sha1 sha256 expected bytes = true /\ exists src, provided asked got' bytes src
  | Ok (HashMismatch from) => exists bytes src, provided asked got' bytes src /\ matches sha1 sha256 expected bytes = false
      /\ (forall p, p ∈ from <-> p ∈ src) /\ restarted now bytes from t'
  | _ => True
  end.
Proof.
  intros Hrun got'. pose proof (torrent_ok_mono expected asked asked got got' t ltac:(done) ltac:(set_solver) (torrent_run_ok _ _ _ _ _ _ Hrun)) as Ht.
  destruct (wp_outcome _ _ _ _ (torrent_on_data_ok expected asked got' sha1 sha256 t peer piece n block now Ht ltac:(set_solver))) as [_ H].
  destruct (torrent_on_data sha1 sha256 peer piece n block now t) as [t' [[]|e| |]]; cbn in H; try done; apply H.
Qed.

(** Which pieces a peer is asked for, in any state the download can
    reach.  Assignments older than three seconds are withdrawn first.  A peer
    that cools down gets nothing; any other gets as many pieces as fit beside
    its pending ones, each missing, assigned to nobody else and now assigned
    to it.  The first is the one requested least often, the earliest among
    these; there is none only if the window is full, the last request is less
    than a second ago and still pending, or no block is left for this peer. *)
Theorem torrent_requests_exact sha1 sha256 expected asked got t peer now : torrent_run sha1 sha256 expected asked got t -> t_complete t = false -> is_Some (peers t !! peer) ->
  let s := expire_assignments now t in
  exists st t' l, requests_for_peer peer now t = (t', Ok l) /\ peers s !! peer = Some st
  /\ (cooled now st = false -> l = [])
  /\ set_len (pending st) + len l <= MAX_METADATA_REQUESTS_IN_FLIGHT
  /\ (forall i, i ∈ l -> (exists b, nth_get (blocks s) i = Some b /\ received b = false /\ assignments b = ∅) /\ assigned (blocks t') i peer)
  /\ (cooled now st = true -> match head l with
      | Some i => exists b, nth_get (blocks s) i = Some b /\ requestable peer now s b = true
          /\ forall j b', nth_get (blocks s) j = Some b' -> requestable peer now s b' = true -> least (i, b) (j, b') = true
      | None => set_len (pending st) = MAX_METADATA_REQUESTS_IN_FLIGHT \/ (pending st <> ∅ /\ ramping now st = true)
          \/ forall i b, nth_get (blocks s) i = Some b -> requestable peer now s b = false
      end).
Proof.
  intros Hrun Hc [st0 Hst0] s. pose proof (torrent_run_ok _ _ _ _ _ _ Hrun) as Ht. destruct (wp_outcome _ _ _ _ (requests_ok expected asked got t peer now Ht)) as [_ H].
  destruct (expire_ok expected asked got t now Ht) as (Hs & _ & _). fold s in Hs.
  destruct (requests_for_peer peer now t) as [t' [l|e| |]]; cbn [fst snd] in H; [|destruct H as (_ & [(? & _)|[? _]]); congruence|done..].
  destruct H as (Ht' & _ & st & Hst & Hcases). exists st, t', l. split; [done|]. split; [done|]. pose proof (tk_window _ _ _ _ Hs peer st Hst) as Hw.
  destruct (cooled now st) eqn:Ec.
  - destruct Hcases as [_ (st' & Hp' & _ & _ & Hsl) _ Hpc Hf]. fold s in Hpc, Hf. pose proof (tk_window _ _ _ _ Ht' peer st' Hp'). split_and!; [done|lia|done|]. intros _. rewrite Hf.
    destruct (Z.leb_spec MAX_METADATA_REQUESTS_IN_FLIGHT (set_len (pending st))); [left; lia|]. destruct (negb _ && _) eqn:Er.
    + right. left. apply andb_prop in Er as [G1 G2]. split; [|done]. intros Hem. by rewrite Hem in G1.
    + pose proof (candidate_spec peer now s) as Hcs. destruct (candidate peer now s); [done|]. by right; right.
  - destruct Hcases as [-> ->]. split_and!; [done|rewrite len_nil; lia|intros i Hi; by apply elem_of_nil in Hi|done].
Qed.

(** A missing block is not withheld by everyone.  If, after expiry, some
    block is missing and assigned to nobody, and some registered peer neither
    cools down nor has pending pieces, then there is a registered peer that
    gets a request now, or one that waits out the second after its last
    request, which is still pending. *)
Theorem torrent_requests_progress sha1 sha256 expected asked got t now p st i b : torrent_run sha1 sha256 expected asked got t -> t_complete t = false ->
  let s := expire_assignments now t in
  peers s !! p = Some st -> cooled now st = true -> pending st = ∅ -> nth_get (blocks s) i = Some b -> received b = false -> assignments b = ∅ ->
  exists q sq t' l, peers s !! q = Some sq /\ requests_for_peer q now t = (t', Ok l) /\ (l <> [] \/ (pending sq <> ∅ /\ ramping now sq = true)).
Proof.
  intros Hrun Hc s Hst Hcool Hpend Hi Hr Ha. pose proof (torrent_run_ok _ _ _ _ _ _ Hrun) as Ht.
  destruct (expire_ok expected asked got t now Ht) as (Hs & [E1 E2 E3] & _). fold s in Hs, E2, E3.
  assert (forall q sq, peers s !! q = Some sq -> cooled now sq = true -> set_len (pending sq) < MAX_METADATA_REQUESTS_IN_FLIGHT -> requestable q now s b = true ->
     exists t' l, requests_for_peer q now t = (t', Ok l) /\ (l <> [] \/ (pending sq <> ∅ /\ ramping now sq = true))) as Hget.
  { intros q sq Hq Hcq Hw Hreq. destruct (E2 q sq Hq) as (sq0 & Hq0 & _). destruct (wp_outcome _ _ _ _ (requests_ok expected asked got t q now Ht)) as [_ H].
    destruct (requests_for_peer q now t) as [t' [l|e| |]]; cbn [fst snd] in H; [|destruct H as (_ & [(? & _)|[? _]]); congruence|done..].
    exists t', l. split; [done|]. destruct H as (_ & _ & sq' & Hq' & Hcases). fold s in Hq'. assert (sq' = sq) as -> by congruence. rewrite Hcq in Hcases.
    pose proof (rq_first _ _ _ _ _ _ Hcases) as Hf. fold s in Hf. rewrite (proj2 (Z.leb_gt _ _)) in Hf by done. destruct (negb _ && _) eqn:Er.
    - right. apply andb_prop in Er as [G1 G2]. split; [|done]. intros E. by rewrite E in G1.
    - left. pose proof (candidate_spec q now s) as Hcs. destruct (candidate q now s); [by intros ->|]. rewrite (Hcs i b Hi) in Hreq. done. }
  assert (forall q, requestable q now s b = if bool_decide (q ∈ requested_by b) then negb (may_defer q now s b) else true) as Hreq.
  { intros q. unfold requestable. rewrite Hr, Ha. cbn. by destruct (bool_decide (q ∈ requested_by b)). }
  destruct (requestable p now s b) eqn:Ep.
  - assert (set_len (pending st) < MAX_METADATA_REQUESTS_IN_FLIGHT) as Hw by (rewrite Hpend; done).
    destruct (Hget p st Hst Hcool Hw Ep) as (t' & l & ? & ?). by exists p, st, t', l.
  - rewrite Hreq in Ep. destruct (bool_decide _); [|done]. apply negb_false_iff, may_defer_spec in Ep as (q & sq & Hq & _ & Hnq & Hwq & Hcq).
    destruct (Hget q sq Hq Hcq) as (t' & l & ? & ?); [unfold window_open in Hwq; lia|by rewrite Hreq, bool_decide_false|]. by exists q, sq, t', l.
Qed.

(** * Examples *)
Definition sample_torrent : TorrentMetadataDownload := (register_peer 7 (Some sample_size) (TorrentMetadataDownload_new sample_hash)).1.
Definition sample_asked : TorrentMetadataDownload := (requests_for_peer 7 0 sample_torrent).1.
Lemma sample_torrent_run : torrent_run sample_hasher sample_hasher sample_hash [] [] sample_torrent.
Proof. apply torrent_register, torrent_new. Qed.
Lemma sample_asked_run : torrent_run sample_hasher sample_hasher sample_hash ([] ++ pieces_of 7 (requests_for_peer 7 0 sample_torrent).2) [] sample_asked.
Proof. apply torrent_requests, sample_torrent_run. Qed.
Lemma torrent_metadata_invariant_witness : torrent_run sample_hasher sample_hasher sample_hash ([] ++ pieces_of 7 (requests_for_peer 7 0 sample_torrent).2) [] sample_asked
  /\ forall p st, peers sample_asked !! p = Some st -> (forall i, i ∈ pending st <-> assigned (blocks sample_asked) i p) /\ set_len (pending st) <= MAX_METADATA_REQUESTS_IN_FLIGHT.
Proof. split; [exact sample_asked_run|]. exact (proj1 (torrent_metadata_invariant _ _ _ _ _ _ sample_asked_run)). Defined.
Lemma torrent_metadata_delivered_witness : exists t, torrent_on_data sample_hasher sample_hasher 7 0 sample_size sample_metadata 5 sample_asked = (t, Ok (EventComplete sample_metadata))
  /\ matches sample_hasher sample_hasher sample_hash sample_metadata = true.
Proof.
  pose proof (torrent_metadata_delivered _ _ _ _ _ _ 7 0 sample_size sample_metadata 5 sample_asked_run) as H. cbv zeta in H.
  assert ((torrent_on_data sample_hasher sample_hasher 7 0 sample_size sample_metadata 5 sample_asked).2 = Ok (EventComplete sample_metadata)) as E by (vm_compute; reflexivity).
  destruct (torrent_on_data sample_hasher sample_hasher 7 0 sample_size sample_metadata 5 sample_asked) as [t r]. cbn in E. subst r. exists t. split; [done|]. apply H.
Defined.
Lemma torrent_requests_exact_witness : exists t', requests_for_peer 7 0 sample_torrent = (t', Ok [0]) /\ assigned (blocks t') 0 7.
Proof.
  destruct (torrent_requests_exact _ _ _ _ _ _ 7 0 sample_torrent_run) as (st & t' & l & E & _ & _ & _ & H & _); [vm_compute; reflexivity|vm_compute; by eexists|].
  assert ((requests_for_peer 7 0 sample_torrent).2 = Ok [0]) as E2 by (vm_compute; reflexivity). rewrite E in E2. cbn in E2. injection E2 as ->. exists t'. split; [done|]. apply H. set_solver.
Defined.
Lemma torrent_requests_progress_witness : exists q sq t' l, peers (expire_assignments 0 sample_torrent) !! q = Some sq /\ requests_for_peer q 0 sample_torrent = (t', Ok l)
  /\ (l <> [] \/ (pending sq <> ∅ /\ ramping 0 sq = true)).
Proof.
  apply (torrent_requests_progress _ _ _ _ _ _ 0 7 TorrentMetadataPeer_default 0 TorrentMetadataBlock_default sample_torrent_run); vm_compute; reflexivity.
Defined.
