(* ===== verification/PiecePriority.v ===== *)
(** * The download priority of a piece

    The priority of [crates/rstorrent-protocol/src/storage_layout.rs] that the
    layout computes from the selected files and the piece picker ranks by. *)
From S2P Require Import Prelude.

Inductive PiecePriority := Normal | High.
#[export] Instance PiecePriority_eq_dec : EqDecision PiecePriority.
Proof. solve_decision. Defined.
Definition LEVEL_COUNT : Z := 8.
Definition AVAILABILITY_FACTOR : Z := 3.
Definition priority_value (p : PiecePriority) : Z := match p with Normal => 4 | High => 6 end.
Definition weighted_availability (p : PiecePriority) (availability : Z) : Z :=
  saturating_mul 32 (saturating_mul 32 availability (LEVEL_COUNT - priority_value p)) AVAILABILITY_FACTOR.
