(* ===== verification/PiecePicker.v ===== *)
(** * PiecePicker: the piece activation index of [rstorrent-engine/src/piece_picker.rs]

    The pieces still wanted are kept in a binary heap ordered by rank, with
    the position of each piece in it.  The heap has two parts: the ranked
    pieces, in heap order, and behind them the deferred ones, which were
    inspected and found ineligible. *)
From stdpp Require Import strings.
From S2P Require Import Prelude HeapOrder Ordered PiecePriority.
#[local] Open Scope Z_scope.

Definition MAX_PICKER_CANDIDATE_INSPECTIONS : Z := 256.
Definition POSITION_UNWANTED : Z := umax 32.
Definition POSITION_PLANNED : Z := umax 32 - 1.
Definition POSITION_RESERVED : Z := umax 32 - 2.
Definition POSITION_DETACHED : Z := umax 32 - 3.

Inductive PieceActivationPolicy := InOrder | RarestFirst.
Record PiecePickerCounters := mkCounters {
  rank_comparisons : Z;
  single_piece_updates : Z;
  bulk_rebuilds : Z;
  candidate_inspections : Z;
}.
Record AvailabilityPicker := mkPicker {
  policy : PieceActivationPolicy;
  tie_seed : Z;
  counts : list Z;
  priorities : list PiecePriority;
  heap : list Z;
  positions : list Z;
  ranked_len : Z;
  eligibility_changed : bool;
  seed_count : Z;
  wanted_remaining : Z;
  counters : PiecePickerCounters;
}.

(** Field updates. *)
Definition set_index h p n s := mkPicker (policy s) (tie_seed s) (counts s) (priorities s) h p n
  (eligibility_changed s) (seed_count s) (wanted_remaining s) (counters s).
Definition set_heap h s := set_index h (positions s) (ranked_len s) s.
Definition set_positions p s := set_index (heap s) p (ranked_len s) s.
Definition set_ranked n s := set_index (heap s) (positions s) n s.
Definition set_counters c s := mkPicker (policy s) (tie_seed s) (counts s) (priorities s) (heap s) (positions s)
  (ranked_len s) (eligibility_changed s) (seed_count s) (wanted_remaining s) c.
Definition set_changed b s := mkPicker (policy s) (tie_seed s) (counts s) (priorities s) (heap s) (positions s)
  (ranked_len s) b (seed_count s) (wanted_remaining s) (counters s).
Definition set_wanted n s := mkPicker (policy s) (tie_seed s) (counts s) (priorities s) (heap s) (positions s)
  (ranked_len s) (eligibility_changed s) (seed_count s) n (counters s).
Definition set_availability cs n s := mkPicker (policy s) (tie_seed s) cs (priorities s) (heap s) (positions s)
  (ranked_len s) (eligibility_changed s) n (wanted_remaining s) (counters s).
Definition set_priorities ps s := mkPicker (policy s) (tie_seed s) (counts s) ps (heap s) (positions s)
  (ranked_len s) (eligibility_changed s) (seed_count s) (wanted_remaining s) (counters s).
Definition count_comparison s := set_counters (mkCounters (saturating_add 64 (rank_comparisons (counters s)) 1)
  (single_piece_updates (counters s)) (bulk_rebuilds (counters s)) (candidate_inspections (counters s))) s.
Definition count_update s := set_counters (mkCounters (rank_comparisons (counters s))
  (saturating_add 64 (single_piece_updates (counters s)) 1) (bulk_rebuilds (counters s)) (candidate_inspections (counters s))) s.
Definition count_bulk s := set_counters (mkCounters (rank_comparisons (counters s))
  (single_piece_updates (counters s)) (saturating_add 64 (bulk_rebuilds (counters s)) 1) (candidate_inspections (counters s))) s.
Definition count_inspection s := set_counters (mkCounters (rank_comparisons (counters s))
  (single_piece_updates (counters s)) (bulk_rebuilds (counters s)) (saturating_add 64 (candidate_inspections (counters s)) 1)) s.

Abbreviation method := (M AvailabilityPicker string).
(** [debug_assert!]: a checked build stops here. *)
Definition assert (b : bool) : method unit := if b then mret tt else lift Panic.

(** ** Ranks *)
Definition availability (s : AvailabilityPicker) (piece : Z) : option Z :=
  match nth_get (counts s) piece with Some c => Some (c + seed_count s) | None => None end.
Definition tie_key (s : AvailabilityPicker) (piece : Z) : Z :=
  if tie_seed s =? 0 then piece
  else
    let offset := tie_seed s mod len (counts s) in
    (piece + len (counts s) - offset) mod len (counts s).
Definition rank (s : AvailabilityPicker) (lhs rhs : Z) : outcome string comparison :=
  lc ← index (counts s) lhs;
  rc ← index (counts s) rhs;
  let la := lc + seed_count s in
  let ra := rc + seed_count s in
  match la =? 0, ra =? 0 with
  | false, true => Ok Lt
  | true, false => Ok Gt
  | _, _ =>
    match policy s with
    | InOrder => Ok (lhs ?= rhs)
    | RarestFirst =>
      lp ← index (priorities s) lhs;
      rp ← index (priorities s) rhs;
      Ok (then_with (weighted_availability lp la ?= weighted_availability rp ra)
           (then_with (tie_key s lhs ?= tie_key s rhs) (lhs ?= rhs)))
    end
  end.
Definition precedes (s : AvailabilityPicker) (lhs rhs : Z) : outcome string bool :=
  c ← rank s lhs rhs; Ok (bool_decide (c = Lt)).

(** ** The heap *)
Definition heap_precedes (lhs rhs : Z) : method bool :=
  modify count_comparison;;
  s ← get;
  a ← lift (index (heap s) lhs);
  b ← lift (index (heap s) rhs);
  lift (precedes s a b).
(** [self.positions[piece] = position] *)
Definition write_position (piece position : Z) : method unit :=
  s ← get;
  _ ← lift (index (positions s) piece);
  put (set_positions (<[Z.to_nat piece := position]> (positions s)) s).
Definition swap_heap (lhs rhs : Z) : method unit :=
  s ← get;
  a ← lift (index (heap s) lhs);
  b ← lift (index (heap s) rhs);
  put (set_heap (<[Z.to_nat rhs := a]> (<[Z.to_nat lhs := b]> (heap s))) s);;
  write_position b lhs;;
  write_position a rhs.

Fixpoint sift_up (fuel : nat) (position : Z) : method Z :=
  if position =? 0 then mret position
  else
    match fuel with
    | O => lift NoFuel
    | S f =>
      let parent := (position - 1) / 2 in
      less ← heap_precedes position parent;
      if negb less then mret position
      else swap_heap position parent;; sift_up f parent
    end.
Fixpoint sift_down (fuel : nat) (position : Z) : method unit :=
  s ← get;
  let left := saturating_add USIZE (saturating_mul USIZE position 2) 1 in
  if ranked_len s <=? left then mret tt
  else
    match fuel with
    | O => lift NoFuel
    | S f =>
      let right := left + 1 in
      best ← (if right <? ranked_len s
              then less ← heap_precedes right left; mret (if less : bool then right else left)
              else mret left);
      less ← heap_precedes best position;
      if negb less then mret tt
      else swap_heap position best;; sift_down f best
    end.
(** Each step moves to a smaller, or a larger, position of the heap. *)
Definition sift_up_from (position : Z) : method Z := sift_up (Z.to_nat position) position.
Definition sift_down_from (position : Z) : method unit :=
  s ← get; sift_down (Z.to_nat (ranked_len s)) position.

Definition repair_piece (piece : Z) : method unit :=
  s ← get;
  match nth_get (positions s) piece with
  | None => mret tt
  | Some position =>
    if (POSITION_DETACHED <=? position) || (ranked_len s <=? position) then mret tt
    else
      position ← sift_up_from position;
      sift_down_from position
  end.

Fixpoint write_positions (pieces : list Z) (position : Z) : method unit :=
  match pieces with
  | [] => mret tt
  | piece :: r => write_position piece position;; write_positions r (position + 1)
  end.
(** [for position in (0..n).rev()] *)
Fixpoint heapify (n : nat) : method unit :=
  match n with
  | O => mret tt
  | S m => sift_down_from (Z.of_nat m);; heapify m
  end.
Definition rebuild_heap (count_rebuild : bool) : method unit :=
  (if count_rebuild then modify count_bulk else mret tt);;
  modify (fun s => set_changed false (set_ranked (len (heap s)) s));;
  s ← get;
  write_positions (heap s) 0;;
  if ranked_len s <? 2 then mret tt
  else heapify (Z.to_nat (ranked_len s / 2)).
(** [Vec::pop] *)
Definition pop_heap : method Z :=
  s ← get;
  last ← lift (expect (list.last (heap s)));
  put (set_heap (removelast (heap s)) s);;
  mret last.

(** Take the root out of the ranked part. *)
Definition shrink_root : method unit :=
  s ← get;
  last_ranked ← lift (expect (checked_sub (ranked_len s) 1));
  swap_heap 0 last_ranked;;
  modify (fun s => set_ranked last_ranked s);;
  if negb (last_ranked =? 0) then sift_down_from 0 else mret tt.
Definition defer_ranked_root : method unit :=
  s ← get;
  assert (negb (ranked_len s =? 0));;
  shrink_root.
(** Swap a piece behind the ranked part to the end, and drop it. *)
Definition drop_at (removed_position expected replacement_state : Z) : method unit :=
  s ← get;
  last ← lift (expect (checked_sub (len (heap s)) 1));
  swap_heap removed_position last;;
  removed ← pop_heap;
  assert (removed =? expected);;
  write_position expected replacement_state.
Definition remove_ranked_root (replacement_state : Z) : method Z :=
  s ← get;
  assert (negb (ranked_len s =? 0));;
  root ← lift (index (heap s) 0);
  shrink_root;;
  s ← get;
  drop_at (ranked_len s) root replacement_state;;
  mret root.
Definition push_detached (piece : Z) : method unit :=
  s ← get;
  state ← lift (index (positions s) piece);
  assert (state =? POSITION_DETACHED);;
  put (set_heap (heap s ++ [piece]) s);;
  let last := len (heap s) in
  write_position piece last;;
  swap_heap (ranked_len s) last;;
  modify (fun s => set_ranked (ranked_len s + 1) s);;
  _ ← sift_up_from (ranked_len s);
  mret tt.
Definition remove_at (position replacement_state : Z) : method unit :=
  s ← get;
  removed ← lift (index (heap s) position);
  if ranked_len s <=? position then drop_at position removed replacement_state
  else
    let last_ranked := ranked_len s - 1 in
    swap_heap position last_ranked;;
    modify (fun s => set_ranked last_ranked s);;
    (if position <? last_ranked then
       repaired ← sift_up_from position;
       sift_down_from repaired
     else mret tt);;
    drop_at last_ranked removed replacement_state.

(** ** Operations *)
Fixpoint place_wanted (piece_count : Z) (wanted : list Z) (position : Z) (positions : list Z)
    : outcome string (list Z) :=
  match wanted with
  | [] => Ok positions
  | piece :: r =>
    if piece_count <=? piece then Err "wanted piece is outside picker geometry"%string
    else
      here ← index positions piece;
      if negb (here =? POSITION_UNWANTED) then Err "wanted piece is duplicated"%string
      else place_wanted piece_count r (position + 1) (<[Z.to_nat piece := position]> positions)
  end.
Definition new_with_priorities (piece_count : Z) (wanted : list Z) (priorities : list PiecePriority)
    (policy : PieceActivationPolicy) (tie_seed : Z) : outcome string AvailabilityPicker :=
  if (piece_count =? 0) || (umax 32 <? piece_count) then Err "piece picker geometry is invalid"%string
  else if negb (len priorities =? piece_count)
  then Err "piece priority geometry does not match picker geometry"%string
  else
    let n := Z.to_nat piece_count in
    positions ← place_wanted piece_count wanted 0 (replicate n POSITION_UNWANTED);
    match rebuild_heap false (mkPicker policy tie_seed (replicate n 0) priorities wanted positions (len wanted)
                                false 0 (len wanted) (mkCounters 0 0 0 0)) with
    | (s, Ok _) => Ok s
    | (_, Err e) => Err e
    | (_, Panic) => Panic
    | (_, NoFuel) => NoFuel
    end.

Definition is_wanted (s : AvailabilityPicker) (piece : Z) : bool :=
  match nth_get (positions s) piece with Some position => negb (position =? POSITION_UNWANTED) | None => false end.
Definition replace_priorities (ps : list PiecePriority) : method unit :=
  s ← get;
  if negb (len ps =? len (priorities s))
  then fail "piece priority geometry does not match picker geometry"%string
  else if bool_decide (priorities s = ps) then mret tt
  else modify (set_priorities ps);; rebuild_heap true.
Definition note_eligibility_change : method unit :=
  modify (fun s => set_changed (eligibility_changed s || negb (ranked_len s =? len (heap s))) s).
Definition increment_piece_without_repair (piece : Z) : method unit :=
  s ← get;
  count ← lift (ok_or (nth_get (counts s) piece) "availability piece is outside picker geometry"%string);
  next ← lift (ok_or (checked_add 16 count 1) "availability counter overflow"%string);
  put (set_availability (<[Z.to_nat piece := next]> (counts s)) (seed_count s) s).
Definition decrement_piece_without_repair (piece : Z) : method unit :=
  s ← get;
  count ← lift (ok_or (nth_get (counts s) piece) "availability piece is outside picker geometry"%string);
  next ← lift (ok_or (checked_sub count 1) "availability counter underflow"%string);
  put (set_availability (<[Z.to_nat piece := next]> (counts s)) (seed_count s) s).
Definition increment_piece (piece : Z) : method unit :=
  increment_piece_without_repair piece;;
  modify count_update;;
  repair_piece piece;;
  note_eligibility_change.
Definition increment_seed_without_rebuild : method unit :=
  s ← get;
  next ← lift (ok_or (checked_add 16 (seed_count s) 1) "seed availability counter overflow"%string);
  put (set_availability (counts s) next s).
Definition decrement_seed_without_rebuild : method unit :=
  s ← get;
  next ← lift (ok_or (checked_sub (seed_count s) 1) "seed availability counter underflow"%string);
  put (set_availability (counts s) next s).
Definition rebuild_after_bulk_update : method unit := rebuild_heap true.

(** The loop of [reserve_best_matching]; the caller's closure is a function
    of the piece. *)
Fixpoint inspect (n : nat) (eligible : Z -> bool) : method (option Z) :=
  match n with
  | O => mret None
  | S m =>
    s ← get;
    if ranked_len s =? 0 then mret None
    else
      piece ← lift (index (heap s) 0);
      if bool_decide (availability s piece = Some 0) then mret None
      else
        modify count_inspection;;
        if eligible piece then (root ← remove_ranked_root POSITION_RESERVED; mret (Some root))
        else defer_ranked_root;; inspect m eligible
  end.
Definition reserve_best_matching (eligible : Z -> bool) : method (option Z) :=
  s ← get;
  (if (ranked_len s =? 0) && eligibility_changed s then rebuild_heap false else mret tt);;
  inspect (Z.to_nat MAX_PICKER_CANDIDATE_INSPECTIONS) eligible.

Definition cancel_reserved (piece : Z) : method unit :=
  s ← get;
  if negb (bool_decide (nth_get (positions s) piece = Some POSITION_RESERVED))
  then fail "piece is not reserved for planning"%string
  else write_position piece POSITION_DETACHED;; push_detached piece.
Definition reserve_specific (piece : Z) : method bool :=
  s ← get;
  match nth_get (positions s) piece with
  | None => mret false
  | Some position =>
    if (POSITION_DETACHED <=? position) || bool_decide (availability s piece = Some 0) then mret false
    else remove_at position POSITION_RESERVED;; mret true
  end.
Definition mark_planned (piece : Z) : method unit :=
  s ← get;
  position ← lift (ok_or (nth_get (positions s) piece) "planned piece is outside picker geometry"%string);
  if position =? POSITION_PLANNED then fail "piece is already planned"%string
  else if position =? POSITION_UNWANTED then fail "planned piece is not wanted"%string
  else if position =? POSITION_RESERVED then write_position piece POSITION_PLANNED
  else if position =? POSITION_DETACHED then fail "piece is detached from picker heap"%string
  else remove_at position POSITION_PLANNED.
Definition restore_unstarted (piece : Z) : method unit :=
  s ← get;
  position ← lift (ok_or (nth_get (positions s) piece) "restored piece is outside picker geometry"%string);
  if negb (position =? POSITION_PLANNED) then fail "restored piece is not planned"%string
  else write_position piece POSITION_DETACHED;; push_detached piece.
Definition mark_completed (piece : Z) : method unit :=
  s ← get;
  position ← lift (ok_or (nth_get (positions s) piece) "completed piece is outside picker geometry"%string);
  (if position =? POSITION_UNWANTED then fail "completed piece is not wanted"%string
   else if (position =? POSITION_RESERVED) || (position =? POSITION_DETACHED)
   then fail "completed piece is in a transient picker state"%string
   else if position =? POSITION_PLANNED then write_position piece POSITION_UNWANTED
   else remove_at position POSITION_UNWANTED);;
  s ← get;
  rest ← lift (ok_or (checked_sub (wanted_remaining s) 1) "wanted piece count underflow"%string);
  put (set_wanted rest s).
Definition add_wanted (piece : Z) : method bool :=
  s ← get;
  position ← lift (ok_or (nth_get (positions s) piece) "wanted piece is outside picker geometry"%string);
  if negb (position =? POSITION_UNWANTED) then mret false
  else
    write_position piece POSITION_DETACHED;;
    push_detached piece;;
    s ← get;
    next ← lift (ok_or (checked_add USIZE (wanted_remaining s) 1) "wanted piece count overflow"%string);
    put (set_wanted next s);;
    mret true.

Definition FNV_PRIME : Z := 0x00000100000001b3.
Definition FNV_OFFSET : Z := 0xcbf29ce484222325.
Definition picker_seed (info_hash peer_id : list Z) : Z :=
  foldl (fun state byte => Z.lxor state byte * FNV_PRIME mod 2 ^ 64) FNV_OFFSET (info_hash ++ peer_id).

(** ** Specification *)

(** Ranks as keys, compared from left to right: no availability last; then
    the weighted availability and the rotation; then the index. *)
Record key := mkKey { k_unavailable : Z; k_weight : Z; k_tie : Z; k_piece : Z }.
Definition rank_key (s : AvailabilityPicker) (p : Z) : key :=
  let a := default 0 (nth_get (counts s) p) + seed_count s in
  let w := match policy s with
           | InOrder => 0
           | RarestFirst => weighted_availability (default Normal (nth_get (priorities s) p)) a
           end in
  mkKey (if a =? 0 then 1 else 0) w (match policy s with InOrder => 0 | RarestFirst => tie_key s p end) p.
Definition key_compare (j k : key) : comparison :=
  then_with (k_unavailable j ?= k_unavailable k)
    (then_with (k_weight j ?= k_weight k)
       (then_with (k_tie j ?= k_tie k) (k_piece j ?= k_piece k))).
Definition key_le (j k : key) : Prop := key_compare j k <> Gt.
Definition rank_le (s : AvailabilityPicker) (p q : Z) : Prop := key_le (rank_key s p) (rank_key s q).

(** The heap and the position index are inverse to each other. *)
Record index_ok (s : AvailabilityPicker) : Prop := {
  ix_counts : len (counts s) = len (positions s);
  ix_priorities : len (priorities s) = len (positions s);
  ix_size : 0 < len (positions s) <= POSITION_DETACHED;
  ix_heap i p : nth_get (heap s) i = Some p -> nth_get (positions s) p = Some i;
  ix_positions p v : nth_get (positions s) p = Some v -> v < POSITION_DETACHED -> nth_get (heap s) v = Some p;
  ix_ranked : 0 <= ranked_len s <= len (heap s);
  ix_available i c : nth_get (counts s) i = Some c -> is_u 16 c;
  ix_seeds : is_u 16 (seed_count s);
}.
Definition heap_view (s : AvailabilityPicker) (i : Z) : Z := default 0 (nth_get (heap s) i).
(** The ranked part is a heap. *)
Definition ranked_ok (s : AvailabilityPicker) : Prop :=
  heap_ordered (rank_le s) (ranked_len s) (heap_view s).
Definition in_heap (s : AvailabilityPicker) (p : Z) : Prop := exists i, nth_get (heap s) i = Some p.
Definition is_ranked (s : AvailabilityPicker) (p : Z) : Prop :=
  exists i, i < ranked_len s /\ nth_get (heap s) i = Some p.
Definition wanted_count (l : list Z) : Z := len (filter (fun v => v <> POSITION_UNWANTED) l).

(** What decides ranks, and the counters of wanted pieces, are the same. *)
Record same_ranks (s s' : AvailabilityPicker) : Prop := {
  sr_policy : policy s' = policy s;
  sr_seed : tie_seed s' = tie_seed s;
  sr_counts : counts s' = counts s;
  sr_priorities : priorities s' = priorities s;
  sr_seeds : seed_count s' = seed_count s;
  sr_wanted : wanted_remaining s' = wanted_remaining s;
}.
(** A piece outside the heap keeps its state. *)
Definition same_states (s s' : AvailabilityPicker) : Prop :=
  len (positions s') = len (positions s)
  /\ forall p v, POSITION_DETACHED <= v -> nth_get (positions s') p = Some v <-> nth_get (positions s) p = Some v.
(** Pieces moved within the ranked part only. *)
Record sifted (s s' : AvailabilityPicker) : Prop := {
  sf_ranks : same_ranks s s';
  sf_states : same_states s s';
  sf_changed : eligibility_changed s' = eligibility_changed s;
  sf_ranked_len : ranked_len s' = ranked_len s;
  sf_len : len (heap s') = len (heap s);
  sf_deferred i : ranked_len s <= i -> nth_get (heap s') i = nth_get (heap s) i;
  sf_ranked p : is_ranked s' p <-> is_ranked s p;
}.

(** * Lemmas *)

Lemma wp_assert b s (Q : unit -> AvailabilityPicker -> Prop) R : b = true -> Q tt s -> wp (assert b) s Q R.
Proof. by intros ->. Qed.

(** ** Ranks form a total order *)
Lemma key_compare_spec j k :
  match key_compare j k with
  | Lt => k_unavailable j < k_unavailable k \/ k_unavailable j = k_unavailable k /\
      (k_weight j < k_weight k \/ k_weight j = k_weight k /\
       (k_tie j < k_tie k \/ k_tie j = k_tie k /\ k_piece j < k_piece k))
  | Eq => j = k
  | Gt => k_unavailable k < k_unavailable j \/ k_unavailable k = k_unavailable j /\
      (k_weight k < k_weight j \/ k_weight k = k_weight j /\
       (k_tie k < k_tie j \/ k_tie k = k_tie j /\ k_piece k < k_piece j))
  end.
Proof.
  destruct j as [a b c d], k as [a' b' c' d']. unfold key_compare. cbn.
  destruct (Z.compare_spec a a'), (Z.compare_spec b b'), (Z.compare_spec c c'), (Z.compare_spec d d'); cbn; subst; intuition lia.
Qed.
Lemma key_le_trans x y z : key_le x y -> key_le y z -> key_le x z.
Proof.
  unfold key_le. intros H1 H2. pose proof (key_compare_spec x y) as A. pose proof (key_compare_spec y z) as B.
  pose proof (key_compare_spec x z) as C.
  destruct (key_compare x z); [done..|]. exfalso.
  destruct (key_compare x y), (key_compare y z); try done; subst; lia.
Qed.
Lemma key_le_total x y : ~ key_le x y -> key_le y x.
Proof.
  unfold key_le. intros H1 H2. pose proof (key_compare_spec x y) as A. pose proof (key_compare_spec y x) as B.
  rewrite H2 in B. destruct (key_compare x y); [by apply H1|by apply H1|]. lia.
Qed.
Lemma key_le_refl x : key_le x x.
Proof. unfold key_le. pose proof (key_compare_spec x x). destruct (key_compare x x); try done. lia. Qed.
Lemma rank_le_trans s x y z : rank_le s x y -> rank_le s y z -> rank_le s x z.
Proof. apply key_le_trans. Qed.
Lemma rank_le_total s x y : ~ rank_le s x y -> rank_le s y x.
Proof. apply key_le_total. Qed.
Lemma rank_le_refl s x : rank_le s x x.
Proof. apply key_le_refl. Qed.
Lemma rank_le_antisym s x y : rank_le s x y -> rank_le s y x -> x = y.
Proof.
  unfold rank_le, key_le. intros H1 H2. pose proof (key_compare_spec (rank_key s x) (rank_key s y)) as A.
  pose proof (key_compare_spec (rank_key s y) (rank_key s x)) as B.
  destruct (key_compare (rank_key s x) (rank_key s y)); [by injection A| |done].
  destruct (key_compare (rank_key s y) (rank_key s x)); [by injection B|lia|done].
Qed.
Lemma rank_le_same s s' : same_ranks s s' -> forall p q, rank_le s' p q <-> rank_le s p q.
Proof. intros [H1 H2 H3 H4 H5 _] p q. unfold rank_le, rank_key, tie_key. by rewrite H1, H2, H3, H4, H5. Qed.

Lemma rank_ok s p q : index_ok s -> 0 <= p < len (positions s) -> 0 <= q < len (positions s) ->
  rank s p q = Ok (key_compare (rank_key s p) (rank_key s q)).
Proof.
  intros Hx Hp Hq. pose proof (ix_counts _ Hx) as Ec. pose proof (ix_priorities _ Hx) as Ep.
  destruct (nth_get_is_Some (counts s) p ltac:(lia)) as [cp Hcp]. destruct (nth_get_is_Some (counts s) q ltac:(lia)) as [cq Hcq].
  destruct (nth_get_is_Some (priorities s) p ltac:(lia)) as [pp Hpp]. destruct (nth_get_is_Some (priorities s) q ltac:(lia)) as [pq Hpq].
  unfold rank, rank_key, index. rewrite Hcp, Hcq. cbn [expect default from_option id].
  unfold mbind, outcome_bind. cbn [expect]. unfold key_compare.
  destruct (policy s); rewrite ?Hpp, ?Hpq; cbn; destruct (cp + seed_count s =? 0), (cq + seed_count s =? 0); cbn; done.
Qed.
Lemma precedes_ok s p q : index_ok s -> 0 <= p < len (positions s) -> 0 <= q < len (positions s) ->
  exists b, precedes s p q = Ok b /\ (b = true <-> ~ rank_le s q p).
Proof.
  intros Hx Hp Hq. unfold precedes. rewrite rank_ok by done. unfold mbind, outcome_bind. eexists. split; [done|].
  rewrite bool_decide_eq_true. unfold rank_le, key_le.
  pose proof (key_compare_spec (rank_key s p) (rank_key s q)) as A.
  pose proof (key_compare_spec (rank_key s q) (rank_key s p)) as B.
  destruct (key_compare (rank_key s p) (rank_key s q)) eqn:E1.
  - rewrite A in B |- *. destruct (key_compare (rank_key s q) (rank_key s q)); try lia.
    split; [done|]. intros H. exfalso. by apply H.
  - split; [|done]. intros _ H. destruct (key_compare (rank_key s q) (rank_key s p)); [rewrite B in A; lia|lia|done].
  - split; [done|]. intros H. exfalso. apply H. destruct (key_compare (rank_key s q) (rank_key s p)); [done..|lia].
Qed.

(** ** The index *)
Abbreviation total m s Q := (wp m s Q (fun _ _ => False)).

Lemma nth_get_injective (l : list Z) m :
  (forall i j x, nth_get l i = Some x -> nth_get l j = Some x -> i = j) ->
  (forall i x, nth_get l i = Some x -> 0 <= x < m) -> 0 <= m -> len l <= m.
Proof.
  intros Hinj Hb Hm.
  assert (NoDup l) as Hnd.
  { apply NoDup_alt. intros i j x Hi Hj. enough (Z.of_nat i = Z.of_nat j) by lia.
    apply (Hinj _ _ x); rewrite nth_get_lookup by lia; by rewrite Nat2Z.id. }
  assert (l ⊆ map Z.of_nat (seq 0 (Z.to_nat m))) as Hs.
  { intros x Hx. apply list_elem_of_lookup in Hx as [i Hi]. assert (0 <= x < m) as Hxm.
    { apply (Hb (Z.of_nat i)). rewrite nth_get_lookup by lia. by rewrite Nat2Z.id. }
    apply list_elem_of_fmap. exists (Z.to_nat x). split; [lia|]. apply elem_of_seq. lia. }
  apply submseteq_length with (1 := NoDup_submseteq _ _ Hnd Hs) || idtac.
  pose proof (submseteq_length _ _ (NoDup_submseteq _ _ Hnd Hs)) as H.
  rewrite length_map, length_seq in H. unfold len. lia.
Qed.
Lemma heap_piece s i p : index_ok s -> nth_get (heap s) i = Some p -> 0 <= p < len (positions s) /\ 0 <= i < len (heap s).
Proof. intros Hx H. split; [|by eapply nth_get_lt]. eapply nth_get_lt. by eapply ix_heap. Qed.
Lemma heap_injective s i j p : index_ok s -> nth_get (heap s) i = Some p -> nth_get (heap s) j = Some p -> i = j.
Proof. intros Hx Hi Hj. apply (ix_heap _ Hx) in Hi, Hj. congruence. Qed.
Lemma heap_len s : index_ok s -> len (heap s) <= len (positions s).
Proof.
  intros Hx. apply nth_get_injective; [by intros; eapply heap_injective| |].
  - intros i x H. by apply (heap_piece s i x Hx).
  - pose proof (ix_size _ Hx). lia.
Qed.
Lemma view_at s i p : nth_get (heap s) i = Some p -> heap_view s i = p.
Proof. unfold heap_view. by intros ->. Qed.
Lemma view_get s i : 0 <= i < len (heap s) -> nth_get (heap s) i = Some (heap_view s i).
Proof. intros H. destruct (nth_get_is_Some _ _ H) as [p E]. by rewrite (view_at _ _ _ E). Qed.
(** A piece behind the index of the heap has one of the four states. *)
Lemma in_heap_position s p : index_ok s ->
  in_heap s p <-> exists v, nth_get (positions s) p = Some v /\ v < POSITION_DETACHED.
Proof.
  intros Hx. split.
  - intros [i Hi]. exists i. split; [by apply Hx|]. pose proof (heap_piece s i p Hx Hi). pose proof (heap_len s Hx).
    pose proof (ix_size _ Hx). lia.
  - intros (v & Hv & Hlt). exists v. by apply Hx.
Qed.

Lemma same_ranks_refl s : same_ranks s s.
Proof. done. Qed.
Lemma same_ranks_trans s1 s2 s3 : same_ranks s1 s2 -> same_ranks s2 s3 -> same_ranks s1 s3.
Proof. intros [] []. split; congruence. Qed.
Lemma same_states_refl s : same_states s s.
Proof. done. Qed.
Lemma same_states_trans s1 s2 s3 : same_states s1 s2 -> same_states s2 s3 -> same_states s1 s3.
Proof. intros [E1 H1] [E2 H2]. split; [congruence|]. intros p v Hv. by rewrite H2, H1. Qed.
Lemma sifted_refl s : sifted s s.
Proof. done. Qed.
Lemma sifted_trans s1 s2 s3 : sifted s1 s2 -> sifted s2 s3 -> sifted s1 s3.
Proof.
  intros [A1 A2 A3 A4 A5 A6 A7] [B1 B2 B3 B4 B5 B6 B7]. split; try congruence.
  - by eapply same_ranks_trans.
  - by eapply same_states_trans.
  - intros i Hi. rewrite B6 by lia. by apply A6.
  - intros p. by rewrite B7, A7.
Qed.

Lemma write_position_ok piece position s : 0 <= piece < len (positions s) ->
  total (write_position piece position) s
    (fun _ s' => s' = set_positions (<[Z.to_nat piece := position]> (positions s)) s).
Proof.
  intros Hp. unfold write_position. repeat wp_step. destruct (nth_get_is_Some _ _ Hp) as [v E].
  unfold index. rewrite E. cbn [expect]. by repeat wp_step.
Qed.

(** An exchange keeps the index. *)
Record swapped (a b : Z) (s s' : AvailabilityPicker) : Prop := {
  sw_ranks : same_ranks s s';
  sw_states : same_states s s';
  sw_changed : eligibility_changed s' = eligibility_changed s;
  sw_ranked_len : ranked_len s' = ranked_len s;
  sw_len : len (heap s') = len (heap s);
  sw_view i : heap_view s' i = exchanged (heap_view s) a b i;
  sw_get i : 0 <= i -> nth_get (heap s') i = nth_get (heap s) (if i =? a then b else if i =? b then a else i);
}.
Lemma swap_heap_ok a b s : index_ok s -> 0 <= a < len (heap s) -> 0 <= b < len (heap s) ->
  total (swap_heap a b) s (fun _ s' => index_ok s' /\ swapped a b s s').
Proof.
  intros Hx Ha Hb. unfold swap_heap. repeat wp_step.
  pose proof (view_get s a Ha) as Ea. pose proof (view_get s b Hb) as Eb. set (x := heap_view s a) in *. set (y := heap_view s b) in *.
  unfold index at 1. rewrite Ea. cbn [expect]. repeat wp_step. unfold index at 1. rewrite Eb. cbn [expect]. repeat wp_step.
  destruct (heap_piece s a x Hx Ea) as [Hxr _]. destruct (heap_piece s b y Hx Eb) as [Hyr _].
  set (h := <[Z.to_nat b := x]> (<[Z.to_nat a := y]> (heap s))).
  wp_call write_position_ok; [done| |done]. intros _ s1 ->.
  wp_call write_position_ok; [cbn; by rewrite len_insert| |done]. intros _ s2 ->. cbn.
  set (ps := <[Z.to_nat x := b]> (<[Z.to_nat y := a]> (positions s))).
  assert (forall i, 0 <= i -> nth_get h i = nth_get (heap s) (if i =? a then b else if i =? b then a else i)) as Hh.
  { intros i Hi. unfold h. rewrite nth_get_insert by (rewrite ?len_insert; lia). rewrite nth_get_insert by lia.
    destruct (Z.eqb_spec i a), (Z.eqb_spec i b); repeat case_bool_decide; try done; congruence. }
  assert (forall p, 0 <= p -> nth_get ps p = if bool_decide (p = x) then Some b else if bool_decide (p = y) then Some a
                                 else nth_get (positions s) p) as Hps.
  { intros p Hp. unfold ps. rewrite !nth_get_insert by (rewrite ?len_insert; lia). done. }
  pose proof (heap_len s Hx) as Hlen. pose proof (ix_size _ Hx) as Hsz.
  assert (len h = len (heap s)) as Hlh by (unfold h; by rewrite !len_insert).
  assert (len ps = len (positions s)) as Hlp by (unfold ps; by rewrite !len_insert).
  split; [|split; try done].
  - split; cbn; rewrite ?Hlh, ?Hlp; try apply Hx.
    + intros i p Hi. pose proof (nth_get_lt _ _ _ Hi) as Hir. rewrite Hh in Hi by lia.
      assert (0 <= p) by (apply (heap_piece s _ p Hx) in Hi; lia). rewrite Hps by done.
      destruct (Z.eqb_spec i a) as [->|Hia]; [|destruct (Z.eqb_spec i b) as [->|Hib]].
      * assert (p = y) as -> by congruence. case_bool_decide as E; [|by rewrite bool_decide_true].
        f_equal. rewrite E in Eb. exact (heap_injective s b a x Hx Eb Ea).
      * assert (p = x) as -> by congruence. by rewrite bool_decide_true.
      * rewrite !bool_decide_false; [by apply Hx|..]; intros ->.
        -- apply Hib. exact (heap_injective s i b _ Hx Hi Eb).
        -- apply Hia. exact (heap_injective s i a _ Hx Hi Ea).
    + intros p v Hv Hlt. pose proof (nth_get_lt _ _ _ Hv) as Hpr. rewrite Hps in Hv by lia.
      case_bool_decide as E1; [|case_bool_decide as E2].
      * injection Hv as <-. rewrite Hh by lia. subst p. destruct (Z.eqb_spec b a) as [->|]; [congruence|].
        by rewrite Z.eqb_refl.
      * injection Hv as <-. rewrite Hh by lia. rewrite Z.eqb_refl. by subst p.
      * pose proof (ix_positions _ Hx p v Hv Hlt) as Hg. rewrite Hh by (apply nth_get_lt in Hg; lia).
        destruct (Z.eqb_spec v a) as [->|]; [congruence|]. destruct (Z.eqb_spec v b) as [->|]; [congruence|]. done.
  - split; [done|]. intros p v Hv. cbn. destruct (Z.leb_spec 0 p); [|unfold nth_get; by rewrite (proj2 (Z.leb_gt _ _))].
    rewrite Hps by done. pose proof (ix_heap _ Hx _ _ Ea) as Pa. pose proof (ix_heap _ Hx _ _ Eb) as Pb.
    case_bool_decide as E1; [rewrite E1, Pa; split; intros [= <-]; lia|].
    case_bool_decide as E2; [rewrite E2, Pb; split; intros [= <-]; lia|done].
  - intros i. unfold heap_view at 1. cbn. fold h. unfold exchanged. fold x y.
    destruct (Z.leb_spec 0 i); [rewrite Hh by done|].
    + destruct (Z.eqb_spec i a); [by rewrite Eb|]. destruct (Z.eqb_spec i b); [by rewrite Ea|done].
    + unfold nth_get, heap_view, nth_get. rewrite (proj2 (Z.leb_gt _ _)) by done.
      rewrite (proj2 (Z.eqb_neq i a)), (proj2 (Z.eqb_neq i b)) by lia. done.
Qed.

(** ** Sifting *)
Lemma is_ranked_view s p : index_ok s -> is_ranked s p <-> exists i, 0 <= i < ranked_len s /\ heap_view s i = p.
Proof.
  intros Hx. pose proof (ix_ranked _ Hx). split.
  - intros (i & Hi & E). exists i. split; [apply nth_get_lt in E; lia|by apply view_at].
  - intros (i & Hi & <-). exists i. split; [lia|]. apply view_get. lia.
Qed.
Lemma swapped_sifted a b s s' : index_ok s -> index_ok s' -> 0 <= a < ranked_len s -> 0 <= b < ranked_len s ->
  swapped a b s s' -> sifted s s'.
Proof.
  intros Hx Hx' Ha Hb [H1 H2 H3 H4 H5 H6 H7]. pose proof (ix_ranked _ Hx). split; try done.
  - intros i Hi. rewrite H7 by lia. rewrite (proj2 (Z.eqb_neq i a)), (proj2 (Z.eqb_neq i b)) by lia. done.
  - intros p. rewrite !is_ranked_view by done. setoid_rewrite H6. rewrite H4.
    assert (forall i, 0 <= i < ranked_len s -> exists j, 0 <= j < ranked_len s /\ exchanged (heap_view s) a b i = heap_view s j
            /\ exchanged (heap_view s) a b j = heap_view s i) as Hinv.
    { intros i Hi. destruct (Z.eq_dec i a) as [->|]; [exists b|destruct (Z.eq_dec i b) as [->|]; [exists a|exists i]].
      - by rewrite exchanged_l, exchanged_r.
      - by rewrite exchanged_l, exchanged_r.
      - by rewrite !exchanged_ne by done. }
    split; intros (i & Hi & <-); destruct (Hinv i Hi) as (j & Hj & E1 & E2); exists j; done.
Qed.
Lemma count_comparison_ok s : index_ok s -> index_ok (count_comparison s) /\ sifted s (count_comparison s).
Proof. intros [H1 H2 H3 H4 H5 H6 H7 H8]. by split. Qed.
Lemma heap_precedes_ok a b s : index_ok s -> 0 <= a < len (heap s) -> 0 <= b < len (heap s) ->
  total (heap_precedes a b) s (fun less s' => s' = count_comparison s
    /\ (less = true <-> ~ rank_le s (heap_view s b) (heap_view s a))).
Proof.
  intros Hx Ha Hb. unfold heap_precedes. repeat wp_step. cbn [count_comparison set_counters heap].
  pose proof (view_get s a Ha) as Ea. pose proof (view_get s b Hb) as Eb.
  unfold index at 1. rewrite Ea. cbn [expect]. repeat wp_step. unfold index at 1. rewrite Eb. cbn [expect]. repeat wp_step.
  destruct (precedes_ok (count_comparison s) (heap_view s a) (heap_view s b)) as (less & -> & Hl).
  - by apply count_comparison_ok.
  - by apply (heap_piece s a _ Hx Ea).
  - by apply (heap_piece s b _ Hx Eb).
  - wp_step. done.
Qed.

(** The entries of a state, read in the ranks of [s0]. *)
Lemma sift_up_ok s0 fuel : forall j s, index_ok s -> same_ranks s0 s -> 0 <= j < ranked_len s -> (Z.to_nat j <= fuel)%nat ->
  total (sift_up fuel j) s (fun p s' => index_ok s' /\ sifted s s' /\ 0 <= p <= j
    /\ (ordered_but (rank_le s0) (ranked_len s) (heap_view s) j ->
        ordered_above (rank_le s0) 0 (ranked_len s) (heap_view s') p
        /\ (children_ok (rank_le s0) (ranked_len s) (heap_view s) j -> ranked_ok s'))).
Proof.
  assert (forall s s' j, same_ranks s0 s -> sifted s s' -> (forall i, heap_view s' i = heap_view s i) ->
    j = 0 \/ rank_le s0 (heap_view s (parent j)) (heap_view s j) ->
    ordered_but (rank_le s0) (ranked_len s) (heap_view s) j ->
    ordered_above (rank_le s0) 0 (ranked_len s) (heap_view s') j
    /\ (children_ok (rank_le s0) (ranked_len s) (heap_view s) j -> ranked_ok s')) as Hstop.
  { intros s s' j Hr Hs Ev Hj Ho. assert (pointwise_relation Z eq (heap_view s') (heap_view s)) as Ev' by exact Ev.
    assert (ordered_above (rank_le s0) 0 (ranked_len s) (heap_view s) j) as Ha by by apply up_stop.
    split; [by rewrite Ev'|]. intros Hc. unfold ranked_ok. rewrite (sf_ranked_len _ _ Hs).
    assert (heap_ordered (rank_le s0) (ranked_len s) (heap_view s')) as H.
    { rewrite Ev'. by eapply above_children. }
    intros i Hi. eapply rank_le_same; [|by apply H]. eapply same_ranks_trans; [exact Hr|apply Hs]. }
  induction fuel as [|f IH]; intros j s Hx Hr Hj Hf; cbn [sift_up]; destruct (Z.eqb_spec j 0) as [->|Hj0].
  - wp_step. split_and!; try done; try lia. by apply (Hstop s s 0); [..|left].
  - lia.
  - wp_step. split_and!; try done; try lia. by apply (Hstop s s 0); [..|left].
  - pose proof (ix_ranked _ Hx) as Hrl. fold (parent j). pose proof (parent_bounds j ltac:(lia)) as Hp.
    wp_step. wp_call heap_precedes_ok; [done|lia|lia| |done]. intros less s1 [-> Hless].
    destruct (count_comparison_ok s Hx) as [Hx1 Hs1].
    assert (rank_le s (heap_view s (parent j)) (heap_view s j) <-> rank_le s0 (heap_view s (parent j)) (heap_view s j)) as Hle
      by (by apply rank_le_same).
    destruct less; cbn [negb].
    + assert (~ rank_le s0 (heap_view s (parent j)) (heap_view s j)) as Hlt by (rewrite <- Hle; by apply Hless).
      wp_step. wp_call swap_heap_ok; [done|cbn; lia|cbn; lia| |done]. intros _ s2 [Hx2 Hsw].
      assert (sifted s s2) as Hs2.
      { eapply sifted_trans; [exact Hs1|]. eapply swapped_sifted; [done|done|..|done]; cbn; lia. }
      assert (pointwise_relation Z eq (heap_view s2) (exchanged (heap_view s) j (parent j))) as Ev by (intros i; by apply Hsw).
      wp_call IH; [done|eapply same_ranks_trans; [exact Hr|apply Hs2]|rewrite (sf_ranked_len _ _ Hs2); lia|lia| |done].
      intros p s3 (H1 & H2 & H3 & H4). split; [done|]. split; [by eapply sifted_trans|]. split; [lia|].
      intros Ho. rewrite (sf_ranked_len _ _ Hs2), Ev in H4.
      destruct H4 as [H4 H5]; [apply up_step; [apply rank_le_trans|done|lia|done]|]. split; [done|].
      intros Hc. apply H5. apply up_children; [apply rank_le_trans|apply rank_le_total|done|done|lia|done].
    + wp_step. split; [done|split; [done|split; [lia|]]]. apply Hstop; [done|done|done|]. right. apply Hle.
      destruct (decide (rank_le s (heap_view s (parent j)) (heap_view s j))) as [|Hn]; [done|].
      by apply Hless in Hn.
Qed.
(** The child the loop compares with is the lesser of the two. *)
Lemma best_child_ok s0 s j : index_ok s -> same_ranks s0 s -> 0 <= j -> 2 * j + 1 < ranked_len s ->
  let left := 2 * j + 1 in let right := left + 1 in
  total (if right <? ranked_len s
         then less ← heap_precedes right left; mret (if less : bool then right else left)
         else mret left) s
    (fun c s' => index_ok s' /\ sifted s s' /\ (forall i, heap_view s' i = heap_view s i)
       /\ 0 < c < ranked_len s /\ j < c /\ parent c = j
       /\ forall i, 0 < i < ranked_len s -> parent i = j -> rank_le s0 (heap_view s c) (heap_view s i)).
Proof.
  intros Hx Hr Hj Hl left right. pose proof (ix_ranked _ Hx) as Hrl.
  assert (forall i, 0 < i -> parent i = j <-> i = left \/ i = right) as Hch.
  { intros i Hi. rewrite children_of by done. subst left right. lia. }
  destruct (Z.ltb_spec right (ranked_len s)) as [Hrt|Hrt].
  - wp_step. wp_call heap_precedes_ok; [done|lia|lia| |done]. intros less s1 [-> Hless].
    destruct (count_comparison_ok s Hx) as [Hx1 Hs1]. wp_step.
    split; [done|]. split; [done|]. split; [done|]. rewrite (rank_le_same s0 s Hr) in Hless.
    destruct less.
    + split; [lia|]. split; [lia|]. split; [apply Hch; lia|]. intros i Hi E. apply Hch in E as [->| ->]; [|apply rank_le_refl|lia].
      apply rank_le_total. by apply Hless.
    + split; [lia|]. split; [lia|]. split; [apply Hch; lia|]. intros i Hi E. apply Hch in E as [->| ->]; [apply rank_le_refl| |lia].
      destruct (decide (rank_le s0 (heap_view s left) (heap_view s right))) as [|Hn]; [done|]. by apply Hless in Hn.
  - wp_step. split; [done|]. split; [apply sifted_refl|]. split; [done|]. split; [lia|]. split; [lia|]. split; [apply Hch; lia|].
    intros i Hi E. apply Hch in E as [->| ->]; [apply rank_le_refl|lia|lia].
Qed.

Lemma left_child_cases s j : index_ok s -> 0 <= j ->
  let left := saturating_add USIZE (saturating_mul USIZE j 2) 1 in
  ranked_len s <= left /\ ranked_len s <= 2 * j + 1 \/ left = 2 * j + 1 /\ 2 * j + 1 < ranked_len s.
Proof.
  intros Hx Hj. pose proof (ix_ranked _ Hx). pose proof (heap_len s Hx). pose proof (ix_size _ Hx) as Hsz.
  assert (POSITION_DETACHED = 4294967292) by done. unfold saturating_add, saturating_mul.
  change (umax USIZE) with 18446744073709551615. cbv zeta. lia.
Qed.
Lemma sift_down_ok s0 lo fuel : forall j s, index_ok s -> same_ranks s0 s -> 0 <= lo <= j ->
  (Z.to_nat (ranked_len s - j) <= fuel)%nat ->
  total (sift_down fuel j) s (fun _ s' => index_ok s' /\ sifted s s'
    /\ (ordered_above (rank_le s0) lo (ranked_len s) (heap_view s) j ->
        ordered_from (rank_le s0) lo (ranked_len s) (heap_view s'))).
Proof.
  assert (forall j s, index_ok s -> 0 <= lo <= j -> ranked_len s <= 2 * j + 1 ->
    ordered_above (rank_le s0) lo (ranked_len s) (heap_view s) j ->
    ordered_from (rank_le s0) lo (ranked_len s) (heap_view s)) as Hleaf.
  { intros j s Hx Hj Hn Ho. eapply down_stop; [exact Ho|]. intros i Hi E. apply children_of in E; lia. }
  induction fuel as [|f IH]; intros j s Hx Hr Hj Hf; cbn [sift_down]; wp_step; wp_step;
    destruct (left_child_cases s j Hx ltac:(lia)) as [[H1 H2]|[-> H2]].
  1, 3: rewrite (proj2 (Z.leb_le _ _)) by done; wp_step; split; [done|split; [apply sifted_refl|by apply Hleaf]].
  - lia.
  - rewrite (proj2 (Z.leb_gt _ _)) by done. pose proof (ix_ranked _ Hx) as Hrl. wp_step.
    wp_call (best_child_ok s0); [done|done|lia|done| |done].
    intros c s1 (Hx1 & Hs1 & Ev1 & Hc & Hjc & Ec & Hmin). assert (pointwise_relation Z eq (heap_view s1) (heap_view s)) as Ev by exact Ev1.
    pose proof (sf_len _ _ Hs1). pose proof (sf_ranked_len _ _ Hs1) as En.
    wp_step. wp_call heap_precedes_ok; [done|lia|lia| |done]. intros less s2 [-> Hless].
    destruct (count_comparison_ok s1 Hx1) as [Hx2 Hs2]. pose proof (sifted_trans _ _ _ Hs1 Hs2) as Hs12.
    rewrite (rank_le_same s s1 (sf_ranks _ _ Hs1)), !Ev, (rank_le_same s0 s Hr) in Hless.
    destruct less; cbn [negb].
    + assert (~ rank_le s0 (heap_view s j) (heap_view s c)) as Hlt by by apply Hless.
      wp_step. wp_call swap_heap_ok; [done|cbn; lia|cbn; lia| |done]. intros _ s3 [Hx3 Hsw].
      assert (sifted s s3) as Hs3.
      { eapply sifted_trans; [exact Hs12|]. eapply swapped_sifted; [done|done|..|done]; cbn; lia. }
      assert (pointwise_relation Z eq (heap_view s3) (exchanged (heap_view s) j c)) as Ev3.
      { intros i. rewrite (sw_view _ _ _ _ Hsw). unfold exchanged. change (heap_view (count_comparison s1)) with (heap_view s1). by rewrite !Ev. }
      pose proof (sf_ranked_len _ _ Hs3) as En3.
      wp_call IH; [done|eapply same_ranks_trans; [exact Hr|apply Hs3]|lia|lia| |done].
      intros _ s4 (H4 & H5 & H6). split; [done|]. split; [by eapply sifted_trans|]. intros Ho.
      rewrite En3, Ev3 in H6. apply H6. apply down_step; try done; first [apply rank_le_trans|apply rank_le_total|lia].
    + wp_step. split; [done|]. split; [done|]. intros Ho. change (heap_view (count_comparison s1)) with (heap_view s1). rewrite Ev.
      eapply down_stop; [exact Ho|]. intros i Hi E. eapply rank_le_trans; [|by apply Hmin].
      destruct (decide (rank_le s0 (heap_view s j) (heap_view s c))) as [|Hn]; [done|]. by apply Hless in Hn.
Qed.
Lemma sift_down_from_ok s0 lo j s : index_ok s -> same_ranks s0 s -> 0 <= lo <= j ->
  total (sift_down_from j) s (fun _ s' => index_ok s' /\ sifted s s'
    /\ (ordered_above (rank_le s0) lo (ranked_len s) (heap_view s) j ->
        ordered_from (rank_le s0) lo (ranked_len s) (heap_view s'))).
Proof. intros Hx Hr Hj. unfold sift_down_from. wp_step. wp_step. apply sift_down_ok; [done..|lia]. Qed.
Lemma ranked_ok_from s0 s : same_ranks s0 s -> ordered_from (rank_le s0) 0 (ranked_len s) (heap_view s) -> ranked_ok s.
Proof. intros Hr H i Hi. eapply rank_le_same; [done|]. by apply ordered_from_0 in H; apply H. Qed.
Lemma ranked_ok_in s0 s : same_ranks s0 s -> ranked_ok s -> heap_ordered (rank_le s0) (ranked_len s) (heap_view s).
Proof. intros Hr H i Hi. unfold pair_ok. rewrite <- (rank_le_same s0 s Hr). by apply H. Qed.

(** Sifting up, then down, puts one misplaced entry in order. *)
Lemma repair_at_ok j s : index_ok s -> 0 <= j < ranked_len s ->
  total (position ← sift_up_from j; sift_down_from position) s (fun _ s' => index_ok s' /\ sifted s s'
    /\ (ordered_but (rank_le s) (ranked_len s) (heap_view s) j -> ranked_ok s')).
Proof.
  intros Hx Hj. wp_step. wp_call (sift_up_ok s); [done|done|done|done| |done].
  intros p s1 (Hx1 & Hs1 & Hp & Ho1). wp_call (sift_down_from_ok s 0); [done|apply Hs1|lia| |done].
  intros _ s2 (Hx2 & Hs2 & Ho2). split; [done|]. split; [by eapply sifted_trans|].
  intros Ho. apply Ho1 in Ho as [Ho _]. rewrite (sf_ranked_len _ _ Hs1) in Ho2.
  eapply ranked_ok_from; [by eapply same_ranks_trans; [apply Hs1|apply Hs2]|].
  rewrite (sf_ranked_len _ _ Hs2), (sf_ranked_len _ _ Hs1). by apply Ho2.
Qed.
Lemma repair_piece_ok piece s : index_ok s ->
  total (repair_piece piece) s (fun _ s' => index_ok s' /\ sifted s s' /\
    (forall j, nth_get (positions s) piece = Some j -> j < ranked_len s ->
       ordered_but (rank_le s) (ranked_len s) (heap_view s) j -> ranked_ok s')
    /\ ((forall j, nth_get (positions s) piece = Some j -> ranked_len s <= j) -> s' = s)).
Proof.
  intros Hx. unfold repair_piece. wp_step. wp_step.
  destruct (nth_get (positions s) piece) as [j|] eqn:E; [destruct (_ || _) eqn:Heqb|]; [wp_step| |wp_step].
  - split; [done|split; [apply sifted_refl|]]. split; [|done]. intros j' [= <-] Hlt. exfalso.
    apply orb_true_iff in Heqb as [H|H]; apply Z.leb_le in H; [|lia].
    pose proof (ix_ranked _ Hx). pose proof (heap_len s Hx). pose proof (ix_size _ Hx). lia.
  - apply orb_false_iff in Heqb as [H1 H2]. apply Z.leb_gt in H1, H2.
    pose proof (ix_positions _ Hx _ _ E H1) as Hg. apply nth_get_lt in Hg.
    wp_call repair_at_ok; [done|lia| |done]. intros _ s' (A & B & C). split; [done|split; [done|]]. split.
    + intros j' [= <-] _. apply C.
    + intros Hn. specialize (Hn j eq_refl). lia.
  - split; [done|split; [apply sifted_refl|]]. split; [done|done].
Qed.

(** ** Rebuilding *)
Lemma write_positions_ok pieces : forall i s, index_ok s -> 0 <= i ->
  (forall k p, nth_get pieces k = Some p -> nth_get (heap s) (i + k) = Some p) ->
  total (write_positions pieces i) s (fun _ s' => s' = s).
Proof.
  induction pieces as [|p r IH]; intros i s Hx Hi Hg; cbn [write_positions]; [by wp_step|].
  assert (nth_get (heap s) i = Some p) as Hp by (rewrite <- (Z.add_0_r i); by apply Hg).
  pose proof (ix_heap _ Hx _ _ Hp) as Hpos. wp_step. wp_call write_position_ok; [by eapply nth_get_lt| |done].
  intros _ s1 ->. pose proof (nth_get_lt _ _ _ Hpos). rewrite list_insert_id by (rewrite <- nth_get_lookup by lia; done).
  replace (set_positions (positions s) s) with s by (by destruct s).
  apply IH; [done|lia|]. intros k q Hk. pose proof (nth_get_lt _ _ _ Hk). replace (i + 1 + k) with (i + (k + 1)) by lia.
  apply Hg. rewrite nth_get_lookup in Hk |- * by lia. by replace (Z.to_nat (k + 1)) with (S (Z.to_nat k)) by lia.
Qed.
Lemma heapify_ok s0 n : forall s, index_ok s -> same_ranks s0 s ->
  total (heapify n) s (fun _ s' => index_ok s' /\ sifted s s'
    /\ (ordered_from (rank_le s0) (Z.of_nat n) (ranked_len s) (heap_view s) ->
        ordered_from (rank_le s0) 0 (ranked_len s) (heap_view s'))).
Proof.
  induction n as [|m IH]; intros s Hx Hr; cbn [heapify]; wp_step; [split; [done|split; [apply sifted_refl|done]]|].
  wp_call (sift_down_from_ok s0 (Z.of_nat m)); [done|done|lia| |done]. intros _ s1 (Hx1 & Hs1 & Ho1).
  wp_call IH; [done|by eapply same_ranks_trans; [|apply Hs1]| |done]. intros _ s2 (Hx2 & Hs2 & Ho2).
  split; [done|]. split; [by eapply sifted_trans|]. intros Ho. rewrite (sf_ranked_len _ _ Hs1) in Ho2. apply Ho2, Ho1.
  apply above_of_from. by replace (Z.of_nat m + 1) with (Z.of_nat (S m)) by lia.
Qed.

(** What a rebuild leaves: every piece of the heap is ranked. *)
Record rebuilt (s s' : AvailabilityPicker) : Prop := {
  rb_index : index_ok s';
  rb_order : ranked_ok s';
  rb_ranks : same_ranks s s';
  rb_states : same_states s s';
  rb_all : ranked_len s' = len (heap s');
  rb_heap p : is_ranked s' p <-> in_heap s p;
  rb_changed : eligibility_changed s' = false;
}.
Lemma rebuild_heap_ok b s : index_ok s -> total (rebuild_heap b) s (fun _ s' => rebuilt s s').
Proof.
  intros Hx. unfold rebuild_heap. wp_step.
  set (s1 := if b then count_bulk s else s).
  assert (wp (if b then modify count_bulk else mret tt : method unit) s (fun _ s' => s' = s1) (fun _ _ => False)) as H1 by (by destruct b; subst s1).
  wp_call H1; [|done]. intros _ ? ->. repeat wp_step. set (s2 := set_changed false (set_ranked (len (heap s1)) s1)).
  assert (index_ok s2) as Hx2.
  { destruct Hx as [A1 A2 A3 A4 A5 A6 A7 A8]. pose proof (len_nonneg (heap s)). subst s2 s1. destruct b; split; cbn; try done; lia. }
  assert (same_ranks s s2 /\ same_states s s2 /\ heap s2 = heap s /\ ranked_len s2 = len (heap s)) as (Hr2 & Hst2 & Hh2 & Hn2)
    by (subst s2 s1; by destruct b).
  wp_call write_positions_ok; [done|done|done| |done]. intros _ ? ->.
  assert (forall s', index_ok s' -> sifted s2 s' -> ordered_from (rank_le s2) 0 (ranked_len s2) (heap_view s') -> rebuilt s s') as Hend.
  { intros s' Hx' Hs' Ho. split; try done.
    - eapply ranked_ok_from; [apply Hs'|]. by rewrite (sf_ranked_len _ _ Hs').
    - eapply same_ranks_trans; [done|apply Hs'].
    - eapply same_states_trans; [done|apply Hs'].
    - rewrite (sf_ranked_len _ _ Hs'), (sf_len _ _ Hs'). by rewrite Hh2.
    - intros p. rewrite (sf_ranked _ _ Hs'). unfold is_ranked, in_heap. rewrite Hh2, Hn2. split; [intros (i & _ & E); by exists i|].
      intros [i E]. exists i. split; [apply nth_get_lt in E; lia|done].
    - rewrite (sf_changed _ _ Hs'). done. }
  destruct (Z.ltb_spec (ranked_len s2) 2) as [Hlt|Hge].
  - wp_step. apply Hend; [done|apply sifted_refl|]. apply ordered_from_0. intros i Hi.
    assert (i = 1 \/ i <> 1) as [->|] by lia; lia.
  - wp_call (heapify_ok s2); [done|done| |done]. intros _ s' (Hx' & Hs' & Ho). apply Hend; [done|done|]. apply Ho.
    intros i Hi Hp. exfalso. rewrite Z2Nat.id in Hp by (apply Z.div_pos; lia). unfold parent in Hp. divlia.
Qed.

(** ** Leaving and entering the heap *)

(** The pieces of [s'] are those of [s] but [x], which now has state [v]. *)
Record left_heap (x v : Z) (s s' : AvailabilityPicker) : Prop := {
  lh_index : index_ok s';
  lh_ranks : same_ranks s s';
  lh_changed : eligibility_changed s' = eligibility_changed s;
  lh_len : len (positions s') = len (positions s);
  lh_heap q : in_heap s' q <-> in_heap s q /\ q <> x;
  lh_states q w : POSITION_DETACHED <= w ->
    nth_get (positions s') q = Some w <-> if bool_decide (q = x) then w = v else nth_get (positions s) q = Some w;
}.
Lemma pop_snoc (s : AvailabilityPicker) k x : heap s = k ++ [x] ->
  total pop_heap s (fun y s' => y = x /\ s' = set_heap k s).
Proof.
  intros E. unfold pop_heap. repeat wp_step. rewrite E, last_snoc. cbn [expect]. repeat wp_step.
  by rewrite removelast_last.
Qed.
Lemma nth_get_snoc (k : list Z) x i : nth_get (k ++ [x]) i = if i =? len k then Some x else nth_get k i.
Proof.
  destruct (Z.eqb_spec i (len k)) as [->|Hne]; [by apply nth_get_app_len|]. destruct (Z.ltb_spec i (len k)).
  - by apply nth_get_app_l.
  - rewrite !nth_get_ge; [done|lia|]. rewrite len_snoc. lia.
Qed.
Lemma snoc_of (l : list Z) : 0 < len l -> exists k x, l = k ++ [x] /\ len k = len l - 1.
Proof.
  intros H. destruct l as [|a l _] using rev_ind; [unfold len in H; cbn in H; lia|]. exists l, a. split; [done|].
  rewrite len_snoc. lia.
Qed.

(** Dropping the last piece of the heap. *)
Lemma drop_last_ok s k x v : index_ok s -> heap s = k ++ [x] -> ranked_len s <= len k -> POSITION_DETACHED <= v ->
  let s' := set_positions (<[Z.to_nat x := v]> (positions s)) (set_heap k s) in
  left_heap x v s s'.
Proof.
  intros Hx E Hn Hv s'. pose proof (heap_len s Hx) as Hlen. pose proof (ix_size _ Hx) as Hsz.
  assert (nth_get (heap s) (len k) = Some x) as Hlast by (rewrite E; by apply nth_get_app_len).
  destruct (heap_piece s _ _ Hx Hlast) as [Hxr _].
  assert (forall i p, nth_get k i = Some p -> nth_get (heap s) i = Some p /\ p <> x) as Hk.
  { intros i p Hi. pose proof (nth_get_lt _ _ _ Hi). assert (nth_get (heap s) i = Some p) as H'.
    { rewrite E, nth_get_app_l by lia. done. }
    split; [done|]. intros ->. pose proof (heap_injective s i (len k) x Hx H' Hlast). lia. }
  assert (forall p, 0 <= p -> nth_get (positions s') p = if bool_decide (p = x) then Some v else nth_get (positions s) p) as Hps.
  { intros p Hp. cbn. by rewrite nth_get_insert. }
  assert (len (positions s') = len (positions s)) as El by (cbn; by rewrite len_insert).
  split; try done.
  - split; rewrite ?El; try apply Hx.
    + intros i p Hi. destruct (Hk i p Hi) as [H1 H2]. pose proof (heap_piece s i p Hx H1).
      rewrite Hps, bool_decide_false by (done || lia). by apply Hx.
    + intros p w Hw Hlt. pose proof (nth_get_lt _ _ _ Hw). rewrite Hps in Hw by lia. case_bool_decide as Epx; [injection Hw; lia|].
      pose proof (ix_positions _ Hx _ _ Hw Hlt) as Hg. cbn. rewrite E, nth_get_snoc in Hg.
      destruct (Z.eqb_spec w (len k)); [congruence|done].
    + pose proof (ix_ranked _ Hx). cbn. lia.
  - intros q. unfold in_heap. cbn. split.
    + intros [i Hi]. destruct (Hk i q Hi). split; [by exists i|done].
    + intros [[i Hi] Hq]. exists i. rewrite E, nth_get_snoc in Hi. destruct (Z.eqb_spec i (len k)); [congruence|done].
  - intros q w Hw. destruct (Z.leb_spec 0 q).
    + rewrite Hps by done. case_bool_decide; [split; [by intros [= <-]|by intros ->]|done].
    + rewrite bool_decide_false by lia. unfold nth_get. by rewrite (proj2 (Z.leb_gt _ _)).
Qed.
Lemma same_states_in_heap s s' : index_ok s -> index_ok s' -> same_states s s' -> forall q, in_heap s' q <-> in_heap s q.
Proof.
  intros Hx Hx' [El Hs] q. rewrite !in_heap_position by done.
  assert (forall l k : list Z, len k = len l ->
    (forall v, POSITION_DETACHED <= v -> nth_get k q = Some v <-> nth_get l q = Some v) ->
    (exists v, nth_get k q = Some v /\ v < POSITION_DETACHED) -> exists v, nth_get l q = Some v /\ v < POSITION_DETACHED) as Hgo.
  { intros l k E H (v & Hv & Hlt). pose proof (nth_get_lt _ _ _ Hv). destruct (nth_get_is_Some l q ltac:(lia)) as [w Hw].
    exists w. split; [done|]. destruct (Z.ltb_spec w POSITION_DETACHED); [done|]. apply H in Hw; [|done]. congruence. }
  split; apply Hgo; [done|by apply Hs|done|]. intros v Hv. symmetry. by apply Hs.
Qed.
Lemma left_heap_after x v s s1 s' : same_ranks s s1 -> same_states s s1 -> eligibility_changed s1 = eligibility_changed s ->
  (forall q, in_heap s1 q <-> in_heap s q) -> left_heap x v s1 s' -> left_heap x v s s'.
Proof.
  intros Hr [El Hs] He Hq [H1 H2 H3 H4 H5 H6]. split; try congruence.
  - by eapply same_ranks_trans.
  - intros q. by rewrite H5, Hq.
  - intros q w Hw. rewrite H6 by done. case_bool_decide; [done|by apply Hs].
Qed.

Lemma drop_at_ok i x v s : index_ok s -> ranked_len s <= i -> nth_get (heap s) i = Some x -> POSITION_DETACHED <= v ->
  total (drop_at i x v) s (fun _ s' => left_heap x v s s' /\ ranked_len s' = ranked_len s
    /\ len (heap s') = len (heap s) - 1
    /\ (forall k, k < ranked_len s -> nth_get (heap s') k = nth_get (heap s) k)).
Proof.
  intros Hx Hn Hi Hv. pose proof (nth_get_lt _ _ _ Hi) as Hir. pose proof (ix_ranked _ Hx) as Hrl.
  unfold drop_at. wp_step. wp_step. wp_step.
  rewrite (proj2 (checked_sub_Some _ _ _)) by (split; [done|lia]). cbn [expect]. wp_step.
  wp_step. wp_call swap_heap_ok; [done|lia|lia| |done]. intros _ s1 [Hx1 Hs1].
  pose proof (sw_len _ _ _ _ Hs1) as El. pose proof (sw_ranked_len _ _ _ _ Hs1) as En.
  destruct (snoc_of (heap s1) ltac:(lia)) as (k & y & E & Ek).
  assert (y = x) as ->.
  { assert (nth_get (heap s1) (len (heap s) - 1) = Some y) as H' by (rewrite E, <- El, <- Ek; by apply nth_get_app_len).
    rewrite (sw_get _ _ _ _ Hs1) in H' by lia. destruct (Z.eqb_spec (len (heap s) - 1) i) as [E'|]; [congruence|].
    rewrite Z.eqb_refl in H'. congruence. }
  wp_step. wp_call pop_snoc; [done| |done]. intros ? ? [-> ->]. unfold assert. rewrite Z.eqb_refl. wp_step. wp_step.
  assert (nth_get (heap s1) (len k) = Some x) as Hlast by (rewrite E; by apply nth_get_app_len).
  wp_call write_position_ok; [by apply (heap_piece s1 _ _ Hx1 Hlast)| |done]. intros _ ? ->.
  split; [|split; [done|split; [cbn; lia|]]].
  - apply (left_heap_after x v s s1); [apply Hs1|apply Hs1|apply Hs1|apply same_states_in_heap; [done|done|apply Hs1]|]. by apply (drop_last_ok s1); [..|lia|].
  - intros j Hj. cbn. destruct (Z.leb_spec 0 j); [|unfold nth_get; by rewrite (proj2 (Z.leb_gt _ _))].
    transitivity (nth_get (heap s1) j); [rewrite E, nth_get_app_l; [done|lia]|]. rewrite (sw_get _ _ _ _ Hs1) by done.
    rewrite (proj2 (Z.eqb_neq _ _)), (proj2 (Z.eqb_neq _ _)) by lia. done.
Qed.

(** A ranked piece moves behind the ranked part. *)
Record swapped_out (j : Z) (s s' : AvailabilityPicker) : Prop := {
  so_index : index_ok s';
  so_ranks : same_ranks s s';
  so_states : same_states s s';
  so_changed : eligibility_changed s' = eligibility_changed s;
  so_ranked_len : ranked_len s' = ranked_len s - 1;
  so_len : len (heap s') = len (heap s);
  so_out : nth_get (heap s') (ranked_len s') = Some (heap_view s j);
  so_ranked p : is_ranked s' p <-> is_ranked s p /\ p <> heap_view s j;
}.
Lemma swap_out_ok j s : index_ok s -> 0 <= j < ranked_len s ->
  total (swap_heap j (ranked_len s - 1);; modify (set_ranked (ranked_len s - 1))) s
    (fun _ s' => swapped_out j s s' /\ (ranked_ok s -> j < ranked_len s' ->
       ordered_but (rank_le s') (ranked_len s') (heap_view s') j)
       /\ (ranked_ok s -> ranked_len s' <= j -> ranked_ok s')).
Proof.
  intros Hx Hj. pose proof (ix_ranked _ Hx) as Hrl. set (m := ranked_len s - 1).
  wp_step. wp_call swap_heap_ok; [done|lia|lia| |done]. intros _ s1 [Hx1 Hs1]. wp_step.
  pose proof (sw_len _ _ _ _ Hs1) as El. pose proof (sw_ranked_len _ _ _ _ Hs1) as En.
  assert (sifted s s1) as Hsf by (eapply swapped_sifted; [done|done| |..|exact Hs1]; lia).
  set (s' := set_ranked m s1).
  assert (index_ok s') as Hx' by (destruct Hx1 as [H1 H2 H3 H4 H5 H6 H7 H8]; split; try done; cbn; lia).
  assert (nth_get (heap s1) m = Some (heap_view s j)) as Hm.
  { rewrite (sw_get _ _ _ _ Hs1) by lia. destruct (Z.eqb_spec m j) as [->|]; [|rewrite Z.eqb_refl]; apply view_get; lia. }
  assert (same_ranks s s') as Hr by (destruct (sf_ranks _ _ Hsf); by split).
  split; [split; try done|].
  - apply (sf_states _ _ Hsf).
  - apply (sf_changed _ _ Hsf).
  - intros p. rewrite <- (sf_ranked _ _ Hsf). unfold is_ranked. cbn. split.
    + intros (i & Hi & E). split; [exists i; split; [lia|done]|]. intros ->.
      pose proof (heap_injective s1 i m _ Hx1 E Hm). lia.
    + intros [(i & Hi & E) Hp]. exists i. split; [|done]. assert (i <> m) by (intros ->; congruence). lia.
  - assert (forall i, 0 <= i < m -> i <> j -> heap_view s' i = heap_view s i) as Ev.
    { intros i Hi Hij. change (heap_view s' i) with (heap_view s1 i). rewrite (sw_view _ _ _ _ Hs1).
      apply exchanged_ne; [done|lia]. }
    assert (forall i, 0 < i < ranked_len s -> ranked_ok s -> pair_ok (rank_le s') (heap_view s) i) as Ho'.
    { intros i Hi Ho. unfold pair_ok. rewrite (rank_le_same s s' Hr). by apply Ho. }
    split.
    + intros Ho Hlt. apply (ordered_but_changed _ (rank_le_trans s') m (heap_view s)); [|cbn in *; lia|done].
      intros i Hi. apply Ho'; [lia|done].
    + intros Ho Hlt i Hi. cbn in Hlt, Hi. pose proof (parent_bounds i ltac:(lia)). unfold pair_ok.
      rewrite !Ev by lia. apply Ho'; [lia|done].
Qed.
Lemma swapped_out_after j s s1 s2 : swapped_out j s s1 -> index_ok s2 -> sifted s1 s2 -> swapped_out j s s2.
Proof.
  intros [H1 H2 H3 H4 H5 H6 H7 H8] Hx [A1 A2 A3 A4 A5 A6 A7]. split; try done; try congruence.
  - by eapply same_ranks_trans.
  - by eapply same_states_trans.
  - rewrite A4. rewrite A6 by lia. done.
  - intros p. by rewrite A7.
Qed.


Lemma wp_seq {A B C} (m : method A) (n : method B) (k : B -> method C) s Q R :
  wp (m ≫= fun _ => n) s (fun b s' => wp (k b) s' Q R) R -> wp (m ≫= fun _ => n ≫= k) s Q R.
Proof. unfold wp, mbind, M_bind. destruct (m s) as [s1 [a|e| |]]; try done. destruct (n s1) as [s2 [b|e| |]]; done. Qed.

Lemma shrink_root_ok s : index_ok s -> 0 < ranked_len s ->
  total shrink_root s (fun _ s' => swapped_out 0 s s' /\ (ranked_ok s -> ranked_ok s')).
Proof.
  intros Hx Hn. unfold shrink_root. wp_step. wp_step. wp_step.
  rewrite (proj2 (checked_sub_Some _ _ _)) by (split; [done|lia]). cbn [expect]. wp_step.
  apply wp_seq. wp_call swap_out_ok; [done|lia| |done]. intros _ s1 [Hs1 [Ho1 _]].
  pose proof (so_ranked_len _ _ _ Hs1) as En. rewrite <- En.
  destruct (Z.eqb_spec (ranked_len s1) 0) as [E|E]; cbn [negb].
  - wp_step. split; [done|]. intros _ i Hi. lia.
  - wp_call (sift_down_from_ok s1 0); [apply Hs1|done|lia| |done]. intros _ s2 (Hx2 & Hs2 & Ho2).
    split; [by eapply swapped_out_after|]. intros Ho. eapply ranked_ok_from; [apply Hs2|].
    rewrite (sf_ranked_len _ _ Hs2). apply Ho2. apply up_stop; [|by left]. apply Ho1; [done|].
    pose proof (ix_ranked _ (so_index _ _ _ Hs1)). lia.
Qed.
(** Both parts together: a ranked piece leaves the heap. *)
Lemma left_ranked x v j s s1 s' : heap_view s j = x -> swapped_out j s s1 -> index_ok s -> left_heap x v s1 s' ->
  ranked_len s' = ranked_len s1 -> (forall k, k < ranked_len s1 -> nth_get (heap s') k = nth_get (heap s1) k) ->
  0 <= j < ranked_len s ->
  left_heap x v s s' /\ (forall q, is_ranked s' q <-> is_ranked s q /\ q <> x) /\ (ranked_ok s1 -> ranked_ok s').
Proof.
  intros Ej Hs1 Hx Hl En Hk Hj. split; [|split].
  - apply (left_heap_after x v s s1); try apply Hs1; [|done]. apply same_states_in_heap; [done|apply Hs1..].
  - intros q. rewrite <- Ej, <- (so_ranked _ _ _ Hs1). unfold is_ranked. rewrite En.
    split; intros (i & Hi & E); exists i; (split; [done|]); [rewrite <- Hk|rewrite Hk]; done.
  - intros Ho i Hi. rewrite En in Hi. unfold pair_ok, heap_view. pose proof (parent_bounds i ltac:(lia)).
    rewrite !Hk by lia. apply (rank_le_same s1 s' (lh_ranks _ _ _ _ Hl)). by apply Ho.
Qed.
Lemma remove_ranked_root_ok v s : index_ok s -> 0 < ranked_len s -> POSITION_DETACHED <= v ->
  total (remove_ranked_root v) s (fun x s' => x = heap_view s 0 /\ left_heap x v s s'
    /\ (forall q, is_ranked s' q <-> is_ranked s q /\ q <> x) /\ (ranked_ok s -> ranked_ok s')).
Proof.
  intros Hx Hn Hv. unfold remove_ranked_root. wp_step. wp_step. wp_step. apply wp_assert; [apply negb_true_iff, Z.eqb_neq; lia|]. wp_step. pose proof (ix_ranked _ Hx) as Hrl.
  unfold index. rewrite (view_get s 0) by lia. cbn [expect]. wp_step. wp_step.
  wp_call shrink_root_ok; [done|done| |done]. intros _ s1 [Hs1 Ho1]. wp_step. wp_step. wp_step.
  wp_call drop_at_ok; [apply Hs1|lia|exact (so_out _ _ _ Hs1)|done| |done]. intros _ s2 (Hl & En & _ & Hk). wp_step.
  destruct (left_ranked (heap_view s 0) v 0 s s1 s2) as (A & B & C); try done.
  split; [done|]. split; [done|]. split; [done|]. intros Ho. by apply C, Ho1.
Qed.
Lemma defer_ranked_root_ok s : index_ok s -> 0 < ranked_len s ->
  total defer_ranked_root s (fun _ s' => swapped_out 0 s s' /\ (ranked_ok s -> ranked_ok s')).
Proof.
  intros Hx Hn. unfold defer_ranked_root. wp_step. wp_step. wp_step. apply wp_assert; [apply negb_true_iff, Z.eqb_neq; lia|]. by apply shrink_root_ok.
Qed.
Lemma remove_at_ok j x v s : index_ok s -> nth_get (heap s) j = Some x -> POSITION_DETACHED <= v ->
  total (remove_at j v) s (fun _ s' => left_heap x v s s' /\ (ranked_ok s -> ranked_ok s')).
Proof.
  intros Hx Hj Hv. pose proof (nth_get_lt _ _ _ Hj) as Hjr. unfold remove_at. wp_step. wp_step. wp_step.
  unfold index. rewrite Hj. cbn [expect]. wp_step. destruct (Z.leb_spec (ranked_len s) j) as [Hge|Hlt].
  - wp_call drop_at_ok; [done|done|done|done| |done]. intros _ s' (Hl & En & _ & Hk). split; [done|].
    intros Ho i Hi. rewrite En in Hi. unfold pair_ok, heap_view. pose proof (parent_bounds i ltac:(lia)).
    rewrite !Hk by lia. apply (rank_le_same s s' (lh_ranks _ _ _ _ Hl)). by apply Ho.
  - apply wp_seq. wp_call swap_out_ok; [done|lia| |done]. intros _ s1 [Hs1 [Ho1 Ho1']].
    pose proof (so_ranked_len _ _ _ Hs1) as En. rewrite <- En. wp_step.
    assert (total (if j <? ranked_len s1 then repaired ← sift_up_from j; sift_down_from repaired else mret tt) s1
      (fun _ s2 => swapped_out j s s2 /\ (ranked_ok s -> ranked_ok s2))) as Hrep.
    { destruct (Z.ltb_spec j (ranked_len s1)).
      - wp_call repair_at_ok; [apply Hs1|lia| |done]. intros _ s2 (Hx2 & Hs2 & Ho2).
        split; [by eapply swapped_out_after|]. intros Ho. apply Ho2, Ho1; done.
      - wp_step. split; [done|]. intros Ho. by apply Ho1'. }
    wp_call Hrep; [|done]. intros _ s2 [Hs2 Ho2].
    replace (ranked_len s1) with (ranked_len s2) by (rewrite (so_ranked_len _ _ _ Hs2); lia).
    pose proof (so_out _ _ _ Hs2) as Hout. rewrite (view_at s j x Hj) in Hout.
    wp_call drop_at_ok; [apply Hs2|lia|done|done| |done]. intros _ s' (Hl & En' & _ & Hk).
    destruct (left_ranked x v j s s2 s') as (A & B & C); try done; [by apply view_at|lia|].
    split; [done|]. intros Ho. by apply C, Ho2.
Qed.

(** The pieces of [s'] are those of [s] and [x], which is ranked. *)
Record entered_heap (x : Z) (s s' : AvailabilityPicker) : Prop := {
  eh_index : index_ok s';
  eh_ranks : same_ranks s s';
  eh_changed : eligibility_changed s' = eligibility_changed s;
  eh_len : len (positions s') = len (positions s);
  eh_heap q : in_heap s' q <-> in_heap s q \/ q = x;
  eh_ranked q : is_ranked s' q <-> is_ranked s q \/ q = x;
  eh_states q w : POSITION_DETACHED <= w ->
    nth_get (positions s') q = Some w <-> q <> x /\ nth_get (positions s) q = Some w;
}.
(** The piece is appended, with its position. *)
Lemma append_ok x s : index_ok s -> nth_get (positions s) x = Some POSITION_DETACHED ->
  let s' := set_positions (<[Z.to_nat x := len (heap s)]> (positions s)) (set_heap (heap s ++ [x]) s) in
  index_ok s' /\ len (heap s) + 1 <= len (positions s)
  /\ forall p, 0 <= p -> nth_get (positions s') p = if bool_decide (p = x) then Some (len (heap s)) else nth_get (positions s) p.
Proof.
  intros Hx Hd s'. pose proof (nth_get_lt _ _ _ Hd) as Hxr. pose proof (ix_size _ Hx) as Hsz.
  assert (forall p, 0 <= p -> nth_get (positions s') p = if bool_decide (p = x) then Some (len (heap s)) else nth_get (positions s) p) as Hps.
  { intros p Hp. cbn. by rewrite nth_get_insert. }
  assert (len (positions s') = len (positions s)) as El by (cbn; by rewrite len_insert).
  assert (index_ok s') as Hx'.
  { split; rewrite ?El; try apply Hx.
    - intros i p Hi. cbn in Hi. rewrite nth_get_snoc in Hi. destruct (Z.eqb_spec i (len (heap s))) as [->|].
      + injection Hi as <-. rewrite Hps by lia. by rewrite bool_decide_true.
      + pose proof (heap_piece s i p Hx Hi). rewrite Hps by lia. apply (ix_heap _ Hx) in Hi.
        rewrite bool_decide_false; [done|]. intros ->. rewrite Hd in Hi. injection Hi as <-.
        pose proof (heap_len s Hx). lia.
    - intros p v Hv Hlt. pose proof (nth_get_lt _ _ _ Hv). rewrite Hps in Hv by lia. cbn. rewrite nth_get_snoc.
      case_bool_decide; [injection Hv as <-; rewrite Z.eqb_refl; by subst|].
      pose proof (ix_positions _ Hx _ _ Hv Hlt) as Hg. pose proof (nth_get_lt _ _ _ Hg).
      by rewrite (proj2 (Z.eqb_neq _ _)) by lia.
    - pose proof (ix_ranked _ Hx). cbn. rewrite len_snoc. lia. }
  split; [done|]. split; [|done]. pose proof (heap_len s' Hx') as H. cbn in H. rewrite len_snoc, len_insert in H. done.
Qed.
Lemma push_detached_ok x s : index_ok s -> nth_get (positions s) x = Some POSITION_DETACHED ->
  total (push_detached x) s (fun _ s' => entered_heap x s s' /\ (ranked_ok s -> ranked_ok s')).
Proof.
  intros Hx Hd. pose proof (nth_get_lt _ _ _ Hd) as Hxr. destruct (append_ok x s Hx Hd) as (Hx1 & Hlen & Hps).
  set (s1 := set_positions _ (set_heap (heap s ++ [x]) s)) in *. pose proof (ix_ranked _ Hx) as Hrl.
  pose proof (ix_size _ Hx) as Hsz. assert (len (heap s1) = len (heap s) + 1) as El1 by (cbn; by rewrite len_snoc).
  unfold push_detached. wp_step. wp_step. wp_step. unfold index. rewrite Hd. cbn [expect]. wp_step. wp_step.
  apply wp_assert; [by apply Z.eqb_eq|]. wp_step. wp_step. wp_step.
  wp_call write_position_ok; [done| |done]. intros _ ? ->.
  change (set_positions (<[Z.to_nat x := len (heap s)]> (positions (set_heap (heap s ++ [x]) s))) (set_heap (heap s ++ [x]) s)) with s1. wp_step.
  wp_call swap_heap_ok; [done|cbn; rewrite len_snoc; lia|cbn; rewrite len_snoc; lia| |done]. intros _ s2 [Hx2 Hs2].
  wp_step. wp_step.
  pose proof (sw_ranked_len _ _ _ _ Hs2) as En2. pose proof (sw_len _ _ _ _ Hs2) as El2.
  change (ranked_len s1) with (ranked_len s) in En2. set (m := ranked_len s) in *. rewrite En2. set (s3 := set_ranked (m + 1) s2).
  assert (index_ok s3) as Hx3.
  { destruct Hx2 as [H1 H2 H3 H4 H5 H6 H7 H8]. split; try done. cbn. lia. }
  assert (same_ranks s s3) as Hr3 by (destruct (sw_ranks _ _ _ _ Hs2); by split).
  assert (forall i, 0 <= i -> nth_get (heap s3) i = if i =? m then Some x else
            if i =? len (heap s) then nth_get (heap s1) m else nth_get (heap s1) i) as Hg3.
  { intros i Hi. change (heap s3) with (heap s2). rewrite (sw_get _ _ _ _ Hs2) by done.
    destruct (Z.eqb_spec i m); [cbn; apply nth_get_app_len|]. by destruct (i =? len (heap s)). }
  wp_step. wp_call (sift_up_ok s3); [done|done|cbn; lia|done| |done].
  intros p s4 (Hx4 & Hs4 & _ & Ho4). wp_step. change (m + 1) with (ranked_len s3).
  assert (forall i, 0 <= i < m -> nth_get (heap s3) i = nth_get (heap s) i) as Hlow.
  { intros i Hi. rewrite Hg3 by lia.
    rewrite (proj2 (Z.eqb_neq i m)), (proj2 (Z.eqb_neq i (len (heap s)))) by lia.
    cbn. apply nth_get_app_l. lia. }
  assert (forall q, is_ranked s4 q <-> is_ranked s q \/ q = x) as Hrk.
  { intros q. rewrite (sf_ranked _ _ Hs4). unfold is_ranked. change (ranked_len s3) with (m + 1). split.
    - intros (i & Hi & E). pose proof (nth_get_lt _ _ _ E). destruct (Z.eq_dec i m) as [->|].
      + rewrite Hg3, Z.eqb_refl in E by lia. injection E as ->. by right.
      + left. exists i. rewrite <- Hlow by lia. split; [lia|done].
    - intros [(i & Hi & E)| ->].
      + exists i. pose proof (nth_get_lt _ _ _ E). rewrite Hlow by lia. split; [lia|done].
      + exists m. rewrite Hg3 by lia. rewrite Z.eqb_refl. split; [lia|done]. }
  assert (forall q w, POSITION_DETACHED <= w ->
    nth_get (positions s4) q = Some w <-> q <> x /\ nth_get (positions s) q = Some w) as Hst.
  { intros q w Hw. destruct (sf_states _ _ Hs4) as [_ H4]. rewrite H4 by done. change (positions s3) with (positions s2).
    destruct (sw_states _ _ _ _ Hs2) as [_ H2]. rewrite H2 by done. destruct (Z.leb_spec 0 q).
    - rewrite Hps by done. case_bool_decide; [|tauto]. split; [intros [= <-]; lia|tauto].
    - unfold nth_get. rewrite (proj2 (Z.leb_gt _ _)) by done. split; [done|]. by intros []. }
  assert (len (positions s4) = len (positions s)) as Elp.
  { rewrite (proj1 (sf_states _ _ Hs4)). change (positions s3) with (positions s2). rewrite (proj1 (sw_states _ _ _ _ Hs2)).
    cbn. apply len_insert. }
  split; [split; try done|].
  - eapply same_ranks_trans; [done|apply Hs4].
  - rewrite (sf_changed _ _ Hs4). change (eligibility_changed s3) with (eligibility_changed s2). by rewrite (sw_changed _ _ _ _ Hs2).
  - intros q. rewrite !in_heap_position by done. split.
    + intros (v & Hv & Hlt). destruct (decide (q = x)) as [->|Hq]; [by right|]. left. pose proof (nth_get_lt _ _ _ Hv).
      destruct (nth_get_is_Some (positions s) q ltac:(lia)) as [w Hw]. exists w. split; [done|].
      destruct (Z.ltb_spec w POSITION_DETACHED); [done|]. assert (nth_get (positions s4) q = Some w) by (by apply Hst). congruence.
    + intros Hq. assert (0 <= q < len (positions s)) by (destruct Hq as [(v & Hv & _)| ->]; [by eapply nth_get_lt|done]).
      destruct (nth_get_is_Some (positions s4) q ltac:(lia)) as [w Hw]. exists w. split; [done|].
      destruct (Z.ltb_spec w POSITION_DETACHED); [done|]. apply Hst in Hw as [Hne Hw]; [|done].
      destruct Hq as [(v & Hv & Hlt)| ->]; [|done]. rewrite Hv in Hw. injection Hw as ->. lia.
  - intros Ho. apply Ho4.
    + split.
      * intros i Hi Him _. cbn in Hi. pose proof (parent_bounds i ltac:(lia)). unfold pair_ok, heap_view. rewrite !Hlow by lia.
        apply (rank_le_same s s3 Hr3). apply Ho. fold m. lia.
      * intros i Hi E Hm _. cbn in Hi. apply children_of in E; lia.
    + intros i Hi E. cbn in Hi. apply children_of in E; lia.
Qed.

(** ** Counting wanted pieces *)
Lemma wanted_count_cons v l : wanted_count (v :: l) = (if v =? POSITION_UNWANTED then 0 else 1) + wanted_count l.
Proof.
  unfold wanted_count. rewrite filter_cons. destruct (Z.eqb_spec v POSITION_UNWANTED).
  - by rewrite decide_False by (intros H; by apply H).
  - rewrite decide_True by done. by rewrite len_cons.
Qed.
Lemma wanted_count_ext l : forall k, len l = len k ->
  (forall i, nth_get l i = Some POSITION_UNWANTED <-> nth_get k i = Some POSITION_UNWANTED) -> wanted_count l = wanted_count k.
Proof.
  induction l as [|v l IH]; intros [|w k]; try done. rewrite !len_cons, !wanted_count_cons. intros El H.
  rewrite (IH k); [f_equal| lia|].
  - specialize (H 0). rewrite !nth_get_cons in H. cbn in H.
    destruct (Z.eqb_spec v POSITION_UNWANTED) as [->|Hv], (Z.eqb_spec w POSITION_UNWANTED) as [->|Hw]; try done.
    + exfalso. apply Hw. destruct H as [H _]. by injection (H eq_refl).
    + exfalso. apply Hv. destruct H as [_ H]. by injection (H eq_refl).
  - intros i. destruct (Z.leb_spec 0 i).
    + specialize (H (i + 1)). rewrite !nth_get_cons, (proj2 (Z.eqb_neq _ _)) in H by lia. by replace (i + 1 - 1) with i in H by lia.
    + unfold nth_get. by rewrite (proj2 (Z.leb_gt _ _)).
Qed.
Lemma wanted_count_insert l i v old : nth_get l i = Some old ->
  wanted_count (<[Z.to_nat i := v]> l)
  = wanted_count l - (if old =? POSITION_UNWANTED then 0 else 1) + (if v =? POSITION_UNWANTED then 0 else 1).
Proof.
  revert i. induction l as [|w l IH]; intros i H; [by apply nth_get_lt in H; unfold len in H; cbn in H; lia|].
  pose proof (nth_get_lt _ _ _ H). rewrite nth_get_cons in H. destruct (Z.eqb_spec i 0) as [E|Hi].
  - rewrite E. assert (w = old) as -> by congruence. change (<[Z.to_nat 0 := v]> (old :: l)) with (v :: l).
    rewrite !wanted_count_cons. lia.
  - replace (Z.to_nat i) with (S (Z.to_nat (i - 1))) by lia.
    change (<[S (Z.to_nat (i - 1)) := v]> (w :: l)) with (w :: <[Z.to_nat (i - 1) := v]> l).
    rewrite !wanted_count_cons, (IH (i - 1) H). lia.
Qed.
Lemma wanted_count_bounds l : 0 <= wanted_count l <= len l.
Proof. induction l as [|v l IH]; [done|]. rewrite wanted_count_cons, len_cons. destruct (v =? POSITION_UNWANTED); lia. Qed.
Lemma wanted_count_pos l i v : nth_get l i = Some v -> v <> POSITION_UNWANTED -> 0 < wanted_count l.
Proof.
  intros H Hv. pose proof (wanted_count_insert l i POSITION_UNWANTED v H) as E. rewrite Z.eqb_refl in E.
  rewrite (proj2 (Z.eqb_neq _ _)) in E by done. pose proof (wanted_count_bounds (<[Z.to_nat i := POSITION_UNWANTED]> l)). lia.
Qed.

(** ** The invariant of the operations *)

(** The states a piece has between two calls: in the heap, reserved,
    planned or not wanted. *)
Definition settled (v : Z) : Prop :=
  v < POSITION_DETACHED \/ v = POSITION_RESERVED \/ v = POSITION_PLANNED \/ v = POSITION_UNWANTED.
(** [dirty]: availability was changed in bulk and the ranked part not yet
    rebuilt. *)
Record picker_ok (dirty : bool) (s : AvailabilityPicker) : Prop := {
  pk_index : index_ok s;
  pk_wanted : wanted_remaining s = wanted_count (positions s);
  pk_settled p v : nth_get (positions s) p = Some v -> settled v;
  pk_ranked : dirty = false -> ranked_ok s;
}.
Lemma states_distinct : POSITION_DETACHED < POSITION_RESERVED < POSITION_PLANNED /\ POSITION_PLANNED < POSITION_UNWANTED.
Proof. done. Qed.
Lemma same_states_ok d s s' : picker_ok d s -> index_ok s' -> same_ranks s s' -> same_states s s' ->
  (ranked_ok s -> ranked_ok s') -> picker_ok d s'.
Proof.
  intros [H1 H2 H3 H4] Hx Hr [El Hs] Ho. pose proof states_distinct. split; [done|..].
  - rewrite (sr_wanted _ _ Hr), H2. apply wanted_count_ext; [done|]. intros i. symmetry. apply Hs. lia.
  - intros p v E. destruct (Z.ltb_spec v POSITION_DETACHED); [by left|]. apply Hs in E; [|done]. by eapply H3.
  - intros E. by apply Ho, H4.
Qed.
Lemma left_heap_ok d x v s s' : picker_ok d s -> left_heap x v s s' -> in_heap s x -> POSITION_DETACHED < v -> settled v ->
  v <> POSITION_UNWANTED -> (ranked_ok s -> ranked_ok s') -> picker_ok d s'.
Proof.
  intros [H1 H2 H3 H4] [A1 A2 A3 A4 A5 A6] Hin Hv Hsv Hu Ho. pose proof states_distinct. split; [done|..].
  - rewrite (sr_wanted _ _ A2), H2. apply wanted_count_ext; [done|]. intros i. rewrite A6 by lia.
    case_bool_decide as E; [|done]. subst i. split; [|by intros <-]. intros E.
    apply in_heap_position in Hin as (w & Hw & Hlt); [|done]. rewrite E in Hw. injection Hw as <-. lia.
  - intros p w E. destruct (Z.ltb_spec w POSITION_DETACHED); [by left|]. apply A6 in E; [|done].
    case_bool_decide; [by subst|]. by eapply H3.
  - intros E. by apply Ho, H4.
Qed.
(** A completed piece leaves the count of wanted pieces. *)
Lemma left_unwanted_count x s s' : index_ok s -> left_heap x POSITION_UNWANTED s s' -> in_heap s x ->
  wanted_count (positions s') = wanted_count (positions s) - 1.
Proof.
  intros Hx [A1 A2 A3 A4 A5 A6] Hin. apply in_heap_position in Hin as (w & Hw & Hlt); [|done]. pose proof states_distinct.
  pose proof (nth_get_lt _ _ _ Hw).
  rewrite (wanted_count_ext (positions s') (<[Z.to_nat x := POSITION_UNWANTED]> (positions s))).
  - rewrite (wanted_count_insert _ x _ w Hw), Z.eqb_refl, (proj2 (Z.eqb_neq _ _)) by lia. lia.
  - by rewrite len_insert.
  - intros i. rewrite A6 by lia. destruct (Z.leb_spec 0 i).
    + rewrite nth_get_insert by lia. by case_bool_decide.
    + rewrite bool_decide_false by lia. unfold nth_get. by rewrite (proj2 (Z.leb_gt _ _)).
Qed.

(** A piece outside the heap gets another state, or enters the heap. *)
Lemma write_state_ok x v s : index_ok s -> 0 <= x < len (positions s) -> POSITION_DETACHED <= v ->
  (forall w, nth_get (positions s) x = Some w -> POSITION_DETACHED <= w) ->
  index_ok (set_positions (<[Z.to_nat x := v]> (positions s)) s).
Proof.
  intros Hx Hr Hv Hw. set (s' := set_positions _ s).
  assert (forall p, 0 <= p -> nth_get (positions s') p = if bool_decide (p = x) then Some v else nth_get (positions s) p) as Hps.
  { intros p Hp. cbn. by rewrite nth_get_insert. }
  assert (len (positions s') = len (positions s)) as El by (cbn; by rewrite len_insert).
  split; rewrite ?El; try apply Hx.
  - intros i p Hi. pose proof (heap_piece s i p Hx Hi). rewrite Hps by lia. apply (ix_heap _ Hx) in Hi as Hp.
    rewrite bool_decide_false; [done|]. intros ->. apply Hw in Hp. pose proof (heap_len s Hx). pose proof (ix_size _ Hx). lia.
  - intros p w E Hlt. pose proof (nth_get_lt _ _ _ E). rewrite Hps in E by lia. case_bool_decide; [injection E; lia|]. by apply Hx.
Qed.

(** ** Each operation keeps the invariant *)

(** A method keeps the invariant, and a refusal changes nothing. *)
Abbreviation keeps d' m s := (wp m s (fun _ s' => picker_ok d' s') (fun _ s' => s' = s)).

Lemma picker_ok_dirty d s : picker_ok d s -> picker_ok true s.
Proof. intros [H1 H2 H3 H4]. by split. Qed.
(** Availability changes: nothing but the ranks is affected. *)
Lemma set_availability_ok d cs n s : picker_ok d s -> len cs = len (counts s) -> is_u 16 n ->
  (forall i c, nth_get cs i = Some c -> is_u 16 c) -> picker_ok true (set_availability cs n s).
Proof. intros [[A1 A2 A3 A4 A5 A6 A7 A8] H2 H3 H4] El Hn Hc. by split; [split; [cbn; congruence|..]|..]. Qed.
Lemma counts_insert_ok s i c : index_ok s -> 0 <= i < len (counts s) -> is_u 16 c ->
  forall j x, nth_get (<[Z.to_nat i := c]> (counts s)) j = Some x -> is_u 16 x.
Proof.
  intros Hx Hi Hc j x E. pose proof (nth_get_lt _ _ _ E). rewrite nth_get_insert in E by lia.
  case_bool_decide; [by injection E as <-|]. by eapply ix_available.
Qed.
Lemma change_count_ok d s (f : Z -> option Z) piece e1 e2 : picker_ok d s ->
  (forall c n, is_u 16 c -> f c = Some n -> is_u 16 n) ->
  wp (s ← get;
      count ← lift (ok_or (nth_get (counts s) piece) e1);
      next ← lift (ok_or (f count) e2);
      put (set_availability (<[Z.to_nat piece := next]> (counts s)) (seed_count s) s) : method unit) s
    (fun _ s' => picker_ok true s' /\ exists c, 0 <= piece < len (counts s) /\ is_u 16 c /\
        s' = set_availability (<[Z.to_nat piece := c]> (counts s)) (seed_count s) s)
    (fun _ s' => s' = s).
Proof.
  intros Hk Hf. pose proof (pk_index _ _ Hk) as Hx. repeat wp_step. apply wp_lift_ok_or; [|done]. intros c Ec. repeat wp_step.
  apply wp_lift_ok_or; [|done]. intros n En. repeat wp_step. pose proof (nth_get_lt _ _ _ Ec).
  assert (is_u 16 n) as Hn by (eapply Hf; [by eapply ix_available|done]). split; [|by exists n].
  eapply set_availability_ok; [done|by rewrite len_insert|apply Hx|by apply counts_insert_ok].
Qed.
Lemma checked_add_u16 c n : is_u 16 c -> checked_add 16 c 1 = Some n -> is_u 16 n.
Proof. unfold is_u. intros H E. apply checked_add_Some in E. lia. Qed.
Lemma checked_sub_u16 c n : is_u 16 c -> checked_sub c 1 = Some n -> is_u 16 n.
Proof. unfold is_u. intros H E. apply checked_sub_Some in E. lia. Qed.
Lemma change_seeds_ok d s (f : Z -> option Z) e : picker_ok d s ->
  (forall c n, is_u 16 c -> f c = Some n -> is_u 16 n) ->
  keeps true (s ← get; next ← lift (ok_or (f (seed_count s)) e); put (set_availability (counts s) next s) : method unit) s.
Proof.
  intros Hk Hf. repeat wp_step. apply wp_lift_ok_or; [|done]. intros n En. repeat wp_step.
  pose proof (pk_index _ _ Hk) as Hx. eapply set_availability_ok; [done|done| |by apply Hx]. eapply Hf; [apply Hx|done].
Qed.

(** After one count changed, only the pairs of that piece may be out of
    order. *)
Lemma count_changed_order s piece c s1 : index_ok s -> ranked_ok s -> 0 <= piece ->
  s1 = set_availability (<[Z.to_nat piece := c]> (counts s)) (seed_count s) s -> 0 <= piece < len (counts s) ->
  (forall j, nth_get (positions s) piece = Some j -> j < ranked_len s ->
     ordered_but (rank_le s1) (ranked_len s1) (heap_view s1) j)
  /\ ((forall j, nth_get (positions s) piece = Some j -> ranked_len s <= j) -> ranked_ok s1).
Proof.
  intros Hx Ho Hp E Hr. pose proof (ix_ranked _ Hx) as Hrl.
  assert (forall p q, p <> piece -> q <> piece -> rank_le s1 p q <-> rank_le s p q) as Hle.
  { intros p q Hp' Hq'. unfold rank_le, rank_key, tie_key. rewrite E. cbn. rewrite len_insert.
    assert (forall r, r <> piece -> nth_get (<[Z.to_nat piece := c]> (counts s)) r = nth_get (counts s) r) as Hg.
    { intros r Hne. destruct (Z.leb_spec 0 r); [|unfold nth_get; by rewrite (proj2 (Z.leb_gt _ _))].
      rewrite nth_get_insert by lia. by rewrite bool_decide_false. }
    by rewrite !Hg. }
  assert (ranked_len s1 = ranked_len s /\ heap_view s1 = heap_view s) as [En Ev] by (by subst).
  assert (forall i, 0 <= i < ranked_len s -> nth_get (positions s) piece <> Some i -> heap_view s i <> piece) as Hne.
  { intros i Hi Hne E'. apply Hne. apply Hx. rewrite <- E'. apply view_get. lia. }
  rewrite En, Ev. split.
  - intros j Hj Hlt. pose proof (ix_positions _ Hx _ _ Hj) as Hg.
    assert (0 <= j < ranked_len s) as Hjr.
    { pose proof (ix_size _ Hx). pose proof (heap_len s Hx). pose proof (nth_get_lt _ _ _ (Hg ltac:(lia))). lia. }
    destruct (ordered_but_of _ (rank_le_trans s) _ _ _ (rank_le_refl s) Ho Hjr) as [O1 O2].
    assert (forall i, 0 <= i < ranked_len s -> i <> j -> heap_view s i <> piece) as Hne' by (intros i Hi Hij; apply Hne; [done|congruence]).
    split.
    + intros i Hi H1 H2. pose proof (parent_bounds i ltac:(lia)). apply Hle; [apply Hne'; lia..|]. by apply O1.
    + intros i Hi H1 H2 H3. pose proof (parent_bounds i ltac:(lia)). pose proof (parent_bounds j ltac:(lia)).
      apply Hle; [apply Hne'; lia..|]. by apply O2.
  - intros Hout i Hi. rewrite En in Hi. rewrite Ev. pose proof (parent_bounds i ltac:(lia)).
    apply Hle; [apply Hne; [lia|]..|by apply Ho]; intros E'; apply Hout in E'; lia.
Qed.
Lemma increment_piece_ok d piece s : picker_ok d s -> keeps d (increment_piece piece) s.
Proof.
  intros Hk. pose proof (pk_index _ _ Hk) as Hx. unfold increment_piece. wp_step.
  eapply wp_mono; [apply (change_count_ok d s (fun c => checked_add 16 c 1)); [done|apply checked_add_u16]| |done].
  intros _ s1 (Hk1 & c & Hc & _ & E). wp_step. wp_step. wp_step. pose proof (pk_index _ _ Hk1) as Hx1.
  set (s2 := count_update s1). assert (index_ok s2) as Hx2 by (destruct Hx1; by split).
  wp_call repair_piece_ok; [done| |done]. intros _ s3 (Hx3 & Hs3 & Ho3 & He3). unfold note_eligibility_change. wp_step.
  assert (picker_ok d s3) as Hk3.
  { assert (ranked_ok s -> ranked_ok s3) as Ho.
    { intros Ho. destruct (count_changed_order s piece c s1 Hx Ho ltac:(lia) E Hc) as [A B].
      assert (positions s2 = positions s /\ ranked_len s2 = ranked_len s) as [Ep En] by (subst s2; by subst).
      rewrite Ep in Ho3, He3. rewrite En in He3. destruct (nth_get (positions s) piece) as [j|] eqn:Ej.
      - destruct (Z.ltb_spec j (ranked_len s)) as [Hlt|Hge].
        + apply (Ho3 j eq_refl); [by rewrite En|]. by apply A.
        + rewrite He3 by (by intros ? [= <-]). apply B. by intros ? [= <-].
      - rewrite He3 by done. by apply B. }
    split; [done|..].
    - rewrite (sr_wanted _ _ (sf_ranks _ _ Hs3)). change (wanted_remaining s2) with (wanted_remaining s1).
      rewrite (pk_wanted _ _ Hk1). pose proof states_distinct. destruct (sf_states _ _ Hs3) as [El Hst].
      apply wanted_count_ext; [done|]. intros i. symmetry. apply Hst. lia.
    - intros p v Ep. destruct (sf_states _ _ Hs3) as [El Hst]. destruct (Z.ltb_spec v POSITION_DETACHED); [by left|].
      apply Hst in Ep; [|done]. by apply (pk_settled _ _ Hk1 p).
    - intros Hd. apply Ho. by apply (pk_ranked _ _ Hk). }
  destruct Hk3 as [[A1 A2 A3 A4 A5 A6 A7 A8] H2 H3 H4]. by split.
Qed.

Lemma rebuilt_ok d s s' : picker_ok d s -> rebuilt s s' -> picker_ok false s'.
Proof.
  intros Hk [A1 A2 A3 A4 A5 A6 A7]. destruct (same_states_ok d s s' Hk A1 A3 A4 ltac:(done)) as [H1 H2 H3 _]. by split.
Qed.
Lemma picker_ok_any d s : picker_ok false s -> picker_ok d s.
Proof. intros [H1 H2 H3 H4]. split; try done. intros _. by apply H4. Qed.
Lemma replace_priorities_ok d ps s : picker_ok d s -> keeps d (replace_priorities ps) s.
Proof.
  intros Hk. unfold replace_priorities. wp_step. wp_step. destruct (Z.eqb_spec (len ps) (len (priorities s))) as [El|]; cbn [negb];
    [|by wp_step]. case_bool_decide; [by wp_step|]. wp_step. wp_step.
  assert (picker_ok true (set_priorities ps s)) as Hk1.
  { destruct Hk as [[A1 A2 A3 A4 A5 A6 A7 A8] H2 H3 H4]. split; try done. split; try done. cbn. congruence. }
  wp_call rebuild_heap_ok; [apply Hk1| |done]. intros _ s' Hs'. apply picker_ok_any. by eapply rebuilt_ok.
Qed.
Lemma rebuild_after_bulk_update_ok d s : picker_ok d s ->
  total rebuild_after_bulk_update s (fun _ s' => picker_ok false s').
Proof.
  intros Hk. unfold rebuild_after_bulk_update. wp_call rebuild_heap_ok; [apply Hk| |done].
  intros _ s' Hs'. by eapply rebuilt_ok.
Qed.
Lemma set_changed_ok d b s : picker_ok d s -> picker_ok d (set_changed b s).
Proof. intros [[A1 A2 A3 A4 A5 A6 A7 A8] H2 H3 H4]. by split. Qed.

(** A piece in one of the outside states gets another one. *)
Lemma set_state_ok d x v old s : picker_ok d s -> nth_get (positions s) x = Some old -> POSITION_DETACHED < old -> POSITION_DETACHED < v -> settled v ->
  old <> POSITION_UNWANTED -> v <> POSITION_UNWANTED ->
  picker_ok d (set_positions (<[Z.to_nat x := v]> (positions s)) s).
Proof.
  intros [H1 H2 H3 H4] Ho Hlt Hv Hsv Hu Huv. pose proof (nth_get_lt _ _ _ Ho). split; [|..|done].
  - apply write_state_ok; [done|done|lia|]. intros w. rewrite Ho. intros [= <-]. lia.
  - cbn. rewrite (wanted_count_insert _ _ _ old), (proj2 (Z.eqb_neq _ _)), (proj2 (Z.eqb_neq _ _)) by done. lia.
  - intros p w E. cbn in E. pose proof (nth_get_lt _ _ _ E). rewrite len_insert in *.
    rewrite nth_get_insert in E by lia. case_bool_decide; [by injection E as <-|by eapply H3].
Qed.
(** Detach, then push: the piece enters the heap. *)
Lemma reattach_ok d x old s : picker_ok d s -> nth_get (positions s) x = Some old -> POSITION_DETACHED < old ->
  total (write_position x POSITION_DETACHED;; push_detached x) s (fun _ s' =>
    index_ok s' /\ same_ranks s s' /\ (forall p v, nth_get (positions s') p = Some v -> settled v)
    /\ (ranked_ok s -> ranked_ok s') /\ is_ranked s' x
    /\ wanted_count (positions s') = wanted_count (positions s) + (if old =? POSITION_UNWANTED then 1 else 0)).
Proof.
  intros Hk Ho Hlt. pose proof (pk_index _ _ Hk) as Hx. pose proof (nth_get_lt _ _ _ Ho) as Hr. pose proof states_distinct.
  wp_step. wp_call write_position_ok; [done| |done]. intros _ ? ->. set (s1 := set_positions _ s).
  assert (index_ok s1) as Hx1.
  { apply write_state_ok; [done|done|lia|]. intros w. rewrite Ho. intros [= <-]. lia. }
  assert (forall p, 0 <= p -> nth_get (positions s1) p = if bool_decide (p = x) then Some POSITION_DETACHED else nth_get (positions s) p) as Hps.
  { intros p Hp. cbn. by rewrite nth_get_insert. }
  wp_call push_detached_ok; [done|rewrite Hps by lia; by rewrite bool_decide_true| |done]. intros _ s2 [Hs2 Ho2].
  split; [apply Hs2|]. split; [eapply same_ranks_trans; [|apply Hs2]; done|]. split; [|split; [exact Ho2|split]].
  - intros p v E. destruct (Z.ltb_spec v POSITION_DETACHED); [by left|].
    apply (eh_states _ _ _ Hs2) in E as [Hne E]; [|done]. pose proof (nth_get_lt _ _ _ E).
    rewrite Hps, bool_decide_false in E by (done || lia). by apply (pk_settled _ _ Hk p).
  - apply (eh_ranked _ _ _ Hs2). by right.
  - pose proof (wanted_count_insert (positions s) x POSITION_DETACHED old Ho) as E1.
    change (POSITION_DETACHED =? POSITION_UNWANTED) with false in E1. cbv iota in E1.
    rewrite (wanted_count_ext (positions s2) (positions s1)); [|apply Hs2|].
    { change (positions s1) with (<[Z.to_nat x := POSITION_DETACHED]> (positions s)). rewrite E1.
      destruct (old =? POSITION_UNWANTED); lia. }
    intros i. rewrite (eh_states _ _ _ Hs2) by lia. split; [by intros []|]. intros E. split; [|done]. intros ->.
    rewrite Hps, bool_decide_true in E by (done || lia). injection E as E. lia.
Qed.
Lemma cancel_reserved_ok d x s : picker_ok d s -> keeps d (cancel_reserved x) s.
Proof.
  intros Hk. unfold cancel_reserved. wp_step. wp_step. case_bool_decide as E; cbn [negb]; [|by wp_step].
  wp_call (reattach_ok d); [done|exact E|done| |done]. intros _ s' (H1 & H2 & H3 & H4 & _ & H6). rewrite (proj2 (Z.eqb_neq _ _)) in H6 by done.
  split; try done; [rewrite (sr_wanted _ _ H2), (pk_wanted _ _ Hk); lia|]. intros Hd. by apply H4, (pk_ranked _ _ Hk).
Qed.
Lemma restore_unstarted_ok d x s : picker_ok d s -> keeps d (restore_unstarted x) s.
Proof.
  intros Hk. unfold restore_unstarted. repeat wp_step. apply wp_lift_ok_or; [|done]. intros v E.
  destruct (Z.eqb_spec v POSITION_PLANNED) as [->|]; cbn [negb]; [|by wp_step].
  wp_call (reattach_ok d); [done|exact E|done| |done]. intros _ s' (H1 & H2 & H3 & H4 & _ & H6). rewrite (proj2 (Z.eqb_neq _ _)) in H6 by done.
  split; try done; [rewrite (sr_wanted _ _ H2), (pk_wanted _ _ Hk); lia|]. intros Hd. by apply H4, (pk_ranked _ _ Hk).
Qed.
Lemma add_wanted_ok d x s : picker_ok d s -> keeps d (add_wanted x) s.
Proof.
  intros Hk. unfold add_wanted. repeat wp_step. apply wp_lift_ok_or; [|done]. intros v E.
  destruct (Z.eqb_spec v POSITION_UNWANTED) as [->|]; cbn [negb]; [|by wp_step].
  apply wp_seq. wp_call (reattach_ok d); [done|exact E|done| |done]. intros _ s' (H1 & H2 & H3 & H4 & _ & H6). rewrite Z.eqb_refl in H6.
  wp_step. wp_step. wp_step. pose proof (wanted_count_bounds (positions s')). pose proof (ix_size _ H1).
  assert (POSITION_DETACHED = 4294967292) by done.
  assert (wanted_remaining s' + 1 = wanted_count (positions s')) as Ew.
  { rewrite (sr_wanted _ _ H2), (pk_wanted _ _ Hk). lia. }
  apply wp_lift_ok_or; [|intros En; exfalso; unfold checked_add in En; change (2 ^ USIZE) with 18446744073709551616 in En;
    rewrite (proj2 (Z.ltb_lt _ _)) in En by lia; done].
  intros n En. apply checked_add_Some in En as [-> _]. wp_step. wp_step. wp_step.
  destruct H1 as [A1 A2 A3 A4 A5 A6 A7 A8]. split; try done. intros Hd. by apply H4, (pk_ranked _ _ Hk).
Qed.

Lemma in_heap_at s j x : nth_get (heap s) j = Some x -> in_heap s x.
Proof. intros E. by exists j. Qed.
Lemma remove_keeps d j x v s : picker_ok d s -> nth_get (positions s) x = Some j -> j < POSITION_DETACHED ->
  POSITION_DETACHED < v -> settled v -> v <> POSITION_UNWANTED -> keeps d (remove_at j v) s.
Proof.
  intros Hk E Hlt Hv Hsv Hu. pose proof (ix_positions _ (pk_index _ _ Hk) _ _ E Hlt) as Hg.
  wp_call remove_at_ok; [apply Hk|exact Hg|lia| |done]. intros _ s' [Hl Ho].
  eapply left_heap_ok; [exact Hk|exact Hl|by eapply in_heap_at|done..].
Qed.
Lemma reserve_specific_ok d x s : picker_ok d s -> keeps d (reserve_specific x) s.
Proof.
  intros Hk. unfold reserve_specific. wp_step. wp_step. destruct (nth_get (positions s) x) as [j|] eqn:E; [|by wp_step].
  destruct (Z.leb_spec POSITION_DETACHED j); [by wp_step|]. cbn [orb]. case_bool_decide; [by wp_step|].
  wp_step. wp_call (remove_keeps d); [done|exact E|done|done|right; by left|done| |done]. intros _ s' H'. by wp_step.
Qed.
Lemma mark_planned_ok d x s : picker_ok d s -> keeps d (mark_planned x) s.
Proof.
  intros Hk. unfold mark_planned. repeat wp_step. apply wp_lift_ok_or; [|done]. intros j E.
  destruct (Z.eqb_spec j POSITION_PLANNED); [by wp_step|]. destruct (Z.eqb_spec j POSITION_UNWANTED); [by wp_step|].
  destruct (Z.eqb_spec j POSITION_RESERVED) as [->|].
  { pose proof (nth_get_lt _ _ _ E). wp_call write_position_ok; [done| |done]. intros _ ? ->. eapply set_state_ok; try done. right. right. by left. }
  destruct (Z.eqb_spec j POSITION_DETACHED); [by wp_step|].
  destruct (Z.ltb_spec j POSITION_DETACHED).
  - wp_call (remove_keeps d); [done|exact E|done|done|right; right; by left|done|done|done].
  - exfalso. destruct (pk_settled _ _ Hk _ _ E) as [|[|[|]]]; lia.
Qed.
Lemma mark_completed_ok d x s : picker_ok d s -> keeps d (mark_completed x) s.
Proof.
  intros Hk. pose proof states_distinct. unfold mark_completed. repeat wp_step. apply wp_lift_ok_or; [|done]. intros j E.
  pose proof (nth_get_lt _ _ _ E) as Hr. wp_step.
  destruct (Z.eqb_spec j POSITION_UNWANTED) as [|Hju]; [by wp_step|].
  destruct (Z.eqb_spec j POSITION_RESERVED) as [|Hjr]; [by wp_step|]. destruct (Z.eqb_spec j POSITION_DETACHED) as [|Hjd]; [by wp_step|].
  cbn [orb]. pose proof (wanted_count_pos _ _ _ E Hju) as Hpos.
  assert (total (if j =? POSITION_PLANNED then write_position x POSITION_UNWANTED else remove_at j POSITION_UNWANTED) s
    (fun _ s' => index_ok s' /\ same_ranks s s' /\ wanted_count (positions s') = wanted_count (positions s) - 1
       /\ (forall p v, nth_get (positions s') p = Some v -> settled v) /\ (ranked_ok s -> ranked_ok s'))) as Hstep.
  { destruct (Z.eqb_spec j POSITION_PLANNED) as [->|Hjp].
    - wp_call write_position_ok; [done| |done]. intros _ ? ->. split_and!; try done.
      + apply write_state_ok; [apply Hk|done|done|]. intros w. rewrite E. by intros [= <-].
      + cbn. rewrite (wanted_count_insert _ _ _ _ E), Z.eqb_refl, (proj2 (Z.eqb_neq _ _)) by done. lia.
      + intros p v Ep. cbn in Ep. pose proof (nth_get_lt _ _ _ Ep). rewrite len_insert in *. rewrite nth_get_insert in Ep by lia.
        case_bool_decide; [injection Ep as <-; do 3 right; done|by eapply pk_settled].
    - assert (j < POSITION_DETACHED) as Hlt by (destruct (pk_settled _ _ Hk _ _ E) as [|[|[|]]]; done).
      pose proof (ix_positions _ (pk_index _ _ Hk) _ _ E Hlt) as Hg.
      wp_call remove_at_ok; [apply Hk|exact Hg|lia| |done]. intros _ s' [Hl Ho]. split; [apply Hl|]. split; [apply Hl|]. split; [|split].
      + eapply left_unwanted_count; [apply Hk|done|by eapply in_heap_at].
      + intros p v Ep. destruct (Z.ltb_spec v POSITION_DETACHED); [by left|]. apply (lh_states _ _ _ _ Hl) in Ep; [|done].
        case_bool_decide; [subst; do 3 right; done|by eapply pk_settled].
      + done. }
  wp_call Hstep; [|done]. intros _ s' (H1 & H2 & H3 & H4 & H5). wp_step. wp_step. wp_step.
  assert (wanted_remaining s' = wanted_count (positions s)) as Ew by (rewrite (sr_wanted _ _ H2); apply Hk).
  apply wp_lift_ok_or; [|intros En; exfalso; unfold checked_sub in En; rewrite (proj2 (Z.leb_le _ _)) in En by lia; done].
  intros n En. apply checked_sub_Some in En as [-> _]. wp_step.
  destruct H1 as [A1 A2 A3 A4 A5 A6 A7 A8]. split; try done; [cbn; lia|]. intros Hd. by apply H5, (pk_ranked _ _ Hk).
Qed.

(** ** Reservation *)
Definition available (s : AvailabilityPicker) (p : Z) : Prop := availability s p <> Some 0.
(** [p] is the best of the candidates that have an available copy and are
    eligible: [min_by] over them. *)
Definition best_of (s : AvailabilityPicker) (candidate : Z -> Prop) (eligible : Z -> bool) (p : Z) : Prop :=
  candidate p /\ available s p /\ eligible p = true
  /\ forall q, candidate q -> available s q -> eligible q = true -> rank_le s p q.
(** [n] candidates were available, but ineligible. *)
Definition many_ineligible (s : AvailabilityPicker) (candidate : Z -> Prop) (eligible : Z -> bool) (n : Z) : Prop :=
  exists l, NoDup l /\ len l = n /\ Forall (fun q => candidate q /\ available s q /\ eligible q = false) l.

Lemma availability_same s s' p : same_ranks s s' -> availability s' p = availability s p.
Proof. intros [_ _ H1 _ H2 _]. unfold availability. by rewrite H1, H2. Qed.
Lemma root_unavailable s q : index_ok s -> ranked_ok s -> is_ranked s q ->
  availability s (heap_view s 0) = Some 0 -> availability s q = Some 0.
Proof.
  intros Hx Ho Hq Hr. apply is_ranked_view in Hq as (i & Hi & <-); [|done].
  pose proof (root_least _ (rank_le_trans s) _ _ (rank_le_refl s) Ho i ltac:(lia)) as Hle.
  pose proof (ix_ranked _ Hx). pose proof (view_get s i ltac:(lia)) as Eg. destruct (heap_piece s _ _ Hx Eg) as [Hpr _].
  rewrite <- (ix_counts _ Hx) in Hpr. destruct (nth_get_is_Some _ _ Hpr) as [c Ec].
  pose proof (ix_available _ Hx _ _ Ec). pose proof (ix_seeds _ Hx).
  unfold availability in Hr |- *. unfold rank_le, key_le in Hle. pose proof (key_compare_spec (rank_key s (heap_view s 0)) (rank_key s (heap_view s i))) as H'.
  rewrite Ec. destruct (nth_get (counts s) (heap_view s 0)) as [c0|] eqn:E0; [|done]. injection Hr as Hr.
  unfold rank_key in H', Hle. rewrite E0, Ec in H', Hle. cbn [default from_option id] in H', Hle. rewrite Hr in H', Hle.
  f_equal. destruct (key_compare _ _) in H', Hle; [|cbn in H'|done].
  - injection H' as H' _ _ _. cbn in H'. destruct (Z.eqb_spec (c + seed_count s) 0); [done|lia].
  - destruct (Z.eqb_spec (c + seed_count s) 0); [done|]. lia.
Qed.

Lemma inspect_ok n eligible : forall s, index_ok s -> ranked_ok s ->
  total (inspect n eligible) s (fun r s' => ranked_ok s' /\ match r with
    | Some p => best_of s (is_ranked s) eligible p /\ left_heap p POSITION_RESERVED s s'
    | None => index_ok s' /\ same_ranks s s' /\ same_states s s'
        /\ ((forall q, is_ranked s q -> available s q -> eligible q = false)
            \/ many_ineligible s (is_ranked s) eligible (Z.of_nat n))
    end).
Proof.
  induction n as [|m IH]; intros s Hx Ho; cbn [inspect].
  { wp_step. split_and!; try done. right. exists []. split; [constructor|split; [done|constructor]]. }
  wp_step. wp_step. destruct (Z.eqb_spec (ranked_len s) 0) as [E0|Hn].
  { wp_step. split_and!; try done. left. intros q Hq. apply is_ranked_view in Hq as (i & Hi & _); [lia|done]. }
  pose proof (ix_ranked _ Hx) as Hrl. wp_step. unfold index. rewrite (view_get s 0) by lia. cbn [expect]. wp_step.
  set (root := heap_view s 0). assert (is_ranked s root) as Hroot by (apply is_ranked_view; [done|]; exists 0; split; [lia|done]).
  assert (forall q, is_ranked s q -> rank_le s root q) as Hleast.
  { intros q Hq. apply is_ranked_view in Hq as (i & Hi & <-); [|done].
    apply (root_least _ (rank_le_trans s) _ _ (rank_le_refl s) Ho). lia. }
  case_bool_decide as Ea.
  { wp_step. split_and!; try done. left. intros q Hq Hav. exfalso. by apply Hav, root_unavailable. }
  wp_step. wp_step. set (s1 := count_inspection s).
  assert (index_ok s1 /\ ranked_ok s1) as [Hx1 Ho1] by (split; [by destruct Hx|done]).
  destruct (eligible root) eqn:El.
  - wp_step. wp_call remove_ranked_root_ok; [done|cbn; lia|done| |done]. intros p s2 (-> & Hl & Hrk & Ho2). wp_step.
    split; [by apply Ho2|]. split; [|by apply (left_heap_after _ _ s s1)].
    split_and!; try done. intros q Hq _ _. by apply Hleast.
  - wp_step. wp_call defer_ranked_root_ok; [done|cbn; lia| |done]. intros _ s2 [Hs2' Ho2].
    assert (swapped_out 0 s s2) as Hs2 by (destruct Hs2' as [X1 [] X3 X4 X5 X6 X7 X8]; split; done).
    assert (forall q, is_ranked s2 q <-> is_ranked s q /\ q <> root) as Hrk by (intros q; apply (so_ranked _ _ _ Hs2)).
    assert (same_ranks s s2) as Hr2 by apply (so_ranks _ _ _ Hs2).
    wp_call IH; [apply Hs2|by apply Ho2| |done]. intros r s3 [Ho3 H]. split; [done|]. destruct r as [p|].
    + destruct H as [(B1 & B2 & B3 & B4) Hl]. apply Hrk in B1 as [B1 _]. unfold available in *.
      rewrite (availability_same _ _ _ Hr2) in B2. split.
      * split_and!; try done. intros q Hq Hav Heq. apply (rank_le_same _ _ Hr2). apply B4; [|by rewrite (availability_same _ _ _ Hr2)|done].
        apply Hrk. split; [done|]. by intros ->; rewrite El in Heq.
      * apply (left_heap_after _ _ s s2); [done|apply Hs2|apply (so_changed _ _ _ Hs2)| |done].
        apply same_states_in_heap; [done|apply Hs2..].
    + destruct H as (H1 & H2 & H3 & H4). split; [done|]. split; [by eapply same_ranks_trans|].
      split; [eapply same_states_trans; [apply (so_states _ _ _ Hs2)|done]|]. destruct H4 as [H4|(l & L1 & L2 & L3)].
      * left. intros q Hq Hav. destruct (decide (q = root)) as [->|Hne]; [done|]. apply H4; [by apply Hrk|].
        unfold available. by rewrite (availability_same _ _ _ Hr2).
      * right. exists (root :: l). rewrite Forall_forall in L3. split; [|split].
        -- constructor; [|done]. intros Hin. destruct (L3 _ Hin) as (Q & _). by apply Hrk in Q as [_ Q].
        -- rewrite len_cons, L2. lia.
        -- constructor; [done|]. apply Forall_forall. intros q Hq. apply L3 in Hq as (Q1%Hrk & Q2 & Q3). split; [by apply Q1|].
           unfold available in *. by rewrite (availability_same _ _ _ Hr2) in Q2.
Qed.

(** The candidates of a reservation: the ranked pieces, or all of the heap
    when it is rebuilt first. *)
Definition candidates (s : AvailabilityPicker) : Z -> Prop :=
  if (ranked_len s =? 0) && eligibility_changed s then in_heap s else is_ranked s.
Definition reserved_as (s : AvailabilityPicker) (eligible : Z -> bool) (r : option Z) (s' : AvailabilityPicker) : Prop :=
  match r with
  | Some p => best_of s (candidates s) eligible p /\ left_heap p POSITION_RESERVED (set_changed (eligibility_changed s') s) s'
  | None => same_ranks s s' /\ same_states s s'
      /\ ((forall q, candidates s q -> available s q -> eligible q = false)
          \/ many_ineligible s (candidates s) eligible MAX_PICKER_CANDIDATE_INSPECTIONS)
  end.
Lemma reserve_best_matching_ok d eligible s : picker_ok d s -> ranked_ok s ->
  total (reserve_best_matching eligible) s (fun r s' => picker_ok false s' /\ reserved_as s eligible r s').
Proof.
  intros Hk Ho. pose proof (pk_index _ _ Hk) as Hx. unfold reserve_best_matching, reserved_as, candidates. wp_step. wp_step. wp_step.
  assert (total (if (ranked_len s =? 0) && eligibility_changed s then rebuild_heap false else mret tt : method unit) s
    (fun _ s1 => index_ok s1 /\ ranked_ok s1 /\ same_ranks s s1 /\ same_states s s1 /\ forall q, is_ranked s1 q <-> candidates s q)) as Hre.
  { unfold candidates. destruct ((ranked_len s =? 0) && eligibility_changed s); [|by wp_step].
    wp_call rebuild_heap_ok; [done| |done]. intros _ s1 []. done. }
  wp_call Hre; [|done]. intros _ s1 (Hx1 & Ho1 & Hr1 & Hs1 & Hc). fold (candidates s).
  wp_call inspect_ok; [done|done| |done]. intros r s2 [Ho2 H].
  assert (picker_ok false s1) as Hk1.
  { destruct (same_states_ok d s s1 Hk Hx1 Hr1 Hs1 ltac:(done)) as [A1 A2 A3 _]. by split. }
  assert (forall q, available s1 q <-> available s q) as Hav.
  { intros q. unfold available. by rewrite (availability_same _ _ _ Hr1). }
  destruct r as [p|].
  - destruct H as [(B1 & B2 & B3 & B4) Hl]. split.
    + eapply left_heap_ok; [exact Hk1|exact Hl| |done|right; by left|done|done].
      apply is_ranked_view in B1 as (i & Hi & <-); [|done]. exists i. apply view_get. pose proof (ix_ranked _ Hx1). lia.
    + split; [split; [by apply Hc|split; [by apply Hav|split; [done|]]]|].
      * intros q Hq Hq' He. apply (rank_le_same _ _ Hr1). apply B4; [by apply Hc|by apply Hav|done].
      * set (s0 := set_changed (eligibility_changed s2) s). assert (index_ok s0) as Hx0 by (by destruct Hx).
        assert (forall q, in_heap s1 q <-> in_heap s0 q) as Hin by (by apply same_states_in_heap).
        destruct Hl as [L1 L2 L3 L4 L5 L6]. destruct Hs1 as [El Hs1]. split; try done.
        -- destruct (same_ranks_trans _ _ _ Hr1 L2). by split.
        -- by rewrite L4, El.
        -- intros q. by rewrite L5, Hin.
        -- intros q w Hw. rewrite L6 by done. case_bool_decide; [done|]. by apply Hs1.
  - destruct H as (H1 & H2 & H3 & H4). split.
    + destruct (same_states_ok false s1 s2 Hk1 H1 H2 H3) as [A1 A2 A3 _]; [done|by split].
    + split; [by eapply same_ranks_trans|]. split; [by eapply same_states_trans|].
      destruct H4 as [H4|(l & L1 & L2 & L3)].
      * left. intros q Hq Ha. apply H4; [by apply Hc|by apply Hav].
      * right. exists l. split; [done|]. split; [done|]. eapply Forall_impl; [exact L3|]. intros q (Q1 & Q2 & Q3).
        split; [by apply Hc|]. split; [by apply Hav|done].
Qed.
(** Without the order the call is still safe. *)
Lemma inspect_safe n eligible : forall d s, picker_ok d s ->
  total (inspect n eligible) s (fun _ s' => picker_ok d s').
Proof.
  induction n as [|m IH]; intros d s Hk; cbn [inspect]; wp_step; [done|].
  pose proof (pk_index _ _ Hk) as Hx. wp_step. destruct (Z.eqb_spec (ranked_len s) 0); [by wp_step|].
  pose proof (ix_ranked _ Hx). wp_step. unfold index. rewrite (view_get s 0) by lia. cbn [expect]. wp_step.
  case_bool_decide; [by wp_step|]. wp_step. wp_step. set (s1 := count_inspection s).
  assert (picker_ok d s1) as Hk1 by (destruct Hk as [[] ? ? ?]; by split).
  destruct (eligible (heap_view s 0)).
  - wp_step. wp_call remove_ranked_root_ok; [apply Hk1|cbn; lia|done| |done]. intros p s2 (-> & Hl & _ & Ho). wp_step.
    eapply left_heap_ok; [exact Hk1|exact Hl| |done|right; by left|done|done]. exists 0. apply view_get. cbn. lia.
  - wp_step. wp_call defer_ranked_root_ok; [apply Hk1|cbn; lia| |done]. intros _ s2 [Hs2 Ho].
    apply IH. eapply same_states_ok; [exact Hk1|apply Hs2|apply Hs2|apply (so_states _ _ _ Hs2)|done].
Qed.
Lemma reserve_best_matching_safe d eligible s : picker_ok d s -> keeps d (reserve_best_matching eligible) s.
Proof.
  intros Hk. unfold reserve_best_matching. wp_step. wp_step. wp_step.
  assert (total (if (ranked_len s =? 0) && eligibility_changed s then rebuild_heap false else mret tt : method unit) s
    (fun _ s1 => picker_ok d s1)) as Hre.
  { destruct ((ranked_len s =? 0) && eligibility_changed s); [|by wp_step].
    wp_call rebuild_heap_ok; [apply Hk| |done]. intros _ s1 Hs1. apply picker_ok_any. by eapply rebuilt_ok. }
  wp_call Hre; [|done]. intros _ s1 Hk1. wp_call inspect_safe; [exact Hk1|done|done].
Qed.

(** ** Construction *)
Lemma place_wanted_ok n wanted : forall i pos, len pos = n -> n <= POSITION_DETACHED -> wanted_count pos = i ->
  Forall (fun p => 0 <= p) wanted ->
  match place_wanted n wanted i pos with
  | Ok ps => len ps = n /\ wanted_count ps = i + len wanted
      /\ (forall k p, nth_get wanted k = Some p -> nth_get ps p = Some (i + k))
      /\ (forall p v, nth_get pos p = Some v -> v <> POSITION_UNWANTED -> nth_get ps p = Some v)
      /\ (forall p v, nth_get ps p = Some v -> nth_get pos p = Some v \/ exists k, v = i + k /\ nth_get wanted k = Some p)
  | Err _ => True
  | _ => False
  end.
Proof.
  induction wanted as [|p r IH]; intros i pos El Hn Hc Hw; cbn [place_wanted].
  { split; [done|]. split; [unfold len; cbn; lia|]. split; [|split; [done|intros p v Hp; by left]].
    intros k p Hk. apply nth_get_lt in Hk. unfold len in Hk. cbn in Hk. lia. }
  inversion_clear Hw as [|? ? Hp Hr]. destruct (Z.leb_spec n p) as [|Hlt]; [done|].
  destruct (nth_get_is_Some pos p ltac:(lia)) as [v Ev]. unfold index. rewrite Ev. cbn [expect].
  unfold mbind, outcome_bind. destruct (Z.eqb_spec v POSITION_UNWANTED) as [->|]; cbn [negb]; [|done].
  pose proof (wanted_count_bounds pos) as Hb. pose proof states_distinct.
  set (pos1 := <[Z.to_nat p := i]> pos).
  assert (wanted_count pos1 = i + 1) as Hc1.
  { unfold pos1. rewrite (wanted_count_insert _ _ _ _ Ev), Z.eqb_refl, (proj2 (Z.eqb_neq _ _)) by lia. lia. }
  assert (forall q, 0 <= q -> nth_get pos1 q = if bool_decide (q = p) then Some i else nth_get pos q) as Hg.
  { intros q Hq. unfold pos1. by rewrite nth_get_insert by lia. }
  specialize (IH (i + 1) pos1 ltac:(unfold pos1; by rewrite len_insert) Hn Hc1 Hr).
  destruct (place_wanted n r (i + 1) pos1) as [ps|e| |]; try done.
  destruct IH as (H1 & H2 & H3 & H4 & H5). split; [done|]. split; [rewrite len_cons; lia|]. split; [|split].
  - intros k q Hk. rewrite nth_get_cons in Hk. destruct (Z.eqb_spec k 0) as [->|].
    + injection Hk as <-. rewrite Z.add_0_r. apply H4; [|lia]. rewrite Hg, bool_decide_true by done. done.
    + rewrite (H3 (k - 1) q Hk). f_equal. lia.
  - intros q v Hq Hv. apply H4; [|done]. pose proof (nth_get_lt _ _ _ Hq). rewrite Hg by lia. rewrite bool_decide_false; [done|].
    intros ->. congruence.
  - intros q v Hq. destruct (H5 q v Hq) as [Hq1|(k & -> & Hk)].
    + pose proof (nth_get_lt _ _ _ Hq1). rewrite Hg in Hq1 by lia. case_bool_decide; [|by left]. right. exists 0.
      injection Hq1 as <-. subst q. split; [lia|done].
    + right. exists (k + 1). pose proof (nth_get_lt _ _ _ Hk). split; [lia|]. rewrite nth_get_cons, (proj2 (Z.eqb_neq (k + 1) 0)) by lia.
      by replace (k + 1 - 1) with k by lia.
Qed.
Lemma new_picker_ok n wanted ps pol tie : n <= POSITION_DETACHED -> Forall (fun p => 0 <= p) wanted -> 0 <= n ->
  match new_with_priorities n wanted ps pol tie with
  | Ok s => picker_ok false s /\ len (positions s) = n /\ (forall p, is_ranked s p <-> p ∈ wanted)
      /\ wanted_remaining s = len wanted /\ policy s = pol /\ priorities s = ps
  | Err _ => True
  | _ => False
  end.
Proof.
  intros Hn Hw H0. unfold new_with_priorities. destruct (Z.eqb_spec n 0); [done|]. cbn [orb].
  destruct (Z.ltb_spec (umax 32) n); [done|]. destruct (Z.eqb_spec (len ps) n) as [El|]; cbn [negb]; [|done].
  assert (len (replicate (Z.to_nat n) POSITION_UNWANTED) = n) as Elr by (rewrite len_replicate; lia).
  assert (forall m, wanted_count (replicate m POSITION_UNWANTED) = 0) as Hc0.
  { induction m as [|m IHm]; [done|]. cbn [replicate]. rewrite wanted_count_cons, IHm. done. }
  pose proof (place_wanted_ok n wanted 0 _ Elr Hn (Hc0 _) Hw) as HP. unfold mbind, outcome_bind.
  destruct (place_wanted n wanted 0 _) as [pos|e| |]; try done. destruct HP as (H1 & H2 & H3 & H4 & H5).
  set (s := mkPicker _ _ _ _ _ _ _ _ _ _ _). pose proof (wanted_count_bounds pos) as Hb. pose proof states_distinct.
  assert (forall p v, nth_get pos p = Some v -> v <> POSITION_UNWANTED -> nth_get wanted v = Some p) as Hback.
  { intros p v Hp Hv. destruct (H5 p v Hp) as [Hu|(k & -> & Hk)]; [by apply nth_get_replicate in Hu|done]. }
  assert (index_ok s) as Hx.
  { split; cbn; rewrite ?H1.
    - rewrite len_replicate. lia.
    - done.
    - lia.
    - intros i p Hi. by apply H3.
    - intros p v Hp Hlt. apply Hback; [done|lia].
    - pose proof (len_nonneg wanted). lia.
    - intros i c Hi. apply nth_get_replicate in Hi as ->. done.
    - done. }
  pose proof (rebuild_heap_ok false s Hx) as Hre. unfold wp in Hre.
  destruct (rebuild_heap false s) as [s' [u|e| |]]; try done. destruct Hre as [B1 B2 B3 B4 B5 B6 B7].
  assert (picker_ok true s) as Hk.
  { split; [done|cbn; lia| |done]. intros p v Hp. destruct (decide (v = POSITION_UNWANTED)) as [->|Hv]; [do 3 right; done|].
    left. pose proof (nth_get_lt _ _ _ (Hback p v Hp Hv)). lia. }
  split; [by eapply rebuilt_ok|]. split; [rewrite (proj1 B4); done|]. split; [|split].
  - intros p. rewrite B6. unfold in_heap. cbn. split.
    + intros [i Hi]. pose proof (nth_get_lt _ _ _ Hi). rewrite nth_get_lookup in Hi by lia. by eapply list_elem_of_lookup_2.
    + intros Hp. apply list_elem_of_lookup in Hp as [i Hi]. exists (Z.of_nat i). rewrite nth_get_lookup by lia. by rewrite Nat2Z.id.
  - by rewrite (sr_wanted _ _ B3).
  - split; [by rewrite (sr_policy _ _ B3)|by rewrite (sr_priorities _ _ B3)].
Qed.

(** ** Histories *)
Inductive PickerOp :=
| OpIncrement (piece : Z)
| OpIncrementBulk (piece : Z)
| OpDecrementBulk (piece : Z)
| OpIncrementSeed
| OpDecrementSeed
| OpRebuild
| OpPriorities (ps : list PiecePriority)
| OpEligibility
| OpReserveBest (eligible : Z -> bool)
| OpReserveSpecific (piece : Z)
| OpCancel (piece : Z)
| OpPlanned (piece : Z)
| OpRestore (piece : Z)
| OpCompleted (piece : Z)
| OpAddWanted (piece : Z).
Definition run_picker (op : PickerOp) : method unit :=
  match op with
  | OpIncrement piece => increment_piece piece
  | OpIncrementBulk piece => increment_piece_without_repair piece
  | OpDecrementBulk piece => decrement_piece_without_repair piece
  | OpIncrementSeed => increment_seed_without_rebuild
  | OpDecrementSeed => decrement_seed_without_rebuild
  | OpRebuild => rebuild_after_bulk_update
  | OpPriorities ps => replace_priorities ps
  | OpEligibility => note_eligibility_change
  | OpReserveBest eligible => reserve_best_matching eligible ≫= fun _ => mret tt
  | OpReserveSpecific piece => reserve_specific piece ≫= fun _ => mret tt
  | OpCancel piece => cancel_reserved piece
  | OpPlanned piece => mark_planned piece
  | OpRestore piece => restore_unstarted piece
  | OpCompleted piece => mark_completed piece
  | OpAddWanted piece => add_wanted piece ≫= fun _ => mret tt
  end.
(** Is a rebuild pending after the operation? *)
Definition dirty_after (op : PickerOp) (dirty : bool) : bool :=
  match op with
  | OpIncrementBulk _ | OpDecrementBulk _ | OpIncrementSeed | OpDecrementSeed => true
  | OpRebuild => false
  | _ => dirty
  end.
Inductive picker_reach (n : Z) : bool -> AvailabilityPicker -> Prop :=
| picker_new wanted ps pol tie s : Forall (fun p => 0 <= p) wanted ->
    new_with_priorities n wanted ps pol tie = Ok s -> picker_reach n false s
| picker_step d s op : picker_reach n d s -> picker_reach n (dirty_after op d) (fst (run_picker op s)).

Lemma picker_op_wp op d s : picker_ok d s -> op <> OpRebuild -> keeps (dirty_after op d) (run_picker op) s.
Proof.
  intros Hk Hop. destruct op; cbn [run_picker dirty_after]; try done.
  - by apply increment_piece_ok.
  - eapply wp_mono; [apply (change_count_ok d s (fun c => checked_add 16 c 1)); [done|apply checked_add_u16]| |done].
    by intros _ s' [H _].
  - eapply wp_mono; [apply (change_count_ok d s (fun c => checked_sub c 1)); [done|apply checked_sub_u16]| |done].
    by intros _ s' [H _].
  - apply (change_seeds_ok d s (fun c => checked_add 16 c 1)); [done|apply checked_add_u16].
  - apply (change_seeds_ok d s (fun c => checked_sub c 1)); [done|apply checked_sub_u16].
  - by apply replace_priorities_ok.
  - unfold note_eligibility_change. wp_step. by apply set_changed_ok.
  - wp_step. wp_call reserve_best_matching_safe; [exact Hk| |done]. done.
  - wp_step. wp_call reserve_specific_ok; [exact Hk| |done]. done.
  - by apply cancel_reserved_ok.
  - by apply mark_planned_ok.
  - by apply restore_unstarted_ok.
  - by apply mark_completed_ok.
  - wp_step. wp_call add_wanted_ok; [exact Hk| |done]. done.
Qed.
Lemma picker_op_ok op d s : picker_ok d s ->
  returns (snd (run_picker op s)) /\ picker_ok (dirty_after op d) (fst (run_picker op s))
  /\ forall e, snd (run_picker op s) = Err e -> fst (run_picker op s) = s.
Proof.
  intros Hk. assert (op = OpRebuild \/ op <> OpRebuild) as [->|Hop] by (destruct op; (by left) || by right).
  - pose proof (rebuild_after_bulk_update_ok d s Hk) as H. unfold wp in H. cbn [run_picker dirty_after].
    by destruct (rebuild_after_bulk_update s) as [s' [[]|e| |]].
  - pose proof (picker_op_wp op d s Hk Hop) as H. unfold wp in H.
    destruct (run_picker op s) as [s' [[]|e| |]]; try done. cbn. subst s'. split; [done|]. split; [|done].
    destruct op; cbn [dirty_after]; try done; by eapply picker_ok_dirty.
Qed.
Lemma reach_ok n d s : 0 <= n <= POSITION_DETACHED -> picker_reach n d s -> picker_ok d s.
Proof.
  intros Hn. induction 1 as [wanted ps pol tie s Hw E|d s op _ IH]; [|by apply picker_op_ok].
  pose proof (new_picker_ok n wanted ps pol tie ltac:(lia) Hw ltac:(lia)) as H. rewrite E in H. by destruct H.
Qed.

(** * Properties *)

(** C23: The piece index stays consistent.  For every torrent of at most
    [POSITION_DETACHED] pieces and every history of construction, availability changes, reservations, plans, completions and
    priority changes: the heap and the position of each piece are inverse to
    each other, each wanted piece is in the heap, reserved or planned and
    exactly those are counted as remaining, and unless a bulk update waits
    for its rebuild the ranked part of the heap is in heap order.  No
    operation panics or exhausts a loop, and a refused operation changes
    nothing, so the count of remaining pieces, which is updated last, never
    overflows or underflows. *)
Theorem picker_invariant n d s op : 0 <= n <= POSITION_DETACHED -> picker_reach n d s ->
  picker_ok d s /\ returns (snd (run_picker op s)) /\ picker_ok (dirty_after op d) (fst (run_picker op s))
  /\ forall e, snd (run_picker op s) = Err e -> fst (run_picker op s) = s.
Proof. intros Hn Hr. split; [by eapply reach_ok|]. apply picker_op_ok. by eapply reach_ok. Qed.

(** C26: A reservation takes the best piece.  With no rebuild pending,
    [reserve_best_matching] yields the least piece in rank (available pieces
    first, then priority-weighted rarity, then the rotation, then the index,
    or the index alone) among the ranked pieces that have a copy and that
    the caller finds eligible; that piece becomes reserved and no other
    piece changes its state.  It yields none only when there is no such
    piece, or after 256 ineligible ones, and then no piece changes its
    state.  The ranked pieces are all the pieces of the heap whenever none
    is left and eligibility may have changed. *)
Theorem reserve_best_exact n s eligible : 0 <= n <= POSITION_DETACHED -> picker_reach n false s ->
  exists s' r, reserve_best_matching eligible s = (s', Ok r) /\ reserved_as s eligible r s' /\ picker_ok false s'.
Proof.
  intros Hn Hr. pose proof (reach_ok n false s Hn Hr) as Hk.
  pose proof (reserve_best_matching_ok false eligible s Hk (pk_ranked _ _ Hk eq_refl)) as H. unfold wp in H.
  destruct (reserve_best_matching eligible s) as [s' [r|e| |]]; try done. exists s', r. by destruct H.
Qed.

(** ** Witnesses *)

(** Five pieces; piece 3 has one copy, pieces 1 and 4 have two. *)
Definition sample_picker : AvailabilityPicker :=
  match new_with_priorities 5 [0; 1; 2; 3; 4] (replicate 5 Normal) RarestFirst 0 with
  | Ok s => foldl (fun s p => fst (run_picker (OpIncrement p) s)) s [1; 4; 3; 4; 1]
  | _ => mkPicker InOrder 0 [] [] [] [] 0 false 0 0 (mkCounters 0 0 0 0)
  end.
Lemma sample_picker_reach : picker_reach 5 false sample_picker.
Proof.
  unfold sample_picker. destruct (new_with_priorities 5 [0; 1; 2; 3; 4] (replicate 5 Normal) RarestFirst 0) as [s|e| |] eqn:E;
    [|by vm_compute in E..].
  cbn [foldl]. do 5 (apply (picker_step 5 false _ (OpIncrement _))). eapply picker_new; [|exact E].
  repeat constructor; done.
Qed.
Lemma sample_picker_size : 0 <= 5 <= POSITION_DETACHED.
Proof. done. Qed.
Lemma picker_invariant_witness :
  picker_ok false sample_picker /\ returns (snd (run_picker (OpCompleted 3) sample_picker)).
Proof.
  destruct (picker_invariant 5 false sample_picker (OpCompleted 3) sample_picker_size sample_picker_reach) as (H1 & H2 & _).
  exact (conj H1 H2).
Defined.
Lemma reserve_best_exact_witness :
  snd (reserve_best_matching (fun p => negb (p =? 3)) sample_picker) = Ok (Some 1)
  /\ exists s', reserve_best_matching (fun p => negb (p =? 3)) sample_picker = (s', Ok (Some 1))
     /\ best_of sample_picker (candidates sample_picker) (fun p => negb (p =? 3)) 1.
Proof.
  split; [vm_compute; exact eq_refl|].
  destruct (reserve_best_exact 5 sample_picker (fun p => negb (p =? 3)) sample_picker_size sample_picker_reach)
    as (s' & r & E & H & _).
  assert (snd (reserve_best_matching (fun p => negb (p =? 3)) sample_picker) = Ok (Some 1)) as E' by (vm_compute; exact eq_refl).
  rewrite E in E'. cbn in E'. injection E' as ->. exists s'. split; [exact E|]. destruct H as [H _]. exact H.
Defined.
