(* ===== verification/PieceAvailability.v ===== *)
(** * PieceAvailability: the announced pieces of [rstorrent-engine/src/piece_availability.rs]

    The set of locally verified pieces, as a bit field, with a bounded log of
    the last changes.  Connections send it once and then follow the log from
    a cursor.  Every method runs under the mutex, so it is one step on the
    state; the storage epoch tells apart successive contents. *)
From stdpp Require Import strings.
From S2P Require Import Prelude PeerWire.
#[local] Open Scope Z_scope.

Definition MAX_LOCAL_AVAILABILITY_PIECES : Z := 2097152.
Definition MAX_LOCAL_AVAILABILITY_BYTES : Z := MAX_LOCAL_AVAILABILITY_PIECES / 8.
Definition MAX_AVAILABILITY_CHANGES : Z := 4096.
Definition MAX_AVAILABILITY_DRAIN : Z := 16.

Record AvailabilityCursor := mkCursor { c_epoch : Z; c_revision : Z }.
Record AvailabilitySnapshot := mkAvailability {
  sn_epoch : Z;
  sn_revision : Z;
  sn_piece_count : Z;
  sn_available_count : Z;
  sn_bits : list Z;
}.
Inductive AvailabilityDrain :=
| Changes (cursor : AvailabilityCursor) (pieces : list Z) (more : bool)
| EpochChanged (snapshot : AvailabilitySnapshot)
| Lagged.
Record AvailabilityChange := mkChange { ch_revision : Z; ch_piece : Z }.
Record AvailabilityState := mkState {
  epoch : Z;
  revision : Z;
  piece_count : Z;
  available_count : Z;
  bits : list Z;
  changes : list AvailabilityChange;
}.
Abbreviation method := (M AvailabilityState string).

Definition validate_piece_count (piece_count : Z) : outcome string unit :=
  if (piece_count =? 0) || (MAX_LOCAL_AVAILABILITY_PIECES <? piece_count)
  then Err "availability piece count is outside supported geometry"%string else Ok tt.
Definition next_revision (revision : Z) : outcome string Z :=
  ok_or (checked_add 64 revision 1) "availability revision overflow"%string.
Definition bit_is_set (bits : list Z) (piece : Z) : bool :=
  match nth_get bits (piece / 8) with
  | Some byte => negb (Z.land byte (Z.shiftl 1 (7 - piece mod 8)) =? 0)
  | None => false
  end.
Definition set_bit (bits : list Z) (piece : Z) (value : bool) : outcome string (list Z) :=
  let mask := Z.shiftl 1 (7 - piece mod 8) in
  byte ← index bits (piece / 8);
  Ok (<[Z.to_nat (piece / 8) := if value then Z.lor byte mask else Z.land byte (Z.lnot mask)]> bits).

(** The loop over the flags of [new] and [replace_epoch]. *)
Fixpoint set_flags (available : list bool) (piece : Z) (bits : list Z) (available_count : Z)
    : outcome string (list Z * Z) :=
  match available with
  | [] => Ok (bits, available_count)
  | value :: r =>
    if value : bool then
      bits ← set_bit bits piece true;
      set_flags r (piece + 1) bits (available_count + 1)
    else set_flags r (piece + 1) bits available_count
  end.
Definition zero_bits (piece_count : Z) : list Z := replicate (Z.to_nat (div_ceil piece_count 8)) 0.
Definition PieceAvailability_new (epoch : Z) (available : list bool) : outcome string AvailabilityState :=
  _ ← validate_piece_count (len available);
  '(bits, count) ← set_flags available 0 (zero_bits (len available)) 0;
  Ok (mkState epoch 0 (len available) count bits []).
Definition PieceAvailability_empty (piece_count epoch : Z) : outcome string AvailabilityState :=
  _ ← validate_piece_count piece_count;
  Ok (mkState epoch 0 piece_count 0 (zero_bits piece_count) []).

Definition snapshot (s : AvailabilityState) : AvailabilitySnapshot :=
  mkAvailability (epoch s) (revision s) (piece_count s) (available_count s) (bits s).
Definition sn_is_available (sn : AvailabilitySnapshot) (piece : Z) : bool :=
  (piece <? sn_piece_count sn) && bit_is_set (sn_bits sn) piece.
Definition cursor (sn : AvailabilitySnapshot) : AvailabilityCursor := mkCursor (sn_epoch sn) (sn_revision sn).
Definition initial_message (sn : AvailabilitySnapshot) (fast : bool) : option PeerMessage :=
  if fast && (sn_available_count sn =? sn_piece_count sn) then Some HaveAll
  else if fast && (sn_available_count sn =? 0) then Some HaveNone
  else if sn_available_count sn =? 0 then None
  else Some (Bitfield (sn_bits sn)).
Definition is_available (s : AvailabilityState) (piece epoch' : Z) : bool :=
  (epoch s =? epoch') && (piece <? piece_count s) && bit_is_set (bits s) piece.

Definition publish (piece epoch' : Z) : method bool :=
  s ← get;
  if negb (epoch s =? epoch') then fail "availability storage epoch is stale"%string
  else if piece_count s <=? piece then fail "availability piece is outside torrent geometry"%string
  else if bit_is_set (bits s) piece then mret false
  else
    revision ← lift (next_revision (revision s));
    piece ← lift (ok_or (if piece <? 2 ^ 32 then Some piece else None) "availability piece index overflow"%string);
    bits ← lift (set_bit (bits s) piece true);
    let log := changes s ++ [mkChange revision piece] in
    let log := if MAX_AVAILABILITY_CHANGES <? len log then tail log else log in
    put (mkState (epoch s) revision (piece_count s) (available_count s + 1) bits log);;
    mret true.
Definition replace_epoch (epoch' : Z) (available : list bool) : method unit :=
  lift (validate_piece_count (len available));;
  s ← get;
  if negb (len available =? piece_count s) then fail "replacement availability geometry changed"%string
  else if epoch' <=? epoch s then fail "replacement availability epoch did not advance"%string
  else
    '(bits', count) ← lift (set_flags available 0 (zero_bits (len available)) 0);
    put (mkState epoch' (revision s) (piece_count s) (available_count s) (bits s) (changes s));;
    revision ← lift (next_revision (revision s));
    put (mkState epoch' revision (piece_count s) count bits' []).
Definition invalidate_epoch (epoch' : Z) : method bool :=
  s ← get;
  if negb (epoch s =? epoch') then mret false
  else
    next ← lift (ok_or (checked_add 64 (epoch s) 1) "availability storage epoch overflow"%string);
    put (mkState next (revision s) (piece_count s) (available_count s) (bits s) (changes s));;
    revision ← lift (next_revision (revision s));
    put (mkState next revision (piece_count s) 0 (map (fun _ => 0) (bits s)) []);;
    mret true.

Definition newer (c : AvailabilityCursor) (log : list AvailabilityChange) : list AvailabilityChange :=
  filter (fun change => c_revision c < ch_revision change) log.
Definition drain (s : AvailabilityState) (c : AvailabilityCursor) : AvailabilityDrain :=
  if negb (c_epoch c =? epoch s) then EpochChanged (snapshot s)
  else if revision s <? c_revision c then Lagged
  else
    let oldest_retained := match changes s with
                           | change :: _ => ch_revision change
                           | [] => saturating_add 64 (revision s) 1
                           end in
    if saturating_add 64 (c_revision c) 1 <? oldest_retained then Lagged
    else
      let batch := take (Z.to_nat MAX_AVAILABILITY_DRAIN) (newer c (changes s)) in
      let revision' := match last batch with Some change => ch_revision change | None => c_revision c end in
      Changes (mkCursor (epoch s) revision') (map ch_piece batch) (revision' <? revision s).

(** ** Specification *)

(** The pieces whose bit is set. *)
Definition avail_of (n : Z) (bits : list Z) : gset Z :=
  list_to_set (filter (fun p => bit_is_set bits p = true) (seqZ 0 n)).
Definition available_set (s : AvailabilityState) : gset Z := avail_of (piece_count s) (bits s).
(** A bit field for [n] pieces, with zero spare bits. *)
Record bits_ok (n : Z) (bits : list Z) : Prop := {
  bo_len : len bits = div_ceil n 8;
  bo_bytes : Forall (is_u 8) bits;
  bo_spare p : n <= p -> bit_is_set bits p = false;
}.
(** Consecutive revisions from [first] on. *)
Fixpoint log_ok (first : Z) (log : list AvailabilityChange) : Prop :=
  match log with [] => True | change :: r => ch_revision change = first /\ log_ok (first + 1) r end.
Record availability_ok (s : AvailabilityState) : Prop := {
  av_count : 0 < piece_count s <= MAX_LOCAL_AVAILABILITY_PIECES;
  av_bits : bits_ok (piece_count s) (bits s);
  av_available : available_count s = Z.of_nat (size (available_set s));
  av_log : log_ok (revision s - len (changes s) + 1) (changes s);
  av_log_len : len (changes s) <= MAX_AVAILABILITY_CHANGES;
  av_pieces : Forall (fun change => ch_piece change ∈ available_set s) (changes s);
  av_distinct : NoDup (map ch_piece (changes s));
  av_revision : is_u 64 (revision s);
}.

(** * Lemmas *)

(** ** Bits *)
Lemma bit_eq bits p : bit_is_set bits p
  = match nth_get bits (p / 8) with Some byte => Z.testbit byte (7 - p mod 8) | None => false end.
Proof.
  unfold bit_is_set. destruct (nth_get bits (p / 8)) as [byte|]; [|done].
  rewrite land_bit by (pose proof (Z.mod_pos_bound p 8); lia). apply negb_involutive.
Qed.
Lemma bit_negative bits p : p < 0 -> bit_is_set bits p = false.
Proof.
  intros Hp. rewrite bit_eq. unfold nth_get. by rewrite (proj2 (Z.leb_gt _ _)) by divlia.
Qed.
Lemma elem_avail n bits p : p ∈ avail_of n bits <-> 0 <= p < n /\ bit_is_set bits p = true.
Proof. unfold avail_of. rewrite elem_of_list_to_set, list_elem_of_filter, elem_of_seqZ. split; intros []; split; (done || lia). Qed.
Lemma avail_of_bits n bits p : bits_ok n bits -> bit_is_set bits p = bool_decide (p ∈ avail_of n bits).
Proof.
  intros Hb. destruct (bit_is_set bits p) eqn:E; symmetry.
  - apply bool_decide_true, elem_avail. split; [|done]. split.
    + destruct (Z.ltb_spec p 0); [by rewrite bit_negative in E|done].
    + destruct (Z.ltb_spec p n); [done|]. by rewrite (bo_spare _ _ Hb) in E.
  - apply bool_decide_false. rewrite elem_avail. intros [_ H]. congruence.
Qed.
Lemma set_bit_ok n bits p : bits_ok n bits -> 0 <= p < n ->
  exists bits', set_bit bits p true = Ok bits' /\ bits_ok n bits' /\ avail_of n bits' = {[p]} ∪ avail_of n bits.
Proof.
  intros [Hl Hb Hs] Hp. unfold set_bit. pose proof (div_lt_ceil p n 8 ltac:(lia) Hp) as Hd. rewrite <- Hl in Hd.
  destruct (nth_get_is_Some _ _ Hd) as [byte E]. unfold index. rewrite E. cbn [expect]. unfold mbind, outcome_bind.
  eexists. split; [done|]. pose proof (Z.mod_pos_bound p 8 ltac:(lia)) as Hm.
  set (mask := Z.shiftl 1 (7 - p mod 8)). set (bits' := <[Z.to_nat (p / 8) := Z.lor byte mask]> bits).
  assert (forall q, 0 <= q -> bit_is_set bits' q = bool_decide (q = p) || bit_is_set bits q) as Hbit.
  { intros q Hq. rewrite !bit_eq. unfold bits'. rewrite nth_get_insert by divlia. case_bool_decide as Eq.
    - rewrite Eq, E. unfold mask. rewrite Z.lor_spec, Z.shiftl_1_l, Z.pow2_bits_eqb by lia.
      destruct (Z.eqb_spec (7 - p mod 8) (7 - q mod 8)) as [E'|E']; case_bool_decide as E''; try done.
      + by rewrite orb_true_r.
      + exfalso. apply E''. rewrite (Z.div_mod q 8), (Z.div_mod p 8), Eq by lia. lia.
      + subst q. done.
      + by rewrite orb_false_r.
    - rewrite bool_decide_false; [done|]. by intros ->. }
  split.
  - split.
    + unfold bits'. by rewrite len_insert.
    + unfold bits'. apply Forall_insert; [done|].
      assert (is_u 8 byte) as Hbyte.
      { rewrite nth_get_lookup in E by lia. by eapply Forall_lookup in Hb. }
      unfold is_u in *. destruct (decide (Z.lor byte mask = 0)) as [->|]; [lia|].
      assert (0 <= mask) by (apply Z.shiftl_nonneg; lia). assert (0 <= Z.lor byte mask) by (apply Z.lor_nonneg; lia).
      split; [done|]. apply Z.log2_lt_pow2; [lia|]. rewrite Z.log2_lor by lia. unfold mask.
      rewrite Z.shiftl_1_l, Z.log2_pow2 by lia. apply Z.max_lub_lt; [|lia].
      destruct (decide (byte = 0)) as [->|]; [done|]. apply Z.log2_lt_pow2; lia.
    + intros q Hq. rewrite Hbit by lia. rewrite Hs, bool_decide_false by lia. done.
  - apply set_eq. intros q. rewrite elem_of_union, elem_of_singleton, !elem_avail. split.
    + intros [Hq Hqb]. rewrite Hbit in Hqb by lia. apply orb_true_iff in Hqb as [->%bool_decide_eq_true|Hqb]; [by left|by right].
    + intros [->|[Hq Hqb]]; (split; [lia|]); rewrite Hbit by lia; [by rewrite bool_decide_true|]. by rewrite Hqb, orb_true_r.
Qed.
Lemma zero_bit m p : bit_is_set (replicate m 0) p = false.
Proof.
  rewrite bit_eq. destruct (nth_get (replicate m 0) (p / 8)) as [b|] eqn:E; [|done].
  unfold nth_get in E. destruct (0 <=? p / 8); [|done]. apply lookup_replicate in E as [-> _]. apply Z.bits_0.
Qed.
Lemma zero_bits_ok n : 0 <= n -> bits_ok n (zero_bits n) /\ avail_of n (zero_bits n) = ∅.
Proof.
  intros Hn. split; [split|].
  - unfold zero_bits. rewrite len_replicate, Z2Nat.id; [done|]. unfold div_ceil. apply Z.div_pos; lia.
  - unfold zero_bits. apply Forall_forall. intros x Hx. apply elem_of_replicate in Hx as [-> _]. done.
  - intros p _. apply zero_bit.
  - apply set_eq. intros p. rewrite elem_avail. unfold zero_bits. rewrite zero_bit. set_solver.
Qed.
Lemma set_flags_ok n available : forall i bits count, bits_ok n bits -> 0 <= i -> i + len available = n ->
  (forall p, p ∈ avail_of n bits -> p < i) -> count = Z.of_nat (size (avail_of n bits)) ->
  exists bits' count', set_flags available i bits count = Ok (bits', count') /\ bits_ok n bits'
    /\ count' = Z.of_nat (size (avail_of n bits'))
    /\ forall p, p ∈ avail_of n bits' <-> p ∈ avail_of n bits \/ i <= p /\ nth_get available (p - i) = Some true.
Proof.
  induction available as [|b r IH]; intros i bits count Hb Hi Hn Hlow Hc; cbn [set_flags].
  { exists bits, count. split_and!; try done. intros p. split; [by left|]. intros [?|[_ E]]; [done|].
    apply nth_get_lt in E. unfold len in E. cbn in E. lia. }
  rewrite len_cons in Hn. pose proof (len_nonneg r).
  assert (forall p c, i <= p -> nth_get (c :: r) (p - i) = if p =? i then Some c else nth_get r (p - (i + 1))) as Hcons.
  { intros p c Hp. rewrite !nth_get_lookup by lia. destruct (Z.eqb_spec p i) as [->|].
    - by rewrite Z.sub_diag.
    - rewrite nth_get_lookup by lia. by replace (Z.to_nat (p - i)) with (S (Z.to_nat (p - (i + 1)))) by lia. }
  destruct b.
  - destruct (set_bit_ok n bits i Hb ltac:(lia)) as (bits1 & -> & Hb1 & Ha1). unfold mbind at 1, outcome_bind.
    assert (i ∉ avail_of n bits) as Hni by (intros H'; apply Hlow in H'; lia).
    destruct (IH (i + 1) bits1 (count + 1) Hb1 ltac:(lia) ltac:(lia)) as (bits' & count' & E & H1 & H2 & H3).
    + intros p. rewrite Ha1, elem_of_union, elem_of_singleton. intros [->|Hp]; [lia|]. apply Hlow in Hp. lia.
    + rewrite Ha1, size_union, size_singleton by set_solver. lia.
    + exists bits', count'. split_and!; try done. intros p. rewrite H3, Ha1, elem_of_union, elem_of_singleton.
      split; [intros [[->|Hp]|[Hp Hg]]|intros [Hp|[Hp Hg]]].
      * right. rewrite Hcons, Z.eqb_refl by lia. done.
      * by left.
      * right. rewrite Hcons, (proj2 (Z.eqb_neq _ _)) by lia. split; [lia|done].
      * left. by right.
      * rewrite Hcons in Hg by lia. destruct (Z.eqb_spec p i) as [->|]; [left; by left|right; split; [lia|done]].
  - destruct (IH (i + 1) bits count Hb ltac:(lia) ltac:(lia)) as (bits' & count' & E & H1 & H2 & H3); [|done|].
    + intros p Hp. apply Hlow in Hp. lia.
    + exists bits', count'. split_and!; try done. intros p. rewrite H3. split; intros [Hp|[Hp Hg]]; try by left.
      * right. rewrite Hcons, (proj2 (Z.eqb_neq _ _)) by lia. split; [lia|done].
      * rewrite Hcons in Hg by lia. destruct (Z.eqb_spec p i); [done|]. right. split; [lia|done].
Qed.

(** ** The log *)
Lemma log_ok_app first l k : log_ok first (l ++ k) <-> log_ok first l /\ log_ok (first + len l) k.
Proof.
  revert first. induction l as [|c l IH]; intros first; cbn [app log_ok]; [rewrite len_nil, Z.add_0_r; tauto|].
  rewrite IH, len_cons. replace (first + 1 + len l) with (first + (1 + len l)) by lia. tauto.
Qed.
Lemma log_ok_tail first l : log_ok first l -> log_ok (first + 1) (tail l).
Proof. destruct l; [done|]. by intros [_ H]. Qed.
(** The entries after a revision are a suffix. *)
Lemma newer_drop first l c : log_ok first l -> first - 1 <= c_revision c ->
  newer c l = drop (Z.to_nat (c_revision c - first + 1)) l.
Proof.
  revert first. induction l as [|x l IH]; intros first Hl Hc; [by rewrite drop_nil|].
  destruct Hl as [Hx Hl]. unfold newer. rewrite filter_cons, Hx. destruct (Z.leb_spec first (c_revision c)) as [Hle|Hlt].
  - rewrite decide_False by lia. replace (Z.to_nat (c_revision c - first + 1)) with (S (Z.to_nat (c_revision c - (first + 1) + 1))) by lia.
    apply IH; [done|lia].
  - rewrite decide_True by lia. replace (Z.to_nat (c_revision c - first + 1)) with 0%nat by lia. cbn [drop]. f_equal.
    assert (forall f k, log_ok f k -> c_revision c < f -> filter (fun ch => c_revision c < ch_revision ch) k = k) as Hall.
    { intros f k. revert f. induction k as [|y k IHk]; intros f Hk Hf; [done|]. destruct Hk as [Hy Hk].
      rewrite filter_cons, decide_True by lia. f_equal. apply (IHk (f + 1)); [done|lia]. }
    apply (Hall (first + 1)); [done|lia].
Qed.
Lemma log_last first l x : log_ok first l -> last l = Some x -> ch_revision x = first + len l - 1.
Proof.
  intros Hl Hx. apply last_Some in Hx as [k ->]. apply log_ok_app in Hl as [_ [-> _]]. rewrite len_snoc. lia.
Qed.

(** ** Operations *)
Inductive AvailabilityOp :=
| OpPublish (piece epoch : Z)
| OpReplace (epoch : Z) (available : list bool)
| OpInvalidate (epoch : Z).
Definition run_op (op : AvailabilityOp) : method unit :=
  match op with
  | OpPublish piece epoch => publish piece epoch ≫= fun _ => mret tt
  | OpReplace epoch available => replace_epoch epoch available
  | OpInvalidate epoch => invalidate_epoch epoch ≫= fun _ => mret tt
  end.
Definition op_typed (op : AvailabilityOp) : Prop := match op with OpPublish piece _ => 0 <= piece | _ => True end.

(** How an operation can change the state: one new piece in the same epoch,
    or a later epoch. *)
Inductive evolves (s s' : AvailabilityState) : Prop :=
| ev_same : s' = s -> evolves s s'
| ev_publish p : epoch s' = epoch s -> piece_count s' = piece_count s -> revision s' = revision s + 1 ->
    p ∉ available_set s -> available_set s' = {[p]} ∪ available_set s ->
    (exists k, (k <= 1)%nat /\ changes s' = drop k (changes s ++ [mkChange (revision s + 1) p])
       /\ (k = 1%nat -> len (changes s) = MAX_AVAILABILITY_CHANGES)) -> evolves s s'
| ev_epoch : epoch s < epoch s' -> piece_count s' = piece_count s -> evolves s s'.

Lemma publish_ok piece epoch' s : availability_ok s -> 0 <= piece ->
  wp (publish piece epoch') s
    (fun fresh s' => availability_ok s' /\ evolves s s' /\ epoch s = epoch' /\ available_set s' = {[piece]} ∪ available_set s
       /\ fresh = bool_decide (piece ∉ available_set s))
    (fun _ s' => s' = s).
Proof.
  intros Hs Hp. unfold publish. wp_step. wp_step. destruct (Z.eqb_spec (epoch s) epoch') as [He|]; cbn [negb]; [|by wp_step].
  destruct (Z.leb_spec (piece_count s) piece) as [|Hlt]; [by wp_step|].
  rewrite (avail_of_bits _ _ piece (av_bits _ Hs)). fold (available_set s). case_bool_decide as Hin.
  { wp_step. split_and!; try done; [by apply ev_same|set_solver|]. symmetry. apply bool_decide_false. tauto. }
  wp_step. unfold next_revision. apply wp_lift_ok_or; [|done]. intros r Er. apply checked_add_Some in Er as [-> Hr].
  pose proof (av_count _ Hs) as Hc. unfold MAX_LOCAL_AVAILABILITY_PIECES in Hc.
  rewrite (proj2 (Z.ltb_lt piece (2 ^ 32))) by (change (2 ^ 32) with 4294967296; lia).
  wp_step. cbn [ok_or]. wp_step. wp_step. destruct (set_bit_ok _ _ piece (av_bits _ Hs) ltac:(lia)) as (bits' & -> & Hb & Ha).
  repeat wp_step. fold (available_set s) in Ha.
  set (log := changes s ++ [mkChange (revision s + 1) piece]).
  set (k := if MAX_AVAILABILITY_CHANGES <? len log then 1%nat else 0%nat).
  assert ((if MAX_AVAILABILITY_CHANGES <? len log then tail log else log) = drop k log) as ->.
  { unfold k. destruct (_ <? _); [|done]. by destruct log. }
  assert (len log = len (changes s) + 1) as Ell by (unfold log; by rewrite len_snoc).
  pose proof (av_log_len _ Hs) as Hll. pose proof (len_nonneg (changes s)) as Hnn.
  assert ((k <= 1)%nat /\ (k = 1%nat -> len (changes s) = MAX_AVAILABILITY_CHANGES)
          /\ len log - Z.of_nat k <= MAX_AVAILABILITY_CHANGES) as (Hk1 & Hk2 & Hk3).
  { unfold k. destruct (Z.ltb_spec MAX_AVAILABILITY_CHANGES (len log)); split_and!; try lia; done. }
  assert (len (drop k log) = len log - Z.of_nat k) as Eld by (rewrite len_drop; lia).
  set (s' := mkState _ _ _ _ _ _). assert (available_set s' = {[piece]} ∪ available_set s) as Ha' by exact Ha.
  split; [split; cbn [s' changes revision piece_count bits available_count]|split; [|split_and!]]; try done.
  - rewrite Ha', size_union, size_singleton, (av_available _ Hs) by set_solver. lia.
  - rewrite Eld. assert (log_ok (revision s - len (changes s) + 1) log) as Hlog.
    { unfold log. apply log_ok_app. split; [apply Hs|]. split; [cbn; lia|done]. }
    destruct k as [|[|k]]; [|apply log_ok_tail in Hlog; destruct log; [done|]|lia].
    + cbn [drop]. by replace (revision s + 1 - (len log - Z.of_nat 0) + 1) with (revision s - len (changes s) + 1) by lia.
    + cbn [drop tail] in *. by replace (revision s + 1 - (len (_ :: log) - Z.of_nat 1) + 1) with (revision s - len (changes s) + 1 + 1) by lia.
  - lia.
  - apply Forall_drop. unfold log. rewrite Ha'. apply Forall_app. split.
    + eapply Forall_impl; [apply (av_pieces _ Hs)|]. intros ch. set_solver.
    + constructor; [set_solver|done].
  - rewrite <- skipn_map. unfold log. rewrite map_app. cbn [map ch_piece].
    eapply sublist_NoDup; [|apply (sublist_drop _ k)]. apply NoDup_app. split; [apply Hs|]. split; [|apply NoDup_singleton].
    intros x Hx%list_elem_of_fmap Hx'. apply list_elem_of_singleton in Hx' as ->. destruct Hx as (ch & E & Hch).
    apply Hin. rewrite E. by eapply Forall_forall in Hch; [|apply (av_pieces _ Hs)].
  - destruct (av_revision _ Hs). unfold is_u in *. lia.
  - eapply ev_publish; try done. exists k. done.
  - by rewrite bool_decide_true.
Qed.
(** The intermediate state of a new epoch keeps the invariant too. *)
Lemma new_epoch_ok e s : availability_ok s ->
  availability_ok (mkState e (revision s) (piece_count s) (available_count s) (bits s) (changes s)).
Proof. intros []. by split. Qed.
Lemma cleared_ok e r n count bits' : 0 < n <= MAX_LOCAL_AVAILABILITY_PIECES -> bits_ok n bits' -> is_u 64 r ->
  count = Z.of_nat (size (avail_of n bits')) -> availability_ok (mkState e r n count bits' []).
Proof. intros Hn Hb Hr Hc. split; try done. apply NoDup_nil_2. Qed.
Lemma replace_epoch_ok epoch' available s : availability_ok s ->
  wp (replace_epoch epoch' available) s
    (fun _ s' => availability_ok s' /\ epoch s < epoch s' /\ piece_count s' = piece_count s
       /\ forall p, p ∈ available_set s' <-> 0 <= p /\ nth_get available p = Some true)
    (fun _ s' => availability_ok s' /\ evolves s s' /\ available_set s' = available_set s).
Proof.
  intros Hs. assert (evolves s s) as Hsame by by apply ev_same.
  unfold replace_epoch. wp_step. unfold validate_piece_count.
  destruct ((len available =? 0) || (MAX_LOCAL_AVAILABILITY_PIECES <? len available)) eqn:Ev; [by wp_step|].
  apply orb_false_iff in Ev as [Ev1 Ev2]. apply Z.eqb_neq in Ev1. apply Z.ltb_ge in Ev2. wp_step. wp_step. wp_step.
  destruct (Z.eqb_spec (len available) (piece_count s)) as [El|]; cbn [negb]; [|by wp_step].
  destruct (Z.leb_spec epoch' (epoch s)) as [|Hlt]; [by wp_step|]. wp_step.
  destruct (zero_bits_ok (len available) (len_nonneg _)) as [Hz Hze].
  destruct (set_flags_ok (len available) available 0 (zero_bits (len available)) 0 Hz) as (bits' & count & -> & Hb & Hc & Hset);
    [lia|lia|rewrite Hze; set_solver|by rewrite Hze, size_empty|].
  wp_step. wp_step. wp_step. wp_step. unfold next_revision. apply wp_lift_ok_or.
  - intros r Er. apply checked_add_Some in Er as [-> Hr]. wp_step. pose proof (len_nonneg available). rewrite El in Hb, Hc, Hset.
    split_and!; try done.
    + apply cleared_ok; [apply Hs|done| |done]. destruct (av_revision _ Hs). unfold is_u in *. cbn in *. lia.
    + intros p. change (available_set _) with (avail_of (piece_count s) bits'). rewrite Hset, <- El, Hze, Z.sub_0_r. set_solver.
  - intros _. split; [by apply new_epoch_ok|]. split; [|done]. by apply ev_epoch.
Qed.
Lemma cleared_bits n bits : bits_ok n bits -> bits_ok n (map (fun _ => 0) bits) /\ avail_of n (map (fun _ => 0) bits) = ∅.
Proof.
  intros [Hl Hb Hs].
  assert (map (fun _ => 0) bits = replicate (length bits) 0) as -> by (clear; induction bits; [done|cbn; by f_equal]).
  split; [split|].
  - by rewrite len_replicate.
  - apply Forall_forall. intros x Hx. apply elem_of_replicate in Hx as [-> _]. done.
  - intros p _. apply zero_bit.
  - apply set_eq. intros p. rewrite elem_avail, zero_bit. set_solver.
Qed.
Lemma invalidate_epoch_ok epoch' s : availability_ok s ->
  wp (invalidate_epoch epoch') s
    (fun valid s' => availability_ok s' /\ valid = (epoch s =? epoch')
       /\ if valid then epoch s' = epoch s + 1 /\ piece_count s' = piece_count s /\ available_set s' = ∅ else s' = s)
    (fun _ s' => availability_ok s' /\ evolves s s' /\ available_set s' = available_set s).
Proof.
  intros Hs. unfold invalidate_epoch. wp_step. wp_step. destruct (Z.eqb_spec (epoch s) epoch') as [He0|]; cbn [negb]; [|by wp_step].
  wp_step. apply wp_lift_ok_or; [|intros _; split; [done|split; [by apply ev_same|done]]].
  intros e Ee. apply checked_add_Some in Ee as [-> _]. wp_step. wp_step. wp_step. unfold next_revision. apply wp_lift_ok_or.
  - intros r Er. apply checked_add_Some in Er as [-> Hr]. wp_step. wp_step. wp_step.
    destruct (cleared_bits _ _ (av_bits _ Hs)) as [Hb He]. split_and!; try done.
    apply cleared_ok; [apply Hs|done| |by rewrite He, size_empty]. destruct (av_revision _ Hs). unfold is_u in *. cbn in *. lia.
  - intros _. split; [by apply new_epoch_ok|]. split; [apply ev_epoch; cbn; [lia|done]|done].
Qed.
Lemma availability_op_ok op s : availability_ok s -> op_typed op ->
  returns (snd (run_op op s)) /\ availability_ok (fst (run_op op s)) /\ evolves s (fst (run_op op s)).
Proof.
  intros Hs Ht.
  assert (wp (run_op op) s (fun _ s' => availability_ok s' /\ evolves s s') (fun _ s' => availability_ok s' /\ evolves s s')) as H.
  { destruct op as [p e|e l|e]; cbn [run_op op_typed] in *.
    - wp_step. wp_call publish_ok; [done|done| |].
      + intros fresh s' (H1 & H2 & _). by wp_step.
      + intros _ s' ->. split; [done|by apply ev_same].
    - wp_call replace_epoch_ok; [done| |].
      + intros _ s' (H1 & H2 & H3 & _). split; [done|by apply ev_epoch].
      + intros _ s' (H1 & H2 & _). done.
    - wp_step. wp_call invalidate_epoch_ok; [done| |].
      + intros valid s' (H1 & -> & H2). wp_step. split; [done|]. destruct (_ =? _); [|by apply ev_same].
        destruct H2 as (H2 & H3 & _). apply ev_epoch; [lia|done].
      + intros _ s' (H1 & H2 & _). done. }
  unfold wp in H. by destruct (run_op op s) as [s' [u|?| |]].
Qed.

(** ** Following the log *)

(** A connection: it sends the pieces of a snapshot, then, for each drain,
    the pieces drained.  [told] is what the peer knows. *)
Inductive follows : AvailabilityState -> AvailabilityCursor -> gset Z -> Prop :=
| follow_start s : availability_ok s -> follows s (cursor (snapshot s)) (available_set s)
| follow_op s c told op : follows s c told -> op_typed op -> follows (fst (run_op op s)) c told
| follow_drain s c told c' pieces more : follows s c told -> drain s c = Changes c' pieces more ->
    follows s c' (told ∪ list_to_set pieces).

(** The entries the connection has not seen. *)
Definition pending (s : AvailabilityState) (c : AvailabilityCursor) : list AvailabilityChange :=
  drop (Z.to_nat (c_revision c - (revision s - len (changes s)))) (changes s).
Record following (s : AvailabilityState) (c : AvailabilityCursor) (told : gset Z) : Prop := {
  fo_ok : availability_ok s;
  fo_epoch : c_epoch c <= epoch s;
  fo_same : c_epoch c = epoch s ->
    0 <= c_revision c <= revision s /\ (changes s = [] -> c_revision c = revision s) /\ told ⊆ available_set s
    /\ (revision s - len (changes s) <= c_revision c ->
        available_set s = told ∪ list_to_set (map ch_piece (pending s c)) /\ told ## list_to_set (map ch_piece (pending s c)))
    /\ (c_revision c < revision s - len (changes s) -> len (changes s) = MAX_AVAILABILITY_CHANGES);
}.
Lemma start_following s : availability_ok s -> following s (cursor (snapshot s)) (available_set s).
Proof.
  intros Hs. pose proof (len_nonneg (changes s)). destruct (av_revision _ Hs). split; [done|done|]. intros _.
  unfold pending, cursor, snapshot. cbn [c_revision sn_revision].
  replace (Z.to_nat (revision s - (revision s - len (changes s)))) with (length (changes s)) by (unfold len; lia).
  rewrite drop_all. cbn. split_and!; try done; try lia. intros _. set_solver.
Qed.
Lemma evolves_following s s' c told : following s c told -> availability_ok s' -> evolves s s' -> following s' c told.
Proof.
  intros [Hs He Hf] Hs' [->|p E1 E2 E3 Hp Hset (k & Hk1 & Hlog & Hk2)|Hlt _].
  - done.
  - rewrite <- E1 in He. split; [done|done|]. intros Ec. rewrite E1 in Ec. destruct (Hf Ec) as (H1 & H2 & H3 & H4 & H5).
    pose proof (len_nonneg (changes s)). pose proof (av_log_len _ Hs').
    assert (len (changes s') = len (changes s) + 1 - Z.of_nat k) as El by (rewrite Hlog, len_drop, len_snoc; lia).
    rewrite E3, Hset. split; [lia|]. split.
    { intros E. rewrite E in El. unfold len in El at 1. cbn in El. pose proof (av_log_len _ Hs). destruct k as [|[|]]; [lia| |lia].
      specialize (Hk2 eq_refl). unfold MAX_AVAILABILITY_CHANGES in *. lia. }
    split; [set_solver|]. split.
    + intros Hin. assert (revision s - len (changes s) <= c_revision c) as Hin' by lia. destruct (H4 Hin') as [H6 H7].
      assert (map ch_piece (pending s' c) = map ch_piece (pending s c) ++ [p]) as ->.
      { unfold pending. rewrite E3, El, Hlog, drop_drop.
        replace (k + Z.to_nat (c_revision c - (revision s + 1 - (len (changes s) + 1 - Z.of_nat k))))%nat
          with (Z.to_nat (c_revision c - (revision s - len (changes s)))) by lia.
        rewrite drop_app_le by (unfold len in *; lia). by rewrite map_app. }
      rewrite list_to_set_app_L. cbn. split; [rewrite H6; set_solver|]. set_solver.
    + intros Hin. rewrite El. destruct k as [|[|]]; [|specialize (Hk2 eq_refl); lia|lia].
      specialize (H5 ltac:(lia)). unfold MAX_AVAILABILITY_CHANGES in *. lia.
  - split; [done|lia|]. intros Ec. lia.
Qed.

(** A drain, case by case. *)
Definition drain_means (s : AvailabilityState) (c : AvailabilityCursor) (told : gset Z) (d : AvailabilityDrain) : Prop :=
  match d with
  | Changes c' pieces more =>
    told ∪ list_to_set pieces ⊆ available_set s /\ told ## list_to_set pieces /\ NoDup pieces
    /\ len pieces <= MAX_AVAILABILITY_DRAIN /\ (more = true -> len pieces = MAX_AVAILABILITY_DRAIN)
    /\ (more = false <-> told ∪ list_to_set pieces = available_set s)
    /\ c_epoch c' = epoch s /\ c_revision c' = c_revision c + len pieces
  | EpochChanged sn => c_epoch c <> epoch s /\ sn = snapshot s
  | Lagged => c_epoch c = epoch s /\ c_revision c + MAX_AVAILABILITY_CHANGES < revision s
  end.
Lemma drain_ok s c told : following s c told ->
  drain_means s c told (drain s c)
  /\ forall c' pieces more, drain s c = Changes c' pieces more -> following s c' (told ∪ list_to_set pieces).
Proof.
  intros [Hs He Hf]. unfold drain. destruct (Z.eqb_spec (c_epoch c) (epoch s)) as [Ee|Ee]; cbn [negb]; [|done].
  destruct (Hf Ee) as (H1 & H2 & H3 & H4 & H5). rewrite (proj2 (Z.ltb_ge _ _)) by lia.
  pose proof (av_revision _ Hs) as Hr. pose proof (len_nonneg (changes s)) as Hnn. pose proof (av_log _ Hs) as Hlog.
  set (oldest := match changes s with change :: _ => ch_revision change | [] => _ end).
  assert ((saturating_add 64 (c_revision c) 1 <? oldest) = (c_revision c <? revision s - len (changes s))) as ->.
  { apply Bool.eq_iff_eq_true. rewrite !Z.ltb_lt. unfold oldest, saturating_add, umax, is_u in *.
    destruct (changes s) as [|ch l]; [rewrite H2 by done; unfold len; cbn; lia|]. destruct Hlog as [-> _]. rewrite len_cons in *.
    pose proof (len_nonneg l). lia. }
  destruct (Z.ltb_spec (c_revision c) (revision s - len (changes s))) as [Hlag|Hin].
  { split; [|done]. split; [done|]. rewrite <- H5 by done. lia. }
  destruct (H4 Hin) as [H6 H7]. set (first := revision s - len (changes s) + 1) in *.
  assert (newer c (changes s) = pending s c) as ->.
  { rewrite (newer_drop first) by (done || lia). unfold pending, first. do 2 f_equal. lia. }
  set (m := pending s c) in *. set (batch := take (Z.to_nat MAX_AVAILABILITY_DRAIN) m).
  assert (len m = revision s - c_revision c) as Elm by (unfold m, pending; rewrite len_drop; lia).
  assert (log_ok (c_revision c + 1) m) as Hlm.
  { assert (changes s = take (Z.to_nat (c_revision c - (revision s - len (changes s)))) (changes s) ++ m) as Esplit
      by (symmetry; apply take_drop).
    rewrite Esplit in Hlog. apply log_ok_app in Hlog as [_ Hlog]. rewrite len_take in Hlog. unfold first in Hlog.
    by replace (revision s - len (changes s) + 1 + Z.min _ _) with (c_revision c + 1) in Hlog by lia. }
  assert (m = batch ++ drop (Z.to_nat MAX_AVAILABILITY_DRAIN) m) as Em by (symmetry; apply take_drop).
  assert (len batch = Z.min MAX_AVAILABILITY_DRAIN (len m)) as Elb by (unfold batch; by rewrite len_take).
  set (rest := drop _ m) in *.
  assert (match last batch with Some change => ch_revision change | None => c_revision c end = c_revision c + len batch) as ->.
  { rewrite Em in Hlm. apply log_ok_app in Hlm as [Hlb _]. destruct (last batch) as [x|] eqn:El.
    - rewrite (log_last _ _ _ Hlb El). lia.
    - apply last_None in El. rewrite El. unfold len. cbn. lia. }
  assert (len (map ch_piece batch) = len batch) as Elmap by (unfold len; by rewrite length_map).
  assert (NoDup (map ch_piece m)) as Hnd.
  { unfold m, pending. rewrite <- skipn_map. eapply sublist_NoDup; [apply Hs|apply sublist_drop]. }
  assert (map ch_piece m = map ch_piece batch ++ map ch_piece rest) as Emm by (by rewrite Em at 1; rewrite map_app).
  rewrite Emm in H6, H7, Hnd. rewrite list_to_set_app_L in H6, H7. apply NoDup_app in Hnd as (N1 & N2 & N3).
  assert (pending s (mkCursor (epoch s) (c_revision c + len batch)) = rest) as Erest.
  { unfold rest, m, pending. cbn [c_revision]. rewrite drop_drop. rewrite Elb.
    destruct (Z.leb_spec MAX_AVAILABILITY_DRAIN (len m)).
    - f_equal. unfold MAX_AVAILABILITY_DRAIN in *. lia.
    - rewrite !drop_ge; [done|..]; unfold len, MAX_AVAILABILITY_DRAIN in *; lia. }
  assert (list_to_set (map ch_piece batch) ## (list_to_set (map ch_piece rest) : gset Z)) as Hdis.
  { apply elem_of_disjoint. intros x Hx Hx'. apply elem_of_list_to_set in Hx, Hx'. by eapply N2. }
  split.
  - cbn [drain_means]. rewrite Elmap. split; [rewrite H6; set_solver|]. split; [set_solver|]. split; [done|]. split; [lia|].
    split; [intros Hm; apply Z.ltb_lt in Hm; lia|]. split; [|done]. rewrite Z.ltb_ge. split.
    + intros Hge. assert (len rest = 0) as Hr0.
      { unfold rest. rewrite len_drop. unfold MAX_AVAILABILITY_DRAIN in *. lia. }
      apply len_0_nil in Hr0. rewrite Hr0 in H6. cbn in H6. rewrite H6. set_solver.
    + intros Heq. destruct (Z.leb_spec (revision s) (c_revision c + len batch)); [done|]. exfalso.
      assert (0 < len rest) as Hr0. { unfold rest. rewrite len_drop. unfold MAX_AVAILABILITY_DRAIN in *. lia. }
      destruct rest as [|x rest']; [unfold len in Hr0; cbn in Hr0; lia|]. cbn in H6, H7, Hdis. set_solver.
  - intros c' pieces more [= <- <- <-]. split; [done|done|]. intros _. cbn [c_revision]. rewrite Erest.
    pose proof (len_nonneg batch). split; [lia|]. split; [|split; [rewrite H6; set_solver|split]].
    + intros E. rewrite H2 by done. assert (len m = 0) by (rewrite Elm, H2 by done; lia). lia.
    + intros _. split; [rewrite H6; set_solver|]. set_solver.
    + intros Hlt. exfalso. pose proof (len_nonneg batch). lia.
Qed.
Lemma follows_following s c told : follows s c told -> following s c told.
Proof.
  induction 1 as [s Hs|s c told op _ IH Ht|s c told c' pieces more _ IH E].
  - by apply start_following.
  - destruct (availability_op_ok op s (fo_ok _ _ _ IH) Ht) as (_ & H1 & H2). by eapply evolves_following.
  - by eapply drain_ok.
Qed.

(** The constructors. *)
Lemma new_availability_ok e flags s : PieceAvailability_new e flags = Ok s ->
  availability_ok s /\ epoch s = e /\ forall p, p ∈ available_set s <-> 0 <= p /\ nth_get flags p = Some true.
Proof.
  unfold PieceAvailability_new, validate_piece_count. unfold mbind at 1, outcome_bind.
  destruct ((len flags =? 0) || (MAX_LOCAL_AVAILABILITY_PIECES <? len flags)) eqn:Ev; [done|].
  apply orb_false_iff in Ev as [Ev1%Z.eqb_neq Ev2%Z.ltb_ge].
  destruct (zero_bits_ok (len flags) (len_nonneg _)) as [Hz Hze].
  destruct (set_flags_ok (len flags) flags 0 (zero_bits (len flags)) 0 Hz) as (bits' & count & -> & Hb & Hc & Hset);
    [lia|lia|rewrite Hze; set_solver|by rewrite Hze, size_empty|].
  unfold mbind, outcome_bind. intros [= <-]. pose proof (len_nonneg flags). split; [|split; [done|]].
  - apply cleared_ok; [lia|done|done|done].
  - intros p. change (available_set _) with (avail_of (len flags) bits'). rewrite Hset, Hze, Z.sub_0_r. set_solver.
Qed.
Lemma empty_availability_ok n e s : PieceAvailability_empty n e = Ok s -> 0 <= n -> availability_ok s /\ available_set s = ∅.
Proof.
  unfold PieceAvailability_empty, validate_piece_count. unfold mbind, outcome_bind.
  destruct ((n =? 0) || (MAX_LOCAL_AVAILABILITY_PIECES <? n)) eqn:Ev; [done|].
  apply orb_false_iff in Ev as [Ev1%Z.eqb_neq Ev2%Z.ltb_ge]. intros [= <-] Hn. destruct (zero_bits_ok n Hn) as [Hz Hze].
  split; [|done]. apply cleared_ok; [lia|done|done|by rewrite Hze, size_empty].
Qed.

(** * Properties *)

(** C28: A peer is told exactly the verified pieces.  Take a connection that
    sends the pieces of a snapshot and then the pieces of each drain, while
    pieces are published and storage epochs change in any interleaving.
    Each drain either announces at most 16 pieces, all verified and none of
    them announced before, so that the announced pieces are exactly the
    verified ones when no more are reported and 16 more are announced
    otherwise; or reports that the epoch changed; or that the connection
    lagged, which happens only after more than 4096 newer changes. *)
Theorem drain_follows s c told : follows s c told ->
  availability_ok s /\ drain_means s c told (drain s c).
Proof. intros H. apply follows_following in H. split; [apply H|by apply drain_ok]. Qed.

(** Publishing and changing epochs keep the set.  For every state of the
    invariant (bit field of the right length with zero spare bits, count of
    available pieces, log of the last consecutive revisions) no operation
    panics and the invariant is kept; a published piece of the current epoch
    becomes available, reported as new exactly once, and a stale or foreign
    one is refused without a change; a replaced epoch has exactly the given
    pieces and an invalidated one has none. *)
Theorem availability_operations s op : availability_ok s -> op_typed op ->
  returns (snd (run_op op s)) /\ availability_ok (fst (run_op op s))
  /\ match op with
     | OpPublish p e =>
       match publish p e s with
       | (s', Ok fresh) => epoch s = e /\ available_set s' = {[p]} ∪ available_set s /\ fresh = bool_decide (p ∉ available_set s)
       | (s', Err _) => s' = s
       | _ => False
       end
     | OpReplace e l =>
       match replace_epoch e l s with
       | (s', Ok _) => epoch s < epoch s' /\ forall p, p ∈ available_set s' <-> 0 <= p /\ nth_get l p = Some true
       | (s', Err _) => available_set s' = available_set s
       | _ => False
       end
     | OpInvalidate e =>
       match invalidate_epoch e s with
       | (s', Ok true) => epoch s' = e + 1 /\ available_set s' = ∅
       | (s', Ok false) => s' = s
       | (s', Err _) => available_set s' = available_set s
       | _ => False
       end
     end.
Proof.
  intros Hs Ht. destruct (availability_op_ok op s Hs Ht) as (H1 & H2 & _). split; [done|split; [done|]].
  destruct op as [p e|e l|e]; cbn [op_typed] in Ht.
  - pose proof (publish_ok p e s Hs Ht) as H. unfold wp in H. destruct (publish p e s) as [s' [fresh|?| |]]; try done.
    by destruct H as (_ & _ & H3).
  - pose proof (replace_epoch_ok e l s Hs) as H. unfold wp in H. destruct (replace_epoch e l s) as [s' [u|?| |]]; try done.
    + by destruct H as (_ & H3 & _ & H4).
    + by destruct H as (_ & _ & H3).
  - pose proof (invalidate_epoch_ok e s Hs) as H. unfold wp in H. destruct (invalidate_epoch e s) as [s' [valid|?| |]]; try done.
    + destruct H as (_ & -> & H3). destruct (Z.eqb_spec (epoch s) e); [|done]. destruct H3 as (H3 & _ & H4). split; [lia|done].
    + by destruct H as (_ & _ & H3).
Qed.

(** The first message says what the snapshot has.  To a peer with the
    fast extension HaveAll and HaveNone stand for the full and the empty
    set; otherwise no message stands for the empty set, and a Bitfield is the
    whole bit field: its bits are the verified pieces, its length is that of
    the torrent and its spare bits are zero. *)
Theorem initial_message_exact s fast : availability_ok s ->
  match initial_message (snapshot s) fast with
  | Some HaveAll => fast = true /\ forall p, 0 <= p < piece_count s -> p ∈ available_set s
  | Some HaveNone => fast = true /\ available_set s = ∅
  | None => fast = false /\ available_set s = ∅
  | Some (Bitfield b) => available_set s <> ∅ /\ len b = div_ceil (piece_count s) 8
      /\ forall p, bit_is_set b p = bool_decide (p ∈ available_set s)
  | _ => False
  end.
Proof.
  intros Hs. unfold initial_message, snapshot. cbn. pose proof (av_available _ Hs) as Ha. pose proof (av_count _ Hs) as Hc.
  assert (available_count s = 0 -> available_set s = ∅) as Hempty.
  { intros E. apply leibniz_equiv, size_empty_inv. rewrite E in Ha. lia. }
  assert (available_count s <> 0 -> available_set s <> ∅) as Hne by (intros Hn E; apply Hn; rewrite Ha, E; by rewrite size_empty).
  assert (available_count s = piece_count s -> forall p, 0 <= p < piece_count s -> p ∈ available_set s) as Hall.
  { intros E p Hp. set (full := list_to_set (seqZ 0 (piece_count s)) : gset Z).
    assert (available_set s ⊆ full) as Hsub.
    { intros q Hq. apply elem_avail in Hq as [Hq _]. apply elem_of_list_to_set, elem_of_seqZ. lia. }
    assert (Z.of_nat (size full) = piece_count s) as Hsize.
    { unfold full. rewrite size_list_to_set by apply NoDup_seqZ. rewrite length_seqZ. lia. }
    assert (available_set s = full) as ->.
    { apply leibniz_equiv. apply set_subseteq_size_equiv; [done|]. lia. }
    apply elem_of_list_to_set, elem_of_seqZ. lia. }
  destruct fast; cbn [andb].
  - destruct (Z.eqb_spec (available_count s) (piece_count s)); [split; [done|by apply Hall]|].
    destruct (Z.eqb_spec (available_count s) 0); [split; [done|by apply Hempty]|].
    split; [by apply Hne|]. split; [apply Hs|]. intros p. by apply avail_of_bits, Hs.
  - destruct (Z.eqb_spec (available_count s) 0); [split; [done|by apply Hempty]|].
    split; [by apply Hne|]. split; [apply Hs|]. intros p. by apply avail_of_bits, Hs.
Qed.

(** ** Witnesses *)
Definition sample_availability : AvailabilityState :=
  match PieceAvailability_new 7 [true; false; true; true; false; false; false; true; true; false] with
  | Ok s => s
  | _ => mkState 0 0 0 0 [] []
  end.
Lemma sample_availability_ok : availability_ok sample_availability.
Proof.
  apply (new_availability_ok 7 [true; false; true; true; false; false; false; true; true; false]).
  vm_compute. exact eq_refl.
Qed.
Lemma sample_follows :
  follows (fst (run_op (OpPublish 4 7) sample_availability)) (cursor (snapshot sample_availability)) (available_set sample_availability).
Proof. apply follow_op; [apply follow_start, sample_availability_ok|done]. Qed.
Lemma drain_follows_witness :
  drain (fst (run_op (OpPublish 4 7) sample_availability)) (cursor (snapshot sample_availability))
  = Changes (mkCursor 7 1) [4] false
  /\ available_set sample_availability ∪ list_to_set [4] = available_set (fst (run_op (OpPublish 4 7) sample_availability)).
Proof.
  destruct (drain_follows _ _ _ sample_follows) as [_ H].
  assert (drain (fst (run_op (OpPublish 4 7) sample_availability)) (cursor (snapshot sample_availability))
          = Changes (mkCursor 7 1) [4] false) as E by (vm_compute; exact eq_refl).
  split; [exact E|]. rewrite E in H. destruct H as (_ & _ & _ & _ & _ & H & _). exact (proj1 H eq_refl).
Defined.
Lemma availability_operations_witness :
  available_set (fst (publish 4 7 sample_availability)) = {[4]} ∪ available_set sample_availability.
Proof.
  destruct (availability_operations sample_availability (OpPublish 4 7) sample_availability_ok ltac:(done)) as (_ & _ & H).
  assert (snd (publish 4 7 sample_availability) = Ok true) as E by (vm_compute; exact eq_refl).
  destruct (publish 4 7 sample_availability) as [s' o]. cbn in E. rewrite E in H. exact (proj1 (proj2 H)).
Defined.
Lemma initial_message_exact_witness :
  initial_message (snapshot sample_availability) false = Some (Bitfield [177; 128])
  /\ bit_is_set [177; 128] 8 = bool_decide (8 ∈ available_set sample_availability).
Proof.
  pose proof (initial_message_exact sample_availability false sample_availability_ok) as H.
  assert (initial_message (snapshot sample_availability) false = Some (Bitfield [177; 128])) as E by (vm_compute; exact eq_refl).
  split; [exact E|]. rewrite E in H. destruct H as (_ & _ & H). exact (H 8).
Defined.
