(* ===== verification/PeerBudget.v ===== *)
(** * The peer connection budget

    [crates/rstorrent-engine/src/peer_budget.rs]: how many TCP connections a
    session may hold.  A [PeerBudgetPermit] is acquired for every connection,
    becomes established once, and gives its place back when it is dropped;
    lowering the limit asks the newest connections to close.

    The state behind the mutex is [PeerBudgetState]; a method that locks it is
    a method on that state.  A permit is a value of its owner.  Cancellation
    tokens come from [tokio_util]: they are values of an arbitrary type
    [Token], [try_acquire] is given the one it creates, and the operations
    that cancel return the tokens they cancel, in order. *)
From S2P Require Import Prelude Ordered.

Definition DEFAULT_CONNECTION_LIMIT : Z := 200.
Definition DEFAULT_INCOMING_CONNECTION_SLACK : Z := 10.
Definition MIN_EFFECTIVE_CONNECTION_LIMIT : Z := 5.
Definition OPEN_FILE_MARGIN : Z := 20.
Definition CONNECTION_FILE_PERCENT : Z := 80.
Definition MAX_REPORTED_OPEN_FILES : Z := 10000000.

Record PeerBudgetConfig := mkConfig { configured_limit : Z; incoming_slack : Z; max_open_files : Z }.

Definition effective_connection_limit (configured max_open_files : Z) : Z :=
  let reported := if MAX_REPORTED_OPEN_FILES <? max_open_files then MAX_REPORTED_OPEN_FILES else max_open_files in
  let available := saturating_sub reported OPEN_FILE_MARGIN in
  let connection_files := saturating_mul USIZE available CONNECTION_FILE_PERCENT / 100 in
  let descriptor_limit := if connection_files <? MIN_EFFECTIVE_CONNECTION_LIMIT
                          then MIN_EFFECTIVE_CONNECTION_LIMIT else connection_files in
  if configured <? descriptor_limit then configured else descriptor_limit.
Definition config_effective_limit (c : PeerBudgetConfig) : Z :=
  effective_connection_limit (configured_limit c) (max_open_files c).
(** The number of open files is what the operating system reports. *)
Definition config_system_default (detected_max_open_files : Z) : PeerBudgetConfig :=
  mkConfig DEFAULT_CONNECTION_LIMIT DEFAULT_INCOMING_CONNECTION_SLACK detected_max_open_files.

Inductive PeerBudgetDirection := Incoming | Outgoing.
Inductive PeerBudgetPhase := Connecting | Established.
#[export] Instance direction_eq_dec : EqDecision PeerBudgetDirection.
Proof. solve_decision. Defined.
#[export] Instance phase_eq_dec : EqDecision PeerBudgetPhase.
Proof. solve_decision. Defined.

Record PeerBudgetRejection := mkRejection { rejected : PeerBudgetDirection; current : Z; maximum_of : Z }.
Record PeerBudgetReconfiguration := mkReconfiguration {
  r_configured_limit : Z;
  r_effective_limit : Z;
  r_absolute_limit : Z;
  cancellation_requests : Z;
  within_limit : bool;
}.
Record PeerBudgetSnapshot := mkSnapshot {
  sn_configured_limit : Z;
  sn_effective_limit : Z;
  sn_incoming_slack : Z;
  sn_outgoing_connecting : Z;
  sn_outgoing_established : Z;
  sn_incoming_connecting : Z;
  sn_incoming_established : Z;
  sn_total : Z;
  sn_total_high_water : Z;
}.

Definition phase_eviction_order (phase : PeerBudgetPhase) : Z :=
  match phase with Connecting => 0 | Established => 1 end.
(** The comparator of [reconfigure]: connecting before established, and the
    newest first. *)
Definition evict_cmp (l r : Z * PeerBudgetPhase) : comparison :=
  then_with (Z.compare (phase_eviction_order l.2) (phase_eviction_order r.2)) (Z.compare r.1 l.1).

Section budget.
Context {Token : Type}.

Record PeerBudgetEntry := mkEntry {
  e_direction : PeerBudgetDirection;
  e_phase : PeerBudgetPhase;
  e_cancellation : Token;
  cancellation_requested : bool;
}.
Record PeerBudgetState := mkBudget {
  config : PeerBudgetConfig;
  effective_limit : Z;
  next_generation : Z;
  outgoing_connecting : Z;
  outgoing_established : Z;
  incoming_connecting : Z;
  incoming_established : Z;
  total_high_water : Z;
  entries : gmap Z PeerBudgetEntry;
}.
Record PeerBudgetPermit := mkPermit {
  generation : Z;
  direction : PeerBudgetDirection;
  phase : PeerBudgetPhase;
  cancellation : Token;
  active : bool;
}.

Definition set_limits c n s := mkBudget c n (next_generation s) (outgoing_connecting s) (outgoing_established s)
  (incoming_connecting s) (incoming_established s) (total_high_water s) (entries s).
Definition set_next n s := mkBudget (config s) (effective_limit s) n (outgoing_connecting s) (outgoing_established s)
  (incoming_connecting s) (incoming_established s) (total_high_water s) (entries s).
Definition set_high n s := mkBudget (config s) (effective_limit s) (next_generation s) (outgoing_connecting s)
  (outgoing_established s) (incoming_connecting s) (incoming_established s) n (entries s).
Definition set_entries es s := mkBudget (config s) (effective_limit s) (next_generation s) (outgoing_connecting s)
  (outgoing_established s) (incoming_connecting s) (incoming_established s) (total_high_water s) es.
Definition set_counters oc oe ic ie s := mkBudget (config s) (effective_limit s) (next_generation s) oc oe ic ie
  (total_high_water s) (entries s).

Abbreviation method := (M PeerBudgetState PeerBudgetRejection).

Definition total (s : PeerBudgetState) : Z :=
  outgoing_connecting s + outgoing_established s + incoming_connecting s + incoming_established s.
Definition maximum (s : PeerBudgetState) (d : PeerBudgetDirection) : Z :=
  match d with
  | Outgoing => effective_limit s
  | Incoming => saturating_add USIZE (effective_limit s) (incoming_slack (config s))
  end.
Definition absolute_limit (s : PeerBudgetState) : Z :=
  saturating_add USIZE (effective_limit s) (incoming_slack (config s)).

(** [counter_mut], as the value read and the state written. *)
Definition counter (d : PeerBudgetDirection) (p : PeerBudgetPhase) (s : PeerBudgetState) : Z :=
  match d, p with
  | Outgoing, Connecting => outgoing_connecting s
  | Outgoing, Established => outgoing_established s
  | Incoming, Connecting => incoming_connecting s
  | Incoming, Established => incoming_established s
  end.
Definition set_counter (d : PeerBudgetDirection) (p : PeerBudgetPhase) (n : Z) (s : PeerBudgetState) : PeerBudgetState :=
  match d, p with
  | Outgoing, Connecting => set_counters n (outgoing_established s) (incoming_connecting s) (incoming_established s) s
  | Outgoing, Established => set_counters (outgoing_connecting s) n (incoming_connecting s) (incoming_established s) s
  | Incoming, Connecting => set_counters (outgoing_connecting s) (outgoing_established s) n (incoming_established s) s
  | Incoming, Established => set_counters (outgoing_connecting s) (outgoing_established s) (incoming_connecting s) n s
  end.
Definition increment (d : PeerBudgetDirection) (p : PeerBudgetPhase) : method unit :=
  s ← get;
  n ← lift (expect (checked_add USIZE (counter d p s) 1));
  modify (set_counter d p n);;
  modify (fun s => set_high (Z.max (total_high_water s) (total s)) s).
Definition decrement (d : PeerBudgetDirection) (p : PeerBudgetPhase) : method unit :=
  s ← get;
  if negb (0 <? counter d p s) then lift Panic
  else modify (set_counter d p (saturating_sub (counter d p s) 1)).

Definition snapshot (s : PeerBudgetState) : PeerBudgetSnapshot :=
  mkSnapshot (configured_limit (config s)) (effective_limit s) (incoming_slack (config s)) (outgoing_connecting s)
             (outgoing_established s) (incoming_connecting s) (incoming_established s) (total s) (total_high_water s).

Definition PeerBudget_new (c : PeerBudgetConfig) : PeerBudgetState :=
  mkBudget c (config_effective_limit c) 1 0 0 0 0 0 ∅.

Definition try_acquire (d : PeerBudgetDirection) (token : Token) : method PeerBudgetPermit :=
  s ← get;
  if maximum s d <=? total s then fail (mkRejection d (total s) (maximum s d))
  else if next_generation s =? 0 then fail (mkRejection d (total s) (total s))
  else
    modify (set_next (default 0 (checked_add 64 (next_generation s) 1)));;
    modify (set_entries (<[next_generation s := mkEntry d Connecting token false]> (entries s)));;
    increment d Connecting;;
    mret (mkPermit (next_generation s) d Connecting token true).

Definition request_entry (e : PeerBudgetEntry) : PeerBudgetEntry :=
  mkEntry (e_direction e) (e_phase e) (e_cancellation e) true.
(** The loop that marks the selected entries and collects their tokens. *)
Fixpoint request (selected : list Z) (es : gmap Z PeerBudgetEntry) : gmap Z PeerBudgetEntry * list Token :=
  match selected with
  | [] => (es, [])
  | g :: selected =>
      match es !! g with
      | Some e => let '(es, tokens) := request selected (<[g := request_entry e]> es) in (es, e_cancellation e :: tokens)
      | None => request selected es
      end
  end.
Definition candidates (s : PeerBudgetState) : list (Z * PeerBudgetPhase) :=
  sort_by evict_cmp
    (map (fun ge => (ge.1, e_phase ge.2))
         (filter (fun ge => cancellation_requested ge.2 = false) (btree_items (entries s)))).
Definition already_requested (s : PeerBudgetState) : Z :=
  len (filter (fun ge => cancellation_requested ge.2 = true) (btree_items (entries s))).
Definition excess (s : PeerBudgetState) : Z := saturating_sub (total s) (absolute_limit s).
Definition selected (s : PeerBudgetState) : list Z :=
  map fst (take (Z.to_nat (saturating_sub (excess s) (already_requested s))) (candidates s)).
Definition reconfigure (limit : Z) : method (PeerBudgetReconfiguration * list Token) :=
  modify (fun s =>
    let c := mkConfig limit (incoming_slack (config s)) (max_open_files (config s)) in
    set_limits c (config_effective_limit c) s);;
  s ← get;
  let '(es, tokens) := request (selected s) (entries s) in
  put (set_entries es s);;
  mret (mkReconfiguration limit (effective_limit s) (absolute_limit s) (len tokens)
                          (total s <=? absolute_limit s), tokens).
Definition cancel_incoming : method (list Token) :=
  s ← get;
  let '(es, tokens) :=
    request (map fst (filter (fun ge => e_direction ge.2 = Incoming /\ cancellation_requested ge.2 = false)
                             (btree_items (entries s)))) (entries s) in
  put (set_entries es s);;
  mret tokens.
Definition within_absolute_limit (s : PeerBudgetState) : bool := total s <=? absolute_limit s.

Definition with_phase (p : PeerBudgetPermit) (ph : PeerBudgetPhase) : PeerBudgetPermit :=
  mkPermit (generation p) (direction p) ph (cancellation p) (active p).
Definition mark_established (p : PeerBudgetPermit) : method PeerBudgetPermit :=
  if bool_decide (phase p = Established) || negb (active p) then mret p
  else
    decrement (direction p) (phase p);;
    increment (direction p) Established;;
    s ← get;
    match entries s !! generation p with
    | Some e =>
        (if bool_decide (e_direction e = direction p) then mret tt else lift Panic);;
        modify (set_entries (<[generation p := mkEntry (e_direction e) Established (e_cancellation e)
                                                       (cancellation_requested e)]> (entries s)))
    | None => mret tt
    end;;
    mret (with_phase p Established).
(** [Drop]: the permit is inactive from then on. *)
Definition drop_permit (p : PeerBudgetPermit) : method unit :=
  if negb (active p) then mret tt
  else
    modify (fun s => set_entries (delete (generation p) (entries s)) s);;
    decrement (direction p) (phase p).
End budget.
Arguments PeerBudgetEntry Token : clear implicits.
Arguments PeerBudgetState Token : clear implicits.
Arguments PeerBudgetPermit Token : clear implicits.

(** * Specification *)
Section budget_spec.
Context {Token : Type}.
Abbreviation state := (PeerBudgetState Token).
Abbreviation entry := (PeerBudgetEntry Token).
Abbreviation permit := (PeerBudgetPermit Token).
Implicit Types (s : state) (e : entry) (p : permit) (d : PeerBudgetDirection) (ph : PeerBudgetPhase) (g : Z).
Implicit Types (es : gmap Z entry) (ps : gmap Z permit).

Definition kind_is d ph (e : entry) : Prop := e_direction e = d /\ e_phase e = ph.
Definition asked_to_close (e : entry) : Prop := cancellation_requested e = true.
Definition requested s : Z := count_if asked_to_close (entries s).
Definition config_typed (c : PeerBudgetConfig) : Prop :=
  is_u 64 (configured_limit c) /\ is_u 64 (incoming_slack c) /\ is_u 64 (max_open_files c).
(** The permit an entry stands for. *)
Definition permit_of g (e : entry) : permit := mkPermit g (e_direction e) (e_phase e) (e_cancellation e) true.

Record budget_ok s : Prop := {
  bo_config : config_typed (config s);
  bo_limit : effective_limit s = config_effective_limit (config s);
  bo_next : is_u 64 (next_generation s);
  bo_generations g e : entries s !! g = Some e -> 0 < g /\ (next_generation s = 0 \/ g < next_generation s);
  bo_counters d ph : counter d ph s = count_if (kind_is d ph) (entries s);
  bo_high : total s <= total_high_water s;
  bo_pending : total s <= absolute_limit s + requested s;
  bo_typed : total s <= umax 64;
}.

(** ** Counting *)
Lemma sum_of_kinds es :
  count_if (kind_is Outgoing Connecting) es + count_if (kind_is Outgoing Established) es
  + count_if (kind_is Incoming Connecting) es + count_if (kind_is Incoming Established) es = Z.of_nat (size es).
Proof.
  induction es as [|g e es Hg IH] using map_ind; [done|].
  rewrite !count_insert, map_size_insert_None by done. unfold one_if, kind_is in *.
  destruct e as [[] [] ? ?]; cbn; repeat case_decide; naive_solver lia.
Qed.
Lemma total_is_size s : budget_ok s -> total s = Z.of_nat (size (entries s)).
Proof. intros H. unfold total. rewrite <- sum_of_kinds, <- !(bo_counters _ H). done. Qed.
Lemma requested_le_total s : budget_ok s -> requested s <= total s.
Proof. intros H. rewrite (total_is_size _ H). apply count_le_size. Qed.
Lemma total_counter d ph s : budget_ok s -> counter d ph s <= total s /\ 0 <= counter d ph s.
Proof.
  intros H. unfold total.
  pose proof (fun d ph => count_nonneg (kind_is d ph) (entries s)) as Hn.
  assert (forall d ph, 0 <= counter d ph s) as Hc by (intros; by rewrite (bo_counters _ H)).
  pose proof (Hc Outgoing Connecting); pose proof (Hc Outgoing Established); pose proof (Hc Incoming Connecting);
    pose proof (Hc Incoming Established). destruct d, ph; cbn in *; lia.
Qed.

(** ** Bounds of the limits *)
Lemma effective_limit_bounds configured files : 0 <= configured -> 0 <= files ->
  0 <= effective_connection_limit configured files <= configured
  /\ effective_connection_limit configured files <= 8000000
  /\ (5 <= configured -> 5 <= effective_connection_limit configured files).
Proof.
  intros Hc Hf. unfold effective_connection_limit, MAX_REPORTED_OPEN_FILES, OPEN_FILE_MARGIN, CONNECTION_FILE_PERCENT,
    MIN_EFFECTIVE_CONNECTION_LIMIT, saturating_mul, saturating_sub, umax, USIZE.
  set (reported := if 10000000 <? files then 10000000 else files).
  assert (0 <= reported <= 10000000) as Hr by (unfold reported; case_match; lia). clearbody reported.
  set (available := Z.max 0 (reported - 20)). assert (0 <= available <= 9999980) as Ha by lia. clearbody available.
  rewrite Z.min_l by lia. set (files' := available * 80 / 100).
  assert (0 <= files' <= 7999984) as Hq by (unfold files'; Z.to_euclidean_division_equations; lia). clearbody files'.
  repeat case_match; lia.
Qed.
Lemma absolute_bounds s : budget_ok s -> 0 <= effective_limit s <= absolute_limit s /\ absolute_limit s <= umax 64.
Proof.
  intros H. destruct (bo_config _ H) as (H1 & H2 & H3). unfold is_u in *. rewrite (bo_limit _ H).
  unfold absolute_limit. rewrite (bo_limit _ H). unfold config_effective_limit.
  pose proof (effective_limit_bounds (configured_limit (config s)) (max_open_files (config s)) ltac:(lia) ltac:(lia)).
  unfold saturating_add, umax, USIZE in *. lia.
Qed.
Lemma maximum_absolute s d : budget_ok s -> maximum s d <= absolute_limit s.
Proof. intros H. pose proof (absolute_bounds _ H). unfold absolute_limit, maximum in *. destruct d; lia. Qed.

(** ** The counters, one at a time *)
Lemma counter_set d ph n d' ph' s :
  counter d' ph' (set_counter d ph n s) = if decide (d = d' /\ ph = ph') then n else counter d' ph' s.
Proof. destruct d, ph, d', ph'; by case_decide; naive_solver. Qed.
Lemma total_set d ph n s : total (set_counter d ph n s) = total s - counter d ph s + n.
Proof. destruct d, ph; unfold total; cbn; lia. Qed.
Lemma set_counter_fields d ph n s :
  config (set_counter d ph n s) = config s /\ effective_limit (set_counter d ph n s) = effective_limit s
  /\ next_generation (set_counter d ph n s) = next_generation s
  /\ total_high_water (set_counter d ph n s) = total_high_water s /\ entries (set_counter d ph n s) = entries s.
Proof. by destruct d, ph. Qed.

Definition counted d ph s : state :=
  let s := set_counter d ph (counter d ph s + 1) s in set_high (Z.max (total_high_water s) (total s)) s.
Lemma increment_eq d ph s : counter d ph s < umax 64 -> increment d ph s = (counted d ph s, Ok tt).
Proof.
  intros H. unfold increment. rewrite get_bind. unfold checked_add, USIZE, umax in *.
  replace (counter d ph s + 1 <? 2 ^ 64) with true by (symmetry; apply Z.ltb_lt; lia). done.
Qed.
Lemma decrement_eq d ph s : 0 < counter d ph s ->
  decrement d ph s = (set_counter d ph (counter d ph s - 1) s, Ok tt).
Proof.
  intros H. unfold decrement. rewrite get_bind. rewrite (proj2 (Z.ltb_lt _ _) H). cbn [negb].
  unfold saturating_sub. rewrite Z.max_r by lia. done.
Qed.
Lemma counter_counted d ph d' ph' s :
  counter d' ph' (counted d ph s) = counter d' ph' s + (if decide (d = d' /\ ph = ph') then 1 else 0).
Proof.
  unfold counted. assert (forall n s, counter d' ph' (set_high n s) = counter d' ph' s) as -> by (by intros ??; destruct d', ph').
  rewrite counter_set. case_decide as E; [destruct E as [-> ->]|]; lia.
Qed.
Lemma total_counted d ph s : total (counted d ph s) = total s + 1.
Proof.
  unfold counted. assert (forall n s, total (set_high n s) = total s) as -> by done. rewrite total_set. lia.
Qed.
Lemma counted_fields d ph s :
  config (counted d ph s) = config s /\ effective_limit (counted d ph s) = effective_limit s
  /\ next_generation (counted d ph s) = next_generation s
  /\ total_high_water (counted d ph s) = Z.max (total_high_water s) (total s + 1)
  /\ entries (counted d ph s) = entries s.
Proof.
  unfold counted. cbn. rewrite total_set. destruct (set_counter_fields d ph (counter d ph s + 1) s) as (-> & -> & -> & -> & ->).
  split_and!; try done. lia.
Qed.

(** ** Acquiring *)
Definition acquired d (token : Token) s : state :=
  counted d Connecting
    (set_entries (<[next_generation s := mkEntry d Connecting token false]> (entries s))
       (set_next (default 0 (checked_add 64 (next_generation s) 1)) s)).
Lemma acquired_counter d (token : Token) s : budget_ok s -> total s < maximum s d -> counter d Connecting s < umax 64.
Proof.
  intros H Hlt. pose proof (total_counter d Connecting s H). pose proof (maximum_absolute s d H).
  pose proof (absolute_bounds s H). lia.
Qed.
Lemma try_acquire_eq d (token : Token) s : budget_ok s ->
  try_acquire d token s =
    if maximum s d <=? total s then (s, Err (mkRejection d (total s) (maximum s d)))
    else if next_generation s =? 0 then (s, Err (mkRejection d (total s) (total s)))
    else (acquired d token s, Ok (mkPermit (next_generation s) d Connecting token true)).
Proof.
  intros H. unfold try_acquire. rewrite get_bind. destruct (Z.leb_spec (maximum s d) (total s)) as [Hle|Hlt]; [done|].
  destruct (next_generation s =? 0); [done|].
  unfold mbind, M_bind, modify at 1. unfold modify at 1.
  rewrite increment_eq; [done|].
  replace (counter _ _ _) with (counter d Connecting s) by (by destruct d). by apply (acquired_counter d token).
Qed.
Lemma fresh_generation s : budget_ok s -> next_generation s <> 0 -> entries s !! next_generation s = None.
Proof.
  intros H Hn. destruct (entries s !! next_generation s) as [e|] eqn:E; [|done].
  apply (bo_generations _ H) in E. lia.
Qed.
Lemma generation_step n : is_u 64 n ->
  is_u 64 (default 0 (checked_add 64 n 1)) /\ (default 0 (checked_add 64 n 1) = 0 \/ default 0 (checked_add 64 n 1) = n + 1).
Proof. unfold checked_add, is_u. intros H. destruct (Z.ltb_spec (n + 1) (2 ^ 64)); cbn; lia. Qed.
Lemma acquired_ok d (token : Token) s : budget_ok s -> total s < maximum s d -> next_generation s <> 0 ->
  budget_ok (acquired d token s)
  /\ entries (acquired d token s) = <[next_generation s := mkEntry d Connecting token false]> (entries s)
  /\ total (acquired d token s) = total s + 1.
Proof.
  intros H Hlt Hn. pose proof (fresh_generation s H Hn) as Hfresh. unfold acquired.
  set (s1 := set_entries _ _).
  assert (total s1 = total s) as Ht by done. assert (absolute_limit s1 = absolute_limit s) as Ha by done.
  destruct (counted_fields d Connecting s1) as (E1 & E2 & E3 & E4 & E5).
  pose proof (maximum_absolute s d H) as Hm. pose proof (absolute_bounds s H) as Hab. pose proof (bo_next _ H) as Hnext.
  split; [|by rewrite total_counted, E5, Ht]. split.
  - rewrite E1. apply H.
  - rewrite E1, E2. apply H.
  - rewrite E3. apply generation_step, Hnext.
  - rewrite E3, E5. cbn -[checked_add]. intros g e Hg. destruct (generation_step _ Hnext) as [_ Hstep]. unfold is_u in Hnext.
    apply lookup_insert_Some in Hg as [[<- <-]|[Hne Hg]]; [lia|]. apply (bo_generations _ H) in Hg. lia.
  - intros d' ph'. rewrite counter_counted, E5. cbn. rewrite count_insert by done. rewrite <- (bo_counters _ H).
    unfold one_if, kind_is. cbn. f_equal.
  - rewrite total_counted, E4. lia.
  - rewrite total_counted. unfold requested. rewrite E5. cbn. rewrite count_insert by done. unfold one_if, asked_to_close. cbn.
    pose proof (count_nonneg asked_to_close (entries s)) as Hnn. unfold asked_to_close in Hnn.
    unfold absolute_limit in *. rewrite E1, E2. cbn. case_decide; [done|]. lia.
  - rewrite total_counted. lia.
Qed.

(** ** Establishing and dropping *)
Definition established g e s : state :=
  set_entries (<[g := mkEntry (e_direction e) Established (e_cancellation e) (cancellation_requested e)]> (entries s))
    (counted (e_direction e) Established
       (set_counter (e_direction e) Connecting (counter (e_direction e) Connecting s - 1) s)).
Lemma counter_positive s g e : budget_ok s -> entries s !! g = Some e -> 0 < counter (e_direction e) (e_phase e) s.
Proof.
  intros H He. rewrite (bo_counters _ H). rewrite <- (insert_delete_id (entries s) g e) by done.
  rewrite count_insert by apply lookup_delete_eq. pose proof (count_nonneg (kind_is (e_direction e) (e_phase e)) (delete g (entries s))).
  unfold one_if. rewrite decide_True by done. lia.
Qed.
Lemma mark_established_eq s g e : budget_ok s -> entries s !! g = Some e ->
  mark_established (permit_of g e) s =
    match e_phase e with
    | Established => (s, Ok (permit_of g e))
    | Connecting => (established g e s, Ok (with_phase (permit_of g e) Established))
    end.
Proof.
  intros H He. unfold mark_established. cbn [phase permit_of active negb orb].
  pose proof (counter_positive s g e H He) as Hpos. pose proof (total_counter (e_direction e) Established s H) as Hest.
  pose proof (bo_typed _ H) as Htyped. pose proof (counter_positive s g e H He) as Hp. pose proof (total_counter (e_direction e) Connecting s H).
  destruct (e_phase e) eqn:Ep; [|done]. rewrite bool_decide_eq_false_2 by done. cbn [orb].
  unfold mbind at 1. unfold M_bind at 1. cbn [direction permit_of]. rewrite decrement_eq by done.
  set (s1 := set_counter _ _ _ s). unfold mbind at 1. unfold M_bind at 1.
  assert (counter (e_direction e) Established s1 = counter (e_direction e) Established s) as E1.
  { unfold s1. rewrite counter_set, decide_False by naive_solver. done. }
  rewrite increment_eq; [rewrite get_bind|].
  - destruct (counted_fields (e_direction e) Established s1) as (_ & _ & _ & _ & E).
    destruct (set_counter_fields (e_direction e) Connecting (counter (e_direction e) Connecting s - 1) s) as (_ & _ & _ & _ & E').
    rewrite E. fold s1 in E'. rewrite E'. cbn [generation permit_of]. rewrite He, bool_decide_eq_true_2 by done.
    unfold established. fold s1. done.
  - rewrite E1. unfold total in *. pose proof (fun d ph => total_counter d ph s H) as Hc.
    pose proof (Hc Outgoing Connecting); pose proof (Hc Incoming Connecting); pose proof (Hc Outgoing Established);
      pose proof (Hc Incoming Established).
    destruct (e_direction e); cbn in *; lia.
Qed.

Lemma established_ok s g e : budget_ok s -> entries s !! g = Some e -> e_phase e = Connecting ->
  budget_ok (established g e s)
  /\ entries (established g e s) = <[g := mkEntry (e_direction e) Established (e_cancellation e) (cancellation_requested e)]> (entries s)
  /\ total (established g e s) = total s.
Proof.
  intros H He Hp. unfold established. set (d := e_direction e). set (s1 := set_counter _ _ _ s).
  destruct (counted_fields d Established s1) as (E1 & E2 & E3 & E4 & E5).
  destruct (set_counter_fields d Connecting (counter d Connecting s - 1) s) as (F1 & F2 & F3 & F4 & F5). fold s1 in F1, F2, F3, F4, F5.
  assert (total s1 = total s - 1) as Ht by (unfold s1; rewrite total_set; lia).
  set (es := <[g := _]> (entries s)).
  assert (forall (s : state), total (set_entries es s) = total s) as Hset by done.
  assert (total (set_entries es (counted d Established s1)) = total s) as Htot by (rewrite Hset, total_counted; lia).
  split; [|done]. split; cbn [config effective_limit next_generation entries total_high_water set_entries]; rewrite ?Htot, ?E1, ?E2, ?E3, ?F1, ?F2, ?F3.
  - apply H.
  - apply H.
  - apply H.
  - intros g' e' [[<- <-]|[Hne Hg]]%lookup_insert_Some; [|by apply (bo_generations _ H) in Hg].
    by apply (bo_generations _ H) in He.
  - intros d' ph'. unfold es. rewrite (count_update _ _ _ e) by done. rewrite <- (bo_counters _ H).
    transitivity (counter d' ph' (counted d Established s1)); [by destruct d', ph'|].
    rewrite counter_counted. unfold s1. rewrite counter_set. unfold one_if, kind_is. cbn. fold d. rewrite Hp.
    destruct ph'; repeat case_decide; try naive_solver lia.
  - rewrite E4, F4. pose proof (bo_high _ H). lia.
  - unfold requested. cbn [entries set_entries]. unfold es at 2. rewrite (count_update _ _ _ e) by done.
    unfold one_if, asked_to_close. cbn [cancellation_requested].
    pose proof (bo_pending _ H) as Hpend. unfold requested, asked_to_close in *.
    assert (absolute_limit (set_entries es (counted d Established s1)) = absolute_limit s) as Habs.
    { unfold absolute_limit. cbn -[counted]. by rewrite E1, E2, F1, F2. }
    rewrite Habs. lia.
  - apply H.
Qed.

Definition dropped g e s : state :=
  set_counter (e_direction e) (e_phase e) (counter (e_direction e) (e_phase e) s - 1)
    (set_entries (delete g (entries s)) s).
Lemma drop_permit_eq s g e : budget_ok s -> entries s !! g = Some e ->
  drop_permit (permit_of g e) s = (dropped g e s, Ok tt).
Proof.
  intros H He. unfold drop_permit. cbn [active permit_of negb direction phase generation]. unfold mbind, M_bind, modify.
  rewrite decrement_eq.
  - unfold dropped. by destruct (e_direction e), (e_phase e).
  - pose proof (counter_positive s g e H He). by destruct (e_direction e), (e_phase e).
Qed.
Lemma dropped_ok s g e : budget_ok s -> entries s !! g = Some e ->
  budget_ok (dropped g e s) /\ entries (dropped g e s) = delete g (entries s) /\ total (dropped g e s) = total s - 1.
Proof.
  intros H He. unfold dropped. set (d := e_direction e). set (ph := e_phase e). set (s1 := set_entries _ s).
  destruct (set_counter_fields d ph (counter d ph s - 1) s1) as (E1 & E2 & E3 & E4 & E5).
  assert (total s1 = total s /\ counter d ph s1 = counter d ph s) as [Ht Hc] by (by destruct d, ph).
  assert (total (set_counter d ph (counter d ph s - 1) s1) = total s - 1) as Htot by (rewrite total_set; lia).
  split; [|split; [exact E5|exact Htot]]. split; rewrite ?Htot, ?E1, ?E2, ?E3, ?E4, ?E5.
  - apply H.
  - apply H.
  - apply H.
  - cbn [entries set_entries s1]. intros g' e' [_ Hg]%lookup_delete_Some. by apply (bo_generations _ H) in Hg.
  - intros d' ph'. cbn. rewrite (count_delete _ _ _ e) by done. rewrite <- (bo_counters _ H). rewrite counter_set.
    assert (counter d' ph' s1 = counter d' ph' s) as -> by (by destruct d', ph'). unfold one_if, kind_is. fold d ph.
    repeat case_decide; try lia; destruct_and?; subst; lia.
  - cbn. pose proof (bo_high _ H). lia.
  - unfold requested. rewrite E5. cbn. rewrite (count_delete _ _ _ e) by done. unfold absolute_limit. rewrite E1, E2. cbn.
    pose proof (bo_pending _ H) as Hpend. unfold requested, absolute_limit in *. unfold one_if. case_decide; lia.
  - pose proof (bo_typed _ H). lia.
Qed.

(** ** Asking connections to close *)
Record request_means (sel : list Z) es es' (tokens : list Token) : Prop := {
  rq_lookup g : es' !! g = if decide (g ∈ sel) then request_entry <$> es !! g else es !! g;
  rq_tokens : tokens = omap (fun g => e_cancellation <$> es !! g) sel;
  rq_len : len tokens = len sel;
  rq_asked : count_if asked_to_close es' = count_if asked_to_close es + len sel;
  rq_kinds d ph : count_if (kind_is d ph) es' = count_if (kind_is d ph) es;
}.
Lemma request_spec (sel : list Z) es : NoDup sel ->
  (forall g, g ∈ sel -> exists e, es !! g = Some e /\ cancellation_requested e = false) ->
  request_means sel es (fst (request sel es)) (snd (request sel es)).
Proof.
  revert es. induction sel as [|g sel IH]; cbn; intros es Hnd Hsel.
  { split; cbn; try done; intros; rewrite ?len_nil; lia. }
  apply NoDup_cons in Hnd as [Hg Hnd]. destruct (Hsel g) as (e & He & Hf); [by left|]. rewrite He.
  specialize (IH (<[g := request_entry e]> es) Hnd).
  destruct (request sel (<[g := request_entry e]> es)) as [es' tokens]. cbn in *.
  assert (forall g', g' ∈ sel -> <[g := request_entry e]> es !! g' = es !! g') as Hother.
  { intros g' Hg'. apply lookup_insert_ne. congruence. }
  destruct IH as [H1 H2 H3 H4 H5]. { intros g' Hg'. rewrite Hother by done. apply Hsel. by right. }
  split.
  - intros g'. rewrite H1. destruct (decide (g' = g)) as [->|Hne].
    + rewrite decide_False by done. rewrite decide_True by (by left). by rewrite lookup_insert_eq, He.
    + rewrite lookup_insert_ne by done. destruct (decide (g' ∈ sel)) as [Hin|Hin].
      * by rewrite decide_True by (by right).
      * rewrite decide_False; [done|]. by intros [?|?]%elem_of_cons.
  - rewrite H2. cbn. rewrite He. cbn. f_equal. clear -Hother.
    induction sel as [|x sel IH]; cbn; [done|]. rewrite Hother by (by left). rewrite IH; [done|].
    intros g' Hg'. apply Hother. by right.
  - rewrite !len_cons, H3. lia.
  - rewrite H4, len_cons, (count_update _ _ _ e) by done. unfold one_if, asked_to_close. cbn. rewrite Hf. cbn.
    rewrite decide_False, decide_True by done. lia.
  - intros d ph. rewrite H5, (count_update _ _ _ e) by done. unfold one_if, kind_is. cbn. lia.
Qed.

Lemma requested_ok s c n es (sel : list Z) tokens : budget_ok s -> config_typed c -> n = config_effective_limit c ->
  request_means sel (entries s) es tokens ->
  (let s' := set_entries es (set_limits c n s) in total s' <= absolute_limit s' + requested s') ->
  budget_ok (set_entries es (set_limits c n s)).
Proof.
  intros H Hc Hn Hr Hpend. split; try done.
  - apply H.
  - cbn. intros g e. rewrite (rq_lookup _ _ _ _ Hr). case_decide; [|apply (bo_generations _ H)].
    destruct (entries s !! g) as [e'|] eqn:E; [|done]. intros _. by apply (bo_generations _ H) in E.
  - intros d ph. cbn. rewrite (rq_kinds _ _ _ _ Hr), <- (bo_counters _ H). by destruct d, ph.
  - apply H.
  - apply H.
Qed.

(** ** Which connections are asked *)
#[local] Instance evict_lawful : LawfulCmp evict_cmp.
Proof.
  pose proof (lawful_key (fun l : Z * PeerBudgetPhase => phase_eviction_order l.2) Z.compare) as H1.
  pose proof (lawful_rev (fun l r : Z * PeerBudgetPhase => Z.compare l.1 r.1)) as H2.
  exact (lawful_then _ _).
Qed.
Lemma evict_eq x y : evict_cmp x y = Eq -> x.1 = y.1.
Proof. unfold evict_cmp. rewrite then_with_eq, !Z.compare_eq_iff. intros [_ E]. done. Qed.
Lemma elem_of_evictable s g ph : (g, ph) ∈ candidates s <->
  exists e, entries s !! g = Some e /\ cancellation_requested e = false /\ e_phase e = ph.
Proof.
  unfold candidates. rewrite elem_of_sort_by, list_elem_of_fmap. split.
  - intros ([g' e] & [= -> ->] & [Hf Hin]%list_elem_of_filter). apply elem_of_items in Hin. by exists e.
  - intros (e & He & Hf & Hp). exists (g, e). cbn. split; [congruence|]. apply list_elem_of_filter. by rewrite elem_of_items.
Qed.
Lemma candidates_keys s : NoDup (candidates s).*1.
Proof.
  unfold candidates. rewrite sort_by_perm.
  change (map (fun ge : Z * entry => (ge.1, e_phase ge.2))) with (fmap (M:=list) (fun ge : Z * entry => (ge.1, e_phase ge.2))).
  rewrite <- list_fmap_compose. apply (NoDup_filter_keys _ (btree_items (entries s))), NoDup_btree_keys.
Qed.
Lemma len_candidates s : budget_ok s -> len (candidates s) = total s - requested s.
Proof.
  intros H. unfold candidates. rewrite len_sort_by.
  transitivity (len (filter (fun ge => cancellation_requested ge.2 = false) (btree_items (entries s)))).
  { unfold len. by rewrite length_map. }
  etransitivity; [apply (length_filter_items (fun e => cancellation_requested e = false))|].
  rewrite (total_is_size _ H). unfold requested.
  assert (count_if (fun _ : entry => True) (entries s) = Z.of_nat (size (entries s))) as <-.
  { unfold count_if. do 2 f_equal. by apply map_filter_id. }
  rewrite (count_partition (fun _ : entry => True) asked_to_close).
  rewrite (count_ext (fun e : entry => cancellation_requested e = false) (fun v => True /\ ~ asked_to_close v)).
  2:{ intros k v _. unfold asked_to_close. by destruct (cancellation_requested v); naive_solver. }
  rewrite (count_ext (fun v : entry => True /\ asked_to_close v) asked_to_close) by naive_solver. lia.
Qed.
Lemma already_requested_eq s : already_requested s = requested s.
Proof. apply (length_filter_items (fun e => cancellation_requested e = true)). Qed.

Lemma selected_spec s :
  NoDup (selected s) /\ forall g, g ∈ selected s -> exists e, entries s !! g = Some e /\ cancellation_requested e = false.
Proof.
  unfold selected. change (map fst) with (fmap (M:=list) (@fst Z PeerBudgetPhase)). rewrite fmap_take. split.
  - eapply sublist_NoDup; [apply candidates_keys|apply sublist_take].
  - intros g Hg. apply elem_of_take in Hg as (i & Hg & _). apply list_elem_of_lookup_2 in Hg.
    apply list_elem_of_fmap in Hg as ([g' ph] & -> & Hin). apply elem_of_evictable in Hin as (e & He & Hf & _). by exists e.
Qed.

(** The entries asked to close come first in the eviction order. *)
Lemma selected_first s g e g' e' : entries s !! g = Some e -> entries s !! g' = Some e' ->
  g ∈ selected s -> g' ∉ selected s -> cancellation_requested e' = false ->
  evict_cmp (g, e_phase e) (g', e_phase e') = Lt.
Proof.
  intros He He' Hg Hg' Hf'. unfold selected in *. revert Hg Hg'. set (n := Z.to_nat _). intros Hg Hg'.
  apply list_elem_of_fmap in Hg as ([g1 ph] & E & Hin). cbn in E. subst g1.
  assert ((g, ph) ∈ candidates s) as Hc by (apply elem_of_take in Hin as (i & Hi & _); by eapply list_elem_of_lookup_2).
  apply elem_of_evictable in Hc as (e1 & He1 & _ & Hph). assert (e1 = e) as -> by congruence. subst ph.
  assert ((g', e_phase e') ∈ candidates s) as Hc' by (apply elem_of_evictable; by exists e').
  rewrite <- (take_drop n (candidates s)) in Hc'. apply elem_of_app in Hc' as [Hc'|Hc'].
  { destruct Hg'. apply list_elem_of_fmap. by exists (g', e_phase e'). }
  pose proof (sorted_take_before evict_cmp (candidates s) n _ _ (sort_by_sorted _ _) Hin Hc') as Hle.
  unfold cmp_le in Hle. destruct (evict_cmp _ _) eqn:E; [|done|done]. apply evict_eq in E. cbn in E. subst g'.
  destruct Hg'. apply list_elem_of_fmap. by exists (g, e_phase e).
Qed.

Definition relimited (limit : Z) s : state :=
  let c := mkConfig limit (incoming_slack (config s)) (max_open_files (config s)) in
  set_limits c (config_effective_limit c) s.
Lemma absolute_typed c : config_typed c ->
  0 <= saturating_add USIZE (config_effective_limit c) (incoming_slack c) <= umax 64.
Proof.
  intros (H1 & H2 & H3). unfold is_u in *. unfold config_effective_limit.
  pose proof (effective_limit_bounds (configured_limit c) (max_open_files c) ltac:(lia) ltac:(lia)).
  unfold saturating_add, umax, USIZE. lia.
Qed.

(** What [reconfigure] does in a well-formed state. *)
Lemma reconfigure_ok s limit : budget_ok s -> is_u 64 limit ->
  let s1 := relimited limit s in
  exists es tokens,
    reconfigure limit s =
      (set_entries es s1,
       Ok (mkReconfiguration limit (effective_limit s1) (absolute_limit s1) (len tokens) (total s <=? absolute_limit s1), tokens))
    /\ request_means (selected s1) (entries s) es tokens
    /\ len tokens = Z.max 0 (total s - absolute_limit s1 - requested s)
    /\ budget_ok (set_entries es s1).
Proof.
  intros H Hl s1. pose proof (selected_spec s1) as [Hnd Hsel].
  pose proof (request_spec (selected s1) (entries s) Hnd Hsel) as Hr.
  assert (config_typed (config s1)) as Hc by (split; [exact Hl|split; apply H]).
  pose proof (absolute_typed _ Hc) as Habs.
  assert (total s1 = total s /\ requested s1 = requested s /\ candidates s1 = candidates s) as (Ht & Hrq & Hcand) by done.
  assert (len (selected s1) = Z.max 0 (total s - absolute_limit s1 - requested s)) as Hlen.
  { unfold selected, excess. rewrite already_requested_eq, Hcand, Ht, Hrq.
    pose proof (len_candidates s H) as Hn. pose proof (requested_le_total s H). pose proof (count_nonneg asked_to_close (entries s)) as Hq.
    fold (requested s) in Hq. fold (absolute_limit s1) in Habs. unfold len in *. rewrite length_map, length_take.
    unfold saturating_sub. fold s1 in Habs. unfold absolute_limit in *. cbn [effective_limit relimited set_limits s1 config] in *. lia. }
  destruct (request (selected s1) (entries s)) as [es tokens] eqn:E. cbn [fst snd] in Hr.
  exists es, tokens. split; [|split; [done|split; [rewrite (rq_len _ _ _ _ Hr); done|]]].
  - unfold reconfigure. unfold mbind at 1, M_bind at 1, modify at 1. rewrite get_bind. fold (relimited limit s). fold s1.
    change (entries s1) with (entries s). rewrite E. done.
  - eapply (requested_ok s); [done|exact Hc|done|exact Hr|]. cbn zeta. unfold requested at 1. cbn [entries set_entries].
    rewrite (rq_asked _ _ _ _ Hr), Hlen. fold (requested s).
    change (total s <= absolute_limit s1 + (requested s + Z.max 0 (total s - absolute_limit s1 - requested s))). lia.
Qed.
Lemma cancel_incoming_ok s : budget_ok s ->
  exists es tokens sel, cancel_incoming s = (set_entries es s, Ok tokens) /\ request_means sel (entries s) es tokens
    /\ (forall g, g ∈ sel <-> exists e, entries s !! g = Some e /\ e_direction e = Incoming /\ cancellation_requested e = false)
    /\ budget_ok (set_entries es s).
Proof.
  intros H. set (sel := map fst (filter (fun ge : Z * entry => e_direction ge.2 = Incoming /\ cancellation_requested ge.2 = false) (btree_items (entries s)))).
  assert (forall g, g ∈ sel <-> exists e, entries s !! g = Some e /\ e_direction e = Incoming /\ cancellation_requested e = false) as Hsel.
  { intros g. unfold sel. rewrite list_elem_of_fmap. split.
    - intros ([g' e] & -> & [[Hd Hf] Hin]%list_elem_of_filter). apply elem_of_items in Hin. by exists e.
    - intros (e & He & Hd & Hf). exists (g, e). split; [done|]. apply list_elem_of_filter. by rewrite elem_of_items. }
  assert (NoDup sel) as Hnd by apply NoDup_filter_keys, NoDup_btree_keys.
  assert (forall g, g ∈ sel -> exists e, entries s !! g = Some e /\ cancellation_requested e = false) as Hin by (setoid_rewrite Hsel; naive_solver).
  pose proof (request_spec sel (entries s) Hnd Hin) as Hr. destruct (request sel (entries s)) as [es tokens] eqn:E. cbn [fst snd] in Hr.
  exists es, tokens, sel. split; [|split; [done|split; [done|]]].
  - unfold cancel_incoming. rewrite get_bind. fold sel. by rewrite E.
  - assert (set_entries es s = set_entries es (set_limits (config s) (effective_limit s) s)) as -> by done.
    eapply requested_ok; [done|apply H|apply H|exact Hr|]. cbn zeta. unfold requested. cbn [entries set_entries].
    rewrite (rq_asked _ _ _ _ Hr). fold (requested s). pose proof (bo_pending _ H) as Hp. pose proof (len_nonneg sel).
    change (total s <= absolute_limit s + (requested s + len sel)). lia.
Qed.

(** ** Histories of the budget and its permits

    [ps] holds the permits their owners have not dropped, by generation. *)
Inductive budget_reach : state -> gmap Z permit -> Prop :=
| reach_new c : config_typed c -> budget_reach (PeerBudget_new c) ∅
| reach_acquired s ps d (token : Token) s' p : budget_reach s ps ->
    try_acquire d token s = (s', Ok p) -> budget_reach s' (<[generation p := p]> ps)
| reach_refused s ps d (token : Token) s' r : budget_reach s ps ->
    try_acquire d token s = (s', Err r) -> budget_reach s' ps
| reach_established s ps g p s' p' : budget_reach s ps -> ps !! g = Some p ->
    mark_established p s = (s', Ok p') -> budget_reach s' (<[g := p']> ps)
| reach_dropped s ps g p s' : budget_reach s ps -> ps !! g = Some p ->
    drop_permit p s = (s', Ok tt) -> budget_reach s' (delete g ps)
| reach_reconfigured s ps limit s' r : budget_reach s ps -> is_u 64 limit ->
    reconfigure limit s = (s', Ok r) -> budget_reach s' ps
| reach_cancelled s ps s' tokens : budget_reach s ps ->
    cancel_incoming s = (s', Ok tokens) -> budget_reach s' ps.

Definition tracked es ps : Prop := forall g, ps !! g = permit_of g <$> es !! g.
Lemma tracked_insert es ps g e : tracked es ps -> tracked (<[g := e]> es) (<[g := permit_of g e]> ps).
Proof.
  intros H g'. destruct (decide (g = g')) as [->|Hne]; [by rewrite !lookup_insert_eq|]. by rewrite !lookup_insert_ne.
Qed.
Lemma tracked_delete es ps g : tracked es ps -> tracked (delete g es) (delete g ps).
Proof.
  intros H g'. destruct (decide (g = g')) as [->|Hne]; [by rewrite !lookup_delete_eq|]. by rewrite !lookup_delete_ne.
Qed.
Lemma tracked_count es ps d ph : tracked es ps ->
  count_if (fun p : permit => direction p = d /\ phase p = ph) ps = count_if (kind_is d ph) es.
Proof.
  revert ps. induction es as [|g e es Hg IH] using map_ind; intros ps H.
  { replace ps with (∅ : gmap Z permit); [done|]. symmetry. apply map_empty. intros g. by rewrite H, lookup_empty. }
  assert (ps !! g = Some (permit_of g e)) as Hp by (by rewrite H, lookup_insert_eq).
  rewrite <- (insert_delete_id ps g _ Hp). rewrite !count_insert by (done || apply lookup_delete_eq).
  rewrite (IH (delete g ps)); [done|]. rewrite <- (delete_insert_id es g e Hg). by apply tracked_delete.
Qed.
Lemma tracked_size es ps : tracked es ps -> size ps = size es.
Proof.
  intros H. rewrite <- !size_dom. f_equal. apply set_eq. intros g. rewrite !elem_of_dom, H. by rewrite fmap_is_Some.
Qed.
Lemma tracked_request es ps (sel : list Z) es' tokens : tracked es ps -> request_means sel es es' tokens -> tracked es' ps.
Proof. intros H Hr g. rewrite H, (rq_lookup _ _ _ _ Hr). case_decide; [|done]. by destruct (es !! g). Qed.
Lemma tracked_permit es ps g p : tracked es ps -> ps !! g = Some p -> exists e, es !! g = Some e /\ p = permit_of g e.
Proof. intros H Hp. rewrite H in Hp. apply fmap_Some in Hp as (e & He & ->). by exists e. Qed.

Lemma budget_reach_ok s ps : budget_reach s ps -> budget_ok s /\ tracked (entries s) ps.
Proof.
  induction 1 as [c Hc|s ps d token s' p _ [H Ht] E|s ps d token s' r _ [H Ht] E|s ps g p s' p' _ [H Ht] Hp E
    |s ps g p s' _ [H Ht] Hp E|s ps limit s' r _ [H Ht] Hl E|s ps s' tokens _ [H Ht] E].
  - split; [|intros g; by rewrite !lookup_empty]. split; try done.
    + by intros [] [].
    + unfold total, requested. cbn -[Z.le]. change (0 <= absolute_limit (PeerBudget_new c : state) + 0). rewrite Z.add_0_r. apply (absolute_typed c Hc).
  - rewrite try_acquire_eq in E by done. destruct (Z.leb_spec (maximum s d) (total s)); [done|].
    destruct (Z.eqb_spec (next_generation s) 0); [done|]. injection E as <- <-.
    destruct (acquired_ok d token s H) as (H' & -> & _); [done..|]. split; [done|]. by apply tracked_insert.
  - rewrite try_acquire_eq in E by done. repeat case_match; by simplify_eq.
  - apply (tracked_permit _ _ _ _ Ht) in Hp as (e & He & ->). rewrite mark_established_eq in E by done.
    destruct (e_phase e) eqn:Ep; injection E as <- <-.
    + destruct (established_ok s g e H He Ep) as (H' & -> & _). split; [done|].
      by apply (tracked_insert _ _ g (mkEntry (e_direction e) Established (e_cancellation e) (cancellation_requested e))).
    + split; [done|]. rewrite insert_id; [done|]. by rewrite Ht, He.
  - apply (tracked_permit _ _ _ _ Ht) in Hp as (e & He & ->). rewrite drop_permit_eq in E by done. injection E as <-.
    destruct (dropped_ok s g e H He) as (H' & -> & _). split; [done|]. by apply tracked_delete.
  - destruct (reconfigure_ok s limit H Hl) as (es & tokens & Er & Hr & _ & H'). rewrite Er in E. injection E as <- _.
    split; [done|]. by eapply tracked_request.
  - destruct (cancel_incoming_ok s H) as (es & ts & sel & Er & Hr & _ & H'). rewrite Er in E. injection E as <- _.
    split; [done|]. by eapply tracked_request.
Qed.

(** The budget counts the connections it has permitted.  For every
    history of the budget and its permits - connections admitted and refused,
    established and dropped in any order, the limit changed at any time - the
    four counters are the numbers of live permits of their kinds and their
    sum the number of live permits; that sum exceeds the absolute limit by no
    more than the number of connections that were asked to close; and no
    operation that may follow panics (no counter under- or overflows). *)
Theorem budget_invariant s ps : budget_reach s ps ->
  (forall d ph, counter d ph s = count_if (fun p : permit => direction p = d /\ phase p = ph) ps)
  /\ total s = Z.of_nat (size ps)
  /\ total s <= absolute_limit s + requested s
  /\ total s <= total_high_water s
  /\ (forall d token, returns (snd (try_acquire d token s)))
  /\ (forall limit, is_u 64 limit -> returns (snd (reconfigure limit s)))
  /\ returns (snd (cancel_incoming s))
  /\ (forall g p, ps !! g = Some p -> generation p = g /\ active p = true
        /\ returns (snd (mark_established p s)) /\ returns (snd (drop_permit p s))).
Proof.
  intros [H Ht]%budget_reach_ok. split_and!.
  - intros d ph. by rewrite (bo_counters _ H), (tracked_count _ _ d ph Ht).
  - by rewrite (total_is_size _ H), (tracked_size _ _ Ht).
  - apply H.
  - apply H.
  - intros d token. rewrite try_acquire_eq by done. by repeat case_match.
  - intros limit Hl. by destruct (reconfigure_ok s limit H Hl) as (es & tokens & -> & _).
  - by destruct (cancel_incoming_ok s H) as (es & tokens & sel & -> & _).
  - intros g p (e & He & ->)%(tracked_permit _ _ _ _ Ht). rewrite drop_permit_eq, mark_established_eq by done.
    split_and!; try done. by destruct (e_phase e).
Qed.

(** Admission is exact.  A connection is admitted precisely when fewer
    connections are live than its direction may have (the limit, and for
    incoming ones the slack on top) and generations are left; it then has a
    fresh generation, and its direction still is within its maximum.  A
    refusal leaves the budget as it was and reports the numbers compared. *)
Theorem try_acquire_exact s ps d (token : Token) : budget_reach s ps ->
  match try_acquire d token s with
  | (s', Ok p) => total s < maximum s d /\ next_generation s <> 0 /\ ps !! generation p = None
      /\ p = mkPermit (next_generation s) d Connecting token true
      /\ total s' = total s + 1 /\ total s' <= maximum s' d
  | (s', Err r) => s' = s
      /\ (maximum s d <= total s /\ r = mkRejection d (total s) (maximum s d)
          \/ total s < maximum s d /\ next_generation s = 0 /\ r = mkRejection d (total s) (total s))
  | _ => False
  end.
Proof.
  intros [H Ht]%budget_reach_ok. rewrite try_acquire_eq by done.
  destruct (Z.leb_spec (maximum s d) (total s)) as [Hle|Hlt]; [by auto|].
  destruct (Z.eqb_spec (next_generation s) 0) as [Hz|Hz]; [by auto|].
  destruct (acquired_ok d token s H Hlt Hz) as (_ & _ & ->).
  split_and!; try done; [by rewrite Ht; cbn; rewrite fresh_generation|].
  destruct (counted_fields d Connecting
    (set_entries (<[next_generation s := mkEntry d Connecting token false]> (entries s))
       (set_next (default 0 (checked_add 64 (next_generation s) 1)) s))) as (E1 & E2 & _).
  unfold maximum, acquired in *. rewrite E1, E2. cbn. destruct d; lia.
Qed.

(** Lowering the limit asks as few connections to close as needed, the
    newest first.  The limit in force is the configured one capped by the
    open files of the process; exactly as many connections are asked as
    exceed the new absolute limit beyond those asked before; an asked
    connection precedes every one left alone (connecting before established,
    later before earlier); the tokens to cancel are theirs; nothing else
    changes; and the answer says so. *)
Theorem reconfigure_exact s ps limit : budget_reach s ps -> is_u 64 limit ->
  match reconfigure limit s with
  | (s', Ok (r, tokens)) =>
      total s' = total s
      /\ effective_limit s' = effective_connection_limit limit (max_open_files (config s))
      /\ len tokens = Z.max 0 (total s - absolute_limit s' - requested s)
      /\ requested s' = requested s + len tokens
      /\ r = mkReconfiguration limit (effective_limit s') (absolute_limit s') (len tokens) (total s <=? absolute_limit s')
      /\ (exists asked : list Z, NoDup asked /\ tokens = omap (fun g => e_cancellation <$> entries s !! g) asked
            /\ (forall g, entries s' !! g = if decide (g ∈ asked) then request_entry <$> entries s !! g else entries s !! g)
            /\ (forall g e g' e', entries s !! g = Some e -> entries s !! g' = Some e' -> g ∈ asked -> g' ∉ asked ->
                  cancellation_requested e = false
                  /\ (cancellation_requested e' = false -> evict_cmp (g, e_phase e) (g', e_phase e') = Lt)))
  | _ => False
  end.
Proof.
  intros [H Ht]%budget_reach_ok Hl. destruct (reconfigure_ok s limit H Hl) as (es & tokens & -> & Hr & Hlen & _).
  split_and!; try done.
  - unfold requested. cbn [entries set_entries]. rewrite (rq_asked _ _ _ _ Hr), (rq_len _ _ _ _ Hr). done.
  - destruct (selected_spec (relimited limit s)) as [Hnd Hsel]. exists (selected (relimited limit s)).
    split_and!; [done|apply Hr|apply Hr|]. intros g e g' e' He He' Hg Hg'.
    destruct (Hsel g Hg) as (e1 & He1 & Hf). change (entries (relimited limit s)) with (entries s) in He1.
    assert (e1 = e) as -> by congruence. split; [done|]. intros Hf'.
    by eapply (selected_first (relimited limit s)).
Qed.
End budget_spec.

(** ** Witnesses *)
Definition sample_config : PeerBudgetConfig := mkConfig 3 1 1024.
Definition run_sample {A} (m : M (PeerBudgetState Z) PeerBudgetRejection A) (s : PeerBudgetState Z) : PeerBudgetState Z := fst (m s).
(** Three connections, the first one established; tokens are integers. *)
Definition sample_budget_1 : PeerBudgetState Z := run_sample (try_acquire Outgoing 101) (PeerBudget_new sample_config).
Definition sample_budget_2 : PeerBudgetState Z := run_sample (try_acquire Incoming 102) sample_budget_1.
Definition sample_budget_3 : PeerBudgetState Z := run_sample (mark_established (mkPermit 1 Outgoing Connecting 101 true)) sample_budget_2.
Definition sample_budget : PeerBudgetState Z := run_sample (try_acquire Outgoing 103) sample_budget_3.
Definition sample_permits : gmap Z (PeerBudgetPermit Z) :=
  <[3 := mkPermit 3 Outgoing Connecting 103 true]> (<[1 := mkPermit 1 Outgoing Established 101 true]>
    (<[2 := mkPermit 2 Incoming Connecting 102 true]> (<[1 := mkPermit 1 Outgoing Connecting 101 true]> ∅))).
Lemma sample_budget_reach : budget_reach sample_budget sample_permits.
Proof.
  apply (reach_acquired sample_budget_3 _ Outgoing 103 _ (mkPermit 3 Outgoing Connecting 103 true)); [|by vm_compute].
  apply (reach_established sample_budget_2 _ 1 (mkPermit 1 Outgoing Connecting 101 true) _ (mkPermit 1 Outgoing Established 101 true));
    [|by vm_compute|by vm_compute].
  apply (reach_acquired sample_budget_1 _ Incoming 102 _ (mkPermit 2 Incoming Connecting 102 true)); [|by vm_compute].
  apply (reach_acquired (PeerBudget_new sample_config) _ Outgoing 101 _ (mkPermit 1 Outgoing Connecting 101 true)); [|by vm_compute].
  apply reach_new. by vm_compute.
Qed.
Lemma budget_invariant_witness : total sample_budget = 3 /\ counter Outgoing Established sample_budget = 1.
Proof.
  destruct (budget_invariant sample_budget sample_permits sample_budget_reach) as (Hc & Ht & _).
  split; [rewrite Ht|rewrite Hc]; vm_compute; exact eq_refl.
Defined.
Lemma try_acquire_exact_witness : try_acquire Outgoing 104 sample_budget = (sample_budget, Err (mkRejection Outgoing 3 3)).
Proof.
  pose proof (try_acquire_exact sample_budget sample_permits Outgoing 104 sample_budget_reach) as H.
  assert (snd (try_acquire Outgoing 104 sample_budget) = Err (mkRejection Outgoing 3 3)) as E by (vm_compute; exact eq_refl).
  destruct (try_acquire Outgoing 104 sample_budget) as [s' o]. cbn in E. subst o. destruct H as [-> _]. exact eq_refl.
Defined.
Lemma reconfigure_exact_witness :
  snd (reconfigure 0 sample_budget) = Ok (mkReconfiguration 0 0 1 2 false, [103; 102])
  /\ requested (fst (reconfigure 0 sample_budget)) = 2.
Proof.
  pose proof (reconfigure_exact sample_budget sample_permits 0 sample_budget_reach ltac:(by vm_compute)) as H.
  assert (snd (reconfigure 0 sample_budget) = Ok (mkReconfiguration 0 0 1 2 false, [103; 102])) as E by (vm_compute; exact eq_refl).
  split; [exact E|]. destruct (reconfigure 0 sample_budget) as [s' o]. cbn in E. subst o.
  destruct H as (_ & _ & _ & H & _). cbn [fst]. rewrite H. vm_compute. exact eq_refl.
Defined.
