(* ===== verification/UploadScheduler.v ===== *)
(** * The upload slots

    [crates/rstorrent-engine/src/upload_scheduler.rs]: which interested peers
    are unchoked.  All but one fifth of the slots are regular ones, given by
    merit at every ordinary round and kept between rounds; one peer is
    unchoked optimistically, in turns.

    A [Duration] is a number of nanoseconds, a peer identifier a nonzero
    [u64].  The source sorts identifiers and looks each one up in the map of
    peers; here the entries of the map are sorted, so the comparator receives
    the two states those lookups give. *)
From S2P Require Import Prelude Ordered.
From stdpp Require Import strings.
#[local] Open Scope Z_scope.

Definition from_secs (n : Z) : Z := n * 1000000000.
Definition DEFAULT_UNCHOKE_SLOTS : Z := 8.
Definition DEFAULT_UNCHOKE_INTERVAL : Z := from_secs 15.
Definition DEFAULT_OPTIMISTIC_UNCHOKE_INTERVAL : Z := from_secs 30.
Definition DEFAULT_SEEDING_PIECE_QUOTA : Z := 20.
Definition MIN_SEED_GRANT : Z := from_secs 60.

Definition UploadPeerId_new (value : Z) : option Z := if value =? 0 then None else Some value.

Record UploadSchedulerConfig := mkUploadConfig {
  slots : Z;
  unchoke_interval : Z;
  optimistic_interval : Z;
  seeding_piece_quota : Z;
}.
Definition config_default : UploadSchedulerConfig :=
  mkUploadConfig DEFAULT_UNCHOKE_SLOTS DEFAULT_UNCHOKE_INTERVAL DEFAULT_OPTIMISTIC_UNCHOKE_INTERVAL
                 DEFAULT_SEEDING_PIECE_QUOTA.

Record UploadSchedulerPeer := mkUploadPeer {
  id : Z;
  torrent : list Z;
  piece_length : Z;
  interested : bool;
  payload_uploaded : Z;
  payload_downloaded : Z;
  local_complete : bool;
}.
Inductive UploadGrant := Choked | Regular | Optimistic.
#[export] Instance grant_eq_dec : EqDecision UploadGrant.
Proof. solve_decision. Defined.
Record UploadDecision := mkDecision { d_peer : Z; d_grant : UploadGrant }.
Record UploadSchedulerSnapshot := mkUploadSnapshot {
  sn_peers : Z;
  sn_interested : Z;
  sn_regular : Z;
  sn_optimistic : Z;
  sn_evaluations : Z;
  sn_optimistic_rotations : Z;
}.

Record PeerState := mkPeerState {
  input : UploadSchedulerPeer;
  grant : UploadGrant;
  uploaded_at_last_round : Z;
  downloaded_at_last_round : Z;
  uploaded_at_unchoke : Z;
  last_unchoke : Z;
  last_optimistic : option Z;
}.
Definition PeerState_new (input : UploadSchedulerPeer) (now : Z) : PeerState :=
  mkPeerState input Choked (payload_uploaded input) (payload_downloaded input) (payload_uploaded input) now None.
Definition uploaded_in_last_round (p : PeerState) : Z :=
  saturating_sub (payload_uploaded (input p)) (uploaded_at_last_round p).
Definition downloaded_in_last_round (p : PeerState) : Z :=
  saturating_sub (payload_downloaded (input p)) (downloaded_at_last_round p).
Definition quota_complete (p : PeerState) (now pieces : Z) : bool :=
  negb (bool_decide (grant p = Choked))
  && (saturating_mul 64 (piece_length (input p)) pieces
        <? saturating_sub (payload_uploaded (input p)) (uploaded_at_unchoke p))
  && (MIN_SEED_GRANT <? saturating_sub now (last_unchoke p)).

Record UploadScheduler := mkScheduler {
  config : UploadSchedulerConfig;
  peers : gmap Z PeerState;
  last_ordinary : option Z;
  s_last_optimistic : option Z;
  evaluations : Z;
  optimistic_rotations : Z;
}.
Abbreviation method := (M UploadScheduler string).
Definition set_peers ps s := mkScheduler (config s) ps (last_ordinary s) (s_last_optimistic s) (evaluations s)
                                         (optimistic_rotations s).
Definition set_slots n s := mkScheduler (mkUploadConfig n (unchoke_interval (config s)) (optimistic_interval (config s))
  (seeding_piece_quota (config s))) (peers s) (last_ordinary s) (s_last_optimistic s) (evaluations s) (optimistic_rotations s).
Definition set_evaluations n s := mkScheduler (config s) (peers s) (last_ordinary s) (s_last_optimistic s) n
                                              (optimistic_rotations s).
Definition set_rounds o p n s := mkScheduler (config s) (peers s) o p (evaluations s) n.

Definition UploadScheduler_new (c : UploadSchedulerConfig) : outcome string UploadScheduler :=
  if (unchoke_interval c =? 0) || (optimistic_interval c =? 0)
  then Err "upload scheduler intervals must be nonzero"%string
  else if seeding_piece_quota c =? 0 then Err "seeding piece quota must be nonzero"%string
  else Ok (mkScheduler c ∅ None None 0 0).
Definition libtorrent_default : outcome string UploadScheduler := UploadScheduler_new config_default.

Definition with_input (p : PeerState) (i : UploadSchedulerPeer) : PeerState :=
  mkPeerState i (grant p) (uploaded_at_last_round p) (downloaded_at_last_round p) (uploaded_at_unchoke p)
              (last_unchoke p) (last_optimistic p).
Definition update_peer (peer : UploadSchedulerPeer) (now : Z) : method unit :=
  modify (fun s =>
    set_peers (<[id peer := match peers s !! id peer with
                            | Some state => with_input state peer
                            | None => PeerState_new peer now
                            end]> (peers s)) s).
Definition remove_peer (peer : Z) : method unit := modify (fun s => set_peers (delete peer (peers s)) s).

Definition automatic_optimistic_slots (slots : Z) : Z :=
  if slots =? 0 then 0 else if slots / 5 =? 0 then 1 else slots / 5.

Definition rate (p : PeerState) : Z := if bool_decide (grant p = Choked) then 0 else uploaded_in_last_round p.
Definition compare_regular (s : UploadScheduler) (now : Z) (left right : PeerState) : comparison :=
  let complete p := local_complete (input p) in
  let quota p := quota_complete p now (seeding_piece_quota (config s)) in
  if negb (complete left) && negb (complete right) then
    then_with (then_with (Z.compare (downloaded_in_last_round right) (downloaded_in_last_round left))
                         (Z.compare (last_unchoke left) (last_unchoke right)))
              (Z.compare (id (input left)) (id (input right)))
  else if negb (eqb (complete left) (complete right)) then bool_cmp (complete left) (complete right)
  else
    then_with (then_with (then_with (bool_cmp (quota left) (quota right)) (Z.compare (rate right) (rate left)))
                         (Z.compare (last_unchoke left) (last_unchoke right)))
              (Z.compare (id (input left)) (id (input right))).
Definition optimistic_cmp (l r : Z * option Z) : comparison := then_with (option_cmp l.2 r.2) (Z.compare l.1 r.1).

Abbreviation entry := (Z * PeerState)%type.
Definition due (last : option Z) (interval now : Z) : bool :=
  match last with None => true | Some last => interval <=? saturating_sub now last end.
Definition ordinary_due (s : UploadScheduler) (now : Z) : bool :=
  due (last_ordinary s) (unchoke_interval (config s)) now.
Definition optimistic_due (s : UploadScheduler) (now : Z) : bool :=
  due (s_last_optimistic s) (optimistic_interval (config s)) now.
Definition optimistic_slots (s : UploadScheduler) : Z := automatic_optimistic_slots (slots (config s)).
Definition regular_slots (s : UploadScheduler) : Z := saturating_sub (slots (config s)) (optimistic_slots s).

(** The regular peers that keep their slot. *)
Definition keeps_slot (s : UploadScheduler) (now : Z) (p : PeerState) : bool :=
  interested (input p) && bool_decide (grant p = Regular)
  && (negb (ordinary_due s now)
      || (local_complete (input p) && negb (quota_complete p now (seeding_piece_quota (config s))))).
Definition entry_cmp (s : UploadScheduler) (now : Z) (l r : entry) : comparison := compare_regular s now l.2 r.2.
Definition kept_regular (s : UploadScheduler) (now : Z) : list entry :=
  take (Z.to_nat (regular_slots s))
    (sort_by (entry_cmp s now) (filter (fun e => keeps_slot s now e.2 = true) (btree_items (peers s)))).
Definition regular_candidates (s : UploadScheduler) (now : Z) (kept : list entry) : list entry :=
  sort_by (entry_cmp s now)
    (filter (fun e => interested (input e.2) = true /\ e.1 ∉ (list_to_set kept.*1 : gset Z)) (btree_items (peers s))).
Definition choose_regular (s : UploadScheduler) (now : Z) : list entry :=
  let kept := kept_regular s now in
  if ordinary_due s now || (len kept <? regular_slots s)
  then kept ++ take (Z.to_nat (regular_slots s - len kept)) (regular_candidates s now kept)
  else kept.
Definition regular_set (s : UploadScheduler) (now : Z) : gset Z := list_to_set (choose_regular s now).*1.

(** [find_map] takes the first entry that qualifies. *)
Definition optimistic_entries (s : UploadScheduler) (regular : gset Z) : list entry :=
  filter (fun e => grant e.2 = Optimistic /\ interested (input e.2) = true /\ e.1 ∉ regular) (btree_items (peers s)).
Definition current_optimistic (s : UploadScheduler) (regular : gset Z) : option Z :=
  fst <$> head (optimistic_entries s regular).
Definition optimistic_candidates (s : UploadScheduler) (regular : gset Z) : list (Z * option Z) :=
  sort_by optimistic_cmp
    (map (fun e => (e.1, last_optimistic e.2))
         (filter (fun e => interested (input e.2) = true /\ e.1 ∉ regular) (btree_items (peers s)))).
Definition choose_optimistic (s : UploadScheduler) (now : Z) (regular : gset Z) : option Z :=
  if optimistic_slots s =? 0 then None
  else if negb (optimistic_due s now) && bool_decide (is_Some (current_optimistic s regular))
  then current_optimistic s regular
  else fst <$> head (optimistic_candidates s regular).

Definition next_grant (regular : gset Z) (optimistic : option Z) (peer : Z) : UploadGrant :=
  if bool_decide (peer ∈ regular) then Regular
  else if bool_decide (Some peer = optimistic) then Optimistic
  else Choked.
Definition regrant (now : Z) (round : bool) (next : UploadGrant) (p : PeerState) : PeerState :=
  let unchoked := negb (bool_decide (next = Choked)) && bool_decide (grant p = Choked) in
  let turn := bool_decide (next = Optimistic) && negb (bool_decide (grant p = Optimistic)) in
  mkPeerState (input p) next
    (if round then payload_uploaded (input p) else uploaded_at_last_round p)
    (if round then payload_downloaded (input p) else downloaded_at_last_round p)
    (if unchoked then payload_uploaded (input p) else uploaded_at_unchoke p)
    (if unchoked then now else last_unchoke p)
    (if turn then Some now else last_optimistic p).
Definition decisions (old : gmap Z UploadGrant) (ps : gmap Z PeerState) : list UploadDecision :=
  omap (fun e => if bool_decide (default Choked (old !! e.1) = grant e.2) then None else Some (mkDecision e.1 (grant e.2)))
       (btree_items ps).
Definition with_grant (g : UploadGrant) (p : PeerState) : PeerState :=
  mkPeerState (input p) g (uploaded_at_last_round p) (downloaded_at_last_round p) (uploaded_at_unchoke p)
              (last_unchoke p) (last_optimistic p).

Definition evaluate (now : Z) : method (list UploadDecision) :=
  modify (fun s => set_evaluations (saturating_add 64 (evaluations s) 1) s);;
  s ← get;
  let old := grant <$> peers s in
  if slots (config s) =? 0 then
    put (set_peers (with_grant Choked <$> peers s) s);;
    s ← get; mret (decisions old (peers s))
  else
    let regular := regular_set s now in
    let optimistic := choose_optimistic s now regular in
    put (set_rounds (if ordinary_due s now then Some now else last_ordinary s)
                    (if optimistic_due s now then Some now else s_last_optimistic s)
                    (if optimistic_due s now && bool_decide (is_Some optimistic)
                     then saturating_add 64 (optimistic_rotations s) 1 else optimistic_rotations s) s);;
    modify (fun t => set_peers (map_imap (fun peer p =>
              Some (regrant now (ordinary_due s now) (next_grant regular optimistic peer) p)) (peers t)) t);;
    t ← get; mret (decisions old (peers t)).

Definition reconfigure_slots (n now : Z) : method (list UploadDecision) :=
  modify (set_slots n);; evaluate now.
Definition grant_of (s : UploadScheduler) (peer : Z) : option UploadGrant := grant <$> (peers s !! peer).
Definition snapshot (s : UploadScheduler) : UploadSchedulerSnapshot :=
  mkUploadSnapshot (Z.of_nat (size (peers s)))
    (count_if (fun p => interested (input p) = true) (peers s))
    (count_if (fun p => grant p = Regular) (peers s))
    (count_if (fun p => grant p = Optimistic) (peers s))
    (evaluations s) (optimistic_rotations s).

(** * Specification *)
Definition wants (p : PeerState) : Prop := interested (input p) = true.
#[local] Instance wants_dec p : Decision (wants p).
Proof. unfold wants. apply _. Defined.

(** ** The comparator is an order *)
Definition merit (s : UploadScheduler) (now : Z) (p : PeerState) : list Z :=
  if local_complete (input p)
  then [1; Z.b2z (quota_complete p now (seeding_piece_quota (config s))); - rate p; last_unchoke p; id (input p)]
  else [0; - downloaded_in_last_round p; last_unchoke p; id (input p)].
Lemma compare_opp_key a b : Z.compare (- a) (- b) = Z.compare b a.
Proof. apply Z.compare_opp. Qed.
Lemma compare_regular_merit s now l r : compare_regular s now l r = lex (merit s now l) (merit s now r).
Proof.
  unfold compare_regular, merit. destruct (local_complete (input l)), (local_complete (input r)); cbn [negb andb eqb bool_cmp Z.b2z]; try done.
  - cbn [lex]. rewrite Z.compare_refl, compare_opp_key. unfold bool_cmp. cbn [then_with]. rewrite !then_with_assoc. repeat f_equal.
    by destruct (id (input l) ?= id (input r)).
  - cbn [lex]. rewrite Z.compare_refl, compare_opp_key. cbn [then_with]. rewrite !then_with_assoc. repeat f_equal.
    by destruct (id (input l) ?= id (input r)).
Qed.
#[local] Instance entry_cmp_lawful s now : LawfulCmp (entry_cmp s now).
Proof.
  pose proof (lawful_key (fun e : entry => merit s now e.2) lex) as [H1 H2].
  split; unfold entry_cmp; intros; rewrite !compare_regular_merit in *; [apply H1|by eapply H2].
Qed.
Lemma merit_id s now p q : merit s now p = merit s now q -> id (input p) = id (input q).
Proof. unfold merit. destruct (local_complete (input p)), (local_complete (input q)); intros [=]; done. Qed.
#[local] Instance optimistic_cmp_lawful : LawfulCmp optimistic_cmp.
Proof.
  pose proof (lawful_key (fun x : Z * option Z => option_key x.2) lex) as H1.
  pose proof (lawful_key (fun x : Z * option Z => x.1) Z.compare) as H2.
  pose proof (lawful_then (fun l r : Z * option Z => lex (option_key l.2) (option_key r.2)) (fun l r => Z.compare l.1 r.1)) as [H3 H4].
  split; unfold optimistic_cmp; intros; rewrite !option_cmp_lex in *; [apply H3|by eapply H4].
Qed.

(** ** The regular slots *)
Definition waiting_items s : list entry := filter (fun e => wants e.2) (btree_items (peers s)).
Lemma elem_of_waiting s e : e ∈ waiting_items s <-> peers s !! e.1 = Some e.2 /\ wants e.2.
Proof. unfold waiting_items. rewrite list_elem_of_filter. destruct e as [k p]. rewrite elem_of_items. cbn. tauto. Qed.
Lemma len_waiting s : len (waiting_items s) = count_if wants (peers s).
Proof. apply length_filter_items. Qed.
Lemma NoDup_waiting s : NoDup (waiting_items s).*1.
Proof. apply NoDup_filter_keys, NoDup_btree_keys. Qed.
Lemma elem_of_keepers s now e :
  e ∈ filter (fun e => keeps_slot s now e.2 = true) (btree_items (peers s))
  <-> peers s !! e.1 = Some e.2 /\ keeps_slot s now e.2 = true.
Proof. rewrite list_elem_of_filter. destruct e as [k p]. rewrite elem_of_items. cbn. tauto. Qed.
Lemma keeps_wants s now p : keeps_slot s now p = true -> wants p.
Proof. unfold keeps_slot. intros [[H _]%andb_prop _]%andb_prop. done. Qed.
Lemma kept_spec s now :
  NoDup (kept_regular s now).*1 /\ (forall e, e ∈ kept_regular s now -> peers s !! e.1 = Some e.2 /\ keeps_slot s now e.2 = true)
  /\ len (kept_regular s now) <= Z.max 0 (regular_slots s).
Proof.
  unfold kept_regular. split_and!.
  - rewrite fmap_take. eapply sublist_NoDup; [|apply sublist_take]. rewrite sort_by_perm. apply NoDup_filter_keys, NoDup_btree_keys.
  - intros e He. apply elem_of_take in He as (i & Hi & _). apply list_elem_of_lookup_2, elem_of_sort_by in Hi.
    by apply elem_of_keepers in Hi.
  - unfold len. rewrite length_take. lia.
Qed.
Lemma elem_of_candidates s now kept e : e ∈ regular_candidates s now kept <->
  peers s !! e.1 = Some e.2 /\ wants e.2 /\ e.1 ∉ kept.*1.
Proof.
  unfold regular_candidates. rewrite elem_of_sort_by by apply _. rewrite list_elem_of_filter, elem_of_list_to_set.
  destruct e as [k p]. rewrite elem_of_items. cbn. unfold wants. tauto.
Qed.
Lemma kept_partition s now : kept_regular s now ++ regular_candidates s now (kept_regular s now) ≡ₚ waiting_items s.
Proof.
  destruct (kept_spec s now) as (Hnd & Hin & _). set (kept := kept_regular s now) in *. apply NoDup_Permutation.
  - apply NoDup_app. split_and!.
    + by apply (NoDup_fmap_1 fst).
    + intros e He (_ & _ & Hc)%elem_of_candidates. apply Hc, list_elem_of_fmap. by exists e.
    + unfold regular_candidates. rewrite sort_by_perm. apply NoDup_filter, NoDup_btree_items.
  - apply (NoDup_fmap_1 fst), NoDup_waiting.
  - intros e. rewrite elem_of_app, elem_of_candidates, elem_of_waiting. split.
    + intros [He|He]; [|tauto]. destruct (Hin e He) as [Hl Hk]. by apply keeps_wants in Hk.
    + intros [Hl Hw]. destruct (decide (e.1 ∈ kept.*1)) as [Hk|Hk]; [left|by right].
      apply list_elem_of_fmap in Hk as ([k p] & Ek & Hk). destruct (Hin _ Hk) as [Hl' _]. cbn in *. subst k.
      rewrite Hl in Hl'. injection Hl' as <-. by destruct e.
Qed.
Lemma choose_take s now : 0 <= regular_slots s ->
  choose_regular s now = take (Z.to_nat (regular_slots s)) (kept_regular s now ++ regular_candidates s now (kept_regular s now)).
Proof.
  intros Hpos. destruct (kept_spec s now) as (_ & _ & Hlen). rewrite Z.max_r in Hlen by done. unfold choose_regular.
  set (kept := kept_regular s now) in *. rewrite take_app. unfold len in *.
  rewrite (take_ge kept) by lia.
  destruct (ordinary_due s now); cbn [orb]; [f_equal; f_equal; lia|].
  destruct (Z.ltb_spec (Z.of_nat (length kept)) (regular_slots s)); [f_equal; f_equal; lia|].
  replace (Z.to_nat (regular_slots s) - length kept)%nat with 0%nat by lia. by rewrite take_0, app_nil_r.
Qed.
Lemma regular_slots_nonneg s : 0 <= regular_slots s.
Proof. unfold regular_slots, saturating_sub. lia. Qed.
Lemma choose_regular_spec s now :
  NoDup (choose_regular s now).*1
  /\ (forall e, e ∈ choose_regular s now -> peers s !! e.1 = Some e.2 /\ wants e.2)
  /\ len (choose_regular s now) = Z.min (regular_slots s) (count_if wants (peers s)).
Proof.
  pose proof (regular_slots_nonneg s) as Hpos. rewrite (choose_take s now Hpos). pose proof (kept_partition s now) as Hp.
  set (l := kept_regular s now ++ _) in *. split_and!.
  - rewrite fmap_take. eapply sublist_NoDup; [|apply sublist_take]. rewrite Hp. apply NoDup_waiting.
  - intros e He. apply elem_of_take in He as (i & Hi & _). apply list_elem_of_lookup_2 in Hi. rewrite Hp in Hi. by apply elem_of_waiting.
  - unfold len. rewrite length_take. rewrite <- len_waiting. unfold len. rewrite <- Hp. lia.
Qed.

(** ** The optimistic slot *)
Lemma elem_of_regular_set s now k : k ∈ regular_set s now <-> exists p, (k, p) ∈ choose_regular s now.
Proof.
  unfold regular_set. rewrite elem_of_list_to_set, list_elem_of_fmap. split.
  - intros ([k' p] & -> & H). by exists p.
  - intros [p H]. by exists (k, p).
Qed.
Lemma size_regular_set s now : Z.of_nat (size (regular_set s now)) = Z.min (regular_slots s) (count_if wants (peers s)).
Proof.
  destruct (choose_regular_spec s now) as (Hnd & _ & Hlen). unfold regular_set. rewrite size_list_to_set by done.
  rewrite length_fmap. done.
Qed.
Definition candidate s (regular : gset Z) k p : Prop := peers s !! k = Some p /\ wants p /\ k ∉ regular.
Lemma elem_of_optimistic_candidates s regular k o : (k, o) ∈ optimistic_candidates s regular <->
  exists p, candidate s regular k p /\ o = last_optimistic p.
Proof.
  unfold optimistic_candidates. rewrite elem_of_sort_by by apply _. rewrite list_elem_of_fmap. split.
  - intros ([k' p] & [= -> ->] & [[Hw Hr] Hin]%list_elem_of_filter). apply elem_of_items in Hin. by exists p.
  - intros (p & (Hp & Hw & Hr) & ->). exists (k, p). split; [done|]. apply list_elem_of_filter. by rewrite elem_of_items.
Qed.
(** The peer whose turn it is: least recently optimistic, then by identifier. *)
Definition next_in_turn s (regular : gset Z) k : Prop :=
  exists p, candidate s regular k p
    /\ forall k' p', candidate s regular k' p' -> optimistic_cmp (k, last_optimistic p) (k', last_optimistic p') <> Gt.
Lemma current_optimistic_spec s regular k : current_optimistic s regular = Some k ->
  exists p, candidate s regular k p /\ grant p = Optimistic.
Proof.
  unfold current_optimistic. intros ([k' p] & H & ->)%fmap_Some.
  assert ((k', p) ∈ optimistic_entries s regular) as Hin by (destruct (optimistic_entries s regular); [done|injection H as ->; left]).
  apply list_elem_of_filter in Hin as [(Hg & Hw & Hr) Hin]. apply elem_of_items in Hin. exists p. cbn in *. by repeat split.
Qed.
Lemma choose_optimistic_spec s now regular :
  match choose_optimistic s now regular with
  | Some k => optimistic_slots s <> 0 /\ (exists p, candidate s regular k p)
      /\ (optimistic_due s now = true -> next_in_turn s regular k)
      /\ (next_in_turn s regular k \/ exists p, candidate s regular k p /\ grant p = Optimistic)
  | None => optimistic_slots s = 0 \/ forall k p, ~ candidate s regular k p
  end.
Proof.
  unfold choose_optimistic. destruct (Z.eqb_spec (optimistic_slots s) 0) as [E|E]; [by left|].
  assert (match fst <$> head (optimistic_candidates s regular) with
          | Some k => next_in_turn s regular k | None => forall k p, ~ candidate s regular k p end) as Hturn.
  { destruct (head (optimistic_candidates s regular)) as [[k o]|] eqn:Eh; cbn.
    - pose proof Eh as Hin. apply head_sort_by in Hin as [_ Hmin]; [|apply _].
      assert ((k, o) ∈ optimistic_candidates s regular) as Hin by (destruct (optimistic_candidates s regular); [done|injection Eh as ->; left]).
      apply elem_of_optimistic_candidates in Hin as (p & Hp & ->). exists p. split; [done|].
      intros k' p' Hp'. apply Hmin. apply (elem_of_sort_by optimistic_cmp).
      apply elem_of_optimistic_candidates. by exists p'.
    - intros k p Hc. assert ((k, last_optimistic p) ∈ optimistic_candidates s regular) as Hin
        by (apply elem_of_optimistic_candidates; by exists p).
      destruct (optimistic_candidates s regular); [by apply elem_of_nil in Hin|done]. }
  assert (forall k, next_in_turn s regular k -> exists p, candidate s regular k p) as Hcand by (intros k (p & Hp & _); by exists p).
  destruct (optimistic_due s now); cbn [negb andb].
  - destruct (fst <$> head _) as [k|]; [|by right]. split_and!; auto.
  - destruct (current_optimistic s regular) as [k|] eqn:Ec; cbn.
    + apply current_optimistic_spec in Ec as (p & Hp & Hg). split_and!; eauto. done.
    + destruct (fst <$> head _) as [k|]; [|by right]. split_and!; auto.
Qed.
Lemma some_candidate s now : count_if wants (peers s) > Z.of_nat (size (regular_set s now)) ->
  exists k p, candidate s (regular_set s now) k p.
Proof.
  intros Hgt. destruct (decide (Forall (fun e : entry => e.1 ∈ regular_set s now) (waiting_items s))) as [Hall|Hne].
  - exfalso. rewrite <- len_waiting in Hgt. rewrite Forall_forall in Hall.
    assert ((list_to_set (waiting_items s).*1 : gset Z) ⊆ regular_set s now) as Hsub.
    { intros k Hk. apply elem_of_list_to_set, list_elem_of_fmap in Hk as (e & -> & He). by apply Hall. }
    apply subseteq_size in Hsub. rewrite size_list_to_set in Hsub by apply NoDup_waiting. rewrite length_fmap in Hsub. unfold len in *. lia.
  - apply not_Forall_Exists in Hne; [|apply _]. apply Exists_exists in Hne as ([k p] & [Hp Hw]%elem_of_waiting & Hk). by exists k, p.
Qed.

(** ** Evaluation *)
Definition evaluated now s : UploadScheduler :=
  set_peers (map_imap (fun peer p =>
      Some (regrant now (ordinary_due s now) (next_grant (regular_set s now) (choose_optimistic s now (regular_set s now)) peer) p)) (peers s))
    (set_rounds (if ordinary_due s now then Some now else last_ordinary s)
                (if optimistic_due s now then Some now else s_last_optimistic s)
                (if optimistic_due s now && bool_decide (is_Some (choose_optimistic s now (regular_set s now)))
                 then saturating_add 64 (optimistic_rotations s) 1 else optimistic_rotations s)
                (set_evaluations (saturating_add 64 (evaluations s) 1) s)).
Lemma evaluate_eq now s : evaluate now s =
  let s' := if slots (config s) =? 0
            then set_peers (with_grant Choked <$> peers s) (set_evaluations (saturating_add 64 (evaluations s) 1) s)
            else evaluated now s in
  (s', Ok (decisions (grant <$> peers s) (peers s'))).
Proof. unfold evaluate. unfold mbind, M_bind, modify, get. cbn [set_evaluations config]. by destruct (slots (config s) =? 0). Qed.
Lemma evaluated_lookup now s k : peers (evaluated now s) !! k =
  regrant now (ordinary_due s now) (next_grant (regular_set s now) (choose_optimistic s now (regular_set s now)) k) <$> peers s !! k.
Proof. unfold evaluated. cbn [peers set_peers]. rewrite map_lookup_imap. by destruct (peers s !! k). Qed.
Definition granted now s k : UploadGrant := next_grant (regular_set s now) (choose_optimistic s now (regular_set s now)) k.
Lemma granted_regular now s k : granted now s k = Regular <-> k ∈ regular_set s now.
Proof. unfold granted, next_grant. repeat case_bool_decide; naive_solver. Qed.
Lemma granted_optimistic now s k : granted now s k = Optimistic <-> choose_optimistic s now (regular_set s now) = Some k.
Proof.
  unfold granted, next_grant. pose proof (choose_optimistic_spec s now (regular_set s now)) as H.
  repeat case_bool_decide; try naive_solver. split; [done|]. intros E. rewrite E in H.
  destruct H as (_ & (p & _ & _ & Hr) & _). done.
Qed.
Lemma granted_wants now s k p : peers s !! k = Some p -> granted now s k <> Choked -> wants p.
Proof.
  intros Hp Hg. destruct (granted now s k) eqn:E; [done| |].
  - apply granted_regular, elem_of_regular_set in E as [q Hq]. apply choose_regular_spec in Hq as [Hl Hw]. cbn in *. congruence.
  - apply granted_optimistic in E. pose proof (choose_optimistic_spec s now (regular_set s now)) as H. rewrite E in H.
    destruct H as (_ & (q & Hq & Hw & _) & _). congruence.
Qed.
Lemma choked_count s : count_if (fun p => grant p <> Choked) (with_grant Choked <$> peers s) = 0.
Proof.
  rewrite (count_keys _ _ ∅); [by rewrite size_empty| |by intros k Hk%elem_of_empty].
  intros k v Hk. rewrite lookup_fmap in Hk. apply fmap_Some in Hk as (p & _ & ->). set_solver.
Qed.
Definition count_grant (g : UploadGrant) s : Z := count_if (fun p => grant p = g) (peers s).
Lemma evaluated_grants now s g : g <> Choked ->
  count_grant g (evaluated now s) = Z.of_nat (size (match g with
    | Regular => regular_set s now
    | _ => match choose_optimistic s now (regular_set s now) with Some k => {[k]} | None => ∅ end
    end : gset Z)).
Proof.
  intros Hg. unfold count_grant. apply count_keys.
  - intros k v Hk. rewrite evaluated_lookup in Hk. apply fmap_Some in Hk as (p & _ & ->). cbn [grant regrant].
    fold (granted now s k). destruct g; [done|apply granted_regular|]. rewrite granted_optimistic.
    destruct (choose_optimistic s now (regular_set s now)); set_solver.
  - intros k Hk. rewrite evaluated_lookup, fmap_is_Some. destruct g; [done| |].
    + apply elem_of_regular_set in Hk as [p Hp]. apply choose_regular_spec in Hp as [Hp _]. by exists p.
    + pose proof (choose_optimistic_spec s now (regular_set s now)) as H.
      destruct (choose_optimistic s now (regular_set s now)) as [k'|]; [|set_solver].
      apply elem_of_singleton in Hk as ->. destruct H as (_ & (p & Hp & _) & _). by exists p.
Qed.
Lemma evaluated_optimistic now s : optimistic_slots s <> 0 ->
  count_grant Optimistic (evaluated now s) = Z.min 1 (count_if wants (peers s) - count_grant Regular (evaluated now s)).
Proof.
  intros Ho. rewrite !evaluated_grants by done. pose proof (choose_optimistic_spec s now (regular_set s now)) as H.
  pose proof (size_regular_set s now) as Hs. pose proof (count_nonneg wants (peers s)).
  destruct (decide (count_if wants (peers s) > Z.of_nat (size (regular_set s now)))) as [Hgt|Hle].
  - destruct (some_candidate s now Hgt) as (k & p & Hc).
    destruct (choose_optimistic s now (regular_set s now)) as [k'|]; [rewrite size_singleton; lia|].
    destruct H as [H|H]; [done|]. by destruct (H k p).
  - destruct (choose_optimistic s now (regular_set s now)) as [k'|]; [|rewrite size_empty; lia]. exfalso.
    destruct H as (_ & (p & Hp & Hw & Hr) & _). destruct (choose_regular_spec s now) as (Hnd & Hin & Hlen).
    assert ({[k']} ∪ regular_set s now ⊆ (list_to_set (waiting_items s).*1 : gset Z)) as Hsub.
    { intros k Hk. apply elem_of_list_to_set, list_elem_of_fmap. apply elem_of_union in Hk as [->%elem_of_singleton|[q Hq]%elem_of_regular_set].
      - exists (k', p). by rewrite elem_of_waiting.
      - exists (k, q). split; [done|]. apply elem_of_waiting. by apply Hin. }
    apply subseteq_size in Hsub. rewrite size_union, size_singleton in Hsub by set_solver.
    rewrite size_list_to_set in Hsub by apply NoDup_waiting. rewrite length_fmap in Hsub. rewrite <- len_waiting in Hle. unfold len in Hle. lia.
Qed.
Lemma slots_split s : 0 <= slots (config s) ->
  optimistic_slots s = 0 /\ slots (config s) = 0 /\ regular_slots s = 0
  \/ 1 <= optimistic_slots s /\ regular_slots s + optimistic_slots s = slots (config s).
Proof.
  intros H. unfold regular_slots, optimistic_slots, automatic_optimistic_slots, saturating_sub.
  destruct (Z.eqb_spec (slots (config s)) 0) as [E|E]; [left; lia|]. right.
  destruct (Z.eqb_spec (slots (config s) / 5) 0); Z.to_euclidean_division_equations; lia.
Qed.

(** C39: Every evaluation fills the slots there are.  With [n] interested
    peers, exactly the smaller of [n] and the number of regular slots hold a
    regular grant, and one of the others, if there is one, the optimistic
    grant - one, however many optimistic slots were set aside.  The two kinds
    together never exceed the slots, and no peer is granted one that is not
    interested. *)
Theorem evaluate_fills_slots s now : 0 <= slots (config s) ->
  match evaluate now s with
  | (s', Ok _) =>
      let n := count_if wants (peers s) in
      count_grant Regular s' = Z.min (regular_slots s) n
      /\ count_grant Optimistic s' = (if slots (config s) =? 0 then 0 else Z.min 1 (n - count_grant Regular s'))
      /\ count_grant Regular s' + count_grant Optimistic s' <= slots (config s)
      /\ (forall k, input <$> peers s' !! k = input <$> peers s !! k)
      /\ (forall k p, peers s' !! k = Some p -> grant p <> Choked -> interested (input p) = true)
  | _ => False
  end.
Proof.
  intros Hslots. rewrite evaluate_eq. cbn zeta. pose proof (slots_split s Hslots) as Hsplit. pose proof (regular_slots_nonneg s). pose proof (count_nonneg wants (peers s)) as Hn.
  destruct (Z.eqb_spec (slots (config s)) 0) as [E|E].
  - assert (forall g, g <> Choked -> count_grant g (set_peers (with_grant Choked <$> peers s)
        (set_evaluations (saturating_add 64 (evaluations s) 1) s)) = 0) as Hz.
    { intros g Hg. unfold count_grant. cbn [peers set_peers]. rewrite (count_keys _ _ ∅); [by rewrite size_empty| |by intros k Hk%elem_of_empty].
      intros k v Hk. rewrite lookup_fmap in Hk. apply fmap_Some in Hk as (p & _ & ->). set_solver. }
    rewrite !Hz by done. cbn [peers set_peers set_evaluations]. split_and!; try lia.
    + intros k. rewrite lookup_fmap. by destruct (peers s !! k).
    + intros k p Hk. rewrite lookup_fmap in Hk. by apply fmap_Some in Hk as (q & _ & ->).
  - rewrite evaluated_optimistic by lia. rewrite (evaluated_grants now s Regular), size_regular_set by done. split_and!; try lia.
    + intros k. rewrite evaluated_lookup. by destruct (peers s !! k).
    + intros k p Hk. rewrite evaluated_lookup in Hk. apply fmap_Some in Hk as (q & Hq & ->). cbn.
      intros Hg. by eapply (granted_wants now s k).
Qed.

(** Regular slots go by merit.  At an ordinary round a peer that gets a
    regular slot precedes every interested peer that does not (downloading:
    the one that gave more in the last round; seeding: quota not yet used up,
    then the faster; then the longer unchoked), unless it is a seeding
    peer that already held a slot and has not used up its quota.  Between
    rounds an interested peer keeps its slot, and a free one goes by the
    same order. *)
Theorem regular_by_merit s now k p k' p' : slots (config s) <> 0 ->
  (forall k p, peers s !! k = Some p -> id (input p) = k) ->
  peers s !! k = Some p -> peers s !! k' = Some p' -> interested (input p') = true ->
  grant_of (fst (evaluate now s)) k = Some Regular -> grant_of (fst (evaluate now s)) k' <> Some Regular ->
  compare_regular s now p p' = Lt
  \/ grant p = Regular
     /\ (ordinary_due s now = false
         \/ local_complete (input p) = true /\ quota_complete p now (seeding_piece_quota (config s)) = false).
Proof.
  intros E Hids Hp Hp' Hw' Hk Hk'. rewrite evaluate_eq in Hk, Hk'. apply Z.eqb_neq in E. rewrite E in Hk, Hk'. cbn [fst] in Hk, Hk'.
  unfold grant_of in Hk, Hk'. rewrite evaluated_lookup, Hp in Hk. rewrite evaluated_lookup, Hp' in Hk'. cbn in Hk, Hk'.
  fold (granted now s k) in Hk. fold (granted now s k') in Hk'. apply (inj Some) in Hk. apply granted_regular in Hk.
  assert (k' ∉ regular_set s now) as Hr' by (intros Hin; apply Hk'; f_equal; by apply granted_regular). clear Hk'.
  apply elem_of_regular_set in Hk as [q Hq]. pose proof (choose_regular_spec s now) as (_ & Hin & _).
  destruct (Hin _ Hq) as [Hq' _]. cbn in Hq'. assert (q = p) as -> by congruence. clear Hq'.
  destruct (kept_spec s now) as (_ & Hkept & _). pose proof (choose_take s now (regular_slots_nonneg s)) as Htake.
  set (kept := kept_regular s now) in *. rewrite take_app in Htake. rewrite Htake in Hq. apply elem_of_app in Hq as [Hkp|Hq].
  { apply elem_of_take in Hkp as (i & Hkp & _). apply list_elem_of_lookup_2 in Hkp. right. destruct (Hkept _ Hkp) as [_ Hs]. cbn in Hs. unfold keeps_slot in Hs.
    apply andb_prop in Hs as [[_ Hg%bool_decide_eq_true]%andb_prop Hs]. split; [done|].
    apply orb_prop in Hs as [Hs|Hs]; [left; by apply negb_true_iff|right].
    apply andb_prop in Hs as [Hc Hs]. by apply negb_true_iff in Hs. }
  left. assert (k' ∉ kept.*1) as Hk'.
  { intros Hk'. apply list_elem_of_fmap in Hk' as ([k1 p1] & -> & Hk1). apply Hr', elem_of_regular_set. exists p1.
    unfold choose_regular. fold kept. case_match; [apply elem_of_app; by left|done]. }
  assert ((k', p') ∈ regular_candidates s now kept) as Hc' by (by apply elem_of_candidates).
  set (n := (Z.to_nat (regular_slots s) - length kept)%nat) in *.
  rewrite <- (take_drop n (regular_candidates s now kept)) in Hc'. apply elem_of_app in Hc' as [Hc'|Hc'].
  { destruct Hr'. apply elem_of_regular_set. exists p'. rewrite Htake. apply elem_of_app. by right. }
  pose proof (sorted_take_before (entry_cmp s now) (regular_candidates s now kept) n _ _ (sort_by_sorted _ _) Hq Hc') as Hle.
  unfold cmp_le, entry_cmp in Hle. cbn [snd] in Hle. destruct (compare_regular s now p p') eqn:Ec; [|done|done].
  rewrite compare_regular_merit, lex_eq in Ec. apply merit_id in Ec. rewrite (Hids _ _ Hp), (Hids _ _ Hp') in Ec. subst k'.
  destruct Hr'. apply elem_of_regular_set. exists p'. rewrite Htake. apply elem_of_app. right.
  assert (p' = p) as -> by congruence. done.
Qed.

(** The decisions are the changes.  [evaluate] reports a peer with a
    grant exactly when the peer now has that grant and had another one
    before, each peer once, in the order of the identifiers. *)
Theorem evaluate_reports_changes s now :
  match evaluate now s with
  | (s', Ok ds) =>
      (forall k g, mkDecision k g ∈ ds <->
        exists p p', peers s !! k = Some p /\ peers s' !! k = Some p' /\ grant p' = g /\ grant p <> g)
      /\ StronglySorted (fun a b => d_peer a < d_peer b) ds
      /\ (forall k, is_Some (peers s' !! k) <-> is_Some (peers s !! k))
  | _ => False
  end.
Proof.
  rewrite evaluate_eq. cbn zeta. set (s' := if slots (config s) =? 0 then set_peers _ _ else evaluated now s).
  assert (forall k, is_Some (peers s' !! k) <-> is_Some (peers s !! k)) as Hdom.
  { intros k. unfold s'. case_match; [cbn [peers set_peers]; by rewrite lookup_fmap, fmap_is_Some|].
    by rewrite evaluated_lookup, fmap_is_Some. }
  split_and!; [|apply (omap_sorted (fun a b : entry => a.1 < b.1)), btree_items_sorted|exact Hdom].
  - intros k g. unfold decisions. rewrite list_elem_of_omap. split.
    + intros ([k' p'] & Hin & He). apply elem_of_items in Hin. cbn [fst snd] in He. case_bool_decide as Hg; [done|].
      injection He as -> <-. destruct (proj1 (Hdom k)) as [p Hp]; [by eexists|]. rewrite lookup_fmap, Hp in Hg. by exists p, p'.
    + intros (p & p' & Hp & Hp' & <- & Hg). exists (k, p'). rewrite elem_of_items. split; [done|]. cbn [fst snd].
      rewrite lookup_fmap, Hp. cbn. by rewrite bool_decide_eq_false_2.
  - intros a b x y Hab Hx Hy. repeat case_bool_decide; try done. by injection Hx as <-; injection Hy as <-.
Qed.

(** ** Taking turns *)
Record turns_ok (clock : Z) s : Prop := {
  tn_ids k p : peers s !! k = Some p -> id (input p) = k;
  tn_past k p t : peers s !! k = Some p -> last_optimistic p = Some t -> t <= clock;
  tn_distinct k p k' p' t : peers s !! k = Some p -> peers s !! k' = Some p' ->
    last_optimistic p = Some t -> last_optimistic p' = Some t -> k = k';
  tn_latest k p k' p' t' : peers s !! k = Some p -> grant p = Optimistic -> k <> k' -> peers s !! k' = Some p' ->
    last_optimistic p' = Some t' -> exists t, last_optimistic p = Some t /\ t' < t;
  tn_some k p : peers s !! k = Some p -> grant p = Optimistic -> is_Some (last_optimistic p);
}.
Lemma turns_update clock s i now : turns_ok clock s -> turns_ok clock (fst (update_peer i now s)).
Proof.
  intros H. unfold update_peer, modify. cbn [fst].
  assert (forall k p, <[id i := match peers s !! id i with Some st => with_input st i | None => PeerState_new i now end]> (peers s) !! k = Some p ->
            id (input p) = k /\ (is_Some (last_optimistic p) \/ grant p = Optimistic ->
              exists p0, peers s !! k = Some p0 /\ last_optimistic p0 = last_optimistic p /\ grant p0 = grant p)) as Hk.
  { intros k p [[<- <-]|[Hne Hp]]%lookup_insert_Some.
    - destruct (peers s !! id i) as [st|] eqn:E; cbn; split; try done; [intros _; by exists st|]. by intros [[]|].
    - split; [by apply (tn_ids _ _ H)|]. intros _. by exists p. }
  split; cbn [peers set_peers].
  - intros k p Hp. by apply Hk.
  - intros k p t Hp Ht. destruct (Hk _ _ Hp) as [_ Hq]. destruct Hq as (p0 & Hp0 & El & _); [left; by rewrite Ht|].
    apply (tn_past _ _ H k p0); [done|congruence].
  - intros k p k' p' t Hp Hp' Ht Ht'. destruct (Hk _ _ Hp) as [_ Hq]. destruct (Hk _ _ Hp') as [_ Hq'].
    destruct Hq as (p0 & Hp0 & El & _); [left; by rewrite Ht|]. destruct Hq' as (p0' & Hp0' & El' & _); [left; by rewrite Ht'|].
    apply (tn_distinct _ _ H k p0 k' p0' t); congruence.
  - intros k p k' p' t' Hp Hg Hne Hp' Ht'. destruct (Hk _ _ Hp) as [_ Hq]. destruct (Hk _ _ Hp') as [_ Hq'].
    destruct Hq as (p0 & Hp0 & El & Eg); [by right|]. destruct Hq' as (p0' & Hp0' & El' & _); [left; by rewrite Ht'|].
    rewrite <- El. apply (tn_latest _ _ H k p0 k' p0' t'); congruence.
  - intros k p Hp Hg. destruct (Hk _ _ Hp) as [_ Hq]. destruct Hq as (p0 & Hp0 & El & Eg); [by right|].
    rewrite <- El. apply (tn_some _ _ H k p0); congruence.
Qed.
Lemma turns_sub clock s s' : turns_ok clock s ->
  (forall k p, peers s' !! k = Some p -> exists p0, peers s !! k = Some p0 /\ input p = input p0
     /\ last_optimistic p = last_optimistic p0 /\ (grant p = Optimistic -> grant p0 = Optimistic)) -> turns_ok clock s'.
Proof.
  intros H Hsub. split.
  - intros k p (p0 & Hp & -> & _)%Hsub. by apply (tn_ids _ _ H).
  - intros k p t (p0 & Hp & _ & -> & _)%Hsub. by apply (tn_past _ _ H k).
  - intros k p k' p' t (p0 & Hp & _ & -> & _)%Hsub (p0' & Hp' & _ & -> & _)%Hsub. by apply (tn_distinct _ _ H k p0 k' p0' t).
  - intros k p k' p' t (p0 & Hp & _ & -> & Hg)%Hsub Hgr Hne (p0' & Hp' & _ & -> & _)%Hsub. apply (tn_latest _ _ H k p0 k' p0' t); auto.
  - intros k p (p0 & Hp & _ & -> & Hg)%Hsub Hgr. apply (tn_some _ _ H k p0); auto.
Qed.
Lemma granted_optimistic_at now s k p : peers (evaluated now s) !! k = Some p ->
  exists p0, peers s !! k = Some p0 /\ input p = input p0 /\ grant p = granted now s k
    /\ last_optimistic p = if bool_decide (granted now s k = Optimistic) && negb (bool_decide (grant p0 = Optimistic))
                           then Some now else last_optimistic p0.
Proof. rewrite evaluated_lookup. intros (p0 & Hp0 & ->)%fmap_Some. by exists p0. Qed.
(** A peer with the latest turn comes after every peer that waits. *)
Lemma turns_evaluated clock now s : turns_ok clock s -> clock < now -> slots (config s) <> 0 -> turns_ok now (evaluated now s).
Proof.
  intros H Hlt Hslots.
  assert (forall k p k' p', peers (evaluated now s) !! k = Some p -> peers (evaluated now s) !! k' = Some p' ->
            grant p = Optimistic -> grant p' = Optimistic -> k = k') as Hone.
  { intros k p k' p' (p0 & _ & _ & -> & _)%granted_optimistic_at (p0' & _ & _ & -> & _)%granted_optimistic_at.
    rewrite !granted_optimistic. congruence. }
  (* the last turn of a peer is [now] for the new optimistic one, and older otherwise *)
  assert (forall k p t, peers (evaluated now s) !! k = Some p -> last_optimistic p = Some t ->
            (t = now /\ grant p = Optimistic)
            \/ (t < now /\ exists p0, peers s !! k = Some p0 /\ last_optimistic p0 = Some t
                       /\ (grant p = Optimistic -> grant p0 = Optimistic))) as Hcase.
  { intros k p t (p0 & Hp0 & _ & Hg & ->)%granted_optimistic_at Ht. rewrite Hg.
    destruct (decide (granted now s k = Optimistic)) as [Eg|Eg], (decide (grant p0 = Optimistic)) as [E0|E0];
      repeat ((rewrite bool_decide_eq_true_2 in Ht by done) || (rewrite bool_decide_eq_false_2 in Ht by done));
      cbn in Ht; try (left; split; [congruence|done]); right;
      (split; [pose proof (tn_past _ _ H _ _ _ Hp0 Ht); lia|]; exists p0; by repeat split). }
  split.
  - intros k p (p0 & Hp0 & -> & _)%granted_optimistic_at. by apply (tn_ids _ _ H).
  - intros k p t Hp Ht. destruct (Hcase _ _ _ Hp Ht) as [[-> _]|[? _]]; lia.
  - intros k p k' p' t Hp Hp' Ht Ht'. destruct (Hcase _ _ _ Hp Ht) as [[-> Hg]|[Hlt1 (p0 & Hp0 & Hl0 & _)]];
      destruct (Hcase _ _ _ Hp' Ht') as [[E Hg']|[Hlt2 (p0' & Hp0' & Hl0' & _)]]; [by eapply Hone|lia|lia|].
    by apply (tn_distinct _ _ H k p0 k' p0' t).
  - intros k p k' p' t' Hp Hg Hne Hp' Ht'.
    assert (is_Some (last_optimistic p)) as [t Ht].
    { pose proof Hp as (p0 & Hp0 & _ & Eg & ->)%granted_optimistic_at. rewrite Hg in Eg. rewrite <- Eg, bool_decide_eq_true_2 by done.
      destruct (decide (grant p0 = Optimistic)) as [E0|E0];
        [rewrite bool_decide_eq_true_2 by done; by apply (tn_some _ _ H k p0)|by rewrite bool_decide_eq_false_2]. }
    exists t. split; [done|]. destruct (Hcase _ _ _ Hp' Ht') as [[_ Hg']|[Hlt2 (p0' & Hp0' & Hl0' & _)]].
    { destruct Hne. by eapply Hone. }
    destruct (Hcase _ _ _ Hp Ht) as [[-> _]|[_ (p0 & Hp0 & Hl0 & Hg0)]]; [done|].
    destruct (tn_latest _ _ H k p0 k' p0' t') as (t1 & Ht1 & Hlt1); auto. congruence.
  - intros k p Hp Hg. pose proof Hp as (p0 & Hp0 & _ & Eg & ->)%granted_optimistic_at. rewrite Hg in Eg.
    rewrite <- Eg, bool_decide_eq_true_2 by done. destruct (decide (grant p0 = Optimistic)) as [E0|E0];
      [rewrite bool_decide_eq_true_2 by done; by apply (tn_some _ _ H k p0)|by rewrite bool_decide_eq_false_2].
Qed.

(** The peers whose turn comes before that of a peer last granted at [last]. *)
Definition ahead s q (last : option Z) : gset Z :=
  dom (filter (fun kp => optimistic_cmp (kp.1, last_optimistic kp.2) (q, last) = Lt) (peers s)).
Lemma elem_of_ahead s q last k : k ∈ ahead s q last <->
  exists p, peers s !! k = Some p /\ optimistic_cmp (k, last_optimistic p) (q, last) = Lt.
Proof.
  unfold ahead. rewrite elem_of_dom. split.
  - intros [p [Hp Hc]%map_lookup_filter_Some]. by exists p.
  - intros (p & Hp & Hc). exists p. by apply map_lookup_filter_Some.
Qed.
Lemma ahead_lt_size s q last : is_Some (peers s !! q) -> (forall p, peers s !! q = Some p -> last_optimistic p = last) ->
  (size (ahead s q last) < size (peers s))%nat.
Proof.
  intros [p Hp] Hl. rewrite <- (size_dom (peers s)). apply subset_size. split.
  - intros k (p' & Hp' & _)%elem_of_ahead. apply elem_of_dom. by exists p'.
  - intros Hsub. assert (q ∈ ahead s q last) as (p' & Hp' & Hc)%elem_of_ahead by (apply Hsub, elem_of_dom; by exists p).
    rewrite (Hl _ Hp') in Hc. destruct (cmp_total optimistic_cmp (q, last) (q, last)) as [Ht|Ht];
      pose proof (cmp_opp optimistic_cmp (q, last) (q, last)) as Ho; rewrite Hc in Ho; done.
Qed.
Lemma later_not_ahead q (last : option Z) k now : (forall t, last = Some t -> t < now) ->
  optimistic_cmp (k, Some now) (q, last) <> Lt.
Proof.
  intros Hl. unfold optimistic_cmp. cbn. destruct last as [t|]; cbn; [|done]. specialize (Hl t eq_refl).
  replace (now ?= t) with Gt by (symmetry; apply Z.compare_gt_iff; lia). done.
Qed.
(** One evaluation that leaves [q] waiting lets no peer get ahead of it, and
    at a rotation takes one peer from before it. *)
Lemma evaluated_ahead clock now s q p : turns_ok clock s -> clock < now -> slots (config s) <> 0 -> 0 <= slots (config s) ->
  peers s !! q = Some p -> wants p -> granted now s q = Choked ->
  (size (ahead (evaluated now s) q (last_optimistic p)) + (if optimistic_due s now then 1 else 0)
   <= size (ahead s q (last_optimistic p)))%nat.
Proof.
  intros H Hlt Hslots Hpos Hp Hw Hg. set (last := last_optimistic p).
  assert (forall t, last = Some t -> t < now) as Hnow by (intros t Ht; pose proof (tn_past _ _ H _ _ _ Hp Ht); lia).
  assert (ahead (evaluated now s) q last ⊆ ahead s q last) as Hsub.
  { intros k (pk & (p0 & Hp0 & _ & _ & Hl)%granted_optimistic_at & Hc)%elem_of_ahead. rewrite Hl in Hc. apply elem_of_ahead. exists p0.
    split; [done|]. case_match; [|done]. by apply later_not_ahead in Hc. }
  destruct (optimistic_due s now) eqn:Ed; [|apply subseteq_size in Hsub; lia].
  assert (candidate s (regular_set s now) q p) as Hcand.
  { split_and!; [done..|]. intros Hin%granted_regular. congruence. }
  pose proof (choose_optimistic_spec s now (regular_set s now)) as Hch.
  destruct (choose_optimistic s now (regular_set s now)) as [k|] eqn:Ek; cycle 1.
  { destruct Hch as [Hz|Hn]; [|by destruct (Hn q p)]. destruct (slots_split s Hpos) as [(_ & ? & _)|[? _]]; lia. }
  destruct Hch as (_ & _ & Hturn & _). destruct (Hturn Ed) as (pk & (Hpk & _) & Hmin). specialize (Hmin q p Hcand). fold last in Hmin.
  apply (proj2 (granted_optimistic now s k)) in Ek. assert (k <> q) as Hne by (intros ->; congruence).
  assert (optimistic_cmp (k, last_optimistic pk) (q, last) = Lt) as Hk.
  { destruct (optimistic_cmp _ _) eqn:E; [|done|done]. unfold optimistic_cmp in E. rewrite then_with_eq, Z.compare_eq_iff in E. by destruct E. }
  assert (grant pk <> Optimistic) as Hgk.
  { intros Hgk. unfold optimistic_cmp in Hk. destruct (tn_some _ _ H k pk Hpk Hgk) as [t Ht].
    cbn [fst snd] in Hk. rewrite Ht in Hk. destruct last as [t'|] eqn:El; [|done].
    destruct (tn_latest _ _ H k pk q p t' Hpk Hgk Hne Hp El) as (t1 & Ht1 & Hlt1). assert (t1 = t) as -> by congruence.
    cbn in Hk. replace (t ?= t') with Gt in Hk by (symmetry; apply Z.compare_gt_iff; lia). done. }
  assert (ahead (evaluated now s) q last ⊂ ahead s q last) as Hstrict%subset_size; [|lia]. split; [done|]. intros Hback.
  assert (k ∈ ahead (evaluated now s) q last) as (p1 & (p0 & Hp0 & _ & _ & Hl)%granted_optimistic_at & Hc)%elem_of_ahead
    by (apply Hback, elem_of_ahead; by exists pk).
  assert (p0 = pk) as -> by congruence. rewrite Hl, bool_decide_eq_true_2, bool_decide_eq_false_2 in Hc by done.
  by apply later_not_ahead in Hc.
Qed.

(** ** Histories

    [scheduler_reach clock s]: [s] is reached from a new scheduler by peers
    that come, change and go, evaluations at increasing times, and changes of
    the number of slots. *)
Inductive scheduler_reach : Z -> UploadScheduler -> Prop :=
| reach_new c s clock : 0 <= slots c -> UploadScheduler_new c = Ok s -> scheduler_reach clock s
| reach_update i now clock s : scheduler_reach clock s -> scheduler_reach clock (fst (update_peer i now s))
| reach_remove k clock s : scheduler_reach clock s -> scheduler_reach clock (fst (remove_peer k s))
| reach_evaluate now clock s : scheduler_reach clock s -> clock < now -> scheduler_reach now (fst (evaluate now s))
| reach_reconfigure n now clock s : scheduler_reach clock s -> clock < now -> 0 <= n ->
    scheduler_reach now (fst (reconfigure_slots n now s)).
Lemma evaluate_turns clock now s : turns_ok clock s -> clock < now -> turns_ok now (fst (evaluate now s)).
Proof.
  intros H Hlt. rewrite evaluate_eq. cbn [fst]. destruct (Z.eqb_spec (slots (config s)) 0) as [E|E]; [|by eapply turns_evaluated].
  assert (turns_ok now s) as H' by (split; [apply H| |apply H|apply H|apply H]; intros k p t Hp Ht;
    pose proof (tn_past _ _ H _ _ _ Hp Ht); lia).
  apply (turns_sub now s); [done|]. cbn [peers set_peers]. intros k p Hp. rewrite lookup_fmap in Hp.
  apply fmap_Some in Hp as (p0 & Hp0 & ->). by exists p0.
Qed.
Lemma scheduler_reach_ok clock s : scheduler_reach clock s -> turns_ok clock s /\ 0 <= slots (config s).
Proof.
  induction 1 as [c s clock Hc E|i now clock s _ [H Hs]|k clock s _ [H Hs]|now clock s _ [H Hs] Hlt|n now clock s _ [H Hs] Hlt Hn].
  - unfold UploadScheduler_new in E. repeat case_match; try done. injection E as <-. split; [|done]. by split.
  - split; [by apply turns_update|done].
  - split; [|done]. apply (turns_sub clock s); [done|]. cbn [remove_peer modify fst peers set_peers].
    intros k' p [_ Hp]%lookup_delete_Some. by exists p.
  - split; [by eapply evaluate_turns|]. rewrite evaluate_eq. by case_match.
  - unfold reconfigure_slots. unfold mbind, M_bind, modify.
    assert (turns_ok clock (set_slots n s)) as H' by (split; apply H). split; [by eapply evaluate_turns|].
    rewrite evaluate_eq. by case_match.
Qed.

(** [waits q n t0 s0 t s]: from [s0] to [s] the peer [q] stayed interested
    without being granted a slot, no peer came, and [n] of the evaluations
    were rotations of the optimistic slot. *)
Inductive waits (q : Z) : nat -> Z -> UploadScheduler -> Z -> UploadScheduler -> Prop :=
| waits_start t s p : peers s !! q = Some p -> wants p -> waits q 0 t s t s
| waits_update i now n t0 s0 t s : waits q n t0 s0 t s -> is_Some (peers s !! id i) -> (id i = q -> interested i = true) ->
    waits q n t0 s0 t (fst (update_peer i now s))
| waits_remove k n t0 s0 t s : waits q n t0 s0 t s -> k <> q -> waits q n t0 s0 t (fst (remove_peer k s))
| waits_evaluate now n t0 s0 t s : waits q n t0 s0 t s -> t < now -> 0 < slots (config s) ->
    grant_of (fst (evaluate now s)) q = Some Choked ->
    waits q (n + if optimistic_due s now then 1 else 0) t0 s0 now (fst (evaluate now s)).
Lemma waits_ahead q n t0 s0 t s : turns_ok t0 s0 -> waits q n t0 s0 t s ->
  turns_ok t s /\ exists p0 p, peers s0 !! q = Some p0 /\ peers s !! q = Some p /\ wants p
    /\ last_optimistic p = last_optimistic p0
    /\ (size (ahead s q (last_optimistic p0)) + n <= size (ahead s0 q (last_optimistic p0)))%nat.
Proof.
  intros H0. induction 1 as [t s p Hp Hw|i now n t0 s0 t s _ IH Hi Hiq|k n t0 s0 t s _ IH Hne|now n t0 s0 t s _ IH Hlt Hslots Hg].
  - split; [done|]. exists p, p. split_and!; try done. lia.
  - destruct (IH H0) as (H & p0 & p & Hp0 & Hp & Hw & Hl & Hsize). split; [by apply turns_update|].
    destruct Hi as [st Hst]. unfold update_peer, modify. cbn [fst peers set_peers]. rewrite Hst.
    assert (size (ahead (set_peers (<[id i:=with_input st i]> (peers s)) s) q (last_optimistic p0))
            <= size (ahead s q (last_optimistic p0)))%nat as Hsub.
    { apply subseteq_size. intros k (pk & Hk & Hc)%elem_of_ahead. apply elem_of_ahead. cbn [peers set_peers] in Hk.
      apply lookup_insert_Some in Hk as [[<- <-]|[_ Hk]]; [by exists st|by exists pk]. }
    destruct (decide (id i = q)) as [E|E].
    + exists p0, (with_input st i). rewrite E, lookup_insert_eq. assert (st = p) as -> by congruence.
      split_and!; try done; [by apply Hiq|]. rewrite E in Hsub. lia.
    + exists p0, p. rewrite lookup_insert_ne by done. split_and!; try done. lia.
  - destruct (IH H0) as (H & p0 & p & Hp0 & Hp & Hw & Hl & Hsize). split.
    + apply (turns_sub t s); [done|]. cbn [remove_peer modify fst peers set_peers].
      intros k' p' [_ Hp']%lookup_delete_Some. by exists p'.
    + exists p0, p. cbn [remove_peer modify fst peers set_peers]. rewrite lookup_delete_ne by done. split_and!; try done.
      assert (size (ahead (set_peers (delete k (peers s)) s) q (last_optimistic p0)) <= size (ahead s q (last_optimistic p0)))%nat as Hsub; [|lia].
      apply subseteq_size. intros k' (pk & Hk & Hc)%elem_of_ahead. apply elem_of_ahead. cbn [peers set_peers] in Hk.
      apply lookup_delete_Some in Hk as [_ Hk]. by exists pk.
  - destruct (IH H0) as (H & p0 & p & Hp0 & Hp & Hw & Hl & Hsize). split; [by eapply evaluate_turns|].
    revert Hg. rewrite evaluate_eq. cbn [fst]. rewrite (proj2 (Z.eqb_neq (slots (config s)) 0)) by lia. intros Hg.
    unfold grant_of in Hg. rewrite evaluated_lookup, Hp in Hg. cbn in Hg. fold (granted now s q) in Hg. apply (inj Some) in Hg.
    pose proof (evaluated_ahead t now s q p H Hlt ltac:(lia) ltac:(lia) Hp Hw Hg) as Ha. rewrite Hl in Ha.
    exists p0. rewrite evaluated_lookup, Hp. eexists. split; [done|]. split; [reflexivity|]. split; [done|].
    cbn [last_optimistic regrant]. fold (granted now s q). rewrite Hg. split; [done|]. lia.
Qed.

(** C38: No interested peer starves.  Whatever else happens - other peers
    changing or leaving, evaluations at any increasing times, slots given and
    taken by merit - a peer that stays interested is granted a slot at the
    latest in the rotation of the optimistic slot whose number is the number
    of peers: it waits for fewer rotations than there are peers, as long as
    no peer joins. *)
Theorem no_starvation q n t0 s0 t s : scheduler_reach t0 s0 -> waits q n t0 s0 t s ->
  (n < size (peers s0))%nat.
Proof.
  intros [H0 _]%scheduler_reach_ok Hw. destruct (waits_ahead q n t0 s0 t s H0 Hw) as (_ & p0 & p & Hp0 & _ & _ & _ & Hsize).
  pose proof (ahead_lt_size s0 q (last_optimistic p0)) as Hlt.
  enough (size (ahead s0 q (last_optimistic p0)) < size (peers s0))%nat by lia. apply Hlt; [by exists p0|]. congruence.
Qed.

(** ** Witnesses *)
Definition sample_peer (n uploaded downloaded : Z) (complete : bool) : UploadSchedulerPeer :=
  mkUploadPeer n [] 16384 true uploaded downloaded complete.
Definition sample_scheduler : UploadScheduler :=
  match UploadScheduler_new (mkUploadConfig 2 (from_secs 15) (from_secs 30) 20) with
  | Ok s => fst (update_peer (sample_peer 3 0 0 false) 0 (fst (update_peer (sample_peer 2 0 0 false) 0
              (fst (update_peer (sample_peer 1 0 0 false) 0 s)))))
  | _ => mkScheduler config_default ∅ None None 0 0
  end.
Lemma sample_scheduler_reach : scheduler_reach 0 sample_scheduler.
Proof.
  unfold sample_scheduler. destruct (UploadScheduler_new _) as [s| | |] eqn:E; [|done..].
  do 3 apply reach_update. by eapply (reach_new (mkUploadConfig 2 (from_secs 15) (from_secs 30) 20)).
Qed.
Definition first_round : UploadScheduler := fst (evaluate (from_secs 1) sample_scheduler).
Lemma evaluate_fills_slots_witness :
  count_grant Regular first_round = 1 /\ count_grant Regular first_round + count_grant Optimistic first_round <= 2.
Proof.
  pose proof (evaluate_fills_slots sample_scheduler (from_secs 1) ltac:(vm_compute; done)) as H. unfold first_round.
  destruct (evaluate (from_secs 1) sample_scheduler) as [s' [ds| | |]]; try done. destruct H as (H1 & _ & H3 & _). cbn [fst].
  split; [rewrite H1; vm_compute; exact eq_refl|exact H3].
Defined.
Definition second_input : UploadScheduler := fst (update_peer (sample_peer 2 0 1000 false) 0 first_round).
Definition state_of (s : UploadScheduler) (k : Z) : PeerState :=
  default (PeerState_new (sample_peer k 0 0 false) 0) (peers s !! k).
Lemma second_input_ids k p : peers second_input !! k = Some p -> id (input p) = k.
Proof.
  assert (scheduler_reach (from_secs 1) second_input) as [H _]%scheduler_reach_ok.
  { apply reach_update, (reach_evaluate _ 0); [apply sample_scheduler_reach|done]. }
  apply (tn_ids _ _ H).
Qed.
Lemma regular_by_merit_witness :
  compare_regular second_input (from_secs 20) (state_of second_input 2) (state_of second_input 3) = Lt
  \/ grant (state_of second_input 2) = Regular /\ (ordinary_due second_input (from_secs 20) = false
       \/ local_complete (input (state_of second_input 2)) = true
          /\ quota_complete (state_of second_input 2) (from_secs 20) (seeding_piece_quota (config second_input)) = false).
Proof.
  apply (regular_by_merit second_input (from_secs 20) 2 (state_of second_input 2) 3 (state_of second_input 3));
    [by vm_compute|apply second_input_ids|vm_compute; exact eq_refl..|by vm_compute].
Defined.
Lemma no_starvation_witness : (1 < size (peers sample_scheduler))%nat.
Proof.
  destruct (peers sample_scheduler !! 3) as [p|] eqn:E; [|done].
  apply (no_starvation 3 1 0 sample_scheduler (from_secs 1) first_round); [apply sample_scheduler_reach|].
  apply (waits_evaluate 3 (from_secs 1) 0 0 sample_scheduler 0 sample_scheduler); [|done..].
  apply (waits_start 3 0 sample_scheduler p); [done|]. 
  assert (interested ∘ input <$> peers sample_scheduler !! 3 = Some true) as E' by (vm_compute; exact eq_refl).
  rewrite E in E'. by injection E'.
Defined.
