(* ===== verification/Bandwidth.v ===== *)
(** * Transfer quota (engine/bandwidth.rs)

    The hierarchical bandwidth limiter.  A direction has a token bucket for
    the session, one for each torrent, queues of waiting requests, and an
    allocator that serves the ready torrents in turn; [SessionBandwidth] is
    the two directions.  An operation under the lock is a definition here; a
    history ([history]) is a sequence of them.  The clock, and whether the
    receiver of a request is still there, are arguments.  Times are
    nanoseconds.  A failing [debug_assert!] is [Panic] in a debug build
    ([debug_assertions = true]) and nothing in a release build.

    The properties: no window of time lets more bytes through a bucket than
    its burst and its rate allow; the queues, flags and counters agree, so
    that no waiting request is forgotten; an allocation returns and is exact;
    turns are fair; a torrent is registered with both directions or neither.
    Two of them show errors: a second request of a torrent whose grant is
    still out breaks an assertion of the allocator, and a request that passes
    its checks just before [stop] is never answered. *)
From S2P Require Import Prelude Ordered.
#[local] Open Scope Z_scope.

Definition MIN_TRANSFER_RATE_BYTES_PER_SECOND : Z := 1024.
Definition MAX_BANDWIDTH_GRANT_BYTES : Z := 16 * 1024.
Definition MAX_BANDWIDTH_BURST_BYTES : Z := 1024 * 1024.
Definition MAX_BANDWIDTH_REGISTRATIONS : Z := 1024.
Definition MAX_BANDWIDTH_WAITERS : Z := 4096.
Definition CREDIT_SCALE : Z := 1000000000.
Definition MAX_ACCRUAL_ELAPSED : Z := 1000000000.
Definition MAX_GRANTS_PER_PASS : Z := MAX_BANDWIDTH_WAITERS.

(** [None] is [UNLIMITED]. *)
Definition TransferRateLimit : Type := option Z.
Definition limited (bytes_per_second : Z) : outcome Z TransferRateLimit :=
  if bytes_per_second <? MIN_TRANSFER_RATE_BYTES_PER_SECOND then Err bytes_per_second else Ok (Some bytes_per_second).
Definition atomic_value (limit : TransferRateLimit) : Z := match limit with Some value => value | None => 0 end.

Inductive BandwidthError := Stopped | TorrentClosed | RegistrationLimit | WaiterLimit.

(** ** The token bucket *)
Record TokenBucket := mkBucket { limit : TransferRateLimit; credit : Z }.
Definition TokenBucket_new (limit : TransferRateLimit) : TokenBucket := mkBucket limit 0.
Definition capacity_credit (b : TokenBucket) : Z :=
  match limit b with Some rate => Z.min rate MAX_BANDWIDTH_BURST_BYTES * CREDIT_SCALE | None => 0 end.
Definition set_limit (l : TransferRateLimit) (b : TokenBucket) : TokenBucket :=
  mkBucket l (Z.min (credit b) (capacity_credit (mkBucket l (credit b)))).
Definition bucket_advance (elapsed : Z) (b : TokenBucket) : TokenBucket :=
  match limit b with
  | None => mkBucket None 0
  | Some rate =>
    let nanos := Z.min elapsed MAX_ACCRUAL_ELAPSED in
    mkBucket (limit b) (Z.min (saturating_add 128 (credit b) (saturating_mul 128 rate nanos)) (capacity_credit b))
  end.
Definition available (b : TokenBucket) : Z :=
  match limit b with None => umax USIZE | Some _ => Z.min (credit b / CREDIT_SCALE) (umax USIZE) end.
(** An assertion of debug builds. *)
Definition debug_assert {E} (debug_assertions condition : bool) : outcome E unit := if debug_assertions && negb condition then Panic else Ok tt.
Definition consume {E} (debug_assertions : bool) (bytes : Z) (b : TokenBucket) : outcome E TokenBucket :=
  match limit b with
  | None => Ok b
  | Some _ =>
    let scaled := saturating_mul 128 bytes CREDIT_SCALE in
    _ ← debug_assert debug_assertions (scaled <=? credit b);
    Ok (mkBucket (limit b) (saturating_sub (credit b) scaled))
  end.
Definition refund (bytes : Z) (b : TokenBucket) : TokenBucket :=
  match limit b with
  | None => b
  | Some _ => mkBucket (limit b) (Z.min (saturating_add 128 (credit b) (saturating_mul 128 bytes CREDIT_SCALE)) (capacity_credit b))
  end.
Definition time_until_byte (b : TokenBucket) : Z :=
  match limit b with
  | None => 0
  | Some rate =>
    if CREDIT_SCALE <=? credit b then 0
    else Z.min (Z.max (div_ceil (CREDIT_SCALE - credit b) rate) 1) (umax 64)
  end.

(** ** The state of a direction *)
Record PendingRequest := mkRequest { request_id : Z; wanted_bytes : Z; enqueued : Z }.
Record TorrentDirectionState := mkTorrentState {
  bucket : TokenBucket;
  waiters : list PendingRequest;
  ready : bool;
  grant_in_flight : bool;
}.
Definition TorrentDirectionState_new (l : TransferRateLimit) : TorrentDirectionState := mkTorrentState (TokenBucket_new l) [] false false.
Record BandwidthDirectionSnapshot := mkSnapshot {
  registered_torrents : Z;
  waiting_requests : Z;
  queued_bytes : Z;
  granted_bytes : Z;
  returned_bytes : Z;
  cancelled_requests : Z;
  throttle_wait_micros : Z;
  throttle_wait_high_water_micros : Z;
}.
Definition snapshot_default : BandwidthDirectionSnapshot := mkSnapshot 0 0 0 0 0 0 0 0.
Record DirectionState := mkState {
  session : TokenBucket;
  torrents : gmap Z TorrentDirectionState;
  ready_queue : list Z;
  next_request_id : Z;
  last_advanced : Z;
  snapshot : BandwidthDirectionSnapshot;
}.
Definition DirectionState_new (l : TransferRateLimit) (now : Z) : DirectionState := mkState (TokenBucket_new l) ∅ [] 1 now snapshot_default.

Definition set_bucket (b : TokenBucket) (t : TorrentDirectionState) : TorrentDirectionState := mkTorrentState b (waiters t) (ready t) (grant_in_flight t).
Definition set_waiters (w : list PendingRequest) (t : TorrentDirectionState) : TorrentDirectionState := mkTorrentState (bucket t) w (ready t) (grant_in_flight t).
Definition set_ready (r : bool) (t : TorrentDirectionState) : TorrentDirectionState := mkTorrentState (bucket t) (waiters t) r (grant_in_flight t).
Definition set_in_flight (g : bool) (t : TorrentDirectionState) : TorrentDirectionState := mkTorrentState (bucket t) (waiters t) (ready t) g.
Definition set_session (b : TokenBucket) (s : DirectionState) : DirectionState :=
  mkState b (torrents s) (ready_queue s) (next_request_id s) (last_advanced s) (snapshot s).
Definition set_torrents (m : gmap Z TorrentDirectionState) (s : DirectionState) : DirectionState :=
  mkState (session s) m (ready_queue s) (next_request_id s) (last_advanced s) (snapshot s).
Definition set_queue (q : list Z) (s : DirectionState) : DirectionState :=
  mkState (session s) (torrents s) q (next_request_id s) (last_advanced s) (snapshot s).
Definition set_next_id (n : Z) (s : DirectionState) : DirectionState :=
  mkState (session s) (torrents s) (ready_queue s) n (last_advanced s) (snapshot s).
Definition set_last_advanced (now : Z) (s : DirectionState) : DirectionState :=
  mkState (session s) (torrents s) (ready_queue s) (next_request_id s) now (snapshot s).
Definition set_snapshot (n : BandwidthDirectionSnapshot) (s : DirectionState) : DirectionState :=
  mkState (session s) (torrents s) (ready_queue s) (next_request_id s) (last_advanced s) n.
Definition set_registered (n : Z) (c : BandwidthDirectionSnapshot) : BandwidthDirectionSnapshot :=
  mkSnapshot n (waiting_requests c) (queued_bytes c) (granted_bytes c) (returned_bytes c) (cancelled_requests c) (throttle_wait_micros c) (throttle_wait_high_water_micros c).
Definition set_waiting (n : Z) (q : Z) (c : BandwidthDirectionSnapshot) : BandwidthDirectionSnapshot :=
  mkSnapshot (registered_torrents c) n q (granted_bytes c) (returned_bytes c) (cancelled_requests c) (throttle_wait_micros c) (throttle_wait_high_water_micros c).
Definition add_cancelled (n : Z) (c : BandwidthDirectionSnapshot) : BandwidthDirectionSnapshot :=
  mkSnapshot (registered_torrents c) (waiting_requests c) (queued_bytes c) (granted_bytes c) (returned_bytes c) (saturating_add 64 (cancelled_requests c) n) (throttle_wait_micros c) (throttle_wait_high_water_micros c).
Definition add_granted (n : Z) (c : BandwidthDirectionSnapshot) : BandwidthDirectionSnapshot :=
  mkSnapshot (registered_torrents c) (waiting_requests c) (queued_bytes c) (saturating_add 64 (granted_bytes c) n) (returned_bytes c) (cancelled_requests c) (throttle_wait_micros c) (throttle_wait_high_water_micros c).
Definition add_returned (n : Z) (c : BandwidthDirectionSnapshot) : BandwidthDirectionSnapshot :=
  mkSnapshot (registered_torrents c) (waiting_requests c) (queued_bytes c) (granted_bytes c) (saturating_add 64 (returned_bytes c) n) (cancelled_requests c) (throttle_wait_micros c) (throttle_wait_high_water_micros c).
Definition add_wait (micros : Z) (c : BandwidthDirectionSnapshot) : BandwidthDirectionSnapshot :=
  mkSnapshot (registered_torrents c) (waiting_requests c) (queued_bytes c) (granted_bytes c) (returned_bytes c) (cancelled_requests c)
    (saturating_add 64 (throttle_wait_micros c) micros) (Z.max (throttle_wait_high_water_micros c) micros).
(** One request leaves the queues. *)
Definition uncount (r : PendingRequest) (c : BandwidthDirectionSnapshot) : BandwidthDirectionSnapshot :=
  set_waiting (saturating_sub (waiting_requests c) 1) (saturating_sub (queued_bytes c) (wanted_bytes r)) c.
Definition uncount_cancelled (r : PendingRequest) (c : BandwidthDirectionSnapshot) : BandwidthDirectionSnapshot := add_cancelled 1 (uncount r c).
Definition on_snapshot (f : BandwidthDirectionSnapshot -> BandwidthDirectionSnapshot) (s : DirectionState) : DirectionState := set_snapshot (f (snapshot s)) s.
Abbreviation method := (M DirectionState BandwidthError).

(** ** Operations under the lock *)
Definition advance (elapsed : Z) (s : DirectionState) : DirectionState :=
  set_torrents ((fun t => set_bucket (bucket_advance elapsed (bucket t)) t) <$> torrents s) (set_session (bucket_advance elapsed (session s)) s).
Definition advance_to_now (now : Z) (s : DirectionState) : DirectionState :=
  let elapsed := Z.min (saturating_sub now (last_advanced s)) MAX_ACCRUAL_ELAPSED in
  advance elapsed (set_last_advanced now s).
Definition queue (torrent_id requested now : Z) : method Z :=
  s ← get;
  if MAX_BANDWIDTH_WAITERS <=? waiting_requests (snapshot s) then fail WaiterLimit
  else
    torrent ← lift (ok_or (torrents s !! torrent_id) TorrentClosed);
    let id := next_request_id s in
    modify (set_next_id (Z.max (wrapping_add 64 id 1) 1));;
    let queued := set_waiters (waiters torrent ++ [mkRequest id requested now]) torrent in
    modify (fun s => set_torrents (<[torrent_id := set_ready true queued]> (torrents s)) s);;
    (if ready torrent then mret tt else modify (fun s => set_queue (ready_queue s ++ [torrent_id]) s));;
    modify (on_snapshot (fun c => set_waiting (waiting_requests c + 1) (saturating_add 64 (queued_bytes c) requested) c));;
    mret id.
Definition without (torrent_id : Z) (q : list Z) : list Z := filter (fun id => id <> torrent_id) q.
Fixpoint remove_request (id : Z) (w : list PendingRequest) : option (PendingRequest * list PendingRequest) :=
  match w with
  | [] => None
  | r :: w => if request_id r =? id then Some (r, w) else match remove_request id w with Some (found, rest) => Some (found, r :: rest) | None => None end
  end.
Definition cancel (torrent_id id : Z) (s : DirectionState) : DirectionState * bool :=
  match torrents s !! torrent_id with
  | None => (s, false)
  | Some torrent =>
    match remove_request id (waiters torrent) with
    | None => (s, false)
    | Some (request, rest) =>
      let s := on_snapshot (uncount_cancelled request) s in
      if bool_decide (rest = []) then
        (set_queue (without torrent_id (ready_queue s)) (set_torrents (<[torrent_id := set_ready false (set_waiters [] torrent)]> (torrents s)) s), true)
      else (set_torrents (<[torrent_id := set_waiters rest torrent]> (torrents s)) s, true)
    end
  end.
Definition stop (s : DirectionState) : DirectionState :=
  let s := set_torrents ((fun t => set_ready false (set_waiters [] t)) <$> torrents s) s in
  let s := set_queue [] s in
  on_snapshot (fun c => set_waiting 0 0 (add_cancelled (waiting_requests c) c)) s.

(** ** The allocator *)
Record Grant := mkGrant { g_torrent : Z; g_request : Z; g_bytes : Z }.
Inductive AllocationOutcome := Idle | Wait (delay : Z) | Yield.
(** What a pass has done: grants sent, the shortest wait, and whether this round sent any. *)
Record Pass := mkPass { sent : list Grant; shortest_wait : option Z; progress : bool }.
Definition note_wait (wait : Z) (p : Pass) : Pass :=
  mkPass (sent p) (Some (match shortest_wait p with Some current => Z.min current wait | None => wait end)) (progress p).
Definition note_grant (g : Grant) (p : Pass) : Pass := mkPass (sent p ++ [g]) (shortest_wait p) true.

Section allocate.
Context (debug_assertions : bool) (is_closed send_fails : Z -> bool) (waited_micros : PendingRequest -> Z).

(** The closed requests at the front are dropped. *)
Fixpoint drop_closed (w : list PendingRequest) (c : BandwidthDirectionSnapshot) : list PendingRequest * BandwidthDirectionSnapshot :=
  match w with
  | [] => ([], c)
  | r :: rest => if is_closed (request_id r) then drop_closed rest (uncount_cancelled r c) else (w, c)
  end.
Definition serve_request (torrent_id : Z) (torrent : TorrentDirectionState) (request : PendingRequest) (rest : list PendingRequest) (p : Pass) : method Pass :=
  s ← get;
  lift (debug_assert debug_assertions (negb (grant_in_flight torrent)));;
    let bytes := Z.min (Z.min (Z.min (wanted_bytes request) MAX_BANDWIDTH_GRANT_BYTES) (available (session s))) (available (bucket torrent)) in
    if bytes =? 0 then
      let wait := Z.max (time_until_byte (session s)) (time_until_byte (bucket torrent)) in
      modify (fun s => set_queue (ready_queue s ++ [torrent_id]) s);;
      modify (fun s => set_torrents (<[torrent_id := set_ready true (set_waiters (request :: rest) torrent)]> (torrents s)) s);;
      mret (note_wait wait p)
    else
      paid ← lift (consume debug_assertions bytes (session s));
      modify (set_session paid);;
      spent ← lift (consume debug_assertions bytes (bucket torrent));
      modify (on_snapshot (fun c => add_wait (waited_micros request) (add_granted bytes (uncount request c))));;
      let served := mkTorrentState spent rest false true in
      if negb (send_fails (request_id request)) then
        modify (fun s => set_torrents (<[torrent_id := served]> (torrents s)) s);;
        mret (note_grant (mkGrant torrent_id (request_id request) bytes) p)
      else
        modify (fun s => set_session (refund bytes (session s)) s);;
        modify (on_snapshot (fun c => add_cancelled 1 (add_returned bytes c)));;
        let again := negb (bool_decide (rest = [])) in
        (if again then modify (fun s => set_queue (ready_queue s ++ [torrent_id]) s) else mret tt);;
        modify (fun s => set_torrents (<[torrent_id := mkTorrentState (refund bytes spent) rest again false]> (torrents s)) s);;
        mret p.
Definition serve_next (p : Pass) : method Pass :=
  s ← get;
  match ready_queue s with
  | [] => lift Panic
  | torrent_id :: q =>
    modify (set_queue q);;
    match torrents s !! torrent_id with
    | None => mret p
    | Some torrent =>
      modify (fun s => set_torrents (delete torrent_id (torrents s)) s);;
      let '(w, c) := drop_closed (waiters torrent) (snapshot s) in
      modify (set_snapshot c);;
      match w with
      | [] => modify (fun s => set_torrents (<[torrent_id := set_ready false (set_waiters [] torrent)]> (torrents s)) s);; mret p
      | request :: rest => serve_request torrent_id torrent request rest p
      end
    end
  end.
(** The rounds; [inl] when the pass has sent as much as it may. *)
Fixpoint serve_round (round : nat) (p : Pass) : method (Pass + Pass) :=
  match round with
  | O => mret (inr p)
  | S round =>
    next ← serve_next p;
    if (len (sent p) <? len (sent next)) && (MAX_GRANTS_PER_PASS <=? len (sent next)) then mret (inl next)
    else serve_round round next
  end.
(** A round that does not end the pass sends at least one grant, so one more
    round than grants allowed is enough. *)
Fixpoint allocate_rounds (fuel : nat) (p : Pass) : method (AllocationOutcome * list Grant) :=
  match fuel with
  | O => lift NoFuel
  | S fuel =>
    s ← get;
    let round := length (ready_queue s) in
    if bool_decide (round = 0%nat) then mret (if len (sent p) =? 0 then Idle else Yield, sent p)
    else
      r ← serve_round round (mkPass (sent p) (shortest_wait p) false);
      match r with
      | inl p => mret (Yield, sent p)
      | inr p => if negb (progress p) then mret (Wait (default 1000000 (shortest_wait p)), sent p) else allocate_rounds fuel p
      end
  end.
Definition allocate : method (AllocationOutcome * list Grant) := allocate_rounds (S (Z.to_nat MAX_GRANTS_PER_PASS)) (mkPass [] None false).
End allocate.

(** ** The locked entry points *)
Record DirectionInner := mkInner { session_limit : Z; stopped : bool; state : DirectionState }.
Definition DirectionInner_new (l : TransferRateLimit) (now : Z) : DirectionInner := mkInner (atomic_value l) false (DirectionState_new l now).
Definition set_state (s : DirectionState) (d : DirectionInner) : DirectionInner := mkInner (session_limit d) (stopped d) s.
Definition register (torrent_id : Z) (l : TransferRateLimit) (now : Z) (d : DirectionInner) : DirectionInner * outcome BandwidthError unit :=
  if stopped d then (d, Err Stopped)
  else
    let s := advance_to_now now (state d) in
    if MAX_BANDWIDTH_REGISTRATIONS <=? Z.of_nat (size (torrents s)) then (set_state s d, Err RegistrationLimit)
    else
      let s := set_torrents (<[torrent_id := TorrentDirectionState_new l]> (torrents s)) s in
      (set_state (on_snapshot (set_registered (Z.of_nat (size (torrents s)))) s) d, Ok tt).
Definition unregister (torrent_id : Z) (d : DirectionInner) : DirectionInner :=
  let s := state d in
  let s := match torrents s !! torrent_id with
           | None => s
           | Some torrent => on_snapshot (fun c => fold_left (fun c r => uncount_cancelled r c) (waiters torrent) c) (set_torrents (delete torrent_id (torrents s)) s)
           end in
  let s := set_queue (without torrent_id (ready_queue s)) s in
  set_state (on_snapshot (set_registered (Z.of_nat (size (torrents s)))) s) d.
Definition set_session_limit (l : TransferRateLimit) (now : Z) (d : DirectionInner) : DirectionInner :=
  let s := advance_to_now now (state d) in
  mkInner (atomic_value l) (stopped d) (set_session (set_limit l (session s)) s).
Definition set_torrent_limit (torrent_id : Z) (l : TransferRateLimit) (now : Z) (d : DirectionInner) : DirectionInner :=
  let s := advance_to_now now (state d) in
  set_state (set_torrents (alter (fun t => set_bucket (set_limit l (bucket t)) t) torrent_id (torrents s)) s) d.
Definition inner_stop (d : DirectionInner) : DirectionInner :=
  if stopped d then d else mkInner (session_limit d) true (stop (state d)).
(** What [acquire] gives without waiting: a grant that no bucket pays for, or
    a queued request.  [stopped] and the limits are read before the lock is
    taken, so another call can come between [acquire_check] and
    [acquire_locked]; [acquire] is the case that none does. *)
Inductive Acquired := Direct (bytes : Z) | Queued (id : Z).
Definition clamp_request (requested : Z) : Z := Z.min (Z.max requested 1) MAX_BANDWIDTH_GRANT_BYTES.
(** [inl]: answered without the lock. *)
Definition acquire_check (torrent_limit requested : Z) (d : DirectionInner) : outcome BandwidthError Z + Z :=
  let requested := clamp_request requested in
  if stopped d then inl (Err Stopped)
  else if (session_limit d =? 0) && (torrent_limit =? 0) then inl (Ok requested)
  else inr requested.
Definition acquire_locked (torrent_id requested now : Z) (d : DirectionInner) : DirectionInner * outcome BandwidthError Z :=
  let '(s, r) := queue torrent_id requested now (advance_to_now now (state d)) in (set_state s d, r).
Definition acquire (torrent_id torrent_limit requested now : Z) (d : DirectionInner) : DirectionInner * outcome BandwidthError Acquired :=
  match acquire_check torrent_limit requested d with
  | inl r => (d, bytes ← r; Ok (Direct bytes))
  | inr requested => let '(d, r) := acquire_locked torrent_id requested now d in (d, id ← r; Ok (Queued id))
  end.
Definition cancel_request (torrent_id id : Z) (d : DirectionInner) : DirectionInner := set_state (cancel torrent_id id (state d)).1 d.
Definition complete_grant (torrent_id bytes now : Z) (d : DirectionInner) : DirectionInner :=
  let s := advance_to_now now (state d) in
  let s := set_session (refund bytes (session s)) s in
  let s := match torrents s !! torrent_id with
           | None => s
           | Some torrent =>
             let torrent := set_in_flight false (set_bucket (refund bytes (bucket torrent)) torrent) in
             if negb (bool_decide (waiters torrent = [])) && negb (ready torrent) then
               set_queue (ready_queue s ++ [torrent_id]) (set_torrents (<[torrent_id := set_ready true torrent]> (torrents s)) s)
             else set_torrents (<[torrent_id := torrent]> (torrents s)) s
           end in
  set_state (on_snapshot (add_returned bytes) s) d.
(** One turn of [run]; [None]: the task ends. *)
Definition run_once (debug_assertions : bool) (is_closed send_fails : Z -> bool) (waited_micros : PendingRequest -> Z) (now : Z) (d : DirectionInner)
    : DirectionInner * option (outcome BandwidthError (AllocationOutcome * list Grant)) :=
  let s := advance_to_now now (state d) in
  if stopped d then (set_state s d, None)
  else let '(s, r) := allocate debug_assertions is_closed send_fails waited_micros s in (set_state s d, Some r).
(** [snapshot]: the counters, and the credit left in the session's bucket. *)
Definition inner_snapshot (now : Z) (d : DirectionInner) : DirectionInner * (BandwidthDirectionSnapshot * Z) :=
  let s := advance_to_now now (state d) in
  (set_state s d, (snapshot s, match limit (session s) with None => 0 | Some _ => Z.min (available (session s)) (umax 64) end)).
(** [BandwidthPermit::commit]: what is left of the grant is given back. *)
Definition commit (remaining used : Z) : outcome BandwidthError Z := if used <=? remaining then Ok (remaining - used) else Panic.

(** ** The two directions *)
Record SessionBandwidth := mkSession { upload : DirectionInner; download : DirectionInner; next_torrent_id : Z; closed : bool }.
Record TorrentTransferRateLimits := mkLimits { upload_limit : TransferRateLimit; download_limit : TransferRateLimit }.
Definition SessionBandwidth_start (limits : TorrentTransferRateLimits) (now : Z) : SessionBandwidth :=
  mkSession (DirectionInner_new (upload_limit limits) now) (DirectionInner_new (download_limit limits) now) 1 false.
Definition register_torrent (limits : TorrentTransferRateLimits) (now : Z) (b : SessionBandwidth) : SessionBandwidth * outcome BandwidthError Z :=
  if closed b then (b, Err Stopped)
  else
    let id := next_torrent_id b in
    let next := wrapping_add 64 id 1 in
    if id =? 0 then (mkSession (upload b) (download b) next (closed b), Err RegistrationLimit)
    else
      match register id (upload_limit limits) now (upload b) with
      | (up, Ok _) =>
        match register id (download_limit limits) now (download b) with
        | (down, Ok _) => (mkSession up down next (closed b), Ok id)
        | (down, Err e) => (mkSession (unregister id up) down next (closed b), Err e)
        | (down, _) => (mkSession up down next (closed b), Panic)
        end
      | (up, Err e) => (mkSession up (download b) next (closed b), Err e)
      | (up, _) => (mkSession up (download b) next (closed b), Panic)
      end.
Definition set_session_limits (limits : TorrentTransferRateLimits) (now : Z) (b : SessionBandwidth) : SessionBandwidth :=
  mkSession (set_session_limit (upload_limit limits) now (upload b)) (set_session_limit (download_limit limits) now (download b)) (next_torrent_id b) (closed b).
(** [TorrentBandwidth::set_limits], [drop] of its last handle, and [shutdown]. *)
Definition set_torrent_limits (id : Z) (limits : TorrentTransferRateLimits) (now : Z) (b : SessionBandwidth) : SessionBandwidth :=
  mkSession (set_torrent_limit id (upload_limit limits) now (upload b)) (set_torrent_limit id (download_limit limits) now (download b)) (next_torrent_id b) (closed b).
Definition drop_torrent (id : Z) (b : SessionBandwidth) : SessionBandwidth :=
  mkSession (unregister id (upload b)) (unregister id (download b)) (next_torrent_id b) (closed b).
Definition shutdown (b : SessionBandwidth) : SessionBandwidth :=
  mkSession (inner_stop (upload b)) (inner_stop (download b)) (next_torrent_id b) true.

(** * Lemmas *)

(** ** The bucket *)
Definition limit_ok (l : TransferRateLimit) : Prop := match l with Some rate => MIN_TRANSFER_RATE_BYTES_PER_SECOND <= rate < 2 ^ 32 | None => True end.
Definition bucket_ok (b : TokenBucket) : Prop := limit_ok (limit b) /\ 0 <= credit b <= capacity_credit b.
(** [b] paid for [n] bytes and became [b']. *)
Definition charged (b b' : TokenBucket) (n : Z) : Prop := limit b' = limit b /\ (limit b <> None -> credit b' + CREDIT_SCALE * n = credit b).

Ltac numbers :=
  try change MIN_TRANSFER_RATE_BYTES_PER_SECOND with 1024 in *; try change MAX_BANDWIDTH_BURST_BYTES with 1048576 in *; try change CREDIT_SCALE with 1000000000 in *;
  try change MAX_ACCRUAL_ELAPSED with 1000000000 in *; try change MAX_BANDWIDTH_GRANT_BYTES with 16384 in *.
Lemma umax_large w : 64 <= w -> 2 ^ 63 <= umax w.
Proof. intros ?. unfold umax. pose proof (Z.pow_le_mono_r 2 64 w ltac:(lia) ltac:(lia)) as Hw. change (2 ^ 63) with 9223372036854775808. change (2 ^ 64) with 18446744073709551616 in Hw. lia. Qed.
(** What a bucket can hold does not saturate. *)
Definition CAPACITY_BOUND : Z := 1048576000000000.
Lemma capacity_bounds b : limit_ok (limit b) -> 0 <= capacity_credit b <= CAPACITY_BOUND.
Proof.
  unfold capacity_credit, CAPACITY_BOUND. destruct (limit b) as [rate|]; cbn [limit_ok]; [|lia]. intros [? _]. numbers. lia.
Qed.
Lemma capacity_fits w b : 64 <= w -> limit_ok (limit b) -> capacity_credit b <= umax w.
Proof. intros Hw Hl. pose proof (capacity_bounds b Hl). pose proof (umax_large w Hw). unfold CAPACITY_BOUND in *. change (2 ^ 63) with 9223372036854775808 in *. lia. Qed.
Lemma capacity_of b b' : limit b = limit b' -> capacity_credit b = capacity_credit b'.
Proof. unfold capacity_credit. by intros ->. Qed.
Lemma capacity_mk l c b : limit b = l -> capacity_credit (mkBucket l c) = capacity_credit b.
Proof. intros <-. done. Qed.
(** Adding credit up to the capacity, without the saturations. *)
Definition top_up (n : Z) (b : TokenBucket) : TokenBucket := mkBucket (limit b) (Z.min (credit b + n) (capacity_credit b)).
Lemma bucket_advance_eq elapsed b rate : 0 <= elapsed -> bucket_ok b -> limit b = Some rate -> bucket_advance elapsed b = top_up (rate * Z.min elapsed MAX_ACCRUAL_ELAPSED) b.
Proof.
  intros He [Hl Hc] Hr. unfold bucket_advance, top_up, saturating_add, saturating_mul. rewrite Hr. f_equal. pose proof (capacity_fits 128 b ltac:(lia) Hl).
  generalize dependent (umax 128). lia.
Qed.
Lemma refund_eq bytes b rate : 0 <= bytes -> bucket_ok b -> limit b = Some rate -> refund bytes b = top_up (CREDIT_SCALE * bytes) b.
Proof.
  intros He [Hl Hc] Hr. unfold refund, top_up, saturating_add, saturating_mul. rewrite Hr. f_equal. pose proof (capacity_fits 128 b ltac:(lia) Hl).
  generalize dependent (umax 128). rewrite (Z.mul_comm bytes). lia.
Qed.
Lemma top_up_ok n b : 0 <= n -> bucket_ok b -> bucket_ok (top_up n b).
Proof.
  intros Hn [Hl Hc]. split; [done|]. unfold top_up. rewrite (capacity_mk _ _ b) by done. cbn [credit]. lia.
Qed.
Lemma top_up_credit n b : credit (top_up n b) <= credit b + n.
Proof. unfold top_up. cbn [credit]. lia. Qed.

Lemma bucket_new_ok l : limit_ok l -> bucket_ok (TokenBucket_new l).
Proof. intros Hl. split; [done|]. pose proof (capacity_bounds (TokenBucket_new l) Hl). cbn [TokenBucket_new credit]. lia. Qed.
Lemma set_limit_ok l b : limit_ok l -> bucket_ok b -> bucket_ok (set_limit l b).
Proof.
  intros Hl [_ Hc]. split; [done|]. rewrite (capacity_of _ (mkBucket l (credit b))) by done. unfold set_limit. cbn [credit].
  pose proof (capacity_bounds (mkBucket l (credit b)) Hl). lia.
Qed.
Lemma bucket_advance_limit elapsed b : limit (bucket_advance elapsed b) = limit b.
Proof. unfold bucket_advance. by destruct b as [[rate|] c]. Qed.
Lemma refund_limit bytes b : limit (refund bytes b) = limit b.
Proof. unfold refund. by destruct b as [[rate|] c]. Qed.
Lemma bucket_advance_ok elapsed b : 0 <= elapsed -> bucket_ok b -> bucket_ok (bucket_advance elapsed b).
Proof.
  intros He Hb. destruct (limit b) as [rate|] eqn:Hr.
  - rewrite (bucket_advance_eq _ _ rate) by done. apply top_up_ok; [|done]. destruct Hb as [Hl _]. rewrite Hr in Hl. destruct Hl as [? _]. numbers. nia.
  - unfold bucket_advance. rewrite Hr. split; [done|]. cbn. lia.
Qed.
Lemma refund_ok bytes b : 0 <= bytes -> bucket_ok b -> bucket_ok (refund bytes b).
Proof.
  intros He Hb. destruct (limit b) as [rate|] eqn:Hr.
  - rewrite (refund_eq _ _ rate) by done. apply top_up_ok; [|done]. numbers. lia.
  - unfold refund. by rewrite Hr.
Qed.
(** No more than the rate allows is earned. *)
Lemma bucket_advance_credit elapsed b rate : 0 <= elapsed -> bucket_ok b -> limit b = Some rate -> credit (bucket_advance elapsed b) <= credit b + rate * elapsed.
Proof.
  intros He Hb Hr. rewrite (bucket_advance_eq _ _ rate) by done. pose proof (top_up_credit (rate * Z.min elapsed MAX_ACCRUAL_ELAPSED) b).
  destruct Hb as [Hl _]. rewrite Hr in Hl. destruct Hl as [? _]. assert (rate * Z.min elapsed MAX_ACCRUAL_ELAPSED <= rate * elapsed) by (numbers; nia). lia.
Qed.
Lemma refund_credit bytes b rate : 0 <= bytes -> bucket_ok b -> limit b = Some rate -> credit (refund bytes b) <= credit b + CREDIT_SCALE * bytes.
Proof. intros He Hb Hr. rewrite (refund_eq _ _ rate) by done. apply top_up_credit. Qed.
(** A whole byte of credit is a byte available. *)
Lemma available_spec b : bucket_ok b -> match limit b with Some _ => CREDIT_SCALE * available b <= credit b < CREDIT_SCALE * (available b + 1) | None => MAX_BANDWIDTH_GRANT_BYTES <= available b end.
Proof.
  intros [Hl Hc]. pose proof (capacity_bounds b Hl) as Hcap. pose proof (umax_large USIZE ltac:(done)) as Hu. change (2 ^ 63) with 9223372036854775808 in Hu.
  unfold available. destruct (limit b) as [rate|]; [|numbers; lia]. unfold CAPACITY_BOUND in Hcap. numbers. rewrite Z.min_l by divlia. divlia.
Qed.
Lemma available_nonneg b : bucket_ok b -> 0 <= available b.
Proof. intros Hb. pose proof (available_spec b Hb) as H. destruct Hb as [_ Hc]. destruct (limit b); numbers; lia. Qed.
(** What is available can be paid, in debug builds as in release builds. *)
Lemma consume_spec {E} debug bytes b : bucket_ok b -> 0 <= bytes <= available b -> bytes <= MAX_BANDWIDTH_GRANT_BYTES ->
  exists b', consume (E := E) debug bytes b = Ok b' /\ bucket_ok b' /\ charged b b' bytes.
Proof.
  intros Hb Hav Hmax. pose proof (available_spec b Hb) as Hs. pose proof (umax_large 128 ltac:(done)) as Hu. change (2 ^ 63) with 9223372036854775808 in Hu.
  unfold consume, charged. destruct (limit b) as [rate|] eqn:Hr; [|exists b; rewrite Hr; done].
  unfold saturating_mul, saturating_sub, debug_assert. rewrite (Z.min_l (bytes * CREDIT_SCALE)) by (numbers; lia).
  replace (bytes * CREDIT_SCALE <=? credit b) with true by (symmetry; numbers; lia). rewrite andb_false_r, ok_bind. eexists. split; [done|].
  destruct Hb as [Hl Hc]. split; [split|split]; cbn [limit credit]; [by rewrite <- Hr| |done|numbers; lia].
  rewrite (capacity_mk _ _ b) by done. numbers. lia.
Qed.
(** Giving a payment back restores the bucket. *)
Lemma refund_charged b b' bytes : bucket_ok b -> bucket_ok b' -> 0 <= bytes -> charged b b' bytes -> charged b (refund bytes b') 0.
Proof.
  intros Hb Hb' Hbytes [Hl Hc]. split; [by rewrite refund_limit|]. intros Hne. specialize (Hc Hne). destruct (limit b) as [rate|] eqn:Hr; [|done].
  rewrite (refund_eq _ _ rate) by congruence. unfold top_up. cbn [credit]. rewrite (capacity_of b' b) by congruence. destruct Hb as [_ Hb]. lia.
Qed.
Lemma charged_refl b : charged b b 0.
Proof. split; [done|]. lia. Qed.
Lemma charged_trans b1 b2 b3 n m : charged b1 b2 n -> charged b2 b3 m -> charged b1 b3 (n + m).
Proof. intros [L1 C1] [L2 C2]. split; [congruence|]. intros Hl. rewrite L1 in C2. specialize (C1 Hl). specialize (C2 Hl). lia. Qed.
(** Without credit the wait is positive, and at the smallest rate a byte is
    earned within a millisecond. *)
Definition MAX_WAIT : Z := 1000000.
Lemma time_until_byte_bounds b : bucket_ok b -> 0 <= time_until_byte b <= MAX_WAIT.
Proof.
  intros [Hl Hc]. pose proof (umax_large 64 ltac:(done)) as Hu. change (2 ^ 63) with 9223372036854775808 in Hu. unfold time_until_byte, MAX_WAIT.
  destruct (limit b) as [rate|]; [|lia]. destruct (CREDIT_SCALE <=? credit b) eqn:E; [lia|]. destruct Hl as [Hl _].
  pose proof (div_ceil_spec (CREDIT_SCALE - credit b) rate) as Hd. numbers. specialize (Hd ltac:(lia)). nia.
Qed.
Lemma time_until_byte_pos b : bucket_ok b -> available b = 0 -> 1 <= time_until_byte b.
Proof.
  intros Hb Hav. pose proof (available_spec b Hb) as Hs. rewrite Hav in Hs. pose proof (umax_large 64 ltac:(done)) as Hu. change (2 ^ 63) with 9223372036854775808 in Hu.
  unfold time_until_byte. destruct (limit b) as [rate|]; [|numbers; lia]. replace (CREDIT_SCALE <=? credit b) with false by (symmetry; lia). lia.
Qed.
Lemma advance_available elapsed b : MAX_WAIT <= elapsed -> bucket_ok b -> 1 <= available (bucket_advance elapsed b).
Proof.
  unfold MAX_WAIT. intros He Hb. pose proof (bucket_advance_ok elapsed b ltac:(lia) Hb) as Hb'. pose proof (available_spec _ Hb') as Hs.
  rewrite bucket_advance_limit in Hs. destruct (limit b) as [rate|] eqn:Hr; [|numbers; lia].
  rewrite (bucket_advance_eq _ _ rate) in Hs |- * by (done || lia). change (credit (top_up (rate * Z.min elapsed MAX_ACCRUAL_ELAPSED) b)) with (Z.min (credit b + rate * Z.min elapsed MAX_ACCRUAL_ELAPSED) (capacity_credit b)) in Hs. destruct Hb as [Hl Hc].
  unfold capacity_credit in Hs, Hc. rewrite Hr in Hs, Hc, Hl. destruct Hl as [Hl _]. numbers.
  assert (1000000000 <= rate * Z.min elapsed 1000000000) by nia. lia.
Qed.

(** ** Queues and flags *)
Record torrent_ok (t : TorrentDirectionState) : Prop := {
  to_bucket : bucket_ok (bucket t);
  to_ready : ready t = true -> waiters t <> [];
  to_waiting : waiters t <> [] -> ready t = true \/ grant_in_flight t = true;
  to_sizes : Forall (fun r => 1 <= wanted_bytes r <= MAX_BANDWIDTH_GRANT_BYTES) (waiters t);
}.
Definition is_ready (id : Z) (s : DirectionState) : bool := match torrents s !! id with Some t => ready t | None => false end.
(** The queue names the ready torrents, each once. *)
Record links (s : DirectionState) : Prop := {
  lk_nodup : NoDup (ready_queue s);
  lk_queue : forall id, id ∈ ready_queue s <-> is_ready id s = true;
  lk_torrent : forall id t, torrents s !! id = Some t -> torrent_ok t;
}.
Lemma links_ext s s' : torrents s' = torrents s -> ready_queue s' = ready_queue s -> links s -> links s'.
Proof. intros Et Eq [H1 H2 H3]. split; rewrite ?Eq, ?Et; [done| |done]. intros id. unfold is_ready. rewrite Et. apply H2. Qed.
(** A torrent is stored, and the queue changes for it alone. *)
Lemma links_put id t s s' : links s -> torrent_ok t -> torrents s' = <[id := t]> (torrents s) -> NoDup (ready_queue s') ->
  (id ∈ ready_queue s' <-> ready t = true) -> (forall other, other <> id -> (other ∈ ready_queue s' <-> other ∈ ready_queue s)) -> links s'.
Proof.
  intros Hl Ht Et Hnd Hid Hother. split; [done| |].
  - intros k. unfold is_ready. rewrite Et. destruct (decide (k = id)) as [->|Hne]; [by rewrite lookup_insert_eq|].
    rewrite lookup_insert_ne by done. rewrite Hother by done. apply (lk_queue s Hl).
  - rewrite Et. intros k u [[<- <-]|[Hne E]]%lookup_insert_Some; [done|]. by eapply lk_torrent.
Qed.
Lemma links_same id t s s' : links s -> torrent_ok t -> ready t = is_ready id s -> torrents s' = <[id := t]> (torrents s) -> ready_queue s' = ready_queue s -> links s'.
Proof.
  intros Hl Ht Hr Et Eq. eapply links_put; try done; rewrite Eq; [by apply lk_nodup| |done]. rewrite Hr. apply (lk_queue s Hl).
Qed.
Lemma links_push id t s s' : links s -> torrent_ok t -> is_ready id s = false -> ready t = true -> torrents s' = <[id := t]> (torrents s) ->
  ready_queue s' = ready_queue s ++ [id] -> links s'.
Proof.
  intros Hl Ht Hr Hready Et Eq. assert (id ∉ ready_queue s) as Hid by (rewrite (lk_queue s Hl), Hr; done). eapply links_put; try done; rewrite Eq.
  - apply NoDup_app. split; [by apply lk_nodup|]. split; [|apply NoDup_singleton]. intros k Hk ->%list_elem_of_singleton. done.
  - rewrite elem_of_app, list_elem_of_singleton. rewrite Hready. tauto.
  - intros other Hne. rewrite elem_of_app, list_elem_of_singleton. tauto.
Qed.
Lemma elem_of_without other id q : other ∈ without id q <-> other <> id /\ other ∈ q.
Proof. unfold without. by rewrite list_elem_of_filter. Qed.
Lemma links_pull id t s s' : links s -> torrent_ok t -> ready t = false -> torrents s' = <[id := t]> (torrents s) -> ready_queue s' = without id (ready_queue s) -> links s'.
Proof.
  intros Hl Ht Hr Et Eq. eapply links_put; try done; rewrite Eq.
  - apply NoDup_filter. by apply lk_nodup.
  - rewrite elem_of_without, Hr. naive_solver.
  - intros other Hne. rewrite elem_of_without. naive_solver.
Qed.
Lemma links_drop id s s' : links s -> torrents s' = delete id (torrents s) -> ready_queue s' = without id (ready_queue s) -> links s'.
Proof.
  intros Hl Et Eq. split; rewrite ?Eq.
  - apply NoDup_filter. by apply lk_nodup.
  - intros k. rewrite elem_of_without. unfold is_ready. rewrite Et. destruct (decide (k = id)) as [->|Hne]; [rewrite lookup_delete_eq; naive_solver|].
    rewrite lookup_delete_ne by done. rewrite (lk_queue s Hl). unfold is_ready. naive_solver.
  - rewrite Et. intros k u [Hne E]%lookup_delete_Some. by eapply lk_torrent.
Qed.
Lemma without_head id q : NoDup (id :: q) -> without id (id :: q) = q.
Proof.
  intros [Hid Hnd]%NoDup_cons. unfold without. rewrite filter_cons_False by naive_solver. revert Hid. clear Hnd. induction q as [|k q IH]; [done|].
  intros [Hne Hid]%not_elem_of_cons. rewrite filter_cons_True by congruence. f_equal. by apply IH.
Qed.

(** ** The counters *)
Definition sum_on {A} (f : A -> Z) (l : list A) : Z := foldr (fun a n => f a + n) 0 l.
Lemma sum_on_app {A} (f : A -> Z) l k : sum_on f (l ++ k) = sum_on f l + sum_on f k.
Proof. induction l as [|a l IH]; [done|]. unfold sum_on in *. cbn. rewrite IH. lia. Qed.
Lemma sum_on_bounds {A} (f : A -> Z) l hi : Forall (fun a => 0 <= f a <= hi) l -> 0 <= sum_on f l <= hi * len l.
Proof. induction 1 as [|a l Ha Hl IH]; [rewrite (len_nil (A := A)), Z.mul_0_r; cbn; lia|]. rewrite len_cons. unfold sum_on in *. cbn in Ha |- *. lia. Qed.
Definition queued_of (w : list PendingRequest) : Z := sum_on wanted_bytes w.
Definition waiting (s : DirectionState) : Z := sum_over (fun t => len (waiters t)) (torrents s).
Definition queued (s : DirectionState) : Z := sum_over (fun t => queued_of (waiters t)) (torrents s).
(** The counters count the requests in the state and [w] besides. *)
Record counts (w : list PendingRequest) (s : DirectionState) : Prop := {
  ct_waiting : waiting_requests (snapshot s) = waiting s + len w;
  ct_queued : queued_bytes (snapshot s) = queued s + queued_of w;
  ct_bound : waiting s + len w <= MAX_BANDWIDTH_WAITERS;
}.
Lemma queued_of_bounds w : Forall (fun r => 1 <= wanted_bytes r <= MAX_BANDWIDTH_GRANT_BYTES) w -> 0 <= queued_of w <= MAX_BANDWIDTH_GRANT_BYTES * len w.
Proof. intros Hw. apply sum_on_bounds. eapply Forall_impl; [exact Hw|]. cbn. lia. Qed.
Lemma queued_bounds s : (forall id t, torrents s !! id = Some t -> torrent_ok t) -> 0 <= queued s <= MAX_BANDWIDTH_GRANT_BYTES * waiting s.
Proof.
  unfold queued, waiting. generalize (torrents s) as m. clear s. intros m. induction m as [|k t m Hk IH] using map_ind; [rewrite !sum_over_empty; lia|]. intros Hok.
  rewrite !sum_over_insert by done. pose proof (queued_of_bounds _ (to_sizes _ (Hok k t (lookup_insert_eq _ _ _)))).
  assert (0 <= sum_over (fun t => queued_of (waiters t)) m <= MAX_BANDWIDTH_GRANT_BYTES * sum_over (fun t => len (waiters t)) m); [|lia].
  apply IH. intros k' t' E. apply (Hok k'). rewrite lookup_insert_ne by congruence. done.
Qed.
Lemma waiting_nonneg s : 0 <= waiting s.
Proof. apply sum_over_nonneg. intros k t _. apply len_nonneg. Qed.
Lemma counts_ext w s s' : torrents s' = torrents s -> waiting_requests (snapshot s') = waiting_requests (snapshot s) -> queued_bytes (snapshot s') = queued_bytes (snapshot s) ->
  counts w s -> counts w s'.
Proof. intros Et Ew Eq [H1 H2 H3]. unfold waiting, queued in *. split; unfold waiting, queued; rewrite ?Et, ?Ew, ?Eq; done. Qed.
(** A torrent leaves the map with its requests, or comes back with them. *)
Lemma counts_take id t s s' : torrents s !! id = Some t -> counts [] s -> torrents s' = delete id (torrents s) -> snapshot s' = snapshot s -> counts (waiters t) s'.
Proof.
  intros Ht [H1 H2 H3] Et Es. unfold waiting, queued in *. split; unfold waiting, queued; rewrite ?Es, ?Et, !(sum_over_delete _ _ _ t) by done; cbv beta; change (queued_of []) with 0 in *; rewrite ?(len_nil (A := PendingRequest)) in *; lia.
Qed.
Lemma counts_put id t s s' : torrents s !! id = None -> counts (waiters t) s -> torrents s' = <[id := t]> (torrents s) -> snapshot s' = snapshot s -> counts [] s'.
Proof.
  intros Ht [H1 H2 H3] Et Es. unfold waiting, queued in *. split; unfold waiting, queued; rewrite ?Es, ?Et, !sum_over_insert by done; cbv beta; change (queued_of []) with 0 in *; rewrite ?(len_nil (A := PendingRequest)) in *; lia.
Qed.
Lemma uncount_waiting r w c : waiting_requests c = w + 1 -> 0 <= w -> waiting_requests (uncount r c) = w.
Proof. intros E Hw. unfold uncount, saturating_sub. cbn. lia. Qed.
Lemma counts_uncount r w c s : snapshot s = c -> Forall (fun r => 1 <= wanted_bytes r <= MAX_BANDWIDTH_GRANT_BYTES) w ->
  (forall id t, torrents s !! id = Some t -> torrent_ok t) -> counts (r :: w) s -> counts w (set_snapshot (uncount r c) s).
Proof.
  intros <- Hw Hok [H1 H2 H3]. pose proof (waiting_nonneg s). pose proof (queued_bounds s Hok). pose proof (queued_of_bounds w Hw). pose proof (len_nonneg w).
  rewrite len_cons in *. unfold queued_of in H2. cbn [sum_on foldr] in H2. fold (queued_of w) in H2.
  split; unfold uncount, saturating_sub; cbn; unfold waiting, queued, queued_of, sum_on in *; cbn [torrents set_snapshot]; lia.
Qed.

(** ** The invariant, and what a pass of the allocator keeps *)
Record wf (s : DirectionState) : Prop := {
  wf_links : links s;
  wf_session : bucket_ok (session s);
  wf_counts : counts [] s;
  wf_registered : Z.of_nat (size (torrents s)) <= MAX_BANDWIDTH_REGISTRATIONS;
}.
(** No ready torrent has a grant out: what the allocator asserts. *)
Definition grants_returned (s : DirectionState) : Prop := forall id t, torrents s !! id = Some t -> ready t = true -> grant_in_flight t = false.
Definition spent_by (id : Z) (gs : list Grant) : Z := sum_on g_bytes (filter (fun g => g_torrent g = id) gs).
Definition spent (gs : list Grant) : Z := sum_on g_bytes gs.
(** The grant answers a request that waited in [s]. *)
Definition answers (s : DirectionState) (g : Grant) : Prop :=
  exists t r, torrents s !! g_torrent g = Some t /\ r ∈ waiters t /\ request_id r = g_request g /\ 1 <= g_bytes g <= wanted_bytes r.
Lemma spent_by_snoc id gs g : spent_by id (gs ++ [g]) = spent_by id gs + (if decide (g_torrent g = id) then g_bytes g else 0).
Proof.
  unfold spent_by. rewrite filter_app, sum_on_app, filter_cons, filter_nil. destruct (decide (g_torrent g = id)); cbn; lia.
Qed.
Lemma spent_snoc gs g : spent (gs ++ [g]) = spent gs + g_bytes g.
Proof. unfold spent. rewrite sum_on_app. cbn. lia. Qed.

Section pass.
Context (debug : bool) (is_closed send_fails : Z -> bool) (waited_micros : PendingRequest -> Z).

Record pass_ok (s0 : DirectionState) (p : Pass) (s : DirectionState) : Prop := {
  po_wf : wf s;
  po_returned : debug = true -> grants_returned s;
  po_session : charged (session s0) (session s) (spent (sent p));
  po_torrents : forall id t, torrents s !! id = Some t -> exists t0, torrents s0 !! id = Some t0 /\
    charged (bucket t0) (bucket t) (spent_by id (sent p)) /\ (forall r, r ∈ waiters t -> r ∈ waiters t0);
  po_kept : forall id, is_Some (torrents s0 !! id) -> is_Some (torrents s !! id);
  po_answers : Forall (answers s0) (sent p);
  po_once : NoDup (g_torrent <$> sent p);
  po_served : forall g, g ∈ sent p -> is_ready (g_torrent g) s = false;
  po_wait : forall d, shortest_wait p = Some d -> 1 <= d <= MAX_WAIT;
  po_from : forall g, g ∈ sent p -> g_torrent g ∈ ready_queue s0;
  po_queue : forall id, id ∈ ready_queue s -> id ∈ ready_queue s0;
  po_clock : last_advanced s = last_advanced s0;
}.
Lemma pass_start s : wf s -> (debug = true -> grants_returned s) -> pass_ok s (mkPass [] None false) s.
Proof.
  intros Hwf Hr. split; try done; cbn.
  - apply charged_refl.
  - intros id t Ht. exists t. split; [done|]. split; [apply charged_refl|done].
  - apply NoDup_nil_2.
  - intros g Hg. by apply elem_of_nil in Hg.
  - intros g Hg. by apply elem_of_nil in Hg.
Qed.

(** The torrent at the head of the queue is put back as [t'], with or without
    a grant. *)
Record put_back (s : DirectionState) (id : Z) (t t' : TorrentDirectionState) (q : list Z) (s' : DirectionState) : Prop := {
  pb_torrents : torrents s' = <[id := t']> (delete id (torrents s));
  pb_queue : ready_queue s' = if ready t' then q ++ [id] else q;
  pb_ok : torrent_ok t';
  pb_waiters : forall r, r ∈ waiters t' -> r ∈ waiters t;
  pb_returned : ready t' = true -> debug = true -> grant_in_flight t' = false;
  pb_session : bucket_ok (session s');
  pb_counts : counts [] s';
  pb_clock : last_advanced s' = last_advanced s;
}.
Lemma put_back_wf s id t t' q s' : wf s -> torrents s !! id = Some t -> ready_queue s = id :: q -> put_back s id t t' q s' -> wf s'.
Proof.
  intros [Hl Hs Hc Hsz] Ht Hq Hp. split; [|by apply pb_session in Hp|by apply pb_counts in Hp|].
  2:{ rewrite (pb_torrents _ _ _ _ _ _ Hp), insert_delete_eq, map_size_insert_Some by (by rewrite Ht). done. }
  set (s1 := set_queue q (set_torrents (delete id (torrents s)) s)).
  assert (links s1) as Hl1.
  { apply (links_drop id s); [done|done|]. cbn. rewrite Hq. symmetry. apply without_head. rewrite <- Hq. by apply lk_nodup. }
  assert (is_ready id s1 = false) as Hr1 by (unfold is_ready, s1; cbn; by rewrite lookup_delete_eq).
  destruct (ready t') eqn:Hready.
  - eapply (links_push id t' s1); [done|by eapply pb_ok|done|done|by rewrite (pb_torrents _ _ _ _ _ _ Hp)|]. rewrite (pb_queue _ _ _ _ _ _ Hp), Hready. done.
  - eapply (links_same id t' s1); [done|by eapply pb_ok|congruence|by rewrite (pb_torrents _ _ _ _ _ _ Hp)|]. rewrite (pb_queue _ _ _ _ _ _ Hp), Hready. done.
Qed.
Lemma put_back_lookup s id t t' q s' k u : put_back s id t t' q s' -> torrents s' !! k = Some u -> (k = id /\ u = t') \/ (k <> id /\ torrents s !! k = Some u).
Proof.
  intros Hp. rewrite (pb_torrents _ _ _ _ _ _ Hp), insert_delete_eq. intros [[<- <-]|[Hne E]]%lookup_insert_Some; [by left|]. right. done.
Qed.
Lemma put_back_kept s id t t' q s' k : put_back s id t t' q s' -> is_Some (torrents s !! k) -> is_Some (torrents s' !! k).
Proof.
  intros Hp Hk. rewrite (pb_torrents _ _ _ _ _ _ Hp), insert_delete_eq. destruct (decide (k = id)) as [->|Hne]; [by rewrite lookup_insert_eq|].
  by rewrite lookup_insert_ne.
Qed.
Lemma put_back_returned s id t t' q s' : (debug = true -> grants_returned s) -> put_back s id t t' q s' -> debug = true -> grants_returned s'.
Proof.
  intros Hr Hp Hd k u Hk Hu. destruct (put_back_lookup _ _ _ _ _ _ _ _ Hp Hk) as [[-> ->]|[Hne E]]; [by apply (pb_returned _ _ _ _ _ _ Hp)|].
  by eapply Hr.
Qed.
Lemma put_back_member (b : bool) (k id : Z) q : k ∈ (if b then q ++ [id] else q) -> k ∈ id :: q.
Proof. rewrite elem_of_cons. destruct b; [|by right]. intros [Hk| ->%list_elem_of_singleton]%elem_of_app; [by right|by left]. Qed.
Lemma put_back_ready s id t t' q s' k : torrents s !! id = Some t -> ready t = true -> put_back s id t t' q s' -> is_ready k s = false -> is_ready k s' = false.
Proof.
  intros Ht Hready Hp. unfold is_ready. rewrite (pb_torrents _ _ _ _ _ _ Hp), insert_delete_eq.
  destruct (decide (k = id)) as [->|Hne]; [rewrite Ht; congruence|]. by rewrite lookup_insert_ne.
Qed.
(** Nothing was granted. *)
Lemma pass_requeue s0 p p' s id t t' q s' : pass_ok s0 p s -> torrents s !! id = Some t -> ready_queue s = id :: q -> put_back s id t t' q s' ->
  charged (session s) (session s') 0 -> charged (bucket t) (bucket t') 0 -> sent p' = sent p -> (forall d, shortest_wait p' = Some d -> 1 <= d <= MAX_WAIT) -> pass_ok s0 p' s'.
Proof.
  intros Hpass Ht Hq Hp Hs Hb Esent Hw. destruct Hpass as [Hwf Hr Hses Htor Hkept Hans Honce Hserved _ Hfrom Hqueue Hclock].
  assert (ready t = true) as Hready.
  { assert (id ∈ ready_queue s) as Hin by (rewrite Hq; apply list_elem_of_here). apply (lk_queue s (wf_links s Hwf)) in Hin. unfold is_ready in Hin. by rewrite Ht in Hin. }
  split; rewrite ?Esent; try done.
  - by eapply (put_back_wf s id t).
  - by eapply put_back_returned.
  - pose proof (charged_trans _ _ _ _ _ Hses Hs) as H. by rewrite Z.add_0_r in H.
  - intros k u Hk. destruct (put_back_lookup _ _ _ _ _ _ _ _ Hp Hk) as [[-> ->]|[Hne E]]; [|by apply Htor].
    destruct (Htor id t Ht) as (t0 & Ht0 & Hc & Hsub). exists t0. split; [done|]. split.
    + pose proof (charged_trans _ _ _ _ _ Hc Hb) as H. by rewrite Z.add_0_r in H.
    + intros r Hin. by apply Hsub, (pb_waiters _ _ _ _ _ _ Hp).
  - intros k Hk. by eapply put_back_kept, Hkept.
  - intros g Hg. eapply put_back_ready; [done|done|done|]. by apply Hserved.
  - intros k Hk. apply Hqueue. rewrite (pb_queue _ _ _ _ _ _ Hp) in Hk. rewrite Hq. by eapply put_back_member.
  - rewrite (pb_clock _ _ _ _ _ _ Hp). done.
Qed.
(** A grant was sent. *)
Lemma pass_grant s0 p s id t t' q s' r bytes : pass_ok s0 p s -> torrents s !! id = Some t -> ready_queue s = id :: q -> put_back s id t t' q s' ->
  charged (session s) (session s') bytes -> charged (bucket t) (bucket t') bytes -> r ∈ waiters t -> 1 <= bytes <= wanted_bytes r -> ready t' = false ->
  pass_ok s0 (note_grant (mkGrant id (request_id r) bytes) p) s'.
Proof.
  intros Hpass Ht Hq Hp Hs Hb Hr Hbytes Hidle. destruct Hpass as [Hwf Hret Hses Htor Hkept Hans Honce Hserved Hw Hfrom Hqueue Hclock].
  assert (ready t = true) as Hready.
  { assert (id ∈ ready_queue s) as Hin by (rewrite Hq; apply list_elem_of_here). apply (lk_queue s (wf_links s Hwf)) in Hin. unfold is_ready in Hin. by rewrite Ht in Hin. }
  set (g := mkGrant id (request_id r) bytes). destruct (Htor id t Ht) as (t0 & Ht0 & Hc & Hsub). split; cbn [sent note_grant shortest_wait]; try done.
  - by eapply (put_back_wf s id t).
  - by eapply put_back_returned.
  - rewrite spent_snoc. by eapply charged_trans.
  - intros k u Hk. rewrite spent_by_snoc. destruct (put_back_lookup _ _ _ _ _ _ _ _ Hp Hk) as [[-> ->]|[Hne E]].
    + exists t0. split; [done|]. rewrite decide_True by done. split; [by eapply charged_trans|]. intros x Hin. by apply Hsub, (pb_waiters _ _ _ _ _ _ Hp).
    + rewrite decide_False, Z.add_0_r by (cbn; congruence). by apply Htor.
  - intros k Hk. eapply (put_back_kept s); [exact Hp|]. by apply Hkept.
  - apply Forall_app. split; [done|]. apply Forall_singleton. exists t0, r. cbn. split; [done|]. split; [by apply Hsub|]. done.
  - rewrite fmap_app. apply NoDup_app. split; [done|]. split; [|apply NoDup_singleton]. intros k Hk ->%list_elem_of_singleton.
    apply list_elem_of_fmap in Hk as (g' & E & Hg'). cbn in E. apply Hserved in Hg'. rewrite <- E in Hg'. unfold is_ready in Hg'. rewrite Ht in Hg'. congruence.
  - intros g' [Hg'| ->%list_elem_of_singleton]%elem_of_app.
    + eapply (put_back_ready s); [exact Ht|done|exact Hp|]. by apply Hserved.
    + unfold is_ready, g. cbn. rewrite (pb_torrents _ _ _ _ _ _ Hp), lookup_insert_eq. done.
  - intros g' [Hg'| ->%list_elem_of_singleton]%elem_of_app; [by apply Hfrom|]. apply Hqueue. rewrite Hq. apply list_elem_of_here.
  - intros k Hk. apply Hqueue. rewrite (pb_queue _ _ _ _ _ _ Hp) in Hk. rewrite Hq. by eapply put_back_member.
  - rewrite (pb_clock _ _ _ _ _ _ Hp). done.
Qed.
End pass.

Lemma suffix_sizes (P : PendingRequest -> Prop) l k : l `suffix_of` k -> Forall P k -> Forall P l.
Proof. intros [x ->] H. by apply Forall_app in H as [_ H]. Qed.

Section allocator.
Context (debug : bool) (is_closed send_fails : Z -> bool) (waited_micros : PendingRequest -> Z).

(** Dropping the closed requests keeps the count of those that are left. *)
Lemma drop_closed_spec w : forall c s, snapshot s = c -> Forall (fun r => 1 <= wanted_bytes r <= MAX_BANDWIDTH_GRANT_BYTES) w ->
  (forall id t, torrents s !! id = Some t -> torrent_ok t) -> counts w s ->
  counts (drop_closed is_closed w c).1 (set_snapshot (drop_closed is_closed w c).2 s) /\ (drop_closed is_closed w c).1 `suffix_of` w.
Proof.
  induction w as [|r w IH]; intros c s Es Hw Hok Hc; cbn [drop_closed].
  - split; [|done]. cbn [fst snd]. subst c. by destruct s.
  - destruct (is_closed (request_id r)); [|split; [cbn [fst snd]; subst c; by destruct s|done]].
    apply Forall_cons in Hw as [Hr Hw].
    assert (counts w (set_snapshot (uncount_cancelled r c) s)) as Hc'.
    { eapply (counts_ext _ (set_snapshot (uncount r c) s)); [done|done|done|]. by apply counts_uncount. }
    specialize (IH (uncount_cancelled r c) (set_snapshot (uncount_cancelled r c) s) eq_refl Hw Hok Hc') as [H1 H2].
    split; [exact H1|]. by apply suffix_cons_r.
Qed.
(** What follows the step of a pass. *)
Record advanced (p p' : Pass) (s s' : DirectionState) : Prop := {
  ad_sent : (sent p' = sent p /\ progress p' = progress p) \/ (exists g, sent p' = sent p ++ [g] /\ progress p' = true);
  ad_queue : exists id q, ready_queue s = id :: q /\ (ready_queue s' = q \/ ready_queue s' = q ++ [id]);
}.
Lemma put_back_intro s id t w t' q c s' : wf s -> torrents s !! id = Some t -> snapshot s' = c ->
  torrents s' = <[id := t']> (delete id (torrents s)) -> ready_queue s' = (if ready t' then q ++ [id] else q) -> torrent_ok t' -> waiters t' = w -> w `suffix_of` waiters t ->
  (ready t' = true -> debug = true -> grant_in_flight t' = false) -> bucket_ok (session s') ->
  counts w (set_snapshot c (set_torrents (delete id (torrents s)) s)) -> last_advanced s' = last_advanced s -> put_back debug s id t t' q s'.
Proof.
  intros Hwf Ht Es Et Eq Hok Ew [k Hsuf] Hr Hses Hc Hcl. split; try done.
  - intros r Hin. rewrite Hsuf. apply elem_of_app. right. by rewrite <- Ew.
  - subst w. eapply (counts_put id t' (set_snapshot c (set_torrents (delete id (torrents s)) s))); [by apply lookup_delete_eq|done|by rewrite Et|done].
Qed.
Lemma debug_assert_ok {E} b : (debug = true -> b = true) -> debug_assert (E := E) debug b = Ok tt.
Proof. unfold debug_assert. destruct debug; [|done]. intros ->; done. Qed.
Lemma note_wait_bounds d p : 1 <= d <= MAX_WAIT -> (forall x, shortest_wait p = Some x -> 1 <= x <= MAX_WAIT) -> forall x, shortest_wait (note_wait d p) = Some x -> 1 <= x <= MAX_WAIT.
Proof. intros Hd Hp x. cbn. destruct (shortest_wait p) as [y|]; intros [= <-]; [|done]. specialize (Hp y eq_refl). lia. Qed.
Lemma serve_request_ok s0 p s s1 id t q request rest c : pass_ok debug s0 p s -> torrents s !! id = Some t -> ready_queue s = id :: q ->
  s1 = set_snapshot c (set_torrents (delete id (torrents s)) (set_queue q s)) -> request :: rest `suffix_of` waiters t ->
  counts (request :: rest) (set_snapshot c (set_torrents (delete id (torrents s)) s)) ->
  wp (serve_request debug send_fails waited_micros id t request rest p) s1 (fun p' s' => pass_ok debug s0 p' s' /\ advanced p p' s s') (fun _ _ => False).
Proof.
  intros Hpass Ht Hq -> Hsuf Hc. pose proof (po_wf _ _ _ _ Hpass) as Hwf. pose proof (wf_session s Hwf) as Hses.
  pose proof (lk_torrent s (wf_links s Hwf) id t Ht) as Hok. pose proof (to_bucket t Hok) as Hbt.
  assert (ready t = true) as Hready.
  { assert (id ∈ ready_queue s) as Hin by (rewrite Hq; apply list_elem_of_here). apply (lk_queue s (wf_links s Hwf)) in Hin. unfold is_ready in Hin. by rewrite Ht in Hin. }
  pose proof (po_wait _ _ _ _ Hpass) as Hwait. pose proof (suffix_sizes _ _ _ Hsuf (to_sizes t Hok)) as Hsizes. apply Forall_cons in Hsizes as [Hreq Hrest].
  assert (forall s' : DirectionState, ready_queue s' = q ++ [id] \/ ready_queue s' = q -> exists id q, ready_queue s = id :: q /\ (ready_queue s' = q \/ ready_queue s' = q ++ [id])) as Hlen.
  { intros s' Hs'. exists id, q. tauto. }
  unfold serve_request. wp_step. wp_step. wp_step. rewrite debug_assert_ok by (intros Hd; by rewrite (po_returned _ _ _ _ Hpass Hd id t)). wp_step. cbn [session set_snapshot set_torrents set_queue].
  pose proof (available_nonneg _ Hses) as Hav1. pose proof (available_nonneg _ Hbt) as Hav2.
  set (bytes := Z.min (Z.min (Z.min (wanted_bytes request) MAX_BANDWIDTH_GRANT_BYTES) (available (session s))) (available (bucket t))).
  assert (0 <= bytes <= MAX_BANDWIDTH_GRANT_BYTES /\ bytes <= available (session s) /\ bytes <= available (bucket t) /\ bytes <= wanted_bytes request) as Hbytes by (numbers; lia).
  wp_step; [|].
  - assert (bytes = 0) as Hnone by lia. do 4 wp_step. wp_step. split.
    + eapply (pass_requeue debug s0 p _ s id t (set_ready true (set_waiters (request :: rest) t)) q); [exact Hpass|exact Ht|exact Hq| |apply charged_refl|apply charged_refl|done|].
      * eapply put_back_intro; try done; cbn; try done. split; cbn; try done; [by left|constructor; done].
        intros _ Hd. by apply (po_returned _ _ _ _ Hpass Hd id t).
      * apply note_wait_bounds; [|done]. pose proof (time_until_byte_bounds _ Hses). pose proof (time_until_byte_bounds _ Hbt).
        assert (available (session s) = 0 \/ available (bucket t) = 0) as [Hz|Hz] by (unfold bytes in Hnone; numbers; lia).
        -- pose proof (time_until_byte_pos _ Hses Hz). lia.
        -- pose proof (time_until_byte_pos _ Hbt Hz). lia.
    + split; [by left|]. apply Hlen. by left.
  - assert (1 <= bytes) as Hpos by lia.
    destruct (consume_spec (E := BandwidthError) debug bytes (session s) Hses ltac:(lia) ltac:(lia)) as (paid & Epaid & Hpaid & Cpaid).
    destruct (consume_spec (E := BandwidthError) debug bytes (bucket t) Hbt ltac:(lia) ltac:(lia)) as (rem & Erem & Hrem & Crem).
    wp_step. rewrite Epaid. do 4 wp_step. rewrite Erem. do 3 wp_step.
    assert (counts rest (set_snapshot (uncount request c) (set_torrents (delete id (torrents s)) s))) as Hc'.
    { eapply (counts_uncount request rest c (set_snapshot c (set_torrents (delete id (torrents s)) s))); [done|done| |done].
      cbn. intros k u [_ Hk]%lookup_delete_Some. by apply (lk_torrent s (wf_links s Hwf) k). }
    assert (rest `suffix_of` waiters t) as Hsuf' by (etrans; [by apply suffix_cons_r|exact Hsuf]).
    assert (request ∈ waiters t) as Hin by (destruct Hsuf as [k ->]; apply elem_of_app; right; apply list_elem_of_here).
    wp_step.
    + do 3 wp_step. split.
      * eapply (pass_grant debug s0 p s id t (mkTorrentState rem rest false true) q _ request bytes);
          [exact Hpass|exact Ht|exact Hq| |exact Cpaid|exact Crem|done|lia|done].
        eapply put_back_intro; try done; cbn; try done; [split; cbn; try done; by right|].
        eapply counts_ext; [| | |exact Hc']; done.
      * split; [|apply Hlen; by right]. right. eexists. split; [done|done].
    + do 5 wp_step.
      assert (charged (session s) (refund bytes paid) 0) as Cs by (apply refund_charged; [done|done|lia|done]).
      assert (charged (bucket t) (refund bytes rem) 0) as Ct by (apply refund_charged; [done|done|lia|done]).
      assert (torrent_ok (mkTorrentState (refund bytes rem) rest (negb (bool_decide (rest = []))) false)) as Htok.
      { split; cbn; [by apply refund_ok; [lia|]| | |done]; destruct (decide (rest = [])) as [->|Hne]; cbn; try done. rewrite bool_decide_false by done. by left. }
      destruct (decide (rest = [])) as [Ee|Ene]; [rewrite bool_decide_true in * by done|rewrite bool_decide_false in * by done]; cbn [negb] in *; do 4 wp_step; (split; [|split; [by left|apply Hlen; auto]]).
      * eapply (pass_requeue debug s0 p _ s id t (mkTorrentState (refund bytes rem) rest false false) q); [exact Hpass|exact Ht|exact Hq| |exact Cs|exact Ct|done|done].
        eapply (put_back_intro s id t rest); try done; cbn; try done; [by apply refund_ok; [lia|]|]. eapply counts_ext; [| | |exact Hc']; done.
      * eapply (pass_requeue debug s0 p _ s id t (mkTorrentState (refund bytes rem) rest true false) q); [exact Hpass|exact Ht|exact Hq| |exact Cs|exact Ct|done|done].
        eapply (put_back_intro s id t rest); try done; cbn; try done; [by apply refund_ok; [lia|]|]. eapply counts_ext; [| | |exact Hc']; done.
Qed.
Lemma queue_head s id q : links s -> ready_queue s = id :: q -> exists t, torrents s !! id = Some t /\ ready t = true.
Proof.
  intros Hl Hq. assert (id ∈ ready_queue s) as Hin by (rewrite Hq; apply list_elem_of_here). apply (lk_queue s Hl) in Hin. unfold is_ready in Hin.
  destruct (torrents s !! id) as [t|]; [by exists t|done].
Qed.
Lemma serve_next_ok s0 p s : pass_ok debug s0 p s -> ready_queue s <> [] ->
  wp (serve_next debug is_closed send_fails waited_micros p) s (fun p' s' => pass_ok debug s0 p' s' /\ advanced p p' s s') (fun _ _ => False).
Proof.
  intros Hpass Hne. unfold serve_next. wp_step. wp_step. destruct (ready_queue s) as [|id q] eqn:Hq; [done|].
  pose proof (po_wf _ _ _ _ Hpass) as Hwf. destruct (queue_head s id q (wf_links s Hwf) Hq) as (t & Ht & Hready).
  pose proof (lk_torrent s (wf_links s Hwf) id t Ht) as Hok. do 2 wp_step. rewrite Ht. do 2 wp_step.
  assert (counts (waiters t) (set_torrents (delete id (torrents s)) s)) as Hc by (eapply (counts_take id t s); try done; by apply wf_counts).
  pose proof (drop_closed_spec (waiters t) (snapshot s) (set_torrents (delete id (torrents s)) s) eq_refl (to_sizes t Hok)) as Hdrop.
  destruct Hdrop as [Hc' Hsuf]; [|done|].
  { cbn. intros k u [_ Hk]%lookup_delete_Some. by apply (lk_torrent s (wf_links s Hwf) k). }
  destruct (drop_closed is_closed (waiters t) (snapshot s)) as [w c] eqn:Hd. cbn [fst snd] in *. do 2 wp_step. destruct w as [|request rest].
  - do 3 wp_step. split; [|split; [by left|]; exists id, q; split; [done|by left]].
    eapply (pass_requeue debug s0 p _ s id t (set_ready false (set_waiters [] t)) q); [exact Hpass|exact Ht|exact Hq| |apply charged_refl|apply charged_refl|done|by eapply po_wait].
    eapply (put_back_intro s id t []); try done; cbn; try done; [|by apply wf_session]. split; cbn; try done. by apply to_bucket.
  - eapply serve_request_ok; try done.
Qed.
(** A round serves the torrents that are in the queue when it starts; those
    that stay in the queue keep their order. *)
Lemma serve_round_ok s0 n : forall p s a b, pass_ok debug s0 p s -> ready_queue s = a ++ b -> length a = n -> len (sent p) < MAX_GRANTS_PER_PASS ->
  wp (serve_round debug is_closed send_fails waited_micros n p) s
    (fun r s' => match r with
                 | inl p' => pass_ok debug s0 p' s' /\ MAX_GRANTS_PER_PASS <= len (sent p') /\ sent p `prefix_of` sent p'
                 | inr p' => pass_ok debug s0 p' s' /\ len (sent p') < MAX_GRANTS_PER_PASS /\ sent p `prefix_of` sent p' /\
                   (progress p' = true -> progress p = true \/ len (sent p) < len (sent p')) /\ exists a', a' `sublist_of` a /\ ready_queue s' = b ++ a'
                 end) (fun _ _ => False).
Proof.
  induction n as [|n IH]; intros p s a b Hpass Hq Hn Hmax; cbn [serve_round].
  - wp_step. apply nil_length_inv in Hn as ->. split; [done|]. split; [done|]. split; [done|]. split; [by left|]. exists []. split; [done|]. by rewrite app_nil_r.
  - destruct a as [|id a]; [done|]. injection Hn as Hn. wp_step. eapply wp_mono; [eapply (serve_next_ok s0 p s Hpass); by rewrite Hq| |done].
    cbv beta. intros p1 s1 [Hpass1 [Hsent (id' & q & Eq & Hq1)]]. rewrite Hq in Eq. injection Eq as <- <-.
    assert (sent p `prefix_of` sent p1 /\ (progress p1 = true -> progress p = true \/ len (sent p) < len (sent p1)) /\ len (sent p1) <= len (sent p) + 1) as (Hpre & Hpr & Hle).
    { destruct Hsent as [[-> ->]|(g & -> & _)]; [split; [done|]; split; [by left|lia]|]. rewrite len_snoc. split; [by apply prefix_app_r|]. split; [right; lia|lia]. }
    destruct ((len (sent p) <? len (sent p1)) && (MAX_GRANTS_PER_PASS <=? len (sent p1))) eqn:Hstop.
    + wp_step. split; [done|]. split; [lia|done].
    + assert (len (sent p1) < MAX_GRANTS_PER_PASS) as Hmax1.
      { destruct (len (sent p) <? len (sent p1)) eqn:Hlt; cbn in Hstop; lia. }
      assert (exists b', ready_queue s1 = a ++ b ++ b' /\ b' `sublist_of` [id]) as (b' & Hb' & Hsub).
      { destruct Hq1 as [-> | ->]; [exists []; split; [by rewrite app_nil_r|by apply sublist_nil_l]|]. exists [id]. by rewrite <- app_assoc. }
      eapply wp_mono; [eapply (IH p1 s1 a (b ++ b') Hpass1); done| |done]. cbv beta. intros [p2|p2] s2.
      * intros (H1 & H2 & H3). split; [done|]. split; [done|]. by etrans.
      * intros (H1 & H2 & H3 & H4 & a' & Ha' & Hq2). split; [done|]. split; [done|]. split; [by etrans|]. split.
        -- intros Hp2. apply prefix_length in Hpre. unfold len in *. apply prefix_length in H3. destruct (H4 Hp2) as [Hp1|?]; [|lia]. destruct (Hpr Hp1); [tauto|lia].
        -- exists (b' ++ a'). split; [|by rewrite Hq2, <- app_assoc]. change (id :: a) with ([id] ++ a). by apply sublist_app.
Qed.
(** What an allocation gives. *)
Definition allocated (s : DirectionState) (p : Pass) (q : list Z) (r : AllocationOutcome * list Grant) (s' : DirectionState) : Prop :=
  exists p', pass_ok debug s p' s' /\ r.2 = sent p' /\ sent p `prefix_of` sent p' /\
    match r.1 with
    | Idle => r.2 = [] /\ ready_queue s' = []
    | Wait d => 1 <= d <= MAX_WAIT
    | Yield => r.2 <> []
    end /\ (len (sent p') < MAX_GRANTS_PER_PASS -> ready_queue s' `sublist_of` q).
Lemma allocate_rounds_ok s0 fuel : forall p s, pass_ok debug s0 p s -> len (sent p) < MAX_GRANTS_PER_PASS -> MAX_GRANTS_PER_PASS < len (sent p) + Z.of_nat fuel ->
  wp (allocate_rounds debug is_closed send_fails waited_micros fuel p) s (allocated s0 p (ready_queue s)) (fun _ _ => False).
Proof.
  induction fuel as [|fuel IH]; intros p s Hpass Hmax Hfuel; [lia|]. cbn [allocate_rounds]. do 2 wp_step. destruct (bool_decide _) eqn:Hround.
  - apply bool_decide_eq_true in Hround. apply nil_length_inv in Hround. wp_step. exists p. split; [done|]. split; [done|]. split; [done|]. split; [|done].
    destruct (len (sent p) =? 0) eqn:Hz; cbn [fst snd]; [split; [by apply len_0_nil; lia|done]|]. intros Hnil. rewrite Hnil in Hz. done.
  - wp_step. eapply wp_mono; [eapply (serve_round_ok s0 _ (mkPass (sent p) (shortest_wait p) false) s (ready_queue s) [])| |done]; cbn [sent];
      [by destruct Hpass|by rewrite app_nil_r|done|done|].
    cbv beta. intros [p'|p'] s'.
    + intros (H1 & H2 & H3). wp_step. exists p'. split; [done|]. split; [done|]. split; [done|]. cbn [fst snd]. split; [|lia]. intros Hnil. rewrite Hnil in H2. done.
    + intros (H1 & H2 & H3 & H4 & a & Ha & Hq). cbn [app] in Hq. destruct (progress p') eqn:Hp; cbn [negb].
      * destruct (H4 eq_refl) as [?|Hlt]; [done|]. eapply wp_mono; [eapply (IH p' s' H1 H2); cbn in Hlt; lia| |done]. cbv beta. intros r s2 (p2 & G1 & G2 & G3 & G4 & G5).
        exists p2. split; [done|]. split; [done|]. split; [by etrans|]. split; [done|]. intros Hlen. rewrite Hq in G5. etrans; [by apply G5|done].
      * wp_step. exists p'. split; [done|]. split; [done|]. split; [done|]. cbn [fst]. split; [|intros _; by rewrite Hq].
        destruct (shortest_wait p') as [d|] eqn:Hd; cbn [default]; [by eapply po_wait|]. unfold MAX_WAIT. lia.
Qed.
Lemma allocate_ok s : wf s -> (debug = true -> grants_returned s) ->
  wp (allocate debug is_closed send_fails waited_micros) s (allocated s (mkPass [] None false) (ready_queue s)) (fun _ _ => False).
Proof.
  intros Hwf Hr. unfold allocate. apply allocate_rounds_ok; [by apply pass_start|done|]. cbn [sent]. change (len (@nil Grant)) with 0. rewrite Nat2Z.inj_succ, Z2Nat.id by done. lia.
Qed.
End allocator.

(** ** The operations keep the invariant *)
(** Something is done to every torrent. *)
Lemma links_map g s s' : links s -> torrents s' = g <$> torrents s -> ready_queue s' = ready_queue s -> (forall t, torrent_ok t -> torrent_ok (g t)) ->
  (forall t, ready (g t) = ready t) -> links s'.
Proof.
  intros Hl Et Eq Hg Hready. split; rewrite ?Eq; [by apply lk_nodup| |].
  - intros id. rewrite (lk_queue s Hl). unfold is_ready. rewrite Et, lookup_fmap. destruct (torrents s !! id) as [t|]; [|done]. cbn. by rewrite Hready.
  - intros id t Ht. rewrite Et, lookup_fmap in Ht. apply fmap_Some in Ht as (u & Hu & ->). apply Hg. by eapply lk_torrent.
Qed.
Lemma torrent_ok_bucket b t : bucket_ok b -> torrent_ok t -> torrent_ok (set_bucket b t).
Proof. intros Hb [H1 H2 H3 H4]. split; done. Qed.
Ltac counting := change (queued_of []) with 0 in *; change (len (@nil PendingRequest)) with 0 in *; lia.
Definition elapsed_since (now : Z) (s : DirectionState) : Z := Z.min (saturating_sub now (last_advanced s)) MAX_ACCRUAL_ELAPSED.
Lemma elapsed_nonneg now s : 0 <= elapsed_since now s.
Proof. unfold elapsed_since, saturating_sub. numbers. lia. Qed.
Lemma advance_eq now s : advance_to_now now s = mkState (bucket_advance (elapsed_since now s) (session s))
  ((fun t => set_bucket (bucket_advance (elapsed_since now s) (bucket t)) t) <$> torrents s) (ready_queue s) (next_request_id s) now (snapshot s).
Proof. done. Qed.
Lemma advance_wf now s : wf s -> wf (advance_to_now now s).
Proof.
  intros [Hl Hs Hc Hsz]. pose proof (elapsed_nonneg now s) as He. rewrite advance_eq. split; [| | |cbn [torrents]; by rewrite map_size_fmap].
  - eapply (links_map _ s); [done|done|done| |done]. intros t Ht. apply torrent_ok_bucket; [|done]. apply bucket_advance_ok; [done|]. by apply to_bucket.
  - by apply bucket_advance_ok.
  - destruct Hc as [H1 H2 H3]. unfold waiting, queued in *.
    split; unfold waiting, queued; cbn [torrents snapshot];
      rewrite ?(sum_over_fmap (fun t => len (waiters t)) (fun t => len (waiters t))), ?(sum_over_fmap (fun t => queued_of (waiters t)) (fun t => queued_of (waiters t))) by done; done.
Qed.
Lemma advance_returned now s : grants_returned s -> grants_returned (advance_to_now now s).
Proof. intros Hr id t. rewrite advance_eq. cbn. rewrite lookup_fmap. intros (u & Hu & ->)%fmap_Some. cbn. by apply (Hr id u). Qed.
(** One torrent is updated in place. *)
Lemma update_wf s s' id t t' : wf s -> torrents s !! id = Some t -> torrent_ok t' -> ready t' = ready t -> waiters t' = waiters t ->
  torrents s' = <[id := t']> (torrents s) -> ready_queue s' = ready_queue s -> bucket_ok (session s') -> waiting_requests (snapshot s') = waiting_requests (snapshot s) ->
  queued_bytes (snapshot s') = queued_bytes (snapshot s) -> wf s'.
Proof.
  intros [Hl Hs [H1 H2 H3] Hsz] Ht Hok Hr Hw Et Eq Hses E1 E2. split; [|done| |rewrite Et, map_size_insert_Some by (by rewrite Ht); done].
  - eapply (links_same id t' s); try done. unfold is_ready. by rewrite Ht, Hr.
  - unfold waiting, queued in *. split; unfold waiting, queued; rewrite ?E1, ?E2, Et, !(sum_over_update _ _ _ t) by done; cbv beta; rewrite Hw; lia.
Qed.
Lemma same_wf s s' : wf s -> torrents s' = torrents s -> ready_queue s' = ready_queue s -> bucket_ok (session s') -> waiting_requests (snapshot s') = waiting_requests (snapshot s) ->
  queued_bytes (snapshot s') = queued_bytes (snapshot s) -> wf s'.
Proof. intros [Hl Hs Hc Hsz] Et Eq Hses E1 E2. split; [by eapply links_ext|done|by eapply counts_ext|by rewrite Et]. Qed.
Lemma state_new_wf l now : limit_ok l -> wf (DirectionState_new l now).
Proof.
  intros Hl. split; [|by apply bucket_new_ok|done|done]. split; cbn; [apply NoDup_nil_2| |done]. intros id. unfold is_ready. cbn. rewrite lookup_empty. split; [intros Hi; by apply elem_of_nil in Hi|done].
Qed.
Lemma register_wf id l now d : limit_ok l -> torrents (state d) !! id = None -> wf (state d) -> wf (state (register id l now d).1).
Proof.
  intros Hl Hid Hwf. unfold register. destruct (stopped d); [done|]. pose proof (advance_wf now _ Hwf) as Ha.
  destruct (_ <=? _) eqn:Hmax; [done|]. cbn [fst state set_state]. set (s := advance_to_now now (state d)) in *.
  assert (torrents s !! id = None) as Hs by (unfold s; rewrite advance_eq; cbn; by rewrite lookup_fmap, Hid).
  destruct Ha as [Hlk Hse [H1 H2 H3] Hsz]. split; [|done| |cbn [torrents on_snapshot set_snapshot set_torrents]; rewrite map_size_insert_None by done; lia].
  - eapply (links_same id (TorrentDirectionState_new l) s); try done; [|by unfold is_ready; rewrite Hs]. split; cbn; try done. by apply bucket_new_ok.
  - unfold waiting, queued in *. split; unfold waiting, queued; cbn [torrents snapshot on_snapshot set_snapshot set_torrents set_registered waiting_requests queued_bytes];
      rewrite !sum_over_insert by done; cbn [TorrentDirectionState_new waiters]; counting.
Qed.
Lemma uncount_all w : forall c s, snapshot s = c -> Forall (fun r => 1 <= wanted_bytes r <= MAX_BANDWIDTH_GRANT_BYTES) w ->
  (forall id t, torrents s !! id = Some t -> torrent_ok t) -> counts w s -> counts [] (set_snapshot (fold_left (fun c r => uncount_cancelled r c) w c) s).
Proof.
  induction w as [|r w IH]; intros c s Es Hw Hok Hc; cbn [fold_left]; [subst c; by destruct s|]. apply Forall_cons in Hw as [Hr Hw].
  assert (counts w (set_snapshot (uncount_cancelled r c) s)) as Hc'.
  { eapply (counts_ext _ (set_snapshot (uncount r c) s)); [done|done|done|]. by apply counts_uncount. }
  exact (IH (uncount_cancelled r c) (set_snapshot (uncount_cancelled r c) s) eq_refl Hw Hok Hc').
Qed.
Lemma without_absent id q : id ∉ q -> without id q = q.
Proof.
  unfold without. induction q as [|k q IH]; [done|]. intros [Hne Hid]%not_elem_of_cons. rewrite filter_cons_True by congruence. f_equal. by apply IH.
Qed.
Lemma unregister_wf id d : wf (state d) -> wf (state (unregister id d)).
Proof.
  intros [Hl Hs Hc Hsz]. unfold unregister. set (s := state d) in *. destruct (torrents s !! id) as [t|] eqn:Ht; cbn [state set_state].
  - pose proof (counts_take id t s (set_torrents (delete id (torrents s)) s) Ht Hc eq_refl eq_refl) as Hc'.
    assert (forall k u, delete id (torrents s) !! k = Some u -> torrent_ok u) as Hok by (intros k u [_ Hk]%lookup_delete_Some; by apply (lk_torrent s Hl k)).
    pose proof (uncount_all (waiters t) (snapshot s) (set_torrents (delete id (torrents s)) s) eq_refl (to_sizes t (lk_torrent s Hl id t Ht)) Hok Hc') as Hc''. split; [| | |cbn; rewrite map_size_delete_Some by (by rewrite Ht); lia].
    + eapply (links_drop id s); done.
    + done.
    + eapply counts_ext; [| | |exact Hc'']; done.
  - split; [|done|by apply (counts_ext [] s)|done]. eapply (links_ext s); [done| |done]. cbn. apply without_absent. rewrite (lk_queue s Hl). unfold is_ready. by rewrite Ht.
Qed.
Lemma set_session_limit_wf l now d : limit_ok l -> wf (state d) -> wf (state (set_session_limit l now d)).
Proof.
  intros Hl Hwf%(advance_wf now). unfold set_session_limit. cbn [state]. eapply (same_wf _ _ Hwf); try done. cbn. apply set_limit_ok; [done|]. exact (wf_session _ Hwf).
Qed.
Lemma set_torrent_limit_wf id l now d : limit_ok l -> wf (state d) -> wf (state (set_torrent_limit id l now d)).
Proof.
  intros Hl Hwf%(advance_wf now). unfold set_torrent_limit. cbn [state set_state]. set (s := advance_to_now now (state d)) in *. clearbody s.
  destruct (torrents s !! id) as [t|] eqn:Ht.
  - pose proof (lk_torrent s (wf_links s Hwf) id t Ht) as Hok. eapply (update_wf s _ id t _ Hwf Ht); [apply torrent_ok_bucket; [|exact Hok]; apply set_limit_ok; [exact Hl|by apply to_bucket]|done|done| |done|exact (wf_session _ Hwf)|done|done].
    cbn. apply map_eq. intros k. destruct (decide (k = id)) as [->|Hne]; [by rewrite lookup_alter_eq, lookup_insert_eq, Ht|by rewrite lookup_alter_ne, lookup_insert_ne].
  - eapply (same_wf _ _ Hwf); try done; [|exact (wf_session _ Hwf)]. cbn. apply map_eq. intros k.
    destruct (decide (k = id)) as [->|Hne]; [by rewrite lookup_alter_eq, Ht|by rewrite lookup_alter_ne].
Qed.
Lemma stop_wf d : wf (state d) -> wf (state (inner_stop d)).
Proof.
  intros Hwf. unfold inner_stop. destruct (stopped d); [done|]. cbn [state]. destruct Hwf as [Hl Hs Hc Hsz]. set (s := state d) in *. split; [|done| |cbn; by rewrite map_size_fmap].
  - split; cbn; [apply NoDup_nil_2| |].
    + intros id. unfold is_ready. cbn. rewrite lookup_fmap. split; [intros Hi; by apply elem_of_nil in Hi|]. by destruct (torrents s !! id).
    + intros id t. rewrite lookup_fmap. intros (u & Hu & ->)%fmap_Some. pose proof (lk_torrent s Hl id u Hu) as Hok. split; cbn; try done. by apply to_bucket.
  - assert (waiting (stop s) = 0 /\ queued (stop s) = 0) as [Hw Hq].
    { unfold waiting, queued, stop. cbn. rewrite (sum_over_fmap _ (fun _ => 0)), (sum_over_fmap _ (fun _ => 0)) by done.
      split; generalize (torrents s) as m; intros m; induction m as [|k v m Hk IH] using map_ind; try done; by rewrite sum_over_insert, IH. }
    split; rewrite ?Hw, ?Hq; try done.
Qed.
(** [queue] as a function: the request goes to the end of its torrent's
    queue, and the torrent to the end of the ready queue if it was not there. *)
Definition queued_state (id requested now : Z) (t : TorrentDirectionState) (s : DirectionState) : DirectionState :=
  mkState (session s) (<[id := set_ready true (set_waiters (waiters t ++ [mkRequest (next_request_id s) requested now]) t)]> (torrents s))
    (if ready t then ready_queue s else ready_queue s ++ [id]) (Z.max (wrapping_add 64 (next_request_id s) 1) 1) (last_advanced s)
    (set_waiting (waiting_requests (snapshot s) + 1) (saturating_add 64 (queued_bytes (snapshot s)) requested) (snapshot s)).
Lemma queue_eq id requested now s : queue id requested now s =
  if MAX_BANDWIDTH_WAITERS <=? waiting_requests (snapshot s) then (s, Err WaiterLimit)
  else match torrents s !! id with None => (s, Err TorrentClosed) | Some t => (queued_state id requested now t s, Ok (next_request_id s)) end.
Proof.
  unfold queue. rewrite get_bind. destruct (_ <=? _); [done|]. destruct (torrents s !! id) as [t|] eqn:Ht; [|done]. unfold mbind, M_bind, lift, modify, queued_state. cbn.
  by destruct (ready t).
Qed.
Lemma snapshot_waiting_nonneg s : wf s -> 0 <= waiting_requests (snapshot s).
Proof. intros [_ _ [H1 _ _] _]. pose proof (waiting_nonneg s). counting. Qed.
Lemma queue_wf id requested now s : 1 <= requested <= MAX_BANDWIDTH_GRANT_BYTES -> wf s -> wf (queue id requested now s).1.
Proof.
  intros Hreq Hwf. rewrite queue_eq. destruct (_ <=? _) eqn:Hmax; [done|]. destruct (torrents s !! id) as [t|] eqn:Ht; [|done]. cbn [fst].
  pose proof Hwf as [Hl Hs [H1 H2 H3] Hsz]. pose proof (lk_torrent s Hl id t Ht) as Hok. set (r := mkRequest (next_request_id s) requested now).
  assert (torrent_ok (set_ready true (set_waiters (waiters t ++ [r]) t))) as Hok'.
  { split; cbn; [by apply to_bucket|by destruct (waiters t)|by left|]. apply Forall_app. split; [by apply to_sizes|]. by apply Forall_singleton. }
  split; [|done| |cbn; rewrite map_size_insert_Some by (by rewrite Ht); done].
  - destruct (ready t) eqn:Hr.
    + eapply (links_same id _ s); [done|exact Hok'|unfold is_ready; by rewrite Ht|done|]. cbn. by rewrite Hr.
    + eapply (links_push id _ s); [done|exact Hok'|unfold is_ready; by rewrite Ht|done|done|]. cbn. by rewrite Hr.
  - pose proof (queued_bounds s (lk_torrent s Hl)) as Hq. pose proof (waiting_nonneg s). unfold waiting, queued in *.
    split; unfold waiting, queued; cbn [torrents queued_state snapshot set_waiting waiting_requests queued_bytes]; rewrite !(sum_over_update _ _ _ t) by done; cbn [waiters set_ready set_waiters].
    + rewrite len_snoc. counting.
    + unfold queued_of at 3. rewrite sum_on_app. fold (queued_of (waiters t)). cbn [sum_on foldr wanted_bytes r]. unfold saturating_add.
      pose proof (umax_large 64 ltac:(done)) as Hu. change (2 ^ 63) with 9223372036854775808 in Hu. numbers. unfold MAX_BANDWIDTH_WAITERS in *. rewrite Z.min_l by counting. counting.
    + rewrite len_snoc. counting.
Qed.
Lemma remove_request_spec id w r rest : remove_request id w = Some (r, rest) -> exists l k, w = l ++ r :: k /\ rest = l ++ k /\ request_id r = id.
Proof.
  revert r rest. induction w as [|x w IH]; intros r rest; [done|]. cbn. destruct (request_id x =? id) eqn:E.
  - intros [= <- <-]. exists [], w. split; [done|]. split; [done|]. lia.
  - destruct (remove_request id w) as [[y k]|]; [|done]. intros [= <- <-]. destruct (IH y k eq_refl) as (l & k' & -> & -> & ?). by exists (x :: l), k'.
Qed.
Lemma cancel_wf id request s : wf s -> wf (cancel id request s).1.
Proof.
  intros Hwf. unfold cancel. destruct (torrents s !! id) as [t|] eqn:Ht; [|done]. destruct (remove_request request (waiters t)) as [[r rest]|] eqn:Hr; [|done].
  pose proof Hwf as [Hl Hs [H1 H2 H3] Hsz]. pose proof (lk_torrent s Hl id t Ht) as Hok. apply remove_request_spec in Hr as (l & k & Ew & Er & _).
  assert (len (waiters t) = len rest + 1 /\ queued_of (waiters t) = queued_of rest + wanted_bytes r) as [Elen Equeued].
  { rewrite Ew, Er. unfold queued_of. rewrite !len_app, len_cons, !sum_on_app. cbn [sum_on foldr]. unfold sum_on. lia. }
  assert (Forall (fun r => 1 <= wanted_bytes r <= MAX_BANDWIDTH_GRANT_BYTES) rest) as Hsizes.
  { pose proof (to_sizes t Hok) as Hall. rewrite Ew in Hall. rewrite Er. apply Forall_app in Hall as [Ha Hb%Forall_cons]. apply Forall_app. tauto. }
  assert (waiters t <> []) as Hne by (rewrite Ew; by destruct l).
  pose proof (queued_of_bounds rest Hsizes). pose proof (len_nonneg rest). pose proof (queued_bounds s (lk_torrent s Hl)) as Hq. pose proof (waiting_nonneg s).
  assert (0 <= sum_over (fun t => queued_of (waiters t)) (torrents s) - queued_of (waiters t)) as Hother.
  { pose proof (sum_over_lookup (fun t => queued_of (waiters t)) (torrents s) id t) as Hx. cbv beta in Hx. enough (queued_of (waiters t) <= sum_over (fun t => queued_of (waiters t)) (torrents s)) by lia.
    apply Hx; [|done]. intros k' v Hk. apply queued_of_bounds. apply to_sizes. by apply (lk_torrent s Hl k'). }
  assert (0 <= sum_over (fun t => len (waiters t)) (torrents s) - len (waiters t)) as Hothers.
  { pose proof (sum_over_lookup (fun t => len (waiters t)) (torrents s) id t) as Hx. cbv beta in Hx. enough (len (waiters t) <= sum_over (fun t => len (waiters t)) (torrents s)) by lia.
    apply Hx; [|done]. intros k' v Hk. apply len_nonneg. }
  assert (forall t' q, waiters t' = rest -> counts [] (mkState (session s) (<[id := t']> (torrents s)) q (next_request_id s) (last_advanced s) (uncount_cancelled r (snapshot s)))) as Hcounts.
  { intros t' q Ew'. unfold waiting, queued in *. split; unfold waiting, queued, uncount_cancelled, uncount, add_cancelled, set_waiting, saturating_sub; cbn [torrents snapshot waiting_requests queued_bytes];
      rewrite !(sum_over_update _ _ _ t) by done; cbv beta; rewrite Ew'; counting. }
  assert (forall t', Z.of_nat (size (<[id := t']> (torrents s))) <= MAX_BANDWIDTH_REGISTRATIONS) as Hsize by (intros t'; rewrite map_size_insert_Some by (by rewrite Ht); done).
  destruct (bool_decide (rest = [])) eqn:Hb; cbn [fst].
  - apply bool_decide_eq_true in Hb. split; [|done|apply Hcounts; by rewrite Hb|by apply Hsize]. apply (links_pull id (set_ready false (set_waiters [] t)) s); [done| |done|done|done].
    split; cbn; try done. by apply to_bucket.
  - apply bool_decide_eq_false in Hb. split; [|done|by apply Hcounts|by apply Hsize]. apply (links_same id (set_waiters rest t) s); [done| |cbn; unfold is_ready; by rewrite Ht|done|done].
    split; cbn; [by apply to_bucket|done| |done]. intros _. by apply to_waiting.
Qed.
Lemma complete_grant_wf id bytes now d : 0 <= bytes -> wf (state d) -> wf (state (complete_grant id bytes now d)).
Proof.
  intros Hb Hwf%(advance_wf now). unfold complete_grant. set (s := advance_to_now now (state d)) in *. clearbody s. cbn [state set_state].
  pose proof (refund_ok bytes (session s) Hb (wf_session s Hwf)) as Hses. cbn [torrents set_session].
  destruct (torrents s !! id) as [t|] eqn:Ht; [|by eapply (same_wf s _ Hwf)].
  pose proof (lk_torrent s (wf_links s Hwf) id t Ht) as Hok. set (b := refund bytes (bucket t)).
  assert (bucket_ok b) as Hbok by (apply refund_ok; [done|by apply to_bucket]).
  destruct (negb (bool_decide (waiters t = [])) && negb (ready t)) eqn:Hc; cbn [waiters ready set_bucket set_in_flight] in *; rewrite Hc.
  - apply andb_prop in Hc as [Hne%negb_true_iff Hr%negb_true_iff]. apply bool_decide_eq_false in Hne. pose proof Hwf as [Hl Hs [H1 H2 H3] Hsz].
    split; [|done| |cbn; rewrite map_size_insert_Some by (by rewrite Ht); done].
    + apply (links_push id (set_ready true (set_in_flight false (set_bucket b t))) s); [done| |unfold is_ready; by rewrite Ht|done|done|done]. split; cbn; [done|done|by left|by apply to_sizes].
    + unfold waiting, queued in *. split; unfold waiting, queued; cbn [torrents snapshot on_snapshot set_snapshot set_queue set_torrents set_session add_returned waiting_requests queued_bytes];
        rewrite !(sum_over_update _ _ _ t) by done; cbn [waiters set_ready set_in_flight set_bucket]; counting.
  - eapply (update_wf s _ id t (set_in_flight false (set_bucket b t)) Hwf Ht); try done. split; cbn; [done|by apply to_ready| |by apply to_sizes].
    intros Hne. left. rewrite bool_decide_false in Hc by done. cbn in Hc. by apply negb_false_iff in Hc.
Qed.

(** ** Histories

    The calls take the lock one after the other.  A request that passed its
    checks earlier is [Request]; [Turn] is a turn of the task in a release
    build. *)
Inductive Event :=
| Register (id : Z) (l : TransferRateLimit) (now : Z)
| Unregister (id : Z)
| SessionLimit (l : TransferRateLimit) (now : Z)
| TorrentLimit (id : Z) (l : TransferRateLimit) (now : Z)
| Request (id requested now : Z)
| Cancel (id request : Z)
| Complete (id bytes now : Z)
| Turn (is_closed send_fails : Z -> bool) (waited_micros : PendingRequest -> Z) (now : Z)
| TakeSnapshot (now : Z)
| Stop.
(** The state after an event, the grants sent, and what was given back of which torrent's grant. *)
Definition apply (e : Event) (d : DirectionInner) : DirectionInner * (list Grant * list (Z * Z)) :=
  match e with
  | Register id l now => ((register id l now d).1, ([], []))
  | Unregister id => (unregister id d, ([], []))
  | SessionLimit l now => (set_session_limit l now d, ([], []))
  | TorrentLimit id l now => (set_torrent_limit id l now d, ([], []))
  | Request id requested now => ((acquire_locked id requested now d).1, ([], []))
  | Cancel id request => (cancel_request id request d, ([], []))
  | Complete id bytes now => (complete_grant id bytes now d, ([], [(id, bytes)]))
  | Turn is_closed send_fails waited_micros now =>
    let '(d, r) := run_once false is_closed send_fails waited_micros now d in
    (d, (match r with Some (Ok (_, gs)) => gs | _ => [] end, []))
  | TakeSnapshot now => ((inner_snapshot now d).1, ([], []))
  | Stop => (inner_stop d, ([], []))
  end.
(** The clock does not go back, identities of torrents are new, and limits and
    sizes are those the callers can pass. *)
Definition valid (e : Event) (d : DirectionInner) : Prop :=
  match e with
  | Register id l now => last_advanced (state d) <= now /\ limit_ok l /\ torrents (state d) !! id = None
  | SessionLimit l now | TorrentLimit _ l now => last_advanced (state d) <= now /\ limit_ok l
  | Request _ requested now => last_advanced (state d) <= now /\ 1 <= requested <= MAX_BANDWIDTH_GRANT_BYTES
  | Complete _ bytes now => last_advanced (state d) <= now /\ 0 <= bytes
  | Turn _ _ _ now | TakeSnapshot now => last_advanced (state d) <= now
  | Unregister _ | Cancel _ _ | Stop => True
  end.
Inductive history (allowed : Event -> Prop) (start : DirectionInner) : list Grant -> list (Z * Z) -> DirectionInner -> Prop :=
| history_start : history allowed start [] [] start
| history_event gs rs d e d' gs' rs' : history allowed start gs rs d -> allowed e -> valid e d -> apply e d = (d', (gs', rs')) ->
    history allowed start (gs ++ gs') (rs ++ rs') d'.

Lemma allocate_release_wf is_closed send_fails waited s : wf s -> wf (allocate false is_closed send_fails waited s).1.
Proof.
  intros Hwf. pose proof (allocate_ok false is_closed send_fails waited s Hwf ltac:(done)) as H. unfold wp in H.
  destruct (allocate _ _ _ _ s) as [s' [r|e| |]]; try done. destruct H as (p & Hp & _). by eapply po_wf.
Qed.
Lemma apply_wf e d : valid e d -> wf (state d) -> wf (state (apply e d).1).
Proof.
  intros Hv Hwf. destruct e; cbn [apply valid fst] in *.
  - apply register_wf; tauto.
  - by apply unregister_wf.
  - apply set_session_limit_wf; tauto.
  - apply set_torrent_limit_wf; tauto.
  - unfold acquire_locked. pose proof (queue_wf id requested now _ ltac:(tauto) (advance_wf now _ Hwf)) as H. destruct (queue _ _ _ _) as [s r]. done.
  - unfold cancel_request. cbn. by apply cancel_wf.
  - apply complete_grant_wf; tauto.
  - unfold run_once. destruct (stopped d); [by apply advance_wf|].
    pose proof (allocate_release_wf is_closed send_fails waited_micros _ (advance_wf now _ Hwf)) as H. destruct (allocate _ _ _ _ _) as [s r]. done.
  - by apply advance_wf.
  - by apply stop_wf.
Qed.

(** ** What flows through a bucket *)
Definition flow (b b' : TokenBucket) (elapsed granted returned : Z) : Prop :=
  limit b' = limit b /\ forall rate, limit b = Some rate -> credit b' + CREDIT_SCALE * granted <= credit b + rate * elapsed + CREDIT_SCALE * returned.
Lemma flow_refl b : flow b b 0 0 0.
Proof. split; [done|]. intros. lia. Qed.
Lemma flow_trans b1 b2 b3 e1 e2 g1 g2 r1 r2 e g r : flow b1 b2 e1 g1 r1 -> flow b2 b3 e2 g2 r2 -> e = e1 + e2 -> g = g1 + g2 -> r = r1 + r2 -> flow b1 b3 e g r.
Proof. intros [L1 F1] [L2 F2] -> -> ->. split; [congruence|]. intros rate Hr. specialize (F1 rate Hr). rewrite L1 in F2. specialize (F2 rate Hr). lia. Qed.
Lemma flow_advance elapsed e b : 0 <= elapsed <= e -> bucket_ok b -> flow b (bucket_advance elapsed b) e 0 0.
Proof.
  intros He Hb. split; [apply bucket_advance_limit|]. intros rate Hr. pose proof (bucket_advance_credit elapsed b rate ltac:(lia) Hb Hr).
  destruct Hb as [Hl _]. rewrite Hr in Hl. destruct Hl as [? _]. numbers. nia.
Qed.
Lemma flow_refund bytes b : 0 <= bytes -> bucket_ok b -> flow b (refund bytes b) 0 0 bytes.
Proof. intros He Hb. split; [apply refund_limit|]. intros rate Hr. pose proof (refund_credit bytes b rate He Hb Hr). lia. Qed.
Lemma flow_charged b b' n : charged b b' n -> flow b b' 0 n 0.
Proof. intros [Hl Hc]. split; [done|]. intros rate Hr. assert (limit b <> None) as Hne by (rewrite Hr; done). specialize (Hc Hne). lia. Qed.

(** The bucket of a torrent. *)
Definition bucket_at (id : Z) (s : DirectionState) : option TokenBucket := bucket <$> torrents s !! id.
Lemma bucket_at_ok id s b : wf s -> bucket_at id s = Some b -> bucket_ok b.
Proof. intros Hwf (t & Ht & ->)%fmap_Some. apply to_bucket. by apply (lk_torrent s (wf_links s Hwf) id). Qed.
Lemma bucket_at_advance id now s : bucket_at id (advance_to_now now s) = bucket_advance (elapsed_since now s) <$> bucket_at id s.
Proof. unfold bucket_at. rewrite advance_eq. cbn. rewrite lookup_fmap. by destruct (torrents s !! id). Qed.
Lemma bucket_at_insert id k t s s' : torrents s' = <[k := t]> (torrents s) -> (k = id -> bucket_at id s = Some (bucket t)) -> bucket_at id s' = bucket_at id s.
Proof.
  intros Et Hk. unfold bucket_at in *. rewrite Et. destruct (decide (k = id)) as [->|Hne]; [rewrite lookup_insert_eq; cbn; by rewrite Hk|by rewrite lookup_insert_ne].
Qed.
Lemma elapsed_le now s : last_advanced s <= now -> 0 <= elapsed_since now s <= now - last_advanced s.
Proof. unfold elapsed_since, saturating_sub. numbers. lia. Qed.
Lemma session_advance_flow now s : wf s -> last_advanced s <= now -> flow (session s) (session (advance_to_now now s)) (now - last_advanced s) 0 0.
Proof. intros Hwf Hn. rewrite advance_eq. cbn [session]. apply flow_advance; [by apply elapsed_le|by apply wf_session]. Qed.
Lemma torrent_advance_flow id now s b : wf s -> last_advanced s <= now -> bucket_at id s = Some b ->
  exists b', bucket_at id (advance_to_now now s) = Some b' /\ flow b b' (now - last_advanced s) 0 0.
Proof.
  intros Hwf Hn Hb. rewrite bucket_at_advance, Hb. eexists. split; [done|]. apply flow_advance; [by apply elapsed_le|by eapply bucket_at_ok].
Qed.
Lemma queue_frame id requested now s : session (queue id requested now s).1 = session s /\ last_advanced (queue id requested now s).1 = last_advanced s /\
  (forall k, bucket_at k (queue id requested now s).1 = bucket_at k s).
Proof.
  rewrite queue_eq. destruct (_ <=? _); [done|]. destruct (torrents s !! id) as [t|] eqn:Ht; [|done]. split; [done|]. split; [done|]. intros k.
  eapply bucket_at_insert; [done|]. intros <-. unfold bucket_at. by rewrite Ht.
Qed.
Lemma cancel_frame id request s : session (cancel id request s).1 = session s /\ last_advanced (cancel id request s).1 = last_advanced s /\
  (forall k, bucket_at k (cancel id request s).1 = bucket_at k s).
Proof.
  unfold cancel. destruct (torrents s !! id) as [t|] eqn:Ht; [|done]. destruct (remove_request request (waiters t)) as [[r rest]|]; [|done].
  destruct (bool_decide (rest = [])); (split; [done|]; split; [done|]); intros k; (eapply bucket_at_insert; [done|]); intros <-; unfold bucket_at; by rewrite Ht.
Qed.
Lemma stop_frame s : session (stop s) = session s /\ last_advanced (stop s) = last_advanced s /\ (forall k, bucket_at k (stop s) = bucket_at k s).
Proof. split; [done|]. split; [done|]. intros k. unfold bucket_at, stop. cbn. rewrite lookup_fmap. by destruct (torrents s !! k). Qed.
Lemma unregister_frame id d : session (state (unregister id d)) = session (state d) /\ last_advanced (state (unregister id d)) = last_advanced (state d) /\
  (forall k, k <> id -> bucket_at k (state (unregister id d)) = bucket_at k (state d)).
Proof.
  unfold unregister. destruct (torrents (state d) !! id) as [t|] eqn:Ht; (split; [done|]; split; [done|]); intros k Hk; unfold bucket_at; cbn; [by rewrite lookup_delete_ne|done].
Qed.
Lemma register_frame id l now d : let s := state (register id l now d).1 in
  (s = state d \/ (session s = session (advance_to_now now (state d)) /\ last_advanced s = now /\ (forall k, k <> id -> bucket_at k s = bucket_at k (advance_to_now now (state d))))).
Proof.
  unfold register. destruct (stopped d); [by left|]. right. destruct (_ <=? _); [done|]. split; [done|]. split; [done|]. intros k Hk. unfold bucket_at. cbn.
  by rewrite lookup_insert_ne.
Qed.
Lemma run_frame is_closed send_fails waited now d d' gs rs : wf (state d) -> apply (Turn is_closed send_fails waited now) d = (d', (gs, rs)) ->
  let s := advance_to_now now (state d) in
  last_advanced (state d') = now /\ rs = [] /\ charged (session s) (session (state d')) (spent gs) /\
  (forall k b, bucket_at k s = Some b -> exists b', bucket_at k (state d') = Some b' /\ charged b b' (spent_by k gs)).
Proof.
  intros Hwf. cbn [apply]. unfold run_once. set (s := advance_to_now now (state d)). assert (wf s) as Hs by (by apply advance_wf). assert (last_advanced s = now) as Hclock by done. clearbody s. cbv zeta.
  destruct (stopped d).
  - intros [= <- <- <-]. split; [done|]. split; [done|]. split; [apply charged_refl|]. intros k b Hb. exists b. split; [done|apply charged_refl].
  - pose proof (allocate_ok false is_closed send_fails waited s Hs ltac:(done)) as H. unfold wp in H.
    destruct (allocate _ _ _ _ s) as [s' [[o gs']|e| |]]; try done. destruct H as (p & Hp & Eg & _). cbn [snd] in Eg. intros [= <- <- <-]. cbn [state set_state]. rewrite Eg.
    split; [by rewrite (po_clock _ _ _ _ Hp)|]. split; [done|]. split; [by eapply po_session|]. intros k b (t & Ht & ->)%fmap_Some.
    destruct (po_kept _ _ _ _ Hp k) as [t' Ht']; [by exists t|]. destruct (po_torrents _ _ _ _ Hp k t' Ht') as (t0 & Ht0 & Hc & _). rewrite Ht in Ht0. injection Ht0 as <-.
    exists (bucket t'). split; [unfold bucket_at; by rewrite Ht'|done].
Qed.
Definition returned_by (id : Z) (rs : list (Z * Z)) : Z := sum_on snd (filter (fun r => r.1 = id) rs).
Definition keeps_session_limit (e : Event) : Prop := match e with SessionLimit _ _ => False | _ => True end.
Definition keeps_torrent_limit (id : Z) (e : Event) : Prop :=
  match e with Register k _ _ | Unregister k | TorrentLimit k _ _ => k <> id | _ => True end.
Lemma complete_frame id bytes now d : 0 <= bytes -> wf (state d) -> let s := advance_to_now now (state d) in let s' := state (complete_grant id bytes now d) in
  session s' = refund bytes (session s) /\ last_advanced s' = now /\ (forall k, bucket_at k s' = if decide (k = id) then refund bytes <$> bucket_at k s else bucket_at k s).
Proof.
  intros Hb Hwf s. unfold complete_grant. fold s. assert (last_advanced s = now) as Hclock by done. clearbody s. cbv zeta. cbn [state set_state torrents set_session].
  destruct (torrents s !! id) as [t|] eqn:Ht.
  - split; [by destruct (_ && _)|]. split; [by destruct (_ && _)|]. intros k. destruct (decide (k = id)) as [->|Hne]; unfold bucket_at; destruct (_ && _); cbn;
      [by rewrite lookup_insert_eq, Ht|by rewrite lookup_insert_eq, Ht|by rewrite lookup_insert_ne|by rewrite lookup_insert_ne].
  - split; [done|]. split; [done|]. intros k. destruct (decide (k = id)) as [->|Hne]; [|done]. unfold bucket_at. cbn. by rewrite Ht.
Qed.
Lemma flow_same b b' e : 0 <= e -> bucket_ok b -> b' = b -> flow b b' e 0 0.
Proof. intros He Hb ->. split; [done|]. intros rate Hr. destruct Hb as [Hl _]. rewrite Hr in Hl. destruct Hl as [? _]. numbers. nia. Qed.
Lemma apply_session_flow e d d' gs rs : valid e d -> wf (state d) -> keeps_session_limit e -> apply e d = (d', (gs, rs)) ->
  flow (session (state d)) (session (state d')) (last_advanced (state d') - last_advanced (state d)) (spent gs) (sum_on snd rs).
Proof.
  intros Hv Hwf Hk He. pose proof (wf_session _ Hwf) as Hses. destruct e as [id l now|id|l now|id l now|id requested now|id request|id bytes now|is_closed send_fails waited now|now|];
    cbn [valid keeps_session_limit] in *; try done.
  - injection He as <- <- <-. destruct (register_frame id l now d) as [-> | (-> & -> & _)]; [apply flow_same; [lia|done|done]|]. apply session_advance_flow; tauto.
  - injection He as <- <- <-. destruct (unregister_frame id d) as (-> & -> & _). apply flow_same; [lia|done|done].
  - injection He as <- <- <-. apply (session_advance_flow now); tauto.
  - injection He as <- <- <-. unfold acquire_locked. pose proof (queue_frame id requested now (advance_to_now now (state d))) as (Es & Ec & _).
    destruct (queue _ _ _ _) as [s r]. cbn [fst state set_state] in *. rewrite Es, Ec. apply session_advance_flow; tauto.
  - injection He as <- <- <-. unfold cancel_request. cbn [state set_state]. pose proof (cancel_frame id request (state d)) as (-> & -> & _). apply flow_same; [lia|done|done].
  - injection He as <- <- <-. destruct (complete_frame id bytes now d ltac:(tauto) Hwf) as (-> & -> & _). cbn [sum_on foldr snd spent].
    eapply flow_trans; [apply (session_advance_flow now); tauto|apply flow_refund; [|apply wf_session, advance_wf, Hwf]; tauto|lia|done|lia].
  - destruct (run_frame _ _ _ _ _ _ _ _ Hwf He) as (-> & -> & Hc & _). eapply flow_trans; [apply (session_advance_flow now); tauto|apply flow_charged, Hc|lia|done|done].
  - injection He as <- <- <-. by apply session_advance_flow.
  - injection He as <- <- <-. unfold inner_stop. destruct (stopped d); apply flow_same; try done; cbn; lia.
Qed.
Lemma torrent_same id s s' b e : bucket_at id s' = bucket_at id s -> 0 <= e -> wf s -> bucket_at id s = Some b -> exists b', bucket_at id s' = Some b' /\ flow b b' e 0 0.
Proof. intros Es He Hwf Hb. exists b. split; [by rewrite Es|]. apply flow_same; [done|by eapply bucket_at_ok|done]. Qed.
Lemma apply_torrent_flow id e d d' gs rs b : valid e d -> wf (state d) -> keeps_torrent_limit id e -> apply e d = (d', (gs, rs)) -> bucket_at id (state d) = Some b ->
  exists b', bucket_at id (state d') = Some b' /\ flow b b' (last_advanced (state d') - last_advanced (state d)) (spent_by id gs) (returned_by id rs).
Proof.
  intros Hv Hwf Hk He Hb. destruct e as [k l now|k|l now|k l now|k requested now|k request|k bytes now|is_closed send_fails waited now|now|];
    cbn [valid keeps_torrent_limit] in *.
  - injection He as <- <- <-. destruct (register_frame k l now d) as [-> | (_ & -> & E)]; [apply (torrent_same id (state d)); [done|lia|done|done]|].
    rewrite E by congruence. apply torrent_advance_flow; tauto.
  - injection He as <- <- <-. destruct (unregister_frame k d) as (_ & -> & E). apply (torrent_same id (state d)); [apply E; congruence|lia|done|done].
  - injection He as <- <- <-. apply (torrent_advance_flow id now); tauto.
  - injection He as <- <- <-. destruct (torrent_advance_flow id now (state d) b Hwf ltac:(tauto) Hb) as (b' & Hb' & Hf). exists b'. split; [|exact Hf].
    rewrite <- Hb'. unfold set_torrent_limit, bucket_at. cbn [state set_state torrents set_torrents]. by rewrite lookup_alter_ne.
  - injection He as <- <- <-. unfold acquire_locked. pose proof (queue_frame k requested now (advance_to_now now (state d))) as (_ & Ec & E).
    destruct (queue _ _ _ _) as [s r]. cbn [fst state set_state] in *. rewrite E, Ec. apply torrent_advance_flow; tauto.
  - injection He as <- <- <-. unfold cancel_request. cbn [state set_state]. pose proof (cancel_frame k request (state d)) as (_ & -> & E).
    apply (torrent_same id (state d)); [apply E|lia|done|done].
  - injection He as <- <- <-. destruct (complete_frame k bytes now d ltac:(tauto) Hwf) as (_ & -> & E). rewrite E.
    destruct (torrent_advance_flow id now (state d) b Hwf ltac:(tauto) Hb) as (b' & Hb' & Hf). rewrite Hb'. unfold returned_by. rewrite filter_cons, filter_nil. cbn [fst].
    destruct (decide (id = k)) as [->|Hne].
    + rewrite decide_True by done. eexists. split; [done|]. eapply flow_trans; [exact Hf|apply (flow_refund bytes)|lia|done|cbn; lia]; [tauto|].
      eapply bucket_at_ok; [by apply advance_wf|done].
    + rewrite decide_False by congruence. exists b'. split; [done|exact Hf].
  - destruct (run_frame _ _ _ _ _ _ _ _ Hwf He) as (-> & -> & _ & Hc). destruct (torrent_advance_flow id now (state d) b Hwf Hv Hb) as (b1 & Hb1 & Hf1).
    destruct (Hc id b1 Hb1) as (b2 & Hb2 & Hf2). exists b2. split; [done|]. eapply flow_trans; [exact Hf1|apply flow_charged, Hf2|lia|done|done].
  - injection He as <- <- <-. by apply (torrent_advance_flow id now).
  - injection He as <- <- <-. unfold inner_stop. destruct (stopped d); [apply (torrent_same id (state d)); [done|lia|done|done]|].
    cbn [state]. destruct (stop_frame (state d)) as (_ & -> & E). apply (torrent_same id (state d)); [apply E|lia|done|done].
Qed.
(** What a history lets through. *)
Definition session_flow_of (start d : DirectionInner) (gs : list Grant) (rs : list (Z * Z)) : Prop :=
  flow (session (state start)) (session (state d)) (last_advanced (state d) - last_advanced (state start)) (spent gs) (sum_on snd rs).
Lemma spent_app gs gs' : spent (gs ++ gs') = spent gs + spent gs'.
Proof. apply sum_on_app. Qed.
Lemma spent_by_app id gs gs' : spent_by id (gs ++ gs') = spent_by id gs + spent_by id gs'.
Proof. unfold spent_by. by rewrite filter_app, sum_on_app. Qed.
Lemma returned_by_app id rs rs' : returned_by id (rs ++ rs') = returned_by id rs + returned_by id rs'.
Proof. unfold returned_by. by rewrite filter_app, sum_on_app. Qed.
Lemma history_wf allowed start gs rs d : wf (state start) -> history allowed start gs rs d -> wf (state d).
Proof. intros Hwf. induction 1 as [|gs rs d e d' gs' rs' Hh IH Ha Hv He]; [done|]. pose proof (apply_wf e d Hv IH) as H. by rewrite He in H. Qed.
Lemma history_session start gs rs d : wf (state start) -> history keeps_session_limit start gs rs d -> session_flow_of start d gs rs.
Proof.
  intros Hwf. induction 1 as [|gs rs d e d' gs' rs' Hh IH Ha Hv He].
  - unfold session_flow_of. rewrite Z.sub_diag. apply flow_refl.
  - pose proof (history_wf _ _ _ _ _ Hwf Hh) as Hd. eapply flow_trans; [exact IH|by apply (apply_session_flow e d d' gs' rs')|lia|by rewrite spent_app|by rewrite sum_on_app].
Qed.
Lemma history_torrent id start gs rs d b : wf (state start) -> history (keeps_torrent_limit id) start gs rs d -> bucket_at id (state start) = Some b ->
  exists b', bucket_at id (state d) = Some b' /\ flow b b' (last_advanced (state d) - last_advanced (state start)) (spent_by id gs) (returned_by id rs).
Proof.
  intros Hwf Hh Hb. induction Hh as [|gs rs d e d' gs' rs' Hh IH Ha Hv He].
  - exists b. rewrite Z.sub_diag. split; [done|apply flow_refl].
  - pose proof (history_wf _ _ _ _ _ Hwf Hh) as Hd. destruct IH as (b1 & Hb1 & Hf1). destruct (apply_torrent_flow id e d d' gs' rs' b1 Hv Hd Ha He Hb1) as (b2 & Hb2 & Hf2).
    exists b2. split; [done|]. eapply flow_trans; [exact Hf1|exact Hf2|lia|by rewrite spent_by_app|by rewrite returned_by_app].
Qed.
(** A bucket never holds more than its burst, so a flow is bounded. *)
Lemma flow_bound b b' rate elapsed granted returned : bucket_ok b -> bucket_ok b' -> limit b = Some rate -> flow b b' elapsed granted returned ->
  CREDIT_SCALE * (granted - returned) <= CREDIT_SCALE * Z.min rate MAX_BANDWIDTH_BURST_BYTES + rate * elapsed.
Proof.
  intros [_ Hb] [_ Hb'] Hr [_ Hf]. specialize (Hf rate Hr). unfold capacity_credit in Hb. rewrite Hr in Hb. lia.
Qed.

(** ** Turns *)
(** Where an identity stands in the queue. *)
Fixpoint rank (id : Z) (q : list Z) : nat :=
  match q with [] => O | k :: q => if decide (k = id) then O else S (rank id q) end.
Lemma rank_sublist id q q' : q' `sublist_of` q -> NoDup q -> id ∈ q' -> (rank id q' <= rank id q)%nat.
Proof.
  induction 1 as [|k q' q Hs IH|k q' q Hs IH]; intros Hnd Hid; [done| |]; apply NoDup_cons in Hnd as [Hk Hnd].
  - cbn. destruct (decide (k = id)) as [->|Hne]; [lia|]. apply elem_of_cons in Hid as [?|Hid]; [congruence|]. specialize (IH Hnd Hid). lia.
  - cbn. destruct (decide (k = id)) as [->|Hne]; [|specialize (IH Hnd Hid); lia]. exfalso. apply Hk. by eapply elem_of_sublist.
Qed.
Lemma rank_app id q x : id ∈ q -> rank id (q ++ x) = rank id q.
Proof.
  induction q as [|k q IH]; intros Hid; [by apply elem_of_nil in Hid|]. cbn. destruct (decide (k = id)); [done|].
  apply elem_of_cons in Hid as [?|Hid]; [congruence|]. by rewrite IH.
Qed.
Lemma rank_head_gone id k q q' : q' `sublist_of` k :: q -> NoDup (k :: q) -> k ∉ q' -> id ∈ q' -> (S (rank id q') <= rank id (k :: q))%nat.
Proof.
  intros Hs Hnd Hk Hid. assert (k <> id) as Hne by congruence. cbn. rewrite decide_False by done. apply NoDup_cons in Hnd as [_ Hnd].
  apply sublist_cons_r in Hs as [Hs|(l & -> & _)]; [|exfalso; apply Hk, list_elem_of_here]. pose proof (rank_sublist id q q' Hs Hnd Hid). lia.
Qed.
(** A pass never reaches the limit of grants: each torrent is granted once. *)
Lemma queue_small s : wf s -> (length (ready_queue s) <= size (torrents s))%nat.
Proof.
  intros Hwf. rewrite <- length_map_to_list, <- (length_fmap fst (map_to_list (torrents s))). apply submseteq_length, NoDup_submseteq; [apply lk_nodup, wf_links, Hwf|].
  intros id Hid. apply (lk_queue s (wf_links s Hwf)) in Hid. unfold is_ready in Hid. destruct (torrents s !! id) as [t|] eqn:Ht; [|done].
  apply list_elem_of_fmap. exists (id, t). split; [done|]. by apply elem_of_map_to_list.
Qed.
Lemma pass_small debug s p s' : wf s -> pass_ok debug s p s' -> len (sent p) < MAX_GRANTS_PER_PASS.
Proof.
  intros Hwf Hp. pose proof (queue_small s Hwf) as Hq. pose proof (wf_registered s Hwf) as Hsz.
  assert (length (g_torrent <$> sent p) <= length (ready_queue s))%nat as Hlen.
  { apply submseteq_length, NoDup_submseteq; [by eapply po_once|]. intros id (g & -> & Hg)%list_elem_of_fmap. by eapply po_from. }
  rewrite length_fmap in Hlen. unfold len, MAX_GRANTS_PER_PASS, MAX_BANDWIDTH_WAITERS, MAX_BANDWIDTH_REGISTRATIONS in *. lia.
Qed.
Section turn.
Context (debug : bool) (is_closed send_fails : Z -> bool) (waited_micros : PendingRequest -> Z).
(** With a byte available in both buckets the head of the queue is served. *)
Lemma serve_head p s id q t r rest : ready_queue s = id :: q -> torrents s !! id = Some t -> waiters t = r :: rest -> is_closed (request_id r) = false ->
  send_fails (request_id r) = false -> wf s -> (debug = true -> grants_returned s) -> 1 <= available (session s) -> 1 <= available (bucket t) ->
  wp (serve_next debug is_closed send_fails waited_micros p) s
    (fun p' s' => exists bytes, 1 <= bytes <= wanted_bytes r /\ p' = note_grant (mkGrant id (request_id r) bytes) p) (fun _ _ => False).
Proof.
  intros Hq Ht Hw Hc Hf Hwf Hr Ha1 Ha2. destruct (queue_head s id q (wf_links s Hwf) Hq) as (t' & Ht' & Hready). rewrite Ht in Ht'. injection Ht' as <-.
  pose proof (lk_torrent s (wf_links s Hwf) id t Ht) as Hok. pose proof (to_sizes t Hok) as Hsz. rewrite Hw in Hsz. apply Forall_cons in Hsz as [Hreq _].
  unfold serve_next. do 2 wp_step. rewrite Hq. do 2 wp_step. rewrite Ht. do 2 wp_step. rewrite Hw. cbn [drop_closed]. rewrite Hc. do 2 wp_step.
  unfold serve_request. do 3 wp_step. rewrite debug_assert_ok by (intros Hd; by rewrite (Hr Hd id t)). wp_step. cbn [session set_snapshot set_torrents set_queue].
  set (bytes := Z.min (Z.min (Z.min (wanted_bytes r) MAX_BANDWIDTH_GRANT_BYTES) (available (session s))) (available (bucket t))).
  assert (1 <= bytes <= MAX_BANDWIDTH_GRANT_BYTES /\ bytes <= available (session s) /\ bytes <= available (bucket t) /\ bytes <= wanted_bytes r) as Hbytes by (numbers; lia).
  replace (bytes =? 0) with false by (symmetry; lia).
  destruct (consume_spec (E := BandwidthError) debug bytes (session s) (wf_session s Hwf) ltac:(lia) ltac:(lia)) as (paid & Epaid & _).
  destruct (consume_spec (E := BandwidthError) debug bytes (bucket t) (to_bucket t Hok) ltac:(lia) ltac:(lia)) as (rem & Erem & _).
  wp_step. rewrite Epaid. do 4 wp_step. rewrite Erem. do 3 wp_step. rewrite Hf. cbn [negb]. do 3 wp_step. exists bytes. split; [lia|done].
Qed.
Lemma allocate_serves_head s id q t r rest : ready_queue s = id :: q -> torrents s !! id = Some t -> waiters t = r :: rest -> is_closed (request_id r) = false ->
  send_fails (request_id r) = false -> wf s -> (debug = true -> grants_returned s) -> 1 <= available (session s) -> 1 <= available (bucket t) ->
  wp (allocate debug is_closed send_fails waited_micros) s (fun x s' => exists bytes gs, 1 <= bytes <= wanted_bytes r /\ x.2 = mkGrant id (request_id r) bytes :: gs) (fun _ _ => False).
Proof.
  intros Hq Ht Hw Hc Hf Hwf Hr Ha1 Ha2. pose proof (pass_start debug s Hwf Hr) as Hpass. unfold allocate. cbn [allocate_rounds]. do 2 wp_step. rewrite Hq. cbn [length].
  wp_step; [|].
  { apply bool_decide_eq_true in Heqb. done. }
  wp_step. cbn [sent shortest_wait serve_round]. wp_step.
  eapply wp_mono; [apply wp_conj; [by eapply serve_head|by eapply (serve_next_ok _ _ _ _ s _ s Hpass); rewrite Hq]| |by intros ? ? []]. cbv beta.
  intros p1 s1 [(bytes & Hbytes & ->) [Hp1 [_ (id' & q' & Eq & Hq1)]]]. rewrite Hq in Eq. injection Eq as <- <-. cbn [sent note_grant app]. change (len (@nil Grant)) with 0.
  change (len [mkGrant id (request_id r) bytes]) with 1. change (MAX_GRANTS_PER_PASS <=? 1) with false. rewrite andb_false_r.
  assert (exists b', ready_queue s1 = q ++ b') as [b' Hb'] by (destruct Hq1 as [-> | ->]; [exists []; by rewrite app_nil_r|by exists [id]]).
  eapply wp_mono; [eapply (serve_round_ok _ _ _ _ s (length q) _ s1 q b' Hp1 Hb' eq_refl); done| |done]. cbv beta. intros [p2|p2] s2.
  - intros (H1 & H2 & [gs Hgs]). wp_step. exists bytes, gs; by rewrite Hgs.
  - intros (H1 & H2 & [gs Hgs] & H4 & _). destruct (progress p2) eqn:Hp; cbn [negb]; [|wp_step; exists bytes, gs; by rewrite Hgs].
    eapply wp_mono; [eapply (allocate_rounds_ok _ _ _ _ s _ p2 s2 H1 H2)| |done].
    + rewrite Z2Nat.id by done. rewrite Hgs. cbn [sent note_grant app]. rewrite len_cons. pose proof (len_nonneg gs). lia.
    + cbv beta. intros x s3 (p3 & _ & Ex & [gs' Hgs'] & _). exists bytes, (gs ++ gs'); by rewrite Ex, Hgs', Hgs.
Qed.
End turn.

(** * Properties *)

(** C9: the session's limit holds over every window of time: between two
    moments of a history in which the limit stays [rate], the bytes granted
    less the bytes given back are at most the burst, [min rate 1 MiB], and
    [rate] bytes for every second that passed.  This is so for any
    interleaving of registrations, requests, cancellations, turns of the
    allocator, returns of unused quota and changes of torrents' limits. *)
Theorem session_rate_bound start d gs rs rate : wf (state start) -> limit (session (state start)) = Some rate -> history keeps_session_limit start gs rs d ->
  CREDIT_SCALE * (spent gs - sum_on snd rs) <= CREDIT_SCALE * Z.min rate MAX_BANDWIDTH_BURST_BYTES + rate * (last_advanced (state d) - last_advanced (state start)).
Proof.
  intros Hwf Hr Hh. eapply flow_bound; [by apply wf_session|by eapply wf_session, history_wf|done|]. by apply history_session.
Qed.

(** a torrent's limit holds in the same way for the grants made to it, as
    long as it stays registered with the same limit, whatever the other
    torrents do and however the session's limit changes. *)
Theorem torrent_rate_bound id start d gs rs t rate : wf (state start) -> torrents (state start) !! id = Some t -> limit (bucket t) = Some rate ->
  history (keeps_torrent_limit id) start gs rs d ->
  CREDIT_SCALE * (spent_by id gs - returned_by id rs) <= CREDIT_SCALE * Z.min rate MAX_BANDWIDTH_BURST_BYTES + rate * (last_advanced (state d) - last_advanced (state start)).
Proof.
  intros Hwf Ht Hr Hh. assert (bucket_at id (state start) = Some (bucket t)) as Hb by (unfold bucket_at; by rewrite Ht).
  destruct (history_torrent id start gs rs d (bucket t) Hwf Hh Hb) as (b' & Hb' & Hf).
  eapply flow_bound; [by eapply bucket_at_ok|by eapply bucket_at_ok; [eapply history_wf|]|done|done].
Qed.

(** C17: no waiting request is forgotten.  After any history (whose turns are
    those of a release build) the queue holds the
    ready torrents, each once; a torrent with a waiting request is ready or
    has a grant out, whose return makes it ready; the counters are the number
    and the bytes of the waiting requests, at most 4096 of them; and every
    bucket holds between nothing and its burst. *)
Theorem bandwidth_invariant l now gs rs d : limit_ok l -> history (fun _ => True) (DirectionInner_new l now) gs rs d -> wf (state d).
Proof. intros Hl. apply history_wf. by apply state_new_wf. Qed.

(** C30: an allocation returns, in a release build always and in a debug build
    when no ready torrent has a grant out.  It grants each torrent at most
    once, every grant is for a request that waits and is not larger, and the
    session and every torrent pay for exactly what they are granted.  It says
    [Idle] only when it granted nothing and nobody is ready, and otherwise
    has granted something or asks to be woken after at most a millisecond. *)
Theorem allocation_correct debug is_closed send_fails waited now d : wf (state d) -> stopped d = false -> (debug = true -> grants_returned (state d)) ->
  let s := advance_to_now now (state d) in
  exists d' outcome gs, run_once debug is_closed send_fails waited now d = (d', Some (Ok (outcome, gs))) /\
    wf (state d') /\ (debug = true -> grants_returned (state d')) /\
    NoDup (g_torrent <$> gs) /\ Forall (answers s) gs /\ charged (session s) (session (state d')) (spent gs) /\
    (forall id t, torrents (state d') !! id = Some t -> exists t0, torrents s !! id = Some t0 /\ charged (bucket t0) (bucket t) (spent_by id gs)) /\
    match outcome with
    | Idle => gs = [] /\ ready_queue (state d') = []
    | Wait delay => 1 <= delay <= MAX_WAIT
    | Yield => gs <> []
    end.
Proof.
  intros Hwf Hst Hr s. assert (wf s) as Hs by (by apply advance_wf). unfold run_once. rewrite Hst. fold s.
  pose proof (allocate_ok debug is_closed send_fails waited s Hs) as H. unfold wp in H. destruct (allocate _ _ _ _ s) as [s' [[o gs]|e| |]]; try (exfalso; apply H; intros Hd; by apply advance_returned, Hr).
  destruct H as (p & Hp & Eg & _ & Ho & _); [intros Hd; by apply advance_returned, Hr|]. cbn [fst snd] in *. subst gs. exists (set_state s' d), o, (sent p). split; [done|]. cbn [state set_state].
  split; [by eapply po_wf|]. split; [by eapply po_returned|]. split; [by eapply po_once|]. split; [by eapply po_answers|]. split; [by eapply po_session|]. split; [|done].
  intros id t Ht. destruct (po_torrents _ _ _ _ Hp id t Ht) as (t0 & Ht0 & Hc & _). by exists t0.
Qed.

(** C18: turns are fair.  In a running direction, a turn a millisecond or more after
    the clock was last read (in a debug build, when no ready torrent has a
    grant out) gives a grant to the torrent at the head of the queue whose
    first request still has a receiver, whatever the limits are, and brings every torrent still in the queue at least one
    place nearer to the head. *)
Theorem head_is_served debug is_closed send_fails waited now d id q t r rest :
  wf (state d) -> stopped d = false -> (debug = true -> grants_returned (state d)) -> last_advanced (state d) + MAX_WAIT <= now ->
  ready_queue (state d) = id :: q -> torrents (state d) !! id = Some t -> waiters t = r :: rest -> is_closed (request_id r) = false -> send_fails (request_id r) = false ->
  exists d' outcome bytes gs, run_once debug is_closed send_fails waited now d = (d', Some (Ok (outcome, mkGrant id (request_id r) bytes :: gs))) /\
    1 <= bytes <= wanted_bytes r /\
    forall k, k ∈ ready_queue (state d') -> (S (rank k (ready_queue (state d'))) <= rank k (id :: q))%nat.
Proof.
  intros Hwf Hst Hr Hnow Hq Ht Hw Hc Hf. set (s := advance_to_now now (state d)). assert (wf s) as Hs by (by apply advance_wf).
  assert (debug = true -> grants_returned s) as Hret by (intros Hd; by apply advance_returned, Hr).
  assert (MAX_WAIT <= elapsed_since now (state d)) as He by (unfold elapsed_since, saturating_sub, MAX_WAIT in *; numbers; lia).
  set (t' := set_bucket (bucket_advance (elapsed_since now (state d)) (bucket t)) t).
  assert (torrents s !! id = Some t') as Ht' by (unfold s; rewrite advance_eq; cbn; by rewrite lookup_fmap, Ht).
  assert (1 <= available (session s)) as Ha1 by exact (advance_available _ _ He (wf_session _ Hwf)).
  assert (1 <= available (bucket t')) as Ha2 by exact (advance_available _ _ He (to_bucket _ (lk_torrent _ (wf_links _ Hwf) id t Ht))).
  pose proof (wp_conj _ _ _ _ _ _ (allocate_ok debug is_closed send_fails waited s Hs Hret)
    (allocate_serves_head debug is_closed send_fails waited s id q t' r rest Hq Ht' Hw Hc Hf Hs Hret Ha1 Ha2)) as H.
  unfold run_once. rewrite Hst. fold s. unfold wp in H. destruct (allocate _ _ _ _ s) as [s' [[o gs]|e| |]]; [|tauto|tauto|tauto].
  destruct H as [(p & Hp & Eg & _ & _ & Hsub) (bytes & gs' & Hbytes & Eg')]. cbn [snd] in *. subst gs. exists (set_state s' d), o, bytes, gs'. rewrite Eg'. split; [done|].
  split; [done|]. cbn [state set_state]. intros k Hk. apply rank_head_gone; [|rewrite <- Hq; apply (lk_nodup _ (wf_links _ Hwf))| |done].
  - rewrite <- Hq. change (ready_queue (state d)) with (ready_queue s). apply Hsub. by eapply pass_small.
  - rewrite (lk_queue _ (wf_links _ (po_wf _ _ _ _ Hp))). assert (mkGrant id (request_id r) bytes ∈ sent p) as Hin by (rewrite Eg'; apply list_elem_of_here).
    apply (po_served _ _ _ _ Hp) in Hin. cbn in Hin. by rewrite Hin.
Qed.
Lemma without_sublist id q : without id q `sublist_of` q.
Proof. apply sublist_filter. Qed.
(** Events append to the queue or take away from it. *)
Lemma apply_queue e d : valid e d -> wf (state d) ->
  ready_queue (state (apply e d).1) `sublist_of` ready_queue (state d) \/ exists id, ready_queue (state (apply e d).1) = ready_queue (state d) ++ [id].
Proof.
  intros Hv Hwf. destruct e as [id l now|id|l now|id l now|id requested now|id request|id bytes now|is_closed send_fails waited now|now|]; cbn [apply fst valid] in *.
  - left. unfold register. destruct (stopped d); [done|]. by destruct (_ <=? _).
  - left. unfold unregister. destruct (torrents (state d) !! id); apply without_sublist.
  - by left.
  - by left.
  - unfold acquire_locked. pose proof (queue_eq id requested now (advance_to_now now (state d))) as E. destruct (queue _ _ _ _) as [s r]. cbn [fst state set_state].
    destruct (_ <=? _); [injection E as -> ->; by left|]. destruct (torrents _ !! id) as [t|]; injection E as -> ->; [|by left]. cbn.
    destruct (ready t); [by left|]. right. by exists id.
  - left. unfold cancel_request, cancel. destruct (torrents (state d) !! id) as [t|]; [|done]. destruct (remove_request request (waiters t)) as [[r rest]|]; [|done].
    destruct (bool_decide _); [apply without_sublist|done].
  - unfold complete_grant. cbn [state set_state torrents set_session]. destruct (torrents _ !! id) as [t|]; [|by left].
    destruct (_ && _); [right; by exists id|by left].
  - left. unfold run_once. destruct (stopped d); [done|]. pose proof (allocate_ok false is_closed send_fails waited (advance_to_now now (state d)) (advance_wf now _ Hwf) ltac:(done)) as H.
    unfold wp in H. destruct (allocate _ _ _ _ _) as [s' [[o gs]|e| |]]; try done. destruct H as (p & Hp & _ & _ & _ & Hs). apply Hs. eapply pass_small; [|exact Hp]. by apply advance_wf.
  - by left.
  - left. unfold inner_stop. destruct (stopped d); [done|]. apply sublist_nil_l.
Qed.
(** The identities a direction knows. *)
Lemma known_advance id now d : is_Some (torrents (advance_to_now now (state d)) !! id) <-> is_Some (torrents (state d) !! id).
Proof. rewrite advance_eq. cbn. rewrite lookup_fmap. apply fmap_is_Some. Qed.
Lemma register_keys id l now d : let '(d', r) := register id l now d in
  (exists e, r = Err e /\ forall k, is_Some (torrents (state d') !! k) <-> is_Some (torrents (state d) !! k)) \/
  (r = Ok tt /\ forall k, is_Some (torrents (state d') !! k) <-> is_Some (torrents (state d) !! k) \/ k = id).
Proof.
  unfold register. destruct (stopped d); [left; by eexists|]. destruct (_ <=? _).
  - left. eexists. split; [done|]. intros k. apply known_advance.
  - right. split; [done|]. intros k. cbn [state set_state torrents on_snapshot set_snapshot set_torrents]. destruct (decide (k = id)) as [->|Hne].
    + rewrite lookup_insert_eq. naive_solver.
    + rewrite lookup_insert_ne, known_advance by done. naive_solver.
Qed.
Lemma unregister_keys id d k : is_Some (torrents (state (unregister id d)) !! k) <-> is_Some (torrents (state d) !! k) /\ k <> id.
Proof.
  unfold unregister. destruct (torrents (state d) !! id) as [t|] eqn:Ht; cbn [state set_state torrents on_snapshot set_snapshot set_torrents set_queue].
  - destruct (decide (k = id)) as [->|Hne]; [rewrite lookup_delete_eq; naive_solver|rewrite lookup_delete_ne by done; naive_solver].
  - split; [|by intros []]. intros Hk. split; [done|]. intros ->. rewrite Ht in Hk. by destruct Hk.
Qed.

(** no event takes a torrent's place in the queue: as long as it stays in
    the queue its rank never grows, whatever is requested, cancelled,
    returned, registered or limited in the meantime. *)
Theorem events_keep_rank e d id : valid e d -> wf (state d) -> id ∈ ready_queue (state d) -> id ∈ ready_queue (state (apply e d).1) ->
  (rank id (ready_queue (state (apply e d).1)) <= rank id (ready_queue (state d)))%nat.
Proof.
  intros Hv Hwf Hid Hid'. destruct (apply_queue e d Hv Hwf) as [Hs|[x E]].
  - apply rank_sublist; [done|apply (lk_nodup _ (wf_links _ Hwf))|done].
  - rewrite E, rank_app by done. done.
Qed.

(** C32: a second request of a torrent whose grant is still out breaks the
    allocator.  [queue] makes the torrent ready without looking at
    [grant_in_flight], so the next turn finds a ready torrent with a grant
    out, and in a debug build the task panics on its own assertion. *)
Theorem second_request_panics d id t requested now request d1 is_closed send_fails waited later : stopped d = false ->
  torrents (state d) !! id = Some t -> grant_in_flight t = true -> ready t = false -> waiters t = [] -> ready_queue (state d) = [] ->
  acquire_locked id requested now d = (d1, Ok request) -> is_closed request = false ->
  exists d2, run_once true is_closed send_fails waited later d1 = (d2, Some Panic).
Proof.
  intros Hst Ht Hg Hr Hw Hq Ha Hc. unfold acquire_locked in Ha. rewrite queue_eq in Ha. destruct (_ <=? _); [done|].
  assert (torrents (advance_to_now now (state d)) !! id = Some (set_bucket (bucket_advance (elapsed_since now (state d)) (bucket t)) t)) as Ht1.
  { rewrite advance_eq. cbn. by rewrite lookup_fmap, Ht. }
  rewrite Ht1 in Ha. set (s1 := queued_state _ _ _ _ _) in Ha. injection Ha as <- <-. unfold run_once. cbn [stopped set_state state]. rewrite Hst.
  set (s2 := advance_to_now later s1). set (r := mkRequest (next_request_id (advance_to_now now (state d))) requested now).
  assert (ready_queue s2 = [id]) as Hq2 by (unfold s2, s1; rewrite advance_eq; cbn; by rewrite Hr, Hq).
  assert (exists t2, torrents s2 !! id = Some t2 /\ grant_in_flight t2 = true /\ waiters t2 = [r]) as (t2 & Ht2 & Hg2 & Hw2).
  { unfold s2, s1. rewrite advance_eq. cbn. rewrite lookup_fmap, lookup_insert_eq. eexists. split; [done|]. cbn. by rewrite Hw. }
  change (is_closed (request_id r) = false) in Hc. clearbody s2 r.
  assert (forall p, exists s3, serve_next true is_closed send_fails waited p s2 = (s3, Panic)) as Hnext.
  { intros p. unfold serve_next. rewrite get_bind, Hq2, modify_bind. cbv beta iota. rewrite Ht2, modify_bind. cbv beta iota. rewrite Hw2. cbn [drop_closed]. rewrite Hc, modify_bind.
    unfold serve_request. rewrite get_bind, Hg2. by eexists. }
  assert (exists s3, allocate true is_closed send_fails waited s2 = (s3, Panic)) as [s3 E3].
  { destruct (Hnext (mkPass [] None false)) as [s3 E3]. exists s3. unfold allocate. cbn [allocate_rounds]. rewrite get_bind, Hq2. cbn [length]. rewrite bool_decide_false by done.
    apply bind_panic. cbn [serve_round]. by apply bind_panic. }
  rewrite E3. by eexists.
Qed.

(** C33: a request that found the direction running, and takes the lock only
    after [stop], is queued, and no turn will ever answer it: the task has
    ended, and [stop] has already told the waiters it found. *)
Theorem request_after_stop_stays d id t torrent_limit requested bytes now : torrents (state d) !! id = Some t ->
  acquire_check torrent_limit requested d = inr bytes ->
  exists d2 request t2, acquire_locked id bytes now (inner_stop d) = (d2, Ok request) /\ torrents (state d2) !! id = Some t2 /\
    waiters t2 = [mkRequest request bytes now] /\
    forall debug is_closed send_fails waited later, let '(d3, r) := run_once debug is_closed send_fails waited later d2 in
      r = None /\ exists t3, torrents (state d3) !! id = Some t3 /\ waiters t3 = waiters t2.
Proof.
  intros Ht Hcheck. assert (stopped d = false) as Hst by (unfold acquire_check in Hcheck; by destruct (stopped d)). unfold inner_stop. rewrite Hst. set (d1 := mkInner (session_limit d) true (stop (state d))). unfold acquire_locked. rewrite queue_eq.
  change (waiting_requests (snapshot (advance_to_now now (state d1)))) with 0. cbn [Z.leb]. change (MAX_BANDWIDTH_WAITERS <=? 0) with false. cbv iota.
  assert (exists t1, torrents (advance_to_now now (state d1)) !! id = Some t1 /\ waiters t1 = []) as (t1 & Ht1 & Hw1).
  { rewrite advance_eq. unfold d1, stop. cbn. rewrite !lookup_fmap, Ht. by eexists. }
  rewrite Ht1. eexists _, _, (set_ready true (set_waiters (waiters t1 ++ [mkRequest _ bytes now]) t1)). split; [done|]. cbn [state set_state torrents queued_state].
  split; [by rewrite lookup_insert_eq|]. split; [cbn; by rewrite Hw1|]. intros debug is_closed send_fails waited later. unfold run_once. cbn [stopped set_state d1].
  split; [done|]. rewrite advance_eq. cbn [state set_state torrents queued_state]. rewrite lookup_fmap, lookup_insert_eq. by eexists.
Qed.

(** a torrent is registered with both directions or with neither.  After
    [register_torrent] a direction knows the torrents it knew and, if the
    call succeeded, the new one; the call never panics. *)
Theorem register_torrent_both_or_neither limits now b : torrents (state (upload b)) !! next_torrent_id b = None -> torrents (state (download b)) !! next_torrent_id b = None ->
  let '(b', r) := register_torrent limits now b in
  returns r /\
  (forall k, is_Some (torrents (state (upload b')) !! k) <-> is_Some (torrents (state (upload b)) !! k) \/ r = Ok k) /\
  (forall k, is_Some (torrents (state (download b')) !! k) <-> is_Some (torrents (state (download b)) !! k) \/ r = Ok k).
Proof.
  intros Hup Hdown. unfold register_torrent. destruct (closed b); [split; [done|]; split; intros k; naive_solver|].
  destruct (next_torrent_id b =? 0); [split; [done|]; split; intros k; naive_solver|].
  pose proof (register_keys (next_torrent_id b) (upload_limit limits) now (upload b)) as H1. destruct (register _ _ now (upload b)) as [up r1].
  pose proof (register_keys (next_torrent_id b) (download_limit limits) now (download b)) as H2. destruct (register _ _ now (download b)) as [down r2].
  destruct H1 as [(e1 & -> & K1)|[-> K1]]; [split; [done|]; split; intros k; cbn [upload download]; rewrite ?K1; naive_solver|].
  destruct H2 as [(e2 & -> & K2)|[-> K2]]; (split; [done|]); cbn [upload download].
  - split; intros k; [|rewrite K2; naive_solver]. rewrite unregister_keys, K1. destruct (decide (k = next_torrent_id b)) as [->|Hne]; [rewrite Hup|]; naive_solver.
  - split; intros k; rewrite ?K1, ?K2; naive_solver.
Qed.

(** ** The properties at concrete inputs *)
Lemma history_apply allowed start gs rs d e : history allowed start gs rs d -> allowed e -> valid e d -> history allowed start (gs ++ (apply e d).2.1) (rs ++ (apply e d).2.2) (apply e d).1.
Proof. intros Hh Ha Hv. eapply history_event; [done|done|done|]. by destruct (apply e d) as [? [? ?]]. Qed.
(** A session of 4096 bytes a second; torrent 1, of 2048 bytes a second, asks
    for 1000 bytes, has them after a second and gives 400 back. *)
Definition example_start : DirectionInner := DirectionInner_new (Some 4096) 0.
Definition example_registered : DirectionInner := (apply (Register 1 (Some 2048) 0) example_start).1.
Definition example_asked : DirectionInner := (apply (Request 1 1000 0) example_registered).1.
Definition example_turn : Event := Turn (fun _ => false) (fun _ => false) (fun _ => 0) 1000000000.
Definition example_granted : DirectionInner := (apply example_turn example_asked).1.
Definition example_returned : DirectionInner := (apply (Complete 1 400 1000000000) example_granted).1.
Definition example_grants : list Grant := [] ++ (apply (Request 1 1000 0) example_registered).2.1 ++ (apply example_turn example_asked).2.1.
Lemma example_registered_wf : wf (state example_registered).
Proof. apply register_wf; [done|done|]. by apply state_new_wf. Qed.
Lemma example_asked_wf : wf (state example_asked).
Proof. apply (apply_wf (Request 1 1000 0)); [done|apply example_registered_wf]. Qed.
Lemma example_granted_wf : wf (state example_granted).
Proof. apply (apply_wf example_turn); [done|apply example_asked_wf]. Qed.
Lemma example_history allowed : allowed (Request 1 1000 0) -> allowed example_turn -> allowed (Complete 1 400 1000000000) ->
  history allowed example_registered [mkGrant 1 1 1000] [(1, 400)] example_returned.
Proof.
  intros H1 H2 H3. pose proof (history_start allowed example_registered) as Hh. apply (history_apply _ _ _ _ _ (Request 1 1000 0)) in Hh; [|done|done].
  apply (history_apply _ _ _ _ _ example_turn) in Hh; [|done|done]. apply (history_apply _ _ _ _ _ (Complete 1 400 1000000000)) in Hh; [|done|done]. exact Hh.
Qed.
Lemma example_asked_returned : grants_returned (state example_asked).
Proof.
  intros id t. replace (torrents (state example_asked)) with ({[1 := mkTorrentState (mkBucket (Some 2048) 0) [mkRequest 1 1000 0] true false]} : gmap Z TorrentDirectionState) by (vm_compute; reflexivity).
  by intros [<- <-]%lookup_singleton_Some.
Qed.
Lemma session_rate_bound_witness : CREDIT_SCALE * (1000 - 400) <= CREDIT_SCALE * 4096 + 4096 * 1000000000.
Proof.
  exact (session_rate_bound example_registered example_returned [mkGrant 1 1 1000] [(1, 400)] 4096 example_registered_wf eq_refl (example_history keeps_session_limit I I I)).
Defined.
Lemma torrent_rate_bound_witness : CREDIT_SCALE * (1000 - 400) <= CREDIT_SCALE * 2048 + 2048 * 1000000000.
Proof.
  exact (torrent_rate_bound 1 example_registered example_returned [mkGrant 1 1 1000] [(1, 400)] (TorrentDirectionState_new (Some 2048)) 2048 example_registered_wf eq_refl eq_refl
    (example_history (keeps_torrent_limit 1) I I I)).
Defined.
Lemma bandwidth_invariant_witness : wf (state example_registered).
Proof.
  apply (bandwidth_invariant (Some 4096) 0 [] [] example_registered); [done|].
  apply (history_apply _ _ _ _ _ (Register 1 (Some 2048) 0) (history_start (fun _ => True) example_start)); done.
Defined.
Lemma allocation_correct_witness : exists d gs, run_once true (fun _ => false) (fun _ => false) (fun _ => 0) 1000000000 example_asked = (d, Some (Ok (Yield, gs))) /\ gs <> [] /\ spent gs = 1000 /\ wf (state d).
Proof.
  destruct (allocation_correct true (fun _ => false) (fun _ => false) (fun _ => 0) 1000000000 example_asked example_asked_wf eq_refl) as (d & o & gs & E & H & _ & _ & _ & _ & _ & Ho).
  - intros _. exact example_asked_returned.
  - exists d, gs. vm_compute in E. injection E as <- <- <-. split; [done|]. split; [done|]. split; [done|]. exact H.
Defined.
Lemma head_is_served_witness : exists d o bytes gs, run_once false (fun _ => false) (fun _ => false) (fun _ => 0) 1000000000 example_asked = (d, Some (Ok (o, mkGrant 1 1 bytes :: gs))) /\ bytes = 1000.
Proof.
  destruct (head_is_served false (fun _ => false) (fun _ => false) (fun _ => 0) 1000000000 example_asked 1 [] (mkTorrentState (mkBucket (Some 2048) 0) [mkRequest 1 1000 0] true false)
    (mkRequest 1 1000 0) [] example_asked_wf eq_refl ltac:(done) ltac:(done) eq_refl eq_refl eq_refl eq_refl eq_refl) as (d & o & bytes & gs & E & Hb & _).
  exists d, o, bytes, gs. split; [exact E|]. vm_compute in E. by injection E as _ _ <- _.
Defined.
Lemma events_keep_rank_witness : (rank 1 (ready_queue (state (apply (Request 1 500 0) example_asked).1)) <= 0)%nat.
Proof. apply (events_keep_rank (Request 1 500 0) example_asked 1); [done|apply example_asked_wf|apply list_elem_of_here|apply list_elem_of_here]. Defined.
Lemma second_request_panics_witness : exists d1 d2, acquire_locked 1 500 1000000000 example_granted = (d1, Ok 2) /\
  run_once true (fun _ => false) (fun _ => false) (fun _ => 0) 1000000000 d1 = (d2, Some Panic).
Proof.
  exists (acquire_locked 1 500 1000000000 example_granted).1.
  destruct (second_request_panics example_granted 1 (mkTorrentState (mkBucket (Some 2048) 1048000000000) [] false true) 500 1000000000 2
    (acquire_locked 1 500 1000000000 example_granted).1 (fun _ => false) (fun _ => false) (fun _ => 0) 1000000000) as [d2 E]; try (vm_compute; reflexivity).
  exists d2. split; [vm_compute; reflexivity|exact E].
Defined.
Lemma request_after_stop_stays_witness : exists d2 request, acquire_locked 1 500 7 (inner_stop example_registered) = (d2, Ok request) /\
  (run_once false (fun _ => false) (fun _ => false) (fun _ => 0) 9 d2).2 = None.
Proof.
  destruct (request_after_stop_stays example_registered 1 (TorrentDirectionState_new (Some 2048)) 2048 500 500 7 eq_refl eq_refl) as (d2 & request & t2 & E & _ & _ & H).
  exists d2, request. split; [exact E|]. specialize (H false (fun _ => false) (fun _ => false) (fun _ => 0) 9).
  destruct (run_once _ _ _ _ 9 d2) as [d3 r]. by destruct H as [-> _].
Defined.
Definition example_session : SessionBandwidth := SessionBandwidth_start (mkLimits None (Some 4096)) 0.
Lemma register_torrent_both_or_neither_witness : is_Some (torrents (state (upload (register_torrent (mkLimits None None) 5 example_session).1)) !! 1) /\
  is_Some (torrents (state (download (register_torrent (mkLimits None None) 5 example_session).1)) !! 1).
Proof.
  pose proof (register_torrent_both_or_neither (mkLimits None None) 5 example_session eq_refl eq_refl) as H.
  change (register_torrent (mkLimits None None) 5 example_session) with ((register_torrent (mkLimits None None) 5 example_session).1, Ok (E := BandwidthError) 1) in H.
  destruct H as (_ & H1 & H2). split; [apply H1|apply H2]; by right.
Defined.
