(* ===== verification/Checkpoint.v ===== *)
(** * Checkpoints of verified pieces (engine/checkpoint.rs, and its task in engine/driver/storage_pipeline.rs)

    Verified pieces are written to disk but only become durable when the files
    they touch are synchronised.  [CheckpointBatchState] collects pieces into
    batches; the task [run_content_checkpoint_task] feeds it from a channel,
    and for each batch synchronises the targets and then tells the store that
    the pieces are durable.  Durations are nanoseconds since the task
    started.  The channel, the timer and the clock are the inputs of [task];
    whether a synchronisation or a commit succeeds is a parameter; a permit
    of a piece is its index in a set.

    The properties: a piece is told durable only after all its targets were
    synchronised, each once and in order; the consistency checks of the task
    never fail; batches keep to their limits; the timer is set to the moment
    at which the oldest piece of the batch is due. *)
From S2P Require Import Prelude Ordered.
#[local] Open Scope Z_scope.

Inductive DurabilityTarget := WantedFile (index : Z) | PartFile.
#[export] Instance DurabilityTarget_dec : EqDecision DurabilityTarget.
Proof. solve_decision. Defined.
#[export] Instance DurabilityTarget_countable : Countable DurabilityTarget.
Proof.
  refine (inj_countable' (fun t => match t with WantedFile i => inl i | PartFile => inr tt end) (fun x => match x with inl i => WantedFile i | inr _ => PartFile end) _).
  by intros [].
Defined.
(** The derived order: the constructor, then its field. *)
Definition target_key (t : DurabilityTarget) : list Z := match t with WantedFile i => [0; i] | PartFile => [1] end.
Definition target_cmp (a b : DurabilityTarget) : comparison := lex (target_key a) (target_key b).
Inductive CheckpointStateError := ZeroMaximumAge | ZeroMaximumDirtyBytes | ZeroMaximumPieces | ZeroLengthPiece | NoDurabilityTarget | DuplicatePiece (piece : Z) | DirtyBytesOverflow.
Record CheckpointIntent := mkIntent { piece_index : Z; length_of : Z; verified_at : Z; targets_of : list DurabilityTarget }.
(** [Vec::dedup]: of equal neighbours the first stays. *)
Fixpoint dedup (l : list DurabilityTarget) : list DurabilityTarget :=
  match l with
  | [] => []
  | a :: rest => match rest with
                 | [] => [a]
                 | b :: _ => if decide (a = b) then dedup rest else a :: dedup rest
                 end
  end.
Definition CheckpointIntent_new (piece length verified : Z) (targets : list DurabilityTarget) : outcome CheckpointStateError CheckpointIntent :=
  if length =? 0 then Err ZeroLengthPiece
  else
    let targets := dedup (sort_by target_cmp targets) in
    if bool_decide (targets = []) then Err NoDurabilityTarget else Ok (mkIntent piece length verified targets).
Record CheckpointPolicy := mkPolicy { max_age : Z; max_dirty_bytes : Z; max_pieces : Z }.
Definition CheckpointPolicy_new (age bytes pieces : Z) : outcome CheckpointStateError CheckpointPolicy :=
  if age =? 0 then Err ZeroMaximumAge
  else if bytes =? 0 then Err ZeroMaximumDirtyBytes
  else if pieces =? 0 then Err ZeroMaximumPieces
  else Ok (mkPolicy age bytes pieces).
Inductive CheckpointTrigger := MaximumAge | MaximumDirtyBytes | MaximumPieces | OversizedPiece.
Inductive CheckpointAdmission := Accumulating | Ready (trigger : CheckpointTrigger) | FlushBefore (trigger : CheckpointTrigger) (intent : CheckpointIntent).
Record CheckpointBatch := mkBatch { b_intents : list CheckpointIntent; b_dirty_bytes : Z; b_oldest_verified_at : Z; b_targets : list DurabilityTarget }.
Record CheckpointBatchState := mkBatchState {
  policy : CheckpointPolicy;
  intents : list CheckpointIntent;
  piece_indices : gset Z;
  dirty_bytes : Z;
  oldest_verified_at : option Z;
  targets : gset DurabilityTarget;
}.
Definition CheckpointBatchState_new (p : CheckpointPolicy) : CheckpointBatchState := mkBatchState p [] ∅ 0 None ∅.
Definition oldest_age (now : Z) (s : CheckpointBatchState) : option Z := (fun oldest => saturating_sub now oldest) <$> oldest_verified_at s.
Definition flush_reason (now : Z) (s : CheckpointBatchState) : option CheckpointTrigger :=
  if negb (bool_decide (intents s = [])) && match oldest_age now s with Some age => max_age (policy s) <=? age | None => false end then Some MaximumAge else None.
Definition next_flush_in (now : Z) (s : CheckpointBatchState) : option Z := (fun age => saturating_sub (max_age (policy s)) age) <$> oldest_age now s.
(** The intent joins the batch. *)
Definition pushed (i : CheckpointIntent) (next_dirty_bytes : Z) (s : CheckpointBatchState) : CheckpointBatchState :=
  mkBatchState (policy s) (intents s ++ [i]) ({[piece_index i]} ∪ piece_indices s) next_dirty_bytes
    (Some (match oldest_verified_at s with None => verified_at i | Some oldest => Z.min oldest (verified_at i) end))
    (fold_left (fun set target => {[target]} ∪ set) (targets_of i) (targets s)).
Definition admit_intent (i : CheckpointIntent) (now : Z) (s : CheckpointBatchState) : CheckpointBatchState * outcome CheckpointStateError CheckpointAdmission :=
  if bool_decide (piece_index i ∈ piece_indices s) then (s, Err (DuplicatePiece (piece_index i)))
  else
    match flush_reason now s with
    | Some trigger => (s, Ok (FlushBefore trigger i))
    | None =>
      match checked_add 64 (dirty_bytes s) (length_of i) with
      | None => (s, Err DirtyBytesOverflow)
      | Some next_dirty_bytes =>
        if negb (bool_decide (intents s = [])) && (max_pieces (policy s) <=? len (intents s)) then (s, Ok (FlushBefore MaximumPieces i))
        else if negb (bool_decide (intents s = [])) && (max_dirty_bytes (policy s) <? next_dirty_bytes) then (s, Ok (FlushBefore MaximumDirtyBytes i))
        else
          let s := pushed i next_dirty_bytes s in
          (s, Ok (if (max_dirty_bytes (policy s) <? length_of i) && (len (intents s) =? 1) then Ready OversizedPiece
                  else if max_dirty_bytes (policy s) <=? dirty_bytes s then Ready MaximumDirtyBytes
                  else if max_pieces (policy s) <=? len (intents s) then Ready MaximumPieces
                  else Accumulating))
      end
    end.
Definition take_batch (s : CheckpointBatchState) : CheckpointBatchState * option CheckpointBatch :=
  match oldest_verified_at s with
  | None => (s, None)
  | Some oldest =>
    (mkBatchState (policy s) [] ∅ 0 None ∅, Some (mkBatch (intents s) (dirty_bytes s) oldest (sort_by target_cmp (elements (targets s)))))
  end.

(** ** The task *)
Inductive TaskError := StateError (e : CheckpointStateError) | NoDeadline | DuplicatePermit | ByteSumOverflow | EmptyBatch | AccountingDiverged | NoPermit (piece : Z) | PermitsEscaped | SyncFailed | CommitFailed.
(** What the task has done to the disk and the store. *)
Inductive DiskEffect := Synced (targets : list DurabilityTarget) | Durable (pieces : list Z).
Record TaskState := mkTask { batch : CheckpointBatchState; permits : gset Z; effects : list DiskEffect }.
Definition set_batch (b : CheckpointBatchState) (t : TaskState) : TaskState := mkTask b (permits t) (effects t).
Definition set_permits (p : gset Z) (t : TaskState) : TaskState := mkTask (batch t) p (effects t).
Definition add_effect (e : DiskEffect) (t : TaskState) : TaskState := mkTask (batch t) (permits t) (effects t ++ [e]).
Abbreviation task_method := (M TaskState TaskError).
(** [Iterator::min]. *)
Definition minimum (l : list Z) : option Z := fold_left (fun oldest t => Some (match oldest with None => t | Some o => Z.min o t end)) l None.
Fixpoint byte_sum (total : Z) (l : list CheckpointIntent) : outcome TaskError Z :=
  match l with
  | [] => Ok total
  | i :: l => total ← ok_or (checked_add 64 total (length_of i)) ByteSumOverflow; byte_sum total l
  end.
Fixpoint take_permits (l : list CheckpointIntent) : task_method unit :=
  match l with
  | [] => mret tt
  | i :: l =>
    t ← get;
    if bool_decide (piece_index i ∈ permits t) then modify (set_permits (permits t ∖ {[piece_index i]}));; take_permits l
    else fail (NoPermit (piece_index i))
  end.

Section task.
Context (sync : CheckpointBatch -> bool) (commit : list Z -> bool).

Definition flush_content_checkpoint : task_method unit :=
  t ← get;
  let expected_dirty_bytes := dirty_bytes (batch t) in
  let '(s, taken) := take_batch (batch t) in
  modify (set_batch s);;
  match taken with
  | None => mret tt
  | Some b =>
    actual ← lift (byte_sum 0 (b_intents b));
    oldest ← lift (ok_or (minimum (verified_at <$> b_intents b)) EmptyBatch);
    if negb (actual =? b_dirty_bytes b) || negb (actual =? expected_dirty_bytes) || negb (oldest =? b_oldest_verified_at b) then fail AccountingDiverged
    else
      take_permits (b_intents b);;
      t ← get;
      if negb (bool_decide (permits t = ∅)) then fail PermitsEscaped
      else if negb (sync b) then fail SyncFailed
      else
        modify (add_effect (Synced (b_targets b)));;
        let pieces := piece_index <$> b_intents b in
        if negb (commit pieces) then fail CommitFailed else modify (add_effect (Durable pieces))
  end.
Definition insert_permit (piece : Z) : task_method unit :=
  t ← get;
  if bool_decide (piece ∈ permits t) then fail DuplicatePermit else modify (set_permits ({[piece]} ∪ permits t)).
(** An intent that was taken from the channel, with the times at which the
    task offers it to the batch; [fuel] bounds the offers. *)
Fixpoint settle (fuel : nat) (i : CheckpointIntent) (clock : nat -> Z) : task_method unit :=
  match fuel with
  | O => lift NoFuel
  | S fuel =>
    t ← get;
    let '(s, admitted) := admit_intent i (clock O) (batch t) in
    modify (set_batch s);;
    admission ← lift (map_err StateError admitted);
    match admission with
    | Accumulating => insert_permit (piece_index i)
    | Ready _ => insert_permit (piece_index i);; flush_content_checkpoint
    | FlushBefore _ i => flush_content_checkpoint;; settle fuel i (fun n => clock (S n))
    end
  end.
(** How long the task waits for the next intent; [None] without a limit. *)
Definition wait_for (now : Z) : task_method (option Z) :=
  t ← get;
  if len (intents (batch t)) =? 0 then mret None
  else match next_flush_in now (batch t) with Some wait => mret (Some wait) | None => fail NoDeadline end.
(** What ends the wait that starts at [now]. *)
Inductive TaskInput := Received (now : Z) (i : CheckpointIntent) (clock : nat -> Z) | TimedOut (now : Z) | ChannelClosed (now : Z).
Fixpoint task (inputs : list TaskInput) : task_method unit :=
  match inputs with
  | [] => mret tt
  | Received now i clock :: inputs => wait_for now;; settle 2 i clock;; task inputs
  | TimedOut now :: inputs => wait_for now;; flush_content_checkpoint;; task inputs
  | ChannelClosed now :: _ => wait_for now;; flush_content_checkpoint
  end.
End task.
Definition task_start (p : CheckpointPolicy) : TaskState := mkTask (CheckpointBatchState_new p) ∅ [].

(** * Lemmas *)
Definition bytes_in (l : list CheckpointIntent) : Z := foldr (fun i n => length_of i + n) 0 l.
Definition intent_ok (i : CheckpointIntent) : Prop := 1 <= length_of i < 2 ^ 64.
Definition policy_ok (p : CheckpointPolicy) : Prop := 1 <= max_age p /\ 1 <= max_dirty_bytes p < 2 ^ 64 /\ 1 <= max_pieces p.
Lemma bytes_in_cons i l : bytes_in (i :: l) = length_of i + bytes_in l.
Proof. done. Qed.
Lemma bytes_in_app l k : bytes_in (l ++ k) = bytes_in l + bytes_in k.
Proof. induction l as [|i l IH]; [done|]. cbn [app]. rewrite !bytes_in_cons, IH. lia. Qed.
Lemma bytes_in_nonneg l : Forall intent_ok l -> 0 <= bytes_in l.
Proof. induction 1 as [|i l Hi Hl IH]; [done|]. rewrite bytes_in_cons. destruct Hi as [? _]. lia. Qed.
Lemma minimum_snoc l t : minimum (l ++ [t]) = Some (match minimum l with None => t | Some o => Z.min o t end).
Proof. unfold minimum. by rewrite fold_left_app. Qed.
Lemma minimum_None l : minimum l = None <-> l = [].
Proof. destruct l as [|t l _] using rev_ind; [done|]. rewrite minimum_snoc. split; [done|]. by destruct l. Qed.
Lemma minimum_spec l o : minimum l = Some o -> o ∈ l /\ forall t, t ∈ l -> o <= t.
Proof.
  revert o. induction l as [|x l IH] using rev_ind; intros o; [done|]. rewrite minimum_snoc. intros [= <-]. destruct (minimum l) as [m|] eqn:Hm.
  - destruct (IH m eq_refl) as [Hin Hle]. split.
    + apply elem_of_app. destruct (Z.min_dec m x) as [-> | ->]; [by left|right; apply list_elem_of_here].
    + intros t [Ht| ->%list_elem_of_singleton]%elem_of_app; [specialize (Hle t Ht); lia|lia].
  - apply minimum_None in Hm as ->. split; [apply list_elem_of_here|]. intros t ->%list_elem_of_singleton. lia.
Qed.
Lemma target_key_inj a b : target_key a = target_key b -> a = b.
Proof. destruct a, b; cbn; congruence. Qed.
#[export] Instance lawful_target : LawfulCmp target_cmp := lawful_key target_key lex.
Lemma target_cmp_eq a b : target_cmp a b = Eq -> a = b.
Proof. unfold target_cmp. rewrite lex_eq. apply target_key_inj. Qed.

(** ** Intents *)
Lemma elem_of_dedup t l : t ∈ dedup l <-> t ∈ l.
Proof.
  induction l as [|a l IH]; [done|]. cbn [dedup]. destruct l as [|b l]; [done|]. destruct (decide (a = b)) as [<-|Hne].
  - rewrite IH. rewrite !elem_of_cons. tauto.
  - rewrite !elem_of_cons, IH, !elem_of_cons. tauto.
Qed.
Lemma dedup_sorted l : StronglySorted (cmp_le target_cmp) l -> StronglySorted (fun a b => target_cmp a b = Lt) (dedup l).
Proof.
  induction l as [|a l IH]; intros Hs; [constructor|]. apply StronglySorted_inv in Hs as [Hs Ha]. cbn [dedup]. destruct l as [|b l]; [constructor; constructor|].
  destruct (decide (a = b)) as [<-|Hne]; [by apply IH|]. constructor; [by apply IH|]. apply Forall_forall. intros t Ht. rewrite elem_of_dedup in Ht.
  assert (target_cmp a b = Lt) as Hab.
  { apply Forall_cons in Ha as [Hab _]. unfold cmp_le in Hab. destruct (target_cmp a b) eqn:E; [|done|done]. by apply target_cmp_eq in E. }
  apply elem_of_cons in Ht as [->|Ht]; [done|]. apply StronglySorted_inv in Hs as [_ Hb]. rewrite Forall_forall in Hb. eapply (cmp_lt_le_trans target_cmp); [exact Hab|by apply Hb].
Qed.
Lemma strictly_nodup l : StronglySorted (fun a b => target_cmp a b = Lt) l -> NoDup l.
Proof.
  induction 1 as [|a l Hs IH Ha]; [constructor|]. constructor; [|done]. intros Hin. rewrite Forall_forall in Ha. specialize (Ha a Hin).
  pose proof (cmp_opp target_cmp a a) as E. by rewrite Ha in E.
Qed.

(** ** The batch *)
Record batch_ok (s : CheckpointBatchState) : Prop := {
  bo_policy : policy_ok (policy s);
  bo_pieces : piece_indices s = list_to_set (piece_index <$> intents s);
  bo_nodup : NoDup (piece_index <$> intents s);
  bo_dirty : dirty_bytes s = bytes_in (intents s);
  bo_fits : dirty_bytes s < 2 ^ 64;
  bo_oldest : oldest_verified_at s = minimum (verified_at <$> intents s);
  bo_targets : forall t, t ∈ targets s <-> exists i, i ∈ intents s /\ t ∈ targets_of i;
  bo_lengths : Forall intent_ok (intents s);
}.
(** The limits a batch keeps; only a single piece may be larger. *)
Definition within (p : CheckpointPolicy) (l : list CheckpointIntent) : Prop := len l <= max_pieces p /\ (bytes_in l <= max_dirty_bytes p \/ len l <= 1).
(** A batch that goes on accumulating is below both limits. *)
Definition open (s : CheckpointBatchState) : Prop := len (intents s) < max_pieces (policy s) /\ dirty_bytes s < max_dirty_bytes (policy s).
Lemma elem_of_fold_targets t l X : t ∈ fold_left (fun set target => {[target]} ∪ set) l (X : gset DurabilityTarget) <-> t ∈ X \/ t ∈ l.
Proof.
  revert X. induction l as [|a l IH]; intros X; cbn [fold_left]; [rewrite elem_of_nil; tauto|]. rewrite IH, elem_of_union, elem_of_singleton, elem_of_cons. tauto.
Qed.
Lemma empty_batch_ok p : policy_ok p -> batch_ok (mkBatchState p [] ∅ 0 None ∅).
Proof. intros Hp. split; cbn; try done; [apply NoDup_nil_2|]. intros t. split; [by intros ?%elem_of_empty|]. intros (i & Hi & _). by apply elem_of_nil in Hi. Qed.
Lemma pushed_ok i s : batch_ok s -> intent_ok i -> piece_index i ∉ piece_indices s -> dirty_bytes s + length_of i < 2 ^ 64 -> batch_ok (pushed i (dirty_bytes s + length_of i) s).
Proof.
  intros [Hp Hpi Hnd Hd Hf Ho Ht Hl] Hi Hnew Hfit. unfold pushed. split; cbn [policy intents piece_indices dirty_bytes oldest_verified_at targets]; try done.
  - rewrite fmap_app, list_to_set_app_L, Hpi. cbn. set_solver.
  - rewrite fmap_app. apply NoDup_app. split; [done|]. split; [|apply NoDup_singleton]. intros k Hk ->%list_elem_of_singleton. apply Hnew. rewrite Hpi. by apply elem_of_list_to_set.
  - rewrite bytes_in_app, Hd, bytes_in_cons. cbn [bytes_in foldr]. lia.
  - rewrite fmap_app. cbn. by rewrite minimum_snoc, Ho.
  - intros t. rewrite elem_of_fold_targets, Ht. setoid_rewrite elem_of_app. setoid_rewrite list_elem_of_singleton. naive_solver.
  - apply Forall_app. split; [done|]. by apply Forall_singleton.
Qed.
(** What [admit] answers. *)
Lemma admit_ok i now s : batch_ok s -> open s -> intent_ok i -> let '(s', r) := admit_intent i now s in
  match r with
  | Ok Accumulating => s' = pushed i (dirty_bytes s + length_of i) s /\ batch_ok s' /\ within (policy s) (intents s') /\ open s' /\ piece_index i ∉ piece_indices s
  | Ok (Ready _) => s' = pushed i (dirty_bytes s + length_of i) s /\ batch_ok s' /\ within (policy s) (intents s') /\ piece_index i ∉ piece_indices s
  | Ok (FlushBefore _ j) => s' = s /\ j = i /\ intents s <> []
  | Err (DuplicatePiece p) => s' = s /\ p = piece_index i /\ p ∈ piece_index <$> intents s
  | Err DirtyBytesOverflow => s' = s /\ 2 ^ 64 <= dirty_bytes s + length_of i
  | _ => False
  end.
Proof.
  intros Hok Hopen Hi. unfold admit_intent. destruct (bool_decide (piece_index i ∈ piece_indices s)) eqn:Hdup.
  { apply bool_decide_eq_true in Hdup. rewrite (bo_pieces s Hok), elem_of_list_to_set in Hdup. done. }
  apply bool_decide_eq_false in Hdup. destruct (flush_reason now s) as [trigger|] eqn:Hflush.
  { unfold flush_reason in Hflush. destruct (bool_decide (intents s = [])) eqn:Hnil; [done|]. apply bool_decide_eq_false in Hnil. done. }
  unfold checked_add. destruct (dirty_bytes s + length_of i <? 2 ^ 64) eqn:Hfit; [|split; [done|lia]]. apply Z.ltb_lt in Hfit.
  pose proof (pushed_ok i s Hok Hi Hdup Hfit) as Hpush. pose proof Hok as [(_ & Hmb & Hmp) _ _ Hd _ _ _ Hl]. pose proof (bytes_in_nonneg _ Hl) as Hnn.
  destruct (negb (bool_decide (intents s = [])) && (max_pieces (policy s) <=? len (intents s))) eqn:H1.
  { apply andb_prop in H1 as [H1%negb_true_iff%bool_decide_eq_false _]. done. }
  destruct (negb (bool_decide (intents s = [])) && (max_dirty_bytes (policy s) <? dirty_bytes s + length_of i)) eqn:H2.
  { apply andb_prop in H2 as [H2%negb_true_iff%bool_decide_eq_false _]. done. }
  assert (within (policy s) (intents (pushed i (dirty_bytes s + length_of i) s))) as Hwithin.
  { unfold within, pushed. cbn [intents]. rewrite len_snoc, bytes_in_app, <- Hd. rewrite bytes_in_cons. cbn [bytes_in foldr]. destruct Hopen as [Ho1 Ho2]. split; [lia|].
    destruct (bool_decide (intents s = [])) eqn:Hnil; [apply bool_decide_eq_true in Hnil; rewrite Hnil; right; rewrite len_nil; lia|].
    cbn in H2. left. lia. }
  cbv zeta. change (policy (pushed i (dirty_bytes s + length_of i) s)) with (policy s). change (dirty_bytes (pushed i (dirty_bytes s + length_of i) s)) with (dirty_bytes s + length_of i).
  destruct ((max_dirty_bytes (policy s) <? length_of i) && _); [done|]. destruct (max_dirty_bytes (policy s) <=? dirty_bytes s + length_of i) eqn:H3; [done|].
  destruct (max_pieces (policy s) <=? len (intents (pushed i (dirty_bytes s + length_of i) s))) eqn:H4; [done|]. split; [done|]. split; [done|]. split; [done|]. split; [|done].
  unfold open. change (policy (pushed i (dirty_bytes s + length_of i) s)) with (policy s). change (dirty_bytes (pushed i (dirty_bytes s + length_of i) s)) with (dirty_bytes s + length_of i).
  lia.
Qed.

(** ** The task *)
(** A batch that was taken. *)
Record batch_good (p : CheckpointPolicy) (b : CheckpointBatch) : Prop := {
  bg_nonempty : b_intents b <> [];
  bg_within : within p (b_intents b);
  bg_dirty : b_dirty_bytes b = bytes_in (b_intents b);
  bg_oldest : minimum (verified_at <$> b_intents b) = Some (b_oldest_verified_at b);
  bg_targets : forall t, t ∈ b_targets b <-> exists i, i ∈ b_intents b /\ t ∈ targets_of i;
  bg_once : NoDup (b_targets b);
}.
(** What the task does for a batch. *)
Definition effects_of (bs : list CheckpointBatch) : list DiskEffect := flat_map (fun b => [Synced (b_targets b); Durable (piece_index <$> b_intents b)]) bs.
Definition intents_of (bs : list CheckpointBatch) : list CheckpointIntent := flat_map b_intents bs.
Lemma effects_of_snoc bs b : effects_of (bs ++ [b]) = effects_of bs ++ [Synced (b_targets b); Durable (piece_index <$> b_intents b)].
Proof. unfold effects_of. by rewrite flat_map_app. Qed.
Lemma intents_of_snoc bs b : intents_of (bs ++ [b]) = intents_of bs ++ b_intents b.
Proof. unfold intents_of. rewrite flat_map_app. cbn. by rewrite app_nil_r. Qed.
(** The task holds the intents [rs] it has taken from the channel: some it has
    made durable, batch by batch, the others are in the batch, each with its
    permit. *)
Record task_ok (p : CheckpointPolicy) (rs : list CheckpointIntent) (t : TaskState) : Prop := {
  tk_policy : policy (batch t) = p;
  tk_batch : batch_ok (batch t);
  tk_within : within p (intents (batch t));
  tk_permits : permits t = piece_indices (batch t);
  tk_effects : exists bs, effects t = effects_of bs /\ Forall (batch_good p) bs /\ intents_of bs ++ intents (batch t) = rs;
}.
(** The errors that come from outside: the disk, the store, and an intent for
    a piece that is still waiting or is too long to count. *)
Definition external (e : TaskError) : Prop :=
  match e with SyncFailed | CommitFailed | StateError (DuplicatePiece _) | StateError DirtyBytesOverflow => True | _ => False end.
(** After an error: nothing is durable that was not synchronised before, in the order of the channel. *)
Definition task_failed (p : CheckpointPolicy) (rs : list CheckpointIntent) (e : TaskError) (t : TaskState) : Prop :=
  external e /\ exists bs extra, effects t = effects_of bs ++ extra /\ Forall (batch_good p) bs /\ intents_of bs `prefix_of` rs /\
    (extra = [] \/ exists b, extra = [Synced (b_targets b)]).
Lemma byte_sum_ok l : forall total, 0 <= total -> Forall intent_ok l -> total + bytes_in l < 2 ^ 64 -> byte_sum total l = Ok (total + bytes_in l).
Proof.
  induction l as [|i l IH]; intros total Ht Hl Hfit; [cbn; f_equal; lia|]. apply Forall_cons in Hl as [Hi Hl]. rewrite bytes_in_cons in Hfit. pose proof (bytes_in_nonneg l Hl).
  destruct Hi as [Hi _]. cbn [byte_sum]. rewrite checked_add_fits by lia. obind. rewrite IH by (done || lia). rewrite bytes_in_cons. f_equal. lia.
Qed.
Lemma take_permits_ok l (Q : unit -> TaskState -> Prop) R : forall t, NoDup (piece_index <$> l) -> permits t = list_to_set (piece_index <$> l) ->
  Q tt (set_permits ∅ t) -> wp (take_permits l) t Q R.
Proof.
  induction l as [|i l IH]; intros t Hnd Hp HQ; cbn [take_permits].
  - wp_step. cbn in Hp. destruct t as [b p e]. cbn in *. by subst p.
  - rewrite fmap_cons in Hnd, Hp. apply NoDup_cons in Hnd as [Hi Hnd]. do 2 wp_step. rewrite bool_decide_true by (rewrite Hp; cbn; set_solver). do 2 wp_step. apply IH; [done| |done].
    cbn. rewrite Hp. cbn. rewrite <- (elem_of_list_to_set (C := gset Z)) in Hi. set_solver.
Qed.

Section flush.
Context (sync : CheckpointBatch -> bool) (commit : list Z -> bool).
(** A flush makes the whole batch durable, or fails for the disk or the store. *)
Lemma flush_checkpoint_ok p rs t : task_ok p rs t ->
  wp (flush_content_checkpoint sync commit) t (fun _ t' => task_ok p rs t' /\ intents (batch t') = []) (task_failed p rs).
Proof.
  intros [Hp Hb Hw Hperm (bs & Heff & Hbs & Hrs)]. pose proof Hb as [Hpol Hpi Hnd Hd Hf Ho Ht Hl]. unfold flush_content_checkpoint. do 2 wp_step. unfold take_batch.
  destruct (oldest_verified_at (batch t)) as [oldest|] eqn:Hold.
  - set (b := mkBatch _ _ _ _). assert (batch_good p b) as Hgood.
    { split; cbn; try done.
      - intros Hnil. rewrite Hnil in Ho. done.
      - intros x. rewrite elem_of_sort_by, elem_of_elements. apply Ht.
      - apply NoDup_sort_by, NoDup_elements. }
    do 3 wp_step. cbn [b_intents b]. rewrite byte_sum_ok by (done || lia). do 2 wp_step. rewrite <- Ho. cbn [ok_or]. wp_step. cbn [b_dirty_bytes b_oldest_verified_at b].
    rewrite Z.add_0_l, <- Hd, !Z.eqb_refl. cbn [negb orb]. wp_step. apply take_permits_ok; [done|cbn; congruence|]. do 2 wp_step. cbn [permits set_permits].
    rewrite bool_decide_true by done. cbn [negb]. destruct (sync b) eqn:Hsync; cbn [negb].
    + do 2 wp_step. destruct (commit _) eqn:Hcommit; cbn [negb].
      * wp_step. split; [|done]. split; cbn [batch set_batch set_permits add_effect permits effects policy intents].
        -- done.
        -- by apply empty_batch_ok.
        -- rewrite Hp in Hpol. destruct Hpol as (_ & _ & Hmp). split; rewrite (len_nil (A := CheckpointIntent)); lia.
        -- done.
        -- exists (bs ++ [b]). rewrite effects_of_snoc, intents_of_snoc, Heff, <- app_assoc. split; [done|]. split; [apply Forall_app; split; [done|by apply Forall_singleton]|].
           by rewrite app_nil_r.
      * wp_step. split; [done|]. exists bs, [Synced (b_targets b)]. cbn [effects add_effect set_permits set_batch]. rewrite Heff. split; [done|]. split; [done|].
        split; [rewrite <- Hrs; by apply prefix_app_r|]. right. by exists b.
    + wp_step. split; [done|]. exists bs, []. cbn [effects set_permits set_batch]. rewrite app_nil_r. split; [done|]. split; [done|]. split; [rewrite <- Hrs; by apply prefix_app_r|]. by left.
  - do 3 wp_step. assert (intents (batch t) = []) as Hnil.
    { symmetry in Ho. apply minimum_None in Ho. by destruct (intents (batch t)). }
    split; [|done]. destruct t as [s q e]. split; try done. by exists bs.
Qed.
Lemma insert_permit_ok i (Q : unit -> TaskState -> Prop) R t : i ∉ permits t -> Q tt (set_permits ({[i]} ∪ permits t) t) -> wp (insert_permit i) t Q R.
Proof. intros Hi HQ. unfold insert_permit. do 2 wp_step. rewrite bool_decide_false by done. by wp_step. Qed.
(** Between two inputs the batch is below its limits. *)
Definition task_ready (p : CheckpointPolicy) (rs : list CheckpointIntent) (t : TaskState) : Prop := task_ok p rs t /\ open (batch t).
Lemma empty_open p rs t : task_ok p rs t -> intents (batch t) = [] -> open (batch t).
Proof.
  intros [Hp [(_ & Hm & Hn) _ _ Hd _ _ _ _] _ _ _] Hnil. unfold open. rewrite Hd, Hnil, (len_nil (A := CheckpointIntent)). cbn [bytes_in foldr]. lia.
Qed.
Lemma task_ok_pushed p rs t i : task_ok p rs t -> let s := pushed i (dirty_bytes (batch t) + length_of i) (batch t) in
  batch_ok s -> within p (intents s) -> task_ok p (rs ++ [i]) (set_permits ({[piece_index i]} ∪ permits t) (set_batch s t)).
Proof.
  intros [Hp Hb Hw Hperm (bs & Heff & Hbs & Hrs)] s Hs Hws. split; try done; [by cbn; rewrite Hperm|]. exists bs. split; [done|]. split; [done|]. cbn. by rewrite app_assoc, Hrs.
Qed.
Lemma set_same_batch t : set_batch (batch t) t = t.
Proof. by destruct t. Qed.
(** One offer: an empty batch takes the intent, and after a flush the batch is empty. *)
Lemma settle_offer p rs i fuel clock t : task_ready p rs t -> intent_ok i ->
  (intents (batch t) = [] \/ forall t' clock, task_ready p rs t' -> intents (batch t') = [] ->
    wp (settle sync commit fuel i clock) t' (fun _ t' => task_ready p (rs ++ [i]) t') (task_failed p (rs ++ [i]))) ->
  wp (settle sync commit (S fuel) i clock) t (fun _ t' => task_ready p (rs ++ [i]) t') (task_failed p (rs ++ [i])).
Proof.
  intros [Ht Hopen] Hi Hnext. cbn [settle]. do 2 wp_step. pose proof (admit_ok i (clock O) (batch t) (tk_batch _ _ _ Ht) Hopen Hi) as Ha.
  assert (forall e t', task_failed p rs e t' -> task_failed p (rs ++ [i]) e t') as Hfail.
  { intros e t' (He & bs & extra & H1 & H2 & H3 & H4). split; [done|]. exists bs, extra. split; [done|]. split; [done|]. split; [by apply prefix_app_r|done]. }
  assert (forall e, external e -> task_failed p rs e t) as Hhere.
  { intros e He. split; [done|]. destruct (tk_effects _ _ _ Ht) as (bs & Heff & Hbs & Hrs). exists bs, []. rewrite app_nil_r. split; [done|]. split; [done|].
    split; [rewrite <- Hrs; by apply prefix_app_r|by left]. }
  destruct (admit_intent i (clock O) (batch t)) as [s [[|trigger|trigger j]|[]| |]]; try done; repeat wp_step; cbn [map_err]; wp_step.
  - destruct Ha as (-> & Hs & Hw & Ho & Hnew). rewrite (tk_policy _ _ _ Ht) in Hw. apply insert_permit_ok; [by cbn; rewrite (tk_permits _ _ _ Ht)|].
    split; [by apply (task_ok_pushed p rs t i Ht)|done].
  - destruct Ha as (-> & Hs & Hw & Hnew). rewrite (tk_policy _ _ _ Ht) in Hw. wp_step. apply insert_permit_ok; [by cbn; rewrite (tk_permits _ _ _ Ht)|].
    eapply wp_mono; [apply flush_checkpoint_ok; by apply (task_ok_pushed p rs t i Ht)| |done]. cbv beta. intros _ t' [Ht' Hnil]. split; [done|by eapply empty_open].
  - destruct Ha as (-> & -> & Hne). destruct Hnext as [Hnil|Hnext]; [done|]. rewrite set_same_batch. wp_step.
    eapply wp_mono; [by apply flush_checkpoint_ok| |]; cbv beta; [|by intros e t' He; apply Hfail]. intros _ t' [Ht' Hnil]. apply Hnext; [|done]. split; [done|by eapply empty_open].
  - destruct Ha as (-> & _). rewrite set_same_batch. by apply Hfail, Hhere.
  - destruct Ha as (-> & _). rewrite set_same_batch. by apply Hfail, Hhere.
Qed.
(** An intent is offered at most twice. *)
Lemma settle_ok p rs i t clock : task_ready p rs t -> intent_ok i ->
  wp (settle sync commit 2 i clock) t (fun _ t' => task_ready p (rs ++ [i]) t') (task_failed p (rs ++ [i])).
Proof.
  intros Ht Hi. apply settle_offer; [done|done|]. right. intros t' clock' Ht' Hnil. apply settle_offer; [done|done|by left].
Qed.
(** A batch with pieces in it has a deadline. *)
Lemma wait_for_ok p rs now t (Q : option Z -> TaskState -> Prop) R : task_ok p rs t -> (forall wait, Q wait t) -> wp (wait_for now) t Q R.
Proof.
  intros [_ [_ _ _ _ _ Ho _ _] _ _ _] HQ. unfold wait_for. do 2 wp_step. destruct (len (intents (batch t)) =? 0) eqn:Hlen; [by wp_step|].
  unfold next_flush_in, oldest_age. rewrite Ho. destruct (minimum _) eqn:Hm; [exact (HQ _)|]. apply minimum_None, fmap_nil_inv in Hm. by rewrite Hm in Hlen.
Qed.
Fixpoint received (inputs : list TaskInput) : list CheckpointIntent :=
  match inputs with
  | Received _ i _ :: inputs => i :: received inputs
  | TimedOut _ :: inputs => received inputs
  | _ => []
  end.
(** Whether the channel was closed, which ends the task. *)
Fixpoint is_closed (inputs : list TaskInput) : bool :=
  match inputs with [] => false | ChannelClosed _ :: _ => true | _ :: inputs => is_closed inputs end.
Definition input_ok (input : TaskInput) : Prop := match input with Received _ i _ => intent_ok i | _ => True end.
Lemma task_run p inputs : forall rs t, Forall input_ok inputs -> task_ready p rs t ->
  wp (task sync commit inputs) t (fun _ t' => task_ready p (rs ++ received inputs) t' /\ (is_closed inputs = true -> intents (batch t') = []))
    (task_failed p (rs ++ received inputs)).
Proof.
  induction inputs as [|[now i clock|now|now] inputs IH]; intros rs t Hin Ht; cbn [task received is_closed].
  - wp_step. by rewrite app_nil_r.
  - apply Forall_cons in Hin as [Hi Hin]. wp_step. eapply wait_for_ok; [by apply Ht|]. intros wait. wp_step. rewrite cons_middle, app_assoc.
    eapply wp_mono; [by apply settle_ok| |]; cbv beta.
    + intros _ t' Ht'. by apply IH.
    + intros e t' (He & bs & extra & H1 & H2 & H3 & H4). split; [done|]. exists bs, extra. split; [done|]. split; [done|]. split; [by apply prefix_app_r|done].
  - apply Forall_cons in Hin as [_ Hin]. wp_step. eapply wait_for_ok; [by apply Ht|]. intros wait. wp_step.
    eapply wp_mono; [by apply flush_checkpoint_ok, Ht| |]; cbv beta.
    + intros _ t' [Ht' Hnil]. apply IH; [done|]. split; [done|by eapply empty_open].
    + intros e t' (He & bs & extra & H1 & H2 & H3 & H4). split; [done|]. exists bs, extra. split; [done|]. split; [done|]. split; [by apply prefix_app_r|done].
  - wp_step. eapply wait_for_ok; [by apply Ht|]. intros wait. rewrite app_nil_r. eapply wp_mono; [by apply flush_checkpoint_ok, Ht| |done]. cbv beta. intros _ t' [Ht' Hnil].
    split; [|done]. split; [done|by eapply empty_open].
Qed.
End flush.
Lemma task_start_ready p : policy_ok p -> task_ready p [] (task_start p).
Proof.
  intros Hp. assert (task_ok p [] (task_start p)) as Ht; [|split; [done|by eapply empty_open]]. pose proof Hp as (_ & _ & Hm). split; cbn; try done.
  - by apply empty_batch_ok.
  - split; rewrite (len_nil (A := CheckpointIntent)); lia.
  - by exists [].
Qed.

(** * Properties *)

(** C14: checkpoints are safe and complete.  Whatever arrives on the channel,
    whenever the timer fires and whatever the disk and the store do, the task
    has for each batch first synchronised exactly the targets of its pieces
    and only then told the store that they are durable; the pieces become
    durable once each, in the order in which they arrived; each batch is
    within the limits of pieces and bytes, a single larger piece excepted.
    While the task runs, what is not durable is in the batch, and when the
    channel is closed everything is durable.  The task stops early only for a
    failure of the disk or the store, or for an intent it must refuse: its own
    checks of deadlines, sums, permits and accounting never fail, and an
    intent is offered to the batch at most twice. *)
Theorem checkpoint_durability sync commit p inputs : policy_ok p -> Forall input_ok inputs ->
  let '(t, r) := task sync commit inputs (task_start p) in
  match r with
  | Ok _ => exists bs, effects t = effects_of bs /\ Forall (batch_good p) bs /\ intents_of bs ++ intents (batch t) = received inputs /\
      (is_closed inputs = true -> intents (batch t) = [])
  | Err e => task_failed p (received inputs) e t
  | Panic | NoFuel => False
  end.
Proof.
  intros Hp Hin. pose proof (task_run sync commit p inputs [] (task_start p) Hin (task_start_ready p Hp)) as H. unfold wp in H.
  destruct (task sync commit inputs (task_start p)) as [t [[]|e| |]]; try done. destruct H as [[Ht _] Hclosed].
  destruct (tk_effects _ _ _ Ht) as (bs & H1 & H2 & H3). exists bs. done.
Qed.

(** the timer.  The batch is due exactly when its oldest piece reached the
    maximum age, and the wait that [next_flush_in] computes ends at that
    moment, or at once when it has passed. *)
Theorem checkpoint_deadline s now : batch_ok s -> intents s <> [] -> Forall (fun i => verified_at i <= now) (intents s) ->
  exists oldest wait, (exists i, i ∈ intents s /\ verified_at i = oldest) /\ Forall (fun i => oldest <= verified_at i) (intents s) /\
    next_flush_in now s = Some wait /\ wait = Z.max 0 (oldest + max_age (policy s) - now) /\
    forall later, now <= later -> (flush_reason later s = Some MaximumAge <-> oldest + max_age (policy s) <= later) /\ (flush_reason later s = Some MaximumAge <-> now + wait <= later).
Proof.
  intros [Hp _ _ _ _ Ho _ _] Hne Hnow. destruct (minimum (verified_at <$> intents s)) as [oldest|] eqn:Hm; [|by apply minimum_None, fmap_nil_inv in Hm].
  destruct (minimum_spec _ _ Hm) as [Hin Hle]. apply list_elem_of_fmap in Hin as (i & Ei & Hi). rewrite Forall_forall in Hnow. pose proof (Hnow i Hi) as Hi'. cbv beta in Hi'.
  exists oldest, (Z.max 0 (oldest + max_age (policy s) - now)). split; [by exists i|]. split; [apply Forall_forall; intros j Hj; apply Hle, list_elem_of_fmap; by exists j|].
  unfold next_flush_in, oldest_age, flush_reason, oldest_age. rewrite Ho. cbn. destruct Hp as (Hage & _). split; [f_equal; unfold saturating_sub; lia|]. split; [done|].
  intros later Hlater. rewrite (bool_decide_false (intents s = [])) by done. cbn [negb andb]. unfold saturating_sub.
  destruct (max_age (policy s) <=? Z.max 0 (later - oldest)) eqn:E; split; split; intros; try done; lia.
Qed.

(** an intent names its targets once each, in their order, and exactly
    those it was given; it needs a length and a target. *)
Theorem intent_new_exact piece length verified targets :
  match CheckpointIntent_new piece length verified targets with
  | Ok i => length <> 0 /\ targets <> [] /\ piece_index i = piece /\ length_of i = length /\ verified_at i = verified /\
      StronglySorted (fun a b => target_cmp a b = Lt) (targets_of i) /\ (forall t, t ∈ targets_of i <-> t ∈ targets)
  | Err ZeroLengthPiece => length = 0
  | Err NoDurabilityTarget => length <> 0 /\ targets = []
  | _ => False
  end.
Proof.
  unfold CheckpointIntent_new. destruct (length =? 0) eqn:Hl; [lia|]. apply Z.eqb_neq in Hl. destruct (bool_decide (dedup (sort_by target_cmp targets) = [])) eqn:Hd.
  - apply bool_decide_eq_true in Hd. split; [done|]. destruct targets as [|t targets]; [done|]. exfalso. apply (not_elem_of_nil t). rewrite <- Hd, elem_of_dedup, elem_of_sort_by. apply list_elem_of_here.
  - apply bool_decide_eq_false in Hd. cbn. split; [done|]. split; [intros ->; done|]. split; [done|]. split; [done|]. split; [done|]. split.
    + exact (dedup_sorted _ (sort_by_sorted target_cmp targets)).
    + intros t. by rewrite elem_of_dedup, elem_of_sort_by.
Qed.

(** ** The properties at concrete inputs *)
Definition example_policy : CheckpointPolicy := mkPolicy 2000000000 100 4.
Definition example_inputs : list TaskInput :=
  [Received 0 (mkIntent 3 60 5 [WantedFile 0]) (fun _ => 10); Received 20 (mkIntent 1 50 15 [WantedFile 0; PartFile]) (fun _ => 30); ChannelClosed 40].
Lemma checkpoint_durability_witness : let '(t, r) := task (fun _ => true) (fun _ => true) example_inputs (task_start example_policy) in
  r = Ok tt /\ effects t = [Synced [WantedFile 0]; Durable [3]; Synced [WantedFile 0; PartFile]; Durable [1]] /\ intents (batch t) = [].
Proof.
  assert (Forall input_ok example_inputs) as Hin by (repeat constructor; cbn; lia).
  pose proof (checkpoint_durability (fun _ => true) (fun _ => true) example_policy example_inputs ltac:(cbv; repeat split; congruence) Hin) as H.
  destruct (task _ _ example_inputs (task_start example_policy)) as [t r] eqn:E. vm_compute in E. injection E as <- <-. split; [done|]. split; [done|].
  destruct H as (bs & _ & _ & _ & Hclosed). by apply Hclosed.
Defined.
Definition example_batch : CheckpointBatchState := pushed (mkIntent 3 60 5 [WantedFile 0]) 60 (CheckpointBatchState_new example_policy).
Lemma example_batch_ok : batch_ok example_batch.
Proof.
  assert (policy_ok example_policy) as Hp by (cbv; repeat split; congruence).
  apply (pushed_ok (mkIntent 3 60 5 [WantedFile 0]) (CheckpointBatchState_new example_policy)); [by apply empty_batch_ok|cbv; split; congruence|done|done].
Qed.
Lemma checkpoint_deadline_witness : exists wait, next_flush_in 1000 example_batch = Some wait /\ wait = 1999999005 /\ flush_reason (1000 + wait) example_batch = Some MaximumAge.
Proof.
  destruct (checkpoint_deadline example_batch 1000 example_batch_ok) as (oldest & wait & _ & _ & Hw & _ & Hlater); [done|by repeat constructor|].
  exists wait. vm_compute in Hw. injection Hw as <-. split; [done|]. split; [done|]. apply Hlater; lia.
Defined.
