(* ===== verification/PeerRegistry.v ===== *)
(** * The peers of a torrent (engine/peer.rs)

    The registry of known peers: where they were learned, whether and when
    they may be dialed, the phase of the connection to each, their failures
    and their integrity.  Durations are nanoseconds since the torrent
    started.  An address is the number of its bits; [is_valid_outbound_address]
    and the address families are those of engine/network.rs, and a connection
    identifier is that of engine/swarm.rs.

    The properties: identities, endpoints and attempts are unique and the
    registry keeps its bounds; the peer selected is the best one that may be
    dialed, and dialing it succeeds; an attempt that is over changes nothing
    any more; a banned peer stays banned, is kept and never selected; a full
    registry evicts the worst idle peer; failures back off. *)
From Stdlib Require Import String.
From S2P Require Import Prelude Ordered.
#[local] Open Scope Z_scope.

(** ** Addresses (engine/network.rs) *)
Inductive IpAddr := V4 (bits : Z) | V6 (bits : Z).
Inductive SocketAddr := SocketV4 (ip port : Z) | SocketV6 (ip port flowinfo scope_id : Z).
#[export] Instance SocketAddr_dec : EqDecision SocketAddr.
Proof. solve_decision. Defined.
Definition ip_of (a : SocketAddr) : IpAddr := match a with SocketV4 ip _ => V4 ip | SocketV6 ip _ _ _ => V6 ip end.
Definition port_of (a : SocketAddr) : Z := match a with SocketV4 _ port => port | SocketV6 _ port _ _ => port end.
Definition is_unspecified (ip : IpAddr) : bool := match ip with V4 bits => bits =? 0 | V6 bits => bits =? 0 end.
(** 224.0.0.0/4 and ff00::/8. *)
Definition is_multicast (ip : IpAddr) : bool := match ip with V4 bits => Z.shiftr bits 28 =? 14 | V6 bits => Z.shiftr bits 120 =? 255 end.
Definition is_broadcast (ip : IpAddr) : bool := match ip with V4 bits => bits =? 2 ^ 32 - 1 | V6 _ => false end.
(** fe80::/10. *)
Definition is_unicast_link_local (bits : Z) : bool := Z.shiftr bits 118 =? Z.shiftr 65152 6.
Definition is_valid_outbound_address (a : SocketAddr) : bool :=
  let invalid_ip := is_unspecified (ip_of a) || is_multicast (ip_of a) || is_broadcast (ip_of a) in
  let unscoped_link_local := match a with SocketV6 ip _ _ scope_id => is_unicast_link_local ip && (scope_id =? 0) | SocketV4 _ _ => false end in
  negb (port_of a =? 0) && negb invalid_ip && negb unscoped_link_local.
Record AddressFamilyPolicy := mkPolicy { ipv6_enabled : bool }.
Definition dual_stack : AddressFamilyPolicy := mkPolicy true.
Definition ipv4_only : AddressFamilyPolicy := mkPolicy false.
Definition permits (p : AddressFamilyPolicy) (ip : IpAddr) : bool := match ip with V4 _ => true | V6 _ => ipv6_enabled p end.
Definition ConnectionId_new (value : Z) : option Z := if value =? 0 then None else Some value.

Definition SECOND : Z := 1000000000.
Definition DEFAULT_MAX_PEER_RECORDS : Z := 1000.
Definition DEFAULT_MAX_CONSECUTIVE_FAILURES : Z := 3.
Definition DEFAULT_RECONNECT_BACKOFF : Z := 60 * SECOND.
Definition DRY_SWARM_PROBE_INITIAL_BACKOFF : Z := 5 * 60 * SECOND.
Definition DRY_SWARM_PROBE_MAX_BACKOFF : Z := 60 * 60 * SECOND.
Definition UTP_RETRY_INITIAL_BACKOFF : Z := 5 * 60 * SECOND.
Definition UTP_RETRY_MAX_BACKOFF : Z := 60 * 60 * SECOND.
(** A [Duration] has a [u64] of seconds. *)
Definition DURATION_LIMIT : Z := 2 ^ 64 * SECOND.
Definition duration_add (a b : Z) : option Z := if a + b <? DURATION_LIMIT then Some (a + b) else None.
Definition duration_mul (a n : Z) : option Z := if a * n <? DURATION_LIMIT then Some (a * n) else None.
Definition duration_saturating_add (a b : Z) : Z := Z.min (a + b) (DURATION_LIMIT - 1).

(** ** Sources *)
Inductive PeerSource := Tracker | PeerExchange | Dht | LocalDiscovery | Incoming | Manual | MagnetHint | Cache.
#[export] Instance PeerSource_dec : EqDecision PeerSource.
Proof. solve_decision. Defined.
Definition source_bit (s : PeerSource) : Z :=
  match s with Tracker => 0 | PeerExchange => 1 | Dht => 2 | LocalDiscovery => 3 | Incoming => 4 | Manual => 5 | MagnetHint => 6 | Cache => 7 end.
Definition mask (s : PeerSource) : Z := Z.shiftl 1 (source_bit s).
(** [PeerSources]: a set of bits of a [u16]. *)
Definition from_source (s : PeerSource) : Z := mask s.
Definition insert_source (s : PeerSource) (set : Z) : Z := Z.lor set (mask s).
Definition remove_from (s : PeerSource) (set : Z) : Z := Z.ldiff set (mask s).
Definition contains (set : Z) (s : PeerSource) : bool := negb (Z.land set (mask s) =? 0).
Definition count_ones (set : Z) : Z := foldr (fun i n => Z.b2z (Z.testbit set i) + n) 0 (seqZ 0 16).
Definition source_rank (set : Z) : Z :=
  foldr Z.max 0 (omap (fun '(s, rank) => if contains set s then Some rank else None)
    [(Manual, 8); (MagnetHint, 7); (LocalDiscovery, 6); (Tracker, 5); (Incoming, 4); (PeerExchange, 3); (Dht, 2); (Cache, 1)]).
Record PeerObservation := mkObservation { o_endpoint : SocketAddr; o_source : PeerSource; o_connectable : bool; o_utp_advertised : bool }.

(** ** Records *)
Inductive PeerPhase := PhaseIdle | Dialing (attempt_id : Z) | Connected (attempt_id : Z) | Banned.
#[export] Instance PeerPhase_dec : EqDecision PeerPhase.
Proof. solve_decision. Defined.
Inductive PeerFailure := FConnect | FHandshake | FSelfConnection | FDuplicatePeerId | FProtocol | FRemoteClosed.
#[export] Instance PeerFailure_dec : EqDecision PeerFailure.
Proof. solve_decision. Defined.
Inductive MseEndpointState := MseUnknown | MseCapable | PlainPreferred.
Inductive UtpEndpointState := UtpUnknown | Advertised | Confirmed | Suppressed (failures retry_at : Z).
#[export] Instance UtpEndpointState_dec : EqDecision UtpEndpointState.
Proof. solve_decision. Defined.
Definition should_try (u : UtpEndpointState) (now : Z) : bool := match u with Suppressed _ retry_at => retry_at <=? now | _ => true end.
Inductive UtpDialDecision := TryUtp | TcpWhileSuppressed.
#[export] Instance UtpDialDecision_dec : EqDecision UtpDialDecision.
Proof. solve_decision. Defined.
Inductive UtpConnectOutcome := UtpConnected | UtpFailed.
Record PeerIntegrity := mkIntegrity { trust_points : Z; hash_failures : Z; valid_pieces : Z; on_parole : bool }.
Definition integrity_default : PeerIntegrity := mkIntegrity 0 0 0 false.
Inductive PeerIntegrityAction := Retain | Ban.
Record PeerHistory := mkHistory {
  dial_attempts : Z;
  total_failures : Z;
  consecutive_failures : Z;
  last_dial_at : option Z;
  last_connected_at : option Z;
  last_disconnected_at : option Z;
  retry_at : option Z;
  last_failure : option PeerFailure;
  mse_endpoint : MseEndpointState;
  utp_endpoint : UtpEndpointState;
}.
Definition history_default : PeerHistory := mkHistory 0 0 0 None None None None None MseUnknown UtpUnknown.
Record PeerTransferTotals := mkTotals { payload_downloaded_bytes : Z; payload_uploaded_bytes : Z }.
Record PeerRecord := mkRecord {
  record_id : Z;
  endpoint : SocketAddr;
  sources : Z;
  connectable : bool;
  first_observed_at : Z;
  last_observed_at : Z;
  observation_order : Z;
  phase : PeerPhase;
  history : PeerHistory;
  transfers : PeerTransferTotals;
  integrity : PeerIntegrity;
  last_connection_attempt : option Z;
  incoming_connections : Z;
  ban_when_idle : bool;
  last_utp_outcome_attempt : option Z;
}.
(** Updates of one field. *)
Definition set_sources (x : Z) (r : PeerRecord) : PeerRecord :=
  mkRecord (record_id r) (endpoint r) x (connectable r) (first_observed_at r) (last_observed_at r) (observation_order r) (phase r) (history r) (transfers r) (integrity r)
    (last_connection_attempt r) (incoming_connections r) (ban_when_idle r) (last_utp_outcome_attempt r).
Definition set_seen (c : bool) (now : Z) (r : PeerRecord) : PeerRecord :=
  mkRecord (record_id r) (endpoint r) (sources r) c (first_observed_at r) now (observation_order r) (phase r) (history r) (transfers r) (integrity r)
    (last_connection_attempt r) (incoming_connections r) (ban_when_idle r) (last_utp_outcome_attempt r).
Definition set_phase (x : PeerPhase) (r : PeerRecord) : PeerRecord :=
  mkRecord (record_id r) (endpoint r) (sources r) (connectable r) (first_observed_at r) (last_observed_at r) (observation_order r) x (history r) (transfers r) (integrity r)
    (last_connection_attempt r) (incoming_connections r) (ban_when_idle r) (last_utp_outcome_attempt r).
Definition set_history (x : PeerHistory) (r : PeerRecord) : PeerRecord :=
  mkRecord (record_id r) (endpoint r) (sources r) (connectable r) (first_observed_at r) (last_observed_at r) (observation_order r) (phase r) x (transfers r) (integrity r)
    (last_connection_attempt r) (incoming_connections r) (ban_when_idle r) (last_utp_outcome_attempt r).
Definition set_transfers (x : PeerTransferTotals) (r : PeerRecord) : PeerRecord :=
  mkRecord (record_id r) (endpoint r) (sources r) (connectable r) (first_observed_at r) (last_observed_at r) (observation_order r) (phase r) (history r) x (integrity r)
    (last_connection_attempt r) (incoming_connections r) (ban_when_idle r) (last_utp_outcome_attempt r).
Definition set_integrity (x : PeerIntegrity) (r : PeerRecord) : PeerRecord :=
  mkRecord (record_id r) (endpoint r) (sources r) (connectable r) (first_observed_at r) (last_observed_at r) (observation_order r) (phase r) (history r) (transfers r) x
    (last_connection_attempt r) (incoming_connections r) (ban_when_idle r) (last_utp_outcome_attempt r).
Definition set_last_connection (x : option Z) (r : PeerRecord) : PeerRecord :=
  mkRecord (record_id r) (endpoint r) (sources r) (connectable r) (first_observed_at r) (last_observed_at r) (observation_order r) (phase r) (history r) (transfers r) (integrity r)
    x (incoming_connections r) (ban_when_idle r) (last_utp_outcome_attempt r).
Definition set_incoming (x : Z) (r : PeerRecord) : PeerRecord :=
  mkRecord (record_id r) (endpoint r) (sources r) (connectable r) (first_observed_at r) (last_observed_at r) (observation_order r) (phase r) (history r) (transfers r) (integrity r)
    (last_connection_attempt r) x (ban_when_idle r) (last_utp_outcome_attempt r).
Definition set_ban_when_idle (x : bool) (r : PeerRecord) : PeerRecord :=
  mkRecord (record_id r) (endpoint r) (sources r) (connectable r) (first_observed_at r) (last_observed_at r) (observation_order r) (phase r) (history r) (transfers r) (integrity r)
    (last_connection_attempt r) (incoming_connections r) x (last_utp_outcome_attempt r).
Definition set_utp_outcome (x : option Z) (r : PeerRecord) : PeerRecord :=
  mkRecord (record_id r) (endpoint r) (sources r) (connectable r) (first_observed_at r) (last_observed_at r) (observation_order r) (phase r) (history r) (transfers r) (integrity r)
    (last_connection_attempt r) (incoming_connections r) (ban_when_idle r) x.
Definition with_consecutive (x : Z) (h : PeerHistory) : PeerHistory :=
  mkHistory (dial_attempts h) (total_failures h) x (last_dial_at h) (last_connected_at h) (last_disconnected_at h) (retry_at h) (last_failure h) (mse_endpoint h) (utp_endpoint h).
Definition with_dial (attempts now : Z) (h : PeerHistory) : PeerHistory :=
  mkHistory attempts (total_failures h) (consecutive_failures h) (Some now) (last_connected_at h) (last_disconnected_at h) (retry_at h) (last_failure h) (mse_endpoint h) (utp_endpoint h).
Definition with_connected (now : Z) (h : PeerHistory) : PeerHistory :=
  mkHistory (dial_attempts h) (total_failures h) (consecutive_failures h) (last_dial_at h) (Some now) (last_disconnected_at h) (retry_at h) (last_failure h) (mse_endpoint h) (utp_endpoint h).
Definition with_disconnected (now : Z) (h : PeerHistory) : PeerHistory :=
  mkHistory (dial_attempts h) (total_failures h) (consecutive_failures h) (last_dial_at h) (last_connected_at h) (Some now) (retry_at h) (last_failure h) (mse_endpoint h) (utp_endpoint h).
Definition with_failure (total consecutive : Z) (retry : option Z) (failure : option PeerFailure) (h : PeerHistory) : PeerHistory :=
  mkHistory (dial_attempts h) total consecutive (last_dial_at h) (last_connected_at h) (last_disconnected_at h) retry failure (mse_endpoint h) (utp_endpoint h).
Definition with_mse (x : MseEndpointState) (h : PeerHistory) : PeerHistory :=
  mkHistory (dial_attempts h) (total_failures h) (consecutive_failures h) (last_dial_at h) (last_connected_at h) (last_disconnected_at h) (retry_at h) (last_failure h) x (utp_endpoint h).
Definition with_utp (x : UtpEndpointState) (h : PeerHistory) : PeerHistory :=
  mkHistory (dial_attempts h) (total_failures h) (consecutive_failures h) (last_dial_at h) (last_connected_at h) (last_disconnected_at h) (retry_at h) (last_failure h) (mse_endpoint h) x.

Record PeerRegistryConfig := mkConfig { max_records : Z; max_consecutive_failures : Z; reconnect_backoff : Z }.
Inductive PeerObservationDisposition := Added | Merged | Replaced (evicted : Z).
Record PeerObservationResult := mkResult { result_id : Z; disposition : PeerObservationDisposition }.
Inductive DialEligibility :=
| Eligible | NotConnectable | EDialing | EConnected | EBanned | Backoff (retry : Z) | FailureLimit (failures maximum : Z).
#[export] Instance DialEligibility_dec : EqDecision DialEligibility.
Proof. solve_decision. Defined.
Record PeerRegistryCounts := mkCounts { total : Z; eligible : Z; not_connectable : Z; dialing : Z; connected : Z; banned : Z; backed_off : Z; failure_limited : Z }.
Record DialCandidate := mkCandidate { c_record : Z; c_endpoint : SocketAddr }.
Record DialAttempt := mkAttempt { attempt_id : Z; connection_id : Z; a_record : Z; a_endpoint : SocketAddr; a_mse : MseEndpointState; utp_decision : UtpDialDecision }.
Inductive PeerRegistryError :=
| InvalidEndpoint (a : SocketAddr) | ZeroCapacity | ZeroFailureLimit | CapacityExhausted (maximum : Z) | UnknownRecord (id : Z) | CandidateChanged (id : Z)
| Ineligible (id : Z) (e : DialEligibility) | StaleAttempt (attempt : Z) | DuplicateUtpOutcome (attempt : Z) | UnexpectedUtpOutcome (attempt : Z) | ActivePeer (id : Z)
| InactiveIncoming (id : Z) | IdentifierOverflow (kind : string) | HistoryOverflow (id : Z) | TimeOverflow (id : Z).
Record PeerRegistry := mkRegistry { config : PeerRegistryConfig; records : list PeerRecord; next_record_id : Z; next_attempt_id : Z; next_observation_order : Z }.
Definition set_records (l : list PeerRecord) (s : PeerRegistry) : PeerRegistry := mkRegistry (config s) l (next_record_id s) (next_attempt_id s) (next_observation_order s).
Definition set_next_record (id order : Z) (s : PeerRegistry) : PeerRegistry := mkRegistry (config s) (records s) id (next_attempt_id s) order.
Definition set_next_attempt (id : Z) (s : PeerRegistry) : PeerRegistry := mkRegistry (config s) (records s) (next_record_id s) id (next_observation_order s).
Abbreviation method := (M PeerRegistry PeerRegistryError).
Definition PeerEndpoint_new (a : SocketAddr) : outcome PeerRegistryError SocketAddr := if is_valid_outbound_address a then Ok a else Err (InvalidEndpoint a).
Definition PeerRegistry_new (c : PeerRegistryConfig) : outcome PeerRegistryError PeerRegistry :=
  if max_records c =? 0 then Err ZeroCapacity
  else if max_consecutive_failures c =? 0 then Err ZeroFailureLimit
  else Ok (mkRegistry c [] 1 1 1).

(** ** Selection *)
Definition eligibility (r : PeerRecord) (now : Z) (c : PeerRegistryConfig) : DialEligibility :=
  if negb (incoming_connections r =? 0) then EConnected
  else
    match phase r with
    | Dialing _ => EDialing
    | Connected _ => EConnected
    | Banned => EBanned
    | PhaseIdle =>
      if negb (connectable r) then NotConnectable
      else if max_consecutive_failures c <=? consecutive_failures (history r) then FailureLimit (consecutive_failures (history r)) (max_consecutive_failures c)
      else
        match retry_at (history r) with
        | Some retry => if now <? retry then Backoff retry else Eligible
        | None => Eligible
        end
    end.
Definition is_failure_limited_probe (r : PeerRecord) (now : Z) (c : PeerRegistryConfig) : bool :=
  (incoming_connections r =? 0) && bool_decide (phase r = PhaseIdle) && connectable r && (max_consecutive_failures c <=? consecutive_failures (history r))
  && match retry_at (history r) with Some retry => retry <=? now | None => false end && (hash_failures (integrity r) =? 0)
  && match last_failure (history r) with Some (FConnect | FHandshake | FRemoteClosed) => true | _ => false end.
Definition compare_dial_candidates (l r : PeerRecord) : comparison :=
  then_with (then_with (then_with (then_with
    (Z.compare (consecutive_failures (history l)) (consecutive_failures (history r)))
    (option_cmp (last_dial_at (history l)) (last_dial_at (history r))))
    (Z.compare (source_rank (sources r)) (source_rank (sources l))))
    (Z.compare (observation_order l) (observation_order r)))
    (Z.compare (record_id l) (record_id r)).
Definition is_some {A} (o : option A) : bool := match o with Some _ => true | None => false end.
Definition compare_probe_candidates (l r : PeerRecord) : comparison :=
  then_with (then_with (then_with (then_with (then_with (then_with
    (bool_cmp (is_some (last_connected_at (history r))) (is_some (last_connected_at (history l))))
    (Z.compare (count_ones (sources r)) (count_ones (sources l))))
    (bool_cmp (contains (sources r) Tracker) (contains (sources l) Tracker)))
    (Z.compare (last_observed_at r) (last_observed_at l)))
    (option_cmp (last_dial_at (history l)) (last_dial_at (history r))))
    (Z.compare (consecutive_failures (history l)) (consecutive_failures (history r))))
    (Z.compare (record_id l) (record_id r)).
(** [Iterator::min_by], the first of the least, and [max_by], the last of the greatest. *)
Definition min_by {A} (cmp : A -> A -> comparison) (l : list A) : option A :=
  fold_left (fun best x => match best with None => Some x | Some b => match cmp b x with Gt => Some x | _ => Some b end end) l None.
Definition max_by {A} (cmp : A -> A -> comparison) (l : list A) : option A :=
  fold_left (fun best x => match best with None => Some x | Some b => match cmp b x with Gt => Some b | _ => Some x end end) l None.
Definition candidate_of (r : PeerRecord) : DialCandidate := mkCandidate (record_id r) (endpoint r).
Definition selectable (now : Z) (p : AddressFamilyPolicy) (c : PeerRegistryConfig) (r : PeerRecord) : bool :=
  permits p (ip_of (endpoint r)) && bool_decide (eligibility r now c = Eligible).
Definition select_with_address_families (now : Z) (p : AddressFamilyPolicy) (s : PeerRegistry) : option DialCandidate :=
  candidate_of <$> min_by compare_dial_candidates (filter (fun r => selectable now p (config s) r = true) (records s)).
Definition select (now : Z) (s : PeerRegistry) : option DialCandidate := select_with_address_families now dual_stack s.
Definition probe_selectable (now : Z) (p : AddressFamilyPolicy) (c : PeerRegistryConfig) (r : PeerRecord) : bool :=
  permits p (ip_of (endpoint r)) && is_failure_limited_probe r now c.
Definition select_failure_limited_probe (now : Z) (p : AddressFamilyPolicy) (s : PeerRegistry) : option DialCandidate :=
  candidate_of <$> min_by compare_probe_candidates (filter (fun r => probe_selectable now p (config s) r = true) (records s)).

(** ** Records of the registry *)
Definition record_index (id : Z) (s : PeerRegistry) : option nat := fst <$> list_find (fun r => record_id r = id) (records s).
Definition get_record (id : Z) (s : PeerRegistry) : option PeerRecord := snd <$> list_find (fun r => record_id r = id) (records s).
Definition find_endpoint (e : SocketAddr) (s : PeerRegistry) : option PeerRecord := snd <$> list_find (fun r => endpoint r = e) (records s).
Definition count (e : DialEligibility) (c : PeerRegistryCounts) : PeerRegistryCounts :=
  match e with
  | Eligible => mkCounts (total c) (eligible c + 1) (not_connectable c) (dialing c) (connected c) (banned c) (backed_off c) (failure_limited c)
  | NotConnectable => mkCounts (total c) (eligible c) (not_connectable c + 1) (dialing c) (connected c) (banned c) (backed_off c) (failure_limited c)
  | EDialing => mkCounts (total c) (eligible c) (not_connectable c) (dialing c + 1) (connected c) (banned c) (backed_off c) (failure_limited c)
  | EConnected => mkCounts (total c) (eligible c) (not_connectable c) (dialing c) (connected c + 1) (banned c) (backed_off c) (failure_limited c)
  | EBanned => mkCounts (total c) (eligible c) (not_connectable c) (dialing c) (connected c) (banned c + 1) (backed_off c) (failure_limited c)
  | Backoff _ => mkCounts (total c) (eligible c) (not_connectable c) (dialing c) (connected c) (banned c) (backed_off c + 1) (failure_limited c)
  | FailureLimit _ _ => mkCounts (total c) (eligible c) (not_connectable c) (dialing c) (connected c) (banned c) (backed_off c) (failure_limited c + 1)
  end.
Definition counts (now : Z) (s : PeerRegistry) : PeerRegistryCounts :=
  fold_left (fun c r => count (eligibility r now (config s)) c) (records s) (mkCounts (len (records s)) 0 0 0 0 0 0 0).
Record PeerRecordSnapshot := mkRecordSnapshot {
  rs_record_id : Z;
  rs_record_endpoint : SocketAddr;
  rs_sources : Z;
  rs_connectable : bool;
  rs_first_observed_at : Z;
  rs_last_observed_at : Z;
  rs_record_phase : PeerPhase;
  rs_eligibility : DialEligibility;
  rs_history : PeerHistory;
  rs_transfers : PeerTransferTotals;
  rs_integrity : PeerIntegrity;
}.
Record PeerRegistrySnapshot := mkRegistrySnapshot { captured_at : Z; maximum_records : Z; snapshot_counts : PeerRegistryCounts; snapshot_records : list PeerRecordSnapshot }.
Definition snapshot (now : Z) (s : PeerRegistry) : PeerRegistrySnapshot :=
  mkRegistrySnapshot now (max_records (config s)) (counts now s)
    ((fun r => mkRecordSnapshot (record_id r) (endpoint r) (sources r) (connectable r) (first_observed_at r) (last_observed_at r) (phase r) (eligibility r now (config s))
        (history r) (transfers r) (integrity r)) <$> records s).
(** [Vec::swap_remove]: the last element takes the place of the removed one. *)
Definition swap_remove {A} (i : nat) (l : list A) : list A :=
  match last l with
  | None => l
  | Some x => if decide (S i = length l) then take i l else <[i := x]> (take (length l - 1) l)
  end.
(** One record is changed in place. *)
Definition update (i : nat) (f : PeerRecord -> PeerRecord) : method unit := modify (fun s => set_records (alter f i (records s)) s).
(** [self.records.iter_mut().find(...)]: the position and the record. *)
Definition locate (P : PeerRecord -> bool) (e : PeerRegistryError) : method (nat * PeerRecord) :=
  s ← get; lift (ok_or (list_find (fun r => P r = true) (records s)) e).
Definition locate_record (id : Z) : method (nat * PeerRecord) := locate (fun r => record_id r =? id) (UnknownRecord id).
Definition remove_source (source : PeerSource) : method Z :=
  s ← get;
  let before := len (records s) in
  modify (fun s => set_records (filter (fun r => negb (sources r =? 0) || negb (bool_decide (phase r = PhaseIdle)) = true)
    ((fun r => set_sources (remove_from source (sources r)) r) <$> records s)) s);;
  s ← get;
  mret (before - len (records s)).
Definition remove_idle_disallowed (p : AddressFamilyPolicy) : method Z :=
  s ← get;
  let before := len (records s) in
  modify (fun s => set_records (filter (fun r => permits p (ip_of (endpoint r)) || negb (bool_decide (phase r = PhaseIdle)) || negb (incoming_connections r =? 0) = true) (records s)) s);;
  s ← get;
  mret (before - len (records s)).
Definition has_disallowed (p : AddressFamilyPolicy) (s : PeerRegistry) : bool := existsb (fun r => negb (permits p (ip_of (endpoint r)))) (records s).
Definition remove_endpoint_source (e : SocketAddr) (source : PeerSource) : method bool :=
  s ← get;
  match list_find (fun r => endpoint r = e) (records s) with
  | None => mret false
  | Some (i, r) =>
    update i (set_sources (remove_from source (sources r)));;
    if (remove_from source (sources r) =? 0) && bool_decide (phase r = PhaseIdle) then modify (fun s => set_records (swap_remove i (records s)) s);; mret true
    else mret false
  end.
Definition compare_eviction_candidates (c : PeerRegistryConfig) (l r : PeerRecord) : comparison :=
  let at_limit x := max_consecutive_failures c <=? consecutive_failures (history x) in
  then_with (then_with (then_with (then_with
    (bool_cmp (at_limit l) (at_limit r))
    (bool_cmp (negb (connectable l)) (negb (connectable r))))
    (Z.compare (consecutive_failures (history l)) (consecutive_failures (history r))))
    (Z.compare (last_observed_at r) (last_observed_at l)))
    (Z.compare (observation_order r) (observation_order l)).
Definition evictable (r : PeerRecord) : bool := bool_decide (phase r = PhaseIdle) && (incoming_connections r =? 0).
Definition eviction_candidate (s : PeerRegistry) : option nat :=
  fst <$> max_by (fun l r => compare_eviction_candidates (config s) l.2 r.2) (filter (fun x => evictable x.2 = true) (imap pair (records s))).
(** What a new observation adds to a known peer. *)
Definition observed_again (o : PeerObservation) (now : Z) (r : PeerRecord) : PeerRecord :=
  let r := set_seen (connectable r || o_connectable o) now (set_sources (insert_source (o_source o) (sources r)) r) in
  let h := history r in
  let h := if bool_decide (o_source o = Tracker) && negb (consecutive_failures h =? 0) then with_consecutive (consecutive_failures h - 1) h else h in
  let h := if o_utp_advertised o && negb (bool_decide (utp_endpoint h = Confirmed)) then with_utp Advertised h else h in
  set_history h r.
Definition new_record (id order : Z) (o : PeerObservation) (now : Z) : PeerRecord :=
  mkRecord id (o_endpoint o) (from_source (o_source o)) (o_connectable o) now now order PhaseIdle
    (if o_utp_advertised o then with_utp Advertised history_default else history_default) (mkTotals 0 0) integrity_default None 0 false None.
Definition observe (o : PeerObservation) (now : Z) : method PeerObservationResult :=
  s ← get;
  match list_find (fun r => endpoint r = o_endpoint o) (records s) with
  | Some (i, r) => update i (observed_again o now);; mret (mkResult (record_id r) Merged)
  | None =>
    let id := next_record_id s in
    next_id ← lift (ok_or (checked_add 64 id 1) (IdentifierOverflow "peer record"));
    let order := next_observation_order s in
    next_order ← lift (ok_or (checked_add 64 order 1) (IdentifierOverflow "peer observation order"));
    d ← (if len (records s) =? max_records (config s) then
           i ← lift (ok_or (eviction_candidate s) (CapacityExhausted (max_records (config s))));
           evicted ← lift (expect (records s !! i));
           modify (fun s => set_records (swap_remove i (records s)) s);;
           mret (Replaced (record_id evicted))
         else mret Added);
    modify (fun s => set_records (records s ++ [new_record id order o now]) s);;
    modify (set_next_record next_id next_order);;
    mret (mkResult id d)
  end.

(** ** Dialing and connections *)
Definition begin_dial_with_connection_id_and_policy (c : DialCandidate) (now connection : Z) (allow_failure_limited_probe : bool) : method DialAttempt :=
  s ← get;
  '(i, r) ← lift (ok_or (list_find (fun r => record_id r = c_record c) (records s)) (UnknownRecord (c_record c)));
  if negb (bool_decide (endpoint r = c_endpoint c)) then fail (CandidateChanged (c_record c))
  else
    let e := eligibility r now (config s) in
    let probe_eligible := allow_failure_limited_probe && is_failure_limited_probe r now (config s) in
    if negb (bool_decide (e = Eligible)) && negb probe_eligible then fail (Ineligible (c_record c) e)
    else
      let attempt := next_attempt_id s in
      next ← lift (ok_or (checked_add 64 attempt 1) (IdentifierOverflow "dial attempt"));
      attempts ← lift (ok_or (checked_add 32 (dial_attempts (history r)) 1) (HistoryOverflow (c_record c)));
      update i (fun r => set_history (with_dial attempts now (history r)) (set_phase (Dialing attempt) r));;
      modify (set_next_attempt next);;
      mret (mkAttempt attempt connection (c_record c) (c_endpoint c) (mse_endpoint (history r)) (if should_try (utp_endpoint (history r)) now then TryUtp else TcpWhileSuppressed)).
Definition begin_dial_with_connection_id (c : DialCandidate) (now connection : Z) : method DialAttempt := begin_dial_with_connection_id_and_policy c now connection false.
Definition begin_failure_limited_probe_with_connection_id (c : DialCandidate) (now connection : Z) : method DialAttempt := begin_dial_with_connection_id_and_policy c now connection true.
Definition begin_dial (c : DialCandidate) (now : Z) : method DialAttempt :=
  s ← get;
  connection ← lift (ok_or (ConnectionId_new (next_attempt_id s)) (IdentifierOverflow "connection"));
  begin_dial_with_connection_id c now connection.
Definition record_for_attempt_mut (a : DialAttempt) (wants_connected : bool) : method (nat * PeerRecord) :=
  '(i, r) ← locate_record (a_record a);
  if negb (bool_decide (endpoint r = a_endpoint a)) then fail (StaleAttempt (attempt_id a))
  else
    let expected := if wants_connected then Connected (attempt_id a) else Dialing (attempt_id a) in
    if negb (bool_decide (phase r = expected)) then fail (StaleAttempt (attempt_id a)) else mret (i, r).
Definition utp_retry_backoff (failures : Z) : Z :=
  let shift := Z.min (saturating_sub failures 1) 4 in
  Z.min (default UTP_RETRY_MAX_BACKOFF (duration_mul UTP_RETRY_INITIAL_BACKOFF (Z.shiftl 1 shift))) UTP_RETRY_MAX_BACKOFF.
Definition record_utp_outcome (a : DialAttempt) (now : Z) (outcome : UtpConnectOutcome) : method unit :=
  if negb (bool_decide (utp_decision a = TryUtp)) then fail (UnexpectedUtpOutcome (attempt_id a))
  else
    '(i, r) ← record_for_attempt_mut a false;
    if bool_decide (last_utp_outcome_attempt r = Some (attempt_id a)) then fail (DuplicateUtpOutcome (attempt_id a))
    else
      state ← lift (match outcome with
                    | UtpConnected => Ok Confirmed
                    | UtpFailed =>
                      let failures := match utp_endpoint (history r) with Suppressed failures _ => saturating_add 8 failures 1 | _ => 1 end in
                      retry ← ok_or (duration_add now (utp_retry_backoff failures)) (TimeOverflow (record_id r));
                      Ok (Suppressed failures retry)
                    end);
      update i (fun r => set_utp_outcome (Some (attempt_id a)) (set_history (with_utp state (history r)) r)).
Definition update_mse_endpoint (a : DialAttempt) (state : MseEndpointState) : method unit :=
  '(i, r) ← record_for_attempt_mut a false;
  update i (fun r => set_history (with_mse state (history r)) r).
(** [apply_failure] changes nothing when it fails. *)
Definition apply_failure (now : Z) (failure : PeerFailure) (backoff : Z) (r : PeerRecord) : outcome PeerRegistryError PeerRecord :=
  let h := history r in
  total ← ok_or (checked_add 32 (total_failures h) 1) (HistoryOverflow (record_id r));
  consecutive ← ok_or (checked_add 32 (consecutive_failures h) 1) (HistoryOverflow (record_id r));
  wait ← ok_or (duration_mul backoff consecutive) (TimeOverflow (record_id r));
  retry ← ok_or (duration_add now wait) (TimeOverflow (record_id r));
  Ok (set_history (with_failure total consecutive (Some retry) (Some failure) h) r).
Definition settle_pending_ban (r : PeerRecord) : PeerRecord :=
  if ban_when_idle r && (incoming_connections r =? 0) && bool_decide (phase r = PhaseIdle) then set_ban_when_idle false (set_phase Banned r) else r.
(** The failure is applied to the record as the call has left it so far. *)
Definition fail_record (i : nat) (now : Z) (failure : PeerFailure) : method unit :=
  s ← get;
  r ← lift (expect (records s !! i));
  r ← lift (apply_failure now failure (reconnect_backoff (config s)) r);
  update i (fun _ => r).
Definition incoming_connected (id now : Z) : method unit :=
  '(i, r) ← locate_record id;
  n ← lift (ok_or (checked_add 32 (incoming_connections r) 1) (HistoryOverflow id));
  update i (fun r => set_history (with_connected now (history r)) (set_incoming n r)).
Definition incoming_closed (id now : Z) (failure : option PeerFailure) : method unit :=
  '(i, r) ← locate_record id;
  match checked_sub (incoming_connections r) 1 with
  | None => fail (InactiveIncoming id)
  | Some n =>
    update i (fun r => set_history (with_disconnected now (history r)) (set_incoming n r));;
    match failure with Some f => fail_record i now f | None => mret tt end;;
    update i settle_pending_ban
  end.
Definition record_transfer (id downloaded uploaded : Z) : method unit :=
  '(i, r) ← locate_record id;
  update i (fun r => set_transfers (mkTotals (saturating_add 64 (payload_downloaded_bytes (transfers r)) downloaded) (saturating_add 64 (payload_uploaded_bytes (transfers r)) uploaded)) r).
Definition dial_failed (a : DialAttempt) (now : Z) (failure : PeerFailure) : method unit :=
  '(i, r) ← record_for_attempt_mut a false;
  update i (set_phase PhaseIdle);;
  fail_record i now failure;;
  update i settle_pending_ban.
Definition dial_cancelled (a : DialAttempt) : method unit :=
  '(i, r) ← record_for_attempt_mut a false;
  update i (set_phase PhaseIdle);;
  update i settle_pending_ban.
Definition dial_succeeded (a : DialAttempt) (now : Z) : method unit :=
  '(i, r) ← record_for_attempt_mut a false;
  update i (fun r => set_last_connection (Some (attempt_id a))
    (set_history (with_connected now (with_failure (total_failures (history r)) 0 None None (history r))) (set_phase (Connected (attempt_id a)) r))).
Definition connection_closed (a : DialAttempt) (now : Z) (failure : option PeerFailure) : method unit :=
  '(i, r) ← record_for_attempt_mut a true;
  update i (fun r => set_history (with_disconnected now (history r)) (set_phase PhaseIdle r));;
  match failure with Some f => fail_record i now f | None => mret tt end;;
  update i settle_pending_ban.
Definition ban (id : Z) : method unit :=
  '(i, r) ← locate_record id;
  if negb (incoming_connections r =? 0) then fail (ActivePeer id)
  else
    match phase r with
    | PhaseIdle | Banned => update i (fun r => set_ban_when_idle false (set_phase Banned r))
    | _ => fail (ActivePeer id)
    end.

(** ** Integrity *)
Definition record_for_integrity_mut (a : DialAttempt) : method (nat * PeerRecord) :=
  '(i, r) ← locate_record (a_record a);
  let current_generation :=
    match phase r with
    | Connected attempt => attempt =? attempt_id a
    | PhaseIdle | Banned => bool_decide (last_connection_attempt r = Some (attempt_id a))
    | Dialing _ => false
    end in
  if negb (bool_decide (endpoint r = a_endpoint a)) || negb current_generation then fail (StaleAttempt (attempt_id a)) else mret (i, r).
Definition record_for_incoming_integrity_mut (id : Z) : method (nat * PeerRecord) :=
  '(i, r) ← locate_record id;
  if incoming_connections r =? 0 then fail (UnknownRecord id) else mret (i, r).
(** Points are [i8]. *)
Definition saturating_i8 (x : Z) : Z := Z.max (-128) (Z.min x 127).
Definition piece_passed (r : PeerRecord) : PeerRecord :=
  set_integrity (mkIntegrity (Z.min (saturating_i8 (trust_points (integrity r) + 1)) 8) (hash_failures (integrity r)) (saturating_add 32 (valid_pieces (integrity r)) 1) false) r.
Definition failed_integrity (i : PeerIntegrity) : PeerIntegrity :=
  mkIntegrity (Z.max (saturating_i8 (trust_points i - 2)) (-7)) (saturating_add 8 (hash_failures i) 1) (valid_pieces i) true.
Definition piece_failed (i : nat) (r : PeerRecord) (known_bad : bool) : method PeerIntegrityAction :=
  let integrity' := failed_integrity (integrity r) in
  update i (set_integrity integrity');;
  if known_bad || (trust_points integrity' <=? -7) then update i (set_ban_when_idle true);; mret Ban else mret Retain.
Definition record_piece_passed (a : DialAttempt) : method unit := '(i, r) ← record_for_integrity_mut a; update i piece_passed.
Definition record_piece_failed (a : DialAttempt) (known_bad : bool) : method PeerIntegrityAction := '(i, r) ← record_for_integrity_mut a; piece_failed i r known_bad.
Definition record_incoming_piece_passed (id : Z) : method unit := '(i, r) ← record_for_incoming_integrity_mut id; update i piece_passed.
Definition record_incoming_piece_failed (id : Z) (known_bad : bool) : method PeerIntegrityAction :=
  '(i, r) ← record_for_incoming_integrity_mut id; piece_failed i r known_bad.

(** ** Probes of a dry swarm *)
Definition dry_swarm_probe_backoff (admissions : Z) : Z :=
  let shift := Z.min (saturating_sub admissions 1) 4 in
  Z.min (default DRY_SWARM_PROBE_MAX_BACKOFF (duration_mul DRY_SWARM_PROBE_INITIAL_BACKOFF (Z.shiftl 1 shift))) DRY_SWARM_PROBE_MAX_BACKOFF.
Record DrySwarmProbeState := mkProbe { admissions : Z; next_at : option Z }.
Record DrySwarmProbeAdmission := mkAdmission { ordinal : Z; admitted_next_at : Z; next_delay : Z }.
Definition probe_default : DrySwarmProbeState := mkProbe 0 None.
Definition is_ready (now : Z) (p : DrySwarmProbeState) : bool := match next_at p with None => true | Some t => t <=? now end.
Definition probe_admit (now : Z) (p : DrySwarmProbeState) : DrySwarmProbeState * DrySwarmProbeAdmission :=
  let n := saturating_add 32 (admissions p) 1 in
  let delay := dry_swarm_probe_backoff n in
  let at_ := duration_saturating_add now delay in
  (mkProbe n (Some at_), mkAdmission n at_ delay).

(** * Lemmas *)

(** ** How a record, and the registry, can change *)
Inductive phase_step (n : Z) : PeerPhase -> PeerPhase -> Z -> Prop :=
| ps_same p : phase_step n p p n
| ps_dial : phase_step n PhaseIdle (Dialing n) (n + 1)
| ps_connect a : phase_step n (Dialing a) (Connected a) n
| ps_dial_over a : phase_step n (Dialing a) PhaseIdle n
| ps_closed a : phase_step n (Connected a) PhaseIdle n
| ps_ban : phase_step n PhaseIdle Banned n.
Definition attempt_of (p : PeerPhase) : option Z := match p with Dialing a | Connected a => Some a | _ => None end.
Definition known_attempt (n : Z) (a : option Z) : Prop := match a with Some a => a < n | None => True end.
(** The fields keep the ranges of their types, and points between -7 and 8. *)
Record record_ok (n : Z) (r : PeerRecord) : Prop := {
  ro_trust : -7 <= trust_points (integrity r) <= 8;
  ro_hash : is_u 8 (hash_failures (integrity r));
  ro_valid : is_u 32 (valid_pieces (integrity r));
  ro_dials : is_u 32 (dial_attempts (history r));
  ro_total : is_u 32 (total_failures (history r));
  ro_consecutive : is_u 32 (consecutive_failures (history r));
  ro_incoming : is_u 32 (incoming_connections r);
  ro_attempt : known_attempt n (attempt_of (phase r));
  ro_connection : known_attempt n (last_connection_attempt r);
}.
Record rstep (n : Z) (r r' : PeerRecord) (n' : Z) : Prop := {
  rs_id : record_id r' = record_id r;
  rs_endpoint : endpoint r' = endpoint r;
  rs_order : observation_order r' = observation_order r;
  rs_phase : phase_step n (phase r) (phase r') n';
  rs_flag : ban_when_idle r = true -> ban_when_idle r' = true \/ phase r' = Banned;
  rs_ok : record_ok n r -> record_ok n' r';
}.
(** A peer that lost a source. *)
Definition resourced (r r' : PeerRecord) : Prop := exists x, r' = set_sources x r.
Inductive evolves (s : PeerRegistry) : PeerRegistry -> Prop :=
| ev_update i r r' n' : records s !! i = Some r -> rstep (next_attempt_id s) r r' n' ->
    evolves s (mkRegistry (config s) (<[i := r']> (records s)) (next_record_id s) n' (next_observation_order s))
| ev_drop kept dropped l : records s ≡ₚ kept ++ dropped -> Forall (fun r => phase r = PhaseIdle) dropped -> Forall2 resourced kept l ->
    forall l', l' ≡ₚ l -> evolves s (set_records l' s)
| ev_observe kept dropped o now : records s ≡ₚ kept ++ dropped -> Forall (fun r => phase r = PhaseIdle /\ incoming_connections r = 0) dropped ->
    len kept < max_records (config s) -> Forall (fun r => endpoint r <> o_endpoint o) kept ->
    forall l', l' ≡ₚ kept ++ [new_record (next_record_id s) (next_observation_order s) o now] ->
    evolves s (mkRegistry (config s) l' (next_record_id s + 1) (next_attempt_id s) (next_observation_order s + 1)).

Lemma known_attempt_mono n m a : n <= m -> known_attempt n a -> known_attempt m a.
Proof. destruct a; cbn; lia. Qed.
Lemma locate_ok P e s (Q : nat * PeerRecord -> PeerRegistry -> Prop) (R : PeerRegistryError -> PeerRegistry -> Prop) :
  (forall i r, records s !! i = Some r -> P r = true -> Q (i, r) s) -> R e s -> wp (locate P e) s Q R.
Proof.
  intros HQ HR. unfold locate. do 2 wp_step. apply wp_lift_ok_or; [|done]. intros [i r] (Hi & HP & _)%list_find_Some. by apply HQ.
Qed.
Lemma locate_record_ok id s (Q : nat * PeerRecord -> PeerRegistry -> Prop) (R : PeerRegistryError -> PeerRegistry -> Prop) :
  (forall i r, records s !! i = Some r -> record_id r = id -> Q (i, r) s) -> R (UnknownRecord id) s -> wp (locate_record id) s Q R.
Proof. intros HQ HR. apply locate_ok; [|done]. intros i r Hi Hr. apply HQ; [done|]. lia. Qed.
Lemma alter_at {A} (f : A -> A) i (l : list A) x : l !! i = Some x -> alter f i l = <[i := f x]> l.
Proof. intros Hi. apply list_eq. intros j. destruct (decide (j = i)) as [->|Hne]; [|by rewrite list_lookup_alter_ne, list_lookup_insert_ne].
  rewrite list_lookup_alter_eq, Hi. cbn. rewrite list_lookup_insert_eq; [done|]. by eapply lookup_lt_Some. Qed.
(** An update in place is a step when the record's is. *)
Definition reaches (s s' : PeerRegistry) : Prop := rtc evolves s s'.
Lemma update_ok i f s r (Q : unit -> PeerRegistry -> Prop) R : records s !! i = Some r -> rstep (next_attempt_id s) r (f r) (next_attempt_id s) ->
  (let s' := set_records (<[i := f r]> (records s)) s in evolves s s' -> records s' !! i = Some (f r) -> Q tt s') -> wp (update i f) s Q R.
Proof.
  intros Hi Hstep HQ. unfold update. wp_step. rewrite (alter_at f i (records s) r Hi). apply HQ.
  - exact (ev_update s i r (f r) (next_attempt_id s) Hi Hstep).
  - cbn. apply list_lookup_insert_eq. by eapply lookup_lt_Some.
Qed.
Lemma rstep_same n r r' : record_id r' = record_id r -> endpoint r' = endpoint r -> observation_order r' = observation_order r -> phase r' = phase r ->
  (ban_when_idle r = true -> ban_when_idle r' = true) -> (record_ok n r -> record_ok n r') -> rstep n r r' n.
Proof. intros H1 H2 H3 H4 H5 H6. split; try done; [rewrite H4; constructor|]. intros H. left. by apply H5. Qed.
Ltac rec_ok := let H := fresh in intros H; destruct H; split; cbn; try done.
Ltac rec_same := apply rstep_same; [done|done|done|done|done|rec_ok].
Lemma checked_add_u w a b c : 0 <= a -> 0 <= b -> checked_add w a b = Some c -> c = a + b /\ is_u w c.
Proof. intros Ha Hb [-> Hc]%checked_add_Some. unfold is_u. lia. Qed.
Lemma settle_step n r : rstep n r (settle_pending_ban r) n.
Proof.
  unfold settle_pending_ban. destruct (ban_when_idle r && (incoming_connections r =? 0) && bool_decide (phase r = PhaseIdle)) eqn:H; [|rec_same].
  apply andb_prop in H as [_ Hp%bool_decide_eq_true]. split; [done|done|done|cbn; rewrite Hp; constructor|by right|rec_ok].
Qed.
Lemma apply_failure_step n now f b r r' : record_ok n r -> apply_failure now f b r = Ok r' ->
  rstep n r r' n /\ consecutive_failures (history r') = consecutive_failures (history r) + 1 /\ retry_at (history r') = Some (now + b * (consecutive_failures (history r) + 1)) /\
  last_failure (history r') = Some f /\ phase r' = phase r /\ incoming_connections r' = incoming_connections r /\ ban_when_idle r' = ban_when_idle r /\ connectable r' = connectable r.
Proof.
  intros Hok H. unfold apply_failure in H. destruct (checked_add 32 (total_failures (history r)) 1) as [t|] eqn:E1; [|done]. cbn [ok_or] in H. rewrite ok_bind in H.
  destruct (checked_add 32 (consecutive_failures (history r)) 1) as [c|] eqn:E2; [|done]. cbn [ok_or] in H. rewrite ok_bind in H.
  destruct (duration_mul b c) as [w|] eqn:E3; [|done]. cbn [ok_or] in H. rewrite ok_bind in H. destruct (duration_add now w) as [x|] eqn:E4; [|done]. injection H as <-.
  unfold duration_mul, duration_add in *. destruct (_ <? _); [|done]. injection E3 as <-. destruct (_ <? _); [|done]. injection E4 as <-.
  destruct (ro_total _ _ Hok) as [Ht _]. destruct (ro_consecutive _ _ Hok) as [Hc _]. apply checked_add_u in E1 as [_ Ht']; [|lia|lia]. apply checked_add_u in E2 as [-> Hc']; [|lia|lia].
  split; [rec_same|]. done.
Qed.
Lemma apply_failure_returns now f b r : returns (apply_failure now f b r).
Proof. unfold apply_failure. repeat returns_step. Qed.
(** The call that was given a record's place fails it. *)
Lemma fail_record_ok i now f s r (Q : unit -> PeerRegistry -> Prop) (R : PeerRegistryError -> PeerRegistry -> Prop) : records s !! i = Some r -> record_ok (next_attempt_id s) r ->
  (forall r', apply_failure now f (reconnect_backoff (config s)) r = Ok r' -> let s' := set_records (<[i := r']> (records s)) s in evolves s s' -> records s' !! i = Some r' -> Q tt s') ->
  (forall e, apply_failure now f (reconnect_backoff (config s)) r = Err e -> R e s) -> wp (fail_record i now f) s Q R.
Proof.
  intros Hi Hok HQ HR. unfold fail_record. do 3 wp_step. rewrite Hi. cbn [expect]. do 2 wp_step.
  pose proof (apply_failure_returns now f (reconnect_backoff (config s)) r) as Hret. destruct (apply_failure _ _ _ r) as [r'|e| |] eqn:E; try done; wp_step; [|by apply HR].
  destruct (apply_failure_step _ _ _ _ _ _ Hok E) as [Hstep _]. eapply (update_ok i (fun _ => r') s r); [done|done|]. intros s' Hev Hi'. by apply HQ.
Qed.
Lemma reaches_refl s : reaches s s.
Proof. apply rtc_refl. Qed.
Lemma reaches_one s s' : evolves s s' -> reaches s s'.
Proof. apply rtc_once. Qed.
(** A call that finds a record by its attempt. *)
Lemma record_for_attempt_ok (a : DialAttempt) (b : bool) (s : PeerRegistry) (Q : nat * PeerRecord -> PeerRegistry -> Prop) (R : PeerRegistryError -> PeerRegistry -> Prop) :
  (forall i r, records s !! i = Some r -> record_id r = a_record a -> endpoint r = a_endpoint a -> phase r = (if b then Connected (attempt_id a) else Dialing (attempt_id a)) -> Q (i, r) s) ->
  (forall e, R e s) -> wp (record_for_attempt_mut a b) s Q R.
Proof.
  intros HQ HR. unfold record_for_attempt_mut. wp_step. apply locate_record_ok; [|done]. intros i r Hi Hr.
  destruct (bool_decide (endpoint r = a_endpoint a)) eqn:He; cbn [negb]; [|by wp_step]. apply bool_decide_eq_true in He.
  destruct (bool_decide (phase r = _)) eqn:Hp; cbn [negb]; [|by wp_step]. apply bool_decide_eq_true in Hp. wp_step. by apply HQ.
Qed.
Lemma record_for_integrity_ok (a : DialAttempt) (s : PeerRegistry) (Q : nat * PeerRecord -> PeerRegistry -> Prop) (R : PeerRegistryError -> PeerRegistry -> Prop) :
  (forall i r, records s !! i = Some r -> Q (i, r) s) -> (forall e, R e s) -> wp (record_for_integrity_mut a) s Q R.
Proof.
  intros HQ HR. unfold record_for_integrity_mut. wp_step. apply locate_record_ok; [|done]. intros i r Hi Hr. destruct (_ || _); wp_step; [done|by apply HQ].
Qed.
Lemma record_for_incoming_integrity_ok id (s : PeerRegistry) (Q : nat * PeerRecord -> PeerRegistry -> Prop) (R : PeerRegistryError -> PeerRegistry -> Prop) :
  (forall i r, records s !! i = Some r -> Q (i, r) s) -> (forall e, R e s) -> wp (record_for_incoming_integrity_mut id) s Q R.
Proof.
  intros HQ HR. unfold record_for_incoming_integrity_mut. wp_step. apply locate_record_ok; [|done]. intros i r Hi Hr. destruct (_ =? 0); wp_step; [done|by apply HQ].
Qed.

(** ** The registry *)
Record registry_ok (s : PeerRegistry) : Prop := {
  rg_capacity : len (records s) <= max_records (config s);
  rg_ids : NoDup (record_id <$> records s);
  rg_ids_known : Forall (fun r => 1 <= record_id r < next_record_id s) (records s);
  rg_endpoints : NoDup (endpoint <$> records s);
  rg_orders : NoDup (observation_order <$> records s);
  rg_orders_known : Forall (fun r => observation_order r < next_observation_order s) (records s);
  rg_attempts : NoDup (omap (fun r => attempt_of (phase r)) (records s));
  rg_records : Forall (record_ok (next_attempt_id s)) (records s);
  rg_next : 1 <= next_record_id s /\ 1 <= next_attempt_id s;
}.
Lemma omap_perm {A B} (f : A -> option B) l k : l ≡ₚ k -> omap f l ≡ₚ omap f k.
Proof. intros H. by rewrite H. Qed.
Lemma fmap_insert_same {A B} (f : A -> B) (l : list A) i x y : l !! i = Some x -> f y = f x -> f <$> (<[i := y]> l) = f <$> l.
Proof. intros Hi E. rewrite list_fmap_insert, E. apply list_insert_id. by rewrite list_lookup_fmap, Hi. Qed.
Lemma omap_insert_split {A B} (f : A -> option B) (l : list A) i x y : l !! i = Some x ->
  exists l1 l2 : list B, omap f l = l1 ++ option_list (f x) ++ l2 /\ omap f (<[i := y]> l) = l1 ++ option_list (f y) ++ l2.
Proof.
  intros Hi. exists (omap f (take i l)), (omap f (drop (S i) l)). split.
  - rewrite <- (take_drop_middle l i x Hi) at 1. rewrite omap_app. cbn. by destruct (f x).
  - rewrite insert_take_drop by (by eapply lookup_lt_Some). rewrite omap_app. cbn. by destruct (f y).
Qed.
Lemma phase_attempt n p p' n' : phase_step n p p' n' -> n <= n' /\ (attempt_of p' = attempt_of p \/ attempt_of p' = None \/ (attempt_of p' = Some n /\ n' = n + 1)).
Proof. destruct 1; cbn; (split; [lia|]); auto. Qed.
Lemma attempts_known s : registry_ok s -> forall a, a ∈ omap (fun r => attempt_of (phase r)) (records s) -> a < next_attempt_id s.
Proof.
  intros Hok a (r & Hr & Ha)%list_elem_of_omap. pose proof (rg_records s Hok) as Hall. rewrite Forall_forall in Hall. pose proof (ro_attempt _ _ (Hall r Hr)) as H. by rewrite Ha in H.
Qed.
Lemma record_ok_mono n m r : n <= m -> record_ok n r -> record_ok m r.
Proof. intros Hle []. split; try done; by eapply known_attempt_mono. Qed.
Lemma update_registry_ok s i r r' n' : registry_ok s -> records s !! i = Some r -> rstep (next_attempt_id s) r r' n' ->
  registry_ok (mkRegistry (config s) (<[i := r']> (records s)) (next_record_id s) n' (next_observation_order s)).
Proof.
  intros Hok Hi [H1 H2 H3 H4 _ H5]. pose proof (attempts_known s Hok) as Hknown. destruct Hok as [Hc Hid Hidk He Ho Hok' Ha Hr [Hn1 Hn2]].
  destruct (phase_attempt _ _ _ _ H4) as [Hle Hatt]. pose proof (Forall_lookup_1 _ _ _ _ Hr Hi) as Hri.
  split; cbn [config records next_record_id next_attempt_id next_observation_order].
  - by rewrite len_insert.
  - by rewrite (fmap_insert_same _ _ _ r).
  - apply Forall_insert; [done|]. rewrite H1. exact (Forall_lookup_1 _ _ _ _ Hidk Hi).
  - by rewrite (fmap_insert_same _ _ _ r).
  - by rewrite (fmap_insert_same _ _ _ r).
  - apply Forall_insert; [done|]. rewrite H3. exact (Forall_lookup_1 _ _ _ _ Hok' Hi).
  - destruct (omap_insert_split (fun r => attempt_of (phase r)) (records s) i r r' Hi) as (l1 & l2 & E1 & E2). rewrite E2. rewrite E1 in Ha, Hknown.
    destruct Hatt as [-> |[-> |[-> _]]]; [done| |].
    + cbn. apply NoDup_app in Ha as (Hl1 & Hd & Hl2). apply NoDup_app in Hl2 as (_ & _ & Hl2). apply NoDup_app. split; [done|]. split; [|done].
      intros x Hx Hx2. apply (Hd x Hx). apply elem_of_app. by right.
    + assert (next_attempt_id s ∉ l1 ++ l2) as Hnew.
      { intros Hin. assert (next_attempt_id s < next_attempt_id s); [|lia]. apply Hknown. apply elem_of_app in Hin as [?|?]; rewrite !elem_of_app; tauto. }
      assert (NoDup (l1 ++ l2)) as Hnd.
      { apply NoDup_app in Ha as (Hl1 & Hd & Hl2). apply NoDup_app in Hl2 as (_ & _ & Hl2). apply NoDup_app. split; [done|]. split; [|done].
        intros x Hx Hx2. apply (Hd x Hx). apply elem_of_app. by right. }
      change (NoDup (l1 ++ next_attempt_id s :: l2)). rewrite <- Permutation_middle. by constructor.
  - apply Forall_insert; [|by apply H5]. eapply Forall_impl; [exact Hr|]. intros x. by apply record_ok_mono.
  - lia.
Qed.
(** Removing peers, or a source of every peer. *)
Lemma resourced_fmap {B} (f : PeerRecord -> B) kept l : (forall x r, f (set_sources x r) = f r) -> Forall2 resourced kept l -> f <$> l = f <$> kept.
Proof. intros Hf. induction 1 as [|r r' kept l [x ->] _ IH]; [done|]. cbn. by rewrite Hf, IH. Qed.
Lemma resourced_omap {B} (f : PeerRecord -> option B) kept l : (forall x r, f (set_sources x r) = f r) -> Forall2 resourced kept l -> omap f l = omap f kept.
Proof. intros Hf. induction 1 as [|r r' kept l [x ->] _ IH]; [done|]. cbn. by rewrite Hf, IH. Qed.
Lemma resourced_forall (P : PeerRecord -> Prop) kept l : (forall x r, P r -> P (set_sources x r)) -> Forall2 resourced kept l -> Forall P kept -> Forall P l.
Proof. intros HP. induction 1 as [|r r' kept l [x ->] _ IH]; [done|]. intros [H1 H2]%Forall_cons. constructor; auto. Qed.
Lemma nodup_kept {A B} (f : A -> B) (l kept dropped : list A) : l ≡ₚ kept ++ dropped -> NoDup (f <$> l) -> NoDup (f <$> kept).
Proof. intros -> H. rewrite fmap_app in H. by apply NoDup_app in H as [H _]. Qed.
Lemma nodup_kept_omap {A B} (f : A -> option B) (l kept dropped : list A) : l ≡ₚ kept ++ dropped -> NoDup (omap f l) -> NoDup (omap f kept).
Proof. intros E H. rewrite (omap_perm _ _ _ E), omap_app in H. by apply NoDup_app in H as [H _]. Qed.
Lemma forall_kept {A} (P : A -> Prop) (l kept dropped : list A) : l ≡ₚ kept ++ dropped -> Forall P l -> Forall P kept.
Proof. intros -> H. by apply Forall_app in H as [H _]. Qed.
Lemma len_perm {A} (l k : list A) : l ≡ₚ k -> len l = len k.
Proof. intros H. unfold len. by rewrite H. Qed.
Lemma record_ok_sources n x r : record_ok n r -> record_ok n (set_sources x r).
Proof. intros []. by split. Qed.
Lemma drop_registry_ok s kept dropped l l' : registry_ok s -> records s ≡ₚ kept ++ dropped -> Forall2 resourced kept l -> l' ≡ₚ l -> registry_ok (set_records l' s).
Proof.
  intros [Hc Hid Hidk He Ho Hok' Ha Hr Hn] E HF El. split; cbn [set_records config records next_record_id next_attempt_id next_observation_order]; [..|done].
  - rewrite (len_perm _ _ El). rewrite (len_perm _ _ E), len_app in Hc. assert (len l = len kept) as -> by (unfold len; by rewrite (Forall2_length _ _ _ HF)).
    pose proof (len_nonneg dropped). lia.
  - rewrite El. rewrite (resourced_fmap record_id kept l) by done. by eapply nodup_kept.
  - rewrite El. apply (resourced_forall _ kept l); [done|done|]. by eapply forall_kept.
  - rewrite El. rewrite (resourced_fmap endpoint kept l) by done. by eapply nodup_kept.
  - rewrite El. rewrite (resourced_fmap observation_order kept l) by done. by eapply nodup_kept.
  - rewrite El. apply (resourced_forall _ kept l); [done|done|]. by eapply forall_kept.
  - rewrite (omap_perm _ _ _ El). rewrite (resourced_omap _ kept l) by done. by eapply nodup_kept_omap.
  - rewrite El. apply (resourced_forall _ kept l); [apply record_ok_sources|done|]. by eapply forall_kept.
Qed.
Lemma new_record_ok n id order o now : 1 <= n -> record_ok n (new_record id order o now).
Proof. intros Hn. unfold new_record. split; cbn; try destruct (o_utp_advertised o); cbn; unfold is_u; try lia; done. Qed.
Lemma nodup_snoc {A} (l : list A) x : NoDup l -> x ∉ l -> NoDup (l ++ [x]).
Proof. intros Hl Hx. apply NoDup_app. split; [done|]. split; [|by apply NoDup_singleton]. intros y Hy Hy'%list_elem_of_singleton. by subst. Qed.
Lemma not_in_fmap {A B} (f : A -> B) l y : Forall (fun x => f x <> y) l -> y ∉ f <$> l.
Proof. intros H (x & -> & Hx)%list_elem_of_fmap. rewrite Forall_forall in H. by apply (H x Hx). Qed.
Lemma observe_registry_ok s kept dropped o now l' : registry_ok s -> records s ≡ₚ kept ++ dropped -> len kept < max_records (config s) -> Forall (fun r => endpoint r <> o_endpoint o) kept ->
  l' ≡ₚ kept ++ [new_record (next_record_id s) (next_observation_order s) o now] ->
  registry_ok (mkRegistry (config s) l' (next_record_id s + 1) (next_attempt_id s) (next_observation_order s + 1)).
Proof.
  intros [Hc Hid Hidk He Ho Hok' Ha Hr [Hn1 Hn2]] E Hlen Hnew El. pose proof (forall_kept _ _ _ _ E Hidk) as Hk1. pose proof (forall_kept _ _ _ _ E Hok') as Hk2.
  split; cbn [config records next_record_id next_attempt_id next_observation_order].
  - rewrite (len_perm _ _ El), len_app, len_cons, len_nil. lia.
  - rewrite El, fmap_app. apply nodup_snoc; [exact (nodup_kept _ _ _ _ E Hid)|]. apply not_in_fmap. eapply Forall_impl; [exact Hk1|]. cbn. lia.
  - rewrite El. apply Forall_app. split; [|constructor; [cbn; lia|constructor]]. eapply Forall_impl; [exact Hk1|]. cbn. lia.
  - rewrite El, fmap_app. apply nodup_snoc; [exact (nodup_kept _ _ _ _ E He)|]. by apply not_in_fmap.
  - rewrite El, fmap_app. apply nodup_snoc; [exact (nodup_kept _ _ _ _ E Ho)|]. apply not_in_fmap. eapply Forall_impl; [exact Hk2|]. cbn. lia.
  - rewrite El. apply Forall_app. split; [|constructor; [cbn; lia|constructor]]. eapply Forall_impl; [exact Hk2|]. cbn. lia.
  - rewrite (omap_perm _ _ _ El), omap_app. cbn. rewrite app_nil_r. exact (nodup_kept_omap _ _ _ _ E Ha).
  - rewrite El. apply Forall_app. split; [exact (forall_kept _ _ _ _ E Hr)|]. constructor; [by apply new_record_ok|constructor].
  - lia.
Qed.
Lemma evolves_ok s s' : registry_ok s -> evolves s s' -> registry_ok s'.
Proof. intros Hok H. destruct H; [by eapply update_registry_ok|by eapply drop_registry_ok|by eapply observe_registry_ok]. Qed.
Lemma reaches_ok s s' : registry_ok s -> reaches s s' -> registry_ok s'.
Proof. intros Hok. induction 1 as [|s1 s2 s3 H _ IH]; [done|]. apply IH. by eapply evolves_ok. Qed.

(** ** Calls keep the registry well-formed *)
Definition follows (s0 s : PeerRegistry) : Prop := reaches s0 s /\ registry_ok s.
Definition preserves {A} (op : method A) : Prop := forall s0 s, follows s0 s -> wp op s (fun _ => follows s0) (fun _ => follows s0).
Lemma unchanged_follows s : registry_ok s -> follows s s.
Proof. split; [apply reaches_refl|done]. Qed.
Lemma follows_step s0 s s' : follows s0 s -> evolves s s' -> follows s0 s'.
Proof. intros [H Hok] Hev. split; [by eapply rtc_r|by eapply evolves_ok]. Qed.
Lemma follows_record s0 s i r : follows s0 s -> records s !! i = Some r -> record_ok (next_attempt_id s) r.
Proof. intros [_ Hok] Hi. exact (Forall_lookup_1 _ _ _ _ (rg_records _ Hok) Hi). Qed.
Lemma update_follows i f s0 s r (Q : unit -> PeerRegistry -> Prop) (R : PeerRegistryError -> PeerRegistry -> Prop) : follows s0 s -> records s !! i = Some r -> rstep (next_attempt_id s) r (f r) (next_attempt_id s) ->
  (forall s', follows s0 s' -> records s' !! i = Some (f r) -> s' = set_records (<[i := f r]> (records s)) s -> Q tt s') -> wp (update i f) s Q R.
Proof.
  intros Hs Hi Hstep HQ. apply (update_ok i f s r); [done|done|]. intros s' Hev Hi'. apply HQ; [by eapply follows_step|done|done].
Qed.
Lemma fail_follows i now f s0 s r (Q : unit -> PeerRegistry -> Prop) (R : PeerRegistryError -> PeerRegistry -> Prop) : follows s0 s -> records s !! i = Some r ->
  (forall r' s', apply_failure now f (reconnect_backoff (config s)) r = Ok r' -> follows s0 s' -> records s' !! i = Some r' -> s' = set_records (<[i := r']> (records s)) s -> Q tt s') ->
  (forall e, R e s) -> wp (fail_record i now f) s Q R.
Proof.
  intros Hs Hi HQ HR. apply (fail_record_ok i now f s r); [done|by eapply follows_record| |auto].
  intros r' E s' Hev Hi'. apply (HQ r'); [done|by eapply follows_step|done|done].
Qed.
Lemma optional_failure_follows failure i now s0 s r (Q : unit -> PeerRegistry -> Prop) (R : PeerRegistryError -> PeerRegistry -> Prop) : follows s0 s -> records s !! i = Some r ->
  (forall r' s', follows s0 s' -> records s' !! i = Some r' -> Q tt s') -> (forall e, R e s) ->
  wp (match failure with Some f => fail_record i now f | None => mret tt end) s Q R.
Proof. intros Hs Hi HQ HR. destruct failure as [f|]; [|wp_step; by eapply HQ]. apply (fail_follows i now f s0 s r); [done|done| |done]. intros r' s' _ Hs' Hi' _. by eapply HQ. Qed.
Lemma settle_follows i s0 s r (R : PeerRegistryError -> PeerRegistry -> Prop) : follows s0 s -> records s !! i = Some r -> wp (update i settle_pending_ban) s (fun _ => follows s0) R.
Proof. intros Hs Hi. apply (update_follows i _ s0 s r); [done|done|apply settle_step|]. done. Qed.
Ltac preserved := intros s0 s Hs; try (unfold locate_record).
Ltac rec_step p := split; [done|done|done|cbn; try rewrite p; constructor|intros ?; first [by left|by right]|rec_ok].

Lemma record_transfer_preserves id d u : preserves (record_transfer id d u).
Proof. intros s0 s Hs. unfold record_transfer. wp_step. apply locate_record_ok; [|done]. intros i r Hi _. apply (update_follows i _ s0 s r); [done|done|rec_same|done]. Qed.
Lemma incoming_connected_preserves id now : preserves (incoming_connected id now).
Proof.
  intros s0 s Hs. unfold incoming_connected. wp_step. apply locate_record_ok; [|done]. intros i r Hi _. wp_step. apply wp_lift_ok_or; [|done]. intros n E.
  destruct (ro_incoming _ _ (follows_record _ _ _ _ Hs Hi)) as [Hn _]. apply checked_add_u in E as [_ E]; [|lia|lia]. apply (update_follows i _ s0 s r); [done|done|rec_same|done].
Qed.
Lemma incoming_closed_preserves id now failure : preserves (incoming_closed id now failure).
Proof.
  intros s0 s Hs. unfold incoming_closed. wp_step. apply locate_record_ok; [|done]. intros i r Hi _. destruct (checked_sub _ _) as [n|] eqn:E; [|by wp_step].
  assert (is_u 32 n) as Hn. { destruct (ro_incoming _ _ (follows_record _ _ _ _ Hs Hi)). apply checked_sub_Some in E as [-> ?]. unfold is_u in *. lia. }
  wp_step. apply (update_follows i _ s0 s r); [done|done|rec_same|]. intros s1 Hs1 Hi1 _. wp_step.
  eapply optional_failure_follows; [exact Hs1|exact Hi1| |done]. intros r2 s2 Hs2 Hi2. by eapply settle_follows.
Qed.
Lemma dial_failed_preserves a now f : preserves (dial_failed a now f).
Proof.
  intros s0 s Hs. unfold dial_failed. wp_step. apply record_for_attempt_ok; [|done]. intros i r Hi _ _ Hp. wp_step.
  apply (update_follows i _ s0 s r); [done|done|rec_step Hp|]. intros s1 Hs1 Hi1 _. wp_step.
  eapply fail_follows; [exact Hs1|exact Hi1| |done]. intros r2 s2 _ Hs2 Hi2 _. by eapply settle_follows.
Qed.
Lemma dial_cancelled_preserves a : preserves (dial_cancelled a).
Proof.
  intros s0 s Hs. unfold dial_cancelled. wp_step. apply record_for_attempt_ok; [|done]. intros i r Hi _ _ Hp. wp_step.
  apply (update_follows i _ s0 s r); [done|done|rec_step Hp|]. intros s1 Hs1 Hi1 _. by eapply settle_follows.
Qed.
Lemma dial_succeeded_preserves a now : preserves (dial_succeeded a now).
Proof.
  intros s0 s Hs. unfold dial_succeeded. wp_step. apply record_for_attempt_ok; [|done]. intros i r Hi _ _ Hp.
  pose proof (ro_attempt _ _ (follows_record _ _ _ _ Hs Hi)) as Ha. rewrite Hp in Ha. cbn in Ha.
  apply (update_follows i _ s0 s r); [done|done|rec_step Hp|done].
Qed.
Lemma connection_closed_preserves a now failure : preserves (connection_closed a now failure).
Proof.
  intros s0 s Hs. unfold connection_closed. wp_step. apply record_for_attempt_ok; [|done]. intros i r Hi _ _ Hp. wp_step.
  apply (update_follows i _ s0 s r); [done|done|rec_step Hp|]. intros s1 Hs1 Hi1 _. wp_step.
  eapply optional_failure_follows; [exact Hs1|exact Hi1| |done]. intros r2 s2 Hs2 Hi2. by eapply settle_follows.
Qed.
Lemma ban_preserves id : preserves (ban id).
Proof.
  intros s0 s Hs. unfold ban. wp_step. apply locate_record_ok; [|done]. intros i r Hi _. destruct (negb _); [by wp_step|].
  destruct (phase r) eqn:Hp; try by wp_step; done. all: apply (update_follows i _ s0 s r); [done|done|rec_step Hp|done].
Qed.
(** A computation that returns. *)
Lemma lift_returns_ok {A} (o : outcome PeerRegistryError A) (s : PeerRegistry) (Q : A -> PeerRegistry -> Prop) (R : PeerRegistryError -> PeerRegistry -> Prop) :
  returns o -> (forall a, o = Ok a -> Q a s) -> (forall e, R e s) -> wp (lift o) s Q R.
Proof. intros Hr HQ HR. destruct o; try done; wp_step; auto. Qed.
Lemma update_mse_preserves a x : preserves (update_mse_endpoint a x).
Proof. intros s0 s Hs. unfold update_mse_endpoint. wp_step. apply record_for_attempt_ok; [|done]. intros i r Hi _ _ _. apply (update_follows i _ s0 s r); [done|done|rec_same|done]. Qed.
Lemma utp_outcome_preserves a now o : preserves (record_utp_outcome a now o).
Proof.
  intros s0 s Hs. unfold record_utp_outcome. destruct (negb _); [by wp_step|]. wp_step. apply record_for_attempt_ok; [|done]. intros i r Hi _ _ _.
  destruct (bool_decide _); [by wp_step|]. wp_step. apply lift_returns_ok; [|intros x _|done].
  - destruct o; [done|]. repeat returns_step.
  - apply (update_follows i _ s0 s r); [done|done|rec_same|done].
Qed.
Lemma saturating_succ_u w a : is_u w a -> is_u w (saturating_add w a 1).
Proof. unfold is_u, saturating_add, umax. generalize (2 ^ w). lia. Qed.
Lemma piece_passed_step n r : rstep n r (piece_passed r) n.
Proof. apply rstep_same; [done|done|done|done|done|]. intros H. destruct H as [H1 H2 H3]. split; cbn; try done; [unfold saturating_i8; lia|apply saturating_succ_u; apply H3]. Qed.
Lemma failed_integrity_step n r : rstep n r (set_integrity (failed_integrity (integrity r)) r) n.
Proof. apply rstep_same; [done|done|done|done|done|]. intros H. destruct H as [H1 H2 H3]. split; cbn; try done; [unfold saturating_i8; lia|apply saturating_succ_u; apply H2]. Qed.
Lemma piece_failed_ok i bad s0 s r : follows s0 s -> records s !! i = Some r -> wp (piece_failed i r bad) s (fun _ => follows s0) (fun _ => follows s0).
Proof.
  intros Hs Hi. unfold piece_failed. wp_step. apply (update_follows i _ s0 s r); [done|done|apply failed_integrity_step|]. intros s1 Hs1 Hi1 _.
  destruct (_ || _); [|by wp_step]. wp_step. eapply update_follows; [exact Hs1|exact Hi1|rec_same|]. intros s2 Hs2 _ _. by wp_step.
Qed.
Lemma record_passed_preserves a : preserves (record_piece_passed a).
Proof. intros s0 s Hs. unfold record_piece_passed. wp_step. apply record_for_integrity_ok; [|done]. intros i r Hi. apply (update_follows i _ s0 s r); [done|done|apply piece_passed_step|done]. Qed.
Lemma record_failed_preserves a b : preserves (record_piece_failed a b).
Proof. intros s0 s Hs. unfold record_piece_failed. wp_step. apply record_for_integrity_ok; [|done]. intros i r Hi. by apply piece_failed_ok. Qed.
Lemma incoming_passed_preserves id : preserves (record_incoming_piece_passed id).
Proof. intros s0 s Hs. unfold record_incoming_piece_passed. wp_step. apply record_for_incoming_integrity_ok; [|done]. intros i r Hi. apply (update_follows i _ s0 s r); [done|done|apply piece_passed_step|done]. Qed.
Lemma incoming_failed_preserves id b : preserves (record_incoming_piece_failed id b).
Proof. intros s0 s Hs. unfold record_incoming_piece_failed. wp_step. apply record_for_incoming_integrity_ok; [|done]. intros i r Hi. by apply piece_failed_ok. Qed.

(** Dialing: the peer was idle. *)
Lemma eligible_facts r now c : eligibility r now c = Eligible ->
  incoming_connections r = 0 /\ phase r = PhaseIdle /\ connectable r = true /\ consecutive_failures (history r) < max_consecutive_failures c /\ match retry_at (history r) with Some t => t <= now | None => True end.
Proof.
  unfold eligibility. destruct (incoming_connections r =? 0) eqn:E1; cbn [negb]; [|done]. destruct (phase r) eqn:E2; try done. destruct (connectable r) eqn:E3; cbn [negb]; [|done].
  destruct (_ <=? _) eqn:E4; [done|]. destruct (retry_at (history r)) as [t|]; [destruct (now <? t) eqn:E5; [done|]|]; intros _; repeat split; try done; lia.
Qed.
Lemma probe_facts r now c : is_failure_limited_probe r now c = true -> incoming_connections r = 0 /\ phase r = PhaseIdle /\ connectable r = true.
Proof. unfold is_failure_limited_probe. intros H. repeat (apply andb_prop in H as [H ?]).
  split; [lia|]. split; [|done]. by eapply bool_decide_eq_true_1. Qed.
Lemma begin_dial_preserves c now n b : preserves (begin_dial_with_connection_id_and_policy c now n b).
Proof.
  intros s0 s Hs. unfold begin_dial_with_connection_id_and_policy. do 3 wp_step. apply wp_lift_ok_or; [|done]. intros [i r] (Hi & Hid & _)%list_find_Some.
  destruct (negb _); [by wp_step|]. destruct (negb _ && negb _) eqn:He; [by wp_step|].
  assert (phase r = PhaseIdle) as Hp.
  { apply andb_false_iff in He as [He|He]; apply negb_false_iff in He.
    - apply bool_decide_eq_true in He. by apply eligible_facts in He as (_ & ? & _).
    - apply andb_prop in He as [_ He]. by apply probe_facts in He as (_ & ? & _). }
  wp_step. apply wp_lift_ok_or; [|done]. intros next Enext. wp_step. apply wp_lift_ok_or; [|done]. intros attempts Eatt.
  pose proof (follows_record _ _ _ _ Hs Hi) as Hrec. destruct Hs as [Hr Hok].
  apply checked_add_u in Enext as [-> _]; [|destruct (rg_next _ Hok); lia|lia]. destruct (ro_dials _ _ Hrec) as [Hd _]. apply checked_add_u in Eatt as [-> Hd']; [|lia|lia].
  wp_step. unfold update. do 3 wp_step. rewrite (alter_at _ i (records s) r Hi).
  apply (follows_step s0 s); [by split|].
  apply (ev_update s i r (set_history (with_dial (dial_attempts (history r) + 1) now (history r)) (set_phase (Dialing (next_attempt_id s)) r)) (next_attempt_id s + 1) Hi).
  split; [done|done|done|cbn; rewrite Hp; constructor|by left|]. intros H. destruct H. split; cbn; try done; [lia|by eapply known_attempt_mono; [|eassumption]; lia].
Qed.
Lemma begin_dial_default_preserves c now : preserves (begin_dial c now).
Proof. intros s0 s Hs. unfold begin_dial. do 3 wp_step. apply wp_lift_ok_or; [|done]. intros n _. by apply begin_dial_preserves. Qed.

(** ** Removing and observing *)
Lemma swap_remove_perm {A} i (l : list A) x : l !! i = Some x -> l ≡ₚ x :: swap_remove i l.
Proof.
  intros Hi. pose proof (lookup_lt_Some _ _ _ Hi) as Hlt. unfold swap_remove. destruct (last l) as [y|] eqn:El; [|by destruct l; [|rewrite last_cons in El; destruct (last l)]].
  apply last_Some in El as [k ->]. rewrite length_app in Hlt |- *. cbn [length] in *. destruct (decide (S i = (length k + 1)%nat)) as [E|E].
  - rewrite take_app_le by lia. rewrite (take_ge k i) by lia. rewrite lookup_app_r in Hi by lia. replace (i - length k)%nat with 0%nat in Hi by lia. injection Hi as ->.
    symmetry. apply Permutation_cons_append.
  - replace (length k + 1 - 1)%nat with (length k) by lia. rewrite take_app_length. rewrite lookup_app_l in Hi by lia. assert (i < length k)%nat as Hik by lia.
    rewrite (insert_take_drop k i y Hik). rewrite <- (take_drop_middle k i x Hi) at 1. rewrite <- app_assoc. cbn [app].
    rewrite <- (Permutation_middle (take i k)). constructor. by rewrite <- Permutation_cons_append.
Qed.
Lemma max_by_elem {A} (cmp : A -> A -> comparison) l x : max_by cmp l = Some x -> x ∈ l.
Proof.
  unfold max_by. assert (forall best, fold_left (fun best x => match best with None => Some x | Some b => match cmp b x with Gt => Some b | _ => Some x end end) l best = Some x -> x ∈ l \/ best = Some x) as H.
  { induction l as [|y l IH]; intros best H; [by right|]. cbn [fold_left] in H. apply IH in H as [H|H]; [left; by right|].
    destruct best as [b|]; [destruct (cmp b y)|]; (try (injection H as ->; left; by left)); by right. }
  intros E. by apply H in E as [?|?].
Qed.
Lemma eviction_facts s i : eviction_candidate s = Some i -> exists r, records s !! i = Some r /\ phase r = PhaseIdle /\ incoming_connections r = 0.
Proof.
  unfold eviction_candidate. destruct (max_by _ _) as [[j r]|] eqn:E; [|done]. intros [= <-]. apply max_by_elem in E. apply list_elem_of_filter in E as [Hp Hin].
  apply elem_of_lookup_imap in Hin as (k & x & Heq & Hk). injection Heq as -> ->. exists x. split; [done|].
  cbn in Hp. apply andb_prop in Hp as [Hp%bool_decide_eq_true_1 Hi]. split; [done|lia].
Qed.
Lemma resourced_self l : Forall2 resourced l l.
Proof. induction l as [|r l IH]; constructor; [|done]. exists (sources r). by destruct r. Qed.
(** Keeping the records a test keeps. *)
Lemma filter_complement_split {A} (P : A -> Prop) `{forall x, Decision (P x)} (l : list A) : l ≡ₚ filter P l ++ filter (fun x => ~ P x) l.
Proof. symmetry. apply filter_app_complement. Qed.
Lemma filter_fmap_swap {A B} (f : A -> B) (P : B -> Prop) `{forall x, Decision (P x)} (l : list A) : filter P (f <$> l) = f <$> filter (fun x => P (f x)) l.
Proof. induction l as [|x l IH]; [done|]. cbn [fmap list_fmap]. rewrite !filter_cons. destruct (decide (P (f x))); cbn; by rewrite IH. Qed.
Lemma remove_source_step source s : evolves s (set_records (filter (fun r => negb (sources r =? 0) || negb (bool_decide (phase r = PhaseIdle)) = true)
  ((fun r => set_sources (remove_from source (sources r)) r) <$> records s)) s).
Proof.
  set (g := fun r => set_sources (remove_from source (sources r)) r). set (P := fun r => negb (sources r =? 0) || negb (bool_decide (phase r = PhaseIdle)) = true).
  apply (ev_drop s (filter (fun r => P (g r)) (records s)) (filter (fun r => ~ P (g r)) (records s)) (g <$> filter (fun r => P (g r)) (records s))).
  - apply (filter_complement_split (fun r => P (g r))).
  - apply Forall_forall. intros r [Hr _]%list_elem_of_filter. unfold P in Hr. apply Bool.not_true_is_false, orb_false_iff in Hr as [_ Hr]. apply negb_false_iff in Hr. by apply bool_decide_eq_true_1 in Hr.
  - apply Forall2_fmap_r, Forall_Forall2_diag, Forall_forall. intros r _. by eexists.
  - by rewrite filter_fmap_swap.
Qed.
Lemma remove_source_preserves source : preserves (remove_source source).
Proof. intros s0 s Hs. unfold remove_source. do 4 wp_step. do 3 wp_step. apply (follows_step s0 s); [done|]. apply remove_source_step. Qed.
Lemma remove_disallowed_preserves p : preserves (remove_idle_disallowed p).
Proof.
  intros s0 s Hs. unfold remove_idle_disallowed. do 4 wp_step. do 3 wp_step. apply (follows_step s0 s); [done|].
  set (P := fun r => permits p (ip_of (endpoint r)) || negb (bool_decide (phase r = PhaseIdle)) || negb (incoming_connections r =? 0) = true).
  apply (ev_drop s (filter P (records s)) (filter (fun r => ~ P r) (records s)) (filter P (records s))); [apply (filter_complement_split P)| |apply resourced_self|done].
  apply Forall_forall. intros r [Hr _]%list_elem_of_filter. unfold P in Hr. apply Bool.not_true_is_false, orb_false_iff in Hr as [Hr _]. apply orb_false_iff in Hr as [_ Hr].
  apply negb_false_iff in Hr. by apply bool_decide_eq_true_1 in Hr.
Qed.
Lemma remove_endpoint_source_preserves e source : preserves (remove_endpoint_source e source).
Proof.
  intros s0 s Hs. unfold remove_endpoint_source. do 2 wp_step. destruct (list_find _ _) as [[i r]|] eqn:E; [|by wp_step]. apply list_find_Some in E as (Hi & _ & _). wp_step.
  apply (update_follows i _ s0 s r); [done|done|rec_same|]. intros s1 Hs1 Hi1 _. destruct (_ && _) eqn:Hb; [|by wp_step]. do 2 wp_step. wp_step.
  apply andb_prop in Hb as [_ Hp]. apply bool_decide_eq_true_1 in Hp.
  apply (follows_step s0 s1); [done|]. apply (ev_drop s1 (swap_remove i (records s1)) [set_sources (remove_from source (sources r)) r] (swap_remove i (records s1))).
  - rewrite <- Permutation_cons_append. by apply swap_remove_perm.
  - by constructor.
  - apply resourced_self.
  - done.
Qed.
Lemma observed_again_step n o now r : rstep n r (observed_again o now r) n.
Proof.
  apply rstep_same; [done|done|done|done|done|]. intros H. destruct H as [H1 H2 H3 H4 H5 H6]. unfold observed_again. split; cbn; try done;
    destruct (bool_decide (o_source o = Tracker) && _) eqn:E; destruct (o_utp_advertised o && _); cbn; try done;
    apply andb_prop in E as [_ E]; apply negb_true_iff, Z.eqb_neq in E; unfold is_u in *; lia.
Qed.
Lemma find_endpoint_none e s : list_find (fun r => endpoint r = e) (records s) = None -> Forall (fun r => endpoint r <> e) (records s).
Proof. by intros H%list_find_None. Qed.
Lemma observe_preserves o now : preserves (observe o now).
Proof.
  intros s0 s Hs. unfold observe. do 2 wp_step. destruct (list_find _ (records s)) as [[i r]|] eqn:E.
  - apply list_find_Some in E as (Hi & _ & _). wp_step. apply (update_follows i _ s0 s r); [done|done|apply observed_again_step|]. intros s1 Hs1 _ _. by wp_step.
  - apply find_endpoint_none in E. wp_step. apply wp_lift_ok_or; [|done]. intros id [-> _]%checked_add_Some. wp_step. apply wp_lift_ok_or; [|done]. intros order [-> _]%checked_add_Some.
    wp_step. destruct (len (records s) =? max_records (config s)) eqn:Hfull.
    + wp_step. apply wp_lift_ok_or; [|done]. intros i (r & Hi & Hp & Hin)%eviction_facts. wp_step. rewrite Hi. cbn [expect]. do 4 wp_step. wp_step. do 3 wp_step.
      apply (follows_step s0 s); [done|]. cbn. apply (ev_observe s (swap_remove i (records s)) [r] o now).
      * rewrite <- Permutation_cons_append. by apply swap_remove_perm.
      * by repeat constructor.
      * pose proof (swap_remove_perm i (records s) r Hi) as Hperm. apply len_perm in Hperm. rewrite len_cons in Hperm. lia.
      * rewrite (swap_remove_perm i (records s) r Hi) in E. by apply Forall_cons in E as [_ E].
      * done.
    + do 2 wp_step. do 4 wp_step. apply (follows_step s0 s); [done|]. cbn. apply (ev_observe s (records s) [] o now).
      * by rewrite app_nil_r.
      * constructor.
      * destruct Hs as [_ Hok]. pose proof (rg_capacity _ Hok). lia.
      * done.
      * done.
Qed.

(** ** Histories of calls *)
Inductive Event :=
| Observe (o : PeerObservation) (now : Z)
| RemoveSource (source : PeerSource)
| RemoveEndpointSource (e : SocketAddr) (source : PeerSource)
| RemoveIdleDisallowed (p : AddressFamilyPolicy)
| BeginDial (c : DialCandidate) (now : Z)
| BeginDialWith (c : DialCandidate) (now connection : Z)
| BeginProbe (c : DialCandidate) (now connection : Z)
| UtpOutcome (a : DialAttempt) (now : Z) (outcome : UtpConnectOutcome)
| UpdateMse (a : DialAttempt) (state : MseEndpointState)
| IncomingConnected (id now : Z)
| IncomingClosed (id now : Z) (failure : option PeerFailure)
| RecordTransfer (id downloaded uploaded : Z)
| DialFailed (a : DialAttempt) (now : Z) (failure : PeerFailure)
| DialCancelled (a : DialAttempt)
| DialSucceeded (a : DialAttempt) (now : Z)
| ConnectionClosed (a : DialAttempt) (now : Z) (failure : option PeerFailure)
| BanPeer (id : Z)
| PiecePassed (a : DialAttempt)
| PieceFailed (a : DialAttempt) (known_bad : bool)
| IncomingPiecePassed (id : Z)
| IncomingPieceFailed (id : Z) (known_bad : bool).
(** The state after a call, and whether the call returned, as a value or as an error. *)
Definition outcome_of {A} (op : method A) (s : PeerRegistry) : PeerRegistry * Prop := ((op s).1, returns (op s).2).
Definition apply (e : Event) : PeerRegistry -> PeerRegistry * Prop :=
  match e with
  | Observe o now => outcome_of (observe o now)
  | RemoveSource source => outcome_of (remove_source source)
  | RemoveEndpointSource e source => outcome_of (remove_endpoint_source e source)
  | RemoveIdleDisallowed p => outcome_of (remove_idle_disallowed p)
  | BeginDial c now => outcome_of (begin_dial c now)
  | BeginDialWith c now n => outcome_of (begin_dial_with_connection_id c now n)
  | BeginProbe c now n => outcome_of (begin_failure_limited_probe_with_connection_id c now n)
  | UtpOutcome a now o => outcome_of (record_utp_outcome a now o)
  | UpdateMse a x => outcome_of (update_mse_endpoint a x)
  | IncomingConnected id now => outcome_of (incoming_connected id now)
  | IncomingClosed id now f => outcome_of (incoming_closed id now f)
  | RecordTransfer id d u => outcome_of (record_transfer id d u)
  | DialFailed a now f => outcome_of (dial_failed a now f)
  | DialCancelled a => outcome_of (dial_cancelled a)
  | DialSucceeded a now => outcome_of (dial_succeeded a now)
  | ConnectionClosed a now f => outcome_of (connection_closed a now f)
  | BanPeer id => outcome_of (ban id)
  | PiecePassed a => outcome_of (record_piece_passed a)
  | PieceFailed a b => outcome_of (record_piece_failed a b)
  | IncomingPiecePassed id => outcome_of (record_incoming_piece_passed id)
  | IncomingPieceFailed id b => outcome_of (record_incoming_piece_failed id b)
  end.
Definition run (es : list Event) (s : PeerRegistry) : PeerRegistry := fold_left (fun s e => (apply e s).1) es s.
Lemma outcome_preserves {A} (op : method A) s : preserves op -> registry_ok s -> follows s (outcome_of op s).1 /\ (outcome_of op s).2.
Proof.
  intros H Hok. specialize (H s s (unchanged_follows s Hok)). unfold wp in H. unfold outcome_of. destruct (op s) as [s' [x|e| |]]; cbn in *; done.
Qed.
Lemma apply_follows e s : registry_ok s -> follows s (apply e s).1 /\ (apply e s).2.
Proof.
  intros Hok. destruct e; cbn [apply]; apply outcome_preserves; try done.
  - apply observe_preserves.
  - apply remove_source_preserves.
  - apply remove_endpoint_source_preserves.
  - apply remove_disallowed_preserves.
  - apply begin_dial_default_preserves.
  - apply begin_dial_preserves.
  - apply begin_dial_preserves.
  - apply utp_outcome_preserves.
  - apply update_mse_preserves.
  - apply incoming_connected_preserves.
  - apply incoming_closed_preserves.
  - apply record_transfer_preserves.
  - apply dial_failed_preserves.
  - apply dial_cancelled_preserves.
  - apply dial_succeeded_preserves.
  - apply connection_closed_preserves.
  - apply ban_preserves.
  - apply record_passed_preserves.
  - apply record_failed_preserves.
  - apply incoming_passed_preserves.
  - apply incoming_failed_preserves.
Qed.
Lemma run_follows es s : registry_ok s -> follows s (run es s).
Proof.
  revert s. induction es as [|e es IH]; intros s Hok; [by apply unchanged_follows|]. cbn. destruct (apply_follows e s Hok) as [[Hr Hok1] _].
  destruct (IH _ Hok1) as [Hr2 Hok2]. split; [unfold reaches in *; by etrans|done].
Qed.
Lemma new_registry_ok c s : is_u 64 (max_records c) -> PeerRegistry_new c = Ok s -> registry_ok s.
Proof.
  unfold PeerRegistry_new. intros Hc. destruct (_ =? 0); [done|]. destruct (_ =? 0); [done|]. intros [= <-].
  split; cbn; try constructor; try done; unfold is_u in Hc; unfold len; cbn; lia.
Qed.

(** Where a record of the new state comes from. *)
Lemma evolves_origin s s' r' : evolves s s' -> r' ∈ records s' ->
  next_attempt_id s <= next_attempt_id s' /\ (phase r' = PhaseIdle \/ exists r, r ∈ records s /\ record_id r' = record_id r /\ phase_step (next_attempt_id s) (phase r) (phase r') (next_attempt_id s') \/
    (r ∈ records s /\ phase r = phase r')).
Proof.
  intros Hev Hr. destruct Hev as [i r0 r1 n' Hi Hstep|kept dropped l E Hd HF l' El|kept dropped o now E Hd Hlen Hnew l' El]; cbn in *.
  - destruct Hstep as [H1 H2 H3 H4 _ H5]. pose proof (phase_attempt _ _ _ _ H4) as [Hle _]. split; [done|]. right.
    apply list_elem_of_lookup in Hr as [j Hj]. destruct (decide (i = j)) as [->|Hne].
    + rewrite list_lookup_insert_eq in Hj by (by eapply lookup_lt_Some). injection Hj as <-. exists r0. left. split; [by eapply list_elem_of_lookup_2|done].
    + rewrite list_lookup_insert_ne in Hj by done. exists r'. right. split; [by eapply list_elem_of_lookup_2|done].
  - split; [lia|]. right. rewrite El in Hr. apply list_elem_of_lookup in Hr as [j Hj]. destruct (Forall2_lookup_r _ _ _ _ _ HF Hj) as (r & Hj' & x & ->).
    exists r. right. split; [|done]. rewrite E. apply elem_of_app. left. by eapply list_elem_of_lookup_2.
  - split; [lia|]. rewrite El in Hr. apply elem_of_app in Hr as [Hr|Hr]; [|apply list_elem_of_singleton in Hr; subst; by left].
    right. exists r'. right. split; [|done]. rewrite E. apply elem_of_app. by left.
Qed.


(** An attempt that was given out is no longer dialing; it is over. *)
Definition dialing_over (a : Z) (s : PeerRegistry) : Prop := a < next_attempt_id s /\ forall r, r ∈ records s -> phase r <> Dialing a.
Definition attempt_over (a : Z) (s : PeerRegistry) : Prop := a < next_attempt_id s /\ forall r, r ∈ records s -> attempt_of (phase r) <> Some a.
Lemma over_dialing_over a s : attempt_over a s -> dialing_over a s.
Proof. intros [H1 H2]. split; [done|]. intros r Hr Hp. apply (H2 r Hr). by rewrite Hp. Qed.
Lemma dialing_over_step a s s' : evolves s s' -> dialing_over a s -> dialing_over a s'.
Proof.
  intros Hev [Ha Hd]. assert (next_attempt_id s <= next_attempt_id s') as Hle. { destruct Hev as [i r r' n' _ Hstep| |]; cbn; [|lia..]. by destruct (phase_attempt _ _ _ _ (rs_phase _ _ _ _ Hstep)). }
  split; [lia|]. intros r' Hr Hp. destruct (evolves_origin s s' r' Hev Hr) as [_ [Hidle|(r & [(Hr0 & _ & Hstep)|[Hr0 Hsame]])]].
  - congruence.
  - rewrite Hp in Hstep. inversion Hstep; subst; [by apply (Hd r Hr0)|lia].
  - apply (Hd r Hr0). congruence.
Qed.
Lemma attempt_over_step a s s' : evolves s s' -> attempt_over a s -> attempt_over a s'.
Proof.
  intros Hev Hover. destruct (dialing_over_step a s s' Hev (over_dialing_over a s Hover)) as [Hlt Hd]. destruct Hover as [Ha Ho]. split; [done|]. intros r' Hr Hp.
  destruct (phase r') as [|b|b|] eqn:E; try done; injection Hp as ->; [by apply (Hd r' Hr)|].
  destruct (evolves_origin s s' r' Hev Hr) as [_ [Hidle|(r & [(Hr0 & _ & Hstep)|[Hr0 Hsame]])]].
  - congruence.
  - apply (Ho r Hr0). rewrite E in Hstep. by destruct (phase r); inversion Hstep; subst.
  - apply (Ho r Hr0). by rewrite Hsame, E.
Qed.
Lemma dialing_over_reaches a s s' : reaches s s' -> dialing_over a s -> dialing_over a s'.
Proof. induction 1; [done|]. intros H1. apply IHrtc. by eapply dialing_over_step. Qed.
Lemma attempt_over_reaches a s s' : reaches s s' -> attempt_over a s -> attempt_over a s'.
Proof. induction 1; [done|]. intros H1. apply IHrtc. by eapply attempt_over_step. Qed.

(** A call that is refused changes nothing. *)
Definition refused {A} (op : method A) (s : PeerRegistry) : Prop := exists e, op s = (s, Err e).
Lemma refused_wp {A} (op : method A) s : wp op s (fun _ _ => False) (fun _ s' => s' = s) -> refused op s.
Proof. unfold wp, refused. destruct (op s) as [s' [x|e| |]]; try done. intros ->. by exists e. Qed.
Definition dial_refused (a : DialAttempt) (s : PeerRegistry) : Prop :=
  (forall now f, refused (dial_failed a now f) s) /\ refused (dial_cancelled a) s /\ (forall now, refused (dial_succeeded a now) s) /\
  (forall now o, refused (record_utp_outcome a now o) s) /\ (forall x, refused (update_mse_endpoint a x) s).
Definition close_refused (a : DialAttempt) (s : PeerRegistry) : Prop := forall now f, refused (connection_closed a now f) s.
Lemma dialing_over_refused a s : dialing_over (attempt_id a) s -> dial_refused a s.
Proof.
  intros [_ Hd].
  assert (forall A (k : nat * PeerRecord -> method A), refused (record_for_attempt_mut a false ≫= k) s) as H.
  { intros A k. apply refused_wp. wp_step. apply record_for_attempt_ok; [|done]. intros i r Hi _ _ Hp. exfalso. apply (Hd r); [by eapply list_elem_of_lookup_2|done]. }
  split; [intros; apply H|]. split; [apply H|]. split; [intros; apply H|]. split; [|intros; apply H].
  intros now o. unfold record_utp_outcome. destruct (negb _); [by eexists|apply H].
Qed.
Lemma attempt_over_refused a s : attempt_over (attempt_id a) s -> close_refused a s.
Proof.
  intros [_ Ho] now f. unfold connection_closed. apply refused_wp. wp_step. apply record_for_attempt_ok; [|done]. intros i r Hi _ _ Hp.
  exfalso. apply (Ho r); [by eapply list_elem_of_lookup_2|by rewrite Hp].
Qed.
Lemma nodup_omap_inj {A B} (f : A -> option B) (l : list A) i j x y b : NoDup (omap f l) -> l !! i = Some x -> l !! j = Some y -> f x = Some b -> f y = Some b -> i = j.
Proof.
  revert i j. induction l as [|z l IH]; intros i j Hnd Hi Hj Hx Hy; [done|].
  assert (NoDup (omap f l)) as Hl. { cbn in Hnd. destruct (f z); [by apply NoDup_cons in Hnd as [_ ?]|done]. }
  assert (forall w k, f z = Some b -> l !! k = Some w -> f w = Some b -> False) as Hdup.
  { intros w k Hz Hk Hw. cbn in Hnd. rewrite Hz in Hnd. apply NoDup_cons in Hnd as [Hnd _]. apply Hnd, list_elem_of_omap. exists w. split; [by eapply list_elem_of_lookup_2|done]. }
  destruct i as [|i], j as [|j]; cbn in Hi, Hj; [done| | |f_equal; by eapply IH].
  - injection Hi as ->. exfalso. by eapply Hdup.
  - injection Hj as ->. exfalso. by eapply Hdup.
Qed.
(** Once the record of an attempt has left its phase, nothing else holds the attempt. *)
Lemma attempt_left s i r r' a : registry_ok s -> records s !! i = Some r -> attempt_of (phase r) = Some a ->
  attempt_of (phase r') <> Some a -> attempt_over a (set_records (<[i := r']> (records s)) s).
Proof.
  intros Hok Hi Ha Hr'. split; [cbn; eapply (attempts_known s Hok), list_elem_of_omap; exists r; split; [by eapply list_elem_of_lookup_2|done]|].
  cbn. intros x Hx Hxa. apply list_elem_of_lookup in Hx as [j Hj]. destruct (decide (i = j)) as [->|Hne].
  - rewrite list_lookup_insert_eq in Hj by (by eapply lookup_lt_Some). by injection Hj as <-.
  - rewrite list_lookup_insert_ne in Hj by done. apply Hne. exact (nodup_omap_inj _ _ _ _ _ _ _ (rg_attempts s Hok) Hi Hj Ha Hxa).
Qed.
Lemma attempt_connected s i r r' a : registry_ok s -> records s !! i = Some r -> phase r = Dialing a -> phase r' <> Dialing a -> dialing_over a (set_records (<[i := r']> (records s)) s).
Proof.
  intros Hok Hi Ha Hr'. assert (attempt_of (phase r) = Some a) as Hat by (by rewrite Ha).
  split; [cbn; eapply (attempts_known s Hok), list_elem_of_omap; exists r; split; [by eapply list_elem_of_lookup_2|done]|].
  cbn. intros x Hx Hxa. apply list_elem_of_lookup in Hx as [j Hj]. destruct (decide (i = j)) as [->|Hne].
  - rewrite list_lookup_insert_eq in Hj by (by eapply lookup_lt_Some). by injection Hj as <-.
  - rewrite list_lookup_insert_ne in Hj by done. apply Hne. apply (nodup_omap_inj _ _ _ _ _ _ a (rg_attempts s Hok) Hi Hj Hat). cbn. by rewrite Hxa.
Qed.
Lemma over_after a s s' : attempt_over a s -> follows s s' -> attempt_over a s'.
Proof. intros Ho [Hr _]. by eapply attempt_over_reaches. Qed.
Lemma dial_failed_over a now f s : registry_ok s -> wp (dial_failed a now f) s (fun _ => attempt_over (attempt_id a)) (fun _ _ => True).
Proof.
  intros Hok. unfold dial_failed. wp_step. apply record_for_attempt_ok; [|done]. intros i r Hi _ _ Hp. wp_step.
  apply (update_follows i _ s s r); [by apply unchanged_follows|done|rec_step Hp|]. intros s1 [_ Hok1] Hi1 E1.
  assert (attempt_over (attempt_id a) s1) as Ho. { rewrite E1. apply (attempt_left s i r); [done|done|by rewrite Hp|done]. }
  wp_step. eapply fail_follows; [by apply unchanged_follows|exact Hi1| |done]. intros r2 s2 _ Hs2 Hi2 _.
  eapply update_follows; [exact Hs2|exact Hi2|apply settle_step|]. intros s3 Hs3 _ _. by eapply over_after.
Qed.
Lemma dial_cancelled_over a s : registry_ok s -> wp (dial_cancelled a) s (fun _ => attempt_over (attempt_id a)) (fun _ _ => True).
Proof.
  intros Hok. unfold dial_cancelled. wp_step. apply record_for_attempt_ok; [|done]. intros i r Hi _ _ Hp. wp_step.
  apply (update_follows i _ s s r); [by apply unchanged_follows|done|rec_step Hp|]. intros s1 [_ Hok1] Hi1 E1.
  assert (attempt_over (attempt_id a) s1) as Ho. { rewrite E1. apply (attempt_left s i r); [done|done|by rewrite Hp|done]. }
  eapply update_follows; [by apply unchanged_follows|exact Hi1|apply settle_step|]. intros s3 Hs3 _ _. by eapply over_after.
Qed.
Lemma connection_closed_over a now f s : registry_ok s -> wp (connection_closed a now f) s (fun _ => attempt_over (attempt_id a)) (fun _ _ => True).
Proof.
  intros Hok. unfold connection_closed. wp_step. apply record_for_attempt_ok; [|done]. intros i r Hi _ _ Hp. wp_step.
  apply (update_follows i _ s s r); [by apply unchanged_follows|done|rec_step Hp|]. intros s1 [_ Hok1] Hi1 E1.
  assert (attempt_over (attempt_id a) s1) as Ho. { rewrite E1. apply (attempt_left s i r); [done|done|by rewrite Hp|done]. }
  wp_step. eapply optional_failure_follows; [by apply unchanged_follows|exact Hi1| |done]. intros r2 s2 Hs2 Hi2.
  eapply update_follows; [exact Hs2|exact Hi2|apply settle_step|]. intros s3 Hs3 _ _. by eapply over_after.
Qed.
Lemma dial_succeeded_over a now s : registry_ok s -> wp (dial_succeeded a now) s (fun _ => dialing_over (attempt_id a)) (fun _ _ => True).
Proof.
  intros Hok. unfold dial_succeeded. wp_step. apply record_for_attempt_ok; [|done]. intros i r Hi _ _ Hp.
  pose proof (follows_record _ _ _ _ (unchanged_follows s Hok) Hi) as Hrec. pose proof (ro_attempt _ _ Hrec) as Ha. rewrite Hp in Ha. cbn in Ha.
  apply (update_follows i _ s s r); [by apply unchanged_follows|done|rec_step Hp|]. intros s1 _ _ ->. by apply (attempt_connected s i r).
Qed.
Lemma wp_ok {A} (op : method A) s s' x Q R : wp op s Q R -> op s = (s', Ok x) -> Q x s'.
Proof. unfold wp. intros H E. by rewrite E in H. Qed.
Lemma run_registry_ok c s0 es : is_u 64 (max_records c) -> PeerRegistry_new c = Ok s0 -> registry_ok (run es s0).
Proof. intros Hc H0. apply run_follows. by eapply new_registry_ok. Qed.

(** ** Selection *)
#[local] Instance lawful_by {B} (f : PeerRecord -> B) (cmp : B -> B -> comparison) `{!LawfulCmp cmp} : LawfulCmp (fun l r => cmp (f r) (f l)).
Proof. apply (lawful_rev (fun l r => cmp (f l) (f r))). Qed.
#[export] Instance lawful_dial : LawfulCmp compare_dial_candidates.
Proof.
  unfold compare_dial_candidates. repeat apply (lawful_then (fun l r => _) (fun l r => _)); apply _.
Qed.
#[export] Instance lawful_probe : LawfulCmp compare_probe_candidates.
Proof.
  unfold compare_probe_candidates. repeat apply (lawful_then (fun l r => _) (fun l r => _)); apply _.
Qed.
#[export] Instance lawful_eviction c : LawfulCmp (compare_eviction_candidates c).
Proof.
  unfold compare_eviction_candidates. repeat apply (lawful_then (fun l r => _) (fun l r => _)); apply _.
Qed.
Section best.
Context {A : Type} (cmp : A -> A -> comparison) `{!LawfulCmp cmp}.
Lemma cmp_refl x : cmp x x <> Gt.
Proof. destruct (cmp_total cmp x x); done. Qed.
Lemma min_by_fold l b : exists m, fold_left (fun best x => match best with None => Some x | Some b => match cmp b x with Gt => Some x | _ => Some b end end) l (Some b) = Some m /\
  (m = b \/ m ∈ l) /\ cmp m b <> Gt /\ forall y, y ∈ l -> cmp m y <> Gt.
Proof.
  revert b. induction l as [|x l IH]; intros b.
  - exists b. split; [done|]. split; [by left|]. split; [apply cmp_refl|]. by intros y ?%not_elem_of_nil.
  - cbn [fold_left]. assert (exists b', match cmp b x with Gt => Some x | _ => Some b end = Some b' /\ (b' = b \/ b' = x) /\ cmp b' b <> Gt /\ cmp b' x <> Gt) as (b' & -> & Hb & Hbb & Hbx).
    { destruct (cmp b x) eqn:E; [exists b|exists b|exists x]; (split; [done|]); [by rewrite E; auto using cmp_refl..|].
      split; [by right|]. split; [|apply cmp_refl]. apply cmp_lt_gt in E; [|done]. by rewrite E. }
    destruct (IH b') as (m & -> & Hm & Hmb & Hml). exists m. split; [done|]. split; [|split].
    + destruct Hm as [->|?]; [destruct Hb as [->| ->]; [by left|right; by left]|right; by right].
    + by apply (cmp_trans cmp m b' b).
    + intros y [->|Hy]%elem_of_cons; [by apply (cmp_trans cmp m b' x)|by apply Hml].
Qed.
Lemma min_by_spec l : match min_by cmp l with None => l = [] | Some m => m ∈ l /\ forall y, y ∈ l -> cmp m y <> Gt end.
Proof.
  destruct l as [|x l]; [done|]. unfold min_by. cbn [fold_left]. destruct (min_by_fold l x) as (m & -> & Hm & Hmx & Hml).
  split; [destruct Hm as [->|?]; [by left|by right]|]. intros y [->|Hy]%elem_of_cons; auto.
Qed.
Lemma max_by_fold l b : exists m, fold_left (fun best x => match best with None => Some x | Some b => match cmp b x with Gt => Some b | _ => Some x end end) l (Some b) = Some m /\
  (m = b \/ m ∈ l) /\ cmp b m <> Gt /\ forall y, y ∈ l -> cmp y m <> Gt.
Proof.
  revert b. induction l as [|x l IH]; intros b.
  - exists b. split; [done|]. split; [by left|]. split; [apply cmp_refl|]. by intros y ?%not_elem_of_nil.
  - cbn [fold_left]. assert (exists b', match cmp b x with Gt => Some b | _ => Some x end = Some b' /\ (b' = b \/ b' = x) /\ cmp b b' <> Gt /\ cmp x b' <> Gt) as (b' & -> & Hb & Hbb & Hbx).
    { destruct (cmp b x) eqn:E; [exists x|exists x|exists b]; (split; [done|]); [by rewrite E; auto using cmp_refl..|].
      split; [by left|]. split; [apply cmp_refl|]. apply cmp_lt_gt in E; [|done]. by rewrite E. }
    destruct (IH b') as (m & -> & Hm & Hmb & Hml). exists m. split; [done|]. split; [|split].
    + destruct Hm as [->|?]; [destruct Hb as [->| ->]; [by left|right; by left]|right; by right].
    + by apply (cmp_trans cmp b b' m).
    + intros y [->|Hy]%elem_of_cons; [by apply (cmp_trans cmp x b' m)|by apply Hml].
Qed.
Lemma max_by_spec l : match max_by cmp l with None => l = [] | Some m => m ∈ l /\ forall y, y ∈ l -> cmp y m <> Gt end.
Proof.
  destruct l as [|x l]; [done|]. unfold max_by. cbn [fold_left]. destruct (max_by_fold l x) as (m & -> & Hm & Hmx & Hml).
  split; [destruct Hm as [->|?]; [by left|by right]|]. intros y [->|Hy]%elem_of_cons; auto.
Qed.
End best.
Lemma nodup_fmap_inj {A B} (f : A -> B) (l : list A) x y : NoDup (f <$> l) -> x ∈ l -> y ∈ l -> f x = f y -> x = y.
Proof.
  intros Hnd [i Hi]%list_elem_of_lookup [j Hj]%list_elem_of_lookup E. assert (i = j) as ->; [|congruence].
  apply (NoDup_lookup _ i j (f x) Hnd); rewrite list_lookup_fmap; [by rewrite Hi|by rewrite Hj, E].
Qed.
Lemma record_unique s r r' : registry_ok s -> r ∈ records s -> r' ∈ records s -> record_id r = record_id r' -> r = r'.
Proof. intros Hok. apply nodup_fmap_inj, Hok. Qed.
Lemma find_record s r : registry_ok s -> r ∈ records s -> exists i, list_find (fun x => record_id x = record_id r) (records s) = Some (i, r) /\ records s !! i = Some r.
Proof.
  intros Hok Hr. destruct (list_find (fun x => record_id x = record_id r) (records s)) as [[i x]|] eqn:E.
  - apply list_find_Some in E as (Hi & Hid & _). assert (x = r) as -> by (apply (record_unique s); [done|by eapply list_elem_of_lookup_2|done|done]). by exists i.
  - apply list_find_None in E. rewrite Forall_forall in E. by destruct (E r Hr).
Qed.
(** A comparison that ends with the identity is strict between different peers. *)
Lemma dial_strict s r r' : registry_ok s -> r ∈ records s -> r' ∈ records s -> compare_dial_candidates r r' <> Gt -> r' = r \/ compare_dial_candidates r r' = Lt.
Proof.
  intros Hok Hr Hr' H. destruct (compare_dial_candidates r r') eqn:E; [left|by right|done]. apply then_with_eq in E as [_ E%Z.compare_eq_iff]. by apply (record_unique s).
Qed.
Lemma probe_strict s r r' : registry_ok s -> r ∈ records s -> r' ∈ records s -> compare_probe_candidates r r' <> Gt -> r' = r \/ compare_probe_candidates r r' = Lt.
Proof.
  intros Hok Hr Hr' H. destruct (compare_probe_candidates r r') eqn:E; [left|by right|done]. apply then_with_eq in E as [_ E%Z.compare_eq_iff]. by apply (record_unique s).
Qed.
(** The registry after a dial has begun. *)
Definition dialed (i : nat) (r : PeerRecord) (now : Z) (s : PeerRegistry) : PeerRegistry :=
  mkRegistry (config s) (<[i := set_history (with_dial (dial_attempts (history r) + 1) now (history r)) (set_phase (Dialing (next_attempt_id s)) r)]> (records s))
    (next_record_id s) (next_attempt_id s + 1) (next_observation_order s).
Lemma begin_dial_on s r now n (probe : bool) : registry_ok s -> r ∈ records s -> eligibility r now (config s) = Eligible \/ (probe = true /\ is_failure_limited_probe r now (config s) = true) ->
  next_attempt_id s + 1 < 2 ^ 64 -> dial_attempts (history r) + 1 < 2 ^ 32 ->
  exists i att, records s !! i = Some r /\ begin_dial_with_connection_id_and_policy (candidate_of r) now n probe s = (dialed i r now s, Ok att) /\
    attempt_id att = next_attempt_id s /\ connection_id att = n /\ a_record att = record_id r /\ a_endpoint att = endpoint r /\
    (utp_decision att = TryUtp <-> should_try (utp_endpoint (history r)) now = true).
Proof.
  intros Hok Hr He H64 H32. destruct (find_record s r Hok Hr) as (i & Hf & Hi). exists i.
  exists (mkAttempt (next_attempt_id s) n (record_id r) (endpoint r) (mse_endpoint (history r)) (if should_try (utp_endpoint (history r)) now then TryUtp else TcpWhileSuppressed)).
  split; [done|]. split; [|repeat (split; [done|]); cbn; by destruct (should_try _ _)].
  unfold begin_dial_with_connection_id_and_policy, mbind, M_bind, get. cbn [candidate_of c_record c_endpoint]. rewrite Hf. cbn. rewrite bool_decide_eq_true_2 by done. cbn [negb].
  assert (negb (bool_decide (eligibility r now (config s) = Eligible)) && negb (probe && is_failure_limited_probe r now (config s)) = false) as ->.
  { destruct He as [He|[-> ->]]; [by rewrite bool_decide_eq_true_2|by rewrite andb_false_r]. }
  pose proof (rg_records s Hok) as Hrec. rewrite Forall_forall in Hrec. destruct (ro_dials _ _ (Hrec r Hr)) as [Hd _].
  unfold checked_add. rewrite (proj2 (Z.ltb_lt _ _) H64). cbn. rewrite (proj2 (Z.ltb_lt _ _) H32). cbn. by rewrite (alter_at _ i (records s) r Hi).
Qed.
Lemma best_spec {A} (cmp : A -> A -> comparison) `{!LawfulCmp cmp} (P : A -> bool) (l : list A) :
  match min_by cmp (filter (fun r => P r = true) l) with
  | None => Forall (fun r => P r = false) l
  | Some r => r ∈ l /\ P r = true /\ forall r', r' ∈ l -> P r' = true -> cmp r r' <> Gt
  end.
Proof.
  pose proof (min_by_spec cmp (filter (fun r => P r = true) l)) as H. destruct (min_by _ _) as [r|].
  - destruct H as [Hr Hm]. apply list_elem_of_filter in Hr as [HP Hr]. split; [done|]. split; [done|]. intros r' Hr' HP'. apply Hm, list_elem_of_filter. done.
  - apply Forall_forall. intros r Hr. destruct (P r) eqn:E; [|done]. assert (r ∈ filter (fun r => P r = true) l) as Hin by (by apply list_elem_of_filter).
    rewrite H in Hin. by apply not_elem_of_nil in Hin.
Qed.
(** The peer chosen by a test and a comparison, and the dial of it. *)
Definition chosen (P : PeerRecord -> bool) (cmp : PeerRecord -> PeerRecord -> comparison) (now : Z) (dial : DialCandidate -> Z -> Z -> method DialAttempt) (s : PeerRegistry) (c : option DialCandidate) : Prop :=
  match c with
  | None => Forall (fun r => P r = false) (records s)
  | Some c => exists i r, records s !! i = Some r /\ c = candidate_of r /\ P r = true /\
      (forall r', r' ∈ records s -> P r' = true -> r' = r \/ cmp r r' = Lt) /\
      (next_attempt_id s + 1 < 2 ^ 64 -> dial_attempts (history r) + 1 < 2 ^ 32 -> forall n, exists att, dial c now n s = (dialed i r now s, Ok att) /\
        attempt_id att = next_attempt_id s /\ connection_id att = n /\ a_record att = record_id r /\ a_endpoint att = endpoint r)
  end.
Lemma chosen_ok (P : PeerRecord -> bool) cmp now (probe : bool) s : LawfulCmp cmp -> registry_ok s ->
  (forall r r', r ∈ records s -> r' ∈ records s -> cmp r r' <> Gt -> r' = r \/ cmp r r' = Lt) ->
  (forall r, P r = true -> eligibility r now (config s) = Eligible \/ (probe = true /\ is_failure_limited_probe r now (config s) = true)) ->
  chosen P cmp now (fun c now n => begin_dial_with_connection_id_and_policy c now n probe) s (candidate_of <$> min_by cmp (filter (fun r => P r = true) (records s))).
Proof.
  intros Hcmp Hok Hstrict HP. pose proof (best_spec cmp P (records s)) as H. destruct (min_by _ _) as [r|]; cbn; [|done]. destruct H as (Hr & HPr & Hm).
  destruct (find_record s r Hok Hr) as (i & _ & Hi). exists i, r. split; [done|]. split; [done|]. split; [done|]. split; [intros r' Hr' HP'; apply Hstrict; auto|].
  intros H64 H32 n. destruct (begin_dial_on s r now n probe Hok Hr (HP r HPr) H64 H32) as (j & att & Hj & E & E1 & E2 & E3 & E4 & _). exists att.
  assert (j = i) as ->. { apply (NoDup_lookup _ j i (record_id r) (rg_ids s Hok)); by rewrite list_lookup_fmap, ?Hj, ?Hi. } done.
Qed.
Lemma selectable_facts now p c r : selectable now p c r = true -> permits p (ip_of (endpoint r)) = true /\ eligibility r now c = Eligible.
Proof. unfold selectable. by intros [? ?%bool_decide_eq_true_1]%andb_prop. Qed.
Lemma update_eq i f s r : records s !! i = Some r -> update i f s = (set_records (<[i := f r]> (records s)) s, Ok tt).
Proof. intros Hi. unfold update, modify. by rewrite (alter_at f i (records s) r Hi). Qed.
Definition condemned (known_bad : bool) (r : PeerRecord) : bool := known_bad || (trust_points (integrity r) <=? -5).
Definition failed_record (known_bad : bool) (r : PeerRecord) : PeerRecord :=
  let r' := set_integrity (failed_integrity (integrity r)) r in if condemned known_bad r then set_ban_when_idle true r' else r'.
Lemma failed_record_id bad r : record_id (failed_record bad r) = record_id r.
Proof. unfold failed_record. by destruct (condemned bad r). Qed.

(** ** Observation *)
Definition observe_new (l : list PeerRecord) (o : PeerObservation) (now : Z) (s : PeerRegistry) : PeerRegistry :=
  mkRegistry (config s) (l ++ [new_record (next_record_id s) (next_observation_order s) o now]) (next_record_id s + 1) (next_attempt_id s) (next_observation_order s + 1).
Lemma observe_known s i r o now : registry_ok s -> records s !! i = Some r -> endpoint r = o_endpoint o ->
  observe o now s = (set_records (<[i := observed_again o now r]> (records s)) s, Ok (mkResult (record_id r) Merged)).
Proof.
  intros Hok Hi He. unfold observe, mbind, M_bind, get. destruct (list_find _ (records s)) as [[j x]|] eqn:E.
  - apply list_find_Some in E as (Hj & Hx & _). assert (j = i) as ->. { apply (NoDup_lookup _ j i (endpoint r) (rg_endpoints s Hok)); rewrite list_lookup_fmap, ?Hj, ?Hi; cbn; congruence. }
    assert (x = r) as -> by congruence. by rewrite (update_eq i _ s r Hi).
  - apply list_find_None in E. rewrite Forall_forall in E. destruct (E r); [by eapply list_elem_of_lookup_2|done].
Qed.
Lemma observe_unknown s o now : Forall (fun r => endpoint r <> o_endpoint o) (records s) -> next_record_id s + 1 < 2 ^ 64 -> next_observation_order s + 1 < 2 ^ 64 ->
  observe o now s =
    if len (records s) =? max_records (config s) then
      match eviction_candidate s with
      | None => (s, Err (CapacityExhausted (max_records (config s))))
      | Some i => match records s !! i with Some r => (observe_new (swap_remove i (records s)) o now s, Ok (mkResult (next_record_id s) (Replaced (record_id r)))) | None => (s, Panic) end
      end
    else (observe_new (records s) o now s, Ok (mkResult (next_record_id s) Added)).
Proof.
  intros Hnew H1 H2. unfold observe, mbind, M_bind, get. destruct (list_find _ (records s)) as [[j x]|] eqn:E.
  - apply list_find_Some in E as (Hj & Hx & _). rewrite Forall_forall in Hnew. by destruct (Hnew x); [eapply list_elem_of_lookup_2|].
  - unfold checked_add. rewrite (proj2 (Z.ltb_lt _ _) H1), (proj2 (Z.ltb_lt _ _) H2). cbn. destruct (len (records s) =? max_records (config s)); [|done].
    destruct (eviction_candidate s) as [i|]; [|done]. cbn. by destruct (records s !! i).
Qed.
Lemma eviction_spec s : registry_ok s -> match eviction_candidate s with
  | None => Forall (fun r => evictable r = false) (records s)
  | Some i => exists r, records s !! i = Some r /\ evictable r = true /\ forall r', r' ∈ records s -> evictable r' = true -> r' = r \/ compare_eviction_candidates (config s) r' r = Lt
  end.
Proof.
  intros Hok. unfold eviction_candidate. pose proof (max_by_spec (fun l r => compare_eviction_candidates (config s) l.2 r.2) (filter (fun x : nat * PeerRecord => evictable x.2 = true) (imap pair (records s)))) as H.
  assert (forall r', r' ∈ records s -> evictable r' = true -> exists j, (j, r') ∈ filter (fun x : nat * PeerRecord => evictable x.2 = true) (imap pair (records s))) as Hin.
  { intros r' [j Hj]%list_elem_of_lookup He. exists j. apply list_elem_of_filter. split; [done|]. by apply (elem_of_lookup_imap_2 pair (records s) r' j). }
  destruct (max_by _ _) as [[i r]|]; cbn.
  - destruct H as [Hr Hm]. apply list_elem_of_filter in Hr as [He Hr]. apply elem_of_lookup_imap in Hr as (k & x & [= -> ->] & Hk). exists x. split; [done|]. split; [done|].
    intros r' Hr' He'. destruct (Hin r' Hr' He') as [j Hj]. specialize (Hm _ Hj). cbn in Hm. destruct (compare_eviction_candidates (config s) r' x) eqn:Ec; [left|by right|done].
    apply then_with_eq in Ec as [_ Ec%Z.compare_eq_iff]. apply (nodup_fmap_inj observation_order (records s)); [apply Hok|done|by eapply list_elem_of_lookup_2|done].
  - apply Forall_forall. intros r' Hr'. destruct (evictable r') eqn:He'; [|done]. destruct (Hin r' Hr' He') as [j Hj]. rewrite H in Hj. by apply not_elem_of_nil in Hj.
Qed.

(** ** Counts *)
Definition kinds (c : PeerRegistryCounts) : Z := eligible c + not_connectable c + dialing c + connected c + banned c + backed_off c + failure_limited c.
Lemma count_step e c : total (count e c) = total c /\ kinds (count e c) = kinds c + 1.
Proof. unfold kinds. destruct e; cbn; split; lia. Qed.
(** Every record is counted once. *)
Lemma counts_partition now s : total (counts now s) = len (records s) /\ kinds (counts now s) = len (records s).
Proof.
  unfold counts. assert (forall (l : list PeerRecord) c, let c' := fold_left (fun c r => count (eligibility r now (config s)) c) l c in total c' = total c /\ kinds c' = kinds c + len l) as H.
  { induction l as [|r l IH]; intros c; cbn [fold_left]; [split; [done|rewrite len_nil; lia]|].
    destruct (IH (count (eligibility r now (config s)) c)) as [-> ->]. destruct (count_step (eligibility r now (config s)) c) as [-> ->]. rewrite len_cons. split; [done|lia]. }
  destruct (H (records s) (mkCounts (len (records s)) 0 0 0 0 0 0 0)) as [-> ->]. split; [done|]. unfold kinds. cbn. lia.
Qed.

(** * Properties *)

(** C13: after any history of calls no two records share an identity, an
    endpoint, an observation order or a live attempt; the registry holds no
    more records than its capacity; counters stay in their types and trust
    between -7 and 8; every attempt and identity is older than the next one;
    and every call returns, as a value or as an error. *)
Theorem registry_invariant c s0 es e : is_u 64 (max_records c) -> PeerRegistry_new c = Ok s0 ->
  registry_ok (run es s0) /\ (apply e (run es s0)).2.
Proof. intros Hc H0. pose proof (run_registry_ok c s0 es Hc H0) as Hok. split; [done|]. by apply apply_follows. Qed.

(** C12: a dial attempt is answered at most once.  Once it failed or was
    cancelled, every later callback of it is refused and changes nothing,
    whatever happens in between; once it succeeded no callback of the dial is
    accepted, and once the connection closed none at all. *)
Theorem attempt_answered_once c s0 es a s1 : is_u 64 (max_records c) -> PeerRegistry_new c = Ok s0 -> let s := run es s0 in
  ((exists now f, dial_failed a now f s = (s1, Ok tt)) \/ dial_cancelled a s = (s1, Ok tt) \/ (exists now f, connection_closed a now f s = (s1, Ok tt)) ->
    forall later, dial_refused a (run later s1) /\ close_refused a (run later s1)) /\
  ((exists now, dial_succeeded a now s = (s1, Ok tt)) -> forall later, dial_refused a (run later s1)).
Proof.
  intros Hc H0 s. pose proof (run_registry_ok c s0 es Hc H0) as Hok. fold s in Hok. split.
  - intros H later. assert (attempt_over (attempt_id a) s1 /\ registry_ok s1) as [Ho Hok1].
    { destruct H as [(now & f & E)|[E|(now & f & E)]]; split.
      - exact (wp_ok _ _ _ _ _ _ (dial_failed_over a now f s Hok) E).
      - by apply (wp_ok _ _ _ _ _ _ (dial_failed_preserves a now f s s (unchanged_follows s Hok)) E).
      - exact (wp_ok _ _ _ _ _ _ (dial_cancelled_over a s Hok) E).
      - by apply (wp_ok _ _ _ _ _ _ (dial_cancelled_preserves a s s (unchanged_follows s Hok)) E).
      - exact (wp_ok _ _ _ _ _ _ (connection_closed_over a now f s Hok) E).
      - by apply (wp_ok _ _ _ _ _ _ (connection_closed_preserves a now f s s (unchanged_follows s Hok)) E). }
    pose proof (over_after _ _ _ Ho (run_follows later s1 Hok1)) as Hlater.
    split; [by apply dialing_over_refused, over_dialing_over|by apply attempt_over_refused].
  - intros (now & E) later. pose proof (wp_ok _ _ _ _ _ _ (dial_succeeded_over a now s Hok) E) as Ho.
    destruct (wp_ok _ _ _ _ _ _ (dial_succeeded_preserves a now s s (unchanged_follows s Hok)) E) as [_ Hok1].
    destruct (run_follows later s1 Hok1) as [Hr _]. apply dialing_over_refused. by eapply dialing_over_reaches.
Qed.

(** C27: the peer selected for dialing is the best of those that may be dialed,
    and strictly better than every other; dialing it succeeds, with a new
    attempt that its record alone holds, unless a counter is full; and none
    is selected only when none may be dialed.  The same holds for the probes
    of peers that reached the failure limit. *)
Theorem select_exact c s0 es now p : is_u 64 (max_records c) -> PeerRegistry_new c = Ok s0 -> let s := run es s0 in
  chosen (selectable now p (config s)) compare_dial_candidates now begin_dial_with_connection_id s (select_with_address_families now p s) /\
  chosen (probe_selectable now p (config s)) compare_probe_candidates now begin_failure_limited_probe_with_connection_id s (select_failure_limited_probe now p s).
Proof.
  intros Hc H0 s. pose proof (run_registry_ok c s0 es Hc H0) as Hok. fold s in Hok. split.
  - apply (chosen_ok _ _ _ false); [apply _|done|intros r r'; by apply dial_strict|]. intros r [_ H]%selectable_facts. by left.
  - apply (chosen_ok _ _ _ true); [apply _|done|intros r r'; by apply probe_strict|]. intros r H. right. unfold probe_selectable in H. by apply andb_prop in H as [_ H].
Qed.


(** what an observation does.  A known endpoint is merged into its record;
    a new one is added while there is room; a full registry replaces the peer
    that is last in the order of eviction among those neither dialing,
    connected nor banned, and without such a peer refuses and changes nothing. *)
Theorem observe_exact c s0 es o now : is_u 64 (max_records c) -> PeerRegistry_new c = Ok s0 -> let s := run es s0 in
  next_record_id s + 1 < 2 ^ 64 -> next_observation_order s + 1 < 2 ^ 64 ->
  (forall i r, records s !! i = Some r -> endpoint r = o_endpoint o ->
    observe o now s = (set_records (<[i := observed_again o now r]> (records s)) s, Ok (mkResult (record_id r) Merged))) /\
  (Forall (fun r => endpoint r <> o_endpoint o) (records s) ->
    (len (records s) < max_records (config s) -> observe o now s = (observe_new (records s) o now s, Ok (mkResult (next_record_id s) Added))) /\
    (len (records s) = max_records (config s) ->
      (Forall (fun r => evictable r = false) (records s) /\ observe o now s = (s, Err (CapacityExhausted (max_records (config s))))) \/
      exists i r, records s !! i = Some r /\ evictable r = true /\
        (forall r', r' ∈ records s -> evictable r' = true -> r' = r \/ compare_eviction_candidates (config s) r' r = Lt) /\
        records s ≡ₚ r :: swap_remove i (records s) /\
        observe o now s = (observe_new (swap_remove i (records s)) o now s, Ok (mkResult (next_record_id s) (Replaced (record_id r)))))).
Proof.
  intros Hc H0 s H1 H2. pose proof (run_registry_ok c s0 es Hc H0) as Hok. fold s in Hok. split; [intros i r; by apply observe_known|].
  intros Hnew. rewrite (observe_unknown s o now Hnew H1 H2). split.
  - intros Hlt. rewrite (proj2 (Z.eqb_neq _ _)); [done|lia].
  - intros ->. rewrite Z.eqb_refl. pose proof (eviction_spec s Hok) as He. destruct (eviction_candidate s) as [i|]; [right|by left].
    destruct He as (r & Hi & He & Hm). exists i, r. rewrite Hi. split; [done|]. split; [done|]. split; [done|]. split; [by apply swap_remove_perm|done].
Qed.

(** a failed dial backs off.  The failure is counted, and the peer may not
    be dialed again before the failures so far times the backoff have passed,
    nor at all once they reach the limit. *)
Theorem failure_backs_off c s0 es a now f s1 : is_u 64 (max_records c) -> PeerRegistry_new c = Ok s0 -> let s := run es s0 in
  dial_failed a now f s = (s1, Ok tt) ->
  exists r r1, r ∈ records s /\ record_id r = a_record a /\ r1 ∈ records s1 /\ record_id r1 = a_record a /\ config s1 = config s /\
    consecutive_failures (history r1) = consecutive_failures (history r) + 1 /\ attempt_of (phase r1) = None /\
    forall t, t < now + reconnect_backoff (config s) * consecutive_failures (history r1) \/ max_consecutive_failures (config s) <= consecutive_failures (history r1) -> eligibility r1 t (config s) <> Eligible.
Proof.
  intros Hc H0 s E. pose proof (run_registry_ok c s0 es Hc H0) as Hok. fold s in Hok.
  revert E. apply (wp_ok (dial_failed a now f) s s1 tt (fun _ s1 => _) (fun _ _ => True)).
  unfold dial_failed. wp_step. apply record_for_attempt_ok; [|done]. intros i r Hi Hid _ Hp. wp_step.
  apply (update_follows i _ s s r); [by apply unchanged_follows|done|rec_step Hp|]. intros s2 Hs2 Hi2 E2. wp_step.
  eapply fail_follows; [exact Hs2|exact Hi2| |done]. intros r3 s3 Ef Hs3 Hi3 E3.
  destruct (apply_failure_step _ _ _ _ _ _ (follows_record _ _ _ _ Hs2 Hi2) Ef) as (Hstep & Hk & Hretry & _ & Hph & _). cbn [history set_phase] in Hk, Hretry.
  unfold update. wp_step. rewrite (alter_at _ i (records s3) r3 Hi3). exists r, (settle_pending_ban r3).
  assert (config s3 = config s) as Hcfg by (by rewrite E3, E2). assert (config s2 = config s) as Hcfg2 by (by rewrite E2). rewrite Hcfg2 in Hretry.
  assert (history (settle_pending_ban r3) = history r3) as Hh by (unfold settle_pending_ban; by destruct (_ && _)).
  split; [by eapply list_elem_of_lookup_2|]. split; [done|]. split; [cbn; apply list_elem_of_lookup; exists i; apply list_lookup_insert_eq; by eapply lookup_lt_Some|].
  split; [unfold settle_pending_ban; destruct (_ && _); cbn; rewrite (rs_id _ _ _ _ Hstep); done|]. split; [done|]. rewrite Hh. split; [done|].
  split; [unfold settle_pending_ban; destruct (_ && _); cbn; [done|by rewrite Hph]|].
  intros t Ht He. apply eligible_facts in He as (_ & _ & _ & Hlimit & He). rewrite Hh in *. rewrite Hretry in He. rewrite Hk in *. lia.
Qed.

(** ** Witnesses *)
Definition sample_config : PeerRegistryConfig := mkConfig 2 DEFAULT_MAX_CONSECUTIVE_FAILURES DEFAULT_RECONNECT_BACKOFF.
Definition sample_registry : PeerRegistry := mkRegistry sample_config [] 1 1 1.
Definition sample_endpoint (n : Z) : SocketAddr := SocketV4 (16909060 + n) 6881.
Definition sample_observation (n : Z) (source : PeerSource) : PeerObservation := mkObservation (sample_endpoint n) source true false.
Definition sample_candidate : DialCandidate := mkCandidate 1 (sample_endpoint 1).
Definition sample_attempt : DialAttempt := mkAttempt 1 1 1 (sample_endpoint 1) MseUnknown TryUtp.
(** Two peers, the better one being dialed. *)
Definition sample_dialing : list Event := [Observe (sample_observation 1 Tracker) 0; Observe (sample_observation 2 Dht) SECOND; BeginDial sample_candidate SECOND].
Definition sample_connected : list Event := sample_dialing ++ [DialSucceeded sample_attempt (2 * SECOND)].
Definition sample_failed : PeerRegistry := (dial_failed sample_attempt (2 * SECOND) FConnect (run sample_dialing sample_registry)).1.

Definition sample_other : PeerRecord := default (new_record 0 0 (sample_observation 0 Cache) 0) (records (run sample_dialing sample_registry) !! 1%nat).

Lemma registry_invariant_witness : PeerRegistry_new sample_config = Ok sample_registry /\ registry_ok (run sample_connected sample_registry).
Proof. split; [reflexivity|]. refine (proj1 (registry_invariant sample_config sample_registry sample_connected (BanPeer 2) _ _)); [by split|reflexivity]. Defined.
Lemma attempt_answered_once_witness : dial_failed sample_attempt (2 * SECOND) FConnect (run sample_dialing sample_registry) = (sample_failed, Ok tt) /\
  dial_refused sample_attempt (run [BanPeer 2; BeginDial sample_candidate (100 * SECOND)] sample_failed).
Proof.
  split; [vm_compute; reflexivity|].
  refine (proj1 (proj1 (attempt_answered_once sample_config sample_registry sample_dialing sample_attempt sample_failed _ _) _ [BanPeer 2; BeginDial sample_candidate (100 * SECOND)])); [by split|reflexivity|].
  left. exists (2 * SECOND), FConnect. vm_compute. reflexivity.
Defined.
Lemma select_exact_witness : select_with_address_families (2 * SECOND) dual_stack (run (take 2 sample_dialing) sample_registry) = Some sample_candidate /\
  chosen (selectable (2 * SECOND) dual_stack sample_config) compare_dial_candidates (2 * SECOND) begin_dial_with_connection_id (run (take 2 sample_dialing) sample_registry) (Some sample_candidate).
Proof.
  split; [vm_compute; reflexivity|].
  refine (proj1 (select_exact sample_config sample_registry (take 2 sample_dialing) (2 * SECOND) dual_stack _ _)); [by split|reflexivity].
Defined.
Lemma observe_exact_witness : observe (sample_observation 3 Tracker) (3 * SECOND) (run sample_dialing sample_registry) =
  (observe_new (swap_remove 1 (records (run sample_dialing sample_registry))) (sample_observation 3 Tracker) (3 * SECOND) (run sample_dialing sample_registry), Ok (mkResult 3 (Replaced 2))) /\
  observe (sample_observation 2 Manual) (3 * SECOND) (run sample_dialing sample_registry) =
  (set_records (alter (observed_again (sample_observation 2 Manual) (3 * SECOND)) 1%nat (records (run sample_dialing sample_registry))) (run sample_dialing sample_registry), Ok (mkResult 2 Merged)).
Proof.
  split; [vm_compute; reflexivity|].
  destruct (observe_exact sample_config sample_registry sample_dialing (sample_observation 2 Manual) (3 * SECOND)) as [H _]; [by split|reflexivity|vm_compute; reflexivity|vm_compute; reflexivity|].
  assert (records (run sample_dialing sample_registry) !! 1%nat = Some sample_other) as E by (vm_compute; reflexivity).
  rewrite (alter_at _ 1 _ sample_other E). apply (H 1%nat sample_other E). vm_compute. reflexivity.
Defined.
Lemma failure_backs_off_witness : dial_failed sample_attempt (2 * SECOND) FConnect (run sample_dialing sample_registry) = (sample_failed, Ok tt) /\
  exists r, r ∈ records sample_failed /\ eligibility r (61 * SECOND) sample_config <> Eligible.
Proof.
  split; [vm_compute; reflexivity|].
  destruct (failure_backs_off sample_config sample_registry sample_dialing sample_attempt (2 * SECOND) FConnect sample_failed) as (r & r1 & Hr & _ & Hr1 & _ & _ & Hk & _ & Ht); [by split|reflexivity|vm_compute; reflexivity|].
  exists r1. split; [exact Hr1|]. apply Ht. left. rewrite Hk. vm_compute in Hr. pose proof (eq_refl : reconnect_backoff (config (run sample_dialing sample_registry)) = 60 * SECOND) as ->.
  assert (0 <= consecutive_failures (history r)); [|unfold SECOND; lia].
  repeat (apply elem_of_cons in Hr as [-> |Hr]; [vm_compute; discriminate|]). by apply not_elem_of_nil in Hr.
Defined.
