(* ===== verification/Pex.v ===== *)
(** * Peer exchange of a torrent (engine/pex.rs)

    What the connections of a torrent say about other peers, and what they are
    told: the contacts each source has named and the connections each contact
    comes from, the cadence of messages, the timeline of the peers the torrent
    itself is connected to, and the messages that report its changes.  The
    messages are those of [Extension], the peers learned go to the registry of
    [PeerRegistry]; [pex_address_allowed] uses the network policy of
    engine/network.rs.  A connection is the number of its identifier.

    The properties: the two records of provenance agree and stay bounded and
    every call returns; a message is applied at most once a minute, and only
    admissible contacts are taken; a connection that was sent every change
    knows exactly the live peers; and one error: two endpoints of one address
    in a message make the receiver refuse it. *)
From S2P Require Import Prelude Bytes Ordered PeerRegistry Extension.
#[local] Open Scope Z_scope.

Definition PEX_INTERVAL : Z := 60 * SECOND.
Definition PEX_RATE_STRIKES_BEFORE_CLOSE : Z := 3.
Definition MAX_PEX_CONTACTS_PER_SOURCE : Z := 50.
Definition MAX_PEX_CONTACTS_PER_TORRENT : Z := 200.
Definition MAX_PEX_TIMELINE_EVENTS : Z := 4096.
(** [PexFlags::UTP]. *)
Definition UTP : Z := 4.

(** ** Addresses as keys of ordered maps *)
#[export] Instance IpAddr_dec : EqDecision IpAddr.
Proof. solve_decision. Defined.
#[export] Instance IpAddr_countable : Countable IpAddr.
Proof.
  refine (inj_countable' (fun a => match a with PeerRegistry.V4 b => inl b | PeerRegistry.V6 b => inr b end) (fun s => match s with inl b => PeerRegistry.V4 b | inr b => PeerRegistry.V6 b end) _).
  abstract (by intros []).
Defined.
#[export] Instance SocketAddr_countable : Countable SocketAddr.
Proof.
  refine (inj_countable' (fun a => match a with SocketV4 i p => inl (i, p) | SocketV6 i p f s => inr (i, p, f, s) end)
    (fun x => match x with inl (i, p) => SocketV4 i p | inr (i, p, f, s) => SocketV6 i p f s end) _).
  abstract (by intros []).
Defined.
(** The derived orders. *)
Definition ip_order (a : IpAddr) : list Z := match a with PeerRegistry.V4 b => [0; b] | PeerRegistry.V6 b => [1; b] end.
Definition socket_order (a : SocketAddr) : list Z := match a with SocketV4 i p => [0; i; p] | SocketV6 i p f s => [1; i; p; f; s] end.
(** The entries of a [BTreeMap] in the order of its keys. *)
Definition items_by {K V} `{Countable K} (key : K -> list Z) (m : gmap K V) : list (K * V) := sort_by (fun a b => lex (key a.1) (key b.1)) (map_to_list m).

(** ** Addresses (engine/network.rs and pex.rs) *)
Inductive NetworkPolicy := Offline | LoopbackOnly | Online.
(** 127.0.0.0/8 and ::1. *)
Definition is_loopback (ip : IpAddr) : bool := match ip with PeerRegistry.V4 bits => Z.shiftr bits 24 =? 127 | PeerRegistry.V6 bits => bits =? 1 end.
(** 10.0.0.0/8, 172.16.0.0/12 and 192.168.0.0/16. *)
Definition is_private (bits : Z) : bool := (Z.shiftr bits 24 =? 10) || (Z.shiftr bits 20 =? 172 * 16 + 1) || (Z.shiftr bits 16 =? 192 * 256 + 168).
(** 169.254.0.0/16. *)
Definition is_link_local (bits : Z) : bool := Z.shiftr bits 16 =? 169 * 256 + 254.
(** fc00::/7. *)
Definition is_unique_local (bits : Z) : bool := Z.shiftr bits 121 =? 126.
Definition allows (p : NetworkPolicy) (a : SocketAddr) : bool :=
  if negb (is_valid_outbound_address a) then false
  else match p with Offline => false | LoopbackOnly => is_loopback (ip_of a) | Online => true end.
Definition is_local_v4 (bits : Z) : bool := is_private bits || is_link_local bits.
Definition is_local_v6 (bits : Z) : bool := is_unique_local bits || is_unicast_link_local bits.
Definition is_local_address (ip : IpAddr) : bool :=
  match ip with
  | PeerRegistry.V4 bits => is_loopback ip || is_local_v4 bits
  | PeerRegistry.V6 bits => is_loopback ip || is_local_v6 bits
  end.
Definition local_source_allows (source candidate : IpAddr) : bool :=
  if is_loopback source && is_loopback candidate then true
  else
    match source, candidate with
    | PeerRegistry.V4 s, PeerRegistry.V4 c => is_local_v4 s && is_local_v4 c
    | PeerRegistry.V6 s, PeerRegistry.V6 c => is_local_v6 s && is_local_v6 c
    | _, _ => false
    end.
Definition pex_address_allowed (candidate source : SocketAddr) (source_listen_endpoint : option SocketAddr) (policy : NetworkPolicy) (families : AddressFamilyPolicy) (self_endpoints : list SocketAddr) : bool :=
  if bool_decide (candidate ∈ self_endpoints) || bool_decide (source_listen_endpoint = Some candidate) || negb (allows policy candidate) || negb (permits families (ip_of candidate)) then false
  else negb (is_local_address (ip_of candidate)) || local_source_allows (ip_of source) (ip_of candidate).
Definition socket_endpoint (e : PexEndpoint) : SocketAddr :=
  match Extension.ip e with
  | Extension.V4 address => SocketV4 (of_be address) (Extension.port e)
  | Extension.V6 address => SocketV6 (of_be address) (Extension.port e) 0 0
  end.
Definition wire_endpoint (a : SocketAddr) : PexEndpoint :=
  match a with
  | SocketV4 ip port => PexEndpoint_new (Extension.V4 (to_be 4 ip)) port
  | SocketV6 ip port _ _ => PexEndpoint_new (Extension.V6 (to_be 16 ip)) port
  end.

(** ** The state *)
Record PexSourceCadence := mkCadence { last_accepted : option Z; strikes : Z }.
Record PexSourceState := mkSource { cadence : PexSourceCadence; contacts : gmap IpAddr SocketAddr }.
Definition PexSourceState_default : PexSourceState := mkSource (mkCadence None 0) ∅.
Inductive PexReceiveDisposition :=
| Applied (added dropped filtered truncated : Z)
| PrivacyBlocked
| RateLimited (strikes : Z) (close : bool).
Record PexReceiveContext := mkContext {
  source_endpoint : SocketAddr;
  now : Z;
  verified_public : bool;
  network_policy : NetworkPolicy;
  address_families : AddressFamilyPolicy;
  self_endpoints : list SocketAddr;
}.
Inductive PexError := PE_Extension (e : ExtensionError) | PE_Registry (e : PeerRegistryError).
Inductive PexTimelineKind := KAdded (flags : PexFlags) | KDropped.
Record PexTimelineEvent := mkEvent { sequence : Z; e_endpoint : SocketAddr; kind : PexTimelineKind }.
Record PexCursor := mkCursor { cursor_next : Z; initial_sent : bool; last_sent : option Z }.
Record PexState := mkState {
  sources : gmap Z PexSourceState;
  endpoint_sources : gmap SocketAddr (gset Z);
  live : gmap SocketAddr PexFlags;
  timeline : list PexTimelineEvent;
  next_sequence : Z;
  cursors : gmap Z PexCursor;
  extensions : gmap Z ExtensionMap;
}.
Definition PexState_default : PexState := mkState ∅ ∅ ∅ [] 1 ∅ ∅.
Definition set_pex_sources (x : gmap Z PexSourceState) (s : PexState) : PexState := mkState x (endpoint_sources s) (live s) (timeline s) (next_sequence s) (cursors s) (extensions s).
Definition set_endpoint_sources (x : gmap SocketAddr (gset Z)) (s : PexState) : PexState := mkState (sources s) x (live s) (timeline s) (next_sequence s) (cursors s) (extensions s).
Definition set_live (x : gmap SocketAddr PexFlags) (s : PexState) : PexState := mkState (sources s) (endpoint_sources s) x (timeline s) (next_sequence s) (cursors s) (extensions s).
Definition set_timeline (x : list PexTimelineEvent) (n : Z) (s : PexState) : PexState := mkState (sources s) (endpoint_sources s) (live s) x n (cursors s) (extensions s).
Definition set_cursors (x : gmap Z PexCursor) (s : PexState) : PexState := mkState (sources s) (endpoint_sources s) (live s) (timeline s) (next_sequence s) x (extensions s).
Definition set_extensions (x : gmap Z ExtensionMap) (s : PexState) : PexState := mkState (sources s) (endpoint_sources s) (live s) (timeline s) (next_sequence s) (cursors s) x.
(** The exchange and the registry it feeds. *)
Record World := mkWorld { pex : PexState; registry : PeerRegistry }.
Definition on_pex (f : PexState -> PexState) (w : World) : World := mkWorld (f (pex w)) (registry w).
Abbreviation method := (M World PexError).
(** A call of the registry. *)
Definition on_registry {A} (op : M PeerRegistry PeerRegistryError A) : method A :=
  fun w => let '(r, o) := op (registry w) in (mkWorld (pex w) r, map_err PE_Registry o).

(** ** Live peers and the timeline *)
Definition push_event (e : SocketAddr) (k : PexTimelineKind) (s : PexState) : PexState :=
  let pushed := timeline s ++ [mkEvent (next_sequence s) e k] in
  set_timeline (if MAX_PEX_TIMELINE_EVENTS <? len pushed then tail pushed else pushed) (saturating_add 64 (next_sequence s) 1) s.
Definition peer_established (e : SocketAddr) (flags : PexFlags) (s : PexState) : PexState :=
  let s' := set_live (<[e := flags]> (live s)) s in
  match live s !! e with None => push_event e (KAdded flags) s' | Some _ => s' end.
Definition peer_dropped (e : SocketAddr) (s : PexState) : PexState :=
  match live s !! e with Some _ => push_event e KDropped (set_live (delete e (live s)) s) | None => s end.

(** ** Cursors and extension maps *)
(** [entry(connection).or_insert(...)]. *)
Definition enable_outbound (c : Z) (s : PexState) : PexState :=
  match cursors s !! c with
  | Some _ => s
  | None => set_cursors (<[c := mkCursor (next_sequence s) false None]> (cursors s)) s
  end.
Definition disable_outbound (c : Z) (s : PexState) : PexState := set_cursors (delete c (cursors s)) s.
Definition extension_map (c : Z) (s : PexState) : ExtensionMap := default ExtensionMap_default (extensions s !! c).
Definition has_pex (m : ExtensionMap) : bool := match m_pex_id m with Some _ => true | None => false end.
Definition apply_extension_handshake (c : Z) (handshake : ExtensionHandshake) (s : PexState) : PexState * ExtensionMap :=
  let map := ExtensionMap_apply handshake (extension_map c s) in
  let s := set_extensions (<[c := map]> (extensions s)) s in
  (if has_pex map then enable_outbound c s else disable_outbound c s, map).
Definition install_extension_map (c : Z) (map : ExtensionMap) (s : PexState) : PexState :=
  let s := set_extensions (<[c := map]> (extensions s)) s in
  if has_pex map then enable_outbound c s else s.

(** ** Provenance *)
Definition source_of (c : Z) (s : PexState) : PexSourceState := default PexSourceState_default (sources s !! c).
Definition set_source (c : Z) (st : PexSourceState) (s : PexState) : PexState := set_pex_sources (<[c := st]> (sources s)) s.
Definition set_contacts (x : gmap IpAddr SocketAddr) (st : PexSourceState) : PexSourceState := mkSource (cadence st) x.
Definition remove_endpoint_source (e : SocketAddr) (source : Z) : method unit :=
  w ← get;
  match endpoint_sources (pex w) !! e with
  | None => mret tt
  | Some x =>
    let x := x ∖ {[source]} in
    modify (on_pex (fun s => set_endpoint_sources (<[e := x]> (endpoint_sources s)) s));;
    if bool_decide (x = ∅) then
      modify (on_pex (fun s => set_endpoint_sources (delete e (endpoint_sources s)) s));;
      on_registry (PeerRegistry.remove_endpoint_source e PeerExchange);;
      mret tt
    else mret tt
  end.
(** [for endpoint in contacts.into_values()]. *)
Fixpoint remove_contacts (l : list SocketAddr) (source : Z) : method unit :=
  match l with
  | [] => mret tt
  | e :: l => remove_endpoint_source e source;; remove_contacts l source
  end.
Definition remove_source (source : Z) : method Z :=
  modify (on_pex (fun s => set_extensions (delete source (extensions s)) (set_cursors (delete source (cursors s)) s)));;
  w ← get;
  match sources (pex w) !! source with
  | None => mret 0
  | Some st =>
    modify (on_pex (fun s => set_pex_sources (delete source (sources s)) s));;
    remove_contacts (items_by ip_order (contacts st)).*2 source;;
    mret (Z.of_nat (size (contacts st)))
  end.
Definition clear_exchange (s : PexState) : PexState := mkState ∅ ∅ ∅ [] (next_sequence s) ∅ (extensions s).
Definition purge : method Z :=
  removed ← on_registry (PeerRegistry.remove_source PeerExchange);
  modify (on_pex (fun s => set_extensions ∅ (clear_exchange s)));;
  mret removed.
Definition set_session_enabled (enabled : bool) : method Z :=
  if enabled then
    w ← get;
    let connections := omap (fun cm => if has_pex cm.2 then Some cm.1 else None) (btree_items (extensions (pex w))) in
    modify (on_pex (fun s => fold_left (fun s c => enable_outbound c s) connections s));;
    mret 0
  else
    removed ← on_registry (PeerRegistry.remove_source PeerExchange);
    modify (on_pex clear_exchange);;
    mret removed.
(** [for source in sources]: the contact is forgotten by its sources. *)
Definition forget_contact (e : SocketAddr) (x : gset Z) (s : PexState) : PexState :=
  fold_left (fun s c => match sources s !! c with Some st => set_source c (set_contacts (filter (fun kv => kv.2 <> e) (contacts st)) st) s | None => s end) (sort_by Z.compare (elements x)) s.
Fixpoint remove_endpoints (l : list SocketAddr) : method unit :=
  match l with
  | [] => mret tt
  | e :: l =>
    modify (on_pex (fun s =>
      match endpoint_sources s !! e with
      | Some x => forget_contact e x (set_endpoint_sources (delete e (endpoint_sources s)) s)
      | None => s
      end));;
    on_registry (PeerRegistry.remove_endpoint_source e PeerExchange);;
    modify (on_pex (peer_dropped e));;
    remove_endpoints l
  end.
Definition remove_disallowed (policy : AddressFamilyPolicy) : method Z :=
  w ← get;
  let endpoints := filter (fun e => permits policy (ip_of e) = false) (items_by socket_order (endpoint_sources (pex w))).*1 in
  remove_endpoints endpoints;;
  modify (on_pex (fun s => set_timeline (filter (fun ev => permits policy (ip_of (e_endpoint ev)) = true) (timeline s)) (next_sequence s) s));;
  mret (len endpoints).

(** ** Receiving *)
Definition too_soon (last : option Z) (now : Z) : bool := match last with Some t => saturating_sub now t <? PEX_INTERVAL | None => false end.
Fixpoint receive_dropped (source : Z) (l : list PexEndpoint) (filtered dropped : Z) : method (Z * Z) :=
  match l with
  | [] => mret (filtered, dropped)
  | e :: l =>
    let address := socket_endpoint e in
    w ← get;
    match st ← sources (pex w) !! source; contacts st !! ip_of address with
    | None => receive_dropped source l (filtered + 1) dropped
    | Some existing =>
      if negb (bool_decide (existing = address)) then receive_dropped source l (filtered + 1) dropped
      else
        st ← lift (expect (sources (pex w) !! source));
        modify (on_pex (set_source source (set_contacts (delete (ip_of address) (contacts st)) st)));;
        remove_endpoint_source existing source;;
        receive_dropped source l filtered (dropped + 1)
    end
  end.
Fixpoint receive_added (source : Z) (context : PexReceiveContext) (listen : option SocketAddr) (l : list PexContact) (filtered added : Z) : method (Z * Z) :=
  match l with
  | [] => mret (filtered, added)
  | contact :: l =>
    let address := socket_endpoint (Extension.endpoint contact) in
    w ← get;
    if negb (pex_address_allowed address (source_endpoint context) listen (network_policy context) (address_families context) (self_endpoints context))
       || match sources (pex w) !! source with
          | Some st => bool_decide (is_Some (contacts st !! ip_of address)) || (MAX_PEX_CONTACTS_PER_SOURCE <=? Z.of_nat (size (contacts st)))
          | None => false
          end
    then receive_added source context listen l (filtered + 1) added
    else
      e ← lift (map_err PE_Registry (PeerEndpoint_new address));
      if bool_decide (endpoint_sources (pex w) !! e = None) && (MAX_PEX_CONTACTS_PER_TORRENT <=? Z.of_nat (size (endpoint_sources (pex w)))) then receive_added source context listen l (filtered + 1) added
      else
        on_registry (observe (mkObservation e PeerExchange true (Extension.contains (flags contact) UTP)) (now context));;
        st ← lift (expect (sources (pex w) !! source));
        modify (on_pex (fun s =>
          let s := set_source source (set_contacts (<[ip_of address := e]> (contacts st)) st) s in
          set_endpoint_sources (<[e := default ∅ (endpoint_sources s !! e) ∪ {[source]}]> (endpoint_sources s)) s));;
        receive_added source context listen l filtered (added + 1)
  end.
Definition with_port (ip : IpAddr) (port : Z) : SocketAddr := match ip with PeerRegistry.V4 b => SocketV4 b port | PeerRegistry.V6 b => SocketV6 b port 0 0 end.
Definition receive (source : Z) (payload : list Z) (context : PexReceiveContext) : method PexReceiveDisposition :=
  if negb (verified_public context) then mret PrivacyBlocked
  else
    modify (on_pex (fun s => set_source source (source_of source s) s));;
    w ← get;
    let st := source_of source (pex w) in
    if too_soon (last_accepted (cadence st)) (now context) then
      let n := saturating_add 8 (strikes (cadence st)) 1 in
      modify (on_pex (set_source source (mkSource (mkCadence (last_accepted (cadence st)) n) (contacts st))));;
      mret (RateLimited n (PEX_RATE_STRIKES_BEFORE_CLOSE <=? n))
    else
      message ← lift (map_err PE_Extension (parse_pex_message payload));
      modify (on_pex (set_source source (mkSource (mkCadence (Some (now context)) 0) (contacts st))));;
      let truncated := saturating_add 64 (additions_truncated message) (drops_truncated message) in
      '(filtered, dropped) ← receive_dropped source (Extension.dropped message) 0 0;
      w ← get;
      let listen := with_port (ip_of (source_endpoint context)) <$> (m ← extensions (pex w) !! source; m_listen_port m) in
      '(filtered, added) ← receive_added source context listen (Extension.added message) filtered 0;
      mret (Applied added dropped filtered truncated).

(** ** Sending *)
Definition is_added (k : PexTimelineKind) : bool := match k with KAdded _ => true | KDropped => false end.
Definition additions (net : gmap SocketAddr PexTimelineKind) : Z := Z.of_nat (size (filter (fun kv : SocketAddr * PexTimelineKind => is_added kv.2 = true) net)).
Definition drops (net : gmap SocketAddr PexTimelineKind) : Z := Z.of_nat (size (filter (fun kv : SocketAddr * PexTimelineKind => is_added kv.2 = false) net)).
(** The net change of the events from the cursor on, as far as it fits in a message, and the sequence after the last event used. *)
Fixpoint net_change (receiving : SocketAddr) (l : list PexTimelineEvent) (net : gmap SocketAddr PexTimelineKind) (next : Z) : gmap SocketAddr PexTimelineKind * Z :=
  match l with
  | [] => (net, next)
  | ev :: l =>
    let after := saturating_add 64 (sequence ev) 1 in
    if bool_decide (e_endpoint ev = receiving) then net_change receiving l net after
    else
      match net !! e_endpoint ev, kind ev with
      | Some (KAdded _), KDropped | Some KDropped, KAdded _ => net_change receiving l (delete (e_endpoint ev) net) after
      | _, _ =>
        if (is_added (kind ev) && (additions net =? MAX_PEX_ADDITIONS)) || (negb (is_added (kind ev)) && (drops net =? MAX_PEX_DROPS)) then (net, next)
        else net_change receiving l (<[e_endpoint ev := kind ev]> net) after
      end
  end.
Definition push_net (m : PexMessage) (x : SocketAddr * PexTimelineKind) : PexMessage :=
  match x.2 with
  | KAdded flags => if len (Extension.added m) <? MAX_PEX_ADDITIONS then mkPex (Extension.added m ++ [mkContact (wire_endpoint x.1) flags]) (Extension.dropped m) 0 0 else m
  | KDropped => if len (Extension.dropped m) <? MAX_PEX_DROPS then mkPex (Extension.added m) (Extension.dropped m ++ [wire_endpoint x.1]) 0 0 else m
  end.
Definition message_of (net : gmap SocketAddr PexTimelineKind) : PexMessage := fold_left push_net (items_by socket_order net) (mkPex [] [] 0 0).
Definition initial_message (receiving : SocketAddr) (s : PexState) : PexMessage :=
  mkPex ((fun ef => mkContact (wire_endpoint ef.1) ef.2) <$> truncate MAX_PEX_ADDITIONS (filter (fun ef => ef.1 <> receiving) (items_by socket_order (live s)))) [] 0 0.
Definition oldest (s : PexState) : Z := match timeline s with ev :: _ => sequence ev | [] => next_sequence s end.
Definition next_message (receiving : SocketAddr) (c : PexCursor) (s : PexState) : PexCursor * PexMessage :=
  if negb (initial_sent c) || (cursor_next c <? oldest s) then (mkCursor (next_sequence s) true (last_sent c), initial_message receiving s)
  else
    let '(net, next) := net_change receiving (filter (fun ev => cursor_next c <= sequence ev) (timeline s)) ∅ (cursor_next c) in
    (mkCursor next (initial_sent c) (last_sent c), message_of net).
Definition is_empty_message (m : PexMessage) : bool := bool_decide (Extension.added m = []) && bool_decide (Extension.dropped m = []).
Definition set_cursor (c : Z) (cur : PexCursor) (s : PexState) : PexState := set_cursors (<[c := cur]> (cursors s)) s.
Definition next_outbound (c : Z) (receiving : SocketAddr) (now : Z) : method (option (list Z)) :=
  w ← get;
  match cursors (pex w) !! c with
  | None => mret None
  | Some cursor =>
    if too_soon (last_sent cursor) now then mret None
    else
      let '(cursor, message) := next_message receiving cursor (pex w) in
      modify (on_pex (set_cursor c cursor));;
      if is_empty_message message then mret None
      else
        modify (on_pex (set_cursor c (mkCursor (cursor_next cursor) (initial_sent cursor) (Some now))));;
        bytes ← lift (map_err PE_Extension (encode_pex_message message));
        mret (Some bytes)
  end.

(** * Lemmas *)

(** ** The live peers that a log of events leaves *)
Definition after_event (l : gset SocketAddr) (ev : PexTimelineEvent) : gset SocketAddr :=
  if is_added (kind ev) then {[e_endpoint ev]} ∪ l else l ∖ {[e_endpoint ev]}.
Definition lives_from (l : gset SocketAddr) (log : list PexTimelineEvent) : gset SocketAddr := fold_left after_event log l.
(** Peers are added when they are not live, and dropped when they are. *)
Fixpoint alternates (l : gset SocketAddr) (log : list PexTimelineEvent) : Prop :=
  match log with
  | [] => True
  | ev :: log => (if is_added (kind ev) then e_endpoint ev ∉ l else e_endpoint ev ∈ l) /\ alternates (after_event l ev) log
  end.
Lemma lives_app l log log' : lives_from l (log ++ log') = lives_from (lives_from l log) log'.
Proof. apply fold_left_app. Qed.
Lemma alternates_app l log log' : alternates l (log ++ log') <-> alternates l log /\ alternates (lives_from l log) log'.
Proof. revert l. induction log as [|ev log IH]; intros l; cbn; [tauto|]. rewrite IH. unfold lives_from. cbn. tauto. Qed.
(** The sequences count up from [n]. *)
Fixpoint numbered (n : Z) (log : list PexTimelineEvent) : Prop :=
  match log with [] => True | ev :: log => sequence ev = n /\ numbered (n + 1) log end.
Lemma numbered_app n log log' : numbered n (log ++ log') <-> numbered n log /\ numbered (n + len log) log'.
Proof.
  revert n. induction log as [|ev log IH]; intros n; cbn [app numbered].
  - rewrite len_nil. replace (n + 0) with n by lia. tauto.
  - rewrite IH, len_cons. replace (n + 1 + len log) with (n + (len log + 1)) by lia. replace (n + (1 + len log)) with (n + (len log + 1)) by lia. tauto.
Qed.
Lemma numbered_bounds n log ev : numbered n log -> ev ∈ log -> n <= sequence ev < n + len log.
Proof.
  revert n. induction log as [|x log IH]; intros n; [by intros _ ?%not_elem_of_nil|]. intros [Hx Hl] [->|Hin]%elem_of_cons; rewrite len_cons; pose proof (len_nonneg log); [lia|].
  specialize (IH _ Hl Hin). lia.
Qed.
(** The events from a sequence on. *)
Lemma numbered_suffix n log k : numbered n log -> n <= k <= n + len log -> filter (fun ev => k <= sequence ev) log = drop (Z.to_nat (k - n)) log.
Proof.
  intros Hn Hk. rewrite <- (take_drop (Z.to_nat (k - n)) log) at 1. rewrite <- (take_drop (Z.to_nat (k - n)) log) in Hn. apply numbered_app in Hn as [H1 H2].
  rewrite filter_app. assert (len (take (Z.to_nat (k - n)) log) = k - n) as Hl by (rewrite len_take; lia).
  assert (filter (fun ev => k <= sequence ev) (take (Z.to_nat (k - n)) log) = @nil PexTimelineEvent) as ->.
  { destruct (filter (fun ev => k <= sequence ev) (take (Z.to_nat (k - n)) log)) as [|x l] eqn:E; [done|].
    assert (x ∈ x :: l) as Hx by (by left). rewrite <- E in Hx. apply list_elem_of_filter in Hx as [Hx Hin]. pose proof (numbered_bounds _ _ _ H1 Hin). lia. }
  cbn [app]. assert (forall l : list PexTimelineEvent, (forall x, x ∈ l -> k <= sequence x) -> filter (fun ev => k <= sequence ev) l = l) as Hall.
  { induction l as [|x l IH]; intros Hx; [done|]. rewrite filter_cons_True by (apply Hx; by left). f_equal. apply IH. intros y Hy. apply Hx. by right. }
  apply Hall. intros x Hx. pose proof (numbered_bounds _ _ _ H2 Hx). lia.
Qed.

(** ** Net changes *)
Definition added_in (net : gmap SocketAddr PexTimelineKind) (e : SocketAddr) : Prop := exists flags, net !! e = Some (KAdded flags).
(** What a net change says about the peers that were live before and are live now. *)
Definition net_relates (receiving : SocketAddr) (before now : gset SocketAddr) (net : gmap SocketAddr PexTimelineKind) : Prop :=
  net !! receiving = None /\ forall e, e <> receiving ->
    match net !! e with
    | Some (KAdded _) => (e ∉ before) /\ (e ∈ now)
    | Some KDropped => (e ∈ before) /\ (e ∉ now)
    | None => (e ∈ before) <-> (e ∈ now)
    end.
Lemma net_relates_refl receiving l : net_relates receiving l l ∅.
Proof. split; [by rewrite lookup_empty|]. intros e _. by rewrite lookup_empty. Qed.
Lemma after_event_other l ev e : e <> e_endpoint ev -> e ∈ after_event l ev <-> e ∈ l.
Proof. intros Hne. unfold after_event. destruct (is_added (kind ev)); set_solver. Qed.
Lemma net_relates_skip receiving before l net ev : e_endpoint ev = receiving -> net_relates receiving before l net -> net_relates receiving before (after_event l ev) net.
Proof.
  intros <- [H1 H2]. split; [done|]. intros e Hne. specialize (H2 e Hne). pose proof (after_event_other l ev e Hne). destruct (net !! e) as [[]|]; tauto.
Qed.
Lemma net_relates_cancel receiving before l net ev : e_endpoint ev <> receiving -> net_relates receiving before l net ->
  match net !! e_endpoint ev with Some k => is_added k = negb (is_added (kind ev)) | None => False end -> net_relates receiving before (after_event l ev) (delete (e_endpoint ev) net).
Proof.
  intros Hr [H1 H2] Hk. split; [by rewrite lookup_delete_ne by congruence|]. intros e Hne. specialize (H2 e Hne).
  destruct (decide (e = e_endpoint ev)) as [->|He]; [|rewrite lookup_delete_ne by congruence; pose proof (after_event_other l ev e He); destruct (net !! e) as [[]|]; tauto].
  rewrite lookup_delete_eq. unfold after_event. destruct (net !! e_endpoint ev) as [[f|]|]; [|..|done]; cbn in Hk; destruct (is_added (kind ev)); try done; set_solver.
Qed.
Lemma net_relates_insert receiving before l net ev : e_endpoint ev <> receiving -> net_relates receiving before l net -> net !! e_endpoint ev = None ->
  (if is_added (kind ev) then e_endpoint ev ∉ l else e_endpoint ev ∈ l) -> net_relates receiving before (after_event l ev) (<[e_endpoint ev := kind ev]> net).
Proof.
  intros Hr [H1 H2] Hnone Halt. split; [by rewrite lookup_insert_ne by congruence|]. intros e Hne. specialize (H2 e Hne).
  destruct (decide (e = e_endpoint ev)) as [->|He]; [|rewrite lookup_insert_ne by congruence; pose proof (after_event_other l ev e He); destruct (net !! e) as [[]|]; tauto].
  rewrite lookup_insert_eq. rewrite Hnone in H2. unfold after_event. destruct (kind ev); cbn in *; set_solver.
Qed.
(** An event about a peer that the net change has with the same kind cannot occur. *)
Lemma net_relates_kinds receiving before l net ev k : e_endpoint ev <> receiving -> net_relates receiving before l net -> (if is_added (kind ev) then e_endpoint ev ∉ l else e_endpoint ev ∈ l) ->
  net !! e_endpoint ev = Some k -> is_added k = negb (is_added (kind ev)).
Proof. intros Hr [_ H2] Halt E. specialize (H2 _ Hr). rewrite E in H2. destruct k, (kind ev); cbn in *; tauto. Qed.
Definition counted (b : bool) (net : gmap SocketAddr PexTimelineKind) : Z := Z.of_nat (size (filter (fun kv : SocketAddr * PexTimelineKind => is_added kv.2 = b) net)).
Lemma counted_insert b net e k : net !! e = None -> counted b (<[e := k]> net) = counted b net + (if bool_decide (is_added k = b) then 1 else 0).
Proof.
  intros Hn. unfold counted. case_bool_decide as E.
  - rewrite map_filter_insert_True by done. rewrite map_size_insert_None; [lia|]. apply map_lookup_filter_None. by left.
  - rewrite map_filter_insert_False by done. rewrite delete_id by done. lia.
Qed.
Lemma counted_delete b net e : counted b (delete e net) <= counted b net.
Proof. unfold counted. rewrite map_filter_delete. apply inj_le. rewrite map_size_delete. case_match; [lia|done]. Qed.
Lemma counted_empty b : counted b ∅ = 0.
Proof. unfold counted. rewrite map_filter_empty, map_size_empty. done. Qed.
Lemma net_change_spec receiving before l : forall live net next net' next',
  alternates live l -> net_relates receiving before live net -> numbered next l -> next + len l <= umax 64 ->
  counted true net <= MAX_PEX_ADDITIONS -> counted false net <= MAX_PEX_DROPS -> net_change receiving l net next = (net', next') ->
  exists l1 l2, l = l1 ++ l2 /\ next' = next + len l1 /\ net_relates receiving before (lives_from live l1) net' /\
    counted true net' <= MAX_PEX_ADDITIONS /\ counted false net' <= MAX_PEX_DROPS /\
    counted true net' + counted false net' <= counted true net + counted false net + len l1 /\
    (l2 <> [] -> counted true net' = MAX_PEX_ADDITIONS \/ counted false net' = MAX_PEX_DROPS).
Proof.
  induction l as [|ev l IH]; intros live net next net' next' Halt Hnet Hnum Hmax Ha Hd E.
  - injection E as <- <-. exists [], []. rewrite len_nil. repeat split; try done; try lia; apply Hnet.
  - cbn in Halt, Hnum. destruct Halt as [Hev Halt]. destruct Hnum as [Hseq Hnum]. rewrite len_cons in Hmax. pose proof (len_nonneg l).
    cbn [net_change] in E. assert (saturating_add 64 (sequence ev) 1 = next + 1) as Hs by (unfold saturating_add; lia). rewrite Hs in E.
    assert (forall net2, net_relates receiving before (after_event live ev) net2 -> counted true net2 <= MAX_PEX_ADDITIONS -> counted false net2 <= MAX_PEX_DROPS ->
      counted true net2 + counted false net2 <= counted true net + counted false net + 1 -> net_change receiving l net2 (next + 1) = (net', next') ->
      exists l1 l2, ev :: l = l1 ++ l2 /\ next' = next + len l1 /\ net_relates receiving before (lives_from live l1) net' /\ counted true net' <= MAX_PEX_ADDITIONS /\ counted false net' <= MAX_PEX_DROPS /\
        counted true net' + counted false net' <= counted true net + counted false net + len l1 /\ (l2 <> [] -> counted true net' = MAX_PEX_ADDITIONS \/ counted false net' = MAX_PEX_DROPS)) as Hnext.
    { intros net2 Hn2 Ha2 Hd2 Hc2 E2. destruct (IH _ _ _ _ _ Halt Hn2 Hnum ltac:(lia) Ha2 Hd2 E2) as (l1 & l2 & -> & -> & H1 & H2 & H3 & H4 & H5).
      exists (ev :: l1), l2. rewrite len_cons. repeat split; try done; try lia; apply H1. }
    destruct (bool_decide (e_endpoint ev = receiving)) eqn:Hr.
    { apply bool_decide_eq_true in Hr. apply (Hnext net); [by apply net_relates_skip|done|done|lia|done]. }
    apply bool_decide_eq_false in Hr.
    destruct (net !! e_endpoint ev) as [k|] eqn:Ek.
    + pose proof (net_relates_kinds _ _ _ _ _ _ Hr Hnet Hev Ek) as Hk.
      apply (Hnext (delete (e_endpoint ev) net)).
      * apply net_relates_cancel; [done|done|by rewrite Ek].
      * pose proof (counted_delete true net (e_endpoint ev)). lia.
      * pose proof (counted_delete false net (e_endpoint ev)). lia.
      * pose proof (counted_delete true net (e_endpoint ev)). pose proof (counted_delete false net (e_endpoint ev)). lia.
      * destruct k, (kind ev); cbn in Hk; done.
    + change (additions net) with (counted true net) in E. change (drops net) with (counted false net) in E.
      destruct (_ || _) eqn:Hfull in E.
      * injection E as <- <-. exists [], (ev :: l). rewrite len_nil. repeat split; try done; try lia; try apply Hnet.
      * pose proof (counted_insert true net (e_endpoint ev) (kind ev) Ek) as C1. pose proof (counted_insert false net (e_endpoint ev) (kind ev) Ek) as C2.
        apply orb_false_iff in Hfull as [F1 F2]. apply (Hnext (<[e_endpoint ev := kind ev]> net)); [by apply net_relates_insert|..|done];
          rewrite ?C1, ?C2; destruct (is_added (kind ev)); repeat case_bool_decide; cbn [andb negb] in *; try done; lia.
Qed.

(** ** Messages *)
Section items.
Context {K V : Type} `{Countable K} (key : K -> list Z).
Implicit Types m : gmap K V.
Lemma items_perm m : items_by key m ≡ₚ map_to_list m.
Proof. unfold items_by. apply (sort_by_perm (fun a b => lex (key a.1) (key b.1))). Qed.
Lemma elem_of_items_by m k v : (k, v) ∈ items_by key m <-> m !! k = Some v.
Proof. by rewrite items_perm, elem_of_map_to_list. Qed.
Lemma nodup_items m : NoDup (items_by key m).*1.
Proof. rewrite items_perm. apply NoDup_fst_map_to_list. Qed.
Lemma length_items m : length (items_by key m) = size m.
Proof. by rewrite items_perm, length_map_to_list. Qed.
End items.
Definition add_part (x : SocketAddr * PexTimelineKind) : option PexContact := match x.2 with KAdded flags => Some (mkContact (wire_endpoint x.1) flags) | KDropped => None end.
Definition drop_part (x : SocketAddr * PexTimelineKind) : option PexEndpoint := match x.2 with KDropped => Some (wire_endpoint x.1) | KAdded _ => None end.
Lemma push_nets l : forall a d, len a + len (omap add_part l) <= MAX_PEX_ADDITIONS -> len d + len (omap drop_part l) <= MAX_PEX_DROPS ->
  fold_left push_net l (mkPex a d 0 0) = mkPex (a ++ omap add_part l) (d ++ omap drop_part l) 0 0.
Proof.
  induction l as [|[e k] l IH]; intros a d Ha Hd; [cbn; by rewrite !app_nil_r|]. cbn [fold_left]. unfold push_net at 2. cbn [snd fst Extension.added Extension.dropped].
  pose proof (len_nonneg (omap add_part l)). pose proof (len_nonneg (omap drop_part l)).
  destruct k as [f|]; cbn [omap list_omap add_part drop_part snd fst] in *; rewrite len_cons in *.
  - rewrite (proj2 (Z.ltb_lt _ _)) by lia. rewrite IH; [by rewrite <- app_assoc|rewrite len_app, len_cons, len_nil; lia|lia].
  - rewrite (proj2 (Z.ltb_lt _ _)) by lia. rewrite IH; [by rewrite <- app_assoc|lia|rewrite len_app, len_cons, len_nil; lia].
Qed.
Lemma len_omap_counted {B} (f : SocketAddr * PexTimelineKind -> option B) b net : (forall x, is_Some (f x) <-> is_added x.2 = b) -> len (omap f (items_by socket_order net)) = counted b net.
Proof.
  intros Hf. unfold len. rewrite (PeerRegistry.omap_perm f _ _ (items_perm socket_order net)). induction net as [|e k net He IH] using map_ind.
  - rewrite map_to_list_empty, counted_empty. done.
  - rewrite map_to_list_insert, counted_insert by done. cbn [omap list_omap]. specialize (Hf (e, k)). cbn in Hf. destruct (f (e, k)) eqn:E; cbn [length]; case_bool_decide as Hb.
    + lia.
    + exfalso. apply Hb, Hf. done.
    + apply Hf in Hb as [? ?]. done.
    + lia.
Qed.
Lemma message_of_parts net : counted true net <= MAX_PEX_ADDITIONS -> counted false net <= MAX_PEX_DROPS ->
  message_of net = mkPex (omap add_part (items_by socket_order net)) (omap drop_part (items_by socket_order net)) 0 0 /\
  len (omap add_part (items_by socket_order net)) = counted true net /\ len (omap drop_part (items_by socket_order net)) = counted false net.
Proof.
  intros Ha Hd. assert (len (omap add_part (items_by socket_order net)) = counted true net) as E1.
  { apply len_omap_counted. intros [e []]; cbn; split; intros H; try done; try (by eexists); by destruct H. }
  assert (len (omap drop_part (items_by socket_order net)) = counted false net) as E2.
  { apply len_omap_counted. intros [e []]; cbn; split; intros H; try done; try (by eexists); by destruct H. }
  split; [|done]. unfold message_of. rewrite push_nets; rewrite ?len_nil; [done|lia|lia].
Qed.

(** ** Endpoints on the wire *)
(** Without the parts of a v6 address that the wire does not carry, and not an
    embedded v4 address. *)
Definition plain (a : SocketAddr) : Prop :=
  match a with
  | SocketV4 ip port => is_u 32 ip /\ is_u 16 port
  | SocketV6 ip port flowinfo scope_id => is_u 128 ip /\ is_u 16 port /\ flowinfo = 0 /\ scope_id = 0 /\ take 12 (to_be 16 ip) <> V4_MAPPED_PREFIX
  end.
Lemma plain_back a : plain a -> socket_endpoint (wire_endpoint a) = a /\ canonical (wire_endpoint a).
Proof.
  destruct a as [ip port|ip port f s]; cbn [plain wire_endpoint PexEndpoint_new].
  - intros [Hi Hp]. unfold socket_endpoint. cbn [Extension.ip Extension.port]. rewrite of_be_to_be by done. split; [done|]. split; [|done]. cbn [canonical_ip Extension.ip]. by rewrite len_to_be.
  - intros (Hi & Hp & -> & -> & Hm). rewrite bool_decide_eq_false_2 by done. unfold socket_endpoint. cbn [Extension.ip Extension.port]. rewrite of_be_to_be by done.
    split; [done|]. split; [|done]. cbn [canonical_ip Extension.ip]. by rewrite len_to_be.
Qed.
Lemma socket_endpoint_ip a b : Extension.ip a = Extension.ip b -> ip_of (socket_endpoint a) = ip_of (socket_endpoint b).
Proof. unfold socket_endpoint. intros ->. by destruct (Extension.ip b). Qed.
Lemma plain_ip a b : plain a -> plain b -> Extension.ip (wire_endpoint a) = Extension.ip (wire_endpoint b) -> ip_of a = ip_of b.
Proof. intros Ha Hb E. apply socket_endpoint_ip in E. by rewrite (proj1 (plain_back a Ha)), (proj1 (plain_back b Hb)) in E. Qed.
(** What a connection knows after a message. *)
Definition apply_message (m : PexMessage) (v : gset SocketAddr) : gset SocketAddr :=
  (v ∖ list_to_set (socket_endpoint <$> Extension.dropped m)) ∪ list_to_set ((fun c => socket_endpoint (Extension.endpoint c)) <$> Extension.added m).
Definition read (o : option (list Z)) (v : gset SocketAddr) : gset SocketAddr :=
  match o with
  | Some bytes => match parse_pex_message bytes with Ok m => apply_message m v | _ => v end
  | None => v
  end.

Section known.
Context (known : SocketAddr -> Prop) (known_plain : forall a, known a -> plain a) (known_ips : forall a b, known a -> known b -> ip_of a = ip_of b -> a = b).

Lemma known_wire a b : known a -> known b -> Extension.ip (wire_endpoint a) = Extension.ip (wire_endpoint b) -> a = b.
Proof. intros Ha Hb E. apply known_ips; [done|done|]. apply plain_ip; auto. Qed.
Lemma nodup_wire {T} (f : SocketAddr -> T) (l : list SocketAddr) : (forall a b, known a -> known b -> f a = f b -> a = b) -> Forall known l -> NoDup l -> NoDup (f <$> l).
Proof.
  intros Hf. induction l as [|a l IH]; intros Hk Hnd; [constructor|]. apply Forall_cons in Hk as [Ha Hk]. apply NoDup_cons in Hnd as [Hn Hnd]. cbn. constructor; [|by apply IH].
  intros (b & E & Hb)%list_elem_of_fmap. rewrite Forall_forall in Hk. apply Hn. by rewrite (Hf a b) by auto.
Qed.
End known.
(** The peers a net change adds and drops, in the order of the message. *)
Definition adds_of (x : SocketAddr * PexTimelineKind) : option (SocketAddr * PexFlags) := match x.2 with KAdded flags => Some (x.1, flags) | KDropped => None end.
Definition drops_of (x : SocketAddr * PexTimelineKind) : option SocketAddr := match x.2 with KAdded _ => None | KDropped => Some x.1 end.
Definition to_contact (ef : SocketAddr * PexFlags) : PexContact := mkContact (wire_endpoint ef.1) ef.2.
Lemma add_parts (l : list (SocketAddr * PexTimelineKind)) : omap add_part l = to_contact <$> omap adds_of l.
Proof. induction l as [|[e []] l IH]; cbn; [done|by f_equal|done]. Qed.
Lemma drop_parts (l : list (SocketAddr * PexTimelineKind)) : omap drop_part l = wire_endpoint <$> omap drops_of l.
Proof. induction l as [|[e []] l IH]; cbn; [done|done|by f_equal]. Qed.
Lemma elem_adds net e f : (e, f) ∈ omap adds_of (items_by socket_order net) <-> net !! e = Some (KAdded f).
Proof.
  rewrite list_elem_of_omap. split.
  - intros ([e' k] & Hin%elem_of_items_by & E). destruct k; [|done]. by injection E as -> ->.
  - intros E. exists (e, KAdded f). by rewrite elem_of_items_by.
Qed.
Lemma elem_drops net e : e ∈ omap drops_of (items_by socket_order net) <-> net !! e = Some KDropped.
Proof.
  rewrite list_elem_of_omap. split.
  - intros ([e' k] & Hin%elem_of_items_by & E). destruct k; [done|]. by injection E as ->.
  - intros E. exists (e, KDropped). by rewrite elem_of_items_by.
Qed.
Lemma omap_sublist {A B} (f : A -> option B) (g : A -> B) (l : list A) : (forall x y, f x = Some y -> y = g x) -> omap f l `sublist_of` (g <$> l).
Proof.
  intros Hf. induction l as [|x l IH]; cbn; [constructor|]. destruct (f x) as [y|] eqn:E; [|by constructor]. apply Hf in E as ->. by constructor.
Qed.
Lemma nodup_adds net : NoDup (omap adds_of (items_by socket_order net)).*1.
Proof.
  pose proof (nodup_items socket_order net) as Hnd. revert Hnd. generalize (items_by socket_order net). induction l as [|[e k] l IH]; [constructor|]. cbn. intros [Hn Hnd]%NoDup_cons.
  destruct k as [f|]; cbn; [|by apply IH]. constructor; [|by apply IH]. intros ([e' f'] & E & Hin)%list_elem_of_fmap. cbn in E. subst e'. apply Hn.
  apply list_elem_of_omap in Hin as ([e2 k2] & Hin & E2). destruct k2; [|done]. injection E2 as -> _. by apply (list_elem_of_fmap_2 fst) in Hin.
Qed.
Lemma nodup_drops net : NoDup (omap drops_of (items_by socket_order net)).
Proof.
  eapply sublist_NoDup; [apply (nodup_items socket_order net)|]. apply omap_sublist. intros [e []]; cbn; congruence.
Qed.
Lemma apply_message_elem m v e : e ∈ apply_message m v <-> (e ∈ v /\ e ∉ socket_endpoint <$> Extension.dropped m) \/ e ∈ (fun c => socket_endpoint (Extension.endpoint c)) <$> Extension.added m.
Proof. unfold apply_message. rewrite elem_of_union, elem_of_difference, !elem_of_list_to_set. tauto. Qed.

Section known_messages.
Context (known : SocketAddr -> Prop) (known_plain : forall a, known a -> plain a) (known_ips : forall a b, known a -> known b -> ip_of a = ip_of b -> a = b).

(** A message with these parts is read back with the same effect. *)
Lemma message_read (la : list (SocketAddr * PexFlags)) (ld : list SocketAddr) m v : Forall known la.*1 -> Forall known ld -> NoDup la.*1 -> NoDup ld -> (forall e, e ∈ la.*1 -> e ∉ ld) ->
  m = mkPex (to_contact <$> la) (wire_endpoint <$> ld) 0 0 -> len la <= MAX_PEX_ADDITIONS -> len ld <= MAX_PEX_DROPS -> is_empty_message m = false ->
  exists bytes, encode_pex_message m = Ok bytes /\ forall e, e ∈ read (Some bytes) v <-> (e ∈ v /\ e ∉ ld) \/ e ∈ la.*1.
Proof.
  intros Hka Hkd Hna Hnd Hdis -> Hla Hld Hne.
  assert (forall l, Forall known l -> socket_endpoint <$> (wire_endpoint <$> l) = l) as Hback.
  { induction l as [|a l IH]; intros Hl; [done|]. apply Forall_cons in Hl as [Ha Hl]. cbn. rewrite (proj1 (plain_back a (known_plain a Ha))). f_equal. by apply IH. }
  assert (forall l : list (SocketAddr * PexFlags), map (fun c => Extension.ip (Extension.endpoint c)) (to_contact <$> l) = (fun a => Extension.ip (wire_endpoint a)) <$> l.*1) as Hips.
  { induction l as [|x l IH]; [done|]. cbn. by f_equal. }
  assert (map Extension.ip (wire_endpoint <$> ld) = (fun a => Extension.ip (wire_endpoint a)) <$> ld) as Hipd by (change (map ?f ?l) with (f <$> l); by rewrite <- list_fmap_compose).
  assert (pex_ok (mkPex (to_contact <$> la) (wire_endpoint <$> ld) 0 0)) as Hok.
  { split; cbn [Extension.added Extension.dropped]; rewrite ?Hips, ?Hipd; unfold len; rewrite ?length_fmap.
    - unfold is_empty_message in Hne. cbn in Hne. destruct la, ld; cbn in *; try done; lia.
    - done.
    - done.
    - split; apply Forall_forall; intros c (x & -> & Hx)%list_elem_of_fmap; rewrite Forall_forall in Hka, Hkd; cbn; apply plain_back, known_plain; [apply Hka; by apply (list_elem_of_fmap_2 fst)|by apply Hkd].
    - apply (nodup_wire known); [|done|done]. intros a b. apply known_wire; auto.
    - apply (nodup_wire known); [|done|done]. intros a b. apply known_wire; auto.
    - intros x (a & -> & Ha)%list_elem_of_fmap (b & E & Hb)%list_elem_of_fmap. rewrite Forall_forall in Hka, Hkd.
      apply (Hdis a Ha). rewrite (known_wire known known_plain known_ips a b (Hka a Ha) (Hkd b Hb) E). done. }
  destruct (pex_message_back _ Hok) as (bytes & Eb & Ep). exists bytes. split; [done|]. intros e. unfold read. rewrite Ep, apply_message_elem. cbn [Extension.added Extension.dropped].
  assert (v4_first Extension.endpoint (to_contact <$> la) ≡ₚ to_contact <$> la) as -> by apply (filter_split (fun c => is_v4 (Extension.endpoint c))).
  assert (v4_first id (wire_endpoint <$> ld) ≡ₚ wire_endpoint <$> ld) as -> by apply (filter_split is_v4).
  rewrite Hback by done. rewrite <- list_fmap_compose. change ((fun c => socket_endpoint (Extension.endpoint c)) ∘ to_contact) with (fun ef : SocketAddr * PexFlags => socket_endpoint (wire_endpoint ef.1)).
  assert ((fun ef : SocketAddr * PexFlags => socket_endpoint (wire_endpoint ef.1)) <$> la = la.*1) as ->; [|done].
  trans (socket_endpoint <$> (wire_endpoint <$> la.*1)); [by rewrite <- !list_fmap_compose|by apply Hback].
Qed.
End known_messages.

(** ** Provenance *)
(** The two records of provenance agree, except for what [pending] names: an
    endpoint's source whose contact has been taken out already. *)
Record linked (pending : SocketAddr -> Z -> Prop) (w : World) : Prop := {
  lk_keys c st i e : sources (pex w) !! c = Some st -> contacts st !! i = Some e -> i = ip_of e;
  lk_forward c st i e : sources (pex w) !! c = Some st -> contacts st !! i = Some e -> exists x, endpoint_sources (pex w) !! e = Some x /\ c ∈ x;
  lk_backward e x c : endpoint_sources (pex w) !! e = Some x -> c ∈ x -> pending e c \/ exists st, sources (pex w) !! c = Some st /\ contacts st !! ip_of e = Some e;
  lk_nonempty e x : endpoint_sources (pex w) !! e = Some x -> x <> ∅;
  lk_source c st : sources (pex w) !! c = Some st -> Z.of_nat (size (contacts st)) <= MAX_PEX_CONTACTS_PER_SOURCE /\ is_u 8 (strikes (cadence st));
  lk_torrent : Z.of_nat (size (endpoint_sources (pex w))) <= MAX_PEX_CONTACTS_PER_TORRENT;
  lk_timeline : len (timeline (pex w)) <= MAX_PEX_TIMELINE_EVENTS;
  lk_registry : registry_ok (registry w);
}.
Definition nothing (e : SocketAddr) (c : Z) : Prop := False.
Definition exchange_ok (w : World) : Prop := linked nothing w.
(** The part of the state that provenance does not touch. *)
Definition exchange_of (s : PexState) := (live s, timeline s, next_sequence s, cursors s, extensions s).
Lemma linked_weaken P Q w : (forall e c, P e c -> Q e c) -> linked P w -> linked Q w.
Proof. intros HPQ []. split; try done. intros e x c H1 H2. destruct (lk_backward0 e x c H1 H2) as [?|?]; [left; auto|by right]. Qed.
(** Only the sources, their endpoints and the registry matter. *)
Lemma linked_frame P w w' : linked P w -> sources (pex w') = sources (pex w) -> endpoint_sources (pex w') = endpoint_sources (pex w) -> len (timeline (pex w')) <= MAX_PEX_TIMELINE_EVENTS ->
  registry_ok (registry w') -> linked P w'.
Proof. intros [] Es Ee Ht Hr. split; rewrite ?Es, ?Ee; done. Qed.

(** Calls of the registry. *)
Lemma on_registry_ok {A} (op : M PeerRegistry PeerRegistryError A) w (Q : A -> World -> Prop) (R : PexError -> World -> Prop) :
  wp op (registry w) (fun a r => Q a (mkWorld (pex w) r)) (fun e r => R (PE_Registry e) (mkWorld (pex w) r)) -> wp (on_registry op) w Q R.
Proof. unfold wp, on_registry. destruct (op (registry w)) as [r [a|e| |]]; done. Qed.
Lemma registry_call_ok {A} (op : M PeerRegistry PeerRegistryError A) r : preserves op -> registry_ok r -> wp op r (fun _ r' => registry_ok r') (fun _ r' => registry_ok r').
Proof. intros Hp Hok. eapply wp_mono; [exact (Hp r r (unchanged_follows r Hok))|by intros a r' [_ ?]|by intros e r' [_ ?]]. Qed.
Lemma registry_remove_ok e r : registry_ok r -> wp (PeerRegistry.remove_endpoint_source e PeerExchange) r (fun _ r' => registry_ok r') (fun _ _ => False).
Proof.
  intros Hok. pose proof (registry_call_ok _ r (remove_endpoint_source_preserves e PeerExchange) Hok) as H.
  assert (wp (PeerRegistry.remove_endpoint_source e PeerExchange) r (fun _ _ => True) (fun _ _ => False)) as H2.
  { unfold PeerRegistry.remove_endpoint_source. do 2 wp_step. destruct (list_find _ _) as [[i x]|]; [|by wp_step]. wp_step. unfold update. wp_step. destruct (_ && _); [|by wp_step]. wp_step. wp_step. by wp_step. }
  pose proof (wp_conj _ _ _ _ _ _ H H2) as H3. eapply wp_mono; [exact H3|by intros ? ? [? _]|by intros ? ? [_ ?]].
Qed.
Lemma registry_remove_source_ok r : registry_ok r -> wp (PeerRegistry.remove_source PeerExchange) r (fun _ r' => registry_ok r') (fun _ _ => False).
Proof.
  intros Hok. pose proof (registry_call_ok _ r (remove_source_preserves PeerExchange) Hok) as H.
  assert (wp (PeerRegistry.remove_source PeerExchange) r (fun _ _ => True) (fun _ _ => False)) as H2 by (unfold PeerRegistry.remove_source; do 7 wp_step; done).
  pose proof (wp_conj _ _ _ _ _ _ H H2) as H3. eapply wp_mono; [exact H3|by intros ? ? [? _]|by intros ? ? [_ ?]].
Qed.

Definition except (P : SocketAddr -> Z -> Prop) (e : SocketAddr) (c : Z) (e' : SocketAddr) (c' : Z) : Prop := P e' c' /\ ~ (e' = e /\ c' = c).
Lemma remove_endpoint_source_ok P e source w : linked P w -> (forall st, sources (pex w) !! source = Some st -> contacts st !! ip_of e <> Some e) ->
  wp (remove_endpoint_source e source) w (fun _ w' => linked (except P e source) w' /\ sources (pex w') = sources (pex w) /\ exchange_of (pex w') = exchange_of (pex w)) (fun _ _ => False).
Proof.
  intros Hl Hno. unfold remove_endpoint_source. do 2 wp_step. destruct (endpoint_sources (pex w) !! e) as [x|] eqn:Ex.
  2:{ wp_step. split; [|done]. destruct Hl. split; try done. intros e' y c He Hc. destruct (lk_backward0 e' y c He Hc) as [?|?]; [|by right]. left. split; [done|]. intros [-> ->]. congruence. }
  do 2 wp_step. destruct (bool_decide (x ∖ {[source]} = ∅)) eqn:Hx.
  - apply bool_decide_eq_true in Hx. do 2 wp_step. wp_step. apply on_registry_ok. eapply wp_mono; [apply registry_remove_ok; apply Hl| |done].
    intros b r Hr. cbn in Hr |- *. split; [|done]. destruct Hl. split; cbn; rewrite ?delete_insert_eq; try done.
    + intros c st i e' Hc Hi. destruct (lk_forward0 c st i e' Hc Hi) as (y & Hy & Hcy). exists y. split; [|done]. rewrite lookup_delete_ne; [done|]. intros <-. rewrite Ex in Hy. injection Hy as <-.
      assert (c = source) as -> by set_solver. apply (Hno st Hc). pose proof (lk_keys0 _ _ _ _ Hc Hi) as ->. done.
    + intros e' y c He Hc. destruct (decide (e' = e)) as [->|Hne]; [by rewrite lookup_delete_eq in He|]. rewrite lookup_delete_ne in He by done.
      destruct (lk_backward0 e' y c He Hc) as [?|?]; [left|by right]. split; [done|]. intros [? _]. done.
    + intros e' y He. apply lookup_delete_Some in He as [_ He]. by eapply lk_nonempty0.
    + assert (size (delete e (endpoint_sources (pex w))) <= size (endpoint_sources (pex w)))%nat; [|lia]. rewrite map_size_delete. rewrite Ex. lia.
  - apply bool_decide_eq_false in Hx. wp_step. split; [|done]. destruct Hl. split; cbn; try done.
    + intros c st i e' Hc Hi. destruct (lk_forward0 c st i e' Hc Hi) as (y & Hy & Hcy). destruct (decide (e = e')) as [<-|Hne]; [|exists y; by rewrite lookup_insert_ne].
      rewrite Ex in Hy. injection Hy as <-. rewrite lookup_insert_eq. eexists. split; [done|]. assert (c <> source); [|set_solver]. intros ->.
      apply (Hno st Hc). pose proof (lk_keys0 _ _ _ _ Hc Hi) as ->. done.
    + intros e' y c He Hc. destruct (decide (e' = e)) as [->|Hne].
      * rewrite lookup_insert_eq in He. injection He as <-. destruct (lk_backward0 e x c Ex ltac:(set_solver)) as [?|?]; [left|by right]. split; [done|]. intros [_ ->]. set_solver.
      * rewrite lookup_insert_ne in He by done. destruct (lk_backward0 e' y c He Hc) as [?|?]; [left|by right]. split; [done|]. intros [? _]. done.
    + intros e' y He. destruct (decide (e' = e)) as [->|Hne]; [rewrite lookup_insert_eq in He; by injection He as <-|]. rewrite lookup_insert_ne in He by done. by eapply lk_nonempty0.
    + rewrite map_size_insert_Some by done. done.
Qed.
Lemma remove_contacts_ok source l : forall P w, linked P w -> sources (pex w) !! source = None ->
  wp (remove_contacts l source) w (fun _ w' => linked (fun e c => P e c /\ ~ (e ∈ l /\ c = source)) w' /\ sources (pex w') = sources (pex w) /\ exchange_of (pex w') = exchange_of (pex w)) (fun _ _ => False).
Proof.
  induction l as [|e l IH]; intros P w Hl Hs; cbn [remove_contacts].
  - wp_step. split; [|done]. eapply linked_weaken; [|exact Hl]. intros e c Hp. split; [done|]. by intros [?%not_elem_of_nil _].
  - wp_step. eapply wp_mono; [apply remove_endpoint_source_ok; [exact Hl|]| |done].
    { intros st Hst. congruence. }
    cbv beta. intros _ w1 (Hl1 & Es1 & Ee1). eapply wp_mono; [apply (IH _ w1 Hl1); by rewrite Es1| |done].
    cbv beta. intros _ w2 (Hl2 & Es2 & Ee2). split; [|split; congruence]. eapply linked_weaken; [|exact Hl2]. intros e' c [[Hp Hne] Hnl]. split; [done|].
    intros [[->|Hin]%elem_of_cons ->]; [by apply Hne|by apply Hnl].
Qed.

(** ** Receiving *)
(** What the sources know afterwards: only [source] may know more, and only of [admitted] endpoints. *)
Definition learned (source : Z) (admitted : SocketAddr -> Prop) (w w' : World) : Prop :=
  forall c st', sources (pex w') !! c = Some st' -> exists st, sources (pex w) !! c = Some st /\ cadence st' = cadence st /\ (c <> source -> st' = st) /\
    forall i e, contacts st' !! i = Some e -> contacts st !! i = Some e \/ admitted e.
Lemma learned_refl source a w : learned source a w w.
Proof. intros c st Hc. exists st. repeat split; auto. Qed.
Lemma learned_trans source a w1 w2 w3 : learned source a w1 w2 -> learned source a w2 w3 -> learned source a w1 w3.
Proof.
  intros H1 H2 c st3 Hc. destruct (H2 c st3 Hc) as (st2 & Hc2 & Ec2 & Es2 & Hi2). destruct (H1 c st2 Hc2) as (st1 & Hc1 & Ec1 & Es1 & Hi1).
  exists st1. split; [done|]. split; [congruence|]. split; [intros Hne; rewrite Es2, Es1; done|]. intros i e Hi. destruct (Hi2 i e Hi) as [H|H]; [|by right]. by apply Hi1.
Qed.
Lemma learned_same source a w w' : sources (pex w') = sources (pex w) -> learned source a w w'.
Proof. intros E c st. rewrite E. apply learned_refl. Qed.
Lemma learned_source source a w st st' : sources (pex w) !! source = Some st -> cadence st' = cadence st -> (forall i e, contacts st' !! i = Some e -> contacts st !! i = Some e \/ a e) ->
  forall w', sources (pex w') = <[source := st']> (sources (pex w)) -> learned source a w w'.
Proof.
  intros Hs Hc Hi w' E c x Hx. rewrite E in Hx. destruct (decide (c = source)) as [->|Hne].
  - rewrite lookup_insert_eq in Hx. injection Hx as <-. exists st. repeat split; auto. intros ?. done.
  - rewrite lookup_insert_ne in Hx by done. exists x. repeat split; auto.
Qed.
(** A step that keeps the invariant and the state that is sent. *)
Definition advances (source : Z) (a : SocketAddr -> Prop) (w w' : World) : Prop :=
  exchange_ok w' /\ exchange_of (pex w') = exchange_of (pex w) /\ is_Some (sources (pex w') !! source) /\ learned source a w w'.
Lemma advances_refl source a w : exchange_ok w -> is_Some (sources (pex w) !! source) -> advances source a w w.
Proof. intros Hok Hs. split; [done|]. split; [done|]. split; [done|apply learned_refl]. Qed.
Lemma advances_trans source a w1 w2 w3 : advances source a w1 w2 -> advances source a w2 w3 -> advances source a w1 w3.
Proof. intros (_ & E1 & _ & L1) (H2 & E2 & S2 & L2). split; [done|]. split; [congruence|]. split; [done|]. by eapply learned_trans. Qed.

Lemma drop_contact_ok source st e w : exchange_ok w -> sources (pex w) !! source = Some st -> contacts st !! ip_of e = Some e ->
  wp (modify (on_pex (set_source source (set_contacts (delete (ip_of e) (contacts st)) st)));; remove_endpoint_source e source) w
    (fun _ w' => advances source (fun _ => False) w w') (fun _ _ => False).
Proof.
  intros Hl Hs He. do 2 wp_step. set (w1 := on_pex _ w).
  assert (sources (pex w1) !! source = Some (set_contacts (delete (ip_of e) (contacts st)) st)) as Hs1 by (cbn; by rewrite lookup_insert_eq).
  assert (linked (fun e' c => e' = e /\ c = source) w1) as Hl1.
  { destruct Hl. split; try done.
    - intros c st' i e' Hc Hi. destruct (decide (c = source)) as [->|Hne]; [|cbn in Hc; rewrite lookup_insert_ne in Hc by done; by eapply lk_keys0].
      rewrite Hs1 in Hc. injection Hc as <-. cbn in Hi. apply lookup_delete_Some in Hi as [_ Hi]. by eapply lk_keys0.
    - intros c st' i e' Hc Hi. destruct (decide (c = source)) as [->|Hne]; [|cbn in Hc; rewrite lookup_insert_ne in Hc by done; by eapply lk_forward0].
      rewrite Hs1 in Hc. injection Hc as <-. cbn in Hi. apply lookup_delete_Some in Hi as [_ Hi]. by eapply lk_forward0.
    - intros e' x c Hx Hc. destruct (lk_backward0 e' x c Hx Hc) as [[]|(st' & Hst & Hi)]. destruct (decide (c = source)) as [->|Hne].
      + rewrite Hs in Hst. injection Hst as <-. destruct (decide (ip_of e' = ip_of e)) as [E|E]; [left; split; [|done]; congruence|].
        right. eexists. split; [exact Hs1|]. cbn. by rewrite lookup_delete_ne by congruence.
      + right. exists st'. cbn. by rewrite lookup_insert_ne by done.
    - intros c st' Hc. destruct (decide (c = source)) as [->|Hne]; [|cbn in Hc; rewrite lookup_insert_ne in Hc by done; by eapply lk_source0].
      rewrite Hs1 in Hc. injection Hc as <-. cbn. destruct (lk_source0 _ _ Hs) as [H1 H2]. split; [|done]. rewrite map_size_delete, He. lia. }
  eapply wp_mono; [apply (remove_endpoint_source_ok _ e source w1 Hl1)| |done].
  { intros st' Hst'. rewrite Hs1 in Hst'. injection Hst' as <-. cbn. by rewrite lookup_delete_eq. }
  cbv beta. intros _ w2 (Hl2 & Es2 & Ee2). split; [|split; [by rewrite Ee2|split]].
  - eapply linked_weaken; [|exact Hl2]. intros e' c [? Hn]. by apply Hn.
  - rewrite Es2, Hs1. by eexists.
  - apply (learned_source source _ w st (set_contacts (delete (ip_of e) (contacts st)) st)); [done|done| |by rewrite Es2].
    intros i e' Hi. cbn in Hi. apply lookup_delete_Some in Hi as [_ Hi]. by left.
Qed.
Lemma receive_dropped_ok source l : forall f d w, exchange_ok w -> is_Some (sources (pex w) !! source) ->
  wp (receive_dropped source l f d) w (fun _ w' => advances source (fun _ => False) w w') (fun _ _ => False).
Proof.
  induction l as [|e l IH]; intros f d w Hok Hs; cbn [receive_dropped]; [wp_step; by apply advances_refl|].
  do 2 wp_step. destruct Hs as [st Hs]. rewrite Hs. cbn [mbind option_bind]. destruct (contacts st !! ip_of (socket_endpoint e)) as [x|] eqn:Ex; [|by apply IH].
  destruct (bool_decide (x = socket_endpoint e)) eqn:Hx; cbn [negb]; [|by apply IH]. apply bool_decide_eq_true in Hx as ->. cbn [expect]. do 2 wp_step.
  pose proof (drop_contact_ok source st (socket_endpoint e) w Hok Hs Ex) as H.
  assert (forall w1, advances source (fun _ => False) w w1 -> wp (receive_dropped source l f (d + 1)) w1 (fun _ w' => advances source (fun _ => False) w w') (fun _ _ => False)) as Hrest.
  { intros w1 Ha. pose proof Ha as (H1 & _ & H3 & _). eapply wp_mono; [by apply IH| |done]. cbv beta. intros _ w2 H2. by eapply advances_trans. }
  revert H. unfold wp. unfold mbind, M_bind. destruct (modify _ w) as [w1 [[]|e1| |]]; try done. destruct (remove_endpoint_source _ _ w1) as [w2 [[]|e2| |]]; try done. apply Hrest.
Qed.
(** An admissible endpoint is taken. *)
Lemma add_contact_ok source st e w : exchange_ok w -> sources (pex w) !! source = Some st -> contacts st !! ip_of e = None -> Z.of_nat (size (contacts st)) < MAX_PEX_CONTACTS_PER_SOURCE ->
  (endpoint_sources (pex w) !! e = None -> Z.of_nat (size (endpoint_sources (pex w))) < MAX_PEX_CONTACTS_PER_TORRENT) ->
  let w' := on_pex (fun s => let s := set_source source (set_contacts (<[ip_of e := e]> (contacts st)) st) s in
          set_endpoint_sources (<[e := default ∅ (endpoint_sources s !! e) ∪ {[source]}]> (endpoint_sources s)) s) w in
  exchange_ok w' /\ sources (pex w') = <[source := set_contacts (<[ip_of e := e]> (contacts st)) st]> (sources (pex w)).
Proof.
  intros Hl Hs Hnone Hsize Htorrent w'. split; [|done]. destruct Hl.
  assert (forall c st', sources (pex w') !! c = Some st' -> (c = source /\ st' = set_contacts (<[ip_of e := e]> (contacts st)) st) \/ (c <> source /\ sources (pex w) !! c = Some st')) as Hcases.
  { intros c st' Hc. cbn in Hc. destruct (decide (c = source)) as [->|Hne]; [rewrite lookup_insert_eq in Hc; injection Hc as <-; by left|]. rewrite lookup_insert_ne in Hc by done. by right. }
  assert (forall e' x, endpoint_sources (pex w) !! e' = Some x -> exists y, endpoint_sources (pex w') !! e' = Some y /\ x ⊆ y) as Hgrow.
  { intros e' x Hx. cbn. destruct (decide (e' = e)) as [->|Hne]; [rewrite lookup_insert_eq, Hx; eexists; split; [done|set_solver]|rewrite lookup_insert_ne by done; exists x; done]. }
  split; try done.
  - intros c st' i e' Hc Hi. destruct (Hcases c st' Hc) as [[-> ->]|[_ Hc']]; [|by eapply lk_keys0]. cbn in Hi. apply lookup_insert_Some in Hi as [[<- <-]|[_ Hi]]; [done|by eapply lk_keys0].
  - intros c st' i e' Hc Hi. destruct (Hcases c st' Hc) as [[-> ->]|[_ Hc']].
    + cbn in Hi. apply lookup_insert_Some in Hi as [[<- <-]|[_ Hi]]; [cbn; rewrite lookup_insert_eq; eexists; split; [done|set_solver]|].
      destruct (lk_forward0 _ _ _ _ Hs Hi) as (x & Hx & Hin). destruct (Hgrow _ _ Hx) as (y & Hy & Hxy). exists y. split; [done|set_solver].
    + destruct (lk_forward0 _ _ _ _ Hc' Hi) as (x & Hx & Hin). destruct (Hgrow _ _ Hx) as (y & Hy & Hxy). exists y. split; [done|set_solver].
  - intros e' x c Hx Hc. right. assert (c = source /\ e' = e \/ exists st', sources (pex w) !! c = Some st' /\ contacts st' !! ip_of e' = Some e') as [[-> ->]|(st' & Hst & Hi)].
    { cbn in Hx. destruct (decide (e' = e)) as [->|Hne].
      - rewrite lookup_insert_eq in Hx. injection Hx as <-. apply elem_of_union in Hc as [Hc|Hc%elem_of_singleton]; [|by left]. right. destruct (endpoint_sources (pex w) !! e) as [y|] eqn:Ey; [|set_solver].
        cbn in Hc. destruct (lk_backward0 _ _ _ Ey Hc) as [[]|?]. done.
      - rewrite lookup_insert_ne in Hx by done. right. destruct (lk_backward0 _ _ _ Hx Hc) as [[]|?]. done. }
    + cbn. rewrite lookup_insert_eq. eexists. split; [done|]. cbn. by rewrite lookup_insert_eq.
    + cbn. destruct (decide (c = source)) as [->|Hne]; [|rewrite lookup_insert_ne by done; by exists st']. rewrite lookup_insert_eq. eexists. split; [done|]. cbn.
      rewrite Hs in Hst. injection Hst as <-. rewrite lookup_insert_ne; [done|]. intros E. congruence.
  - intros e' x Hx. cbn in Hx. destruct (decide (e' = e)) as [->|Hne]; [rewrite lookup_insert_eq in Hx; injection Hx as <-; set_solver|]. rewrite lookup_insert_ne in Hx by done. by eapply lk_nonempty0.
  - intros c st' Hc. destruct (Hcases c st' Hc) as [[-> ->]|[_ Hc']]; [|by eapply lk_source0]. cbn. destruct (lk_source0 _ _ Hs) as [_ H2]. split; [|done]. rewrite map_size_insert_None by done. lia.
  - cbn. destruct (endpoint_sources (pex w) !! e) as [y|] eqn:Ey; [by rewrite map_size_insert_Some by (by eexists)|]. rewrite map_size_insert_None by done. specialize (Htorrent eq_refl). lia.
Qed.
Definition admits (context : PexReceiveContext) (listen : option SocketAddr) (e : SocketAddr) : Prop :=
  pex_address_allowed e (source_endpoint context) listen (network_policy context) (address_families context) (self_endpoints context) = true.
Lemma receive_added_ok source context listen l : forall f a w, exchange_ok w -> is_Some (sources (pex w) !! source) ->
  wp (receive_added source context listen l f a) w (fun _ w' => advances source (admits context listen) w w') (fun _ w' => advances source (admits context listen) w w').
Proof.
  induction l as [|x l IH]; intros f a w Hok Hs; cbn [receive_added]; [wp_step; by apply advances_refl|].
  do 2 wp_step. set (address := socket_endpoint (Extension.endpoint x)). destruct Hs as [st Hs]. rewrite Hs.
  destruct (pex_address_allowed address _ _ _ _ _) eqn:Hallowed; cbn [negb orb]; [|by apply IH].
  destruct (bool_decide (is_Some (contacts st !! ip_of address)) || _) eqn:Hfull; [by apply IH|]. apply orb_false_iff in Hfull as [Hnone Hsize]. apply bool_decide_eq_false in Hnone. apply Z.leb_gt in Hsize.
  wp_step. unfold PeerEndpoint_new. destruct (is_valid_outbound_address address); cbn [map_err]; wp_step; [|by apply advances_refl].
  destruct (bool_decide (endpoint_sources (pex w) !! address = None) && _) eqn:Ht; [by apply IH|].
  wp_step. apply on_registry_ok. eapply wp_mono; [apply registry_call_ok; [apply observe_preserves|apply Hok]| |].
  2:{ cbv beta. intros e r Hr. split; [by eapply linked_frame; [apply Hok|..]; try done; apply Hok|]. split; [done|]. split; [by eexists|by apply learned_same]. }
  cbv beta. intros res r Hr. cbn [pex expect]. do 2 wp_step. do 2 wp_step. set (w1 := mkWorld (pex w) r).
  assert (exchange_ok w1) as Hok1 by (eapply linked_frame; [apply Hok|done|done|apply Hok|done]).
  assert (contacts st !! ip_of address = None) as Hnone' by (by apply eq_None_not_Some).
  destruct (add_contact_ok source st address w1 Hok1 Hs Hnone' Hsize) as [Hok2 Es2].
  { intros E. cbn in E. rewrite E in Ht. rewrite bool_decide_eq_true_2 in Ht by done. cbn in Ht. cbn. lia. }
  set (w2 := on_pex _ w1) in *.
  assert (advances source (admits context listen) w w2) as Ha.
  { split; [done|]. split; [done|]. split; [rewrite Es2, lookup_insert_eq; by eexists|].
    apply (learned_source source _ w st (set_contacts (<[ip_of address := address]> (contacts st)) st)); [done|done| |exact Es2].
    intros i e Hi. cbn in Hi. apply lookup_insert_Some in Hi as [[<- <-]|[_ Hi]]; [by right|by left]. }
  eapply wp_mono; [apply IH; apply Ha| |]; cbv beta; intros ? w3 H3; by eapply advances_trans.
Qed.

(** ** The other calls *)
Lemma push_event_len e k s : len (timeline s) <= MAX_PEX_TIMELINE_EVENTS -> len (timeline (push_event e k s)) <= MAX_PEX_TIMELINE_EVENTS.
Proof.
  intros Hl. unfold push_event. cbn. destruct (_ <? _) eqn:E; [|lia]. apply Z.ltb_lt in E. rewrite len_app, len_cons, len_nil in E.
  destruct (timeline s) as [|x l]; cbn in *; [rewrite len_nil in *; unfold MAX_PEX_TIMELINE_EVENTS; lia|]. rewrite len_app, len_cons, len_nil. rewrite len_cons in Hl. lia.
Qed.
Lemma enable_outbound_frame c s : sources (enable_outbound c s) = sources s /\ endpoint_sources (enable_outbound c s) = endpoint_sources s /\ timeline (enable_outbound c s) = timeline s.
Proof. unfold enable_outbound. by destruct (cursors s !! c). Qed.
Lemma enable_all_frame l : forall s, let s' := fold_left (fun s c => enable_outbound c s) l s in sources s' = sources s /\ endpoint_sources s' = endpoint_sources s /\ timeline s' = timeline s.
Proof.
  induction l as [|c l IH]; intros s; [done|]. cbn. destruct (IH (enable_outbound c s)) as (-> & -> & ->). apply enable_outbound_frame.
Qed.
Lemma framed w f : exchange_ok w -> sources (f (pex w)) = sources (pex w) -> endpoint_sources (f (pex w)) = endpoint_sources (pex w) -> timeline (f (pex w)) = timeline (pex w) -> exchange_ok (on_pex f w).
Proof. intros Hok E1 E2 E3. eapply linked_frame; [exact Hok|done|done|cbn; rewrite E3; apply Hok|apply Hok]. Qed.
Lemma established_linked e f w : exchange_ok w -> exchange_ok (on_pex (peer_established e f) w).
Proof.
  intros Hok. unfold peer_established. eapply linked_frame; [exact Hok|..]; cbn; destruct (live (pex w) !! e); try done; try apply Hok. apply push_event_len. apply Hok.
Qed.
Lemma dropped_linked e w : exchange_ok w -> exchange_ok (on_pex (peer_dropped e) w).
Proof.
  intros Hok. unfold peer_dropped. eapply linked_frame; [exact Hok|..]; cbn; destruct (live (pex w) !! e); try done; try apply Hok. apply push_event_len. apply Hok.
Qed.
Lemma set_cadence_ok source k w : exchange_ok w -> is_u 8 (strikes k) -> exchange_ok (on_pex (set_source source (mkSource k (contacts (source_of source (pex w))))) w).
Proof.
  intros Hl Hk. destruct Hl. set (st := source_of source (pex w)).
  assert (forall c st', <[source := mkSource k (contacts st)]> (sources (pex w)) !! c = Some st' -> (c = source /\ contacts st' = contacts st /\ cadence st' = k) \/ sources (pex w) !! c = Some st') as Hcases.
  { intros c st' Hc. destruct (decide (c = source)) as [->|Hne]; [rewrite lookup_insert_eq in Hc; injection Hc as <-; by left|]. rewrite lookup_insert_ne in Hc by done. by right. }
  assert (forall i e, contacts st !! i = Some e -> sources (pex w) !! source = Some st) as Hst.
  { intros i e Hi. unfold st, source_of in *. destruct (sources (pex w) !! source); [done|]. cbn in Hi. by rewrite lookup_empty in Hi. }
  split; cbn; try done.
  - intros c st' i e Hc Hi. destruct (Hcases c st' Hc) as [(-> & E & _)|Hc']; [|by eapply lk_keys0]. rewrite E in Hi. eapply lk_keys0; [by eapply Hst|done].
  - intros c st' i e Hc Hi. destruct (Hcases c st' Hc) as [(-> & E & _)|Hc']; [|by eapply lk_forward0]. rewrite E in Hi. eapply lk_forward0; [by eapply Hst|done].
  - intros e x c Hx Hc. destruct (lk_backward0 e x c Hx Hc) as [[]|(st' & Hc' & Hi)]. right. destruct (decide (c = source)) as [->|Hne]; [|exists st'; by rewrite lookup_insert_ne].
    rewrite lookup_insert_eq. eexists. split; [done|]. cbn. unfold st, source_of. by rewrite Hc'.
  - intros c st' Hc. destruct (Hcases c st' Hc) as [(-> & E & Ek)|Hc']; [|by eapply lk_source0]. rewrite E, Ek. split; [|done].
    unfold st, source_of. destruct (sources (pex w) !! source) as [y|] eqn:Ey; [by eapply lk_source0|]. cbn. rewrite map_size_empty. done.
Qed.
(** The state in which the contacts of an accepted message are taken. *)
Definition accepted (source : Z) (now : Z) (w : World) : World := on_pex (set_source source (mkSource (mkCadence (Some now) 0) (contacts (source_of source (pex w))))) w.
Definition listen_of (source : Z) (context : PexReceiveContext) (w : World) : option SocketAddr :=
  with_port (ip_of (source_endpoint context)) <$> (m ← extensions (pex w) !! source; m_listen_port m).
Lemma set_source_twice source x y w : on_pex (set_source source y) (on_pex (set_source source x) w) = on_pex (set_source source y) w.
Proof. unfold on_pex, set_source, set_pex_sources. cbn. by rewrite insert_insert_eq. Qed.
Lemma receive_private source payload context w : verified_public context = false -> receive source payload context w = (w, Ok PrivacyBlocked).
Proof. intros E. unfold receive. by rewrite E. Qed.
Lemma receive_limited source payload context w : verified_public context = true -> too_soon (last_accepted (cadence (source_of source (pex w)))) (now context) = true ->
  let n := saturating_add 8 (strikes (cadence (source_of source (pex w)))) 1 in
  receive source payload context w =
    (on_pex (set_source source (mkSource (mkCadence (last_accepted (cadence (source_of source (pex w)))) n) (contacts (source_of source (pex w))))) w, Ok (RateLimited n (PEX_RATE_STRIKES_BEFORE_CLOSE <=? n))).
Proof.
  intros Ep Es n. unfold receive. rewrite Ep. cbn [negb]. unfold mbind, M_bind, modify, get. cbn [pex].
  assert (source_of source (pex (on_pex (fun s => set_source source (source_of source s) s) w)) = source_of source (pex w)) as E by (unfold source_of at 1; cbn; by rewrite lookup_insert_eq).
  cbn [pex on_pex] in E |- *. rewrite E, Es. unfold mret, M_ret. f_equal. apply (set_source_twice source (source_of source (pex w))).
Qed.
Lemma receive_linked source payload context w : exchange_ok w -> verified_public context = true -> too_soon (last_accepted (cadence (source_of source (pex w)))) (now context) = false ->
  wp (receive source payload context) w
    (fun d w' => (exists a dr f t, d = Applied a dr f t) /\ advances source (admits context (listen_of source context w)) (accepted source (now context) w) w')
    (fun e w' => (w' = on_pex (fun s => set_source source (source_of source s) s) w /\ exists e', e = PE_Extension e' /\ parse_pex_message payload = Err e') \/
      advances source (admits context (listen_of source context w)) (accepted source (now context) w) w').
Proof.
  intros Hok Ep Es. unfold receive. rewrite Ep. cbn [negb]. do 2 wp_step. set (w0 := on_pex (fun s => set_source source (source_of source s) s) w).
  assert (source_of source (pex w0) = source_of source (pex w)) as E by (unfold source_of at 1; cbn; by rewrite lookup_insert_eq).
  do 2 wp_step. rewrite E, Es. destruct (parse_pex_message payload) as [m|e| |] eqn:Em; cbn [map_err].
  - do 4 wp_step. assert (on_pex (set_source source (mkSource (mkCadence (Some (now context)) 0) (contacts (source_of source (pex w))))) w0 = accepted source (now context) w) as -> by apply set_source_twice.
    set (w1 := accepted source (now context) w). assert (exchange_ok w1) as Hok1 by (by apply set_cadence_ok).
    assert (is_Some (sources (pex w1) !! source)) as Hs1 by (cbn; rewrite lookup_insert_eq; by eexists).
    wp_step. eapply wp_mono; [by apply receive_dropped_ok| |done]. cbv beta. intros [f d] w2 Ha2. pose proof Ha2 as (Hok2 & E2 & Hs2 & L2). do 2 wp_step. wp_step.
    assert (extensions (pex w2) = extensions (pex w)) as Ex by (unfold exchange_of in E2; by injection E2 as _ _ _ _ ->).
    rewrite Ex. fold (listen_of source context w).
    assert (forall w3, advances source (admits context (listen_of source context w)) w2 w3 -> advances source (admits context (listen_of source context w)) w1 w3) as Htrans.
    { intros w3 H3. eapply advances_trans; [|exact H3]. split; [done|]. split; [done|]. split; [done|]. intros c st' Hc. destruct (L2 c st' Hc) as (st & H1 & H4 & H5 & H6).
      exists st. repeat split; try done. intros i e Hi. destruct (H6 i e Hi) as [?|[]]. by left. }
    eapply wp_mono; [by apply receive_added_ok| |]; cbv beta.
    + intros [f' a'] w3 H3. wp_step. split; [by repeat eexists|by apply Htrans].
    + intros e w3 H3. right. by apply Htrans.
  - do 2 wp_step. left. split; [done|]. by exists e.
  - pose proof (parse_pex_returns payload) as H. by rewrite Em in H.
  - pose proof (parse_pex_returns payload) as H. by rewrite Em in H.
Qed.

(** The part of the state that is sent. *)
Definition tracks (s : PexState) := (live s, timeline s, next_sequence s, cursors s).
Lemma exchange_tracks s s' : exchange_of s = exchange_of s' -> tracks s = tracks s'.
Proof. unfold exchange_of, tracks. intros [= E1 E2 E3 E4 _]. by rewrite E1, E2, E3, E4. Qed.
Lemma remove_source_ok source w : exchange_ok w ->
  wp (remove_source source) w (fun _ w' => exchange_ok w' /\ tracks (pex w') = tracks (set_cursors (delete source (cursors (pex w))) (pex w))) (fun _ _ => False).
Proof.
  intros Hok. unfold remove_source. do 4 wp_step. set (w1 := on_pex _ w). assert (exchange_ok w1) as Hok1 by (by apply framed).
  change (sources (pex w1)) with (sources (pex w)). destruct (sources (pex w) !! source) as [st|] eqn:Es; [|by wp_step]. do 2 wp_step. wp_step.
  set (w2 := on_pex _ w1). set (l := (items_by ip_order (contacts st)).*2).
  assert (linked (fun e c => e ∈ l /\ c = source) w2) as Hl2.
  { destruct Hok1. split; try done.
    - intros c st' i e Hc Hi. cbn in Hc; apply lookup_delete_Some in Hc as [_ Hc]. by eapply lk_keys0.
    - intros c st' i e Hc Hi. cbn in Hc; apply lookup_delete_Some in Hc as [_ Hc]. by eapply lk_forward0.
    - intros e x c Hx Hc. destruct (lk_backward0 e x c Hx Hc) as [[]|(st' & Hst & Hi)]. destruct (decide (c = source)) as [->|Hne].
      + left. split; [|done]. change (sources (pex w1)) with (sources (pex w)) in Hst. rewrite Es in Hst. injection Hst as <-. unfold l. apply list_elem_of_fmap. exists (ip_of e, e). split; [done|]. by apply elem_of_items_by.
      + right. exists st'. cbn. by rewrite lookup_delete_ne by congruence.
    - intros c st' Hc. cbn in Hc; apply lookup_delete_Some in Hc as [_ Hc]. by eapply lk_source0. }
  eapply wp_mono; [apply (remove_contacts_ok source l _ w2 Hl2); cbn; by rewrite lookup_delete_eq| |done].
  cbv beta. intros _ w3 (H3 & _ & E3). wp_step. split; [|by apply exchange_tracks in E3]. eapply linked_weaken; [|exact H3]. intros e c [H4 H5]. by apply H5.
Qed.
Lemma cleared_linked w f r : registry_ok r -> sources (f (pex w)) = ∅ -> endpoint_sources (f (pex w)) = ∅ -> timeline (f (pex w)) = [] -> exchange_ok (mkWorld (f (pex w)) r).
Proof.
  intros Hr E1 E2 E3. split; cbn; rewrite ?E1, ?E2, ?E3; try done; intros; by simplify_map_eq.
Qed.
Lemma purge_ok w : exchange_ok w -> wp purge w (fun _ w' => exchange_ok w' /\ tracks (pex w') = (∅, [], next_sequence (pex w), ∅)) (fun _ _ => False).
Proof.
  intros Hok. unfold purge. wp_step. apply on_registry_ok. eapply wp_mono; [apply registry_remove_source_ok, Hok| |done]. cbv beta. intros n r Hr. do 3 wp_step.
  split; [by apply (cleared_linked w (fun s => set_extensions ∅ (clear_exchange s)))|done].
Qed.
Lemma set_session_enabled_ok b w : exchange_ok w ->
  wp (set_session_enabled b) w (fun _ w' => exchange_ok w' /\ ((exists l, pex w' = fold_left (fun s c => enable_outbound c s) l (pex w)) \/ tracks (pex w') = (∅, [], next_sequence (pex w), ∅))) (fun _ _ => False).
Proof.
  intros Hok. unfold set_session_enabled. destruct b.
  - do 4 wp_step. wp_step. split; [apply framed; [done|apply enable_all_frame..]|left; by eexists].
  - wp_step. apply on_registry_ok. eapply wp_mono; [apply registry_remove_source_ok, Hok| |done]. cbv beta. intros n r Hr. do 3 wp_step. split; [by apply (cleared_linked w clear_exchange)|by right].
Qed.
(** A contact is forgotten by all its sources. *)
Definition strip (e : SocketAddr) (st : PexSourceState) : PexSourceState := set_contacts (filter (fun kv => kv.2 <> e) (contacts st)) st.
Lemma strip_twice e st : strip e (strip e st) = strip e st.
Proof. unfold strip, set_contacts. cbn. f_equal. apply map_eq. intros i. apply option_eq. intros x. rewrite !map_lookup_filter_Some. tauto. Qed.
Lemma forget_loop e l : forall s, let s' := fold_left (fun s c => match sources s !! c with Some st => set_source c (strip e st) s | None => s end) l s in
  (forall c, sources s' !! c = if bool_decide (c ∈ l) then strip e <$> sources s !! c else sources s !! c) /\ endpoint_sources s' = endpoint_sources s /\ exchange_of s' = exchange_of s.
Proof.
  induction l as [|x l IH]; intros s; [split; [|done]; intros c; by rewrite bool_decide_eq_false_2 by apply not_elem_of_nil|]. cbn [fold_left].
  destruct (IH (match sources s !! x with Some st => set_source x (strip e st) s | None => s end)) as (H1 & H2 & H3).
  split; [|split; [by rewrite H2; destruct (sources s !! x)|by rewrite H3; destruct (sources s !! x)]].
  intros c. rewrite H1. destruct (decide (c = x)) as [->|Hne].
  - rewrite (bool_decide_eq_true_2 (x ∈ x :: l)) by (by left). destruct (sources s !! x) as [st|] eqn:Ex; [|rewrite Ex; by destruct (bool_decide _)]. cbn. rewrite lookup_insert_eq. destruct (bool_decide _); [cbn; by rewrite strip_twice|done].
  - assert (sources (match sources s !! x with Some st => set_source x (strip e st) s | None => s end) !! c = sources s !! c) as -> by (destruct (sources s !! x); [cbn; by rewrite lookup_insert_ne|done]).
    assert (bool_decide (c ∈ x :: l) = bool_decide (c ∈ l)) as ->; [|done]. apply bool_decide_ext. rewrite elem_of_cons. naive_solver.
Qed.
Lemma forget_ok e x w : exchange_ok w -> endpoint_sources (pex w) !! e = Some x ->
  exchange_ok (on_pex (fun s => forget_contact e x (set_endpoint_sources (delete e (endpoint_sources s)) s)) w).
Proof.
  intros Hok Hx. destruct (forget_loop e (sort_by Z.compare (elements x)) (set_endpoint_sources (delete e (endpoint_sources (pex w))) (pex w))) as (H1 & H2 & H3). cbn [sources set_endpoint_sources] in H1.
  change (fold_left _ _ _) with (forget_contact e x (set_endpoint_sources (delete e (endpoint_sources (pex w))) (pex w))) in H1, H2, H3.
  set (s' := forget_contact e x _) in *. assert (exchange_of s' = exchange_of (pex w)) as Ex by (rewrite H3; done). pose proof Hok as Hok0. destruct Hok.
  assert (forall c st', sources s' !! c = Some st' -> exists st, sources (pex w) !! c = Some st /\ cadence st' = cadence st /\ forall i e', contacts st' !! i = Some e' <-> contacts st !! i = Some e' /\ e' <> e) as Hcases.
  { intros c st' Hc. rewrite H1 in Hc. case_bool_decide as Hin.
    - destruct (sources (pex w) !! c) as [st|]; [|done]. injection Hc as <-. exists st. split; [done|]. split; [done|]. intros i e'. cbn. by rewrite map_lookup_filter_Some.
    - exists st'. split; [done|]. split; [done|]. intros i e'. split; [|tauto]. intros Hi. split; [done|]. intros ->. destruct (lk_forward0 _ _ _ _ Hc Hi) as (y & Hy & Hcy). rewrite Hx in Hy. injection Hy as <-.
      apply Hin. rewrite (elem_of_sort_by Z.compare). by apply elem_of_elements. }
  assert (forall c st, sources (pex w) !! c = Some st -> exists st', sources s' !! c = Some st' /\ forall i e', contacts st !! i = Some e' -> e' <> e -> contacts st' !! i = Some e') as Hback.
  { intros c st Hc. rewrite H1, Hc. case_bool_decide; (eexists; split; [done|]); [|done]. intros i e' Hi He. cbn. by apply map_lookup_filter_Some. }
  change (exchange_ok (mkWorld s' (registry w))). split; cbn [pex registry].
  - intros c st' i e' Hc Hi. destruct (Hcases c st' Hc) as (st & Hst & _ & Hiff). destruct (proj1 (Hiff _ _) Hi) as [Hi' _]. by eapply lk_keys0.
  - intros c st' i e' Hc Hi. destruct (Hcases c st' Hc) as (st & Hst & _ & Hiff). destruct (proj1 (Hiff _ _) Hi) as [Hi' He]. rewrite H2. cbn. rewrite lookup_delete_ne by congruence. by eapply lk_forward0.
  - intros e' y c Hy Hc. rewrite H2 in Hy. cbn in Hy. apply lookup_delete_Some in Hy as [He Hy]. right. destruct (lk_backward0 _ _ _ Hy Hc) as [[]|(st & Hst & Hi)].
    destruct (Hback c st Hst) as (st' & Hst' & Hi'). exists st'. split; [done|]. apply Hi'; [done|congruence].
  - intros e' y Hy. rewrite H2 in Hy. cbn in Hy. apply lookup_delete_Some in Hy as [He Hy]. by eapply lk_nonempty0.
  - intros c st' Hc. destruct (Hcases c st' Hc) as (st & Hst & Ec & Hiff). rewrite Ec. destruct (lk_source0 _ _ Hst) as [Ha Hb]. split; [|done].
    assert (size (contacts st') <= size (contacts st))%nat; [|lia]. apply map_subseteq_size. apply map_subseteq_spec. intros i e' Hi. by apply Hiff in Hi as [Hi _].
  - rewrite H2. cbn. rewrite map_size_delete, Hx. lia.
  - unfold exchange_of in Ex. injection Ex as _ Et _ _ _. rewrite Et. apply lk_timeline0.
  - apply lk_registry0.
Qed.
Lemma remove_endpoints_ok l : forall w, exchange_ok w -> wp (remove_endpoints l) w (fun _ w' => exchange_ok w') (fun _ _ => False).
Proof.
  induction l as [|e l IH]; intros w Hok; cbn [remove_endpoints]; [by wp_step|]. do 2 wp_step.
  set (w1 := on_pex _ w). assert (exchange_ok w1) as Hok1.
  { unfold w1, on_pex. destruct (endpoint_sources (pex w) !! e) as [x|] eqn:Ex; [by apply (forget_ok e x w)|by destruct w]. }
  wp_step. apply on_registry_ok. eapply wp_mono; [apply registry_remove_ok, Hok1| |done]. cbv beta. intros b r Hr. do 2 wp_step. apply IH, dropped_linked.
  eapply linked_frame; [exact Hok1|done|done|apply Hok1|done].
Qed.
Lemma len_filter {A} (P : A -> Prop) `{forall x, Decision (P x)} (l : list A) : len (filter P l) <= len l.
Proof. unfold len. apply inj_le, length_filter. Qed.
Lemma remove_disallowed_ok p w : exchange_ok w -> wp (remove_disallowed p) w (fun _ w' => exchange_ok w') (fun _ _ => False).
Proof.
  intros Hok. unfold remove_disallowed. do 3 wp_step. eapply wp_mono; [by apply remove_endpoints_ok| |done]. cbv beta. intros _ w1 Hok1. do 3 wp_step.
  eapply linked_frame; [exact Hok1|done|done| |apply Hok1]. cbn. etransitivity; [apply len_filter|apply Hok1].
Qed.
Lemma next_outbound_ok c self now w : exchange_ok w -> wp (next_outbound c self now) w (fun _ w' => exchange_ok w') (fun _ w' => exchange_ok w').
Proof.
  intros Hok. unfold next_outbound. do 2 wp_step. destruct (cursors (pex w) !! c) as [cur|]; [|by wp_step]. destruct (too_soon _ _); [by wp_step|].
  destruct (next_message _ _ _) as [cur' m]. do 2 wp_step. destruct (is_empty_message m); [wp_step; by apply framed|]. do 2 wp_step.
  set (w1 := on_pex _ (on_pex _ w)). assert (exchange_ok w1) as Hok1 by (by apply framed; [apply framed|..]).
  wp_step. pose proof (encode_pex_returns m) as Hr. destruct (encode_pex_message m) as [b|e| |]; cbn [map_err]; try done; repeat wp_step; done.
Qed.

(** ** Histories of calls *)
Inductive Event :=
| RemoveDisallowed (p : AddressFamilyPolicy)
| Receive (source : Z) (payload : list Z) (context : PexReceiveContext)
| RemoveSource (source : Z)
| Purge
| SetSessionEnabled (enabled : bool)
| EnableOutbound (c : Z)
| DisableOutbound (c : Z)
| ApplyHandshake (c : Z) (h : ExtensionHandshake)
| InstallMap (c : Z) (m : ExtensionMap)
| Established (e : SocketAddr) (flags : PexFlags)
| PeerDropped (e : SocketAddr)
| NextOutbound (c : Z) (receiving : SocketAddr) (now : Z)
| RegistryCall (e : PeerRegistry.Event).
Definition outcome_of {A} (op : method A) (w : World) : World * Prop := ((op w).1, returns (op w).2).
Definition apply (e : Event) (w : World) : World * Prop :=
  match e with
  | RemoveDisallowed p => outcome_of (remove_disallowed p) w
  | Receive source payload context => outcome_of (receive source payload context) w
  | RemoveSource source => outcome_of (remove_source source) w
  | Purge => outcome_of purge w
  | SetSessionEnabled b => outcome_of (set_session_enabled b) w
  | EnableOutbound c => (on_pex (enable_outbound c) w, True)
  | DisableOutbound c => (on_pex (disable_outbound c) w, True)
  | ApplyHandshake c h => (on_pex (fun s => (apply_extension_handshake c h s).1) w, True)
  | InstallMap c m => (on_pex (install_extension_map c m) w, True)
  | Established e f => (on_pex (peer_established e f) w, True)
  | PeerDropped e => (on_pex (peer_dropped e) w, True)
  | NextOutbound c e now => outcome_of (next_outbound c e now) w
  | RegistryCall e => let '(r, returned) := PeerRegistry.apply e (registry w) in (mkWorld (pex w) r, returned)
  end.
Definition run (es : list Event) (w : World) : World := fold_left (fun w e => (apply e w).1) es w.
Lemma outcome_ok {A} (op : method A) w : wp op w (fun _ w' => exchange_ok w') (fun _ w' => exchange_ok w') -> exchange_ok (outcome_of op w).1 /\ (outcome_of op w).2.
Proof. unfold wp, outcome_of. by destruct (op w) as [w' [a|e| |]]. Qed.
Lemma never_errs {A} (op : method A) w (Q : World -> Prop) : wp op w (fun _ w' => exchange_ok w' /\ Q w') (fun _ _ => False) -> exchange_ok (outcome_of op w).1 /\ (outcome_of op w).2.
Proof. unfold wp, outcome_of. destruct (op w) as [w' [a|e| |]]; cbn; tauto. Qed.
Lemma state_after {A} (op : method A) w (Q : World -> Prop) : wp op w (fun _ w' => exchange_ok w' /\ Q w') (fun _ _ => False) -> Q (outcome_of op w).1.
Proof. unfold wp, outcome_of. destruct (op w) as [w' [a|e| |]]; cbn; tauto. Qed.
Lemma entry_ok source w : exchange_ok w -> exchange_ok (on_pex (fun s => set_source source (source_of source s) s) w).
Proof.
  intros Hok. assert (is_u 8 (strikes (cadence (source_of source (pex w))))) as Hk.
  { unfold source_of. destruct (sources (pex w) !! source) as [st|] eqn:E; [by eapply lk_source|done]. }
  pose proof (set_cadence_ok source (cadence (source_of source (pex w))) w Hok Hk) as H. unfold on_pex in *. by destruct (source_of source (pex w)).
Qed.
Lemma apply_ok e w : exchange_ok w -> exchange_ok (apply e w).1 /\ (apply e w).2.
Proof.
  intros Hok. destruct e; cbn [apply].
  - apply (never_errs _ _ (fun _ => True)). eapply wp_mono; [by apply remove_disallowed_ok|done|done].
  - destruct (verified_public context) eqn:Ep; [|unfold outcome_of; by rewrite (receive_private _ _ _ _ Ep)].
    destruct (too_soon (last_accepted (cadence (source_of source (pex w)))) (now context)) eqn:Es.
    + unfold outcome_of. rewrite (receive_limited _ _ _ _ Ep Es). split; [|done]. apply set_cadence_ok; [done|]. cbn. apply saturating_succ_u. unfold source_of.
      destruct (sources (pex w) !! source) as [st|] eqn:E; [by eapply lk_source|done].
    + apply outcome_ok. eapply wp_mono; [by apply receive_linked| |]; cbv beta.
      * by intros d w' [_ [H _]].
      * intros x w' [[-> _]|[H _]]; [by apply entry_ok|done].
  - by eapply never_errs, remove_source_ok.
  - by eapply never_errs, purge_ok.
  - by eapply never_errs, set_session_enabled_ok.
  - split; [|done]. apply framed; [done|apply enable_outbound_frame..].
  - split; [|done]. by apply framed.
  - split; [|done]. unfold apply_extension_handshake. apply framed; [done|..]; cbn; destruct (has_pex _); try done; unfold enable_outbound; cbn; by destruct (cursors (pex w) !! c).
  - split; [|done]. unfold install_extension_map. apply framed; [done|..]; cbn; destruct (has_pex _); try done; unfold enable_outbound; cbn; by destruct (cursors (pex w) !! c).
  - split; [|done]. by apply established_linked.
  - split; [|done]. by apply dropped_linked.
  - by apply outcome_ok, next_outbound_ok.
  - pose proof (PeerRegistry.apply_follows e (registry w) (lk_registry _ _ Hok)) as [[_ Hr] Hret]. destruct (PeerRegistry.apply e (registry w)) as [r p]. split; [|done].
    eapply linked_frame; [exact Hok|done|done|apply Hok|done].
Qed.
Lemma run_exchange_ok es w : exchange_ok w -> exchange_ok (run es w).
Proof. revert w. induction es as [|e es IH]; intros w Hok; [done|]. cbn. apply IH. by apply apply_ok. Qed.
Lemma fresh_ok r : registry_ok r -> exchange_ok (mkWorld PexState_default r).
Proof. intros Hr. by apply (cleared_linked (mkWorld PexState_default r) (fun s => s)). Qed.

(** ** Sending *)
(** How the calls other than sending change the part that is sent. *)
Definition cursor_kept (n : Z) (old new : option PexCursor) : Prop := new = old \/ new = None \/ (old = None /\ new = Some (mkCursor n false None)).
Inductive sent_step (known : SocketAddr -> Prop) (s s' : PexState) : Prop :=
| es_cursors : live s' = live s -> timeline s' = timeline s -> next_sequence s' = next_sequence s -> (forall c, cursor_kept (next_sequence s) (cursors s !! c) (cursors s' !! c)) -> sent_step known s s'
| es_cleared : tracks s' = (∅, [], next_sequence s, ∅) -> sent_step known s s'
| es_established e f : known e -> tracks s' = tracks (peer_established e f s) -> sent_step known s s'
| es_dropped e : tracks s' = tracks (peer_dropped e s) -> sent_step known s s'.
Lemma es_same known s s' : tracks s' = tracks s -> sent_step known s s'.
Proof. intros [= E1 E2 E3 E4]. apply es_cursors; try done. intros c. left. by rewrite E4. Qed.
Lemma es_enable known c x s : sent_step known s (enable_outbound c (set_extensions x s)).
Proof.
  unfold enable_outbound. cbn. destruct (cursors s !! c) as [y|] eqn:E; [by apply es_same|]. apply es_cursors; try done. intros d. cbn. destruct (decide (d = c)) as [->|Hne].
  - right; right. rewrite lookup_insert_eq. done.
  - left. by rewrite lookup_insert_ne.
Qed.
Lemma es_delete known c s s' : tracks s' = tracks (set_cursors (delete c (cursors s)) s) -> sent_step known s s'.
Proof.
  intros [= E1 E2 E3 E4]. apply es_cursors; try done. intros d. rewrite E4. destruct (decide (d = c)) as [->|Hne]; [right; left; by rewrite lookup_delete_eq|left; by rewrite lookup_delete_ne].
Qed.
Definition cursor_added (n : Z) (old new : option PexCursor) : Prop := new = old \/ (old = None /\ new = Some (mkCursor n false None)).
Lemma enable_all_cursors s l : forall t, live t = live s -> timeline t = timeline s -> next_sequence t = next_sequence s -> (forall c, cursor_added (next_sequence s) (cursors s !! c) (cursors t !! c)) ->
  let t' := fold_left (fun s c => enable_outbound c s) l t in
  live t' = live s /\ timeline t' = timeline s /\ next_sequence t' = next_sequence s /\ forall c, cursor_added (next_sequence s) (cursors s !! c) (cursors t' !! c).
Proof.
  induction l as [|c l IH]; intros t E1 E2 E3 E4; [done|]. cbn. apply IH; unfold enable_outbound; destruct (cursors t !! c) as [x|] eqn:Ec; try done.
  intros d. cbn. destruct (decide (d = c)) as [->|Hne]; [|rewrite lookup_insert_ne by done; apply E4]. rewrite lookup_insert_eq, E3. specialize (E4 c). rewrite Ec in E4.
  destruct E4 as [E|[_ E]]; [right; by rewrite <- E|done].
Qed.
Lemma es_enable_all known l s : sent_step known s (fold_left (fun s c => enable_outbound c s) l s).
Proof.
  destruct (enable_all_cursors s l s) as (E1 & E2 & E3 & E4); try done; [intros c; by left|]. apply es_cursors; try done. intros c. destruct (E4 c) as [?|?]; [by left|by right; right].
Qed.
(** The calls that neither send nor take peers out, for peers of [known]. *)
Definition plain_call (known : SocketAddr -> Prop) (e : Event) : Prop := match e with RemoveDisallowed _ | NextOutbound _ _ _ => False | Established e _ => known e | _ => True end.
Lemma apply_step known e w : exchange_ok w -> plain_call known e -> sent_step known (pex w) (pex (apply e w).1).
Proof.
  intros Hok He. destruct e; cbn [apply] in *; try done.
  - destruct (verified_public context) eqn:Ep; [|unfold outcome_of; rewrite (receive_private _ _ _ _ Ep); by apply es_same].
    destruct (too_soon (last_accepted (cadence (source_of source (pex w)))) (now context)) eqn:Es; [unfold outcome_of; rewrite (receive_limited _ _ _ _ Ep Es); by apply es_same|].
    pose proof (receive_linked source payload context w Hok Ep Es) as H. unfold wp in H. unfold outcome_of. destruct (receive _ _ _ w) as [w' [d|x| |]]; try done.
    + destruct H as [_ (_ & E & _)]. apply exchange_tracks in E. by apply es_same.
    + destruct H as [[-> _]|(_ & E & _)]; [by apply es_same|]. apply exchange_tracks in E. by apply es_same.
  - eapply es_delete. exact (state_after _ _ _ (remove_source_ok source w Hok)).
  - apply es_cleared. exact (state_after _ _ (fun w' => tracks (pex w') = _) (purge_ok w Hok)).
  - pose proof (state_after _ _ (fun w' => _ \/ _) (set_session_enabled_ok enabled w Hok)) as [[l ->]|E]; [apply es_enable_all|by apply es_cleared].
  - pose proof (es_enable known c (extensions (pex w)) (pex w)) as H. cbn. destruct (pex w). exact H.
  - by eapply es_delete.
  - unfold apply_extension_handshake. cbn. destruct (has_pex _); [|by eapply es_delete]. apply es_enable.
  - unfold install_extension_map. cbn. destruct (has_pex _); [|by apply es_same]. apply es_enable.
  - by eapply es_established.
  - by eapply es_dropped.
  - destruct (PeerRegistry.apply e (registry w)) as [r p]. by apply es_same.
Qed.

Lemma lives_known (known : SocketAddr -> Prop) log : forall l, Forall (fun ev => known (e_endpoint ev)) log -> (forall x, x ∈ l -> known x) -> forall x, x ∈ lives_from l log -> known x.
Proof.
  induction log as [|ev log IH]; intros l Hk Hl x; [by apply Hl|]. apply Forall_cons in Hk as [He Hk]. apply IH; [done|]. intros y.
  unfold after_event. destruct (is_added (kind ev)); [intros [->%elem_of_singleton|Hy]%elem_of_union; auto|intros [Hy _]%elem_of_difference; auto].
Qed.
(** The timeline is the end of the log of the events so far. *)
Record logged (known : SocketAddr -> Prop) (base : Z) (log : list PexTimelineEvent) (s : PexState) : Prop := {
  lg_next : next_sequence s = base + len log;
  lg_max : next_sequence s <= umax 64;
  lg_numbered : numbered base log;
  lg_timeline : timeline s = drop (Z.to_nat (len log - MAX_PEX_TIMELINE_EVENTS)) log;
  lg_alternates : alternates ∅ log;
  lg_live : dom (live s) = lives_from ∅ log;
  lg_known : Forall (fun ev => known (e_endpoint ev)) log;
  lg_cursors c cur : cursors s !! c = Some cur -> base <= cursor_next cur <= next_sequence s;
}.
Lemma live_known known base log s e f : logged known base log s -> live s !! e = Some f -> known e.
Proof.
  intros Hl He. apply (lives_known known log ∅); [apply Hl|set_solver|]. rewrite <- (lg_live _ _ _ _ Hl). apply elem_of_dom. by eexists.
Qed.
(** The peers that were live before the event with sequence [n]. *)
Definition lives_at (base : Z) (log : list PexTimelineEvent) (n : Z) : gset SocketAddr := lives_from ∅ (take (Z.to_nat (n - base)) log).
Lemma lives_at_next known base log s : logged known base log s -> lives_at base log (next_sequence s) = dom (live s).
Proof. intros Hl. rewrite (lg_live _ _ _ _ Hl). unfold lives_at. rewrite (lg_next _ _ _ _ Hl). f_equal. apply take_ge. unfold len. lia. Qed.
Lemma lives_at_log base log ext n : n <= base + len log -> lives_at base (log ++ ext) n = lives_at base log n.
Proof. intros Hn. unfold lives_at. rewrite take_app_le; [done|]. unfold len in Hn. lia. Qed.
(** A new event. *)
Lemma push_logged known base log s e k live' : logged known base log s -> next_sequence s < umax 64 -> known e -> (if is_added k then e ∉ dom (live s) else e ∈ dom (live s)) ->
  dom live' = after_event (dom (live s)) (mkEvent (next_sequence s) e k) ->
  logged known base (log ++ [mkEvent (next_sequence s) e k]) (push_event e k (set_live live' s)).
Proof.
  intros [Hn Hm Hnum Ht Ha Hl Hk Hc] Hlt He Halt Hl'. pose proof (len_nonneg log). split; cbn [push_event set_timeline set_live next_sequence timeline live cursors].
  - rewrite len_app, len_cons, len_nil. unfold saturating_add. lia.
  - unfold saturating_add. lia.
  - apply numbered_app. split; [done|]. by split.
  - rewrite Ht. set (n := Z.to_nat (len log - MAX_PEX_TIMELINE_EVENTS)). set (ev := mkEvent _ e k). assert (drop n log ++ [ev] = drop n (log ++ [ev])) as E by (rewrite drop_app_le; [done|unfold n, len; unfold MAX_PEX_TIMELINE_EVENTS; lia]).
    assert (len (drop n log ++ [ev]) = Z.min (len log) MAX_PEX_TIMELINE_EVENTS + 1) as El by (unfold n, len, MAX_PEX_TIMELINE_EVENTS; rewrite length_app, length_drop; cbn [length]; lia).
    rewrite El, E. assert (len (log ++ [ev]) = len log + 1) as El2 by (rewrite len_app, len_cons, len_nil; lia). rewrite El2.
    destruct (_ <? _) eqn:Hfull; [apply Z.ltb_lt in Hfull|apply Z.ltb_ge in Hfull].
    + assert (tail (drop n (log ++ [ev])) = drop (S n) (log ++ [ev])) as ->.
      { replace (S n) with (n + 1)%nat by lia. rewrite <- drop_drop. by destruct (drop n (log ++ [ev])). }
      f_equal. lia.
    + f_equal. lia.
  - apply alternates_app. split; [done|]. cbn. split; [|done]. rewrite <- Hl. destruct k; done.
  - rewrite lives_app, <- Hl. done.
  - apply Forall_app. split; [done|]. by apply Forall_singleton.
  - intros c cur Hcur. specialize (Hc c cur Hcur). unfold saturating_add. lia.
Qed.
(** Of a call other than sending, a connection's place in the log is kept as long as its cursor is. *)
Definition continues (s s' : PexState) (base : Z) (log : list PexTimelineEvent) (base' : Z) (log' : list PexTimelineEvent) : Prop :=
  (base' = base /\ exists ext, log' = log ++ ext) \/ cursors s' = ∅.
Lemma established_logged known base log s e f : logged known base log s -> next_sequence s < umax 64 -> known e -> exists ext, logged known base (log ++ ext) (peer_established e f s).
Proof.
  intros Hl Hlt He. unfold peer_established. destruct (live s !! e) as [x|] eqn:E.
  - exists []. rewrite app_nil_r. destruct Hl. split; try done. cbn. rewrite dom_insert_lookup_L by (by eexists). done.
  - eexists. apply (push_logged known base log s e (KAdded f)); [done|done|done| |].
    + cbn. by apply not_elem_of_dom.
    + rewrite dom_insert_L. done.
Qed.
Lemma dropped_logged known base log s e : logged known base log s -> next_sequence s < umax 64 -> exists ext, logged known base (log ++ ext) (peer_dropped e s).
Proof.
  intros Hl Hlt. unfold peer_dropped. destruct (live s !! e) as [x|] eqn:E; [|exists []; by rewrite app_nil_r].
  assert (e ∈ dom (live s)) as Hin by (apply elem_of_dom; by eexists).
  eexists. apply (push_logged known base log s e KDropped); [done|done| |done|].
  - by eapply live_known.
  - cbn. by rewrite dom_delete_L.
Qed.
Lemma logged_tracks known base log s s' : tracks s' = tracks s -> logged known base log s -> logged known base log s'.
Proof. intros [= E1 E2 E3 E4] []. split; rewrite ?E1, ?E2, ?E3, ?E4; done. Qed.
Lemma step_logged known base log s s' : logged known base log s -> next_sequence s < umax 64 -> sent_step known s s' ->
  exists base' log', logged known base' log' s' /\ continues s s' base log base' log'.
Proof.
  intros Hl Hlt Hstep. destruct Hstep as [E1 E2 E3 E4|E|e f He E|e E].
  - exists base, log. split; [|left; split; [done|]; exists []; by rewrite app_nil_r]. destruct Hl. split; rewrite ?E1, ?E2, ?E3; try done.
    intros c cur Hc. destruct (E4 c) as [E|[E|[_ E]]]; rewrite E in Hc; [by eapply lg_cursors0|done|injection Hc as <-; cbn]. rewrite lg_next0. pose proof (len_nonneg log). lia.
  - exists (next_sequence s), []. injection E as E1 E2 E3 E4. split; [|by right]. split; rewrite ?E1, ?E2, ?E3, ?E4, ?len_nil; try done; try lia; try (by rewrite dom_empty_L); intros; by simplify_map_eq.
  - destruct (established_logged known base log s e f Hl Hlt He) as [ext H].
    exists base, (log ++ ext). split; [by eapply logged_tracks|]. left. split; [done|by exists ext].
  - destruct (dropped_logged known base log s e Hl Hlt) as [ext H]. exists base, (log ++ ext). split; [by eapply logged_tracks|]. left. split; [done|by exists ext].
Qed.
Lemma net_change_keys (known : SocketAddr -> Prop) self l : forall net next net' next', Forall (fun ev => known (e_endpoint ev)) l -> (forall e k, net !! e = Some k -> known e) -> net_change self l net next = (net', next') ->
  forall e k, net' !! e = Some k -> known e.
Proof.
  induction l as [|ev l IH]; intros net next net' next' Hk Hn E; [by injection E as <- _|]. apply Forall_cons in Hk as [He Hk]. cbn [net_change] in E.
  assert (forall net2, (forall e k, net2 !! e = Some k -> known e) -> net_change self l net2 (saturating_add 64 (sequence ev) 1) = (net', next') -> forall e k, net' !! e = Some k -> known e) as Hnext by (intros net2 H2 E2; by eapply IH).
  destruct (bool_decide _); [exact (Hnext _ Hn E)|].
  assert (forall e k, delete (e_endpoint ev) net !! e = Some k -> known e) as Hdel by (intros e k [_ H]%lookup_delete_Some; by eapply Hn).
  assert (forall e k, <[e_endpoint ev := kind ev]> net !! e = Some k -> known e) as Hins by (intros e k [[<- _]|[_ H]]%lookup_insert_Some; [done|by eapply Hn]).
  destruct (net !! e_endpoint ev) as [[f|]|]; destruct (kind ev); try exact (Hnext _ Hdel E);
    (destruct (_ || _); [injection E as <- _; done|exact (Hnext _ Hins E)]).
Qed.

Lemma oldest_logged known base log s : logged known base log s -> oldest s = base + Z.max 0 (len log - MAX_PEX_TIMELINE_EVENTS).
Proof.
  intros Hl. unfold oldest. rewrite (lg_timeline _ _ _ _ Hl). pose proof (lg_numbered _ _ _ _ Hl) as Hnum. set (n := Z.to_nat (len log - MAX_PEX_TIMELINE_EVENTS)).
  rewrite <- (take_drop n log) in Hnum. apply numbered_app in Hnum as [_ Hnum]. assert (len (take n log) = Z.max 0 (len log - MAX_PEX_TIMELINE_EVENTS)) as E.
  { unfold n, len. rewrite length_take. unfold MAX_PEX_TIMELINE_EVENTS. lia. }
  rewrite E in Hnum. destruct (drop n log) as [|ev l] eqn:Ed; [|apply Hnum]. rewrite (lg_next _ _ _ _ Hl).
  assert (length (drop n log) = 0%nat) as H0 by (by rewrite Ed). rewrite length_drop in H0. unfold n, len, MAX_PEX_TIMELINE_EVENTS in *. lia.
Qed.
Lemma pending_events known base log s n : logged known base log s -> oldest s <= n <= next_sequence s -> filter (fun ev => n <= sequence ev) (timeline s) = drop (Z.to_nat (n - base)) log.
Proof.
  intros Hl Hn. rewrite (oldest_logged known base log s Hl), (lg_next _ _ _ _ Hl) in Hn. rewrite (lg_timeline _ _ _ _ Hl). pose proof (lg_numbered _ _ _ _ Hl) as Hnum.
  set (k := Z.to_nat (len log - MAX_PEX_TIMELINE_EVENTS)). rewrite <- (take_drop k log) in Hnum. apply numbered_app in Hnum as [_ Hnum].
  assert (len (take k log) = Z.max 0 (len log - MAX_PEX_TIMELINE_EVENTS)) as E by (unfold k, len; rewrite length_take; unfold MAX_PEX_TIMELINE_EVENTS; lia).
  assert (len (drop k log) = len log - len (take k log)) as E2 by (rewrite E; unfold k, len; rewrite length_drop; unfold MAX_PEX_TIMELINE_EVENTS; lia).
  rewrite (numbered_suffix _ _ n Hnum) by (rewrite E2, E; lia). rewrite drop_drop. f_equal. rewrite E. unfold k. lia.
Qed.
Lemma lives_at_from base log n k : base <= n -> 0 <= k -> lives_at base log (n + k) = lives_from (lives_at base log n) (take (Z.to_nat k) (drop (Z.to_nat (n - base)) log)).
Proof.
  intros Hn Hk. unfold lives_at. rewrite <- lives_app. f_equal. replace (Z.to_nat (n + k - base)) with (Z.to_nat (n - base) + Z.to_nat k)%nat by lia. by rewrite take_take_drop.
Qed.
(** What an update tells: the net change up to the place the cursor moves to. *)
Lemma send_net known base log s self cur cur' m : logged known base log s -> base <= cursor_next cur <= next_sequence s -> initial_sent cur = true -> oldest s <= cursor_next cur -> next_message self cur s = (cur', m) ->
  exists net, m = message_of net /\ initial_sent cur' = true /\ last_sent cur' = last_sent cur /\ cursor_next cur <= cursor_next cur' <= next_sequence s /\
    (next_sequence s - cursor_next cur <= 50 -> cursor_next cur' = next_sequence s) /\
    net_relates self (lives_at base log (cursor_next cur)) (lives_at base log (cursor_next cur')) net /\ counted true net <= MAX_PEX_ADDITIONS /\ counted false net <= MAX_PEX_DROPS /\
    (forall e k, net !! e = Some k -> known e).
Proof.
  intros Hl Hc Hi Hold E. unfold next_message in E. rewrite Hi, (proj2 (Z.ltb_ge _ _) Hold) in E. cbn [negb orb] in E.
  rewrite (pending_events known base log s) in E by (done || lia). set (n := Z.to_nat (cursor_next cur - base)) in *.
  destruct (net_change self (drop n log) ∅ (cursor_next cur)) as [net next] eqn:En. injection E as <- <-. cbn [initial_sent last_sent cursor_next].
  pose proof (lg_next _ _ _ _ Hl) as Hnext. assert (len (take n log) = cursor_next cur - base) as Ht by (unfold n; rewrite len_take; lia).
  assert (len (drop n log) = next_sequence s - cursor_next cur) as Hd by (unfold n, len in *; rewrite length_drop; lia).
  pose proof (lg_alternates _ _ _ _ Hl) as Halt. pose proof (lg_numbered _ _ _ _ Hl) as Hnum. rewrite <- (take_drop n log) in Halt, Hnum. apply alternates_app in Halt as [_ Halt]. apply numbered_app in Hnum as [_ Hnum].
  rewrite Ht in Hnum. replace (base + (cursor_next cur - base)) with (cursor_next cur) in Hnum by lia.
  destruct (net_change_spec self (lives_at base log (cursor_next cur)) (drop n log) (lives_at base log (cursor_next cur)) ∅ (cursor_next cur) net next) as (l1 & l2 & El & -> & Hnet & Ca & Cd & Csum & Cstop);
    [done|apply net_relates_refl|done|pose proof (lg_max _ _ _ _ Hl); lia|rewrite counted_empty; done|rewrite counted_empty; done|done|].
  rewrite !counted_empty in Csum. pose proof (len_nonneg l1). assert (len l1 + len l2 = next_sequence s - cursor_next cur) as Hlen by (rewrite <- Hd, El, len_app; done). pose proof (len_nonneg l2).
  exists net. split; [done|]. split; [done|]. split; [done|]. split; [lia|]. split; [|split; [|split; [done|split; [done|]]]].
  - intros H50. destruct l2 as [|x l2]; [rewrite len_nil in Hlen; lia|]. exfalso. rewrite len_cons in Hlen. pose proof (len_nonneg l2).
    assert (0 <= counted true net /\ 0 <= counted false net) by (unfold counted; lia). unfold MAX_PEX_ADDITIONS, MAX_PEX_DROPS in *. destruct Cstop as [?|?]; [done|lia|lia].
  - rewrite (lives_at_from base log (cursor_next cur) (len l1)) by lia. fold n. rewrite El. unfold len. by rewrite Nat2Z.id, take_app_length.
  - apply (net_change_keys known self (drop n log) ∅ (cursor_next cur) net (cursor_next cur + len l1)); [|intros e k H1; by rewrite lookup_empty in H1|done].
    apply Forall_drop, Hl.
Qed.

Section sessions.
Context (known : SocketAddr -> Prop) (known_plain : forall a, known a -> plain a) (known_ips : forall a b, known a -> known b -> ip_of a = ip_of b -> a = b).
Implicit Types (v : gset SocketAddr).

(** What the message does to what the connection knows. *)
Definition conveys (m : PexMessage) v v' : Prop := if is_empty_message m then v = v' else exists bytes, encode_pex_message m = Ok bytes /\ read (Some bytes) v = v'.
Lemma parts_convey (la : list (SocketAddr * PexFlags)) (ld : list SocketAddr) v v' : Forall known la.*1 -> Forall known ld -> NoDup la.*1 -> NoDup ld -> (forall e, e ∈ la.*1 -> e ∉ ld) ->
  len la <= MAX_PEX_ADDITIONS -> len ld <= MAX_PEX_DROPS -> (forall e, (e ∈ v /\ e ∉ ld) \/ e ∈ la.*1 <-> e ∈ v') -> conveys (mkPex (to_contact <$> la) (wire_endpoint <$> ld) 0 0) v v'.
Proof.
  intros H1 H2 H3 H4 H5 H6 H7 Hv. unfold conveys. destruct (is_empty_message _) eqn:He.
  - apply set_eq. intros e. rewrite <- Hv. unfold is_empty_message in He. apply andb_prop in He as [Ha Hd]. apply bool_decide_eq_true_1 in Ha, Hd. cbn in Ha, Hd.
    apply fmap_nil_inv in Ha, Hd. subst. cbn. split; [left; split; [done|apply not_elem_of_nil]|by intros [[? _]|?%not_elem_of_nil]].
  - destruct (message_read known known_plain known_ips la ld _ v H1 H2 H3 H4 H5 eq_refl H6 H7 He) as (bytes & E & Hr). exists bytes. split; [done|]. apply set_eq. intros e. by rewrite Hr, Hv.
Qed.
Lemma net_conveys net self before now : counted true net <= MAX_PEX_ADDITIONS -> counted false net <= MAX_PEX_DROPS -> net_relates self before now net -> (forall e k, net !! e = Some k -> known e) ->
  conveys (message_of net) (before ∖ {[self]}) (now ∖ {[self]}).
Proof.
  intros Ha Hd [Hself Hnet] Hk. destruct (message_of_parts net Ha Hd) as (-> & La & Ld). rewrite add_parts in La |- *. rewrite drop_parts in Ld |- *. unfold len in La, Ld. rewrite length_fmap in La. rewrite length_fmap in Ld.
  assert (forall e, e ∈ (omap adds_of (items_by socket_order net)).*1 <-> exists f, net !! e = Some (KAdded f)) as Hadds.
  { intros e. rewrite list_elem_of_fmap. split; [intros ([e' f] & -> & Hin%elem_adds); by exists f|intros [f Hf]; exists (e, f); split; [done|by apply elem_adds]]. }
  apply parts_convey; [..|unfold len; lia|unfold len; lia|].
  - apply Forall_forall. intros e [f Hf]%Hadds. by eapply Hk.
  - apply Forall_forall. intros e He%elem_drops. by eapply Hk.
  - apply nodup_adds.
  - apply nodup_drops.
  - intros e [f Hf]%Hadds Hd'%elem_drops. congruence.
  - intros e. rewrite Hadds, elem_drops. destruct (decide (e = self)) as [->|Hne].
    + rewrite Hself. split; [intros [[? _]|[f ?]]; [set_solver|done]|set_solver].
    + specialize (Hnet e Hne). rewrite !elem_of_difference, !elem_of_singleton. destruct (net !! e) as [[f|]|]; split.
      * intros _. tauto.
      * intros _. right. by eexists.
      * intros [[_ ?]|[f ?]]; done.
      * tauto.
      * intros [[[? _] _]|[f ?]]; [|done]. split; [by apply Hnet|done].
      * intros [? _]. left. split; [|done]. split; [by apply Hnet|done].
Qed.
Lemma send_update base log s self cur cur' m : logged known base log s -> base <= cursor_next cur <= next_sequence s -> initial_sent cur = true -> oldest s <= cursor_next cur -> next_message self cur s = (cur', m) ->
  initial_sent cur' = true /\ last_sent cur' = last_sent cur /\ cursor_next cur <= cursor_next cur' <= next_sequence s /\ (next_sequence s - cursor_next cur <= 50 -> cursor_next cur' = next_sequence s) /\
  conveys m (lives_at base log (cursor_next cur) ∖ {[self]}) (lives_at base log (cursor_next cur') ∖ {[self]}).
Proof.
  intros Hl Hc Hi Hold E. destruct (send_net known base log s self cur cur' m Hl Hc Hi Hold E) as (net & -> & H1 & H2 & H3 & H4 & Hnet & Ca & Cd & Hk). repeat (split; [done|]). by apply net_conveys.
Qed.
Lemma send_initial base log s self cur cur' m : logged known base log s -> initial_sent cur = false -> Z.of_nat (size (delete self (live s))) <= MAX_PEX_ADDITIONS -> next_message self cur s = (cur', m) ->
  cur' = mkCursor (next_sequence s) true (last_sent cur) /\ conveys m ∅ (dom (live s) ∖ {[self]}).
Proof.
  intros Hl Hi Hsize E. unfold next_message in E. rewrite Hi in E. injection E as <- <-. split; [done|]. unfold initial_message.
  set (l := filter (fun ef => ef.1 <> self) (items_by socket_order (live s))).
  assert (forall e f, (e, f) ∈ l <-> live s !! e = Some f /\ e <> self) as Hin by (intros e f; unfold l; rewrite list_elem_of_filter, elem_of_items_by; cbn; tauto).
  assert (l ≡ₚ map_to_list (delete self (live s))) as Hperm.
  { apply NoDup_Permutation; [unfold l; apply NoDup_filter, (NoDup_fmap_1 fst), nodup_items|apply NoDup_map_to_list|]. intros [e f]. rewrite Hin, elem_of_map_to_list, lookup_delete_Some. naive_solver. }
  assert (len l <= MAX_PEX_ADDITIONS) as Hlen by (unfold len; by rewrite Hperm, length_map_to_list).
  assert (truncate MAX_PEX_ADDITIONS l = l) as -> by (unfold truncate; apply take_ge; unfold len in Hlen; lia).
  assert (forall e, e ∈ l.*1 <-> e ∈ dom (live s) /\ e <> self) as Hdom.
  { intros e. rewrite list_elem_of_fmap, elem_of_dom. split; [intros ([e' f] & -> & [H1 H2]%Hin); split; [by eexists|done]|intros [[f Hf] Hne]; exists (e, f); split; [done|by apply Hin]]. }
  apply (parts_convey l [] ∅).
  - apply Forall_forall. intros e [[f Hf]%elem_of_dom _]%Hdom. by eapply live_known.
  - constructor.
  - rewrite Hperm. apply NoDup_fst_map_to_list.
  - constructor.
  - intros e _. apply not_elem_of_nil.
  - done.
  - done.
  - intros e. rewrite Hdom. set_solver.
Qed.
End sessions.

(** ** What a connection has been told *)
Lemma next_message_bounds known base log s self cur cur' m :
  logged known base log s -> base <= cursor_next cur <= next_sequence s -> next_message self cur s = (cur', m) -> cursor_next cur <= cursor_next cur' <= next_sequence s.
Proof.
  intros Hl Hc E. destruct (initial_sent cur) eqn:Hi; [destruct (decide (oldest s <= cursor_next cur)) as [Ho|Ho]|].
  - by destruct (send_net known base log s self cur cur' m Hl Hc Hi Ho E) as (net & _ & _ & _ & ? & _).
  - unfold next_message in E. rewrite Hi, (proj2 (Z.ltb_lt _ _)) in E by lia. injection E as <- _. cbn. lia.
  - unfold next_message in E. rewrite Hi in E. injection E as <- _. cbn. lia.
Qed.
(** What sending a message changes: the cursor of its connection. *)
Lemma next_outbound_eq c self now w cur cur' m : cursors (pex w) !! c = Some cur -> too_soon (last_sent cur) now = false -> next_message self cur (pex w) = (cur', m) ->
  next_outbound c self now w =
    if is_empty_message m then (on_pex (set_cursor c cur') w, Ok None)
    else (on_pex (set_cursor c (mkCursor (cursor_next cur') (initial_sent cur') (Some now))) w, bytes ← map_err PE_Extension (encode_pex_message m); Ok (Some bytes)).
Proof.
  intros Hc Hs E. unfold next_outbound, mbind, M_bind, get. rewrite Hc, Hs, E. cbn. destruct (is_empty_message m); [done|].
  assert (on_pex (set_cursor c (mkCursor (cursor_next cur') (initial_sent cur') (Some now))) (on_pex (set_cursor c cur') w) = on_pex (set_cursor c (mkCursor (cursor_next cur') (initial_sent cur') (Some now))) w) as <-.
  { unfold on_pex, set_cursor, set_cursors. cbn. by rewrite insert_insert_eq. }
  destruct (encode_pex_message m); done.
Qed.
Lemma set_cursor_logged known base log s c cur : logged known base log s -> base <= cursor_next cur <= next_sequence s -> logged known base log (set_cursor c cur s).
Proof.
  intros Hl Hc. destruct Hl. split; try done. intros d x Hx. cbn in Hx. apply lookup_insert_Some in Hx as [[_ <-]|[_ Hx]]; [done|by eapply lg_cursors0].
Qed.
Definition may_call (known : SocketAddr -> Prop) (e : Event) : Prop := match e with RemoveDisallowed _ => False | Established e _ => known e | _ => True end.
(** The states reached from an empty exchange, with peers of [known]. *)
Inductive reachable (known : SocketAddr -> Prop) : World -> Prop :=
| reach_new r : registry_ok r -> reachable known (mkWorld PexState_default r)
| reach_call w e : reachable known w -> next_sequence (pex w) < umax 64 -> may_call known e -> reachable known (apply e w).1.
(** What the connection [c], whose peer is [self], knows from the messages it was sent since it takes part. *)
Definition in_time (self : SocketAddr) (cur : PexCursor) (s : PexState) : Prop :=
  if initial_sent cur then oldest s <= cursor_next cur else Z.of_nat (size (delete self (live s))) <= MAX_PEX_ADDITIONS.
Inductive session (known : SocketAddr -> Prop) (c : Z) (self : SocketAddr) : World -> gset SocketAddr -> Prop :=
| session_start w cur : reachable known w -> cursors (pex w) !! c = Some cur -> initial_sent cur = false -> session known c self w ∅
| session_call w v e : session known c self w v -> next_sequence (pex w) < umax 64 -> may_call known e -> (forall a now, e <> NextOutbound c a now) ->
    is_Some (cursors (pex (apply e w).1) !! c) -> session known c self (apply e w).1 v
| session_send w v now w' o cur : session known c self w v -> cursors (pex w) !! c = Some cur -> in_time self cur (pex w) -> next_outbound c self now w = (w', Ok o) -> session known c self w' (read o v).

Lemma send_logged known base log w c self now : logged known base log (pex w) -> logged known base log (pex (next_outbound c self now w).1) /\
  forall d, d <> c -> cursors (pex (next_outbound c self now w).1) !! d = cursors (pex w) !! d.
Proof.
  intros Hl. destruct (cursors (pex w) !! c) as [cur|] eqn:Hc; [|unfold next_outbound, mbind, M_bind, get; rewrite Hc; done].
  destruct (too_soon (last_sent cur) now) eqn:Hs; [unfold next_outbound, mbind, M_bind, get; rewrite Hc, Hs; done|].
  destruct (next_message self cur (pex w)) as [cur' m] eqn:E. rewrite (next_outbound_eq c self now w cur cur' m Hc Hs E).
  pose proof (lg_cursors _ _ _ _ Hl c cur Hc) as Hb. pose proof (next_message_bounds known base log (pex w) self cur cur' m Hl Hb E) as Hb'.
  destruct (is_empty_message m); (split; [apply set_cursor_logged; [done|cbn; lia]|]); intros d Hd; cbn; by rewrite lookup_insert_ne.
Qed.
Lemma call_logged known base log w e : exchange_ok w -> logged known base log (pex w) -> next_sequence (pex w) < umax 64 -> may_call known e ->
  exists base' log', logged known base' log' (pex (apply e w).1) /\
    forall c cur, (forall a now, e <> NextOutbound c a now) -> cursors (pex w) !! c = Some cur -> is_Some (cursors (pex (apply e w).1) !! c) ->
      cursors (pex (apply e w).1) !! c = Some cur /\ lives_at base' log' (cursor_next cur) = lives_at base log (cursor_next cur).
Proof.
  intros Hok Hl Hlt He. assert ((exists c self now, e = NextOutbound c self now) \/ plain_call known e) as [(c & self & now & ->)|Hp] by (destruct e; first [by right|left; by eauto]).
  - exists base, log. cbn [apply]. destruct (send_logged known base log w c self now Hl) as [H1 H2]. split; [exact H1|].
    intros d cur Hd Hcur Hsome. assert (d <> c) as Hne by (intros ->; by apply (Hd self now)). split; [|done]. cbn. rewrite H2; done.
  - pose proof (apply_step known e w Hok Hp) as Hstep.
    destruct (step_logged known base log (pex w) (pex (apply e w).1) Hl Hlt Hstep) as (base' & log' & Hl' & Hcont). exists base', log'. split; [done|].
    intros c cur _ Hcur [x Hx]. destruct Hcont as [[-> [ext ->]]|Hempty]; [|by rewrite Hempty, lookup_empty in Hx].
    assert (cursors (pex (apply e w).1) !! c = Some cur) as Hkeep.
    { destruct Hstep as [_ _ _ Hk|E|a f _ E|a E].
      - destruct (Hk c) as [E|[E|[E _]]]; congruence.
      - injection E as _ _ _ E. by rewrite E, lookup_empty in Hx.
      - injection E as _ _ _ E. rewrite E. unfold peer_established. by destruct (live (pex w) !! a).
      - injection E as _ _ _ E. rewrite E. unfold peer_dropped. by destruct (live (pex w) !! a). }
    split; [done|]. apply lives_at_log. pose proof (lg_cursors _ _ _ _ Hl c cur Hcur) as Hb. rewrite (lg_next _ _ _ _ Hl) in Hb. lia.
Qed.
Lemma reachable_logged known w : reachable known w -> exchange_ok w /\ exists base log, logged known base log (pex w).
Proof.
  induction 1 as [r Hr|w e _ [Hok (base & log & Hl)] Hlt He].
  - split; [by apply fresh_ok|]. exists 1, []. split; try done; cbn; try lia; try (by rewrite dom_empty_L); intros; by simplify_map_eq.
  - split; [by apply apply_ok|]. destruct (call_logged known base log w e Hok Hl Hlt He) as (base' & log' & Hl' & _). by eexists _, _.
Qed.
Section sessions.
Context (known : SocketAddr -> Prop) (known_plain : forall a, known a -> plain a) (known_ips : forall a b, known a -> known b -> ip_of a = ip_of b -> a = b).

(** What a session knows is what was live at its place in the log. *)
Definition knows (c : Z) (self : SocketAddr) (w : World) (v : gset SocketAddr) : Prop :=
  exchange_ok w /\ exists base log cur, logged known base log (pex w) /\ cursors (pex w) !! c = Some cur /\
    v = if initial_sent cur then lives_at base log (cursor_next cur) ∖ {[self]} else ∅.
(** One message in time. *)
Lemma send_knows c self w v now cur : knows c self w v -> cursors (pex w) !! c = Some cur -> in_time self cur (pex w) -> too_soon (last_sent cur) now = false ->
  exists w' o cur', next_outbound c self now w = (w', Ok o) /\ knows c self w' (read o v) /\ cursors (pex w') !! c = Some cur' /\ live (pex w') = live (pex w) /\
    ((initial_sent cur = true -> next_sequence (pex w) - cursor_next cur <= 50) -> read o v = dom (live (pex w)) ∖ {[self]}).
Proof.
  intros (Hok & base & log & x & Hl & Hx & Hv) Hcur Htime Hs. rewrite Hcur in Hx. injection Hx as <-.
  pose proof (next_outbound_ok c self now w Hok) as Hok'. destruct (next_message self cur (pex w)) as [cur' m] eqn:E. pose proof (next_outbound_eq c self now w cur cur' m Hcur Hs E) as Eo.
  pose proof (lg_cursors _ _ _ _ Hl c cur Hcur) as Hb.
  assert (initial_sent cur' = true /\ base <= cursor_next cur' <= next_sequence (pex w) /\ ((initial_sent cur = true -> next_sequence (pex w) - cursor_next cur <= 50) -> cursor_next cur' = next_sequence (pex w)) /\
    conveys m v (lives_at base log (cursor_next cur') ∖ {[self]})) as (Hi' & Hb' & H50 & Hconv).
  { unfold in_time in Htime. destruct (initial_sent cur) eqn:Hi.
    - destruct (send_update known known_plain known_ips base log (pex w) self cur cur' m Hl Hb Hi Htime E) as (H1 & _ & H2 & H3 & H4). rewrite Hv. split; [done|]. split; [lia|]. split; [|done]. intros H. by apply H3, H.
    - destruct (send_initial known known_plain known_ips base log (pex w) self cur cur' m Hl Hi Htime E) as [-> H4]. cbn. rewrite Hv, (lives_at_next known base log (pex w) Hl). split; [done|]. split; [lia|]. by split. }
  assert (forall k, initial_sent k = initial_sent cur' -> cursor_next k = cursor_next cur' -> exchange_ok (on_pex (set_cursor c k) w) -> forall o, read o v = lives_at base log (cursor_next cur') ∖ {[self]} ->
    knows c self (on_pex (set_cursor c k) w) (read o v)) as Hknows.
  { intros k E1 E2 Hk o Ho. split; [done|]. exists base, log, k. split; [apply set_cursor_logged; [done|lia]|]. split; [cbn; apply lookup_insert_eq|]. by rewrite E1, E2, Hi'. }
  assert (forall o, read o v = lives_at base log (cursor_next cur') ∖ {[self]} -> (initial_sent cur = true -> next_sequence (pex w) - cursor_next cur <= 50) -> read o v = dom (live (pex w)) ∖ {[self]}) as Hfull.
  { intros o -> H. by rewrite (H50 H), (lives_at_next known base log (pex w) Hl). }
  unfold wp in Hok'. unfold conveys in Hconv. rewrite Eo in Hok' |- *. destruct (is_empty_message m).
  - eexists _, None, cur'. split; [done|]. split; [by apply Hknows|]. split; [cbn; apply lookup_insert_eq|]. split; [done|]. by apply Hfull.
  - destruct Hconv as (bytes & Eb & Hr). rewrite Eb in Hok' |- *. cbn in Hok'. eexists _, (Some bytes), _. split; [done|]. split; [by apply Hknows|]. split; [cbn; apply lookup_insert_eq|]. split; [done|]. by apply Hfull.
Qed.
Lemma session_knows c self w v : session known c self w v -> knows c self w v.
Proof.
  induction 1 as [w cur Hr Hcur Hi|w v e _ IH Hlt He Hne Hsome|w v now w' o cur _ IH Hcur Htime E].
  - destruct (reachable_logged known w Hr) as [Hok (base & log & Hl)]. split; [done|]. exists base, log, cur. by rewrite Hi.
  - destruct IH as (Hok & base & log & cur & Hl & Hcur & Hv). split; [by apply apply_ok|]. destruct (call_logged known base log w e Hok Hl Hlt He) as (base' & log' & Hl' & Hc).
    destruct (Hc c cur Hne Hcur Hsome) as [Hcur' Elive]. exists base', log', cur. split; [done|]. split; [done|]. by rewrite Elive.
  - destruct (too_soon (last_sent cur) now) eqn:Hs.
    + unfold next_outbound, mbind, M_bind, get in E. rewrite Hcur, Hs in E. by injection E as <- <-.
    + destruct (send_knows c self w v now cur IH Hcur Htime Hs) as (w2 & o2 & _ & E2 & Hk & _). rewrite E in E2. by injection E2 as <- <-.
Qed.
End sessions.

(** ** A peer that moved to another port *)
Lemma wire_same_ip a b : ip_of a = ip_of b -> Extension.ip (wire_endpoint a) = Extension.ip (wire_endpoint b).
Proof. destruct a, b; cbn; intros E; simplify_eq; [done|]. by case_bool_decide. Qed.
Lemma dropped_spec a w : is_Some (live (pex w) !! a) -> peer_dropped a (pex w) = push_event a KDropped (set_live (delete a (live (pex w))) (pex w)).
Proof. intros [x Hx]. unfold peer_dropped. by rewrite Hx. Qed.
Lemma established_spec b f s : live s !! b = None -> peer_established b f s = push_event b (KAdded f) (set_live (<[b := f]> (live s)) s).
Proof. intros Hb. unfold peer_established. by rewrite Hb. Qed.
(** The exchange after the live peer [a] left and [b] came. *)
Definition moved (a b : SocketAddr) (f : PexFlags) (w : World) : World := (apply (Established b f) (apply (PeerDropped a) w).1).1.
Lemma moved_logged base log a b f w : logged plain base log (pex w) -> next_sequence (pex w) + 2 <= umax 64 -> is_Some (live (pex w) !! a) -> live (pex w) !! b = None -> plain b ->
  exists ext, logged plain base (log ++ ext) (pex (moved a b f w)) /\ cursors (pex (moved a b f w)) = cursors (pex w) /\ next_sequence (pex (moved a b f w)) = next_sequence (pex w) + 2 /\
    dom (live (pex (moved a b f w))) = (dom (live (pex w)) ∖ {[a]}) ∪ {[b]}.
Proof.
  intros Hl Hlt [x Ha] Hb Hp. assert (a <> b) as Hab by (intros ->; congruence). unfold moved. cbn [apply fst on_pex pex].
  rewrite (dropped_spec a w) by (by eexists). assert (logged plain base (log ++ [mkEvent (next_sequence (pex w)) a KDropped]) (push_event a KDropped (set_live (delete a (live (pex w))) (pex w)))) as Hl1.
  { apply push_logged; [done|lia|by eapply live_known|cbn; apply elem_of_dom; by eexists|cbn; by rewrite dom_delete_L]. }
  set (s1 := push_event a KDropped _) in *. assert (next_sequence s1 = next_sequence (pex w) + 1) as En by (cbn; unfold saturating_add; lia).
  assert (live s1 = delete a (live (pex w))) as El by done. assert (live s1 !! b = None) as Hb1 by (rewrite El; by rewrite lookup_delete_ne).
  rewrite (established_spec b f s1 Hb1). exists ([mkEvent (next_sequence (pex w)) a KDropped] ++ [mkEvent (next_sequence s1) b (KAdded f)]). split; [|split; [done|split]].
  - rewrite app_assoc. apply (push_logged plain base _ s1 b (KAdded f)); [exact Hl1|lia|done| |].
    + cbn. apply not_elem_of_dom. exact Hb1.
    + cbn. rewrite dom_insert_L. reflexivity.
  - cbn [push_event set_timeline set_live next_sequence]. rewrite En. unfold saturating_add. lia.
  - cbn [push_event set_timeline set_live live]. rewrite El, dom_insert_L, dom_delete_L. set_solver.
Qed.
(** What receiving a message of another shape does. *)
Lemma receive_malformed source bytes context v e : verified_public context = true -> too_soon (last_accepted (cadence (source_of source (pex v)))) (now context) = false ->
  parse_pex_message bytes = Err e -> receive source bytes context v = (on_pex (fun s => set_source source (source_of source s) s) v, Err (PE_Extension e)).
Proof.
  intros Hp Hs E. unfold receive. rewrite Hp. cbn [negb]. unfold mbind, M_bind, modify, get. cbn [pex].
  assert (source_of source (pex (on_pex (fun s => set_source source (source_of source s) s) v)) = source_of source (pex v)) as Es by (unfold source_of at 1; cbn; by rewrite lookup_insert_eq).
  cbn [pex on_pex] in Es |- *. rewrite Es, Hs, E. done.
Qed.
Lemma moved_message w c self now cur a b f : reachable plain w -> cursors (pex w) !! c = Some cur -> initial_sent cur = true -> cursor_next cur = next_sequence (pex w) -> next_sequence (pex w) + 2 <= umax 64 ->
  is_Some (live (pex w) !! a) -> live (pex w) !! b = None -> plain b -> ip_of a = ip_of b -> a <> self -> b <> self -> too_soon (last_sent cur) now = false ->
  exists w' bytes conflict, next_outbound c self now (moved a b f w) = (w', Ok (Some bytes)) /\ parse_pex_message bytes = Err (EE_ConflictingContact conflict).
Proof.
  intros Hr Hc Hi Hnext Hlt Ha Hb Hpb Hip Has Hbs Hdue. destruct (reachable_logged plain w Hr) as [_ (base & log & Hl)].
  destruct (moved_logged base log a b f w Hl Hlt Ha Hb Hpb) as (ext & Hl' & Ec & En & Ed). set (v := moved a b f w) in *.
  destruct (next_message self cur (pex v)) as [cur' m] eqn:E. rewrite <- Ec in Hc. pose proof (lg_cursors _ _ _ _ Hl' c cur Hc) as Hcb.
  assert (oldest (pex v) <= cursor_next cur) as Hold.
  { rewrite (oldest_logged plain base _ _ Hl'). pose proof (lg_next _ _ _ _ Hl'). pose proof (lg_next _ _ _ _ Hl). pose proof (len_nonneg log). unfold MAX_PEX_TIMELINE_EVENTS. lia. }
  destruct (send_net plain base _ (pex v) self cur cur' m Hl' Hcb Hi Hold E) as (net & -> & _ & _ & _ & H50 & Hnet & Ca & Cd & Hk).
  rewrite H50 in Hnet by lia. rewrite (lives_at_next plain _ _ _ Hl'), Ed in Hnet. rewrite Hnext, lives_at_log in Hnet by (pose proof (lg_next _ _ _ _ Hl); lia). rewrite (lives_at_next plain _ _ _ Hl) in Hnet.
  destruct Hnet as [_ Hnet]. assert (a <> b) as Hab by (intros ->; destruct Ha; congruence).
  assert (a ∈ dom (live (pex w))) as Hda by (by apply elem_of_dom). assert (b ∉ dom (live (pex w))) as Hdb by (by apply not_elem_of_dom).
  assert (net !! a = Some KDropped) as Na by (specialize (Hnet a Has); destruct (net !! a) as [[]|]; set_solver).
  assert (exists g, net !! b = Some (KAdded g)) as [g Nb] by (specialize (Hnet b Hbs); destruct (net !! b) as [[g|]|]; [by eexists|set_solver..]).
  destruct (message_of_parts net Ca Cd) as (Em & La & Ld). rewrite Em in E.
  assert (Forall (fun ct => canonical (Extension.endpoint ct)) (omap add_part (items_by socket_order net))) as Fa.
  { rewrite add_parts. apply Forall_forall. intros ct ([e h] & -> & Hin%elem_adds)%list_elem_of_fmap. cbn. by eapply plain_back, Hk. }
  assert (Forall canonical (omap drop_part (items_by socket_order net))) as Fd.
  { rewrite drop_parts. apply Forall_forall. intros ct (e & -> & Hin%elem_drops)%list_elem_of_fmap. by eapply plain_back, Hk. }
  destruct (pex_conflict_back (mkPex (omap add_part (items_by socket_order net)) (omap drop_part (items_by socket_order net)) 0 0) (Extension.ip (wire_endpoint b))) as (bytes & conflict & Eb & Ep); cbn [Extension.added Extension.dropped]; try done; try lia.
  { rewrite add_parts. change (map ?f ?l) with (f <$> l). rewrite <- list_fmap_compose. apply list_elem_of_fmap. exists (b, g). split; [done|by apply elem_adds]. }
  { rewrite drop_parts. change (map ?f ?l) with (f <$> l). rewrite <- list_fmap_compose. apply list_elem_of_fmap. exists a. split; [cbn; by rewrite (wire_same_ip a b)|by apply elem_drops]. }
  rewrite (next_outbound_eq c self now v cur cur' _ Hc Hdue E), Eb. destruct (is_empty_message _) eqn:He; [|by eexists _, bytes, conflict].
  unfold is_empty_message in He. apply andb_prop in He as [_ He%bool_decide_eq_true_1]. cbn in He. rewrite drop_parts in He. apply fmap_nil_inv in He.
  apply elem_drops in Na. rewrite He in Na. by apply not_elem_of_nil in Na.
Qed.

(** * Properties *)

(** C15: Whatever calls a torrent's exchange and its registry receive, the two
    records of who named which contact agree: every contact of a source lists
    that source, under the address of the contact, and every listed source
    still names the contact; no contact is kept without a source.  A source
    has at most fifty contacts, the torrent at most two hundred, the timeline
    at most 4096 events; the registry keeps its own invariant; and every call
    returns, without a panic. *)
Theorem exchange_invariant r es e : registry_ok r -> let w := run es (mkWorld PexState_default r) in exchange_ok w /\ (apply e w).2.
Proof. intros Hr w. assert (exchange_ok w) as Hok by (apply run_exchange_ok; by apply fresh_ok). split; [done|]. by apply apply_ok. Qed.

(** C16: What a peer can do with an exchange message.  In a torrent that is not
    known to be public, nothing.  Within a minute of its last accepted
    message, only earn a strike, and the connection is to be closed from the
    third on.  Otherwise a malformed message is an error that leaves the
    contacts alone; a well formed one starts a new minute, forgives the
    strikes, and adds only contacts of that source whose address is
    admissible: allowed by the network policy and the address families, not
    ours, not the sender itself, and local only if the sender is local too;
    what the torrent itself tells to others is never touched. *)
Theorem receive_admits source payload context w w' o : exchange_ok w -> receive source payload context w = (w', o) ->
  let st := source_of source (pex w) in
  if negb (verified_public context) then w' = w /\ o = Ok PrivacyBlocked
  else if too_soon (last_accepted (cadence st)) (now context) then
    exists n, n = saturating_add 8 (strikes (cadence st)) 1 /\ o = Ok (RateLimited n (3 <=? n)) /\
      w' = on_pex (set_source source (mkSource (mkCadence (last_accepted (cadence st)) n) (contacts st))) w
  else
    match parse_pex_message payload with
    | Ok m =>
      (forall d, o = Ok d -> exists a dr f t, d = Applied a dr f t) /\ cadence (source_of source (pex w')) = mkCadence (Some (now context)) 0 /\
      exchange_of (pex w') = exchange_of (pex w) /\ exchange_ok w' /\
      forall c x i e, sources (pex w') !! c = Some x -> contacts x !! i = Some e ->
        contacts (source_of c (pex w)) !! i = Some e \/ c = source /\ admits context (listen_of source context w) e
    | Err e => o = Err (PE_Extension e) /\ w' = on_pex (fun s => set_source source (source_of source s) s) w
    | _ => False
    end.
Proof.
  intros Hok E st. destruct (verified_public context) eqn:Ep; cbn [negb].
  2:{ rewrite (receive_private _ _ _ _ Ep) in E. by injection E as <- <-. }
  destruct (too_soon _ _) eqn:Es.
  { rewrite (receive_limited _ _ _ _ Ep Es) in E. injection E as <- <-. by eexists. }
  destruct (parse_pex_message payload) as [m|e| |] eqn:Em; [|by rewrite (receive_malformed _ _ _ _ e Ep Es Em) in E; injection E as <- <-|pose proof (parse_pex_returns payload) as H; by rewrite Em in H..].
  pose proof (receive_linked source payload context w Hok Ep Es) as H. unfold wp in H. rewrite E in H.
  assert (advances source (admits context (listen_of source context w)) (accepted source (now context) w) w') as Ha.
  { destruct o; [apply H| |done..]. destruct H as [(_ & e' & _ & H)|H]; [congruence|done]. }
  split; [intros d ->; apply H|]. destruct Ha as (Hok' & Ee & [y Hy] & Hl). split; [|split; [done|split; [done|]]].
  - unfold source_of. rewrite Hy. destruct (Hl source y Hy) as (x & Hx & Ecad & _). cbn in Hx. rewrite lookup_insert_eq in Hx. injection Hx as <-. exact Ecad.
  - intros c x i e Hc Hi. destruct (Hl c x Hc) as (x0 & Hx0 & _ & Hne & Hold). destruct (decide (c = source)) as [->|Hcs].
    + cbn in Hx0. rewrite lookup_insert_eq in Hx0. injection Hx0 as <-. destruct (Hold i e Hi) as [?|?]; [by left|by right].
    + left. cbn in Hx0. rewrite lookup_insert_ne in Hx0 by done. rewrite (Hne Hcs) in Hi. unfold source_of. by rewrite Hx0.
Qed.

(** C10: A connection that is sent to in time knows exactly the live peers.
    Let a connection take part while the torrent's peers come and go (one
    endpoint for each address, of the form a message can carry: a v6 endpoint
    without scope and flow and not an embedded v4 one), let it read every message it is sent, as the
    receiving side of this program parses them, let no update be lost from
    the timeline and no first message be cut at fifty contacts.  When the next
    message is due and at most fifty events are outstanding, sending succeeds
    and afterwards the connection knows precisely the live peers other than
    itself. *)
Theorem connection_knows_live_peers (known : SocketAddr -> Prop) c self w v cur now :
  (forall a, known a -> plain a) -> (forall a b, known a -> known b -> ip_of a = ip_of b -> a = b) ->
  session known c self w v -> cursors (pex w) !! c = Some cur -> in_time self cur (pex w) -> too_soon (last_sent cur) now = false ->
  (initial_sent cur = true -> next_sequence (pex w) - cursor_next cur <= 50) ->
  exists w' o, next_outbound c self now w = (w', Ok o) /\ live (pex w') = live (pex w) /\ read o v = dom (live (pex w')) ∖ {[self]}.
Proof.
  intros Hp Hi Hs Hc Ht Hdue H50. destruct (send_knows known Hp Hi c self w v now cur (session_knows known Hp Hi c self w v Hs) Hc Ht Hdue) as (w' & o & _ & E & _ & _ & El & Hread).
  exists w', o. rewrite El. split; [done|]. split; [done|]. by apply Hread.
Qed.

(** C31: The exchange and the codec disagree on what a peer is.  The exchange
    tells peers apart by address and port, a message by address alone: when
    a live peer leaves and another port of its address takes its place
    between two messages, the message that is sent adds and drops one
    address, and every JSTorrent that receives it refuses it as malformed,
    which closes the connection to the honest sender. *)
Theorem moved_peer_refused w c self now cur a b f : reachable plain w -> cursors (pex w) !! c = Some cur -> initial_sent cur = true -> cursor_next cur = next_sequence (pex w) -> next_sequence (pex w) + 2 <= umax 64 ->
  is_Some (live (pex w) !! a) -> live (pex w) !! b = None -> plain b -> ip_of a = ip_of b -> a <> self -> b <> self -> too_soon (last_sent cur) now = false ->
  exists w' bytes conflict, next_outbound c self now (moved a b f w) = (w', Ok (Some bytes)) /\
    forall source context v, verified_public context = true -> too_soon (last_accepted (cadence (source_of source (pex v)))) (Pex.now context) = false ->
      (receive source bytes context v).2 = Err (PE_Extension (EE_ConflictingContact conflict)).
Proof.
  intros Hr Hc Hi Hn Hlt Ha Hb Hp Hip Has Hbs Hdue. destruct (moved_message w c self now cur a b f Hr Hc Hi Hn Hlt Ha Hb Hp Hip Has Hbs Hdue) as (w' & bytes & conflict & E & Ep).
  exists w', bytes, conflict. split; [done|]. intros source context v Hv Hs. by rewrite (receive_malformed source bytes context v _ Hv Hs Ep).
Qed.

(** * Witnesses *)
Definition seven (port : Z) : SocketAddr := SocketV4 (of_be [8; 8; 8; 7]) port.
Definition nine : SocketAddr := SocketV4 (of_be [8; 8; 8; 9]) 6881.
Definition sample_registry : PeerRegistry := mkRegistry (mkConfig 2 8 (60 * SECOND)) [] 1 1 1.
Definition sample_start : World := mkWorld PexState_default sample_registry.
(** A message that adds 8.8.8.7:1 and 10.0.0.1:1 and drops 8.8.4.4:1. *)
Definition sample_payload : list Z :=
  match encode_pex_message (mkPex [mkContact (mkEndpoint (Extension.V4 [8; 8; 8; 7]) 1) 4; mkContact (mkEndpoint (Extension.V4 [10; 0; 0; 1]) 1) 0] [mkEndpoint (Extension.V4 [8; 8; 4; 4]) 1] 0 0) with Ok b => b | _ => [] end.
Definition sample_context (t : Z) : PexReceiveContext := mkContext nine t true Online dual_stack [].
Definition sample_calls : list Pex.Event := [Receive 5 sample_payload (sample_context (100 * SECOND)); Established nine 0; EnableOutbound 5].
Definition sample_message : PexMessage := match parse_pex_message sample_payload with Ok m => m | _ => mkPex [] [] 0 0 end.
Definition sample_received : World := (receive 5 sample_payload (sample_context (100 * SECOND)) sample_start).1.
Lemma sample_registry_ok : registry_ok sample_registry.
Proof. apply (new_registry_ok (mkConfig 2 8 (60 * SECOND))); [by split|reflexivity]. Qed.
Lemma exchange_invariant_witness : registry_ok sample_registry /\ exchange_ok (run sample_calls sample_start).
Proof. split; [exact sample_registry_ok|]. exact (proj1 (exchange_invariant sample_registry sample_calls (RemoveSource 5) sample_registry_ok)). Defined.
(** The public contact is taken, the private one is not. *)
Lemma receive_admits_witness : receive 5 sample_payload (sample_context (100 * SECOND)) sample_start = (sample_received, Ok (Applied 1 0 2 0)) /\ cadence (source_of 5 (pex sample_received)) = mkCadence (Some (100 * SECOND)) 0.
Proof.
  assert (receive 5 sample_payload (sample_context (100 * SECOND)) sample_start = (sample_received, Ok (Applied 1 0 2 0))) as E by (vm_compute; reflexivity). split; [exact E|].
  pose proof (receive_admits 5 sample_payload (sample_context (100 * SECOND)) sample_start sample_received _ (fresh_ok sample_registry sample_registry_ok) E) as H.
  assert (parse_pex_message sample_payload = Ok sample_message) as Ep by (vm_compute; reflexivity). rewrite Ep in H. exact (proj1 (proj2 H)).
Defined.
(** Two peers; then a message to one, and the other leaves. *)
Definition sample_known (a : SocketAddr) : Prop := a = nine \/ a = seven 1.
Definition sample_live : World := run [Established (seven 1) 4; Established nine 0; EnableOutbound 5] sample_start.
Definition sample_sent : World := (apply (NextOutbound 5 nine (100 * SECOND)) sample_live).1.
Definition sample_bytes : option (list Z) := match (next_outbound 5 nine (100 * SECOND) sample_live).2 with Ok o => o | _ => None end.
Definition sample_left : World := (apply (PeerDropped (seven 1)) sample_sent).1.
Lemma sample_plain port : is_u 16 port -> plain (seven port).
Proof. by split. Qed.
Lemma live_reachable (known : SocketAddr -> Prop) : known nine -> known (seven 1) -> reachable known sample_live.
Proof.
  intros H9 H7. unfold sample_live. cbn [run fold_left].
  repeat (apply reach_call; [|vm_compute; reflexivity|try done]). apply reach_new, sample_registry_ok.
Qed.
Lemma left_session : session sample_known 5 nine sample_left (read sample_bytes ∅).
Proof.
  apply session_call; [|vm_compute; reflexivity|done|done|vm_compute; by eexists].
  apply (session_send sample_known 5 nine sample_live ∅ (100 * SECOND) sample_sent sample_bytes (mkCursor 3 false None)); [|vm_compute; reflexivity|vm_compute; congruence|vm_compute; reflexivity].
  apply (session_start sample_known 5 nine sample_live (mkCursor 3 false None)); [|vm_compute; reflexivity|reflexivity].
  apply live_reachable; [by left|by right].
Qed.
Lemma sample_known_plain a : sample_known a -> plain a.
Proof. intros [->| ->]; by split. Qed.
Lemma sample_known_ips a b : sample_known a -> sample_known b -> ip_of a = ip_of b -> a = b.
Proof. intros [->| ->] [->| ->]; try done; intros E; vm_compute in E; discriminate. Qed.
Lemma connection_knows_live_peers_witness : exists w' o, next_outbound 5 nine (160 * SECOND) sample_left = (w', Ok o) /\ live (pex w') = live (pex sample_left) /\
  read o (read sample_bytes ∅) = dom (live (pex w')) ∖ {[nine]}.
Proof.
  refine (connection_knows_live_peers sample_known 5 nine sample_left (read sample_bytes ∅) (mkCursor 3 true (Some (100 * SECOND))) (160 * SECOND) sample_known_plain sample_known_ips left_session _ _ _ _);
    [vm_compute; reflexivity|vm_compute; congruence|vm_compute; reflexivity|intros _; vm_compute; congruence].
Defined.
(** 8.8.8.7 moves from port 1 to port 2. *)
Lemma moved_peer_refused_witness : exists w' bytes conflict, next_outbound 5 nine (160 * SECOND) (moved (seven 1) (seven 2) 0 sample_sent) = (w', Ok (Some bytes)) /\
  (receive 6 bytes (sample_context 0) sample_start).2 = Err (PE_Extension (EE_ConflictingContact conflict)).
Proof.
  destruct (moved_peer_refused sample_sent 5 nine (160 * SECOND) (mkCursor 3 true (Some (100 * SECOND))) (seven 1) (seven 2) 0) as (w' & bytes & conflict & E & H);
    [|vm_compute; reflexivity|reflexivity|vm_compute; reflexivity|vm_compute; congruence|vm_compute; by eexists|vm_compute; reflexivity|apply sample_plain; by split|reflexivity|vm_compute; congruence|vm_compute; congruence|vm_compute; reflexivity|].
  - apply (reach_call plain sample_live (NextOutbound 5 nine (100 * SECOND))); [|vm_compute; reflexivity|done]. apply live_reachable; [by split|by apply sample_plain].
  - exists w', bytes, conflict. split; [exact E|]. apply H; reflexivity.
Defined.
