(* ===== verification/SeedPolicy.v ===== *)
(** * Seeding goals and queue ranks (src/crates/rstorrent-session/src/seed_policy.rs)

    When a finished torrent has been seeded enough, how urgently it should be
    seeded compared with others, and when a torrent counts as inactive.  All
    counters are [u64] or [u32]; ratios are compared in [u128].

    The properties: the goals compare the exact ratios; a rank orders torrents
    first by unmet goals, then by the lack of other seeds, then by recency and
    demand, and fits 31 bits; activity changes only after a continuous minute
    of the opposite observation. *)
From S2P Require Import Prelude Ordered.
#[local] Open Scope Z_scope.

Definition DEFAULT_ACTIVE_SEEDS : Z := 5.
Definition DEFAULT_SHARE_RATIO_LIMIT_PERCENT : Z := 200.
Definition DEFAULT_FINISHED_DOWNLOAD_RATIO_LIMIT_PERCENT : Z := 700.
Definition DEFAULT_FINISHED_TIME_LIMIT_SECONDS : Z := 86400.
Definition HARD_ACTIVE_TORRENT_LIMIT : Z := 500.
Definition AUTO_MANAGE_INTERVAL_SECONDS : Z := 30.
Definition AUTO_MANAGE_STARTUP_SECONDS : Z := 60.
Definition INACTIVE_UPLOAD_RATE_BYTES_PER_SECOND : Z := 2048.
Definition INACTIVE_DOWNLOAD_RATE_BYTES_PER_SECOND : Z := 2048.
Definition RECENTLY_STARTED_ACTIVE_SECONDS : Z := 30 * 60.
Definition GOAL_UNMET_FLAG : Z := 0x40000000.
Definition NO_SEEDS_FLAG : Z := 0x20000000.
Definition RECENTLY_STARTED_FLAG : Z := 0x10000000.
Definition PRIORITY_MASK : Z := 0x0fffffff.

Inductive SeedPolicyError :=
| FinishedTimeExceedsActiveTime (active_seconds finished_seconds : Z)
| MonotonicTimeRegressed.

Record SeedGoalLimits := mkGoalLimits {
  share_ratio_limit_percent : Z;
  finished_download_ratio_limit_percent : Z;
  finished_time_limit_seconds : Z;
}.
Definition SeedGoalLimits_default : SeedGoalLimits :=
  mkGoalLimits DEFAULT_SHARE_RATIO_LIMIT_PERCENT DEFAULT_FINISHED_DOWNLOAD_RATIO_LIMIT_PERCENT DEFAULT_FINISHED_TIME_LIMIT_SECONDS.
Record SeedGoalInput := mkGoalInput {
  total_uploaded : Z;
  total_downloaded : Z;
  total_size : Z;
  active_seconds : Z;
  finished_seconds : Z;
}.
Record SeedGoalAssessment := mkAssessment {
  goal_unmet : bool;
  finished_time_met : bool;
  finished_download_ratio_met : bool;
  share_ratio_met : bool;
  downloaded_base : Z;
  download_seconds : Z;
}.
(** [u128] multiplication, which a checked build traps. *)
Definition mul128 {E} (a b : Z) : outcome E Z := expect (checked_mul 128 a b).
Definition assess_seed_goals (input : SeedGoalInput) (limits : SeedGoalLimits) : outcome SeedPolicyError SeedGoalAssessment :=
  download_seconds ← ok_or (checked_sub (active_seconds input) (finished_seconds input))
                       (FinishedTimeExceedsActiveTime (active_seconds input) (finished_seconds input));
  let downloaded_base := Z.max (total_downloaded input) (total_size input) in
  let finished_time_met := finished_time_limit_seconds limits <=? finished_seconds input in
  finished_download_ratio_met ←
    (if download_seconds <=? 1 then Ok true
     else
       left ← mul128 (finished_seconds input) 100;
       right ← mul128 download_seconds (finished_download_ratio_limit_percent limits);
       Ok (right <=? left));
  share_ratio_met ←
    (if downloaded_base =? 0 then Ok true
     else
       left ← mul128 (total_uploaded input) 100;
       right ← mul128 downloaded_base (share_ratio_limit_percent limits);
       Ok (right <=? left));
  Ok (mkAssessment (negb finished_time_met && negb finished_download_ratio_met && negb share_ratio_met)
        finished_time_met finished_download_ratio_met share_ratio_met downloaded_base download_seconds).

Record SeedStopLimits := mkStopLimits { share_ratio_percent : option Z; seeding_seconds : option Z }.
Inductive SeedStopReason := StopShareRatio | StopSeedingTime.
Definition seed_stop_reached (input : SeedGoalInput) (limits : SeedStopLimits) : outcome SeedPolicyError (option SeedStopReason) :=
  ratio ←
    match share_ratio_percent limits with
    | Some percent =>
      let base := Z.max (total_downloaded input) (total_size input) in
      left ← mul128 (total_uploaded input) 100;
      right ← mul128 base percent;
      Ok (right <=? left)
    | None => Ok false
    end;
  if ratio : bool then Ok (Some StopShareRatio)
  else
    match seeding_seconds limits with
    | Some seconds => if seconds <=? finished_seconds input then Ok (Some StopSeedingTime) else Ok None
    | None => Ok None
    end.

Record SeedRankInput := mkRankInput {
  selected_finished : bool;
  full_seed : bool;
  paused : bool;
  goals : SeedGoalInput;
  tracker_complete : option Z;
  tracker_incomplete : option Z;
  live_seeds : Z;
  live_peers : Z;
}.
(** The seeds and the downloaders a torrent has, this client not counted. *)
Definition seeds_of (input : SeedRankInput) : Z :=
  match tracker_complete input with
  | Some complete => saturating_sub complete (if full_seed input && negb (paused input) then 1 else 0)
  | None => live_seeds input
  end.
Definition downloaders_of (input : SeedRankInput) : Z :=
  match tracker_incomplete input with
  | Some incomplete => incomplete
  | None => saturating_sub (live_peers input) (live_seeds input)
  end.
Definition seed_rank (input : SeedRankInput) (limits : SeedGoalLimits) : outcome SeedPolicyError Z :=
  if negb (selected_finished input) then Ok 0
  else
    assessment ← assess_seed_goals (goals input) limits;
    let rank := if goal_unmet assessment then Z.lor 0 GOAL_UNMET_FLAG else 0 in
    let rank := if negb (paused input) && (active_seconds (goals input) <? RECENTLY_STARTED_ACTIVE_SECONDS)
                then Z.lor rank RECENTLY_STARTED_FLAG else rank in
    let seeds := seeds_of input in
    let downloaders := downloaders_of input in
    '(rank, demand) ←
      (if seeds =? 0 then Ok (Z.lor rank NO_SEEDS_FLAG, Z.land downloaders PRIORITY_MASK)
       else
         let scale := if full_seed input then 1000 else 500 in
         let score := (downloaders + 1) * scale / seeds in
         demand ← expect (try_u 32 (Z.land score PRIORITY_MASK));
         Ok (rank, demand));
    Ok (Z.lor rank demand).

Definition rate_is_inactive (selected_finished : bool) (upload_payload_rate download_payload_rate : Z) : bool :=
  if selected_finished then upload_payload_rate <? INACTIVE_UPLOAD_RATE_BYTES_PER_SECOND
  else download_payload_rate <? INACTIVE_DOWNLOAD_RATE_BYTES_PER_SECOND.

(** ** Inactivity *)
Inductive InactivityTransition := BecameInactive | BecameActive.
Record PendingInactivityChange := mkPending { target_inactive : bool; observed_at_seconds : Z }.
Record InactivityState := mkInactivity {
  inactive : bool;
  pending : option PendingInactivityChange;
  last_observed_seconds : option Z;
}.
Definition InactivityState_default : InactivityState := mkInactivity false None None.
Definition method := M InactivityState SeedPolicyError.
Definition set_pending p s := mkInactivity (inactive s) p (last_observed_seconds s).
Definition set_last_observed t s := mkInactivity (inactive s) (pending s) (Some t).
Definition observe (now : Z) (observed : bool) : method (option InactivityTransition) :=
  s ← get;
  if match last_observed_seconds s with Some last => now <? last | None => false end then fail MonotonicTimeRegressed
  else
    modify (set_last_observed now);;
    if Bool.eqb observed (inactive s) then modify (set_pending None);; mret None
    else
      match pending s with
      | Some p =>
        if Bool.eqb (target_inactive p) observed then
          waited ← lift (expect (checked_sub now (observed_at_seconds p)));
          if waited <? AUTO_MANAGE_STARTUP_SECONDS then mret None
          else
            modify (fun s => mkInactivity observed None (last_observed_seconds s));;
            mret (Some (if observed then BecameInactive else BecameActive))
        else modify (set_pending (Some (mkPending observed now)));; mret None
      | None => modify (set_pending (Some (mkPending observed now)));; mret None
      end.

(** * Specification *)
Definition goal_input_typed (i : SeedGoalInput) : Prop :=
  is_u 64 (total_uploaded i) /\ is_u 64 (total_downloaded i) /\ is_u 64 (total_size i) /\ is_u 64 (active_seconds i) /\ is_u 64 (finished_seconds i).
Definition goal_limits_typed (l : SeedGoalLimits) : Prop :=
  is_u 32 (share_ratio_limit_percent l) /\ is_u 32 (finished_download_ratio_limit_percent l) /\ is_u 32 (finished_time_limit_seconds l).
Definition option_u32 (o : option Z) : Prop := match o with Some x => is_u 32 x | None => True end.
Definition rank_input_typed (i : SeedRankInput) : Prop :=
  goal_input_typed (goals i) /\ option_u32 (tracker_complete i) /\ option_u32 (tracker_incomplete i) /\ is_u 32 (live_seeds i) /\ is_u 32 (live_peers i).

(** What a rank is made of. *)
Definition unmet_goals (i : SeedGoalInput) (l : SeedGoalLimits) : bool :=
  let downloading := active_seconds i - finished_seconds i in
  let base := Z.max (total_downloaded i) (total_size i) in
  (finished_seconds i <? finished_time_limit_seconds l)
  && ((1 <? downloading) && (finished_seconds i * 100 <? downloading * finished_download_ratio_limit_percent l))
  && ((0 <? base) && (total_uploaded i * 100 <? base * share_ratio_limit_percent l)).
Definition recently_started (i : SeedRankInput) : bool :=
  negb (paused i) && (active_seconds (goals i) <? RECENTLY_STARTED_ACTIVE_SECONDS).
Definition demand_of (i : SeedRankInput) : Z :=
  if seeds_of i =? 0 then downloaders_of i
  else (downloaders_of i + 1) * (if full_seed i then 1000 else 500) / seeds_of i.
(** The rank as a list of digits, the most important first. *)
Definition rank_digits (i : SeedRankInput) (l : SeedGoalLimits) : list Z :=
  [Z.b2z (unmet_goals (goals i) l); Z.b2z (seeds_of i =? 0); Z.b2z (recently_started i); demand_of i mod 2 ^ 28].

(** * Lemmas *)
Lemma checked_mul_u64 a b : is_u 64 a -> is_u 32 b \/ b = 100 -> checked_mul 128 a b = Some (a * b).
Proof.
  unfold is_u. intros Ha Hb. apply checked_mul_fits. change (2 ^ 64) with 18446744073709551616 in *. change (2 ^ 32) with 4294967296 in *.
  change (2 ^ 128) with 340282366920938463463374607431768211456. nia.
Qed.
Lemma assess_ok i l : goal_input_typed i -> goal_limits_typed l -> finished_seconds i <= active_seconds i ->
  assess_seed_goals i l = Ok (mkAssessment (unmet_goals i l)
    (finished_time_limit_seconds l <=? finished_seconds i)
    (negb ((1 <? active_seconds i - finished_seconds i)
           && (finished_seconds i * 100 <? (active_seconds i - finished_seconds i) * finished_download_ratio_limit_percent l)))
    (negb ((0 <? Z.max (total_downloaded i) (total_size i))
           && (total_uploaded i * 100 <? Z.max (total_downloaded i) (total_size i) * share_ratio_limit_percent l)))
    (Z.max (total_downloaded i) (total_size i)) (active_seconds i - finished_seconds i)).
Proof.
  intros (Hu & Hd & Hs & Ha & Hf) (Hr & Hdr & Ht) Hle. unfold assess_seed_goals, mul128. rewrite checked_sub_fits by done. cbn [ok_or]. rewrite ok_bind.
  set (dl := active_seconds i - finished_seconds i). set (base := Z.max (total_downloaded i) (total_size i)).
  assert (is_u 64 dl) as Hdl by (unfold is_u, dl in *; lia). assert (is_u 64 base) as Hbase by (unfold is_u, base in *; lia).
  rewrite !checked_mul_u64 by auto. cbn [expect]. rewrite !ok_bind. unfold unmet_goals. fold dl base.
  assert ((if dl <=? 1 then Ok true else Ok (dl * finished_download_ratio_limit_percent l <=? finished_seconds i * 100))
    = Ok (E := SeedPolicyError) (negb ((1 <? dl) && (finished_seconds i * 100 <? dl * finished_download_ratio_limit_percent l)))) as ->.
  { rewrite (Z.ltb_antisym dl 1). destruct (dl <=? 1); [done|]. cbn [negb andb]. by rewrite Z.ltb_antisym, negb_involutive. }
  rewrite ok_bind.
  assert ((if base =? 0 then Ok true else Ok (base * share_ratio_limit_percent l <=? total_uploaded i * 100))
    = Ok (E := SeedPolicyError) (negb ((0 <? base) && (total_uploaded i * 100 <? base * share_ratio_limit_percent l)))) as ->.
  { unfold is_u in Hbase. destruct (Z.eqb_spec base 0) as [->|]; [done|]. rewrite (proj2 (Z.ltb_lt 0 base)) by lia. cbn [andb].
    by rewrite Z.ltb_antisym, negb_involutive. }
  rewrite ok_bind. do 2 f_equal. by rewrite !negb_involutive, (Z.ltb_antisym (finished_time_limit_seconds l)).
Qed.
Lemma lor_digits hi lo : 0 <= lo < 2 ^ 28 -> Z.lor (hi * 2 ^ 28) lo = hi * 2 ^ 28 + lo.
Proof.
  intros Hlo. rewrite <- (Z.add_lor_land (hi * 2 ^ 28) lo). assert (Z.land (hi * 2 ^ 28) lo = 0) as ->; [|lia].
  apply Z.bits_inj'. intros n Hn. rewrite Z.land_spec, Z.bits_0. destruct (Z.lt_ge_cases n 28).
  - by rewrite Z.mul_pow2_bits_low.
  - rewrite (Z.bits_above_log2 lo), andb_false_r; [done|lia|]. destruct (Z.eq_dec lo 0) as [->|]; [cbn; lia|].
    apply Z.log2_lt_pow2; [lia|]. assert (2 ^ 28 <= 2 ^ n) by (apply Z.pow_le_mono_r; lia). lia.
Qed.
Lemma mask_mod x : Z.land x PRIORITY_MASK = x mod 2 ^ 28.
Proof. by apply (Z.land_ones x 28). Qed.
Definition rank_number (unmet noseeds recent : bool) (demand : Z) : Z :=
  (4 * Z.b2z unmet + 2 * Z.b2z noseeds + Z.b2z recent) * 2 ^ 28 + demand.
Lemma seed_rank_ok i l : rank_input_typed i -> goal_limits_typed l -> selected_finished i = true -> finished_seconds (goals i) <= active_seconds (goals i) ->
  seed_rank i l = Ok (rank_number (unmet_goals (goals i) l) (seeds_of i =? 0) (recently_started i) (demand_of i mod 2 ^ 28)).
Proof.
  intros (Hg & Hc & Hinc & Hls & Hlp) Hl Hsel Hle. unfold seed_rank. rewrite Hsel. cbn [negb]. rewrite (assess_ok _ _ Hg Hl Hle), ok_bind. cbn [goal_unmet].
  fold (recently_started i). unfold demand_of. pose proof (Z.mod_pos_bound (downloaders_of i) (2 ^ 28) ltac:(done)) as Hmod.
  destruct (seeds_of i =? 0).
  - rewrite ok_bind, mask_mod. f_equal. unfold rank_number. rewrite <- lor_digits by done. f_equal.
    by destruct (unmet_goals (goals i) l), (recently_started i).
  - rewrite mask_mod. set (score := (_ + 1) * _ / _). pose proof (Z.mod_pos_bound score (2 ^ 28) ltac:(done)) as Hs.
    rewrite try_u_fits by (change (2 ^ 32) with 4294967296; change (2 ^ 28) with 268435456 in *; lia). cbn [expect]. rewrite !ok_bind. f_equal.
    unfold rank_number. rewrite <- lor_digits by done. f_equal. by destruct (unmet_goals (goals i) l), (recently_started i).
Qed.
Lemma rank_number_compare u1 n1 r1 d1 u2 n2 r2 d2 : 0 <= d1 < 2 ^ 28 -> 0 <= d2 < 2 ^ 28 ->
  Z.compare (rank_number u1 n1 r1 d1) (rank_number u2 n2 r2 d2)
  = lex [Z.b2z u1; Z.b2z n1; Z.b2z r1; d1] [Z.b2z u2; Z.b2z n2; Z.b2z r2; d2].
Proof.
  unfold rank_number. change (2 ^ 28) with 268435456. intros H1 H2. cbn [lex].
  assert (forall x y, then_with (Z.compare x y) Eq = Z.compare x y) as Hlast by (intros x y; by destruct (Z.compare x y)). rewrite Hlast.
  destruct (Z.compare_spec d1 d2) as [E|E|E];
    destruct u1, u2, n1, n2, r1, r2; cbn [Z.b2z Z.compare then_with Pos.compare Pos.compare_cont]; try (apply Z.compare_eq_iff; lia); try (apply Z.compare_lt_iff; lia); try (apply Z.compare_gt_iff; lia).
Qed.

(** ** Inactivity *)

(** The observations, the newest first: the time of the oldest one of the
    current run of observations that differ from [b]. *)
Fixpoint streak (b : bool) (history : list (Z * bool)) : option Z :=
  match history with
  | [] => None
  | (t, o) :: h => if Bool.eqb o b then None else Some (default t (streak b h))
  end.
(** The state after a history; the observations that came with a time before
    the last one were refused. *)
Inductive observed : list (Z * bool) -> InactivityState -> Prop :=
| observed_none : observed [] InactivityState_default
| observed_one h s now o : observed h s -> is_u 64 now -> (forall t, last_observed_seconds s = Some t -> t <= now) ->
    observed ((now, o) :: h) (fst (observe now o s)).
Definition settles (now : Z) (o : bool) (h : list (Z * bool)) (s : InactivityState) : bool :=
  match streak (inactive s) ((now, o) :: h) with Some start => AUTO_MANAGE_STARTUP_SECONDS <=? now - start | None => false end.
Record observed_ok (h : list (Z * bool)) (s : InactivityState) : Prop := {
  oo_last : last_observed_seconds s = fst <$> head h;
  oo_pending : pending s = (fun t => mkPending (negb (inactive s)) t) <$> streak (inactive s) h;
  oo_times t : streak (inactive s) h = Some t -> exists last, last_observed_seconds s = Some last /\ t <= last;
}.
Lemma observe_ok h s now o : observed_ok h s -> (forall t, last_observed_seconds s = Some t -> t <= now) ->
  exists s', observe now o s = (s', Ok (if settles now o h s then Some (if o then BecameInactive else BecameActive) else None))
    /\ observed_ok ((now, o) :: h) s' /\ inactive s' = (if settles now o h s then o else inactive s).
Proof.
  intros [Hl Hp Ht] Hnow. unfold observe. rewrite get_bind.
  assert ((match last_observed_seconds s with Some last => now <? last | None => false end) = false) as ->.
  { destruct (last_observed_seconds s) as [t|]; [|done]. apply Z.ltb_ge. by apply Hnow. }
  unfold settles. cbn [streak]. rewrite modify_bind.
  destruct (Bool.eqb o (inactive s)) eqn:Eo.
  - eexists. split; [reflexivity|]. split; [|done]. split; cbn; rewrite ?Eo; done.
  - apply eqb_false_iff in Eo. assert (o = negb (inactive s)) as Eo' by (by destruct o, (inactive s)).
    rewrite Hp. destruct (streak (inactive s) h) as [t|] eqn:Es; cbn [fmap option_fmap option_map default].
    + cbn [target_inactive observed_at_seconds]. rewrite <- Eo', eqb_reflx. destruct (Ht t eq_refl) as (last & El & Hle). specialize (Hnow last El).
      rewrite checked_sub_fits by lia. cbn [expect]. rewrite lift_ok_bind. unfold id. rewrite (Z.leb_antisym (now - t)).
      destruct (now - t <? AUTO_MANAGE_STARTUP_SECONDS); cbn [negb].
      * eexists. split; [reflexivity|]. split; [|done]. split; cbn; rewrite ?Eo', ?Es, ?eqb_negb1; try done.
        intros t0 [= <-]. exists now. split; [done|]. cbn. unfold id. lia.
      * eexists. split; [reflexivity|]. split; [|done]. split; cbn; rewrite ?eqb_reflx; done.
    + rewrite Z.sub_diag. cbn [Z.leb Z.compare AUTO_MANAGE_STARTUP_SECONDS].
      eexists. split; [reflexivity|]. split; [|done]. split; cbn; [done| |].
      * by rewrite Eo', eqb_negb1, Es.
      * rewrite Eo', eqb_negb1, Es. intros t0 [= <-]. exists now. split; [done|]. cbn. lia.
Qed.
Lemma observed_state h s : observed h s -> observed_ok h s /\ StronglySorted (fun a b => b.1 <= a.1) h.
Proof.
  induction 1 as [|h s now o _ [IH Hsort] Hu Hnow].
  - split; [split; [done..|by intros t [=]]|constructor].
  - destruct (observe_ok h s now o IH Hnow) as (s' & -> & Hok & _). split; [done|]. constructor; [done|].
    destruct h as [|[t b] h]; [constructor|]. pose proof (oo_last _ _ IH) as El. cbn in El. specialize (Hnow t El).
    apply StronglySorted_inv in Hsort as [_ Ht]. constructor; [done|]. eapply Forall_impl; [exact Ht|]. intros x Hx. cbn in *. lia.
Qed.
Lemma streak_run b h start : StronglySorted (fun a b => b.1 <= a.1) h -> streak b h = Some start ->
  (start, negb b) ∈ h /\ forall t o, (t, o) ∈ h -> start < t -> o = negb b.
Proof.
  intros Hs. revert start. induction Hs as [|[t o] h Hs IH Ht]; intros start; cbn [streak]; [done|].
  destruct (Bool.eqb o b) eqn:Eo; [done|]. apply eqb_false_iff in Eo. assert (o = negb b) as -> by (by destruct o, b).
  rewrite Forall_forall in Ht. destruct (streak b h) as [x|] eqn:Ex; cbn [default]; intros [= <-].
  - destruct (IH x eq_refl) as [Hin Hall]. split; [by apply list_elem_of_further|]. unfold id.
    intros t' o' [[= -> ->]|Hin']%elem_of_cons Hlt; [done|]. by apply (Hall t').
  - split; [apply list_elem_of_here|]. intros t' o' [[= -> ->]|Hin']%elem_of_cons Hlt; [done|]. specialize (Ht _ Hin'). cbn in Ht. lia.
Qed.

(** * Properties *)

(** The rank of a finished torrent orders torrents by four criteria, one
    after the other: an unmet seeding goal (none of finished time, time ratio
    and share ratio reached, compared exactly), no other seed, started within
    half an hour, and the demand per seed modulo 2^28.  The computation
    neither overflows nor panics, and a rank fits in 31 bits. *)
Theorem seed_rank_order i j limits : rank_input_typed i -> rank_input_typed j -> goal_limits_typed limits ->
  selected_finished i = true -> selected_finished j = true ->
  finished_seconds (goals i) <= active_seconds (goals i) -> finished_seconds (goals j) <= active_seconds (goals j) ->
  exists ri rj, seed_rank i limits = Ok ri /\ seed_rank j limits = Ok rj /\ 0 <= ri < 2 ^ 31
    /\ Z.compare ri rj = lex (rank_digits i limits) (rank_digits j limits)
    /\ (demand_of i < 2 ^ 28 -> 0 <= demand_of i -> ri mod 2 ^ 28 = demand_of i).
Proof.
  intros Hi Hj Hl Si Sj Fi Fj. eexists _, _. split; [by apply seed_rank_ok|]. split; [by apply seed_rank_ok|].
  pose proof (Z.mod_pos_bound (demand_of i) (2 ^ 28) ltac:(done)) as Mi. pose proof (Z.mod_pos_bound (demand_of j) (2 ^ 28) ltac:(done)) as Mj.
  split; [unfold rank_number; change (2 ^ 28) with 268435456 in *; change (2 ^ 31) with 2147483648;
    destruct (unmet_goals (goals i) limits), (seeds_of i =? 0), (recently_started i); cbn [Z.b2z]; lia|].
  split; [by apply rank_number_compare|]. intros Hd H0. unfold rank_number. rewrite Z.add_comm, Z.mod_add by done. by rewrite !Z.mod_small.
Qed.

(** A torrent's activity changes only after a full minute of the opposite
    observation: in any history of observations in order of time, the state
    changes to [o] exactly when the current run of observations [o], all
    against the state, began at least [AUTO_MANAGE_STARTUP_SECONDS] ago; every
    observation since then was [o].  Time running backwards is refused and
    changes nothing. *)
Theorem inactivity_debounced h s now o : observed h s ->
  ((exists t, last_observed_seconds s = Some t /\ now < t) -> observe now o s = (s, Err MonotonicTimeRegressed))
  /\ ((forall t, last_observed_seconds s = Some t -> t <= now) ->
      let changes := settles now o h s in
      observe now o s = (fst (observe now o s), Ok (if changes then Some (if o then BecameInactive else BecameActive) else None))
      /\ inactive (fst (observe now o s)) = (if changes then o else inactive s)
      /\ (changes = true -> inactive s = negb o /\ exists start, (start, o) ∈ h /\ AUTO_MANAGE_STARTUP_SECONDS <= now - start
            /\ forall t b, (t, b) ∈ h -> start < t -> b = o)).
Proof.
  intros H. destruct (observed_state h s H) as [Hok Hsort]. split.
  - intros (t & Et & Hlt). unfold observe. rewrite get_bind, Et. by rewrite (proj2 (Z.ltb_lt _ _) Hlt).
  - intros Hnow changes. destruct (observe_ok h s now o Hok Hnow) as (s' & E & _ & Ei). rewrite E. cbn [fst]. fold changes in Ei |- *.
    split; [done|]. split; [done|]. intros Hc. unfold changes, settles in Hc. cbn [streak] in Hc.
    destruct (Bool.eqb o (inactive s)) eqn:Eo; [done|]. apply eqb_false_iff in Eo. assert (inactive s = negb o) as Es by (by destruct o, (inactive s)).
    split; [done|]. apply Z.leb_le in Hc. destruct (streak (inactive s) h) as [start|] eqn:Est; cbn [default] in Hc; [|unfold AUTO_MANAGE_STARTUP_SECONDS in Hc; lia].
    unfold id in Hc. destruct (streak_run _ _ _ Hsort Est) as [Hin Hall]. rewrite Es, negb_involutive in *. exists start. split_and!; done.
Qed.

(** * Witnesses *)
Definition sample_goals : SeedGoalInput := mkGoalInput 100 1000 1000 5000 10.
Definition sample_rank (seeds downloaders : Z) : SeedRankInput := mkRankInput true true false sample_goals (Some seeds) (Some downloaders) 0 0.
Lemma seed_rank_order_witness : exists ri rj, seed_rank (sample_rank 3 10) SeedGoalLimits_default = Ok ri
  /\ seed_rank (sample_rank 2 4) SeedGoalLimits_default = Ok rj /\ Z.compare ri rj = Gt.
Proof.
  destruct (seed_rank_order (sample_rank 3 10) (sample_rank 2 4) SeedGoalLimits_default) as (ri & rj & E1 & E2 & _ & E3 & _);
    [vm_compute; split_and!; congruence|vm_compute; split_and!; congruence|vm_compute; split_and!; congruence|done|done|cbn; lia|cbn; lia|].
  exists ri, rj. split; [done|]. split; [done|]. rewrite E3. vm_compute. exact eq_refl.
Defined.
Definition sample_inactivity : InactivityState := fst (observe 10 true InactivityState_default).
Lemma inactivity_debounced_witness : snd (observe 70 true sample_inactivity) = Ok (Some BecameInactive) /\ snd (observe 69 true sample_inactivity) = Ok None.
Proof.
  assert (observed [(10, true)] sample_inactivity) as H by (apply observed_one; [apply observed_none|by vm_compute|done]).
  destruct (inactivity_debounced [(10, true)] sample_inactivity 70 true H) as [_ H1]. destruct (inactivity_debounced [(10, true)] sample_inactivity 69 true H) as [_ H2].
  destruct H1 as [E1 _]; [intros t [= <-]; lia|]. destruct H2 as [E2 _]; [intros t [= <-]; lia|]. rewrite E1, E2. vm_compute. split; exact eq_refl.
Defined.
