(* ===== verification/AutoManager.v ===== *)
(** * Automatic admission of torrents (src/crates/rstorrent-session/src/auto_manager.rs)

    Which torrents run: active downloads are kept first, then queued downloads
    in the order of the queue, then seeds by rank, within a limit per type and
    a hard limit on all.  An identifier is the bytes of its [String]; slices
    are sorted by comparators that end with the identifier, so an unstable
    sort of torrents with distinct identifiers has one result.

    The property: the decisions are the greedy admission by these priorities;
    no limit is passed, no admissible torrent is left out while its limits
    have room, nothing running is replaced by something queued. *)
From S2P Require Import Prelude Ordered.
#[local] Open Scope Z_scope.

Abbreviation TorrentIdText := (list Z).
Definition i64_MAX : Z := 2 ^ 63 - 1.

Inductive TorrentAdmissionKind := Download (queue_position : option Z) | Seed (rank : Z).
Record TorrentAdmissionState := mkTorrent {
  torrent_id : TorrentIdText;
  desired_running : bool;
  checking : bool;
  blocked : bool;
  kind : TorrentAdmissionKind;
  active_generation : option Z;
  inactive : bool;
}.
Definition eligible (t : TorrentAdmissionState) : bool :=
  desired_running t && negb (checking t) && negb (blocked t)
  && match kind t with
     | Download queue_position => bool_decide (is_Some queue_position)
     | Seed _ => true
     end.
Definition is_download (t : TorrentAdmissionState) : bool := match kind t with Download _ => true | Seed _ => false end.
Definition is_active (t : TorrentAdmissionState) : bool := bool_decide (is_Some (active_generation t)).
(** The key of a download; the code calls it for downloads only. *)
Definition download_position (t : TorrentAdmissionState) : Z :=
  match kind t with Download queue_position => default i64_MAX queue_position | Seed _ => i64_MAX end.
Definition download_order (a b : TorrentAdmissionState) : comparison :=
  then_with (Z.compare (download_position a) (download_position b)) (lex (torrent_id a) (torrent_id b)).
Definition rank_of (t : TorrentAdmissionState) : Z := match kind t with Seed rank => rank | Download _ => 0 end.
Definition seed_order (a b : TorrentAdmissionState) : comparison :=
  then_with (Z.compare (rank_of b) (rank_of a)) (lex (torrent_id a) (torrent_id b)).

Inductive TorrentAdmissionType := TypeDownload | TypeSeed.
Definition admission_type (t : TorrentAdmissionState) : TorrentAdmissionType :=
  match kind t with Download _ => TypeDownload | Seed _ => TypeSeed end.
Inductive AdmissionStopReason := Ineligible | Capacity.
Inductive AdmissionAction :=
| Start
| Retain (generation : Z)
| Stop (generation : Z) (reason : AdmissionStopReason)
| Idle.
Record TorrentAdmissionDecision := mkDecision {
  decision_torrent_id : TorrentIdText;
  decision_type : TorrentAdmissionType;
  action : AdmissionAction;
}.

(** The state of the loops: the winners, what is left of the hard limit, and
    of the limit of the type. *)
Record Slots := mkSlots { winners : gset TorrentIdText; hard_remaining : Z; type_slots : Z }.
Definition admit_winner (t : TorrentAdmissionState) (exempt : bool) (s : Slots) : Slots :=
  mkSlots ({[torrent_id t]} ∪ winners s) (hard_remaining s - 1) (if exempt then type_slots s else type_slots s - 1).
Fixpoint active_loop (l : list TorrentAdmissionState) (s : Slots) : Slots :=
  match l with
  | [] => s
  | t :: l =>
    if hard_remaining s =? 0 then s
    else if inactive t || negb (type_slots s =? 0) then active_loop l (admit_winner t (inactive t) s)
    else active_loop l s
  end.
Fixpoint queued_loop (l : list TorrentAdmissionState) (s : Slots) : Slots :=
  match l with
  | [] => s
  | t :: l => if (hard_remaining s =? 0) || (type_slots s =? 0) then s else queued_loop l (admit_winner t false s)
  end.
Definition seed_exempt (t : TorrentAdmissionState) : bool := is_active t && inactive t.
Fixpoint seed_loop (l : list TorrentAdmissionState) (s : Slots) : Slots :=
  match l with
  | [] => s
  | t :: l =>
    if hard_remaining s =? 0 then s
    else if seed_exempt t || negb (type_slots s =? 0) then seed_loop l (admit_winner t (seed_exempt t) s)
    else seed_loop l s
  end.
Definition active_downloads (torrents : list TorrentAdmissionState) : list TorrentAdmissionState :=
  sort_by download_order (filter (fun t => eligible t && is_download t && is_active t = true) torrents).
Definition queued_downloads (torrents : list TorrentAdmissionState) : list TorrentAdmissionState :=
  sort_by download_order (filter (fun t => eligible t && is_download t && negb (is_active t) = true) torrents).
Definition seeds (torrents : list TorrentAdmissionState) : list TorrentAdmissionState :=
  sort_by seed_order (filter (fun t => eligible t && negb (is_download t) = true) torrents).
Definition decide_action (wins : bool) (t : TorrentAdmissionState) : AdmissionAction :=
  match active_generation t with
  | Some generation =>
    if wins then Retain generation else Stop generation (if eligible t then Capacity else Ineligible)
  | None => if wins then Start else Idle
  end.
Definition final_winners (torrents : list TorrentAdmissionState) (download_limit seed_limit hard_limit : Z) : gset TorrentIdText :=
  let s := active_loop (active_downloads torrents) (mkSlots ∅ hard_limit download_limit) in
  let s := queued_loop (queued_downloads torrents) s in
  winners (seed_loop (seeds torrents) (mkSlots (winners s) (hard_remaining s) seed_limit)).
Definition reconcile (torrents : list TorrentAdmissionState) (download_limit seed_limit hard_limit : Z) : list TorrentAdmissionDecision :=
  let winners := final_winners torrents download_limit seed_limit hard_limit in
  map (fun t => mkDecision (torrent_id t) (admission_type t) (decide_action (bool_decide (torrent_id t ∈ winners)) t)) torrents.

(** * Specification *)

(** The torrents that run after the decisions. *)
Definition runs (decisions : list TorrentAdmissionDecision) (t : TorrentAdmissionState) : bool :=
  existsb (fun d => bool_decide (decision_torrent_id d = torrent_id t) && match action d with Start | Retain _ => true | _ => false end) decisions.
Definition count (P : TorrentAdmissionState -> bool) (l : list TorrentAdmissionState) : Z := len (filter (fun t => P t = true) l).
(** Who uses a slot of the type: an inactive download or seed that is already
    running does not. *)
Definition counted (t : TorrentAdmissionState) : bool := negb (is_active t && inactive t).
(** [a] is considered before [b]. *)
Definition before (a b : TorrentAdmissionState) : Prop :=
  match is_download a, is_download b with
  | true, true => if is_active a then if is_active b then download_order a b <> Gt else True
                  else if is_active b then False else download_order a b <> Gt
  | true, false => True
  | false, true => False
  | false, false => seed_order a b <> Gt
  end.

(** * Lemmas *)

(** ** One greedy loop *)
Fixpoint greedy (l : list TorrentAdmissionState) (s : Slots) : Slots :=
  match l with
  | [] => s
  | t :: l =>
    if hard_remaining s =? 0 then greedy l s
    else if negb (counted t) || negb (type_slots s =? 0) then greedy l (admit_winner t (negb (counted t)) s)
    else greedy l s
  end.
Lemma greedy_full l s : hard_remaining s = 0 -> greedy l s = s.
Proof. intros E. induction l as [|t l IH]; [done|]. cbn [greedy]. by rewrite E. Qed.
Lemma greedy_no_slots l s : type_slots s = 0 -> Forall (fun t => counted t = true) l -> greedy l s = s.
Proof. intros E. induction 1 as [|t l Ht _ IH]; [done|]. cbn [greedy]. rewrite Ht, E, IH. by destruct (_ =? 0). Qed.
Lemma active_greedy l : Forall (fun t => is_active t = true) l -> forall s, active_loop l s = greedy l s.
Proof.
  induction 1 as [|t l Ht _ IH]; intros s; [done|]. cbn [active_loop greedy]. unfold counted. rewrite Ht, negb_involutive. cbn [andb].
  destruct (Z.eqb_spec (hard_remaining s) 0) as [E|]; [by rewrite greedy_full|]. by rewrite !IH.
Qed.
Lemma queued_greedy l : Forall (fun t => is_active t = false) l -> forall s, queued_loop l s = greedy l s.
Proof.
  induction 1 as [|t l Ht Hl IH]; intros s; [done|]. cbn [queued_loop greedy]. unfold counted. rewrite Ht. cbn [negb andb orb].
  destruct (Z.eqb_spec (hard_remaining s) 0) as [E|]; [by rewrite greedy_full|]. cbn [orb].
  destruct (Z.eqb_spec (type_slots s) 0) as [E|]; cbn [negb]; [|apply IH]. rewrite greedy_no_slots; [done..|].
  eapply Forall_impl; [exact Hl|]. intros x Hx. unfold counted. cbn in Hx. by rewrite Hx.
Qed.
Lemma seed_greedy l : forall s, seed_loop l s = greedy l s.
Proof.
  induction l as [|t l IH]; intros s; [done|]. cbn [seed_loop greedy]. unfold counted, seed_exempt. rewrite negb_involutive.
  destruct (Z.eqb_spec (hard_remaining s) 0) as [E|]; [by rewrite greedy_full|]. by rewrite !IH.
Qed.
Lemma greedy_app l k s : greedy (l ++ k) s = greedy k (greedy l s).
Proof. revert s. induction l as [|t l IH]; intros s; [done|]. cbn [app greedy]. destruct (_ =? 0); [apply IH|]. destruct (_ || _); apply IH. Qed.

Lemma count_cons P t l : count P (t :: l) = (if P t then 1 else 0) + count P l.
Proof. unfold count. rewrite filter_cons. destruct (P t) eqn:E; case_decide; try done; by rewrite ?len_cons. Qed.
Lemma admitted_count_nonneg P l : 0 <= count P l.
Proof. apply len_nonneg. Qed.
Lemma count_perm P l k : l ≡ₚ k -> count P l = count P k.
Proof. intros H. unfold count, len. by rewrite H. Qed.
Lemma count_app P l k : count P (l ++ k) = count P l + count P k.
Proof. unfold count. by rewrite filter_app, len_app. Qed.
Lemma count_none P l : Forall (fun t => P t = false) l -> count P l = 0.
Proof. induction 1 as [|t l Ht _ IH]; [done|]. by rewrite count_cons, Ht, IH. Qed.
Lemma count_all P l : Forall (fun t => P t = true) l -> count P l = len l.
Proof. induction 1 as [|t l Ht _ IH]; [done|]. by rewrite count_cons, Ht, IH, len_cons. Qed.
Lemma admitted_count_ext P Q l : Forall (fun t => P t = Q t) l -> count P l = count Q l.
Proof. induction 1 as [|t l Ht _ IH]; [done|]. by rewrite !count_cons, Ht, IH. Qed.

(** What a loop admits: [W], in the order of the list. *)
Record admits (l : list TorrentAdmissionState) (s : Slots) (W : list TorrentAdmissionState) (s' : Slots) : Prop := {
  ad_sublist : sublist W l;
  ad_winners : winners s' = list_to_set (map torrent_id W) ∪ winners s;
  ad_hard : hard_remaining s' = hard_remaining s - len W /\ 0 <= hard_remaining s';
  ad_type : type_slots s' = type_slots s - count counted W /\ 0 <= type_slots s';
  ad_all t : t ∈ l -> t ∈ W \/ hard_remaining s' = 0 \/ (counted t = true /\ type_slots s' = 0);
  ad_order l1 a l2 b : l = l1 ++ a :: l2 -> b ∈ l2 -> b ∈ W -> a ∉ W -> counted a = true /\ counted b = false;
}.
Lemma greedy_admits l : NoDup l -> forall s, 0 <= hard_remaining s -> 0 <= type_slots s -> exists W, admits l s W (greedy l s).
Proof.
  induction 1 as [|t l Ht _ IH]; intros s Hh Hs; cbn [greedy].
  { exists []. split; try done; [set_solver|len_lia|change (count counted []) with 0; lia|by intros t []%not_elem_of_nil|by intros [|? ?] ? ? ? [=]]. }
  destruct (Z.eqb_spec (hard_remaining s) 0) as [E|Hn].
  { exists []. rewrite greedy_full by done. split; [apply sublist_nil_l|set_solver|len_lia|change (count counted []) with 0; lia|intros x _; right; by left|by intros l1 a l2 b _ _ []%not_elem_of_nil]. }
  destruct (negb (counted t) || negb (type_slots s =? 0)) eqn:E.
  - destruct (IH (admit_winner t (negb (counted t)) s)) as [W [H1 H2 H3 H4 H5 H6]]; [cbn; lia| |].
    { cbn. destruct (counted t); cbn [negb orb] in *; [|done]. apply negb_true_iff, Z.eqb_neq in E. lia. }
    exists (t :: W). cbn in H2, H3, H4. set (r := greedy l _) in *. split.
    + by constructor.
    + rewrite H2. cbn. set_solver.
    + rewrite len_cons. lia.
    + rewrite count_cons. destruct (counted t) eqn:Ect; rewrite ?Ect in H4; cbn [negb] in H4; lia.
    + intros x [->|Hx]%elem_of_cons; [left; apply list_elem_of_here|]. destruct (H5 x Hx) as [?|?]; [left; by apply list_elem_of_further|by right].
    + intros l1 a l2 b El Hb HbW Ha. destruct l1 as [|x l1]; cbn in El; injection El as <- El.
      * destruct Ha. apply list_elem_of_here.
      * apply (H6 l1 a l2 b); [done|done| |].
        -- apply elem_of_cons in HbW as [->|?]; [|done]. exfalso. apply Ht. rewrite El. apply elem_of_app. right. by apply list_elem_of_further.
        -- intros HaW. apply Ha. by apply list_elem_of_further.
  - apply orb_false_elim in E as [Ec%negb_false_iff Es%negb_false_iff%Z.eqb_eq].
    destruct (IH s Hh Hs) as [W [H1 H2 H3 H4 H5 H6]]. exists W. split; try done.
    + by constructor.
    + intros x [->|Hx]%elem_of_cons; [|by apply H5]. right. right. split; [done|]. pose proof (admitted_count_nonneg counted W). lia.
    + intros l1 a l2 b El Hb HbW Ha. destruct l1 as [|x l1]; cbn in El; injection El as <- El; [|by apply (H6 l1 a l2 b)].
      split; [done|]. destruct (counted b) eqn:Eb; [exfalso|done]. destruct H4 as [H4 H4'].
      assert (0 < count counted W); [|lia]. clear -HbW Eb. induction W as [|y W IH]; [by apply elem_of_nil in HbW|].
      rewrite count_cons. pose proof (admitted_count_nonneg counted W). apply elem_of_cons in HbW as [<-|HbW]; [rewrite Eb; lia|specialize (IH HbW); destruct (counted y); lia].
Qed.

(** ** The three loops together *)
#[export] Instance lawful_download : LawfulCmp download_order.
Proof. apply (lawful_then (fun a b => Z.compare (download_position a) (download_position b)) (fun a b => lex (torrent_id a) (torrent_id b))). Qed.
#[export] Instance lawful_seed : LawfulCmp seed_order.
Proof.
  assert (LawfulCmp (fun a b => Z.compare (rank_of b) (rank_of a))) by apply (lawful_rev (fun a b => Z.compare (rank_of a) (rank_of b))).
  apply (lawful_then (fun a b => Z.compare (rank_of b) (rank_of a)) (fun a b => lex (torrent_id a) (torrent_id b))).
Qed.
Lemma before_strict a b : torrent_id a <> torrent_id b -> (download_order a b <> Gt -> download_order a b = Lt) /\ (seed_order a b <> Gt -> seed_order a b = Lt).
Proof.
  intros Hne. split; intros H.
  - destruct (download_order a b) eqn:E; [|done..]. apply then_with_eq in E as [_ E%lex_eq]. done.
  - destruct (seed_order a b) eqn:E; [|done..]. apply then_with_eq in E as [_ E%lex_eq]. done.
Qed.
Section reconcile.
Context (torrents : list TorrentAdmissionState) (download_limit seed_limit hard_limit : Z).
Lemma elem_of_active t : t ∈ active_downloads torrents <-> t ∈ torrents /\ eligible t = true /\ is_download t = true /\ is_active t = true.
Proof. unfold active_downloads. rewrite elem_of_sort_by, list_elem_of_filter, !andb_true_iff. tauto. Qed.
Lemma elem_of_queued t : t ∈ queued_downloads torrents <-> t ∈ torrents /\ eligible t = true /\ is_download t = true /\ is_active t = false.
Proof. unfold queued_downloads. rewrite elem_of_sort_by, list_elem_of_filter, !andb_true_iff, negb_true_iff. tauto. Qed.
Lemma elem_of_seeds t : t ∈ seeds torrents <-> t ∈ torrents /\ eligible t = true /\ is_download t = false.
Proof. unfold seeds. rewrite elem_of_sort_by, list_elem_of_filter, !andb_true_iff, negb_true_iff. tauto. Qed.
Hypothesis distinct : NoDup (map torrent_id torrents).
Hypothesis limits : 0 <= download_limit /\ 0 <= seed_limit /\ 0 <= hard_limit.

Lemma same_id a b : a ∈ torrents -> b ∈ torrents -> torrent_id a = torrent_id b -> a = b.
Proof.
  intros Ha Hb E. apply list_elem_of_lookup in Ha as [i Hi]. apply list_elem_of_lookup in Hb as [j Hj].
  assert (i = j) as ->; [|congruence]. apply (NoDup_lookup (map torrent_id torrents) i j (torrent_id a) distinct).
  - change (map torrent_id torrents) with (torrent_id <$> torrents). by rewrite list_lookup_fmap, Hi.
  - change (map torrent_id torrents) with (torrent_id <$> torrents). rewrite list_lookup_fmap, Hj. cbn. by rewrite E.
Qed.
Lemma NoDup_torrents : NoDup torrents.
Proof. by apply NoDup_fmap_1 in distinct. Qed.

(** The admitted downloads [Wd] and seeds [Ws]. *)
Record outcome_of (Wd Ws : list TorrentAdmissionState) (h : Z) : Prop := {
  oc_downloads : exists s', admits (active_downloads torrents ++ queued_downloads torrents) (mkSlots ∅ hard_limit download_limit) Wd s' /\ hard_remaining s' = h;
  oc_seeds : exists s s', admits (seeds torrents) s Ws s' /\ hard_remaining s = h /\ type_slots s = seed_limit;
  oc_winners x : x ∈ final_winners torrents download_limit seed_limit hard_limit <-> exists t, torrent_id t = x /\ t ∈ Wd ++ Ws;
}.
Lemma reconcile_loops : exists Wd Ws h, outcome_of Wd Ws h.
Proof.
  assert (NoDup (active_downloads torrents ++ queued_downloads torrents)) as Hnd.
  { apply NoDup_app. split; [apply NoDup_sort_by, NoDup_filter, NoDup_torrents|]. split; [|apply NoDup_sort_by, NoDup_filter, NoDup_torrents].
    intros t (_ & _ & _ & E1)%elem_of_active (_ & _ & _ & E2)%elem_of_queued. congruence. }
  assert (NoDup (seeds torrents)) as Hns by apply NoDup_sort_by, NoDup_filter, NoDup_torrents.
  destruct (greedy_admits _ Hnd (mkSlots ∅ hard_limit download_limit)) as [Wd Hd]; [cbn; lia..|].
  set (s1 := greedy _ _) in Hd. pose proof (ad_hard _ _ _ _ Hd) as [_ Hh1].
  destruct (greedy_admits _ Hns (mkSlots (winners s1) (hard_remaining s1) seed_limit)) as [Ws Hs]; [cbn; lia..|].
  exists Wd, Ws, (hard_remaining s1). split; [by exists s1|by eexists _, _|]. intros x.
  assert (final_winners torrents download_limit seed_limit hard_limit = winners (greedy (seeds torrents) (mkSlots (winners s1) (hard_remaining s1) seed_limit))) as ->.
  { unfold final_winners. rewrite seed_greedy. rewrite active_greedy, queued_greedy, <- greedy_app; [done|..].
    - apply Forall_forall. by intros t (_ & _ & _ & ?)%elem_of_queued.
    - apply Forall_forall. by intros t (_ & _ & _ & ?)%elem_of_active. }
  rewrite (ad_winners _ _ _ _ Hs), (ad_winners _ _ _ _ Hd). cbn [winners]. rewrite !elem_of_union, !elem_of_list_to_set, elem_of_empty.
  setoid_rewrite elem_of_app. setoid_rewrite list_elem_of_fmap. naive_solver.
Qed.
Lemma runs_iff t : t ∈ torrents ->
  runs (reconcile torrents download_limit seed_limit hard_limit) t = bool_decide (torrent_id t ∈ final_winners torrents download_limit seed_limit hard_limit).
Proof.
  intros Ht. apply eq_bool_prop_intro. unfold runs. rewrite Is_true_true, existsb_exists, bool_decide_spec. unfold reconcile. split.
  - intros (d & (x & <- & Hx%list_elem_of_In)%in_map_iff & E). apply andb_true_iff in E as [E1%bool_decide_eq_true E2]. cbn in E1, E2.
    rewrite (same_id x t) in * by done. unfold decide_action in E2. by case_bool_decide; destruct (active_generation t).
  - intros Hw. eexists. split; [apply in_map, list_elem_of_In; exact Ht|]. cbn. rewrite bool_decide_eq_true_2 by done. cbn [andb].
    rewrite bool_decide_eq_true_2 by done. unfold decide_action. by destruct (active_generation t).
Qed.
Lemma runs_admitted Wd Ws h : outcome_of Wd Ws h ->
  (forall t, t ∈ Wd -> t ∈ torrents /\ eligible t = true /\ is_download t = true)
  /\ (forall t, t ∈ Ws -> t ∈ torrents /\ eligible t = true /\ is_download t = false)
  /\ (forall t, t ∈ torrents -> runs (reconcile torrents download_limit seed_limit hard_limit) t = true <-> t ∈ Wd ++ Ws)
  /\ filter (fun t => runs (reconcile torrents download_limit seed_limit hard_limit) t = true) torrents ≡ₚ Wd ++ Ws.
Proof.
  intros [(s1 & Hd & _) (s & s2 & Hs & _) Hw].
  assert (forall t, t ∈ Wd -> t ∈ torrents /\ eligible t = true /\ is_download t = true) as HWd.
  { intros t Ht. eapply elem_of_submseteq in Ht; [|by apply sublist_submseteq, (ad_sublist _ _ _ _ Hd)].
    apply elem_of_app in Ht as [(? & ? & ? & _)%elem_of_active|(? & ? & ? & _)%elem_of_queued]; done. }
  assert (forall t, t ∈ Ws -> t ∈ torrents /\ eligible t = true /\ is_download t = false) as HWs.
  { intros t Ht. eapply elem_of_submseteq in Ht; [|by apply sublist_submseteq, (ad_sublist _ _ _ _ Hs)]. by apply elem_of_seeds in Ht. }
  assert (forall t, t ∈ torrents -> runs (reconcile torrents download_limit seed_limit hard_limit) t = true <-> t ∈ Wd ++ Ws) as Hr.
  { intros t Ht. rewrite runs_iff, bool_decide_eq_true, Hw by done. split; [|by exists t].
    intros (x & E & Hx). rewrite (same_id t x); [done|done| |done]. apply elem_of_app in Hx as [?%HWd|?%HWs]; naive_solver. }
  split; [done|]. split; [done|]. split; [done|]. apply NoDup_Permutation; [apply NoDup_filter, NoDup_torrents| |].
  - apply NoDup_app. split; [|split].
    + eapply sublist_NoDup; [|apply (ad_sublist _ _ _ _ Hd)]. apply NoDup_app.
      split; [apply NoDup_sort_by, NoDup_filter, NoDup_torrents|]. split; [|apply NoDup_sort_by, NoDup_filter, NoDup_torrents].
      intros t (_ & _ & _ & E1)%elem_of_active (_ & _ & _ & E2)%elem_of_queued. congruence.
    + intros t (_ & _ & E1)%HWd (_ & _ & E2)%HWs. congruence.
    + eapply sublist_NoDup; [|apply (ad_sublist _ _ _ _ Hs)]. apply NoDup_sort_by, NoDup_filter, NoDup_torrents.
  - intros t. rewrite list_elem_of_filter. split; [intros [H1 H2]; by apply Hr|]. intros Ht.
    assert (t ∈ torrents) by (apply elem_of_app in Ht as [?%HWd|?%HWs]; naive_solver). split; [by apply Hr|done].
Qed.
Lemma count_filter (P Q : TorrentAdmissionState -> bool) l : count (fun t => P t && Q t) l = count Q (filter (fun t => P t = true) l).
Proof.
  induction l as [|t l IH]; [done|]. rewrite count_cons, filter_cons, IH. case_decide as E; [rewrite E, count_cons; done|].
  apply not_true_is_false in E. by rewrite E.
Qed.
(** The numbers of running torrents. *)
Lemma running_counts Wd Ws h : outcome_of Wd Ws h ->
  let on := runs (reconcile torrents download_limit seed_limit hard_limit) in
  count on torrents = len Wd + len Ws
  /\ count (fun t => on t && (is_download t && counted t)) torrents = count counted Wd
  /\ count (fun t => on t && (negb (is_download t) && counted t)) torrents = count counted Ws.
Proof.
  intros H on. destruct (runs_admitted Wd Ws h H) as (HWd & HWs & _ & Hperm).
  assert (forall Q, count (fun t => on t && Q t) torrents = count Q Wd + count Q Ws) as Hq.
  { intros Q. rewrite count_filter. unfold on. by rewrite (count_perm _ _ _ Hperm), count_app. }
  rewrite !Hq. split; [|split].
  - rewrite (admitted_count_ext on (fun t => on t && true)) by (apply Forall_forall; intros; by rewrite andb_true_r).
    by rewrite Hq, !(count_all (fun _ => true)) by (by apply Forall_forall).
  - rewrite (count_none _ Ws), (admitted_count_ext _ counted Wd); [lia|..]; apply Forall_forall.
    + intros t (_ & _ & ->)%HWd. done.
    + intros t (_ & _ & ->)%HWs. done.
  - rewrite (count_none _ Wd), (admitted_count_ext _ counted Ws); [lia|..]; apply Forall_forall.
    + intros t (_ & _ & ->)%HWs. done.
    + intros t (_ & _ & ->)%HWd. done.
Qed.
(** The order in which the loops see two torrents. *)
Lemma before_split a b : a ∈ torrents -> b ∈ torrents -> eligible a = true -> eligible b = true -> torrent_id a <> torrent_id b -> before a b ->
  (is_download a = is_download b -> exists l l1 l2, l = l1 ++ a :: l2 /\ b ∈ l2
     /\ l = if is_download a then active_downloads torrents ++ queued_downloads torrents else seeds torrents)
  /\ (is_download a <> is_download b -> is_download a = true /\ is_download b = false).
Proof.
  intros Ha Hb Ea Eb Hne Hab. unfold before in Hab. destruct (before_strict a b Hne) as [Hdl Hseed].
  destruct (is_download a) eqn:Da, (is_download b) eqn:Db; (split; [intros E; try done|intros E; try done]).
  - destruct (is_active a) eqn:Aa, (is_active b) eqn:Ab; try done.
    + destruct (sorted_split download_order (active_downloads torrents) a b) as (l1 & l2 & E' & Hin); [apply sort_by_sorted, _|by apply elem_of_active|by apply elem_of_active|by apply Hdl|].
      eexists _, l1, (l2 ++ queued_downloads torrents). split; [|split; [|reflexivity]]; [by rewrite E', <- app_assoc|]. apply elem_of_app. by left.
    + assert (a ∈ active_downloads torrents) as (l1 & l2 & E')%list_elem_of_split by (by apply elem_of_active).
      eexists _, l1, (l2 ++ queued_downloads torrents). split; [|split; [|reflexivity]]; [by rewrite E', <- app_assoc|]. apply elem_of_app. right. by apply elem_of_queued.
    + destruct (sorted_split download_order (queued_downloads torrents) a b) as (l1 & l2 & E' & Hin); [apply sort_by_sorted, _|by apply elem_of_queued|by apply elem_of_queued|by apply Hdl|].
      eexists _, (active_downloads torrents ++ l1), l2. split; [|split; [|reflexivity]]; [by rewrite E', app_assoc|done].
  - destruct (sorted_split seed_order (seeds torrents) a b) as (l1 & l2 & E' & Hin); [apply sort_by_sorted, _|by apply elem_of_seeds|by apply elem_of_seeds|by apply Hseed|].
    by eexists _, l1, l2.
Qed.
End reconcile.

(** * Property *)

(** C22: The decisions are the greedy admission.  There is one decision per
    torrent, in order, which starts, keeps, stops or leaves it.  Only
    eligible torrents run, no more than the hard limit in all, and no more
    downloads and seeds that count than their limits.  An eligible torrent is
    left out only when the hard limit is used up, or it counts and the limit
    of its type is used up.  And a torrent that is left out while one that
    comes later runs (active downloads first, then queued ones by position,
    then seeds by rank) is one that counts, while the later one is a running
    inactive torrent or of the other type.  So an eligible running download is
    never left out while a queued download runs, and an eligible running seed
    is left out while a queued seed runs only when the queued one comes first
    in rank (between equal ranks, by its identifier). *)
Theorem reconcile_exact torrents download_limit seed_limit hard_limit :
  NoDup (map torrent_id torrents) -> 0 <= download_limit /\ 0 <= seed_limit /\ 0 <= hard_limit ->
  let decisions := reconcile torrents download_limit seed_limit hard_limit in
  let on := runs decisions in
  decisions = map (fun t => mkDecision (torrent_id t) (admission_type t) (decide_action (on t) t)) torrents
  /\ (forall t, t ∈ torrents -> on t = true -> eligible t = true)
  /\ count on torrents <= hard_limit
  /\ count (fun t => on t && (is_download t && counted t)) torrents <= download_limit
  /\ count (fun t => on t && (negb (is_download t) && counted t)) torrents <= seed_limit
  /\ (forall t, t ∈ torrents -> eligible t = true -> on t = false ->
      count on torrents = hard_limit
      \/ counted t = true /\ if is_download t then count (fun t => on t && (is_download t && counted t)) torrents = download_limit
                             else count (fun t => on t && (negb (is_download t) && counted t)) torrents = seed_limit)
  /\ (forall a b, a ∈ torrents -> b ∈ torrents -> eligible a = true -> eligible b = true -> torrent_id a <> torrent_id b ->
      before a b -> on a = false -> on b = true -> counted a = true /\ (is_download a = is_download b -> counted b = false))
  /\ (forall a b, a ∈ torrents -> b ∈ torrents -> eligible a = true -> eligible b = true -> is_active a = true -> is_active b = false ->
      is_download a = is_download b -> on a = false -> on b = true -> is_download a = false /\ seed_order a b = Gt).
Proof.
  intros Hnd Hlim decisions on. destruct (reconcile_loops torrents download_limit seed_limit hard_limit Hnd Hlim) as (Wd & Ws & h & Hoc).
  destruct (runs_admitted _ _ _ _ Hnd Wd Ws h Hoc) as (HWd & HWs & Hon & _). fold decisions on in Hon.
  destruct (running_counts _ _ _ _ Hnd Wd Ws h Hoc) as (Hc & Hcd & Hcs). fold decisions on in Hc, Hcd, Hcs. rewrite Hc, Hcd, Hcs.
  destruct Hoc as [(s1 & Hd & Eh) (s & s2 & Hs & Eh' & Et) _].
  destruct Hd as [Sd _ [Hd1 Hd2] [Hd3 Hd4] Hd5 Hd6]. destruct Hs as [Ss _ [Hs1 Hs2] [Hs3 Hs4] Hs5 Hs6]. cbn [hard_remaining type_slots] in *.
  pose proof (len_nonneg Ws). assert (forall t, t ∈ torrents -> on t = false -> (t ∉ Wd) /\ (t ∉ Ws)) as Hoff.
  { intros t Ht Hf. split; intros Hin; assert (on t = true) by (apply Hon; [done|]; apply elem_of_app; tauto); congruence. }
  assert (forall a b, a ∈ torrents -> b ∈ torrents -> eligible a = true -> eligible b = true -> torrent_id a <> torrent_id b ->
    before a b -> on a = false -> on b = true -> counted a = true /\ (is_download a = is_download b -> counted b = false)) as Hfair.
  { intros a b Ha Hb Ea Eb Hne Hab Hfa Htb. destruct (Hoff a Ha Hfa) as [Hnd' Hns'].
      destruct (before_split torrents a b Ha Hb Ea Eb Hne Hab) as [Hsame Hdiff]. apply Hon in Htb; [|done].
      destruct (Bool.bool_dec (is_download a) (is_download b)) as [E|E].
      + destruct (Hsame E) as (l & l1 & l2 & El & Hin & El'). destruct (is_download a) eqn:Da; rewrite El' in El.
        * assert (b ∈ Wd) as HbW by (apply elem_of_app in Htb as [?|(_ & _ & ?)%HWs]; [done|congruence]).
          destruct (Hd6 l1 a l2 b El Hin HbW Hnd'). by split.
        * assert (b ∈ Ws) as HbW by (apply elem_of_app in Htb as [(_ & _ & ?)%HWd|?]; [congruence|done]).
          destruct (Hs6 l1 a l2 b El Hin HbW Hns'). by split.
      + destruct (Hdiff E) as [Da Db]. split; [|by intros ?].
        assert (a ∈ active_downloads torrents ++ queued_downloads torrents) as Hin.
        { apply elem_of_app. destruct (is_active a) eqn:Aa; [left; by apply elem_of_active|right; by apply elem_of_queued]. }
        destruct (Hd5 a Hin) as [?|[E0|[? _]]]; [done| |done]. exfalso.
        assert (b ∈ Ws) as HbW by (apply elem_of_app in Htb as [(_ & _ & ?)%HWd|?]; [congruence|done]).
        assert (len Ws <= 0) by lia. destruct Ws; [by apply elem_of_nil in HbW|]. rewrite len_cons in *. pose proof (len_nonneg Ws). lia. }
  split; [|split; [|split; [lia|split; [lia|split; [lia|split; [|split]]]]]].
  - unfold decisions at 1, reconcile. cbv zeta. apply map_ext_in. intros t Ht%list_elem_of_In. unfold on, decisions. by rewrite runs_iff.
  - intros t Ht E. apply (Hon t Ht) in E. apply elem_of_app in E as [(_ & E & _)%HWd|(_ & E & _)%HWs]; exact E.
  - intros t Ht Ee Hf. destruct (Hoff t Ht Hf) as [Hnd' Hns']. destruct (is_download t) eqn:Ed.
    + assert (t ∈ active_downloads torrents ++ queued_downloads torrents) as Hin.
      { apply elem_of_app. destruct (is_active t) eqn:Ea; [left; by apply elem_of_active|right; by apply elem_of_queued]. }
      destruct (Hd5 t Hin) as [?|[E|[E1 E2]]]; [done|left; lia|right; split; [done|lia]].
    + assert (t ∈ seeds torrents) as Hin by (by apply elem_of_seeds). destruct (Hs5 t Hin) as [?|[E|[E1 E2]]]; [done|left; lia|right; split; [done|lia]].
  - exact Hfair.
  - intros a b Ha Hb Ea Eb Aa Ab Hty Hfa Htb. assert (counted b = true) as Hcb by (unfold counted; by rewrite Ab).
    assert (torrent_id a <> torrent_id b) as Hne. { intros E. assert (a = b) as -> by (by apply (same_id torrents Hnd)). congruence. }
    assert (~ before a b) as Hnb. { intros Hab. destruct (Hfair a b Ha Hb Ea Eb Hne Hab Hfa Htb) as [_ Hno]. rewrite (Hno Hty) in Hcb. done. }
    unfold before in Hnb. rewrite <- Hty, Aa, Ab in Hnb. destruct (is_download a); [by destruct Hnb|]. split; [done|]. destruct (seed_order a b) eqn:E; [destruct Hnb; done..|done].
Qed.

(** * Witness *)
Definition sample_torrent (id : Z) (k : TorrentAdmissionKind) (g : option Z) (slow : bool) : TorrentAdmissionState :=
  mkTorrent [id] true false false k g slow.
Definition sample_torrents : list TorrentAdmissionState :=
  [sample_torrent 1 (Download (Some 0)) None false; sample_torrent 2 (Download (Some 1024)) (Some 7) false;
   sample_torrent 3 (Seed 5) (Some 8) true; sample_torrent 4 (Seed 9) None false].
(** The running download keeps the only slot; both seeds run, one exempt. *)
Lemma reconcile_exact_witness : count (runs (reconcile sample_torrents 1 1 5)) sample_torrents = 3
  /\ runs (reconcile sample_torrents 1 1 5) (sample_torrent 1 (Download (Some 0)) None false) = false
  /\ count (fun t => runs (reconcile sample_torrents 1 1 5) t && (is_download t && counted t)) sample_torrents <= 1.
Proof.
  destruct (reconcile_exact sample_torrents 1 1 5) as (_ & _ & _ & H & _); [|lia|].
  - apply (bool_decide_unpack _). vm_compute. exact I.
  - split; [vm_compute; exact eq_refl|]. split; [vm_compute; exact eq_refl|exact H].
Defined.
