(* ===== verification/HashScheduler.v ===== *)
(** * Scheduling of hash requests (engine/v2_hash_scheduler.rs)

    Which peer is asked for which range of hashes, and what becomes of its
    answer.  The scheduler keeps one need per request: the pieces that wait
    for it, the peers that are trying it, and whether it is complete.  An
    answer goes through the catalog of [V2Hashes].  Times are nanoseconds;
    a connection is its number; [eligible] and [reserved_peer_attempts] are
    the closures of the caller, as functions.

    The properties: what one round of scheduling assigns and why anything
    is left, the bounds on attempts, and that each need is reported
    authenticated once, after an answer the catalog accepted. *)
From S2P Require Import Prelude Ordered PiecePriority Merkle V2Hashes.
#[local] Open Scope Z_scope.

Definition MAX_HASH_ATTEMPTS_PER_PEER : Z := 2.
Definition MAX_HASH_ATTEMPTS_PER_TORRENT : Z := 16.
Definition MAX_HASH_ATTEMPTS_PER_RANGE : Z := 2.
Definition HASH_DUPLICATE_DELAY : Z := 3 * 10 ^ 9.
Definition u32_MAX : Z := umax 32.

#[export] Instance HashRequest_countable : Countable HashRequest.
Proof.
  refine (inj_countable' (fun r => (hr_pieces_root r : list Z, hr_base_layer r, hr_index r, hr_count r, hr_proof_layers r))
            (fun '(root, b, i, c, p) => mkHashRequest root b i c p) _).
  abstract (by intros []).
Defined.
#[export] Instance V2FileHashGeometry_eq_dec : EqDecision V2FileHashGeometry.
Proof. unfold EqDecision, Sha256Hash. solve_decision. Defined.

Record HashNeedInput := mkNeedInput {
  in_geometry : V2FileHashGeometry;
  in_request : HashRequest;
  in_piece : Z;
  in_candidate : bool;
  in_priority : PiecePriority;
}.
Record HashAttempt := mkAttempt { issued_at : Z }.
Record LogicalHashNeed := mkNeed {
  n_geometry : V2FileHashGeometry;
  fresh_pieces : gset Z;
  candidate_pieces : gset Z;
  attempts : gmap Z HashAttempt;
  n_priority : PiecePriority;
  complete : bool;
}.
Record HashAssignment := mkAssignment { as_connection : Z; as_request : HashRequest }.
Record AuthenticatedPieces := mkAuthenticated { fresh : list Z; candidates : list Z; inserted_hashes : Z }.
Inductive HashResponseDisposition :=
| Accepted (pieces : AuthenticatedPieces)
| BadProof (error : HashExchangeError)
| Unsolicited
| Mismatched.
Inductive HashRejectDisposition := RejectAccepted | RejectUnsolicited | RejectMismatched.
Record V2HashSchedulerSnapshot := mkSnapshot {
  sn_logical_needs : Z; sn_active_attempts : Z; sn_active_attempts_high_water : Z; sn_duplicate_attempts : Z }.
Record V2HashScheduler := mkScheduler {
  needs : gmap HashRequest LogicalHashNeed;
  active_attempts_high_water : Z;
}.
(** The two error strings. *)
Inductive HashSchedulerError := ConflictingGeometry | PriorityOutsideGeometry.
Abbreviation method := (M V2HashScheduler HashSchedulerError).

Definition set_attempts (a : gmap Z HashAttempt) (n : LogicalHashNeed) : LogicalHashNeed :=
  mkNeed (n_geometry n) (fresh_pieces n) (candidate_pieces n) a (n_priority n) (complete n).
Definition set_priority (p : PiecePriority) (n : LogicalHashNeed) : LogicalHashNeed :=
  mkNeed (n_geometry n) (fresh_pieces n) (candidate_pieces n) (attempts n) p (complete n).
Definition set_complete (n : LogicalHashNeed) : LogicalHashNeed :=
  mkNeed (n_geometry n) (fresh_pieces n) (candidate_pieces n) (attempts n) (n_priority n) true.
Definition set_needs (m : gmap HashRequest LogicalHashNeed) (s : V2HashScheduler) : V2HashScheduler :=
  mkScheduler m (active_attempts_high_water s).
Definition set_high_water (h : Z) (s : V2HashScheduler) : V2HashScheduler := mkScheduler (needs s) h.
Definition drop_attempt (connection : Z) (n : LogicalHashNeed) : LogicalHashNeed :=
  set_attempts (delete connection (attempts n)) n.

(** The derived orders of [PiecePriority] and [HashRequest]. *)
Definition priority_max (a b : PiecePriority) : PiecePriority := match a with High => High | Normal => b end.
Definition priority_cmp (a b : PiecePriority) : comparison := Z.compare (priority_value a) (priority_value b).
Definition request_fields (r : HashRequest) : list Z := [hr_base_layer r; hr_index r; hr_count r; hr_proof_layers r].
Definition request_cmp (a b : HashRequest) : comparison :=
  then_with (lex (hr_pieces_root a) (hr_pieces_root b)) (lex (request_fields a) (request_fields b)).

Definition insert_need (s : V2HashScheduler) (input : HashNeedInput) : outcome HashSchedulerError V2HashScheduler :=
  let need := default (mkNeed (in_geometry input) ∅ ∅ ∅ (in_priority input) false) (needs s !! in_request input) in
  if negb (bool_decide (n_geometry need = in_geometry input)) then Err ConflictingGeometry
  else
    let fresh := if in_candidate input then fresh_pieces need else {[in_piece input]} ∪ fresh_pieces need in
    let candidates := if in_candidate input then {[in_piece input]} ∪ candidate_pieces need else candidate_pieces need in
    let need := mkNeed (n_geometry need) fresh candidates (attempts need) (priority_max (n_priority need) (in_priority input)) (complete need) in
    Ok (set_needs (<[in_request input := need]> (needs s)) s).
Fixpoint insert_needs (s : V2HashScheduler) (inputs : list HashNeedInput) : outcome HashSchedulerError V2HashScheduler :=
  match inputs with
  | [] => Ok s
  | input :: inputs => s ← insert_need s input; insert_needs s inputs
  end.
Definition V2HashScheduler_default : V2HashScheduler := mkScheduler ∅ 0.
Definition V2HashScheduler_new (inputs : list HashNeedInput) : outcome HashSchedulerError V2HashScheduler :=
  insert_needs V2HashScheduler_default inputs.

Definition is_complete (s : V2HashScheduler) : bool := bool_decide (map_Forall (fun _ need => complete need = true) (needs s)).
(** [fresh.iter().chain(&candidates)], each set in ascending order. *)
Definition ascending (X : gset Z) : list Z := sort_by Z.compare (elements X).
Definition pieces_of (need : LogicalHashNeed) : list Z := ascending (fresh_pieces need) ++ ascending (candidate_pieces need).

Definition active_attempts (s : V2HashScheduler) : Z := sum_over (fun need => Z.of_nat (size (attempts need))) (needs s).
Definition contains_key (connection : Z) (a : gmap Z HashAttempt) : bool := bool_decide (is_Some (a !! connection)).
Definition has_attempt (connection : Z) (need : LogicalHashNeed) : bool := contains_key connection (attempts need).
Definition peer_attempt_count (connection : Z) (s : V2HashScheduler) : Z := sum_over (fun need => Z.b2z (has_attempt connection need)) (needs s).
Definition peer_has_attempt (connection : Z) (s : V2HashScheduler) : bool :=
  negb (bool_decide (map_Forall (fun _ need => has_attempt connection need = false) (needs s))).
Definition owns_attempt (connection : Z) (request : HashRequest) (s : V2HashScheduler) : bool :=
  match needs s !! request with Some need => has_attempt connection need | None => false end.
Definition count_connection (connection : Z) (counts : gmap Z Z) : gmap Z Z :=
  <[connection := default 0 (counts !! connection) + 1]> counts.
Definition peer_attempt_counts (s : V2HashScheduler) : gmap Z Z :=
  map_fold (fun _ need counts => map_fold (fun connection _ counts => count_connection connection counts) counts (attempts need)) ∅ (needs s).
Definition hash_snapshot (s : V2HashScheduler) : V2HashSchedulerSnapshot :=
  mkSnapshot (sum_over (fun need => Z.b2z (negb (complete need))) (needs s)) (active_attempts s) (active_attempts_high_water s)
             (sum_over (fun need => saturating_sub (Z.of_nat (size (attempts need))) 1) (needs s)).
Definition prune_completed (s : V2HashScheduler) : V2HashScheduler :=
  set_needs (filter (fun kv => negb (complete kv.2) || negb (bool_decide (attempts kv.2 = ∅)) = true) (needs s)) s.

(** The order in which needs are served. *)
Definition need_key (e : HashRequest * LogicalHashNeed) : list Z :=
  [Z.b2z (bool_decide (fresh_pieces e.2 = ∅)); - priority_value (n_priority e.2); default u32_MAX (head (pieces_of e.2))].
Definition need_cmp (a b : HashRequest * LogicalHashNeed) : comparison :=
  then_with (lex (need_key a) (need_key b)) (request_cmp a.1 b.1).
Definition schedule_keys (s : V2HashScheduler) : list HashRequest :=
  (sort_by need_cmp (filter (fun e => complete e.2 = false) (map_to_list (needs s)))).*1.
Definition oldest_attempt (need : LogicalHashNeed) : option Z :=
  map_fold (fun _ a oldest => Some (match oldest with Some t => Z.min (issued_at a) t | None => issued_at a end)) None (attempts need).
Definition too_recent (now : Z) (need : LogicalHashNeed) : bool :=
  match oldest_attempt need with Some oldest => saturating_sub now oldest <? HASH_DUPLICATE_DELAY | None => false end.
Definition may_try (need : LogicalHashNeed) (counts : gmap Z Z) (reserved_peer_attempts : Z -> Z) (connection : Z) : bool :=
  negb (has_attempt connection need)
  && (saturating_add USIZE (default 0 (counts !! connection)) (reserved_peer_attempts connection) <? MAX_HASH_ATTEMPTS_PER_PEER).
Definition add_attempt (connection now : Z) (n : LogicalHashNeed) : LogicalHashNeed :=
  set_attempts (<[connection := mkAttempt now]> (attempts n)) n.

Section schedule.
Context (now maximum : Z) (eligible : list Z -> list Z) (reserved_peer_attempts : Z -> Z).

Fixpoint schedule_loop (keys : list HashRequest) (counts : gmap Z Z) (total : Z) : method (list HashAssignment) :=
  match keys with
  | [] => mret []
  | request :: keys =>
    if maximum <=? total then mret []
    else
      s ← get;
      need ← lift (expect (needs s !! request));
      if MAX_HASH_ATTEMPTS_PER_RANGE <=? Z.of_nat (size (attempts need)) then schedule_loop keys counts total
      else if too_recent now need then schedule_loop keys counts total
      else
        match find (may_try need counts reserved_peer_attempts) (eligible (pieces_of need)) with
        | None => schedule_loop keys counts total
        | Some connection =>
          modify (fun s => set_needs (<[request := add_attempt connection now need]> (needs s)) s);;
          modify (fun s => set_high_water (Z.max (active_attempts_high_water s) (total + 1)) s);;
          assignments ← schedule_loop keys (count_connection connection counts) (total + 1);
          mret (mkAssignment connection request :: assignments)
        end
  end.
End schedule.
Definition schedule_with_reservations (now maximum_total_attempts : Z) (eligible : list Z -> list Z) (reserved_peer_attempts : Z -> Z)
    : method (list HashAssignment) :=
  s ← get;
  let counts := peer_attempt_counts s in
  schedule_loop now (Z.min maximum_total_attempts MAX_HASH_ATTEMPTS_PER_TORRENT) eligible reserved_peer_attempts
    (schedule_keys s) counts (sum_over id counts).

(** The priorities of a need's pieces; the first piece outside stops it. *)
Fixpoint fold_priorities (priorities : list PiecePriority) (pieces : list Z) (priority : PiecePriority) : outcome HashSchedulerError PiecePriority :=
  match pieces with
  | [] => Ok priority
  | piece :: pieces =>
    match nth_get priorities piece with
    | Some p => fold_priorities priorities pieces (priority_max priority p)
    | None => Err PriorityOutsideGeometry
    end
  end.
Fixpoint replace_loop (priorities : list PiecePriority) (keys : list HashRequest) : method unit :=
  match keys with
  | [] => mret tt
  | request :: keys =>
    s ← get;
    need ← lift (expect (needs s !! request));
    p ← lift (fold_priorities priorities (pieces_of need) Normal);
    modify (fun s => set_needs (<[request := set_priority p need]> (needs s)) s);;
    replace_loop priorities keys
  end.
(** The needs are visited in the order of their requests. *)
Definition request_keys (s : V2HashScheduler) : list HashRequest := sort_by request_cmp (map_to_list (needs s)).*1.
Definition replace_piece_priorities (priorities : list PiecePriority) : method unit :=
  s ← get; replace_loop priorities (request_keys s).

Definition send_failed (connection : Z) (request : HashRequest) (s : V2HashScheduler) : V2HashScheduler :=
  prune_completed (set_needs (alter (drop_attempt connection) request (needs s)) s).
Definition peer_disconnected (connection : Z) (s : V2HashScheduler) : V2HashScheduler :=
  prune_completed (set_needs (drop_attempt connection <$> needs s) s).
Definition retain_connections (retained : Z -> bool) (s : V2HashScheduler) : V2HashScheduler :=
  prune_completed (set_needs ((fun need => set_attempts (filter (fun kv => retained kv.1 = true) (attempts need)) need) <$> needs s) s).
Definition receive_reject (connection : Z) (request : HashRequest) (s : V2HashScheduler) : V2HashScheduler * HashRejectDisposition :=
  let refused := if peer_has_attempt connection s then RejectMismatched else RejectUnsolicited in
  match needs s !! request with
  | None => (s, refused)
  | Some need =>
    if negb (has_attempt connection need) then (s, refused)
    else (prune_completed (set_needs (<[request := drop_attempt connection need]> (needs s)) s), RejectAccepted)
  end.
Definition authenticated_of (need : LogicalHashNeed) (inserted : Z) : AuthenticatedPieces :=
  if complete need then mkAuthenticated [] [] inserted
  else mkAuthenticated (ascending (fresh_pieces need)) (ascending (candidate_pieces need)) inserted.
(** The scheduler and the catalog after the answer. *)
Definition receive_response (sha256 : list Z -> Sha256Hash) (connection : Z) (response : HashResponse) (s : V2HashScheduler) (catalog : V2HashCatalog)
    : V2HashScheduler * V2HashCatalog * outcome HashSchedulerError HashResponseDisposition :=
  let refused := if peer_has_attempt connection s then Mismatched else Unsolicited in
  let request := hs_request response in
  match needs s !! request with
  | None => (s, catalog, Ok refused)
  | Some need =>
    if negb (has_attempt connection need) then (s, catalog, Ok refused)
    else
      let dropped := drop_attempt connection need in
      match insert_response sha256 (n_geometry need) response catalog with
      | (catalog, Ok inserted) =>
        (prune_completed (set_needs (<[request := set_complete dropped]> (needs s)) s), catalog, Ok (Accepted (authenticated_of need inserted)))
      | (catalog, Err error) => (set_needs (<[request := dropped]> (needs s)) s, catalog, Ok (BadProof error))
      | (catalog, Panic) => (s, catalog, Panic)
      | (catalog, NoFuel) => (s, catalog, NoFuel)
      end
  end.

(** * Lemmas *)

(** ** Orders *)
Lemma request_cmp_eq a b : request_cmp a b = Eq -> a = b.
Proof.
  intros [E1%lex_eq E2%lex_eq]%then_with_eq. destruct a, b. unfold request_fields in E2. cbn in *. congruence.
Qed.
#[export] Instance lawful_request : LawfulCmp request_cmp.
Proof. apply (lawful_then (fun a b => lex (hr_pieces_root a) (hr_pieces_root b)) (fun a b => lex (request_fields a) (request_fields b))). Qed.
#[export] Instance lawful_need : LawfulCmp need_cmp.
Proof. apply (lawful_then (fun a b => lex (need_key a) (need_key b)) (fun a b => request_cmp a.1 b.1)). Qed.
Lemma elem_of_ascending X x : x ∈ ascending X <-> x ∈ X.
Proof. unfold ascending. by rewrite elem_of_sort_by, elem_of_elements. Qed.
Lemma NoDup_ascending X : NoDup (ascending X).
Proof. apply NoDup_sort_by, NoDup_elements. Qed.

(** ** Attempts of a need *)
Lemma has_attempt_add c c' now n : has_attempt c' (add_attempt c now n) = bool_decide (c' = c) || has_attempt c' n.
Proof.
  unfold has_attempt, contains_key, add_attempt. cbn [attempts set_attempts]. destruct (decide (c' = c)) as [->|Hne].
  - rewrite lookup_insert_eq, !bool_decide_eq_true_2 by (done || by eexists). done.
  - by rewrite lookup_insert_ne, (bool_decide_eq_false_2 (c' = c)) by congruence.
Qed.
Lemma has_attempt_drop c c' n : has_attempt c' (drop_attempt c n) = negb (bool_decide (c' = c)) && has_attempt c' n.
Proof.
  unfold has_attempt, contains_key, drop_attempt. cbn [attempts set_attempts]. destruct (decide (c' = c)) as [->|Hne].
  - by rewrite lookup_delete_eq, (bool_decide_eq_true_2 (c = c)).
  - by rewrite lookup_delete_ne, (bool_decide_eq_false_2 (c' = c)) by congruence.
Qed.
Lemma size_add_attempt c now n : has_attempt c n = false -> Z.of_nat (size (attempts (add_attempt c now n))) = Z.of_nat (size (attempts n)) + 1.
Proof.
  intros H. unfold has_attempt, contains_key in H. apply bool_decide_eq_false in H. cbn. rewrite map_size_insert_None; [lia|]. by apply eq_None_not_Some.
Qed.
Lemma oldest_spec n : match oldest_attempt n with
  | Some t => (exists c, attempts n !! c = Some (mkAttempt t)) /\ forall c a, attempts n !! c = Some a -> t <= issued_at a
  | None => attempts n = ∅ end.
Proof.
  unfold oldest_attempt. apply (map_fold_weak_ind (fun oldest m => match oldest with
    | Some t => (exists c, m !! c = Some (mkAttempt t)) /\ forall c a, m !! c = Some a -> t <= issued_at a | None => m = ∅ end)); [done|].
  intros c [t] m [t'|] Hc.
  - intros [[c' H1] H2]. cbn [issued_at]. split.
    + destruct (Z.min_spec t t') as [[_ ->]|[_ ->]]; [exists c; apply lookup_insert_eq|]. exists c'. rewrite lookup_insert_ne; [done|]. congruence.
    + intros k a [[<- <-]|[_ E]]%lookup_insert_Some; [cbn; lia|]. pose proof (H2 k a E). lia.
  - intros ->. cbn [issued_at]. split; [exists c; apply lookup_insert_eq|].
    intros k a [[<- <-]|[_ E]]%lookup_insert_Some; [cbn; lia|done].
Qed.
Definition settled (now : Z) (n : LogicalHashNeed) : Prop :=
  attempts n = ∅ \/ exists c a, attempts n !! c = Some a /\ issued_at a + HASH_DUPLICATE_DELAY <= now.
Lemma too_recent_false now n : too_recent now n = false <-> settled now n.
Proof.
  unfold too_recent, settled, saturating_sub, HASH_DUPLICATE_DELAY. change (3 * 10 ^ 9) with 3000000000. pose proof (oldest_spec n) as H. destruct (oldest_attempt n) as [t|].
  - destruct H as [[c Hc] H]. rewrite Z.ltb_ge. split.
    + intros Ht. right. exists c, (mkAttempt t). split; [done|]. cbn. lia.
    + intros [E|(k & a & E & Ha)]; [by rewrite E, lookup_empty in Hc|]. pose proof (H k a E). lia.
  - split; [by left|done].
Qed.

(** ** Counts *)
Lemma count_connection_at c c' m : default 0 (count_connection c m !! c') = default 0 (m !! c') + Z.b2z (bool_decide (c' = c)).
Proof.
  unfold count_connection. destruct (decide (c' = c)) as [->|Hne].
  - rewrite lookup_insert_eq, bool_decide_eq_true_2 by done. done.
  - rewrite lookup_insert_ne, bool_decide_eq_false_2 by congruence. cbn [Z.b2z]. lia.
Qed.
Lemma count_connection_sum c m : sum_over id (count_connection c m) = sum_over id m + 1.
Proof.
  unfold count_connection. destruct (m !! c) as [n|] eqn:E; cbn [default].
  - rewrite (sum_over_update _ _ _ _ _ E). unfold id. lia.
  - rewrite sum_over_insert by done. unfold id. lia.
Qed.
Lemma count_attempts (a : gmap Z HashAttempt) m :
  let m' := map_fold (fun connection _ counts => count_connection connection counts) m a in
  (forall c, default 0 (m' !! c) = default 0 (m !! c) + Z.b2z (contains_key c a)) /\ sum_over id m' = sum_over id m + Z.of_nat (size a).
Proof.
  cbv zeta. apply (map_fold_weak_ind (fun m' a => (forall c, default 0 (m' !! c) = default 0 (m !! c) + Z.b2z (contains_key c a))
    /\ sum_over id m' = sum_over id m + Z.of_nat (size a))).
  - split; [|rewrite map_size_empty; lia]. intros c. unfold contains_key. rewrite lookup_empty, bool_decide_eq_false_2; [cbn; lia|]. by intros [].
  - intros i x a' m' Hi [H1 H2]. split.
    + intros c. rewrite count_connection_at, H1. unfold contains_key. destruct (decide (c = i)) as [->|Hne].
      * rewrite lookup_insert_eq, Hi, (bool_decide_eq_true_2 (i = i)), bool_decide_eq_false_2, bool_decide_eq_true_2; [cbn [Z.b2z]; lia|by eexists|by intros []|done].
      * rewrite lookup_insert_ne, (bool_decide_eq_false_2 (c = i)) by congruence. cbn [Z.b2z]. lia.
    + rewrite count_connection_sum, H2, map_size_insert_None by done. lia.
Qed.
Lemma counts_spec s : (forall c, default 0 (peer_attempt_counts s !! c) = peer_attempt_count c s) /\ sum_over id (peer_attempt_counts s) = active_attempts s.
Proof.
  unfold peer_attempt_counts, peer_attempt_count, active_attempts.
  apply (map_fold_weak_ind (fun m' n => (forall c, default 0 (m' !! c) = sum_over (fun need => Z.b2z (has_attempt c need)) n)
    /\ sum_over id m' = sum_over (fun need => Z.of_nat (size (attempts need))) n)); [done|].
  intros r need n m' Hr [H1 H2]. destruct (count_attempts (attempts need) m') as [H3 H4]. split.
  - intros c. rewrite H3, H1, sum_over_insert by done. unfold has_attempt. lia.
  - rewrite H4, H2, sum_over_insert by done. lia.
Qed.
Lemma active_nonneg s : 0 <= active_attempts s.
Proof. apply sum_over_nonneg. lia. Qed.
Lemma peer_count_nonneg c s : 0 <= peer_attempt_count c s.
Proof. apply sum_over_nonneg. intros. by destruct (has_attempt c v). Qed.
(** One more attempt. *)
Lemma counts_add s r need c now : needs s !! r = Some need -> has_attempt c need = false ->
  let s' := set_needs (<[r := add_attempt c now need]> (needs s)) s in
  active_attempts s' = active_attempts s + 1 /\ forall c', peer_attempt_count c' s' = peer_attempt_count c' s + Z.b2z (bool_decide (c' = c)).
Proof.
  intros Hr Hc. cbv zeta. unfold active_attempts, peer_attempt_count. cbn [needs set_needs]. split.
  - rewrite (sum_over_update _ _ _ _ _ Hr), size_add_attempt by done. lia.
  - intros c'. rewrite (sum_over_update _ _ _ _ _ Hr), has_attempt_add. destruct (decide (c' = c)) as [->|Hne].
    + rewrite Hc, bool_decide_eq_true_2 by done. cbn [Z.b2z orb]. lia.
    + rewrite bool_decide_eq_false_2 by done. cbn [orb Z.b2z]. lia.
Qed.

(** ** A round of scheduling *)
Section round.
Context (now maximum : Z) (eligible : list Z -> list Z) (reserved : Z -> Z).
Hypothesis reserved_nonneg : forall c, 0 <= reserved c.

(** Why a connection is passed over for a need. *)
Definition unavailable (need : LogicalHashNeed) (s : V2HashScheduler) (c : Z) : Prop :=
  has_attempt c need = true \/ MAX_HASH_ATTEMPTS_PER_PEER <= peer_attempt_count c s + reserved c.
(** Why an assignment is made. *)
Definition well_assigned (s s' : V2HashScheduler) (a : HashAssignment) : Prop :=
  exists need l1 l2, needs s !! as_request a = Some need /\ Z.of_nat (size (attempts need)) < MAX_HASH_ATTEMPTS_PER_RANGE /\ settled now need
    /\ eligible (pieces_of need) = l1 ++ as_connection a :: l2 /\ Forall (unavailable need s') l1 /\ has_attempt (as_connection a) need = false
    /\ peer_attempt_count (as_connection a) s' + reserved (as_connection a) <= MAX_HASH_ATTEMPTS_PER_PEER.
(** Why a need gets none. *)
Definition well_left (s' : V2HashScheduler) (need : LogicalHashNeed) : Prop :=
  MAX_HASH_ATTEMPTS_PER_RANGE <= Z.of_nat (size (attempts need)) \/ ~ settled now need \/ Forall (unavailable need s') (eligible (pieces_of need)).
Record round_ok (keys : list HashRequest) (s : V2HashScheduler) (l : list HashAssignment) (s' : V2HashScheduler) : Prop := {
  ro_order : sublist (map as_request l) keys;
  ro_assigned a : a ∈ l -> needs s' !! as_request a = add_attempt (as_connection a) now <$> needs s !! as_request a;
  ro_other r : r ∉ map as_request l -> needs s' !! r = needs s !! r;
  ro_reasons : Forall (well_assigned s s') l;
  ro_active : active_attempts s' = active_attempts s + len l;
  ro_limit : active_attempts s' <= Z.max (active_attempts s) maximum;
  ro_high : active_attempts_high_water s' = Z.max (active_attempts_high_water s) (active_attempts s');
  ro_grows c : peer_attempt_count c s <= peer_attempt_count c s';
  ro_peers c : peer_attempt_count c s' + reserved c <= Z.max MAX_HASH_ATTEMPTS_PER_PEER (peer_attempt_count c s + reserved c);
  ro_left k1 r k2 : keys = k1 ++ r :: k2 -> r ∉ map as_request l ->
    (exists need, needs s !! r = Some need /\ well_left s' need)
    \/ (maximum <= active_attempts s' /\ forall r', r' ∈ k2 -> r' ∉ map as_request l);
}.
Lemma may_try_spec need counts s c : (forall c, default 0 (counts !! c) = peer_attempt_count c s) ->
  may_try need counts reserved c = false -> unavailable need s c.
Proof.
  intros Hc. unfold may_try, unavailable. rewrite andb_false_iff, negb_false_iff, Hc, Z.ltb_ge. unfold saturating_add, MAX_HASH_ATTEMPTS_PER_PEER.
  intros [?|H]; [by left|right]. lia.
Qed.
Lemma find_split {A} (f : A -> bool) l x : find f l = Some x -> exists l1 l2, l = l1 ++ x :: l2 /\ Forall (fun y => f y = false) l1 /\ f x = true.
Proof.
  induction l as [|y l IH]; cbn; [done|]. destruct (f y) eqn:E; intros Hf.
  - simplify_eq. exists [], l. by repeat split.
  - destruct (IH Hf) as (l1 & l2 & -> & ? & ?). exists (y :: l1), l2. split; [done|]. split; [by constructor|done].
Qed.
Lemma unavailable_later need s s' l : (forall c, peer_attempt_count c s <= peer_attempt_count c s') -> Forall (unavailable need s) l -> Forall (unavailable need s') l.
Proof. intros Hg H. eapply Forall_impl; [exact H|]. intros c [?|?]; [by left|right]. pose proof (Hg c). lia. Qed.

(** A request that is passed over. *)
Lemma round_skip r keys s l s' need : NoDup (r :: keys) -> needs s !! r = Some need -> well_left s need ->
  round_ok keys s l s' -> round_ok (r :: keys) s l s'.
Proof.
  intros Hnd Hr Hleft []. split; try done; [by constructor|]. intros [|x k1] r' k2 E Hn; cbn in E; injection E as <- ->.
  - left. exists need. split; [done|]. destruct Hleft as [?|[?|H]]; [by left|by (right; left)|right; right]. by eapply unavailable_later.
  - by apply (ro_left0 k1).
Qed.
Lemma round_empty keys s : maximum <= active_attempts s \/ keys = [] -> active_attempts s <= active_attempts_high_water s -> round_ok keys s [] s.
Proof.
  intros H Hh. split; try done; try len_lia.
  - apply sublist_nil_l.
  - by intros a []%not_elem_of_nil.
  - intros k1 r k2 E _. destruct H as [H| ->]; [right|by destruct k1]. split; [done|]. intros r' _. apply not_elem_of_nil.
Qed.
(** A request that is assigned. *)
Lemma round_assign r keys s l s' need c l1 l2 : NoDup (r :: keys) -> needs s !! r = Some need ->
  Z.of_nat (size (attempts need)) < MAX_HASH_ATTEMPTS_PER_RANGE -> settled now need -> active_attempts s < maximum ->
  eligible (pieces_of need) = l1 ++ c :: l2 -> Forall (unavailable need s) l1 -> has_attempt c need = false ->
  peer_attempt_count c s + reserved c < MAX_HASH_ATTEMPTS_PER_PEER ->
  active_attempts s <= active_attempts_high_water s ->
  round_ok keys (set_high_water (Z.max (active_attempts_high_water s) (active_attempts s + 1)) (set_needs (<[r := add_attempt c now need]> (needs s)) s)) l s' ->
  round_ok (r :: keys) s (mkAssignment c r :: l) s'.
Proof.
  intros [Hr Hnd]%NoDup_cons Hneed Hsize Hset Hmax Hel Hl1 Hc Hcount Hhigh. set (s1 := set_high_water _ _). intros H.
  destruct (counts_add s r need c now Hneed Hc) as [Ha Hp]. change (active_attempts s1 = active_attempts s + 1) in Ha.
  change (forall c', peer_attempt_count c' s1 = peer_attempt_count c' s + Z.b2z (bool_decide (c' = c))) in Hp.
  assert (r ∉ map as_request l) as Hrl. { intros Hin. apply Hr. eapply elem_of_submseteq; [exact Hin|]. apply sublist_submseteq, H. }
  assert (forall c', peer_attempt_count c' s <= peer_attempt_count c' s') as Hgrow.
  { intros c'. pose proof (ro_grows _ _ _ _ H c'). rewrite Hp in *. destruct (bool_decide (c' = c)); cbn [Z.b2z] in *; lia. }
  assert (forall c', peer_attempt_count c' s' + reserved c' <= Z.max MAX_HASH_ATTEMPTS_PER_PEER (peer_attempt_count c' s + reserved c')) as Hpeers.
  { intros c'. pose proof (ro_peers _ _ _ _ H c') as H1. rewrite Hp in H1. destruct (decide (c' = c)) as [->|Hne].
    - rewrite bool_decide_eq_true_2 in H1 by done. cbn [Z.b2z] in H1. lia.
    - rewrite bool_decide_eq_false_2 in H1 by done. cbn [Z.b2z] in H1. lia. }
  assert (forall r', r' <> r -> needs s1 !! r' = needs s !! r') as Hother by (intros r' Hne; by apply lookup_insert_ne).
  split.
  - cbn. constructor. apply H.
  - intros a [->|Hin]%elem_of_cons; cbn [as_request as_connection].
    + rewrite (ro_other _ _ _ _ H) by done. rewrite Hneed. cbn. apply lookup_insert_eq.
    + rewrite (ro_assigned _ _ _ _ H) by done. rewrite Hother; [done|]. intros <-. apply Hrl, list_elem_of_fmap. by exists a.
  - intros r' [Hne Hr']%not_elem_of_cons. rewrite (ro_other _ _ _ _ H), Hother by done. done.
  - constructor.
    + exists need, l1, l2. cbn [as_request as_connection]. split_and!; try done; [by eapply unavailable_later|]. pose proof (Hpeers c). lia.
    + rewrite Forall_forall. intros a Ha'. pose proof (ro_reasons _ _ _ _ H) as Hall. rewrite Forall_forall in Hall.
      destruct (Hall a Ha') as (need' & k1 & k2 & E & ?). exists need', k1, k2. rewrite Hother in E; [done|].
      intros <-. apply Hrl, list_elem_of_fmap. by exists a.
  - rewrite (ro_active _ _ _ _ H), Ha, len_cons. lia.
  - pose proof (ro_limit _ _ _ _ H). lia.
  - rewrite (ro_high _ _ _ _ H). cbn [active_attempts_high_water set_high_water s1]. pose proof (ro_active _ _ _ _ H). pose proof (len_nonneg l). lia.
  - done.
  - done.
  - intros [|x k1] r' k2 E Hn; cbn in E; injection E as <- E.
    + exfalso. apply Hn. cbn. apply list_elem_of_here.
    + cbn in Hn. apply not_elem_of_cons in Hn as [Hne Hn]. destruct (ro_left _ _ _ _ H k1 r' k2 E Hn) as [(need' & E' & ?)|[? Hk]].
      * left. exists need'. by rewrite Hother in E'.
      * right. split; [done|]. intros r'' Hin. cbn. apply not_elem_of_cons. split; [|by apply Hk].
        intros ->. apply Hr. rewrite E. apply elem_of_app. right. by apply list_elem_of_further.
Qed.
Lemma schedule_loop_ok keys : NoDup keys -> forall counts s, (forall r, r ∈ keys -> is_Some (needs s !! r)) ->
  (forall c, default 0 (counts !! c) = peer_attempt_count c s) -> active_attempts s <= active_attempts_high_water s ->
  exists s' l, schedule_loop now maximum eligible reserved keys counts (active_attempts s) s = (s', Ok l) /\ round_ok keys s l s'.
Proof.
  induction keys as [|r keys IH]; intros Hnd counts s Hkeys Hcounts Hhigh; cbn [schedule_loop].
  { exists s, []. split; [done|]. apply round_empty; [by right|done]. }
  destruct (Z.leb_spec maximum (active_attempts s)) as [Hm|Hm].
  { exists s, []. split; [done|]. apply round_empty; [by left|done]. }
  rewrite get_bind. destruct (Hkeys r (list_elem_of_here _ _)) as [need Hr]. rewrite Hr. cbn [expect]. rewrite lift_ok_bind.
  pose proof Hnd as [Hrk Hnd']%NoDup_cons. assert (forall r, r ∈ keys -> is_Some (needs s !! r)) as Hkeys' by (intros; by apply Hkeys, list_elem_of_further).
  assert (well_left s need -> exists s' l, schedule_loop now maximum eligible reserved keys counts (active_attempts s) s = (s', Ok l) /\ round_ok (r :: keys) s l s') as Hskip.
  { intros Hw. destruct (IH Hnd' counts s) as (s' & l & E & H); [done..|]. exists s', l. split; [done|]. by eapply round_skip. }
  destruct (Z.leb_spec MAX_HASH_ATTEMPTS_PER_RANGE (Z.of_nat (size (attempts need)))) as [?|Hsize]; [by apply Hskip; left|].
  destruct (too_recent now need) eqn:Erec; [apply Hskip; right; left; rewrite <- too_recent_false; congruence|].
  destruct (find _ _) as [c|] eqn:Ef.
  - apply find_split in Ef as (l1 & l2 & Eel & Hl1 & Hc). unfold may_try in Hc. apply andb_true_iff in Hc as [Hc%negb_true_iff Hcount%Z.ltb_lt].
    rewrite Hcounts in Hcount. pose proof (peer_count_nonneg c s). pose proof (reserved_nonneg c).
    rewrite !modify_bind. set (s1 := set_high_water _ _). destruct (counts_add s r need c now Hr Hc) as [Ha Hp].
    change (active_attempts s1 = active_attempts s + 1) in Ha.
    assert (active_attempts_high_water s1 = Z.max (active_attempts_high_water s) (active_attempts s + 1)) as Eh by done.
    destruct (IH Hnd' (count_connection c counts) s1) as (s' & l & E & Hround).
    + intros r' Hr'. cbn [needs s1 set_high_water set_needs]. destruct (decide (r' = r)) as [->|]; [rewrite lookup_insert_eq; by eexists|]. rewrite lookup_insert_ne by done. by apply Hkeys'.
    + intros c'. rewrite count_connection_at, Hcounts. symmetry. apply Hp.
    + rewrite Eh, Ha. lia.
    + rewrite Ha in E. unfold mbind, M_bind. rewrite E. exists s', (mkAssignment c r :: l). split; [done|].
      apply (round_assign r keys s l s' need c l1 l2); try done.
      * by apply too_recent_false.
      * eapply Forall_impl; [exact Hl1|]. intros x Hx. by eapply may_try_spec.
      * unfold saturating_add, MAX_HASH_ATTEMPTS_PER_PEER, umax in *. change (2 ^ USIZE) with 18446744073709551616 in Hcount. lia.
  - apply Hskip. right. right. rewrite Forall_forall. intros c Hc%list_elem_of_In. eapply may_try_spec; [done|]. by eapply find_none.
Qed.
End round.

(** ** Bounds *)
Record sched_ok (s : V2HashScheduler) : Prop := {
  so_range r n : needs s !! r = Some n -> Z.of_nat (size (attempts n)) <= MAX_HASH_ATTEMPTS_PER_RANGE;
  so_peer c : peer_attempt_count c s <= MAX_HASH_ATTEMPTS_PER_PEER;
  so_high : active_attempts s <= active_attempts_high_water s <= MAX_HASH_ATTEMPTS_PER_TORRENT;
}.
(** A call that only takes needs and attempts away. *)
Definition shrinks (s s' : V2HashScheduler) : Prop :=
  active_attempts_high_water s' = active_attempts_high_water s
  /\ forall r n', needs s' !! r = Some n' -> exists n, needs s !! r = Some n /\ attempts n' ⊆ attempts n.
Lemma shrinks_ok s s' : shrinks s s' -> sched_ok s -> sched_ok s'.
Proof.
  intros [Eh Hs] [H1 H2 H3]. split.
  - intros r n' Hn'. destruct (Hs r n' Hn') as (n & Hn & Hsub). pose proof (H1 r n Hn). apply map_subseteq_size in Hsub. lia.
  - intros c. etransitivity; [|apply (H2 c)]. apply sum_over_mono; [by intros k v _; destruct (has_attempt c v)|].
    intros r n' Hn'. destruct (Hs r n' Hn') as (n & Hn & Hsub). exists n. split; [done|]. unfold has_attempt, contains_key.
    destruct (decide (is_Some (attempts n' !! c))) as [[a Ha]|E].
    + rewrite (bool_decide_eq_true_2 (is_Some (attempts n !! c))); [by rewrite bool_decide_eq_true_2|]. exists a. by eapply lookup_weaken.
    + rewrite (bool_decide_eq_false_2 _ E). by destruct (bool_decide _).
  - rewrite Eh. split; [|apply H3]. etransitivity; [|apply H3]. apply sum_over_mono; [lia|].
    intros r n' Hn'. destruct (Hs r n' Hn') as (n & Hn & Hsub). exists n. split; [done|]. apply map_subseteq_size in Hsub. lia.
Qed.
Lemma prune_lookup s r : needs (prune_completed s) !! r = match needs s !! r with
  | Some n => if complete n && bool_decide (attempts n = ∅) then None else Some n | None => None end.
Proof.
  apply option_eq. intros n'. unfold prune_completed. cbn [needs set_needs]. rewrite map_lookup_filter_Some. cbn [snd].
  destruct (needs s !! r) as [n|]; [|naive_solver]. destruct (complete n) eqn:Ec, (bool_decide (attempts n = ∅)) eqn:Ea; cbn [andb];
    (split; [intros [[= <-] E]; rewrite Ec, Ea in E; done|]); intros [= <-]; rewrite Ec, ?Ea; done.
Qed.
Lemma shrinks_prune s s' : shrinks s s' -> shrinks s (prune_completed s').
Proof.
  intros [Eh Hs]. split; [done|]. intros r n'. rewrite prune_lookup. destruct (needs s' !! r) as [n|] eqn:E; [|done].
  destruct (_ && _); [done|]. intros [= <-]. by apply Hs.
Qed.
Lemma shrinks_update s r n n' : needs s !! r = Some n -> attempts n' ⊆ attempts n -> shrinks s (set_needs (<[r := n']> (needs s)) s).
Proof.
  intros Hn Hsub. split; [done|]. intros r' n''. cbn [needs set_needs]. intros [[<- <-]|[_ E]]%lookup_insert_Some; [by exists n|by exists n''].
Qed.
Lemma shrinks_fmap s f : (forall n, attempts (f n) ⊆ attempts n) -> shrinks s (set_needs (f <$> needs s) s).
Proof. intros Hf. split; [done|]. intros r n'. cbn [needs set_needs]. rewrite lookup_fmap_Some. intros (n & <- & E). by exists n. Qed.
Lemma drop_subseteq c n : attempts (drop_attempt c n) ⊆ attempts n.
Proof. apply delete_subseteq. Qed.
Lemma shrinks_send_failed c r s : shrinks s (send_failed c r s).
Proof.
  apply shrinks_prune. split; [done|]. intros r' n'. cbn [needs set_needs]. destruct (decide (r' = r)) as [->|Hne].
  - rewrite lookup_alter_eq, fmap_Some. intros (n & E & ->). exists n. split; [done|apply drop_subseteq].
  - rewrite lookup_alter_ne by done. by exists n'.
Qed.
Lemma shrinks_disconnected c s : shrinks s (peer_disconnected c s).
Proof. apply shrinks_prune, shrinks_fmap, drop_subseteq. Qed.
Lemma shrinks_retain f s : shrinks s (retain_connections f s).
Proof. apply shrinks_prune, shrinks_fmap. intros n. apply map_filter_subseteq. Qed.
Lemma shrinks_reject c r s : shrinks s (receive_reject c r s).1.
Proof.
  unfold receive_reject. assert (shrinks s s) as Hs by (split; [done|]; intros ? n ?; by exists n).
  destruct (needs s !! r) as [n|] eqn:E; [|done]. destruct (negb _); [done|]. apply shrinks_prune. eapply shrinks_update; [done|apply drop_subseteq].
Qed.
Lemma schedule_keys_ok s : NoDup (schedule_keys s) /\ forall r, r ∈ schedule_keys s <-> exists n, needs s !! r = Some n /\ complete n = false.
Proof.
  unfold schedule_keys. split.
  - rewrite (sort_by_perm need_cmp). eapply sublist_NoDup; [apply (NoDup_fst_map_to_list (needs s))|]. apply (fmap_sublist fst), sublist_filter.
  - intros r. rewrite list_elem_of_fmap. setoid_rewrite elem_of_sort_by. setoid_rewrite list_elem_of_filter. split.
    + intros ([r' n] & -> & E & Hin%elem_of_map_to_list). by exists n.
    + intros (n & E & Hc). exists (r, n). split; [done|]. split; [done|]. by apply elem_of_map_to_list.
Qed.
Lemma schedule_round_ok now maximum eligible reserved s : (forall c, 0 <= reserved c) -> sched_ok s ->
  exists s' l, schedule_with_reservations now maximum eligible reserved s = (s', Ok l)
    /\ round_ok now (Z.min maximum MAX_HASH_ATTEMPTS_PER_TORRENT) eligible reserved (schedule_keys s) s l s' /\ sched_ok s'.
Proof.
  intros Hres [H1 H2 H3]. destruct (counts_spec s) as [Hc Ht]. destruct (schedule_keys_ok s) as [Hnd Hin].
  unfold schedule_with_reservations. rewrite get_bind, Ht.
  destruct (schedule_loop_ok now (Z.min maximum MAX_HASH_ATTEMPTS_PER_TORRENT) eligible reserved Hres (schedule_keys s) Hnd (peer_attempt_counts s) s)
    as (s' & l & E & H); [|done|lia|].
  { intros r (n & E & _)%Hin. by exists n. }
  exists s', l. split; [done|]. split; [done|]. split.
  - intros r n Hn. destruct (decide (r ∈ map as_request l)) as [Hr|Hr].
    + apply list_elem_of_fmap in Hr as (a & -> & Ha). rewrite (ro_assigned _ _ _ _ _ _ _ _ H a Ha) in Hn.
      pose proof (ro_reasons _ _ _ _ _ _ _ _ H) as Hall. rewrite Forall_forall in Hall. destruct (Hall a Ha) as (n0 & l1 & l2 & E0 & Hsz & _ & _ & _ & Hno & _).
      rewrite E0 in Hn. cbn in Hn. injection Hn as <-. rewrite size_add_attempt by done. lia.
    + rewrite (ro_other _ _ _ _ _ _ _ _ H r Hr) in Hn. by apply (H1 r).
  - intros c. pose proof (ro_peers _ _ _ _ _ _ _ _ H c). pose proof (H2 c). pose proof (Hres c). lia.
  - rewrite (ro_high _ _ _ _ _ _ _ _ H). pose proof (ro_limit _ _ _ _ _ _ _ _ H). lia.
Qed.

(** ** What is reported *)

(** The pieces that wait for a request. *)
Definition wanted (inputs : list HashNeedInput) (r : HashRequest) (candidate : bool) : gset Z :=
  list_to_set (in_piece <$> filter (fun i => in_request i = r /\ in_candidate i = candidate) inputs).
Definition from_inputs (inputs : list HashNeedInput) (r : HashRequest) (n : LogicalHashNeed) : Prop :=
  fresh_pieces n = wanted inputs r false /\ candidate_pieces n = wanted inputs r true
  /\ exists i, i ∈ inputs /\ in_request i = r /\ n_geometry n = in_geometry i.
Definition log_of (r : HashRequest) (d : HashResponseDisposition) : list (HashRequest * AuthenticatedPieces) :=
  match d with Accepted p => [(r, p)] | _ => [] end.
(** The answers that released pieces. *)
Definition reported (log : list (HashRequest * AuthenticatedPieces)) : list HashRequest :=
  (filter (fun e => fresh e.2 ++ candidates e.2 <> []) log).*1.

(** The histories of a scheduler and the torrent's catalog. *)
Inductive hash_run (sha256 : list Z -> Sha256Hash) (inputs : list HashNeedInput) : V2HashScheduler -> V2HashCatalog -> list (HashRequest * AuthenticatedPieces) -> Prop :=
| run_new s c : V2HashScheduler_new inputs = Ok s -> catalog_ok c -> hash_run sha256 inputs s c []
| run_schedule s c log now maximum eligible reserved s' l : hash_run sha256 inputs s c log -> (forall x, 0 <= reserved x) ->
    schedule_with_reservations now maximum eligible reserved s = (s', Ok l) -> hash_run sha256 inputs s' c log
| run_priorities s c log priorities s' r : hash_run sha256 inputs s c log -> replace_piece_priorities priorities s = (s', r) -> hash_run sha256 inputs s' c log
| run_send_failed s c log x request : hash_run sha256 inputs s c log -> hash_run sha256 inputs (send_failed x request s) c log
| run_response s c log x response s' c' d : hash_run sha256 inputs s c log -> receive_response sha256 x response s c = (s', c', Ok d) ->
    hash_run sha256 inputs s' c' (log ++ log_of (hs_request response) d)
| run_reject s c log x request : hash_run sha256 inputs s c log -> hash_run sha256 inputs (receive_reject x request s).1 c log
| run_disconnected s c log x : hash_run sha256 inputs s c log -> hash_run sha256 inputs (peer_disconnected x s) c log
| run_retain s c log retained : hash_run sha256 inputs s c log -> hash_run sha256 inputs (retain_connections retained s) c log.

Lemma wanted_snoc inputs i r b : wanted (inputs ++ [i]) r b = (if bool_decide (in_request i = r /\ in_candidate i = b) then {[in_piece i]} else ∅) ∪ wanted inputs r b.
Proof.
  unfold wanted. rewrite filter_app, fmap_app, list_to_set_app_L, filter_cons. case_bool_decide; case_decide; try done; cbn; set_solver.
Qed.
Lemma elem_of_wanted inputs i : i ∈ inputs -> in_piece i ∈ wanted inputs (in_request i) (in_candidate i).
Proof. intros Hi. unfold wanted. apply elem_of_list_to_set, list_elem_of_fmap. exists i. split; [done|]. by apply list_elem_of_filter. Qed.
Record needs_of (inputs : list HashNeedInput) (s : V2HashScheduler) : Prop := {
  no_high : active_attempts_high_water s = 0;
  no_none i : i ∈ inputs -> is_Some (needs s !! in_request i);
  no_some r n : needs s !! r = Some n -> from_inputs inputs r n /\ attempts n = ∅ /\ complete n = false;
}.
Lemma wanted_none inputs r b : (forall i, i ∈ inputs -> in_request i <> r) -> wanted inputs r b = ∅.
Proof.
  intros H. unfold wanted. assert (filter (fun i => in_request i = r /\ in_candidate i = b) inputs = []) as ->; [|done].
  induction inputs as [|i inputs IH]; [done|].
  rewrite filter_cons, decide_False, IH; [done|intros j Hj; by apply H, list_elem_of_further|]. intros [E _]. by apply (H i (list_elem_of_here _ _)).
Qed.
Lemma insert_need_ok inputs s i s' : needs_of inputs s -> insert_need s i = Ok s' -> needs_of (inputs ++ [i]) s'.
Proof.
  intros [H1 H2 H3]. unfold insert_need. set (need := default _ _). destruct (bool_decide _) eqn:Eg; [|done]. apply bool_decide_eq_true in Eg. cbn [negb].
  intros [= <-].
  assert (fresh_pieces need = wanted inputs (in_request i) false /\ candidate_pieces need = wanted inputs (in_request i) true /\ attempts need = ∅ /\ complete need = false) as (Ef & Ec & Ea & Eco).
  { unfold need. destruct (needs s !! in_request i) as [n|] eqn:E; cbn [default].
    - destruct (H3 _ _ E) as [(? & ? & _) [? ?]]. done.
    - cbn. rewrite !wanted_none; [done|..]; intros j Hj Ej; destruct (H2 j Hj) as [? E']; congruence. }
  split; [done| |].
  - intros j [Hj| ->%list_elem_of_singleton]%elem_of_app; cbn [needs set_needs]; [|rewrite lookup_insert_eq; by eexists].
    destruct (decide (in_request i = in_request j)) as [->|]; [rewrite lookup_insert_eq; by eexists|]. rewrite lookup_insert_ne by done. by apply H2.
  - intros r n. cbn [needs set_needs]. intros [[<- <-]|[Hne E]]%lookup_insert_Some.
    + cbn [attempts complete]. split; [|done]. unfold from_inputs. cbn [fresh_pieces candidate_pieces n_geometry]. rewrite !wanted_snoc, Ef, Ec.
      assert (exists j, j ∈ inputs ++ [i] /\ in_request j = in_request i /\ n_geometry need = in_geometry j) as Hj.
      { exists i. split; [apply elem_of_app; right; by apply list_elem_of_singleton|done]. }
      destruct (in_candidate i).
      * rewrite (bool_decide_eq_false_2 (_ /\ true = false)), (bool_decide_eq_true_2 (_ /\ true = true)) by (done || by intros []).
        split; [set_solver|]. split; [done|exact Hj].
      * rewrite (bool_decide_eq_false_2 (_ /\ false = true)), (bool_decide_eq_true_2 (_ /\ false = false)) by (done || by intros []).
        split; [done|]. split; [set_solver|exact Hj].
    + destruct (H3 r n E) as [(F1 & F2 & j & Hj & F3) F4]. split; [|done]. split; [|split].
      * rewrite wanted_snoc, bool_decide_eq_false_2 by (by intros [? _]). set_solver.
      * rewrite wanted_snoc, bool_decide_eq_false_2 by (by intros [? _]). set_solver.
      * exists j. split; [|done]. apply elem_of_app. by left.
Qed.
Lemma new_needs_of inputs s : V2HashScheduler_new inputs = Ok s -> needs_of inputs s.
Proof.
  assert (forall inputs' s0 s, needs_of inputs' s0 -> insert_needs s0 inputs = Ok s -> needs_of (inputs' ++ inputs) s) as H.
  { induction inputs as [|i inputs IH]; intros inputs' s0 s'; cbn [insert_needs]; [intros H [= <-]; by rewrite app_nil_r|].
    intros H E. destruct (insert_need s0 i) as [s1| | |] eqn:E1; try done. change (i :: inputs) with ([i] ++ inputs). rewrite app_assoc. apply (IH _ s1); [|exact E]. by eapply insert_need_ok. }
  intros E. apply (H [] V2HashScheduler_default s); [|exact E]. split; [done|by intros i []%not_elem_of_nil|]. intros r n. cbn. by rewrite lookup_empty.
Qed.

(** A call that keeps the pieces and the completion of every need, and lets
    only complete needs go. *)
Definition same_need (n n' : LogicalHashNeed) : Prop :=
  n_geometry n' = n_geometry n /\ fresh_pieces n' = fresh_pieces n /\ candidate_pieces n' = candidate_pieces n /\ complete n' = complete n.
Definition keeps (s s' : V2HashScheduler) : Prop :=
  forall r, match needs s !! r, needs s' !! r with
            | Some n, Some n' => same_need n n' | Some n, None => complete n = true | None, Some _ => False | None, None => True end.
Record reported_ok (inputs : list HashNeedInput) (s : V2HashScheduler) (log : list (HashRequest * AuthenticatedPieces)) : Prop := {
  rp_wanted r n : needs s !! r = Some n -> from_inputs inputs r n;
  rp_gone i : i ∈ inputs -> needs s !! in_request i = None -> in_request i ∈ reported log;
  rp_complete r n : needs s !! r = Some n -> complete n = true <-> r ∈ reported log;
  rp_log r p : (r, p) ∈ log -> fresh p ++ candidates p <> [] ->
    fresh p = ascending (wanted inputs r false) /\ candidates p = ascending (wanted inputs r true) /\ exists i, i ∈ inputs /\ in_request i = r;
  rp_nodup : NoDup (reported log);
}.
Lemma keeps_refl s : keeps s s.
Proof. intros r. by destruct (needs s !! r). Qed.
Lemma keeps_trans s1 s2 s3 : keeps s1 s2 -> keeps s2 s3 -> keeps s1 s3.
Proof.
  intros H1 H2 r. specialize (H1 r). specialize (H2 r). unfold same_need in *.
  destruct (needs s1 !! r), (needs s2 !! r), (needs s3 !! r); try done; [|naive_solver congruence..].
  destruct H1 as (? & ? & ? & ?), H2 as (? & ? & ? & ?). split_and!; congruence.
Qed.
Lemma keeps_reported inputs s s' log : keeps s s' -> reported_ok inputs s log -> reported_ok inputs s' log.
Proof.
  intros Hk [H1 H2 H3 H4 H5]. split; [| | |done|done].
  - intros r n' E. pose proof (Hk r) as K. rewrite E in K. destruct (needs s !! r) as [n|] eqn:En; [|done].
    destruct (H1 r n En) as (F1 & F2 & F3). destruct K as (G1 & G2 & G3 & _). unfold from_inputs. rewrite G1, G2, G3. done.
  - intros i Hi E. pose proof (Hk (in_request i)) as K. rewrite E in K. destruct (needs s !! in_request i) as [n|] eqn:En; [|by apply H2].
    by apply (H3 _ n En).
  - intros r n' E. pose proof (Hk r) as K. rewrite E in K. destruct (needs s !! r) as [n|] eqn:En; [|done].
    destruct K as (_ & _ & _ & ->). by apply H3.
Qed.
Lemma keeps_prune s : keeps s (prune_completed s).
Proof.
  intros r. rewrite prune_lookup. destruct (needs s !! r) as [n|]; [|done]. destruct (complete n) eqn:E; cbn [andb]; [|done].
  by destruct (bool_decide _).
Qed.
Lemma keeps_update s r n n' : needs s !! r = Some n -> same_need n n' -> keeps s (set_needs (<[r := n']> (needs s)) s).
Proof.
  intros Hn Hs r'. cbn [needs set_needs]. destruct (decide (r = r')) as [<-|Hne]; [by rewrite Hn, lookup_insert_eq|].
  rewrite lookup_insert_ne by done. by destruct (needs s !! r').
Qed.
Lemma keeps_fmap s f : (forall n, same_need n (f n)) -> keeps s (set_needs (f <$> needs s) s).
Proof. intros Hf r. cbn [needs set_needs]. rewrite lookup_fmap. destruct (needs s !! r); cbn; [apply Hf|done]. Qed.
Lemma keeps_send_failed x r s : keeps s (send_failed x r s).
Proof.
  eapply keeps_trans; [|apply keeps_prune]. intros r'. cbn [needs set_needs]. destruct (decide (r' = r)) as [->|Hne].
  - rewrite lookup_alter_eq. by destruct (needs s !! r).
  - rewrite lookup_alter_ne by done. by destruct (needs s !! r').
Qed.
Lemma keeps_reject x r s : keeps s (receive_reject x r s).1.
Proof.
  unfold receive_reject. destruct (needs s !! r) as [n|] eqn:E; [|apply keeps_refl]. destruct (negb _); [apply keeps_refl|].
  apply (keeps_trans _ (set_needs (<[r := drop_attempt x n]> (needs s)) s)); [by eapply keeps_update|apply keeps_prune].
Qed.
Lemma keeps_round now maximum eligible reserved keys s l s' : round_ok now maximum eligible reserved keys s l s' -> keeps s s'.
Proof.
  intros H r. destruct (decide (r ∈ map as_request l)) as [Hr|Hr].
  - apply list_elem_of_fmap in Hr as (a & -> & Ha). rewrite (ro_assigned _ _ _ _ _ _ _ _ H a Ha). by destruct (needs s !! as_request a).
  - rewrite (ro_other _ _ _ _ _ _ _ _ H r Hr). by destruct (needs s !! r).
Qed.
Lemma replace_loop_ok priorities keys : forall s, (forall r, r ∈ keys -> is_Some (needs s !! r)) ->
  exists s' r, replace_loop priorities keys s = (s', r) /\ returns r /\ keeps s s' /\ shrinks s s'.
Proof.
  induction keys as [|r keys IH]; intros s Hk; cbn [replace_loop].
  { exists s, (Ok tt). split; [done|]. split; [done|]. split; [apply keeps_refl|]. split; [done|]. intros r n E. by exists n. }
  rewrite get_bind. destruct (Hk r (list_elem_of_here _ _)) as [n Hn]. rewrite Hn. cbn [expect]. rewrite lift_ok_bind.
  destruct (fold_priorities priorities (pieces_of n) Normal) as [p|e| |] eqn:E.
  - rewrite lift_ok_bind, modify_bind. set (s1 := set_needs _ s). destruct (IH s1) as (s' & o & E' & Ho & K & Sh).
    { intros r' Hr'. cbn [needs s1 set_needs]. destruct (decide (r = r')) as [->|]; [rewrite lookup_insert_eq; by eexists|].
      rewrite lookup_insert_ne by done. by apply Hk, list_elem_of_further. }
    exists s', o. split; [done|]. split; [done|]. split; [apply (keeps_trans _ s1); [by eapply keeps_update|exact K]|].
    destruct Sh as [Sh1 Sh2]. destruct (shrinks_update s r n (set_priority p n) Hn (reflexivity _)) as [_ Sh3]. split; [done|].
    intros r' n' En. destruct (Sh2 r' n' En) as (n1 & En1 & Hsub). destruct (Sh3 r' n1 En1) as (n0 & En0 & Hsub0). exists n0. split; [done|]. by etransitivity.
  - exists s, (Err e). split; [done|]. split; [done|]. split; [apply keeps_refl|]. split; [done|]. intros r' n' E'. by exists n'.
  - exfalso. revert E. generalize Normal. induction (pieces_of n) as [|x l IHl]; intros q; cbn; [done|]. destruct (nth_get priorities x); [apply IHl|done].
  - exfalso. revert E. generalize Normal. induction (pieces_of n) as [|x l IHl]; intros q; cbn; [done|]. destruct (nth_get priorities x); [apply IHl|done].
Qed.
Lemma replace_ok priorities s : exists s' r, replace_piece_priorities priorities s = (s', r) /\ returns r /\ keeps s s' /\ shrinks s s'.
Proof.
  unfold replace_piece_priorities. rewrite get_bind. apply replace_loop_ok. intros r Hr. unfold request_keys in Hr.
  rewrite (sort_by_perm request_cmp) in Hr. apply list_elem_of_fmap in Hr as ([r' n] & -> & E%elem_of_map_to_list). by exists n.
Qed.

(** ** Answers *)
Definition typed_inputs (inputs : list HashNeedInput) : Prop :=
  forall i, i ∈ inputs -> geometry_typed (in_geometry i) /\ request_typed (in_request i).
(** What an answer to an attempt that the connection owns does. *)
Definition answered (sha256 : list Z -> Sha256Hash) (x : Z) (response : HashResponse) (need : LogicalHashNeed)
    (s : V2HashScheduler) (c : V2HashCatalog) (s' : V2HashScheduler) (c' : V2HashCatalog) (d : HashResponseDisposition) : Prop :=
  let r := hs_request response in
  match insert_response sha256 (n_geometry need) response c with
  | (c1, Ok inserted) => c' = c1 /\ d = Accepted (authenticated_of need inserted)
      /\ s' = prune_completed (set_needs (<[r := set_complete (drop_attempt x need)]> (needs s)) s)
  | (_, Err e) => c' = c /\ d = BadProof e /\ s' = set_needs (<[r := drop_attempt x need]> (needs s)) s
  | _ => False
  end.
Lemma no_attempt_count x s : peer_has_attempt x s = (0 <? peer_attempt_count x s).
Proof.
  unfold peer_has_attempt. case_bool_decide as H; cbn [negb]; symmetry.
  - apply Z.ltb_ge. unfold peer_attempt_count. etransitivity; [apply (sum_over_mono (fun _ => 0) _ (needs s)); [lia|]|].
    + intros r n E. exists n. split; [done|]. by rewrite (H r n E).
    + clear. induction (needs s) as [|r n m Hr IH] using map_ind; [done|]. rewrite sum_over_insert by done. lia.
  - apply Z.ltb_lt. assert (forall (r : HashRequest) need, Decision ((fun _ need => has_attempt x need = false) r need)) as D by (intros r need; exact (bool_eq_dec (has_attempt x need) false)).
    pose proof (proj1 (map_not_Forall (fun (_ : HashRequest) need => has_attempt x need = false) (needs s)) H) as (r & n & E & Hn).
    apply not_false_is_true in Hn. pose proof (sum_over_lookup (fun need => Z.b2z (has_attempt x need)) (needs s) r n) as Hle.
    unfold peer_attempt_count. cbv beta in Hle. rewrite Hn in Hle. cbn [Z.b2z] in Hle. enough (1 <= sum_over (fun need => Z.b2z (has_attempt x need)) (needs s)) by lia.
    apply Hle; [|done]. intros r' n' _. by destruct (has_attempt x n').
Qed.
Lemma response_cases sha256 inputs x response s c log : typed_inputs inputs -> reported_ok inputs s log -> catalog_ok c ->
  exists s' c' d, receive_response sha256 x response s c = (s', c', Ok d)
  /\ ((owns_attempt x (hs_request response) s = false /\ s' = s /\ c' = c /\ d = if 0 <? peer_attempt_count x s then Mismatched else Unsolicited)
      \/ (exists need, needs s !! hs_request response = Some need /\ has_attempt x need = true /\ answered sha256 x response need s c s' c' d)).
Proof.
  intros Hty Hrep Hc. unfold receive_response, owns_attempt, answered. rewrite no_attempt_count.
  destruct (needs s !! hs_request response) as [need|] eqn:E; [|by eexists _, _, _; split; [reflexivity|left]].
  destruct (has_attempt x need) eqn:Ea; cbn [negb]; [|by eexists _, _, _; split; [reflexivity|left]].
  destruct (rp_wanted _ _ _ Hrep _ _ E) as (_ & _ & i & Hi & Er & Eg). destruct (Hty i Hi) as [Hg Hr]. rewrite <- Eg in Hg. rewrite Er in Hr.
  pose proof (insert_response_inv sha256 (n_geometry need) response c Hc Hg Hr) as Hins.
  destruct (insert_response sha256 (n_geometry need) response c) as [c1 [n|e| |]] eqn:Eins; [| |done..].
  - eexists _, _, _. split; [reflexivity|]. right. exists need. by rewrite Eins.
  - subst c1. eexists _, _, _. split; [reflexivity|]. right. exists need. by rewrite Eins.
Qed.
Lemma reported_app log k : reported (log ++ k) = reported log ++ reported k.
Proof. unfold reported. by rewrite filter_app, fmap_app. Qed.
Lemma ascending_nil X : ascending X = [] <-> X = ∅.
Proof.
  split; [|intros ->; done]. intros E. apply set_eq. intros x. rewrite <- elem_of_ascending, E. set_solver.
Qed.
(** The first accepted answer of a need. *)
Lemma reported_first inputs s log r need x k : reported_ok inputs s log -> needs s !! r = Some need -> complete need = false ->
  reported_ok inputs (set_needs (<[r := set_complete (drop_attempt x need)]> (needs s)) s) (log ++ [(r, authenticated_of need k)])
  /\ reported [(r, authenticated_of need k)] = [r].
Proof.
  intros [H1 H2 H3 H4 H5] E Ec. destruct (H1 r need E) as (F1 & F2 & i & Hi & Er & Eg).
  assert (authenticated_of need k = mkAuthenticated (ascending (wanted inputs r false)) (ascending (wanted inputs r true)) k) as Ep.
  { unfold authenticated_of. by rewrite Ec, F1, F2. }
  assert (reported [(r, authenticated_of need k)] = [r]) as Erep.
  { unfold reported. rewrite filter_cons, decide_True; [done|]. rewrite Ep. cbn. intros [E1%ascending_nil E2%ascending_nil]%app_eq_nil.
    pose proof (elem_of_wanted inputs i Hi) as Hw. rewrite Er in Hw. destruct (in_candidate i); rewrite ?E1, ?E2 in Hw; set_solver. }
  assert (r ∉ reported log) as Hnot. { intros Hin%(H3 r need E). congruence. }
  split; [|done]. split.
  - intros r' n'. cbn [needs set_needs]. intros [[<- <-]|[_ E']]%lookup_insert_Some; [|by apply H1]. split; [done|]. split; [done|]. by exists i.
  - intros j Hj. cbn [needs set_needs]. intros [E' _]%lookup_insert_None. rewrite reported_app, elem_of_app. left. by apply H2.
  - intros r' n'. cbn [needs set_needs]. rewrite reported_app, Erep, elem_of_app, list_elem_of_singleton.
    intros [[<- <-]|[Hne E']]%lookup_insert_Some; [split; [by right|done]|]. rewrite (H3 _ _ E'). naive_solver.
  - intros r' p [Hin|Hp%list_elem_of_singleton]%elem_of_app Hne; [by apply H4|]. injection Hp as -> ->. rewrite Ep. cbn. split; [done|]. split; [done|]. by exists i.
  - rewrite reported_app, Erep. apply NoDup_app. split; [done|]. split; [|apply NoDup_singleton]. intros y Hy ->%list_elem_of_singleton. done.
Qed.
Lemma reported_silent inputs s log r p : fresh p ++ candidates p = [] -> reported_ok inputs s log -> reported_ok inputs s (log ++ [(r, p)]).
Proof.
  intros Hp [H1 H2 H3 H4 H5]. assert (reported (log ++ [(r, p)]) = reported log) as E.
  { rewrite reported_app. unfold reported at 2. rewrite filter_cons, decide_False by (intros Hne; by apply Hne). apply app_nil_r. }
  split; rewrite ?E; try done. intros r' p' [Hin|Hp'%list_elem_of_singleton]%elem_of_app Hne; [by apply H4|]. injection Hp' as -> ->. done.
Qed.
Lemma answered_ok sha256 inputs x response need s c log s' c' d : typed_inputs inputs -> sched_ok s -> reported_ok inputs s log -> catalog_ok c ->
  needs s !! hs_request response = Some need -> answered sha256 x response need s c s' c' d ->
  sched_ok s' /\ reported_ok inputs s' (log ++ log_of (hs_request response) d) /\ catalog_ok c'.
Proof.
  intros Hty Hs Hrep Hc E H. unfold answered in H. destruct (rp_wanted _ _ _ Hrep _ _ E) as (_ & _ & i & Hi & Er & Eg). destruct (Hty i Hi) as [Hg Hr]. rewrite <- Eg in Hg. rewrite Er in Hr.
  pose proof (insert_response_inv sha256 (n_geometry need) response c Hc Hg Hr) as Hins.
  destruct (insert_response sha256 (n_geometry need) response c) as [c1 [n|e| |]]; [| |done..].
  - destruct H as (-> & -> & ->). destruct Hins as (_ & _ & _ & _ & Hc' & _). cbn [log_of].
    split; [|split; [|done]].
    + eapply shrinks_ok; [|exact Hs]. apply shrinks_prune. by eapply shrinks_update; [|apply drop_subseteq].
    + destruct (complete need) eqn:Ec.
      * apply reported_silent; [unfold authenticated_of; by rewrite Ec|]. eapply keeps_reported; [|exact Hrep].
        eapply keeps_trans; [|apply keeps_prune]. eapply keeps_update; [done|]. split_and!; done.
      * eapply keeps_reported; [apply keeps_prune|]. by apply reported_first.
  - destruct H as (-> & -> & ->). cbn [log_of]. rewrite app_nil_r. split; [|split; [|done]].
    + eapply shrinks_ok; [|exact Hs]. by eapply shrinks_update; [|apply drop_subseteq].
    + eapply keeps_reported; [|exact Hrep]. by eapply keeps_update.
Qed.
Lemma run_ok sha256 inputs s c log : typed_inputs inputs -> hash_run sha256 inputs s c log -> sched_ok s /\ reported_ok inputs s log /\ catalog_ok c.
Proof.
  intros Hty H. induction H as [s c Hnew Hc|s c log now maximum eligible reserved s' l _ (Hs & Hrep & Hc) Hres E|s c log priorities s' r _ (Hs & Hrep & Hc) E
    |s c log x request _ (Hs & Hrep & Hc)|s c log x response s' c' d _ (Hs & Hrep & Hc) E|s c log x request _ (Hs & Hrep & Hc)|s c log x _ (Hs & Hrep & Hc)|s c log retained _ (Hs & Hrep & Hc)].
  - destruct (new_needs_of inputs s Hnew) as [H1 H2 H3]. split; [|split; [|done]]; split; try done.
    + intros r n E. destruct (H3 r n E) as (_ & -> & _). done.
    + intros x. assert (peer_attempt_count x s <= 0); [|unfold MAX_HASH_ATTEMPTS_PER_PEER; lia].
      etransitivity; [apply (sum_over_mono (fun _ => 0) _ (needs s)); [lia|]|].
      * intros r n E. exists n. split; [done|]. destruct (H3 r n E) as (_ & Ea & _). unfold has_attempt. by rewrite Ea.
      * clear. induction (needs s) as [|r n m Hr IH] using map_ind; [done|]. rewrite sum_over_insert by done. lia.
    + rewrite H1. split; [|done]. etransitivity; [apply (sum_over_mono (fun _ => 0) _ (needs s)); [lia|]|].
      * intros r n E. exists n. split; [done|]. destruct (H3 r n E) as (_ & Ea & _). by rewrite Ea.
      * clear. induction (needs s) as [|r n m Hr IH] using map_ind; [done|]. rewrite sum_over_insert by done. lia.
    + intros r n E. apply (H3 r n E).
    + intros i Hi E. destruct (H2 i Hi) as [? ?]. congruence.
    + intros r n E. destruct (H3 r n E) as (_ & _ & ->). split; [done|]. intros []%not_elem_of_nil.
    + by intros r p []%not_elem_of_nil.
    + apply NoDup_nil_2.
  - destruct (schedule_round_ok now maximum eligible reserved s Hres Hs) as (s1 & l1 & E1 & Hround & Hs1). rewrite E1 in E. injection E as <- <-.
    split; [done|]. split; [|done]. eapply keeps_reported; [by eapply keeps_round|done].
  - destruct (replace_ok priorities s) as (s1 & r1 & E1 & _ & K & Sh). rewrite E1 in E. injection E as <- <-.
    split; [by eapply shrinks_ok|]. split; [by eapply keeps_reported|done].
  - split; [eapply shrinks_ok; [apply shrinks_send_failed|done]|]. split; [eapply keeps_reported; [apply keeps_send_failed|done]|done].
  - destruct (response_cases sha256 inputs x response s c log Hty Hrep Hc) as (s1 & c1 & d1 & E1 & [(_ & -> & -> & ->)|(need & En & _ & Han)]);
      rewrite E1 in E; injection E as <- <- <-.
    + split; [done|]. split; [|done]. destruct (0 <? _); cbn [log_of]; by rewrite app_nil_r.
    + by eapply answered_ok.
  - split; [eapply shrinks_ok; [apply shrinks_reject|done]|]. split; [eapply keeps_reported; [apply keeps_reject|done]|done].
  - split; [eapply shrinks_ok; [apply shrinks_disconnected|done]|]. split; [|done].
    eapply keeps_reported; [eapply keeps_trans; [|apply keeps_prune]; by apply keeps_fmap|done].
  - split; [eapply shrinks_ok; [apply shrinks_retain|done]|]. split; [|done].
    eapply keeps_reported; [eapply keeps_trans; [|apply keeps_prune]; by apply keeps_fmap|done].
Qed.

(** * Properties *)

(** C24: One round of scheduling, in any state a torrent can reach: it
    returns; the needs are served in their order (needs with fresh pieces
    first, then by priority, by lowest piece, by request), at most one new
    attempt per need, to the first eligible connection that is not trying it
    and has less than two attempts, reservations elsewhere included; a second
    attempt starts only three seconds after the first; the limit of the
    torrent is kept.  An incomplete need gets nothing only for one of these
    reasons: two attempts, a recent one, no eligible connection left, or the
    limit reached, and then no later need gets anything either. *)
Theorem hash_schedule_exact sha256 inputs s c log now maximum eligible reserved :
  typed_inputs inputs -> hash_run sha256 inputs s c log -> (forall x, 0 <= reserved x) ->
  let limit := Z.min maximum MAX_HASH_ATTEMPTS_PER_TORRENT in
  exists s' l, schedule_with_reservations now maximum eligible reserved s = (s', Ok l)
  /\ (forall a, a ∈ l -> needs s' !! as_request a = add_attempt (as_connection a) now <$> needs s !! as_request a)
  /\ (forall r, r ∉ map as_request l -> needs s' !! r = needs s !! r)
  /\ sublist (map as_request l) (schedule_keys s)
  /\ Forall (well_assigned now eligible reserved s s') l
  /\ active_attempts s' = active_attempts s + len l /\ active_attempts s' <= Z.max (active_attempts s) limit
  /\ (forall r need, needs s !! r = Some need -> complete need = false -> r ∉ map as_request l ->
      well_left now eligible reserved s' need
      \/ limit <= active_attempts s' /\ forall r' need', needs s !! r' = Some need' -> need_cmp (r, need) (r', need') = Lt -> r' ∉ map as_request l).
Proof.
  intros Hty Hrun Hres limit. destruct (run_ok _ _ _ _ _ Hty Hrun) as (Hs & _ & _).
  destruct (schedule_round_ok now maximum eligible reserved s Hres Hs) as (s' & l & E & H & _). exists s', l. split; [done|]. destruct H as [H1 H2 H3 H4 H5 H6 _ _ _ H10].
  split_and!; try done. intros r need Hr Hc Hnot. unfold schedule_keys in *.
  set (L := sort_by need_cmp _) in *. assert ((r, need) ∈ L) as HL.
  { apply elem_of_sort_by, list_elem_of_filter. split; [done|]. by apply elem_of_map_to_list. }
  pose proof (sort_by_sorted need_cmp _ : StronglySorted (cmp_le need_cmp) L) as Hsort.
  assert (forall r' need', needs s !! r' = Some need' -> r' ∈ L.*1 -> (r', need') ∈ L) as Hval.
  { intros r' need' E' ([r1 n1] & -> & Hin)%list_elem_of_fmap. pose proof Hin as [_ E1%elem_of_map_to_list]%elem_of_sort_by%list_elem_of_filter. cbn in E' |- *. assert (n1 = need') as <- by congruence. exact Hin. }
  apply list_elem_of_split in HL as (L1 & L2 & EL). destruct (H10 L1.*1 r L2.*1) as [(n & En & Hw)|[Hlim Hk]]; [by rewrite EL, fmap_app|done| |].
  - left. congruence.
  - right. split; [done|]. intros r' need' Hr' Hlt Hin. apply (Hk r'); [|done]. apply list_elem_of_fmap. exists (r', need'). split; [done|].
    apply (sorted_after need_cmp L1 (r, need)); [by rewrite <- EL| |done]. rewrite <- EL. apply Hval; [done|]. eapply elem_of_submseteq; [exact Hin|by apply sublist_submseteq].
Qed.

(** Every answer is settled, in any state a torrent can reach, without
    a panic.  An answer to an attempt the connection does not own changes
    neither the scheduler nor the catalog; it is a mismatch if the connection
    has other attempts and unsolicited if it has none.  An answer to its own
    attempt ends that attempt, and goes to the catalog: refused there, the
    catalog is unchanged and the need keeps waiting; accepted, the need is
    complete and goes with its last attempt.  At all times a request has at
    most two attempts, a connection two, the torrent sixteen, the high-water
    mark included. *)
Theorem hash_response_exact sha256 inputs s c log x response :
  typed_inputs inputs -> hash_run sha256 inputs s c log ->
  ((forall r n, needs s !! r = Some n -> Z.of_nat (size (attempts n)) <= MAX_HASH_ATTEMPTS_PER_RANGE)
    /\ (forall y, peer_attempt_count y s <= MAX_HASH_ATTEMPTS_PER_PEER)
    /\ active_attempts s <= active_attempts_high_water s <= MAX_HASH_ATTEMPTS_PER_TORRENT)
  /\ exists s' c' d, receive_response sha256 x response s c = (s', c', Ok d) /\ catalog_ok c'
  /\ (owns_attempt x (hs_request response) s = false -> s' = s /\ c' = c /\ d = if 0 <? peer_attempt_count x s then Mismatched else Unsolicited)
  /\ (owns_attempt x (hs_request response) s = true ->
      owns_attempt x (hs_request response) s' = false
      /\ exists need, needs s !! hs_request response = Some need /\ answered sha256 x response need s c s' c' d).
Proof.
  intros Hty Hrun. destruct (run_ok _ _ _ _ _ Hty Hrun) as (Hs & Hrep & Hc). split; [by destruct Hs|].
  destruct (response_cases sha256 inputs x response s c log Hty Hrep Hc) as (s' & c' & d & E & H). exists s', c', d. split; [done|].
  destruct H as [(Ho & -> & -> & ->)|(need & En & Ha & Han)].
  - split; [done|]. split; [done|]. rewrite Ho. done.
  - split; [by eapply answered_ok|]. unfold owns_attempt. rewrite En, Ha. split; [done|]. intros _. split; [|by exists need].
    unfold answered in Han. destruct (insert_response sha256 (n_geometry need) response c) as [c1 [n|e| |]]; [| |done..]; destruct Han as (_ & _ & ->).
    + rewrite prune_lookup. cbn [needs set_needs]. rewrite lookup_insert_eq. destruct (_ && _); [done|]. change (has_attempt x (drop_attempt x need) = false).
      by rewrite has_attempt_drop, bool_decide_eq_true_2.
    + cbn [needs set_needs]. rewrite lookup_insert_eq. by rewrite has_attempt_drop, bool_decide_eq_true_2.
Qed.

(** Pieces are released once.  Over the whole life of a scheduler, under
    any rounds, answers, rejections, failures, disconnections and changes of
    priority, each request releases its pieces at most once, and then exactly
    the pieces that waited for it, fresh ones and candidates, in ascending
    order; and the scheduler is complete exactly when every piece it was
    created for has been released. *)
Theorem pieces_released_once sha256 inputs s c log : typed_inputs inputs -> hash_run sha256 inputs s c log ->
  NoDup (reported log)
  /\ (forall r p, (r, p) ∈ log -> fresh p ++ candidates p <> [] ->
      fresh p = ascending (wanted inputs r false) /\ candidates p = ascending (wanted inputs r true))
  /\ (is_complete s = true <-> forall i, i ∈ inputs -> in_request i ∈ reported log
        /\ exists p, (in_request i, p) ∈ log /\ in_piece i ∈ fresh p ++ candidates p).
Proof.
  intros Hty Hrun. destruct (run_ok _ _ _ _ _ Hty Hrun) as (_ & [H1 H2 H3 H4 H5] & _). split; [done|].
  split; [intros r p Hp Hne; by destruct (H4 r p Hp Hne) as (? & ? & _)|]. unfold is_complete. rewrite bool_decide_eq_true. split.
  - intros Hall i Hi. assert (in_request i ∈ reported log) as Hr.
    { destruct (needs s !! in_request i) as [n|] eqn:E; [|by apply H2]. apply (H3 _ n E). by apply (Hall _ n E). }
    split; [done|]. apply list_elem_of_fmap in Hr as ([r p] & Er & [Hne Hp]%list_elem_of_filter). cbn in Er, Hne. subst r. exists p. split; [done|].
    destruct (H4 _ p Hp Hne) as (-> & -> & _). apply elem_of_app. rewrite !elem_of_ascending. pose proof (elem_of_wanted inputs i Hi) as Hw.
    destruct (in_candidate i); [by right|by left].
  - intros Hall r n E. destruct (H1 r n E) as (_ & _ & i & Hi & <- & _). apply (H3 _ n E), Hall, Hi.
Qed.

(** * Witnesses: the three pieces of the sample file of [V2Hashes], one request *)
Definition sample_needs : list HashNeedInput :=
  [mkNeedInput sample_geometry sample_request 0 false Normal; mkNeedInput sample_geometry sample_request 1 true High].
Definition sample_scheduler : V2HashScheduler :=
  match V2HashScheduler_new sample_needs with Ok s => s | _ => V2HashScheduler_default end.
Definition sample_catalog : V2HashCatalog :=
  match V2HashCatalog_new 3 with Ok c => c | _ => mkCatalog (mkPieceRoots 0 [] [] 0) [] 0 end.
Definition sample_round := schedule_with_reservations 0 16 (fun _ => [7]) (fun _ => 0) sample_scheduler.
Lemma sample_needs_typed : typed_inputs sample_needs.
Proof. intros i [->|[->|[]%not_elem_of_nil]%elem_of_cons]%elem_of_cons; apply sample_typed. Qed.
Lemma sample_runs : exists c, catalog_ok c /\ c = sample_catalog /\ hash_run toy_sha256 sample_needs sample_scheduler c []
  /\ hash_run toy_sha256 sample_needs sample_round.1 c [].
Proof.
  destruct (new_catalog_ok 3) as (c & E & Hc & _); [vm_compute; split; congruence|]. exists c. split; [done|]. split; [unfold sample_catalog; by rewrite E|].
  assert (hash_run toy_sha256 sample_needs sample_scheduler c []) as H by (apply run_new; [vm_compute; exact eq_refl|done]). split; [exact H|].
  eapply (run_schedule _ _ _ _ _ 0 16 (fun _ => [7]) (fun _ => 0)); [exact H|done|vm_compute; exact eq_refl].
Qed.
(** The one request is assigned to connection 7. *)
Lemma hash_schedule_exact_witness : exists s' l, sample_round = (s', Ok l) /\ active_attempts s' = len l /\ l = [mkAssignment 7 sample_request].
Proof.
  destruct sample_runs as (c & _ & _ & H & _).
  destruct (hash_schedule_exact toy_sha256 sample_needs sample_scheduler c [] 0 16 (fun _ => [7]) (fun _ => 0) sample_needs_typed H ltac:(done))
    as (s' & l & E & _ & _ & _ & _ & Ha & _).
  exists s', l. split; [exact E|]. split; [rewrite Ha; assert (active_attempts sample_scheduler = 0) as -> by (vm_compute; exact eq_refl); lia|]. assert (Ok l = sample_round.2) as El by (unfold sample_round; by rewrite E).
  revert El. vm_compute. congruence.
Defined.
(** Its answer is accepted. *)
Lemma hash_response_exact_witness : exists c s' c' d, receive_response toy_sha256 7 sample_response sample_round.1 c = (s', c', Ok d)
  /\ owns_attempt 7 sample_request s' = false /\ d = Accepted (mkAuthenticated [0] [1] 2).
Proof.
  destruct sample_runs as (c & _ & Ec & _ & H). exists c.
  destruct (hash_response_exact toy_sha256 sample_needs sample_round.1 c [] 7 sample_response sample_needs_typed H) as (_ & s' & c' & d & E & _ & _ & Ho).
  destruct Ho as (Ho & need & En & Han); [vm_compute; exact eq_refl|]. exists s', c', d. split; [exact E|]. split; [exact Ho|].
  revert E. rewrite Ec. vm_compute. congruence.
Defined.
(** And it completes the scheduler. *)
Lemma pieces_released_once_witness : exists s c log, hash_run toy_sha256 sample_needs s c log /\ is_complete s = true
  /\ forall i, i ∈ sample_needs -> in_request i ∈ reported log.
Proof.
  destruct sample_runs as (c & _ & Ec & _ & H). destruct (receive_response toy_sha256 7 sample_response sample_round.1 c) as [[s' c'] o] eqn:E.
  assert (o = Ok (Accepted (mkAuthenticated [0] [1] 2))) as ->.
  { transitivity (receive_response toy_sha256 7 sample_response sample_round.1 c).2; [by rewrite E|]. rewrite Ec. vm_compute. exact eq_refl. }
  assert (is_complete s' = true) as Hco.
  { transitivity (is_complete (receive_response toy_sha256 7 sample_response sample_round.1 c).1.1); [by rewrite E|]. rewrite Ec. vm_compute. exact eq_refl. }
  pose proof (run_response _ _ _ _ _ _ _ _ _ _ H E) as Hrun. eexists s', c', _. split; [exact Hrun|]. split; [exact Hco|].
  destruct (pieces_released_once _ _ _ _ _ sample_needs_typed Hrun) as (_ & _ & [Hd _]). intros i Hi. apply Hd; [exact Hco|exact Hi].
Defined.
