(* ===== verification/V2Layout.v ===== *)
(** * The geometry of a v2 torrent

    [crates/rstorrent-protocol/src/v2_layout.rs]: the files of a BEP 52
    torrent each start at a piece of their own.  The layout is built from the
    lengths of the files, and maps a piece to the bytes of the one file it
    covers and a range of a file to its pieces. *)
From S2P Require Import Prelude Merkle PeerWire.

Record V2FileGeometry := mkFileGeometry {
  file_index : Z;
  length : Z;
  logical_offset : Z;
  start_piece : Z;
  piece_count : Z;
  alignment_gap_before : Z;
}.
Record V2PieceGeometry := mkPieceGeometry {
  pg_piece_index : Z;
  pg_file_index : Z;
  pg_local_piece : Z;
  pg_logical_offset : Z;
  pg_file_offset : Z;
  pg_payload_length : Z;
}.
Record V2AlignmentGap := mkGap { gap_before_file_index : Z; gap_logical_offset : Z; gap_length : Z }.
Record V2TorrentLayout := mkV2Layout {
  l_piece_length : Z;
  l_payload_length : Z;
  l_logical_length : Z;
  l_piece_count : Z;
  l_files : list V2FileGeometry;
}.
Inductive V2LayoutError :=
| InvalidPieceLength (length : Z)
| EmptyPayload
| TooManyPieces (actual maximum : Z)
| InvalidFileIndex (index file_count : Z)
| InvalidPieceIndex (index piece_count : Z)
| EmptyFileRange
| FileRangeOutOfBounds (file_index offset length file_length : Z)
| ArithmeticOverflow.

Abbreviation checked o := (ok_or o ArithmeticOverflow).

Definition end_piece (f : V2FileGeometry) : outcome V2LayoutError Z := expect (checked_add 32 (start_piece f) (piece_count f)).
Definition piece_range (f : V2FileGeometry) : outcome V2LayoutError (Z * Z) :=
  e ← end_piece f; Ok (start_piece f, e).

Definition align_up (value alignment : Z) : outcome V2LayoutError Z :=
  if alignment =? 0 then Panic
  else if value mod alignment =? 0 then Ok value
  else checked (checked_add 64 value (alignment - value mod alignment)).

(** The loop over the file lengths; it yields the files placed, the payload,
    the end of the last file and the number of pieces. *)
Fixpoint place_files (piece_length max_pieces : Z) (lengths : list Z) (index payload cursor count : Z)
    : outcome V2LayoutError (list V2FileGeometry * Z * Z * Z) :=
  match lengths with
  | [] => Ok ([], payload, cursor, count)
  | length :: r =>
    payload ← checked (checked_add 64 payload length);
    if length =? 0 then
      start ← checked (try_u 32 count);
      '(files, payload, last, total) ← place_files piece_length max_pieces r (index + 1) payload cursor count;
      Ok (mkFileGeometry index length cursor start 0 0 :: files, payload, last, total)
    else
      aligned ← align_up cursor piece_length;
      gap ← checked (checked_sub aligned cursor);
      local ← checked (try_u USIZE (div_ceil length piece_length));
      next ← checked (checked_add USIZE count local);
      if max_pieces <? next then Err (TooManyPieces next max_pieces)
      else
        start ← checked (try_u 32 count);
        local ← checked (try_u 32 local);
        cursor ← checked (checked_add 64 aligned length);
        '(files, payload, last, total) ← place_files piece_length max_pieces r (index + 1) payload cursor next;
        Ok (mkFileGeometry index length aligned start local gap :: files, payload, last, total)
  end.
Definition piece_length_valid (piece_length : Z) : bool :=
  (MIN_BEP52_PIECE_LENGTH <=? piece_length) && (piece_length <=? MAX_BEP52_PIECE_LENGTH) && is_power_of_two piece_length.
Definition new_with_piece_limit (piece_length : Z) (file_lengths : list Z) (max_pieces : Z) : outcome V2LayoutError V2TorrentLayout :=
  if negb (piece_length_valid piece_length) then Err (InvalidPieceLength piece_length)
  else
    '(files, payload, last, count) ← place_files piece_length max_pieces file_lengths 0 0 0 0;
    if payload =? 0 then Err EmptyPayload
    else Ok (mkV2Layout piece_length payload last count files).
Definition V2TorrentLayout_new (piece_length : Z) (file_lengths : list Z) : outcome V2LayoutError V2TorrentLayout :=
  new_with_piece_limit piece_length file_lengths MAX_METAINFO_PIECES.

Definition gap_of (f : V2FileGeometry) : option V2AlignmentGap :=
  if negb (alignment_gap_before f =? 0)
  then Some (mkGap (file_index f) (logical_offset f - alignment_gap_before f) (alignment_gap_before f))
  else None.
Definition alignment_gaps (l : V2TorrentLayout) : list V2AlignmentGap := omap gap_of (l_files l).

(** [partition_point] on files whose ends ascend: the files before the first
    one that ends after the piece. *)
Fixpoint files_ending_by (index : Z) (files : list V2FileGeometry) : outcome V2LayoutError (list V2FileGeometry) :=
  match files with
  | [] => Ok []
  | f :: r => e ← end_piece f; if e <=? index then files_ending_by index r else Ok (f :: r)
  end.
Definition piece (l : V2TorrentLayout) (index : Z) : outcome V2LayoutError V2PieceGeometry :=
  if l_piece_count l <=? index then Err (InvalidPieceIndex index (l_piece_count l))
  else
    rest ← files_ending_by index (l_files l);
    file ← checked (f ← head rest; if negb (piece_count f =? 0) then Some f else None);
    local_piece ← checked (checked_sub index (start_piece file));
    file_offset ← checked (checked_mul 64 local_piece (l_piece_length l));
    remaining ← checked (checked_sub (length file) file_offset);
    payload_length ← checked (try_u 32 (Z.min remaining (l_piece_length l)));
    logical_offset ← checked (checked_add 64 (logical_offset file) file_offset);
    Ok (mkPieceGeometry index (file_index file) local_piece logical_offset file_offset payload_length).

Definition file_piece_range (l : V2TorrentLayout) (index : Z) : outcome V2LayoutError (Z * Z) :=
  match nth_get (l_files l) index with
  | Some f => piece_range f
  | None => Err (InvalidFileIndex index (len (l_files l)))
  end.
Definition file_range_to_pieces (l : V2TorrentLayout) (index offset length' : Z) : outcome V2LayoutError (Z * Z) :=
  if length' =? 0 then Err EmptyFileRange
  else
    file ← ok_or (nth_get (l_files l) index) (InvalidFileIndex index (len (l_files l)));
    last_byte ← checked (checked_add 64 offset length');
    if length file <? last_byte then Err (FileRangeOutOfBounds index offset length' (length file))
    else
      first ← checked (try_u 32 (offset / l_piece_length l));
      first ← checked (checked_add 32 (start_piece file) first);
      last ← checked (try_u 32 ((last_byte - 1) / l_piece_length l));
      last ← checked (checked_add 32 last 1);
      last ← checked (checked_add 32 (start_piece file) last);
      Ok (first, last).

(** * Specification *)

(** The files of a layout that starts at file [index] and piece [start]. *)
Fixpoint geometry_ok (piece_length index start : Z) (files : list V2FileGeometry) : Prop :=
  match files with
  | [] => True
  | f :: r => file_index f = index /\ start_piece f = start /\ 0 <= length f < 2 ^ 64
      /\ piece_count f = div_ceil (length f) piece_length
      /\ (0 < length f -> logical_offset f = start * piece_length)
      /\ geometry_ok piece_length (index + 1) (start + piece_count f) r
  end.
Fixpoint total_pieces (files : list V2FileGeometry) : Z :=
  match files with [] => 0 | f :: r => piece_count f + total_pieces r end.
Fixpoint total_payload (files : list V2FileGeometry) : Z :=
  match files with [] => 0 | f :: r => length f + total_payload r end.
Record layout_ok (l : V2TorrentLayout) : Prop := {
  lo_piece_length : piece_length_valid (l_piece_length l) = true;
  lo_files : geometry_ok (l_piece_length l) 0 0 (l_files l);
  lo_pieces : l_piece_count l = total_pieces (l_files l);
  lo_payload : l_payload_length l = total_payload (l_files l);
  lo_typed : l_piece_count l < 2 ^ 32 /\ 0 < l_payload_length l < 2 ^ 64;
  lo_logical : l_piece_count l * l_piece_length l < 2 ^ 64 + l_piece_length l;
}.

Lemma piece_length_bounds n : piece_length_valid n = true -> 16384 <= n <= 268435456.
Proof.
  unfold piece_length_valid, MIN_BEP52_PIECE_LENGTH, MAX_BEP52_PIECE_LENGTH, MERKLE_BLOCK_SIZE.
  intros [[H1 H2]%andb_prop _]%andb_prop. lia.
Qed.
Lemma div_ceil_bounds a b : 0 < b -> 0 <= a -> 0 <= div_ceil a b /\ a <= div_ceil a b * b < a + b /\ (0 < a -> 0 < div_ceil a b).
Proof. intros Hb Ha. unfold div_ceil. Z.to_euclidean_division_equations. nia. Qed.
Lemma div_ceil_0 b : 0 < b -> div_ceil 0 b = 0.
Proof. intros Hb. unfold div_ceil. apply Z.div_small. lia. Qed.
Lemma multiple_above value count n : 0 < n -> value <= count * n < value + n ->
  value mod n = 0 /\ value = count * n \/ value mod n <> 0 /\ n - value mod n = count * n - value.
Proof.
  intros Hn Hv. pose proof (Z.div_mod value n ltac:(lia)) as Hdm. pose proof (Z.mod_pos_bound value n Hn) as Hm.
  assert (count = value / n \/ count = value / n + 1) as [-> | ->] by nia; [left|right]; nia.
Qed.
Lemma align_up_multiple value count n : 0 < n -> 0 <= count ->
  value <= count * n < value + n -> count * n < 2 ^ 64 -> align_up value n = Ok (count * n).
Proof.
  intros Hn Hc Hv Hlt. unfold align_up. rewrite (proj2 (Z.eqb_neq n 0)) by lia.
  destruct (multiple_above value count n Hn Hv) as [[-> ->]|[Hm ->]].
  - done.
  - rewrite (proj2 (Z.eqb_neq (value mod n) 0)) by done. unfold checked_add.
    replace (value + (count * n - value)) with (count * n) by lia. by rewrite (proj2 (Z.ltb_lt _ _) Hlt).
Qed.
Lemma align_up_overflow value count n : 0 < n -> 0 <= count -> value <= count * n < value + n -> 2 ^ 64 <= count * n -> value < 2 ^ 64 ->
  align_up value n = Err ArithmeticOverflow.
Proof.
  intros Hn Hc Hv Hlt Hv64. unfold align_up. rewrite (proj2 (Z.eqb_neq n 0)) by lia.
  destruct (multiple_above value count n Hn Hv) as [[_ Hm]|[Hm ->]]; [lia|].
  rewrite (proj2 (Z.eqb_neq (value mod n) 0)) by done. unfold checked_add.
  replace (value + (count * n - value)) with (count * n) by lia. by rewrite (proj2 (Z.ltb_ge _ _) Hlt).
Qed.

Lemma total_pieces_nonneg n i s files : 0 < n -> geometry_ok n i s files -> 0 <= total_pieces files.
Proof.
  intros Hn. revert i s. induction files as [|f r IH]; cbn; intros i s; [done|]. intros (_ & _ & Hl & Hc & _ & Hr).
  apply IH in Hr. pose proof (div_ceil_bounds (length f) n Hn ltac:(lia)). lia.
Qed.

Fixpoint pieces_of (piece_length : Z) (lengths : list Z) : Z :=
  match lengths with [] => 0 | length :: r => div_ceil length piece_length + pieces_of piece_length r end.
Definition sum_of (lengths : list Z) : Z := foldr Z.add 0 lengths.
Definition length_typed (x : Z) : Prop := 0 <= x < 2 ^ 64.
Lemma pieces_of_nonneg n lengths : 0 < n -> Forall length_typed lengths -> 0 <= pieces_of n lengths.
Proof.
  intros Hn. induction 1 as [|x r Hx _ IH]; cbn; [done|]. unfold length_typed in Hx. pose proof (div_ceil_bounds x n Hn). lia.
Qed.
Lemma sum_of_nonneg lengths : Forall length_typed lengths -> 0 <= sum_of lengths.
Proof. unfold sum_of, length_typed. induction 1; cbn; lia. Qed.

(** Where the loop stands: the pieces placed so far, and the end of the last
    file, which lies in the last of them. *)
Record placed (n max payload cursor count : Z) : Prop := {
  pl_length : 16384 <= n <= 268435456;
  pl_max : max < 2 ^ 32;
  pl_count : 0 <= count <= max;
  pl_cursor : 0 <= cursor <= count * n /\ count * n < cursor + n;
  pl_payload : 0 <= payload <= count * n;
}.
Definition places (n max : Z) (lengths : list Z) (index payload count : Z)
    (o : outcome V2LayoutError (list V2FileGeometry * Z * Z * Z)) : Prop :=
  match o with
  | Ok (files, payload', last, total) =>
      geometry_ok n index count files /\ map length files = lengths
      /\ payload' = payload + sum_of lengths /\ total = count + pieces_of n lengths /\ placed n max payload' last total
  | Err e => max < count + pieces_of n lengths
      /\ (e = ArithmeticOverflow \/ exists actual, max < actual /\ e = TooManyPieces actual max)
  | _ => False
  end.
Lemma placed_bound n max payload cursor count : placed n max payload cursor count ->
  count * n < 2 ^ 60 /\ payload < 2 ^ 60 /\ cursor < 2 ^ 60.
Proof. intros []. nia. Qed.
Lemma too_long n max payload cursor count x : placed n max payload cursor count -> 0 <= x -> 2 ^ 64 <= payload + x ->
  max < count + div_ceil x n.
Proof.
  intros H Hx Ho. pose proof (placed_bound _ _ _ _ _ H). destruct H. pose proof (div_ceil_bounds x n ltac:(lia) Hx). nia.
Qed.
Lemma placed_next n max payload cursor count x : placed n max payload cursor count -> 0 < x ->
  count + div_ceil x n <= max -> placed n max (payload + x) (count * n + x) (count + div_ceil x n).
Proof.
  intros [Hn Hm Hc Hcur Hp] Hx Hle. pose proof (div_ceil_bounds x n ltac:(lia) ltac:(lia)) as (? & ? & ?). split; try lia; nia.
Qed.
Lemma place_files_ok n max lengths : Forall length_typed lengths ->
  forall index payload cursor count, placed n max payload cursor count ->
  places n max lengths index payload count (place_files n max lengths index payload cursor count).
Proof.
  induction 1 as [|x r Hx Hr IH]; intros index payload cursor count H.
  { cbn. split_and!; try done; [by rewrite Z.add_0_r..|]. by rewrite !Z.add_0_r. }
  pose proof (placed_bound _ _ _ _ _ H) as (Hb1 & Hb2 & Hb3). pose proof (pl_length _ _ _ _ _ H) as Hn. pose proof (pl_count _ _ _ _ _ H) as Hc.
  pose proof (pl_max _ _ _ _ _ H) as Hmax.
  pose proof (pieces_of_nonneg n r ltac:(lia) Hr) as Hpr. unfold length_typed in Hx. cbn [place_files].
  destruct (Z.lt_ge_cases (payload + x) (2 ^ 64)) as [Hpay|Hpay]; [rewrite checked_add_fits by done; obind|].
  2:{ rewrite checked_add_over by done; obind. pose proof (too_long _ _ _ _ _ x H ltac:(lia) Hpay). cbn [places pieces_of]. split; [lia|by left]. }
  assert (try_u 32 count = Some count) as Hstart by (apply try_u_fits; lia).
  destruct (Z.eqb_spec x 0) as [->|Hne].
  - rewrite Hstart. obind. specialize (IH (index + 1) payload cursor count H). rewrite Z.add_0_r.
    destruct (place_files n max r (index + 1) payload cursor count) as [[[[files payload'] last] total]|e| |]; try done; obind.
    + destruct IH as (Hg & Hmap & Hp & Ht & Hpl). cbn [places geometry_ok map pieces_of sum_of foldr length file_index start_piece piece_count logical_offset].
      rewrite (div_ceil_0 n) by lia. rewrite Z.add_0_r. fold (sum_of r). split_and!; try done; try lia; [by f_equal].
    + cbn [places pieces_of] in *. by rewrite (div_ceil_0 n), Z.add_0_l by lia.
  - rewrite (align_up_multiple cursor count n) by (destruct H; lia). obind.
    rewrite checked_sub_fits by (destruct H; lia). obind.
    pose proof (div_ceil_bounds x n ltac:(lia) ltac:(lia)) as (Hd0 & Hd1 & Hd2). set (local := div_ceil x n) in *.
    assert (local < 2 ^ 51) as Hloc by nia.
    unfold USIZE. rewrite (try_u_fits 64 local) by lia. obind. rewrite (checked_add_fits 64 count local) by lia. obind.
    destruct (Z.ltb_spec max (count + local)) as [Hlt|Hle].
    { cbn [places pieces_of]. fold local. split; [lia|]. right. by exists (count + local). }
    rewrite Hstart. obind. rewrite (try_u_fits 32 local) by lia. obind.
    pose proof (placed_next _ _ _ _ _ x H ltac:(lia) Hle) as Hnext. pose proof (placed_bound _ _ _ _ _ Hnext) as (_ & _ & Hcur).
    rewrite (checked_add_fits 64 (count * n) x) by lia. obind.
    specialize (IH (index + 1) (payload + x) (count * n + x) (count + local) Hnext).
    destruct (place_files n max r (index + 1) (payload + x) (count * n + x) (count + local)) as [[[[files payload'] last] total]|e| |]; try done; obind.
    + destruct IH as (Hg & Hmap & Hp & Ht & Hpl). cbn [places geometry_ok map pieces_of sum_of foldr length file_index start_piece piece_count logical_offset].
      fold local. fold (sum_of r). split_and!; try done; try lia; [by f_equal].
    + cbn [places pieces_of] in *. fold local. by rewrite Z.add_assoc.
Qed.

Lemma totals_of n index start files : geometry_ok n index start files ->
  total_pieces files = pieces_of n (map length files) /\ total_payload files = sum_of (map length files).
Proof.
  revert index start. induction files as [|f r IH]; intros index start; [done|]. intros (_ & _ & _ & Hc & _ & Hr).
  apply IH in Hr as [H1 H2]. cbn. fold (sum_of (map length r)). by rewrite H1, H2, Hc.
Qed.
Lemma v2_new_ok n lengths max l : Forall length_typed lengths -> 0 <= max < 2 ^ 32 ->
  new_with_piece_limit n lengths max = Ok l ->
  layout_ok l /\ map length (l_files l) = lengths /\ l_piece_length l = n /\ l_piece_count l <= max /\ 0 < sum_of lengths.
Proof.
  intros Ht Hmax. unfold new_with_piece_limit. destruct (piece_length_valid n) eqn:Ev; [|done]. cbn [negb].
  pose proof (piece_length_bounds n Ev) as Hn.
  assert (placed n max 0 0 0) as H0 by (split; lia). pose proof (place_files_ok n max lengths Ht 0 0 0 0 H0) as H.
  destruct (place_files n max lengths 0 0 0 0) as [[[[files payload] last] total]|e| |]; try done. obind.
  destruct H as (Hg & Hmap & Hp & Htot & Hpl). pose proof (placed_bound _ _ _ _ _ Hpl) as (Hb1 & Hb2 & Hb3).
  destruct (Z.eqb_spec payload 0); [done|]. intros [= <-]. cbn. destruct (totals_of _ _ _ _ Hg) as [E1 E2]. rewrite Hmap in E1, E2.
  pose proof (sum_of_nonneg lengths Ht). destruct Hpl. split_and!; try done; try lia. split; cbn; try done; lia.
Qed.

(** C34: The layout is built exactly when it fits.  For a power-of-two piece
    length from 16 KiB to 256 MiB, any file lengths and a limit of 32 bits, a
    layout is built
    precisely when there are payload bytes and no more pieces than the limit;
    it then is well formed: each file that is not empty starts at the piece
    after the last one of the file before it, at that piece's offset, and has
    the pieces its length takes.  Otherwise the error names the reason; no arithmetic
    overflow goes unnoticed. *)
Theorem layout_new_exact n lengths max : Forall length_typed lengths -> 0 <= max < 2 ^ 32 ->
  match new_with_piece_limit n lengths max with
  | Ok l => layout_ok l /\ map length (l_files l) = lengths /\ l_piece_length l = n
      /\ l_piece_count l = pieces_of n lengths /\ pieces_of n lengths <= max /\ 0 < sum_of lengths
  | Err (InvalidPieceLength m) => m = n /\ piece_length_valid n = false
  | Err EmptyPayload => piece_length_valid n = true /\ sum_of lengths = 0
  | Err (TooManyPieces actual m) => piece_length_valid n = true /\ m = max /\ max < actual /\ max < pieces_of n lengths
  | Err ArithmeticOverflow => piece_length_valid n = true /\ max < pieces_of n lengths
  | _ => False
  end.
Proof.
  intros Ht Hmax. destruct (new_with_piece_limit n lengths max) as [l|e| |] eqn:E.
  { pose proof (v2_new_ok n lengths max l Ht Hmax E) as (Hl & Hmap & Hn & Hc & Hs). pose proof (lo_pieces _ Hl) as Hp.
    destruct (totals_of _ _ _ _ (lo_files _ Hl)) as [E1 _]. rewrite Hmap, Hn in E1. split_and!; try done; congruence. }
  all: unfold new_with_piece_limit in E; destruct (piece_length_valid n) eqn:Ev; cbn [negb] in E; [|by simplify_eq].
  all: pose proof (piece_length_bounds n Ev) as Hn.
  all: assert (placed n max 0 0 0) as H0 by (split; lia); pose proof (place_files_ok n max lengths Ht 0 0 0 0 H0) as H.
  all: destruct (place_files n max lengths 0 0 0 0) as [[[[files payload] last] total]|e'| |]; try done; rewrite ?ok_bind, ?err_bind in E.
  - destruct (Z.eqb_spec payload 0) as [Hz|]; [|done]. injection E as <-. destruct H as (_ & _ & Hp & _). split; [done|lia].
  - injection E as ->. destruct H as [Hlt [->|(actual & Ha & ->)]]; split_and!; done || lia.
  - by destruct (payload =? 0).
  - by destruct (payload =? 0).
Qed.

(** ** Pieces *)
Record located (n index start : Z) (files : list V2FileGeometry) (i : Z) (f : V2FileGeometry) : Prop := {
  lc_index : file_index f = index + i;
  lc_start : start <= start_piece f;
  lc_end : start_piece f + piece_count f <= start + total_pieces files;
  lc_length : 0 <= length f < 2 ^ 64;
  lc_count : piece_count f = div_ceil (length f) n;
  lc_offset : 0 < length f -> logical_offset f = start_piece f * n;
}.
Lemma geometry_at n index start files i f : 0 < n -> geometry_ok n index start files -> nth_get files i = Some f ->
  located n index start files i f.
Proof.
  intros Hn. revert index start i. induction files as [|f' r IH]; intros index start i Hg Hi.
  { unfold nth_get in Hi. destruct (0 <=? i); [|done]. by destruct (Z.to_nat i). }
  destruct Hg as (Hx & Hs & Hl & Hc & Ho & Hr). pose proof (total_pieces_nonneg _ _ _ _ Hn Hr) as Ht.
  pose proof (div_ceil_bounds (length f') n Hn ltac:(lia)) as (Hd & _).
  rewrite nth_get_cons in Hi. destruct (Z.eqb_spec i 0) as [->|Hne].
  - injection Hi as ->. split; cbn; try done; try lia.
  - destruct (IH (index + 1) (start + piece_count f') (i - 1) Hr Hi) as [H1 H2 H3 H4 H5 H6].
    split; cbn; try done; lia.
Qed.
Lemma end_piece_eq f : start_piece f + piece_count f < 2 ^ 32 -> end_piece f = Ok (start_piece f + piece_count f).
Proof. intros H. unfold end_piece. by rewrite checked_add_fits. Qed.
Lemma files_ending_by_ok n index start files p : 0 < n -> geometry_ok n index start files ->
  start <= p < start + total_pieces files -> start + total_pieces files < 2 ^ 32 ->
  exists i f r, files_ending_by p files = Ok (f :: r) /\ nth_get files i = Some f
    /\ start_piece f <= p < start_piece f + piece_count f.
Proof.
  intros Hn. revert index start. induction files as [|f r IH]; intros index start Hg Hp Hlt; [cbn in Hp; lia|].
  pose proof (geometry_at n index start (f :: r) 0 f Hn Hg eq_refl) as [_ _ He _ _ _].
  destruct Hg as (Hx & Hs & Hl & Hc & Ho & Hr). cbn [files_ending_by]. rewrite end_piece_eq by lia. rewrite ok_bind.
  destruct (Z.leb_spec (start_piece f + piece_count f) p) as [Hle|Hgt].
  - cbn in Hp, Hlt. destruct (IH (index + 1) (start + piece_count f) Hr) as (i & f' & r' & E & Hi & Hf); [lia..|].
    exists (i + 1), f', r'. split_and!; try done; try lia. unfold nth_get in *. destruct (Z.leb_spec 0 i); [|done].
    rewrite (proj2 (Z.leb_le 0 (i + 1))) by lia. by replace (Z.to_nat (i + 1)) with (S (Z.to_nat i)) by lia.
  - exists 0, f, r. split_and!; try done; lia.
Qed.

(** The bytes of the one file a piece covers. *)
Definition piece_of (l : V2TorrentLayout) (index : Z) (f : V2FileGeometry) : V2PieceGeometry :=
  let local := index - start_piece f in
  mkPieceGeometry index (file_index f) local (index * l_piece_length l) (local * l_piece_length l)
                  (Z.min (l_piece_length l) (length f - local * l_piece_length l)).
Lemma piece_eq l index : layout_ok l -> 0 <= index < l_piece_count l ->
  exists i f, nth_get (l_files l) i = Some f /\ located (l_piece_length l) 0 0 (l_files l) i f
    /\ start_piece f <= index < start_piece f + piece_count f /\ piece l index = Ok (piece_of l index f)
    /\ 0 < pg_payload_length (piece_of l index f).
Proof.
  intros H Hi. pose proof (piece_length_bounds _ (lo_piece_length _ H)) as Hn. pose proof (lo_typed _ H) as [Hc _].
  pose proof (lo_pieces _ H) as Hp.
  destruct (files_ending_by_ok (l_piece_length l) 0 0 (l_files l) index ltac:(lia) (lo_files _ H) ltac:(lia) ltac:(lia))
    as (i & f & r & E & Hf & Hin).
  exists i, f. pose proof (geometry_at (l_piece_length l) 0 0 (l_files l) i f ltac:(lia) (lo_files _ H) Hf) as L. split; [done|]. split; [done|]. split; [done|].
  destruct L as [Lx Ls Le Ll Lc Lo]. pose proof (div_ceil_bounds (length f) (l_piece_length l) ltac:(lia) ltac:(lia)) as (Hd0 & Hd1 & Hd2).
  assert (0 < length f) as Hlen.
  { destruct (decide (length f = 0)) as [Hz|]; [|lia]. rewrite Hz, (div_ceil_0 (l_piece_length l)) in Lc by lia. lia. }
  specialize (Lo Hlen). set (n := l_piece_length l) in *. set (local := index - start_piece f).
  assert (0 <= local <= piece_count f - 1) as Hlocal by lia.
  assert (local * n < length f) as Hlt by nia. assert (0 <= local * n) as Hnn by nia.
  assert (local < 2 ^ 32) as Hl32 by lia. assert (local * n < 2 ^ 60) as Hl60 by nia.
  split; [|cbn; fold n; fold local; lia].
  unfold piece. rewrite (proj2 (Z.leb_gt (l_piece_count l) index)) by lia. rewrite E, ok_bind. cbn [head mbind option_bind].
  rewrite (proj2 (Z.eqb_neq (piece_count f) 0)) by lia. cbn [negb]. obind.
  rewrite checked_sub_fits by lia. fold local. obind. fold n. rewrite checked_mul_fits by lia. obind.
  rewrite checked_sub_fits by lia. obind. rewrite try_u_fits by lia. obind.
  assert (logical_offset f + local * n = index * n) as Hlog by (rewrite Lo; unfold local; nia).
  assert (index * n < 2 ^ 60) as Hi60 by nia.
  rewrite checked_add_fits by lia. obind. unfold piece_of. fold n local. rewrite Hlog, Z.min_comm. done.
Qed.

(** A piece lies in one file.  Below the number of pieces, [piece] finds
    the file whose pieces include the index and gives the bytes of it that
    the piece covers: at least one byte, a full piece except at the end of
    the file; in the logical space piece [i] begins at [i] piece lengths.
    From the number of pieces on, the index is refused. *)
Theorem piece_exact l index : layout_ok l -> 0 <= index ->
  match piece l index with
  | Ok g => index < l_piece_count l
      /\ exists f, nth_get (l_files l) (pg_file_index g) = Some f
         /\ start_piece f <= index < start_piece f + piece_count f
         /\ g = piece_of l index f
         /\ 0 < pg_payload_length g <= l_piece_length l
         /\ pg_file_offset g + pg_payload_length g <= length f
  | Err e => l_piece_count l <= index /\ e = InvalidPieceIndex index (l_piece_count l)
  | _ => False
  end.
Proof.
  intros H Hi. destruct (Z.lt_ge_cases index (l_piece_count l)) as [Hlt|Hge].
  - destruct (piece_eq l index H ltac:(lia)) as (i & f & Hf & L & Hin & E & Hpos). rewrite E. split; [done|]. exists f.
    pose proof (lc_index _ _ _ _ _ _ L) as Hx. cbn [pg_file_index piece_of]. replace (file_index f) with i by lia.
    split_and!; try done; cbn in *; try lia.
  - unfold piece. by rewrite (proj2 (Z.leb_le _ _) Hge).
Qed.

(** The pieces of different files are different. *)
Lemma disjoint_pieces n index start files i f i' f' p : 0 < n -> geometry_ok n index start files ->
  nth_get files i = Some f -> nth_get files i' = Some f' ->
  start_piece f <= p < start_piece f + piece_count f -> start_piece f' <= p < start_piece f' + piece_count f' -> i = i'.
Proof.
  intros Hn. revert index start i i'. induction files as [|f0 r IH]; intros index start i i' Hg Hi Hi' Hp Hp'.
  { unfold nth_get in Hi. destruct (0 <=? i); [|done]. by destruct (Z.to_nat i). }
  destruct Hg as (Hx & Hs & Hl & Hc & Ho & Hr).
  rewrite nth_get_cons in Hi, Hi'. destruct (Z.eqb_spec i 0) as [Ei|Ei], (Z.eqb_spec i' 0) as [Ei'|Ei']; [lia| | |].
  - injection Hi as ->. pose proof (lc_start _ _ _ _ _ _ (geometry_at _ _ _ _ _ _ Hn Hr Hi')). lia.
  - injection Hi' as ->. pose proof (lc_start _ _ _ _ _ _ (geometry_at _ _ _ _ _ _ Hn Hr Hi)). lia.
  - assert (i - 1 = i' - 1); [|lia]. by eapply IH.
Qed.
Lemma piece_holds l i f off index : layout_ok l -> nth_get (l_files l) i = Some f -> 0 <= off < length f -> 0 <= index < l_piece_count l ->
  (exists g, piece l index = Ok g /\ pg_file_index g = i /\ pg_file_offset g <= off < pg_file_offset g + pg_payload_length g)
  <-> index = start_piece f + off / l_piece_length l.
Proof.
  intros H Hf Hoff Hi. pose proof (piece_length_bounds _ (lo_piece_length _ H)) as Hn.
  destruct (piece_eq l index H Hi) as (i' & f' & Hf' & L' & Hin & E & Hpos).
  pose proof (geometry_at (l_piece_length l) 0 0 (l_files l) i f ltac:(lia) (lo_files _ H) Hf) as L.
  pose proof (lc_index _ _ _ _ _ _ L') as Hx'. set (n := l_piece_length l) in *. pose proof (Z.div_mod off n ltac:(lia)) as Hdm.
  pose proof (Z.mod_pos_bound off n ltac:(lia)) as Hmod.
  split.
  - intros (g & Eg & Hgi & Hgo). rewrite E in Eg. injection Eg as <-. cbn in Hgi. assert (i' = i) as -> by lia.
    rewrite Hf in Hf'. injection Hf' as <-. unfold piece_of in Hgo. cbn in Hgo. fold n in Hgo.
    assert (index - start_piece f = off / n); [|lia]. nia.
  - intros ->. exists (piece_of l (start_piece f + off / n) f').
    assert (f' = f) as ->.
    { assert (off / n < piece_count f) as Hlt.
      { rewrite (lc_count _ _ _ _ _ _ L). pose proof (div_ceil_bounds (length f) n ltac:(lia) ltac:(lia)). nia. }
      assert (0 <= off / n) by (apply Z.div_pos; lia).
      assert (i' = i) as ->; [|congruence]. apply (disjoint_pieces n 0 0 (l_files l) i' f' i f (start_piece f + off / n)); try done; try lia.
      apply H. }
    split; [done|]. unfold piece_of. cbn. fold n. assert (0 <= off / n) by (apply Z.div_pos; lia). pose proof (lc_index _ _ _ _ _ _ L). lia.
Qed.

Lemma piece_of_byte l i f off : layout_ok l -> nth_get (l_files l) i = Some f -> 0 <= off < length f ->
  0 <= start_piece f + off / l_piece_length l < l_piece_count l.
Proof.
  intros H Hf Hoff. pose proof (piece_length_bounds _ (lo_piece_length _ H)) as Hn.
  pose proof (geometry_at (l_piece_length l) 0 0 (l_files l) i f ltac:(lia) (lo_files _ H) Hf) as [Lx Ls Le Ll Lc Lo].
  rewrite (lo_pieces _ H). pose proof (div_ceil_bounds (length f) (l_piece_length l) ltac:(lia) ltac:(lia)) as (Hd & Hd1 & _).
  rewrite <- Lc in Hd1. assert (0 <= off / l_piece_length l) by (apply Z.div_pos; lia).
  assert (off / l_piece_length l < piece_count f); [|lia]. apply Z.div_lt_upper_bound; lia.
Qed.

(** The pieces partition the payload.  Every byte of every file lies in
    exactly one piece of the torrent: there is one index whose piece names
    that file and a range of it with the byte inside. *)
Theorem byte_in_one_piece l i f off : layout_ok l -> nth_get (l_files l) i = Some f -> 0 <= off < length f ->
  exists index, (0 <= index < l_piece_count l
      /\ exists g, piece l index = Ok g /\ pg_file_index g = i /\ pg_file_offset g <= off < pg_file_offset g + pg_payload_length g)
    /\ forall index', 0 <= index' < l_piece_count l ->
         (exists g, piece l index' = Ok g /\ pg_file_index g = i /\ pg_file_offset g <= off < pg_file_offset g + pg_payload_length g) ->
         index' = index.
Proof.
  intros H Hf Hoff. pose proof (piece_of_byte l i f off H Hf Hoff) as Hi. exists (start_piece f + off / l_piece_length l). split.
  - split; [done|]. by apply (piece_holds l i f off).
  - intros index' Hi' Hg. by apply (piece_holds l i f off).
Qed.

Lemma range_inside_file l i f off n : layout_ok l -> nth_get (l_files l) i = Some f -> 0 <= off -> 0 < n -> off + n <= length f ->
  file_range_to_pieces l i off n = Ok (start_piece f + off / l_piece_length l, start_piece f + (off + n - 1) / l_piece_length l + 1).
Proof.
  intros H Hf Hoff Hn Hle. unfold file_range_to_pieces. rewrite (proj2 (Z.eqb_neq n 0)) by lia. rewrite Hf. obind.
  pose proof (piece_length_bounds _ (lo_piece_length _ H)) as Hpl.
  pose proof (geometry_at (l_piece_length l) 0 0 (l_files l) i f ltac:(lia) (lo_files _ H) Hf) as [Lx Ls Le Ll Lc Lo].
  rewrite checked_add_fits by lia. obind. rewrite (proj2 (Z.ltb_ge (length f) (off + n))) by lia.
  pose proof (piece_of_byte l i f off H Hf ltac:(lia)) as H1. pose proof (piece_of_byte l i f (off + n - 1) H Hf ltac:(lia)) as H2.
  pose proof (lo_typed _ H) as [Hc _]. assert (0 <= off / l_piece_length l) by (apply Z.div_pos; lia).
  assert (0 <= (off + n - 1) / l_piece_length l) by (apply Z.div_pos; lia).
  rewrite !try_u_fits by lia. obind. rewrite checked_add_fits by lia. obind.
  rewrite checked_add_fits by lia. obind. rewrite checked_add_fits by lia. obind. do 2 f_equal. lia.
Qed.
(** A range of a file is mapped to the pieces that hold it.  A range
    that is not empty and lies inside a file yields exactly the pieces with
    a byte of the range; an empty range, an unknown file and a range that
    goes past the end of the file are refused, whatever their size. *)
Theorem file_range_exact l i off n : layout_ok l -> length_typed off -> length_typed n ->
  match file_range_to_pieces l i off n with
  | Ok (first, last) => exists f, nth_get (l_files l) i = Some f /\ 0 < n /\ off + n <= length f
      /\ forall index, 0 <= index < l_piece_count l ->
           (first <= index < last <-> exists g byte, piece l index = Ok g /\ pg_file_index g = i
              /\ pg_file_offset g <= byte < pg_file_offset g + pg_payload_length g /\ off <= byte < off + n)
  | Err EmptyFileRange => n = 0
  | Err (InvalidFileIndex i' c) => i' = i /\ c = len (l_files l) /\ nth_get (l_files l) i = None
  | Err (FileRangeOutOfBounds _ _ _ m) => exists f, nth_get (l_files l) i = Some f /\ m = length f /\ m < off + n
  | Err ArithmeticOverflow => 2 ^ 64 <= off + n
  | _ => False
  end.
Proof.
  intros H Hoff Hn. unfold length_typed in *. destruct (decide (n = 0)) as [->|Hne]; [done|].
  destruct (nth_get (l_files l) i) as [f|] eqn:Hf.
  2:{ unfold file_range_to_pieces. rewrite (proj2 (Z.eqb_neq n 0)) by done. rewrite Hf. obind. done. }
  destruct (Z.le_gt_cases (off + n) (length f)) as [Hle|Hgt].
  - rewrite (range_inside_file l i f off n) by (done || lia). exists f. split_and!; try done; try lia. intros index Hi.
    pose proof (piece_length_bounds _ (lo_piece_length _ H)) as Hpl. set (m := l_piece_length l) in *. split.
    + intros Hin. set (byte := Z.max off ((index - start_piece f) * m)).
      assert (byte / m = index - start_piece f /\ off <= byte < off + n) as [Hb1 Hb2].
      { pose proof (Z.div_mod off m ltac:(lia)). pose proof (Z.mod_pos_bound off m ltac:(lia)).
        pose proof (Z.div_mod (off + n - 1) m ltac:(lia)). pose proof (Z.mod_pos_bound (off + n - 1) m ltac:(lia)).
        unfold byte. destruct (Z.max_spec off ((index - start_piece f) * m)) as [[Hm ->]|[Hm ->]].
        - rewrite Z.div_mul by lia. nia.
        - split; [|lia]. assert (index - start_piece f <= off / m) by (apply Z.div_le_lower_bound; lia). lia. }
      destruct (proj2 (piece_holds l i f byte index H Hf ltac:(lia) Hi)) as (g & Hg & Hgi & Hgo); [fold m; lia|].
      exists g, byte. exact (conj Hg (conj Hgi (conj Hgo Hb2))).
    + intros (g & byte & Hg & Hgi & Hgo & Hb).
      pose proof (proj1 (piece_holds l i f byte index H Hf ltac:(lia) Hi) (ex_intro _ g (conj Hg (conj Hgi Hgo)))) as ->. fold m.
      pose proof (Z.div_le_mono off byte m ltac:(lia) ltac:(lia)). pose proof (Z.div_le_mono byte (off + n - 1) m ltac:(lia) ltac:(lia)). lia.
  - unfold file_range_to_pieces. rewrite (proj2 (Z.eqb_neq n 0)) by done. rewrite Hf. obind.
    destruct (Z.lt_ge_cases (off + n) (2 ^ 64)) as [Hlt|Hov].
    + rewrite checked_add_fits by done. obind. rewrite (proj2 (Z.ltb_lt (length f) (off + n))) by lia. by exists f.
    + rewrite checked_add_over by done. by obind.
Qed.
(** The range of a whole file. *)
Lemma file_piece_range_exact l i : layout_ok l ->
  file_piece_range l i = match nth_get (l_files l) i with
                         | Some f => Ok (start_piece f, start_piece f + piece_count f)
                         | None => Err (InvalidFileIndex i (len (l_files l)))
                         end.
Proof.
  intros H. unfold file_piece_range, piece_range. destruct (nth_get (l_files l) i) as [f|] eqn:Hf; [|done].
  pose proof (piece_length_bounds _ (lo_piece_length _ H)) as Hn.
  pose proof (geometry_at (l_piece_length l) 0 0 (l_files l) i f ltac:(lia) (lo_files _ H) Hf) as [_ _ Le _ _ _].
  pose proof (lo_typed _ H) as [Hc _]. rewrite (lo_pieces _ H) in Hc. by rewrite end_piece_eq, ok_bind by lia.
Qed.

(** ** Witnesses *)
Definition sample_lengths : list Z := [0; 1; 0; 16383; 16384; 16385; 0].
Definition sample_layout : V2TorrentLayout :=
  match V2TorrentLayout_new 16384 sample_lengths with Ok l => l | _ => mkV2Layout 0 0 0 0 [] end.
Lemma sample_lengths_typed : Forall length_typed sample_lengths.
Proof. unfold length_typed. by repeat constructor. Qed.
Lemma sample_layout_eq : V2TorrentLayout_new 16384 sample_lengths = Ok sample_layout.
Proof. vm_compute. exact eq_refl. Qed.
Lemma sample_layout_ok : layout_ok sample_layout.
Proof. by apply (v2_new_ok 16384 sample_lengths MAX_METAINFO_PIECES); [apply sample_lengths_typed| |apply sample_layout_eq]. Qed.
Lemma layout_new_exact_witness : l_piece_count sample_layout = 5.
Proof.
  pose proof (layout_new_exact 16384 sample_lengths MAX_METAINFO_PIECES sample_lengths_typed ltac:(by vm_compute)) as H.
  change (new_with_piece_limit 16384 sample_lengths MAX_METAINFO_PIECES) with (V2TorrentLayout_new 16384 sample_lengths) in H.
  rewrite sample_layout_eq in H. destruct H as (_ & _ & _ & -> & _). vm_compute. exact eq_refl.
Defined.
Lemma piece_exact_witness : piece sample_layout 4 = Ok (mkPieceGeometry 4 5 1 65536 16384 1) /\ 16384 + 1 <= 16385.
Proof.
  pose proof (piece_exact sample_layout 4 sample_layout_ok ltac:(lia)) as H.
  assert (piece sample_layout 4 = Ok (mkPieceGeometry 4 5 1 65536 16384 1)) as E by (vm_compute; exact eq_refl).
  split; [exact E|]. rewrite E in H. destruct H as (_ & f & Hf & _ & _ & _ & H). cbn in H.
  assert (f = mkFileGeometry 5 16385 49152 3 2 0) as -> by (vm_compute in Hf; congruence). exact H.
Defined.
Lemma byte_in_one_piece_witness : exists index g, piece sample_layout index = Ok g /\ pg_file_index g = 5 /\ pg_file_offset g = 16384.
Proof.
  destruct (byte_in_one_piece sample_layout 5 (mkFileGeometry 5 16385 49152 3 2 0) 16384 sample_layout_ok) as (index & (Hi & g & Hg & Hgi & Hgo) & Hu);
    [vm_compute; exact eq_refl|cbn; lia|].
  assert (4 = index) as <-.
  { apply Hu; [by vm_compute|]. exists (mkPieceGeometry 4 5 1 65536 16384 1). split; [vm_compute; exact eq_refl|]. cbn. lia. }
  exists 4, (mkPieceGeometry 4 5 1 65536 16384 1). split_and!; [vm_compute; exact eq_refl|done..].
Defined.
Lemma file_range_exact_witness :
  file_range_to_pieces sample_layout 5 16383 2 = Ok (3, 5) /\ 16383 + 2 <= 16385.
Proof.
  pose proof (file_range_exact sample_layout 5 16383 2 sample_layout_ok ltac:(done) ltac:(done)) as H.
  assert (file_range_to_pieces sample_layout 5 16383 2 = Ok (3, 5)) as E by (vm_compute; exact eq_refl).
  split; [exact E|]. rewrite E in H. destruct H as (f & Hf & _ & H & _).
  assert (f = mkFileGeometry 5 16385 49152 3 2 0) as -> by (vm_compute in Hf; congruence). exact H.
Defined.
