(* ===== verification/StorageLayout.v ===== *)
(** * Where the bytes of a torrent are stored

    [crates/rstorrent-protocol/src/storage_layout.rs]: the layout of a v1
    torrent maps an interval of a piece to segments of its files; a selection
    says which files are wanted; and the two give the class of a piece, the
    requests that fetch it, its priority, and the payload a download needs.
    [ContentLayout] puts v1, v2 and hybrid torrents behind one interface; the
    v2 geometry is [V2Layout]. *)
From stdpp Require Import strings sorting.
From S2P Require Import Prelude PiecePriority PeerWire V2Layout.
#[local] Open Scope Z_scope.

Inductive PieceClass := Wanted | Boundary | Skipped.
#[export] Instance PieceClass_eq_dec : EqDecision PieceClass.
Proof. solve_decision. Defined.
Inductive SegmentTarget :=
| WantedFile (file_index file_offset : Z)
| SkippedFile (file_index file_offset : Z)
| Padding.
#[export] Instance SegmentTarget_eq_dec : EqDecision SegmentTarget.
Proof. solve_decision. Defined.
Record LayoutSegment := mkSegment { s_piece_offset : Z; s_block_offset : Z; s_length : Z; s_target : SegmentTarget }.
Record FileLayoutSegment := mkFileSegment {
  fs_piece_offset : Z;
  fs_block_offset : Z;
  fs_length : Z;
  fs_file_index : Z;
  fs_file_offset : Z;
  fs_padding : bool;
}.
Record RequestRange := mkRange { r_begin : Z; r_length : Z }.
Record RequiredPayloadGeometry := mkRequired { required_payload_bytes : Z; verified_required_payload_bytes : Z }.
Inductive LayoutError :=
| InvalidFileIndex (index file_count : Z)
| PaddingSelection (index : Z)
| InvalidPriorityFileOrder (previous index : Z)
| PriorityForSkippedFile (index : Z)
| InvalidPieceIndex (index piece_count : Z)
| InvalidHaveLength (length piece_count : Z)
| EmptyInterval
| IntervalOutOfRange (piece begin length piece_length : Z)
| ArithmeticOverflow
| LayoutGap (torrent_offset : Z).
Abbreviation checked o := (ok_or o ArithmeticOverflow).

(** [metainfo.rs] *)
Record MetainfoFile := mkFile { path : list string; f_length : Z; f_offset : Z; padding : bool }.
Record Metainfo := mkMetainfo {
  piece_hashes : list (list Z);
  m_piece_length : Z;
  m_total_length : Z;
  m_files : list MetainfoFile;
}.
Definition Metainfo_piece_count (m : Metainfo) : Z := len (piece_hashes m).
Definition Metainfo_piece_length_at (m : Metainfo) (index : Z) : option Z :=
  if Metainfo_piece_count m <=? index then None
  else
    begin ← checked_mul 64 index (m_piece_length m);
    remaining ← checked_sub (m_total_length m) begin;
    try_u 32 (Z.min remaining (m_piece_length m)).

Record TorrentLayout := mkLayout {
  piece_length : Z;
  total_length : Z;
  piece_count : Z;
  files : list MetainfoFile;
}.
Definition from_metainfo (m : Metainfo) : TorrentLayout :=
  mkLayout (m_piece_length m) (m_total_length m) (Metainfo_piece_count m) (m_files m).

(** ** Selection *)
Record FileSelection := mkSelection { wanted : list bool }.
Definition is_wanted (sel : FileSelection) (index : Z) : bool := default false (nth_get (wanted sel) index).
Definition selection_file_count (sel : FileSelection) : Z := len (wanted sel).
(** [new] and [new_content] are this loop, on the files of the layout. *)
Fixpoint skip_files (fs : list MetainfoFile) (skipped : list Z) (w : list bool) : outcome LayoutError (list bool) :=
  match skipped with
  | [] => Ok w
  | index :: r =>
    file ← ok_or (nth_get fs index) (InvalidFileIndex index (len fs));
    if padding file then Err (PaddingSelection index)
    else skip_files fs r (<[Z.to_nat index := false]> w)
  end.
Definition select_files (fs : list MetainfoFile) (skipped : list Z) : outcome LayoutError FileSelection :=
  w ← skip_files fs skipped (map (fun f => negb (padding f)) fs); Ok (mkSelection w).
Definition FileSelection_new (l : TorrentLayout) (skipped : list Z) : outcome LayoutError FileSelection :=
  select_files (files l) skipped.
(** [self.wanted[index] = wanted], which panics out of range. *)
Definition set_wanted_in (fs : list MetainfoFile) (index : Z) (w : bool) : M FileSelection LayoutError unit :=
  file ← lift (ok_or (nth_get fs index) (InvalidFileIndex index (len fs)));
  if padding file && w then fail (PaddingSelection index)
  else
    s ← get;
    _ ← lift (Prelude.index (wanted s) index);
    put (mkSelection (<[Z.to_nat index := w]> (wanted s))).
Definition set_wanted (l : TorrentLayout) (index : Z) (w : bool) : M FileSelection LayoutError unit :=
  set_wanted_in (files l) index w.

(** ** The layout of a v1 torrent *)
Definition piece_length_at (l : TorrentLayout) (index : Z) : outcome LayoutError Z :=
  if piece_count l <=? index then Err (InvalidPieceIndex index (piece_count l))
  else
    begin ← checked (checked_mul 64 index (piece_length l));
    remaining ← checked (checked_sub (total_length l) begin);
    checked (try_u 32 (Z.min remaining (piece_length l))).

Definition file_end (f : MetainfoFile) : option Z := checked_add 64 (f_offset f) (f_length f).
(** [partition_point] on files whose ends ascend: the number of files before
    the first one that ends after [start]. *)
Fixpoint files_before (start : Z) (fs : list MetainfoFile) : Z :=
  match fs with
  | [] => 0
  | f :: r => match file_end f with
              | Some e => if e <=? start then 1 + files_before start r else 0
              | None => 0
              end
  end.
Fixpoint segments_loop (fuel : nat) (l : TorrentLayout) (piece_start torrent_start torrent_end file_index cursor : Z)
    : outcome LayoutError (list FileLayoutSegment) :=
  if torrent_end <=? cursor then Ok []
  else
    match fuel with
    | O => NoFuel
    | S fuel =>
      file ← ok_or (nth_get (files l) file_index) (LayoutGap cursor);
      file_end ← checked (file_end file);
      if (f_length file =? 0) || (cursor =? file_end)
      then segments_loop fuel l piece_start torrent_start torrent_end (file_index + 1) cursor
      else if (cursor <? f_offset file) || (file_end <? cursor) then Err (LayoutGap cursor)
      else
        let segment_end := Z.min torrent_end file_end in
        segment_length ← checked (try_u USIZE (segment_end - cursor));
        piece_offset ← checked (try_u 32 (cursor - piece_start));
        block_offset ← checked (try_u USIZE (cursor - torrent_start));
        rest ← segments_loop fuel l piece_start torrent_start torrent_end
                 (if segment_end =? file_end then file_index + 1 else file_index) segment_end;
        Ok (mkFileSegment piece_offset block_offset segment_length file_index (cursor - f_offset file) (padding file) :: rest)
    end.
(** Every iteration but the last goes to the next file. *)
Definition segments_fuel (l : TorrentLayout) : nat := S (Datatypes.length (files l)).
Definition file_segments (l : TorrentLayout) (piece begin length : Z) : outcome LayoutError (list FileLayoutSegment) :=
  if length =? 0 then Err EmptyInterval
  else
    actual ← piece_length_at l piece;
    interval_end ← ok_or (checked_add 32 begin length) (IntervalOutOfRange piece begin length actual);
    if actual <? interval_end then Err (IntervalOutOfRange piece begin length actual)
    else
      piece_start ← checked (checked_mul 64 piece (piece_length l));
      torrent_start ← checked (checked_add 64 piece_start begin);
      torrent_end ← checked (checked_add 64 torrent_start length);
      segments_loop (segments_fuel l) l piece_start torrent_start torrent_end (files_before torrent_start (files l)) torrent_start.

Definition target_of (sel : FileSelection) (s : FileLayoutSegment) : SegmentTarget :=
  if fs_padding s then Padding
  else if is_wanted sel (fs_file_index s) then WantedFile (fs_file_index s) (fs_file_offset s)
  else SkippedFile (fs_file_index s) (fs_file_offset s).
Definition with_target (sel : FileSelection) (s : FileLayoutSegment) : LayoutSegment :=
  mkSegment (fs_piece_offset s) (fs_block_offset s) (fs_length s) (target_of sel s).
Definition segments (l : TorrentLayout) (piece begin length : Z) (sel : FileSelection) : outcome LayoutError (list LayoutSegment) :=
  if length =? 0 then Err EmptyInterval
  else if negb (selection_file_count sel =? len (files l))
  then Err (InvalidFileIndex (selection_file_count sel) (len (files l)))
  else
    segs ← file_segments l piece begin length;
    Ok (map (with_target sel) segs).

Definition is_wanted_target (t : SegmentTarget) : bool := match t with WantedFile _ _ => true | _ => false end.
Definition is_skipped_target (t : SegmentTarget) : bool := match t with SkippedFile _ _ => true | _ => false end.
Definition class_of (segs : list LayoutSegment) : PieceClass :=
  match existsb (fun s => is_wanted_target (s_target s)) segs, existsb (fun s => is_skipped_target (s_target s)) segs with
  | true, false => Wanted
  | true, true => Boundary
  | false, _ => Skipped
  end.
Definition piece_class (l : TorrentLayout) (index : Z) (sel : FileSelection) : outcome LayoutError PieceClass :=
  length ← piece_length_at l index;
  segs ← segments l index 0 length sel;
  Ok (class_of segs).
Definition piece_has_skipped_file (l : TorrentLayout) (index : Z) (sel : FileSelection) : outcome LayoutError bool :=
  length ← piece_length_at l index;
  segs ← segments l index 0 length sel;
  Ok (existsb (fun s => is_skipped_target (s_target s)) segs).

(** ** Requests

    The ranges are kept in reverse order while they grow, so that the last
    one is at hand. *)
Fixpoint merge_ranges (segs : list LayoutSegment) (done : list RequestRange) : outcome LayoutError (list RequestRange) :=
  match segs with
  | [] => Ok (rev done)
  | s :: r =>
    if bool_decide (s_target s = Padding) then merge_ranges r done
    else
      segment_length ← checked (try_u 32 (s_length s));
      match done with
      | previous :: others =>
          previous_end ← expect (checked_add 32 (r_begin previous) (r_length previous));
          if previous_end =? s_piece_offset s
          then
            total ← checked (checked_add 32 (r_length previous) segment_length);
            merge_ranges r (mkRange (r_begin previous) total :: others)
          else merge_ranges r (mkRange (s_piece_offset s) segment_length :: done)
      | [] => merge_ranges r [mkRange (s_piece_offset s) segment_length]
      end
  end.
Fixpoint split_blocks (fuel : nat) (begin end_ : Z) : outcome LayoutError (list RequestRange) :=
  if end_ <=? begin then Ok []
  else
    match fuel with
    | O => NoFuel
    | S fuel =>
      let length := Z.min MAX_REQUEST_BLOCK_LENGTH (end_ - begin) in
      next ← expect (checked_add 32 begin length);
      rest ← split_blocks fuel next end_;
      Ok (mkRange begin length :: rest)
    end.
(** Every request but the last is of the largest size. *)
Definition blocks_fuel (begin end_ : Z) : nat := Z.to_nat (div_ceil (end_ - begin) MAX_REQUEST_BLOCK_LENGTH).
Fixpoint split_ranges (ranges : list RequestRange) : outcome LayoutError (list RequestRange) :=
  match ranges with
  | [] => Ok []
  | r :: rest =>
    e ← checked (checked_add 32 (r_begin r) (r_length r));
    blocks ← split_blocks (blocks_fuel (r_begin r) e) (r_begin r) e;
    others ← split_ranges rest;
    Ok (blocks ++ others)
  end.
Definition request_ranges (l : TorrentLayout) (index : Z) (sel : FileSelection) : outcome LayoutError (list RequestRange) :=
  class ← piece_class l index sel;
  if bool_decide (class = Skipped) then Ok []
  else
    length ← piece_length_at l index;
    segs ← segments l index 0 length sel;
    ranges ← merge_ranges segs [];
    split_ranges ranges.

Definition file_piece_range (l : TorrentLayout) (index : Z) : outcome LayoutError (option (Z * Z)) :=
  file ← ok_or (nth_get (files l) index) (InvalidFileIndex index (len (files l)));
  if f_length file =? 0 then Ok None
  else if piece_length l =? 0 then Panic
  else
    final_byte ← checked (checked_add 64 (f_offset file) (f_length file - 1));
    first ← checked (try_u 32 (f_offset file / piece_length l));
    last ← checked (try_u 32 (final_byte / piece_length l));
    Ok (Some (first, last)).
(** The pieces of an inclusive range. *)
Definition pieces_in (r : Z * Z) : list Z := seqZ r.1 (r.2 - r.1 + 1).
Definition file_pieces (l : TorrentLayout) (index : Z) : outcome LayoutError (list Z) :=
  r ← file_piece_range l index;
  Ok (match r with Some r => pieces_in r | None => [] end).

(** ** The payload a selection needs *)
Fixpoint collect_ranges (l : TorrentLayout) (sel : FileSelection) (file_index : Z) (fs : list MetainfoFile) (acc : list (Z * Z))
    : outcome LayoutError (list (Z * Z)) :=
  match fs with
  | [] => Ok (rev acc)
  | file :: r =>
    if padding file || (f_length file =? 0) || negb (is_wanted sel file_index)
    then collect_ranges l sel (file_index + 1) r acc
    else
      range ← file_piece_range l file_index;
      '(first, last) ← expect range;
      match acc with
      | (previous_first, previous_last) :: others =>
          if first <=? saturating_add 32 previous_last 1
          then collect_ranges l sel (file_index + 1) r ((previous_first, Z.max last previous_last) :: others)
          else collect_ranges l sel (file_index + 1) r ((first, last) :: acc)
      | [] => collect_ranges l sel (file_index + 1) r [(first, last)]
      end
  end.
(** The payload bytes from [cursor] to the end of the piece; the file index
    is kept from piece to piece. *)
Fixpoint walk_piece (fuel : nat) (l : TorrentLayout) (piece_end file_index cursor bytes : Z) : outcome LayoutError (Z * Z) :=
  if piece_end <=? cursor then Ok (file_index, bytes)
  else
    match fuel with
    | O => NoFuel
    | S fuel =>
      file ← ok_or (nth_get (files l) file_index) (LayoutGap cursor);
      file_end ← checked (file_end file);
      if (f_length file =? 0) || (file_end <=? cursor) then walk_piece fuel l piece_end (file_index + 1) cursor bytes
      else if cursor <? f_offset file then Err (LayoutGap cursor)
      else
        let segment_end := Z.min piece_end file_end in
        bytes ← (if negb (padding file) then checked (checked_add 64 bytes (segment_end - cursor)) else Ok bytes);
        walk_piece fuel l piece_end (if segment_end =? file_end then file_index + 1 else file_index) segment_end bytes
    end.
Fixpoint walk_pieces (l : TorrentLayout) (have_pieces : list bool) (pieces : list Z) (file_index required verified : Z)
    : outcome LayoutError RequiredPayloadGeometry :=
  match pieces with
  | [] => Ok (mkRequired required verified)
  | p :: r =>
    piece_start ← checked (checked_mul 64 p (piece_length l));
    length ← piece_length_at l p;
    piece_end ← checked (checked_add 64 piece_start length);
    '(file_index, bytes) ← walk_piece (segments_fuel l) l piece_end file_index piece_start 0;
    required ← checked (checked_add 64 required bytes);
    have_piece ← ok_or (nth_get have_pieces p) (InvalidPieceIndex p (piece_count l));
    verified ← (if have_piece : bool then checked (checked_add 64 verified bytes) else Ok verified);
    walk_pieces l have_pieces r file_index required verified
  end.
Definition required_payload_geometry (l : TorrentLayout) (sel : FileSelection) (have_pieces : list bool)
    : outcome LayoutError RequiredPayloadGeometry :=
  if negb (selection_file_count sel =? len (files l))
  then Err (InvalidFileIndex (selection_file_count sel) (len (files l)))
  else if negb (len have_pieces =? piece_count l) then Err (InvalidHaveLength (len have_pieces) (piece_count l))
  else
    ranges ← collect_ranges l sel 0 (files l) [];
    walk_pieces l have_pieces (concat (map pieces_in ranges)) 0 0 0.

(** * Specification of the v1 layout *)

(** The files lie one behind the other, from [start] to [total]. *)
Fixpoint contiguous (start : Z) (fs : list MetainfoFile) (total : Z) : Prop :=
  match fs with
  | [] => start = total
  | f :: r => f_offset f = start /\ 0 <= f_length f /\ contiguous (start + f_length f) r total
  end.
Record v1_ok (l : TorrentLayout) : Prop := {
  v1_piece_length : 0 < piece_length l < 2 ^ 32;
  v1_files : contiguous 0 (files l) (total_length l);
  v1_total : 0 < total_length l < 2 ^ 64;
  v1_count : piece_count l = div_ceil (total_length l) (piece_length l);
  v1_typed : piece_count l < 2 ^ 32;
}.
Definition piece_start_of (l : TorrentLayout) (p : Z) : Z := p * piece_length l.
Definition piece_len (l : TorrentLayout) (p : Z) : Z := Z.min (piece_length l) (total_length l - piece_start_of l p).

Lemma piece_bounds l p : v1_ok l -> 0 <= p < piece_count l ->
  0 <= piece_start_of l p /\ 0 < piece_len l p /\ piece_len l p < 2 ^ 32 /\ piece_start_of l p + piece_len l p <= total_length l
  /\ (piece_len l p = piece_length l \/ p = piece_count l - 1).
Proof.
  intros H Hp. pose proof (v1_piece_length _ H) as Hn. pose proof (v1_total _ H) as Ht. rewrite (v1_count _ H) in Hp |- *.
  pose proof (div_ceil_bounds (total_length l) (piece_length l) ltac:(lia) ltac:(lia)) as (H0 & H1 & H2).
  unfold piece_len, piece_start_of. assert (p * piece_length l < total_length l) by nia. split_and!; try lia; nia.
Qed.
Lemma piece_length_at_eq l p : v1_ok l -> 0 <= p -> piece_length_at l p =
  if p <? piece_count l then Ok (piece_len l p) else Err (InvalidPieceIndex p (piece_count l)).
Proof.
  intros H Hp. unfold piece_length_at. destruct (Z.leb_spec (piece_count l) p) as [Hge|Hlt].
  - by rewrite (proj2 (Z.ltb_ge _ _)).
  - rewrite (proj2 (Z.ltb_lt p (piece_count l))) by done. destruct (piece_bounds l p H ltac:(lia)) as (H0 & H1 & H2 & H3 & _).
    unfold piece_start_of in *. pose proof (v1_total _ H). rewrite checked_mul_fits by lia. obind. rewrite checked_sub_fits by lia. obind.
    rewrite Z.min_comm. fold (piece_start_of l p). fold (piece_len l p). rewrite try_u_fits by lia. done.
Qed.

Lemma contiguous_le start fs total : contiguous start fs total -> start <= total.
Proof. revert start. induction fs as [|f r IH]; cbn; intros start; [lia|]. intros (_ & Hl & Hr). apply IH in Hr. lia. Qed.
Lemma contiguous_drop start fs total i f : contiguous start fs total -> nth_get fs i = Some f ->
  start <= f_offset f /\ 0 <= f_length f /\ f_offset f + f_length f <= total
  /\ contiguous (f_offset f + f_length f) (skip fs (i + 1)) total.
Proof.
  revert start i. induction fs as [|f' r IH]; intros start i Hc Hi.
  { unfold nth_get in Hi. destruct (0 <=? i); [|done]. by destruct (Z.to_nat i). }
  destruct Hc as (Ho & Hl & Hr). rewrite nth_get_cons in Hi. destruct (Z.eqb_spec i 0) as [->|Hne].
  - injection Hi as ->. pose proof (contiguous_le _ _ _ Hr). unfold skip. cbn. rewrite Ho. split_and!; try lia. done.
  - pose proof (nth_get_lt _ _ _ Hi). destruct (IH _ _ Hr Hi) as (H1 & H2 & H3 & H4). split_and!; try lia.
    unfold skip in *. replace (Z.to_nat (i + 1)) with (S (Z.to_nat (i - 1 + 1))) by lia. done.
Qed.
Lemma files_before_ok start fs total t : contiguous start fs total -> start <= t < total -> total < 2 ^ 64 ->
  exists f, nth_get fs (files_before t fs) = Some f /\ f_offset f <= t < f_offset f + f_length f.
Proof.
  revert start. induction fs as [|f r IH]; intros start Hc Ht Hlt; [cbn in Hc; lia|]. destruct Hc as (Ho & Hl & Hr).
  pose proof (contiguous_le _ _ _ Hr). cbn [files_before]. unfold file_end. rewrite checked_add_fits by lia.
  destruct (Z.leb_spec (f_offset f + f_length f) t) as [Hle|Hgt].
  - destruct (IH _ Hr ltac:(lia) Hlt) as (f' & Hf & Hin). exists f'. split; [|done].
    pose proof (nth_get_lt _ _ _ Hf). rewrite nth_get_cons, (proj2 (Z.eqb_neq (1 + files_before t r) 0)) by lia. 
    by replace (1 + files_before t r - 1) with (files_before t r) by lia.
  - exists f. split; [done|lia].
Qed.

(** The segments tile the torrent from [cursor] to [torrent_end]. *)
Fixpoint tiled (l : TorrentLayout) (piece_start torrent_start cursor torrent_end : Z) (segs : list FileLayoutSegment) : Prop :=
  match segs with
  | [] => cursor = torrent_end
  | s :: r => fs_piece_offset s = cursor - piece_start /\ fs_block_offset s = cursor - torrent_start /\ 0 < fs_length s
      /\ (exists f, nth_get (files l) (fs_file_index s) = Some f /\ f_offset f + fs_file_offset s = cursor
            /\ 0 <= fs_file_offset s /\ fs_file_offset s + fs_length s <= f_length f /\ fs_padding s = padding f)
      /\ tiled l piece_start torrent_start (cursor + fs_length s) torrent_end r
  end.
Lemma segments_loop_ok l ps ts te fuel i c : v1_ok l -> 0 <= ps <= ts -> ts <= c <= te -> te <= total_length l -> te - ps < 2 ^ 32 ->
  (te <= c \/ contiguous c (skip (files l) i) (total_length l)
   \/ exists f, nth_get (files l) i = Some f /\ f_offset f <= c < f_offset f + f_length f) ->
  0 <= i -> (Datatypes.length (files l) < fuel + Z.to_nat i)%nat \/ te <= c ->
  exists segs, segments_loop fuel l ps ts te i c = Ok segs /\ tiled l ps ts c te segs.
Proof.
  intros H Hps. revert i c. induction fuel as [|fuel IH]; intros i c Hc Hte Hsmall Hpos Hi Hfuel.
  { cbn [segments_loop]. destruct (Z.leb_spec te c) as [Hle|Hgt]; [exists []; split; [done|cbn; lia]|]. exfalso.
    destruct Hfuel as [Hfuel|]; [|lia]. destruct Hpos as [|[Hcon|(f & Hf & _)]]; [lia| |apply nth_get_lt in Hf; unfold len in Hf; lia].
    unfold skip in Hcon. rewrite drop_ge in Hcon by lia. cbn in Hcon. lia. }
  cbn [segments_loop]. destruct (Z.leb_spec te c) as [Hle|Hgt]; [exists []; split; [done|cbn; lia]|].
  destruct Hfuel as [Hfuel|]; [|lia].
  (* the file the cursor is in, or the next one *)
  assert (exists f, nth_get (files l) i = Some f /\ f_offset f <= c <= f_offset f + f_length f
            /\ (c < f_offset f + f_length f \/ f_length f = 0)) as (f & Hf & Hin & Hcase).
  { destruct Hpos as [|[Hcon|(f & Hf & Hin)]]; [lia| |exists f; split_and!; try done; lia].
    destruct (nth_get (files l) i) as [f|] eqn:Hf.
    - exists f. split; [done|]. unfold skip, nth_get in *. rewrite (proj2 (Z.leb_le 0 i)) in Hf by done.
      apply drop_S in Hf. rewrite Hf in Hcon. destruct Hcon as (-> & Hl & _). lia.
    - unfold nth_get in Hf. rewrite (proj2 (Z.leb_le 0 i)) in Hf by done. apply lookup_ge_None in Hf.
      unfold skip in Hcon. rewrite drop_ge in Hcon by lia. cbn in Hcon. lia. }
  destruct (contiguous_drop 0 _ _ i f (v1_files _ H) Hf) as (_ & Hl & Hend & Hrest). pose proof (v1_total _ H) as Htot.
  rewrite Hf. obind. unfold file_end. rewrite checked_add_fits by lia. obind.
  destruct ((f_length f =? 0) || (c =? f_offset f + f_length f)) eqn:Ee.
  - assert (c = f_offset f + f_length f) as Ec by (apply orb_prop in Ee as [?|?]; lia). apply IH; try done; try lia.
    right; left. by rewrite Ec.
  - apply orb_false_elim in Ee as [E1 E2]. rewrite (proj2 (Z.ltb_ge c (f_offset f))) by lia.
    rewrite (proj2 (Z.ltb_ge (f_offset f + f_length f) c)) by lia. cbn [orb].
    set (e := Z.min te (f_offset f + f_length f)). assert (c < e <= te) as He by lia.
    unfold USIZE. rewrite (try_u_fits 64 (e - c)) by lia. obind. rewrite (try_u_fits 32 (c - ps)) by lia. obind.
    rewrite (try_u_fits 64 (c - ts)) by lia. obind.
    destruct (Z.eqb_spec e (f_offset f + f_length f)) as [Eend|Eend].
    + destruct (IH (i + 1) e) as (segs & -> & Ht); try done; try lia. { right; left. by rewrite Eend. }
      rewrite ok_bind. eexists. split; [reflexivity|]. cbn. split_and!; try lia; [exists f; split_and!; try done; lia|].
      by replace (c + (e - c)) with e by lia.
    + destruct (IH i e) as (segs & -> & Ht); try done; try lia.
      rewrite ok_bind. eexists. split; [reflexivity|]. cbn. split_and!; try lia; [exists f; split_and!; try done; lia|].
      by replace (c + (e - c)) with e by lia.
Qed.

Lemma file_segments_eq l p b n : v1_ok l -> 0 <= p < piece_count l -> 0 <= b -> 0 < n -> b + n <= piece_len l p ->
  let ps := piece_start_of l p in
  exists segs, file_segments l p b n = Ok segs /\ tiled l ps (ps + b) (ps + b) (ps + b + n) segs.
Proof.
  intros H Hp Hb Hn Hle ps. destruct (piece_bounds l p H Hp) as (H0 & H1 & H2 & H3 & _). pose proof (v1_total _ H) as Htot.
  fold ps in H0, H3. unfold file_segments. rewrite (proj2 (Z.eqb_neq n 0)) by lia. rewrite piece_length_at_eq by (done || lia).
  rewrite (proj2 (Z.ltb_lt p (piece_count l))) by lia. rewrite ok_bind. rewrite checked_add_fits by lia. obind.
  rewrite (proj2 (Z.ltb_ge (piece_len l p) (b + n))) by lia. unfold piece_start_of in ps. rewrite checked_mul_fits by lia. obind. fold ps.
  rewrite (checked_add_fits 64 ps b) by lia. obind. rewrite (checked_add_fits 64 (ps + b) n) by lia. obind.
  destruct (files_before_ok 0 (files l) (total_length l) (ps + b) (v1_files _ H) ltac:(lia) ltac:(lia)) as (f & Hf & Hin).
  pose proof (nth_get_lt _ _ _ Hf). apply segments_loop_ok; try done; try lia.
  - right; right. by exists f.
  - left. unfold segments_fuel. lia.
Qed.

(** An interval of a piece is mapped to segments that tile it.  Inside a
    piece, [file_segments] yields nonempty segments, one after the other,
    from the first to the last byte of the interval: each lies inside the
    file it names, at the place where the torrent has those bytes, and is
    marked as padding when the file is.  An empty interval, an unknown piece
    and an interval beyond the end of the piece are refused, whatever the
    numbers; the layout of a parsed torrent has no gap and no overflow. *)
Theorem file_segments_exact l p b n : v1_ok l -> is_u 32 p -> is_u 32 b -> is_u 32 n ->
  match file_segments l p b n with
  | Ok segs => 0 < n /\ p < piece_count l /\ b + n <= piece_len l p
      /\ tiled l (piece_start_of l p) (piece_start_of l p + b) (piece_start_of l p + b) (piece_start_of l p + b + n) segs
  | Err EmptyInterval => n = 0
  | Err (InvalidPieceIndex i c) => i = p /\ c = piece_count l /\ piece_count l <= p
  | Err (IntervalOutOfRange i b' n' m) => i = p /\ b' = b /\ n' = n /\ m = piece_len l p /\ p < piece_count l /\ piece_len l p < b + n
  | _ => False
  end.
Proof.
  unfold is_u. intros H Hp Hb Hn. destruct (decide (n = 0)) as [->|Hne]; [done|].
  destruct (Z.le_gt_cases (piece_count l) p) as [Hge|Hlt].
  { unfold file_segments. rewrite (proj2 (Z.eqb_neq n 0)), piece_length_at_eq by (done || lia).
    by rewrite (proj2 (Z.ltb_ge p (piece_count l))) by lia. }
  destruct (piece_bounds l p H ltac:(lia)) as (_ & Hb1 & Hb2 & _). destruct (Z.le_gt_cases (b + n) (piece_len l p)) as [Hle|Hgt].
  - destruct (file_segments_eq l p b n H ltac:(lia) ltac:(lia) ltac:(lia) Hle) as (segs & -> & Ht). split_and!; try done; lia.
  - unfold file_segments. rewrite (proj2 (Z.eqb_neq n 0)), piece_length_at_eq by (done || lia).
    rewrite (proj2 (Z.ltb_lt p (piece_count l))) by lia. rewrite ok_bind. unfold checked_add.
    destruct (Z.ltb_spec (b + n) (2 ^ 32)); obind; [|split_and!; done || lia].
    rewrite (proj2 (Z.ltb_lt (piece_len l p) (b + n))) by lia. split_and!; done || lia.
Qed.

(** ** The bytes *)

(** The contents of the files, and what a segment reads. *)
Definition holds_data (l : TorrentLayout) (data : list (list Z)) : Prop := Forall2 (fun f d => len d = f_length f) (files l) data.
Definition read_segment (data : list (list Z)) (s : FileLayoutSegment) : list Z :=
  sub_list (default [] (nth_get data (fs_file_index s))) (fs_file_offset s) (fs_file_offset s + fs_length s).
Lemma sub_list_app_l {A} (k m : list A) a b : 0 <= a <= b -> b <= len k -> sub_list (k ++ m) a b = sub_list k a b.
Proof.
  intros Ha Hb. unfold sub_list, len in *. rewrite drop_app_le by lia. rewrite take_app_le; [done|]. rewrite length_drop. lia.
Qed.
Lemma sub_list_app_r {A} (k m : list A) a b : 0 <= a -> sub_list (k ++ m) (len k + a) (len k + b) = sub_list m a b.
Proof.
  intros Ha. unfold sub_list, len. rewrite drop_app_ge by lia. f_equal; [lia|]. f_equal. lia.
Qed.
Lemma read_file start fs total (data : list (list Z)) i f a b : contiguous start fs total -> Forall2 (fun f d => len d = f_length f) fs data ->
  nth_get fs i = Some f -> 0 <= a <= b -> b <= f_length f ->
  sub_list (concat data) (f_offset f - start + a) (f_offset f - start + b) = sub_list (default [] (nth_get data i)) a b.
Proof.
  intros Hc HF. revert start i Hc. induction HF as [|f' d fs data Hd HF IH]; intros start i Hc Hi Ha Hb.
  { unfold nth_get in Hi. destruct (0 <=? i); [|done]. by destruct (Z.to_nat i). }
  cbv beta in Hd. destruct Hc as (Ho & Hl & Hr). rewrite nth_get_cons in Hi. rewrite nth_get_cons. cbn [concat].
  destruct (Z.eqb_spec i 0) as [->|Hne].
  - injection Hi as ->. change (default [] (Some d)) with d. replace (f_offset f - start) with 0 by lia. rewrite !Z.add_0_l. apply sub_list_app_l; lia.
  - destruct (contiguous_drop _ _ _ _ _ Hr Hi) as (Hs & _).
    rewrite <- (IH (start + f_length f') (i - 1) Hr Hi Ha Hb).
    replace (f_offset f - start + a) with (len d + (f_offset f - (start + f_length f') + a)) by lia.
    replace (f_offset f - start + b) with (len d + (f_offset f - (start + f_length f') + b)) by lia. apply sub_list_app_r. lia.
Qed.
Lemma tiled_read l (data : list (list Z)) ps ts c te segs : v1_ok l -> holds_data l data -> 0 <= c -> te <= len (concat data) -> tiled l ps ts c te segs ->
  c <= te /\ concat (map (read_segment data) segs) = sub_list (concat data) c te.
Proof.
  intros H Hd. revert c. induction segs as [|s r IH]; intros c Hc Hte; cbn [tiled map concat].
  { intros ->. split; [lia|]. by rewrite sub_list_empty. }
  intros (_ & _ & Hn & (f & Hf & Ho & Hfo & Hle & _) & Ht). destruct (IH (c + fs_length s)) as [Hce ->]; [lia|done|done|]. split; [lia|].
  rewrite (sub_list_join (concat data) c (c + fs_length s) te) by lia. f_equal. unfold read_segment.
  rewrite <- (read_file 0 (files l) (total_length l) data (fs_file_index s) f) by (done || lia || apply H). f_equal; lia.
Qed.
Lemma stream_length l data : v1_ok l -> holds_data l data -> len (concat data) = total_length l.
Proof.
  intros H Hd. pose proof (v1_files _ H) as Hc. unfold holds_data in Hd. revert Hc. generalize (total_length l) as total.
  enough (forall start fs total, contiguous start fs total -> forall data, Forall2 (fun f d => len d = f_length f) fs data ->
    start + len (concat data) = total) as He by (intros total Hc; rewrite <- (He 0 (files l) total Hc data Hd); lia).
  intros start fs. revert start. induction fs as [|f r IH]; intros start total Hc data' HF; inversion HF as [|? d ? data'' Hd' HF' ]; subst; cbn in Hc |- *.
  - rewrite len_nil. lia.
  - destruct Hc as (_ & _ & Hc). rewrite len_app, <- (IH _ _ Hc _ HF'). lia.
Qed.

(** C29: Reading the segments reads the torrent.  Whatever bytes the files
    hold, the contents of the segments of an interval, one after the other,
    are the bytes of that interval of the concatenation of all files. *)
Theorem segments_read l data p b n segs : v1_ok l -> holds_data l data -> 0 <= p -> 0 <= b -> 0 <= n ->
  file_segments l p b n = Ok segs ->
  concat (map (read_segment data) segs) = sub_list (concat data) (p * piece_length l + b) (p * piece_length l + b + n)
  /\ len (concat (map (read_segment data) segs)) = n.
Proof.
  intros H Hd Hp Hb Hn E. assert (0 < n /\ p < piece_count l /\ b + n <= piece_len l p) as (Hn' & Hp' & Hle).
  { unfold file_segments in E. destruct (Z.eqb_spec n 0); [done|]. rewrite piece_length_at_eq in E by done.
    destruct (Z.ltb_spec p (piece_count l)); [|done]. rewrite ok_bind in E.
    destruct (Z.lt_ge_cases (b + n) (2 ^ 32)); [rewrite checked_add_fits in E by done|by rewrite checked_add_over in E by done].
    cbn [ok_or] in E. rewrite ok_bind in E.
    destruct (Z.ltb_spec (piece_len l p) (b + n)); [done|]. lia. }
  destruct (piece_bounds l p H ltac:(lia)) as (H0 & _ & _ & H3 & _).
  destruct (file_segments_eq l p b n H ltac:(lia) Hb Hn' Hle) as (segs' & E' & Ht). rewrite E in E'. injection E' as <-.
  fold (piece_start_of l p). pose proof (stream_length l data H Hd) as Hlen.
  destruct (tiled_read l data (piece_start_of l p) (piece_start_of l p + b) (piece_start_of l p + b) (piece_start_of l p + b + n) segs H Hd ltac:(lia) ltac:(lia) Ht) as [_ ->].
  split; [done|]. rewrite len_sub_list; lia.
Qed.

(** ** Which file a byte is in *)
Definition stored_in (l : TorrentLayout) (t i : Z) (f : MetainfoFile) : Prop :=
  nth_get (files l) i = Some f /\ f_offset f <= t < f_offset f + f_length f.
Lemma stored_in_unique_from start fs total i f i' f' t : contiguous start fs total ->
  nth_get fs i = Some f -> nth_get fs i' = Some f' -> f_offset f <= t < f_offset f + f_length f ->
  f_offset f' <= t < f_offset f' + f_length f' -> i = i'.
Proof.
  revert start i i'. induction fs as [|f0 r IH]; intros start i i' Hc Hi Hi' Ht Ht'.
  { unfold nth_get in Hi. destruct (0 <=? i); [|done]. by destruct (Z.to_nat i). }
  destruct Hc as (Ho & Hl & Hr). rewrite nth_get_cons in Hi, Hi'.
  destruct (Z.eqb_spec i 0) as [Ei|Ei], (Z.eqb_spec i' 0) as [Ei'|Ei']; [lia| | |].
  - injection Hi as ->. destruct (contiguous_drop _ _ _ _ _ Hr Hi') as [? _]. lia.
  - injection Hi' as ->. destruct (contiguous_drop _ _ _ _ _ Hr Hi) as [? _]. lia.
  - assert (i - 1 = i' - 1); [|lia]. by eapply IH.
Qed.
Lemma stored_in_unique l t i f i' f' : v1_ok l -> stored_in l t i f -> stored_in l t i' f' -> i = i' /\ f = f'.
Proof.
  intros H [Hi Ht] [Hi' Ht']. assert (i = i') as -> by (eapply stored_in_unique_from; [apply H|done..]).
  split; [done|]. congruence.
Qed.
Lemma tiled_exists l ps ts c te segs (P : Z -> MetainfoFile -> Prop) : v1_ok l -> tiled l ps ts c te segs ->
  (exists s f, s ∈ segs /\ nth_get (files l) (fs_file_index s) = Some f /\ fs_padding s = padding f /\ P (fs_file_index s) f)
  <-> (exists t i f, c <= t < te /\ stored_in l t i f /\ P i f).
Proof.
  intros H. revert c. induction segs as [|s r IH]; intros c; cbn [tiled].
  - intros ->. split; [intros (s & f & Hs & _); by apply elem_of_nil in Hs|intros (t & i & f & Ht & _); lia].
  - intros (_ & _ & Hn & (f & Hf & Ho & Hfo & Hle & Hpad) & Ht). specialize (IH _ Ht).
    assert (c + fs_length s <= te) as Hce.
    { clear -Ht. revert Ht. generalize (c + fs_length s) as x. induction r as [|s' r IH]; cbn; intros x; [lia|].
      intros (_ & _ & Hn & _ & Ht). specialize (IH _ Ht). lia. }
    split.
    + intros (s' & f' & [->|Hs]%elem_of_cons & Hf' & Hp' & HP).
      * exists c, (fs_file_index s), f'. assert (f' = f) as -> by congruence. split; [lia|]. split; [split; [done|lia]|done].
      * destruct (proj1 IH) as (t & i & f1 & Ht1 & Hst & HP1); [by exists s', f'|]. exists t, i, f1. split_and!; try done; lia.
    + intros (t & i & f' & Htt & Hst & HP). destruct (Z.lt_ge_cases t (c + fs_length s)) as [Hlt|Hge].
      * destruct (stored_in_unique l t i f' (fs_file_index s) f H Hst) as [-> ->]; [split; [done|lia]|].
        exists s, f. split_and!; try done. left.
      * destruct (proj2 IH) as (s' & f1 & Hs & Hrest); [exists t, i, f'; split_and!; try done; lia|]. exists s', f1.
        split; [by right|done].
Qed.
Lemma tiled_lookup l ps ts c te segs s : tiled l ps ts c te segs -> s ∈ segs ->
  exists f, nth_get (files l) (fs_file_index s) = Some f /\ fs_padding s = padding f.
Proof.
  revert c. induction segs as [|s' r IH]; intros c; [intros _ Hs; by apply elem_of_nil in Hs|].
  intros (_ & _ & _ & (f & Hf & _ & _ & _ & Hp) & Ht) [->|Hs]%elem_of_cons; [by exists f|by eapply IH].
Qed.

(** A byte of a file of one kind in a piece. *)
Definition piece_has (l : TorrentLayout) (p : Z) (P : Z -> MetainfoFile -> Prop) : Prop :=
  exists b i f, 0 <= b < piece_len l p /\ stored_in l (piece_start_of l p + b) i f /\ P i f.
Definition wanted_file (sel : FileSelection) (i : Z) (f : MetainfoFile) : Prop := padding f = false /\ is_wanted sel i = true.
Definition skipped_file (sel : FileSelection) (i : Z) (f : MetainfoFile) : Prop := padding f = false /\ is_wanted sel i = false.

Lemma existsb_segments l sel ps te segs (Q : SegmentTarget -> bool) (P : Z -> MetainfoFile -> Prop) : v1_ok l ->
  (forall s f, fs_padding s = padding f -> Q (target_of sel s) = true <-> P (fs_file_index s) f) -> tiled l ps ps ps te segs ->
  existsb (fun s => Q (s_target s)) (map (with_target sel) segs) = true
  <-> exists t i f, ps <= t < te /\ stored_in l t i f /\ P i f.
Proof.
  intros H HQ Ht. rewrite <- (tiled_exists l ps ps ps te segs P H Ht). rewrite existsb_exists. split.
  - intros (x & Hx & HQx). apply in_map_iff in Hx as (s & <- & Hs). apply list_elem_of_In in Hs.
    destruct (tiled_lookup _ _ _ _ _ _ s Ht Hs) as (f & Hf & Hp). exists s, f. split_and!; try done. by apply HQ.
  - intros (s & f & Hs & Hf & Hp & HP). exists (with_target sel s). split; [by apply in_map, list_elem_of_In|]. by apply (HQ s f).
Qed.
Lemma piece_has_range l p P : piece_has l p P <->
  exists t i f, piece_start_of l p <= t < piece_start_of l p + piece_len l p /\ stored_in l t i f /\ P i f.
Proof.
  split.
  - intros (b & i & f & Hb & Hs & HP). exists (piece_start_of l p + b), i, f. split_and!; try done; lia.
  - intros (t & i & f & Hb & Hs & HP). exists (t - piece_start_of l p), i, f. split; [lia|].
    by replace (piece_start_of l p + (t - piece_start_of l p)) with t by lia.
Qed.
Definition selects (sel : FileSelection) (l : TorrentLayout) : Prop := selection_file_count sel = len (files l).
Lemma whole_piece l p sel : v1_ok l -> selects sel l -> 0 <= p < piece_count l ->
  exists segs, segments l p 0 (piece_len l p) sel = Ok (map (with_target sel) segs)
    /\ tiled l (piece_start_of l p) (piece_start_of l p) (piece_start_of l p) (piece_start_of l p + piece_len l p) segs.
Proof.
  intros H Hsel Hp. destruct (piece_bounds l p H Hp) as (_ & Hlen & _).
  destruct (file_segments_eq l p 0 (piece_len l p) H Hp ltac:(lia) Hlen ltac:(lia)) as (segs & E & Ht).
  rewrite !Z.add_0_r in Ht. exists segs. split; [|done]. unfold segments. rewrite (proj2 (Z.eqb_neq (piece_len l p) 0)) by lia.
  rewrite (proj2 (Z.eqb_eq _ _) Hsel). cbn [negb]. by rewrite E.
Qed.
Lemma existsb_kinds l sel p segs : v1_ok l ->
  tiled l (piece_start_of l p) (piece_start_of l p) (piece_start_of l p) (piece_start_of l p + piece_len l p) segs ->
  (existsb (fun s => is_wanted_target (s_target s)) (map (with_target sel) segs) = true <-> piece_has l p (wanted_file sel))
  /\ (existsb (fun s => is_skipped_target (s_target s)) (map (with_target sel) segs) = true <-> piece_has l p (skipped_file sel)).
Proof.
  intros H Ht. rewrite !piece_has_range. split; eapply existsb_segments; try done; intros s f Hp;
    unfold target_of, wanted_file, skipped_file; rewrite Hp; destruct (padding f), (is_wanted sel (fs_file_index s)); naive_solver.
Qed.

(** The class of a piece says whose bytes it has.  A piece is wanted
    when it has bytes of wanted files and none of skipped ones, a boundary
    piece when it has both, and skipped when it has no wanted byte; padding
    does not count. *)
Theorem piece_class_exact l p sel : v1_ok l -> selects sel l -> 0 <= p ->
  match piece_class l p sel with
  | Ok c => p < piece_count l
      /\ (c = Wanted <-> piece_has l p (wanted_file sel) /\ ~ piece_has l p (skipped_file sel))
      /\ (c = Boundary <-> piece_has l p (wanted_file sel) /\ piece_has l p (skipped_file sel))
      /\ (c = Skipped <-> ~ piece_has l p (wanted_file sel))
  | Err e => piece_count l <= p /\ e = InvalidPieceIndex p (piece_count l)
  | _ => False
  end.
Proof.
  intros H Hsel Hp. unfold piece_class. rewrite piece_length_at_eq by done. destruct (Z.ltb_spec p (piece_count l)) as [Hlt|Hge]; [|done].
  rewrite ok_bind. destruct (whole_piece l p sel H Hsel ltac:(lia)) as (segs & -> & Ht). rewrite ok_bind.
  destruct (existsb_kinds l sel p segs H Ht) as [<- <-]. split; [done|]. unfold class_of.
  destruct (existsb _ _), (existsb _ _); naive_solver.
Qed.
Lemma piece_class_ok l p sel : v1_ok l -> selects sel l -> 0 <= p < piece_count l ->
  exists c, piece_class l p sel = Ok c /\ (c = Skipped <-> ~ piece_has l p (wanted_file sel)).
Proof.
  intros H Hsel Hp. unfold piece_class. rewrite piece_length_at_eq by (done || lia). rewrite (proj2 (Z.ltb_lt p (piece_count l))) by lia.
  rewrite ok_bind. destruct (whole_piece l p sel H Hsel Hp) as (segs & -> & Ht). rewrite ok_bind. eexists. split; [reflexivity|].
  destruct (existsb_kinds l sel p segs H Ht) as [<- _]. unfold class_of. repeat case_match; naive_solver.
Qed.

(** ** Requests *)
Definition in_ranges (b : Z) (rs : list RequestRange) : Prop := exists r, r ∈ rs /\ r_begin r <= b < r_begin r + r_length r.
(** Nonempty ranges, in order and apart, between [lo] and [hi]. *)
Fixpoint ascending (lo : Z) (rs : list RequestRange) (hi : Z) : Prop :=
  match rs with
  | [] => lo <= hi
  | r :: t => lo <= r_begin r /\ 0 < r_length r /\ ascending (r_begin r + r_length r) t hi
  end.
Lemma ascending_le lo rs hi : ascending lo rs hi -> lo <= hi.
Proof. revert lo. induction rs as [|r t IH]; cbn; intros lo; [done|]. intros (? & ? & Ht). apply IH in Ht. lia. Qed.
Lemma ascending_app lo k m hi : ascending lo (k ++ m) hi <-> exists mid, ascending lo k mid /\ ascending mid m hi.
Proof.
  revert lo. induction k as [|r k IH]; cbn; intros lo.
  - split; [intros Hm; exists lo; split; [lia|done]|]. intros (mid & Hle & Hm). destruct m as [|r m]; cbn in *; [lia|]. intuition lia.
  - rewrite IH. naive_solver.
Qed.
Lemma ascending_bounds lo rs hi b : ascending lo rs hi -> in_ranges b rs -> lo <= b < hi.
Proof.
  revert lo. induction rs as [|r t IH]; cbn; intros lo; [by intros _ (r & Hr%elem_of_nil & _)|].
  intros (Hlo & Hn & Ht) (r' & [->|Hr]%elem_of_cons & Hb).
  - apply ascending_le in Ht. lia.
  - assert (r_begin r + r_length r <= b < hi); [|lia]. apply IH; [done|]. by exists r'.
Qed.
Lemma in_ranges_app b k m : in_ranges b (k ++ m) <-> in_ranges b k \/ in_ranges b m.
Proof. unfold in_ranges. setoid_rewrite elem_of_app. naive_solver. Qed.
Lemma in_ranges_one b r : in_ranges b [r] <-> r_begin r <= b < r_begin r + r_length r.
Proof. unfold in_ranges. setoid_rewrite list_elem_of_singleton. naive_solver. Qed.
Definition payload_byte (l : TorrentLayout) (t : Z) : Prop := exists i f, stored_in l t i f /\ padding f = false.
Lemma payload_of l t i f : v1_ok l -> stored_in l t i f -> payload_byte l t <-> padding f = false.
Proof.
  intros H Hs. split; [|intros Hp; by exists i, f]. intros (i' & f' & Hs' & Hp). by destruct (stored_in_unique l t i f i' f' H Hs Hs') as [_ ->].
Qed.

Lemma merge_ranges_ok l sel ps te segs : v1_ok l -> 0 <= ps -> te - ps < 2 ^ 32 ->
  forall c acc, tiled l ps ps c te segs -> ps <= c -> ascending 0 (rev acc) (c - ps) ->
  (forall b, 0 <= b < c - ps -> in_ranges b (rev acc) <-> payload_byte l (ps + b)) ->
  exists rs, merge_ranges (map (with_target sel) segs) acc = Ok rs /\ ascending 0 rs (te - ps)
    /\ forall b, 0 <= b < te - ps -> in_ranges b rs <-> payload_byte l (ps + b).
Proof.
  intros H Hps Hsmall. induction segs as [|s r IH]; intros c acc Ht Hc Hasc Hcov; cbn [map merge_ranges].
  { cbn in Ht. subst c. by exists (rev acc). }
  destruct Ht as (Hpo & _ & Hn & (f & Hf & Ho & Hfo & Hle & Hpad) & Ht).
  assert (c + fs_length s <= te) as Hce.
  { clear -Ht. revert Ht. generalize (c + fs_length s) as x. induction r as [|s' r IH]; cbn; intros x; [lia|].
    intros (_ & _ & Hn & _ & Ht). specialize (IH _ Ht). lia. }
  set (n := fs_length s) in *.
  assert (forall b, c - ps <= b < c + n - ps -> payload_byte l (ps + b) <-> padding f = false) as Hpay.
  { intros b Hb. apply (payload_of l _ (fs_file_index s)); [done|]. split; [done|lia]. }
  (* what is left to show for any new accumulator *)
  assert (forall acc', ascending 0 (rev acc') (c + n - ps) ->
            (forall b, 0 <= b < c + n - ps -> in_ranges b (rev acc') <-> (in_ranges b (rev acc) \/ (padding f = false /\ c - ps <= b))) ->
            exists rs, merge_ranges (map (with_target sel) r) acc' = Ok rs /\ ascending 0 rs (te - ps)
              /\ forall b, 0 <= b < te - ps -> in_ranges b rs <-> payload_byte l (ps + b)) as Hgo.
  { intros acc' Hasc' Hcov'. apply (IH (c + n) acc'); try done; [lia|]. intros b Hb. rewrite Hcov' by done.
    destruct (Z.lt_ge_cases b (c - ps)) as [Hlt|Hge].
    - rewrite Hcov by lia. split; [intros [?|[_ ?]]; [done|lia]|by left].
    - rewrite Hpay by lia. split; [|intros; right; split; [done|lia]]. intros [Hin|[? _]]; [|done].
      apply (ascending_bounds _ _ _ _ Hasc) in Hin. lia. }
  assert (bool_decide (target_of sel s = Padding) = padding f) as Etarget.
  { unfold target_of. destruct (padding f) eqn:Ef; [apply bool_decide_eq_true_2; by rewrite Hpad|].
    apply bool_decide_eq_false_2. rewrite Hpad. by destruct (is_wanted sel (fs_file_index s)). }
  cbn [with_target s_target s_length s_piece_offset]. rewrite Etarget. destruct (padding f) eqn:Ef.
  { apply Hgo.
    - assert (ascending 0 (rev acc ++ []) (c + n - ps)) as Ha; [|by rewrite app_nil_r in Ha].
      apply ascending_app. exists (c - ps). split; [done|cbn; lia].
    - intros b _. split; [by left|]. by intros [?|[? _]]. }
  rewrite try_u_fits by lia. obind.
  rewrite Hpo. destruct acc as [|prev others]; cbn [rev] in Hasc, Hcov, Hgo |- *.
  { apply Hgo; cbn [rev app ascending r_begin r_length]; [lia|]. intros b Hb. rewrite in_ranges_one. cbn. split; [intros; right; split; [done|lia]|].
    intros [(r0 & Hr0%elem_of_nil & _)|[_ ?]]; [done|lia]. }
  pose proof Hasc as (mid & Hasc1 & Hmid1 & Hprev & Hend)%ascending_app. cbn in Hmid1, Hprev, Hend.
  pose proof (ascending_le _ _ _ Hasc1) as Hmid0.
  rewrite (checked_add_fits 32 (r_begin prev) (r_length prev)) by lia. obind.
  destruct (Z.eqb_spec (r_begin prev + r_length prev) (c - ps)) as [Eadj|Eadj].
  - rewrite checked_add_fits by lia. obind. apply Hgo; cbn [rev].
    + apply ascending_app. exists mid. split; [done|]. cbn. lia.
    + intros b Hb. rewrite !in_ranges_app, !in_ranges_one. cbn. split; [intros [?|?]; [by do 2 left|]|].
      * destruct (Z.lt_ge_cases b (c - ps)); [left; right; lia|right; split; [done|lia]].
      * intros [[?|?]|[_ ?]]; [by left|right; lia|right; lia].
  - apply Hgo; cbn [rev].
    + apply ascending_app. exists (c - ps). split; [done|]. cbn. lia.
    + intros b Hb. rewrite !in_ranges_app, !in_ranges_one. cbn. split; [intros [?|?]; [by left|right; split; [done|lia]]|].
      intros [?|[_ ?]]; [by left|right; lia].
Qed.

Lemma split_blocks_ok fuel b e : 0 <= b -> e < 2 ^ 32 -> div_ceil (e - b) MAX_REQUEST_BLOCK_LENGTH <= Z.of_nat fuel ->
  exists bs, split_blocks fuel b e = Ok bs /\ (b <= e -> ascending b bs e)
    /\ (forall x, in_ranges x bs <-> b <= x < e) /\ Forall (fun r => r_length r <= MAX_REQUEST_BLOCK_LENGTH) bs.
Proof.
  revert b. induction fuel as [|fuel IH]; intros b Hb He Hf; cbn [split_blocks]; destruct (Z.leb_spec e b) as [Hle|Hlt].
  - exists []. split_and!; try done. intros x. split; [intros (r & Hr%elem_of_nil & _); done|lia].
  - unfold div_ceil, MAX_REQUEST_BLOCK_LENGTH in Hf. Z.to_euclidean_division_equations. lia.
  - exists []. split_and!; try done. intros x. split; [intros (r & Hr%elem_of_nil & _); done|lia].
  - set (n := Z.min MAX_REQUEST_BLOCK_LENGTH (e - b)).
    assert (0 < n <= e - b /\ n <= MAX_REQUEST_BLOCK_LENGTH) as Hn by (unfold n, MAX_REQUEST_BLOCK_LENGTH; lia).
    rewrite checked_add_fits by lia. obind. destruct (IH (b + n)) as (bs & -> & Hasc & Hin & Hall); try lia.
    { unfold n, div_ceil, MAX_REQUEST_BLOCK_LENGTH in *. Z.to_euclidean_division_equations. lia. }
    rewrite ok_bind. eexists. split; [reflexivity|]. split_and!.
    + intros _. cbn. split_and!; try lia. apply Hasc. lia.
    + intros x. change (mkRange b n :: bs) with ([mkRange b n] ++ bs). rewrite in_ranges_app, in_ranges_one, Hin. cbn. lia.
    + constructor; [cbn; lia|done].
Qed.
Lemma split_ranges_ok lo rs hi : 0 <= lo -> hi < 2 ^ 32 -> ascending lo rs hi ->
  exists bs, split_ranges rs = Ok bs /\ ascending lo bs hi /\ (forall x, in_ranges x bs <-> in_ranges x rs)
    /\ Forall (fun r => r_length r <= MAX_REQUEST_BLOCK_LENGTH) bs.
Proof.
  intros Hlo Hhi. revert lo Hlo. induction rs as [|r t IH]; intros lo Hlo; cbn [ascending split_ranges].
  { intros Hle. exists []. by split_and!. }
  intros (Hb & Hn & Ht). pose proof (ascending_le _ _ _ Ht) as Hend.
  destruct (IH (r_begin r + r_length r) ltac:(lia) Ht) as (others & -> & Ho1 & Ho2 & Ho3).
  rewrite checked_add_fits by lia. obind.
  destruct (split_blocks_ok (blocks_fuel (r_begin r) (r_begin r + r_length r)) (r_begin r) (r_begin r + r_length r)) as (bs & -> & Hb1 & Hb2 & Hb3);
    [lia|lia| |].
  { unfold blocks_fuel. pose proof (div_ceil_bounds (r_begin r + r_length r - r_begin r) MAX_REQUEST_BLOCK_LENGTH ltac:(done) ltac:(lia)). lia. }
  rewrite !ok_bind. eexists. split; [reflexivity|]. split_and!.
  - apply ascending_app. exists (r_begin r + r_length r). split; [|done]. specialize (Hb1 ltac:(lia)).
    destruct bs as [|b bs]; cbn in *; [lia|]. intuition lia.
  - intros x. change (r :: t) with ([r] ++ t). rewrite !in_ranges_app, in_ranges_one, Hb2, Ho2. done.
  - by apply Forall_app.
Qed.

(** The requests fetch exactly the payload of a piece.  For a piece with
    a wanted byte the request ranges are nonempty, at most one block long,
    in order, apart and inside the piece, and together they cover a byte
    precisely when it is not padding (bytes of skipped files in the piece
    included: its hash needs them).  Nothing is requested of a skipped piece,
    and an unknown piece is refused. *)
Theorem request_ranges_exact l p sel : v1_ok l -> selects sel l -> 0 <= p ->
  match request_ranges l p sel with
  | Ok rs => p < piece_count l
      /\ (rs = [] \/ piece_has l p (wanted_file sel))
      /\ (piece_has l p (wanted_file sel) ->
            ascending 0 rs (piece_len l p)
            /\ Forall (fun r => r_length r <= MAX_REQUEST_BLOCK_LENGTH) rs
            /\ forall b, 0 <= b < piece_len l p -> in_ranges b rs <-> payload_byte l (p * piece_length l + b))
  | Err e => piece_count l <= p /\ e = InvalidPieceIndex p (piece_count l)
  | _ => False
  end.
Proof.
  intros H Hsel Hp. unfold request_ranges. destruct (Z.le_gt_cases (piece_count l) p) as [Hge|Hlt].
  { unfold piece_class. rewrite piece_length_at_eq by done. by rewrite (proj2 (Z.ltb_ge _ _) Hge). }
  destruct (piece_class_ok l p sel H Hsel ltac:(lia)) as (c & -> & Hc). rewrite ok_bind. case_bool_decide as Hskip.
  { split; [lia|]. split; [by left|]. intros Hw. by apply Hc in Hskip. }
  rewrite piece_length_at_eq by done. rewrite (proj2 (Z.ltb_lt p (piece_count l))) by lia. rewrite ok_bind.
  destruct (whole_piece l p sel H Hsel ltac:(lia)) as (segs & -> & Ht). rewrite ok_bind.
  destruct (piece_bounds l p H ltac:(lia)) as (H0 & H1 & H2 & H3 & _).
  destruct (merge_ranges_ok l sel (piece_start_of l p) (piece_start_of l p + piece_len l p) segs H H0 ltac:(lia) (piece_start_of l p) [] Ht ltac:(lia))
    as (rs & -> & Hasc & Hin). { cbn. lia. } { intros b Hb. lia. }
  rewrite ok_bind. replace (piece_start_of l p + piece_len l p - piece_start_of l p) with (piece_len l p) in Hasc, Hin by lia.
  destruct (split_ranges_ok 0 rs (piece_len l p) ltac:(lia) H2 Hasc) as (bs & -> & Hasc' & Hin' & Hall).
  split; [lia|]. assert (piece_has l p (wanted_file sel)) as Hw.
  { destruct (existsb_kinds l sel p segs H Ht) as [Hex _].
    destruct (existsb (fun s => is_wanted_target (s_target s)) (map (with_target sel) segs)); [exact (proj1 Hex eq_refl)|].
    exfalso. apply Hskip, Hc. intros Hw. by apply Hex in Hw. }
  split; [by right|]. intros _. split_and!; [done|done|]. intros b Hb. rewrite Hin'. by apply Hin.
Qed.

(** The pieces of the file, by the formula of the code. *)
Definition first_piece (l : TorrentLayout) (f : MetainfoFile) : Z := f_offset f / piece_length l.
Definition last_piece (l : TorrentLayout) (f : MetainfoFile) : Z := (f_offset f + (f_length f - 1)) / piece_length l.
Lemma file_piece_range_eq l i f : v1_ok l -> nth_get (files l) i = Some f -> f_length f <> 0 ->
  file_piece_range l i = Ok (Some (first_piece l f, last_piece l f))
  /\ 0 <= first_piece l f <= last_piece l f /\ last_piece l f < piece_count l
  /\ forall p, 0 <= p < piece_count l -> (first_piece l f <= p <= last_piece l f <-> piece_has l p (fun i' _ => i' = i)).
Proof.
  intros H Hf Hne. unfold file_piece_range, first_piece, last_piece. rewrite Hf. obind. rewrite (proj2 (Z.eqb_neq (f_length f) 0)) by done.
  destruct (contiguous_drop 0 _ _ i f (v1_files _ H) Hf) as (Ho & Hl & Hend & _).
  pose proof (v1_piece_length _ H) as Hpl. pose proof (v1_total _ H) as Htot. rewrite (proj2 (Z.eqb_neq (piece_length l) 0)) by lia.
  set (n := piece_length l) in *. rewrite checked_add_fits by lia. obind.
  assert (forall t, 0 <= t < total_length l -> 0 <= t / n < piece_count l) as Hpiece.
  { intros t Ht. split; [apply Z.div_pos; lia|]. rewrite (v1_count _ H). fold n.
    pose proof (div_ceil_bounds (total_length l) n ltac:(lia) ltac:(lia)) as (_ & Hd & _). apply Z.div_lt_upper_bound; lia. }
  pose proof (Hpiece (f_offset f) ltac:(lia)) as H1. pose proof (Hpiece (f_offset f + (f_length f - 1)) ltac:(lia)) as H2.
  pose proof (v1_typed _ H) as Hty.
  rewrite (try_u_fits 32 (f_offset f / n)) by lia. obind. rewrite (try_u_fits 32 ((f_offset f + (f_length f - 1)) / n)) by lia. obind.
  split; [done|]. pose proof (Z.div_le_mono (f_offset f) (f_offset f + (f_length f - 1)) n ltac:(lia) ltac:(lia)) as Hmono.
  split; [lia|]. split; [lia|]. intros p Hp. rewrite piece_has_range. destruct (piece_bounds l p H Hp) as (_ & Hlen & _ & _ & Hlast).
  assert (piece_start_of l p + piece_len l p = Z.min ((p + 1) * n) (total_length l)) as Hpe
    by (unfold piece_len, piece_start_of; fold n; lia).
  split.
  - intros Hin. set (last := f_offset f + (f_length f - 1)) in *. set (t := Z.max (f_offset f) (p * n)).
    assert (p * n <= last) as Hlo.
    { etransitivity; [|apply (Z.mul_div_le last n); lia]. rewrite Z.mul_comm. apply Z.mul_le_mono_nonneg_l; lia. }
    assert (f_offset f < (p + 1) * n) as Hhi.
    { eapply Z.lt_le_trans; [apply (Z.mul_succ_div_gt (f_offset f) n); lia|]. rewrite (Z.mul_comm _ n). apply Z.mul_le_mono_nonneg_l; lia. }
    exists t, i, f. split; [|split; [split; [done|lia]|done]]. rewrite Hpe. unfold piece_start_of. fold n. lia.
  - intros (t & i' & f' & Ht & [Hf' Hst] & ->). assert (f' = f) as -> by congruence.
    assert (t / n = p) as <-.
    { rewrite Hpe in Ht. unfold piece_start_of in Ht. fold n in Ht. symmetry. apply (Z.div_unique t n p (t - p * n)); lia. }
    split; apply Z.div_le_mono; lia.
Qed.

(** The pieces of a file.  A file with bytes has the pieces of an
    inclusive range, exactly those that share a byte with it; an empty file
    has none. *)
Theorem file_piece_range_v1 l i : v1_ok l ->
  match file_piece_range l i with
  | Ok None => exists f, nth_get (files l) i = Some f /\ f_length f = 0
  | Ok (Some (first, last)) => exists f, nth_get (files l) i = Some f /\ 0 <= first <= last /\ last < piece_count l
      /\ forall p, 0 <= p < piece_count l ->
           (first <= p <= last <-> piece_has l p (fun i' _ => i' = i))
  | Err e => nth_get (files l) i = None /\ e = InvalidFileIndex i (len (files l))
  | _ => False
  end.
Proof.
  intros H. destruct (nth_get (files l) i) as [f|] eqn:Hf; [|by unfold file_piece_range; rewrite Hf].
  destruct (decide (f_length f = 0)) as [Hz|Hne].
  - unfold file_piece_range. rewrite Hf. obind. rewrite (proj2 (Z.eqb_eq _ _) Hz). by exists f.
  - destruct (file_piece_range_eq l i f H Hf Hne) as (-> & Hrest). by exists f.
Qed.

(** ** The payload of a piece *)
Definition overlap (f : MetainfoFile) (lo hi : Z) : Z := Z.max 0 (Z.min hi (f_offset f + f_length f) - Z.max lo (f_offset f)).
Definition payload_between (fs : list MetainfoFile) (lo hi : Z) : Z :=
  foldr (fun f sum => (if padding f then 0 else overlap f lo hi) + sum) 0 fs.
Definition piece_payload (l : TorrentLayout) (p : Z) : Z :=
  payload_between (files l) (piece_start_of l p) (piece_start_of l p + piece_len l p).

Lemma payload_before start fs total lo hi : contiguous start fs total -> hi <= start -> payload_between fs lo hi = 0.
Proof.
  revert start. induction fs as [|f r IH]; cbn; intros start; [done|]. intros (Ho & Hl & Hr) Hhi.
  fold (payload_between r lo hi). rewrite (IH _ Hr) by lia. unfold overlap. destruct (padding f); lia.
Qed.
Lemma payload_from start fs total lo lo' hi : contiguous start fs total -> lo <= start -> lo' <= start ->
  payload_between fs lo hi = payload_between fs lo' hi.
Proof.
  revert start. induction fs as [|f r IH]; cbn; intros start; [done|]. intros (Ho & Hl & Hr) Hlo Hlo'.
  fold (payload_between r lo hi). fold (payload_between r lo' hi). rewrite (IH _ Hr) by lia. unfold overlap. destruct (padding f); lia.
Qed.
Lemma payload_bounds start fs total lo hi : contiguous start fs total -> lo <= hi -> 0 <= payload_between fs lo hi <= hi - lo.
Proof.
  intros Hc. enough (0 <= payload_between fs lo hi <= Z.max 0 (hi - Z.max lo start)) by lia. revert start Hc.
  induction fs as [|f r IH]; cbn; intros start; [lia|]. intros (Ho & Hl & Hr). fold (payload_between r lo hi).
  specialize (IH _ Hr). unfold overlap. destruct (padding f); lia.
Qed.
Lemma skip_cons {A} (fs : list A) i f r : 0 <= i -> skip fs i = f :: r -> nth_get fs i = Some f /\ skip fs (i + 1) = r.
Proof.
  intros Hi E. unfold skip in *. assert (fs !! Z.to_nat i = Some f) as Hf.
  { rewrite <- (Nat.add_0_r (Z.to_nat i)), <- lookup_drop, E. done. }
  rewrite nth_get_lookup by done. split; [done|]. pose proof (drop_S _ _ _ Hf) as Hd. rewrite E in Hd. injection Hd as Hd.
  replace (Z.to_nat (i + 1)) with (S (Z.to_nat i)) by lia. done.
Qed.
Lemma suffix_start start fs total i s : contiguous start fs total -> 0 <= i -> contiguous s (skip fs i) total -> start <= s.
Proof.
  revert start i. induction fs as [|f r IH]; intros start i Hc Hi Hs.
  { unfold skip in Hs. rewrite drop_nil in Hs. cbn in *. lia. }
  destruct (decide (i = 0)) as [->|Hne].
  - destruct Hc as (Ho & _), Hs as (Ho' & _). lia.
  - destruct Hc as (_ & Hl & Hr). assert (start + f_length f <= s); [|lia]. apply (IH _ (i - 1) Hr); [lia|].
    unfold skip in *. by replace (Z.to_nat i) with (S (Z.to_nat (i - 1))) in Hs by lia.
Qed.
Lemma payload_skip start fs total i s lo hi : contiguous start fs total -> 0 <= i -> contiguous s (skip fs i) total -> s <= lo ->
  payload_between fs lo hi = payload_between (skip fs i) lo hi.
Proof.
  revert start i. induction fs as [|f r IH]; intros start i Hc Hi Hs Hlo.
  { unfold skip. by rewrite drop_nil. }
  destruct (decide (i = 0)) as [->|Hne]; [done|].
  assert (skip (f :: r) i = skip r (i - 1)) as E.
  { unfold skip. by replace (Z.to_nat i) with (S (Z.to_nat (i - 1))) by lia. }
  rewrite E in *. destruct Hc as (Ho & Hl & Hr). rewrite <- (IH _ (i - 1) Hr) by (done || lia). cbn. fold (payload_between r lo hi).
  pose proof (suffix_start _ _ _ (i - 1) s Hr ltac:(lia) Hs). unfold overlap. destruct (padding f); lia.
Qed.
Lemma walk_piece_ok l te fuel i c bytes s : v1_ok l -> te <= total_length l -> 0 <= i -> contiguous s (skip (files l) i) (total_length l) ->
  s <= c <= te -> 0 <= bytes -> bytes + (te - c) < 2 ^ 64 -> (Datatypes.length (skip (files l) i) < fuel)%nat \/ te <= c ->
  exists i' s', walk_piece fuel l te i c bytes = Ok (i', bytes + payload_between (skip (files l) i) c te)
    /\ 0 <= i' /\ contiguous s' (skip (files l) i') (total_length l) /\ s' <= te.
Proof.
  intros H Hte. revert i c bytes s. induction fuel as [|fuel IH]; intros i c bytes s Hi Hs Hc Hb Hb64 Hfuel; cbn [walk_piece];
    destruct (Z.leb_spec te c) as [Hle|Hgt].
  - exists i, s. assert (c = te) as -> by lia. pose proof (payload_bounds _ _ _ te te Hs ltac:(lia)). split_and!; try done; try lia.
    do 2 f_equal. lia.
  - lia.
  - exists i, s. assert (c = te) as -> by lia. pose proof (payload_bounds _ _ _ te te Hs ltac:(lia)). split_and!; try done; try lia.
    do 2 f_equal. lia.
  - destruct Hfuel as [Hfuel|]; [|lia]. pose proof (v1_total _ H) as Htot.
    destruct (skip (files l) i) as [|f r] eqn:E; [cbn in Hs; lia|]. destruct (skip_cons _ _ _ _ Hi E) as [Hf Er].
    destruct Hs as (Ho & Hl & Hr). pose proof (contiguous_le _ _ _ Hr) as Hend. rewrite Hf. obind. unfold file_end.
    rewrite checked_add_fits by lia. obind. cbn [Datatypes.length] in Hfuel. cbn [payload_between foldr]. fold (payload_between r c te).
    destruct ((f_length f =? 0) || (f_offset f + f_length f <=? c)) eqn:Ee.
    + assert (f_offset f + f_length f <= c) as Hec by (apply orb_prop in Ee as [?|?]; lia).
      destruct (IH (i + 1) c bytes (s + f_length f)) as (i' & s' & -> & Hrest); try lia; [by rewrite Er|left; rewrite Er; lia|].
      exists i', s'. split; [|done]. rewrite Er. do 2 f_equal. unfold overlap. destruct (padding f); lia.
    + apply orb_false_elim in Ee as [E1 E2]. rewrite (proj2 (Z.ltb_ge c (f_offset f))) by lia.
      set (e := Z.min te (f_offset f + f_length f)). set (gain := if padding f then 0 else e - c).
      assert ((if padding f then 0 else overlap f c te) = gain) as -> by (unfold gain, overlap, e; destruct (padding f); lia).
      assert (0 <= gain <= e - c) as Hgain by (unfold gain; destruct (padding f); lia).
      assert ((if negb (padding f) then checked (checked_add 64 bytes (e - c)) else Ok bytes) = Ok (bytes + gain)) as ->.
      { unfold gain. destruct (padding f); cbn [negb]; [by rewrite Z.add_0_r|]. by rewrite checked_add_fits by lia. }
      rewrite ok_bind. destruct (Z.eqb_spec e (f_offset f + f_length f)) as [Eend|Eend].
      * destruct (IH (i + 1) e (bytes + gain) (s + f_length f)) as (i' & s' & -> & Hrest); try lia; [by rewrite Er|left; rewrite Er; lia|].
        exists i', s'. split; [|done]. rewrite Er. rewrite (payload_from _ _ _ e c te Hr) by lia. do 2 f_equal. lia.
      * destruct (IH i e (bytes + gain) s) as (i' & s' & -> & Hrest); try lia; [by rewrite E|].
        exists i', s'. split; [|done]. assert (e = te) as Ete by lia. rewrite E, Ete.
        pose proof (payload_bounds s (f :: r) (total_length l) te te (conj Ho (conj Hl Hr)) ltac:(lia)).
        rewrite (payload_before _ _ _ c te Hr) by lia. do 2 f_equal. lia.
Qed.

(** The sums over pieces that the walk computes. *)
Fixpoint sum_pieces (l : TorrentLayout) (counted : Z -> bool) (pieces : list Z) : Z :=
  match pieces with [] => 0 | p :: r => (if counted p then piece_payload l p else 0) + sum_pieces l counted r end.
Definition have_piece (h : list bool) (p : Z) : bool := default false (nth_get h p).
Lemma piece_payload_bounds l p : v1_ok l -> 0 <= p < piece_count l -> 0 <= piece_payload l p <= piece_len l p.
Proof.
  intros H Hp. destruct (piece_bounds l p H Hp) as (_ & Hlen & _).
  pose proof (payload_bounds 0 (files l) (total_length l) (piece_start_of l p) (piece_start_of l p + piece_len l p) (v1_files _ H) ltac:(lia)).
  unfold piece_payload. lia.
Qed.
Lemma walk_pieces_ok l h ps : v1_ok l -> len h = piece_count l ->
  StronglySorted Z.lt ps -> Forall (fun p => 0 <= p < piece_count l) ps ->
  forall i s c required verified, 0 <= i -> contiguous s (skip (files l) i) (total_length l) -> s <= c ->
  Forall (fun p => c <= piece_start_of l p) ps -> 0 <= verified <= required -> required <= c -> c <= total_length l ->
  walk_pieces l h ps i required verified
  = Ok (mkRequired (required + sum_pieces l (fun _ => true) ps) (verified + sum_pieces l (have_piece h) ps)).
Proof.
  intros H Hh. induction ps as [|p r IH]; intros Hsort Hall i s c required verified Hi Hs Hsc Hstart Hv Hreq Hc; cbn [walk_pieces sum_pieces].
  { by rewrite !Z.add_0_r. }
  inversion Hsort as [|? ? Hsort' Hlt]; subst. inversion Hall as [|? ? Hp Hall']; subst. inversion Hstart as [|? ? Hps _]; subst.
  destruct (piece_bounds l p H Hp) as (H0 & H1 & H2 & H3 & H4). pose proof (v1_total _ H) as Htot.
  pose proof (piece_payload_bounds l p H Hp) as Hpay.
  rewrite checked_mul_fits by (unfold piece_start_of in *; lia). obind. fold (piece_start_of l p). rewrite piece_length_at_eq by (done || lia).
  rewrite (proj2 (Z.ltb_lt p (piece_count l))) by lia. rewrite ok_bind. rewrite checked_add_fits by lia. obind.
  destruct (walk_piece_ok l (piece_start_of l p + piece_len l p) (segments_fuel l) i (piece_start_of l p) 0 s) as (i' & s' & -> & Hi' & Hs' & Hse');
    try done; try lia. { left. unfold segments_fuel, skip. rewrite length_drop. lia. }
  rewrite ok_bind. rewrite Z.add_0_l, <- (payload_skip 0 (files l) (total_length l) i s) by (done || lia || apply H).
  fold (piece_payload l p). rewrite (checked_add_fits 64 required) by lia. obind.
  destruct (proj2 (nth_get_Some h p)) as [b Hb]; [lia|]. unfold have_piece at 1. rewrite Hb. obind. change (default false (Some b)) with b.
  assert ((if b then checked (checked_add 64 verified (piece_payload l p)) else Ok verified)
          = Ok (verified + (if b then piece_payload l p else 0))) as ->.
  { destruct b; [|by rewrite Z.add_0_r]. by rewrite checked_add_fits by lia. }
  rewrite ok_bind. rewrite (IH Hsort' Hall' i' s' (piece_start_of l p + piece_len l p)); try done; try lia.
  - do 2 f_equal; [lia|]. destruct b; lia.
  - rewrite Forall_forall in *. intros q Hq. specialize (Hlt q Hq). specialize (Hall' q Hq). unfold piece_start_of, piece_len in *. nia.
  - destruct b; lia.
Qed.

(** ** The ranges of the wanted files *)
Fixpoint spaced (lo : Z) (rs : list (Z * Z)) (hi : Z) : Prop :=
  match rs with
  | [] => lo <= hi
  | (a, b) :: t => lo <= a <= b /\ spaced (b + 1) t hi
  end.
Lemma spaced_le lo rs hi : spaced lo rs hi -> lo <= hi.
Proof. revert lo. induction rs as [|[a b] t IH]; cbn; intros lo; [done|]. intros (? & Ht). apply IH in Ht. lia. Qed.
Lemma spaced_app lo k m hi : spaced lo (k ++ m) hi <-> exists mid, spaced lo k mid /\ spaced mid m hi.
Proof.
  revert lo. induction k as [|[a b] k IH]; cbn; intros lo.
  - split; [intros Hm; exists lo; split; [lia|done]|]. intros (mid & Hle & Hm). destruct m as [|[a b] m]; cbn in *; [lia|]. intuition lia.
  - rewrite IH. naive_solver.
Qed.
Definition flat (rs : list (Z * Z)) : list Z := concat (map pieces_in rs).
Lemma elem_of_flat p rs : p ∈ flat rs <-> exists a b, (a, b) ∈ rs /\ a <= p <= b.
Proof.
  unfold flat. rewrite list_elem_of_In, in_concat. setoid_rewrite in_map_iff. split.
  - intros (x & ([a b] & <- & Hr) & Hp). apply list_elem_of_In in Hr, Hp. apply elem_of_seqZ in Hp. cbn in Hp. exists a, b. split; [done|lia].
  - intros (a & b & Hr & Hp). exists (pieces_in (a, b)). split; [exists (a, b); split; [done|by apply list_elem_of_In]|].
    apply list_elem_of_In, elem_of_seqZ. cbn. lia.
Qed.
Lemma flat_app k m p : p ∈ flat (k ++ m) <-> p ∈ flat k \/ p ∈ flat m.
Proof. rewrite !elem_of_flat. setoid_rewrite elem_of_app. naive_solver. Qed.
Lemma flat_one a b p : p ∈ flat [(a, b)] <-> a <= p <= b.
Proof. rewrite elem_of_flat. setoid_rewrite list_elem_of_singleton. naive_solver. Qed.
Lemma seqZ_sorted a n : StronglySorted Z.lt (seqZ a n).
Proof.
  destruct (Z.le_gt_cases n 0) as [Hle|Hgt]; [rewrite seqZ_nil by done; constructor|].
  revert a. assert (0 <= n) as Hn by lia. clear Hgt. pattern n. apply natlike_ind; [|clear n Hn; intros n Hn IH|done]; intros a.
  - rewrite seqZ_nil by done. constructor.
  - rewrite seqZ_cons by lia. rewrite Z.pred_succ. constructor; [apply IH|]. apply Forall_forall. intros x Hx%elem_of_seqZ. lia.
Qed.
Lemma flat_sorted lo rs hi : spaced lo rs hi -> StronglySorted Z.lt (flat rs) /\ Forall (fun p => lo <= p < hi) (flat rs).
Proof.
  revert lo. induction rs as [|[a b] t IH]; cbn; intros lo; [split; constructor|]. intros (Ha & Ht).
  pose proof (spaced_le _ _ _ Ht). destruct (IH _ Ht) as [Hs Hf]. unfold flat. cbn. fold (flat t). rewrite Forall_forall in Hf. split.
  - apply StronglySorted_app_2; [|apply seqZ_sorted|done]. intros x y Hx%elem_of_seqZ Hy%Hf. cbn in Hx. lia.
  - apply Forall_app. split; [|rewrite Forall_forall; intros x Hx%Hf; lia].
    rewrite Forall_forall. intros x Hx%elem_of_seqZ. cbn in Hx. lia.
Qed.
Definition needs (l : TorrentLayout) (sel : FileSelection) (i : Z) (p : Z) : Prop :=
  exists f, nth_get (files l) i = Some f /\ wanted_file sel i f /\ f_length f <> 0 /\ first_piece l f <= p <= last_piece l f.
Lemma collect_ranges_ok l sel fs : v1_ok l -> forall k s acc hi, 0 <= k -> skip (files l) k = fs -> contiguous s fs (total_length l) ->
  spaced 0 (rev acc) hi -> hi <= piece_count l -> Forall (fun r => r.1 <= s / piece_length l) acc ->
  exists rs, collect_ranges l sel k fs acc = Ok rs /\ spaced 0 rs (piece_count l)
    /\ forall p, p ∈ flat rs <-> p ∈ flat (rev acc) \/ exists i, k <= i /\ needs l sel i p.
Proof.
  intros H. pose proof (v1_piece_length _ H) as Hpl. pose proof (v1_typed _ H) as Hty.
  induction fs as [|f r IH]; intros k s acc hi Hk Hskip Hs Hacc Hhi Hfirst; cbn [collect_ranges].
  { exists (rev acc). split; [done|]. split.
    - assert (spaced 0 (rev acc ++ []) (piece_count l)) as Ha; [|by rewrite app_nil_r in Ha]. apply spaced_app. by exists hi.
    - intros p. split; [by left|]. intros [?|(i & Hi & f & Hf & _)]; [done|]. exfalso. apply nth_get_lt in Hf. unfold len in Hf.
      apply (f_equal (@Datatypes.length _)) in Hskip. unfold skip in Hskip. rewrite length_drop in Hskip. cbn in Hskip. lia. }
  destruct (skip_cons _ _ _ _ Hk Hskip) as [Hf Hskip']. destruct Hs as (Ho & Hl & Hr).
  assert (s / piece_length l <= (s + f_length f) / piece_length l) as Hmono by (apply Z.div_le_mono; lia).
  assert (forall acc' hi', spaced 0 (rev acc') hi' -> hi' <= piece_count l ->
            Forall (fun r => r.1 <= s / piece_length l) acc' ->
            (forall p, p ∈ flat (rev acc') <-> p ∈ flat (rev acc) \/ needs l sel k p) ->
            exists rs, collect_ranges l sel (k + 1) r acc' = Ok rs /\ spaced 0 rs (piece_count l)
              /\ forall p, p ∈ flat rs <-> p ∈ flat (rev acc) \/ exists i, k <= i /\ needs l sel i p) as Hgo.
  { intros acc' hi' Hacc' Hhi' Hfirst' Hflat. destruct (IH (k + 1) (s + f_length f) acc' hi') as (rs & E & Hsp & Hin); try done; try lia.
    { eapply Forall_impl; [exact Hfirst'|]. cbn. lia. }
    exists rs. split; [done|]. split; [done|]. intros p. rewrite Hin, Hflat. split.
    - intros [[?|Hn]|(i & Hi & Hn)]; [by left|right; exists k; split; [lia|done]|right; exists i; split; [lia|done]].
    - intros [?|(i & Hi & Hn)]; [by do 2 left|]. destruct (decide (i = k)) as [->|]; [left; by right|]. right. exists i. split; [lia|done]. }
  destruct (padding f || (f_length f =? 0) || negb (is_wanted sel k)) eqn:Eskip.
  { apply (Hgo acc hi); try done. intros p. split; [by left|]. intros [?|(f' & Hf' & [Hp Hw] & Hn & _)]; [done|].
    assert (f' = f) as -> by congruence. apply Z.eqb_neq in Hn. rewrite Hp, Hn, Hw in Eskip. done. }
  apply orb_false_elim in Eskip as [[Ep Ez]%orb_false_elim Ew%negb_false_iff]. apply Z.eqb_neq in Ez.
  destruct (file_piece_range_eq l k f H Hf Ez) as (-> & Hord & Hlast & _). rewrite ok_bind. obind.
  assert (first_piece l f = s / piece_length l) as Efirst by (unfold first_piece; by rewrite Ho).
  assert (forall p, needs l sel k p <-> first_piece l f <= p <= last_piece l f) as Hneeds.
  { intros p. split; [|intros; by exists f]. intros (f' & Hf' & _ & _ & ?). by assert (f' = f) as -> by congruence. }
  destruct acc as [|[pf pl] others].
  { apply (Hgo [(first_piece l f, last_piece l f)] (last_piece l f + 1)); cbn [rev app]; try lia.
    - cbn. lia.
    - constructor; [cbn; lia|constructor].
    - intros p. rewrite flat_one, Hneeds. cbn. split; [by right|]. by intros [Hp%elem_of_nil|]. }
  cbn [rev] in Hacc. pose proof Hacc as (mid & Hacc1 & Hmid & Hplhi)%spaced_app. cbn in Hmid, Hplhi.
  inversion Hfirst as [|? ? Hpf Hfirst']; subst. cbn in Hpf. pose proof (spaced_le _ _ _ Hacc1).
  unfold saturating_add, umax. rewrite Z.min_l by lia.
  destruct (Z.leb_spec (first_piece l f) (pl + 1)) as [Hadj|Hgap].
  - apply (Hgo _ (Z.max (last_piece l f) pl + 1)); cbn [rev].
    + apply spaced_app. exists mid. split; [done|]. cbn. lia.
    + lia.
    + constructor; [cbn; lia|done].
    + intros p. rewrite !flat_app, !flat_one, Hneeds. split; [intros [?|?]; [by do 2 left|]|].
      * destruct (Z.le_gt_cases p pl); [left; right; lia|right; lia].
      * intros [[?|?]|?]; [by left|right; lia|right; lia].
  - apply (Hgo _ (last_piece l f + 1)); cbn [rev].
    + apply spaced_app. exists (pl + 1). split; [apply spaced_app; exists mid; split; [done|cbn; lia]|cbn; lia].
    + lia.
    + constructor; [cbn; lia|]. constructor; [done|done].
    + intros p. rewrite !flat_app, !flat_one, Hneeds. tauto.
Qed.

(** Does the piece have to be downloaded? *)
Definition needed (l : TorrentLayout) (sel : FileSelection) (p : Z) : bool :=
  match piece_class l p sel with Ok c => negb (bool_decide (c = Skipped)) | _ => false end.
Lemma needed_iff l sel p : v1_ok l -> selects sel l -> 0 <= p < piece_count l ->
  needed l sel p = true <-> exists i, 0 <= i /\ needs l sel i p.
Proof.
  intros H Hsel Hp. unfold needed. destruct (piece_class_ok l p sel H Hsel Hp) as (c & -> & Hc).
  destruct (whole_piece l p sel H Hsel Hp) as (segs & _ & Ht). destruct (existsb_kinds l sel p segs H Ht) as [Hex _].
  assert (c <> Skipped <-> piece_has l p (wanted_file sel)) as Hw.
  { destruct (existsb (fun s => is_wanted_target (s_target s)) (map (with_target sel) segs)).
    - pose proof (proj1 Hex eq_refl) as Hhas. split; [done|]. intros _ E. by apply Hc in E.
    - split; [|intros Hhas E; by apply Hc in E]. intros Hne. destruct Hne. apply Hc. intros Hhas. by apply Hex in Hhas. }
  rewrite negb_true_iff, bool_decide_eq_false, Hw. split.
  - intros (b & i & f & Hb & [Hf Hst] & Hwf). exists i. split; [apply nth_get_lt in Hf; lia|]. exists f.
    assert (f_length f <> 0) as Hne by lia. split_and!; try done; apply (file_piece_range_eq l i f H Hf Hne); try done;
      exists b, i, f; split; try done; (split; [by split|done]).
  - intros (i & Hi & f & Hf & Hwf & Hne & Hr). destruct (file_piece_range_eq l i f H Hf Hne) as (_ & _ & _ & Hhas).
    apply (Hhas p Hp) in Hr as (b & i' & f' & Hb & [Hf' Hst] & ->). assert (f' = f) as -> by congruence.
    exists b, i, f. split; [done|]. split; [by split|done].
Qed.
Lemma sum_pieces_filter l (P Q : Z -> bool) ps :
  sum_pieces l Q (filter (fun p => P p = true) ps) = sum_pieces l (fun p => P p && Q p) ps.
Proof.
  induction ps as [|p r IH]; [done|]. rewrite filter_cons. cbn [sum_pieces]. case_decide as E.
  - cbn [sum_pieces]. rewrite IH, E. done.
  - apply not_true_is_false in E. rewrite IH, E. done.
Qed.
Lemma sum_pieces_ext l (P Q : Z -> bool) ps : (forall p, P p = Q p) -> sum_pieces l P ps = sum_pieces l Q ps.
Proof. intros E. induction ps as [|p r IH]; cbn; [done|]. by rewrite IH, E. Qed.
Lemma filter_sorted (P : Z -> bool) ps : StronglySorted Z.lt ps -> StronglySorted Z.lt (filter (fun p => P p = true) ps).
Proof.
  induction 1 as [|p r Hs IH Hall]; [constructor|]. rewrite filter_cons. case_decide; [|done]. constructor; [done|].
  rewrite Forall_forall in *. intros x [_ Hx]%list_elem_of_filter. by apply Hall.
Qed.
Lemma sorted_eq ps qs : StronglySorted Z.lt ps -> StronglySorted Z.lt qs -> (forall p, p ∈ ps <-> p ∈ qs) -> ps = qs.
Proof.
  intros Hp Hq Hin. apply (StronglySorted_unique_strong Z.lt); [lia|done|done|].
  assert (forall l, StronglySorted Z.lt l -> NoDup l) as Hnd.
  { induction 1 as [|x l Hs IH Hall]; [constructor|]. constructor; [|done]. rewrite Forall_forall in Hall. intros Hx%Hall. lia. }
  apply NoDup_Permutation; auto.
Qed.

(** The fast count of the needed payload is the plain one.  Merging the
    piece ranges of the wanted files and walking the files once gives, for
    every selection and every set of verified pieces, the sum over all pieces
    that are not skipped of their bytes outside padding, and the same sum
    over the verified ones; a selection or a piece set of the wrong size is
    refused, and nothing overflows. *)
Theorem required_payload_exact l sel h : v1_ok l ->
  match required_payload_geometry l sel h with
  | Ok g => selects sel l /\ len h = piece_count l
      /\ required_payload_bytes g = sum_pieces l (needed l sel) (seqZ 0 (piece_count l))
      /\ verified_required_payload_bytes g = sum_pieces l (fun p => needed l sel p && have_piece h p) (seqZ 0 (piece_count l))
  | Err (InvalidFileIndex i c) => i = selection_file_count sel /\ c = len (files l) /\ i <> c
  | Err (InvalidHaveLength n c) => n = len h /\ c = piece_count l /\ n <> c
  | _ => False
  end.
Proof.
  intros H. unfold required_payload_geometry. destruct (Z.eqb_spec (selection_file_count sel) (len (files l))) as [Hsel|Hne]; [|done].
  destruct (Z.eqb_spec (len h) (piece_count l)) as [Hh|Hne]; [|done]. cbn [negb].
  pose proof (v1_piece_length _ H) as Hpl. pose proof (v1_total _ H) as Htot.
  assert (0 <= piece_count l) as Hcount by (rewrite <- Hh; apply len_nonneg).
  destruct (collect_ranges_ok l sel (files l) H 0 0 [] 0) as (rs & -> & Hsp & Hin); try done; [apply H|].
  rewrite ok_bind. fold (flat rs). destruct (flat_sorted _ _ _ Hsp) as [Hsort Hall].
  rewrite (walk_pieces_ok l h (flat rs) H Hh Hsort Hall 0 0 0 0 0) by (done || lia || apply H ||
    (rewrite Forall_forall in *; intros p Hp%Hall; unfold piece_start_of; nia)).
  assert (flat rs = filter (fun p => needed l sel p = true) (seqZ 0 (piece_count l))) as ->.
  { apply sorted_eq; [done|apply filter_sorted, seqZ_sorted|]. intros p. rewrite list_elem_of_filter, elem_of_seqZ, Hin. cbn [rev].
    rewrite Forall_forall in Hall. split.
    - intros Hp. assert (0 <= p < piece_count l) as Hb by (apply Hall, Hin; exact Hp). split; [|lia].
      apply needed_iff; try done. by destruct Hp as [Hp%elem_of_nil|].
    - intros [Hn Hp]. right. by apply (needed_iff l sel p H Hsel ltac:(lia)) in Hn. }
  rewrite !sum_pieces_filter. cbn [required_payload_bytes verified_required_payload_bytes]. split_and!; try done.
  rewrite Z.add_0_l. apply sum_pieces_ext. intros p. by rewrite andb_true_r.
Qed.

(** ** Witnesses

    A torrent of three pieces of four bytes: a file, its padding, an empty
    file, and a file over the last two pieces, which is skipped. *)
Definition sample_files : list MetainfoFile :=
  [mkFile ["a"%string] 3 0 false; mkFile [".pad"%string] 1 3 true; mkFile ["b"%string] 0 4 false;
   mkFile ["c"%string] 2 4 false; mkFile ["d"%string] 4 6 false].
Definition sample : TorrentLayout := mkLayout 4 10 3 sample_files.
Definition sample_selection : FileSelection := mkSelection [true; false; true; true; false].
Definition sample_data : list (list Z) := [[10; 11; 12]; [0]; []; [20; 21]; [30; 31; 32; 33]].
Lemma sample_ok : v1_ok sample.
Proof. by split; vm_compute; split_and?. Qed.
Lemma sample_selects : selects sample_selection sample.
Proof. done. Qed.
Lemma sample_holds : holds_data sample sample_data.
Proof. by repeat constructor. Qed.
Definition sample_segments : list FileLayoutSegment :=
  [mkFileSegment 1 0 2 0 1 false; mkFileSegment 3 2 1 1 0 true].
Lemma sample_segments_eq : file_segments sample 0 1 3 = Ok sample_segments.
Proof. vm_compute. exact eq_refl. Qed.

Lemma file_segments_exact_witness : tiled sample 0 1 1 4 sample_segments.
Proof.
  pose proof (file_segments_exact sample 0 1 3 sample_ok ltac:(done) ltac:(done) ltac:(done)) as H.
  rewrite sample_segments_eq in H. exact (proj2 (proj2 (proj2 H))).
Defined.
Lemma segments_read_witness : concat (map (read_segment sample_data) sample_segments) = [11; 12; 0].
Proof.
  destruct (segments_read sample sample_data 0 1 3 sample_segments sample_ok sample_holds ltac:(done) ltac:(done) ltac:(done) sample_segments_eq)
    as [-> _]. vm_compute. exact eq_refl.
Defined.
Lemma piece_class_exact_witness :
  piece_has sample 1 (wanted_file sample_selection) /\ piece_has sample 1 (skipped_file sample_selection).
Proof.
  pose proof (piece_class_exact sample 1 sample_selection sample_ok sample_selects ltac:(done)) as H.
  assert (piece_class sample 1 sample_selection = Ok Boundary) as E by (vm_compute; exact eq_refl).
  rewrite E in H. by apply H.
Defined.
Lemma request_ranges_exact_witness : ascending 0 [mkRange 0 3] (piece_len sample 0).
Proof.
  pose proof (request_ranges_exact sample 0 sample_selection sample_ok sample_selects ltac:(done)) as H.
  assert (request_ranges sample 0 sample_selection = Ok [mkRange 0 3]) as E by (vm_compute; exact eq_refl).
  rewrite E in H. destruct H as (_ & [[=]|Hw] & H). by apply H.
Defined.
Lemma file_piece_range_v1_witness : piece_has sample 2 (fun i _ => i = 4).
Proof.
  pose proof (file_piece_range_v1 sample 4 sample_ok) as H.
  assert (file_piece_range sample 4 = Ok (Some (1, 2))) as E by (vm_compute; exact eq_refl).
  rewrite E in H. destruct H as (_ & _ & _ & _ & H). by apply H.
Defined.
Lemma required_payload_exact_witness :
  7 = sum_pieces sample (needed sample sample_selection) (seqZ 0 3).
Proof.
  pose proof (required_payload_exact sample sample_selection [true; false; false] sample_ok) as H.
  assert (required_payload_geometry sample sample_selection [true; false; false] = Ok (mkRequired 7 3)) as E by (vm_compute; exact eq_refl).
  rewrite E in H. apply H.
Defined.
