(* ===== verification/ContentLayout.v ===== *)
(** * One layout for every kind of torrent

    [ContentLayout] of [crates/rstorrent-protocol/src/storage_layout.rs]: a
    torrent is laid out as v1 ([StorageLayout]) or as v2 ([V2Layout]; a hybrid
    torrent is stored as v2), and the operations are the same for both.  The
    names the two layouts share are those of [StorageLayout]; those of the v2
    geometry are written with their file. *)
From stdpp Require Import strings sorting.
From S2P Require Import Prelude PiecePriority PeerWire V2Layout StorageLayout.
#[local] Open Scope Z_scope.

(** The selections are those of [StorageLayout]; [zip] of a metainfo's files
    with the geometry. *)
Inductive ContentLayout :=
| V1 (layout : TorrentLayout)
| V2 (layout : V2TorrentLayout) (fs : list MetainfoFile)
| Hybrid (layout : V2TorrentLayout) (fs : list MetainfoFile).
Inductive MetainfoFormat := FormatV1 | FormatV2 | FormatHybrid.
Definition geometry_file (file : list string * Z) (g : V2FileGeometry) : MetainfoFile :=
  mkFile file.1 file.2 (logical_offset g) false.
Definition geometry_files (fs : list (list string * Z)) (layout : V2TorrentLayout) : list MetainfoFile :=
  zip_with geometry_file fs (l_files layout).

Definition format (c : ContentLayout) : MetainfoFormat :=
  match c with V1 _ => FormatV1 | V2 _ _ => FormatV2 | Hybrid _ _ => FormatHybrid end.
Definition content_files (c : ContentLayout) : list MetainfoFile :=
  match c with V1 l => files l | V2 _ fs | Hybrid _ fs => fs end.
Definition content_piece_count (c : ContentLayout) : Z :=
  match c with V1 l => piece_count l | V2 l _ | Hybrid l _ => l_piece_count l end.
Definition content_piece_length (c : ContentLayout) : Z :=
  match c with V1 l => piece_length l | V2 l _ | Hybrid l _ => l_piece_length l end.
Definition content_total_length (c : ContentLayout) : Z :=
  match c with V1 l => total_length l | V2 l _ | Hybrid l _ => l_payload_length l end.
(** [layout.piece(index).map_err(|_| InvalidPieceIndex)]. *)
Definition v2_piece (l : V2TorrentLayout) (index : Z) : outcome LayoutError V2PieceGeometry :=
  map_err (fun _ => InvalidPieceIndex index (l_piece_count l)) (V2Layout.piece l index).
Definition content_piece_length_at (c : ContentLayout) (index : Z) : outcome LayoutError Z :=
  match c with
  | V1 l => piece_length_at l index
  | V2 l _ | Hybrid l _ => g ← v2_piece l index; Ok (pg_payload_length g)
  end.
Definition new_content (c : ContentLayout) (skipped : list Z) : outcome LayoutError FileSelection :=
  select_files (content_files c) skipped.
Definition set_wanted_content (c : ContentLayout) (index : Z) (w : bool) : M FileSelection LayoutError unit :=
  set_wanted_in (content_files c) index w.

(** The interval check that the v2 arms share. *)
Definition v2_interval (l : V2TorrentLayout) (p begin length : Z) : outcome LayoutError V2PieceGeometry :=
  g ← v2_piece l p;
  end_ ← ok_or (checked_add 32 begin length) (IntervalOutOfRange p begin length (pg_payload_length g));
  if pg_payload_length g <? end_ then Err (IntervalOutOfRange p begin length (pg_payload_length g)) else Ok g.
Definition content_segments (c : ContentLayout) (p begin length : Z) (sel : FileSelection) : outcome LayoutError (list LayoutSegment) :=
  match c with
  | V1 l => segments l p begin length sel
  | V2 l fs | Hybrid l fs =>
    if length =? 0 then Err EmptyInterval
    else if negb (selection_file_count sel =? len fs) then Err (StorageLayout.InvalidFileIndex (selection_file_count sel) (len fs))
    else
      g ← v2_interval l p begin length;
      file_offset ← checked (checked_add 64 (pg_file_offset g) begin);
      let target := if is_wanted sel (pg_file_index g)
                    then WantedFile (pg_file_index g) file_offset
                    else SkippedFile (pg_file_index g) file_offset in
      length ← checked (try_u USIZE length);
      Ok [mkSegment begin 0 length target]
  end.
Definition content_file_segments (c : ContentLayout) (p begin length : Z) : outcome LayoutError (list FileLayoutSegment) :=
  match c with
  | V1 l => file_segments l p begin length
  | V2 l _ | Hybrid l _ =>
    if length =? 0 then Err EmptyInterval
    else
      g ← v2_interval l p begin length;
      length ← checked (try_u USIZE length);
      file_offset ← checked (checked_add 64 (pg_file_offset g) begin);
      Ok [mkFileSegment begin 0 length (pg_file_index g) file_offset false]
  end.
Definition content_request_ranges (c : ContentLayout) (index : Z) (sel : FileSelection) : outcome LayoutError (list RequestRange) :=
  match c with
  | V1 l => request_ranges l index sel
  | V2 l _ | Hybrid l _ =>
    g ← v2_piece l index;
    if negb (is_wanted sel (pg_file_index g)) then Ok []
    else split_blocks (blocks_fuel 0 (pg_payload_length g)) 0 (pg_payload_length g)
  end.
Definition content_piece_has_skipped_file (c : ContentLayout) (p : Z) (sel : FileSelection) : outcome LayoutError bool :=
  length ← content_piece_length_at c p;
  segs ← content_segments c p 0 length sel;
  Ok (existsb (fun s => is_skipped_target (s_target s)) segs).

Definition content_file_piece_range (c : ContentLayout) (index : Z) : outcome LayoutError (option (Z * Z)) :=
  match c with
  | V1 l => file_piece_range l index
  | V2 l fs | Hybrid l fs =>
    file ← ok_or (nth_get fs index) (StorageLayout.InvalidFileIndex index (len fs));
    if f_length file =? 0 then Ok None
    else
      range ← map_err (fun _ => StorageLayout.InvalidFileIndex index (len fs)) (V2Layout.file_piece_range l index);
      last ← checked (checked_sub range.2 1);
      Ok (Some (range.1, last))
  end.
Definition file_piece_space_offset (c : ContentLayout) (index : Z) : outcome LayoutError Z :=
  match c with
  | V1 l => f ← ok_or (nth_get (files l) index) (StorageLayout.InvalidFileIndex index (len (files l))); Ok (f_offset f)
  | V2 l fs | Hybrid l fs =>
    _ ← ok_or (nth_get fs index) (StorageLayout.InvalidFileIndex index (len fs));
    range ← map_err (fun _ => StorageLayout.InvalidFileIndex index (len fs)) (V2Layout.file_piece_range l index);
    checked (checked_mul 64 range.1 (l_piece_length l))
  end.

(** [priorities[piece as usize] = High], which panics out of range. *)
Fixpoint raise_pieces (pieces : list Z) (priorities : list PiecePriority) : outcome LayoutError (list PiecePriority) :=
  match pieces with
  | [] => Ok priorities
  | p :: r => _ ← index priorities p; raise_pieces r (<[Z.to_nat p := High]> priorities)
  end.
Definition follows (previous : option Z) (i : Z) : outcome LayoutError unit :=
  match previous with
  | Some previous => if i <=? previous then Err (InvalidPriorityFileOrder previous i) else Ok ()
  | None => Ok ()
  end.
Fixpoint raise_files (c : ContentLayout) (sel : FileSelection) (high : list Z) (previous : option Z) (priorities : list PiecePriority)
    : outcome LayoutError (list PiecePriority) :=
  match high with
  | [] => Ok priorities
  | i :: r =>
    file ← ok_or (nth_get (content_files c) i) (StorageLayout.InvalidFileIndex i (len (content_files c)));
    _ ← follows previous i;
    if padding file then Err (PaddingSelection i)
    else if negb (is_wanted sel i) then Err (PriorityForSkippedFile i)
    else
      range ← content_file_piece_range c i;
      priorities ← raise_pieces (match range with Some r => pieces_in r | None => [] end) priorities;
      raise_files c sel r (Some i) priorities
  end.
Definition piece_priorities (c : ContentLayout) (sel : FileSelection) (high : list Z) : outcome LayoutError (list PiecePriority) :=
  if negb (selection_file_count sel =? len (content_files c))
  then Err (StorageLayout.InvalidFileIndex (selection_file_count sel) (len (content_files c)))
  else raise_files c sel high None (replicate (Z.to_nat (content_piece_count c)) Normal).

(** The loop over the pieces of a v2 torrent. *)
Fixpoint count_payload (c : ContentLayout) (sel : FileSelection) (have_pieces : list bool) (piece_index required verified : Z)
    : outcome LayoutError RequiredPayloadGeometry :=
  match have_pieces with
  | [] => Ok (mkRequired required verified)
  | is_verified :: r =>
    p ← checked (try_u 32 piece_index);
    length ← content_piece_length_at c p;
    spans ← content_segments c p 0 length sel;
    if negb (existsb (fun s => is_wanted_target (s_target s)) spans)
    then count_payload c sel r (piece_index + 1) required verified
    else
      length ← content_piece_length_at c p;
      required ← checked (checked_add 64 required length);
      verified ← (if is_verified : bool then checked (checked_add 64 verified length) else Ok verified);
      count_payload c sel r (piece_index + 1) required verified
  end.
Definition content_required_payload (c : ContentLayout) (sel : FileSelection) (have_pieces : list bool)
    : outcome LayoutError RequiredPayloadGeometry :=
  match c with
  | V1 l => required_payload_geometry l sel have_pieces
  | V2 _ fs | Hybrid _ fs =>
    if negb (selection_file_count sel =? len fs) then Err (StorageLayout.InvalidFileIndex (selection_file_count sel) (len fs))
    else if negb (len have_pieces =? content_piece_count c) then Err (InvalidHaveLength (len have_pieces) (content_piece_count c))
    else count_payload c sel have_pieces 0 0 0
  end.

(** * Specification *)

(** The files of a v2 content are those of its geometry. *)
Definition describes (f : MetainfoFile) (g : V2FileGeometry) : Prop :=
  f_length f = V2Layout.length g /\ f_offset f = logical_offset g /\ padding f = false.
Definition v2_ok (l : V2TorrentLayout) (fs : list MetainfoFile) : Prop := layout_ok l /\ Forall2 describes fs (l_files l).
Definition content_ok (c : ContentLayout) : Prop :=
  match c with V1 l => v1_ok l | V2 l fs | Hybrid l fs => v2_ok l fs end.
Definition v2_content (c : ContentLayout) (l : V2TorrentLayout) (fs : list MetainfoFile) : Prop := c = V2 l fs \/ c = Hybrid l fs.
(** Piece [p] has a byte of file [i]. *)
Definition content_has (c : ContentLayout) (p i : Z) : Prop :=
  match c with
  | V1 l => piece_has l p (fun i' _ => i' = i)
  | V2 l _ | Hybrid l _ => exists g, V2Layout.piece l p = Ok g /\ pg_file_index g = i
  end.

Lemma geometry_files_ok fs l : layout_ok l -> Forall2 (fun f g => f.2 = V2Layout.length g) fs (l_files l) ->
  v2_ok l (geometry_files fs l).
Proof.
  intros H Hf. split; [done|]. unfold geometry_files. clear H. induction Hf as [|f g fs gs Hfg Hf IH]; constructor; [|done].
  unfold describes, geometry_file. by cbn.
Qed.
Lemma describes_nth fs gs i f : Forall2 describes fs gs -> nth_get fs i = Some f -> exists g, nth_get gs i = Some g /\ describes f g.
Proof.
  intros H. unfold nth_get. destruct (0 <=? i); [|done]. intros Hi. destruct (Forall2_lookup_l _ _ _ _ _ H Hi) as (g & Hg & Hd). by exists g.
Qed.
Lemma described_nth fs gs i g : Forall2 describes fs gs -> nth_get gs i = Some g -> exists f, nth_get fs i = Some f /\ describes f g.
Proof.
  intros H. unfold nth_get. destruct (0 <=? i); [|done]. intros Hi. destruct (Forall2_lookup_r _ _ _ _ _ H Hi) as (f & Hf & Hd). by exists f.
Qed.

(** ** Pieces of a v2 torrent *)
Record v2_located (l : V2TorrentLayout) (p : Z) (f : V2FileGeometry) (g : V2PieceGeometry) : Prop := {
  vl_file : nth_get (l_files l) (pg_file_index g) = Some f;
  vl_range : start_piece f <= p < start_piece f + V2Layout.piece_count f;
  vl_piece : V2Layout.piece l p = Ok g;
  vl_geometry : g = piece_of l p f;
  vl_payload : 0 < pg_payload_length g < 2 ^ 32;
  vl_inside : 0 <= pg_file_offset g /\ pg_file_offset g + pg_payload_length g <= V2Layout.length f < 2 ^ 64;
  vl_logical : logical_offset f + pg_file_offset g = p * l_piece_length l;
}.
Lemma v2_piece_at l p : layout_ok l -> 0 <= p < l_piece_count l -> exists f g, v2_located l p f g.
Proof.
  intros H Hp. destruct (piece_eq l p H Hp) as (i & f & Hf & [Lx Ls Le Ll Lc Lo] & Hin & E & Hpos). exists f, (piece_of l p f).
  pose proof (piece_length_bounds _ (lo_piece_length _ H)) as Hn.
  unfold piece_of in *. cbn in *. assert (file_index f = i) as <- by lia.
  split; cbn; try done; try nia.
Qed.
Lemma v2_piece_ok l p f g : v2_located l p f g -> v2_piece l p = Ok g.
Proof. intros L. unfold v2_piece. by rewrite (vl_piece _ _ _ _ L). Qed.
Lemma v2_piece_out l p : l_piece_count l <= p -> v2_piece l p = Err (StorageLayout.InvalidPieceIndex p (l_piece_count l)).
Proof. intros H. unfold v2_piece, V2Layout.piece. by rewrite (proj2 (Z.leb_le _ _) H). Qed.
(** The piece of a file that owns the index. *)
Lemma v2_piece_of_file l i f p : layout_ok l -> nth_get (l_files l) i = Some f ->
  start_piece f <= p < start_piece f + V2Layout.piece_count f -> 0 <= p < l_piece_count l /\ exists g, v2_located l p f g /\ pg_file_index g = i.
Proof.
  intros H Hf Hp. pose proof (piece_length_bounds _ (lo_piece_length _ H)) as Hn.
  pose proof (geometry_at (l_piece_length l) 0 0 (l_files l) i f ltac:(lia) (lo_files _ H) Hf) as [Lx Ls Le Ll Lc Lo].
  assert (0 <= p < l_piece_count l) as Hb by (rewrite (lo_pieces _ H); lia). split; [done|].
  destruct (v2_piece_at l p H Hb) as (f' & g & L).
  assert (pg_file_index g = i) as Hi.
  { apply (disjoint_pieces (l_piece_length l) 0 0 (l_files l) _ f' _ f p); try done; try lia; [apply H|apply L|apply L]. }
  exists g. split; [|done]. pose proof (vl_file _ _ _ _ L) as Hf'. rewrite Hi, Hf in Hf'. by injection Hf' as ->.
Qed.

(** ** Intervals

    What the two segment operations do on an interval of a v2 piece. *)
Lemma v2_interval_ok l p b n f g : v2_located l p f g -> 0 <= b -> b + n <= pg_payload_length g -> v2_interval l p b n = Ok g.
Proof.
  intros L Hb Hle. pose proof (vl_payload _ _ _ _ L) as Hpay. unfold v2_interval. rewrite (v2_piece_ok l p f g L), ok_bind.
  rewrite checked_add_fits by lia. obind. by rewrite (proj2 (Z.ltb_ge (pg_payload_length g) (b + n))) by lia.
Qed.
Lemma v2_interval_over l p b n f g : v2_located l p f g -> pg_payload_length g < b + n ->
  v2_interval l p b n = Err (IntervalOutOfRange p b n (pg_payload_length g)).
Proof.
  intros L Hgt. unfold v2_interval. rewrite (v2_piece_ok l p f g L), ok_bind. unfold checked_add.
  destruct (Z.ltb_spec (b + n) (2 ^ 32)); obind; [|done]. by rewrite (proj2 (Z.ltb_lt (pg_payload_length g) (b + n))) by lia.
Qed.
Lemma v2_file_segments_ok c l fs p b n f g : v2_content c l fs -> v2_located l p f g -> 0 <= b -> 0 < n -> b + n <= pg_payload_length g ->
  content_file_segments c p b n = Ok [mkFileSegment b 0 n (pg_file_index g) (pg_file_offset g + b) false].
Proof.
  intros Hc L Hb Hn Hle. pose proof (vl_payload _ _ _ _ L) as Hpay. pose proof (vl_inside _ _ _ _ L) as Hin.
  unfold content_file_segments. destruct Hc as [-> | ->]; rewrite (proj2 (Z.eqb_neq n 0)) by lia;
    (rewrite (v2_interval_ok l p b n f g) by done; rewrite ok_bind; unfold USIZE; rewrite (try_u_fits 64 n) by lia; obind;
     rewrite checked_add_fits by lia; by obind).
Qed.
Lemma v2_segments_ok c l fs p b n sel f g : v2_content c l fs -> selection_file_count sel = len fs -> v2_located l p f g ->
  0 <= b -> 0 < n -> b + n <= pg_payload_length g ->
  content_segments c p b n sel = Ok [with_target sel (mkFileSegment b 0 n (pg_file_index g) (pg_file_offset g + b) false)].
Proof.
  intros Hc Hsel L Hb Hn Hle. pose proof (vl_payload _ _ _ _ L) as Hpay. pose proof (vl_inside _ _ _ _ L) as Hin.
  unfold content_segments, with_target, target_of. cbn.
  destruct Hc as [-> | ->]; rewrite (proj2 (Z.eqb_neq n 0)), (proj2 (Z.eqb_eq _ _) Hsel) by lia; cbn [negb];
    (rewrite (v2_interval_ok l p b n f g) by done; rewrite ok_bind; rewrite checked_add_fits by lia; obind;
     unfold USIZE; rewrite (try_u_fits 64 n) by lia; by obind).
Qed.

(** An interval of a v2 piece lies in one file.  Inside a piece the
    interval is one segment of the file that owns the piece, never padding,
    inside that file and at the place of the torrent's piece space where the
    interval is; with a selection the segment says whether that file is
    wanted.  The same inputs are refused as for v1 torrents. *)
Theorem v2_segments_exact c l fs p b n sel : v2_content c l fs -> v2_ok l fs -> selection_file_count sel = len fs ->
  is_u 32 p -> is_u 32 b -> is_u 32 n ->
  match content_file_segments c p b n with
  | Ok segs => exists f s, segs = [s] /\ content_segments c p b n sel = Ok [with_target sel s]
      /\ 0 < n /\ p < l_piece_count l /\ b + n <= l_piece_length l
      /\ s = mkFileSegment b 0 n (fs_file_index s) (fs_file_offset s) false
      /\ nth_get (l_files l) (fs_file_index s) = Some f
      /\ 0 <= fs_file_offset s /\ fs_file_offset s + n <= V2Layout.length f
      /\ logical_offset f + fs_file_offset s = p * l_piece_length l + b
  | Err EmptyInterval => n = 0
  | Err (StorageLayout.InvalidPieceIndex i count) => i = p /\ count = l_piece_count l /\ l_piece_count l <= p
  | Err (IntervalOutOfRange i b' n' m) => i = p /\ b' = b /\ n' = n /\ content_piece_length_at c p = Ok m /\ m < b + n
  | _ => False
  end.
Proof.
  unfold is_u. intros Hc [H _] Hsel Hp Hb Hn. destruct (decide (n = 0)) as [->|Hne]; [by destruct Hc as [-> | ->]|].
  destruct (Z.le_gt_cases (l_piece_count l) p) as [Hge|Hlt].
  { unfold content_file_segments, v2_interval. by destruct Hc as [-> | ->]; rewrite (proj2 (Z.eqb_neq n 0)), v2_piece_out by done. }
  destruct (v2_piece_at l p H ltac:(lia)) as (f & g & L). pose proof (vl_inside _ _ _ _ L) as Hin.
  destruct (Z.le_gt_cases (b + n) (pg_payload_length g)) as [Hle|Hgt].
  - rewrite (v2_file_segments_ok c l fs p b n f g), (v2_segments_ok c l fs p b n sel f g) by (done || lia). exists f, (mkFileSegment b 0 n (pg_file_index g) (pg_file_offset g + b) false).
    pose proof (vl_logical _ _ _ _ L) as Hlog. pose proof (vl_file _ _ _ _ L) as Hf.
    assert (pg_payload_length g <= l_piece_length l) by (rewrite (vl_geometry _ _ _ _ L); unfold piece_of; cbn; lia).
    cbn. split_and!; done || lia.
  - unfold content_file_segments, content_piece_length_at. destruct Hc as [-> | ->]; rewrite (proj2 (Z.eqb_neq n 0)) by done;
      rewrite (v2_interval_over l p b n f g) by done; obind; rewrite (v2_piece_ok l p f g L), ok_bind; by split_and!.
Qed.

(** Requests of a v2 piece.  Of a piece of a wanted file every byte is
    requested, in order, in nonempty requests of at most a block that do not
    overlap; nothing is requested of a piece of a file that is not wanted; an
    unknown piece is refused. *)
Theorem v2_requests_exact c l fs p sel : v2_content c l fs -> v2_ok l fs -> 0 <= p ->
  match content_request_ranges c p sel with
  | Ok rs => exists g, V2Layout.piece l p = Ok g
      /\ (is_wanted sel (pg_file_index g) = false -> rs = [])
      /\ (is_wanted sel (pg_file_index g) = true ->
            ascending 0 rs (pg_payload_length g)
            /\ Forall (fun r => r_length r <= MAX_REQUEST_BLOCK_LENGTH) rs
            /\ forall b, in_ranges b rs <-> 0 <= b < pg_payload_length g)
  | Err e => l_piece_count l <= p /\ e = StorageLayout.InvalidPieceIndex p (l_piece_count l)
  | _ => False
  end.
Proof.
  intros Hc [H _] Hp. assert (content_request_ranges c p sel = content_request_ranges (V2 l fs) p sel) as -> by (by destruct Hc as [-> | ->]).
  cbn [content_request_ranges]. destruct (Z.le_gt_cases (l_piece_count l) p) as [Hge|Hlt]; [by rewrite v2_piece_out|].
  destruct (v2_piece_at l p H ltac:(lia)) as (f & g & L). rewrite (v2_piece_ok l p f g L), ok_bind.
  pose proof (vl_payload _ _ _ _ L) as Hpay. pose proof (vl_piece _ _ _ _ L) as Hg.
  destruct (is_wanted sel (pg_file_index g)) eqn:Hw; cbn [negb]; [|by exists g; rewrite Hw].
  destruct (split_blocks_ok (blocks_fuel 0 (pg_payload_length g)) 0 (pg_payload_length g)) as (bs & -> & Hasc & Hin & Hall); [lia..| |].
  { unfold blocks_fuel. lia. }
  exists g. rewrite Hw. split_and!; try done. intros _. split_and!; [apply Hasc; lia|done|done].
Qed.

(** ** The pieces of a file *)

(** What every layout promises of the pieces of a file. *)
Definition range_of_file (c : ContentLayout) (i : Z) (f : MetainfoFile) (r : option (Z * Z)) : Prop :=
  match r with
  | None => f_length f = 0 /\ forall p, 0 <= p < content_piece_count c -> ~ content_has c p i
  | Some (first, last) => f_length f <> 0 /\ 0 <= first <= last /\ last < content_piece_count c
      /\ forall p, 0 <= p < content_piece_count c -> (first <= p <= last <-> content_has c p i)
  end.
Lemma v2_has l i f p : layout_ok l -> nth_get (l_files l) i = Some f -> 0 <= p < l_piece_count l ->
  start_piece f <= p < start_piece f + V2Layout.piece_count f <-> exists g, V2Layout.piece l p = Ok g /\ pg_file_index g = i.
Proof.
  intros H Hf Hp. split.
  - intros Hin. destruct (v2_piece_of_file l i f p H Hf Hin) as (_ & g & L & Hi). exists g. by rewrite (vl_piece _ _ _ _ L).
  - intros (g & Hg & Hi). destruct (v2_piece_at l p H Hp) as (f' & g' & L). rewrite (vl_piece _ _ _ _ L) in Hg. injection Hg as ->.
    pose proof (vl_file _ _ _ _ L) as Hf'. rewrite Hi, Hf in Hf'. injection Hf' as ->. apply L.
Qed.
Lemma v2_range_ok l fs i f g : v2_ok l fs -> nth_get fs i = Some f -> nth_get (l_files l) i = Some g -> describes f g -> f_length f <> 0 ->
  0 <= start_piece g /\ 0 < V2Layout.piece_count g /\ start_piece g + V2Layout.piece_count g <= l_piece_count l
  /\ f_offset f = start_piece g * l_piece_length l /\ start_piece g * l_piece_length l < 2 ^ 64.
Proof.
  intros [H _] Hf Hg (Hl & Ho & _) Hne. pose proof (piece_length_bounds _ (lo_piece_length _ H)) as Hn.
  pose proof (geometry_at (l_piece_length l) 0 0 (l_files l) i g ltac:(lia) (lo_files _ H) Hg) as [Lx Ls Le Ll Lc Lo].
  pose proof (div_ceil_bounds (V2Layout.length g) (l_piece_length l) ltac:(lia) ltac:(lia)) as (_ & _ & Hd).
  pose proof (lo_pieces _ H). pose proof (lo_logical _ H). rewrite Ho. split_and!; first [lia|nia].
Qed.
Lemma v2_empty l i g : layout_ok l -> nth_get (l_files l) i = Some g -> V2Layout.length g = 0 -> V2Layout.piece_count g = 0.
Proof.
  intros H Hg Hz. pose proof (piece_length_bounds _ (lo_piece_length _ H)) as Hn.
  pose proof (geometry_at (l_piece_length l) 0 0 (l_files l) i g ltac:(lia) (lo_files _ H) Hg) as [_ _ _ _ Lc _].
  by rewrite Lc, Hz, div_ceil_0 by lia.
Qed.
Lemma content_range_ok c i : content_ok c ->
  match content_file_piece_range c i with
  | Ok r => exists f, nth_get (content_files c) i = Some f /\ range_of_file c i f r
  | Err e => nth_get (content_files c) i = None /\ e = StorageLayout.InvalidFileIndex i (len (content_files c))
  | _ => False
  end.
Proof.
  assert (forall l fs, v2_ok l fs -> match content_file_piece_range (V2 l fs) i with
    | Ok r => exists f, nth_get fs i = Some f /\ range_of_file (V2 l fs) i f r
    | Err e => nth_get fs i = None /\ e = StorageLayout.InvalidFileIndex i (len fs)
    | _ => False end) as Hv2.
  { intros l fs H. cbn [content_file_piece_range]. destruct (nth_get fs i) as [f|] eqn:Hf; [|done]. obind.
    destruct (describes_nth _ _ i f (proj2 H) Hf) as (g & Hg & Hd). destruct (Z.eqb_spec (f_length f) 0) as [Hz|Hne].
    { exists f. split; [done|]. split; [done|]. intros p Hp Hhas%(v2_has l i g p (proj1 H) Hg Hp).
      rewrite (v2_empty l i g) in Hhas; [lia|apply H|done|]. destruct Hd as (Hl & _). by rewrite <- Hl. }
    destruct (v2_range_ok l fs i f g H Hf Hg Hd Hne) as (H0 & H1 & H2 & _).
    rewrite file_piece_range_exact, Hg by apply H. obind. rewrite checked_sub_fits by (cbn; lia). obind. exists f. cbn. split; [done|].
    split_and!; try done; try lia. intros p Hp. rewrite <- (v2_has l i g p (proj1 H) Hg Hp). lia. }
  destruct c as [l|l fs|l fs]; [|apply Hv2..]. intros H. cbn. destruct (nth_get (files l) i) as [f|] eqn:Hf; [|by unfold file_piece_range; rewrite Hf].
  destruct (decide (f_length f = 0)) as [Hz|Hne].
  - unfold file_piece_range. rewrite Hf. obind. rewrite (proj2 (Z.eqb_eq _ _) Hz). exists f. split; [done|]. split; [done|].
    intros p _ (t & i' & f' & _ & [Hf' Hst] & ->). assert (f' = f) as -> by congruence. lia.
  - destruct (file_piece_range_eq l i f H Hf Hne) as (-> & Hrest). exists f. split; [done|]. by split.
Qed.

(** The place of a file.  For every kind of torrent the offset of a file
    in the space of pieces is the offset recorded for it, unless the file is
    empty, and an unknown file is refused. *)
Theorem space_offset_exact c i : content_ok c ->
  match nth_get (content_files c) i with
  | Some f => f_length f <> 0 -> file_piece_space_offset c i = Ok (f_offset f)
  | None => file_piece_space_offset c i = Err (StorageLayout.InvalidFileIndex i (len (content_files c)))
  end.
Proof.
  assert (forall l fs, v2_ok l fs -> match nth_get fs i with
    | Some f => f_length f <> 0 -> file_piece_space_offset (V2 l fs) i = Ok (f_offset f)
    | None => file_piece_space_offset (V2 l fs) i = Err (StorageLayout.InvalidFileIndex i (len fs)) end) as Hv2.
  { intros l fs H. cbn [file_piece_space_offset]. destruct (nth_get fs i) as [f|] eqn:Hf; [|done]. intros Hne. obind.
    destruct (describes_nth _ _ i f (proj2 H) Hf) as (g & Hg & Hd). destruct (v2_range_ok l fs i f g H Hf Hg Hd Hne) as (H0 & H1 & H2 & -> & Hlt).
    rewrite file_piece_range_exact, Hg by apply H. obind. cbn [fst]. by rewrite checked_mul_fits. }
  destruct c as [l|l fs|l fs]; [|apply Hv2..]. intros _. cbn. by destruct (nth_get (files l) i).
Qed.

(** ** Priorities *)
Lemma raise_pieces_ok pieces ps : Forall (fun p => 0 <= p < len ps) pieces ->
  exists ps', raise_pieces pieces ps = Ok ps' /\ len ps' = len ps
    /\ forall p, nth_get ps' p = if bool_decide (p ∈ pieces) then Some High else nth_get ps p.
Proof.
  revert ps. induction pieces as [|p r IH]; intros ps Hall; [by exists ps|]. apply Forall_cons in Hall as [Hp Hall]. cbn [raise_pieces].
  unfold index. destruct (nth_get ps p) as [x|] eqn:Hx; [|unfold nth_get in Hx; rewrite (proj2 (Z.leb_le 0 p)) in Hx by lia;
    apply lookup_ge_None in Hx; unfold len in Hp; lia]. obind.
  assert (len (<[Z.to_nat p := High]> ps) = len ps) as Hlen by (unfold len; by rewrite length_insert).
  destruct (IH (<[Z.to_nat p := High]> ps)) as (ps' & -> & Hl & Hn); [by rewrite Hlen|]. exists ps'. split; [done|]. split; [lia|].
  intros q. rewrite Hn. destruct (decide (q ∈ r)) as [Hr|Hr]; [by rewrite !bool_decide_true by (rewrite ?elem_of_cons; auto)|].
  rewrite (bool_decide_false (q ∈ r)) by done. destruct (decide (q = p)) as [->|Hne].
  - rewrite bool_decide_true by (rewrite elem_of_cons; auto). unfold nth_get. rewrite (proj2 (Z.leb_le 0 p)) by lia.
    rewrite list_lookup_insert_eq; [done|]. unfold len in Hp. lia.
  - rewrite bool_decide_false by (rewrite elem_of_cons; tauto). unfold nth_get. destruct (Z.leb_spec 0 q); [|done].
    apply list_lookup_insert_ne. lia.
Qed.
Lemma elem_of_pieces p r : p ∈ pieces_in r <-> r.1 <= p <= r.2.
Proof. unfold pieces_in. rewrite elem_of_seqZ. lia. Qed.

Lemma v2_count_nonneg l : layout_ok l -> 0 <= l_piece_count l.
Proof.
  intros H. pose proof (piece_length_bounds _ (lo_piece_length _ H)). rewrite (lo_pieces _ H). eapply total_pieces_nonneg; [|apply H]. lia.
Qed.
Lemma content_count_nonneg c : content_ok c -> 0 <= content_piece_count c.
Proof.
  destruct c as [l|l fs|l fs]; cbn; intros H; [|by apply v2_count_nonneg, H..].
  rewrite (v1_count _ H). pose proof (v1_piece_length _ H). pose proof (v1_total _ H). apply div_ceil_bounds; lia.
Qed.

(** A file that may be given high priority. *)
Definition may_be_high (c : ContentLayout) (sel : FileSelection) (i : Z) : Prop :=
  exists f, nth_get (content_files c) i = Some f /\ padding f = false /\ is_wanted sel i = true.
Definition has_high (c : ContentLayout) (high : list Z) (p : Z) : Prop := exists i, i ∈ high /\ content_has c p i.
(** Why the list of high files is refused. *)
Definition refused (c : ContentLayout) (sel : FileSelection) (high : list Z) (e : LayoutError) : Prop :=
  match e with
  | StorageLayout.InvalidFileIndex i n => i ∈ high /\ n = len (content_files c) /\ nth_get (content_files c) i = None
  | InvalidPriorityFileOrder previous i => i <= previous /\ previous ∈ high /\ i ∈ high
  | PaddingSelection i => i ∈ high /\ exists f, nth_get (content_files c) i = Some f /\ padding f = true
  | PriorityForSkippedFile i => i ∈ high /\ is_wanted sel i = false
  | _ => False
  end.
Definition resolved (c : ContentLayout) (high : list Z) (ps : list PiecePriority) : Prop :=
  len ps = content_piece_count c
  /\ forall p, 0 <= p < content_piece_count c ->
       (nth_get ps p = Some High /\ has_high c high p) \/ (nth_get ps p = Some Normal /\ ~ has_high c high p).
Lemma has_high_snoc c high i p : has_high c (high ++ [i]) p <-> has_high c high p \/ content_has c p i.
Proof.
  unfold has_high. split.
  - intros (j & [Hj|Hj]%elem_of_app & Hp); [left; by exists j|]. apply list_elem_of_singleton in Hj as ->. by right.
  - intros [(j & Hj & Hp)|Hp]; [exists j|exists i]; (split; [|done]); apply elem_of_app; [by left|right; by apply list_elem_of_singleton].
Qed.
Lemma raise_range_ok c i f r high ps : resolved c high ps -> range_of_file c i f r ->
  exists ps', raise_pieces (match r with Some r => pieces_in r | None => [] end) ps = Ok ps' /\ resolved c (high ++ [i]) ps'.
Proof.
  intros [Hlen Hps] Hr. destruct r as [[a b]|]; cbn in Hr.
  - destruct Hr as (_ & Ha & Hb & Hiff). destruct (raise_pieces_ok (pieces_in (a, b)) ps) as (ps' & -> & Hl & Hn).
    { apply Forall_forall. intros p Hp%elem_of_pieces. cbn in Hp. lia. }
    exists ps'. split; [done|]. split; [lia|]. intros p Hp. rewrite Hn, has_high_snoc. case_bool_decide as Hin.
    + left. split; [done|]. right. apply (Hiff p Hp). by apply elem_of_pieces in Hin.
    + assert (~ content_has c p i) as Hno by (rewrite <- (Hiff p Hp); by rewrite elem_of_pieces in Hin).
      destruct (Hps p Hp); [left|right]; tauto.
  - destruct Hr as [_ Hno]. exists ps. split; [done|]. split; [done|]. intros p Hp. rewrite has_high_snoc. specialize (Hno p Hp).
    destruct (Hps p Hp); [left|right]; tauto.
Qed.
Lemma ascending_snoc (l : list Z) i : StronglySorted Z.lt l -> (forall j, last l = Some j -> j < i) -> StronglySorted Z.lt (l ++ [i]).
Proof.
  intros Hs Hl. apply StronglySorted_app_2; [|done|by repeat constructor]. intros x y Hx Hy%list_elem_of_singleton. subst y.
  induction l as [|j l _] using rev_ind; [by apply elem_of_nil in Hx|]. rewrite last_snoc in Hl. specialize (Hl j eq_refl).
  apply elem_of_app in Hx as [Hx|Hx%list_elem_of_singleton]; [|by subst].
  assert (x < j); [|lia]. apply (StronglySorted_app_1_elem_of Z.lt l [j]); try done. by apply list_elem_of_singleton.
Qed.
Lemma last_elem {A} (l : list A) x : last l = Some x -> x ∈ l.
Proof. intros H. apply last_Some in H as (l' & ->). apply elem_of_app. right. by apply list_elem_of_singleton. Qed.

Lemma raise_files_ok c sel high : content_ok c -> forall before ps, resolved c before ps ->
  StronglySorted Z.lt before -> Forall (may_be_high c sel) before ->
  match raise_files c sel high (last before) ps with
  | Ok ps' => resolved c (before ++ high) ps' /\ StronglySorted Z.lt (before ++ high) /\ Forall (may_be_high c sel) (before ++ high)
  | Err e => refused c sel (before ++ high) e
  | _ => False
  end.
Proof.
  intros Hc. induction high as [|i r IH]; intros before ps Hps Hs Hmay; cbn [raise_files]; [by rewrite app_nil_r|].
  assert (i ∈ before ++ i :: r) as Hi by (apply elem_of_app; right; by left).
  destruct (nth_get (content_files c) i) as [f|] eqn:Hf; [|by obind]. obind.
  assert (forall j, last before = Some j -> j ∈ before ++ i :: r) as Hj by (intros j Hj%last_elem; apply elem_of_app; by left).
  assert (follows (last before) i = Ok () /\ (forall j, last before = Some j -> j < i)
          \/ exists j, last before = Some j /\ i <= j /\ follows (last before) i = Err (InvalidPriorityFileOrder j i)) as [[-> Hlt]|(j & Hl & Hle & ->)].
  { unfold follows. destruct (last before) as [j|]; [|by left]. destruct (Z.leb_spec i j); [right; by exists j|left].
    split; [done|]. by intros ? [= <-]. }
  2:{ obind. split_and!; auto. }
  obind. destruct (padding f) eqn:Hpad; [split; [done|by exists f]|]. destruct (is_wanted sel i) eqn:Hw; cbn [negb]; [|done].
  pose proof (content_range_ok c i Hc) as Hr. destruct (content_file_piece_range c i) as [rg|e| |]; [|by destruct Hr; congruence|done..].
  obind. destruct Hr as (f' & Hf' & Hr). destruct (raise_range_ok c i f' rg before ps Hps Hr) as (ps' & -> & Hps'). obind.
  assert (Some i = last (before ++ [i])) as -> by (by rewrite last_snoc).
  specialize (IH (before ++ [i]) ps' Hps' (ascending_snoc _ _ Hs Hlt)). rewrite <- app_assoc in IH. apply IH.
  apply Forall_app. split; [done|]. apply Forall_singleton. by exists f.
Qed.

(** Priorities of pieces.  For every kind of torrent the list of high
    files gives every piece one priority: high when one of these files has a
    byte in the piece, normal otherwise.  The list is accepted when it is
    strictly ascending and names files that exist, are no padding and are
    wanted; a refusal names the file that is at fault. *)
Theorem piece_priorities_exact c sel high : content_ok c ->
  match piece_priorities c sel high with
  | Ok ps => selection_file_count sel = len (content_files c) /\ resolved c high ps
      /\ StronglySorted Z.lt high /\ Forall (may_be_high c sel) high
  | Err e => refused c sel high e
      \/ selection_file_count sel <> len (content_files c) /\ e = StorageLayout.InvalidFileIndex (selection_file_count sel) (len (content_files c))
  | _ => False
  end.
Proof.
  intros Hc. unfold piece_priorities. destruct (Z.eqb_spec (selection_file_count sel) (len (content_files c))) as [Hsel|Hne]; [|by right]. cbn [negb].
  pose proof (content_count_nonneg c Hc) as Hcount.
  pose proof (raise_files_ok c sel high Hc [] (replicate (Z.to_nat (content_piece_count c)) Normal)) as H. cbn [last app] in H.
  assert (resolved c [] (replicate (Z.to_nat (content_piece_count c)) Normal)) as H0.
  { split; [unfold len; rewrite length_replicate; lia|]. intros p Hp. right. split.
    - unfold nth_get. rewrite (proj2 (Z.leb_le 0 p)) by lia. apply lookup_replicate_2. lia.
    - intros (i & Hi%elem_of_nil & _). done. }
  specialize (H H0 ltac:(constructor) ltac:(constructor)). destruct (raise_files _ _ _ _ _); try done; by left.
Qed.

(** ** The payload of a selection of v2 files *)
Fixpoint sum_over (f : Z -> Z) (ps : list Z) : Z := match ps with [] => 0 | p :: r => f p + sum_over f r end.
Lemma sum_over_app f ps qs : sum_over f (ps ++ qs) = sum_over f ps + sum_over f qs.
Proof. induction ps as [|p ps IH]; cbn; lia. Qed.
Lemma sum_over_ext f g ps : Forall (fun p => f p = g p) ps -> sum_over f ps = sum_over g ps.
Proof. induction 1; cbn; congruence. Qed.
Lemma sum_over_bounds f g ps : Forall (fun p => 0 <= f p <= g p) ps -> 0 <= sum_over f ps <= sum_over g ps.
Proof. induction 1; cbn; lia. Qed.
Lemma seqZ_split a n m : 0 <= n -> 0 <= m -> seqZ a (n + m) = seqZ a n ++ seqZ (a + n) m.
Proof. apply seqZ_app. Qed.
Lemma seqZ_one a : seqZ a 1 = [a].
Proof. unfold seqZ. cbn. f_equal. Qed.

(** The bytes of a file cut in [n] pieces from piece [start] on. *)
Lemma sum_pieces_of_file n start size k : 0 < n -> 0 <= k -> 0 < k -> (k - 1) * n < size ->
  sum_over (fun p => Z.min n (size - (p - start) * n)) (seqZ start k) = Z.min (k * n) size.
Proof.
  intros Hn Hk. pattern k. apply natlike_ind; [lia| |done]. clear k Hk. intros k Hk IH _ Hs.
  replace (Z.succ k) with (k + 1) by lia. rewrite seqZ_split by lia. rewrite sum_over_app, seqZ_one. cbn [sum_over]. destruct (decide (k = 0)) as [->|Hne].
  - change (seqZ start 0) with (@nil Z). cbn [sum_over]. lia.
  - rewrite IH by nia. nia.
Qed.

Definition piece_bytes (l : V2TorrentLayout) (sel : FileSelection) (p : Z) : Z :=
  match V2Layout.piece l p with
  | Ok g => if is_wanted sel (pg_file_index g) then pg_payload_length g else 0
  | _ => 0
  end.
Definition wanted_bytes (sel : FileSelection) (fs : list V2FileGeometry) : Z :=
  foldr (fun f acc => (if is_wanted sel (file_index f) then V2Layout.length f else 0) + acc) 0 fs.

Lemma wanted_pieces l sel pre fs start : layout_ok l -> l_files l = pre ++ fs ->
  geometry_ok (l_piece_length l) (len pre) start fs -> sum_over (piece_bytes l sel) (seqZ start (total_pieces fs)) = wanted_bytes sel fs.
Proof.
  intros H. pose proof (piece_length_bounds _ (lo_piece_length _ H)) as Hn. revert pre start.
  induction fs as [|f r IH]; intros pre start E Hg; [done|]. pose proof Hg as (Hx & Hs & Hl & Hc & Ho & Hr).
  assert (nth_get (l_files l) (len pre) = Some f) as Hf.
  { rewrite E. by rewrite nth_get_app_len. }
  pose proof (div_ceil_bounds (V2Layout.length f) (l_piece_length l) ltac:(lia) ltac:(lia)) as (Hd0 & Hd1 & Hd2).
  pose proof (total_pieces_nonneg (l_piece_length l) _ _ r ltac:(lia) Hr) as Ht. cbn [total_pieces wanted_bytes foldr].
  rewrite seqZ_split, sum_over_app by lia. f_equal.
  2:{ apply (IH (pre ++ [f])); [by rewrite <- app_assoc|]. unfold len in *. rewrite length_app. cbn.
      replace (Z.of_nat (Datatypes.length pre + 1)) with (Z.of_nat (Datatypes.length pre) + 1) by lia. done. }
  rewrite (sum_over_ext _ (fun p => if is_wanted sel (file_index f) then Z.min (l_piece_length l) (V2Layout.length f - (p - start) * l_piece_length l) else 0)).
  2:{ apply Forall_forall. intros p Hp%elem_of_seqZ. destruct (v2_piece_of_file l (len pre) f p H Hf ltac:(lia)) as (_ & g & L & Hi).
      unfold piece_bytes. rewrite (vl_piece _ _ _ _ L), Hi, Hx, (vl_geometry _ _ _ _ L). cbn. by rewrite Hs. }
  destruct (is_wanted sel (file_index f)).
  - destruct (decide (V2Layout.length f = 0)) as [Hz|Hz]; [rewrite Hc, Hz, div_ceil_0 by lia; done|].
    rewrite sum_pieces_of_file by lia. lia.
  - clear. generalize (seqZ start (V2Layout.piece_count f)). intros ps. induction ps; cbn; lia.
Qed.

Lemma whole_v2_piece c l fs sel p : v2_content c l fs -> v2_ok l fs -> selection_file_count sel = len fs -> 0 <= p < l_piece_count l ->
  exists f g segs, v2_located l p f g /\ content_piece_length_at c p = Ok (pg_payload_length g)
    /\ content_segments c p 0 (pg_payload_length g) sel = Ok segs
    /\ existsb (fun s => is_wanted_target (s_target s)) segs = is_wanted sel (pg_file_index g).
Proof.
  intros Hc [H _] Hsel Hp. destruct (v2_piece_at l p H Hp) as (f & g & L). pose proof (vl_payload _ _ _ _ L) as Hpay.
  exists f, g. eexists. split; [done|]. split.
  { unfold content_piece_length_at. by destruct Hc as [-> | ->]; rewrite (v2_piece_ok l p f g L). }
  split; [by eapply v2_segments_ok; try done; lia|]. cbn. rewrite orb_false_r. unfold target_of. cbn. by destruct (is_wanted _ _).
Qed.
Lemma piece_bytes_bounds l sel ps : layout_ok l -> Forall (fun p => 0 <= p < l_piece_count l) ps -> 0 <= sum_over (piece_bytes l sel) ps.
Proof.
  intros H Hps. apply (sum_over_bounds _ (piece_bytes l sel)). eapply Forall_impl; [exact Hps|]. intros p Hp. unfold piece_bytes.
  destruct (v2_piece_at l p H Hp) as (f & g & L). rewrite (vl_piece _ _ _ _ L). pose proof (vl_payload _ _ _ _ L).
  destruct (is_wanted _ _); lia.
Qed.
Lemma count_payload_ok c l fs sel all : v2_content c l fs -> v2_ok l fs -> selection_file_count sel = len fs -> len all = l_piece_count l ->
  forall h pre required verified, all = pre ++ h -> 0 <= verified <= required ->
  required + sum_over (piece_bytes l sel) (seqZ (len pre) (len h)) < 2 ^ 64 ->
  count_payload c sel h (len pre) required verified =
    Ok (mkRequired (required + sum_over (piece_bytes l sel) (seqZ (len pre) (len h)))
          (verified + sum_over (fun p => if have_piece all p then piece_bytes l sel p else 0) (seqZ (len pre) (len h)))).
Proof.
  intros Hc Hl Hsel Hall. induction h as [|v r IH]; intros pre required verified E Hv Hlt; cbn [count_payload].
  { change (len (@nil bool)) with 0. change (seqZ (len pre) 0) with (@nil Z). cbn. by rewrite !Z.add_0_r. }
  assert (len all = len pre + (1 + len r)) as Hlen by (rewrite E; unfold len; rewrite length_app; cbn; lia).
  assert (len (v :: r) = 1 + len r) as Hcons by (unfold len; cbn; lia). pose proof (len_nonneg pre). pose proof (len_nonneg r).
  rewrite Hcons, seqZ_split, seqZ_one in Hlt |- * by lia. rewrite sum_over_app in Hlt. rewrite !sum_over_app. cbn [sum_over] in Hlt |- *.
  pose proof (lo_typed _ (proj1 Hl)) as Hty. rewrite (try_u_fits 32 (len pre)) by lia. obind.
  destruct (whole_v2_piece c l fs sel (len pre) Hc Hl Hsel ltac:(lia)) as (f & g & segs & L & E1 & E2 & E3). rewrite E1. obind. rewrite E2. obind. rewrite E3.
  assert (have_piece all (len pre) = v) as ->.
  { unfold have_piece. by rewrite E, nth_get_app_len. }
  assert (piece_bytes l sel (len pre) = if is_wanted sel (pg_file_index g) then pg_payload_length g else 0) as Hb
    by (unfold piece_bytes; by rewrite (vl_piece _ _ _ _ L)).
  pose proof (vl_payload _ _ _ _ L) as Hpay.
  assert (forall req ver, req = required + piece_bytes l sel (len pre) -> ver = verified + (if v then piece_bytes l sel (len pre) else 0) ->
    count_payload c sel r (len pre + 1) req ver = Ok (mkRequired
      (required + (piece_bytes l sel (len pre) + 0 + sum_over (piece_bytes l sel) (seqZ (len pre + 1) (len r))))
      (verified + ((if v then piece_bytes l sel (len pre) else 0) + 0
         + sum_over (fun p => if have_piece all p then piece_bytes l sel p else 0) (seqZ (len pre + 1) (len r)))))) as Hrest.
  { intros req ver -> ->. assert (len pre + 1 = len (pre ++ [v])) as Hp1 by (unfold len; rewrite length_app; cbn; lia). rewrite Hp1 in Hlt |- *.
    assert (0 <= piece_bytes l sel (len pre)) by (rewrite Hb; destruct (is_wanted _ _); lia).
    rewrite IH; [do 2 f_equal; lia|by rewrite <- app_assoc|destruct v; lia|lia]. }
  assert (0 <= sum_over (piece_bytes l sel) (seqZ (len pre + 1) (len r))) as Hnn.
  { apply piece_bytes_bounds; [apply Hl|]. apply Forall_forall. intros q Hq%elem_of_seqZ. lia. }
  destruct (is_wanted sel (pg_file_index g)); cbn [negb]; [|apply Hrest; destruct v; lia].
  obind. rewrite (checked_add_fits 64 required) by lia. obind. destruct v; cbv iota; [rewrite (checked_add_fits 64 verified) by lia|]; obind; apply Hrest; lia.
Qed.

Lemma wanted_bytes_bounds sel fs n i s : geometry_ok n i s fs -> 0 <= wanted_bytes sel fs <= total_payload fs.
Proof.
  revert i s. induction fs as [|f r IH]; intros i s Hg; cbn; [lia|]. destruct Hg as (_ & _ & Hl & _ & _ & Hr). specialize (IH _ _ Hr).
  fold (wanted_bytes sel r). destruct (is_wanted _ _); lia.
Qed.

(** The payload that a v2 download needs.  The loop over all pieces
    counts exactly the lengths of the wanted files, and as verified the bytes
    of the verified pieces of these files; it does not overflow.  A selection
    or a set of pieces of the wrong size is refused. *)
Theorem v2_required_payload_exact c l fs sel h : v2_content c l fs -> v2_ok l fs ->
  match content_required_payload c sel h with
  | Ok g => selection_file_count sel = len fs /\ len h = l_piece_count l
      /\ required_payload_bytes g = wanted_bytes sel (l_files l)
      /\ verified_required_payload_bytes g = sum_over (fun p => if have_piece h p then piece_bytes l sel p else 0) (seqZ 0 (l_piece_count l))
  | Err (StorageLayout.InvalidFileIndex i n) => i = selection_file_count sel /\ n = len fs /\ i <> n
  | Err (InvalidHaveLength n count) => n = len h /\ count = l_piece_count l /\ n <> count
  | _ => False
  end.
Proof.
  intros Hc Hl. pose proof (lo_typed _ (proj1 Hl)) as [_ Hty]. pose proof (lo_files _ (proj1 Hl)) as Hg.
  pose proof (wanted_pieces l sel [] (l_files l) 0 (proj1 Hl) eq_refl Hg) as Hsum.
  pose proof (wanted_bytes_bounds sel _ _ _ _ Hg) as Hb. rewrite (lo_payload _ (proj1 Hl)) in Hty. rewrite <- (lo_pieces _ (proj1 Hl)) in Hsum.
  assert (content_required_payload c sel h = if negb (selection_file_count sel =? len fs) then Err (StorageLayout.InvalidFileIndex (selection_file_count sel) (len fs))
    else if negb (len h =? l_piece_count l) then Err (InvalidHaveLength (len h) (l_piece_count l)) else count_payload c sel h 0 0 0) as ->
    by (by destruct Hc as [-> | ->]).
  destruct (Z.eqb_spec (selection_file_count sel) (len fs)) as [Hsel|Hne]; cbn [negb]; [|done].
  destruct (Z.eqb_spec (len h) (l_piece_count l)) as [Hh|Hne]; cbn [negb]; [|done].
  change 0 with (len (@nil bool)) at 1. rewrite (count_payload_ok c l fs sel h Hc Hl Hsel Hh h [] 0 0 eq_refl) by (change (len (@nil bool)) with 0; rewrite ?Hh, ?Hsum; lia).
  change (len (@nil bool)) with 0. rewrite Hh, Hsum. cbn. split_and!; done || lia.
Qed.

(** ** Witnesses *)
Definition v2_sample_files : list MetainfoFile :=
  geometry_files (map (fun n => (["f"%string], n)) sample_lengths) sample_layout.
Definition v2_sample : ContentLayout := V2 sample_layout v2_sample_files.
Definition v2_sample_selection : FileSelection := mkSelection [true; true; true; false; true; true; true].
Lemma v2_sample_ok : v2_ok sample_layout v2_sample_files.
Proof. apply geometry_files_ok; [apply sample_layout_ok|]. vm_compute. by repeat constructor. Qed.
Lemma v2_segments_exact_witness :
  content_segments v2_sample 4 0 1 v2_sample_selection = Ok [mkSegment 0 0 1 (WantedFile 5 16384)] /\ 16384 + 1 <= 16385.
Proof.
  pose proof (v2_segments_exact v2_sample sample_layout v2_sample_files 4 0 1 v2_sample_selection (or_introl eq_refl) v2_sample_ok eq_refl
    ltac:(done) ltac:(done) ltac:(done)) as H.
  assert (content_file_segments v2_sample 4 0 1 = Ok [mkFileSegment 0 0 1 5 16384 false]) as E by (vm_compute; exact eq_refl).
  rewrite E in H. destruct H as (f & s & Hs & -> & _ & _ & _ & _ & Hf & _ & Hin & _). injection Hs as <-. split; [exact eq_refl|].
  assert (V2Layout.length f = 16385) as Hl by (vm_compute in Hf; injection Hf as <-; exact eq_refl). rewrite Hl in Hin. exact Hin.
Defined.
Lemma v2_requests_exact_witness : ascending 0 [mkRange 0 16384] 16384.
Proof.
  pose proof (v2_requests_exact v2_sample sample_layout v2_sample_files 3 v2_sample_selection (or_introl eq_refl) v2_sample_ok ltac:(done)) as H.
  assert (content_request_ranges v2_sample 3 v2_sample_selection = Ok [mkRange 0 16384]) as E by (vm_compute; exact eq_refl).
  rewrite E in H. destruct H as (g & Hg & _ & H).
  assert (g = mkPieceGeometry 3 5 0 49152 0 16384) as -> by (vm_compute in Hg; congruence). by apply H.
Defined.
Lemma space_offset_exact_witness : file_piece_space_offset v2_sample 5 = Ok 49152.
Proof. exact (space_offset_exact v2_sample 5 v2_sample_ok ltac:(vm_compute; congruence)). Defined.
Lemma piece_priorities_exact_witness :
  resolved v2_sample [1; 5] [High; Normal; Normal; High; High] /\ may_be_high v2_sample v2_sample_selection 5.
Proof.
  pose proof (piece_priorities_exact v2_sample v2_sample_selection [1; 5] v2_sample_ok) as H.
  assert (piece_priorities v2_sample v2_sample_selection [1; 5] = Ok [High; Normal; Normal; High; High]) as E by (vm_compute; exact eq_refl).
  rewrite E in H. destruct H as (_ & Hr & _ & Hall). split; [exact Hr|]. by apply (Forall_cons_1 _ _ _ (proj2 (Forall_cons_1 _ _ _ Hall))).
Defined.
Lemma v2_required_payload_exact_witness : 32770 = wanted_bytes v2_sample_selection (l_files sample_layout).
Proof.
  pose proof (v2_required_payload_exact v2_sample sample_layout v2_sample_files v2_sample_selection [true; true; false; false; true]
    (or_introl eq_refl) v2_sample_ok) as H.
  assert (content_required_payload v2_sample v2_sample_selection [true; true; false; false; true] = Ok (mkRequired 32770 2)) as E
    by (vm_compute; exact eq_refl).
  rewrite E in H. apply H.
Defined.
